(* ===== verification/_CoqProject ===== *)
-Q . S2P
Prelude.v
Bytes.v
Bits.v
Image.v
Extent.v
Overlay.v
Preimage.v
Digest.v
Capsule.v
SourceView.v
Recovery.v
Geometry.v
Planner.v
Object.v
Relocate.v
Conversion.v
ActivationBytes.v
Prepare.v
EnvelopeWire.v
EnvelopeHeader.v
EnvelopeCodec.v
Envelope.v
Executor.v
Transaction.v
Runlist.v
FileRecord.v
Lznt1.v
ExfatBoot.v
ExfatRegion.v
ExfatAllocation.v
ExfatImage.v
ExfatFormat.v
ExfatFat.v
ExfatUpcase.v
UpcaseProfile.v
ExfatDirectory.v
ExfatLayout.v
ExfatEntries.v
ExfatSerialize.v
ExfatReadback.v
NtfsAttribute.v
NtfsStream.v
NtfsBitmap.v
NtfsSecurity.v
NtfsBoot.v
