(* ===== verification/Prelude.v ===== *)
(** * Verification of the StarConverter conversion core

    StarConverter turns an NTFS volume into an exFAT volume, or the reverse, in
    place.  This library models the crate [starconverter-core] and proves what
    its parts promise.  Paths below are relative to
    [src/crates/starconverter-core/src/].

    ** The program and its model

    A conversion starts from a parsed source volume, described by an object graph
    ([Object.v]: [object.rs]) over an extent graph ([Extent.v]: [extent.rs]).  The
    preflight planner and the shared vocabulary are in [Planner.v] ([lib.rs]).
    The layout solver ([Geometry.v]: [geometry.rs]) finds the payload that stands
    where the destination puts its metadata and moves it; [Relocate.v] (the end of
    [geometry.rs]) applies the moves to the object graph.  The destination's
    metadata is a set of sector-aligned writes, an overlay ([Overlay.v]:
    [overlay.rs]); [Preimage.v] ([preimage.rs]) captures what the writes replace,
    and [Recovery.v] ([recovery.rs]) encodes the captured bytes.

    The transaction is [conversion.rs] and [executor.rs].  [Conversion.v] is the
    coordinator, which keeps its checkpoints in an append-only capsule
    ([Capsule.v]: [capsule.rs]); [Prepare.v] is the construction and validation of
    a prepared conversion.  The first generation of the capsule holds the prepared
    conversion as a durable envelope ([conversion/prepared_envelope.rs]):
    [EnvelopeWire.v] has its keys, sections and their readers, [EnvelopeHeader.v]
    the header, [EnvelopeCodec.v] the validators, the encoder and the decoder, and
    the instance [envelope_codec] of the class [PreparedEnvelope] against which
    [Prepare.v] is proved; [Envelope.v] proves the codec canonical and composes it
    with the coordinator.  [Executor.v] is the only code that changes the image;
    [Transaction.v] composes the three.  After a restart [ActivationBytes.v]
    ([conversion/activation_bytes.rs]) classifies what the image holds at the
    activation write, and [SourceView.v] ([source_view.rs]) reads the original
    volume through the captured bytes.  [Image.v] ([image.rs]) is the reader
    interface that all of them share, a type class with its laws.

    The on-disk formats are under [fs/].  exFAT, readers: [ExfatBoot.v]
    ([exfat.rs]), [ExfatRegion.v] ([exfat_region.rs]), [ExfatAllocation.v]
    ([exfat_allocation.rs]), [ExfatImage.v] ([exfat_image.rs]), [ExfatDirectory.v]
    ([exfat_directory.rs]), [ExfatUpcase.v] ([exfat_upcase.rs]) and
    [UpcaseProfile.v] ([exfat_upcase_serialize.rs]).  exFAT, writer
    ([exfat_serialize.rs]): [ExfatFormat.v] (geometry and boot regions),
    [ExfatFat.v] (allocation structures), [ExfatLayout.v] (validation and payload
    mapping), [ExfatEntries.v] (directories), [ExfatSerialize.v] (assembly, draft
    and finalizer); [ExfatReadback.v] has no code, it connects the writer with the
    directory parser.  NTFS: [Runlist.v] ([ntfs_runlist.rs] and the encoder of
    [ntfs_serialize.rs]), [FileRecord.v] ([ntfs_record.rs] and the record writer of
    [ntfs_serialize.rs]), [Lznt1.v] ([lznt1.rs]), [NtfsBoot.v] ([ntfs.rs] and
    [ntfs_region.rs]), [NtfsAttribute.v] ([ntfs_attribute.rs]), [NtfsStream.v] (the data
    streams of [ntfs_serialize.rs]), [NtfsBitmap.v] ([ntfs_bitmap.rs]) and
    [NtfsSecurity.v] ([ntfs_security_descriptor.rs]).

    [Prelude.v], [Bytes.v] and [Bits.v] hold what they share: outcomes, machine
    integers, slices, loops, little-endian fields, bit searches, and the tactics.
    A definition has the
    name of the function it translates; a part of a function has a name of its
    own, and the manifest says which lines it is.

    ** Conventions

    A Rust function that can fail is a function into [outcome]: [Ok], [Err] with
    the source's error value, and [Panic] for an abort (an index out of range, an
    arithmetic overflow, a failed [expect]).  Integers are [N] with the width
    written at every operation that can leave it; [usize] has 64 bits.  Loops that
    are not structural carry fuel and answer [Panic] without it, so a theorem that
    excludes [Panic] is a proof of termination too; every such loop is given fuel
    that its theorem shows to be enough (the number of objects, extents, clusters
    or bytes that are left).  [BTreeMap] and [HashMap] are [gmap] where only
    lookups matter and lists in key order where the order does.  [sort_unstable]
    is a stable sort: the elements that compare equal are not distinguished by any
    theorem.  Strings inside errors are kept where the source gives a fixed text,
    and the formatting of messages is not modelled.

    SHA-256 and CRC-32 are third-party code.  [Digest.v] lists them as parameters
    with their result types, and no theorem assumes anything else about them.

    ** What is proved

    The claims are numbered in the order of importance.
    - Safety of a conversion: a crash at any write, followed by recovery, restores
      the source image byte for byte (until activation); a completed forward run
      leaves the target and the payload of every stream; the recovered capsule is
      what was appended, and a torn append is undone, as long as the search for
      generations in the complete capsule is unambiguous (it need not be: see
      [Capsule.shadow_start_is_ambiguous]); a restart reads the prepared conversion
      back from the capsule; a phase history has the order of the protocol; the bytes
      of an interrupted activation are classified, and the original volume reads
      through them as it was ([ActivationBytes.v], [SourceView.v], [Transaction.v], [Executor.v], [Prepare.v], [Envelope.v],
      [Conversion.v], [Capsule.v], [Recovery.v]).
    - Planning: a solved layout moves exactly what must move, into space that
      nothing uses; the relocated graph refines the layout; a graph is accepted
      exactly when it is well formed; the planner is ready exactly when its
      evidence is complete ([Geometry.v], [Relocate.v], [Object.v], [Planner.v]).
    - The exFAT destination: the metadata writes touch no payload, so that after
      all of them every file's clusters hold its bytes ([ExfatSerialize.v]); the
      boot regions, chains and bitmap that are written are accepted by the
      program's own readers and read back as what was asked for ([ExfatFormat.v],
      [ExfatFat.v]), and every directory of the graph reads back from the image as
      one file set for each of its entries ([ExfatReadback.v]).
    - The NTFS destination: the attributes written for a stream, read back, place
      every cluster where its extent does ([NtfsStream.v]).
    - The readers: each accepts exactly the inputs of a declarative contract,
      returns what the bytes say, and terminates without a panic on every input,
      with one exception that is proved ([ExfatDirectory.v]).
    - Codecs: runlists, FILE records, capsule headers, recovery bundles, prepared
      envelopes and up-case tables are round trips; LZNT1 decoding agrees with a
      grammar of the format, except where a match starts at a position at which the
      code widens the offset field one byte early.

    ** What is not modelled

    File locks, [fsync], temporary files and process handling ([capsule_store.rs],
    the file handles of [conversion/regular_image.rs], [candidate_export.rs]),
    because their meaning is the operating system's; allocation failure
    ([try_reserve]); the front ends; test code.  The composition of the
    parsers into a whole-volume inspection (discovery, inventory, normalization,
    [inspect.rs]), the NTFS serializer apart from its runlists, records and data streams, the
    remaining NTFS attribute and metadata codecs, and the escrow and preservation
    encodings ([preservation.rs], [cross_format.rs]) are not modelled either: they
    are listed one by one, with the reason, in the component list beside this
    library. *)

From Stdlib Require Export Lia NArith Strings.Byte.
From stdpp Require Export base strings list numbers option sorting gmap.
From stdpp Require Import options.

#[global] Set Default Goal Selector "!".
#[local] Open Scope N_scope.

(** ** Outcomes of Rust functions

    [Ok] and [Err] are the two constructors of [Result].  [Panic] is what a
    failed index, an out-of-range slice, an unchecked arithmetic overflow or a
    failed [expect] does.  A model with a fuel argument also answers [Panic]
    when the fuel runs out, so a theorem that excludes [Panic] is a proof of
    termination as well. *)
Inductive outcome (E A : Type) : Type :=
| Ok (a : A)
| Err (e : E)
| Panic.
Arguments Ok {E A} a.
Arguments Err {E A} e.
Arguments Panic {E A}.

#[export] Instance outcome_ret (E : Type) : MRet (outcome E) := fun _ a => Ok a.
#[export] Instance outcome_bind (E : Type) : MBind (outcome E) := fun _ _ f m =>
  match m with
  | Ok a => f a
  | Err e => Err e
  | Panic => Panic
  end.
#[export] Instance outcome_fmap (E : Type) : FMap (outcome E) := fun _ _ f m =>
  match m with
  | Ok a => Ok (f a)
  | Err e => Err e
  | Panic => Panic
  end.

(** [Option::ok_or] and [Result::map_err]. *)
Definition ok_or {E A : Type} (e : E) (o : option A) : outcome E A :=
  match o with
  | Some a => Ok a
  | None => Err e
  end.
Definition map_err {E F A : Type} (f : E -> F) (m : outcome E A) : outcome F A :=
  match m with
  | Ok a => Ok a
  | Err e => Err (f e)
  | Panic => Panic
  end.
(** [if c { return Err(e) }]. *)
Definition refuse_if {E : Type} (c : bool) (e : E) : outcome E unit :=
  if c then Err e else Ok tt.
(** [expect]: the [None] case aborts the process. *)
Definition expect {E A : Type} (o : option A) : outcome E A :=
  match o with
  | Some a => Ok a
  | None => Panic
  end.

Declare Scope star_scope.
Delimit Scope star_scope with star.
Notation "m ;; k" := (mbind (fun _ : unit => k) m)
  (at level 100, k at level 200, right associativity) : star_scope.
#[global] Open Scope star_scope.

(** ** Machine integers

    Unsigned integers are [N]; the width is enforced where the source enforces
    it.  The model is that of a 64-bit target, where [usize] has the range of
    [u64]. *)
Definition u8_max : N := 255.
Definition u16_max : N := 65535.
Definition u32_max : N := 4294967295.
Definition u64_max : N := 18446744073709551615.
Definition usize_max : N := u64_max.
(** No allocation exceeds [isize::MAX] bytes, so this bounds every slice. *)
Definition isize_max : N := 9223372036854775807.

Definition checked_add (a b : N) : option N :=
  if a + b <=? u64_max then Some (a + b) else None.
Definition checked_sub (a b : N) : option N :=
  if b <=? a then Some (a - b) else None.
Definition checked_mul (a b : N) : option N :=
  if a * b <=? u64_max then Some (a * b) else None.
Definition checked_add_u32 (a b : N) : option N :=
  if a + b <=? u32_max then Some (a + b) else None.
Definition saturating_add (a b : N) : N := N.min (a + b) u64_max.
Definition saturating_mul (a b : N) : N := N.min (a * b) u64_max.
Definition saturating_sub (a b : N) : N := a - b.

(** Plain [+] and [-] on [u64]/[usize]: an overflow aborts. *)
Definition add_u64 {E : Type} (a b : N) : outcome E N := expect (checked_add a b).
Definition sub_u64 {E : Type} (a b : N) : outcome E N := expect (checked_sub a b).

(** [/] and [%]: division by zero aborts. *)
Definition div_u64 {E : Type} (a b : N) : outcome E N :=
  if b =? 0 then Panic else Ok (a / b).
Definition rem_u64 {E : Type} (a b : N) : outcome E N :=
  if b =? 0 then Panic else Ok (a mod b).

(** [u64::try_from(usize)] and [usize::try_from(u64)] on a 64-bit target. *)
Definition u64_try_from (n : N) : option N :=
  if n <=? u64_max then Some n else None.
Definition usize_try_from (n : N) : option N :=
  if n <=? usize_max then Some n else None.
Definition u32_try_from (n : N) : option N :=
  if n <=? u32_max then Some n else None.

(** [is_power_of_two], [!x] on 64 bits. *)
Definition is_power_of_two (n : N) : bool := n =? 2 ^ N.log2 n.
Definition not_u64 (n : N) : N := N.lxor n u64_max.

(** ** Lists, slices and byte strings *)
Definition len {A : Type} (l : list A) : N := N.of_nat (length l).
Definition is_empty {A : Type} (l : list A) : bool :=
  match l with
  | [] => true
  | _ :: _ => false
  end.
Definition subslice {A : Type} (lo hi : N) (l : list A) : list A :=
  take (N.to_nat (hi - lo)) (drop (N.to_nat lo) l).
(** [l.get(lo..hi)] and [&l[lo..hi]]. *)
Definition get_range {A : Type} (lo hi : N) (l : list A) : option (list A) :=
  if (lo <=? hi) && (hi <=? len l) then Some (subslice lo hi l) else None.
Definition index_range {E A : Type} (lo hi : N) (l : list A) : outcome E (list A) :=
  expect (get_range lo hi l).
Definition at_index {E A : Type} (l : list A) (i : N) : outcome E A :=
  expect (l !! N.to_nat i).
Definition splice {A : Type} (lo : N) (src dst : list A) : list A :=
  take (N.to_nat lo) dst ++ src ++ drop (N.to_nat (lo + len src)) dst.
(** [dst[lo..hi].copy_from_slice(src)]. *)
Definition copy_from_slice {E A : Type} (lo hi : N) (src dst : list A)
    : outcome E (list A) :=
  if (lo <=? hi) && (hi <=? len dst) && (len src =? hi - lo)
  then Ok (splice lo src dst)
  else Panic.

(** A [for] loop whose body only checks, and one that carries a state. *)
Fixpoint for_each {E A : Type} (f : A -> outcome E unit) (l : list A)
    : outcome E unit :=
  match l with
  | [] => Ok tt
  | x :: l => f x ;; for_each f l
  end.
Fixpoint try_fold {E A S : Type} (f : S -> A -> outcome E S) (s : S) (l : list A)
    : outcome E S :=
  match l with
  | [] => Ok s
  | x :: l => s ← f s x; try_fold f s l
  end.
(** [for pair in l.windows(2)]. *)
Fixpoint for_windows2 {E A : Type} (f : A -> A -> outcome E unit) (l : list A)
    : outcome E unit :=
  match l with
  | x :: ((y :: _) as l') => f x y ;; for_windows2 f l'
  | _ => Ok tt
  end.
(** [l.windows(2).find(|pair| p(pair[0], pair[1]))]. *)
Fixpoint find_windows2 {A : Type} (p : A -> A -> bool) (l : list A)
    : option (A * A) :=
  match l with
  | x :: ((y :: _) as l') => if p x y then Some (x, y) else find_windows2 p l'
  | _ => None
  end.

(** [sort_unstable_by_key]: the standard library fixes the result up to the
    order of elements with equal keys; the model takes the stable order. *)
Definition le_key {A : Type} (f : A -> N) (a b : A) : Prop := f a <= f b.
#[export] Instance le_key_dec {A : Type} (f : A -> N) : RelDecision (le_key f) :=
  fun a b => decide (f a <= f b).
Definition sort_by_key {A : Type} (f : A -> N) : list A -> list A :=
  merge_sort (le_key f).
(** Lexicographic keys (tuples and slices of integers) are lists of [N]. *)
Fixpoint lex_leb (a b : list N) : bool :=
  match a, b with
  | [], _ => true
  | _ :: _, [] => false
  | x :: a, y :: b => (x <? y) || ((x =? y) && lex_leb a b)
  end.
Definition le_lex_key {A : Type} (f : A -> list N) (a b : A) : Prop :=
  lex_leb (f a) (f b) = true.
#[export] Instance le_lex_key_dec {A : Type} (f : A -> list N) :
  RelDecision (le_lex_key f) := fun a b => decide (lex_leb (f a) (f b) = true).
Definition sort_by_lex_key {A : Type} (f : A -> list N) : list A -> list A :=
  merge_sort (le_lex_key f).

(** Insertion into a [BTreeSet], kept as an increasing list. *)
Fixpoint btree_insert (x : N) (set : list N) : list N :=
  match set with
  | [] => [x]
  | y :: rest =>
      if x <? y then x :: set else if x =? y then set else y :: btree_insert x rest
  end.

(** Little-endian encodings. *)
#[export] Instance byte_eq_dec : EqDecision byte := Byte.byte_eq_dec.
Definition byte_of_N (n : N) : byte :=
  match Byte.of_N (n mod 256) with
  | Some b => b
  | None => x00
  end.
Fixpoint le_bytes (n : nat) (v : N) : list byte :=
  match n with
  | O => []
  | S n => byte_of_N v :: le_bytes n (v / 256)
  end.
Fixpoint le_num (l : list byte) : N :=
  match l with
  | [] => 0
  | b :: l => Byte.to_N b + 256 * le_num l
  end.
Definition u16_le (v : N) : list byte := le_bytes 2 v.
Definition u32_le (v : N) : list byte := le_bytes 4 v.
Definition u64_le (v : N) : list byte := le_bytes 8 v.
(** A byte-string literal. *)
Definition ascii_bytes (s : string) : list byte := String.list_byte_of_string s.

(** Byte ranges [offset, offset + length) carried by the elements of a list. *)
Section Ranges.
Context {A : Type} (off ln : A -> N).

(** [a] ends at or before the start of [b]. *)
Definition before (a b : A) : Prop := off a + ln a <= off b.
(** The two ranges share no byte. *)
Definition apart (a b : A) : Prop := before a b \/ before b a.
(** Pairwise disjointness of all elements, in any order. *)
Definition disjoint_ranges : list A -> Prop := StronglySorted apart.
End Ranges.

(** The sum of a measure over a list. *)
Definition sum_by {A : Type} (f : A -> N) (l : list A) : N :=
  foldr (fun x n => f x + n) 0 l.

(** Inclusion of an address in a range. *)
Definition in_range (off ln p : N) : Prop := off <= p < off + ln.

(** * Lemmas *)

(** ** Outcomes *)
Section OutcomeFacts.
Context {E A B : Type}.
Implicit Types (m : outcome E A) (f : A -> outcome E B).

Lemma bind_Ok m f b : m ≫= f = Ok b <-> exists a, m = Ok a /\ f a = Ok b.
Proof. destruct m; simpl; naive_solver. Qed.

Lemma bind_step m f a r : m = Ok a -> f a = r -> m ≫= f = r.
Proof. by intros -> <-. Qed.
Lemma refuse_step c (e : E) : c = false -> refuse_if c e = Ok tt.
Proof. by intros ->. Qed.
Lemma ok_or_step (e : E) (o : option A) a : o = Some a -> ok_or e o = Ok a.
Proof. by intros ->. Qed.
Lemma expect_step (o : option A) a : o = Some a -> @expect E A o = Ok a.
Proof. by intros ->. Qed.
Lemma map_err_step {F} (g : E -> F) m a : m = Ok a -> map_err g m = Ok a.
Proof. by intros ->. Qed.

Lemma bind_safe m f :
  m <> Panic -> (forall a, m = Ok a -> f a <> Panic) -> m ≫= f <> Panic.
Proof. destruct m; simpl; naive_solver. Qed.

Lemma ok_or_Ok (e : E) (o : option A) a : ok_or e o = Ok a <-> o = Some a.
Proof. destruct o; simpl; naive_solver. Qed.

Lemma expect_Ok (o : option A) a : @expect E A o = Ok a <-> o = Some a.
Proof. destruct o; simpl; naive_solver. Qed.

Lemma ok_or_safe (e : E) (o : option A) : ok_or e o <> Panic.
Proof. by destruct o. Qed.

Lemma refuse_if_Ok c (e : E) u : refuse_if c e = Ok u <-> c = false.
Proof. destruct c, u; simpl; naive_solver. Qed.

Lemma refuse_if_Err c (e e' : E) : refuse_if c e = Err e' <-> c = true /\ e = e'.
Proof. destruct c; simpl; naive_solver. Qed.

Lemma refuse_if_safe c (e : E) : refuse_if c e <> Panic.
Proof. by destruct c. Qed.

Lemma map_err_Ok {F} (g : E -> F) m a : map_err g m = Ok a <-> m = Ok a.
Proof. destruct m; simpl; naive_solver. Qed.

Lemma map_err_safe {F} (g : E -> F) m : m <> Panic -> map_err g m <> Panic.
Proof. by destruct m. Qed.

Lemma Ok_safe (a : A) : @Ok E A a <> Panic.
Proof. done. Qed.
Lemma Err_safe (e : E) : @Err E A e <> Panic.
Proof. done. Qed.
End OutcomeFacts.

Section LoopFacts.
Context {E A : Type}.

Lemma for_each_Ok (f : A -> outcome E unit) l u :
  for_each f l = Ok u <-> Forall (fun x => f x = Ok tt) l.
Proof.
  destruct u. induction l as [|x l IH]; simpl.
  - split; [constructor | done].
  - rewrite bind_Ok, Forall_cons, <- IH. split.
    + by intros ([] & Hx & Hl).
    + intros [Hx Hl]. by exists tt.
Qed.

Lemma for_each_safe (f : A -> outcome E unit) l :
  (forall x, x ∈ l -> f x <> Panic) -> for_each f l <> Panic.
Proof.
  induction l as [|x l IH]; simpl; [done |]. intros Hf.
  apply bind_safe; [apply Hf; set_solver |]. intros _ _. apply IH.
  intros a Ha. apply Hf. by right.
Qed.

Lemma for_windows2_Ok (f : A -> A -> outcome E unit) l u :
  for_windows2 f l = Ok u <-> Sorted (fun x y => f x y = Ok tt) l.
Proof.
  destruct u. induction l as [|x [|y l] IH]; simpl.
  - split; [constructor | done].
  - split; [repeat constructor | done].
  - rewrite bind_Ok. split.
    + intros ([] & Hxy & Hl). constructor; [by apply IH | by constructor].
    + intros Hs. inversion_clear Hs as [|?? Hl Hh]. inversion_clear Hh.
      exists tt. split; [done | by apply IH].
Qed.

Lemma for_windows2_safe (f : A -> A -> outcome E unit) l :
  (forall x y, x ∈ l -> y ∈ l -> f x y <> Panic) -> for_windows2 f l <> Panic.
Proof.
  induction l as [|x [|y l] IH]; simpl; [done | done |]. intros Hf.
  apply bind_safe; [apply Hf; set_solver |]. intros _ _. apply IH.
  intros a b Ha Hb. apply Hf; by apply elem_of_cons; right.
Qed.

Lemma try_fold_app {S} (f : S -> A -> outcome E S) l1 l2 s :
  try_fold f s (l1 ++ l2) = s' ← try_fold f s l1; try_fold f s' l2.
Proof.
  revert s. induction l1 as [|x l1 IH]; intros s; simpl; [done |].
  destruct (f s x); simpl; [apply IH | done | done].
Qed.

Lemma try_fold_safe {S} (f : S -> A -> outcome E S) s l :
  (forall s x, x ∈ l -> f s x <> Panic) -> try_fold f s l <> Panic.
Proof.
  revert s. induction l as [|x l IH]; intros s; simpl; [done |]. intros Hf.
  apply bind_safe; [set_solver |]. intros s' _. apply IH. set_solver.
Qed.
End LoopFacts.

(** An invariant of a fold that succeeds. *)
Lemma try_fold_invariant {E A S} (P : S -> Prop) (f : S -> A -> outcome E S) s l s' :
  P s -> (forall s x s', x ∈ l -> P s -> f s x = Ok s' -> P s') ->
  try_fold f s l = Ok s' -> P s'.
Proof.
  revert s. induction l as [|x l IH]; intros s Hs Hf; simpl.
  - by intros [= <-].
  - rewrite bind_Ok. intros (s1 & H1 & H2). eapply IH; [| |done].
    + eapply Hf; [|done|done]. set_solver.
    + intros ????. eapply Hf. set_solver.
Qed.

(** ** Checked arithmetic *)
Ltac by_arith :=
  split; intros; repeat match goal with H : _ /\ _ |- _ => destruct H end;
  simplify_eq; try (exfalso; lia); repeat split; try done; try lia; f_equal; lia.
Lemma checked_add_Some a b c : checked_add a b = Some c <-> c = a + b /\ a + b <= u64_max.
Proof. unfold checked_add. destruct (N.leb_spec (a + b) u64_max); by_arith. Qed.
Lemma checked_add_u32_Some a b c :
  checked_add_u32 a b = Some c <-> c = a + b /\ a + b <= u32_max.
Proof. unfold checked_add_u32. destruct (N.leb_spec (a + b) u32_max); by_arith. Qed.
Lemma checked_add_None a b : checked_add a b = None <-> u64_max < a + b.
Proof. unfold checked_add. destruct (N.leb_spec (a + b) u64_max); by_arith. Qed.
Lemma checked_sub_Some a b c : checked_sub a b = Some c <-> c = a - b /\ b <= a.
Proof. unfold checked_sub. destruct (N.leb_spec b a); by_arith. Qed.
Lemma checked_mul_Some a b c : checked_mul a b = Some c <-> c = a * b /\ a * b <= u64_max.
Proof. unfold checked_mul. destruct (N.leb_spec (a * b) u64_max); by_arith. Qed.
Lemma u64_try_from_Some a c : u64_try_from a = Some c <-> c = a /\ a <= u64_max.
Proof. unfold u64_try_from. destruct (N.leb_spec a u64_max); by_arith. Qed.
Lemma usize_try_from_Some a c : usize_try_from a = Some c <-> c = a /\ a <= u64_max.
Proof. unfold usize_try_from, usize_max. destruct (N.leb_spec a u64_max); by_arith. Qed.
Lemma usize_try_from_in a : a <= u64_max -> usize_try_from a = Some a.
Proof. intros. by apply usize_try_from_Some. Qed.
Lemma u64_try_from_in a : a <= u64_max -> u64_try_from a = Some a.
Proof. intros. by apply u64_try_from_Some. Qed.
Lemma checked_add_in a b : a + b <= u64_max -> checked_add a b = Some (a + b).
Proof. intros. by apply checked_add_Some. Qed.
Lemma checked_mul_in a b : a * b <= u64_max -> checked_mul a b = Some (a * b).
Proof. intros. by apply checked_mul_Some. Qed.
Lemma checked_sub_in a b : b <= a -> checked_sub a b = Some (a - b).
Proof. intros. by apply checked_sub_Some. Qed.
Lemma isize_lt_u64 : isize_max < u64_max.
Proof. by vm_compute. Qed.
Lemma saturating_add_in a b : a + b <= u64_max -> saturating_add a b = a + b.
Proof. intros. unfold saturating_add. by apply N.min_l. Qed.
Lemma saturating_add_le a b c : saturating_add a b <= c -> c < u64_max -> a + b <= c.
Proof. unfold saturating_add. lia. Qed.
Lemma u32_try_from_in a : a <= u32_max -> u32_try_from a = Some a.
Proof. intros Ha. unfold u32_try_from. by rewrite (proj2 (N.leb_le _ _) Ha). Qed.
Lemma u32_try_from_Some a c : u32_try_from a = Some c <-> c = a /\ a <= u32_max.
Proof. unfold u32_try_from. destruct (N.leb_spec a u32_max); by_arith. Qed.
Lemma add_u64_Ok {E} a b c : @add_u64 E a b = Ok c <-> c = a + b /\ a + b <= u64_max.
Proof. unfold add_u64. by rewrite expect_Ok, checked_add_Some. Qed.
Lemma sub_u64_Ok {E} a b c : @sub_u64 E a b = Ok c <-> c = a - b /\ b <= a.
Proof. unfold sub_u64. by rewrite expect_Ok, checked_sub_Some. Qed.
Lemma add_u64_safe {E} a b : a + b <= u64_max -> @add_u64 E a b <> Panic.
Proof. intros. unfold add_u64, checked_add. destruct (N.leb_spec (a + b) u64_max); [done | lia]. Qed.
Lemma sub_u64_safe {E} a b : b <= a -> @sub_u64 E a b <> Panic.
Proof. intros. unfold sub_u64, checked_sub. destruct (N.leb_spec b a); [done | lia]. Qed.

Lemma div_u64_Ok {E} a b c : @div_u64 E a b = Ok c <-> c = a / b /\ b <> 0.
Proof. unfold div_u64. destruct (N.eqb_spec b 0); by_arith. Qed.
Lemma rem_u64_Ok {E} a b c : @rem_u64 E a b = Ok c <-> c = a mod b /\ b <> 0.
Proof. unfold rem_u64. destruct (N.eqb_spec b 0); by_arith. Qed.
Lemma div_u64_safe {E} a b : b <> 0 -> @div_u64 E a b <> Panic.
Proof. intros. unfold div_u64. by destruct (N.eqb_spec b 0). Qed.
Lemma rem_u64_safe {E} a b : b <> 0 -> @rem_u64 E a b <> Panic.
Proof. intros. unfold rem_u64. by destruct (N.eqb_spec b 0). Qed.

(** ** Sorting *)
#[export] Instance le_key_total {A} (f : A -> N) : Total (le_key f).
Proof. intros x y. unfold le_key. lia. Qed.
#[export] Instance le_key_trans {A} (f : A -> N) : Transitive (le_key f).
Proof. intros x y z. unfold le_key. lia. Qed.

Lemma lex_leb_total a b : lex_leb a b = true \/ lex_leb b a = true.
Proof.
  revert b. induction a as [|x a IH]; intros [|y b]; simpl; auto.
  rewrite !orb_true_iff, !andb_true_iff, !N.ltb_lt, !N.eqb_eq.
  destruct (IH b), (N.lt_trichotomy x y) as [|[|]]; auto.
Qed.
Lemma lex_leb_trans a b c :
  lex_leb a b = true -> lex_leb b c = true -> lex_leb a c = true.
Proof.
  revert b c. induction a as [|x a IH]; intros [|y b] [|z c]; simpl; auto; [done |].
  rewrite !orb_true_iff, !andb_true_iff, !N.ltb_lt, !N.eqb_eq.
  intros [?|[-> ?]] [?|[-> ?]]; [left; lia | left; lia | left; lia | right; eauto].
Qed.
Lemma lex_leb_antisymm a b : lex_leb a b = true -> lex_leb b a = true -> a = b.
Proof.
  revert b. induction a as [|x a IH]; intros [|y b]; simpl; [done.. |].
  rewrite !orb_true_iff, !andb_true_iff, !N.ltb_lt, !N.eqb_eq.
  intros [?|[-> ?]] [?|[? ?]]; [lia | lia | lia | f_equal; auto].
Qed.
#[export] Instance le_lex_key_total {A} (f : A -> list N) : Total (le_lex_key f).
Proof. intros x y. apply lex_leb_total. Qed.
#[export] Instance le_lex_key_trans {A} (f : A -> list N) : Transitive (le_lex_key f).
Proof. intros x y z. apply lex_leb_trans. Qed.

Lemma sort_by_key_perm {A} (f : A -> N) l : sort_by_key f l ≡ₚ l.
Proof. apply merge_sort_Permutation. Qed.
Lemma sort_by_key_sorted {A} (f : A -> N) l : StronglySorted (le_key f) (sort_by_key f l).
Proof. apply StronglySorted_merge_sort; apply _. Qed.
Lemma sort_by_lex_key_perm {A} (f : A -> list N) l : sort_by_lex_key f l ≡ₚ l.
Proof. apply merge_sort_Permutation. Qed.
Lemma sort_by_lex_key_sorted {A} (f : A -> list N) l :
  StronglySorted (le_lex_key f) (sort_by_lex_key f l).
Proof. apply StronglySorted_merge_sort; apply _. Qed.

(** [StronglySorted] for a symmetric relation does not depend on the order. *)
Lemma StronglySorted_sym_perm {A} (R : A -> A -> Prop) l1 l2 :
  (forall x y, R x y -> R y x) -> l1 ≡ₚ l2 -> StronglySorted R l1 -> StronglySorted R l2.
Proof.
  intros Hsym. induction 1 as [|x l1 l2 Hp IH|x y l|l1 l2 l3 _ IH1 _ IH2];
    intros Hs; auto.
  - apply StronglySorted_inv in Hs as [Hs Hf]. constructor; [auto |]. by rewrite <- Hp.
  - apply StronglySorted_inv in Hs as [Hs Hf]. apply Forall_cons in Hf as [? ?].
    apply StronglySorted_inv in Hs as [? ?].
    constructor; [by constructor |]. constructor; auto.
Qed.
Lemma StronglySorted_impl {A} (R R' : A -> A -> Prop) l :
  (forall x y, R x y -> R' x y) -> StronglySorted R l -> StronglySorted R' l.
Proof.
  intros HR. induction 1 as [|x l Hs IH Hf]; constructor; [done |].
  eapply Forall_impl; [exact Hf | auto].
Qed.
Lemma Sorted_ext {A} (R R' : A -> A -> Prop) l :
  (forall x y, x ∈ l -> y ∈ l -> R x y -> R' x y) -> Sorted R l -> Sorted R' l.
Proof.
  intros HR Hs. induction Hs as [|x l Hs IH Hh]; constructor.
  - apply IH. intros a b Ha Hb. apply HR; by right.
  - destruct Hh as [|y l Hxy]; constructor. apply HR; [left | right; left | done].
Qed.
Lemma StronglySorted_lookup {A} (R : A -> A -> Prop) l :
  StronglySorted R l <->
  forall i j x y, (i < j)%nat -> l !! i = Some x -> l !! j = Some y -> R x y.
Proof.
  split.
  - induction 1 as [|x l Hs IH Hf]; intros [|i] [|j] a b Hij Ha Hb; simplify_eq/=; try lia.
    + rewrite Forall_lookup in Hf. eauto.
    + eapply (IH i j); [lia | done | done].
  - induction l as [|x l IH]; intros Hl; constructor.
    + apply IH. intros i j a b ?. apply (Hl (S i) (S j)). lia.
    + apply Forall_lookup. intros j y. apply (Hl 0%nat (S j)); [lia | done].
Qed.
Lemma StronglySorted_app_iff {A} (R : A -> A -> Prop) l1 l2 :
  StronglySorted R (l1 ++ l2) <->
  StronglySorted R l1 /\ StronglySorted R l2 /\
  (forall x y, x ∈ l1 -> y ∈ l2 -> R x y).
Proof.
  induction l1 as [|x l1 IH]; simpl.
  - split; [intros; repeat split; [constructor | done | set_solver] | tauto].
  - split.
    + intros [Hs Hf]%StronglySorted_inv. apply IH in Hs as (? & ? & Hc).
      apply Forall_app in Hf as [Hf1 Hf2]. repeat split; [by constructor | done |].
      intros a b [->|Ha]%elem_of_cons Hb; [|by apply Hc].
      rewrite Forall_forall in Hf2. auto.
    + intros (Hs & ? & Hc). apply StronglySorted_inv in Hs as [? ?].
      constructor; [apply IH; repeat split; [done..|]; set_solver |].
      apply Forall_app. split; [done |]. apply Forall_forall. set_solver.
Qed.

(** With distinct keys the order is strict. *)
Lemma sorted_key_strict {A} (f : A -> N) l :
  NoDup (f <$> l) -> StronglySorted (le_key f) l ->
  StronglySorted (fun a b => f a < f b) l.
Proof.
  intros Hn Hs. apply StronglySorted_lookup. intros i j x y Hij Hx Hy.
  rewrite StronglySorted_lookup in Hs. specialize (Hs _ _ _ _ Hij Hx Hy).
  unfold le_key in Hs. destruct (decide (f x = f y)) as [He|]; [|lia].
  assert (i = j) as ->; [|lia].
  apply (NoDup_lookup _ i j (f x) Hn); rewrite list_lookup_fmap.
  - by rewrite Hx.
  - by rewrite Hy, He.
Qed.

(** Two sorted lists with the same elements and distinct keys are equal: the
    result of an unstable sort is determined. *)
Lemma sort_by_key_unique {A} (f : A -> N) l l' :
  NoDup (f <$> l) -> l' ≡ₚ l -> StronglySorted (le_key f) l' -> l' = sort_by_key f l.
Proof.
  intros Hnd Hp Hs. symmetry in Hp.
  assert (Hl : StronglySorted (fun a b => f a < f b) l').
  { apply sorted_key_strict; [by rewrite <- Hp | done]. }
  assert (Hm : StronglySorted (fun a b => f a < f b) (sort_by_key f l)).
  { apply sorted_key_strict; [by rewrite sort_by_key_perm | apply sort_by_key_sorted]. }
  assert (Hperm : l' ≡ₚ sort_by_key f l) by (by rewrite sort_by_key_perm, Hp).
  clear - Hl Hm Hperm. revert Hm Hperm. generalize (sort_by_key f l) as m. clear l.
  induction Hl as [|x l' Hl IH Hf]; intros m Hm Hp.
  { symmetry. by apply Permutation_nil_l in Hp. }
  destruct Hm as [|y m Hm Hg].
  { symmetry in Hp. by apply Permutation_nil_l in Hp. }
  assert (x = y) as <-.
  { rewrite Forall_forall in Hf, Hg.
    assert (Hx : x ∈ y :: m) by (rewrite <- Hp; set_solver).
    assert (Hy : y ∈ x :: l') by (rewrite Hp; set_solver).
    apply elem_of_cons in Hx as [->|Hx]; [done |].
    apply elem_of_cons in Hy as [->|Hy]; [done |].
    specialize (Hf y Hy). specialize (Hg x Hx). simpl in *. lia. }
  f_equal. apply IH; [done |]. by apply Permutation_cons_inv in Hp.
Qed.

Lemma sum_by_perm {A} (f : A -> N) l1 l2 : l1 ≡ₚ l2 -> sum_by f l1 = sum_by f l2.
Proof. unfold sum_by. induction 1; simpl; lia. Qed.
Lemma sum_by_cons {A} (f : A -> N) x l : sum_by f (x :: l) = f x + sum_by f l.
Proof. done. Qed.
Lemma sum_by_app {A} (f : A -> N) l1 l2 : sum_by f (l1 ++ l2) = sum_by f l1 + sum_by f l2.
Proof. unfold sum_by. induction l1; simpl; lia. Qed.

(** ** Ordered sets *)
Lemma elem_of_btree_insert x y l : x ∈ btree_insert y l <-> x = y \/ x ∈ l.
Proof.
  induction l as [|z l IH]; simpl; [set_solver |].
  destruct (N.ltb_spec y z); [set_solver |].
  destruct (N.eqb_spec y z) as [->|]; [set_solver |].
  rewrite !elem_of_cons, IH. tauto.
Qed.

Lemma btree_insert_sorted x l :
  StronglySorted N.lt l -> StronglySorted N.lt (btree_insert x l).
Proof.
  induction 1 as [|y l Hl IH Hf]; simpl; [repeat constructor |].
  destruct (N.ltb_spec x y).
  - constructor; [by constructor |]. constructor; [done |].
    eapply Forall_impl; [exact Hf |]. intros z Hz. simpl in *. lia.
  - destruct (N.eqb_spec x y); [by constructor |]. constructor; [done |].
    rewrite Forall_forall in *. intros z [->|Hz]%elem_of_btree_insert; [lia | by apply Hf].
Qed.

(** ** Ranges *)
Section RangeFacts.
Context {A : Type} (off ln : A -> N).

#[export] Instance before_trans : Transitive (before off ln).
Proof. intros x y z. unfold before. lia. Qed.

Lemma apart_sym x y : apart off ln x y -> apart off ln y x.
Proof. unfold apart. tauto. Qed.

Lemma apart_spec x y :
  apart off ln x y ->
  forall p, in_range (off x) (ln x) p -> in_range (off y) (ln y) p -> False.
Proof. unfold apart, before, in_range. lia. Qed.

Lemma disjoint_ranges_perm l1 l2 :
  l1 ≡ₚ l2 -> disjoint_ranges off ln l1 -> disjoint_ranges off ln l2.
Proof. apply StronglySorted_sym_perm, apart_sym. Qed.

(** The check of the source: sort by offset, compare neighbours. *)
Lemma adjacent_disjoint l :
  Sorted (before off ln) l -> disjoint_ranges off ln l.
Proof.
  intros Hs. apply Sorted_StronglySorted in Hs; [|apply before_trans].
  eapply StronglySorted_impl, Hs. intros ??. by left.
Qed.

Lemma disjoint_adjacent l :
  StronglySorted (le_key off) l -> Forall (fun x => 0 < ln x) l ->
  disjoint_ranges off ln l -> Sorted (before off ln) l.
Proof.
  intros Hs Hp Hd. apply StronglySorted_Sorted, StronglySorted_lookup.
  intros i j x y Hij Hx Hy.
  unfold disjoint_ranges in Hd. rewrite StronglySorted_lookup in Hs, Hd.
  specialize (Hs _ _ _ _ Hij Hx Hy). specialize (Hd _ _ _ _ Hij Hx Hy).
  rewrite Forall_lookup in Hp. specialize (Hp _ _ Hy). simpl in Hp.
  unfold le_key, apart, before in *. lia.
Qed.

Lemma sorted_check_disjoint l :
  Sorted (before off ln) (sort_by_key off l) -> disjoint_ranges off ln l.
Proof.
  intros Hs%adjacent_disjoint.
  eapply disjoint_ranges_perm, Hs. apply sort_by_key_perm.
Qed.

Lemma disjoint_sorted_check l :
  Forall (fun x => 0 < ln x) l -> disjoint_ranges off ln l ->
  Sorted (before off ln) (sort_by_key off l).
Proof.
  intros Hp Hd. apply disjoint_adjacent.
  - apply sort_by_key_sorted.
  - by rewrite sort_by_key_perm.
  - eapply disjoint_ranges_perm, Hd. by rewrite sort_by_key_perm.
Qed.

Lemma disjoint_ranges_lookup l i j x y p :
  disjoint_ranges off ln l -> l !! i = Some x -> l !! j = Some y ->
  in_range (off x) (ln x) p -> in_range (off y) (ln y) p -> i = j.
Proof.
  unfold disjoint_ranges. rewrite StronglySorted_lookup. intros Hd Hx Hy Hpx Hpy.
  destruct (Nat.lt_trichotomy i j) as [Hij|[?|Hij]]; [exfalso | done | exfalso].
  - eapply apart_spec; [eapply Hd; eauto | done | done].
  - eapply apart_spec; [eapply Hd; eauto | done | done].
Qed.

(** Disjoint ranges below [v] hold at most [v] bytes. *)
Lemma chain_sum_bound v l :
  StronglySorted (before off ln) l -> Forall (fun x => off x + ln x <= v) l ->
  forall lo, lo <= v -> Forall (fun x => lo <= off x) l -> lo + sum_by ln l <= v.
Proof.
  induction 1 as [|x l Hs IH Hb]; intros Hv lo Hlo Hge; simpl; [lia |].
  apply Forall_cons in Hv as [Hx Hv]. apply Forall_cons in Hge as [Hgx _].
  specialize (IH Hv (off x + ln x) Hx Hb). lia.
Qed.

Lemma disjoint_sum_bound v l :
  disjoint_ranges off ln l -> Forall (fun x => 0 < ln x /\ off x + ln x <= v) l ->
  sum_by ln l <= v.
Proof.
  intros Hd Hf.
  apply disjoint_sorted_check in Hd; [|eapply Forall_impl; [exact Hf | by intros x []]].
  apply Sorted_StronglySorted in Hd; [|apply before_trans].
  rewrite <- (sort_by_key_perm off l) in Hf.
  assert (Hs : 0 + sum_by ln (sort_by_key off l) <= v).
  { apply chain_sum_bound; [done | eapply Forall_impl; [exact Hf | by intros x []] | lia |].
    apply Forall_forall. intros. lia. }
  rewrite (sum_by_perm ln (sort_by_key off l) l) in Hs; [lia | apply sort_by_key_perm].
Qed.
End RangeFacts.

(** ** Slices *)
Section SliceFacts.
Context {A : Type}.
Implicit Types l src dst : list A.

Lemma len_app l1 l2 : len (l1 ++ l2) = len l1 + len l2.
Proof. unfold len. rewrite length_app. lia. Qed.

Lemma len_subslice lo hi l :
  lo <= hi -> hi <= len l -> len (subslice lo hi l) = hi - lo.
Proof. unfold len, subslice. rewrite length_take, length_drop. lia. Qed.

Lemma subslice_lookup lo hi l (i : nat) :
  N.of_nat i < hi - lo -> subslice lo hi l !! i = l !! (N.to_nat lo + i)%nat.
Proof. intros. unfold subslice. rewrite lookup_take_lt by lia. apply lookup_drop. Qed.

Lemma subslice_lookup_ge lo hi l (i : nat) :
  hi - lo <= N.of_nat i -> subslice lo hi l !! i = None.
Proof. intros. unfold subslice. by rewrite lookup_take_ge by lia. Qed.

Lemma get_range_Some lo hi l s :
  get_range lo hi l = Some s <-> lo <= hi /\ hi <= len l /\ s = subslice lo hi l.
Proof.
  unfold get_range. destruct (N.leb_spec lo hi), (N.leb_spec hi (len l)); simpl;
    split; intros; destruct_and?; simplify_eq; try lia; repeat split; done.
Qed.

Lemma index_range_Ok {E} lo hi l s :
  @index_range E A lo hi l = Ok s <-> lo <= hi /\ hi <= len l /\ s = subslice lo hi l.
Proof. unfold index_range. by rewrite expect_Ok, get_range_Some. Qed.

Lemma index_range_in {E} lo hi l :
  lo <= hi -> hi <= len l -> @index_range E A lo hi l = Ok (subslice lo hi l).
Proof. intros. by apply index_range_Ok. Qed.

Lemma index_range_safe {E} lo hi l :
  lo <= hi -> hi <= len l -> @index_range E A lo hi l <> Panic.
Proof. intros. by rewrite index_range_in. Qed.

Lemma at_index_Ok {E} l i x : @at_index E A l i = Ok x <-> l !! N.to_nat i = Some x.
Proof. apply expect_Ok. Qed.

Lemma at_index_safe {E} l i : i < len l -> @at_index E A l i <> Panic.
Proof.
  unfold at_index, len. intros Hi.
  destruct (lookup_lt_is_Some_2 l (N.to_nat i)) as [x ->]; [lia | done].
Qed.

Lemma len_splice lo src dst :
  lo + len src <= len dst -> len (splice lo src dst) = len dst.
Proof.
  unfold splice, len. intros. rewrite !length_app, length_take, length_drop. lia.
Qed.

Lemma splice_lookup lo src dst (i : nat) :
  lo + len src <= len dst ->
  splice lo src dst !! i =
    if decide (lo <= N.of_nat i < lo + len src)
    then src !! (i - N.to_nat lo)%nat else dst !! i.
Proof.
  unfold splice, len. intros Hl. case_decide as Hd.
  - rewrite lookup_app_r by (rewrite length_take; lia).
    rewrite length_take, lookup_app_l by lia. f_equal. lia.
  - destruct (decide (N.of_nat i < lo)).
    + rewrite lookup_app_l by (rewrite length_take; lia). apply lookup_take_lt. lia.
    + rewrite lookup_app_r by (rewrite length_take; lia).
      rewrite length_take, lookup_app_r by lia.
      rewrite lookup_drop. f_equal. lia.
Qed.

Lemma copy_from_slice_Ok {E} lo hi src dst r :
  @copy_from_slice E A lo hi src dst = Ok r <->
  lo <= hi /\ hi <= len dst /\ len src = hi - lo /\ r = splice lo src dst.
Proof.
  unfold copy_from_slice.
  destruct (N.leb_spec lo hi), (N.leb_spec hi (len dst)), (N.eqb_spec (len src) (hi - lo));
    simpl; split; intros; destruct_and?; simplify_eq; try lia; repeat split; done.
Qed.

Lemma copy_from_slice_safe {E} lo hi src dst :
  lo <= hi -> hi <= len dst -> len src = hi - lo ->
  @copy_from_slice E A lo hi src dst <> Panic.
Proof.
  intros H1 H2 H3. unfold copy_from_slice.
  by rewrite (proj2 (N.leb_le _ _) H1), (proj2 (N.leb_le _ _) H2), H3, N.eqb_refl.
Qed.

Lemma subslice_app_l l1 l2 : subslice 0 (len l1) (l1 ++ l2) = l1.
Proof.
  unfold subslice, len. change (N.to_nat 0) with 0%nat.
  rewrite drop_0, take_app_le by lia. by rewrite firstn_all2 by lia.
Qed.

Lemma subslice_skip l1 l2 lo hi :
  len l1 <= lo -> subslice lo hi (l1 ++ l2) = subslice (lo - len l1) (hi - len l1) l2.
Proof.
  unfold subslice, len. intros Hl. rewrite drop_app_ge by lia.
  f_equal; [lia |]. f_equal. lia.
Qed.

Lemma subslice_subslice a b lo hi l :
  lo + b <= hi -> subslice a b (subslice lo hi l) = subslice (lo + a) (lo + b) l.
Proof.
  intros Hb. apply list_eq. intros i. destruct (N.lt_ge_cases (N.of_nat i) (b - a)) as [Hi|Hi].
  - rewrite !subslice_lookup by lia. f_equal. lia.
  - by rewrite !subslice_lookup_ge by lia.
Qed.

Lemma subslice_app_low l1 l2 lo hi :
  hi <= len l1 -> subslice lo hi (l1 ++ l2) = subslice lo hi l1.
Proof.
  intros Hh. apply list_eq. intros i. destruct (N.lt_ge_cases (N.of_nat i) (hi - lo)) as [Hi|Hi].
  - rewrite !subslice_lookup by done. apply lookup_app_l. unfold len in *. lia.
  - by rewrite !subslice_lookup_ge by lia.
Qed.

Lemma subslice_middle l1 l2 l3 lo hi :
  len l1 = lo -> lo + len l2 = hi -> subslice lo hi (l1 ++ l2 ++ l3) = l2.
Proof.
  intros <- <-. rewrite subslice_skip by lia.
  rewrite N.sub_diag, N.add_comm, N.add_sub. apply subslice_app_l.
Qed.

Lemma subslice_split lo mid hi l :
  lo <= mid -> mid <= hi -> subslice lo mid l ++ subslice mid hi l = subslice lo hi l.
Proof.
  intros H1 H2. unfold subslice.
  replace (N.to_nat mid) with (N.to_nat lo + N.to_nat (mid - lo))%nat by lia.
  replace (N.to_nat (hi - lo)) with (N.to_nat (mid - lo) + N.to_nat (hi - mid))%nat by lia.
  by rewrite <- drop_drop, take_take_drop.
Qed.

Lemma subslice_prefix l1 l2 n : len l1 = n -> subslice 0 n (l1 ++ l2) = l1.
Proof. intros <-. apply subslice_app_l. Qed.

Lemma subslice_after l1 l2 lo hi n :
  len l1 = n -> n <= lo -> subslice lo hi (l1 ++ l2) = subslice (lo - n) (hi - n) l2.
Proof. intros <-. apply subslice_skip. Qed.

Lemma subslice_all l : subslice 0 (len l) l = l.
Proof. rewrite <- (app_nil_r l) at 2. apply subslice_app_l. Qed.

Lemma subslice_whole l n : len l = n -> subslice 0 n l = l.
Proof. intros <-. apply subslice_all. Qed.
End SliceFacts.

(** ** Little-endian numbers *)
Lemma to_N_byte_of_N n : Byte.to_N (byte_of_N n) = n mod 256.
Proof.
  unfold byte_of_N. destruct (Byte.of_N (n mod 256)) eqn:Hb.
  - by apply Byte.to_of_N in Hb.
  - apply Byte.of_N_None_iff in Hb. pose proof (N.mod_lt n 256). lia.
Qed.
Lemma byte_of_N_to_N b : byte_of_N (Byte.to_N b) = b.
Proof. by destruct b. Qed.
Lemma to_N_bound b : Byte.to_N b < 256.
Proof. destruct b; done. Qed.

Lemma length_le_bytes n v : length (le_bytes n v) = n.
Proof. revert v. induction n; simpl; auto. Qed.

Lemma le_num_le_bytes n v : le_num (le_bytes n v) = v mod 256 ^ N.of_nat n.
Proof.
  revert v. induction n as [|n IH]; intros v; simpl le_bytes; simpl le_num.
  - by rewrite N.mod_1_r.
  - rewrite IH, to_N_byte_of_N, Nat2N.inj_succ, N.pow_succ_r'.
    rewrite N.Div0.mod_mul_r. lia.
Qed.
Lemma le_num_bound l : le_num l < 256 ^ len l.
Proof.
  unfold len. induction l as [|b l IH]; simpl length; simpl le_num; [done |].
  rewrite Nat2N.inj_succ, N.pow_succ_r'. pose proof (to_N_bound b). lia.
Qed.
Lemma le_bytes_le_num l : le_bytes (length l) (le_num l) = l.
Proof.
  induction l as [|b l IH]; simpl; [done |]. f_equal.
  - assert (Hm : (Byte.to_N b + 256 * le_num l) mod 256 = Byte.to_N b).
    { rewrite (N.mul_comm 256), N.Div0.mod_add. apply N.mod_small, to_N_bound. }
    unfold byte_of_N. by rewrite Hm, Byte.of_to_N.
  - assert (Hd : (Byte.to_N b + 256 * le_num l) / 256 = le_num l).
    { rewrite (N.mul_comm 256), N.div_add by lia.
      rewrite N.div_small by apply to_N_bound. lia. }
    by rewrite Hd, IH.
Qed.
Lemma le_num_inj l1 l2 : length l1 = length l2 -> le_num l1 = le_num l2 -> l1 = l2.
Proof. intros Hl Hn. rewrite <- (le_bytes_le_num l1), <- (le_bytes_le_num l2). congruence. Qed.

Lemma le_num_u16 v : v <= u16_max -> le_num (u16_le v) = v.
Proof. intros. unfold u16_le. rewrite le_num_le_bytes. apply N.mod_small. unfold u16_max in *. simpl. lia. Qed.
Lemma le_num_u32 v : v <= u32_max -> le_num (u32_le v) = v.
Proof. intros. unfold u32_le. rewrite le_num_le_bytes. apply N.mod_small. unfold u32_max in *. simpl. lia. Qed.
Lemma le_num_u64 v : v <= u64_max -> le_num (u64_le v) = v.
Proof. intros. unfold u64_le. rewrite le_num_le_bytes. apply N.mod_small. unfold u64_max in *. simpl. lia. Qed.

Lemma le_bytes_num n s : len s = N.of_nat n -> le_bytes n (le_num s) = s.
Proof.
  intros Hl. assert (length s = n) as <- by (unfold len in Hl; lia). apply le_bytes_le_num.
Qed.
Lemma u64_le_num s : len s = 8 -> u64_le (le_num s) = s.
Proof. apply (le_bytes_num 8). Qed.
Lemma u32_le_num s : len s = 4 -> u32_le (le_num s) = s.
Proof. apply (le_bytes_num 4). Qed.
Lemma u16_le_num s : len s = 2 -> u16_le (le_num s) = s.
Proof. apply (le_bytes_num 2). Qed.
Lemma le_num_u64_bound s : len s = 8 -> le_num s <= u64_max.
Proof. intros Hl. pose proof (le_num_bound s) as Hb. rewrite Hl in Hb. apply N.lt_succ_r, Hb. Qed.
Lemma le_num_u32_bound s : len s = 4 -> le_num s <= u32_max.
Proof. intros Hl. pose proof (le_num_bound s) as Hb. rewrite Hl in Hb. apply N.lt_succ_r, Hb. Qed.

Lemma len_u16_le v : len (u16_le v) = 2.
Proof. done. Qed.
Lemma len_u32_le v : len (u32_le v) = 4.
Proof. done. Qed.
Lemma len_u64_le v : len (u64_le v) = 8.
Proof. done. Qed.
Lemma len_replicate {A} n (x : A) : len (replicate n x) = N.of_nat n.
Proof. unfold len. by rewrite length_replicate. Qed.
Lemma len_cons {A} (x : A) l : len (x :: l) = 1 + len l.
Proof. unfold len. simpl. lia. Qed.
Lemma len_nil {A} : len (@nil A) = 0.
Proof. done. Qed.

(** ** Powers of two and alignment *)
Lemma is_power_of_two_spec n : is_power_of_two n = true <-> exists k, n = 2 ^ k.
Proof.
  unfold is_power_of_two. rewrite N.eqb_eq. split; [eauto |].
  intros [k ->]. by rewrite N.log2_pow2 by lia.
Qed.
(** [x & !(a - 1)] rounds [x] down to a multiple of the power of two [a]. *)
Lemma land_not_mask k x :
  k <= 64 -> x <= u64_max -> N.land x (not_u64 (2 ^ k - 1)) = 2 ^ k * (x / 2 ^ k).
Proof.
  intros Hk Hx. unfold not_u64.
  replace u64_max with (N.ones 64) by done.
  replace (2 ^ k - 1) with (N.ones k) by (rewrite N.ones_equiv; lia).
  rewrite N.mul_comm, <- N.shiftl_mul_pow2, <- N.shiftr_div_pow2, <- N.ldiff_ones_r.
  apply N.bits_inj. intros i. rewrite N.land_spec, N.lxor_spec, N.ldiff_spec.
  destruct (N.lt_ge_cases i 64) as [Hi|Hi].
  - rewrite (N.ones_spec_low 64) by done. by destruct (N.testbit x i), (N.testbit (N.ones k) i).
  - rewrite (N.ones_spec_high 64), (N.ones_spec_high k) by lia.
    assert (Hxi : N.testbit x i = false).
    { destruct (decide (x = 0)) as [->|]; [apply N.bits_0 |].
      apply N.bits_above_log2. apply N.log2_lt_pow2; [lia |].
      apply N.lt_le_trans with (2 ^ 64); [unfold u64_max in Hx; lia |].
      apply N.pow_le_mono_r; lia. }
    by rewrite Hxi.
Qed.

(** [inv_ok] turns an equation [m = Ok v] into the equations of its steps. *)
Ltac inv_ok_step :=
  match goal with
  | H : Ok _ = Ok _ |- _ => injection H as H; subst
  | H : Err _ = Ok _ |- _ => discriminate H
  | H : Panic = Ok _ |- _ => discriminate H
  | H : mret _ = Ok _ |- _ => injection H as H; subst
  | H : _ ≫= _ = Ok _ |- _ =>
      apply bind_Ok in H; let a := fresh "a" in let H' := fresh "Hok" in
      destruct H as (a & H' & H)
  | H : map_err _ _ = Ok _ |- _ => apply map_err_Ok in H
  | H : ok_or _ _ = Ok _ |- _ => apply ok_or_Ok in H
  | H : expect _ = Ok _ |- _ => apply expect_Ok in H
  | H : refuse_if _ _ = Ok _ |- _ => apply refuse_if_Ok in H
  | H : add_u64 _ _ = Ok _ |- _ => apply add_u64_Ok in H as [-> H]
  | H : sub_u64 _ _ = Ok _ |- _ => apply sub_u64_Ok in H as [-> H]
  | H : div_u64 _ _ = Ok _ |- _ => apply div_u64_Ok in H as [-> H]
  | H : rem_u64 _ _ = Ok _ |- _ => apply rem_u64_Ok in H as [-> H]
  | H : checked_add _ _ = Some _ |- _ => apply checked_add_Some in H as [-> H]
  | H : checked_add_u32 _ _ = Some _ |- _ => apply checked_add_u32_Some in H as [-> H]
  | H : checked_sub _ _ = Some _ |- _ => apply checked_sub_Some in H as [-> H]
  | H : checked_mul _ _ = Some _ |- _ => apply checked_mul_Some in H as [-> H]
  | H : u64_try_from _ = Some _ |- _ => apply u64_try_from_Some in H as [-> H]
  | H : usize_try_from _ = Some _ |- _ => apply usize_try_from_Some in H as [-> H]
  | H : u32_try_from _ = Some _ |- _ => apply u32_try_from_Some in H as [-> H]
  end.
Ltac inv_ok := repeat inv_ok_step.

(** [slices] evaluates slices of a concatenation whose parts have known
    lengths: it drops the parts before the slice and returns the part that the
    slice covers.  Lengths are found among the hypotheses or computed. *)
Ltac known_len :=
  first [ eassumption | reflexivity | apply len_u64_le | apply len_u32_le
        | apply len_u16_le | apply len_replicate ].
Ltac norm_sub a b :=
  let v := eval vm_compute in (N.sub a b) in change (N.sub a b) with v.
Ltac slice_step :=
  match goal with
  | |- context [subslice ?lo ?hi (?l1 ++ ?l2)] =>
      let Hn0 := fresh "Hn" in
      let Hn := fresh "Hn" in
      eassert (len l1 = _) as Hn0 by known_len;
      match type of Hn0 with
      | _ = ?n0 =>
          let n := eval vm_compute in n0 in
          assert (len l1 = n) as Hn by exact Hn0; clear Hn0;
          first
            [ constr_eq lo 0; constr_eq hi n;
              rewrite (subslice_prefix l1 l2 n Hn)
            | rewrite (subslice_after l1 l2 lo hi n Hn ltac:(by vm_compute));
              norm_sub lo n; norm_sub hi n ];
          clear Hn
      end
  | |- context [subslice 0 ?n ?l] =>
      let Hn := fresh "Hn" in
      assert (len l = n) as Hn by known_len;
      rewrite (subslice_whole l n Hn); clear Hn
  end.
Ltac slices := repeat slice_step.

(** [explode l H] turns a list of known length [len l = n] into its elements. *)
Ltac explode_nat l H :=
  lazymatch type of H with
  | length _ = O => destruct l; [clear H | discriminate H]
  | length _ = S _ =>
      let l' := fresh l in
      destruct l as [|? l']; [discriminate H | apply (f_equal pred) in H; simpl in H; explode_nat l' H]
  end.
Ltac explode l H :=
  unfold len in H; apply (f_equal N.to_nat) in H; rewrite Nat2N.id in H;
  let n := lazymatch type of H with _ = ?n => n end in
  let v := eval vm_compute in n in change n with v in H; explode_nat l H.

(** [ok_step] runs the first statement of a computation that succeeds.  What it
    cannot discharge by arithmetic is left as the first goal. *)
Ltac false_test :=
  repeat match goal with
  | |- (_ || _) = false => apply orb_false_intro
  | |- negb _ = false => apply negb_false_iff
  | |- (_ <? _) = false => apply N.ltb_ge
  | |- (_ <=? _) = false => apply N.leb_gt
  | |- (_ =? _) = false => apply N.eqb_neq
  | |- (_ =? _) = true => apply N.eqb_eq
  | |- bool_decide _ = true => apply bool_decide_eq_true_2
  end; try first [ done | lia ].
Ltac some_step :=
  first [ apply checked_add_in; lia | apply checked_sub_in; lia | apply checked_mul_in; lia
        | apply u64_try_from_in; lia | apply usize_try_from_in; lia
        | apply u32_try_from_in; lia ].
Ltac ok_auto :=
  lazymatch goal with
  | |- refuse_if _ _ = Ok _ => apply refuse_step; false_test
  | |- ok_or _ _ = Ok _ => apply ok_or_step; try some_step
  | |- expect _ = Ok _ => apply expect_step; try some_step
  | |- add_u64 _ _ = Ok _ => apply expect_step; try some_step
  | |- sub_u64 _ _ = Ok _ => apply expect_step; try some_step
  | |- index_range _ _ _ = Ok _ => apply index_range_in; try lia
  | |- map_err _ _ = Ok _ => apply map_err_step; try eassumption
  | |- _ => try eassumption
  end.
Ltac ok_step := eapply bind_step; [ ok_auto | cbv beta ].

Create HintDb star discriminated.
#[export] Hint Resolve bind_safe ok_or_safe refuse_if_safe map_err_safe Ok_safe
  Err_safe add_u64_safe sub_u64_safe for_each_safe for_windows2_safe
  try_fold_safe : star.

(** [safe] closes a goal [m <> Panic] by following the structure of [m]. *)
Ltac safe_step :=
  lazymatch goal with
  | |- Ok _ <> Panic => apply Ok_safe
  | |- Err _ <> Panic => apply Err_safe
  | |- ok_or _ _ <> Panic => apply ok_or_safe
  | |- refuse_if _ _ <> Panic => apply refuse_if_safe
  | |- _ ≫= _ <> Panic => apply bind_safe; [| intros ? ?]
  | |- map_err _ _ <> Panic => apply map_err_safe
  | |- for_each _ _ <> Panic => apply for_each_safe; intros ? ?
  | |- for_windows2 _ _ <> Panic => apply for_windows2_safe; intros ? ? ? ?
  | |- try_fold _ _ _ <> Panic => apply try_fold_safe; intros ? ? ?
  | |- (if ?c then _ else _) <> Panic => destruct c eqn:?
  end.
Ltac safe := repeat safe_step.

(** Boolean tests in hypotheses become propositions. *)
Ltac bool_props :=
  repeat match goal with
  | H : _ && _ = true |- _ => apply andb_true_iff in H as [? ?]
  | H : _ || _ = false |- _ => apply orb_false_iff in H as [? ?]
  | H : negb _ = true |- _ => apply negb_true_iff in H
  | H : negb _ = false |- _ => apply negb_false_iff in H
  | H : (_ <=? _) = true |- _ => apply N.leb_le in H
  | H : (_ <=? _) = false |- _ => apply N.leb_gt in H
  | H : (_ <? _) = true |- _ => apply N.ltb_lt in H
  | H : (_ <? _) = false |- _ => apply N.ltb_ge in H
  | H : (_ =? _) = true |- _ => apply N.eqb_eq in H
  | H : (_ =? _) = false |- _ => apply N.eqb_neq in H
  | H : bool_decide _ = true |- _ => apply bool_decide_eq_true in H
  | H : bool_decide _ = false |- _ => apply bool_decide_eq_false in H
  end.
