(* ===== verification/Bytes.v ===== *)
(** * Byte fields

    Reading and writing little-endian integers at an offset of a byte slice, the
    way the on-disk codecs under [fs/] do it, and the list and number lemmas
    those codecs share. *)

From S2P Require Export Prelude.
From stdpp Require Import options.

#[local] Open Scope N_scope.

(** [uN::from_le_bytes(bytes[offset..offset + n])]: an index outside the slice
    aborts. *)
Definition read_le {E : Type} (n : nat) (bytes : list byte) (offset : N) : outcome E N :=
  s ← index_range offset (offset + N.of_nat n) bytes; Ok (le_num s).
(** [bytes[offset..offset + n].copy_from_slice(&value.to_le_bytes())]. *)
Definition put_le {E : Type} (n : nat) (bytes : list byte) (offset value : N)
    : outcome E (list byte) :=
  copy_from_slice offset (offset + N.of_nat n) (le_bytes n value) bytes.
(** The integer stored in a field. *)
Definition field (n : nat) (bytes : list byte) (offset : N) : N :=
  le_num (subslice offset (offset + N.of_nat n) bytes).

(** [bytes.iter().position(|byte| *byte != 0)] and the byte found. *)
Fixpoint find_nonzero (offset : N) (bytes : list byte) : option (N * byte) :=
  match bytes with
  | [] => None
  | byte :: bytes =>
      if Byte.to_N byte =? 0 then find_nonzero (offset + 1) bytes else Some (offset, byte)
  end.
(** [iter().enumerate()]. *)
Fixpoint enumerate_from {A : Type} (i : N) (l : list A) : list (N * A) :=
  match l with
  | [] => []
  | x :: l => (i, x) :: enumerate_from (i + 1) l
  end.
Definition enumerate {A : Type} (l : list A) : list (N * A) := enumerate_from 0 l.

(** [u32] arithmetic. *)
Definition checked_mul_u32 (a b : N) : option N :=
  if a * b <=? u32_max then Some (a * b) else None.
Definition checked_shl_u32 (a shift : N) : option N :=
  if shift <? 32 then Some (N.land (N.shiftl a shift) u32_max) else None.

Definition u8_try_from (n : N) : option N := if n <=? u8_max then Some n else None.
Definition u16_try_from (n : N) : option N := if n <=? u16_max then Some n else None.

(** [iter().find(p)] for a test that may abort. *)
Fixpoint try_find {E A : Type} (p : A -> outcome E bool) (l : list A)
    : outcome E (option A) :=
  match l with
  | [] => Ok None
  | x :: l => found ← p x; if (found : bool) then Ok (Some x) else try_find p l
  end.

(** [char::decode_utf16] finds no unpaired surrogate. *)
Definition is_high_surrogate (unit : N) : bool := (55296 <=? unit) && (unit <=? 56319).
Definition is_low_surrogate (unit : N) : bool := (56320 <=? unit) && (unit <=? 57343).
Fixpoint utf16_valid (units : list N) : bool :=
  match units with
  | [] => true
  | unit :: rest =>
      if is_high_surrogate unit then
        match rest with
        | low :: rest => is_low_surrogate low && utf16_valid rest
        | [] => false
        end
      else negb (is_low_surrogate unit) && utf16_valid rest
  end.

(** * Lemmas *)

Lemma lor_shiftl_add a b n : a < 2 ^ n -> N.lor a (N.shiftl b n) = a + b * 2 ^ n.
Proof.
  intros Ha. rewrite <- N.shiftl_mul_pow2.
  assert (Hd : N.land a (N.shiftl b n) = 0).
  { apply N.bits_inj. intros i. rewrite N.land_spec, N.bits_0.
    destruct (N.lt_ge_cases i n) as [Hi|Hi].
    - rewrite N.shiftl_spec_low by done. apply andb_false_r.
    - destruct (decide (a = 0)) as [->|]; [by rewrite N.bits_0 |].
      rewrite N.bits_above_log2; [done |]. apply N.log2_lt_pow2; [lia |].
      eapply N.lt_le_trans; [exact Ha |]. apply N.pow_le_mono_r; lia. }
  rewrite N.add_nocarry_lxor by done. symmetry. by apply N.lxor_lor.
Qed.

(** Euclidean division with variables for the quotient and the remainder. *)
Lemma euclid a b : b <> 0 -> exists q r, a / b = q /\ a mod b = r /\ a = b * q + r /\ r < b.
Proof.
  intros Hb. exists (a / b), (a mod b). split_and!; [done | done | apply N.Div0.div_mod |].
  by apply N.mod_lt.
Qed.

Lemma div_ceil_split a b :
  b <> 0 -> (if 0 <? a mod b then a / b + 1 else a / b) = (a + (b - 1)) / b.
Proof.
  intros Hb. pose proof (N.Div0.div_mod a b) as Hd. pose proof (N.mod_lt a b Hb) as Hm.
  revert Hd Hm. generalize (a / b), (a mod b). intros q s -> Hs.
  destruct (N.ltb_spec 0 s) as [H0|H0].
  - apply N.div_unique with (s - 1); lia.
  - apply N.div_unique with (b - 1); lia.
Qed.

Lemma le_num_app l1 l2 : le_num (l1 ++ l2) = le_num l1 + 256 ^ len l1 * le_num l2.
Proof.
  unfold len. induction l1 as [|b l1 IH]; simpl le_num; simpl length.
  - simpl. lia.
  - rewrite IH, Nat2N.inj_succ, N.pow_succ_r'. lia.
Qed.

Lemma last_snoc_inv {A} (l : list A) : l = [] \/ exists l' x, l = l' ++ [x].
Proof. induction l as [|x l _] using rev_ind; eauto. Qed.

Lemma split_three {A} (l : list A) a b :
  a + b <= len l ->
  exists l1 l2 l3, l = l1 ++ l2 ++ l3 /\ len l1 = a /\ len l2 = b.
Proof.
  intros Hl. exists (subslice 0 a l), (subslice a (a + b) l), (subslice (a + b) (len l) l).
  split; [|split; rewrite len_subslice; lia].
  by rewrite !subslice_split, subslice_all by lia.
Qed.

Lemma Sorted_snoc_iff {A} (R : A -> A -> Prop) l x :
  Sorted R (l ++ [x]) <-> Sorted R l /\ (forall y, last l = Some y -> R y x).
Proof.
  induction l as [|z [|w l] IH]; simpl.
  - split; [split; [constructor | done] | repeat constructor].
  - split.
    + intros Hs. inversion_clear Hs as [|?? _ Hh]. inversion_clear Hh.
      split; [repeat constructor |]. by intros y [= <-].
    + intros [_ Hy]. repeat constructor. by apply Hy.
  - split.
    + intros Hs. inversion_clear Hs as [|?? Ht Hh]. apply IH in Ht as [Ht Hy].
      split; [|done]. constructor; [done |]. by inversion_clear Hh; constructor.
    + intros [Hs Hy]. inversion_clear Hs as [|?? Ht Hh].
      constructor; [by apply IH |]. by inversion_clear Hh; constructor.
Qed.

Lemma to_N_zero b : Byte.to_N b = 0 <-> b = x00.
Proof. by destruct b. Qed.

Lemma split_at {A} (l : list A) o x :
  l !! N.to_nat o = Some x -> exists pre rest, l = pre ++ x :: rest /\ o = len pre.
Proof.
  intros Hx. exists (take (N.to_nat o) l), (drop (S (N.to_nat o)) l).
  split; [by rewrite take_drop_middle |].
  pose proof (lookup_lt_Some _ _ _ Hx). unfold len. rewrite length_take. lia.
Qed.

Lemma find_nonzero_None offset l :
  find_nonzero offset l = None <-> Forall (fun b => b = x00) l.
Proof.
  revert offset. induction l as [|b l IH]; intros offset; simpl; [done |].
  rewrite Forall_cons. destruct (N.eqb_spec (Byte.to_N b) 0) as [Hb|Hb].
  - rewrite IH. apply to_N_zero in Hb. naive_solver.
  - rewrite to_N_zero in Hb. naive_solver.
Qed.
Lemma find_nonzero_bound offset l i b :
  find_nonzero offset l = Some (i, b) -> i < offset + len l.
Proof.
  revert offset. induction l as [|c l IH]; intros offset; simpl; [done |].
  rewrite len_cons. destruct (Byte.to_N c =? 0).
  - intros H%IH. lia.
  - intros [= <- <-]. lia.
Qed.

Lemma u8_try_from_Some a c : u8_try_from a = Some c <-> c = a /\ a <= u8_max.
Proof. unfold u8_try_from. destruct (N.leb_spec a u8_max); by_arith. Qed.
Lemma u16_try_from_Some a c : u16_try_from a = Some c <-> c = a /\ a <= u16_max.
Proof. unfold u16_try_from. destruct (N.leb_spec a u16_max); by_arith. Qed.

Lemma try_find_None {E A} (p : A -> outcome E bool) l :
  try_find p l = Ok None <-> Forall (fun x => p x = Ok false) l.
Proof.
  induction l as [|x l IH]; simpl; [done |]. rewrite Forall_cons, bind_Ok, <- IH. split.
  - intros ([] & Hp & Hl); [done | done].
  - intros [Hp Hl]. by exists false.
Qed.
Lemma try_find_Some {E A} (p : A -> outcome E bool) l x :
  try_find p l = Ok (Some x) <->
  exists l1 l2, l = l1 ++ x :: l2 /\ Forall (fun y => p y = Ok false) l1 /\ p x = Ok true.
Proof.
  induction l as [|y l IH]; simpl.
  - split; [done | intros ([] & ? & ? & _); done].
  - rewrite bind_Ok. split.
    + intros ([] & Hp & Hl).
      * injection Hl as ->. by exists [], l.
      * apply IH in Hl as (l1 & l2 & -> & Hf & Hx). exists (y :: l1), l2. by repeat constructor.
    + intros (l1 & l2 & Hl & Hf & Hx). destruct l1 as [|z l1]; simplify_eq/=; [by exists true |].
      apply Forall_cons in Hf as [Hz Hf]. exists false. split; [done |]. apply IH. eauto.
Qed.
Lemma try_find_total {E A} (p : A -> outcome E bool) l :
  (forall x, x ∈ l -> exists d, p x = Ok d) -> exists r, try_find p l = Ok r.
Proof.
  induction l as [|x l IH]; simpl; [by eexists |]. intros Hp.
  destruct (Hp x ltac:(by left)) as [[] ->]; simpl; [by eexists |].
  apply IH. intros ??. apply Hp. by right.
Qed.
Lemma try_find_safe {E A} (p : A -> outcome E bool) l :
  (forall x, x ∈ l -> p x <> Panic) -> try_find p l <> Panic.
Proof.
  induction l as [|x l IH]; simpl; [done |]. intros Hp. apply bind_safe; [apply Hp; by left |].
  intros [] _; [done |]. apply IH. intros ??. apply Hp. by right.
Qed.

Lemma enumerate_from_app {A} i (l1 l2 : list A) :
  enumerate_from i (l1 ++ l2) = enumerate_from i l1 ++ enumerate_from (i + len l1) l2.
Proof.
  revert i. induction l1 as [|x l1 IH]; intros i; simpl.
  - by rewrite len_nil, N.add_0_r.
  - rewrite IH, len_cons. by rewrite N.add_assoc.
Qed.
Lemma elem_of_enumerate_from {A} i (l : list A) j x :
  (j, x) ∈ enumerate_from i l <-> i <= j /\ l !! N.to_nat (j - i) = Some x.
Proof.
  revert i. induction l as [|y l IH]; intros i; simpl.
  - split; [by intros ?%elem_of_nil | by intros [_ ?]].
  - rewrite elem_of_cons, IH. split.
    + intros [[= -> ->]|[Hj Hx]]; [by rewrite N.sub_diag |]. split; [lia |].
      by replace (N.to_nat (j - i)) with (S (N.to_nat (j - (i + 1)))) by lia.
    + intros [Hj Hx]. destruct (decide (i = j)) as [->|Hn].
      * left. rewrite N.sub_diag in Hx. by injection Hx as ->.
      * right. split; [lia |].
        by replace (N.to_nat (j - i)) with (S (N.to_nat (j - (i + 1)))) in Hx by lia.
Qed.

Lemma checked_mul_u32_Some a b c : checked_mul_u32 a b = Some c <-> c = a * b /\ a * b <= u32_max.
Proof. unfold checked_mul_u32. destruct (N.leb_spec (a * b) u32_max); by_arith. Qed.
Lemma checked_shl_one s : s < 32 -> checked_shl_u32 1 s = Some (2 ^ s).
Proof.
  intros Hs. unfold checked_shl_u32. rewrite (proj2 (N.ltb_lt _ _)) by done.
  rewrite N.shiftl_1_l. f_equal. change u32_max with (N.ones 32).
  rewrite N.land_ones. apply N.mod_small, N.pow_lt_mono_r; lia.
Qed.

(** Checked operations that stay in range. *)
Lemma add_u64_in {E} a b : a + b <= u64_max -> @add_u64 E a b = Ok (a + b).
Proof. intros. by apply add_u64_Ok. Qed.
Lemma sub_u64_in {E} a b : b <= a -> @sub_u64 E a b = Ok (a - b).
Proof. intros. by apply sub_u64_Ok. Qed.
Lemma div_u64_in {E} a b : b <> 0 -> @div_u64 E a b = Ok (a / b).
Proof. intros. by apply div_u64_Ok. Qed.
Lemma rem_u64_in {E} a b : b <> 0 -> @rem_u64 E a b = Ok (a mod b).
Proof. intros. by apply rem_u64_Ok. Qed.
Lemma u8_try_from_in a : a <= u8_max -> u8_try_from a = Some a.
Proof. intros. by apply u8_try_from_Some. Qed.

(** [x & !(2^k - 1)] on [n] bits is zero when no bit from [k] up is set. *)
Lemma land_high_zero x k n :
  x < 2 ^ n -> k <= n -> N.land x (N.lxor (N.ones k) (N.ones n)) = 0 <-> x < 2 ^ k.
Proof.
  intros Hx Hk.
  assert (Hb : forall i, n <= i -> N.testbit x i = false).
  { intros i Hi. destruct (decide (x = 0)) as [->|]; [apply N.bits_0 |].
    apply N.bits_above_log2, N.log2_lt_pow2; [lia |].
    eapply N.lt_le_trans; [exact Hx |]. apply N.pow_le_mono_r; lia. }
  split.
  - intros H0. destruct (decide (x = 0)) as [->|Hn]; [pose proof (N.pow_nonzero 2 k); lia |].
    apply N.log2_lt_pow2; [lia |]. destruct (N.lt_ge_cases (N.log2 x) k) as [|Hl]; [done |].
    apply (f_equal (fun y => N.testbit y (N.log2 x))) in H0.
    rewrite N.land_spec, N.bit_log2, N.lxor_spec, N.bits_0 in H0 by done.
    rewrite (N.ones_spec_high k) in H0 by done.
    destruct (N.lt_ge_cases (N.log2 x) n) as [Hn'|Hn'].
    + rewrite N.ones_spec_low in H0 by done. done.
    + specialize (Hb _ Hn'). rewrite N.bit_log2 in Hb by done. done.
  - intros Hlt. apply N.bits_inj. intros i. rewrite N.land_spec, N.lxor_spec, N.bits_0.
    destruct (N.lt_ge_cases i k) as [Hi|Hi].
    + rewrite !N.ones_spec_low by lia. apply andb_false_r.
    + assert (N.testbit x i = false) as ->; [|done].
      destruct (decide (x = 0)) as [->|]; [apply N.bits_0 |].
      apply N.bits_above_log2, N.log2_lt_pow2; [lia |].
      eapply N.lt_le_trans; [exact Hlt |]. apply N.pow_le_mono_r; lia.
Qed.

(** ** Fields *)
Lemma read_le_Ok {E} n bytes offset v :
  @read_le E n bytes offset = Ok v <->
  offset + N.of_nat n <= len bytes /\ v = field n bytes offset.
Proof.
  unfold read_le, field. rewrite bind_Ok. split.
  - intros (s & Hs & [= <-]). by apply index_range_Ok in Hs as (_ & ? & ->).
  - intros [Hl ->]. eexists. split; [apply index_range_in; lia | done].
Qed.
Lemma read_le_in {E} n bytes offset :
  offset + N.of_nat n <= len bytes -> @read_le E n bytes offset = Ok (field n bytes offset).
Proof. intros. by apply read_le_Ok. Qed.
Lemma read_le_safe {E} n bytes offset :
  offset + N.of_nat n <= len bytes -> @read_le E n bytes offset <> Panic.
Proof. intros. by rewrite read_le_in. Qed.

Lemma put_le_in {E} n bytes offset v :
  offset + N.of_nat n <= len bytes ->
  @put_le E n bytes offset v = Ok (splice offset (le_bytes n v) bytes).
Proof.
  intros. unfold put_le. apply copy_from_slice_Ok.
  unfold len at 2. rewrite length_le_bytes. split_and!; [lia | lia | lia | done].
Qed.

Lemma len_le_bytes n v : len (le_bytes n v) = N.of_nat n.
Proof. unfold len. by rewrite length_le_bytes. Qed.

Lemma slice_splice_same {A} lo (src dst : list A) :
  lo + len src <= len dst -> subslice lo (lo + len src) (splice lo src dst) = src.
Proof.
  intros Hl. apply list_eq. intros i.
  destruct (N.lt_ge_cases (N.of_nat i) (len src)) as [Hi|Hi].
  - rewrite subslice_lookup, splice_lookup by lia.
    rewrite decide_True by lia. f_equal. lia.
  - rewrite subslice_lookup_ge by lia. symmetry. apply lookup_ge_None. unfold len in Hi. lia.
Qed.
Lemma slice_splice_other {A} lo hi at_ (src dst : list A) :
  at_ + len src <= len dst -> hi <= at_ \/ at_ + len src <= lo ->
  subslice lo hi (splice at_ src dst) = subslice lo hi dst.
Proof.
  intros Hl Ha. apply list_eq. intros i.
  destruct (N.lt_ge_cases (N.of_nat i) (hi - lo)) as [Hi|Hi].
  - rewrite !subslice_lookup, splice_lookup by lia. by rewrite decide_False by lia.
  - by rewrite !subslice_lookup_ge by lia.
Qed.

Lemma field_put_same n bytes offset v :
  offset + N.of_nat n <= len bytes ->
  field n (splice offset (le_bytes n v) bytes) offset = v mod 256 ^ N.of_nat n.
Proof.
  intros Hl. unfold field. rewrite <- (len_le_bytes n v) at 1.
  rewrite slice_splice_same by (rewrite len_le_bytes; lia). apply le_num_le_bytes.
Qed.
Lemma field_splice_other n bytes offset at_ src :
  at_ + len src <= len bytes -> offset + N.of_nat n <= at_ \/ at_ + len src <= offset ->
  field n (splice at_ src bytes) offset = field n bytes offset.
Proof. intros. unfold field. by rewrite slice_splice_other. Qed.
Lemma field_put_other n m bytes offset at_ v :
  at_ + N.of_nat m <= len bytes -> offset + N.of_nat n <= at_ \/ at_ + N.of_nat m <= offset ->
  field n (splice at_ (le_bytes m v) bytes) offset = field n bytes offset.
Proof. intros. apply field_splice_other; rewrite len_le_bytes; lia. Qed.
Lemma len_put n bytes offset v :
  offset + N.of_nat n <= len bytes -> len (splice offset (le_bytes n v) bytes) = len bytes.
Proof. intros. apply len_splice. by rewrite len_le_bytes. Qed.
Lemma field_bound n bytes offset :
  offset + N.of_nat n <= len bytes -> field n bytes offset < 256 ^ N.of_nat n.
Proof.
  intros. unfold field. pose proof (le_num_bound (subslice offset (offset + N.of_nat n) bytes)) as Hb.
  rewrite len_subslice in Hb by lia. by replace (offset + N.of_nat n - offset) with (N.of_nat n) in Hb by lia.
Qed.

(** The values of the bounds, for [lia]. *)
Lemma max_values : u8_max = 255 /\ u16_max = 65535 /\ u32_max = 4294967295 /\
  u64_max = 18446744073709551615 /\ isize_max = 9223372036854775807.
Proof. done. Qed.
Ltac widths :=
  let H8 := fresh "Hu8" in let H16 := fresh "Hu16" in let H32 := fresh "Hu32" in
  let H64 := fresh "Hu64" in let Hi := fresh "Hisize" in
  destruct max_values as (H8 & H16 & H32 & H64 & Hi).

(** [inv_reads] resolves the reads of a computation that succeeded; [read_step]
    runs one. *)
Ltac inv_reads :=
  repeat match goal with
  | H : read_le _ _ _ = Ok _ |- _ => apply read_le_Ok in H as [? ->]
  | H : index_range _ _ _ = Ok _ |- _ => apply index_range_Ok in H as (_ & ? & ->)
  end.
Ltac read_step :=
  eapply bind_step; [first [apply read_le_in | apply index_range_in]; lia | cbv beta].

(** [b'] is [b] with new content in one range. *)
Definition updated (b b' : list byte) (offset n : N) : Prop :=
  len b' = len b /\
  forall lo hi, hi <= offset \/ offset + n <= lo -> subslice lo hi b' = subslice lo hi b.

Lemma copy_updated {E} lo hi src dst b' :
  @copy_from_slice E byte lo hi src dst = Ok b' ->
  hi <= len dst /\ len src = hi - lo /\ lo <= hi /\
  updated dst b' lo (len src) /\ subslice lo hi b' = src.
Proof.
  intros (H1 & H2 & H3 & ->)%copy_from_slice_Ok.
  split_and!; try done.
  - split; [apply len_splice; lia |]. intros. apply slice_splice_other; lia.
  - replace hi with (lo + len src) by lia. apply slice_splice_same. lia.
Qed.
Lemma put_updated {E} n b offset v b' :
  @put_le E n b offset v = Ok b' ->
  updated b b' offset (N.of_nat n) /\ offset + N.of_nat n <= len b /\
  field n b' offset = v mod 256 ^ N.of_nat n.
Proof.
  unfold put_le. intros (H1 & H2 & _ & Hu & Hs)%copy_updated.
  rewrite len_le_bytes in Hu. split_and!; [done | lia |].
  unfold field. rewrite Hs. apply le_num_le_bytes.
Qed.
Lemma field_updated n b b' offset m o :
  updated b b' offset m -> o + N.of_nat n <= offset \/ offset + m <= o ->
  field n b' o = field n b o.
Proof. intros [_ Hu] Ho. unfold field. by rewrite Hu by lia. Qed.
Lemma field_of_slice n b lo hi k :
  lo + k + N.of_nat n <= hi -> field n (subslice lo hi b) k = field n b (lo + k).
Proof. intros. unfold field. rewrite subslice_subslice by lia. by rewrite N.add_assoc. Qed.

Lemma subslice_replicate {A} lo hi n (x : A) :
  hi <= N.of_nat n -> subslice lo hi (replicate n x) = replicate (N.to_nat (hi - lo)) x.
Proof.
  intros. unfold subslice. rewrite drop_replicate, take_replicate. f_equal. lia.
Qed.
Lemma le_num_replicate n : le_num (replicate n x00) = 0.
Proof. induction n; simpl; [done | lia]. Qed.
Lemma le_num_zeros l : Forall (fun b => b = x00) l -> le_num l = 0.
Proof. induction 1 as [|b l -> _ IH]; simpl; [done | lia]. Qed.
Lemma field_zeros n m o : o + N.of_nat n <= N.of_nat m -> field n (replicate m x00) o = 0.
Proof. intros. unfold field. rewrite subslice_replicate by lia. apply le_num_replicate. Qed.

(** [peel] reads a field through the writes that do not touch it. *)
Ltac peel_step :=
  match goal with
  | H : updated ?b ?b' _ _ |- context [field ?n ?b' ?o] =>
      rewrite (field_updated n b b' _ _ o H) by lia
  | H : updated ?b ?b' _ _ |- context [subslice ?lo ?hi ?b'] =>
      rewrite (proj2 H lo hi) by lia
  end.
Ltac peel := repeat peel_step.

(** ** The writer *)
Ltac puts :=
  repeat match goal with
  | H : put_le _ _ _ _ = Ok _ |- _ =>
      let Hu := fresh "Hupd" in let Hb := fresh "Hbnd" in let Hf := fresh "Hfld" in
      apply put_updated in H as (Hu & Hb & Hf); cbn [N.of_nat Pos.of_succ_nat Pos.succ] in Hu, Hb, Hf
  | H : copy_from_slice _ _ _ _ = Ok _ |- _ =>
      let Hu := fresh "Hupd" in let Hs := fresh "Hslc" in
      apply copy_updated in H as (? & ? & ? & Hu & Hs)
  end.

(** [H : updated b b' o n] gives the length of [b']. *)
Ltac lens :=
  repeat match goal with
  | H : updated ?b ?b' _ _ |- _ =>
      lazymatch goal with
      | _ : len b' = len b |- _ => fail
      | _ => pose proof (proj1 H)
      end
  end.

(** A write inside the slice succeeds; [put_next] runs the next write of a
    computation that must succeed and keeps what it wrote. *)
Lemma put_le_total {E} n b offset v :
  offset + N.of_nat n <= len b ->
  exists b', @put_le E n b offset v = Ok b' /\ updated b b' offset (N.of_nat n) /\
    field n b' offset = v mod 256 ^ N.of_nat n /\ len b' = len b.
Proof.
  intros Hb. rewrite put_le_in by done. eexists. split; [reflexivity |].
  destruct (put_updated (E := E) n b offset v _ (put_le_in n b offset v Hb)) as (Hu & _ & Hf).
  split; [exact Hu |]. split; [exact Hf |]. apply Hu.
Qed.
Lemma copy_total {E} lo hi src dst :
  lo <= hi -> hi <= len dst -> len src = hi - lo ->
  exists b', @copy_from_slice E byte lo hi src dst = Ok b' /\ updated dst b' lo (len src) /\
    subslice lo hi b' = src /\ len b' = len dst.
Proof.
  intros H1 H2 H3. exists (splice lo src dst).
  assert (He : @copy_from_slice E byte lo hi src dst = Ok (splice lo src dst))
    by (by apply copy_from_slice_Ok).
  split; [done |]. apply copy_updated in He as (_ & _ & _ & Hu & Hs).
  split; [exact Hu |]. split; [exact Hs |]. apply Hu.
Qed.
Ltac put_next :=
  let b := fresh "b" in let He := fresh "Hput" in let Hu := fresh "Hupd" in
  let Hv := fresh "Hval" in let Hl := fresh "Hlen" in
  match goal with
  | |- context [@put_le ?E ?n ?m ?o ?v] =>
      destruct (@put_le_total E n m o v) as (b & He & Hu & Hv & Hl);
        [lia | rewrite He; cbn [mbind outcome_bind];
               let k := eval vm_compute in (N.of_nat n) in
               let w := eval vm_compute in (256 ^ N.of_nat n) in
               change (256 ^ N.of_nat n) with w in Hv; change (N.of_nat n) with k in Hu;
               try rewrite N.mod_small in Hv by lia]
  | |- context [@copy_from_slice ?E _ ?lo ?hi ?s ?d] =>
      destruct (@copy_total E lo hi s d) as (b & He & Hu & Hv & Hl);
        [lia | lia | try reflexivity | rewrite He; cbn [mbind outcome_bind]]
  end.

(** [step] runs the next arithmetic statement of a computation that succeeds,
    wherever the computation stands in the goal. *)
Ltac step :=
  match goal with
  | |- context [add_u64 ?a ?b ≫= _] => rewrite (add_u64_in a b) by lia
  | |- context [sub_u64 ?a ?b ≫= _] => rewrite (sub_u64_in a b) by lia
  | |- context [div_u64 ?a ?b ≫= _] => rewrite (div_u64_in a b) by lia
  | |- context [rem_u64 ?a ?b ≫= _] => rewrite (rem_u64_in a b) by lia
  | |- context [_ (checked_add ?a ?b) ≫= _] => rewrite (checked_add_in a b) by lia
  | |- context [_ (checked_sub ?a ?b) ≫= _] => rewrite (checked_sub_in a b) by lia
  | |- context [_ (checked_mul ?a ?b) ≫= _] => rewrite (checked_mul_in a b) by lia
  | |- context [_ (usize_try_from ?a) ≫= _] => rewrite (usize_try_from_in a) by lia
  | |- context [_ (u64_try_from ?a) ≫= _] => rewrite (u64_try_from_in a) by lia
  | |- context [_ (u32_try_from ?a) ≫= _] => rewrite (u32_try_from_in a) by lia
  | |- context [_ (u8_try_from ?a) ≫= _] => rewrite (u8_try_from_in a) by lia
  | |- context [refuse_if (?a <? ?b) ?e ≫= _] => rewrite (proj2 (N.ltb_ge a b)) by lia
  | |- context [refuse_if (?a <=? ?b) ?e ≫= _] => rewrite (proj2 (N.leb_gt a b)) by lia
  | |- context [refuse_if (?a =? ?b) ?e ≫= _] => rewrite (proj2 (N.eqb_neq a b)) by lia
  end; cbn [ok_or expect refuse_if mbind outcome_bind].

(** [0, 1, ..., n - 1]. *)
Definition indices (n : N) : list N := N.of_nat <$> seq 0 (N.to_nat n).
Lemma indices_succ n : indices (n + 1) = indices n ++ [n].
Proof.
  unfold indices. replace (N.to_nat (n + 1)) with (S (N.to_nat n)) by lia.
  rewrite seq_S, fmap_app. simpl. by rewrite N2Nat.id.
Qed.
Lemma elem_of_indices n k : k ∈ indices n <-> k < n.
Proof.
  unfold indices. rewrite list_elem_of_fmap. split.
  - intros (i & -> & Hi). apply elem_of_seq in Hi. lia.
  - intros. exists (N.to_nat k). rewrite N2Nat.id, elem_of_seq. split; [done | lia].
Qed.

(** ** Postconditions

    [yields P m]: [m] does not panic, and if it succeeds its result satisfies
    [P]. *)
Definition yields {E A : Type} (P : A -> Prop) (m : outcome E A) : Prop :=
  match m with
  | Ok a => P a
  | Err _ => True
  | Panic => False
  end.

Section YieldsFacts.
Context {E A B : Type}.
Implicit Types (m : outcome E A) (P Q : A -> Prop).

Lemma yields_spec P m : yields P m <-> m <> Panic /\ forall a, m = Ok a -> P a.
Proof. destruct m; simpl; naive_solver. Qed.
Lemma yields_safe P m : yields P m -> m <> Panic.
Proof. by destruct m. Qed.
Lemma yields_Ok P m a : yields P m -> m = Ok a -> P a.
Proof. by intros H ->. Qed.
Lemma yields_intro P m : m <> Panic -> (forall a, m = Ok a -> P a) -> yields P m.
Proof. rewrite yields_spec. done. Qed.
Lemma yields_bind (P : B -> Prop) Q m (f : A -> outcome E B) :
  yields Q m -> (forall a, Q a -> yields P (f a)) -> yields P (m ≫= f).
Proof. destruct m; simpl; auto. Qed.
Lemma yields_then (P : B -> Prop) m (f : A -> outcome E B) :
  m <> Panic -> (forall a, m = Ok a -> yields P (f a)) -> yields P (m ≫= f).
Proof. destruct m; simpl; auto. Qed.
Lemma yields_weaken P Q m : yields P m -> (forall a, P a -> Q a) -> yields Q m.
Proof. destruct m; simpl; auto. Qed.
End YieldsFacts.

Lemma yields_fold {E A S} (I : S -> Prop) (f : S -> A -> outcome E S) s l :
  I s -> (forall s x, x ∈ l -> I s -> yields I (f s x)) -> yields I (try_fold f s l).
Proof.
  revert s. induction l as [|x l IH]; intros s Hs Hf; simpl; [done |].
  eapply yields_bind; [apply Hf; [by left | done] |]. intros s' Hs'. apply IH; [done |].
  intros ???. apply Hf. by right.
Qed.

(** Folds over an index range, with what the state is before each index. *)
Lemma try_fold_indices {E S} (g : N -> S) (f : S -> N -> outcome E S) n :
  (forall k, k < n -> f (g k) k = Ok (g (k + 1))) -> try_fold f (g 0) (indices n) = Ok (g n).
Proof.
  induction n as [|n IH] using N.peano_ind; intros Hf; [done |].
  rewrite <- N.add_1_r, indices_succ, try_fold_app, IH by (intros; apply Hf; lia).
  simpl. rewrite Hf by lia. done.
Qed.
Lemma yields_fold_indices {E S} (I : N -> S -> Prop) (f : S -> N -> outcome E S) s n :
  I 0 s -> (forall k s, k < n -> I k s -> yields (I (k + 1)) (f s k)) ->
  yields (I n) (try_fold f s (indices n)).
Proof.
  intros Hs. induction n as [|n IH] using N.peano_ind; intros Hf; [done |].
  rewrite <- N.add_1_r, indices_succ, try_fold_app.
  eapply yields_bind; [apply IH; intros; apply Hf; [lia | done] |].
  intros s' Hs'. simpl. specialize (Hf n s' ltac:(lia) Hs').
  destruct (f s' n); simpl in *; [by rewrite N.add_1_r in * | done | done].
Qed.

Lemma len_entry_slice {A} (b : list A) index size :
  (index + 1) * size <= len b -> len (subslice (index * size) ((index + 1) * size) b) = size.
Proof. intros. rewrite len_subslice by lia. lia. Qed.

Lemma then_Ok {E A} (m : outcome E unit) (k : outcome E A) r :
  m ≫= (fun _ => k) = Ok r <-> m = Ok tt /\ k = Ok r.
Proof. destruct m as [[]| |]; simpl; naive_solver. Qed.
(** [if c { return Err(e) }] in front of a computation. *)
Lemma refuse_or {E A} c (e : E) (k : outcome E A) :
  (refuse_if c e ;; k) = (if c then Err e else k).
Proof. by destruct c. Qed.
