(* ===== verification/Bits.v ===== *)
(** * Bit arrays

    A bitmap stores one bit per cluster, least significant bit first. The
    counting and searching primitives of the two bitmap parsers of the program
    ([fs/exfat_allocation.rs], [fs/ntfs_bitmap.rs]), and the lemmas that relate
    them to the bits. *)

From S2P Require Export Prelude Bytes.
From stdpp Require Import options.

#[local] Open Scope N_scope.

(** [u8::count_ones] and [u8::trailing_zeros]. *)
Fixpoint count_ones_pos (p : positive) : N :=
  match p with
  | xH => 1
  | xO p => count_ones_pos p
  | xI p => 1 + count_ones_pos p
  end.
Definition count_ones (n : N) : N :=
  match n with
  | N0 => 0
  | Npos p => count_ones_pos p
  end.
Fixpoint trailing_zeros_pos (p : positive) : N :=
  match p with
  | xO p => 1 + trailing_zeros_pos p
  | _ => 0
  end.
Definition trailing_zeros (width n : N) : N :=
  match n with
  | N0 => width
  | Npos p => trailing_zeros_pos p
  end.

(** The bit of a cluster in the bitmap. *)
Definition bitmap_bit (bitmap : list byte) (index : N) : bool :=
  match bitmap !! N.to_nat (index / 8) with
  | Some byte => N.testbit (Byte.to_N byte) (index mod 8)
  | None => false
  end.

(** The number of set bits among the first [n]. *)
Definition bits_set (bit : N -> bool) (n : N) : N := sum_by (fun i => N.b2n (bit i)) (indices n).

(** The first position of a range where a test holds. *)
Definition first_bit (bit : N -> bool) (lo hi : N) (r : option N) : Prop :=
  match r with
  | Some i => lo <= i < hi /\ bit i = true /\ forall j, lo <= j < i -> bit j = false
  | None => forall j, lo <= j < hi -> bit j = false
  end.

(** ** Counting bits *)
Lemma sum_by_ext {A} (f g : A -> N) l : (forall x, x ∈ l -> f x = g x) -> sum_by f l = sum_by g l.
Proof.
  induction l as [|x l IH]; intros Hf; [done |]. rewrite !sum_by_cons, IH, Hf; [done | by left |].
  intros ??. apply Hf. by right.
Qed.

Lemma bits_set_succ bit n : bits_set bit (n + 1) = bits_set bit n + N.b2n (bit n).
Proof. unfold bits_set. rewrite indices_succ, sum_by_app. simpl. lia. Qed.
Lemma bits_set_le bit n : bits_set bit n <= n.
Proof.
  induction n as [|n IH] using N.peano_ind; [done |]. rewrite <- N.add_1_r, bits_set_succ.
  destruct (bit n); simpl N.b2n; lia.
Qed.
Lemma bits_set_add bit n m :
  bits_set bit (n + m) = bits_set bit n + bits_set (fun i => bit (n + i)) m.
Proof.
  induction m as [|m IH] using N.peano_ind.
  - rewrite N.add_0_r. unfold bits_set at 3. simpl. lia.
  - rewrite <- N.add_1_r, N.add_assoc, !bits_set_succ, IH. lia.
Qed.
Lemma bits_set_ext b1 b2 n : (forall i, i < n -> b1 i = b2 i) -> bits_set b1 n = bits_set b2 n.
Proof.
  induction n as [|n IH] using N.peano_ind; intros He; [done |].
  rewrite <- N.add_1_r, !bits_set_succ, IH, He by (intros; try apply He; lia). done.
Qed.

Lemma count_ones_byte b : count_ones (Byte.to_N b) = bits_set (N.testbit (Byte.to_N b)) 8.
Proof. by destruct b. Qed.
Lemma count_ones_masked b r :
  r < 8 -> count_ones (N.land (Byte.to_N b) (N.shiftl 1 r - 1)) = bits_set (N.testbit (Byte.to_N b)) r.
Proof.
  intros Hr. assert (r = 0 \/ r = 1 \/ r = 2 \/ r = 3 \/ r = 4 \/ r = 5 \/ r = 6 \/ r = 7) as Hc by lia.
  by destruct Hc as [->|[->|[->|[->|[->|[->|[->| ->]]]]]]]; destruct b.
Qed.
Lemma byte_tail_zero b r :
  r < 8 -> N.land (Byte.to_N b) (N.lxor (N.shiftl 1 r - 1) u8_max) = 0 <->
  forall i, r <= i < 8 -> N.testbit (Byte.to_N b) i = false.
Proof.
  intros Hr.
  replace (N.shiftl 1 r - 1) with (N.ones r) by (unfold N.ones; lia).
  change u8_max with (N.ones 8). rewrite land_high_zero; [|apply to_N_bound | lia].
  split.
  - intros Hb i [Hi _]. destruct (decide (Byte.to_N b = 0)) as [->|Hn]; [apply N.bits_0 |].
    apply N.bits_above_log2, N.log2_lt_pow2; [lia |].
    eapply N.lt_le_trans; [exact Hb |]. apply N.pow_le_mono_r; lia.
  - intros Hb. destruct (decide (Byte.to_N b = 0)) as [->|Hn]; [pose proof (N.pow_nonzero 2 r); lia |].
    apply N.log2_lt_pow2; [lia |].
    destruct (N.lt_ge_cases (N.log2 (Byte.to_N b)) r) as [|Hl]; [done |].
    assert (N.log2 (Byte.to_N b) < 8) by (apply N.log2_lt_pow2; [lia | apply to_N_bound]).
    specialize (Hb (N.log2 (Byte.to_N b)) ltac:(lia)). by rewrite N.bit_log2 in Hb.
Qed.

Lemma bitmap_bit_at bitmap k b j :
  bitmap !! N.to_nat k = Some b -> j < 8 ->
  bitmap_bit bitmap (8 * k + j) = N.testbit (Byte.to_N b) j.
Proof.
  intros Hb Hj. unfold bitmap_bit.
  assert (Hd : (8 * k + j) / 8 = k) by (rewrite N.mul_comm, N.div_add_l, N.div_small; lia).
  assert (Hm : (8 * k + j) mod 8 = j)
    by (rewrite N.add_comm, N.mul_comm, N.Div0.mod_add; by apply N.mod_small).
  by rewrite Hd, Hm, Hb.
Qed.
Lemma bitmap_bit_outside bitmap i : 8 * len bitmap <= i -> bitmap_bit bitmap i = false.
Proof.
  intros Hi. unfold bitmap_bit. rewrite (proj2 (lookup_ge_None bitmap _)); [done |].
  assert (len bitmap <= i / 8) by (apply N.div_le_lower_bound; lia). unfold len in *. lia.
Qed.

Lemma full_bytes_bits bitmap k :
  k <= len bitmap ->
  sum_by (fun byte => count_ones (Byte.to_N byte)) (subslice 0 k bitmap) =
  bits_set (bitmap_bit bitmap) (8 * k).
Proof.
  induction k as [|k IH] using N.peano_ind; intros Hk; [done |].
  rewrite <- N.add_1_r in *. destruct (lookup_lt_is_Some_2 bitmap (N.to_nat k)) as [b Hb].
  { unfold len in Hk. lia. }
  rewrite <- (subslice_split 0 k (k + 1)), sum_by_app, IH by lia.
  assert (subslice k (k + 1) bitmap = [b]) as ->.
  { apply split_at in Hb as (pre & rest & -> & ->). change (b :: rest) with ([b] ++ rest).
    apply subslice_middle; done. }
  rewrite N.mul_add_distr_l, bits_set_add. simpl sum_by. rewrite count_ones_byte, N.add_0_r.
  f_equal. apply bits_set_ext. intros i Hi. symmetry. by apply bitmap_bit_at.
Qed.

(** [byte & (1 << i) != 0] tests a bit. *)
Lemma test_bit x i : negb (N.land x (N.shiftl 1 i) =? 0) = N.testbit x i.
Proof.
  rewrite N.shiftl_1_l. destruct (N.testbit x i) eqn:Ht.
  - apply negb_true_iff, N.eqb_neq. intros H0. apply (f_equal (fun y => N.testbit y i)) in H0.
    by rewrite N.land_spec, Ht, N.pow2_bits_true, N.bits_0 in H0.
  - apply negb_false_iff, N.eqb_eq, N.bits_inj. intros j. rewrite N.land_spec, N.bits_0.
    destruct (decide (j = i)) as [->|Hn]; [by rewrite Ht |].
    rewrite (N.pow2_bits_false i) by done. apply andb_false_r.
Qed.

Lemma bits_set_partition b c n :
  bits_set b n = bits_set (fun i => b i && c i) n + bits_set (fun i => b i && negb (c i)) n.
Proof.
  induction n as [|n IH] using N.peano_ind; [done |].
  rewrite <- N.add_1_r, !bits_set_succ, IH. destruct (b n), (c n); simpl N.b2n; lia.
Qed.
Lemma bits_set_zero b n : bits_set b n = 0 <-> forall i, i < n -> b i = false.
Proof.
  induction n as [|n IH] using N.peano_ind; [split; [intros; lia | done] |].
  rewrite <- N.add_1_r, bits_set_succ. split.
  - intros H i Hi. destruct (decide (i = n)) as [->|].
    + destruct (b n); [simpl in H; lia | done].
    + apply IH; lia.
  - intros H. rewrite (H n) by lia. rewrite (proj2 IH); [done |]. intros. apply H. lia.
Qed.
Lemma bits_set_range lo hi n :
  lo <= hi -> hi <= n -> bits_set (fun i => (lo <=? i) && (i <? hi)) n = hi - lo.
Proof.
  intros Hl Hh. replace n with (lo + ((hi - lo) + (n - hi))) by lia.
  rewrite !bits_set_add.
  rewrite (proj2 (bits_set_zero _ lo)); [|intros i Hi; apply andb_false_iff; left; apply N.leb_gt; lia].
  rewrite (proj2 (bits_set_zero _ (n - hi)));
    [|intros i Hi; apply andb_false_iff; right; apply N.ltb_ge; lia].
  rewrite (bits_set_ext _ (fun _ => true)); [|intros i Hi; apply andb_true_iff; split;
    [apply N.leb_le | apply N.ltb_lt]; lia].
  rewrite N.add_0_l, N.add_0_r. generalize (hi - lo). intros m.
  induction m as [|m IH] using N.peano_ind; [done |]. rewrite <- N.add_1_r, bits_set_succ, IH. done.
Qed.

(** ** Searching bits *)
Lemma first_bit_unique bit lo hi r r' : first_bit bit lo hi r -> first_bit bit lo hi r' -> r = r'.
Proof.
  destruct r as [i|], r' as [j|]; simpl; [| | |done].
  - intros (Hi & Ti & Bi) (Hj & Tj & Bj). f_equal.
    destruct (N.lt_trichotomy i j) as [H|[H|H]]; [|done |].
    + rewrite Bj in Ti by lia. done.
    + rewrite Bi in Tj by lia. done.
  - intros (Hi & Ti & _) H. rewrite H in Ti by done. done.
  - intros H (Hi & Ti & _). rewrite H in Ti by done. done.
Qed.
Lemma first_bit_app bit lo mid hi r :
  lo <= mid -> mid <= hi -> first_bit bit lo mid None -> first_bit bit mid hi r ->
  first_bit bit lo hi r.
Proof.
  intros Hl Hh H1. destruct r as [i|]; simpl in *.
  - intros (Hi & Ti & Bi). split; [lia |]. split; [done |]. intros j Hj.
    destruct (N.lt_ge_cases j mid); [apply H1 | apply Bi]; lia.
  - intros H2 j Hj. destruct (N.lt_ge_cases j mid); [apply H1 | apply H2]; lia.
Qed.
Lemma first_bit_extend bit lo mid hi i :
  mid <= hi -> first_bit bit lo mid (Some i) -> first_bit bit lo hi (Some i).
Proof. simpl. intros ? (? & ? & ?). split_and!; [lia | lia | done | done]. Qed.
Lemma first_bit_ext b c lo hi r :
  (forall i, lo <= i < hi -> b i = c i) -> first_bit b lo hi r -> first_bit c lo hi r.
Proof.
  intros He. destruct r as [i|]; simpl.
  - intros (Hi & Ti & Bi). split; [done |]. split; [by rewrite <- He |]. intros j Hj.
    rewrite <- He by lia. by apply Bi.
  - intros H j Hj. rewrite <- He by done. by apply H.
Qed.

Lemma trailing_zeros_first w x n :
  0 < x -> x < 2 ^ n -> first_bit (N.testbit x) 0 n (Some (trailing_zeros w x)).
Proof.
  destruct x as [|p]; [done |]. intros _ Hp. unfold trailing_zeros.
  assert (Hb : N.testbit (N.pos p) (trailing_zeros_pos p) = true /\
    forall j, j < trailing_zeros_pos p -> N.testbit (N.pos p) j = false).
  { clear Hp. induction p as [p IH|p IH|]; cbn [trailing_zeros_pos]; try (split; [done | intros; lia]).
    destruct IH as [Ht Hf]. change (N.pos p~0) with (N.double (N.pos p)).
    split; [rewrite N.add_1_l, N.double_bits_succ; exact Ht |].
    intros j Hj. destruct j as [|q] using N.peano_ind; [done |].
    rewrite N.double_bits_succ. apply Hf. lia. }
  destruct Hb as [Ht Hf]. split; [|split; [exact Ht | intros; apply Hf; lia]].
  split; [lia |]. destruct (N.lt_ge_cases (trailing_zeros_pos p) n) as [|Hge]; [done |].
  exfalso. rewrite N.bits_above_log2 in Ht; [done |].
  apply N.lt_le_trans with n; [|exact Hge]. by apply N.log2_lt_pow2.
Qed.
