(* ===== verification/Image.v ===== *)
(** * Positional image reads ([image.rs])

    [BoundedImageReader] is the trait of the source: a fixed-size byte view with
    bounded, exact, absolute reads.  Every client (overlay reader, preimage
    capture, executor, virtual original) is verified against the laws
    [Faithful] and [Serving] of this file and never against one particular
    implementation.  [ImageFile] is the regular-file implementation; the open
    file handle, whose answers come from the operating system, is the record
    [File]. *)

From S2P Require Import Prelude.
From stdpp Require Import options.
#[local] Open Scope N_scope.

(** [io::Error] is opaque to this crate: it is only stored and reported. *)
Definition io_error : Type := N.

Definition DEFAULT_MAX_READ_BYTES : N := 16 * 1024 * 1024.

Inductive ImageError : Type :=
| Io (operation : string) (source : io_error)
| NotRegularFile (path : string)
| DeviceLikePath (path : string)
| InvalidReadLimit
| RangeOverflow (offset length : N)
| OutOfRange (offset length image_length : N)
| ReadTooLarge (requested maximum : N)
| Truncated (offset expected actual : N)
| SourceChanged.

#[export] Instance ImageError_eq_dec : EqDecision ImageError.
Proof. solve_decision. Defined.

(** ** The reader interface *)
Class BoundedImageReader (R : Type) := {
  rd_len : R -> N;
  rd_max_read_bytes : R -> N;
  rd_read_exact_at : R -> N -> N -> outcome ImageError (list byte)
}.

(** The provided methods of the trait. *)
Definition rd_read_prefix `{BoundedImageReader R} (r : R) (length : N)
    : outcome ImageError (list byte) :=
  rd_read_exact_at r 0 length.
Definition rd_read_first_sector `{BoundedImageReader R} (r : R) (sector_bytes : N)
    : outcome ImageError (list byte) :=
  rd_read_prefix r sector_bytes.

(** [r] is a view of the bytes [img]: a read that answers, answers with exactly
    the requested bytes of [img], within the bounds. *)
Record Faithful `{BoundedImageReader R} (r : R) (img : list byte) : Prop := {
  faithful_len : rd_len r = len img;
  faithful_fits : len img <= u64_max;
  faithful_max : 0 < rd_max_read_bytes r;
  faithful_safe : forall off n, rd_read_exact_at r off n <> Panic;
  faithful_read : forall off n b, rd_read_exact_at r off n = Ok b ->
    off + n <= len img /\ n <= rd_max_read_bytes r /\ b = subslice off (off + n) img
}.

(** In addition every read inside the bounds is answered. *)
Record Serving `{BoundedImageReader R} (r : R) (img : list byte) : Prop := {
  serving_faithful : Faithful r img;
  serving_read : forall off n, off + n <= len img -> n <= rd_max_read_bytes r ->
    rd_read_exact_at r off n = Ok (subslice off (off + n) img)
}.

Section ReaderFacts.
Context `{BoundedImageReader R}.

Lemma faithful_read_len (r : R) img off n b :
  Faithful r img -> rd_read_exact_at r off n = Ok b -> len b = n.
Proof.
  intros Hf (? & ? & ->)%(faithful_read _ _ Hf). rewrite len_subslice; lia.
Qed.

Lemma faithful_prefix (r : R) img n b :
  Faithful r img -> rd_read_prefix r n = Ok b ->
  n <= len img /\ b = take (N.to_nat n) img.
Proof.
  intros Hf (? & ? & ->)%(faithful_read _ _ Hf). split; [lia |].
  unfold subslice. by rewrite N.add_0_l, N.sub_0_r.
Qed.

Lemma read_zero_length (r : R) img off b :
  Faithful r img -> rd_read_exact_at r off 0 = Ok b -> b = [].
Proof.
  intros Hf Hr. apply nil_length_inv. pose proof (faithful_read_len _ _ _ _ _ Hf Hr) as Hl.
  unfold len in Hl. lia.
Qed.
End ReaderFacts.

(** ** Regular files *)

(** The fields of [fs::Metadata] the source compares (Unix). *)
Record Metadata : Type := mkMetadata {
  md_is_file : bool;
  md_len : N;
  md_modified : option N;
  md_created : option N;
  md_dev : N;
  md_ino : N
}.

(** An open handle: the answers of the operating system.  [file_metadata k] is
    the answer to the [k]-th metadata query of one operation, and
    [file_read_at offset capacity] the bytes one positional read delivers. *)
Record File : Type := mkFile {
  file_metadata : nat -> outcome io_error Metadata;
  file_read_at : N -> N -> outcome io_error (list byte)
}.

Inductive PlatformFileIdentity : Type :=
| Unix (device inode : N).

Record ImageIdentity : Type := mkImageIdentity {
  id_canonical_path : string;
  id_length : N;
  id_modified : option N;
  id_created : option N;
  id_platform : PlatformFileIdentity
}.

Record ImageFile : Type := mkImageFile {
  if_file : File;
  if_identity : ImageIdentity;
  if_max_read_bytes : N
}.

Definition same_platform_file (expected : PlatformFileIdentity) (m : Metadata) : bool :=
  match expected with
  | Unix device inode => (device =? md_dev m) && (inode =? md_ino m)
  end.
Definition same_platform_metadata (expected : PlatformFileIdentity) (m : Metadata) : bool :=
  same_platform_file expected m.

Definition matches_metadata (i : ImageIdentity) (m : Metadata) : bool :=
  md_is_file m
  && (id_length i =? md_len m)
  && bool_decide (id_modified i = md_modified m)
  && bool_decide (id_created i = md_created m)
  && same_platform_metadata (id_platform i) m.

Definition matches_container_metadata (i : ImageIdentity) (m : Metadata) : bool :=
  md_is_file m
  && (id_length i =? md_len m)
  && bool_decide (id_created i = md_created m)
  && same_platform_file (id_platform i) m.

(** [read_all_with]: repeat positional reads until the buffer is full or a read
    delivers nothing.  [buffer] holds the bytes delivered so far; each round
    delivers at least one byte, so [length + 1] rounds are enough. *)
Fixpoint read_all_with (fuel : nat) (length : N)
    (read : N -> N -> outcome io_error (list byte)) (buffer : list byte)
    : outcome io_error (list byte) :=
  match fuel with
  | O => Panic
  | S fuel =>
      if len buffer <? length then
        chunk ← read (len buffer) (length - len buffer);
        if is_empty chunk then Ok buffer
        else read_all_with fuel length read (buffer ++ chunk)
      else Ok buffer
  end.

Definition read_all_at (file : File) (offset length : N) : outcome io_error (list byte) :=
  read_all_with (S (N.to_nat length)) length
    (fun relative_offset capacity =>
       position ← add_u64 offset relative_offset;
       file_read_at file position capacity) [].

Definition ensure_unchanged (f : ImageFile) (query : nat) : outcome ImageError unit :=
  metadata ← map_err (Io "revalidate opened image") (file_metadata (if_file f) query);
  if matches_metadata (if_identity f) metadata then Ok tt else Err SourceChanged.

Definition image_read_exact_at (f : ImageFile) (offset length : N)
    : outcome ImageError (list byte) :=
  length_u64 ← ok_or (RangeOverflow offset u64_max) (u64_try_from length);
  end_ ← ok_or (RangeOverflow offset length_u64) (checked_add offset length_u64);
  refuse_if (if_max_read_bytes f <? length) (ReadTooLarge length (if_max_read_bytes f)) ;;
  refuse_if (id_length (if_identity f) <? end_)
    (OutOfRange offset length_u64 (id_length (if_identity f))) ;;
  ensure_unchanged f 0 ;;
  bytes ← map_err (Io "read image") (read_all_at (if_file f) offset length);
  refuse_if (negb (len bytes =? length)) (Truncated offset length (len bytes)) ;;
  ensure_unchanged f 1 ;;
  Ok bytes.

#[export] Instance image_file_reader : BoundedImageReader ImageFile := {
  rd_len f := id_length (if_identity f);
  rd_max_read_bytes := if_max_read_bytes;
  rd_read_exact_at := image_read_exact_at
}.

Definition image_read_sector (f : ImageFile) (sector_index sector_bytes : N)
    : outcome ImageError (list byte) :=
  sector_bytes_u64 ← ok_or (RangeOverflow sector_index u64_max) (u64_try_from sector_bytes);
  offset ← ok_or (RangeOverflow sector_index sector_bytes_u64)
    (checked_mul sector_index sector_bytes_u64);
  rd_read_exact_at f offset sector_bytes.

(** What the operating system promises of a handle on the bytes [img]: a
    positional read delivers at most the requested bytes, and they are the
    bytes of the file at that position (it may deliver fewer, or fail). *)
Record HandleOf (file : File) (img : list byte) : Prop := {
  handle_metadata : forall k, file_metadata file k <> Panic;
  handle_read_safe : forall off cap, file_read_at file off cap <> Panic;
  handle_read : forall off cap b, file_read_at file off cap = Ok b ->
    len b <= cap /\ (b = [] \/ off + len b <= len img) /\ b = subslice off (off + len b) img
}.

(** A quiet handle: the metadata never changes and every read is complete. *)
Definition quiet_file (m : Metadata) (img : list byte) : File := {|
  file_metadata _ := Ok m;
  file_read_at off cap := Ok (subslice off (N.min (off + cap) (len img)) img)
|}.

Definition quiet_metadata (length : N) : Metadata := mkMetadata true length None None 0 0.
Definition quiet_image (img : list byte) (max_read_bytes : N) : ImageFile := {|
  if_file := quiet_file (quiet_metadata (len img)) img;
  if_identity := mkImageIdentity "image.bin" (len img) None None (Unix 0 0);
  if_max_read_bytes := max_read_bytes
|}.

(** ** The regular-file reader *)
Section ImageFileFacts.

Lemma read_all_with_spec fuel length read buffer off img :
  (forall rel cap, rel < length -> read rel cap <> Panic) ->
  (forall rel cap b, read rel cap = Ok b ->
     len b <= cap /\ (b = [] \/ off + rel + len b <= len img) /\
     b = subslice (off + rel) (off + rel + len b) img) ->
  len buffer <= length -> (N.to_nat (length - len buffer) < fuel)%nat ->
  off + len buffer <= len img ->
  buffer = subslice off (off + len buffer) img ->
  read_all_with fuel length read buffer <> Panic /\
  forall b, read_all_with fuel length read buffer = Ok b ->
    len b <= length /\ off + len b <= len img /\ b = subslice off (off + len b) img.
Proof.
  intros Hsafe Hread. revert buffer.
  induction fuel as [|fuel IH]; intros buffer Hl Hf Hin Hb; [lia |]. simpl.
  destruct (N.ltb_spec (len buffer) length) as [Hlt|]; [|split; [done |]; by intros ? [= <-]].
  destruct (read (len buffer) (length - len buffer)) as [chunk| |] eqn:Hr; simpl;
    [| split; [done | by intros] | by apply Hsafe in Hr; [| done]].
  apply Hread in Hr as (Hc1 & Hc2 & Hc3).
  destruct chunk as [|c chunk]; simpl; [split; [done |]; by intros ? [= <-] |].
  assert (0 < len (c :: chunk)) by (unfold len; simpl; lia).
  destruct Hc2 as [|Hc2]; [done |].
  apply IH; rewrite len_app; [lia | lia | lia |].
  rewrite Hb at 1. rewrite Hc3 at 1. unfold subslice.
  replace (N.to_nat (off + len buffer)) with (N.to_nat off + N.to_nat (len buffer))%nat by lia.
  rewrite <- drop_drop.
  replace (N.to_nat (off + (len buffer + len (c :: chunk)) - off))
    with (N.to_nat (len buffer) + N.to_nat (len (c :: chunk)))%nat by lia.
  rewrite <- take_take_drop. f_equal; f_equal; lia.
Qed.

Lemma ensure_unchanged_safe f k :
  (forall k, file_metadata (if_file f) k <> Panic) -> ensure_unchanged f k <> Panic.
Proof.
  intros Hm. unfold ensure_unchanged. safe. apply Hm.
Qed.

(** The regular-file reader is a faithful view of the bytes behind its handle. *)
Lemma image_file_faithful f img :
  HandleOf (if_file f) img -> id_length (if_identity f) = len img ->
  len img <= u64_max -> 0 < if_max_read_bytes f -> Faithful f img.
Proof.
  intros [Hm Hrs Hr] Hlen Hfit Hmax.
  assert (Hall : forall off n, off + n <= len img ->
    read_all_at (if_file f) off n <> Panic /\
    forall b, read_all_at (if_file f) off n = Ok b ->
      len b <= n /\ off + len b <= len img /\ b = subslice off (off + len b) img).
  { intros off n Hn. unfold read_all_at. apply read_all_with_spec.
    - intros rel cap Hrel. apply bind_safe; [apply add_u64_safe; lia |]. intros; apply Hrs.
    - intros rel cap b Hb. inv_ok. by apply Hr in Hb.
    - change (len (@nil byte)) with 0. lia.
    - change (len (@nil byte)) with 0. lia.
    - change (len (@nil byte)) with 0. lia.
    - change (len (@nil byte)) with 0. unfold subslice. by replace (off + 0 - off) with 0 by lia. }
  split; [done | done | done | |].
  - intros off n. simpl. unfold image_read_exact_at. safe.
    + by apply ensure_unchanged_safe.
    + inv_ok. bool_props. apply Hall. lia.
    + by apply ensure_unchanged_safe.
  - intros off n b Hb. simpl in Hb. unfold image_read_exact_at in Hb. inv_ok. bool_props.
    destruct (Hall off n) as [_ Hall']; [lia |].
    edestruct Hall' as (? & ? & Hbb); [eassumption |].
    simpl. repeat split; [lia | lia |]. congruence.
Qed.

(** Over a quiet handle every read inside the bounds succeeds. *)
Lemma read_all_quiet m img off n :
  off + n <= len img -> len img <= u64_max ->
  read_all_at (quiet_file m img) off n = Ok (subslice off (off + n) img).
Proof.
  intros Hn Hfit. unfold read_all_at. destruct (N.to_nat n) as [|k] eqn:Hk.
  { assert (n = 0) as -> by lia. simpl. unfold subslice.
    by replace (off + 0 - off) with 0 by lia. }
  simpl. destruct (N.ltb_spec (len (@nil byte)) n) as [Hlt|]; [|unfold len in *; simpl in *; lia].
  change (len (@nil byte)) with 0. unfold add_u64, checked_add.
  destruct (N.leb_spec (off + 0) u64_max); [|lia]. simpl.
  replace (off + 0 + (n - 0)) with (off + n) by lia. rewrite N.add_0_r, N.min_l by lia.
  destruct (subslice off (off + n) img) as [|c chunk] eqn:Hs.
  { assert (Hl : len (subslice off (off + n) img) = 0) by (by rewrite Hs).
    rewrite len_subslice in Hl by lia. lia. }
  simpl. rewrite <- Hs, len_subslice by lia.
  destruct (N.ltb_spec (off + n - off) n); [lia | done].
Qed.

Lemma quiet_file_handle m img : HandleOf (quiet_file m img) img.
Proof.
  split; [done | done |]. intros off cap b [= <-].
  destruct (N.le_gt_cases off (len img)) as [Ho|Ho].
  - rewrite len_subslice by lia. split_and!; [lia | right; lia |]. f_equal. lia.
  - assert (Hs : subslice off (N.min (off + cap) (len img)) img = []).
    { apply nil_length_inv. unfold subslice. rewrite length_take, length_drop.
      unfold len in *. lia. }
    rewrite Hs. change (len (@nil byte)) with 0. split_and!; [lia | by left |].
    unfold subslice. by replace (off + 0 - off) with 0 by lia.
Qed.

Lemma quiet_image_serving img max :
  len img <= u64_max -> 0 < max -> Serving (quiet_image img max) img.
Proof.
  intros Hfit Hmax. split.
  { apply image_file_faithful; [apply quiet_file_handle | done..]. }
  intros off n Hin Hn. simpl in *. unfold image_read_exact_at. simpl.
  unfold u64_try_from, checked_add.
  destruct (N.leb_spec n u64_max); [simpl | lia].
  destruct (N.leb_spec (off + n) u64_max); [simpl | lia].
  destruct (N.ltb_spec max n); [lia | simpl].
  destruct (N.ltb_spec (len img) (off + n)); [lia | simpl].
  assert (Hu : forall k, ensure_unchanged (quiet_image img max) k = Ok tt).
  { intros k. unfold ensure_unchanged. simpl. unfold matches_metadata. simpl.
    by rewrite N.eqb_refl. }
  rewrite Hu. simpl. rewrite read_all_quiet by done. simpl.
  rewrite len_subslice by lia. replace (off + n - off) with n by lia.
  rewrite N.eqb_refl. simpl. by rewrite Hu.
Qed.
End ImageFileFacts.
