(* ===== verification/Extent.v ===== *)
(** * Physical and logical extents ([extent.rs])

    [ExtentGraph::build] accepts a set of extents exactly when they lie inside
    the volume, share no physical byte, and share no logical byte within a
    stream. *)

From S2P Require Import Prelude.
From stdpp Require Import options.
#[local] Open Scope N_scope.

Abbreviation StreamId := N (only parsing).

Inductive ExtentKind : Type :=
| FileData
| DirectoryData
| FileSystemMetadata
| Reserved
| BadCluster.
#[export] Instance ExtentKind_eq_dec : EqDecision ExtentKind.
Proof. solve_decision. Defined.

Inductive Placement : Type :=
| Physical (byte_offset : N)
| Sparse.
#[export] Instance Placement_eq_dec : EqDecision Placement.
Proof. solve_decision. Defined.

Record Extent : Type := mkExtent {
  ex_stream : StreamId;
  ex_logical_offset : N;
  ex_length : N;
  ex_placement : Placement;
  ex_kind : ExtentKind
}.
#[export] Instance Extent_eq_dec : EqDecision Extent.
Proof. solve_decision. Defined.

Record ExtentGraph : Type := mkExtentGraph {
  eg_volume_bytes : N;
  eg_extents : list Extent;
  eg_physically_allocated_bytes : N;
  eg_sparse_bytes : N
}.

Inductive ExtentGraphError : Type :=
| TooManyExtents (actual maximum : N)
| ZeroLength (stream : StreamId) (logical_offset : N)
| LogicalRangeOverflow (stream : StreamId) (logical_offset length : N)
| PhysicalRangeOverflow (byte_offset length : N)
| PhysicalRangeOutsideVolume (byte_offset length volume_bytes : N)
| SparseMetadata (stream : StreamId) (kind : ExtentKind)
| LogicalOverlap (stream : StreamId) (first_offset second_offset : N)
| PhysicalOverlap (first_offset second_offset : N)
| AccountingOverflow.

Definition validate_extent (volume_bytes : N) (extent : Extent)
    : outcome ExtentGraphError unit :=
  refuse_if (ex_length extent =? 0)
    (ZeroLength (ex_stream extent) (ex_logical_offset extent)) ;;
  _ ← ok_or (LogicalRangeOverflow (ex_stream extent) (ex_logical_offset extent)
               (ex_length extent))
      (checked_add (ex_logical_offset extent) (ex_length extent));
  match ex_placement extent with
  | Physical byte_offset =>
      end_ ← ok_or (PhysicalRangeOverflow byte_offset (ex_length extent))
        (checked_add byte_offset (ex_length extent));
      refuse_if (volume_bytes <? end_)
        (PhysicalRangeOutsideVolume byte_offset (ex_length extent) volume_bytes)
  | Sparse =>
      refuse_if (negb (bool_decide (ex_kind extent = FileData)))
        (SparseMetadata (ex_stream extent) (ex_kind extent))
  end.

Definition logical_key (extent : Extent) : list N :=
  [ex_stream extent; ex_logical_offset extent].

Definition validate_logical_ranges (extents : list Extent)
    : outcome ExtentGraphError unit :=
  let logical := sort_by_lex_key logical_key extents in
  for_windows2 (fun first second =>
    if ex_stream first =? ex_stream second then
      first_end ← add_u64 (ex_logical_offset first) (ex_length first);
      refuse_if (ex_logical_offset second <? first_end)
        (LogicalOverlap (ex_stream first) (ex_logical_offset first)
           (ex_logical_offset second))
    else Ok tt) logical.

Definition physical_range (extent : Extent) : option (N * N) :=
  match ex_placement extent with
  | Physical byte_offset => Some (byte_offset, ex_length extent)
  | Sparse => None
  end.

Definition validate_physical_ranges (extents : list Extent)
    : outcome ExtentGraphError unit :=
  let physical := sort_by_key fst (omap physical_range extents) in
  for_windows2 (fun first second =>
    first_end ← add_u64 first.1 first.2;
    refuse_if (second.1 <? first_end) (PhysicalOverlap first.1 second.1)) physical.

Definition placement_sort_key (placement : Placement) : list N :=
  match placement with
  | Physical byte_offset => [0; byte_offset]
  | Sparse => [1; 0]
  end.

(** The accounting loop: allocated bytes and sparse bytes. *)
Definition account (totals : N * N) (extent : Extent) : outcome ExtentGraphError (N * N) :=
  match ex_placement extent with
  | Physical _ =>
      total ← ok_or AccountingOverflow (checked_add totals.1 (ex_length extent));
      Ok (total, totals.2)
  | Sparse =>
      total ← ok_or AccountingOverflow (checked_add totals.2 (ex_length extent));
      Ok (totals.1, total)
  end.

Definition ExtentGraph_build (extents : list Extent) (volume_bytes max_extents : N)
    : outcome ExtentGraphError ExtentGraph :=
  refuse_if (max_extents <? len extents) (TooManyExtents (len extents) max_extents) ;;
  for_each (validate_extent volume_bytes) extents ;;
  validate_logical_ranges extents ;;
  validate_physical_ranges extents ;;
  let extents := sort_by_lex_key (fun extent =>
      logical_key extent ++ placement_sort_key (ex_placement extent)) extents in
  totals ← try_fold account (0, 0) extents;
  Ok (mkExtentGraph volume_bytes extents totals.1 totals.2).

(** ** Specification *)

(** One extent is well formed in a volume. *)
Definition extent_ok (volume_bytes : N) (e : Extent) : Prop :=
  0 < ex_length e /\
  ex_logical_offset e + ex_length e <= u64_max /\
  match ex_placement e with
  | Physical off => off + ex_length e <= volume_bytes /\ off + ex_length e <= u64_max
  | Sparse => ex_kind e = FileData
  end.

(** Two extents share no logical byte of one stream. *)
Definition logically_apart (a b : Extent) : Prop :=
  ex_stream a = ex_stream b -> apart ex_logical_offset ex_length a b.

Definition total_length (l : list Extent) : N := sum_by ex_length l.
Definition is_physical (e : Extent) : bool :=
  match ex_placement e with Physical _ => true | Sparse => false end.
Definition physical_bytes (l : list Extent) : N := total_length (filter is_physical l).
Definition sparse_bytes (l : list Extent) : N :=
  total_length (filter (fun e => negb (is_physical e)) l).

Definition admissible (volume_bytes max_extents : N) (l : list Extent) : Prop :=
  len l <= max_extents /\
  Forall (extent_ok volume_bytes) l /\
  StronglySorted logically_apart l /\
  disjoint_ranges fst snd (omap physical_range l) /\
  sparse_bytes l <= u64_max.

(** ** Proofs *)
Section Facts.
Lemma validate_extent_Ok v e u : validate_extent v e = Ok u <-> extent_ok v e.
Proof.
  unfold validate_extent, extent_ok. destruct u. split.
  - intros H. inv_ok. bool_props. split; [lia |]. split; [lia |].
    destruct (ex_placement e); inv_ok; bool_props; [lia | done].
  - intros (H0 & H1 & H2). destruct (N.eqb_spec (ex_length e) 0); [lia |]. simpl.
    unfold checked_add. destruct (N.leb_spec (ex_logical_offset e + ex_length e) u64_max);
      [simpl | lia].
    destruct (ex_placement e) as [off|]; simpl.
    + destruct (N.leb_spec (off + ex_length e) u64_max); [simpl | lia].
      apply refuse_if_Ok, N.ltb_ge. lia.
    + apply refuse_if_Ok. by rewrite bool_decide_true.
Qed.

Lemma validate_extent_safe v e : validate_extent v e <> Panic.
Proof. unfold validate_extent. safe. destruct (ex_placement e); safe. Qed.

(** Neighbours of the sorted list, for logical ranges. *)
Definition logical_step (a b : Extent) : Prop :=
  ex_stream a = ex_stream b -> before ex_logical_offset ex_length a b.

Lemma logical_key_le a b :
  le_lex_key logical_key a b <->
  ex_stream a < ex_stream b \/
  (ex_stream a = ex_stream b /\ ex_logical_offset a <= ex_logical_offset b).
Proof.
  unfold le_lex_key, logical_key, lex_leb.
  rewrite orb_true_iff, !andb_true_iff, orb_true_iff, andb_true_iff,
    !N.ltb_lt, !N.eqb_eq. lia.
Qed.

Lemma logical_step_sorted l :
  StronglySorted (le_lex_key logical_key) l -> Sorted logical_step l ->
  StronglySorted logical_step l.
Proof.
  intros Hs Hl.
  assert (Ht : Sorted (fun a b => le_lex_key logical_key a b /\ logical_step a b) l).
  { apply StronglySorted_Sorted in Hs. induction Hs as [|x l Hs IH Hh]; [constructor |].
    inversion_clear Hl as [|?? Hl' Hh']. constructor; [by apply IH |].
    destruct Hh; inversion_clear Hh'; by constructor. }
  apply Sorted_StronglySorted in Ht.
  - eapply StronglySorted_impl, Ht. by intros ?? [_ ?].
  - intros a b c [H1 H2] [H3 H4]. rewrite !logical_key_le in *. split; [lia |].
    unfold logical_step, before in *. lia.
Qed.

Lemma logical_apart_sorted l :
  StronglySorted (le_lex_key logical_key) l -> Forall (fun e => 0 < ex_length e) l ->
  StronglySorted logically_apart l -> StronglySorted logical_step l.
Proof.
  rewrite !StronglySorted_lookup, Forall_lookup. intros Hs Hp Ha i j x y Hij Hx Hy.
  specialize (Hs _ _ _ _ Hij Hx Hy). specialize (Ha _ _ _ _ Hij Hx Hy).
  rewrite logical_key_le in Hs. specialize (Hp _ _ Hy). simpl in Hp.
  unfold logical_step, logically_apart, apart, before in *. lia.
Qed.

Lemma logically_apart_perm l1 l2 :
  l1 ≡ₚ l2 -> StronglySorted logically_apart l1 -> StronglySorted logically_apart l2.
Proof.
  apply StronglySorted_sym_perm. intros x y Hxy He. apply apart_sym, Hxy. done.
Qed.

Lemma validate_logical_ranges_Ok v l u :
  Forall (extent_ok v) l ->
  validate_logical_ranges l = Ok u <-> StronglySorted logically_apart l.
Proof.
  intros Hok. unfold validate_logical_ranges. rewrite for_windows2_Ok.
  pose proof (sort_by_lex_key_perm logical_key l) as Hp.
  pose proof (sort_by_lex_key_sorted logical_key l) as Hs.
  assert (Hok' : Forall (extent_ok v) (sort_by_lex_key logical_key l)) by (by rewrite Hp).
  assert (Hstep : forall a b, a ∈ sort_by_lex_key logical_key l ->
    (if ex_stream a =? ex_stream b then
       first_end ← add_u64 (ex_logical_offset a) (ex_length a);
       refuse_if (ex_logical_offset b <? first_end)
         (LogicalOverlap (ex_stream a) (ex_logical_offset a) (ex_logical_offset b))
     else Ok tt) = Ok tt <-> logical_step a b).
  { intros a b Ha. rewrite Forall_forall in Hok'. destruct (Hok' _ Ha) as (_ & Hb & _).
    unfold logical_step, before. destruct (N.eqb_spec (ex_stream a) (ex_stream b)).
    - unfold add_u64, checked_add.
      destruct (N.leb_spec (ex_logical_offset a + ex_length a) u64_max); [|lia].
      simpl. rewrite refuse_if_Ok, N.ltb_ge. intuition lia.
    - intuition. }
  split.
  - intros Hw. eapply logically_apart_perm; [exact Hp |].
    eapply StronglySorted_impl; [|apply logical_step_sorted; [exact Hs |]].
    + intros a b H1 H2. left. by apply H1.
    + eapply Sorted_ext, Hw. intros a b Ha Hb. by apply Hstep.
  - intros Ha. symmetry in Hp. eapply logically_apart_perm in Ha; [|exact Hp].
    eapply logical_apart_sorted, StronglySorted_Sorted in Ha; [|done |].
    + eapply Sorted_ext, Ha. intros a b Hin _. by apply Hstep.
    + eapply Forall_impl; [exact Hok' | by intros e []].
Qed.

Lemma validate_logical_ranges_safe v l :
  Forall (extent_ok v) l -> validate_logical_ranges l <> Panic.
Proof.
  intros Hok. unfold validate_logical_ranges.
  rewrite <- (sort_by_lex_key_perm logical_key l), Forall_forall in Hok.
  apply for_windows2_safe. intros a b Ha _. safe. apply add_u64_safe.
  by apply (Hok a).
Qed.

Lemma physical_ok v l :
  Forall (extent_ok v) l ->
  Forall (fun r => 0 < r.2 /\ r.1 + r.2 <= v /\ r.1 + r.2 <= u64_max)
    (omap physical_range l).
Proof.
  induction 1 as [|e l (H0 & _ & H1) _ IH]; simpl; [constructor |].
  unfold physical_range at 1. destruct (ex_placement e); [|done].
  constructor; [simpl; lia | done].
Qed.

Lemma physical_step v l a b :
  Forall (extent_ok v) l -> a ∈ sort_by_key fst (omap physical_range l) ->
  (first_end ← @add_u64 ExtentGraphError a.1 a.2;
   refuse_if (b.1 <? first_end) (PhysicalOverlap a.1 b.1)) = Ok tt <->
  before fst snd a b.
Proof.
  intros Hok Ha. apply physical_ok in Hok.
  rewrite <- (sort_by_key_perm fst), Forall_forall in Hok.
  destruct (Hok _ Ha) as (_ & _ & Hb). unfold before.
  unfold add_u64, checked_add. destruct (N.leb_spec (a.1 + a.2) u64_max); [|lia].
  simpl. rewrite refuse_if_Ok, N.ltb_ge. done.
Qed.

Lemma validate_physical_ranges_Ok v l u :
  Forall (extent_ok v) l ->
  validate_physical_ranges l = Ok u <->
  disjoint_ranges fst snd (omap physical_range l).
Proof.
  intros Hok. unfold validate_physical_ranges. rewrite for_windows2_Ok. split.
  - intros Hw. apply sorted_check_disjoint. eapply Sorted_ext, Hw.
    intros a b Ha _. by apply (physical_step v l a b Hok Ha).
  - intros Hd. apply disjoint_sorted_check in Hd.
    + eapply Sorted_ext, Hd. intros a b Ha _. by apply (physical_step v l a b Hok Ha).
    + eapply Forall_impl; [by apply (physical_ok v) |]. simpl. tauto.
Qed.

Lemma validate_physical_ranges_safe v l :
  Forall (extent_ok v) l -> validate_physical_ranges l <> Panic.
Proof.
  intros Hok. unfold validate_physical_ranges.
  apply physical_ok in Hok. rewrite <- (sort_by_key_perm fst), Forall_forall in Hok.
  apply for_windows2_safe. intros a b Ha _. safe. apply add_u64_safe.
  by apply (Hok a).
Qed.

Lemma physical_bytes_cons e l :
  physical_bytes (e :: l) = (if is_physical e then ex_length e else 0) + physical_bytes l.
Proof. unfold physical_bytes. rewrite filter_cons. by destruct (is_physical e). Qed.
Lemma sparse_bytes_cons e l :
  sparse_bytes (e :: l) = (if is_physical e then 0 else ex_length e) + sparse_bytes l.
Proof. unfold sparse_bytes. rewrite filter_cons. by destruct (is_physical e). Qed.

(** The accounting loop computes the two sums or overflows. *)
Lemma account_Ok l t t' :
  try_fold account t l = Ok t' ->
  t' = (t.1 + physical_bytes l, t.2 + sparse_bytes l).
Proof.
  revert t. induction l as [|e l IH]; intros [p s]; simpl.
  - intros [= <-]. f_equal; cbn; lia.
  - rewrite bind_Ok. intros (t1 & He & Hl). apply IH in Hl as ->.
    unfold account in He. rewrite physical_bytes_cons, sparse_bytes_cons.
    unfold is_physical. destruct (ex_placement e); inv_ok; simpl; f_equal; lia.
Qed.

Lemma account_total l t t' :
  try_fold account t l = Ok t' -> t.1 <= u64_max -> t.2 <= u64_max ->
  t'.1 <= u64_max /\ t'.2 <= u64_max.
Proof.
  intros Hf H1 H2. eapply (try_fold_invariant
    (fun t => t.1 <= u64_max /\ t.2 <= u64_max)); [done | | exact Hf].
  intros s e s' _ [? ?] He. unfold account in He.
  destruct (ex_placement e); inv_ok; simpl; done.
Qed.

Lemma account_fits l p s :
  p + physical_bytes l <= u64_max -> s + sparse_bytes l <= u64_max ->
  exists t, try_fold account (p, s) l = Ok t.
Proof.
  revert p s. induction l as [|e l IH]; intros p s Hp Hs; simpl; [by eexists |].
  rewrite physical_bytes_cons in Hp. rewrite sparse_bytes_cons in Hs.
  assert (Ha : account (p, s) e =
    Ok (p + (if is_physical e then ex_length e else 0),
        s + (if is_physical e then 0 else ex_length e))).
  { unfold account, is_physical, checked_add in *. destruct (ex_placement e); simpl in *.
    - destruct (N.leb_spec (p + ex_length e) u64_max); [simpl | lia].
      by rewrite N.add_0_r.
    - destruct (N.leb_spec (s + ex_length e) u64_max); [simpl | lia].
      by rewrite N.add_0_r. }
  rewrite Ha. simpl. apply IH; lia.
Qed.

Lemma physical_bytes_sum l :
  Forall (fun e => 0 < ex_length e) l ->
  physical_bytes l = sum_by snd (omap physical_range l).
Proof.
  induction 1 as [|e l He Hl IH]; [done |].
  rewrite physical_bytes_cons. unfold is_physical. simpl. unfold physical_range at 1.
  unfold sum_by in *. by destruct (ex_placement e); simpl; rewrite IH, ?N.add_0_l.
Qed.

Lemma total_length_perm l1 l2 : l1 ≡ₚ l2 -> total_length l1 = total_length l2.
Proof. apply sum_by_perm. Qed.
Lemma physical_bytes_perm l1 l2 : l1 ≡ₚ l2 -> physical_bytes l1 = physical_bytes l2.
Proof. intros H. unfold physical_bytes. apply total_length_perm. by rewrite H. Qed.
Lemma sparse_bytes_perm l1 l2 : l1 ≡ₚ l2 -> sparse_bytes l1 = sparse_bytes l2.
Proof. intros H. unfold sparse_bytes. apply total_length_perm. by rewrite H. Qed.

(** Disjoint allocations inside the volume cannot exceed it. *)
Lemma physical_bytes_bound v l :
  Forall (extent_ok v) l -> disjoint_ranges fst snd (omap physical_range l) ->
  physical_bytes l <= v.
Proof.
  intros Hok Hd. rewrite physical_bytes_sum.
  - eapply disjoint_sum_bound; [exact Hd |].
    eapply Forall_impl; [by apply (physical_ok v) |]. simpl. tauto.
  - eapply Forall_impl; [exact Hok | by intros e []].
Qed.
End Facts.

(** ** The contract of [ExtentGraph::build] *)

Definition canonical_order (l : list Extent) : list Extent :=
  sort_by_lex_key (fun e => logical_key e ++ placement_sort_key (ex_placement e)) l.

Lemma extent_build_iff extents volume_bytes max_extents g :
  volume_bytes <= u64_max ->
  ExtentGraph_build extents volume_bytes max_extents = Ok g <->
  admissible volume_bytes max_extents extents /\
  g = mkExtentGraph volume_bytes (canonical_order extents)
        (physical_bytes extents) (sparse_bytes extents) /\
  eg_physically_allocated_bytes g <= volume_bytes.
Proof.
  intros Hv. unfold ExtentGraph_build, admissible.
  pose proof (sort_by_lex_key_perm (fun e => logical_key e ++ placement_sort_key (ex_placement e))
    extents) as Hp. fold (canonical_order extents) in *. split.
  - intros H. inv_ok. bool_props.
    assert (Hall : Forall (extent_ok volume_bytes) extents).
    { apply for_each_Ok in Hok0. eapply Forall_impl; [exact Hok0 |].
      intros e. by rewrite validate_extent_Ok. }
    rewrite validate_logical_ranges_Ok in Hok1 by exact Hall.
    rewrite validate_physical_ranges_Ok in Hok2 by exact Hall.
    pose proof (account_total _ _ _ Hok3) as Hfit.
    apply account_Ok in Hok3 as ->. simpl in *.
    rewrite (physical_bytes_perm _ _ Hp), (sparse_bytes_perm _ _ Hp), ?N.add_0_l in *.
    split_and!; try done; [lia | by apply physical_bytes_bound].
  - intros ((Hl & Hall & Hlog & Hphys & Hs) & -> & Hb). simpl in Hb.
    rewrite (proj2 (N.ltb_ge _ _) Hl). simpl.
    assert (Hf : for_each (validate_extent volume_bytes) extents = Ok tt).
    { apply for_each_Ok. eapply Forall_impl; [exact Hall |].
      intros e. by rewrite validate_extent_Ok. }
    rewrite Hf. simpl.
    rewrite (proj2 (validate_logical_ranges_Ok volume_bytes extents tt Hall) Hlog). simpl.
    rewrite (proj2 (validate_physical_ranges_Ok volume_bytes extents tt Hall) Hphys). simpl.
    destruct (account_fits (canonical_order extents) 0 0) as [t Ht].
    + rewrite (physical_bytes_perm _ _ Hp). lia.
    + rewrite (sparse_bytes_perm _ _ Hp). lia.
    + rewrite Ht. apply account_Ok in Ht as ->. simpl.
      by rewrite (physical_bytes_perm _ _ Hp), (sparse_bytes_perm _ _ Hp), ?N.add_0_l.
Qed.

(** [ExtentGraph::build] accepts a caller's extents exactly when they are
    admissible (count within the cap, every extent nonempty, inside the volume
    and not a sparse metadata extent, no shared physical byte, no shared logical
    byte within a stream, sparse accounting within 64 bits); the graph then holds
    a permutation of the input in canonical order with exact byte accounting, and
    the allocated bytes never exceed the volume. *)
Theorem extent_build_spec extents volume_bytes max_extents g :
  volume_bytes <= u64_max ->
  ExtentGraph_build extents volume_bytes max_extents = Ok g <->
  admissible volume_bytes max_extents extents /\
  g = mkExtentGraph volume_bytes (canonical_order extents)
        (physical_bytes extents) (sparse_bytes extents) /\
  eg_physically_allocated_bytes g <= volume_bytes.
Proof. exact (extent_build_iff extents volume_bytes max_extents g). Qed.

Lemma extent_build_safe extents volume_bytes max_extents :
  ExtentGraph_build extents volume_bytes max_extents <> Panic.
Proof.
  unfold ExtentGraph_build. safe.
  - apply validate_extent_safe.
  - apply validate_logical_ranges_safe with volume_bytes. inv_ok. apply for_each_Ok in H0.
    eapply Forall_impl; [exact H0 |]. intros e. by rewrite validate_extent_Ok.
  - apply validate_physical_ranges_safe with volume_bytes. inv_ok. apply for_each_Ok in H0.
    eapply Forall_impl; [exact H0 |]. intros e. by rewrite validate_extent_Ok.
  - unfold account. destruct (ex_placement _); safe.
Qed.

(** [ExtentGraph::build] never aborts: the unchecked additions of the overlap
    checks only run on ranges the first loop has already bounded. *)
Theorem extent_build_never_panics extents volume_bytes max_extents :
  ExtentGraph_build extents volume_bytes max_extents <> Panic.
Proof. exact (extent_build_safe extents volume_bytes max_extents). Qed.

Definition sample_extents : list Extent :=
  [ mkExtent 7 4096 4096 (Physical 8192) FileData;
    mkExtent 7 0 4096 (Physical 4096) FileData;
    mkExtent 9 0 512 Sparse FileData;
    mkExtent 1 0 512 (Physical 0) FileSystemMetadata ].

Lemma extent_build_spec_witness :
  131072 <= u64_max /\
  admissible 131072 16 sample_extents /\
  ExtentGraph_build sample_extents 131072 16 =
    Ok (mkExtentGraph 131072 (canonical_order sample_extents) 8704 512).
Proof.
  assert (Hv : 131072 <= u64_max) by (vm_compute; discriminate).
  assert (Hb : ExtentGraph_build sample_extents 131072 16 =
    Ok (mkExtentGraph 131072 (canonical_order sample_extents) 8704 512))
    by (vm_compute; reflexivity).
  split; [exact Hv |]. split; [|exact Hb].
  exact (proj1 (proj1 (extent_build_spec _ _ _ _ Hv) Hb)).
Defined.
