(* ===== verification/Overlay.v ===== *)
(** * Candidate overlays ([overlay.rs])

    An overlay plan is a bounded set of sector-aligned replacement writes.  The
    specification of everything below is [patch]: the image obtained by applying
    the writes one after the other.  [OverlayReader] is a [BoundedImageReader]
    over any base reader, and the refinement theorem says it serves exactly the
    patched bytes. *)

From S2P Require Import Prelude Image.
From stdpp Require Import options.
#[local] Open Scope N_scope.

Record OverlayWrite : Type := mkOverlayWrite {
  ow_offset : N;
  ow_bytes : list byte
}.
#[export] Instance OverlayWrite_eq_dec : EqDecision OverlayWrite.
Proof. solve_decision. Defined.

Record OverlayLimits : Type := mkOverlayLimits {
  ol_max_writes : N;
  ol_max_replacement_bytes : N;
  ol_max_read_bytes : N
}.
Definition OverlayLimits_default : OverlayLimits := {|
  ol_max_writes := 1048576;
  ol_max_replacement_bytes := 512 * 1024 * 1024;
  ol_max_read_bytes := 16 * 1024 * 1024
|}.

Record OverlayPlan : Type := mkOverlayPlan {
  op_image_bytes : N;
  op_sector_bytes : N;
  op_writes : list OverlayWrite;
  op_replacement_bytes : N;
  op_max_read_bytes : N
}.
#[export] Instance OverlayPlan_eq_dec : EqDecision OverlayPlan.
Proof. solve_decision. Defined.

Inductive OverlayError : Type :=
| InvalidLimit (field : string)
| InvalidSectorSize (sector_bytes : N)
| WriteLimitExceeded (actual maximum : N)
| ReplacementLimitExceeded (actual maximum : N)
| EmptyWrite (offset : N)
| UnalignedWrite (offset length sector_bytes : N)
| WriteOutsideImage (offset length image_bytes : N)
| OverlappingWrites (first_offset second_offset : N)
| ImageLengthChanged (expected actual : N)
| ReadLimitExceeded (actual maximum : N)
| ReadOutsideImage (offset length image_bytes : N)
| ArithmeticOverflow
| OverlayImage (source : ImageError).

Definition validate_limits (limits : OverlayLimits) : outcome OverlayError unit :=
  for_each (fun fv : string * N => refuse_if (fv.2 =? 0) (InvalidLimit fv.1))
    [("max_writes"%string, ol_max_writes limits);
     ("max_replacement_bytes"%string, ol_max_replacement_bytes limits);
     ("max_read_bytes"%string, ol_max_read_bytes limits)].

(** The body of the first loop: one write is checked and its length added. *)
Definition validate_write (image_bytes sector_bytes : N) (replacement_bytes : N)
    (write : OverlayWrite) : outcome OverlayError N :=
  refuse_if (is_empty (ow_bytes write)) (EmptyWrite (ow_offset write)) ;;
  length ← ok_or ArithmeticOverflow (u64_try_from (len (ow_bytes write)));
  refuse_if (negb (ow_offset write mod sector_bytes =? 0) || negb (length mod sector_bytes =? 0))
    (UnalignedWrite (ow_offset write) length sector_bytes) ;;
  end_ ← ok_or ArithmeticOverflow (checked_add (ow_offset write) length);
  refuse_if (image_bytes <? end_) (WriteOutsideImage (ow_offset write) length image_bytes) ;;
  ok_or ArithmeticOverflow (checked_add replacement_bytes length).

(** The body of the overlap loop over sorted neighbours. *)
Definition validate_neighbours (first second : OverlayWrite) : outcome OverlayError unit :=
  first_length ← ok_or ArithmeticOverflow (u64_try_from (len (ow_bytes first)));
  first_end ← ok_or ArithmeticOverflow (checked_add (ow_offset first) first_length);
  refuse_if (ow_offset second <? first_end)
    (OverlappingWrites (ow_offset first) (ow_offset second)).

Definition OverlayPlan_build (image_bytes sector_bytes : N) (writes : list OverlayWrite)
    (limits : OverlayLimits) : outcome OverlayError OverlayPlan :=
  validate_limits limits ;;
  refuse_if ((sector_bytes =? 0) || negb (is_power_of_two sector_bytes))
    (InvalidSectorSize sector_bytes) ;;
  refuse_if (ol_max_writes limits <? len writes)
    (WriteLimitExceeded (len writes) (ol_max_writes limits)) ;;
  replacement_bytes ← try_fold (validate_write image_bytes sector_bytes) 0 writes;
  let replacement_usize := default usize_max (usize_try_from replacement_bytes) in
  refuse_if (ol_max_replacement_bytes limits <? replacement_usize)
    (ReplacementLimitExceeded replacement_bytes (ol_max_replacement_bytes limits)) ;;
  let writes := sort_by_key ow_offset writes in
  for_windows2 validate_neighbours writes ;;
  Ok (mkOverlayPlan image_bytes sector_bytes writes replacement_bytes
        (ol_max_read_bytes limits)).

(** One round of the loop of [apply_intersections]. *)
Definition apply_intersection (offset end_ : N) (output : list byte) (write : OverlayWrite)
    : outcome OverlayError (list byte) :=
  write_length ← ok_or ArithmeticOverflow (u64_try_from (len (ow_bytes write)));
  write_end ← ok_or ArithmeticOverflow (checked_add (ow_offset write) write_length);
  let intersection_start := N.max offset (ow_offset write) in
  let intersection_end := N.min end_ write_end in
  if intersection_end <=? intersection_start then Ok output
  else
    output_start ← ok_or ArithmeticOverflow (usize_try_from (intersection_start - offset));
    write_start ← ok_or ArithmeticOverflow
      (usize_try_from (intersection_start - ow_offset write));
    count ← ok_or ArithmeticOverflow (usize_try_from (intersection_end - intersection_start));
    source ← index_range write_start (write_start + count) (ow_bytes write);
    copy_from_slice output_start (output_start + count) source output.

Definition apply_intersections (plan : OverlayPlan) (offset end_ : N) (output : list byte)
    : outcome OverlayError (list byte) :=
  try_fold (apply_intersection offset end_) output (op_writes plan).

Section OverlayOperations.
Context `{BoundedImageReader R}.

(** [OverlayPlan::read_exact_at]; the image argument of the source is an
    [ImageFile], one of the readers. *)
Definition overlay_read_exact_at (plan : OverlayPlan) (image : R) (offset length : N)
    : outcome OverlayError (list byte) :=
  refuse_if (negb (rd_len image =? op_image_bytes plan))
    (ImageLengthChanged (op_image_bytes plan) (rd_len image)) ;;
  refuse_if (op_max_read_bytes plan <? length)
    (ReadLimitExceeded length (op_max_read_bytes plan)) ;;
  length_u64 ← ok_or ArithmeticOverflow (u64_try_from length);
  end_ ← ok_or ArithmeticOverflow (checked_add offset length_u64);
  refuse_if (op_image_bytes plan <? end_)
    (ReadOutsideImage offset length_u64 (op_image_bytes plan)) ;;
  output ← map_err OverlayImage (rd_read_exact_at image offset length);
  apply_intersections plan offset end_ output.
End OverlayOperations.

(** The crate-internal reader: a base view and a plan bound to it. *)
Record OverlayReader (R : Type) : Type := mkOverlayReader {
  or_base : R;
  or_plan : OverlayPlan
}.
Arguments mkOverlayReader {R}.
Arguments or_base {R}.
Arguments or_plan {R}.

Definition OverlayPlan_reader `{BoundedImageReader R} (plan : OverlayPlan) (base : R)
    : outcome OverlayError (OverlayReader R) :=
  refuse_if (negb (rd_len base =? op_image_bytes plan))
    (ImageLengthChanged (op_image_bytes plan) (rd_len base)) ;;
  Ok (mkOverlayReader base plan).

Definition overlay_max_read_bytes `{BoundedImageReader R} (r : OverlayReader R) : N :=
  N.min (rd_max_read_bytes (or_base r)) (op_max_read_bytes (or_plan r)).

Definition overlay_reader_read_exact_at `{BoundedImageReader R} (r : OverlayReader R)
    (offset length : N) : outcome ImageError (list byte) :=
  let plan := or_plan r in
  refuse_if (negb (rd_len (or_base r) =? op_image_bytes plan)) SourceChanged ;;
  let maximum := overlay_max_read_bytes r in
  refuse_if (maximum <? length) (ReadTooLarge length maximum) ;;
  length_u64 ← ok_or (RangeOverflow offset u64_max) (u64_try_from length);
  end_ ← ok_or (RangeOverflow offset length_u64) (checked_add offset length_u64);
  refuse_if (op_image_bytes plan <? end_)
    (OutOfRange offset length_u64 (op_image_bytes plan)) ;;
  output ← rd_read_exact_at (or_base r) offset length;
  map_err (fun error =>
      match error with
      | ArithmeticOverflow => RangeOverflow offset length_u64
      | _ => SourceChanged
      end) (apply_intersections plan offset end_ output).

#[export] Instance overlay_bounded_reader `{BoundedImageReader R} :
  BoundedImageReader (OverlayReader R) := {
  rd_len r := op_image_bytes (or_plan r);
  rd_max_read_bytes := overlay_max_read_bytes;
  rd_read_exact_at := overlay_reader_read_exact_at
}.

(** ** Specification *)

Definition ow_length (w : OverlayWrite) : N := len (ow_bytes w).

(** The image after one write, and after a sequence of writes. *)
Definition patch_one (img : list byte) (w : OverlayWrite) : list byte :=
  splice (ow_offset w) (ow_bytes w) img.
Definition patch (img : list byte) (writes : list OverlayWrite) : list byte :=
  foldl patch_one img writes.

(** A write inside an image of the given size. *)
Definition write_fits (image_bytes : N) (w : OverlayWrite) : Prop :=
  ow_offset w + ow_length w <= image_bytes.

Definition write_ok (image_bytes sector_bytes : N) (w : OverlayWrite) : Prop :=
  0 < ow_length w /\
  ow_offset w mod sector_bytes = 0 /\ ow_length w mod sector_bytes = 0 /\
  write_fits image_bytes w.

Definition writes_disjoint : list OverlayWrite -> Prop :=
  disjoint_ranges ow_offset ow_length.

(** What a built plan guarantees to its clients. *)
Record plan_ok (plan : OverlayPlan) : Prop := {
  plan_sector : is_power_of_two (op_sector_bytes plan) = true;
  plan_writes : Forall (write_ok (op_image_bytes plan) (op_sector_bytes plan)) (op_writes plan);
  plan_sorted : Sorted (before ow_offset ow_length) (op_writes plan);
  plan_total : op_replacement_bytes plan = sum_by ow_length (op_writes plan);
  plan_total_fits : op_replacement_bytes plan <= op_image_bytes plan;
  plan_reads : 0 < op_max_read_bytes plan
}.

Definition limits_ok (l : OverlayLimits) : Prop :=
  0 < ol_max_writes l /\ 0 < ol_max_replacement_bytes l /\ 0 < ol_max_read_bytes l.

(** The inputs [OverlayPlan::build] accepts. *)
Definition overlay_admissible (image_bytes sector_bytes : N) (writes : list OverlayWrite)
    (limits : OverlayLimits) : Prop :=
  limits_ok limits /\
  0 < sector_bytes /\ is_power_of_two sector_bytes = true /\
  len writes <= ol_max_writes limits /\
  Forall (write_ok image_bytes sector_bytes) writes /\
  sum_by ow_length writes <= ol_max_replacement_bytes limits /\
  writes_disjoint writes.

(** ** Proofs *)
Section Build.
Lemma overlay_limits_Ok l u : validate_limits l = Ok u <-> limits_ok l.
Proof.
  unfold validate_limits, limits_ok. rewrite for_each_Ok.
  rewrite !Forall_cons, !refuse_if_Ok. simpl. rewrite !N.eqb_neq, Forall_nil. lia.
Qed.

Lemma validate_write_Ok ib sb acc w r :
  ib <= u64_max ->
  validate_write ib sb acc w = Ok r <->
  write_ok ib sb w /\ r = acc + ow_length w /\ r <= u64_max.
Proof.
  intros Hib. unfold validate_write, write_ok, write_fits. fold (ow_length w).
  assert (He : is_empty (ow_bytes w) = false <-> 0 < ow_length w).
  { unfold ow_length, len. destruct (ow_bytes w); simpl; split; intros; lia || done. }
  split.
  - intros H. inv_ok. bool_props. tauto.
  - intros ((H0 & H1 & H2 & H3) & -> & Hr).
    rewrite (proj2 He) by done. simpl. unfold u64_try_from, checked_add.
    destruct (N.leb_spec (ow_length w) u64_max); [simpl | lia].
    rewrite H1, H2. simpl.
    destruct (N.leb_spec (ow_offset w + ow_length w) u64_max); [simpl | lia].
    destruct (N.ltb_spec ib (ow_offset w + ow_length w)); [lia | simpl].
    destruct (N.leb_spec (acc + ow_length w) u64_max); [done | lia].
Qed.

Lemma validate_writes_Ok ib sb ws acc r :
  ib <= u64_max -> acc <= u64_max ->
  try_fold (validate_write ib sb) acc ws = Ok r <->
  Forall (write_ok ib sb) ws /\ r = acc + sum_by ow_length ws /\ r <= u64_max.
Proof.
  intros Hib. revert acc. induction ws as [|w ws IH]; intros acc Hacc; simpl.
  - rewrite N.add_0_r. split; [intros [= <-]; split_and!; constructor || done |].
    by intros (_ & -> & _).
  - rewrite bind_Ok, Forall_cons. split.
    + intros (a & Ha & Hr). apply validate_write_Ok in Ha as (? & -> & Ha); [|done].
      apply IH in Hr as (? & -> & ?); [|done]. split_and!; [done | done | lia | lia].
    + intros ([Hw Hws] & -> & Hr). exists (acc + ow_length w). split.
      * apply validate_write_Ok; [done |]. split_and!; [done | done | lia].
      * apply IH; [lia |]. split_and!; [done | lia | lia].
Qed.

Lemma validate_write_safe ib sb acc w : validate_write ib sb acc w <> Panic.
Proof. unfold validate_write. safe. Qed.

Lemma validate_neighbours_Ok ib sb a b u :
  ib <= u64_max -> write_ok ib sb a ->
  validate_neighbours a b = Ok u <-> before ow_offset ow_length a b.
Proof.
  intros Hib (_ & _ & _ & Hf). unfold validate_neighbours, before, write_fits in *.
  fold (ow_length a) in *. unfold u64_try_from, checked_add.
  destruct (N.leb_spec (ow_length a) u64_max); [simpl | lia].
  destruct (N.leb_spec (ow_offset a + ow_length a) u64_max); [simpl | lia].
  by rewrite refuse_if_Ok, N.ltb_ge.
Qed.

Lemma neighbours_disjoint ib sb ws u :
  ib <= u64_max -> Forall (write_ok ib sb) ws ->
  for_windows2 validate_neighbours (sort_by_key ow_offset ws) = Ok u <->
  writes_disjoint ws.
Proof.
  intros Hib Hws. rewrite for_windows2_Ok.
  assert (Hws' : Forall (write_ok ib sb) (sort_by_key ow_offset ws))
    by (by rewrite sort_by_key_perm).
  rewrite Forall_forall in Hws'. split.
  - intros Hs. apply sorted_check_disjoint. eapply Sorted_ext, Hs.
    intros a b Ha _. by apply (validate_neighbours_Ok ib sb a b tt Hib (Hws' _ Ha)).
  - intros Hd. apply disjoint_sorted_check in Hd.
    + eapply Sorted_ext, Hd.
      intros a b Ha _. by apply (validate_neighbours_Ok ib sb a b tt Hib (Hws' _ Ha)).
    + eapply Forall_impl; [exact Hws | by intros w []].
Qed.

Lemma writes_total_fits ib sb ws :
  Forall (write_ok ib sb) ws -> writes_disjoint ws -> sum_by ow_length ws <= ib.
Proof.
  intros Hws Hd. eapply disjoint_sum_bound; [exact Hd |].
  eapply Forall_impl; [exact Hws |]. intros w (? & _ & _ & ?). done.
Qed.

(** Shared by the claims below: acceptance characterised exactly. *)
Lemma overlay_build_iff ib sb ws lim p :
  ib <= u64_max ->
  OverlayPlan_build ib sb ws lim = Ok p <->
  overlay_admissible ib sb ws lim /\
  p = mkOverlayPlan ib sb (sort_by_key ow_offset ws) (sum_by ow_length ws)
        (ol_max_read_bytes lim).
Proof.
  intros Hib. unfold OverlayPlan_build, overlay_admissible. split.
  - intros H. inv_ok. bool_props. apply overlay_limits_Ok in Hok.
    apply validate_writes_Ok in Hok2 as (Hws & -> & Hsum); [|done | lia].
    rewrite (neighbours_disjoint ib sb) in Hok4 by done.
    rewrite N.add_0_l, usize_try_from_in in Hok3 by lia. simpl in Hok3.
    rewrite N.add_0_l in Hsum |- *.
    split; [|done]. split_and!; try done; lia.
  - intros ((Hl & Hsb & Hpow & Hn & Hws & Hsum & Hd) & ->).
    rewrite (proj2 (overlay_limits_Ok lim tt) Hl). simpl.
    rewrite (proj2 (N.eqb_neq sb 0)), Hpow by lia. simpl.
    rewrite (proj2 (N.ltb_ge _ _) Hn). simpl.
    pose proof (writes_total_fits _ _ _ Hws Hd) as Hfit.
    rewrite (proj2 (validate_writes_Ok ib sb ws 0 (sum_by ow_length ws) Hib ltac:(lia))).
    + simpl. rewrite usize_try_from_in by lia. simpl.
      rewrite (proj2 (N.ltb_ge _ _) Hsum). simpl.
      by rewrite (proj2 (neighbours_disjoint ib sb ws tt Hib Hws) Hd).
    + split_and!; [done | lia | lia].
Qed.

Lemma overlay_build_plan_ok ib sb ws lim p :
  ib <= u64_max -> OverlayPlan_build ib sb ws lim = Ok p -> plan_ok p.
Proof.
  intros Hib Hp. apply overlay_build_iff in Hp as [(Hl & _ & Hpow & _ & Hws & _ & Hd) ->];
    [|done].
  split; simpl; [done | by rewrite sort_by_key_perm | | | by eapply writes_total_fits |].
  - apply disjoint_sorted_check; [|done].
    eapply Forall_impl; [exact Hws | by intros w []].
  - apply sum_by_perm. by rewrite sort_by_key_perm.
  - apply Hl.
Qed.

Lemma overlay_build_safe ib sb ws lim : OverlayPlan_build ib sb ws lim <> Panic.
Proof.
  unfold OverlayPlan_build, validate_limits. safe.
  - apply validate_write_safe.
  - unfold validate_neighbours. safe.
Qed.
End Build.

Section Patch.
Lemma len_patch_one img w : write_fits (len img) w -> len (patch_one img w) = len img.
Proof. intros. by apply len_splice. Qed.

Lemma len_patch img ws : Forall (write_fits (len img)) ws -> len (patch img ws) = len img.
Proof.
  unfold patch. revert img. induction ws as [|w ws IH]; intros img Hf; simpl; [done |].
  apply Forall_cons in Hf as [Hw Hws]. rewrite IH; rewrite len_patch_one; done.
Qed.

Lemma patch_app img ws1 ws2 : patch img (ws1 ++ ws2) = patch (patch img ws1) ws2.
Proof. apply foldl_app. Qed.

Lemma patch_one_lookup img w (i : nat) :
  write_fits (len img) w ->
  patch_one img w !! i =
    if decide (ow_offset w <= N.of_nat i < ow_offset w + ow_length w)
    then ow_bytes w !! (i - N.to_nat (ow_offset w))%nat else img !! i.
Proof. intros. by apply splice_lookup. Qed.

(** Outside the replaced ranges nothing changes. *)
Lemma patch_outside img ws (i : nat) :
  Forall (write_fits (len img)) ws ->
  (forall w, w ∈ ws -> ~ in_range (ow_offset w) (ow_length w) (N.of_nat i)) ->
  patch img ws !! i = img !! i.
Proof.
  unfold patch. revert img. induction ws as [|w ws IH]; intros img Hf Hout; simpl; [done |].
  apply Forall_cons in Hf as [Hw Hws]. rewrite IH.
  - rewrite patch_one_lookup by done. rewrite decide_False; [done |].
    apply (Hout w). by left.
  - by rewrite len_patch_one.
  - intros w' Hw'. apply Hout. by right.
Qed.

(** Inside the range of one of several disjoint writes the bytes are the
    write's. *)
Lemma patch_inside img ws w (i : nat) :
  Forall (write_fits (len img)) ws -> writes_disjoint ws -> w ∈ ws ->
  in_range (ow_offset w) (ow_length w) (N.of_nat i) ->
  patch img ws !! i = ow_bytes w !! (i - N.to_nat (ow_offset w))%nat.
Proof.
  intros Hf Hd (l1 & l2 & ->)%list_elem_of_split Hi.
  unfold writes_disjoint, disjoint_ranges in Hd.
  apply StronglySorted_app_iff in Hd as (_ & Hd & _).
  apply StronglySorted_inv in Hd as [_ Hd].
  apply Forall_app in Hf as [Hf1 Hf]. apply Forall_cons in Hf as [Hw Hf2].
  rewrite patch_app. simpl. change (foldl patch_one ?a ?b) with (patch a b).
  pose proof (len_patch img l1 Hf1) as Hl.
  rewrite patch_outside.
  - rewrite patch_one_lookup by (by rewrite Hl). by rewrite decide_True.
  - by rewrite len_patch_one, Hl by (by rewrite Hl).
  - intros w' Hw' Hi'. rewrite Forall_forall in Hd. specialize (Hd _ Hw').
    eapply apart_spec; eauto.
Qed.

Lemma write_ok_fits ib sb w : write_ok ib sb w -> write_fits ib w.
Proof. by intros (_ & _ & _ & ?). Qed.
Lemma plan_fits p : plan_ok p -> Forall (write_fits (op_image_bytes p)) (op_writes p).
Proof.
  intros Hp. eapply Forall_impl; [apply (plan_writes p Hp) |]. apply write_ok_fits.
Qed.
Lemma plan_disjoint p : plan_ok p -> writes_disjoint (op_writes p).
Proof. intros Hp. apply adjacent_disjoint, plan_sorted, Hp. Qed.
End Patch.

Section Read.
(** One intersection turns a window of the image into the window of the
    patched image. *)
Lemma apply_intersection_spec img off end_ w :
  len img <= u64_max -> off <= end_ -> end_ <= len img -> write_fits (len img) w ->
  apply_intersection off end_ (subslice off end_ img) w =
    Ok (subslice off end_ (patch_one img w)).
Proof.
  intros Hfit Hoe He Hw. unfold apply_intersection, write_fits in *.
  fold (ow_length w). unfold u64_try_from, usize_try_from, usize_max, checked_add.
  destruct (N.leb_spec (ow_length w) u64_max); [simpl | lia].
  destruct (N.leb_spec (ow_offset w + ow_length w) u64_max); [simpl | lia].
  set (s := N.max off (ow_offset w)). set (e := N.min end_ (ow_offset w + ow_length w)).
  destruct (N.leb_spec e s) as [Hes|Hes].
  - f_equal. apply list_eq. intros i.
    destruct (N.lt_ge_cases (N.of_nat i) (end_ - off)).
    + rewrite !subslice_lookup, patch_one_lookup by done.
      rewrite decide_False; [done | lia].
    + by rewrite !subslice_lookup_ge.
  - destruct (N.leb_spec (s - off) u64_max); [simpl | lia].
    destruct (N.leb_spec (s - ow_offset w) u64_max); [simpl | lia].
    destruct (N.leb_spec (e - s) u64_max); [simpl | lia].
    rewrite index_range_in by (fold (ow_length w); lia). simpl.
    apply copy_from_slice_Ok.
    assert (Hl : len (subslice (s - ow_offset w) (s - ow_offset w + (e - s)) (ow_bytes w))
      = e - s) by (rewrite len_subslice; fold (ow_length w); lia).
    rewrite len_subslice by lia. split_and!; [lia | lia | lia |].
    apply list_eq. intros i.
    rewrite splice_lookup by (rewrite Hl, len_subslice; lia).
    rewrite Hl. case_decide as Hi.
    + rewrite !subslice_lookup, patch_one_lookup by (done || lia).
      rewrite decide_True by lia. f_equal. lia.
    + destruct (N.lt_ge_cases (N.of_nat i) (end_ - off)).
      * rewrite !subslice_lookup, patch_one_lookup by done.
        rewrite decide_False; [done | lia].
      * by rewrite !subslice_lookup_ge.
Qed.

Lemma apply_intersections_spec p img off end_ :
  len img <= u64_max -> off <= end_ -> end_ <= len img ->
  Forall (write_fits (len img)) (op_writes p) ->
  apply_intersections p off end_ (subslice off end_ img) =
    Ok (subslice off end_ (patch img (op_writes p))).
Proof.
  unfold apply_intersections, patch. revert img.
  induction (op_writes p) as [|w ws IH]; intros img Hfit Hoe He Hf; simpl; [done |].
  apply Forall_cons in Hf as [Hw Hf].
  rewrite apply_intersection_spec by done. simpl.
  apply IH; rewrite ?len_patch_one; done.
Qed.
End Read.

Section Reader.
Context `{BoundedImageReader R}.

Lemma overlay_reader_faithful (r : OverlayReader R) img :
  Faithful (or_base r) img -> plan_ok (or_plan r) ->
  op_image_bytes (or_plan r) = len img ->
  Faithful r (patch img (op_writes (or_plan r))).
Proof.
  intros Hb Hp Hlen. pose proof (plan_fits _ Hp) as Hf. rewrite Hlen in Hf.
  pose proof (len_patch _ _ Hf) as Hl. pose proof (faithful_fits _ _ Hb).
  assert (Hstep : forall off n b, rd_read_exact_at (or_base r) off n = Ok b ->
    apply_intersections (or_plan r) off (off + n) b =
      Ok (subslice off (off + n) (patch img (op_writes (or_plan r))))).
  { intros off n b Hr. apply (faithful_read _ _ Hb) in Hr as (? & ? & ->).
    apply apply_intersections_spec; [done | lia | done | done]. }
  split.
  - simpl. lia.
  - lia.
  - simpl. unfold overlay_max_read_bytes.
    pose proof (faithful_max _ _ Hb). pose proof (plan_reads _ Hp). lia.
  - intros off n. simpl. unfold overlay_reader_read_exact_at. safe.
    + apply (faithful_safe _ _ Hb).
    + inv_ok. erewrite Hstep by eassumption. done.
  - intros off n b Hr. simpl in Hr. unfold overlay_reader_read_exact_at in Hr.
    inv_ok. bool_props. erewrite Hstep in Hr by eassumption. inv_ok. simpl.
    split_and!; [lia | done | done].
Qed.

Lemma overlay_reader_serving (r : OverlayReader R) img :
  Serving (or_base r) img -> plan_ok (or_plan r) ->
  op_image_bytes (or_plan r) = len img ->
  Serving r (patch img (op_writes (or_plan r))).
Proof.
  intros Hs Hp Hlen. pose proof (serving_faithful _ _ Hs) as Hb.
  split; [by apply overlay_reader_faithful |].
  pose proof (plan_fits _ Hp) as Hf. rewrite Hlen in Hf.
  pose proof (len_patch _ _ Hf) as Hl. pose proof (faithful_fits _ _ Hb).
  intros off n Hin Hn. rewrite Hl in Hin. simpl in Hn.
  simpl. unfold overlay_reader_read_exact_at.
  rewrite (faithful_len _ _ Hb), Hlen, N.eqb_refl. simpl.
  rewrite (proj2 (N.ltb_ge _ _) Hn). simpl. unfold u64_try_from, checked_add.
  destruct (N.leb_spec n u64_max); [simpl | lia].
  destruct (N.leb_spec (off + n) u64_max); [simpl | lia].
  destruct (N.ltb_spec (len img) (off + n)); [lia | simpl].
  unfold overlay_max_read_bytes in Hn.
  rewrite (serving_read _ _ Hs) by lia. simpl.
  rewrite apply_intersections_spec by (done || lia). done.
Qed.
End Reader.

(** ** The contract of the overlay *)

(** [OverlayPlan::build] accepts exactly the admissible write sets (nonzero
    limits, power-of-two sector, count and byte caps, every write nonempty,
    aligned and inside the image, no two writes overlapping), never aborts, and
    returns the writes sorted by offset with their exact byte total; the plan
    it returns satisfies [plan_ok], the invariant every client relies on. *)
Theorem overlay_build_spec image_bytes sector_bytes writes limits :
  image_bytes <= u64_max ->
  OverlayPlan_build image_bytes sector_bytes writes limits <> Panic /\
  forall p, OverlayPlan_build image_bytes sector_bytes writes limits = Ok p <->
    overlay_admissible image_bytes sector_bytes writes limits /\
    p = mkOverlayPlan image_bytes sector_bytes (sort_by_key ow_offset writes)
          (sum_by ow_length writes) (ol_max_read_bytes limits) /\
    plan_ok p.
Proof.
  intros Hib. split; [apply overlay_build_safe |]. intros p. split.
  - intros Hp. pose proof (overlay_build_plan_ok _ _ _ _ _ Hib Hp) as Hok.
    apply overlay_build_iff in Hp as [? ?]; done.
  - intros (Ha & Hp & _). by apply overlay_build_iff.
Qed.

Definition sample_image : list byte := replicate 64 x00.
Definition sample_writes : list OverlayWrite :=
  [mkOverlayWrite 32 (replicate 16 x02); mkOverlayWrite 0 (replicate 16 x01)].
Definition sample_limits : OverlayLimits := mkOverlayLimits 4 64 24.
Definition sample_plan : OverlayPlan :=
  mkOverlayPlan 64 16 (reverse sample_writes) 32 24.

Lemma overlay_build_spec_witness :
  64 <= u64_max /\ overlay_admissible 64 16 sample_writes sample_limits /\
  OverlayPlan_build 64 16 sample_writes sample_limits = Ok sample_plan /\
  plan_ok sample_plan.
Proof.
  assert (Hv : 64 <= u64_max) by (vm_compute; discriminate).
  assert (Hb : OverlayPlan_build 64 16 sample_writes sample_limits = Ok sample_plan)
    by (vm_compute; reflexivity).
  destruct (proj1 (proj2 (overlay_build_spec 64 16 sample_writes sample_limits Hv) _) Hb)
    as (Ha & _ & Hp).
  split; [exact Hv |]. split; [exact Ha |]. split; [exact Hb | exact Hp].
Defined.

(** the overlay reader refines patching.  Over any base reader that serves
    an image, the reader made by [OverlayPlan::reader] serves precisely the
    patched image: same length, never aborts, every in-bounds read returns the
    bytes of the image with all planned writes applied, every other read is
    refused. *)
Theorem overlay_reader_refines_patch `{BoundedImageReader R} (base : R) img plan r :
  Serving base img -> plan_ok plan ->
  OverlayPlan_reader plan base = Ok r ->
  Serving r (patch img (op_writes plan)).
Proof.
  intros Hb Hp Hr. unfold OverlayPlan_reader in Hr. inv_ok. bool_props.
  apply (overlay_reader_serving (mkOverlayReader base plan)); [done | done |].
  simpl. by rewrite <- Hok, (faithful_len _ _ (serving_faithful _ _ Hb)).
Qed.

Lemma sample_plan_ok : plan_ok sample_plan.
Proof.
  apply (overlay_build_plan_ok 64 16 sample_writes sample_limits).
  - vm_compute. discriminate.
  - vm_compute. reflexivity.
Qed.
Lemma sample_image_serving : Serving (quiet_image sample_image 24) sample_image.
Proof.
  apply quiet_image_serving.
  - vm_compute. discriminate.
  - vm_compute. reflexivity.
Qed.

Lemma overlay_reader_refines_patch_witness :
  rd_read_exact_at (mkOverlayReader (quiet_image sample_image 24) sample_plan) 8 16 =
    Ok (replicate 8 x01 ++ replicate 8 x00) /\
  Serving (mkOverlayReader (quiet_image sample_image 24) sample_plan)
    (replicate 16 x01 ++ replicate 16 x00 ++ replicate 16 x02 ++ replicate 16 x00).
Proof.
  split; [vm_compute; reflexivity |].
  exact (overlay_reader_refines_patch (quiet_image sample_image 24) sample_image sample_plan _
    sample_image_serving sample_plan_ok eq_refl).
Defined.

(** patching is exact: with the writes of a valid plan, a byte inside a
    replaced range is the replacement's byte, and every byte outside all
    replaced ranges is the base image's byte. *)
Theorem overlay_patch_exact plan img (i : nat) :
  plan_ok plan -> op_image_bytes plan = len img ->
  (forall w, w ∈ op_writes plan -> in_range (ow_offset w) (ow_length w) (N.of_nat i) ->
     patch img (op_writes plan) !! i = ow_bytes w !! (i - N.to_nat (ow_offset w))%nat) /\
  ((forall w, w ∈ op_writes plan -> ~ in_range (ow_offset w) (ow_length w) (N.of_nat i)) ->
     patch img (op_writes plan) !! i = img !! i).
Proof.
  intros Hp Hl. pose proof (plan_fits _ Hp) as Hf. rewrite Hl in Hf. split.
  - intros w Hw Hi. apply patch_inside; [done | by apply plan_disjoint | done | done].
  - by apply patch_outside.
Qed.

Lemma overlay_patch_exact_witness :
  patch sample_image (op_writes sample_plan) !! 40%nat = Some x02 /\
  patch sample_image (op_writes sample_plan) !! 20%nat = sample_image !! 20%nat.
Proof.
  split; [vm_compute; reflexivity |].
  apply (proj2 (overlay_patch_exact sample_plan sample_image 20 sample_plan_ok eq_refl)).
  intros w Hw. repeat (apply elem_of_cons in Hw as [->|Hw];
    [unfold in_range, ow_length, len; simpl; lia |]). by apply not_elem_of_nil in Hw.
Defined.
