(* ===== verification/Preimage.v ===== *)
(** * Capture of before-images ([preimage.rs])

    For every planned replacement the exact bytes it will overwrite are read, in
    chunks bounded by the reader's cap.  The result, applied as an overlay,
    undoes the replacements. *)

From S2P Require Import Prelude Image Overlay.
From stdpp Require Import options.
#[local] Open Scope N_scope.

Record PreimageLimits : Type := mkPreimageLimits {
  pl_max_writes : N;
  pl_max_total_bytes : N
}.
Definition PreimageLimits_default : PreimageLimits := {|
  pl_max_writes := 2 * 1024 * 1024;
  pl_max_total_bytes := 1024 * 1024 * 1024
|}.

Inductive PreimageError : Type :=
| InvalidLimit (field : string)
| WriteLimitExceeded (actual maximum : N)
| ByteLimitExceeded (actual maximum : N)
| EmptyWrite (offset : N)
| RangeOverflow (offset length : N)
| OverlappingWrites (first_offset second_offset : N)
| AllocationFailed
| PreimageImage (source : ImageError).

(** One round of the validation loop; the state is the byte total and the range
    of the previous write. *)
Definition check_replacement (limits : PreimageLimits) (state : N * option (N * N))
    (write : OverlayWrite) : outcome PreimageError (N * option (N * N)) :=
  let '(total, prior) := state in
  refuse_if (is_empty (ow_bytes write)) (EmptyWrite (ow_offset write)) ;;
  length ← ok_or (RangeOverflow (ow_offset write) u64_max)
    (u64_try_from (len (ow_bytes write)));
  end_ ← ok_or (RangeOverflow (ow_offset write) length)
    (checked_add (ow_offset write) length);
  match prior with
  | Some (prior_offset, prior_end) =>
      refuse_if (ow_offset write <? prior_end)
        (OverlappingWrites prior_offset (ow_offset write))
  | None => Ok tt
  end ;;
  total ← ok_or (ByteLimitExceeded u64_max (pl_max_total_bytes limits))
    (checked_add total length);
  Ok (total, Some (ow_offset write, end_)).

Section Capture.
Context `{BoundedImageReader R}.

(** The chunk loop.  Every round reads at least one byte because the cap of a
    reader is not zero, so [remaining + 1] rounds are enough. *)
Fixpoint read_chunks (fuel : nat) (image : R) (read_offset remaining : N)
    (bytes : list byte) : outcome PreimageError (list byte) :=
  match fuel with
  | O => Panic
  | S fuel =>
      if remaining =? 0 then Ok bytes
      else
        let chunk_length := N.min remaining (rd_max_read_bytes image) in
        chunk ← map_err PreimageImage (rd_read_exact_at image read_offset chunk_length);
        chunk_u64 ← ok_or (RangeOverflow read_offset u64_max) (u64_try_from chunk_length);
        next_offset ← ok_or (RangeOverflow read_offset
            (default u64_max (u64_try_from chunk_length)))
          (checked_add read_offset chunk_u64);
        read_chunks fuel image next_offset (remaining - chunk_length) (bytes ++ chunk)
  end.

Definition capture_one (image : R) (output : list OverlayWrite) (replacement : OverlayWrite)
    : outcome PreimageError (list OverlayWrite) :=
  let remaining := len (ow_bytes replacement) in
  bytes ← read_chunks (S (N.to_nat remaining)) image (ow_offset replacement) remaining [];
  Ok (output ++ [mkOverlayWrite (ow_offset replacement) bytes]).

Definition capture_before_images (image : R) (replacements : list OverlayWrite)
    (limits : PreimageLimits) : outcome PreimageError (list OverlayWrite) :=
  refuse_if (pl_max_writes limits =? 0) (InvalidLimit "max_writes") ;;
  refuse_if (pl_max_total_bytes limits =? 0) (InvalidLimit "max_total_bytes") ;;
  refuse_if (pl_max_writes limits <? len replacements)
    (WriteLimitExceeded (len replacements) (pl_max_writes limits)) ;;
  let ordered := sort_by_key ow_offset replacements in
  checked ← try_fold (check_replacement limits) (0, None) ordered;
  refuse_if (default u64_max (u64_try_from (pl_max_total_bytes limits)) <? checked.1)
    (ByteLimitExceeded checked.1 (pl_max_total_bytes limits)) ;;
  try_fold (capture_one image) [] ordered.
End Capture.

(** ** Specification *)

(** The before-image of one write. *)
Definition preimage_of (img : list byte) (w : OverlayWrite) : OverlayWrite :=
  mkOverlayWrite (ow_offset w)
    (subslice (ow_offset w) (ow_offset w + ow_length w) img).
Definition preimages (img : list byte) (ws : list OverlayWrite) : list OverlayWrite :=
  preimage_of img <$> sort_by_key ow_offset ws.

Section Facts.
Context `{BoundedImageReader R}.

Lemma read_chunks_spec fuel (image : R) img off remaining bytes :
  Faithful image img -> (N.to_nat remaining < fuel)%nat ->
  read_chunks fuel image off remaining bytes <> Panic /\
  forall b, read_chunks fuel image off remaining bytes = Ok b ->
    (remaining = 0 \/ off + remaining <= len img) /\
    b = bytes ++ subslice off (off + remaining) img.
Proof.
  intros Hf. revert off remaining bytes.
  induction fuel as [|fuel IH]; intros off remaining bytes Hfuel; [lia |].
  simpl. destruct (N.eqb_spec remaining 0) as [->|Hr].
  { split; [done |]. intros b [= <-]. split; [by left |].
    unfold subslice. replace (off + 0 - off) with 0 by lia. by rewrite app_nil_r. }
  pose proof (faithful_max _ _ Hf) as Hmax. set (c := N.min remaining _).
  destruct (rd_read_exact_at image off c) as [chunk|e|] eqn:Hread; simpl;
    [| done | by apply (faithful_safe _ _ Hf) in Hread].
  apply (faithful_read _ _ Hf) in Hread as (Hin & Hc & ->).
  pose proof (faithful_fits _ _ Hf).
  rewrite u64_try_from_in by lia. simpl. rewrite checked_add_in by lia. simpl.
  destruct (IH (off + c) (remaining - c) (bytes ++ subslice off (off + c) img)) as [Hs Hb];
    [lia |].
  split; [done |]. intros b Hok. apply Hb in Hok as [Hrem ->]. split; [right; lia |].
  rewrite <- app_assoc. f_equal.
  replace (off + c + (remaining - c)) with (off + remaining) by lia.
  by rewrite subslice_split by lia.
Qed.

(** The bytes a capture loop reads, when the reader serves the image. *)
Lemma read_chunks_serving fuel (image : R) img off remaining bytes :
  Serving image img -> (N.to_nat remaining < fuel)%nat ->
  off + remaining <= len img ->
  read_chunks fuel image off remaining bytes =
    Ok (bytes ++ subslice off (off + remaining) img).
Proof.
  intros Hs. revert off remaining bytes.
  induction fuel as [|fuel IH]; intros off remaining bytes Hfuel Hin; [lia |].
  simpl. destruct (N.eqb_spec remaining 0) as [->|Hr].
  { unfold subslice. replace (off + 0 - off) with 0 by lia. by rewrite app_nil_r. }
  pose proof (serving_faithful _ _ Hs) as Hf.
  pose proof (faithful_max _ _ Hf) as Hmax. set (c := N.min remaining _).
  rewrite (serving_read _ _ Hs) by lia. simpl. pose proof (faithful_fits _ _ Hf).
  rewrite u64_try_from_in by lia. simpl. rewrite checked_add_in by lia. simpl.
  rewrite IH by lia. f_equal. rewrite <- app_assoc. f_equal.
  replace (off + c + (remaining - c)) with (off + remaining) by lia.
  by rewrite subslice_split by lia.
Qed.
End Facts.

(** A write that carries the image's own bytes. *)
Definition fragment_of (img : list byte) (w : OverlayWrite) : Prop :=
  write_fits (len img) w /\
  ow_bytes w = subslice (ow_offset w) (ow_offset w + ow_length w) img.

(** [img'] differs from [img] at most inside the ranges of [ws]. *)
Definition agrees_outside (ws : list OverlayWrite) (img img' : list byte) : Prop :=
  len img' = len img /\
  forall i : nat,
    (forall w, w ∈ ws -> ~ in_range (ow_offset w) (ow_length w) (N.of_nat i)) ->
    img' !! i = img !! i.

(** The replacement sets the capture accepts. *)
Definition capturable (limits : PreimageLimits) (ws : list OverlayWrite) : Prop :=
  0 < pl_max_writes limits /\ 0 < pl_max_total_bytes limits /\
  len ws <= pl_max_writes limits /\
  Forall (fun w => 0 < ow_length w /\ ow_offset w + ow_length w <= u64_max) ws /\
  writes_disjoint ws /\
  sum_by ow_length ws <= pl_max_total_bytes limits.

Section Restore.
Lemma patch_fragment img img' w (i : nat) :
  fragment_of img w -> len img' = len img ->
  (in_range (ow_offset w) (ow_length w) (N.of_nat i) -> patch_one img' w !! i = img !! i) /\
  (~ in_range (ow_offset w) (ow_length w) (N.of_nat i) ->
     patch_one img' w !! i = img' !! i).
Proof.
  intros [Hf Hb] Hl. rewrite patch_one_lookup by (by rewrite Hl). unfold in_range.
  split; intros Hi; [rewrite decide_True by done | by rewrite decide_False].
  rewrite Hb, subslice_lookup by lia. f_equal. lia.
Qed.

(** Writing an image's own fragments repairs every byte they cover and harms
    none: the order and even overlaps do not matter. *)
Lemma patch_fragments img img' ws (i : nat) :
  Forall (fragment_of img) ws -> len img' = len img ->
  (img' !! i = img !! i \/
   exists w, w ∈ ws /\ in_range (ow_offset w) (ow_length w) (N.of_nat i)) ->
  patch img' ws !! i = img !! i.
Proof.
  unfold patch. revert img'. induction ws as [|w ws IH]; intros img' Hf Hl Hi; simpl.
  { destruct Hi as [Hi|(w & Hw & _)]; [done | by apply not_elem_of_nil in Hw]. }
  apply Forall_cons in Hf as [Hw Hf]. apply IH; [done | |].
  - rewrite len_patch_one; [done |]. rewrite Hl. apply Hw.
  - destruct (patch_fragment img img' w i Hw Hl) as [Hin Hout].
    destruct (decide (ow_offset w <= N.of_nat i < ow_offset w + ow_length w)) as [Hd|Hd].
    + left. by apply Hin.
    + rewrite Hout by done. destruct Hi as [Hi|(w' & Hw' & Hr)]; [by left |].
      apply elem_of_cons in Hw' as [->|Hw']; [done | right; eauto].
Qed.

Lemma len_patch_fragments img img' ws :
  Forall (fragment_of img) ws -> len img' = len img -> len (patch img' ws) = len img.
Proof.
  intros Hf Hl. rewrite len_patch; [done |]. rewrite Hl.
  eapply Forall_impl; [exact Hf | by intros w []].
Qed.

Lemma patch_restores img img' ws :
  Forall (fragment_of img) ws -> agrees_outside ws img img' -> patch img' ws = img.
Proof.
  intros Hf [Hl Ha]. apply list_eq. intros i. apply patch_fragments; [done | done |].
  destruct (decide (Exists (fun w => ow_offset w <= N.of_nat i < ow_offset w + ow_length w) ws))
    as [Hd|Hd].
  - right. apply Exists_exists in Hd as (w & ? & ?). eauto.
  - left. apply Ha. intros w Hw Hr. apply Hd, Exists_exists. eauto.
Qed.

Lemma preimage_fragment img w :
  write_fits (len img) w ->
  fragment_of img (preimage_of img w) /\ ow_length (preimage_of img w) = ow_length w.
Proof.
  unfold write_fits, fragment_of. intros Hw.
  assert (Hl : ow_length (preimage_of img w) = ow_length w).
  { unfold ow_length at 1. simpl. rewrite len_subslice; lia. }
  unfold write_fits. rewrite Hl. done.
Qed.

Lemma preimages_fragments img ws :
  Forall (write_fits (len img)) ws -> Forall (fragment_of img) (preimages img ws).
Proof.
  intros Hf. unfold preimages. apply Forall_fmap. rewrite sort_by_key_perm.
  eapply Forall_impl; [exact Hf |]. intros w Hw. by apply preimage_fragment.
Qed.

Lemma agrees_preimages img img' ws :
  Forall (write_fits (len img)) ws ->
  agrees_outside ws img img' <-> agrees_outside (preimages img ws) img img'.
Proof.
  intros Hf. unfold agrees_outside. rewrite Forall_forall in Hf.
  assert (Hiff : forall i : nat,
    (forall w, w ∈ ws -> ~ in_range (ow_offset w) (ow_length w) (N.of_nat i)) <->
    (forall w, w ∈ preimages img ws -> ~ in_range (ow_offset w) (ow_length w) (N.of_nat i))).
  { intros i. unfold preimages. split.
    - intros Hw w (w' & -> & Hin)%list_elem_of_fmap.
      rewrite sort_by_key_perm in Hin.
      rewrite (proj2 (preimage_fragment img w' (Hf _ Hin))). exact (Hw w' Hin).
    - intros Hw w Hin. specialize (Hw (preimage_of img w)).
      rewrite (proj2 (preimage_fragment img w (Hf _ Hin))) in Hw. apply Hw.
      apply list_elem_of_fmap. exists w. split; [done |]. by rewrite sort_by_key_perm. }
  by setoid_rewrite <- Hiff.
Qed.

Lemma patch_agrees img ws :
  Forall (write_fits (len img)) ws -> agrees_outside ws img (patch img ws).
Proof.
  intros Hf. split; [by apply len_patch |]. intros i Hi. by apply patch_outside.
Qed.
End Restore.

Section CaptureFacts.
Context `{BoundedImageReader R}.

Lemma check_replacement_safe limits s w : check_replacement limits s w <> Panic.
Proof. unfold check_replacement. destruct s as [t [[a b]|]]; safe. Qed.

Lemma check_step limits t prior w s :
  check_replacement limits (t, prior) w = Ok s <->
  0 < ow_length w /\ ow_offset w + ow_length w <= u64_max /\
  (forall o e, prior = Some (o, e) -> e <= ow_offset w) /\
  t + ow_length w <= u64_max /\
  s = (t + ow_length w, Some (ow_offset w, ow_offset w + ow_length w)).
Proof.
  unfold check_replacement. fold (ow_length w).
  assert (He : is_empty (ow_bytes w) = false <-> 0 < ow_length w).
  { unfold ow_length, len. destruct (ow_bytes w); simpl; split; intros; lia || done. }
  split.
  - intros Hs. inv_ok. split_and!; [by apply He | done | | done | done].
    intros o e ->. inv_ok. by bool_props.
  - intros (H0 & H1 & H2 & H3 & ->). rewrite (proj2 He) by done. simpl.
    rewrite u64_try_from_in by lia. simpl. rewrite checked_add_in by lia. simpl.
    destruct prior as [[o e]|]; simpl; [|by rewrite checked_add_in].
    rewrite (proj2 (N.ltb_ge _ _) (H2 _ _ eq_refl)). simpl. by rewrite checked_add_in.
Qed.

Lemma check_all limits ws : forall t prior s,
  try_fold (check_replacement limits) (t, prior) ws = Ok s ->
  Forall (fun w => 0 < ow_length w /\ ow_offset w + ow_length w <= u64_max) ws /\
  Sorted (before ow_offset ow_length) ws /\
  (forall o e w, prior = Some (o, e) -> head ws = Some w -> e <= ow_offset w) /\
  s.1 = t + sum_by ow_length ws.
Proof.
  induction ws as [|w ws IH]; intros t prior s; simpl.
  - intros [= <-]. split_and!; [constructor | constructor | done | simpl; lia].
  - intros (s1 & Hs1 & Hs)%bind_Ok. apply check_step in Hs1 as (? & ? & Hp & ? & ->).
    apply IH in Hs as (? & ? & Hh & ->). split_and!.
    + by constructor.
    + constructor; [done |]. destruct ws as [|w' ws]; constructor.
      by apply (Hh (ow_offset w) _ w').
    + intros o e w' -> [= <-]. by apply (Hp o e).
    + simpl. lia.
Qed.

Lemma check_all_ok limits ws : forall t prior,
  Forall (fun w => 0 < ow_length w /\ ow_offset w + ow_length w <= u64_max) ws ->
  Sorted (before ow_offset ow_length) ws ->
  (forall o e w, prior = Some (o, e) -> head ws = Some w -> e <= ow_offset w) ->
  t + sum_by ow_length ws <= u64_max ->
  exists p, try_fold (check_replacement limits) (t, prior) ws =
    Ok (t + sum_by ow_length ws, p).
Proof.
  induction ws as [|w ws IH]; intros t prior Hf Hs Hp Ht; cbn [try_fold].
  - exists prior. simpl. by rewrite N.add_0_r.
  - apply Forall_cons in Hf as [[? ?] Hf]. inversion_clear Hs as [|?? Hs' Hh]. simpl in Ht.
    assert (Hc : check_replacement limits (t, prior) w =
      Ok (t + ow_length w, Some (ow_offset w, ow_offset w + ow_length w))).
    { apply check_step. split_and!; [done | done | | lia | done].
      intros o e ->. by apply (Hp o e w). }
    rewrite Hc. cbn [mbind outcome_bind].
    destruct (IH (t + ow_length w) (Some (ow_offset w, ow_offset w + ow_length w)))
      as [p Hr]; [done | done | | lia |].
    + intros o e w' [= <- <-]. destruct Hh; simpl; [done |]. by intros [= <-].
    + exists p. rewrite Hr. simpl. by rewrite N.add_assoc.
Qed.

Lemma capture_all_faithful (image : R) img ws out : forall acc,
  Faithful image img ->
  Forall (fun w => 0 < ow_length w /\ ow_offset w + ow_length w <= u64_max) ws ->
  try_fold (capture_one image) acc ws = Ok out ->
  Forall (write_fits (len img)) ws /\ out = acc ++ (preimage_of img <$> ws).
Proof.
  intros acc Hf. revert acc. induction ws as [|w ws IH]; intros acc Hw; simpl.
  - intros [= <-]. by rewrite app_nil_r.
  - apply Forall_cons in Hw as [[? ?] Hw]. intros (acc' & Ha & Ho)%bind_Ok.
    unfold capture_one in Ha. inv_ok.
    destruct (read_chunks_spec (S (N.to_nat (len (ow_bytes w)))) image img (ow_offset w)
      (len (ow_bytes w)) [] Hf) as [_ Hb]; [lia |].
    apply Hb in Hok as [Hr ->]. apply IH in Ho as [? ->]; [|done].
    fold (ow_length w) in *. split.
    + constructor; [unfold write_fits; lia | done].
    + by rewrite <- app_assoc.
Qed.

Lemma capture_all_serving (image : R) img ws : forall acc,
  Serving image img -> Forall (write_fits (len img)) ws ->
  try_fold (capture_one image) acc ws = Ok (acc ++ (preimage_of img <$> ws)).
Proof.
  intros acc Hs. revert acc. induction ws as [|w ws IH]; intros acc Hw; simpl.
  - by rewrite app_nil_r.
  - apply Forall_cons in Hw as [Hf Hw]. unfold capture_one at 2.
    rewrite (read_chunks_serving _ _ img) by (done || lia). simpl.
    rewrite IH by done. by rewrite <- app_assoc.
Qed.

Lemma capture_safe (image : R) img ws limits :
  Faithful image img -> capture_before_images image ws limits <> Panic.
Proof.
  intros Hf. unfold capture_before_images. safe.
  - apply check_replacement_safe.
  - unfold capture_one. safe. eapply read_chunks_spec; [done | lia].
Qed.

Lemma capture_Ok (image : R) img ws limits out :
  Faithful image img -> pl_max_total_bytes limits <= u64_max ->
  capture_before_images image ws limits = Ok out ->
  capturable limits ws /\ Forall (write_fits (len img)) ws /\ out = preimages img ws.
Proof.
  intros Hf Hlim Hc. unfold capture_before_images in Hc. inv_ok. bool_props.
  apply check_all in Hok2 as (Hall & Hs & _ & Hsum).
  rewrite u64_try_from_in in Hok3 by done. simpl in Hok3. rewrite Hsum in Hok3.
  apply (capture_all_faithful image img) in Hc as [Hfit ->]; [|done|done].
  rewrite sort_by_key_perm in Hall, Hfit.
  rewrite (sum_by_perm _ _ ws) in Hok3 by apply sort_by_key_perm.
  split; [|done]. unfold capturable. split_and!; try (done || lia).
  by apply sorted_check_disjoint.
Qed.

Lemma capture_complete (image : R) img ws limits :
  Serving image img -> pl_max_total_bytes limits <= u64_max ->
  capturable limits ws -> Forall (write_fits (len img)) ws ->
  capture_before_images image ws limits = Ok (preimages img ws).
Proof.
  intros Hs Hlim (H1 & H2 & H3 & Hall & Hd & Hsum) Hfit. unfold capture_before_images.
  rewrite (proj2 (N.eqb_neq (pl_max_writes limits) 0)) by lia. simpl.
  rewrite (proj2 (N.eqb_neq (pl_max_total_bytes limits) 0)) by lia. simpl.
  rewrite (proj2 (N.ltb_ge _ _) H3). simpl.
  assert (Hp : sum_by ow_length (sort_by_key ow_offset ws) = sum_by ow_length ws)
    by apply sum_by_perm, sort_by_key_perm.
  destruct (check_all_ok limits (sort_by_key ow_offset ws) 0 None) as [p Hc].
  - by rewrite sort_by_key_perm.
  - apply disjoint_sorted_check; [|done]. eapply Forall_impl; [exact Hall | by intros w []].
  - done.
  - rewrite Hp. lia.
  - rewrite Hc. simpl. rewrite u64_try_from_in by done. simpl. rewrite Hp.
    rewrite (proj2 (N.ltb_ge _ _)) by lia. simpl.
    rewrite (capture_all_serving _ img); [done | done |]. by rewrite sort_by_key_perm.
Qed.
End CaptureFacts.

(** ** The contract of the capture *)

(** capture over a reader that serves an image succeeds exactly on the
    capturable replacement sets inside the image, never aborts (so the chunk
    loop terminates), and returns for every replacement, sorted by offset, the
    image's own bytes at its range. *)
Theorem capture_before_images_spec `{BoundedImageReader R} (image : R) img ws limits :
  Serving image img -> pl_max_total_bytes limits <= u64_max ->
  capture_before_images image ws limits <> Panic /\
  forall out, capture_before_images image ws limits = Ok out <->
    capturable limits ws /\ Forall (write_fits (len img)) ws /\ out = preimages img ws.
Proof.
  intros Hs Hl. pose proof (serving_faithful _ _ Hs) as Hf. split.
  - by eapply capture_safe.
  - intros out. split; [by apply capture_Ok |]. intros (? & ? & ->). by apply capture_complete.
Qed.

(** captured before-images undo: whatever happened inside the replaced
    ranges (all writes, some of them, torn or repeated ones), applying the
    captured before-images gives back the original image, byte for byte; in
    particular they undo the complete replacement. *)
Theorem captured_preimages_undo `{BoundedImageReader R} (image : R) img img' ws limits out :
  Faithful image img -> pl_max_total_bytes limits <= u64_max ->
  capture_before_images image ws limits = Ok out ->
  agrees_outside ws img img' ->
  patch img' out = img /\ patch (patch img ws) out = img.
Proof.
  intros Hf Hl Hc Ha. apply (capture_Ok image img) in Hc as (_ & Hfit & ->); [|done|done].
  pose proof (preimages_fragments _ _ Hfit) as Hfr.
  split; apply patch_restores; [done | | done |];
    apply (proj1 (agrees_preimages _ _ _ Hfit)); [done | by apply patch_agrees].
Qed.

Definition counted_image : list byte := byte_of_N <$> (N.of_nat <$> seq 0 64).

Lemma counted_image_serving : Serving (quiet_image counted_image 10) counted_image.
Proof.
  apply quiet_image_serving.
  - vm_compute. discriminate.
  - vm_compute. reflexivity.
Qed.

Lemma capture_before_images_spec_witness :
  capture_before_images (quiet_image counted_image 10) sample_writes (mkPreimageLimits 2 32) =
    Ok (preimages counted_image sample_writes) /\
  capturable (mkPreimageLimits 2 32) sample_writes.
Proof.
  assert (Hl : pl_max_total_bytes (mkPreimageLimits 2 32) <= u64_max)
    by (vm_compute; discriminate).
  assert (Hc : capture_before_images (quiet_image counted_image 10) sample_writes
    (mkPreimageLimits 2 32) = Ok (preimages counted_image sample_writes))
    by (vm_compute; reflexivity).
  split; [exact Hc |].
  exact (proj1 (proj1 (proj2 (capture_before_images_spec _ _ _ _ counted_image_serving Hl) _) Hc)).
Defined.

Lemma captured_preimages_undo_witness :
  patch (patch counted_image sample_writes) (preimages counted_image sample_writes) =
    counted_image.
Proof.
  assert (Hl : pl_max_total_bytes (mkPreimageLimits 2 32) <= u64_max)
    by (vm_compute; discriminate).
  assert (Hc : capture_before_images (quiet_image counted_image 10) sample_writes
    (mkPreimageLimits 2 32) = Ok (preimages counted_image sample_writes))
    by (vm_compute; reflexivity).
  exact (proj2 (captured_preimages_undo _ _ counted_image _ _ _
    (serving_faithful _ _ counted_image_serving) Hl Hc
    (conj eq_refl (fun i _ => eq_refl)))).
Defined.
