(* ===== verification/Digest.v ===== *)
(** * Hash functions used by the program

    CRC-32 ([crc32fast]) and SHA-256 ([sha2]) are third-party code.  The
    development is parametric in them: [Digests] lists the two functions and the
    only facts about them that are used anywhere, which are their result types
    ([u32] and [[u8; 32]]).  A streaming hasher fed with several slices computes
    the hash of their concatenation. *)

From S2P Require Import Prelude.
From stdpp Require Import options.
#[local] Open Scope N_scope.

Class Digests : Type := {
  crc32 : list byte -> N;
  sha256 : list byte -> list byte;
  crc32_u32 : forall b, crc32 b <= u32_max;
  sha256_length : forall b, len (sha256 b) = 32
}.

(** A simple instance, used only to evaluate witnesses: a rolling sum kept to
    the bits of [mask]. *)
Definition rolling (base mask : N) (b : list byte) : N :=
  foldl (fun a x => N.land (a * base + Byte.to_N x + 1) mask) 7 b.

Definition rolling_digests : Digests.
Proof.
  refine {|
    crc32 b := N.land (rolling 31 (N.ones 32) b) (N.ones 32);
    sha256 b := le_bytes 32 (rolling 257 (N.ones 60) b)
  |}.
  - intros b. rewrite N.land_ones. apply N.lt_succ_r.
    change (N.succ u32_max) with (2 ^ 32). by apply N.mod_lt.
  - intros b. unfold len. by rewrite length_le_bytes.
Defined.
