(* ===== verification/Capsule.v ===== *)
(** * The transaction capsule ([capsule.rs])

    An append-only byte buffer of generations.  A generation is a header, a
    payload and the same header again; the header carries a CRC and the SHA-256
    of the payload.  The file models the encoder and decoder of headers, the
    append operation, the scanner (strict and torn-tail tolerant) and the phase
    order of a transaction. *)

From S2P Require Import Prelude Digest.
From stdpp Require Import options.
#[local] Open Scope N_scope.

Definition CAPSULE_VERSION : N := 1.
Definition HEADER_BYTES : N := 136.
Definition MAGIC : list byte := ascii_bytes "STARCAP" ++ [x00].
Definition NO_PREVIOUS : N := u64_max.
Definition CRC_OFFSET : N := 128.

Inductive TransactionPhase : Type :=
| Discovered
| Reserved
| Relocating
| TargetStaged
| BackupBootWritten
| Activated
| Verified
| Finalized
| RolledBack.
#[export] Instance TransactionPhase_eq_dec : EqDecision TransactionPhase.
Proof. solve_decision. Defined.

(** [self as u8]. *)
Definition phase_byte (p : TransactionPhase) : N :=
  match p with
  | Discovered => 0
  | Reserved => 1
  | Relocating => 2
  | TargetStaged => 3
  | BackupBootWritten => 4
  | Activated => 5
  | Verified => 6
  | Finalized => 7
  | RolledBack => 8
  end.

Definition phase_from_byte (value : N) : option TransactionPhase :=
  match value with
  | 0 => Some Discovered
  | 1 => Some Reserved
  | 2 => Some Relocating
  | 3 => Some TargetStaged
  | 4 => Some BackupBootWritten
  | 5 => Some Activated
  | 6 => Some Verified
  | 7 => Some Finalized
  | 8 => Some RolledBack
  | _ => None
  end.

Definition may_follow (self previous : TransactionPhase) : bool :=
  match previous with
  | Finalized | RolledBack => false
  | _ => (phase_byte self =? phase_byte previous + 1) ||
         (phase_byte self =? phase_byte RolledBack)
  end.

Record CapsuleIdentity : Type := mkCapsuleIdentity {
  ci_transaction_id : list byte;
  ci_source_digest : list byte
}.
#[export] Instance CapsuleIdentity_eq_dec : EqDecision CapsuleIdentity.
Proof. solve_decision. Defined.

Record CapsuleLimits : Type := mkCapsuleLimits {
  cl_max_capsule_bytes : N;
  cl_max_generation_bytes : N;
  cl_max_generations : N
}.
Definition CapsuleLimits_default : CapsuleLimits := {|
  cl_max_capsule_bytes := 1024 * 1024 * 1024;
  cl_max_generation_bytes := 256 * 1024 * 1024;
  cl_max_generations := 4096
|}.

Record CapsuleGeneration : Type := mkCapsuleGeneration {
  cg_offset : N;
  cg_generation : N;
  cg_phase : TransactionPhase;
  cg_previous_offset : option N;
  cg_identity : CapsuleIdentity;
  cg_payload_digest : list byte;
  cg_payload : list byte;
  cg_primary_header_valid : bool;
  cg_trailing_header_valid : bool
}.

Record CapsuleView : Type := mkCapsuleView {
  cv_generations : list CapsuleGeneration;
  cv_validated_bytes : N
}.
Definition view_newest (view : CapsuleView) : option CapsuleGeneration :=
  last (cv_generations view).

Inductive CapsuleError : Type :=
| InvalidLimit (field : string)
| CapsuleTooLarge (actual maximum : N)
| GenerationTooLarge (actual maximum : N)
| TooManyGenerations (maximum : N)
| AllocationFailed
| ArithmeticOverflow
| NoRecoverableHeader (offset : N)
| ConflictingHeaders (offset : N)
| AmbiguousGeneration (offset : N)
| UnframedBytes (offset : N)
| UnsupportedVersion (version : N)
| InvalidHeaderLength (actual : N)
| InvalidPhase (value : N)
| NonZeroReserved
| PayloadDigestMismatch (offset : N)
| FirstGenerationInvalid
| GenerationSequence (expected actual : N)
| PreviousOffsetMismatch (expected actual : option N)
| IdentityChanged
| InvalidPhaseTransition (previous next : TransactionPhase)
| GenerationOverflow.

Record Header : Type := mkHeader {
  hd_generation : N;
  hd_phase : TransactionPhase;
  hd_payload_len : N;
  hd_previous_offset : option N;
  hd_identity : CapsuleIdentity;
  hd_payload_digest : list byte
}.
#[export] Instance Header_eq_dec : EqDecision Header.
Proof. solve_decision. Defined.

Record Candidate : Type := mkCandidate {
  cd_start : N;
  cd_header : Header;
  cd_primary_valid : bool;
  cd_trailing_valid : bool
}.

Definition validate_limits (limits : CapsuleLimits) : outcome CapsuleError unit :=
  for_each (fun fv : string * N => refuse_if (fv.2 =? 0) (InvalidLimit fv.1))
    [("max_capsule_bytes"%string, cl_max_capsule_bytes limits);
     ("max_generation_bytes"%string, cl_max_generation_bytes limits);
     ("max_generations"%string, cl_max_generations limits)].

Definition read_u16 (bytes : list byte) (offset : N) : N :=
  le_num (subslice offset (offset + 2) bytes).
Definition read_u32 (bytes : list byte) (offset : N) : N :=
  le_num (subslice offset (offset + 4) bytes).
Definition read_u64 (bytes : list byte) (offset : N) : N :=
  le_num (subslice offset (offset + 8) bytes).
Definition any_nonzero (bytes : list byte) : bool :=
  existsb (fun b => negb (bool_decide (b = x00))) bytes.

Section Codec.
Context `{Digests}.

Definition header_crc (bytes : list byte) : N :=
  crc32 (subslice 0 CRC_OFFSET bytes ++ replicate 4 x00 ++
         subslice (CRC_OFFSET + 4) HEADER_BYTES bytes).

(** The fixed array is filled field by field; every range below has the length
    of its source, so no copy can fail. *)
Definition encode_header (header : Header) : list byte :=
  let bytes := replicate (N.to_nat HEADER_BYTES) x00 in
  let bytes := splice 0 MAGIC bytes in
  let bytes := splice 8 (u16_le CAPSULE_VERSION) bytes in
  let bytes := splice 10 (u16_le 136) bytes in
  let bytes := splice 16 (u64_le (hd_generation header)) bytes in
  let bytes := splice 24 [byte_of_N (phase_byte (hd_phase header))] bytes in
  let bytes := splice 32 (u64_le (hd_payload_len header)) bytes in
  let bytes := splice 40 (u64_le (default NO_PREVIOUS (hd_previous_offset header))) bytes in
  let bytes := splice 48 (ci_transaction_id (hd_identity header)) bytes in
  let bytes := splice 64 (ci_source_digest (hd_identity header)) bytes in
  let bytes := splice 96 (hd_payload_digest header) bytes in
  let checksum := header_crc bytes in
  splice CRC_OFFSET (u32_le checksum) bytes.

(** After the length test every index of the decoder is inside the array. *)
Definition decode_header (bytes : list byte) : outcome CapsuleError Header :=
  refuse_if (negb (len bytes =? HEADER_BYTES) || negb (bool_decide (subslice 0 8 bytes = MAGIC)))
    (NoRecoverableHeader 0) ;;
  let version := read_u16 bytes 8 in
  refuse_if (negb (version =? CAPSULE_VERSION)) (UnsupportedVersion version) ;;
  let header_len := read_u16 bytes 10 in
  refuse_if (negb (header_len =? HEADER_BYTES)) (InvalidHeaderLength header_len) ;;
  refuse_if (any_nonzero (subslice 12 16 bytes) || any_nonzero (subslice 25 32 bytes)
             || any_nonzero (subslice 132 136 bytes)) NonZeroReserved ;;
  refuse_if (negb (read_u32 bytes CRC_OFFSET =? header_crc bytes)) (NoRecoverableHeader 0) ;;
  let phase_value := le_num (subslice 24 25 bytes) in
  phase ← ok_or (InvalidPhase phase_value) (phase_from_byte phase_value);
  let previous := read_u64 bytes 40 in
  Ok {|
    hd_generation := read_u64 bytes 16;
    hd_phase := phase;
    hd_payload_len := read_u64 bytes 32;
    hd_previous_offset := if negb (previous =? NO_PREVIOUS) then Some previous else None;
    hd_identity := mkCapsuleIdentity (subslice 48 64 bytes) (subslice 64 96 bytes);
    hd_payload_digest := subslice 96 128 bytes
  |}.

(** [decode_header(..).ok()]. *)
Definition decoded (bytes : list byte) : option Header :=
  match decode_header bytes with
  | Ok header => Some header
  | _ => None
  end.
(** [o.is_some_and(|value| value != header)]. *)
Definition differs (o : option Header) (header : Header) : bool :=
  match o with
  | Some value => negb (bool_decide (value = header))
  | None => false
  end.

Definition candidate_as_primary (bytes : list byte) (start : N) (header : Header)
    (payload_len : N) : outcome CapsuleError (option Candidate) :=
  trailing ← ok_or ArithmeticOverflow
    (checked_add start HEADER_BYTES ≫= fun value => checked_add value payload_len);
  match get_range trailing (saturating_add trailing HEADER_BYTES) bytes with
  | None => Ok None
  | Some trailing_bytes =>
      let trailing_header := decoded trailing_bytes in
      if differs trailing_header header then Ok None
      else Ok (Some (mkCandidate start header true
                       (bool_decide (trailing_header = Some header))))
  end.

Definition candidate_as_trailing (bytes : list byte) (trailing : N) (header : Header)
    (payload_len : N) : option Candidate :=
  start ← checked_sub trailing (saturating_add HEADER_BYTES payload_len);
  primary_bytes ← get_range start (saturating_add start HEADER_BYTES) bytes;
  let primary_header := decoded primary_bytes in
  if differs primary_header header then None
  else Some (mkCandidate start header (bool_decide (primary_header = Some header)) true).

(** One position of the candidate search. *)
Definition find_at (bytes : list byte) (limits : CapsuleLimits) (candidates : list Candidate)
    (position : N) : outcome CapsuleError (list Candidate) :=
  position_end ← add_u64 position (len MAGIC);
  window ← index_range position position_end bytes;
  if negb (bool_decide (window = MAGIC)) then Ok candidates
  else
    match get_range position (saturating_add position HEADER_BYTES) bytes with
    | None => Ok candidates
    | Some header_bytes =>
        match decoded header_bytes with
        | None => Ok candidates
        | Some header =>
            payload_len ← ok_or ArithmeticOverflow (usize_try_from (hd_payload_len header));
            if cl_max_generation_bytes limits <? payload_len then Ok candidates
            else
              primary ← candidate_as_primary bytes position header payload_len;
              let candidates := candidates ++ option_list primary in
              Ok (candidates ++
                  option_list (candidate_as_trailing bytes position header payload_len))
        end
    end.

(** [0..=bytes.len().saturating_sub(MAGIC.len())]. *)
Definition positions (bytes : list byte) : list N :=
  N.of_nat <$> seq 0 (S (N.to_nat (saturating_sub (len bytes) (len MAGIC)))).

Definition find_candidates (bytes : list byte) (limits : CapsuleLimits)
    : outcome CapsuleError (list Candidate) :=
  try_fold (find_at bytes limits) [] (positions bytes).

(** One insertion into the start-indexed map. *)
Definition merge_candidate (by_start : gmap N Candidate) (candidate : Candidate)
    : outcome CapsuleError (gmap N Candidate) :=
  match by_start !! cd_start candidate with
  | None => Ok (<[cd_start candidate := candidate]> by_start)
  | Some existing =>
      if bool_decide (cd_header existing = cd_header candidate) then
        let merged := mkCandidate (cd_start existing) (cd_header existing)
          (cd_primary_valid existing || cd_primary_valid candidate)
          (cd_trailing_valid existing || cd_trailing_valid candidate) in
        Ok (<[cd_start candidate := merged]> by_start)
      else Err (AmbiguousGeneration (cd_start candidate))
  end.

Definition validate_chain (generations : list CapsuleGeneration) (candidate : Candidate)
    : outcome CapsuleError unit :=
  let header := cd_header candidate in
  match last generations with
  | None =>
      refuse_if (negb (hd_generation header =? 0)
                 || negb (bool_decide (hd_phase header = Discovered))
                 || bool_decide (is_Some (hd_previous_offset header)))
        FirstGenerationInvalid
  | Some previous =>
      expected_generation ← ok_or GenerationOverflow (checked_add (cg_generation previous) 1);
      refuse_if (negb (hd_generation header =? expected_generation))
        (GenerationSequence expected_generation (hd_generation header)) ;;
      refuse_if (negb (bool_decide (hd_previous_offset header = Some (cg_offset previous))))
        (PreviousOffsetMismatch (Some (cg_offset previous)) (hd_previous_offset header)) ;;
      refuse_if (negb (bool_decide (hd_identity header = cg_identity previous)))
        IdentityChanged ;;
      refuse_if (negb (may_follow (hd_phase header) (cg_phase previous)))
        (InvalidPhaseTransition (cg_phase previous) (hd_phase header))
  end.

Definition is_recoverable_torn_tail (bytes : list byte) (offset : N)
    (generations : list CapsuleGeneration) (limits : CapsuleLimits)
    : outcome CapsuleError bool :=
  remaining ← ok_or ArithmeticOverflow (checked_sub (len bytes) offset);
  if remaining =? 0 then Ok false
  else if remaining <? HEADER_BYTES then Ok true
  else
    offset_end ← add_u64 offset HEADER_BYTES;
    header_bytes ← index_range offset offset_end bytes;
    header ← decode_header header_bytes;
    payload_len ← ok_or ArithmeticOverflow (usize_try_from (hd_payload_len header));
    refuse_if (cl_max_generation_bytes limits <? payload_len)
      (GenerationTooLarge payload_len (cl_max_generation_bytes limits)) ;;
    record_end ← ok_or ArithmeticOverflow
      (value ← checked_add offset HEADER_BYTES;
       value ← checked_add value payload_len;
       checked_add value HEADER_BYTES);
    if record_end <=? len bytes then Ok false
    else
      validate_chain generations (mkCandidate offset header true false) ;;
      Ok true.

(** The body of the scan for one accepted candidate: the generation and the
    offset of the next one. *)
Definition scan_one (bytes : list byte) (generations : list CapsuleGeneration) (offset : N)
    (candidate : Candidate) : outcome CapsuleError (CapsuleGeneration * N) :=
  let header := cd_header candidate in
  payload_len ← ok_or ArithmeticOverflow (usize_try_from (hd_payload_len header));
  payload_start ← ok_or ArithmeticOverflow (checked_add offset HEADER_BYTES);
  payload_end ← ok_or ArithmeticOverflow (checked_add payload_start payload_len);
  end_ ← ok_or ArithmeticOverflow (checked_add payload_end HEADER_BYTES);
  refuse_if (len bytes <? end_) (UnframedBytes offset) ;;
  payload ← index_range payload_start payload_end bytes;
  refuse_if (negb (bool_decide (sha256 payload = hd_payload_digest header)))
    (PayloadDigestMismatch offset) ;;
  validate_chain generations candidate ;;
  offset_u64 ← ok_or ArithmeticOverflow (u64_try_from offset);
  Ok ({| cg_offset := offset_u64;
         cg_generation := hd_generation header;
         cg_phase := hd_phase header;
         cg_previous_offset := hd_previous_offset header;
         cg_identity := hd_identity header;
         cg_payload_digest := hd_payload_digest header;
         cg_payload := payload;
         cg_primary_header_valid := cd_primary_valid candidate;
         cg_trailing_header_valid := cd_trailing_valid candidate |}, end_).

(** The [while offset < bytes.len()] loop.  Every round moves the offset by at
    least two headers, so [length bytes + 1] rounds are enough. *)
Fixpoint scan_loop (fuel : nat) (bytes : list byte) (limits : CapsuleLimits)
    (allow_torn_tail : bool) (by_start : gmap N Candidate)
    (generations : list CapsuleGeneration) (offset : N)
    : outcome CapsuleError (list CapsuleGeneration * N) :=
  match fuel with
  | O => Panic
  | S fuel =>
      if offset <? len bytes then
        refuse_if (cl_max_generations limits <=? len generations)
          (TooManyGenerations (cl_max_generations limits)) ;;
        match by_start !! offset with
        | None =>
            torn ← (if allow_torn_tail
                    then is_recoverable_torn_tail bytes offset generations limits
                    else Ok false);
            if torn : bool then Ok (generations, offset)
            else Err (NoRecoverableHeader offset)
        | Some candidate =>
            next ← scan_one bytes generations offset candidate;
            scan_loop fuel bytes limits allow_torn_tail by_start
              (generations ++ [next.1]) next.2
        end
      else Ok (generations, offset)
  end.

Definition scan_capsule_impl (bytes : list byte) (limits : CapsuleLimits)
    (allow_torn_tail : bool) : outcome CapsuleError CapsuleView :=
  validate_limits limits ;;
  refuse_if (cl_max_capsule_bytes limits <? len bytes)
    (CapsuleTooLarge (len bytes) (cl_max_capsule_bytes limits)) ;;
  if is_empty bytes then Ok (mkCapsuleView [] 0)
  else
    candidates ← find_candidates bytes limits;
    by_start ← try_fold merge_candidate ∅ candidates;
    scanned ← scan_loop (S (length bytes)) bytes limits allow_torn_tail by_start [] 0;
    refuse_if (negb allow_torn_tail && negb (scanned.2 =? len bytes))
      (UnframedBytes scanned.2) ;;
    Ok (mkCapsuleView scanned.1 scanned.2).

Definition scan_capsule (bytes : list byte) (limits : CapsuleLimits) :=
  scan_capsule_impl bytes limits false.
Definition recover_capsule (bytes : list byte) (limits : CapsuleLimits) :=
  scan_capsule_impl bytes limits true.

(** The generation number and link of the next record. *)
Definition next_link (view : CapsuleView) (identity : CapsuleIdentity)
    (phase : TransactionPhase) : outcome CapsuleError (N * option N) :=
  match view_newest view with
  | None =>
      refuse_if (negb (bool_decide (phase = Discovered))) FirstGenerationInvalid ;;
      Ok (0, None)
  | Some previous =>
      refuse_if (negb (bool_decide (cg_identity previous = identity))) IdentityChanged ;;
      refuse_if (negb (may_follow phase (cg_phase previous)))
        (InvalidPhaseTransition (cg_phase previous) phase) ;;
      generation ← ok_or GenerationOverflow (checked_add (cg_generation previous) 1);
      Ok (generation, Some (cg_offset previous))
  end.

Definition append_generation (capsule : list byte) (identity : CapsuleIdentity)
    (phase : TransactionPhase) (payload : list byte) (limits : CapsuleLimits)
    : outcome CapsuleError (list byte) :=
  validate_limits limits ;;
  refuse_if (cl_max_generation_bytes limits <? len payload)
    (GenerationTooLarge (len payload) (cl_max_generation_bytes limits)) ;;
  view ← scan_capsule capsule limits;
  link ← next_link view identity phase;
  refuse_if (cl_max_generations limits <=? len (cv_generations view))
    (TooManyGenerations (cl_max_generations limits)) ;;
  record_bytes ← ok_or ArithmeticOverflow
    (value ← checked_mul HEADER_BYTES 2; checked_add value (len payload));
  final_len ← ok_or ArithmeticOverflow (checked_add (len capsule) record_bytes);
  refuse_if (cl_max_capsule_bytes limits <? final_len)
    (CapsuleTooLarge final_len (cl_max_capsule_bytes limits)) ;;
  payload_len ← ok_or ArithmeticOverflow (u64_try_from (len payload));
  let header := mkHeader link.1 phase payload_len link.2 identity (sha256 payload) in
  let encoded := encode_header header in
  Ok (capsule ++ encoded ++ payload ++ encoded).
End Codec.

(** ** The header codec *)

(** The values a header can carry: machine-width numbers, fixed-size arrays and
    an offset that is not the reserved "no previous" mark. *)
Record header_wf (h : Header) : Prop := {
  wf_generation : hd_generation h <= u64_max;
  wf_payload_len : hd_payload_len h <= u64_max;
  wf_previous : forall p, hd_previous_offset h = Some p -> p < NO_PREVIOUS;
  wf_transaction : len (ci_transaction_id (hd_identity h)) = 16;
  wf_source : len (ci_source_digest (hd_identity h)) = 32;
  wf_digest : len (hd_payload_digest h) = 32
}.

Definition header_prefix (h : Header) : list byte :=
  MAGIC ++ u16_le CAPSULE_VERSION ++ u16_le 136 ++ replicate 4 x00 ++
  u64_le (hd_generation h) ++ [byte_of_N (phase_byte (hd_phase h))] ++ replicate 7 x00 ++
  u64_le (hd_payload_len h) ++ u64_le (default NO_PREVIOUS (hd_previous_offset h)) ++
  ci_transaction_id (hd_identity h) ++ ci_source_digest (hd_identity h) ++
  hd_payload_digest h.

Lemma phase_from_byte_of p : phase_from_byte (phase_byte p) = Some p.
Proof. by destruct p. Qed.
Lemma phase_byte_from b p : phase_from_byte b = Some p -> b = phase_byte p.
Proof.
  destruct b as [|b]; [by intros [= <-] |].
  do 4 (try destruct b as [b|b|]); simpl; (done || by intros [= <-]).
Qed.
Lemma phase_byte_bound p : phase_byte p <= 8.
Proof. destruct p; simpl; lia. Qed.

Section CodecFacts.
Context `{Digests}.

Lemma len_header_prefix h : header_wf h -> len (header_prefix h) = 128.
Proof.
  intros []. unfold header_prefix. rewrite !len_app.
  rewrite ?len_u64_le, wf_transaction0, wf_source0, wf_digest0. reflexivity.
Qed.

(** Overwriting the middle part of a concatenation. *)
Lemma splice_middle {A} (a m b src : list A) lo :
  len a = lo -> len src = len m -> splice lo src (a ++ m ++ b) = a ++ src ++ b.
Proof.
  unfold splice, len. intros <- Hl. f_equal; [|f_equal].
  - rewrite Nat2N.id. by rewrite take_app_length.
  - rewrite app_assoc, drop_app_ge by (rewrite length_app; lia).
    rewrite length_app. replace (_ - _)%nat with 0%nat by lia. done.
Qed.

Lemma encode_header_layout h :
  header_wf h ->
  encode_header h =
    header_prefix h ++ u32_le (crc32 (header_prefix h ++ replicate 8 x00)) ++ replicate 4 x00.
Proof.
  intros [_ _ _ Ht Hs Hd]. unfold header_prefix, encode_header.
  destruct h as [g ph pl po [tid src] pd]. simpl in Ht, Hs, Hd. simpl hd_identity.
  simpl ci_transaction_id. simpl ci_source_digest. simpl hd_payload_digest.
  generalize (default NO_PREVIOUS po) as po'. simpl.
  explode tid Ht. explode src Hs. explode pd Hd. intros po'. vm_compute. reflexivity.
Qed.

Lemma len_encode_header h : header_wf h -> len (encode_header h) = HEADER_BYTES.
Proof.
  intros Hwf. rewrite encode_header_layout, !len_app, len_header_prefix by done. reflexivity.
Qed.

Lemma any_nonzero_false l : any_nonzero l = false <-> l = replicate (length l) x00.
Proof.
  unfold any_nonzero. induction l as [|b l IH]; simpl; [done |].
  rewrite orb_false_iff, negb_false_iff, bool_decide_eq_true, IH. split.
  - intros [-> Hl]. f_equal. exact Hl.
  - intros [= -> Hl]. done.
Qed.

Lemma decode_encode_header h : header_wf h -> decode_header (encode_header h) = Ok h.
Proof.
  intros Hwf. unfold decode_header. rewrite len_encode_header by done.
  rewrite encode_header_layout by done.
  pose proof (len_header_prefix h Hwf) as Hlp.
  assert (Hcrc : header_crc (header_prefix h ++ u32_le (crc32 (header_prefix h ++ replicate 8 x00))
      ++ replicate 4 x00) = crc32 (header_prefix h ++ replicate 8 x00)).
  { unfold header_crc. change CRC_OFFSET with 128. change HEADER_BYTES with 136.
    change (128 + 4) with 132. slices. reflexivity. }
  rewrite Hcrc. unfold read_u32, read_u16, read_u64. change CRC_OFFSET with 128.
  change (8 + 2) with 10. change (10 + 2) with 12. change (128 + 4) with 132.
  change (40 + 8) with 48. change (16 + 8) with 24. change (32 + 8) with 40.
  assert (Hc : le_num (subslice 128 132 (header_prefix h ++
      u32_le (crc32 (header_prefix h ++ replicate 8 x00)) ++ replicate 4 x00)) =
      crc32 (header_prefix h ++ replicate 8 x00)).
  { slices. apply le_num_u32, crc32_u32. }
  rewrite Hc, N.eqb_refl. clear Hcrc Hc.
  assert (Hz : subslice 132 136 (header_prefix h ++
      u32_le (crc32 (header_prefix h ++ replicate 8 x00)) ++ replicate 4 x00) = replicate 4 x00)
    by (by slices).
  rewrite Hz. clear Hz.
  destruct Hwf as [Hg Hp Hprev Ht Hs Hd]. unfold header_prefix. rewrite <- !app_assoc.
  slices.
  assert (Hph : le_num [byte_of_N (phase_byte (hd_phase h))] = phase_byte (hd_phase h))
    by (by destruct (hd_phase h)).
  rewrite Hph, phase_from_byte_of, !le_num_u64; [| |done..].
  - simpl. destruct h as [g ph pl po [tid src] pd]. simpl in *. do 2 f_equal.
    destruct po as [p|]; simpl; [|done]. specialize (Hprev p eq_refl).
    by rewrite (proj2 (N.eqb_neq p NO_PREVIOUS)) by lia.
  - destruct (hd_previous_offset h) as [p|]; simpl; [|done].
    specialize (Hprev p eq_refl). unfold NO_PREVIOUS in Hprev. lia.
Qed.

(** Reading a field and writing it back. *)
Lemma u64_le_read b lo :
  lo + 8 <= len b -> u64_le (read_u64 b lo) = subslice lo (lo + 8) b.
Proof.
  intros Hl. unfold u64_le, read_u64.
  assert (Hlen : length (subslice lo (lo + 8) b) = 8%nat).
  { assert (Hs : len (subslice lo (lo + 8) b) = 8) by (rewrite len_subslice; lia).
    unfold len in Hs. lia. }
  rewrite <- Hlen at 1. apply le_bytes_le_num.
Qed.
Lemma read_u64_bound b lo : lo + 8 <= len b -> read_u64 b lo <= u64_max.
Proof.
  intros Hl. unfold read_u64. pose proof (le_num_bound (subslice lo (lo + 8) b)) as Hb.
  rewrite len_subslice in Hb by lia. replace (lo + 8 - lo) with 8 in Hb by lia.
  unfold u64_max. change (256 ^ 8) with 18446744073709551616 in Hb. lia.
Qed.
Lemma le_num_field b lo hi (l : list byte) :
  lo <= hi -> hi <= len b -> len l = hi - lo -> le_num (subslice lo hi b) = le_num l ->
  subslice lo hi b = l.
Proof.
  intros H1 H2 Hl Hn. apply le_num_inj; [|done].
  assert (Hs : len (subslice lo hi b) = hi - lo) by (by rewrite len_subslice).
  unfold len in *. lia.
Qed.
Lemma zeros_field b lo hi :
  lo <= hi -> hi <= len b -> any_nonzero (subslice lo hi b) = false ->
  subslice lo hi b = replicate (N.to_nat (hi - lo)) x00.
Proof.
  intros H1 H2 Hz. apply any_nonzero_false in Hz. rewrite Hz at 1. f_equal.
  assert (Hs : len (subslice lo hi b) = hi - lo) by (by rewrite len_subslice).
  unfold len in Hs. lia.
Qed.

Lemma subslice_cut {A} (b : list A) lo mid hi :
  lo <= mid -> mid <= hi -> subslice lo hi b = subslice lo mid b ++ subslice mid hi b.
Proof. intros. by rewrite subslice_split. Qed.

Lemma decode_header_canonical b h :
  decode_header b = Ok h -> header_wf h /\ b = encode_header h.
Proof.
  unfold decode_header. intros Hd. inv_ok. bool_props.
  assert (Hl : len b = 136) by assumption.
  assert (Hwf : header_wf {|
    hd_generation := read_u64 b 16; hd_phase := a4; hd_payload_len := read_u64 b 32;
    hd_previous_offset := if negb (read_u64 b 40 =? NO_PREVIOUS)
      then Some (read_u64 b 40) else None;
    hd_identity := mkCapsuleIdentity (subslice 48 64 b) (subslice 64 96 b);
    hd_payload_digest := subslice 96 128 b |}).
  { split; simpl; try (apply read_u64_bound; rewrite Hl; lia);
      try (rewrite len_subslice; lia).
    intros p. destruct (N.eqb_spec (read_u64 b 40) NO_PREVIOUS); simpl; [done |].
    intros [= <-]. pose proof (read_u64_bound b 40). unfold NO_PREVIOUS in *. lia. }
  split; [exact Hwf |]. rewrite encode_header_layout by exact Hwf. clear Hwf.
  set (h := mkHeader _ _ _ _ _ _).
  assert (Hz : forall lo hi, lo <= hi -> hi <= 136 -> any_nonzero (subslice lo hi b) = false ->
    subslice lo hi b = replicate (N.to_nat (hi - lo)) x00)
    by (intros lo hi ??; apply zeros_field; lia).
  assert (Hprefix : header_prefix h = subslice 0 128 b).
  { unfold header_prefix, h. cbn [hd_generation hd_phase hd_payload_len hd_previous_offset
      hd_identity hd_payload_digest ci_transaction_id ci_source_digest].
    assert (Hprev : u64_le (default NO_PREVIOUS (if negb (read_u64 b 40 =? NO_PREVIOUS)
      then Some (read_u64 b 40) else None)) = subslice 40 48 b).
    { rewrite <- u64_le_read by lia. f_equal.
      by destruct (N.eqb_spec (read_u64 b 40) NO_PREVIOUS) as [->|]. }
    assert (Hphase : [byte_of_N (phase_byte a4)] = subslice 24 25 b).
    { symmetry. apply le_num_field; [lia | lia | done |].
      apply phase_byte_from in Hok4. rewrite Hok4. by destruct a4. }
    rewrite Hprev, Hphase, !u64_le_read by lia.
    assert (Hz7 : replicate 7 x00 = subslice 25 32 b)
      by (symmetry; apply (Hz 25 32); done || lia).
    assert (Hz4 : replicate 4 x00 = subslice 12 16 b)
      by (symmetry; apply (Hz 12 16); done || lia).
    rewrite Hz7, Hz4.
    rewrite <- (le_num_field b 10 12 (u16_le 136)) by (done || lia).
    rewrite <- (le_num_field b 8 10 (u16_le CAPSULE_VERSION)) by (done || lia).
    change (16 + 8) with 24. change (32 + 8) with 40. rewrite <- H4.
    rewrite (subslice_cut b 0 8 128), (subslice_cut b 8 10 128), (subslice_cut b 10 12 128),
      (subslice_cut b 12 16 128), (subslice_cut b 16 24 128), (subslice_cut b 24 25 128),
      (subslice_cut b 25 32 128), (subslice_cut b 32 40 128), (subslice_cut b 40 48 128),
      (subslice_cut b 48 64 128), (subslice_cut b 64 96 128) by lia. done. }
  rewrite Hprefix.
  assert (Hcrc : header_crc b = crc32 (subslice 0 128 b ++ replicate 8 x00)).
  { unfold header_crc. change (CRC_OFFSET + 4) with 132. change HEADER_BYTES with 136.
    change CRC_OFFSET with 128. rewrite (Hz 132 136) by (done || lia).
    reflexivity. }
  rewrite <- Hcrc, <- Hok3. unfold read_u32. change CRC_OFFSET with 128.
  change (128 + 4) with 132.
  assert (Hu : u32_le (le_num (subslice 128 132 b)) = subslice 128 132 b).
  { unfold u32_le. replace 4%nat with (length (subslice 128 132 b)); [apply le_bytes_le_num |].
    assert (Hs : len (subslice 128 132 b) = 4) by (rewrite len_subslice; lia).
    unfold len in Hs. lia. }
  assert (Hz4 : replicate 4 x00 = subslice 132 136 b)
    by (symmetry; apply (Hz 132 136); done || lia).
  rewrite Hu, Hz4.
  rewrite !subslice_split by lia. symmetry. by apply subslice_whole.
Qed.
End CodecFacts.

(** ** What a scanned capsule is *)

(** A header slot. *)
Definition slot (bytes : list byte) (start : N) : list byte :=
  subslice start (start + HEADER_BYTES) bytes.

(** The header a generation was written with, and the size of its record. *)
Definition header_of (g : CapsuleGeneration) : Header := {|
  hd_generation := cg_generation g;
  hd_phase := cg_phase g;
  hd_payload_len := len (cg_payload g);
  hd_previous_offset := cg_previous_offset g;
  hd_identity := cg_identity g;
  hd_payload_digest := cg_payload_digest g
|}.
Definition record_len (payload_len : N) : N := HEADER_BYTES + payload_len + HEADER_BYTES.

Section Validity.
Context `{Digests}.

(** One header may be placed at [start] with a second copy after the payload:
    both slots exist, neither holds a different valid header, and at least one
    holds this one. *)
Definition header_at (bytes : list byte) (start : N) (h : Header) : Prop :=
  let trailing := start + HEADER_BYTES + hd_payload_len h in
  start + record_len (hd_payload_len h) <= len bytes /\
  differs (decoded (slot bytes start)) h = false /\
  differs (decoded (slot bytes trailing)) h = false /\
  (decoded (slot bytes start) = Some h \/ decoded (slot bytes trailing) = Some h).

(** One generation is recorded at [offset] of the bytes. *)
Definition generation_at (bytes : list byte) (limits : CapsuleLimits) (offset : N)
    (g : CapsuleGeneration) : Prop :=
  cg_offset g = offset /\
  header_at bytes offset (header_of g) /\
  len (cg_payload g) <= cl_max_generation_bytes limits /\
  cg_payload g = subslice (offset + HEADER_BYTES) (offset + HEADER_BYTES + len (cg_payload g)) bytes /\
  cg_payload_digest g = sha256 (cg_payload g) /\
  cg_primary_header_valid g = bool_decide (decoded (slot bytes offset) = Some (header_of g)) /\
  cg_trailing_header_valid g =
    bool_decide (decoded (slot bytes (offset + HEADER_BYTES + len (cg_payload g)))
                 = Some (header_of g)).

(** A generation continues the chain after [previous]. *)
Definition linked (previous : option CapsuleGeneration) (g : CapsuleGeneration) : Prop :=
  match previous with
  | None => cg_generation g = 0 /\ cg_phase g = Discovered /\ cg_previous_offset g = None
  | Some p =>
      cg_generation g = cg_generation p + 1 /\ cg_generation g <= u64_max /\
      cg_previous_offset g = Some (cg_offset p) /\ cg_identity g = cg_identity p /\
      may_follow (cg_phase g) (cg_phase p) = true
  end.

(** The generations fill the bytes from [offset] to [end_] without gaps. *)
Fixpoint chained (bytes : list byte) (limits : CapsuleLimits)
    (previous : option CapsuleGeneration) (offset : N) (gs : list CapsuleGeneration)
    (end_ : N) : Prop :=
  match gs with
  | [] => offset = end_
  | g :: gs =>
      generation_at bytes limits offset g /\ linked previous g /\
      chained bytes limits (Some g) (offset + record_len (len (cg_payload g))) gs end_
  end.

(** The meaning of a view of [bytes]. *)
Definition view_of (bytes : list byte) (limits : CapsuleLimits) (view : CapsuleView) : Prop :=
  chained bytes limits None 0 (cv_generations view) (cv_validated_bytes view) /\
  cv_validated_bytes view <= len bytes /\
  len (cv_generations view) <= cl_max_generations limits /\
  len bytes <= cl_max_capsule_bytes limits.

Lemma chained_snoc bytes limits gs g : forall previous offset end_,
  chained bytes limits previous offset gs end_ ->
  generation_at bytes limits end_ g ->
  linked (match last gs with Some p => Some p | None => previous end) g ->
  chained bytes limits previous offset (gs ++ [g]) (end_ + record_len (len (cg_payload g))).
Proof.
  induction gs as [|x gs IH]; intros previous offset end_; simpl.
  - intros -> Hg Hl. done.
  - intros (Hx & Hlx & Hc) Hg Hl. split_and!; [done | done |].
    apply IH; [done | done |]. rewrite last_cons in Hl. by destruct (last gs).
Qed.
Lemma chained_bound bytes limits gs : forall previous offset end_,
  offset <= len bytes -> chained bytes limits previous offset gs end_ ->
  offset <= end_ /\ end_ <= len bytes.
Proof.
  induction gs as [|x gs IH]; intros previous offset end_ Ho; simpl; [intros ->; lia |].
  intros ((_ & (Hfit & _) & _) & _ & Hc). unfold record_len in *.
  change (hd_payload_len (header_of x)) with (len (cg_payload x)) in Hfit.
  apply IH in Hc; lia.
Qed.

(** ** Candidates *)

Definition candidate_ok (bytes : list byte) (limits : CapsuleLimits) (c : Candidate) : Prop :=
  header_at bytes (cd_start c) (cd_header c) /\
  hd_payload_len (cd_header c) <= cl_max_generation_bytes limits /\
  cd_primary_valid c = bool_decide (decoded (slot bytes (cd_start c)) = Some (cd_header c)) /\
  cd_trailing_valid c =
    bool_decide (decoded (slot bytes (cd_start c + HEADER_BYTES + hd_payload_len (cd_header c)))
                 = Some (cd_header c)).

Lemma get_slot bytes start hb :
  len bytes <= isize_max ->
  get_range start (saturating_add start HEADER_BYTES) bytes = Some hb <->
  start + HEADER_BYTES <= len bytes /\ hb = slot bytes start.
Proof.
  intros Hfit. rewrite get_range_Some. unfold slot. pose proof isize_lt_u64. split.
  - intros (H1 & H2 & ->). assert (Hl : start + HEADER_BYTES <= len bytes)
      by (apply saturating_add_le; lia).
    by rewrite saturating_add_in by lia.
  - intros [H1 ->]. rewrite saturating_add_in by lia. split_and!; [lia | lia | done].
Qed.
Lemma get_slot_None (bytes : list byte) start :
  len bytes <= isize_max ->
  get_range start (saturating_add start HEADER_BYTES) bytes = None ->
  len bytes < start + HEADER_BYTES.
Proof.
  intros Hfit Hn. destruct (N.lt_ge_cases (len bytes) (start + HEADER_BYTES)); [done |].
  assert (Hs : get_range start (saturating_add start HEADER_BYTES) bytes = Some (slot bytes start))
    by (by apply get_slot). congruence.
Qed.

Lemma decoded_Some b h : decoded b = Some h <-> decode_header b = Ok h.
Proof. unfold decoded. destruct (decode_header b); split; intros; by simplify_eq. Qed.
Lemma decoded_magic b h : decoded b = Some h -> subslice 0 8 b = MAGIC /\ len b = HEADER_BYTES.
Proof.
  rewrite decoded_Some. unfold decode_header. intros Hd. inv_ok. by bool_props.
Qed.
Lemma decoded_wf b h : decoded b = Some h -> header_wf h.
Proof. rewrite decoded_Some. intros Hd. by apply decode_header_canonical in Hd as [? _]. Qed.
Lemma differs_false o h : differs o h = false <-> o = None \/ o = Some h.
Proof.
  unfold differs. destruct o as [v|]; [|tauto].
  rewrite negb_false_iff, bool_decide_eq_true. naive_solver.
Qed.

Lemma as_primary_ok bytes limits start h c :
  len bytes <= isize_max -> decoded (slot bytes start) = Some h ->
  hd_payload_len h <= cl_max_generation_bytes limits ->
  candidate_as_primary bytes start h (hd_payload_len h) = Ok (Some c) ->
  candidate_ok bytes limits c /\ cd_start c = start /\ cd_header c = h.
Proof.
  intros Hfit Hd Hp Hc. unfold candidate_as_primary in Hc. inv_ok.
  destruct (checked_add start HEADER_BYTES) as [v|] eqn:Hv; [simpl in Hok | done]. inv_ok.
  destruct (get_range _ _ _) as [tb|] eqn:Ht; [|done].
  apply get_slot in Ht as [Hl ->]; [|done].
  destruct (differs _ _) eqn:Hdf; [done |]. inv_ok.
  split; [|done]. unfold candidate_ok, header_at. simpl. rewrite Hd.
  split_and!; [unfold record_len; lia | | done | by left | done | | done].
  - apply differs_false. by right.
  - by rewrite bool_decide_true.
Qed.

Lemma as_trailing_ok bytes limits trailing h c :
  len bytes <= isize_max -> decoded (slot bytes trailing) = Some h ->
  trailing + HEADER_BYTES <= len bytes ->
  hd_payload_len h <= cl_max_generation_bytes limits ->
  candidate_as_trailing bytes trailing h (hd_payload_len h) = Some c ->
  candidate_ok bytes limits c /\ cd_start c + HEADER_BYTES + hd_payload_len h = trailing /\
  cd_header c = h.
Proof.
  intros Hfit Hd Ht Hp Hc. unfold candidate_as_trailing in Hc.
  destruct (checked_sub _ _) as [s|] eqn:Hs; [|done]. simpl in Hc.
  apply checked_sub_Some in Hs as [-> Hle].
  assert (Hsat : saturating_add HEADER_BYTES (hd_payload_len h) = HEADER_BYTES + hd_payload_len h).
  { apply saturating_add_in. pose proof isize_lt_u64.
    apply saturating_add_le in Hle; lia. }
  rewrite Hsat in Hle, Hc.
  destruct (get_range _ _ _) as [tb|] eqn:Hg; [simpl in Hc | done].
  apply get_slot in Hg as [Hl ->]; [|done].
  destruct (differs _ _) eqn:Hdf; [done |]. injection Hc as <-. simpl.
  assert (Heq : trailing - (HEADER_BYTES + hd_payload_len h) + HEADER_BYTES + hd_payload_len h
    = trailing) by lia.
  split; [|split; [exact Heq | done]]. unfold candidate_ok, header_at. simpl. rewrite Heq, Hd.
  split_and!; [unfold record_len; lia | done | | by right | done | done |].
  - apply differs_false. by right.
  - by rewrite bool_decide_true.
Qed.
End Validity.

(** ** The candidate search *)
Section Search.
Context `{Digests}.
Implicit Types bytes : list byte.

Lemma find_at_Ok bytes limits cs p cs' :
  len bytes <= isize_max ->
  find_at bytes limits cs p = Ok cs' ->
  exists new, cs' = cs ++ new /\ Forall (candidate_ok bytes limits) new /\
    (forall h, decoded (slot bytes p) = Some h -> p + HEADER_BYTES <= len bytes ->
       hd_payload_len h <= cl_max_generation_bytes limits ->
       (forall c, candidate_as_primary bytes p h (hd_payload_len h) = Ok (Some c) -> c ∈ new) /\
       (forall c, candidate_as_trailing bytes p h (hd_payload_len h) = Some c -> c ∈ new)).
Proof.
  intros Hfit. unfold find_at. intros Hf. inv_ok. apply index_range_Ok in Hok0 as (_ & Hl & ->).
  assert (Hskip : forall h, decoded (slot bytes p) = Some h ->
    subslice p (p + len MAGIC) bytes = MAGIC).
  { intros h (Hm & _)%decoded_magic. unfold slot in Hm.
    rewrite subslice_subslice in Hm by (unfold HEADER_BYTES; lia).
    by rewrite N.add_0_r in Hm. }
  destruct (bool_decide _) eqn:Hmagic; simpl in Hf; bool_props; [|inv_ok; exists [];
    rewrite app_nil_r; split_and!; [done | constructor |];
    intros h Hd; by apply Hskip in Hd].
  destruct (get_range _ _ _) as [hb|] eqn:Hg; [|inv_ok; exists []; rewrite app_nil_r;
    split_and!; [done | constructor |]; intros h Hd Hp;
    apply get_slot_None in Hg; [lia | done]].
  apply get_slot in Hg as [Hp ->]; [|done].
  destruct (decoded (slot bytes p)) as [h|] eqn:Hd; [|inv_ok; exists []; rewrite app_nil_r;
    split_and!; [done | constructor | done]].
  inv_ok. destruct (N.ltb_spec (cl_max_generation_bytes limits) (hd_payload_len h)) as [Hlt|Hge].
  { inv_ok. exists []. rewrite app_nil_r. split_and!; [done | constructor |].
    intros h' [= <-] _ Hle. lia. }
  inv_ok. rename a into prim.
  exists (option_list prim ++ option_list (candidate_as_trailing bytes p h (hd_payload_len h))).
  split; [by rewrite app_assoc |]. split.
  - apply Forall_app. split.
    + destruct prim as [c|]; simpl; [|constructor]. constructor; [|constructor].
      eapply as_primary_ok; eauto.
    + destruct (candidate_as_trailing _ _ _ _) as [c|] eqn:Ht; simpl; [|constructor].
      constructor; [|constructor]. eapply as_trailing_ok; eauto.
  - intros h' [= <-] _ _. split; intros c Hc.
    + rewrite Hc in Hok1. injection Hok1 as <-. simpl. set_solver.
    + rewrite Hc. simpl. set_solver.
Qed.

Lemma elem_positions bytes p :
  p ∈ positions bytes <-> p <= len bytes - len MAGIC.
Proof.
  unfold positions, saturating_sub. rewrite list_elem_of_fmap. setoid_rewrite elem_of_seq. split.
  - intros (n & -> & Hn). lia.
  - intros Hp. exists (N.to_nat p). lia.
Qed.

Lemma find_fold_Ok bytes limits ps : forall cs cs',
  len bytes <= isize_max ->
  try_fold (find_at bytes limits) cs ps = Ok cs' ->
  Forall (candidate_ok bytes limits) cs ->
  Forall (candidate_ok bytes limits) cs' /\ (forall c, c ∈ cs -> c ∈ cs') /\
  forall p h, p ∈ ps -> decoded (slot bytes p) = Some h -> p + HEADER_BYTES <= len bytes ->
    hd_payload_len h <= cl_max_generation_bytes limits ->
    (forall c, candidate_as_primary bytes p h (hd_payload_len h) = Ok (Some c) -> c ∈ cs') /\
    (forall c, candidate_as_trailing bytes p h (hd_payload_len h) = Some c -> c ∈ cs').
Proof.
  induction ps as [|p ps IH]; intros cs cs' Hfit; simpl.
  - intros [= <-] Hcs. split_and!; [done | done |]. intros p h Hp. by apply not_elem_of_nil in Hp.
  - intros (cs1 & H1 & H2)%bind_Ok Hcs.
    apply find_at_Ok in H1 as (new & -> & Hnew & Hc); [|done].
    apply IH in H2 as (Hall & Hsub & Hrest); [|done | by apply Forall_app].
    split_and!; [done | intros c Hin; apply Hsub; set_solver |].
    intros q h [->|Hq]%elem_of_cons Hd Hl Hp; [|by apply Hrest].
    destruct (Hc h Hd Hl Hp) as [Hc1 Hc2].
    split; intros c Hin; apply Hsub, elem_of_app; right; auto.
Qed.

(** A header standing at [start] is found, whichever copies survive. *)
Lemma find_candidates_complete bytes limits cs start h :
  len bytes <= isize_max ->
  find_candidates bytes limits = Ok cs -> header_at bytes start h ->
  hd_payload_len h <= cl_max_generation_bytes limits ->
  exists c, c ∈ cs /\ cd_start c = start /\ cd_header c = h.
Proof.
  intros Hfit Hf (Hl & Hd1 & Hd2 & Hor) Hp. unfold find_candidates in Hf.
  apply find_fold_Ok in Hf as (_ & _ & Hc); [|done | constructor].
  pose proof isize_lt_u64. unfold record_len in Hl.
  assert (Hmagic : len MAGIC = 8) by done. unfold HEADER_BYTES in *.
  destruct Hor as [Hd|Hd].
  - destruct (Hc start h) as [Hc1 _]; [rewrite elem_positions; lia | done | lia | done |].
    eexists. split; [apply Hc1 |].
    + unfold candidate_as_primary. rewrite checked_add_in by (unfold HEADER_BYTES; lia). simpl.
      rewrite checked_add_in by (unfold HEADER_BYTES; lia). simpl.
      rewrite (proj2 (get_slot bytes (start + HEADER_BYTES + hd_payload_len h) _ Hfit))
        by (split; [unfold HEADER_BYTES; lia | reflexivity]).
      unfold HEADER_BYTES. rewrite Hd2. reflexivity.
    + done.
  - destruct (Hc (start + 136 + hd_payload_len h) h) as [_ Hc2];
      [rewrite elem_positions; lia | done | lia | done |].
    eexists. split; [apply Hc2 |].
    + unfold candidate_as_trailing.
      rewrite saturating_add_in by (unfold HEADER_BYTES; lia).
      rewrite checked_sub_in by (unfold HEADER_BYTES; lia). simpl.
      replace (start + 136 + hd_payload_len h - (HEADER_BYTES + hd_payload_len h)) with start
        by (unfold HEADER_BYTES; lia).
      rewrite (proj2 (get_slot bytes start _ Hfit))
        by (split; [unfold HEADER_BYTES; lia | reflexivity]).
      simpl. rewrite Hd1. reflexivity.
    + done.
Qed.

(** ** The start-indexed map *)

(** Two candidates for one start carry the same header. *)
Definition compatible (cs : list Candidate) : Prop :=
  forall c1 c2, c1 ∈ cs -> c2 ∈ cs -> cd_start c1 = cd_start c2 ->
    cd_header c1 = cd_header c2.

(** The map holds exactly the starts of the candidates seen so far. *)
Definition indexes (m : gmap N Candidate) (cs : list Candidate) : Prop :=
  (forall s c, m !! s = Some c -> cd_start c = s /\
     exists c', c' ∈ cs /\ cd_start c' = s /\ cd_header c' = cd_header c) /\
  (forall c, c ∈ cs -> exists c', m !! cd_start c = Some c' /\ cd_header c' = cd_header c).

Lemma merge_candidate_step m cs c m' :
  indexes m cs -> merge_candidate m c = Ok m' -> indexes m' (cs ++ [c]).
Proof.
  intros [H1 H2]. unfold merge_candidate.
  assert (Hset : forall c0, cd_start c0 = cd_start c -> cd_header c0 = cd_header c ->
    (forall c', m !! cd_start c = Some c' -> cd_header c' = cd_header c) ->
    indexes (<[cd_start c := c0]> m) (cs ++ [c])).
  { intros c0 Hs Hh Hold. split.
    - intros s x. destruct (decide (s = cd_start c)) as [->|Hne].
      + rewrite lookup_insert_eq. intros [= <-]. split; [done |].
        exists c. split_and!; [set_solver | done | done].
      + rewrite lookup_insert_ne by done. intros Hx. apply H1 in Hx as (? & c' & ? & ? & ?).
        split; [done |]. exists c'. split_and!; [set_solver | done | done].
    - intros x [Hx|Hx%list_elem_of_singleton]%elem_of_app.
      + destruct (decide (cd_start x = cd_start c)) as [He|Hne].
        * rewrite He, lookup_insert_eq. exists c0. split; [done |].
          apply H2 in Hx as (c' & Hx & Hhx). rewrite He in Hx. rewrite Hh, <- Hhx.
          symmetry. by apply Hold.
        * rewrite lookup_insert_ne by done. by apply H2.
      + subst x. rewrite lookup_insert_eq. by exists c0. }
  destruct (m !! cd_start c) as [e|] eqn:He.
  - destruct (bool_decide _) eqn:Hb; [|done]. bool_props. intros [= <-].
    apply Hset; simpl; [by apply H1 in He as [? _] | done |]. by intros c' [= <-].
  - intros [= <-]. apply Hset; done.
Qed.

Lemma merge_fold_indexes cs : forall m seen m',
  indexes m seen -> try_fold merge_candidate m cs = Ok m' -> indexes m' (seen ++ cs).
Proof.
  induction cs as [|c cs IH]; intros m seen m' Hi; simpl.
  - intros [= <-]. by rewrite app_nil_r.
  - intros (m1 & H1 & H2)%bind_Ok. apply (merge_candidate_step _ seen) in H1; [|done].
    apply (IH _ (seen ++ [c])) in H2; [|done]. by rewrite <- app_assoc in H2.
Qed.

Lemma indexes_empty : indexes ∅ [].
Proof. split; [intros s c; by rewrite lookup_empty | intros c Hc; by apply not_elem_of_nil in Hc]. Qed.

Lemma merge_Ok cs m : try_fold merge_candidate ∅ cs = Ok m -> indexes m cs /\ compatible cs.
Proof.
  intros Hm. apply (merge_fold_indexes _ _ []) in Hm; [|apply indexes_empty]. simpl in Hm.
  split; [done |]. destruct Hm as [_ H2]. intros c1 c2 Hc1 Hc2 He.
  apply H2 in Hc1 as (d1 & Hd1 & <-). apply H2 in Hc2 as (d2 & Hd2 & <-).
  rewrite He in Hd1. congruence.
Qed.

Lemma merge_complete cs : forall m seen,
  indexes m seen -> compatible (seen ++ cs) -> exists m', try_fold merge_candidate m cs = Ok m'.
Proof.
  induction cs as [|c cs IH]; intros m seen Hi Hc; simpl; [by eexists |].
  assert (Hm : exists m1, merge_candidate m c = Ok m1).
  { unfold merge_candidate. destruct (m !! cd_start c) as [e|] eqn:He; [|by eexists].
    destruct Hi as [H1 _]. apply H1 in He as (_ & c' & Hc' & Hs & Hh).
    rewrite bool_decide_true; [by eexists |]. rewrite <- Hh.
    apply Hc; [set_solver | set_solver | done]. }
  destruct Hm as [m1 Hm]. rewrite Hm. simpl. apply (IH m1 (seen ++ [c])).
  - by eapply merge_candidate_step.
  - by rewrite <- app_assoc.
Qed.

(** Merging keeps the flags exact. *)
Lemma merge_flags bytes limits cs : forall m m',
  Forall (candidate_ok bytes limits) cs ->
  (forall s c, m !! s = Some c -> cd_start c = s /\ candidate_ok bytes limits c) ->
  try_fold merge_candidate m cs = Ok m' ->
  forall s c, m' !! s = Some c -> cd_start c = s /\ candidate_ok bytes limits c.
Proof.
  induction cs as [|c cs IH]; intros m m' Hcs Hm; simpl; [by intros [= <-] |].
  apply Forall_cons in Hcs as [Hc Hcs]. intros (m1 & H1 & H2)%bind_Ok.
  apply (IH m1); [done | | done]. clear IH H2. unfold merge_candidate in H1.
  destruct (m !! cd_start c) as [e|] eqn:He.
  - destruct (bool_decide _) eqn:Hb; [|done]. bool_props. injection H1 as <-.
    intros s x. destruct (decide (s = cd_start c)) as [->|Hne];
      [rewrite lookup_insert_eq | rewrite lookup_insert_ne by done; apply Hm].
    intros [= <-]. apply Hm in He as [Hs (Ha & Hp & Hf1 & Hf2)]. simpl. split; [done |].
    destruct Hc as (_ & _ & Hf1' & Hf2'). unfold candidate_ok. simpl.
    split_and!; [done | done | |].
    + rewrite Hf1', Hf1, <- Hs, Hb. apply orb_diag.
    + rewrite Hf2', Hf2, <- Hs, Hb. apply orb_diag.
  - injection H1 as <-. intros s x. destruct (decide (s = cd_start c)) as [->|Hne];
      [rewrite lookup_insert_eq; by intros [= <-] | rewrite lookup_insert_ne by done; apply Hm].
Qed.
End Search.

(** ** The scanner *)
Section Scan.
Context `{Digests}.
Implicit Types bytes : list byte.

Lemma validate_chain_Ok gs c u :
  validate_chain gs c = Ok u <->
  match last gs with
  | None => hd_generation (cd_header c) = 0 /\ hd_phase (cd_header c) = Discovered /\
            hd_previous_offset (cd_header c) = None
  | Some p =>
      hd_generation (cd_header c) = cg_generation p + 1 /\
      hd_generation (cd_header c) <= u64_max /\
      hd_previous_offset (cd_header c) = Some (cg_offset p) /\
      hd_identity (cd_header c) = cg_identity p /\
      may_follow (hd_phase (cd_header c)) (cg_phase p) = true
  end.
Proof.
  unfold validate_chain. destruct u, (last gs) as [p|]; split.
  - intros Hv. inv_ok. bool_props. split_and!; try done; lia.
  - intros (Hg & Hmax & Hp & Hi & Hm). rewrite Hg in Hmax.
    rewrite checked_add_in by done. simpl. rewrite Hg, N.eqb_refl. simpl.
    rewrite Hp, Hi, Hm, !bool_decide_true by done. reflexivity.
  - intros Hv. inv_ok. bool_props. split_and!; [done | done |].
    by destruct (hd_previous_offset _); [exfalso; eauto |].
  - intros (-> & -> & ->). reflexivity.
Qed.

Lemma scan_one_Ok bytes limits gs c r :
  len bytes <= isize_max -> candidate_ok bytes limits c ->
  scan_one bytes gs (cd_start c) c = Ok r ->
  header_of r.1 = cd_header c /\ generation_at bytes limits (cd_start c) r.1 /\ linked (last gs) r.1 /\
  r.2 = (cd_start c) + record_len (len (cg_payload r.1)) /\ r.2 <= len bytes.
Proof.
  intros Hfit (Hat & Hp & Hf1 & Hf2) Hr. unfold scan_one in Hr. inv_ok. bool_props.
  apply index_range_Ok in Hok4 as (_ & Hin & ->). apply validate_chain_Ok in Hok6. simpl.
  assert (Hlen : len (subslice ((cd_start c) + HEADER_BYTES)
      ((cd_start c) + HEADER_BYTES + hd_payload_len (cd_header c)) bytes) =
    hd_payload_len (cd_header c)) by (rewrite len_subslice; lia).
  assert (Hh : header_of {|
      cg_offset := (cd_start c); cg_generation := hd_generation (cd_header c);
      cg_phase := hd_phase (cd_header c);
      cg_previous_offset := hd_previous_offset (cd_header c);
      cg_identity := hd_identity (cd_header c);
      cg_payload_digest := hd_payload_digest (cd_header c);
      cg_payload := subslice ((cd_start c) + HEADER_BYTES)
        ((cd_start c) + HEADER_BYTES + hd_payload_len (cd_header c)) bytes;
      cg_primary_header_valid := cd_primary_valid c;
      cg_trailing_header_valid := cd_trailing_valid c |} = cd_header c).
  { unfold header_of. simpl. rewrite Hlen. by destruct (cd_header c). }
  split; [exact Hh |]. unfold generation_at. rewrite Hh. simpl. rewrite !Hlen.
  split_and!; try done; unfold record_len; lia.
Qed.

Lemma scan_loop_sound fuel : forall bytes limits allow m gs offset r,
  len bytes <= isize_max ->
  (forall s c, m !! s = Some c -> cd_start c = s /\ candidate_ok bytes limits c) ->
  chained bytes limits None 0 gs offset -> len gs <= cl_max_generations limits ->
  scan_loop fuel bytes limits allow m gs offset = Ok r ->
  chained bytes limits None 0 r.1 r.2 /\ len r.1 <= cl_max_generations limits.
Proof.
  induction fuel as [|fuel IH]; intros bytes limits allow m gs offset r Hfit Hm Hc Hn Hr;
    [done |]. cbn [scan_loop] in Hr.
  destruct (offset <? len bytes); [|by inv_ok]. inv_ok. bool_props.
  destruct (m !! offset) as [c|] eqn:Hcand.
  - inv_ok. apply Hm in Hcand as [<- Hco].
    apply (scan_one_Ok _ limits) in Hok0 as (_ & Hg & Hl & Hend & _); [|done..].
    apply (IH _ _ _ _ _ _ _ Hfit Hm) in Hr; [done | |].
    + rewrite Hend. apply chained_snoc; [done | done |]. by destruct (last gs).
    + rewrite len_app. change (len [a0.1]) with 1. lia.
  - inv_ok. destruct a0; by inv_ok.
Qed.

Lemma scan_sound bytes limits allow view :
  len bytes <= isize_max -> scan_capsule_impl bytes limits allow = Ok view ->
  view_of bytes limits view /\ (allow = false -> cv_validated_bytes view = len bytes).
Proof.
  intros Hfit Hv. unfold scan_capsule_impl in Hv. inv_ok. bool_props.
  destruct (is_empty bytes) eqn:Hempty.
  { inv_ok. destruct bytes; [|done]. split; [|done]. unfold view_of. simpl.
    split_and!; try done; unfold len; simpl; lia. }
  inv_ok. bool_props.
  unfold find_candidates in Hok1. apply find_fold_Ok in Hok1 as (Hcs & _ & _); [|done | constructor].
  assert (Hm := merge_flags bytes limits _ _ _ Hcs
    (fun s c (Hl : (∅ : gmap N Candidate) !! s = Some c) =>
       match eq_ind None (fun o => match o with None => True | Some _ => False end)
               I (Some c) (eq_trans (eq_sym (lookup_empty s)) Hl)
       with end) Hok2).
  apply scan_loop_sound in Hok3 as [Hchain Hn]; [| done | done | done | rewrite len_nil; lia].
  apply chained_bound in Hchain as Hb; [|lia].
  split; [unfold view_of; simpl; split_and!; (done || lia) |]. intros ->. simpl in *. by bool_props.
Qed.

(** ** Phases along a chain *)

(** [n] generations precede; the phase of the last one is its own index unless
    the transaction was rolled back. *)
Definition phase_at (g : CapsuleGeneration) (n : N) : Prop :=
  cg_generation g = n /\
  (phase_byte (cg_phase g) = n \/ (cg_phase g = RolledBack /\ 1 <= n)).

Lemma phase_byte_inj p q : phase_byte p = phase_byte q -> p = q.
Proof. by destruct p, q. Qed.

Lemma may_follow_spec self previous :
  may_follow self previous = true ->
  previous <> Finalized /\ previous <> RolledBack /\
  (phase_byte self = phase_byte previous + 1 \/ self = RolledBack).
Proof. by destruct previous, self; simpl; intros; (done || auto). Qed.

Lemma linked_phase p g n : phase_at p n -> linked (Some p) g -> phase_at g (n + 1).
Proof.
  intros [Hn Hp] (Hg & _ & _ & _ & Hf). apply may_follow_spec in Hf as (_ & Hr & Hf).
  split; [lia |]. destruct Hp as [Hp|[Hp _]]; [|done].
  destruct Hf as [Hf|Hf]; [left; lia | right; split; [done | lia]].
Qed.

Lemma chained_phases bytes limits gs : forall previous offset end_ n p,
  chained bytes limits (Some p) offset gs end_ -> previous = Some p -> phase_at p n ->
  forall i g, gs !! i = Some g ->
    phase_at g (n + 1 + N.of_nat i) /\ cg_identity g = cg_identity p /\
    phase_byte (cg_phase p) < phase_byte (cg_phase g).
Proof.
  induction gs as [|x gs IH]; intros previous offset end_ n p Hc -> Hp i g; [done |].
  destruct Hc as (_ & Hl & Hc). pose proof (linked_phase _ _ _ Hp Hl) as Hx.
  destruct Hl as (_ & _ & _ & Hid & Hf). apply may_follow_spec in Hf as (Hnf & Hnr & Hf).
  assert (Hlt : phase_byte (cg_phase p) < phase_byte (cg_phase x)).
  { destruct Hf as [Hf|Hf]; [lia |]. rewrite Hf. revert Hnr. by destruct (cg_phase p). }
  destruct i as [|i]; simpl.
  - intros [= <-]. rewrite N.add_0_r. split_and!; done.
  - intros Hi. destruct (IH _ _ _ (n + 1) x Hc eq_refl Hx i g Hi) as (H1 & H2 & H3).
    assert (He : n + 1 + N.of_nat (S i) = n + 1 + 1 + N.of_nat i) by lia.
    rewrite <- He in H1. split_and!; [exact H1 | congruence | lia].
Qed.

Lemma chain_phases bytes limits gs end_ :
  chained bytes limits None 0 gs end_ ->
  forall i g, gs !! i = Some g ->
    phase_at g (N.of_nat i) /\
    (forall g0, gs !! 0%nat = Some g0 -> cg_identity g = cg_identity g0) /\
    (forall j g', (i < j)%nat -> gs !! j = Some g' ->
       phase_byte (cg_phase g) < phase_byte (cg_phase g')).
Proof.
  destruct gs as [|g0 gs]; [done |]. intros (_ & (Hg0 & Hp0 & _) & Hc).
  assert (H0 : phase_at g0 0) by (split; [done | left; by rewrite Hp0]).
  assert (Hrest : forall gs offset p n i g, chained bytes limits (Some p) offset gs end_ ->
    phase_at p n -> gs !! i = Some g -> forall j g', (i < j)%nat -> gs !! j = Some g' ->
    phase_byte (cg_phase g) < phase_byte (cg_phase g')).
  { clear. induction gs as [|x gs IH]; intros offset p n i g Hch Hp Hi j g' Hij Hj;
      [done |]. destruct Hch as (_ & Hl & Hc). pose proof (linked_phase _ _ _ Hp Hl) as Hx.
    destruct j as [|j]; [lia |]. simpl in Hj. destruct i as [|i]; simpl in Hi.
    - injection Hi as <-. by apply (chained_phases _ _ _ _ _ _ _ _ Hc eq_refl Hx j g').
    - apply (IH _ x (n + 1) i g Hc Hx Hi j g'); [lia | done]. }
  intros i g. destruct i as [|i]; simpl.
  - intros [= <-]. split_and!; [done | by intros ? [= <-] |].
    intros [|j] g' Hij Hj; [lia |]. by apply (chained_phases _ _ _ _ _ _ _ _ Hc eq_refl H0 j g').
  - intros Hi. destruct (chained_phases _ _ _ _ _ _ _ _ Hc eq_refl H0 i g Hi) as (H1 & H2 & _).
    assert (He : N.of_nat (S i) = 0 + 1 + N.of_nat i) by lia. rewrite <- He in H1.
    split_and!; [exact H1 | by intros ? [= <-] |].
    intros [|j] g' Hij Hj; [lia |]. apply (Hrest _ _ _ _ i g Hc H0 Hi j g'); [lia | done].
Qed.

Lemma chain_length bytes limits gs end_ :
  chained bytes limits None 0 gs end_ -> (length gs <= 9)%nat.
Proof.
  intros Hc. pose proof (chain_phases _ _ _ _ Hc) as Hp.
  destruct (Nat.le_gt_cases (length gs) 9) as [|Hl]; [done | exfalso].
  assert (Hi : forall i, (i < length gs)%nat -> exists g, gs !! i = Some g /\
    N.of_nat i <= phase_byte (cg_phase g)).
  { induction i as [|i IHi]; intros Hlt;
      destruct (lookup_lt_is_Some_2 gs _ Hlt) as [g Hg]; exists g; split; try done; [lia |].
    destruct IHi as (g' & Hg' & Hle); [lia |].
    destruct (Hp _ _ Hg') as (_ & _ & Hlt'). specialize (Hlt' (S i) g ltac:(lia) Hg). lia. }
  destruct (Hi 9%nat) as (g & _ & Hle); [lia |]. pose proof (phase_byte_bound (cg_phase g)). lia.
Qed.
End Scan.

(** ** Appending, scanning again, and torn appends *)
Section Append.
Context `{Digests}.
Implicit Types bytes : list byte.

(** The search is unambiguous: no start is claimed by two different headers. *)
Definition unambiguous bytes (limits : CapsuleLimits) (cs : list Candidate) : Prop :=
  find_candidates bytes limits = Ok cs /\ compatible cs.

Definition identity_wf (identity : CapsuleIdentity) : Prop :=
  len (ci_transaction_id identity) = 16 /\ len (ci_source_digest identity) = 32.

(** The generation [append_generation] records. *)
Definition new_generation (offset : N) (link : N * option N) (identity : CapsuleIdentity)
    (phase : TransactionPhase) (payload : list byte) : CapsuleGeneration := {|
  cg_offset := offset;
  cg_generation := link.1;
  cg_phase := phase;
  cg_previous_offset := link.2;
  cg_identity := identity;
  cg_payload_digest := sha256 payload;
  cg_payload := payload;
  cg_primary_header_valid := true;
  cg_trailing_header_valid := true
|}.
Definition record_of (g : CapsuleGeneration) : list byte :=
  encode_header (header_of g) ++ cg_payload g ++ encode_header (header_of g).

Lemma slot_app bytes ext s : s + HEADER_BYTES <= len bytes -> slot (bytes ++ ext) s = slot bytes s.
Proof. intros. by apply subslice_app_low. Qed.

Lemma generation_at_app bytes ext limits offset g :
  generation_at bytes limits offset g -> generation_at (bytes ++ ext) limits offset g.
Proof.
  intros (H1 & (Hl & Hd1 & Hd2 & Hor) & Hmax & Hp & Hs & Hf1 & Hf2).
  unfold record_len in Hl. simpl in Hl, Hd2, Hor.
  unfold generation_at, header_at. simpl.
  rewrite !slot_app by lia. rewrite subslice_app_low by lia.
  split_and!; try done. unfold record_len. rewrite len_app. lia.
Qed.

Lemma chained_app bytes ext limits gs : forall previous offset end_,
  chained bytes limits previous offset gs end_ ->
  chained (bytes ++ ext) limits previous offset gs end_.
Proof.
  induction gs as [|g gs IH]; intros previous offset end_; simpl; [done |].
  intros (Hg & Hl & Hc). split_and!; [by apply generation_at_app | done | by apply IH].
Qed.

Lemma chained_count bytes limits gs : forall previous offset end_,
  chained bytes limits previous offset gs end_ -> offset + len gs <= end_.
Proof.
  induction gs as [|g gs IH]; intros previous offset end_; simpl.
  - intros ->. unfold len. simpl. lia.
  - intros (_ & _ & Hc). apply IH in Hc. rewrite len_cons.
    unfold record_len, HEADER_BYTES in Hc. lia.
Qed.

Lemma chained_offsets bytes limits gs : forall previous offset end_,
  chained bytes limits previous offset gs end_ ->
  forall i g, gs !! i = Some g -> cg_offset g < end_.
Proof.
  induction gs as [|x gs IH]; intros previous offset end_; simpl; [done |].
  intros ((Ho & _) & _ & Hc) [|i] g; simpl.
  - intros [= <-]. apply chained_count in Hc. unfold record_len, HEADER_BYTES in Hc. lia.
  - intros Hi. by eapply IH.
Qed.

(** One round of the scan on a recorded generation. *)
Lemma scan_one_exact bytes limits gs offset g c :
  len bytes <= isize_max -> generation_at bytes limits offset g -> linked (last gs) g ->
  cd_start c = offset -> cd_header c = header_of g -> candidate_ok bytes limits c ->
  scan_one bytes gs offset c = Ok (g, offset + record_len (len (cg_payload g))).
Proof.
  intros Hfit (Ho & (Hl & _) & _ & Hp & Hs & Hf1 & Hf2) Hlink Hst Hh (_ & _ & Hc1 & Hc2).
  rewrite Hst, Hh in Hc1, Hc2. simpl in Hc2, Hl. unfold record_len in Hl.
  pose proof isize_lt_u64. unfold scan_one. rewrite Hh. simpl hd_payload_len.
  do 6 ok_step. rewrite <- Hp. ok_step. ok_step.
  { apply (proj2 (validate_chain_Ok gs c tt)). rewrite Hh. unfold linked in Hlink.
    by destruct (last gs). }
  ok_step. f_equal. f_equal; [|unfold record_len; lia]. rewrite Hc1, Hc2, <- Hf1, <- Hf2.
  destruct g; simpl in *. by subst.
Qed.

Lemma scan_loop_replay bytes limits allow m cs gs : forall previous offset end_ acc fuel,
  len bytes <= isize_max -> indexes m cs -> compatible cs ->
  find_candidates bytes limits = Ok cs ->
  (forall s c, m !! s = Some c -> cd_start c = s /\ candidate_ok bytes limits c) ->
  chained bytes limits previous offset gs end_ -> last acc = previous ->
  len (acc ++ gs) <= cl_max_generations limits ->
  scan_loop (length gs + fuel) bytes limits allow m acc offset =
    scan_loop fuel bytes limits allow m (acc ++ gs) end_.
Proof.
  induction gs as [|g gs IH]; intros previous offset end_ acc fuel Hfit Hi Hco Hf Hm Hc Hlast Hn;
    simpl in Hc.
  - subst. simpl. by rewrite app_nil_r.
  - destruct Hc as (Hg & Hl & Hc). pose proof Hg as (_ & Hat & Hmax & _).
    pose proof Hat as (Hfits & _). unfold record_len in Hfits. simpl in Hfits.
    cbn [length Nat.add scan_loop]. rewrite (proj2 (N.ltb_lt offset _))
      by (unfold HEADER_BYTES in Hfits; lia).
    rewrite len_app, len_cons in Hn.
    rewrite (proj2 (N.leb_gt _ (len acc))) by lia. cbn [refuse_if mbind outcome_bind].
    destruct (find_candidates_complete bytes limits cs offset (header_of g) Hfit Hf Hat Hmax)
      as (c & Hin & Hs & Hh).
    destruct Hi as [Hi1 Hi2]. destruct (Hi2 c Hin) as (c' & Hc' & Hh'). rewrite Hs in Hc'.
    rewrite Hc'. destruct (Hm _ _ Hc') as [Hs' Hok].
    rewrite (scan_one_exact bytes limits acc offset g c'); try done.
    + cbn [mbind outcome_bind fst snd].
      rewrite (IH (Some g) _ end_ (acc ++ [g])); try done.
      * by rewrite <- app_assoc.
      * by rewrite last_snoc.
      * rewrite !len_app, len_cons, len_nil. lia.
    + by rewrite Hlast.
    + congruence.
Qed.

(** Bytes that carry a chain, searched without ambiguity, are scanned to it. *)
Lemma scan_of_chain allow bytes limits cs gs :
  len bytes <= isize_max -> validate_limits limits = Ok tt ->
  len bytes <= cl_max_capsule_bytes limits -> unambiguous bytes limits cs ->
  chained bytes limits None 0 gs (len bytes) -> len gs <= cl_max_generations limits ->
  scan_capsule_impl bytes limits allow = Ok (mkCapsuleView gs (len bytes)).
Proof.
  intros Hfit Hlim Hmax [Hf Hco] Hc Hn. unfold scan_capsule_impl.
  rewrite Hlim. cbn [mbind outcome_bind].
  rewrite (proj2 (N.ltb_ge _ _) Hmax). cbn [refuse_if mbind outcome_bind].
  destruct (is_empty bytes) eqn:He.
  { destruct bytes; [|done]. apply chained_count in Hc. destruct gs; [done |].
    rewrite len_cons in Hc. unfold len at 2 in Hc. simpl in Hc. lia. }
  rewrite Hf. cbn [mbind outcome_bind].
  destruct (merge_complete cs ∅ [] indexes_empty) as [m Hmerge]; [done |].
  rewrite Hmerge. cbn [mbind outcome_bind].
  pose proof (merge_Ok _ _ Hmerge) as [Hi _].
  pose proof Hf as Hf'. unfold find_candidates in Hf'.
  apply find_fold_Ok in Hf' as (Hall & _ & _); [|done | constructor].
  pose proof (merge_flags bytes limits cs ∅ m Hall) as Hm.
  pose proof (chained_count _ _ _ _ _ _ Hc) as Hcnt.
  replace (S (length bytes)) with (length gs + S (length bytes - length gs))%nat
    by (unfold len in Hcnt; lia).
  rewrite (scan_loop_replay bytes limits allow m cs gs None 0 (len bytes) []); try done.
  - cbn [scan_loop app]. rewrite N.ltb_irrefl. cbn [mbind outcome_bind snd fst].
    rewrite N.eqb_refl, andb_false_r. reflexivity.
  - apply Hm; [|done]. intros s c. by rewrite lookup_empty.
Qed.

Lemma next_link_Ok view identity phase link :
  next_link view identity phase = Ok link ->
  link.1 <= u64_max /\ link.2 = cg_offset <$> view_newest view /\
  forall offset payload, linked (view_newest view) (new_generation offset link identity phase payload).
Proof.
  unfold next_link, linked. destruct (view_newest view) as [p|]; intros Hn; inv_ok; bool_props.
  - simpl. split_and!; [lia | done |]. intros offset payload. simpl. by split_and!.
  - by split_and!.
Qed.

Lemma append_Ok capsule identity phase payload limits capsule' :
  len capsule <= isize_max -> identity_wf identity ->
  append_generation capsule identity phase payload limits = Ok capsule' ->
  exists view link,
    scan_capsule capsule limits = Ok view /\
    next_link view identity phase = Ok link /\
    validate_limits limits = Ok tt /\
    len (cv_generations view) < cl_max_generations limits /\
    len payload <= cl_max_generation_bytes limits /\
    len capsule' <= cl_max_capsule_bytes limits /\
    header_wf (header_of (new_generation (len capsule) link identity phase payload)) /\
    capsule' = capsule ++ record_of (new_generation (len capsule) link identity phase payload).
Proof.
  intros Hfit [Hi1 Hi2] Ha. unfold append_generation in Ha. inv_ok. bool_props. destruct a.
  destruct (checked_mul HEADER_BYTES 2) as [v|] eqn:Hv; [|done]. simpl in Hok4.
  apply checked_mul_Some in Hv as [-> _]. inv_ok.
  destruct (next_link_Ok _ _ _ _ Hok2) as (Hg & Hprev & _).
  assert (Hwf : header_wf (header_of (new_generation (len capsule) a2 identity phase payload))).
  { split; simpl; try done; [|apply sha256_length].
    intros p Hp. rewrite Hprev in Hp. apply fmap_Some in Hp as (g & Hg' & ->).
    destruct (scan_sound capsule limits false a1 Hfit Hok1) as [(Hc & Hb & _) _].
    unfold view_newest in Hg'. rewrite last_lookup in Hg'.
    pose proof (chained_offsets _ _ _ _ _ _ Hc _ _ Hg') as Ho.
    unfold NO_PREVIOUS. pose proof isize_lt_u64. lia. }
  assert (Hrec : len (record_of (new_generation (len capsule) a2 identity phase payload)) =
    HEADER_BYTES * 2 + len payload).
  { unfold record_of. rewrite !len_app, !len_encode_header by done. simpl. lia. }
  exists a1, a2. split_and!; try done; try lia.
  change (len (capsule ++ record_of (new_generation (len capsule) a2 identity phase payload))
    <= cl_max_capsule_bytes limits).
  rewrite len_app, Hrec. lia.
Qed.
End Append.

Section Contracts.
Context `{Digests}.
Implicit Types bytes : list byte.

Lemma new_generation_at capsule limits link identity phase payload ext :
  len payload <= cl_max_generation_bytes limits ->
  header_wf (header_of (new_generation (len capsule) link identity phase payload)) ->
  generation_at (capsule ++ record_of (new_generation (len capsule) link identity phase payload)
                 ++ ext) limits (len capsule)
    (new_generation (len capsule) link identity phase payload).
Proof.
  set (g := new_generation (len capsule) link identity phase payload). intros Hp Hwf.
  pose proof (len_encode_header _ Hwf) as Hl. unfold record_of.
  assert (Hs1 : slot (capsule ++ (encode_header (header_of g) ++ cg_payload g ++
    encode_header (header_of g)) ++ ext) (len capsule) = encode_header (header_of g)).
  { unfold slot. rewrite <- app_assoc. apply subslice_middle; [done | lia]. }
  assert (Hs2 : slot (capsule ++ (encode_header (header_of g) ++ cg_payload g ++
    encode_header (header_of g)) ++ ext) (len capsule + HEADER_BYTES + len (cg_payload g))
    = encode_header (header_of g)).
  { unfold slot. rewrite <- !app_assoc. do 2 rewrite app_assoc.
    apply subslice_middle; rewrite ?len_app; lia. }
  assert (Hd : decoded (encode_header (header_of g)) = Some (header_of g))
    by (by apply decoded_Some, decode_encode_header).
  unfold generation_at, header_at. change (hd_payload_len (header_of g)) with (len (cg_payload g)).
  rewrite Hs1, Hs2, Hd. split_and!; try done; try (by apply differs_false; right).
  - rewrite !len_app, Hl. unfold record_len. lia.
  - by left.
  - rewrite <- !app_assoc. rewrite app_assoc. symmetry.
    apply subslice_middle; rewrite ?len_app; lia.
  - by rewrite bool_decide_true.
  - by rewrite bool_decide_true.
Qed.

Lemma append_chain capsule identity phase payload limits capsule' ext :
  len capsule <= isize_max -> identity_wf identity ->
  append_generation capsule identity phase payload limits = Ok capsule' ->
  exists view link,
    scan_capsule capsule limits = Ok view /\
    chained capsule limits None 0 (cv_generations view) (len capsule) /\
    linked (view_newest view) (new_generation (len capsule) link identity phase payload) /\
    chained (capsule' ++ ext) limits None 0
      (cv_generations view ++ [new_generation (len capsule) link identity phase payload])
      (len capsule') /\
    len (cv_generations view) < cl_max_generations limits /\
    len capsule' <= cl_max_capsule_bytes limits /\ validate_limits limits = Ok tt /\
    len payload <= cl_max_generation_bytes limits /\
    header_wf (header_of (new_generation (len capsule) link identity phase payload)) /\
    capsule' = capsule ++ record_of (new_generation (len capsule) link identity phase payload).
Proof.
  intros Hfit Hid Ha.
  destruct (append_Ok _ _ _ _ _ _ Hfit Hid Ha)
    as (view & link & Hv & Hlink & Hlim & Hn & Hp & Hmax & Hwf & ->).
  destruct (scan_sound capsule limits false view Hfit Hv) as [(Hc & Hb & _) Hfull].
  rewrite (Hfull eq_refl) in Hc.
  destruct (next_link_Ok _ _ _ _ Hlink) as (_ & _ & Hl).
  exists view, link. split_and!; try done; try (apply Hl).
  rewrite <- app_assoc.
  replace (len (capsule ++ _)) with (len capsule + record_len (len (cg_payload
    (new_generation (len capsule) link identity phase payload)))).
  - apply chained_snoc.
    + by apply chained_app.
    + by apply new_generation_at.
    + specialize (Hl (len capsule) payload). unfold view_newest in Hl. simpl in Hl.
      by destruct (last (cv_generations view)).
  - unfold record_of, record_len. rewrite !len_app, !len_encode_header by done. lia.
Qed.

(** C23: header codec.  Decoding accepts exactly the encodings of well-formed
    headers, so both directions round-trip and every accepted header block is
    canonical: no two different byte blocks decode to the same header. *)
Theorem header_codec_roundtrip b h :
  decode_header b = Ok h <-> header_wf h /\ b = encode_header h.
Proof.
  split; [apply decode_header_canonical |]. intros [Hwf ->]. by apply decode_encode_header.
Qed.

(** C6: scan soundness.  A view returned by the strict or the torn-tail scan
    describes the bytes: the generations tile a prefix of the capsule without
    gaps, each has at least one intact header and no contradicting one, its
    payload has the recorded SHA-256, and each continues its predecessor
    (number, link, identity, phase); the strict scan covers every byte. *)
Theorem scan_capsule_sound bytes limits allow_torn_tail view :
  len bytes <= isize_max ->
  scan_capsule_impl bytes limits allow_torn_tail = Ok view ->
  view_of bytes limits view /\
  (allow_torn_tail = false -> cv_validated_bytes view = len bytes).
Proof. apply scan_sound. Qed.

(** C24: a scanned transaction moves forward.  In any accepted capsule the
    [i]-th generation has number [i] and phase [i] (or is the final rollback),
    the phases strictly increase, the identity never changes, and there are at
    most nine generations. *)
Theorem scanned_phases_advance bytes limits allow_torn_tail view :
  len bytes <= isize_max ->
  scan_capsule_impl bytes limits allow_torn_tail = Ok view ->
  (length (cv_generations view) <= 9)%nat /\
  forall i g, cv_generations view !! i = Some g ->
    phase_at g (N.of_nat i) /\
    (forall g0, cv_generations view !! 0%nat = Some g0 -> cg_identity g = cg_identity g0) /\
    (forall j g', (i < j)%nat -> cv_generations view !! j = Some g' ->
       phase_byte (cg_phase g) < phase_byte (cg_phase g')).
Proof.
  intros Hfit Hs. destruct (scan_sound _ _ _ _ Hfit Hs) as [(Hc & _) _]. split.
  - by eapply chain_length.
  - by eapply chain_phases.
Qed.

(** C12: append then scan.  If the candidate search over the extended capsule is
    unambiguous, an accepted append is read back: the scan of the new capsule
    returns the old generations followed by exactly the appended one, with both
    header copies intact. *)
Theorem append_then_scan capsule identity phase payload limits capsule' cs :
  len capsule' <= isize_max -> identity_wf identity ->
  append_generation capsule identity phase payload limits = Ok capsule' ->
  unambiguous capsule' limits cs ->
  exists view link,
    scan_capsule capsule limits = Ok view /\
    scan_capsule capsule' limits =
      Ok (mkCapsuleView
            (cv_generations view ++ [new_generation (len capsule) link identity phase payload])
            (len capsule')).
Proof.
  intros Hfit Hid Ha Hu.
  assert (Hle : len capsule <= len capsule').
  { unfold append_generation in Ha. inv_ok. rewrite len_app. lia. }
  assert (Hfit' : len capsule <= isize_max) by lia.
  destruct (append_chain _ _ _ _ _ _ [] Hfit' Hid Ha)
    as (view & link & Hv & _ & _ & Hc & Hn & Hmax & Hlim & _).
  rewrite app_nil_r in Hc. exists view, link. split; [done |].
  apply (scan_of_chain false _ _ cs); try done. rewrite len_app, len_cons, len_nil. lia.
Qed.

Lemma torn_tail_recoverable capsule identity phase payload limits view link k :
  len capsule + len (record_of (new_generation (len capsule) link identity phase payload))
    <= isize_max ->
  header_wf (header_of (new_generation (len capsule) link identity phase payload)) ->
  linked (view_newest view) (new_generation (len capsule) link identity phase payload) ->
  len payload <= cl_max_generation_bytes limits ->
  (0 < k < length (record_of (new_generation (len capsule) link identity phase payload)))%nat ->
  is_recoverable_torn_tail
    (capsule ++ take k (record_of (new_generation (len capsule) link identity phase payload)))
    (len capsule) (cv_generations view) limits = Ok true.
Proof.
  set (g := new_generation (len capsule) link identity phase payload).
  intros Hfit Hwf Hlink Hp Hk. pose proof isize_lt_u64.
  assert (Hlen : len (capsule ++ take k (record_of g)) = len capsule + N.of_nat k).
  { rewrite len_app. unfold len at 2. rewrite length_take. lia. }
  pose proof (len_encode_header _ Hwf) as Hle.
  assert (Hrec : len (record_of g) = record_len (len payload)).
  { unfold record_of, record_len. rewrite !len_app, Hle. simpl. lia. }
  assert (Hk' : N.of_nat k < record_len (len payload)) by (unfold len in Hrec at 1; lia).
  unfold is_recoverable_torn_tail. rewrite Hlen. ok_step.
  replace (len capsule + N.of_nat k - len capsule) with (N.of_nat k) by lia.
  rewrite (proj2 (N.eqb_neq _ _)) by lia.
  destruct (N.ltb_spec (N.of_nat k) HEADER_BYTES) as [|Hge]; [done |].
  unfold record_len in *. ok_step. ok_step.
  assert (Hs : subslice (len capsule) (len capsule + HEADER_BYTES)
    (capsule ++ take k (record_of g)) = encode_header (header_of g)).
  { unfold record_of. rewrite take_app_ge by (unfold len in Hle; lia).
    apply subslice_middle; [done | lia]. }
  rewrite Hs. eapply bind_step; [by apply decode_encode_header |]. cbv beta.
  simpl hd_payload_len. ok_step. ok_step. ok_step.
  { rewrite checked_add_in by lia. simpl. rewrite checked_add_in by lia. simpl.
    apply checked_add_in. lia. }
  rewrite (proj2 (N.leb_gt _ _)) by lia.
  eapply bind_step; [|reflexivity]. apply (proj2 (validate_chain_Ok _ _ tt)).
  unfold linked, view_newest in Hlink. simpl. by destruct (last (cv_generations view)).
Qed.

Lemma recover_torn capsule identity phase payload limits capsule' k cs :
  len capsule' <= isize_max -> identity_wf identity ->
  append_generation capsule identity phase payload limits = Ok capsule' ->
  (length capsule < k < length capsule')%nat ->
  unambiguous (take k capsule') limits cs ->
  (forall c, c ∈ cs -> cd_start c <> len capsule) ->
  scan_capsule capsule limits = recover_capsule (take k capsule') limits.
Proof.
  intros Hfit Hid Ha Hk [Hf Hco] Hno.
  assert (Hle : len capsule <= len capsule').
  { unfold append_generation in Ha. inv_ok. rewrite len_app. lia. }
  assert (Hfit' : len capsule <= isize_max) by lia.
  destruct (append_chain _ _ _ _ _ _ [] Hfit' Hid Ha)
    as (view & link & Hv & Hc & Hl & _ & Hn & Hmax & Hlim & Hp & Hwf & Heq).
  set (g := new_generation (len capsule) link identity phase payload) in *.
  set (torn := take k capsule') in *.
  assert (Htorn : torn = capsule ++ take (k - length capsule) (record_of g)).
  { unfold torn. rewrite Heq, take_app_ge by lia. done. }
  assert (Hlt : len capsule < len torn).
  { rewrite Htorn, len_app. unfold len. rewrite length_take. subst capsule'.
    rewrite length_app in Hk. lia. }
  assert (Hle' : len torn <= len capsule') by (unfold torn, len; rewrite length_take; lia).
  rewrite Hv. symmetry. unfold recover_capsule, scan_capsule_impl.
  eapply bind_step; [exact Hlim | cbv beta]. ok_step.
  destruct (is_empty torn) eqn:He; [destruct torn; [unfold len in Hlt; simpl in Hlt; lia | done] |].
  eapply bind_step; [exact Hf | cbv beta].
  destruct (merge_complete cs ∅ [] indexes_empty) as [m Hmerge]; [done |].
  eapply bind_step; [exact Hmerge | cbv beta].
  pose proof (merge_Ok _ _ Hmerge) as [Hi _].
  pose proof Hf as Hf'. unfold find_candidates in Hf'.
  apply find_fold_Ok in Hf' as (Hall & _ & _); [|lia | constructor].
  assert (Hm := merge_flags torn limits cs ∅ m Hall).
  pose proof (chained_count _ _ _ _ _ _ Hc) as Hcnt.
  destruct (scan_sound capsule limits false view Hfit' Hv) as [(_ & _ & Hng & _) Hfull].
  replace (S (length torn)) with (length (cv_generations view) +
    S (length torn - length (cv_generations view)))%nat by (unfold len in *; lia).
  eapply (bind_step _ _ (cv_generations view, len capsule)).
  - rewrite (scan_loop_replay torn limits true m cs _ None 0 (len capsule) []); try done; [| lia | |].
    + cbn [scan_loop app]. rewrite (proj2 (N.ltb_lt _ _) Hlt). ok_step.
      assert (Hnone : m !! len capsule = None).
      { destruct (m !! len capsule) as [c|] eqn:Hmc; [|done].
        destruct Hi as [Hi1 _]. apply Hi1 in Hmc as (_ & c' & Hin & Hs & _).
        by apply Hno in Hin. }
      rewrite Hnone. apply (bind_step _ _ true); [|reflexivity].
      rewrite Htorn. apply torn_tail_recoverable; try done; fold g.
      * subst capsule'. rewrite len_app in Hfit. done.
      * subst capsule'. rewrite length_app in Hk. lia.
    + apply Hm; [|done]. intros s c. by rewrite lookup_empty.
    + rewrite Htorn. by apply chained_app.
  - simpl. f_equal. destruct view as [gs v]. simpl in *. by rewrite (Hfull eq_refl).
Qed.

(** *** Searching a prefix *)
Lemma header_at_app bytes ext start h :
  header_at bytes start h -> header_at (bytes ++ ext) start h.
Proof.
  intros (Hl & Hd1 & Hd2 & Hor). unfold record_len in Hl. unfold header_at.
  rewrite !slot_app by lia. split_and!; try done. unfold record_len. rewrite len_app. lia.
Qed.

Lemma find_at_prefix bytes ext limits cs cs' p r :
  len (bytes ++ ext) <= isize_max -> p + len MAGIC <= len bytes ->
  find_at (bytes ++ ext) limits cs p = Ok r -> exists r', find_at bytes limits cs' p = Ok r'.
Proof.
  intros Hfit Hp Hf. pose proof isize_lt_u64. rewrite len_app in Hfit. unfold find_at in *.
  assert (Ha : @add_u64 CapsuleError p (len MAGIC) = Ok (p + len MAGIC)) by (apply add_u64_Ok; lia).
  assert (Hi : forall b : list byte, p + len MAGIC <= len b ->
    @index_range CapsuleError _ p (p + len MAGIC) b = Ok (subslice p (p + len MAGIC) b))
    by (intros b Hb; apply index_range_Ok; split_and!; [lia | done | done]).
  rewrite Ha in *. cbn [mbind outcome_bind] in *.
  rewrite Hi in Hf by (rewrite ?len_app; lia). rewrite Hi by lia.
  cbn [mbind outcome_bind] in *. rewrite subslice_app_low in Hf by lia.
  destruct (negb _); [by eexists |].
  destruct (get_range p (saturating_add p HEADER_BYTES) bytes) as [hb|] eqn:Hg; [|by eexists].
  apply get_slot in Hg as [Hl ->]; [|lia].
  rewrite (proj2 (get_slot (bytes ++ ext) p (slot bytes p) ltac:(rewrite len_app; lia))) in Hf
    by (rewrite slot_app, len_app by lia; split; [lia | done]).
  destruct (decoded (slot bytes p)) as [h|]; [|by eexists].
  apply bind_Ok in Hf as (n & Hn & Hf). rewrite Hn. cbn [mbind outcome_bind].
  destruct (_ <? _); [by eexists |]. apply bind_Ok in Hf as (primary & Hprim & _).
  unfold candidate_as_primary in *. apply bind_Ok in Hprim as (trailing & Ht & _). rewrite Ht.
  cbn [mbind outcome_bind]. destruct (get_range trailing _ bytes); [|by eexists].
  destruct (differs _ _); by eexists.
Qed.

Lemma find_prefix bytes ext limits cs :
  len (bytes ++ ext) <= isize_max -> len MAGIC <= len bytes ->
  find_candidates (bytes ++ ext) limits = Ok cs ->
  exists cs', find_candidates bytes limits = Ok cs'.
Proof.
  intros Hfit Hl Hf. unfold find_candidates in *.
  assert (Hps : exists more, positions (bytes ++ ext) = positions bytes ++ more).
  { unfold positions, saturating_sub. rewrite len_app. eexists (N.of_nat <$> seq _ _).
    rewrite <- fmap_app. f_equal.
    replace (S (N.to_nat (len bytes + len ext - len MAGIC))) with
      (S (N.to_nat (len bytes - len MAGIC)) + N.to_nat (len ext))%nat by lia.
    apply seq_app. }
  destruct Hps as [more Hps]. rewrite Hps, try_fold_app in Hf. apply bind_Ok in Hf as (r & Hf & _).
  assert (Hin : Forall (fun p => p + len MAGIC <= len bytes) (positions bytes)).
  { apply Forall_forall. intros p Hp. apply elem_positions in Hp. lia. }
  clear Hps. revert Hin Hf. generalize (positions bytes) as ps. generalize (@nil Candidate) at 2 as cs'.
  generalize (@nil Candidate) as cs0. intros cs0 cs' ps. revert cs0 cs'.
  induction ps as [|p ps IH]; intros cs0 cs' Hin Hf; [by eexists |].
  apply Forall_cons in Hin as [Hp Hin]. cbn [try_fold] in *. apply bind_Ok in Hf as (cs1 & H1 & Hf).
  destruct (find_at_prefix _ _ _ _ cs' _ _ Hfit Hp H1) as [cs1' ->]. cbn [mbind outcome_bind].
  by apply (IH cs1).
Qed.

(** What the search finds in a prefix, it finds in the whole. *)
Lemma unambiguous_prefix bytes ext limits cs :
  len (bytes ++ ext) <= isize_max -> len MAGIC <= len bytes -> unambiguous (bytes ++ ext) limits cs ->
  exists cs', unambiguous bytes limits cs' /\
    forall c, c ∈ cs' -> header_at bytes (cd_start c) (cd_header c) /\
      exists c', c' ∈ cs /\ cd_start c' = cd_start c /\ cd_header c' = cd_header c.
Proof.
  intros Hfit Hl [Hf Hc]. destruct (find_prefix _ _ _ _ Hfit Hl Hf) as [cs' Hf'].
  pose proof Hf' as Hall. unfold find_candidates in Hall.
  apply find_fold_Ok in Hall as (Hall & _ & _); [|rewrite len_app in Hfit; lia | constructor].
  assert (Hsub : forall c, c ∈ cs' -> header_at bytes (cd_start c) (cd_header c) /\
    exists c', c' ∈ cs /\ cd_start c' = cd_start c /\ cd_header c' = cd_header c).
  { intros c Hin. rewrite Forall_forall in Hall. destruct (Hall c Hin) as (Hat & Hmax & _).
    split; [done |]. by apply (find_candidates_complete (bytes ++ ext) limits); [| | apply header_at_app |]. }
  exists cs'. split; [|done]. split; [done |]. intros c1 c2 H1 H2 Hs.
  destruct (Hsub c1 H1) as (_ & c1' & H1' & Hs1 & <-), (Hsub c2 H2) as (_ & c2' & H2' & Hs2 & <-).
  apply Hc; congruence || done.
Qed.

Lemma recover_torn_readable capsule identity phase payload limits capsule' k cs :
  len capsule' <= isize_max -> identity_wf identity ->
  append_generation capsule identity phase payload limits = Ok capsule' ->
  unambiguous capsule' limits cs ->
  (length capsule < k < length capsule')%nat -> (8 <= k)%nat ->
  recover_capsule (take k capsule') limits = scan_capsule capsule limits.
Proof.
  intros Hfit Hid Ha Hu Hk H8. pose proof Hu as [Hf Hc].
  assert (Hcat : capsule' = take k capsule' ++ drop k capsule') by (by rewrite take_drop).
  assert (Hlk : len (take k capsule') = N.of_nat k) by (unfold len; rewrite length_take; lia).
  assert (Hm : len MAGIC <= len (take k capsule')) by (rewrite Hlk; change (len MAGIC) with 8; lia).
  rewrite Hcat in Hfit, Hu. destruct (unambiguous_prefix _ _ _ _ Hfit Hm Hu) as (cs' & Hu' & Hsub).
  rewrite <- Hcat in Hfit. symmetry. apply (recover_torn _ identity phase payload _ _ _ cs'); try done.
  intros c Hin Hs. destruct (Hsub c Hin) as ((Hend & _) & c' & Hin' & Hs' & Hh').
  assert (Hle : len capsule <= len capsule').
  { unfold append_generation in Ha. inv_ok. rewrite len_app. lia. }
  pose proof Ha as Ha'. apply append_Ok in Ha' as (view & link & _ & _ & _ & _ & Hmax & _ & Hwf & Heq);
    [|lia | done].
  set (g := new_generation (len capsule) link identity phase payload) in *.
  destruct (new_generation_at capsule limits link identity phase payload [] Hmax Hwf) as (_ & Hat & Hp & _).
  rewrite app_nil_r in Hat. fold g in Hat, Hp. rewrite <- Heq in Hat.
  destruct (find_candidates_complete capsule' limits cs (len capsule) (header_of g) Hfit Hf Hat Hp)
    as (c2 & Hin2 & Hs2 & Hh2).
  assert (Hh : cd_header c = header_of g).
  { rewrite <- Hh', <- Hh2. apply Hc; [done | done | congruence]. }
  rewrite Hh, Hs, Hlk in Hend. apply (f_equal len) in Heq. unfold record_of in Heq.
  rewrite !len_app, !len_encode_header in Heq by done. unfold record_len in Hend.
  cbn [header_of hd_payload_len] in Hend. unfold len in *. lia.
Qed.

(** C14: crash recovery of an append.  If a crash leaves only a proper part of
    the appended record, of the first append at least eight bytes, torn-tail
    recovery returns exactly the view from before the append, with the truncation
    point at its end.  The search of the complete capsule must be unambiguous, so
    that the append could have been read back had it completed: no start is
    claimed by two different headers.  Both conditions can fail: fewer than eight
    bytes make the search abort, and payloads can be chosen that make two headers
    claim one start ([shadow_start_is_ambiguous]). *)
Theorem recover_torn_append capsule identity phase payload limits capsule' k cs :
  len capsule' <= isize_max -> identity_wf identity ->
  append_generation capsule identity phase payload limits = Ok capsule' ->
  unambiguous capsule' limits cs ->
  (length capsule < k < length capsule')%nat -> (8 <= k)%nat ->
  recover_capsule (take k capsule') limits = scan_capsule capsule limits.
Proof. exact (recover_torn_readable capsule identity phase payload limits capsule' k cs). Qed.
End Contracts.

(** ** Where the scanner fails *)
Section Failures.
Context `{Digests}.
Implicit Types bytes : list byte.

Lemma decode_header_safe b : decode_header b <> Panic.
Proof. unfold decode_header. safe. Qed.

Lemma candidate_as_primary_safe bytes p h l : candidate_as_primary bytes p h l <> Panic.
Proof.
  unfold candidate_as_primary. safe. destruct (get_range _ _ _) as [t|]; [|safe].
  destruct (differs _ _); safe.
Qed.

Lemma find_at_safe bytes limits cs p :
  p + len MAGIC <= len bytes -> len bytes <= isize_max -> find_at bytes limits cs p <> Panic.
Proof.
  intros Hp Hfit. pose proof isize_lt_u64. unfold find_at. safe.
  - apply add_u64_safe. lia.
  - inv_ok. apply index_range_safe; lia.
  - destruct (get_range _ _ _) as [hb|]; [|safe]. destruct (decoded hb) as [h|]; safe.
    apply candidate_as_primary_safe.
Qed.

Lemma find_candidates_safe bytes limits :
  len MAGIC <= len bytes -> len bytes <= isize_max -> find_candidates bytes limits <> Panic.
Proof.
  intros Hl Hfit. unfold find_candidates. apply try_fold_safe. intros cs p Hp.
  apply elem_positions in Hp. apply find_at_safe; lia.
Qed.

Lemma find_candidates_short bytes limits :
  0 < len bytes -> len bytes < len MAGIC -> find_candidates bytes limits = Panic.
Proof.
  intros H0 Hl. unfold find_candidates, positions, saturating_sub.
  replace (len bytes - len MAGIC) with 0 by lia.
  change (N.of_nat <$> seq 0 (S (N.to_nat 0))) with [0]. cbn [try_fold].
  assert (Hp : find_at bytes limits [] 0 = Panic).
  { unfold find_at. change (len MAGIC) with 8 in Hl.
    change (add_u64 0 (len MAGIC)) with (@Ok CapsuleError N 8). cbn [mbind outcome_bind].
    unfold index_range, get_range. rewrite (proj2 (N.leb_gt 8 (len bytes))) by lia.
    by rewrite andb_false_r. }
  by rewrite Hp.
Qed.

Lemma merge_candidate_safe m c : merge_candidate m c <> Panic.
Proof.
  unfold merge_candidate. destruct (m !! _) as [e|]; [|done]. by destruct (bool_decide _).
Qed.

Lemma merge_error cs : forall m,
  (exists m', try_fold merge_candidate m cs = Ok m') \/
  (exists o, try_fold merge_candidate m cs = Err (AmbiguousGeneration o)).
Proof.
  induction cs as [|c cs IH]; intros m; simpl; [left; by eexists |].
  unfold merge_candidate at 2 4. destruct (m !! cd_start c) as [e|]; simpl.
  - destruct (bool_decide _); simpl; [apply IH | right; by eexists].
  - apply IH.
Qed.

Lemma validate_chain_safe gs c : validate_chain gs c <> Panic.
Proof. unfold validate_chain. destruct (last gs); safe. Qed.

Lemma torn_tail_safe bytes offset gs limits :
  len bytes <= isize_max -> is_recoverable_torn_tail bytes offset gs limits <> Panic.
Proof.
  intros Hfit. pose proof isize_lt_u64. unfold is_recoverable_torn_tail. safe.
  - inv_ok. bool_props. apply add_u64_safe. unfold HEADER_BYTES in *. lia.
  - inv_ok. bool_props. apply index_range_safe; unfold HEADER_BYTES in *; lia.
  - apply decode_header_safe.
  - apply validate_chain_safe.
Qed.

Lemma scan_one_safe bytes gs offset c : scan_one bytes gs offset c <> Panic.
Proof.
  unfold scan_one. safe.
  - inv_ok. bool_props. apply index_range_safe; lia.
  - apply validate_chain_safe.
Qed.

Lemma scan_one_advances bytes gs offset c r :
  scan_one bytes gs offset c = Ok r -> offset < r.2.
Proof. unfold scan_one. intros Hr. inv_ok. simpl. unfold HEADER_BYTES. lia. Qed.

Lemma scan_loop_safe fuel : forall bytes limits allow m gs offset,
  len bytes <= isize_max -> (N.to_nat (len bytes - offset) < fuel)%nat ->
  scan_loop fuel bytes limits allow m gs offset <> Panic.
Proof.
  induction fuel as [|fuel IH]; intros bytes limits allow m gs offset Hfit Hfuel; [lia |].
  cbn [scan_loop]. destruct (N.ltb_spec offset (len bytes)) as [Hlt|]; [|done].
  apply bind_safe; [apply refuse_if_safe | intros _ _].
  destruct (m !! offset) as [c|].
  - apply bind_safe; [apply scan_one_safe |]. intros r Hr.
    apply scan_one_advances in Hr. apply IH; [done | lia].
  - apply bind_safe; [destruct allow; [by apply torn_tail_safe | done] |].
    intros torn _. by destruct torn.
Qed.

(** the scanner is total except on one input shape.  For a capsule no longer
    than an allocation can be, the scan and the torn-tail recovery abort (an
    out-of-range slice in the candidate search) exactly when the limits are
    valid and the buffer is not empty but shorter than the eight-byte magic; on
    every other input the scan loop terminates with a view or an error. *)
Theorem scan_panics_iff_short bytes limits allow_torn_tail :
  len bytes <= isize_max ->
  scan_capsule_impl bytes limits allow_torn_tail = Panic <->
  validate_limits limits = Ok tt /\ len bytes <= cl_max_capsule_bytes limits /\
  0 < len bytes < len MAGIC.
Proof.
  intros Hfit. unfold scan_capsule_impl. split.
  - assert (Hstep : forall {A B} (m : outcome CapsuleError A) (f : A -> outcome CapsuleError B),
      m ≫= f = Panic -> m <> Panic -> exists a, m = Ok a /\ f a = Panic)
      by (intros A B [a|e|] f Hf Hm; simpl in Hf; [by exists a | done | done]).
    intros (u & Hlim & Hp)%Hstep; [destruct u | apply for_each_safe; intros; apply refuse_if_safe].
    apply Hstep in Hp as (u & Hmax & Hp); [|apply refuse_if_safe].
    apply refuse_if_Ok in Hmax. bool_props. split; [done |]. split; [done |].
    destruct (is_empty bytes) eqn:He; [done |].
    assert (H0 : 0 < len bytes) by (destruct bytes; [done | rewrite len_cons; lia]).
    split; [done |].
    destruct (N.lt_ge_cases (len bytes) (len MAGIC)) as [|Hge]; [done | exfalso].
    revert Hp. apply bind_safe; [by apply find_candidates_safe |]. intros cs _.
    apply bind_safe; [apply try_fold_safe; intros; apply merge_candidate_safe |]. intros m _.
    apply bind_safe; [apply scan_loop_safe; [done | unfold len; lia] |]. intros r _.
    apply bind_safe; [apply refuse_if_safe | done].
  - intros (Hlim & Hmax & H0 & Hl). rewrite Hlim. cbn [mbind outcome_bind].
    rewrite (proj2 (N.ltb_ge _ _) Hmax). cbn [refuse_if mbind outcome_bind].
    destruct (is_empty bytes) eqn:He; [destruct bytes; [unfold len in H0; simpl in H0; lia | done] |].
    by rewrite find_candidates_short.
Qed.

(** shadow starts.  If two generations of a capsule with different headers
    have the same distance arithmetic (own offset minus header minus payload
    length gives the same position, where no header stands), the scan of that
    capsule fails as ambiguous although every generation in it is intact. *)
Theorem shadow_start_is_ambiguous bytes limits allow_torn_tail cs g1 g2 s :
  len bytes <= isize_max -> validate_limits limits = Ok tt ->
  len bytes <= cl_max_capsule_bytes limits ->
  find_candidates bytes limits = Ok cs ->
  generation_at bytes limits (cg_offset g1) g1 -> cg_primary_header_valid g1 = true ->
  generation_at bytes limits (cg_offset g2) g2 -> cg_primary_header_valid g2 = true ->
  header_of g1 <> header_of g2 ->
  cg_offset g1 = s + HEADER_BYTES + len (cg_payload g1) ->
  cg_offset g2 = s + HEADER_BYTES + len (cg_payload g2) ->
  decoded (slot bytes s) = None ->
  exists o, scan_capsule_impl bytes limits allow_torn_tail = Err (AmbiguousGeneration o).
Proof.
  intros Hfit Hlim Hmax Hf Hg1 Hv1 Hg2 Hv2 Hne Ho1 Ho2 Hd.
  assert (Hc : forall g, generation_at bytes limits (cg_offset g) g ->
    cg_primary_header_valid g = true -> cg_offset g = s + HEADER_BYTES + len (cg_payload g) ->
    exists c, c ∈ cs /\ cd_start c = s /\ cd_header c = header_of g).
  { intros g (_ & (Hl & _) & Hp & _ & _ & Hpv & _) Hv Ho. rewrite Hpv in Hv. bool_props.
    unfold record_len in Hl. apply (find_candidates_complete bytes limits); try done.
    unfold header_at. change (hd_payload_len (header_of g)) with (len (cg_payload g)) in *.
    rewrite <- Ho, Hd, Hv. split_and!; [unfold record_len; lia | done | | by right].
    apply differs_false. by right. }
  destruct (Hc g1 Hg1 Hv1 Ho1) as (c1 & Hin1 & Hs1 & Hh1).
  destruct (Hc g2 Hg2 Hv2 Ho2) as (c2 & Hin2 & Hs2 & Hh2).
  destruct (merge_error cs ∅) as [[m Hm]|[o Hm]].
  - exfalso. apply merge_Ok in Hm as [_ Hco]. apply Hne. rewrite <- Hh1, <- Hh2.
    apply Hco; congruence.
  - exists o. unfold scan_capsule_impl.
    eapply bind_step; [exact Hlim | cbv beta]. ok_step.
    destruct (is_empty bytes) eqn:He.
    + destruct bytes; [|done]. destruct Hg1 as (_ & (Hl & _) & _).
      unfold record_len, HEADER_BYTES in Hl. unfold len in Hl at 1. simpl in Hl. lia.
    + eapply bind_step; [exact Hf | cbv beta]. by rewrite Hm.
Qed.
End Failures.

(** ** Witnesses *)
Section Witnesses.
#[local] Existing Instance rolling_digests.

Definition sample_identity : CapsuleIdentity :=
  mkCapsuleIdentity (replicate 16 x05) (replicate 32 x06).
Definition sample_capsule_limits : CapsuleLimits := mkCapsuleLimits 4096 2048 16.
Definition result {A} (d : A) (m : outcome CapsuleError A) : A :=
  match m with Ok a => a | _ => d end.
Definition sample_capsule_1 : list byte :=
  Eval vm_compute in
    result [] (append_generation [] sample_identity Discovered [x41] sample_capsule_limits).
Definition sample_capsule_2 : list byte :=
  Eval vm_compute in
    result [] (append_generation sample_capsule_1 sample_identity Reserved [x42]
                 sample_capsule_limits).
Definition sample_capsule_3 : list byte :=
  Eval vm_compute in
    result [] (append_generation sample_capsule_2 sample_identity Relocating (replicate 274 x43)
                 sample_capsule_limits).
Definition sample_header : Header :=
  mkHeader 1 Reserved 4 (Some 0) sample_identity (replicate 32 x09).

Lemma append_1_2 :
  append_generation [] sample_identity Discovered [x41] sample_capsule_limits
    = Ok sample_capsule_1 /\
  append_generation sample_capsule_1 sample_identity Reserved [x42] sample_capsule_limits
    = Ok sample_capsule_2 /\
  append_generation sample_capsule_2 sample_identity Relocating (replicate 274 x43)
    sample_capsule_limits = Ok sample_capsule_3.
Proof. split_and!; vm_compute; reflexivity. Qed.

Lemma sample_fits : len sample_capsule_1 <= isize_max /\ len sample_capsule_2 <= isize_max /\
  len sample_capsule_3 <= isize_max.
Proof. vm_compute. split_and!; discriminate. Qed.
Lemma sample_identity_wf : identity_wf sample_identity.
Proof. by split. Qed.

Definition sample_candidates (b : list byte) : list Candidate :=
  result [] (find_candidates b sample_capsule_limits).

(** Compatibility of a concrete candidate list is decided by evaluation. *)
Definition compatibleb (cs : list Candidate) : bool :=
  forallb (fun c1 => forallb (fun c2 =>
    negb (cd_start c1 =? cd_start c2) || bool_decide (cd_header c1 = cd_header c2)) cs) cs.
Lemma compatibleb_ok cs : compatibleb cs = true -> compatible cs.
Proof.
  unfold compatibleb. rewrite forallb_forall. intros Hall c1 c2 H1 H2 Hs.
  apply list_elem_of_In in H1, H2. specialize (Hall _ H1). rewrite forallb_forall in Hall.
  specialize (Hall _ H2). rewrite Hs, N.eqb_refl in Hall. simpl in Hall. by bool_props.
Qed.
Lemma sample_unambiguous :
  unambiguous sample_capsule_2 sample_capsule_limits (sample_candidates sample_capsule_2) /\
  unambiguous sample_capsule_1 sample_capsule_limits (sample_candidates sample_capsule_1).
Proof.
  split; split.
  - vm_compute. reflexivity.
  - apply compatibleb_ok. vm_compute. reflexivity.
  - vm_compute. reflexivity.
  - apply compatibleb_ok. vm_compute. reflexivity.
Qed.

Lemma sample_header_wf : header_wf sample_header.
Proof.
  split; [by vm_compute | by vm_compute | intros p [= <-]; by vm_compute | reflexivity
    | reflexivity | reflexivity].
Qed.

Lemma header_codec_roundtrip_witness :
  decode_header (encode_header sample_header) = Ok sample_header.
Proof.
  refine (proj2 (header_codec_roundtrip _ _) (conj sample_header_wf eq_refl)).
Defined.

Definition sample_view_2 : CapsuleView :=
  Eval vm_compute in
    result (mkCapsuleView [] 0) (scan_capsule sample_capsule_2 sample_capsule_limits).

Lemma scan_capsule_sound_witness :
  scan_capsule sample_capsule_2 sample_capsule_limits = Ok sample_view_2 /\
  view_of sample_capsule_2 sample_capsule_limits sample_view_2 /\
  cv_validated_bytes sample_view_2 = len sample_capsule_2.
Proof.
  assert (Hs : scan_capsule_impl sample_capsule_2 sample_capsule_limits false = Ok sample_view_2)
    by (vm_compute; reflexivity).
  split; [exact Hs |].
  destruct (scan_capsule_sound _ _ _ _ (proj1 (proj2 sample_fits)) Hs) as [Hv Hf].
  exact (conj Hv (Hf eq_refl)).
Defined.

Lemma scanned_phases_advance_witness :
  (length (cv_generations sample_view_2) = 2)%nat /\
  forall g, cv_generations sample_view_2 !! 1%nat = Some g -> phase_at g 1.
Proof.
  assert (Hs : scan_capsule_impl sample_capsule_2 sample_capsule_limits false = Ok sample_view_2)
    by (vm_compute; reflexivity).
  split; [reflexivity |]. intros g Hg.
  exact (proj1 (proj2 (scanned_phases_advance _ _ _ _ (proj1 (proj2 sample_fits)) Hs) 1%nat g Hg)).
Defined.

Lemma append_then_scan_witness :
  exists view link,
    scan_capsule sample_capsule_1 sample_capsule_limits = Ok view /\
    scan_capsule sample_capsule_2 sample_capsule_limits =
      Ok (mkCapsuleView (cv_generations view ++
            [new_generation (len sample_capsule_1) link sample_identity Reserved [x42]])
            (len sample_capsule_2)).
Proof.
  exact (append_then_scan _ _ _ _ _ _ _ (proj1 (proj2 sample_fits)) sample_identity_wf
    (proj1 (proj2 append_1_2)) (proj1 sample_unambiguous)).
Defined.

Lemma recover_torn_append_witness :
  recover_capsule (take 400 sample_capsule_2) sample_capsule_limits =
    scan_capsule sample_capsule_1 sample_capsule_limits /\
  recover_capsule (take 8 sample_capsule_1) sample_capsule_limits =
    scan_capsule [] sample_capsule_limits.
Proof.
  split.
  - apply (recover_torn_append sample_capsule_1 sample_identity Reserved [x42]
      sample_capsule_limits sample_capsule_2 400 (sample_candidates sample_capsule_2)
      (proj1 (proj2 sample_fits)) sample_identity_wf (proj1 (proj2 append_1_2))
      (proj1 sample_unambiguous)); vm_compute; lia.
  - apply (recover_torn_append [] sample_identity Discovered [x41]
      sample_capsule_limits sample_capsule_1 8 (sample_candidates sample_capsule_1)
      (proj1 sample_fits) sample_identity_wf (proj1 append_1_2)
      (proj2 sample_unambiguous)); vm_compute; lia.
Defined.

Lemma scan_panics_iff_short_witness :
  scan_capsule [x53; x54] sample_capsule_limits = Panic.
Proof.
  apply (proj2 (scan_panics_iff_short [x53; x54] sample_capsule_limits false
    ltac:(vm_compute; discriminate))).
  vm_compute. repeat split; discriminate.
Defined.

(** Three accepted appends with payloads of 1, 1 and 274 bytes make a capsule
    that can no longer be read. *)
Definition shadow_1 : CapsuleGeneration :=
  new_generation 273 (1, Some 0) sample_identity Reserved [x42].
Definition shadow_2 : CapsuleGeneration :=
  new_generation 546 (2, Some 273) sample_identity Relocating (replicate 274 x43).
Lemma shadow_generations :
  generation_at sample_capsule_3 sample_capsule_limits 273 shadow_1 /\
  generation_at sample_capsule_3 sample_capsule_limits 546 shadow_2.
Proof.
  split; unfold generation_at, header_at; split_and!; try (vm_compute; reflexivity);
    try (vm_compute; discriminate); left; vm_compute; reflexivity.
Qed.
Lemma shadow_start_is_ambiguous_witness :
  append_generation sample_capsule_2 sample_identity Relocating (replicate 274 x43)
    sample_capsule_limits = Ok sample_capsule_3 /\
  exists o, scan_capsule_impl sample_capsule_3 sample_capsule_limits false =
    Err (AmbiguousGeneration o).
Proof.
  split; [exact (proj2 (proj2 append_1_2)) |].
  apply (shadow_start_is_ambiguous sample_capsule_3 sample_capsule_limits false
    (sample_candidates sample_capsule_3) shadow_1 shadow_2 136 (proj2 (proj2 sample_fits))).
  - reflexivity.
  - vm_compute. discriminate.
  - vm_compute. reflexivity.
  - exact (proj1 shadow_generations).
  - reflexivity.
  - exact (proj2 shadow_generations).
  - reflexivity.
  - vm_compute. discriminate.
  - reflexivity.
  - vm_compute. reflexivity.
  - vm_compute. reflexivity.
Defined.
End Witnesses.
