(* ===== verification/SourceView.v ===== *)
(** * Source views ([source_view.rs])

    While a conversion is staged the source filesystem stays active on an image
    whose planned ranges may already be overwritten. [VirtualOriginalReader]
    shows the original bytes through the prepared before-images, and
    [digest_source_view] hashes a view in bounded chunks.

    The theorems: the virtual original serves exactly the original image as long
    as the current image differs from it inside the masked ranges only, whatever
    these ranges hold; the digest of a view depends on its bytes only and not on
    the chunk size or the bounds of the reader, so the digest of the virtual
    original is the digest of the original. *)

From S2P Require Import Prelude Bytes Image Overlay Preimage Digest.
From stdpp Require Import options.
#[local] Open Scope N_scope.

(** ["starconverter/source-image-view/v1\0"]. *)
Definition SOURCE_VIEW_DOMAIN : list byte := ascii_bytes "starconverter/source-image-view/v1" ++ [x00].

Record SourceDigestLimits : Type := mkSourceDigestLimits {
  sd_max_image_bytes : N;
  sd_chunk_bytes : N
}.
Record VirtualOriginalLimits : Type := mkVirtualOriginalLimits {
  vo_max_writes : N;
  vo_max_masked_bytes : N
}.

Inductive SourceViewError : Type :=
| InvalidLimit (field : string)
| ImageByteLimitExceeded (actual maximum : N)
| MaskWriteLimitExceeded (actual maximum : N)
| MaskedByteLimitExceeded (actual maximum : N)
| EmptyMask (offset : N)
| MaskOutsideImage (offset length image_bytes : N)
| OverlappingMasks (first_offset second_offset : N)
| MasksNotOrdered (previous_offset next_offset : N)
| ShortRead (offset expected actual : N)
| ArithmeticOverflow
| SourceImage (source : ImageError).

Record VirtualOriginalReader (R : Type) : Type := mkVirtualOriginalReader {
  vr_base : R;
  vr_before_images : list OverlayWrite
}.
Arguments mkVirtualOriginalReader {R}.
Arguments vr_base {R}.
Arguments vr_before_images {R}.

(** ** Construction *)
Definition validate_digest_limits (limits : SourceDigestLimits) : outcome SourceViewError unit :=
  refuse_if (sd_max_image_bytes limits =? 0) (InvalidLimit "max_image_bytes") ;;
  refuse_if (sd_chunk_bytes limits =? 0) (InvalidLimit "chunk_bytes").
Definition validate_virtual_limits (limits : VirtualOriginalLimits) : outcome SourceViewError unit :=
  refuse_if (vo_max_writes limits =? 0) (InvalidLimit "max_writes") ;;
  refuse_if (vo_max_masked_bytes limits =? 0) (InvalidLimit "max_masked_bytes").

Definition validate_mask_range (image_bytes : N) (write : OverlayWrite) : outcome SourceViewError unit :=
  refuse_if (is_empty (ow_bytes write)) (EmptyMask (ow_offset write)) ;;
  length ← ok_or ArithmeticOverflow (u64_try_from (len (ow_bytes write)));
  end_ ← ok_or ArithmeticOverflow (checked_add (ow_offset write) length);
  refuse_if (image_bytes <? end_) (MaskOutsideImage (ow_offset write) length image_bytes).

(** One round of the order check, for a write and its predecessor. *)
Definition validate_order (first write : OverlayWrite) : outcome SourceViewError unit :=
  refuse_if (ow_offset write <=? ow_offset first)
    (MasksNotOrdered (ow_offset first) (ow_offset write)) ;;
  first_length ← ok_or ArithmeticOverflow (u64_try_from (len (ow_bytes first)));
  first_end ← ok_or ArithmeticOverflow (checked_add (ow_offset first) first_length);
  refuse_if (ow_offset write <? first_end) (OverlappingMasks (ow_offset first) (ow_offset write)).
Definition validate_nonoverlap (writes : list OverlayWrite) : outcome SourceViewError unit :=
  for_windows2 validate_order writes.

Definition validate_rollback_ranges (image_bytes : N) (writes : list OverlayWrite)
    : outcome SourceViewError unit :=
  for_each (validate_mask_range image_bytes) writes ;;
  validate_nonoverlap writes.

Definition add_masked (masked_bytes : N) (rollback : OverlayWrite) : outcome SourceViewError N :=
  rollback_length ← ok_or ArithmeticOverflow (u64_try_from (len (ow_bytes rollback)));
  ok_or ArithmeticOverflow (checked_add masked_bytes rollback_length).

Section Operations.
Context `{BoundedImageReader R}.

Definition VirtualOriginalReader_new (base : R) (rollback_before_images : list OverlayWrite)
    (limits : VirtualOriginalLimits) : outcome SourceViewError (VirtualOriginalReader R) :=
  validate_virtual_limits limits ;;
  refuse_if (vo_max_writes limits <? len rollback_before_images)
    (MaskWriteLimitExceeded (len rollback_before_images) (vo_max_writes limits)) ;;
  validate_rollback_ranges (rd_len base) rollback_before_images ;;
  masked_bytes ← try_fold add_masked 0 rollback_before_images;
  refuse_if (default u64_max (u64_try_from (vo_max_masked_bytes limits)) <? masked_bytes)
    (MaskedByteLimitExceeded masked_bytes (vo_max_masked_bytes limits)) ;;
  Ok (mkVirtualOriginalReader base rollback_before_images).

(** The loop over the before-images: the writes are in order, so the first one
    behind the window ends it. *)
Fixpoint substitute (offset length_u64 end_ : N) (output : list byte) (before_images : list OverlayWrite)
    : outcome ImageError (list byte) :=
  match before_images with
  | [] => Ok output
  | write :: rest =>
      if end_ <=? ow_offset write then Ok output
      else
        write_length ← ok_or (Image.RangeOverflow (ow_offset write) u64_max)
          (u64_try_from (len (ow_bytes write)));
        write_end ← ok_or (Image.RangeOverflow (ow_offset write) write_length)
          (checked_add (ow_offset write) write_length);
        let intersection_start := N.max offset (ow_offset write) in
        let intersection_end := N.min end_ write_end in
        if intersection_end <=? intersection_start then substitute offset length_u64 end_ output rest
        else
          output_start ← ok_or (Image.RangeOverflow offset length_u64)
            (usize_try_from (intersection_start - offset));
          write_start ← ok_or (Image.RangeOverflow (ow_offset write) write_length)
            (usize_try_from (intersection_start - ow_offset write));
          count ← ok_or (Image.RangeOverflow offset length_u64)
            (usize_try_from (intersection_end - intersection_start));
          source ← index_range write_start (write_start + count) (ow_bytes write);
          output ← copy_from_slice output_start (output_start + count) source output;
          substitute offset length_u64 end_ output rest
  end.

Definition virtual_read_exact_at (r : VirtualOriginalReader R) (offset length : N)
    : outcome ImageError (list byte) :=
  length_u64 ← ok_or (Image.RangeOverflow offset u64_max) (u64_try_from length);
  end_ ← ok_or (Image.RangeOverflow offset length_u64) (checked_add offset length_u64);
  output ← rd_read_exact_at (vr_base r) offset length;
  refuse_if (negb (len output =? length)) (Truncated offset length (len output)) ;;
  substitute offset length_u64 end_ output (vr_before_images r).

#[export] Instance virtual_original_reader : BoundedImageReader (VirtualOriginalReader R) := {
  rd_len r := rd_len (vr_base r);
  rd_max_read_bytes r := rd_max_read_bytes (vr_base r);
  rd_read_exact_at := virtual_read_exact_at
}.

(** ** Digest

    The loop over the chunks; [hashed] is what the hasher was fed so far. Every
    round reads at least one byte, so [image_bytes + 1] rounds are enough. *)
Fixpoint digest_chunks (fuel : nat) (source : R) (image_bytes effective_chunk offset : N)
    (hashed : list byte) : outcome SourceViewError (list byte) :=
  match fuel with
  | O => Panic
  | S fuel =>
      if offset <? image_bytes then
        remaining ← sub_u64 image_bytes offset;
        count ← ok_or ArithmeticOverflow (usize_try_from (N.min remaining effective_chunk));
        bytes ← map_err SourceImage (rd_read_exact_at source offset count);
        refuse_if (negb (len bytes =? count)) (ShortRead offset count (len bytes)) ;;
        count_u64 ← ok_or ArithmeticOverflow (u64_try_from count);
        offset ← ok_or ArithmeticOverflow (checked_add offset count_u64);
        digest_chunks fuel source image_bytes effective_chunk offset (hashed ++ bytes)
      else Ok hashed
  end.

Definition digest_source_view `{Digests} (source : R) (limits : SourceDigestLimits)
    : outcome SourceViewError (list byte) :=
  validate_digest_limits limits ;;
  let image_bytes := rd_len source in
  refuse_if (sd_max_image_bytes limits <? image_bytes)
    (ImageByteLimitExceeded image_bytes (sd_max_image_bytes limits)) ;;
  let effective_chunk := N.min (sd_chunk_bytes limits) (rd_max_read_bytes source) in
  refuse_if (effective_chunk =? 0) (InvalidLimit "reader max_read_bytes") ;;
  effective_chunk_u64 ← ok_or ArithmeticOverflow (u64_try_from effective_chunk);
  hashed ← digest_chunks (S (N.to_nat image_bytes)) source image_bytes effective_chunk_u64 0
    (SOURCE_VIEW_DOMAIN ++ u64_le image_bytes);
  Ok (sha256 hashed).
End Operations.

(** ** Specification *)

(** The before-image sets a virtual original accepts. *)
Record masks_ok (image_bytes : N) (masks : list OverlayWrite) (limits : VirtualOriginalLimits) : Prop := {
  mo_limits : 0 < vo_max_writes limits /\ 0 < vo_max_masked_bytes limits;
  mo_count : len masks <= vo_max_writes limits;
  mo_fits : Forall (fun w => 0 < ow_length w /\ write_fits image_bytes w) masks;
  mo_ordered : Sorted (before ow_offset ow_length) masks;
  mo_bytes : sum_by ow_length masks <= vo_max_masked_bytes limits
}.

(** The digest of the bytes of a view. *)
Definition view_digest `{Digests} (img : list byte) : list byte :=
  sha256 (SOURCE_VIEW_DOMAIN ++ u64_le (len img) ++ img).

(** * Lemmas *)
Lemma virtual_limits_Ok l u :
  validate_virtual_limits l = Ok u <-> 0 < vo_max_writes l /\ 0 < vo_max_masked_bytes l.
Proof. unfold validate_virtual_limits. destruct u. rewrite then_Ok, !refuse_if_Ok, !N.eqb_neq. lia. Qed.

Lemma mask_range_Ok ib w u :
  ib <= u64_max ->
  validate_mask_range ib w = Ok u <-> 0 < ow_length w /\ write_fits ib w.
Proof.
  intros Hib. unfold validate_mask_range, write_fits. fold (ow_length w). destruct u.
  rewrite then_Ok, refuse_if_Ok.
  assert (He : is_empty (ow_bytes w) = false <-> 0 < ow_length w).
  { unfold ow_length, len. destruct (ow_bytes w); simpl; split; intros; lia || done. }
  rewrite He. apply and_iff_compat_l. split.
  - intros H. inv_ok. by bool_props.
  - intros Hf. ok_step. ok_step. apply refuse_if_Ok, N.ltb_ge. done.
Qed.

Lemma validate_order_Ok ib a b u :
  ib <= u64_max -> 0 < ow_length a -> write_fits ib a ->
  validate_order a b = Ok u <-> before ow_offset ow_length a b.
Proof.
  intros Hib H0 Hf. unfold validate_order, before, write_fits in *. fold (ow_length a). destruct u.
  rewrite then_Ok, refuse_if_Ok, N.leb_gt. rewrite u64_try_from_in by lia. cbn [ok_or mbind outcome_bind].
  rewrite checked_add_in by lia. cbn [ok_or mbind outcome_bind]. rewrite refuse_if_Ok, N.ltb_ge. lia.
Qed.

Lemma rollback_ranges_Ok ib ws u :
  ib <= u64_max ->
  validate_rollback_ranges ib ws = Ok u <->
  Forall (fun w => 0 < ow_length w /\ write_fits ib w) ws /\ Sorted (before ow_offset ow_length) ws.
Proof.
  intros Hib. unfold validate_rollback_ranges, validate_nonoverlap. destruct u.
  rewrite then_Ok, for_each_Ok, for_windows2_Ok.
  assert (Hf : Forall (fun w => validate_mask_range ib w = Ok tt) ws <->
    Forall (fun w => 0 < ow_length w /\ write_fits ib w) ws).
  { apply Forall_iff. intros w. by apply mask_range_Ok. }
  rewrite Hf.
  split; intros [Hw Hs]; (split; [done |]); rewrite Forall_forall in Hw; (eapply Sorted_ext; [|exact Hs]);
    intros a b Ha _; destruct (Hw a Ha); by rewrite (validate_order_Ok ib).
Qed.

Lemma add_masked_all ws acc :
  acc + sum_by ow_length ws <= u64_max ->
  try_fold add_masked acc ws = Ok (acc + sum_by ow_length ws).
Proof.
  revert acc. induction ws as [|w ws IH]; intros acc Hs; cbn [try_fold];
    [unfold sum_by; simpl; by rewrite N.add_0_r |].
  rewrite sum_by_cons in *. eapply bind_step.
  - unfold add_masked. fold (ow_length w). ok_step. apply ok_or_step, checked_add_in. lia.
  - cbv beta. rewrite IH by lia. f_equal. lia.
Qed.

Section Virtual.
Context `{BoundedImageReader R}.

Lemma virtual_new_iff (base : R) img masks limits :
  Faithful base img -> vo_max_masked_bytes limits <= u64_max ->
  VirtualOriginalReader_new base masks limits <> Panic /\
  forall r, VirtualOriginalReader_new base masks limits = Ok r <->
    masks_ok (len img) masks limits /\ r = mkVirtualOriginalReader base masks.
Proof.
  intros Hf Hm. pose proof (faithful_fits _ _ Hf) as Hfit.
  unfold VirtualOriginalReader_new. rewrite (faithful_len _ _ Hf).
  assert (Hsum : Forall (fun w => 0 < ow_length w /\ write_fits (len img) w) masks ->
    Sorted (before ow_offset ow_length) masks -> sum_by ow_length masks <= len img).
  { intros Hw Hs%adjacent_disjoint. by apply (disjoint_sum_bound ow_offset). }
  assert (Hlim : default u64_max (u64_try_from (vo_max_masked_bytes limits)) = vo_max_masked_bytes limits)
    by (by rewrite u64_try_from_in).
  rewrite Hlim. split.
  - unfold validate_virtual_limits, validate_rollback_ranges, validate_nonoverlap, validate_mask_range,
      validate_order, add_masked. safe.
  - intros r. split.
    + intros Hr. apply then_Ok in Hr as [H1 Hr]. apply then_Ok in Hr as [H2 Hr].
      apply then_Ok in Hr as [H3 Hr]. apply virtual_limits_Ok in H1.
      apply rollback_ranges_Ok in H3 as [Hw Hs]; [|done]. apply refuse_if_Ok, N.ltb_ge in H2.
      rewrite add_masked_all in Hr by (specialize (Hsum Hw Hs); lia). cbn [mbind outcome_bind] in Hr.
      apply then_Ok in Hr as [H4 [= <-]]. apply refuse_if_Ok, N.ltb_ge in H4. done.
    + intros [[Hl Hc Hw Hs Hb] ->]. rewrite then_Ok. split; [by apply virtual_limits_Ok |].
      rewrite then_Ok. split; [by apply refuse_if_Ok, N.ltb_ge |].
      rewrite then_Ok. split; [by apply rollback_ranges_Ok |].
      rewrite add_masked_all by lia. cbn [mbind outcome_bind].
      rewrite then_Ok. split; [by apply refuse_if_Ok, N.ltb_ge | done].
Qed.

(** The loop of the reader is the loop of the overlay reader, cut short when the
    rest of the writes lies behind the window. *)
Lemma substitute_Ok img off n end_ ws :
  len img <= u64_max -> off <= end_ -> end_ <= len img ->
  Forall (write_fits (len img)) ws -> StronglySorted (before ow_offset ow_length) ws ->
  substitute off n end_ (subslice off end_ img) ws = Ok (subslice off end_ (patch img ws)).
Proof.
  intros Hfit Hoe He. revert img Hfit He. induction ws as [|w ws IH]; intros img Hfit He Hf Hs; [done |].
  cbn [substitute]. destruct (N.leb_spec end_ (ow_offset w)) as [Hbreak|Hin].
  - f_equal. apply list_eq. intros i. destruct (N.lt_ge_cases (N.of_nat i) (end_ - off)).
    + rewrite !subslice_lookup by done. symmetry. apply patch_outside; [done |].
      apply StronglySorted_inv in Hs as [_ Hs]. rewrite Forall_forall in Hs.
      intros v [->|Hv]%elem_of_cons Hr; unfold in_range in Hr; [lia |].
      specialize (Hs v Hv). unfold before in Hs. lia.
    + by rewrite !subslice_lookup_ge.
  - apply Forall_cons in Hf as [Hw Hf]. apply StronglySorted_inv in Hs as [Hs _].
    pose proof (apply_intersection_spec img off end_ w Hfit Hoe He Hw) as Happly.
    unfold apply_intersection in Happly. fold (ow_length w) in *. unfold write_fits in Hw.
    rewrite (u64_try_from_in (ow_length w)) in Happly |- * by lia. cbn [ok_or mbind outcome_bind] in Happly |- *.
    rewrite (checked_add_in (ow_offset w) (ow_length w)) in Happly |- * by lia. cbn [ok_or mbind outcome_bind] in Happly |- *.
    assert (Hrest : substitute off n end_ (subslice off end_ (patch_one img w)) ws =
      Ok (subslice off end_ (patch img (w :: ws)))).
    { apply IH; rewrite ?len_patch_one by done; done. }
    set (s := N.max off (ow_offset w)) in *. set (e := N.min end_ (ow_offset w + ow_length w)) in *.
    destruct (e <=? s); [injection Happly as ->; exact Hrest |].
    apply bind_Ok in Happly as (os & Hos & Happly). apply ok_or_Ok in Hos as ->.
    apply bind_Ok in Happly as (ws0 & Hws & Happly). apply ok_or_Ok in Hws as ->.
    apply bind_Ok in Happly as (count & Hcount & Happly). apply ok_or_Ok in Hcount as ->.
    cbn [ok_or mbind outcome_bind].
    apply bind_Ok in Happly as (source & Hsource & Happly). apply index_range_Ok in Hsource as (? & ? & ->).
    rewrite index_range_in by done. cbn [mbind outcome_bind].
    apply copy_from_slice_Ok in Happly. eapply bind_step; [by apply copy_from_slice_Ok | exact Hrest].
Qed.

Lemma virtual_faithful (r : VirtualOriginalReader R) img img' :
  Faithful (vr_base r) img' -> Forall (write_fits (len img')) (vr_before_images r) ->
  Sorted (before ow_offset ow_length) (vr_before_images r) ->
  patch img' (vr_before_images r) = img ->
  Faithful r img.
Proof.
  intros Hb Hf Hs <-. apply Sorted_StronglySorted in Hs; [|apply before_trans].
  pose proof (len_patch _ _ Hf) as Hl. pose proof (faithful_fits _ _ Hb).
  assert (Hstep : forall off n b, rd_read_exact_at (vr_base r) off n = Ok b ->
    substitute off n (off + n) b (vr_before_images r) =
      Ok (subslice off (off + n) (patch img' (vr_before_images r)))).
  { intros off n b Hr. apply (faithful_read _ _ Hb) in Hr as (? & ? & ->).
    apply substitute_Ok; [done | lia | done | done | done]. }
  split.
  - simpl. rewrite (faithful_len _ _ Hb). done.
  - lia.
  - apply (faithful_max _ _ Hb).
  - intros off n. simpl. unfold virtual_read_exact_at.
    apply bind_safe; [apply ok_or_safe |]. intros n' Hn. apply ok_or_Ok, u64_try_from_Some in Hn as [-> _].
    apply bind_safe; [apply ok_or_safe |]. intros e He. apply ok_or_Ok, checked_add_Some in He as [-> _].
    apply bind_safe; [apply (faithful_safe _ _ Hb) |]. intros b Hr.
    apply bind_safe; [apply refuse_if_safe |]. intros _ _. by rewrite (Hstep _ _ _ Hr).
  - intros off n b Hr. simpl in Hr. unfold virtual_read_exact_at in Hr.
    apply bind_Ok in Hr as (n' & Hn & Hr). apply ok_or_Ok, u64_try_from_Some in Hn as [-> _].
    apply bind_Ok in Hr as (e & He & Hr). apply ok_or_Ok, checked_add_Some in He as [-> _].
    apply bind_Ok in Hr as (o & Ho & Hr). apply then_Ok in Hr as [_ Hr].
    rewrite (Hstep _ _ _ Ho) in Hr. injection Hr as <-.
    apply (faithful_read _ _ Hb) in Ho as (? & ? & _). simpl. split_and!; [lia | done | done].
Qed.
Lemma virtual_serving (r : VirtualOriginalReader R) img img' :
  Serving (vr_base r) img' -> Forall (write_fits (len img')) (vr_before_images r) ->
  Sorted (before ow_offset ow_length) (vr_before_images r) ->
  patch img' (vr_before_images r) = img ->
  Serving r img.
Proof.
  intros Hsv Hf Hs Hp. pose proof (serving_faithful _ _ Hsv) as Hb.
  split; [by eapply virtual_faithful |]. subst img.
  apply Sorted_StronglySorted in Hs; [|apply before_trans].
  pose proof (len_patch _ _ Hf) as Hl. pose proof (faithful_fits _ _ Hb).
  intros off n Hin Hn. rewrite Hl in Hin. simpl in Hn. simpl. unfold virtual_read_exact_at.
  rewrite u64_try_from_in by lia. cbn [ok_or mbind outcome_bind].
  rewrite checked_add_in by lia. cbn [ok_or mbind outcome_bind].
  rewrite (serving_read _ _ Hsv) by done. cbn [mbind outcome_bind].
  rewrite len_subslice by lia. replace (off + n - off) with n by lia. rewrite N.eqb_refl.
  cbn [negb refuse_if mbind outcome_bind]. apply substitute_Ok; [done | lia | done | done | done].
Qed.

(** ** The chunk loop *)
Lemma digest_chunks_faithful fuel (source : R) img chunk off hashed :
  Faithful source img -> 0 < chunk -> chunk <= u64_max -> (N.to_nat (len img - off) < fuel)%nat -> off <= len img ->
  digest_chunks fuel source (len img) chunk off hashed <> Panic /\
  forall h, digest_chunks fuel source (len img) chunk off hashed = Ok h ->
    h = hashed ++ subslice off (len img) img.
Proof.
  intros Hf H0 Hc. pose proof (faithful_fits _ _ Hf). revert off hashed.
  induction fuel as [|fuel IH]; intros off hashed Hfuel Hoff; [lia |]. cbn [digest_chunks].
  destruct (N.ltb_spec off (len img)) as [Hlt|Hge].
  2: { split; [done |]. intros h [= <-]. replace off with (len img) by lia. unfold subslice.
    by rewrite N.sub_diag, app_nil_r. }
  rewrite sub_u64_in by lia. cbn [mbind outcome_bind]. set (count := N.min (len img - off) chunk).
  rewrite usize_try_from_in by (unfold usize_max; lia). cbn [ok_or mbind outcome_bind].
  destruct (rd_read_exact_at source off count) as [b|e|] eqn:Hr; cbn [map_err mbind outcome_bind];
    [|done | by apply (faithful_safe _ _ Hf) in Hr].
  pose proof (faithful_read_len _ _ _ _ _ Hf Hr) as Hlen.
  apply (faithful_read _ _ Hf) in Hr as (? & ? & Hb). rewrite Hlen, N.eqb_refl.
  cbn [negb refuse_if mbind outcome_bind].
  rewrite u64_try_from_in by lia. cbn [ok_or mbind outcome_bind].
  rewrite checked_add_in by lia. cbn [ok_or mbind outcome_bind].
  destruct (IH (off + count) (hashed ++ b)) as [Hs Hh]; [lia | lia |]. split; [done |].
  intros h Hok. apply Hh in Hok as ->. rewrite <- app_assoc. f_equal. subst b. apply subslice_split; lia.
Qed.
Lemma digest_chunks_serving fuel (source : R) img chunk off hashed :
  Serving source img -> 0 < chunk -> chunk <= rd_max_read_bytes source -> chunk <= u64_max ->
  (N.to_nat (len img - off) < fuel)%nat -> off <= len img ->
  digest_chunks fuel source (len img) chunk off hashed = Ok (hashed ++ subslice off (len img) img).
Proof.
  intros Hsv H0 Hm Hc. pose proof (serving_faithful _ _ Hsv) as Hf. pose proof (faithful_fits _ _ Hf).
  revert off hashed. induction fuel as [|fuel IH]; intros off hashed Hfuel Hoff; [lia |]. cbn [digest_chunks].
  destruct (N.ltb_spec off (len img)) as [Hlt|Hge].
  2: { replace off with (len img) by lia. unfold subslice. by rewrite N.sub_diag, app_nil_r. }
  rewrite sub_u64_in by lia. cbn [mbind outcome_bind]. set (count := N.min (len img - off) chunk).
  rewrite usize_try_from_in by (unfold usize_max; lia). cbn [ok_or mbind outcome_bind].
  rewrite (serving_read _ _ Hsv) by lia. cbn [map_err mbind outcome_bind].
  rewrite len_subslice by lia. replace (off + count - off) with count by lia. rewrite N.eqb_refl.
  cbn [negb refuse_if mbind outcome_bind].
  rewrite u64_try_from_in by lia. cbn [ok_or mbind outcome_bind].
  rewrite checked_add_in by lia. cbn [ok_or mbind outcome_bind].
  rewrite IH by lia. rewrite <- app_assoc. do 2 f_equal. apply subslice_split; lia.
Qed.

Lemma digest_limits_Ok l u :
  validate_digest_limits l = Ok u <-> 0 < sd_max_image_bytes l /\ 0 < sd_chunk_bytes l.
Proof. unfold validate_digest_limits. destruct u. rewrite then_Ok, !refuse_if_Ok, !N.eqb_neq. lia. Qed.

Lemma digest_limits_safe l : validate_digest_limits l <> Panic.
Proof. unfold validate_digest_limits. safe. Qed.

Lemma digest_faithful `{Digests} (source : R) img limits :
  Faithful source img -> sd_chunk_bytes limits <= u64_max ->
  digest_source_view source limits <> Panic /\
  forall d, digest_source_view source limits = Ok d -> d = view_digest img.
Proof.
  intros Hf Hc. unfold digest_source_view. rewrite (faithful_len _ _ Hf).
  assert (He : N.min (sd_chunk_bytes limits) (rd_max_read_bytes source) <= u64_max) by lia.
  rewrite u64_try_from_in by done. cbn [ok_or].
  destruct (validate_digest_limits limits) as [[]|e|] eqn:Hl; cbn [mbind outcome_bind];
    [|done | by apply digest_limits_safe in Hl].
  destruct (refuse_if (sd_max_image_bytes limits <? len img) _) as [[]|e|] eqn:Hi; cbn [mbind outcome_bind];
    [|done | by apply refuse_if_safe in Hi].
  destruct (N.eqb_spec (N.min (sd_chunk_bytes limits) (rd_max_read_bytes source)) 0) as [Hz|Hz];
    cbn [refuse_if mbind outcome_bind]; [done |].
  destruct (digest_chunks_faithful (S (N.to_nat (len img))) source img
    (N.min (sd_chunk_bytes limits) (rd_max_read_bytes source)) 0
    (SOURCE_VIEW_DOMAIN ++ u64_le (len img))) as [Hs Hh]; [done | lia | done | lia | lia |].
  destruct (digest_chunks _ _ _ _ _ _) as [h|e|] eqn:Hd; cbn [mbind outcome_bind]; [|done | done].
  split; [done |]. intros d [= <-]. rewrite (Hh h eq_refl), subslice_all, <- app_assoc. done.
Qed.
Lemma digest_serving `{Digests} (source : R) img limits :
  Serving source img -> sd_chunk_bytes limits <= u64_max ->
  0 < sd_chunk_bytes limits -> 0 < sd_max_image_bytes limits -> len img <= sd_max_image_bytes limits ->
  digest_source_view source limits = Ok (view_digest img).
Proof.
  intros Hsv Hc Hpos Hm Hi. pose proof (serving_faithful _ _ Hsv) as Hf. pose proof (faithful_max _ _ Hf).
  unfold digest_source_view. rewrite (faithful_len _ _ Hf).
  rewrite then_Ok. split; [by apply digest_limits_Ok |].
  rewrite then_Ok. split; [by apply refuse_if_Ok, N.ltb_ge |].
  rewrite then_Ok. split; [apply refuse_if_Ok, N.eqb_neq; lia |].
  rewrite u64_try_from_in by lia. cbn [ok_or mbind outcome_bind].
  rewrite (digest_chunks_serving _ source img) by (done || lia).
  cbn [mbind outcome_bind]. by rewrite subslice_all, <- app_assoc.
Qed.
End Virtual.

(** * Properties *)

(** C22: the virtual original is the original. Over a reader that serves the
    current image, with masks that carry the bytes of the original image, and a
    current image that differs from the original inside the masked ranges only,
    [VirtualOriginalReader::new] accepts the masks, and the reader serves the
    original image: every read inside the bounds answers the original bytes, no
    matter how much of the masked ranges was overwritten. *)
Theorem virtual_original_serves `{BoundedImageReader R} (base : R) img img' masks limits :
  Serving base img' -> vo_max_masked_bytes limits <= u64_max ->
  masks_ok (len img) masks limits -> Forall (fragment_of img) masks -> agrees_outside masks img img' ->
  exists r, VirtualOriginalReader_new base masks limits = Ok r /\ Serving r img.
Proof.
  intros Hsv Hm Hok Hfr Ha. pose proof (serving_faithful _ _ Hsv) as Hf.
  exists (mkVirtualOriginalReader base masks). destruct Ha as [Hl Ha]. split.
  - apply (virtual_new_iff base img' masks limits Hf Hm). by rewrite Hl.
  - eapply virtual_serving; [exact Hsv | | apply Hok |].
    + rewrite Hl. eapply Forall_impl; [apply Hok | by intros w []].
    + apply patch_restores; [done | by split].
Qed.

(** The original, and the same image while a conversion is half way through. *)
Definition sample_original : list byte := byte_of_N <$> (N.of_nat <$> seq 0 40).
Definition sample_masks : list OverlayWrite :=
  [mkOverlayWrite 4 (subslice 4 8 sample_original); mkOverlayWrite 20 (subslice 20 30 sample_original)].
Definition sample_staged : list byte :=
  patch sample_original [mkOverlayWrite 5 [xff; xff]; mkOverlayWrite 20 (replicate 10 xee)].
Definition sample_view_limits : VirtualOriginalLimits := mkVirtualOriginalLimits 4 64.

Lemma sample_staged_agrees : agrees_outside sample_masks sample_original sample_staged.
Proof.
  split; [by vm_compute |]. intros i Hi. unfold sample_staged. apply patch_outside.
  - repeat constructor; vm_compute; discriminate.
  - intros w Hw Hr. destruct (decide (N.of_nat i < 12)) as [Hlt|Hge].
    + apply (Hi (mkOverlayWrite 4 (subslice 4 8 sample_original))); [by left |].
      apply elem_of_cons in Hw as [->|[->|[]%elem_of_nil]%elem_of_cons];
        cbv [in_range ow_offset ow_length ow_bytes len] in *; simpl in *; lia.
    + apply (Hi (mkOverlayWrite 20 (subslice 20 30 sample_original))); [by right; left |].
      apply elem_of_cons in Hw as [->|[->|[]%elem_of_nil]%elem_of_cons];
        cbv [in_range ow_offset ow_length ow_bytes len] in *; simpl in *; lia.
Qed.
Lemma sample_masks_ok : masks_ok (len sample_original) sample_masks sample_view_limits.
Proof.
  split; try (vm_compute; done).
  - repeat constructor; vm_compute; done.
  - repeat constructor. vm_compute. done.
Qed.

Lemma virtual_original_serves_witness :
  exists r, VirtualOriginalReader_new (quiet_image sample_staged 7) sample_masks sample_view_limits = Ok r /\
    Serving r sample_original.
Proof.
  apply (virtual_original_serves (quiet_image sample_staged 7) sample_original sample_staged).
  - apply quiet_image_serving; [vm_compute; discriminate | vm_compute; reflexivity].
  - vm_compute. discriminate.
  - exact sample_masks_ok.
  - repeat constructor; vm_compute; done.
  - exact sample_staged_agrees.
Defined.

(** C38: the digest of a source view never panics and, whenever it answers, answers
    the hash of the domain, the length and all the bytes of the view, whatever
    the chunk size and the read bound of the reader are; over a reader that
    serves its image it answers whenever its limits allow the image. So the
    digest of the virtual original over a partly converted image is the digest
    of the original image. *)
Theorem source_digest_canonical `{Digests} `{BoundedImageReader R} (source : R) img limits :
  Faithful source img -> sd_chunk_bytes limits <= u64_max ->
  digest_source_view source limits <> Panic /\
  (forall d, digest_source_view source limits = Ok d -> d = view_digest img) /\
  (Serving source img -> 0 < sd_chunk_bytes limits -> 0 < sd_max_image_bytes limits ->
   len img <= sd_max_image_bytes limits -> digest_source_view source limits = Ok (view_digest img)).
Proof.
  intros Hf Hc. destruct (digest_faithful source img limits Hf Hc) as [Hs Hd].
  split; [exact Hs |]. split; [exact Hd |]. intros. by apply digest_serving.
Qed.
Lemma source_digest_canonical_witness :
  let d := rolling_digests in
  digest_source_view (quiet_image sample_original 7) (mkSourceDigestLimits 64 5)
    = Ok (view_digest sample_original).
Proof.
  intros d. assert (Hs : Serving (quiet_image sample_original 7) sample_original)
    by (apply quiet_image_serving; [vm_compute; discriminate | vm_compute; reflexivity]).
  assert (Hc : sd_chunk_bytes (mkSourceDigestLimits 64 5) <= u64_max) by (vm_compute; discriminate).
  destruct (source_digest_canonical (quiet_image sample_original 7) sample_original
    (mkSourceDigestLimits 64 5) (serving_faithful _ _ Hs) Hc) as (_ & _ & Hd).
  apply Hd; [exact Hs | vm_compute; reflexivity | vm_compute; reflexivity | vm_compute; discriminate].
Defined.
