(* ===== verification/Recovery.v ===== *)
(** * The recovery bundle ([recovery.rs])

    The capsule payload that carries the exact before-images of the four write
    groups of a conversion.  The encoder is deterministic and the decoder
    revalidates everything; the contract is that they are inverse to each
    other. *)

From S2P Require Import Prelude Image Overlay.
From stdpp Require Import options.
#[local] Open Scope N_scope.

Definition MAGIC : list byte := ascii_bytes "SCRECOV2".
Definition VERSION : N := 2.
Definition HEADER_BYTES : N := 64.
Definition ENTRY_BYTES : N := 16.

Record RecoveryLimits : Type := mkRecoveryLimits {
  rl_max_writes : N;
  rl_max_bytes : N
}.

Record RecoveryBundle : Type := mkRecoveryBundle {
  rb_plan_digest : list byte;
  rb_relocation_destinations : list OverlayWrite;
  rb_target_staging : list OverlayWrite;
  rb_backup_boot : list OverlayWrite;
  rb_activation : list OverlayWrite
}.

Inductive RecoveryError : Type :=
| InvalidLimit (field : string)
| Truncated
| InvalidMagic
| UnsupportedVersion (actual : N)
| NonZeroReserved
| WriteLimitExceeded (actual maximum : N)
| ByteLimitExceeded (actual maximum : N)
| EmptyWrite (offset : N)
| RangeOverflow (offset length : N)
| OverlappingWrites (first_offset second_offset : N)
| TrailingBytes (actual : N)
| AllocationFailed
| ArithmeticOverflow.

Definition read_u16 (bytes : list byte) (offset : N) : outcome RecoveryError N :=
  end_ ← add_u64 offset 2;
  raw ← ok_or Truncated (get_range offset end_ bytes);
  Ok (le_num raw).
Definition read_u32 (bytes : list byte) (offset : N) : outcome RecoveryError N :=
  end_ ← add_u64 offset 4;
  raw ← ok_or Truncated (get_range offset end_ bytes);
  Ok (le_num raw).
Definition read_u64 (bytes : list byte) (offset : N) : outcome RecoveryError N :=
  end_ ← add_u64 offset 8;
  raw ← ok_or Truncated (get_range offset end_ bytes);
  Ok (le_num raw).

Definition validate_limits (limits : RecoveryLimits) : outcome RecoveryError unit :=
  refuse_if (rl_max_writes limits =? 0) (InvalidLimit "max_writes") ;;
  refuse_if (rl_max_bytes limits =? 0) (InvalidLimit "max_bytes").

(** The four groups in the order every chained iteration visits them. *)
Definition all_writes (bundle : RecoveryBundle) : list OverlayWrite :=
  rb_relocation_destinations bundle ++ rb_target_staging bundle ++
  rb_backup_boot bundle ++ rb_activation bundle.

Definition total_write_count (bundle : RecoveryBundle) : outcome RecoveryError N :=
  ok_or ArithmeticOverflow
    (value ← checked_add (len (rb_relocation_destinations bundle))
               (len (rb_target_staging bundle));
     value ← checked_add value (len (rb_backup_boot bundle));
     checked_add value (len (rb_activation bundle))).

Definition total_payload_bytes (bundle : RecoveryBundle) : outcome RecoveryError N :=
  try_fold (fun sum write => ok_or ArithmeticOverflow (checked_add sum (len (ow_bytes write))))
    0 (all_writes bundle).

(** The loop that collects the ranges of the writes. *)
Definition push_range (ranges : list (N * N)) (write : OverlayWrite)
    : outcome RecoveryError (list (N * N)) :=
  refuse_if (is_empty (ow_bytes write)) (EmptyWrite (ow_offset write)) ;;
  length ← ok_or ArithmeticOverflow (u64_try_from (len (ow_bytes write)));
  end_ ← ok_or (RangeOverflow (ow_offset write) length)
    (checked_add (ow_offset write) length);
  Ok (ranges ++ [(ow_offset write, end_)]).

Definition validate_bundle (bundle : RecoveryBundle) (limits : RecoveryLimits)
    : outcome RecoveryError unit :=
  count ← total_write_count bundle;
  refuse_if (rl_max_writes limits <? count) (WriteLimitExceeded count (rl_max_writes limits)) ;;
  bytes ← total_payload_bytes bundle;
  refuse_if (rl_max_bytes limits <? bytes)
    (ByteLimitExceeded (default u64_max (u64_try_from bytes)) (rl_max_bytes limits)) ;;
  ranges ← try_fold push_range [] (all_writes bundle);
  let ranges := sort_by_lex_key (fun r : N * N => [r.1; r.2]) ranges in
  for_windows2 (fun first second : N * N =>
    refuse_if (second.1 <? first.2) (OverlappingWrites first.1 second.1)) ranges.

Definition push_count (output : list byte) (count : N) : outcome RecoveryError (list byte) :=
  count_u32 ← ok_or ArithmeticOverflow (u32_try_from count);
  Ok (output ++ u32_le count_u32).
Definition push_write (output : list byte) (write : OverlayWrite)
    : outcome RecoveryError (list byte) :=
  let output := output ++ u64_le (ow_offset write) in
  length ← ok_or ArithmeticOverflow (u64_try_from (len (ow_bytes write)));
  Ok ((output ++ u64_le length) ++ ow_bytes write).

Definition encode_recovery_bundle (bundle : RecoveryBundle) (limits : RecoveryLimits)
    : outcome RecoveryError (list byte) :=
  validate_limits limits ;;
  validate_bundle bundle limits ;;
  payload_bytes ← total_payload_bytes bundle;
  entry_count ← total_write_count bundle;
  entry_bytes ← ok_or ArithmeticOverflow (checked_mul entry_count ENTRY_BYTES);
  encoded_bytes ← ok_or ArithmeticOverflow
    (value ← checked_add HEADER_BYTES entry_bytes; checked_add value payload_bytes);
  let output := MAGIC ++ u16_le VERSION ++ replicate 6 x00 ++ rb_plan_digest bundle in
  output ← try_fold push_count output
    [len (rb_relocation_destinations bundle); len (rb_target_staging bundle);
     len (rb_backup_boot bundle); len (rb_activation bundle)];
  try_fold push_write output (all_writes bundle).

Record DecodeState : Type := mkDecodeState {
  ds_cursor : N;
  ds_total_bytes : N
}.

(** One round of the entry loop. *)
Definition decode_entry (bytes : list byte) (limits : RecoveryLimits) (state : DecodeState)
    : outcome RecoveryError (OverlayWrite * DecodeState) :=
  let cursor := ds_cursor state in
  header_end ← ok_or ArithmeticOverflow (checked_add cursor ENTRY_BYTES);
  refuse_if (len bytes <? header_end) Truncated ;;
  offset ← read_u64 bytes cursor;
  cursor_8 ← add_u64 cursor 8;
  length_u64 ← read_u64 bytes cursor_8;
  refuse_if (length_u64 =? 0) (EmptyWrite offset) ;;
  _ ← ok_or (RangeOverflow offset length_u64) (checked_add offset length_u64);
  length ← ok_or (ByteLimitExceeded length_u64 (rl_max_bytes limits))
    (usize_try_from length_u64);
  data_end ← ok_or ArithmeticOverflow (checked_add header_end length);
  refuse_if (len bytes <? data_end) Truncated ;;
  total_bytes ← ok_or ArithmeticOverflow (checked_add (ds_total_bytes state) length_u64);
  refuse_if (default u64_max (u64_try_from (rl_max_bytes limits)) <? total_bytes)
    (ByteLimitExceeded total_bytes (rl_max_bytes limits)) ;;
  write_bytes ← index_range header_end data_end bytes;
  Ok (mkOverlayWrite offset write_bytes, mkDecodeState data_end total_bytes).

(** [for _ in 0..count]. *)
Fixpoint decode_entries (count : nat) (bytes : list byte) (limits : RecoveryLimits)
    (group : list OverlayWrite) (state : DecodeState)
    : outcome RecoveryError (list OverlayWrite * DecodeState) :=
  match count with
  | O => Ok (group, state)
  | S count =>
      entry ← decode_entry bytes limits state;
      decode_entries count bytes limits (group ++ [entry.1]) entry.2
  end.

(** The loop over the four groups. *)
Definition decode_group (bytes : list byte) (limits : RecoveryLimits)
    (acc : list (list OverlayWrite) * DecodeState) (count : N)
    : outcome RecoveryError (list (list OverlayWrite) * DecodeState) :=
  group ← decode_entries (N.to_nat count) bytes limits [] acc.2;
  Ok (acc.1 ++ [group.1], group.2).

Definition decode_recovery_bundle (bytes : list byte) (limits : RecoveryLimits)
    : outcome RecoveryError RecoveryBundle :=
  validate_limits limits ;;
  refuse_if (len bytes <? HEADER_BYTES) Truncated ;;
  magic ← index_range 0 8 bytes;
  refuse_if (negb (bool_decide (magic = MAGIC))) InvalidMagic ;;
  version ← read_u16 bytes 8;
  refuse_if (negb (version =? VERSION)) (UnsupportedVersion version) ;;
  reserved ← index_range 10 16 bytes;
  refuse_if (existsb (fun b => negb (bool_decide (b = x00))) reserved) NonZeroReserved ;;
  plan_digest ← index_range 16 48 bytes;
  count_0 ← read_u32 bytes 48;
  count_1 ← read_u32 bytes 52;
  count_2 ← read_u32 bytes 56;
  count_3 ← read_u32 bytes 60;
  let counts := (fun count => default usize_max (usize_try_from count)) <$>
    [count_0; count_1; count_2; count_3] in
  total_count ← try_fold (fun sum count => ok_or ArithmeticOverflow (checked_add sum count))
    0 counts;
  refuse_if (rl_max_writes limits <? total_count)
    (WriteLimitExceeded total_count (rl_max_writes limits)) ;;
  decoded ← try_fold (decode_group bytes limits) ([], mkDecodeState HEADER_BYTES 0) counts;
  let cursor := ds_cursor decoded.2 in
  (if negb (cursor =? len bytes)
   then trailing ← sub_u64 (len bytes) cursor; Err (TrailingBytes trailing)
   else Ok tt) ;;
  match decoded.1 with
  | [relocation_destinations; target_staging; backup_boot; activation] =>
      let bundle := mkRecoveryBundle plan_digest relocation_destinations target_staging
        backup_boot activation in
      validate_bundle bundle limits ;;
      Ok bundle
  | _ => Panic
  end.

(** ** Specification *)

Definition count_ok (l : list OverlayWrite) : Prop := len l <= u32_max.

(** The bundles that can be encoded under the limits. *)
Record bundle_ok (limits : RecoveryLimits) (b : RecoveryBundle) : Prop := {
  bundle_count : len (all_writes b) <= rl_max_writes limits;
  bundle_bytes : sum_by ow_length (all_writes b) <= rl_max_bytes limits;
  bundle_ranges : Forall (fun w => 0 < ow_length w /\ ow_offset w + ow_length w <= u64_max)
    (all_writes b);
  bundle_disjoint : writes_disjoint (all_writes b)
}.

(** The fields have the sizes of their Rust types. *)
Definition limits_typed (limits : RecoveryLimits) : Prop :=
  0 < rl_max_writes limits <= isize_max /\ 0 < rl_max_bytes limits <= isize_max.

Definition entry (w : OverlayWrite) : list byte :=
  u64_le (ow_offset w) ++ u64_le (ow_length w) ++ ow_bytes w.
Definition entries (ws : list OverlayWrite) : list byte := ws ≫= entry.
Definition header (b : RecoveryBundle) : list byte :=
  MAGIC ++ u16_le VERSION ++ replicate 6 x00 ++ rb_plan_digest b ++
  u32_le (len (rb_relocation_destinations b)) ++ u32_le (len (rb_target_staging b)) ++
  u32_le (len (rb_backup_boot b)) ++ u32_le (len (rb_activation b)).
(** The wire format. *)
Definition encoding (b : RecoveryBundle) : list byte := header b ++ entries (all_writes b).

(** ** Validation *)
Section Validation.

Lemma total_write_count_Ok b n :
  total_write_count b = Ok n <-> n = len (all_writes b) /\ n <= u64_max.
Proof.
  unfold total_write_count, all_writes. rewrite ok_or_Ok, !len_app.
  destruct (checked_add _ _) as [v|] eqn:H1; simpl.
  - apply checked_add_Some in H1 as [-> H1].
    destruct (checked_add _ (len (rb_backup_boot b))) as [v|] eqn:H2; simpl.
    + apply checked_add_Some in H2 as [-> H2]. rewrite checked_add_Some. lia.
    + apply checked_add_None in H2. split; [done | lia].
  - apply checked_add_None in H1. split; [done | lia].
Qed.

Lemma sum_fold_Ok ws : forall a n,
  a <= u64_max ->
  try_fold (fun sum w => ok_or ArithmeticOverflow (checked_add sum (len (ow_bytes w)))) a ws = Ok n
  <-> n = a + sum_by ow_length ws /\ n <= u64_max.
Proof.
  induction ws as [|w ws IH]; intros a n Ha; cbn [try_fold].
  - unfold sum_by. simpl. rewrite N.add_0_r. split; [intros [= <-]; done | by intros [-> _]].
  - rewrite bind_Ok. change (sum_by ow_length (w :: ws)) with (ow_length w + sum_by ow_length ws).
    change (len (ow_bytes w)) with (ow_length w). split.
    + intros (v & Hv & Hn). inv_ok. apply IH in Hn; [|done]. lia.
    + intros [-> Hn]. exists (a + ow_length w). split.
      * apply ok_or_step, checked_add_in. lia.
      * apply IH; [lia |]. lia.
Qed.

Lemma total_payload_bytes_Ok b n :
  total_payload_bytes b = Ok n <-> n = sum_by ow_length (all_writes b) /\ n <= u64_max.
Proof. unfold total_payload_bytes. rewrite sum_fold_Ok; [by rewrite N.add_0_l | done]. Qed.

Definition range_of (w : OverlayWrite) : N * N := (ow_offset w, ow_offset w + ow_length w).

Lemma is_empty_length w : is_empty (ow_bytes w) = false <-> 0 < ow_length w.
Proof. unfold ow_length, len. destruct (ow_bytes w); simpl; split; intros; lia || done. Qed.

Lemma push_ranges_Ok ws : forall acc r,
  try_fold push_range acc ws = Ok r <->
  Forall (fun w => 0 < ow_length w /\ ow_offset w + ow_length w <= u64_max) ws /\
  r = acc ++ (range_of <$> ws).
Proof.
  induction ws as [|w ws IH]; intros acc r; cbn [try_fold fmap list_fmap].
  - rewrite app_nil_r. split; [intros [= <-]; done | by intros [_ ->]].
  - rewrite bind_Ok, Forall_cons. unfold push_range at 1. split.
    + intros (v & Hv & Hr). inv_ok. apply is_empty_length in Hok. apply IH in Hr as [? ->].
      split; [done |]. by rewrite <- app_assoc.
    + intros [[[H0 H1] Hf] ->]. exists (acc ++ [range_of w]). split.
      * eapply bind_step; [by apply refuse_step, is_empty_length | cbv beta].
        fold (ow_length w). do 2 ok_step. done.
      * apply IH. by rewrite <- app_assoc.
Qed.

Lemma range_key_sorted (l : list (N * N)) :
  StronglySorted (le_key fst) (sort_by_lex_key (fun r : N * N => [r.1; r.2]) l).
Proof.
  eapply StronglySorted_impl, sort_by_lex_key_sorted. intros a b.
  unfold le_lex_key, le_key, lex_leb.
  rewrite orb_true_iff, andb_true_iff, N.ltb_lt, N.eqb_eq. lia.
Qed.

(** Disjointness of the collected ranges. *)
Definition range_len (r : N * N) : N := r.2 - r.1.

Lemma ranges_disjoint ws :
  Forall (fun w => 0 < ow_length w /\ ow_offset w + ow_length w <= u64_max) ws ->
  (for_windows2 (fun first second : N * N =>
    refuse_if (second.1 <? first.2) (OverlappingWrites first.1 second.1))
    (sort_by_lex_key (fun r : N * N => [r.1; r.2]) (range_of <$> ws)) = Ok tt <->
   writes_disjoint ws).
Proof.
  intros Hf. set (f := fun r : N * N => [r.1; r.2]).
  assert (Hd : writes_disjoint ws <-> disjoint_ranges fst range_len (range_of <$> ws)).
  { unfold writes_disjoint, disjoint_ranges. rewrite !StronglySorted_lookup.
    assert (He : forall w, range_len (range_of w) = ow_length w)
      by (intros w; unfold range_len, range_of; simpl; lia).
    unfold apart, before. split.
    - intros Hs i j x y Hij Hx Hy. rewrite list_lookup_fmap in Hx, Hy.
      apply fmap_Some in Hx as (wx & Hx & ->). apply fmap_Some in Hy as (wy & Hy & ->).
      rewrite !He. by apply (Hs i j wx wy).
    - intros Hs i j x y Hij Hx Hy. rewrite <- !He. apply (Hs i j (range_of x) (range_of y) Hij);
        rewrite list_lookup_fmap; [by rewrite Hx | by rewrite Hy]. }
  assert (Hp : sort_by_lex_key f (range_of <$> ws) ≡ₚ range_of <$> ws)
    by apply sort_by_lex_key_perm.
  assert (Hord : Forall (fun r => r.1 < r.2) (sort_by_lex_key f (range_of <$> ws))).
  { rewrite Hp. apply Forall_fmap. eapply Forall_impl; [exact Hf |]. intros w [? _]. simpl. lia. }
  rewrite for_windows2_Ok, Hd. rewrite Forall_forall in Hord. split.
  - intros Hs. eapply disjoint_ranges_perm; [exact Hp |]. apply adjacent_disjoint.
    eapply Sorted_ext, Hs. intros a b Ha _ Hr. apply refuse_if_Ok in Hr. bool_props.
    specialize (Hord a Ha). unfold before, range_len. lia.
  - intros Hs. symmetry in Hp. eapply disjoint_ranges_perm in Hs; [|exact Hp].
    apply disjoint_adjacent in Hs; [| apply range_key_sorted |].
    + eapply Sorted_ext, Hs. intros a b Ha _. unfold before, range_len.
      intros Hb. apply refuse_step, N.ltb_ge. specialize (Hord a Ha). lia.
    + apply Forall_forall. intros r Hr. specialize (Hord r Hr). unfold range_len. lia.
Qed.

Lemma validate_bundle_Ok b limits u :
  rl_max_writes limits <= u64_max -> rl_max_bytes limits <= u64_max ->
  validate_bundle b limits = Ok u <-> bundle_ok limits b.
Proof.
  intros Hw Hb. destruct u. unfold validate_bundle. split.
  - intros Hv. inv_ok. bool_props. apply total_write_count_Ok in Hok as [-> _].
    apply total_payload_bytes_Ok in Hok1 as [-> _]. apply push_ranges_Ok in Hok3 as [Hf ->].
    simpl in Hv. apply ranges_disjoint in Hv; [|done]. by split.
  - intros [Hc Hs Hf Hd].
    eapply bind_step; [by apply total_write_count_Ok; split; [done | lia] | cbv beta]. ok_step.
    eapply bind_step; [by apply total_payload_bytes_Ok; split; [done | lia] | cbv beta]. ok_step.
    eapply bind_step; [by apply push_ranges_Ok | cbv beta]. by apply ranges_disjoint.
Qed.

Lemma validate_bundle_safe b limits : validate_bundle b limits <> Panic.
Proof.
  unfold validate_bundle, total_write_count, total_payload_bytes, push_range. safe.
Qed.
End Validation.

(** ** Encoding *)
Section Encode.

Lemma entries_cons w ws : entries (w :: ws) = entry w ++ entries ws.
Proof. done. Qed.
Lemma entries_app ws1 ws2 : entries (ws1 ++ ws2) = entries ws1 ++ entries ws2.
Proof. apply bind_app. Qed.

Lemma push_writes_Ok ws : forall out r,
  Forall (fun w => 0 < ow_length w /\ ow_offset w + ow_length w <= u64_max) ws ->
  try_fold push_write out ws = Ok r <-> r = out ++ entries ws.
Proof.
  induction ws as [|w ws IH]; intros out r Hf; cbn [try_fold].
  - unfold entries. simpl. rewrite app_nil_r. naive_solver.
  - apply Forall_cons in Hf as [[H0 H1] Hf]. rewrite bind_Ok.
    assert (Hw : forall v, push_write out w = Ok v <-> v = out ++ entry w).
    { intros v. unfold push_write, entry. fold (ow_length w). rewrite bind_Ok. split.
      - intros (n & Hn & Hv). inv_ok. by rewrite <- !app_assoc.
      - intros ->. exists (ow_length w). split; [ok_auto | by rewrite <- !app_assoc]. }
    rewrite entries_cons. split.
    + intros (v & Hv & Hr). apply Hw in Hv as ->. apply IH in Hr as ->; [|done].
      by rewrite <- app_assoc.
    + intros ->. exists (out ++ entry w). split; [by apply Hw |]. apply IH; [done |].
      by rewrite <- app_assoc.
Qed.

Lemma push_counts_Ok cs : forall out r,
  try_fold push_count out cs = Ok r <->
  Forall (fun c => c <= u32_max) cs /\ r = out ++ (cs ≫= u32_le).
Proof.
  induction cs as [|c cs IH]; intros out r; cbn [try_fold].
  - simpl. rewrite app_nil_r. split; [intros [= <-]; done | by intros [_ ->]].
  - rewrite bind_Ok, Forall_cons. unfold push_count at 1. simpl. split.
    + intros (v & Hv & Hr). inv_ok. apply IH in Hr as [? ->]. by rewrite <- app_assoc.
    + intros [[Hc Hf] ->]. exists (out ++ u32_le c). split; [ok_step; done |].
      apply IH. by rewrite <- app_assoc.
Qed.

Definition counts_ok (b : RecoveryBundle) : Prop :=
  count_ok (rb_relocation_destinations b) /\ count_ok (rb_target_staging b) /\
  count_ok (rb_backup_boot b) /\ count_ok (rb_activation b).

Lemma encode_Ok b limits bytes :
  limits_typed limits ->
  encode_recovery_bundle b limits = Ok bytes <->
  bundle_ok limits b /\ counts_ok b /\ bytes = encoding b.
Proof.
  intros [[Hw0 Hw] [Hb0 Hb]]. pose proof isize_lt_u64 as Hiu.
  assert (Hv : forall u, validate_bundle b limits = Ok u <-> bundle_ok limits b)
    by (intros u; apply validate_bundle_Ok; lia).
  unfold encode_recovery_bundle, validate_limits. split.
  - intros He. inv_ok. apply Hv in Hok0. apply push_counts_Ok in Hok5 as [Hc ->].
    apply push_writes_Ok in He as ->; [|apply Hok0].
    rewrite !Forall_cons in Hc. split; [done |]. split; [unfold counts_ok, count_ok; tauto |].
    unfold encoding, header. simpl. by rewrite <- !app_assoc.
  - intros (Hok & (H0 & H1 & H2 & H3) & ->). unfold count_ok in *.
    assert (Hlen : len (all_writes b) <= 4 * u32_max)
      by (unfold all_writes; rewrite !len_app; lia).
    pose proof (bundle_bytes _ _ Hok) as Hs.
    assert (Hbig : 64 + 4 * u32_max * 16 + isize_max <= u64_max) by (by vm_compute).
    assert (Hbig' : isize_max <= u64_max) by (by vm_compute).
    eapply bind_step; [|cbv beta].
    { ok_step. apply refuse_step. false_test. }
    eapply bind_step; [by apply (Hv tt) | cbv beta].
    eapply bind_step; [by apply total_payload_bytes_Ok; split; [done | lia] | cbv beta].
    eapply bind_step; [by apply total_write_count_Ok; split; [done | lia] | cbv beta].
    unfold ENTRY_BYTES, HEADER_BYTES. ok_step. ok_step.
    { rewrite checked_add_in by lia. simpl. apply checked_add_in. lia. }
    eapply bind_step; [by apply push_counts_Ok; split; [repeat constructor; assumption | reflexivity]
      | cbv beta].
    apply push_writes_Ok; [apply Hok |]. unfold encoding, header. simpl. by rewrite <- !app_assoc.
Qed.

Lemma encode_safe b limits : encode_recovery_bundle b limits <> Panic.
Proof.
  unfold encode_recovery_bundle, validate_limits, total_payload_bytes, total_write_count,
    push_count, push_write. safe. apply validate_bundle_safe.
Qed.
End Encode.

(** ** Decoding *)
Section Decode.

Lemma read_u64_Ok bytes o v :
  len bytes <= isize_max ->
  read_u64 bytes o = Ok v <-> o + 8 <= len bytes /\ v = le_num (subslice o (o + 8) bytes).
Proof.
  intros Hfit. pose proof isize_lt_u64. unfold read_u64. split.
  - intros Hr. inv_ok. apply get_range_Some in Hok0 as (_ & ? & ->). done.
  - intros [Ho ->]. ok_step. ok_step; [|done]. apply get_range_Some. split_and!; [lia | lia | done].
Qed.
Lemma read_u32_Ok bytes o v :
  len bytes <= isize_max ->
  read_u32 bytes o = Ok v <-> o + 4 <= len bytes /\ v = le_num (subslice o (o + 4) bytes).
Proof.
  intros Hfit. pose proof isize_lt_u64. unfold read_u32. split.
  - intros Hr. inv_ok. apply get_range_Some in Hok0 as (_ & ? & ->). done.
  - intros [Ho ->]. ok_step. ok_step; [|done]. apply get_range_Some. split_and!; [lia | lia | done].
Qed.
Lemma read_u16_Ok bytes o v :
  len bytes <= isize_max ->
  read_u16 bytes o = Ok v <-> o + 2 <= len bytes /\ v = le_num (subslice o (o + 2) bytes).
Proof.
  intros Hfit. pose proof isize_lt_u64. unfold read_u16. split.
  - intros Hr. inv_ok. apply get_range_Some in Hok0 as (_ & ? & ->). done.
  - intros [Ho ->]. ok_step. ok_step; [|done]. apply get_range_Some. split_and!; [lia | lia | done].
Qed.

(** What one decoded entry says of the bytes. *)
Definition entry_at (bytes : list byte) (limits : RecoveryLimits) (s : DecodeState)
    (w : OverlayWrite) (s' : DecodeState) : Prop :=
  0 < ow_length w /\ ow_offset w + ow_length w <= u64_max /\
  ds_cursor s' = ds_cursor s + ENTRY_BYTES + ow_length w /\ ds_cursor s' <= len bytes /\
  ds_total_bytes s' = ds_total_bytes s + ow_length w /\
  ds_total_bytes s' <= rl_max_bytes limits /\
  subslice (ds_cursor s) (ds_cursor s') bytes = entry w.

Lemma len_entry w : len (entry w) = ENTRY_BYTES + ow_length w.
Proof. unfold entry. rewrite !len_app, !len_u64_le. fold (ow_length w). unfold ENTRY_BYTES. lia. Qed.

Lemma decode_entry_Ok bytes limits s w s' :
  len bytes <= isize_max -> rl_max_bytes limits <= isize_max ->
  decode_entry bytes limits s = Ok (w, s') <-> entry_at bytes limits s w s'.
Proof.
  intros Hfit Hlim. pose proof isize_lt_u64. destruct s as [c t], s' as [c' t'].
  unfold decode_entry, entry_at, ENTRY_BYTES. simpl. split.
  - intros Hd. inv_ok. bool_props. rewrite u64_try_from_in in Hok10 by lia. simpl in Hok10.
    apply read_u64_Ok in Hok1 as [_ ->]; [|done]. apply read_u64_Ok in Hok3 as [_ ->]; [|done].
    apply index_range_Ok in Hok11 as (_ & Hin & ->). unfold ow_length. simpl.
    set (n := le_num (subslice (c + 8) (c + 8 + 8) bytes)) in *.
    assert (Hn : len (subslice (c + 16) (c + 16 + n) bytes) = n) by (rewrite len_subslice; lia).
    rewrite Hn. split_and!; try lia.
    assert (Hun : u64_le n = subslice (c + 8) (c + 8 + 8) bytes)
      by (apply u64_le_num; rewrite len_subslice; lia).
    unfold entry, ow_length. cbn [ow_offset ow_bytes]. rewrite Hn, Hun, u64_le_num by (rewrite len_subslice; lia).
    replace (c + 8 + 8) with (c + 16) by lia. rewrite !subslice_split by lia. done.
  - intros (H0 & H1 & -> & Hin & -> & Ht & He).
    assert (Hpart : forall a b, a <= b -> b <= 16 + ow_length w ->
      subslice (c + a) (c + b) bytes = subslice a b (entry w)).
    { intros a b Ha Hb. rewrite <- He, subslice_subslice by lia. done. }
    assert (Hoff : le_num (subslice c (c + 8) bytes) = ow_offset w).
    { rewrite <- (N.add_0_r c) at 1. rewrite Hpart by lia. unfold entry. slices.
      apply le_num_u64. lia. }
    assert (Hlen : le_num (subslice (c + 8) (c + 8 + 8) bytes) = ow_length w).
    { rewrite <- N.add_assoc. rewrite Hpart by lia. unfold entry. change (8 + 8) with 16. slices.
      apply le_num_u64. lia. }
    ok_step. ok_step.
    eapply bind_step; [apply read_u64_Ok; [done | split; [lia | symmetry; exact Hoff]] | cbv beta].
    ok_step.
    eapply bind_step; [apply read_u64_Ok; [done | split; [lia | symmetry; exact Hlen]] | cbv beta].
    do 6 ok_step. rewrite u64_try_from_in by lia. simpl. ok_step. ok_step.
    f_equal. f_equal. destruct w as [o bs]. f_equal. unfold ow_length in *. simpl in *.
    rewrite <- (N.add_assoc c). rewrite Hpart by lia. unfold entry, ow_length. cbn [ow_offset ow_bytes].
    rewrite app_assoc.
    rewrite (subslice_after (u64_le o ++ u64_le (len bs)) bs 16 (16 + len bs) 16) by done.
    apply subslice_whole. lia.
Qed.

Lemma decode_entries_Ok n : forall bytes limits g s g' s',
  len bytes <= isize_max -> rl_max_bytes limits <= isize_max ->
  ds_cursor s <= len bytes -> ds_total_bytes s <= rl_max_bytes limits ->
  decode_entries n bytes limits g s = Ok (g', s') <->
  exists ws, g' = g ++ ws /\ length ws = n /\
    Forall (fun w => 0 < ow_length w /\ ow_offset w + ow_length w <= u64_max) ws /\
    ds_cursor s' = ds_cursor s + len (entries ws) /\ ds_cursor s' <= len bytes /\
    ds_total_bytes s' = ds_total_bytes s + sum_by ow_length ws /\
    ds_total_bytes s' <= rl_max_bytes limits /\
    subslice (ds_cursor s) (ds_cursor s') bytes = entries ws.
Proof.
  induction n as [|n IH]; intros bytes limits g s g' s' Hfit Hlim Hcs Hts; cbn [decode_entries].
  - split.
    + intros [= <- <-]. exists []. rewrite app_nil_r. unfold entries, sum_by. simpl.
      change (len []) with 0. rewrite !N.add_0_r. split_and!; try done.
      unfold subslice. by rewrite N.sub_diag.
    + intros (ws & -> & Hws & _ & Hc & _ & Ht & _). apply nil_length_inv in Hws as ->.
      rewrite app_nil_r. unfold entries, sum_by in *. simpl in *. change (len []) with 0 in Hc.
      rewrite N.add_0_r in Hc, Ht. destruct s, s'. simpl in *. by subst.
  - rewrite bind_Ok. split.
    + intros ([w s1] & Hw & Hr). apply decode_entry_Ok in Hw as (H0 & H1 & Hc & Hin & Ht & Hm & He);
        [|done..]. simpl in Hr.
      apply IH in Hr as (ws & -> & <- & Hf & Hc' & Hin' & Ht' & Hm' & He'); [|done..].
      exists (w :: ws). rewrite entries_cons.
      change (sum_by ow_length (w :: ws)) with (ow_length w + sum_by ow_length ws).
      rewrite len_app, len_entry. split_and!; try done; try lia.
      * by rewrite <- app_assoc.
      * by constructor.
      * rewrite <- He, <- He'. rewrite subslice_split; [done | lia | lia].
    + intros (ws & -> & Hn & Hf & Hc & Hin & Ht & Hm & He).
      destruct ws as [|w ws]; [done |]. apply Forall_cons in Hf as [[H0 H1] Hf].
      rewrite entries_cons in Hc, He.
      change (sum_by ow_length (w :: ws)) with (ow_length w + sum_by ow_length ws) in Ht.
      rewrite len_app, len_entry in Hc.
      set (s1 := mkDecodeState (ds_cursor s + ENTRY_BYTES + ow_length w)
        (ds_total_bytes s + ow_length w)).
      assert (Hsub : forall a b, b <= len (entry w ++ entries ws) ->
        subslice (ds_cursor s + a) (ds_cursor s + b) bytes = subslice a b (entry w ++ entries ws)).
      { intros a b Hb. rewrite <- He, subslice_subslice; [done |].
        rewrite len_app, len_entry in Hb. lia. }
      exists (w, s1). split.
      * apply decode_entry_Ok; [done | done |]. unfold entry_at. simpl.
        split_and!; try done; try lia.
        rewrite <- (N.add_0_r (ds_cursor s)) at 1. rewrite <- N.add_assoc, <- len_entry, Hsub
          by (rewrite len_app; lia). apply subslice_prefix. done.
      * simpl. apply IH; [done | done | simpl; lia | simpl; lia |]. exists ws. simpl.
        split_and!; try done; try lia.
        -- by rewrite <- app_assoc.
        -- simpl in Hn. lia.
        -- rewrite Hc. replace (ds_cursor s + (ENTRY_BYTES + ow_length w + len (entries ws)))
             with (ds_cursor s + (len (entry w) + len (entries ws))) by (rewrite len_entry; lia).
           rewrite <- (N.add_assoc (ds_cursor s)), <- len_entry, Hsub by (rewrite len_app; lia).
           rewrite (subslice_after _ _ _ _ (len (entry w))) by (done || lia).
           rewrite N.sub_diag. apply subslice_whole. lia.
Qed.
End Decode.

(** ** The whole bundle *)
Section Bundle.

Lemma len_header b : len (rb_plan_digest b) = 32 -> len (header b) = HEADER_BYTES.
Proof.
  intros Hd. unfold header. rewrite !len_app, Hd, !len_u32_le, len_replicate. reflexivity.
Qed.

Lemma decode_group_Ok bytes limits acc count r :
  len bytes <= isize_max -> rl_max_bytes limits <= isize_max ->
  ds_cursor acc.2 <= len bytes -> ds_total_bytes acc.2 <= rl_max_bytes limits ->
  decode_group bytes limits acc count = Ok r <->
  exists ws, r.1 = acc.1 ++ [ws] /\ len ws = count /\
    Forall (fun w => 0 < ow_length w /\ ow_offset w + ow_length w <= u64_max) ws /\
    ds_cursor r.2 = ds_cursor acc.2 + len (entries ws) /\ ds_cursor r.2 <= len bytes /\
    ds_total_bytes r.2 = ds_total_bytes acc.2 + sum_by ow_length ws /\
    ds_total_bytes r.2 <= rl_max_bytes limits /\
    subslice (ds_cursor acc.2) (ds_cursor r.2) bytes = entries ws.
Proof.
  intros Hfit Hlim Hc Ht. unfold decode_group. rewrite bind_Ok. split.
  - intros ([g s] & Hd & [= <-]). apply decode_entries_Ok in Hd as (ws & -> & Hn & Hrest); [|done..].
    exists ws. simpl in *. split_and!; try apply Hrest; [done | unfold len; lia].
  - intros (ws & Hg & Hn & Hrest). destruct r as [g s]. simpl in *. exists (ws, s). simpl.
    split; [|by rewrite Hg]. apply decode_entries_Ok; [done..|]. exists ws.
    split_and!; try apply Hrest; [done | unfold len in Hn; lia].
Qed.

(** The four group rounds, and the bytes they cover. *)
Lemma decode_groups_Ok bytes limits counts : forall acc r,
  len bytes <= isize_max -> rl_max_bytes limits <= isize_max ->
  ds_cursor acc.2 <= len bytes -> ds_total_bytes acc.2 <= rl_max_bytes limits ->
  try_fold (decode_group bytes limits) acc counts = Ok r <->
  exists gs, r.1 = acc.1 ++ gs /\ (len <$> gs) = counts /\
    Forall (fun w => 0 < ow_length w /\ ow_offset w + ow_length w <= u64_max) (concat gs) /\
    ds_cursor r.2 = ds_cursor acc.2 + len (entries (concat gs)) /\ ds_cursor r.2 <= len bytes /\
    ds_total_bytes r.2 = ds_total_bytes acc.2 + sum_by ow_length (concat gs) /\
    ds_total_bytes r.2 <= rl_max_bytes limits /\
    subslice (ds_cursor acc.2) (ds_cursor r.2) bytes = entries (concat gs).
Proof.
  induction counts as [|c cs IH]; intros acc r Hfit Hlim Hc Ht; cbn [try_fold].
  - split.
    + intros [= <-]. exists []. rewrite app_nil_r. unfold entries, sum_by. simpl.
      change (len []) with 0. rewrite !N.add_0_r. split_and!; try done.
      unfold subslice. by rewrite N.sub_diag.
    + intros (gs & H1 & H2 & _ & Hcur & _ & Htot & _). apply fmap_nil_inv in H2 as ->.
      unfold entries, sum_by in *. simpl in *. change (len []) with 0 in Hcur.
      rewrite app_nil_r in H1. rewrite N.add_0_r in Hcur, Htot.
      destruct acc as [a [? ?]], r as [x [? ?]]. simpl in *. by subst.
  - rewrite bind_Ok. split.
    + intros (a & Ha & Hr). apply decode_group_Ok in Ha as (ws & H1 & H2 & H3 & H4 & H5 & H6 & H7 & H8);
        [|done..].
      apply IH in Hr as (gs & G1 & G2 & G3 & G4 & G5 & G6 & G7 & G8); [|done..].
      exists (ws :: gs). cbn [concat fmap list_fmap]. rewrite entries_app, len_app, sum_by_app.
      split_and!; try lia.
      * by rewrite G1, H1, <- app_assoc.
      * by rewrite H2, G2.
      * by apply Forall_app.
      * rewrite <- H8, <- G8. rewrite subslice_split; [done | lia | lia].
    + intros (gs & G1 & G2 & G3 & G4 & G5 & G6 & G7 & G8).
      destruct gs as [|ws gs]; [done |]. injection G2 as G2 G2'.
      cbn [concat] in *. rewrite entries_app in G8. rewrite entries_app, len_app in G4.
      rewrite sum_by_app in G6. apply Forall_app in G3 as [G3 G3'].
      assert (Hsub : forall a b, b <= len (entries ws) + len (entries (concat gs)) ->
        subslice (ds_cursor acc.2 + a) (ds_cursor acc.2 + b) bytes =
        subslice a b (entries ws ++ entries (concat gs))).
      { intros a b Hb. rewrite <- G8, subslice_subslice; [done | lia]. }
      exists (acc.1 ++ [ws], mkDecodeState (ds_cursor acc.2 + len (entries ws))
        (ds_total_bytes acc.2 + sum_by ow_length ws)). split.
      * apply decode_group_Ok; [done..|]. exists ws. simpl. split_and!; try done; try lia.
        rewrite <- (N.add_0_r (ds_cursor acc.2)) at 1. rewrite Hsub by lia.
        by apply subslice_prefix.
      * apply IH; [done | done | simpl; lia | simpl; lia |]. exists gs. simpl.
        split_and!; try done; try lia.
        -- by rewrite G1, <- app_assoc.
        -- rewrite G4, Hsub by lia.
           rewrite (subslice_after _ _ _ _ (len (entries ws))) by (done || lia).
           rewrite N.sub_diag. apply subslice_whole. lia.
Qed.

Lemma count_fold_Ok cs : forall a n,
  a <= u64_max ->
  try_fold (fun sum count => ok_or ArithmeticOverflow (checked_add sum count)) a cs =
    @Ok RecoveryError N n <-> n = a + sum_by id cs /\ n <= u64_max.
Proof.
  induction cs as [|c cs IH]; intros a n Ha; cbn [try_fold].
  - unfold sum_by. simpl. rewrite N.add_0_r. split; [intros [= <-]; done | by intros [-> _]].
  - rewrite bind_Ok. change (sum_by id (c :: cs)) with (c + sum_by id cs). split.
    + intros (v & Hv & Hn). inv_ok. apply IH in Hn; [|done]. lia.
    + intros [-> Hn]. exists (a + c). split; [apply ok_or_step, checked_add_in; lia |].
      apply IH; lia.
Qed.

Definition groups (b : RecoveryBundle) : list (list OverlayWrite) :=
  [rb_relocation_destinations b; rb_target_staging b; rb_backup_boot b; rb_activation b].
Lemma concat_groups b : concat (groups b) = all_writes b.
Proof. unfold groups, all_writes. simpl. by rewrite app_nil_r. Qed.
Lemma sum_groups b : sum_by id (len <$> groups b) = len (all_writes b).
Proof. unfold groups, all_writes, sum_by. simpl. rewrite !len_app. unfold id. lia. Qed.

Lemma zero_bytes l : existsb (fun b => negb (bool_decide (b = x00))) l = false <->
  l = replicate (length l) x00.
Proof.
  induction l as [|b l IH]; simpl; [done |].
  rewrite orb_false_iff, negb_false_iff, bool_decide_eq_true, IH. split.
  - intros [-> Hl]. f_equal. exact Hl.
  - intros [= -> Hl]. done.
Qed.

Lemma decode_encoding b limits :
  limits_typed limits -> bundle_ok limits b -> counts_ok b -> len (rb_plan_digest b) = 32 ->
  len (encoding b) <= isize_max ->
  decode_recovery_bundle (encoding b) limits = Ok b.
Proof.
  intros [[Hw0 Hw] [Hb0 Hb]] Hok (H0 & H1 & H2 & H3) Hd Hfit. pose proof isize_lt_u64.
  unfold count_ok in *. pose proof (len_header b Hd) as Hlh. unfold HEADER_BYTES in Hlh.
  assert (Hlen : len (encoding b) = 64 + len (entries (all_writes b)))
    by (unfold encoding; rewrite len_app; lia).
  pose proof (bundle_count _ _ Hok) as Hc. pose proof (bundle_bytes _ _ Hok) as Hs.
  unfold decode_recovery_bundle, validate_limits.
  eapply bind_step; [ok_step; apply refuse_step; false_test | cbv beta].
  unfold HEADER_BYTES. ok_step. ok_step.
  assert (Hm : subslice 0 8 (encoding b) = MAGIC)
    by (unfold encoding, header; rewrite <- !app_assoc; slices; done).
  rewrite Hm. ok_step.
  eapply bind_step; [apply read_u16_Ok; [done |]; split; [lia | reflexivity] | cbv beta].
  assert (Hv : le_num (subslice 8 (8 + 2) (encoding b)) = VERSION).
  { change (8 + 2) with 10. unfold encoding, header. rewrite <- !app_assoc. slices. done. }
  rewrite Hv. ok_step. ok_step.
  assert (Hz : subslice 10 16 (encoding b) = replicate 6 x00)
    by (unfold encoding, header; rewrite <- !app_assoc; slices; done).
  rewrite Hz. ok_step. ok_step.
  assert (Hr : forall o n, len (encoding b) = 64 + len (entries (all_writes b)) -> o + 4 <= 64 ->
    subslice o (o + 4) (encoding b) = u32_le n -> n <= u32_max ->
    read_u32 (encoding b) o = Ok n).
  { intros o n Hl Ho He Hn. apply read_u32_Ok; [done |]. split; [lia |]. rewrite He.
    symmetry. by apply le_num_u32. }
  eapply bind_step; [apply (Hr 48 _ Hlen); [done | | exact H0] | cbv beta].
  { change (48 + 4) with 52. unfold encoding, header. rewrite <- !app_assoc. slices. done. }
  eapply bind_step; [apply (Hr 52 _ Hlen); [done | | exact H1] | cbv beta].
  { change (52 + 4) with 56. unfold encoding, header. rewrite <- !app_assoc. slices. done. }
  eapply bind_step; [apply (Hr 56 _ Hlen); [done | | exact H2] | cbv beta].
  { change (56 + 4) with 60. unfold encoding, header. rewrite <- !app_assoc. slices. done. }
  eapply bind_step; [apply (Hr 60 _ Hlen); [done | | exact H3] | cbv beta].
  { change (60 + 4) with 64. unfold encoding, header. rewrite <- !app_assoc. slices. done. }
  assert (Hcounts : (fun count => default usize_max (usize_try_from count)) <$>
    [len (rb_relocation_destinations b); len (rb_target_staging b);
     len (rb_backup_boot b); len (rb_activation b)] = len <$> groups b).
  { assert (Hu : u32_max <= u64_max) by (by vm_compute). unfold groups. cbn [fmap list_fmap].
    by rewrite !usize_try_from_in by lia. }
  rewrite Hcounts.
  eapply bind_step; [apply count_fold_Ok; [done |]; rewrite sum_groups; split; [done | lia]
    | cbv beta].
  rewrite N.add_0_l. ok_step.
  eapply (bind_step _ _ (groups b, mkDecodeState (len (encoding b)) (sum_by ow_length (all_writes b)))).
  - apply decode_groups_Ok; [done | lia | simpl; lia | simpl; lia |]. exists (groups b).
    rewrite concat_groups. simpl. split_and!; try done; try lia; [apply Hok |].
    unfold encoding. rewrite (subslice_after (header b) _ _ _ 64) by (done || lia).
    rewrite N.sub_diag. apply subslice_whole. rewrite len_app. lia.
  - cbv beta. simpl ds_cursor. rewrite N.eqb_refl. cbn [negb mbind outcome_bind fst groups].
    assert (Hbb : mkRecoveryBundle (subslice 16 48 (encoding b)) (rb_relocation_destinations b)
      (rb_target_staging b) (rb_backup_boot b) (rb_activation b) = b).
    { assert (Hpd : subslice 16 48 (encoding b) = rb_plan_digest b)
        by (unfold encoding, header; rewrite <- !app_assoc; slices; done).
      rewrite Hpd. by destruct b. }
    rewrite Hbb. by rewrite (proj2 (validate_bundle_Ok b limits tt ltac:(lia) ltac:(lia)) Hok).
Qed.

(** Conversely a decoded bundle re-encodes to the same bytes. *)
Lemma decode_canonical bytes limits b :
  limits_typed limits -> len bytes <= isize_max ->
  decode_recovery_bundle bytes limits = Ok b ->
  bundle_ok limits b /\ counts_ok b /\ len (rb_plan_digest b) = 32 /\ bytes = encoding b.
Proof.
  intros [[Hw0 Hw] [Hb0 Hb]] Hfit Hd. pose proof isize_lt_u64.
  unfold decode_recovery_bundle in Hd. inv_ok. bool_props.
  apply index_range_Ok in Hok1 as (_ & _ & ->). apply index_range_Ok in Hok5 as (_ & _ & ->).
  apply index_range_Ok in Hok7 as (_ & _ & ->).
  apply read_u16_Ok in Hok3 as [_ Hv]; [|done].
  apply read_u32_Ok in Hok8 as [_ Hc0]; [|done]. apply read_u32_Ok in Hok9 as [_ Hc1]; [|done].
  apply read_u32_Ok in Hok10 as [_ Hc2]; [|done]. apply read_u32_Ok in Hok11 as [_ Hc3]; [|done].
  assert (Hu : forall lo, lo + 4 <= len bytes -> le_num (subslice lo (lo + 4) bytes) <= u32_max)
    by (intros lo Hl; apply le_num_u32_bound; rewrite len_subslice; lia).
  assert (Hmax : u32_max <= u64_max) by (by vm_compute).
  unfold HEADER_BYTES in *.
  pose proof (Hu 48 ltac:(lia)) as B0. pose proof (Hu 52 ltac:(lia)) as B1.
  pose proof (Hu 56 ltac:(lia)) as B2. pose proof (Hu 60 ltac:(lia)) as B3.
  rewrite <- Hc0 in B0. rewrite <- Hc1 in B1. rewrite <- Hc2 in B2. rewrite <- Hc3 in B3.
  cbn [fmap list_fmap] in Hok14. rewrite !usize_try_from_in in Hok14 by lia.
  cbn [default] in Hok14.
  apply decode_groups_Ok in Hok14 as (gs & G1 & G2 & G3 & G4 & G5 & G6 & G7 & G8);
    [| done | lia | simpl; lia | simpl; lia].
  simpl in G1, G4, G6, G8. rewrite G1 in Hd.
  destruct gs as [|g0 [|g1 [|g2 [|g3 [|]]]]]; try done. inv_ok.
  destruct (N.eqb_spec (ds_cursor a14.2) (len bytes)) as [He|]; [|simpl in Hok15; inv_ok].
  apply validate_bundle_Ok in Hok1; [|lia | lia].
  injection G2 as E0 E1 E2 E3.
  assert (Hdig : len (subslice 16 48 bytes) = 32) by (rewrite len_subslice; lia).
  split; [exact Hok1 |]. split; [unfold counts_ok, count_ok; simpl; lia |].
  split; [exact Hdig |].
  unfold encoding, header, all_writes. simpl rb_plan_digest. simpl rb_relocation_destinations.
  simpl rb_target_staging. simpl rb_backup_boot. simpl rb_activation.
  cbn [concat] in G8. rewrite app_nil_r in G8. rewrite <- G8, He.
  rewrite E0, E1, E2, E3, !u32_le_num by (rewrite len_subslice; lia).
  rewrite <- Hok4, u16_le_num by (rewrite len_subslice; lia).
  apply zero_bytes in Hok6.
  assert (Hz : replicate 6 x00 = subslice 10 16 bytes).
  { rewrite Hok6. f_equal. assert (Hl : len (subslice 10 16 bytes) = 6) by (rewrite len_subslice; lia).
    unfold len in Hl. lia. }
  rewrite Hz, <- Hok2. change (8 + 2) with 10. change (48 + 4) with 52. change (52 + 4) with 56.
  change (56 + 4) with 60. change (60 + 4) with 64.
  rewrite <- !app_assoc, !subslice_split by lia. symmetry. apply subslice_whole. done.
Qed.

Lemma decode_entry_safe bytes limits s :
  len bytes <= isize_max -> decode_entry bytes limits s <> Panic.
Proof.
  intros Hfit. pose proof isize_lt_u64. unfold decode_entry, read_u64. safe.
  all: inv_ok; bool_props; unfold ENTRY_BYTES in *.
  all: try (apply add_u64_safe; lia). apply index_range_safe; lia.
Qed.

Lemma decode_entries_safe n : forall bytes limits g s,
  len bytes <= isize_max -> decode_entries n bytes limits g s <> Panic.
Proof.
  induction n as [|n IH]; intros bytes limits g s Hfit; cbn [decode_entries]; [done |].
  apply bind_safe; [by apply decode_entry_safe |]. intros. by apply IH.
Qed.

Lemma decode_groups_counts bytes limits counts : forall acc r,
  try_fold (decode_group bytes limits) acc counts = Ok r ->
  length r.1 = (length acc.1 + length counts)%nat.
Proof.
  induction counts as [|c cs IH]; intros acc r; cbn [try_fold].
  - intros [= <-]. simpl. lia.
  - intros (a & Ha & Hr)%bind_Ok. apply IH in Hr. unfold decode_group in Ha. inv_ok.
    simpl in Hr. rewrite length_app in Hr. simpl in *. lia.
Qed.

Lemma decode_cursor bytes limits counts : forall acc r,
  ds_cursor acc.2 <= len bytes ->
  try_fold (decode_group bytes limits) acc counts = Ok r -> ds_cursor r.2 <= len bytes.
Proof.
  intros acc r Hc Hf. eapply (try_fold_invariant (fun a => ds_cursor a.2 <= len bytes));
    [exact Hc | | exact Hf].
  intros a c a' _ Ha Hd. unfold decode_group in Hd. inv_ok. simpl.
  destruct a0 as [g s]. simpl. clear - Ha Hok. revert Ha Hok.
  generalize (@nil OverlayWrite) as g0. generalize (a.2) as s0.
  induction (N.to_nat c) as [|n IH]; intros s0 g0 Ha Hok; cbn [decode_entries] in Hok.
  - by injection Hok as _ <-.
  - inv_ok. eapply IH; [|exact Hok]. unfold decode_entry in Hok0. inv_ok. by bool_props.
Qed.

Lemma decode_safe bytes limits :
  len bytes <= isize_max -> decode_recovery_bundle bytes limits <> Panic.
Proof.
  intros Hfit. pose proof isize_lt_u64.
  assert (Hmax : 60 + 4 <= u64_max) by (by vm_compute).
  unfold decode_recovery_bundle, validate_limits, read_u16, read_u32, HEADER_BYTES. safe.
  all: inv_ok; bool_props.
  all: try (apply add_u64_safe; lia).
  all: try (apply index_range_safe; lia).
  - unfold decode_group. safe. by apply decode_entries_safe.
  - apply sub_u64_safe.
    match goal with
    | Hg : try_fold (decode_group _ _) _ _ = Ok _ |- _ => apply decode_cursor in Hg; simpl; lia
    end.
  - match goal with
    | Hg : try_fold (decode_group _ _) _ _ = Ok ?r |- _ =>
        apply decode_groups_counts in Hg; simpl in Hg; revert Hg;
        destruct r.1 as [|g0 [|g1 [|g2 [|g3 [|]]]]]; simpl; try lia; intros _
    end.
    apply bind_safe; [apply validate_bundle_safe | done].
Qed.
End Bundle.

(** ** The contract of the codec *)

(** encoding a bundle.  The encoder never aborts and accepts exactly the
    bundles within the limits whose writes are nonempty, in range and pairwise
    disjoint across all four groups; its output is the documented layout. *)
Theorem recovery_encode_spec b limits bytes :
  limits_typed limits ->
  encode_recovery_bundle b limits <> Panic /\
  (encode_recovery_bundle b limits = Ok bytes <->
   bundle_ok limits b /\ counts_ok b /\ bytes = encoding b).
Proof. intros Hl. split; [apply encode_safe | by apply encode_Ok]. Qed.

(** C16: the recovery bundle codec is a bijection.  On payloads an allocation can
    hold, the decoder never aborts, it accepts exactly the bytes the encoder
    produces for some bundle, and it returns that bundle: every accepted payload
    is canonical and every encoded bundle is recovered exactly. *)
Theorem recovery_codec_roundtrip bytes limits b :
  limits_typed limits -> len bytes <= isize_max ->
  decode_recovery_bundle bytes limits <> Panic /\
  (decode_recovery_bundle bytes limits = Ok b <->
   len (rb_plan_digest b) = 32 /\ encode_recovery_bundle b limits = Ok bytes).
Proof.
  intros Hl Hfit. split; [by apply decode_safe |]. split.
  - intros Hd. apply decode_canonical in Hd as (? & ? & ? & ->); [|done | done].
    split; [done |]. by apply encode_Ok.
  - intros [Hd He]. apply encode_Ok in He as (? & ? & ->); [|done]. by apply decode_encoding.
Qed.

Definition sample_bundle : RecoveryBundle :=
  mkRecoveryBundle (replicate 32 x07) [] [mkOverlayWrite 512 [x01; x02]]
    [mkOverlayWrite 64 [x03]] [mkOverlayWrite 0 [x04; x05; x06]].
Definition sample_recovery_limits : RecoveryLimits := mkRecoveryLimits 8 64.

Lemma sample_limits_typed : limits_typed sample_recovery_limits.
Proof. split; vm_compute; split; (reflexivity || discriminate). Qed.

Lemma recovery_encode_spec_witness :
  encode_recovery_bundle sample_bundle sample_recovery_limits = Ok (encoding sample_bundle) /\
  bundle_ok sample_recovery_limits sample_bundle.
Proof.
  assert (He : encode_recovery_bundle sample_bundle sample_recovery_limits =
    Ok (encoding sample_bundle)) by (vm_compute; reflexivity).
  split; [exact He |].
  exact (proj1 (proj1 (proj2 (recovery_encode_spec _ _ _ sample_limits_typed)) He)).
Defined.

Lemma recovery_codec_roundtrip_witness :
  decode_recovery_bundle (encoding sample_bundle) sample_recovery_limits = Ok sample_bundle.
Proof.
  assert (Hfit : len (encoding sample_bundle) <= isize_max) by (vm_compute; discriminate).
  apply (proj2 (proj2 (recovery_codec_roundtrip _ _ _ sample_limits_typed Hfit))).
  split; [reflexivity | vm_compute; reflexivity].
Defined.
