(* ===== verification/Geometry.v ===== *)
(** * Physical range and relocation planning ([geometry.rs])

    The layout solver keeps non-conflicting payloads in place and relocates the
    conflicting movable extents into the complement of every source allocation,
    destination reservation and staging exclusion.  The bytes of that complement
    are the specification: the destinations and the free ranges that a plan
    reports partition it. *)

From S2P Require Import Prelude Extent.
From stdpp Require Import options.
#[local] Open Scope N_scope.

Record ByteRange : Type := mkByteRange {
  br_offset : N;
  br_length : N
}.
#[export] Instance ByteRange_eq_dec : EqDecision ByteRange.
Proof. solve_decision. Defined.

Record SourceAllocation : Type := mkSourceAllocation {
  sa_stream : StreamId;
  sa_logical_offset : N;
  sa_range : ByteRange;
  sa_movable : bool
}.
#[export] Instance SourceAllocation_eq_dec : EqDecision SourceAllocation.
Proof. solve_decision. Defined.

Inductive ReservationKind : Type :=
| BootRegion
| AllocationMetadata
| NamespaceMetadata
| Journal
| CapsuleReservation
| OtherReservation.
#[export] Instance ReservationKind_eq_dec : EqDecision ReservationKind.
Proof. solve_decision. Defined.

Record DestinationReservation : Type := mkDestinationReservation {
  dr_range : ByteRange;
  dr_kind : ReservationKind
}.

Record Relocation : Type := mkRelocation {
  rl_stream : StreamId;
  rl_logical_offset : N;
  rl_source : ByteRange;
  rl_destination : ByteRange
}.
#[export] Instance Relocation_eq_dec : EqDecision Relocation.
Proof. solve_decision. Defined.

Record MaterializationRequest : Type := mkMaterializationRequest {
  mr_stream : StreamId;
  mr_destination_length : N
}.

Record Materialization : Type := mkMaterialization {
  mz_stream : StreamId;
  mz_destinations : list ByteRange
}.
#[export] Instance Materialization_eq_dec : EqDecision Materialization.
Proof. solve_decision. Defined.

Record LayoutPlan : Type := mkLayoutPlan {
  lp_relocations : list Relocation;
  lp_materializations : list Materialization;
  lp_free_after_staging : list ByteRange;
  lp_relocated_bytes : N;
  lp_materialized_bytes : N;
  lp_largest_free_range : N
}.
#[export] Instance LayoutPlan_eq_dec : EqDecision LayoutPlan.
Proof. solve_decision. Defined.

Record LayoutLimits : Type := mkLayoutLimits {
  ll_max_source_extents : N;
  ll_max_reservations : N;
  ll_max_free_ranges : N;
  ll_max_relocations : N
}.
Definition LayoutLimits_default : LayoutLimits := {|
  ll_max_source_extents := 8 * 1024 * 1024;
  ll_max_reservations := 1024 * 1024;
  ll_max_free_ranges := 8 * 1024 * 1024;
  ll_max_relocations := 8 * 1024 * 1024
|}.

Inductive LayoutError : Type :=
| InvalidLimit (field : string)
| InvalidAlignment (alignment : N)
| IncompatibleAlignments (io_alignment destination_alignment : N)
| SourceLimitExceeded (actual maximum : N)
| ReservationLimitExceeded (actual maximum : N)
| RelocationLimitExceeded (maximum : N)
| FreeRangeLimitExceeded (maximum : N)
| ZeroLengthRange (offset : N)
| RangeOverflow (offset length : N)
| RangeOutsideVolume (offset length volume_bytes : N)
| UnalignedRange (offset length alignment : N)
| DestinationLengthUnaligned (stream : StreamId) (logical_offset length alignment : N)
| SourceOverlap (first_offset second_offset : N)
| StagingExclusionOverlap (first_offset second_offset : N)
| StagingExclusionOverlapsSource (source_offset exclusion_offset : N)
| ReservationOverlap (first_offset second_offset : N)
| ImmovableConflict (stream : StreamId) (source_offset reservation_offset : N)
| ImmovableOutsideDestinationDomain (stream : StreamId)
    (source_offset domain_offset domain_length alignment : N)
| InsufficientStagingSpace (required largest_free_range total_free : N)
| DuplicateMaterialization (stream : StreamId)
| MaterializationConflictsWithLiveSource (stream : StreamId)
| AccountingOverflow.

#[local] Abbreviation layout := (outcome LayoutError).

(** [ByteRange::end]. *)
Definition ByteRange_end (range : ByteRange) : layout N :=
  ok_or (RangeOverflow (br_offset range) (br_length range))
    (checked_add (br_offset range) (br_length range)).

(** ** Clusters that touch unusable ranges *)

(** [first..=last]. *)
Definition range_inclusive (first last : N) : list N :=
  (fun i => first + N.of_nat i) <$> seq 0 (N.to_nat (last + 1 - first)).

Definition cover_range (cluster_bytes volume_bytes : N) (lcns : list N)
    (range : ByteRange) : layout (list N) :=
  refuse_if (br_length range =? 0) (ZeroLengthRange (br_offset range)) ;;
  end_ ← ByteRange_end range;
  refuse_if (volume_bytes <? end_)
    (RangeOutsideVolume (br_offset range) (br_length range) volume_bytes) ;;
  first ← div_u64 (br_offset range) cluster_bytes;
  end_1 ← sub_u64 end_ 1;
  last ← div_u64 end_1 cluster_bytes;
  Ok (foldl (fun set lcn => btree_insert lcn set) lcns (range_inclusive first last)).

Definition clusters_covering_ranges (ranges : list ByteRange)
    (cluster_bytes volume_bytes : N) : layout (list N) :=
  refuse_if ((cluster_bytes =? 0) || negb (is_power_of_two cluster_bytes))
    (InvalidAlignment cluster_bytes) ;;
  try_fold (cover_range cluster_bytes volume_bytes) [] ranges.

(** ** Validation *)

Definition validate_limits (limits : LayoutLimits) : layout unit :=
  for_each (fun fv : string * N => refuse_if (fv.2 =? 0) (InvalidLimit fv.1))
    [("max_source_extents"%string, ll_max_source_extents limits);
     ("max_reservations"%string, ll_max_reservations limits);
     ("max_free_ranges"%string, ll_max_free_ranges limits);
     ("max_relocations"%string, ll_max_relocations limits)].

Definition validate_alignments (alignments : list N) : layout unit :=
  for_each (fun alignment =>
    refuse_if ((alignment =? 0) || negb (is_power_of_two alignment))
      (InvalidAlignment alignment)) alignments.

Definition validate_destination_lengths (source : list SourceAllocation) (alignment : N)
    : layout unit :=
  for_each (fun allocation =>
    rest ← rem_u64 (br_length (sa_range allocation)) alignment;
    refuse_if (negb (rest =? 0))
      (DestinationLengthUnaligned (sa_stream allocation) (sa_logical_offset allocation)
         (br_length (sa_range allocation)) alignment)) source.

Definition validate_materialization_request (source : list SourceAllocation)
    (alignment : N) (request : MaterializationRequest) : layout unit :=
  rest ← rem_u64 (mr_destination_length request) alignment;
  refuse_if ((mr_destination_length request =? 0) || negb (rest =? 0))
    (DestinationLengthUnaligned (mr_stream request) 0 (mr_destination_length request)
       alignment) ;;
  refuse_if (existsb (fun allocation => sa_stream allocation =? mr_stream request) source)
    (MaterializationConflictsWithLiveSource (mr_stream request)).

Definition validate_materialization_requests (source : list SourceAllocation)
    (requests : list MaterializationRequest) (alignment maximum : N) : layout unit :=
  refuse_if (maximum <? len requests) (RelocationLimitExceeded maximum) ;;
  let seen := sort_by_key id (mr_stream <$> requests) in
  match find_windows2 N.eqb seen with
  | Some (stream, _) => Err (DuplicateMaterialization stream)
  | None => for_each (validate_materialization_request source alignment) requests
  end.

Definition validate_range (volume_bytes alignment : N) (range : ByteRange) : layout unit :=
  refuse_if (br_length range =? 0) (ZeroLengthRange (br_offset range)) ;;
  end_ ← ByteRange_end range;
  refuse_if (volume_bytes <? end_)
    (RangeOutsideVolume (br_offset range) (br_length range) volume_bytes) ;;
  offset_rest ← rem_u64 (br_offset range) alignment;
  length_rest ← rem_u64 (br_length range) alignment;
  refuse_if (negb (offset_rest =? 0) || negb (length_rest =? 0))
    (UnalignedRange (br_offset range) (br_length range) alignment).

Definition validate_ranges (volume_bytes source_alignment reservation_alignment : N)
    (source : list SourceAllocation) (reservations : list DestinationReservation)
    : layout unit :=
  for_each (fun value => validate_range volume_bytes source_alignment (sa_range value))
    source ;;
  for_each (fun value => validate_range volume_bytes reservation_alignment (dr_range value))
    reservations.

(** The three overlap scans over neighbours sorted by offset. *)
Definition validate_nonoverlap_source (source : list SourceAllocation) : layout unit :=
  for_windows2 (fun first second =>
    first_end ← ByteRange_end (sa_range first);
    refuse_if (br_offset (sa_range second) <? first_end)
      (SourceOverlap (br_offset (sa_range first)) (br_offset (sa_range second)))) source.

Definition validate_nonoverlap_reservations (reservations : list DestinationReservation)
    : layout unit :=
  for_windows2 (fun first second =>
    first_end ← ByteRange_end (dr_range first);
    refuse_if (br_offset (dr_range second) <? first_end)
      (ReservationOverlap (br_offset (dr_range first)) (br_offset (dr_range second))))
    reservations.

Definition overlaps (left right : ByteRange) : layout bool :=
  right_end ← ByteRange_end right;
  if br_offset left <? right_end then
    left_end ← ByteRange_end left;
    Ok (br_offset right <? left_end)
  else Ok false.

(** [while index < ranges.len() && ranges[index].end()? <= offset]: the index
    into a list of ranges is the list that remains from it on. *)
Fixpoint skip_ended {A : Type} (range_of : A -> ByteRange) (offset : N) (ranges : list A)
    : layout (list A) :=
  match ranges with
  | [] => Ok []
  | range :: rest =>
      range_end ← ByteRange_end (range_of range);
      if range_end <=? offset then skip_ended range_of offset rest else Ok ranges
  end.

Definition check_exclusion (source : list SourceAllocation) (exclusion : ByteRange)
    : layout (list SourceAllocation) :=
  source ← skip_ended sa_range (br_offset exclusion) source;
  match source with
  | [] => Ok []
  | allocation :: _ =>
      overlapping ← overlaps (sa_range allocation) exclusion;
      refuse_if overlapping
        (StagingExclusionOverlapsSource (br_offset (sa_range allocation))
           (br_offset exclusion)) ;;
      Ok source
  end.

Definition validate_staging_exclusions (source : list SourceAllocation)
    (exclusions : list ByteRange) : layout unit :=
  for_windows2 (fun first second =>
    first_end ← ByteRange_end first;
    refuse_if (br_offset second <? first_end)
      (StagingExclusionOverlap (br_offset first) (br_offset second))) exclusions ;;
  _ ← try_fold check_exclusion source exclusions;
  Ok tt.

(** ** Conflicts, occupied and free ranges *)

(** The inner scan over the reservations that start before the allocation ends. *)
Fixpoint scan_reservations (allocation : SourceAllocation) (source_end : N)
    (found : bool) (reservations : list DestinationReservation) : layout bool :=
  match reservations with
  | [] => Ok found
  | current :: rest =>
      if br_offset (dr_range current) <? source_end then
        overlapping ← overlaps (sa_range allocation) (dr_range current);
        if (overlapping : bool) then
          refuse_if (negb (sa_movable allocation))
            (ImmovableConflict (sa_stream allocation) (br_offset (sa_range allocation))
               (br_offset (dr_range current))) ;;
          scan_reservations allocation source_end true rest
        else scan_reservations allocation source_end found rest
      else Ok found
  end.

Definition collect_conflict (destination_domain : ByteRange) (destination_alignment maximum : N)
    (state : list DestinationReservation * list SourceAllocation)
    (allocation : SourceAllocation)
    : layout (list DestinationReservation * list SourceAllocation) :=
  let '(reservations, conflicts) := state in
  let range := sa_range allocation in
  reservations ← skip_ended dr_range (br_offset range) reservations;
  source_end ← ByteRange_end range;
  domain_end ← ByteRange_end destination_domain;
  misaligned ← rem_u64 (br_offset range) destination_alignment;
  let found := (br_offset range <? br_offset destination_domain)
    || (domain_end <? source_end) || negb (misaligned =? 0) in
  refuse_if (found && negb (sa_movable allocation))
    (ImmovableOutsideDestinationDomain (sa_stream allocation) (br_offset range)
       (br_offset destination_domain) (br_length destination_domain)
       destination_alignment) ;;
  found ← scan_reservations allocation source_end found reservations;
  if (found : bool) then
    refuse_if (maximum <=? len conflicts) (RelocationLimitExceeded maximum) ;;
    Ok (reservations, conflicts ++ [allocation])
  else Ok (reservations, conflicts).

Definition collect_conflicts (source : list SourceAllocation)
    (reservations : list DestinationReservation) (destination_domain : ByteRange)
    (destination_alignment maximum : N) : layout (list SourceAllocation) :=
  state ← try_fold (collect_conflict destination_domain destination_alignment maximum)
    (reservations, []) source;
  Ok state.2.

(** One round of the merge loop; [merged] is kept newest range first. *)
Definition merge_range (maximum : N) (merged : list ByteRange) (range : ByteRange)
    : layout (list ByteRange) :=
  let push :=
    refuse_if (maximum <=? len merged) (FreeRangeLimitExceeded maximum) ;;
    Ok (range :: merged) in
  match merged with
  | last :: earlier =>
      last_end ← ByteRange_end last;
      if br_offset range <=? last_end then
        range_end ← ByteRange_end range;
        let end_ := N.max range_end last_end in
        length ← sub_u64 end_ (br_offset last);
        Ok (mkByteRange (br_offset last) length :: earlier)
      else push
  | [] => push
  end.

Definition union_occupied (source : list SourceAllocation)
    (reservations : list DestinationReservation) (staging_exclusions : list ByteRange)
    (maximum : N) : layout (list ByteRange) :=
  let all := (sa_range <$> source) ++ (dr_range <$> reservations) ++ staging_exclusions in
  let all := sort_by_key br_offset all in
  merged ← try_fold (merge_range maximum) [] all;
  Ok (reverse merged).

(** One round of the gap loop; the state is the cursor and the gaps so far. *)
Definition free_gap (maximum : N) (state : N * list ByteRange) (range : ByteRange)
    : layout (N * list ByteRange) :=
  let '(cursor, free) := state in
  free ←
    (if cursor <? br_offset range then
       refuse_if (maximum <=? len free) (FreeRangeLimitExceeded maximum) ;;
       length ← sub_u64 (br_offset range) cursor;
       Ok (free ++ [mkByteRange cursor length])
     else Ok free);
  cursor ← ByteRange_end range;
  Ok (cursor, free).

Definition complement (volume_bytes : N) (occupied : list ByteRange) (maximum : N)
    : layout (list ByteRange) :=
  state ← try_fold (free_gap maximum) (0, []) occupied;
  let '(cursor, free) := state in
  if cursor <? volume_bytes then
    refuse_if (maximum <=? len free) (FreeRangeLimitExceeded maximum) ;;
    length ← sub_u64 volume_bytes cursor;
    Ok (free ++ [mkByteRange cursor length])
  else Ok free.

(** ** Allocation *)

(** [start.checked_add(alignment - 1)? & !(alignment - 1)]. *)
Definition align_offset (start alignment : N) : layout N :=
  mask ← sub_u64 alignment 1;
  sum ← ok_or AccountingOverflow (checked_add start mask);
  Ok (N.land sum (not_u64 mask)).

(** The part of the loop body that decides whether one free range can hold
    the request: the aligned offset, or [None] where the source continues. *)
Definition fit_in (range domain : ByteRange) (domain_end length alignment : N)
    : layout (option N) :=
  range_end ← ByteRange_end range;
  let candidate_start := N.max (br_offset range) (br_offset domain) in
  let candidate_end := N.min range_end domain_end in
  if candidate_end <=? candidate_start then Ok None
  else
    aligned_offset ← align_offset candidate_start alignment;
    destination_end ← ok_or AccountingOverflow (checked_add aligned_offset length);
    if candidate_end <? destination_end then Ok None else Ok (Some aligned_offset).

(** The rest of the body: what replaces the chosen range in a list of
    [free_len] ranges. *)
Definition carve (free_len maximum_ranges : N) (range : ByteRange)
    (aligned_offset length : N) : layout (list ByteRange) :=
  range_end ← ByteRange_end range;
  destination_end ← ok_or AccountingOverflow (checked_add aligned_offset length);
  prefix_length ← sub_u64 aligned_offset (br_offset range);
  suffix_length ← sub_u64 range_end destination_end;
  match prefix_length, suffix_length with
  | 0, 0 => Ok []
  | 0, suffix => Ok [mkByteRange destination_end suffix]
  | prefix, 0 => Ok [mkByteRange (br_offset range) prefix]
  | prefix, suffix =>
      refuse_if (maximum_ranges <=? free_len) (FreeRangeLimitExceeded maximum_ranges) ;;
      Ok [mkByteRange (br_offset range) prefix; mkByteRange destination_end suffix]
  end.

(** The scan over [position]: [seen] are the ranges before it. *)
Fixpoint first_fit_from (seen free : list ByteRange) (domain : ByteRange)
    (domain_end length alignment maximum_ranges : N)
    : layout (list ByteRange * option ByteRange) :=
  match free with
  | [] => Ok (seen, None)
  | range :: rest =>
      fit ← fit_in range domain domain_end length alignment;
      match fit with
      | None => first_fit_from (seen ++ [range]) rest domain domain_end length alignment
                  maximum_ranges
      | Some aligned_offset =>
          pieces ← carve (len (seen ++ free)) maximum_ranges range aligned_offset length;
          Ok (seen ++ pieces ++ rest, Some (mkByteRange aligned_offset length))
      end
  end.

(** The updated free list and the placement. *)
Definition allocate_first_fit_aligned_within (free : list ByteRange) (length alignment : N)
    (domain : ByteRange) (maximum_ranges : N)
    : layout (list ByteRange * option ByteRange) :=
  domain_end ← ByteRange_end domain;
  first_fit_from [] free domain domain_end length alignment maximum_ranges.

(** The measuring loop of the fragmented allocator: the length of the next
    fragment. *)
Fixpoint next_fragment (working : list ByteRange) (domain : ByteRange)
    (domain_end alignment remaining : N) : layout (option N) :=
  match working with
  | [] => Ok None
  | range :: rest =>
      range_end ← ByteRange_end range;
      let candidate_start := N.max (br_offset range) (br_offset domain) in
      let candidate_end := N.min range_end domain_end in
      if candidate_end <=? candidate_start then
        next_fragment rest domain domain_end alignment remaining
      else
        aligned_start ← align_offset candidate_start alignment;
        if candidate_end <=? aligned_start then
          next_fragment rest domain domain_end alignment remaining
        else
          mask ← sub_u64 alignment 1;
          span ← sub_u64 candidate_end aligned_start;
          let usable := N.land span (not_u64 mask) in
          if negb (usable =? 0) then Ok (Some (N.min usable remaining))
          else next_fragment rest domain domain_end alignment remaining
  end.

(** [while remaining != 0].  Every round takes at least [alignment] bytes, so
    [length / alignment + 1] rounds are enough. *)
Fixpoint fragment_loop (fuel : nat) (working allocated : list ByteRange)
    (remaining alignment : N) (domain : ByteRange)
    (domain_end maximum_ranges maximum_free_ranges : N)
    : layout (list ByteRange * option (list ByteRange)) :=
  match fuel with
  | O => Panic
  | S fuel =>
      if remaining =? 0 then Ok (working, Some allocated)
      else
        next ← next_fragment working domain domain_end alignment remaining;
        match next with
        | None => Ok (working, None)
        | Some next_length =>
            refuse_if (len allocated =? maximum_ranges)
              (RelocationLimitExceeded maximum_ranges) ;;
            step ← allocate_first_fit_aligned_within working next_length alignment domain
              maximum_free_ranges;
            range ← expect step.2;
            remaining ← sub_u64 remaining next_length;
            fragment_loop fuel step.1 (allocated ++ [range]) remaining alignment domain
              domain_end maximum_ranges maximum_free_ranges
        end
  end.

Definition allocate_first_fit_fragmented_aligned_within (free : list ByteRange)
    (length alignment : N) (domain : ByteRange) (maximum_ranges maximum_free_ranges : N)
    : layout (list ByteRange * option (list ByteRange)) :=
  refuse_if ((alignment =? 0) || negb (is_power_of_two alignment))
    (InvalidAlignment alignment) ;;
  length_rest ← rem_u64 length alignment;
  refuse_if ((length =? 0) || negb (length_rest =? 0)) (UnalignedRange 0 length alignment) ;;
  refuse_if (br_length domain =? 0) (ZeroLengthRange (br_offset domain)) ;;
  _ ← ByteRange_end domain;
  offset_rest ← rem_u64 (br_offset domain) alignment;
  domain_rest ← rem_u64 (br_length domain) alignment;
  refuse_if (negb (offset_rest =? 0) || negb (domain_rest =? 0))
    (UnalignedRange (br_offset domain) (br_length domain) alignment) ;;
  refuse_if (maximum_ranges =? 0) (RelocationLimitExceeded maximum_ranges) ;;
  refuse_if (maximum_free_ranges =? 0) (InvalidLimit "max_free_ranges") ;;
  domain_end ← ByteRange_end domain;
  result ← fragment_loop (S (N.to_nat (length / alignment))) free [] length alignment
    domain domain_end maximum_ranges maximum_free_ranges;
  match result.2 with
  | None => Ok (free, None)
  | Some allocated => Ok (result.1, Some allocated)
  end.

Definition measure_capacity (domain : ByteRange) (domain_end alignment : N)
    (state : N * N) (range : ByteRange) : layout (N * N) :=
  start ← align_offset (N.max (br_offset range) (br_offset domain)) alignment;
  range_end ← ByteRange_end range;
  let end_ := N.min range_end domain_end in
  if end_ <=? start then Ok state
  else
    length ← sub_u64 end_ start;
    total ← ok_or AccountingOverflow (checked_add state.2 length);
    Ok (N.max state.1 length, total).

Definition free_capacity_within (free : list ByteRange) (domain : ByteRange) (alignment : N)
    : layout (N * N) :=
  domain_end ← ByteRange_end domain;
  try_fold (measure_capacity domain domain_end alignment) (0, 0) free.

(** The error value of a failed allocation; [unwrap_or((0, 0))]. *)
Definition insufficient_space {A : Type} (free : list ByteRange) (required : N)
    (domain : ByteRange) (alignment : N) : layout A :=
  match free_capacity_within free domain alignment with
  | Ok (largest_free_range, total_free) =>
      Err (InsufficientStagingSpace required largest_free_range total_free)
  | Err _ => Err (InsufficientStagingSpace required 0 0)
  | Panic => Panic
  end.

Definition ensure_work_range_cap (materialization_ranges relocation_ranges maximum : N)
    : layout unit :=
  total ← ok_or AccountingOverflow (checked_add materialization_ranges relocation_ranges);
  refuse_if (maximum <? total) (RelocationLimitExceeded maximum).

(** ** The solver *)

(** The trial allocation over a copy of the free list. *)
Fixpoint materializations_fit_contiguously (trial : list ByteRange)
    (requests : list MaterializationRequest) (alignment : N) (domain : ByteRange)
    (maximum_free_ranges : N) : layout bool :=
  match requests with
  | [] => Ok true
  | request :: rest =>
      step ← allocate_first_fit_aligned_within trial (mr_destination_length request)
        alignment domain maximum_free_ranges;
      match step.2 with
      | None => Ok false
      | Some _ =>
          materializations_fit_contiguously step.1 rest alignment domain maximum_free_ranges
      end
  end.

Record MaterializationState : Type := mkMaterializationState {
  ms_free : list ByteRange;
  ms_materializations : list Materialization;
  ms_materialized_bytes : N;
  ms_range_count : N
}.

(** The contiguous branch: [.map(|range| vec![range])]. *)
Definition allocate_contiguous (free : list ByteRange) (length alignment : N)
    (domain : ByteRange) (maximum_free_ranges : N)
    : layout (list ByteRange * option (list ByteRange)) :=
  step ← allocate_first_fit_aligned_within free length alignment domain
    maximum_free_ranges;
  Ok (step.1, match step.2 with Some range => Some [range] | None => None end).

Definition place_request (alignment : N) (domain : ByteRange) (limits : LayoutLimits)
    (allow_fragmented : bool) (state : MaterializationState)
    (request : MaterializationRequest) : layout MaterializationState :=
  let length := mr_destination_length request in
  remaining_range_capacity ← ok_or (RelocationLimitExceeded (ll_max_relocations limits))
    (checked_sub (ll_max_relocations limits) (ms_range_count state));
  placed ←
    (if allow_fragmented then
       allocate_first_fit_fragmented_aligned_within (ms_free state) length alignment domain
         remaining_range_capacity (ll_max_free_ranges limits)
     else allocate_contiguous (ms_free state) length alignment domain
            (ll_max_free_ranges limits));
  let '(free, found) := placed in
  destinations ← match found with
                 | Some destinations => Ok destinations
                 | None => insufficient_space free length domain alignment
                 end;
  range_count ← ok_or AccountingOverflow
    (checked_add (ms_range_count state) (len destinations));
  materialized_bytes ← ok_or AccountingOverflow
    (checked_add (ms_materialized_bytes state) length);
  Ok (mkMaterializationState free
        (ms_materializations state ++ [mkMaterialization (mr_stream request) destinations])
        materialized_bytes range_count).

Definition allocate_materialization_requests (free : list ByteRange)
    (requests : list MaterializationRequest) (alignment : N) (domain : ByteRange)
    (limits : LayoutLimits) (allow_fragmented : bool) : layout MaterializationState :=
  try_fold (place_request alignment domain limits allow_fragmented)
    (mkMaterializationState free [] 0 0) requests.

Record RelocationState : Type := mkRelocationState {
  rs_free : list ByteRange;
  rs_relocations : list Relocation;
  rs_relocated_bytes : N
}.

Definition place_conflict (alignment : N) (domain : ByteRange) (maximum_free_ranges : N)
    (state : RelocationState) (allocation : SourceAllocation) : layout RelocationState :=
  let length := br_length (sa_range allocation) in
  step ← allocate_first_fit_aligned_within (rs_free state) length alignment domain
    maximum_free_ranges;
  destination ← match step.2 with
                | Some destination => Ok destination
                | None => insufficient_space step.1 length domain alignment
                end;
  relocated_bytes ← ok_or AccountingOverflow
    (checked_add (rs_relocated_bytes state) length);
  Ok (mkRelocationState step.1
        (rs_relocations state ++
           [mkRelocation (sa_stream allocation) (sa_logical_offset allocation)
              (sa_range allocation) destination])
        relocated_bytes).

Definition allocate_relocation_conflicts (free : list ByteRange)
    (conflicts : list SourceAllocation) (alignment : N) (domain : ByteRange)
    (maximum_free_ranges : N) : layout RelocationState :=
  try_fold (place_conflict alignment domain maximum_free_ranges)
    (mkRelocationState free [] 0) conflicts.

(** What one of the two placement orders yields: the ranges left free and the
    placements. *)
Record Placements : Type := mkPlacements {
  pc_free : list ByteRange;
  pc_relocations : list Relocation;
  pc_relocated_bytes : N;
  pc_materializations : list Materialization;
  pc_materialized_bytes : N
}.

Definition allocate_relocations_then_fragmented_materializations (free : list ByteRange)
    (conflicts : list SourceAllocation) (requests : list MaterializationRequest)
    (alignment : N) (domain : ByteRange) (limits : LayoutLimits) : layout Placements :=
  rs ← allocate_relocation_conflicts free conflicts alignment domain
    (ll_max_free_ranges limits);
  remaining_ranges ← ok_or (RelocationLimitExceeded (ll_max_relocations limits))
    (checked_sub (ll_max_relocations limits) (len (rs_relocations rs)));
  let materialization_limits := {|
    ll_max_source_extents := ll_max_source_extents limits;
    ll_max_reservations := ll_max_reservations limits;
    ll_max_free_ranges := ll_max_free_ranges limits;
    ll_max_relocations := remaining_ranges
  |} in
  ms ← allocate_materialization_requests (rs_free rs) requests alignment domain
    materialization_limits true;
  Ok (mkPlacements (ms_free ms) (rs_relocations rs) (rs_relocated_bytes rs)
        (ms_materializations ms) (ms_materialized_bytes ms)).

(** The closure [contiguous_attempt]. *)
Definition contiguous_attempt (free : list ByteRange) (conflicts : list SourceAllocation)
    (requests : list MaterializationRequest) (alignment : N) (domain : ByteRange)
    (limits : LayoutLimits) : layout Placements :=
  ms ← allocate_materialization_requests free requests alignment domain limits false;
  ensure_work_range_cap (ms_range_count ms) (len conflicts) (ll_max_relocations limits) ;;
  rs ← allocate_relocation_conflicts (ms_free ms) conflicts alignment domain
    (ll_max_free_ranges limits);
  Ok (mkPlacements (rs_free rs) (rs_relocations rs) (rs_relocated_bytes rs)
        (ms_materializations ms) (ms_materialized_bytes ms)).

Definition place_all (free : list ByteRange) (conflicts : list SourceAllocation)
    (requests : list MaterializationRequest) (alignment : N) (domain : ByteRange)
    (limits : LayoutLimits) : layout Placements :=
  all_fit ← materializations_fit_contiguously free requests alignment domain
    (ll_max_free_ranges limits);
  if (all_fit : bool) then
    match contiguous_attempt free conflicts requests alignment domain limits with
    | Ok result => Ok result
    | Err (InsufficientStagingSpace _ _ _) =>
        allocate_relocations_then_fragmented_materializations free conflicts requests
          alignment domain limits
    | Err error => Err error
    | Panic => Panic
    end
  else
    allocate_relocations_then_fragmented_materializations free conflicts requests
      alignment domain limits.

Record LayoutInput : Type := mkLayoutInput {
  li_volume_bytes : N;
  li_source_alignment : N;
  li_destination_alignment : N;
  li_io_alignment : N;
  li_destination_domain : ByteRange;
  li_require_aligned_domain : bool;
  li_source : list SourceAllocation;
  li_reservations : list DestinationReservation;
  li_staging_exclusions : list ByteRange;
  li_materialization_requests : list MaterializationRequest;
  li_limits : LayoutLimits
}.

(** The validation that precedes sorting. *)
Definition validate_layout_input (input : LayoutInput) : layout unit :=
  let limits := li_limits input in
  validate_limits limits ;;
  validate_alignments [li_source_alignment input; li_destination_alignment input;
                       li_io_alignment input] ;;
  protected_count ← ok_or AccountingOverflow
    (checked_add (len (li_source input)) (len (li_staging_exclusions input)));
  refuse_if (ll_max_source_extents limits <? protected_count)
    (SourceLimitExceeded protected_count (ll_max_source_extents limits)) ;;
  refuse_if (ll_max_reservations limits <? len (li_reservations input))
    (ReservationLimitExceeded (len (li_reservations input)) (ll_max_reservations limits)) ;;
  validate_ranges (li_volume_bytes input) (li_source_alignment input)
    (li_io_alignment input) (li_source input) (li_reservations input) ;;
  (if li_require_aligned_domain input
   then validate_range (li_volume_bytes input) (li_destination_alignment input)
          (li_destination_domain input)
   else validate_range (li_volume_bytes input) (li_io_alignment input)
          (li_destination_domain input)) ;;
  validate_destination_lengths (li_source input) (li_destination_alignment input) ;;
  validate_materialization_requests (li_source input) (li_materialization_requests input)
    (li_destination_alignment input) (ll_max_relocations limits) ;;
  for_each (validate_range (li_volume_bytes input) (li_io_alignment input))
    (li_staging_exclusions input).

Definition largest_range (free : list ByteRange) : N :=
  foldr (fun range largest => N.max (br_length range) largest) 0 free.

Definition solve_layout_with_domain_and_alignments_inner (input : LayoutInput)
    : layout LayoutPlan :=
  let limits := li_limits input in
  let alignment := li_destination_alignment input in
  let domain := li_destination_domain input in
  validate_layout_input input ;;
  let source := sort_by_key (fun value => br_offset (sa_range value)) (li_source input) in
  let reservations :=
    sort_by_key (fun value => br_offset (dr_range value)) (li_reservations input) in
  let staging_exclusions := sort_by_key br_offset (li_staging_exclusions input) in
  validate_nonoverlap_source source ;;
  validate_nonoverlap_reservations reservations ;;
  validate_staging_exclusions source staging_exclusions ;;
  conflicts ← collect_conflicts source reservations domain alignment
    (ll_max_relocations limits);
  occupied ← union_occupied source reservations staging_exclusions
    (ll_max_free_ranges limits);
  free ← complement (li_volume_bytes input) occupied (ll_max_free_ranges limits);
  placed ← place_all free conflicts (li_materialization_requests input) alignment domain
    limits;
  Ok (mkLayoutPlan (pc_relocations placed) (pc_materializations placed) (pc_free placed)
        (pc_relocated_bytes placed) (pc_materialized_bytes placed)
        (largest_range (pc_free placed))).

(** ** Entry points *)
Definition solve_layout_with_staging_exclusions_and_io_alignment
    (volume_bytes relocation_alignment io_alignment : N) (source : list SourceAllocation)
    (reservations : list DestinationReservation) (staging_exclusions : list ByteRange)
    (limits : LayoutLimits) : layout LayoutPlan :=
  solve_layout_with_domain_and_alignments_inner
    (mkLayoutInput volume_bytes relocation_alignment relocation_alignment io_alignment
       (mkByteRange 0 volume_bytes) false source reservations staging_exclusions [] limits).

Definition solve_layout_with_staging_exclusions (volume_bytes alignment : N)
    (source : list SourceAllocation) (reservations : list DestinationReservation)
    (staging_exclusions : list ByteRange) (limits : LayoutLimits) : layout LayoutPlan :=
  solve_layout_with_staging_exclusions_and_io_alignment volume_bytes alignment alignment
    source reservations staging_exclusions limits.

Definition solve_layout (volume_bytes alignment : N) (source : list SourceAllocation)
    (reservations : list DestinationReservation) (limits : LayoutLimits)
    : layout LayoutPlan :=
  solve_layout_with_staging_exclusions volume_bytes alignment source reservations [] limits.

Definition solve_layout_with_destination_domain_alignments_and_materializations
    (volume_bytes source_alignment destination_alignment io_alignment : N)
    (destination_domain : ByteRange) (source : list SourceAllocation)
    (reservations : list DestinationReservation) (staging_exclusions : list ByteRange)
    (materializations : list MaterializationRequest) (limits : LayoutLimits)
    : layout LayoutPlan :=
  validate_alignments [source_alignment; destination_alignment; io_alignment] ;;
  rest ← rem_u64 destination_alignment io_alignment;
  refuse_if (negb (rest =? 0)) (IncompatibleAlignments io_alignment destination_alignment) ;;
  solve_layout_with_domain_and_alignments_inner
    (mkLayoutInput volume_bytes source_alignment destination_alignment io_alignment
       destination_domain true source reservations staging_exclusions materializations
       limits).

Definition solve_layout_with_destination_domain_and_alignments
    (volume_bytes source_alignment destination_alignment io_alignment : N)
    (destination_domain : ByteRange) (source : list SourceAllocation)
    (reservations : list DestinationReservation) (staging_exclusions : list ByteRange)
    (limits : LayoutLimits) : layout LayoutPlan :=
  solve_layout_with_destination_domain_alignments_and_materializations volume_bytes
    source_alignment destination_alignment io_alignment destination_domain source
    reservations staging_exclusions [] limits.

(** * Specification *)

Definition range_before : ByteRange -> ByteRange -> Prop := before br_offset br_length.
Definition range_apart : ByteRange -> ByteRange -> Prop := apart br_offset br_length.
Definition range_end (r : ByteRange) : N := br_offset r + br_length r.

(** Byte [p] lies in one of the ranges. *)
Definition covered (p : N) (l : list ByteRange) : Prop :=
  exists r, r ∈ l /\ in_range (br_offset r) (br_length r) p.

(** A list of free ranges of a volume of [v] bytes: increasing and disjoint. *)
Definition free_ok (v : N) (l : list ByteRange) : Prop :=
  Forall (fun r => 0 < br_length r /\ range_end r <= v) l /\
  StronglySorted range_before l.

(** [Y] splits the bytes of [X] into disjoint nonempty ranges. *)
Definition splits (X Y : list ByteRange) : Prop :=
  Forall (fun r => 0 < br_length r) Y /\
  disjoint_ranges br_offset br_length Y /\
  forall p, covered p Y <-> covered p X.

(** [length] bytes at [a] lie in [r] and in the domain, and [a] is aligned. *)
Definition fits (r domain : ByteRange) (alignment length a : N) : Prop :=
  br_offset r <= a /\ br_offset domain <= a /\
  a + length <= range_end r /\ a + length <= range_end domain /\
  a mod alignment = 0.

(** A destination the target filesystem can use. *)
Definition placed (domain : ByteRange) (alignment : N) (d : ByteRange) : Prop :=
  br_offset domain <= br_offset d /\ range_end d <= range_end domain /\
  br_offset d mod alignment = 0.

(** A power of two that fits in [u64]. *)
Definition alignment_ok (alignment : N) : Prop :=
  is_power_of_two alignment = true /\ alignment <= u64_max.

(** * Proofs *)

(** ** Ranges *)
Lemma ByteRange_end_Ok r e : ByteRange_end r = Ok e <-> e = range_end r /\ range_end r <= u64_max.
Proof. unfold ByteRange_end. by rewrite ok_or_Ok, checked_add_Some. Qed.
Lemma ByteRange_end_safe r : ByteRange_end r <> Panic.
Proof. apply ok_or_safe. Qed.
Lemma ByteRange_end_in r : range_end r <= u64_max -> ByteRange_end r = Ok (range_end r).
Proof. intros. by apply ByteRange_end_Ok. Qed.

Lemma covered_nil p : covered p [] <-> False.
Proof. unfold covered. split; [intros (r & Hr & _); by apply not_elem_of_nil in Hr | done]. Qed.
Lemma covered_cons p r l :
  covered p (r :: l) <-> in_range (br_offset r) (br_length r) p \/ covered p l.
Proof.
  unfold covered. split.
  - intros (x & Hx & Hp). apply elem_of_cons in Hx as [->|Hx]; eauto.
  - intros [Hp|(x & Hx & Hp)]; eexists; (split; [|exact Hp]); [left | by right].
Qed.
Lemma covered_app p l1 l2 : covered p (l1 ++ l2) <-> covered p l1 \/ covered p l2.
Proof.
  induction l1 as [|r l1 IH]; simpl.
  - rewrite covered_nil. tauto.
  - rewrite !covered_cons, IH. tauto.
Qed.
Lemma covered_perm p l1 l2 : l1 ≡ₚ l2 -> covered p l1 <-> covered p l2.
Proof. intros Hp. unfold covered. by setoid_rewrite Hp. Qed.

Lemma splits_refl v l : free_ok v l -> splits l l.
Proof.
  intros [Hf Hs]. split; [|split; [|done]].
  - eapply Forall_impl; [exact Hf | by intros ? []].
  - eapply StronglySorted_impl, Hs. intros ??. by left.
Qed.

Lemma splits_perm X Y Y' : Y ≡ₚ Y' -> splits X Y -> splits X Y'.
Proof.
  intros Hp (Hf & Hd & Hc). split; [by rewrite <- Hp | split].
  - by eapply disjoint_ranges_perm.
  - intros p. rewrite <- (covered_perm p _ _ Hp). apply Hc.
Qed.

(** Ranges that share no byte are apart. *)
Lemma bytes_apart r s :
  0 < br_length r -> 0 < br_length s ->
  (forall p, in_range (br_offset r) (br_length r) p ->
             in_range (br_offset s) (br_length s) p -> False) ->
  range_apart r s.
Proof.
  intros Hr Hs Hp. unfold range_apart, apart, before. unfold in_range in Hp.
  destruct (N.le_gt_cases (br_offset r) (br_offset s)) as [Ho|Ho].
  - destruct (N.le_gt_cases (br_offset r + br_length r) (br_offset s)); [by left |].
    exfalso. apply (Hp (br_offset s)); lia.
  - destruct (N.le_gt_cases (br_offset s + br_length s) (br_offset r)); [by right |].
    exfalso. apply (Hp (br_offset r)); lia.
Qed.

Lemma disjoint_not_covered l r p :
  Forall (range_apart r) l -> in_range (br_offset r) (br_length r) p -> ~ covered p l.
Proof.
  intros Hf Hp (s & Hs & Hps). rewrite Forall_forall in Hf.
  by eapply apart_spec; [apply Hf | ..].
Qed.

(** Splitting the rest of a split. *)
Lemma splits_trans X A B C :
  splits X (A ++ B) -> splits B C -> splits X (A ++ C).
Proof.
  intros (Hf1 & Hd1 & Hc1) (Hf2 & Hd2 & Hc2).
  apply Forall_app in Hf1 as [HfA HfB].
  unfold disjoint_ranges in *. apply StronglySorted_app_iff in Hd1 as (HdA & HdB & Hx).
  split; [by apply Forall_app | split].
  - apply StronglySorted_app_iff. split; [done | split; [done |]].
    intros x y Hxa Hyc. rewrite Forall_forall in HfA, Hf2.
    apply bytes_apart; [by apply HfA | by apply Hf2 |]. intros p Hp1 Hp2.
    apply (disjoint_not_covered B x p); [| done |].
    + apply Forall_forall. intros z Hz. by apply Hx.
    + apply Hc2. by exists y.
  - intros p. rewrite <- Hc1, !covered_app, Hc2. done.
Qed.

(** ** Alignment *)
Lemma alignment_pos a : alignment_ok a -> 0 < a.
Proof. intros [[k ->]%is_power_of_two_spec _]. apply N.neq_0_lt_0, N.pow_nonzero. lia. Qed.

Lemma alignment_pow a : alignment_ok a -> exists k, k <= 64 /\ a = 2 ^ k.
Proof.
  intros [[k ->]%is_power_of_two_spec Hm]. exists k. split; [|done].
  destruct (N.le_gt_cases k 64); [done | exfalso].
  assert (2 ^ 64 < 2 ^ k) by (apply N.pow_lt_mono_r; lia).
  change (2 ^ 64) with (N.succ u64_max) in *. lia.
Qed.

(** Rounding down with the mask of a power of two. *)
Lemma mask_down a x :
  alignment_ok a -> x <= u64_max -> N.land x (not_u64 (a - 1)) = a * (x / a).
Proof. intros (k & Hk & ->)%alignment_pow Hx. by apply land_not_mask. Qed.

Lemma round_down a x : 0 < a -> a * (x / a) <= x /\ x < a * (x / a) + a /\ (a * (x / a)) mod a = 0.
Proof.
  intros Ha. pose proof (N.Div0.div_mod x a) as Hd.
  pose proof (N.mod_lt x a ltac:(lia)) as Hl. set (q := x / a) in *.
  set (r := x mod a) in *. clearbody q r.
  split_and!; [lia | lia | by rewrite N.mul_comm, N.Div0.mod_mul].
Qed.

Lemma mod_0_mul a x : 0 < a -> x mod a = 0 -> exists n, x = a * n.
Proof. intros Ha Hx. exists (x / a). pose proof (N.Div0.div_mod x a) as Hd. rewrite Hx in Hd. lia. Qed.

Lemma mod_0_add a x y : x mod a = 0 -> y mod a = 0 -> (x + y) mod a = 0.
Proof. intros Hx Hy. by rewrite N.Div0.add_mod, Hx, Hy, N.Div0.mod_0_l. Qed.

Lemma mod_0_sub a x y : 0 < a -> x mod a = 0 -> y mod a = 0 -> (x - y) mod a = 0.
Proof.
  intros Ha Hx Hy. apply mod_0_mul in Hx as [n ->]; [|done].
  apply mod_0_mul in Hy as [m ->]; [|done].
  by rewrite <- N.mul_sub_distr_l, N.mul_comm, N.Div0.mod_mul.
Qed.

Lemma mod_0_le a x : x mod a = 0 -> 0 < x -> a <= x.
Proof.
  intros Hx Hp. destruct (N.le_gt_cases a x); [done |].
  rewrite N.mod_small in Hx; lia.
Qed.

(** A multiple between [round_down x] and [x] is [round_down x]. *)
Lemma round_down_greatest a x m : 0 < a -> m mod a = 0 -> m <= x -> m <= a * (x / a).
Proof.
  intros Ha Hm Hx. apply mod_0_mul in Hm as [n ->]; [|done].
  apply N.mul_le_mono_l. apply N.div_le_lower_bound; lia.
Qed.

Lemma align_offset_Ok start a r :
  alignment_ok a -> align_offset start a = Ok r ->
  start <= r /\ r mod a = 0 /\ forall m, m mod a = 0 -> start <= m -> r <= m.
Proof.
  intros Ha H. unfold align_offset in H. inv_ok.
  pose proof (alignment_pos _ Ha) as Hp. rewrite mask_down by done.
  pose proof (round_down a (start + (a - 1)) Hp) as (H1 & H2 & H3).
  split; [lia | split; [done |]]. intros m Hm Hs.
  apply mod_0_mul in Hm as [n ->]; [|done].
  apply N.mul_le_mono_l, N.lt_succ_r, N.Div0.div_lt_upper_bound. lia.
Qed.

Lemma align_offset_safe start a : alignment_ok a -> align_offset start a <> Panic.
Proof. intros Ha%alignment_pos. unfold align_offset. safe. apply sub_u64_safe. lia. Qed.

(** ** First fit *)
Section FirstFit.
#[local] Set Default Proof Using "Type*".
Context (domain : ByteRange) (alignment length : N).
Hypothesis Halign : alignment_ok alignment.

Let fit (r : ByteRange) (a : N) : Prop := fits r domain alignment length a.

Lemma fit_in_Some r a :
  fit_in r domain (range_end domain) length alignment = Ok (Some a) ->
  fit r a /\ (forall b, fit r b -> a <= b) /\ range_end r <= u64_max.
Proof.
  unfold fit_in. intros H. inv_ok. apply ByteRange_end_Ok in Hok as [-> Hr].
  destruct (N.leb_spec (N.min (range_end r) (range_end domain))
                       (N.max (br_offset r) (br_offset domain))); [discriminate |].
  inv_ok. case_match; [discriminate | inv_ok]; bool_props.
  apply align_offset_Ok in Hok as (Hs & Hm & Hl); [|done].
  unfold fit, fits. split; [repeat split; lia || done | split; [|done]].
  intros b (? & ? & ? & ? & ?). apply Hl; [done | lia].
Qed.

Lemma fit_in_None r :
  0 < length ->
  fit_in r domain (range_end domain) length alignment = Ok None -> forall b, ~ fit r b.
Proof.
  unfold fit_in. intros Hlen H b (H1 & H2 & H3 & H4 & H5). inv_ok.
  apply ByteRange_end_Ok in Hok as [-> Hr].
  destruct (N.leb_spec (N.min (range_end r) (range_end domain))
                       (N.max (br_offset r) (br_offset domain))); [lia |].
  inv_ok. case_match; [|discriminate]. bool_props.
  apply align_offset_Ok in Hok as (Hs & Hm & Hl); [|done].
  specialize (Hl b H5). lia.
Qed.

Lemma fit_in_safe r e : fit_in r domain e length alignment <> Panic.
Proof.
  unfold fit_in. safe; [apply ByteRange_end_safe | by apply align_offset_safe].
Qed.

(** The pieces that remain of a range. *)
Definition remnants (r : ByteRange) (a : N) : list ByteRange :=
  filter (fun s => 0 < br_length s)
    [mkByteRange (br_offset r) (a - br_offset r);
     mkByteRange (a + length) (range_end r - (a + length))].

Lemma carve_Ok n maximum r a pieces :
  carve n maximum r a length = Ok pieces -> fit r a -> pieces = remnants r a.
Proof.
  intros H (H1 & H2 & H3 & H4 & H5). unfold carve in H. inv_ok.
  apply ByteRange_end_Ok in Hok as [-> Hr]. unfold remnants.
  rewrite !filter_cons, filter_nil. simpl.
  destruct (a - br_offset r) as [|p] eqn:Ep, (range_end r - (a + length)) as [|q] eqn:Eq;
    inv_ok; repeat case_decide; done || lia.
Qed.

Lemma carve_safe n maximum r a : fit r a -> carve n maximum r a length <> Panic.
Proof.
  intros (H1 & H2 & H3 & H4 & H5). unfold carve. safe.
  - apply ByteRange_end_safe.
  - apply sub_u64_safe. lia.
  - inv_ok. match goal with H : ByteRange_end _ = _ |- _ => apply ByteRange_end_Ok in H as [-> ?] end.
    apply sub_u64_safe. lia.
Qed.

Lemma first_fit_from_spec seen free maximum out found :
  0 < length ->
  first_fit_from seen free domain (range_end domain) length alignment maximum
    = Ok (out, found) ->
  match found with
  | None => out = seen ++ free /\ Forall (fun r => forall a, ~ fit r a) free
  | Some d =>
      exists skipped r rest,
        free = skipped ++ r :: rest /\
        out = seen ++ skipped ++ remnants r (br_offset d) ++ rest /\
        br_length d = length /\ fit r (br_offset d) /\
        (forall b, fit r b -> br_offset d <= b) /\
        Forall (fun r => forall a, ~ fit r a) skipped
  end.
Proof.
  intros Hlen. revert seen. induction free as [|r free IH]; intros seen H; simpl in H.
  { inv_ok. simplify_eq. by rewrite app_nil_r. }
  inv_ok. destruct a as [a|].
  - inv_ok. simplify_eq. apply fit_in_Some in Hok as (Hf & Hl & _).
    apply carve_Ok in Hok0 as ->; [|done]. by exists [], r, free.
  - apply IH in H. pose proof (fit_in_None r Hlen Hok) as Hno. destruct found as [d|].
    + destruct H as (skipped & s & rest & -> & -> & ? & ? & ? & ?).
      exists (r :: skipped), s, rest.
      split; [done | split; [by rewrite <- !app_assoc |]]. split_and!; try done.
      by constructor.
    + destruct H as [-> ?]. split; [by rewrite <- app_assoc | by constructor].
Qed.

Lemma first_fit_from_safe seen free maximum :
  first_fit_from seen free domain (range_end domain) length alignment maximum <> Panic.
Proof.
  revert seen. induction free as [|r free IH]; intros seen; simpl; [done |].
  apply bind_safe; [apply fit_in_safe |]. intros [a|] Hf; [|apply IH].
  apply fit_in_Some in Hf as (Hf & _). safe. by apply carve_safe.
Qed.
End FirstFit.

(** ** Free lists *)
Lemma replace_sorted (A B P : list ByteRange) r :
  StronglySorted range_before (A ++ r :: B) -> StronglySorted range_before P ->
  (forall x, x ∈ P -> br_offset r <= br_offset x /\ range_end x <= range_end r) ->
  StronglySorted range_before (A ++ P ++ B).
Proof.
  intros Hs HP Hin. apply StronglySorted_app_iff in Hs as (HA & HrB & Hx).
  apply StronglySorted_inv in HrB as [HB Hr]. rewrite Forall_forall in Hr.
  unfold range_before, before, range_end in *.
  apply StronglySorted_app_iff. split; [done | split].
  - apply StronglySorted_app_iff. split; [done | split; [done |]].
    intros x y Hxp Hyb. specialize (Hin x Hxp). specialize (Hr y Hyb). lia.
  - intros x y Hxa [Hy|Hy]%elem_of_app.
    + specialize (Hx x r Hxa ltac:(left)). specialize (Hin y Hy). lia.
    + apply Hx; [done | by right].
Qed.

Lemma elem_of_remnants length r a x :
  a + length <= range_end r -> br_offset r <= a -> x ∈ remnants length r a ->
  0 < br_length x /\
  ((br_offset x = br_offset r /\ range_end x = a) \/
   (br_offset x = a + length /\ range_end x = range_end r)).
Proof.
  intros He Ho Hx. unfold remnants in Hx. apply list_elem_of_filter in Hx as [Hp Hx].
  split; [done |]. unfold range_end in *.
  apply elem_of_cons in Hx as [->|Hx]; [left; simpl in *; lia |].
  apply list_elem_of_singleton in Hx as ->. right. simpl in *. lia.
Qed.

Lemma remnants_sorted length r a :
  br_offset r <= a -> a + length <= range_end r ->
  StronglySorted range_before (remnants length r a).
Proof.
  intros Ho He. unfold remnants. rewrite !filter_cons, filter_nil.
  repeat case_decide; repeat constructor. unfold range_before, before. simpl in *. lia.
Qed.

Lemma covered_remnants length r a p :
  br_offset r <= a -> a + length <= range_end r ->
  in_range a length p \/ covered p (remnants length r a) <->
  in_range (br_offset r) (br_length r) p.
Proof.
  intros Ho He. unfold remnants. rewrite !filter_cons, filter_nil. unfold range_end in *.
  repeat case_decide; repeat rewrite covered_cons; rewrite ?covered_nil;
    unfold in_range; simpl in *; lia.
Qed.

Lemma remnants_free_ok v length A r B a :
  br_offset r <= a -> a + length <= range_end r ->
  free_ok v (A ++ r :: B) -> free_ok v (A ++ remnants length r a ++ B).
Proof.
  intros Ho He [Hf Hs]. split.
  - apply Forall_app in Hf as [HA HrB]. apply Forall_cons in HrB as [Hr HB].
    apply Forall_app. split; [done |]. apply Forall_app. split; [|done].
    apply Forall_forall. intros x Hx.
    apply elem_of_remnants in Hx as [? Hx]; [lia | done | done].
  - eapply replace_sorted; [exact Hs | by apply remnants_sorted |].
    intros x Hx. apply elem_of_remnants in Hx as [? Hx]; [|done..].
    unfold range_end in *. lia.
Qed.

(** Taking [length] bytes out of one range of a free list. *)
Lemma remnants_splits v length A r B a :
  0 < length -> br_offset r <= a -> a + length <= range_end r ->
  free_ok v (A ++ r :: B) ->
  splits (A ++ r :: B) (mkByteRange a length :: A ++ remnants length r a ++ B).
Proof.
  intros Hl Ho He Hfree. pose proof (remnants_free_ok _ _ _ _ _ _ Ho He Hfree) as [Hf' Hs'].
  destruct Hfree as [Hf Hs]. split; [|split].
  - constructor; [done |]. eapply Forall_impl; [exact Hf' | by intros ? []].
  - constructor; [eapply StronglySorted_impl, Hs'; intros ??; by left |].
    apply StronglySorted_app_iff in Hs as (_ & HrB & HA).
    apply StronglySorted_inv in HrB as [_ HB]. rewrite Forall_forall in HB.
    apply Forall_forall. intros x [Hx|[Hx|Hx]%elem_of_app]%elem_of_app;
      unfold apart, before, range_before, range_end in *; simpl.
    + specialize (HA x r Hx ltac:(left)). unfold before in HA. lia.
    + apply elem_of_remnants in Hx as [? Hx]; [|done..]. unfold range_end in Hx. lia.
    + specialize (HB x Hx). unfold before in HB. lia.
  - intros p. rewrite covered_cons, !covered_app, covered_cons.
    rewrite <- (covered_remnants length r a p Ho He). simpl. tauto.
Qed.

Section Allocation.
#[local] Set Default Proof Using "Type*".
Context (v : N) (domain : ByteRange) (alignment : N).
Hypothesis Halign : alignment_ok alignment.

Let placed_here (d : ByteRange) : Prop := placed domain alignment d.

Lemma allocate_spec free length maximum free' d :
  0 < length -> free_ok v free ->
  allocate_first_fit_aligned_within free length alignment domain maximum
    = Ok (free', Some d) ->
  br_length d = length /\ placed_here d /\ free_ok v free' /\ splits free (d :: free').
Proof.
  intros Hlen Hfree H. unfold allocate_first_fit_aligned_within in H. inv_ok.
  apply ByteRange_end_Ok in Hok as [-> _].
  apply first_fit_from_spec in H as (A & r & B & -> & -> & Hd & Hfit & _); [|done..].
  destruct Hfit as (H1 & H2 & H3 & H4 & H5).
  split_and!.
  - done.
  - repeat split; [done | | done]. unfold range_end in *. by rewrite Hd.
  - simpl. by apply remnants_free_ok.
  - destruct d as [off ln]. simpl in *. subst ln. by eapply remnants_splits.
Qed.

Lemma allocate_none free length maximum free' :
  0 < length ->
  allocate_first_fit_aligned_within free length alignment domain maximum
    = Ok (free', None) ->
  free' = free /\ forall r a, r ∈ free -> ~ fits r domain alignment length a.
Proof.
  intros Hlen H. unfold allocate_first_fit_aligned_within in H. inv_ok.
  apply ByteRange_end_Ok in Hok as [-> _].
  apply first_fit_from_spec in H as [-> Hf]; [|done..]. split; [done |].
  rewrite Forall_forall in Hf. intros r a Hr. by apply Hf.
Qed.

Lemma allocate_safe free length maximum :
  allocate_first_fit_aligned_within free length alignment domain maximum <> Panic.
Proof.
  unfold allocate_first_fit_aligned_within. apply bind_safe; [apply ByteRange_end_safe |].
  intros e [-> _]%ByteRange_end_Ok. by apply first_fit_from_safe.
Qed.

(** ** Fragmented allocation *)
Lemma next_fragment_Some working remaining n :
  next_fragment working domain (range_end domain) alignment remaining = Ok (Some n) ->
  0 < remaining -> remaining mod alignment = 0 ->
  0 < n /\ n <= remaining /\ n mod alignment = 0 /\
  exists r a, r ∈ working /\ fits r domain alignment n a.
Proof.
  intros H Hr Hm. pose proof (alignment_pos _ Halign) as Hpos.
  induction working as [|r working IH]; simpl in H; [discriminate |].
  assert (Hrec : next_fragment working domain (range_end domain) alignment remaining
                 = Ok (Some n) ->
    0 < n /\ n <= remaining /\ n mod alignment = 0 /\
    exists s a, s ∈ r :: working /\ fits s domain alignment n a).
  { intros Hn. apply IH in Hn as (? & ? & ? & s & b & ? & ?). split_and!; try done.
    exists s, b. split; [by right | done]. }
  inv_ok. apply ByteRange_end_Ok in Hok as [-> Hend].
  case_match; [by apply Hrec |]. inv_ok.
  apply align_offset_Ok in Hok as (Hs & Ha & _); [|done].
  case_match; [by apply Hrec |]. inv_ok. bool_props.
  rewrite mask_down in H by (done || lia).
  set (span := N.min (range_end r) (range_end domain) - a) in *.
  pose proof (round_down alignment span Hpos) as (Hu1 & Hu2 & Hu3).
  set (usable := alignment * (span / alignment)) in *.
  destruct (N.eqb_spec usable 0) as [Hz|Hz]; simpl in H; [by apply Hrec |].
  injection H as <-. split_and!; [lia | lia | |].
  - destruct (N.min_spec usable remaining) as [[_ ->]|[_ ->]]; done.
  - exists r, a. split; [left |]. repeat split; [lia | lia | lia | lia | done].
Qed.

Lemma next_fragment_safe working remaining :
  next_fragment working domain (range_end domain) alignment remaining <> Panic.
Proof.
  induction working as [|r working IH]; simpl; [done |].
  pose proof (alignment_pos _ Halign) as Hpos.
  safe; try done; try apply ByteRange_end_safe; try by apply align_offset_safe.
  - apply sub_u64_safe. lia.
  - bool_props. apply sub_u64_safe. lia.
Qed.

Lemma fragment_loop_spec fuel working allocated remaining mr mf out ds :
  free_ok v working -> remaining mod alignment = 0 ->
  fragment_loop fuel working allocated remaining alignment domain (range_end domain) mr mf
    = Ok (out, Some ds) ->
  exists new, ds = allocated ++ new /\ Forall placed_here new /\
    sum_by br_length new = remaining /\ free_ok v out /\ splits working (new ++ out).
Proof.
  revert working allocated remaining. induction fuel as [|fuel IH];
    intros working allocated remaining Hfree Hm H; simpl in H; [discriminate |].
  destruct (N.eqb_spec remaining 0) as [->|Hr].
  { inv_ok. simplify_eq. exists []. rewrite app_nil_r.
    split_and!; [done | constructor | done | done | by eapply splits_refl]. }
  inv_ok. destruct a as [n|]; [|discriminate]. inv_ok.
  apply next_fragment_Some in Hok as (Hn & Hle & Hnm & _); [|lia|done].
  destruct a0 as [free' found]. simpl in *. subst found.
  apply allocate_spec in Hok1 as (Hd & Hp & Hf' & Hsp); [|done..].
  apply IH in H as (new & -> & Hnew & Hsum & Hout & Hsplit); [|done|].
  - exists (a1 :: new). split_and!.
    + by rewrite <- app_assoc.
    + by constructor.
    + simpl. lia.
    + done.
    + by apply (splits_trans _ [a1] free').
  - pose proof (alignment_pos _ Halign). by apply mod_0_sub.
Qed.

Lemma fragment_loop_safe fuel working allocated remaining mr mf :
  remaining mod alignment = 0 -> (N.to_nat (remaining / alignment) < fuel)%nat ->
  fragment_loop fuel working allocated remaining alignment domain (range_end domain) mr mf
    <> Panic.
Proof.
  pose proof (alignment_pos _ Halign) as Hpos.
  revert working allocated remaining. induction fuel as [|fuel IH];
    intros working allocated remaining Hm Hfuel; simpl; [by apply Nat.nlt_0_r in Hfuel |].
  destruct (N.eqb_spec remaining 0) as [->|Hr]; [done |].
  apply bind_safe; [apply next_fragment_safe |]. intros [n|] Hn; [|done].
  apply next_fragment_Some in Hn as (Hn & Hle & Hnm & r & a & Hin & Hfit); [|lia|done].
  apply bind_safe; [safe |]. intros _ _.
  apply bind_safe; [apply allocate_safe |]. intros [free' found] Hstep. simpl.
  destruct found as [d|].
  - simpl. apply bind_safe; [by apply sub_u64_safe |].
    intros rest [-> _]%sub_u64_Ok. apply IH; [by apply mod_0_sub |].
    assert (alignment <= n) by (by apply mod_0_le).
    assert ((remaining - n) / alignment < remaining / alignment); [|lia].
    apply mod_0_mul in Hm as [q ->]; [|done].
    assert ((alignment * q) / alignment = q) as -> by (rewrite N.mul_comm; apply N.div_mul; lia).
    apply N.Div0.div_lt_upper_bound. lia.
  - exfalso. apply allocate_none in Hstep as [_ Hno]; [|done]. by eapply Hno.
Qed.

Lemma allocate_fragmented_spec free length mr mf free' ds :
  free_ok v free ->
  allocate_first_fit_fragmented_aligned_within free length alignment domain mr mf
    = Ok (free', Some ds) ->
  Forall placed_here ds /\ sum_by br_length ds = length /\
  free_ok v free' /\ splits free (ds ++ free').
Proof.
  intros Hfree H. unfold allocate_first_fit_fragmented_aligned_within in H.
  inv_ok. bool_props. repeat match goal with
    H : ByteRange_end _ = Ok _ |- _ => apply ByteRange_end_Ok in H as [-> ?] end.
  rename select (fragment_loop _ _ _ _ _ _ _ _ _ = _) into Hloop.
  case_match; [|discriminate]. simplify_eq. destruct a10 as [out found]. cbn [fst snd] in *. subst.
  by apply fragment_loop_spec in Hloop as (new & -> & ?).
Qed.

Lemma allocate_fragmented_none free length mr mf free' :
  allocate_first_fit_fragmented_aligned_within free length alignment domain mr mf
    = Ok (free', None) -> free' = free.
Proof.
  intros H. unfold allocate_first_fit_fragmented_aligned_within in H. inv_ok.
  by case_match; simplify_eq.
Qed.

Lemma allocate_fragmented_safe free length mr mf :
  allocate_first_fit_fragmented_aligned_within free length alignment domain mr mf <> Panic.
Proof.
  pose proof (alignment_pos _ Halign) as Hpos.
  unfold allocate_first_fit_fragmented_aligned_within. safe; inv_ok; bool_props;
    try (apply rem_u64_safe; lia); try apply ByteRange_end_safe; [|by case_match].
  repeat match goal with
    H : ByteRange_end _ = Ok _ |- _ => apply ByteRange_end_Ok in H as [-> ?] end.
  apply fragment_loop_safe; [done | lia].
Qed.
End Allocation.

(** ** Occupied and free ranges *)
Definition newest_first : ByteRange -> ByteRange -> Prop := flip range_before.

Lemma covered_merge last range p :
  br_offset last <= br_offset range -> br_offset range <= range_end last ->
  covered p [mkByteRange (br_offset last)
               (N.max (range_end range) (range_end last) - br_offset last)] <->
  covered p [last; range].
Proof.
  intros H1 H2. rewrite !covered_cons, covered_nil. unfold in_range, range_end in *.
  simpl. lia.
Qed.

Lemma merge_ranges_spec v maximum all merged out :
  StronglySorted (le_key br_offset) all -> Forall (fun r => range_end r <= v) all ->
  StronglySorted newest_first merged -> Forall (fun r => range_end r <= v) merged ->
  (forall m r, m ∈ take 1 merged -> r ∈ all -> br_offset m <= br_offset r) ->
  try_fold (merge_range maximum) merged all = Ok out ->
  StronglySorted newest_first out /\ Forall (fun r => range_end r <= v) out /\
  forall p, covered p out <-> covered p merged \/ covered p all.
Proof.
  revert merged. induction all as [|range all IH]; intros merged Hall Hv Hm Hmv Hle H;
    simpl in H.
  { inv_ok. split_and!; [done | done |]. intros p. rewrite covered_nil. tauto. }
  apply StronglySorted_inv in Hall as [Hall Hr]. rewrite Forall_forall in Hr.
  apply Forall_cons in Hv as [Hvr Hv]. unfold le_key in Hr. inv_ok.
  assert (Hpush : a = range :: merged -> Forall (newest_first range) merged ->
            StronglySorted newest_first out /\ Forall (fun r => range_end r <= v) out /\
            forall p, covered p out <-> covered p merged \/ covered p (range :: all)).
  { intros -> Hb. apply IH in H as (? & ? & Hc); try done.
    - split_and!; [done | done |]. intros p. rewrite Hc, !covered_cons. tauto.
    - by constructor.
    - by constructor.
    - intros m r Hmr Hra. apply list_elem_of_singleton in Hmr as ->. by apply Hr. }
  destruct merged as [|last merged]; simpl in Hok.
  { inv_ok. by apply Hpush. }
  apply StronglySorted_inv in Hm as [Hm Hlast]. apply Forall_cons in Hmv as [Hlv Hmv].
  assert (Hlr : br_offset last <= br_offset range) by (apply Hle; [left | left]).
  inv_ok. apply ByteRange_end_Ok in Hok0 as [-> Hle64].
  destruct (N.leb_spec (br_offset range) (range_end last)) as [Hin|Hout].
  - inv_ok. apply ByteRange_end_Ok in Hok0 as [-> _]. apply IH in H as (? & ? & Hc); try done.
    + split_and!; [done | done |]. intros p. rewrite Hc.
      pose proof (covered_merge last range p Hlr Hin) as Hcm.
      rewrite !covered_cons, covered_nil in *. tauto.
    + by constructor.
    + constructor; [|done]. unfold range_end in *. simpl. lia.
    + intros m r Hmr Hra. apply list_elem_of_singleton in Hmr as ->. simpl.
      specialize (Hr r Hra). lia.
  - inv_ok. apply Hpush; [done |]. constructor; [unfold newest_first, flip, range_before, before, range_end in *; lia |].
    eapply Forall_impl; [exact Hlast |]. intros x Hx.
    unfold newest_first, flip, range_before, before, range_end in *. lia.
Qed.

Lemma reverse_sorted {A} (R : A -> A -> Prop) l :
  StronglySorted (flip R) l -> StronglySorted R (reverse l).
Proof.
  induction 1 as [|x l Hs IH Hf]; [constructor |].
  rewrite reverse_cons. apply StronglySorted_app_iff. split; [exact IH | split; [repeat constructor |]].
  intros a b Ha Hb. apply list_elem_of_singleton in Hb as ->.
  rewrite Forall_forall in Hf. apply Hf. by rewrite elem_of_reverse in Ha.
Qed.

Lemma union_occupied_spec v source reservations exclusions maximum occupied :
  Forall (fun r => range_end r <= v)
    ((sa_range <$> source) ++ (dr_range <$> reservations) ++ exclusions) ->
  union_occupied source reservations exclusions maximum = Ok occupied ->
  StronglySorted range_before occupied /\ Forall (fun r => range_end r <= v) occupied /\
  forall p, covered p occupied <->
    covered p ((sa_range <$> source) ++ (dr_range <$> reservations) ++ exclusions).
Proof.
  intros Hv H. unfold union_occupied in H. inv_ok.
  set (all := (sa_range <$> source) ++ (dr_range <$> reservations) ++ exclusions) in *.
  apply (merge_ranges_spec v) in Hok as (Hs & Hf & Hc).
  - split_and!.
    + by apply reverse_sorted.
    + by rewrite reverse_Permutation.
    + intros p. rewrite (covered_perm p (reverse a) a) by apply reverse_Permutation.
      rewrite Hc, covered_nil, (covered_perm p (sort_by_key br_offset all) all)
        by apply sort_by_key_perm. tauto.
  - apply sort_by_key_sorted.
  - by rewrite sort_by_key_perm.
  - constructor.
  - constructor.
  - intros m r Hm. by apply not_elem_of_nil in Hm.
Qed.

Lemma merge_range_safe maximum merged range :
  Forall (fun r => br_offset r <= br_offset range) (take 1 merged) ->
  merge_range maximum merged range <> Panic.
Proof.
  intros Hle. unfold merge_range. destruct merged as [|last merged]; simpl.
  { safe. }
  apply bind_safe; [apply ByteRange_end_safe |]. intros e [-> He]%ByteRange_end_Ok.
  case_match; [|safe]. apply bind_safe; [apply ByteRange_end_safe |].
  intros e [-> He']%ByteRange_end_Ok. apply bind_safe; [|done].
  apply sub_u64_safe. unfold range_end. lia.
Qed.

Lemma merge_ranges_safe maximum all merged :
  StronglySorted (le_key br_offset) all ->
  (forall m r, m ∈ take 1 merged -> r ∈ all -> br_offset m <= br_offset r) ->
  try_fold (merge_range maximum) merged all <> Panic.
Proof.
  revert merged. induction all as [|range all IH]; intros merged Hall Hle; simpl; [done |].
  apply StronglySorted_inv in Hall as [Hall Hr]. rewrite Forall_forall in Hr.
  apply bind_safe.
  { apply merge_range_safe, Forall_forall. intros m Hm. apply Hle; [done | left]. }
  intros next Hn. apply IH; [done |]. intros m r Hm Hra.
  specialize (Hr r Hra). unfold le_key in Hr.
  unfold merge_range in Hn. destruct merged as [|last merged]; simpl in Hn.
  - inv_ok. by apply list_elem_of_singleton in Hm as ->.
  - inv_ok. assert (br_offset last <= br_offset range) by (apply Hle; left).
    case_match; inv_ok; apply list_elem_of_singleton in Hm as ->; simpl; lia.
Qed.

(** ** Gaps *)
Lemma free_gaps_spec maximum occupied cursor free cursor' free' :
  StronglySorted range_before occupied -> Forall (fun r => cursor <= br_offset r) occupied ->
  try_fold (free_gap maximum) (cursor, free) occupied = Ok (cursor', free') ->
  cursor <= cursor' /\ (forall r, r ∈ occupied -> range_end r <= cursor') /\
  (forall v, Forall (fun r => range_end r <= v) occupied -> cursor <= v -> cursor' <= v) /\
  exists new, free' = free ++ new /\
    Forall (fun r => 0 < br_length r /\ cursor <= br_offset r /\ range_end r <= cursor') new /\
    StronglySorted range_before new /\
    forall p, covered p new <-> cursor <= p < cursor' /\ ~ covered p occupied.
Proof.
  revert cursor free. induction occupied as [|range occupied IH];
    intros cursor free Hs Hc H; simpl in H.
  { inv_ok. simplify_eq. split_and!; [done | by intros r Hr%not_elem_of_nil | done |].
    exists []. rewrite app_nil_r. split_and!; [done | constructor | constructor |].
    intros p. rewrite !covered_nil. lia. }
  apply StronglySorted_inv in Hs as [Hs Hr]. apply Forall_cons in Hc as [Hcr Hc].
  inv_ok. apply ByteRange_end_Ok in Hok1 as [-> _].
  assert (Hgap : exists gap, a0 = free ++ gap /\
    Forall (fun r => 0 < br_length r /\ cursor <= br_offset r /\ range_end r <= br_offset range) gap /\
    StronglySorted range_before gap /\
    forall p, covered p gap <-> cursor <= p < br_offset range).
  { destruct (N.ltb_spec cursor (br_offset range)) as [Hlt|Hge]; inv_ok.
    - eexists [_]. split; [done |]. split_and!.
      + constructor; [|done]. unfold range_end. simpl. lia.
      + repeat constructor.
      + intros p. rewrite covered_cons, covered_nil. unfold in_range. simpl. lia.
    - exists []. rewrite app_nil_r. split_and!; [done | done | constructor |].
      intros p. rewrite covered_nil. lia. }
  destruct Hgap as (gap & -> & Hg1 & Hg2 & Hg3).
  assert (Hro : br_offset range <= range_end range) by (unfold range_end; lia).
  apply IH in H as (H1 & H2 & H3 & new & -> & Hn1 & Hn2 & Hn3); [|done|].
  2: { eapply Forall_impl; [exact Hr |]. intros x Hx. exact Hx. }
  split_and!.
  - lia.
  - intros r [->|Hx]%elem_of_cons; [done | by apply H2].
  - intros v [Hv1 Hv2]%Forall_cons Hcv. by apply H3.
  - exists (gap ++ new). rewrite app_assoc. split; [done |]. split_and!.
    + apply Forall_app. split.
      * eapply Forall_impl; [exact Hg1 |]. intros x (? & ? & ?). lia.
      * eapply Forall_impl; [exact Hn1 |]. intros x (? & ? & ?). lia.
    + apply StronglySorted_app_iff. split_and!; [done | done |]. intros x y Hx Hy.
      rewrite Forall_forall in Hg1, Hn1. specialize (Hg1 x Hx). specialize (Hn1 y Hy).
      unfold range_before, before, range_end in *. lia.
    + intros p. rewrite covered_app, covered_cons, Hg3, Hn3.
      assert (Hlate : covered p occupied -> range_end range <= p).
      { intros (r & Hro' & Hp). rewrite Forall_forall in Hr. specialize (Hr r Hro').
        unfold range_before, before, range_end, in_range in *. lia. }
      unfold in_range, range_end in *.
      destruct (N.lt_ge_cases p (br_offset range + br_length range)).
      * assert (~ covered p occupied) by (intros Hx; specialize (Hlate Hx); lia). intuition lia.
      * intuition lia.
Qed.

Lemma complement_spec v occupied maximum free :
  StronglySorted range_before occupied -> Forall (fun r => range_end r <= v) occupied ->
  complement v occupied maximum = Ok free ->
  free_ok v free /\ forall p, covered p free <-> p < v /\ ~ covered p occupied.
Proof.
  intros Hs Hv H. unfold complement in H. inv_ok. destruct a as [cursor gaps].
  apply free_gaps_spec in Hok as (Hc & Hin & Hcv & new & -> & Hn1 & Hn2 & Hn3);
    [|done|apply Forall_forall; intros; lia].
  specialize (Hcv v Hv ltac:(lia)). simpl app in *.
  assert (Hnot : forall p, covered p occupied -> p < cursor).
  { intros p (r & Hr & Hp). specialize (Hin r Hr). unfold in_range, range_end in *. lia. }
  destruct (N.ltb_spec cursor v) as [Hlt|Hge]; inv_ok.
  - split; [split |].
    + apply Forall_app. split.
      * eapply Forall_impl; [exact Hn1 |]. intros x (? & ? & ?). lia.
      * constructor; [|done]. unfold range_end. simpl. lia.
    + apply StronglySorted_app_iff. split_and!; [done | repeat constructor |].
      intros x y Hx Hy. apply list_elem_of_singleton in Hy as ->.
      rewrite Forall_forall in Hn1. specialize (Hn1 x Hx).
      unfold range_before, before, range_end in *. simpl. lia.
    + intros p. rewrite covered_app, covered_cons, covered_nil, Hn3. unfold in_range. simpl.
      specialize (Hnot p). destruct (N.lt_ge_cases p cursor); intuition lia.
  - assert (cursor = v) as -> by lia. split; [split; [|done] |].
    + eapply Forall_impl; [exact Hn1 |]. intros x (? & ? & ?). lia.
    + intros p. rewrite Hn3. intuition lia.
Qed.

Lemma free_gaps_safe maximum occupied state :
  try_fold (free_gap maximum) state occupied <> Panic.
Proof.
  apply try_fold_safe. intros [cursor free] r _. unfold free_gap.
  apply bind_safe; [|intros; apply bind_safe; [apply ByteRange_end_safe | done]].
  case_match; [|done]. safe. bool_props. apply sub_u64_safe. lia.
Qed.

Lemma complement_safe v occupied maximum : complement v occupied maximum <> Panic.
Proof.
  unfold complement. apply bind_safe; [apply free_gaps_safe |]. intros [cursor free] _.
  case_match; [|done]. safe. bool_props. apply sub_u64_safe. lia.
Qed.

(** ** Skipping and scanning sorted ranges *)
Lemma skip_ended_spec {A} (range_of : A -> ByteRange) o l rest :
  skip_ended range_of o l = Ok rest ->
  exists skipped, l = skipped ++ rest /\
    Forall (fun x => range_end (range_of x) <= o) skipped /\
    (forall x tail, rest = x :: tail -> o < range_end (range_of x)).
Proof.
  revert rest. induction l as [|x l IH]; intros rest H; simpl in H.
  { inv_ok. by exists []. }
  inv_ok. apply ByteRange_end_Ok in Hok as [-> _].
  destruct (N.leb_spec (range_end (range_of x)) o) as [Hle|Hlt].
  - apply IH in H as (skipped & -> & Hs & Hn). exists (x :: skipped).
    split_and!; [done | by constructor | done].
  - inv_ok. exists []. split_and!; [done | constructor |]. by intros ?? [= <- <-].
Qed.

Lemma skip_ended_safe {A} (range_of : A -> ByteRange) o l :
  skip_ended range_of o l <> Panic.
Proof.
  induction l as [|x l IH]; simpl; [done |]. safe; [apply ByteRange_end_safe | done].
Qed.

Definition overlapb (x y : ByteRange) : bool :=
  (br_offset x <? range_end y) && (br_offset y <? range_end x).

Lemma overlaps_Ok x y b : overlaps x y = Ok b -> b = overlapb x y.
Proof.
  unfold overlaps, overlapb. intros H. inv_ok. apply ByteRange_end_Ok in Hok as [-> _].
  case_match; inv_ok; [|done]. by apply ByteRange_end_Ok in Hok as [-> _].
Qed.
Lemma overlaps_safe x y : overlaps x y <> Panic.
Proof. unfold overlaps. safe; apply ByteRange_end_safe. Qed.
Lemma overlapb_false x y : overlapb x y = false <-> range_apart x y.
Proof.
  unfold overlapb, range_apart, apart, before, range_end.
  destruct (N.ltb_spec (br_offset x) (br_offset y + br_length y)),
    (N.ltb_spec (br_offset y) (br_offset x + br_length x)); simpl;
    split; intros; done || lia.
Qed.

Definition source_before : SourceAllocation -> SourceAllocation -> Prop :=
  fun a b => range_before (sa_range a) (sa_range b).

Lemma check_exclusions_spec exclusions source rest :
  StronglySorted range_before exclusions -> StronglySorted source_before source ->
  try_fold check_exclusion source exclusions = Ok rest ->
  forall s e, s ∈ source -> e ∈ exclusions -> range_apart (sa_range s) e.
Proof.
  revert source. induction exclusions as [|e exclusions IH];
    intros source Hex Hs H s x Hsin Hx; [by apply not_elem_of_nil in Hx |].
  simpl in H. apply StronglySorted_inv in Hex as [Hex He]. rewrite Forall_forall in He.
  inv_ok. unfold check_exclusion in Hok. inv_ok.
  apply skip_ended_spec in Hok0 as (skipped & -> & Hsk & Hnext).
  rewrite Forall_forall in Hsk.
  apply StronglySorted_app_iff in Hs as (Hs1 & Hs2 & Hs3).
  assert (Ha : a = a0).
  { destruct a0; [by inv_ok | by inv_ok]. }
  assert (Hhere : forall t, t ∈ a0 -> range_apart (sa_range t) e).
  { intros t Ht. destruct a0 as [|first others]; [by apply not_elem_of_nil in Ht |].
    inv_ok. rename select (overlaps _ _ = Ok _) into Ho. apply overlaps_Ok in Ho as ->.
    rename select (overlapb _ _ = false) into Ho. apply overlapb_false in Ho.
    specialize (Hnext _ _ eq_refl).
    apply elem_of_cons in Ht as [->|Ht]; [done |].
    apply StronglySorted_inv in Hs2 as [_ Hs2]. rewrite Forall_forall in Hs2.
    specialize (Hs2 t Ht).
    unfold range_apart, apart, source_before, range_before, before, range_end in *. lia. }
  apply elem_of_app in Hsin as [Hsin|Hsin].
  - specialize (Hsk s Hsin). left. apply elem_of_cons in Hx as [->|Hx]; [|specialize (He x Hx)];
      unfold range_before, before, range_end in *; lia.
  - apply elem_of_cons in Hx as [->|Hx]; [by apply Hhere |]. subst a.
    by apply (IH a0).
Qed.

Lemma check_exclusions_safe exclusions source :
  try_fold check_exclusion source exclusions <> Panic.
Proof.
  apply try_fold_safe. intros s e _. unfold check_exclusion.
  apply bind_safe; [apply skip_ended_safe |]. intros [|x l] _; [done |].
  safe. apply overlaps_safe.
Qed.

Lemma filter_agree {A} (f g : A -> bool) (l : list A) :
  (forall x, x ∈ l -> f x = g x) ->
  filter (fun x => f x = true) l = filter (fun x => g x = true) l.
Proof.
  induction l as [|x l IH]; intros Hfg; [done |].
  rewrite !filter_cons, (Hfg x) by left. rewrite IH; [done |].
  intros y Hy. apply Hfg. by right.
Qed.

(** ** Conflicts *)
Section Conflicts.
Context (domain : ByteRange) (alignment : N).

(** The allocation cannot stay where it is. *)
Definition conflictsb (reservations : list DestinationReservation)
    (allocation : SourceAllocation) : bool :=
  let range := sa_range allocation in
  (br_offset range <? br_offset domain) || (range_end domain <? range_end range)
  || negb (br_offset range mod alignment =? 0)
  || existsb (fun r => overlapb range (dr_range r)) reservations.

Definition offset_le (a b : DestinationReservation) : Prop :=
  le_key (fun r => br_offset (dr_range r)) a b.

Lemma scan_reservations_spec a found reservations b :
  StronglySorted offset_le reservations ->
  scan_reservations a (range_end (sa_range a)) found reservations = Ok b ->
  b = found || existsb (fun r => overlapb (sa_range a) (dr_range r)) reservations /\
  (existsb (fun r => overlapb (sa_range a) (dr_range r)) reservations = true ->
   sa_movable a = true).
Proof.
  revert found. induction reservations as [|r l IH]; intros found Hs H; simpl in *.
  { inv_ok. by rewrite orb_false_r. }
  apply StronglySorted_inv in Hs as [Hs Hr]. rewrite Forall_forall in Hr.
  destruct (N.ltb_spec (br_offset (dr_range r)) (range_end (sa_range a))) as [Hlt|Hge].
  - inv_ok. apply overlaps_Ok in Hok as ->.
    destruct (overlapb (sa_range a) (dr_range r)); simpl in *.
    + inv_ok. bool_props. apply IH in H as [-> _]; [|done]. by rewrite orb_true_r.
    + by apply IH in H.
  - inv_ok. assert (Hno : forall x, x ∈ r :: l -> overlapb (sa_range a) (dr_range x) = false).
    { intros x Hx. apply overlapb_false. left. unfold before.
      apply elem_of_cons in Hx as [->|Hx]; [|specialize (Hr x Hx)];
        unfold offset_le, le_key, range_end in *; lia. }
    assert (existsb (fun x => overlapb (sa_range a) (dr_range x)) l = false) as ->.
    { apply not_true_iff_false. intros (x & Hx & Ht)%existsb_exists.
      rewrite Hno in Ht; [done | right; by apply list_elem_of_In]. }
    rewrite (Hno r) by left. simpl. by rewrite orb_false_r.
Qed.

Lemma scan_reservations_safe a e found reservations :
  scan_reservations a e found reservations <> Panic.
Proof.
  revert found. induction reservations as [|r l IH]; intros found; simpl; [done |].
  safe; [apply overlaps_safe | apply IH | apply IH].
Qed.

(** Reservations that end before the allocation starts do not matter. *)
Lemma conflictsb_skip skipped rest o a :
  Forall (fun r => range_end (dr_range r) <= o) skipped -> o <= br_offset (sa_range a) ->
  conflictsb (skipped ++ rest) a = conflictsb rest a.
Proof.
  intros Hs Ho. unfold conflictsb. rewrite existsb_app.
  assert (existsb (fun r => overlapb (sa_range a) (dr_range r)) skipped = false) as ->; [|done].
  apply not_true_iff_false. intros (x & Hx & Ht)%existsb_exists.
  rewrite Forall_forall in Hs. specialize (Hs x ltac:(by apply list_elem_of_In)).
  unfold overlapb in Ht. bool_props. unfold range_end in *. lia.
Qed.

Lemma collect_conflicts_spec maximum source reservations conflicts result :
  StronglySorted source_before source -> StronglySorted offset_le reservations ->
  try_fold (collect_conflict domain alignment maximum) (reservations, conflicts) source
    = Ok result ->
  result.2 = conflicts ++ filter (fun a => conflictsb reservations a = true) source /\
  Forall (fun a => conflictsb reservations a = true -> sa_movable a = true) source.
Proof.
  revert reservations conflicts. induction source as [|a source IH];
    intros reservations conflicts Hs Hr H; simpl in H.
  { inv_ok. rewrite filter_nil, app_nil_r. by split. }
  apply StronglySorted_inv in Hs as [Hs Ha]. rewrite Forall_forall in Ha.
  inv_ok. unfold collect_conflict in Hok. inv_ok.
  apply skip_ended_spec in Hok0 as (skipped & -> & Hsk & _).
  apply ByteRange_end_Ok in Hok1 as [-> _], Hok2 as [-> _].
  apply StronglySorted_app_iff in Hr as (_ & Hr & _).
  rename a1 into rest.
  assert (Hconf : conflictsb (skipped ++ rest) a = conflictsb rest a) by
    (eapply conflictsb_skip; [exact Hsk | done]).
  assert (Hlater : forall x, x ∈ source ->
            conflictsb (skipped ++ rest) x = conflictsb rest x).
  { intros x Hx. eapply conflictsb_skip; [exact Hsk |]. specialize (Ha x Hx).
    unfold source_before, range_before, before in Ha. lia. }
  apply scan_reservations_spec in Hok5 as [Hb Hmov]; [|done].
  rewrite <- orb_assoc in Hb. rewrite orb_assoc in Hb.
  change (_ || existsb _ rest) with (conflictsb rest a) in Hb.
  assert (Hmova : conflictsb rest a = true -> sa_movable a = true).
  { unfold conflictsb. intros [Ht|Ht]%orb_true_iff; [|by apply Hmov].
    apply andb_false_iff in Hok4 as [Hf|Hf]; [by rewrite Ht in Hf |].
    by apply negb_false_iff in Hf. }
  assert (Hstep : a0 = (rest, conflicts ++ (if conflictsb rest a then [a] else []))).
  { rewrite <- Hb. destruct a6; inv_ok; [done | by rewrite app_nil_r]. }
  subst a0. apply IH in H as [-> Hf]; [|done..]. split.
  - rewrite filter_cons, Hconf, <- app_assoc. f_equal.
    assert (filter (fun x => conflictsb (skipped ++ rest) x = true) source =
            filter (fun x => conflictsb rest x = true) source) as ->.
    { apply filter_agree. intros x Hx. by rewrite Hlater. }
    by destruct (conflictsb rest a).
  - constructor; [by rewrite Hconf |]. rewrite Forall_forall in *.
    intros x Hx. rewrite Hlater by done. by apply Hf.
Qed.

Lemma collect_conflicts_safe maximum source state :
  alignment <> 0 ->
  try_fold (collect_conflict domain alignment maximum) state source <> Panic.
Proof.
  intros Ha. apply try_fold_safe. intros [r c] a _. unfold collect_conflict.
  safe; try apply skip_ended_safe; try apply ByteRange_end_safe;
    try apply scan_reservations_safe; by apply rem_u64_safe.
Qed.
End Conflicts.

(** ** Placing conflicts and requests *)

(** [r] moves the payload of [a] to a usable destination of the same length. *)
Definition relocates (domain : ByteRange) (alignment : N)
    (a : SourceAllocation) (r : Relocation) : Prop :=
  rl_stream r = sa_stream a /\ rl_logical_offset r = sa_logical_offset a /\
  rl_source r = sa_range a /\ br_length (rl_destination r) = br_length (sa_range a) /\
  placed domain alignment (rl_destination r).

(** [m] provides exactly the requested number of bytes. *)
Definition materializes (domain : ByteRange) (alignment : N)
    (q : MaterializationRequest) (m : Materialization) : Prop :=
  mz_stream m = mr_stream q /\ Forall (placed domain alignment) (mz_destinations m) /\
  sum_by br_length (mz_destinations m) = mr_destination_length q.

Definition relocation_destinations (l : list Relocation) : list ByteRange :=
  rl_destination <$> l.
Definition materialization_destinations (l : list Materialization) : list ByteRange :=
  concat (mz_destinations <$> l).

Section Placing.
#[local] Set Default Proof Using "Type*".
Context (v : N) (domain : ByteRange) (alignment : N).
Hypothesis Halign : alignment_ok alignment.

Lemma insufficient_space_not_Ok {A} free n (x : A) :
  insufficient_space free n domain alignment = Ok x -> False.
Proof. unfold insufficient_space. by destruct (free_capacity_within _ _ _) as [[]| |]. Qed.

Lemma measure_capacity_safe s r : measure_capacity domain (range_end domain) alignment s r <> Panic.
Proof.
  unfold measure_capacity. safe; try apply ByteRange_end_safe; [by apply align_offset_safe |].
  bool_props. apply sub_u64_safe. lia.
Qed.

Lemma free_capacity_safe free : free_capacity_within free domain alignment <> Panic.
Proof.
  unfold free_capacity_within. apply bind_safe; [apply ByteRange_end_safe |].
  intros e [-> _]%ByteRange_end_Ok. apply try_fold_safe. intros. apply measure_capacity_safe.
Qed.

Lemma insufficient_space_safe {A} free n :
  @insufficient_space A free n domain alignment <> Panic.
Proof.
  unfold insufficient_space.
  destruct (free_capacity_within free domain alignment) as [[]| |] eqn:H; [done | done |].
  exfalso. by apply free_capacity_safe in H.
Qed.

Lemma place_conflicts_spec maximum conflicts st st' :
  free_ok v (rs_free st) -> Forall (fun a => 0 < br_length (sa_range a)) conflicts ->
  try_fold (place_conflict alignment domain maximum) st conflicts = Ok st' ->
  exists new, rs_relocations st' = rs_relocations st ++ new /\
    Forall2 (relocates domain alignment) conflicts new /\
    rs_relocated_bytes st' =
      rs_relocated_bytes st + sum_by (fun a => br_length (sa_range a)) conflicts /\
    free_ok v (rs_free st') /\
    splits (rs_free st) (relocation_destinations new ++ rs_free st').
Proof.
  revert st. induction conflicts as [|a conflicts IH]; intros st Hf Hp H; cbn in H.
  { inv_ok. exists []. rewrite app_nil_r. split_and!; [done | constructor | simpl; lia | done |].
    by eapply splits_refl. }
  apply Forall_cons in Hp as [Hpa Hp]. inv_ok. unfold place_conflict in Hok. inv_ok.
  destruct a1 as [free' [d|]]; cbn [fst snd] in *;
    [inv_ok | by apply insufficient_space_not_Ok in Hok1].
  apply (allocate_spec v) in Hok0 as (Hd & Hpl & Hf' & Hsp); [|done..].
  apply IH in H as (new & Hr & Hall & Hb & Hfree & Hsplit); [|done..].
  cbn [rs_free rs_relocations rs_relocated_bytes] in *.
  eexists (_ :: new). rewrite Hr, <- app_assoc. split; [done |]. split_and!.
  - constructor; [|done]. by split_and!.
  - rewrite Hb. simpl. lia.
  - done.
  - by apply (splits_trans _ [a2] free').
Qed.

Lemma place_conflicts_safe maximum conflicts st :
  try_fold (place_conflict alignment domain maximum) st conflicts <> Panic.
Proof.
  apply try_fold_safe. intros s a _. unfold place_conflict. safe; [by apply allocate_safe |].
  case_match; [done | apply insufficient_space_safe].
Qed.

Lemma fragment_loop_count fuel working allocated remaining de mr mf out ds :
  len allocated <= mr ->
  fragment_loop fuel working allocated remaining alignment domain de mr mf = Ok (out, Some ds) ->
  len ds <= mr.
Proof.
  revert working allocated remaining. induction fuel as [|fuel IH];
    intros working allocated remaining Hl H; [discriminate |].
  cbn [fragment_loop] in H. case_match; [by simplify_eq/= |].
  inv_ok. destruct a as [n|]; [|discriminate]. inv_ok. bool_props.
  eapply IH, H. rewrite len_app, len_cons, len_nil. lia.
Qed.

Lemma place_request_spec limits fragmented st q st' :
  free_ok v (ms_free st) -> 0 < mr_destination_length q ->
  place_request alignment domain limits fragmented st q = Ok st' ->
  exists m, ms_materializations st' = ms_materializations st ++ [m] /\
    materializes domain alignment q m /\
    ms_materialized_bytes st' = ms_materialized_bytes st + mr_destination_length q /\
    ms_range_count st' = ms_range_count st + len (mz_destinations m) /\
    (fragmented = true -> ms_range_count st' <= ll_max_relocations limits) /\
    free_ok v (ms_free st') /\ splits (ms_free st) (mz_destinations m ++ ms_free st').
Proof.
  intros Hf Hq H. unfold place_request in H. inv_ok.
  destruct a0 as [free' [ds|]]; [inv_ok |
    inv_ok; by rename select (insufficient_space _ _ _ _ = _) into Hi;
      apply insufficient_space_not_Ok in Hi].
  cbn [ms_free ms_materializations ms_materialized_bytes ms_range_count].
  eexists. split; [done |]. unfold materializes. simpl.
  assert (Hpl : Forall (placed domain alignment) a /\
    sum_by br_length a = mr_destination_length q /\ free_ok v free' /\
    splits (ms_free st) (a ++ free') /\
    (fragmented = true -> len a <= ll_max_relocations limits - ms_range_count st)).
  { destruct fragmented.
    - pose proof Hok0 as Hc.
      apply (allocate_fragmented_spec v) in Hok0 as (? & ? & ? & ?); [|done..].
      split_and!; try done. intros _.
      unfold allocate_first_fit_fragmented_aligned_within in Hc. inv_ok.
      rename select (fragment_loop _ _ _ _ _ _ _ _ _ = _) into Hl.
      case_match; [|discriminate]. simplify_eq.
      match type of Hl with _ = Ok ?p => destruct p as [out found] end.
      cbn [fst snd] in *. subst. eapply fragment_loop_count; [|exact Hl].
      rewrite len_nil. lia.
    - unfold allocate_contiguous in Hok0. inv_ok.
      match goal with Ha : allocate_first_fit_aligned_within _ _ _ _ _ = Ok ?p |- _ =>
        destruct p as [f' [d|]]; cbn [fst snd] in *; [|discriminate];
        apply (allocate_spec v) in Ha as (Hd & ? & ? & ?); [|done..] end.
      simplify_eq. split_and!; [by constructor | simpl; lia | done | done | done]. }
  destruct Hpl as (? & ? & ? & ? & Hcap). split_and!; try done.
  intros Hfr. specialize (Hcap Hfr). lia.
Qed.

Lemma place_requests_spec limits fragmented requests st st' :
  free_ok v (ms_free st) -> Forall (fun q => 0 < mr_destination_length q) requests ->
  (fragmented = true -> ms_range_count st <= ll_max_relocations limits) ->
  try_fold (place_request alignment domain limits fragmented) st requests = Ok st' ->
  exists new, ms_materializations st' = ms_materializations st ++ new /\
    Forall2 (materializes domain alignment) requests new /\
    ms_materialized_bytes st' =
      ms_materialized_bytes st + sum_by mr_destination_length requests /\
    ms_range_count st' = ms_range_count st + len (materialization_destinations new) /\
    (fragmented = true -> ms_range_count st' <= ll_max_relocations limits) /\
    free_ok v (ms_free st') /\
    splits (ms_free st) (materialization_destinations new ++ ms_free st').
Proof.
  revert st. induction requests as [|q requests IH]; intros st Hf Hp Hcap H; cbn in H.
  { inv_ok. exists []. rewrite app_nil_r.
    split_and!; try done.
    - simpl. lia.
    - unfold materialization_destinations. simpl. rewrite len_nil. lia.
    - by eapply splits_refl. }
  apply Forall_cons in Hp as [Hq Hp]. inv_ok.
  apply place_request_spec in Hok as (m & Hm1 & Hm2 & Hm3 & Hm4 & Hm5 & Hm6 & Hm7); [|done..].
  apply IH in H as (new & Hr1 & Hr2 & Hr3 & Hr4 & Hr5 & Hr6 & Hr7); [|done..].
  unfold materialization_destinations in *.
  exists (m :: new). rewrite Hr1, Hm1, <- app_assoc. split; [done |].
  rewrite fmap_cons. cbn [concat]. rewrite len_app. split_and!.
  - by constructor.
  - rewrite Hr3, Hm3. simpl. lia.
  - lia.
  - done.
  - done.
  - rewrite <- app_assoc. by eapply splits_trans.
Qed.

Lemma place_requests_safe limits fragmented requests st :
  try_fold (place_request alignment domain limits fragmented) st requests <> Panic.
Proof.
  apply try_fold_safe. intros s q _. unfold place_request. apply bind_safe; [safe |].
  intros cap _. apply bind_safe.
  { destruct fragmented; [by apply allocate_fragmented_safe |].
    unfold allocate_contiguous. safe. by apply allocate_safe. }
  intros [free found] _. safe. case_match; [done | apply insufficient_space_safe].
Qed.

(** What both placement orders guarantee. *)
Definition placements_ok (limits : LayoutLimits) (free : list ByteRange)
    (conflicts : list SourceAllocation) (requests : list MaterializationRequest)
    (p : Placements) : Prop :=
  Forall2 (relocates domain alignment) conflicts (pc_relocations p) /\
  Forall2 (materializes domain alignment) requests (pc_materializations p) /\
  pc_relocated_bytes p = sum_by (fun a => br_length (sa_range a)) conflicts /\
  pc_materialized_bytes p = sum_by mr_destination_length requests /\
  len (pc_relocations p) + len (materialization_destinations (pc_materializations p))
    <= ll_max_relocations limits /\
  free_ok v (pc_free p) /\
  splits free (relocation_destinations (pc_relocations p) ++
               materialization_destinations (pc_materializations p) ++ pc_free p).

Lemma fragmented_placements_ok limits free conflicts requests p :
  free_ok v free -> Forall (fun a => 0 < br_length (sa_range a)) conflicts ->
  Forall (fun q => 0 < mr_destination_length q) requests ->
  allocate_relocations_then_fragmented_materializations free conflicts requests alignment
    domain limits = Ok p ->
  placements_ok limits free conflicts requests p.
Proof.
  intros Hf Hc Hq H. unfold allocate_relocations_then_fragmented_materializations in H. inv_ok.
  apply place_conflicts_spec in Hok as (rls & Hr1 & Hr2 & Hr3 & Hr4 & Hr5); [|done..].
  apply place_requests_spec in Hok1 as (mzs & Hm1 & Hm2 & Hm3 & Hm4 & Hm5 & Hm6 & Hm7);
    [|done..|by cbn; intros; lia].
  cbn [rs_free rs_relocations rs_relocated_bytes ms_free ms_materializations
    ms_materialized_bytes ms_range_count ll_max_relocations app] in *.
  unfold placements_ok.
  cbn [pc_free pc_relocations pc_relocated_bytes pc_materializations pc_materialized_bytes].
  rewrite Hr1, Hm1. specialize (Hm5 eq_refl). rewrite Hm4 in Hm5.
  rewrite Hr1 in Hm5, Hok0. split_and!; try done; [lia |].
  by eapply splits_trans.
Qed.

Lemma contiguous_placements_ok limits free conflicts requests p :
  free_ok v free -> Forall (fun a => 0 < br_length (sa_range a)) conflicts ->
  Forall (fun q => 0 < mr_destination_length q) requests ->
  contiguous_attempt free conflicts requests alignment domain limits = Ok p ->
  placements_ok limits free conflicts requests p.
Proof.
  intros Hf Hc Hq H. unfold contiguous_attempt in H. inv_ok.
  apply place_requests_spec in Hok as (mzs & Hm1 & Hm2 & Hm3 & Hm4 & _ & Hm6 & Hm7); [|done..].
  apply place_conflicts_spec in Hok1 as (rls & Hr1 & Hr2 & Hr3 & Hr4 & Hr5); [|done..].
  unfold ensure_work_range_cap in Hok0. inv_ok. bool_props.
  cbn [rs_free rs_relocations rs_relocated_bytes ms_free ms_materializations
    ms_materialized_bytes ms_range_count ll_max_relocations app] in *.
  unfold placements_ok.
  cbn [pc_free pc_relocations pc_relocated_bytes pc_materializations pc_materialized_bytes].
  rewrite Hr1, Hm1.
  pose proof (Forall2_length _ _ _ Hr2) as Hlen.
  split_and!; try done; [unfold len in *; lia |].
  eapply splits_perm; [|eapply splits_trans; [exact Hm7 | exact Hr5]].
  rewrite !app_assoc. apply Permutation_app_tail, Permutation_app_comm.
Qed.

Lemma place_all_ok limits free conflicts requests p :
  free_ok v free -> Forall (fun a => 0 < br_length (sa_range a)) conflicts ->
  Forall (fun q => 0 < mr_destination_length q) requests ->
  place_all free conflicts requests alignment domain limits = Ok p ->
  placements_ok limits free conflicts requests p.
Proof.
  intros Hf Hc Hq H. unfold place_all in H. inv_ok. destruct a.
  - destruct (contiguous_attempt _ _ _ _ _ _) as [r|[]|] eqn:Hca; try discriminate.
    + inv_ok. by apply contiguous_placements_ok in Hca.
    + by apply fragmented_placements_ok in H.
  - by apply fragmented_placements_ok in H.
Qed.

Lemma fragmented_placements_safe limits free conflicts requests :
  allocate_relocations_then_fragmented_materializations free conflicts requests alignment
    domain limits <> Panic.
Proof.
  unfold allocate_relocations_then_fragmented_materializations. safe.
  - apply place_conflicts_safe.
  - apply place_requests_safe.
Qed.

Lemma fit_contiguously_safe trial requests maximum :
  materializations_fit_contiguously trial requests alignment domain maximum <> Panic.
Proof.
  revert trial. induction requests as [|q requests IH]; intros trial; simpl; [done |].
  apply bind_safe; [by apply allocate_safe |]. intros [? []] _; [apply IH | done].
Qed.

Lemma contiguous_attempt_safe limits free conflicts requests :
  contiguous_attempt free conflicts requests alignment domain limits <> Panic.
Proof.
  unfold contiguous_attempt. safe.
  - apply place_requests_safe.
  - unfold ensure_work_range_cap. safe.
  - apply place_conflicts_safe.
Qed.

Lemma place_all_safe limits free conflicts requests :
  place_all free conflicts requests alignment domain limits <> Panic.
Proof.
  unfold place_all. apply bind_safe; [apply fit_contiguously_safe |]. intros [] _.
  - destruct (contiguous_attempt _ _ _ _ _ _) as [r|[]|] eqn:Hca; try done.
    + apply fragmented_placements_safe.
    + by apply contiguous_attempt_safe in Hca.
  - apply fragmented_placements_safe.
Qed.
End Placing.

(** ** Validation *)
Lemma validate_range_Ok v a r u :
  validate_range v a r = Ok u ->
  0 < br_length r /\ range_end r <= v /\ br_offset r mod a = 0 /\ br_length r mod a = 0 /\
  range_end r <= u64_max.
Proof.
  unfold validate_range. intros H. inv_ok. bool_props.
  repeat match goal with H : ByteRange_end _ = Ok _ |- _ => apply ByteRange_end_Ok in H as [-> ?] end.
  split_and!; lia || done.
Qed.

Lemma validate_range_safe v a r : a <> 0 -> validate_range v a r <> Panic.
Proof. intros Ha. unfold validate_range. safe; try apply ByteRange_end_safe; by apply rem_u64_safe. Qed.

Lemma validate_alignments_Ok l u :
  validate_alignments l = Ok u -> Forall (fun a => a <> 0 /\ is_power_of_two a = true) l.
Proof.
  intros H%for_each_Ok. eapply Forall_impl; [exact H |].
  intros a Ha. simpl in Ha. inv_ok. by bool_props.
Qed.

Lemma find_windows2_None {A} (p : A -> A -> bool) l :
  find_windows2 p l = None -> Sorted (fun x y => p x y = false) l.
Proof.
  induction l as [|x [|y l] IH]; intros H; [constructor | by repeat constructor |].
  simpl in H. destruct (p x y) eqn:Hp; [discriminate |].
  constructor; [by apply IH | by constructor].
Qed.

(** A sorted list without equal neighbours has no duplicates. *)
Lemma sorted_windows_NoDup l :
  find_windows2 N.eqb (sort_by_key id l) = None -> NoDup l.
Proof.
  intros Hn%find_windows2_None. rewrite <- (sort_by_key_perm id l).
  pose proof (sort_by_key_sorted id l) as Hs. revert Hn Hs.
  generalize (sort_by_key id l) as m. intros m Hn Hs.
  assert (Hlt : StronglySorted N.lt m).
  { apply Sorted_StronglySorted; [intros ???; lia |].
    apply StronglySorted_Sorted in Hs. revert Hn.
    induction Hs as [|x m Hs IH Hh]; intros Hn; [constructor |].
    apply Sorted_inv in Hn as [Hn Hh2]. constructor; [by apply IH |].
    destruct Hh as [|y m Hxy]; constructor. inversion_clear Hh2 as [|?? Hne].
    apply N.eqb_neq in Hne. unfold le_key, id in Hxy. lia. }
  induction Hlt as [|x m Hm IH Hf]; constructor.
  - intros Hx. rewrite Forall_forall in Hf. specialize (Hf x Hx). lia.
  - apply IH; [by inversion Hn | by inversion Hs].
Qed.

Lemma validate_materialization_requests_Ok source requests a maximum u :
  validate_materialization_requests source requests a maximum = Ok u ->
  len requests <= maximum /\ NoDup (mr_stream <$> requests) /\
  Forall (fun q => 0 < mr_destination_length q /\ mr_destination_length q mod a = 0 /\
                   Forall (fun s => sa_stream s <> mr_stream q) source) requests.
Proof.
  unfold validate_materialization_requests. intros H. inv_ok. bool_props.
  case_match eqn:Hw; [by case_match |]. split_and!; [done | by apply sorted_windows_NoDup |].
  apply for_each_Ok in H. eapply Forall_impl; [exact H |]. intros q Hq. simpl in Hq.
  unfold validate_materialization_request in Hq. inv_ok. bool_props.
  split_and!; [lia | done |]. apply Forall_forall. intros s Hs He.
  rename select (existsb _ _ = false) into Hex. apply not_true_iff_false in Hex.
  apply Hex, existsb_exists. exists s. split; [by apply list_elem_of_In | by apply N.eqb_eq].
Qed.

Lemma validate_destination_lengths_Ok source a u :
  validate_destination_lengths source a = Ok u ->
  Forall (fun s => br_length (sa_range s) mod a = 0) source.
Proof.
  intros H%for_each_Ok. eapply Forall_impl; [exact H |].
  intros s Hs. simpl in Hs. inv_ok. by bool_props.
Qed.

(** ** The solver *)
Definition occupied_ranges (input : LayoutInput) : list ByteRange :=
  (sa_range <$> li_source input) ++ (dr_range <$> li_reservations input) ++
  li_staging_exclusions input.

(** The allocations that have to move, in physical order. *)
Definition conflicting_sources (input : LayoutInput) : list SourceAllocation :=
  filter (fun a => conflictsb (li_destination_domain input) (li_destination_alignment input)
                     (li_reservations input) a = true)
    (sort_by_key (fun a => br_offset (sa_range a)) (li_source input)).

(** What every accepted input satisfies. *)
Definition accepted (input : LayoutInput) : Prop :=
  disjoint_ranges br_offset br_length (sa_range <$> li_source input) /\
  disjoint_ranges br_offset br_length (dr_range <$> li_reservations input) /\
  disjoint_ranges br_offset br_length (li_staging_exclusions input) /\
  (forall s e, s ∈ li_source input -> e ∈ li_staging_exclusions input ->
     range_apart (sa_range s) e) /\
  Forall (fun r => 0 < br_length r /\ range_end r <= li_volume_bytes input)
    (occupied_ranges input) /\
  NoDup (mr_stream <$> li_materialization_requests input) /\
  Forall (fun a => sa_movable a = true) (conflicting_sources input).

Definition plan_destinations (plan : LayoutPlan) : list ByteRange :=
  relocation_destinations (lp_relocations plan) ++
  materialization_destinations (lp_materializations plan).

(** What every returned plan satisfies. *)
Definition layout_correct (input : LayoutInput) (plan : LayoutPlan) : Prop :=
  let placed_ranges := plan_destinations plan ++ lp_free_after_staging plan in
  Forall2 (relocates (li_destination_domain input) (li_destination_alignment input))
    (conflicting_sources input) (lp_relocations plan) /\
  Forall2 (materializes (li_destination_domain input) (li_destination_alignment input))
    (li_materialization_requests input) (lp_materializations plan) /\
  Forall (fun r => 0 < br_length r) placed_ranges /\
  disjoint_ranges br_offset br_length placed_ranges /\
  (forall p, covered p placed_ranges <->
     p < li_volume_bytes input /\ ~ covered p (occupied_ranges input)) /\
  lp_relocated_bytes plan =
    sum_by (fun a => br_length (sa_range a)) (conflicting_sources input) /\
  lp_materialized_bytes plan =
    sum_by mr_destination_length (li_materialization_requests input) /\
  len (plan_destinations plan) <= ll_max_relocations (li_limits input) /\
  Forall (fun r => br_length r <= lp_largest_free_range plan) (lp_free_after_staging plan).

Lemma Sorted_fmap {A B} (f : A -> B) (R : B -> B -> Prop) l :
  Sorted (fun x y => R (f x) (f y)) l -> Sorted R (f <$> l).
Proof.
  induction 1 as [|x l Hs IH Hh]; [constructor |]. constructor; [done |].
  by destruct Hh; constructor.
Qed.

(** The neighbour check of the source, for any kind of range. *)
Lemma nonoverlap_sorted {A} (range_of : A -> ByteRange) (err : A -> A -> LayoutError) l u :
  for_windows2 (fun first second =>
    first_end ← ByteRange_end (range_of first);
    refuse_if (br_offset (range_of second) <? first_end) (err first second)) l = Ok u ->
  StronglySorted (fun a b => range_before (range_of a) (range_of b)) l.
Proof.
  intros H%for_windows2_Ok. apply Sorted_StronglySorted.
  { intros x y z. unfold range_before, before. lia. }
  eapply Sorted_ext, H. intros x y _ _ Hxy. simpl in Hxy. inv_ok.
  apply ByteRange_end_Ok in Hok as [-> _]. by bool_props.
Qed.

Lemma nonoverlap_safe {A} (range_of : A -> ByteRange) (err : A -> A -> LayoutError) l :
  for_windows2 (fun first second =>
    first_end ← ByteRange_end (range_of first);
    refuse_if (br_offset (range_of second) <? first_end) (err first second)) l <> Panic.
Proof. safe. apply ByteRange_end_safe. Qed.

Lemma sorted_disjoint {A} (range_of : A -> ByteRange) (f : A -> N) l :
  StronglySorted (fun a b => range_before (range_of a) (range_of b)) (sort_by_key f l) ->
  disjoint_ranges br_offset br_length (range_of <$> l).
Proof.
  intros Hs. eapply (disjoint_ranges_perm _ _ (range_of <$> sort_by_key f l)).
  { by rewrite sort_by_key_perm. }
  apply adjacent_disjoint, Sorted_fmap. by apply StronglySorted_Sorted.
Qed.

(** The conflict test does not depend on the order of the reservations. *)
Lemma conflictsb_perm domain a l1 l2 s :
  l1 ≡ₚ l2 -> conflictsb domain a l1 s = conflictsb domain a l2 s.
Proof.
  intros Hp. unfold conflictsb. f_equal. apply eq_iff_eq_true. rewrite !existsb_exists.
  split; intros (x & Hx & Ht); exists x; (split; [|done]); apply list_elem_of_In.
  - rewrite <- Hp. by apply list_elem_of_In.
  - rewrite Hp. by apply list_elem_of_In.
Qed.

Lemma largest_range_spec l : Forall (fun r => br_length r <= largest_range l) l.
Proof.
  induction l as [|r l IH]; simpl; [constructor |]. constructor; [lia |].
  eapply Forall_impl; [exact IH |]. intros x Hx. simpl in *. lia.
Qed.

Lemma covered_elem_perm p l1 l2 l1' l2' (l3 : list ByteRange) :
  l1 ≡ₚ l1' -> l2 ≡ₚ l2' -> covered p (l1 ++ l2 ++ l3) <-> covered p (l1' ++ l2' ++ l3).
Proof. intros H1 H2. apply covered_perm. by rewrite H1, H2. Qed.

(** The facts that validation establishes. *)
Lemma validate_layout_input_Ok input u :
  li_destination_alignment input <= u64_max -> validate_layout_input input = Ok u ->
  alignment_ok (li_destination_alignment input) /\
  Forall (fun r => 0 < br_length r /\ range_end r <= li_volume_bytes input)
    (occupied_ranges input) /\
  NoDup (mr_stream <$> li_materialization_requests input) /\
  Forall (fun q => 0 < mr_destination_length q) (li_materialization_requests input).
Proof.
  intros Ha H. unfold validate_layout_input in H. inv_ok.
  rename select (validate_alignments _ = _) into Hal. apply validate_alignments_Ok in Hal.
  rename select (validate_materialization_requests _ _ _ _ = _) into Hm.
  apply validate_materialization_requests_Ok in Hm as (_ & Hnd & Hq).
  rename select (validate_ranges _ _ _ _ _ = _) into Hr. unfold validate_ranges in Hr. inv_ok.
  repeat match goal with H : for_each _ _ = Ok _ |- _ => apply for_each_Ok in H end.
  split_and!.
  - apply Forall_cons in Hal as [_ Hal]. apply Forall_cons in Hal as [[_ ?] _]. by split.
  - unfold occupied_ranges. rewrite !Forall_app, !Forall_fmap.
    split_and!; (eapply Forall_impl; [eassumption |]);
      intros x Hx; simpl in Hx; apply validate_range_Ok in Hx as (? & ? & _); by split.
  - done.
  - eapply Forall_impl; [exact Hq |]. by intros q (? & _).
Qed.

Lemma validate_layout_input_safe input : validate_layout_input input <> Panic.
Proof.
  unfold validate_layout_input, validate_limits, validate_ranges,
    validate_destination_lengths, validate_materialization_requests.
  assert (Hval : forall l, validate_alignments l <> Panic) by (intros; unfold validate_alignments; safe).
  apply bind_safe; [safe |]. intros _ _. apply bind_safe; [done |]. intros checked Hal.
  apply validate_alignments_Ok in Hal. rewrite !Forall_cons in Hal.
  destruct Hal as ([Hs _] & [Hd _] & [Hi _] & _).
  safe; try (by apply validate_range_safe); try (by apply rem_u64_safe).
  destruct (find_windows2 _ _) as [[]|]; [done |]. safe. unfold validate_materialization_request.
  safe. by apply rem_u64_safe.
Qed.

(** ** Claims *)

Lemma solve_layout_ok input plan :
  li_destination_alignment input <= u64_max ->
  solve_layout_with_domain_and_alignments_inner input = Ok plan ->
  accepted input /\ layout_correct input plan.
Proof.
  intros Ha H. unfold solve_layout_with_domain_and_alignments_inner in H. inv_ok.
  apply validate_layout_input_Ok in Hok as (Hal & Hin & Hnd & Hq); [|done].
  apply nonoverlap_sorted in Hok0 as Hsrc. apply nonoverlap_sorted in Hok1 as Hres.
  unfold validate_staging_exclusions in Hok2. inv_ok.
  rename select (for_windows2 _ _ = _) into Hex. apply (nonoverlap_sorted id) in Hex.
  rename select (try_fold check_exclusion _ _ = _) into Hcx.
  pose proof (check_exclusions_spec _ _ _ Hex Hsrc Hcx) as Hapart. clear Hcx.
  rename select (collect_conflicts _ _ _ _ _ = _) into Hcf.
  unfold collect_conflicts in Hcf. inv_ok. rename select (try_fold _ _ _ = _) into Hcf.
  apply collect_conflicts_spec in Hcf as [Hc Hmov]; [|done|apply sort_by_key_sorted].
  rename select (union_occupied _ _ _ _ = _) into Hun.
  apply (union_occupied_spec (li_volume_bytes input)) in Hun as (Ho1 & Ho2 & Ho3).
  2: { unfold occupied_ranges in Hin. rewrite !sort_by_key_perm.
       eapply Forall_impl; [exact Hin | by intros ? []]. }
  rename select (complement _ _ _ = _) into Hco.
  apply complement_spec in Hco as [Hfree Hfc]; [|done..].
  assert (Hconf := Hc). cbn [app] in Hconf.
  rewrite (filter_agree _ (conflictsb (li_destination_domain input)
    (li_destination_alignment input) (li_reservations input))) in Hconf
    by (intros; apply conflictsb_perm, sort_by_key_perm).
  change (filter _ _) with (conflicting_sources input) in Hconf.
  rename select (place_all _ _ _ _ _ _ = _) into Hplace. rewrite Hconf in Hplace.
  assert (Hmovable : Forall (fun a => sa_movable a = true) (conflicting_sources input)).
  { apply Forall_forall. intros x Hx. rewrite <- Hconf, Hc in Hx.
    apply list_elem_of_filter in Hx as [Ht Hx]. rewrite Forall_forall in Hmov. by apply Hmov. }
  apply (place_all_ok (li_volume_bytes input)) in Hplace as
    (H1 & H2 & H3 & H4 & H5 & [H6 _] & H7 & H8 & H9); [|done|done| |done].
  2: { apply Forall_forall. intros x Hx. apply list_elem_of_filter in Hx as [_ Hx].
       rewrite sort_by_key_perm in Hx. rewrite Forall_forall in Hin.
       apply Hin. unfold occupied_ranges. apply elem_of_app. left.
       by apply list_elem_of_fmap_2. }
  rewrite app_assoc in H7, H8, H9.
  split.
  - split_and!; try done.
    + by eapply sorted_disjoint.
    + by eapply sorted_disjoint.
    + rewrite <- (list_fmap_id (li_staging_exclusions input)).
      by eapply (sorted_disjoint id).
    + intros s e Hs He. apply Hapart; by rewrite sort_by_key_perm.
  - split_and!; try done.
    + intros p. unfold plan_destinations. cbn [lp_relocations lp_materializations lp_free_after_staging].
      rewrite H9, Hfc, Ho3. unfold occupied_ranges.
      rewrite (covered_perm p _ ((sa_range <$> li_source input) ++
        (dr_range <$> li_reservations input) ++ li_staging_exclusions input)); [done |].
      by rewrite !sort_by_key_perm.
    + unfold plan_destinations. cbn [lp_relocations lp_materializations].
      rewrite len_app. unfold relocation_destinations, len. rewrite length_fmap. exact H5.
    + apply largest_range_spec.
Qed.

(** C4: A returned layout is correct.  The relocated extents are exactly the
    source allocations that conflict with the reservations, the alignment or the
    domain, in physical order, and all of them are movable; every relocation
    keeps its length and lands aligned inside the destination domain; every
    materialization request gets exactly its bytes.  Destinations and reported
    free ranges are disjoint, nonempty, and cover precisely the bytes of the
    volume that no source allocation, reservation or exclusion occupies. *)
Theorem solve_layout_sound input plan :
  li_destination_alignment input <= u64_max ->
  solve_layout_with_domain_and_alignments_inner input = Ok plan ->
  accepted input /\ layout_correct input plan.
Proof. apply solve_layout_ok. Qed.

Lemma solve_layout_safe input :
  li_destination_alignment input <= u64_max ->
  solve_layout_with_domain_and_alignments_inner input <> Panic.
Proof.
  intros Ha. unfold solve_layout_with_domain_and_alignments_inner.
  apply bind_safe; [apply validate_layout_input_safe |]. intros u Hv.
  apply validate_layout_input_Ok in Hv as (Hal & _ & _ & _); [|done].
  pose proof (alignment_pos _ Hal) as Hpos.
  safe.
  - apply (nonoverlap_safe sa_range).
  - apply (nonoverlap_safe dr_range).
  - unfold validate_staging_exclusions. apply bind_safe; [apply (nonoverlap_safe id) |].
    intros _ _. apply bind_safe; [apply check_exclusions_safe | done].
  - unfold collect_conflicts. apply bind_safe; [apply collect_conflicts_safe; lia | done].
  - unfold union_occupied. apply bind_safe; [|done]. apply merge_ranges_safe.
    + apply sort_by_key_sorted.
    + intros m r Hm. by apply not_elem_of_nil in Hm.
  - apply complement_safe.
  - by apply place_all_safe.
Qed.

(** The solver never aborts: every subtraction, division and mask is in
    range, the measuring loop of the fragmented allocator always finds the span
    it measured ([expect]), and that loop terminates. *)
Theorem solve_layout_never_panics input :
  li_destination_alignment input <= u64_max ->
  solve_layout_with_domain_and_alignments_inner input <> Panic.
Proof. apply solve_layout_safe. Qed.

(** First fit.  On an increasing free list the allocator returns the lowest
    aligned offset at which the request fits into one free range and the domain,
    removes exactly those bytes from the list, and leaves the list unchanged
    when no range fits. *)
Theorem first_fit_is_lowest v free length alignment domain maximum free' found :
  alignment_ok alignment -> 0 < length -> free_ok v free ->
  allocate_first_fit_aligned_within free length alignment domain maximum
    = Ok (free', found) ->
  match found with
  | None => free' = free /\ forall r a, r ∈ free -> ~ fits r domain alignment length a
  | Some d =>
      br_length d = length /\ placed domain alignment d /\
      free_ok v free' /\ splits free (d :: free') /\
      forall r a, r ∈ free -> fits r domain alignment length a -> br_offset d <= a
  end.
Proof.
  intros Ha Hl Hf H. destruct found as [d|]; [|by eapply allocate_none].
  pose proof H as H'. apply (allocate_spec v) in H' as (Hd & Hp & Hf' & Hs); [|done..].
  split_and!; try done. unfold allocate_first_fit_aligned_within in H. inv_ok.
  apply ByteRange_end_Ok in Hok as [-> _].
  apply first_fit_from_spec in H as (A & r & B & -> & _ & _ & Hfit & Hlow & Hno); [|done..].
  intros s a Hin Hsa. apply elem_of_app in Hin as [Hin|[->|Hin]%elem_of_cons].
  - rewrite Forall_forall in Hno. by apply Hno in Hsa.
  - by apply Hlow.
  - destruct Hf as [_ Hsort]. apply StronglySorted_app_iff in Hsort as (_ & Hsort & _).
    apply StronglySorted_inv in Hsort as [_ Hr]. rewrite Forall_forall in Hr.
    specialize (Hr s Hin). destruct Hsa as (Hs1 & _), Hfit as (? & _ & ? & _).
    unfold range_before, before, range_end in *. lia.
Qed.

(** ** Clusters that touch unusable ranges *)
Lemma elem_of_range_inclusive x first last :
  x ∈ range_inclusive first last <-> first <= x <= last.
Proof.
  unfold range_inclusive. rewrite list_elem_of_fmap. setoid_rewrite elem_of_seq. split.
  - intros (i & -> & Hi). lia.
  - intros [H1 H2]. exists (N.to_nat (x - first)). lia.
Qed.

Lemma insert_all_spec l set :
  StronglySorted N.lt set ->
  StronglySorted N.lt (foldl (fun s x => btree_insert x s) set l) /\
  forall x, x ∈ foldl (fun s x => btree_insert x s) set l <-> x ∈ set \/ x ∈ l.
Proof.
  revert set. induction l as [|y l IH]; intros set Hs; simpl; [set_solver |].
  destruct (IH (btree_insert y set)) as [H1 H2]; [by apply btree_insert_sorted |].
  split; [done |]. intros x. rewrite H2, elem_of_btree_insert, elem_of_cons. tauto.
Qed.

(** Cluster [lcn] shares a byte with [r]. *)
Definition cluster_touches (c : N) (r : ByteRange) (lcn : N) : Prop :=
  exists p, in_range (br_offset r) (br_length r) p /\ in_range (lcn * c) c p.

Lemma cluster_touches_bounds c r lcn :
  0 < c -> 0 < br_length r ->
  cluster_touches c r lcn <->
  br_offset r / c <= lcn <= (br_offset r + br_length r - 1) / c.
Proof.
  intros Hc Hr. unfold cluster_touches, in_range. split.
  - intros (p & Hp & Hl). split.
    + apply N.lt_succ_r, N.Div0.div_lt_upper_bound. lia.
    + apply N.div_le_lower_bound; lia.
  - intros [H1 H2].
    pose proof (round_down c (br_offset r) Hc) as (_ & Hd1 & _).
    pose proof (round_down c (br_offset r + br_length r - 1) Hc) as (Hd2 & _ & _).
    assert (lcn * c <= br_offset r + br_length r - 1) by nia.
    assert (br_offset r < lcn * c + c) by nia.
    exists (N.max (br_offset r) (lcn * c)). lia.
Qed.

Lemma clusters_covering_Ok ranges c v lcns :
  clusters_covering_ranges ranges c v = Ok lcns ->
  StronglySorted N.lt lcns /\
  Forall (fun r => 0 < br_length r /\ range_end r <= v) ranges /\
  forall lcn, lcn ∈ lcns <-> exists r, r ∈ ranges /\ cluster_touches c r lcn.
Proof.
  unfold clusters_covering_ranges. intros H. inv_ok. bool_props.
  assert (Hgen : forall set, StronglySorted N.lt set ->
    try_fold (cover_range c v) set ranges = Ok lcns ->
    StronglySorted N.lt lcns /\
    Forall (fun r => 0 < br_length r /\ range_end r <= v) ranges /\
    forall lcn, lcn ∈ lcns <-> lcn ∈ set \/ exists r, r ∈ ranges /\ cluster_touches c r lcn).
  { clear H. induction ranges as [|r ranges IH]; intros set Hs Hf; simpl in Hf.
    { inv_ok. split_and!; [done | constructor |]. set_solver. }
    inv_ok. unfold cover_range in Hok. inv_ok. bool_props.
    rename select (ByteRange_end r = _) into He. apply ByteRange_end_Ok in He as [-> _].
    unfold range_end in *.
    match type of Hf with try_fold _ (foldl _ _ ?l) _ = _ =>
      destruct (insert_all_spec l set Hs) as [Hs' Hin] end.
    apply IH in Hf as (Hl1 & Hl2 & Hl3); [|done].
    split_and!; [done | constructor; [lia | done] |].
    intros lcn. rewrite Hl3, Hin, elem_of_range_inclusive, <- cluster_touches_bounds by lia.
    setoid_rewrite elem_of_cons. naive_solver. }
  apply Hgen in H as (Hl1 & Hl2 & Hl3); [|constructor].
  split_and!; [done | done |]. intros lcn. rewrite Hl3. set_solver.
Qed.

(** The clusters returned for a set of unusable ranges are, in increasing
    order and without repetition, exactly the clusters that share a byte with one
    of the ranges; success implies that all ranges are nonempty and inside the
    volume. *)
Theorem clusters_covering_ranges_spec ranges c v lcns :
  clusters_covering_ranges ranges c v = Ok lcns ->
  StronglySorted N.lt lcns /\
  Forall (fun r => 0 < br_length r /\ range_end r <= v) ranges /\
  forall lcn, lcn ∈ lcns <-> exists r, r ∈ ranges /\ cluster_touches c r lcn.
Proof. apply clusters_covering_Ok. Qed.

(** ** Witnesses *)
Section Witnesses.
Definition sample_source : list SourceAllocation :=
  [mkSourceAllocation 2 0 (mkByteRange 3072 1024) true;
   mkSourceAllocation 1 0 (mkByteRange 0 1024) true].
Definition sample_layout_input (volume request : N) (more : list SourceAllocation)
    : LayoutInput :=
  mkLayoutInput volume 512 1024 512 (mkByteRange 1024 (volume - 1024)) true
    (sample_source ++ more)
    [mkDestinationReservation (mkByteRange 1024 512) NamespaceMetadata]
    [mkByteRange 1536 512] [mkMaterializationRequest 3 request] LayoutLimits_default.

(** The payload outside the domain moves to the lowest free cluster that the
    materialization leaves. *)
Definition sample_layout : LayoutPlan :=
  mkLayoutPlan [mkRelocation 1 0 (mkByteRange 0 1024) (mkByteRange 4096 1024)]
    [mkMaterialization 3 [mkByteRange 2048 1024]] [mkByteRange 5120 3072] 1024 1024 3072.
Example sample_layout_solved :
  solve_layout_with_domain_and_alignments_inner (sample_layout_input 8192 1024 [])
    = Ok sample_layout.
Proof. by vm_compute. Qed.

(** Without one free span for the request, the relocation goes first and the
    stream is fragmented. *)
Example sample_layout_fragmented :
  solve_layout_with_domain_and_alignments_inner
    (sample_layout_input 7168 2048 [mkSourceAllocation 4 0 (mkByteRange 5120 1024) false])
    = Ok (mkLayoutPlan [mkRelocation 1 0 (mkByteRange 0 1024) (mkByteRange 2048 1024)]
            [mkMaterialization 3 [mkByteRange 4096 1024; mkByteRange 6144 1024]] [] 1024 2048 0).
Proof. by vm_compute. Qed.

(** Witness. *)
Lemma solve_layout_sound_witness :
  accepted (sample_layout_input 8192 1024 []) /\
  layout_correct (sample_layout_input 8192 1024 []) sample_layout.
Proof. apply solve_layout_sound; by vm_compute. Defined.

(** Witness. *)
Lemma solve_layout_never_panics_witness :
  solve_layout_with_domain_and_alignments_inner (sample_layout_input 8192 1024 []) <> Panic.
Proof. apply solve_layout_never_panics. by vm_compute. Defined.

Definition sample_free : list ByteRange := [mkByteRange 512 1024; mkByteRange 2048 4096].

(** Witness. *)
Lemma first_fit_is_lowest_witness :
  br_length (mkByteRange 2048 1024) = 1024 /\
  placed (mkByteRange 0 8192) 1024 (mkByteRange 2048 1024) /\
  free_ok 8192 [mkByteRange 512 1024; mkByteRange 3072 3072] /\
  splits sample_free
    [mkByteRange 2048 1024; mkByteRange 512 1024; mkByteRange 3072 3072] /\
  forall r a, r ∈ sample_free -> fits r (mkByteRange 0 8192) 1024 1024 a ->
    br_offset (mkByteRange 2048 1024) <= a.
Proof.
  apply (first_fit_is_lowest 8192 sample_free 1024 1024 (mkByteRange 0 8192) 8
           [mkByteRange 512 1024; mkByteRange 3072 3072] (Some (mkByteRange 2048 1024))).
  - by vm_compute.
  - by vm_compute.
  - split; repeat constructor; by vm_compute.
  - by vm_compute.
Defined.

(** Witness. *)
Lemma clusters_covering_ranges_spec_witness :
  StronglySorted N.lt [0; 1; 2; 7] /\
  Forall (fun r => 0 < br_length r /\ range_end r <= 4096)
    [mkByteRange 500 600; mkByteRange 3584 1; mkByteRange 600 10] /\
  forall lcn, lcn ∈ [0; 1; 2; 7] <->
    exists r, r ∈ [mkByteRange 500 600; mkByteRange 3584 1; mkByteRange 600 10] /\
              cluster_touches 512 r lcn.
Proof. apply clusters_covering_ranges_spec. by vm_compute. Defined.
End Witnesses.
