(* ===== verification/Planner.v ===== *)
(** * Vocabulary and preflight planner ([lib.rs])

    The enumerations every component shares, their command-line parsers, and the
    stateless planner.  The planner's contract is a closed formula over the
    evidence ([ready_evidence]); the main theorem says the plan is ready exactly
    when the formula holds. *)

From S2P Require Import Prelude.
From stdpp Require Import pretty options.
#[local] Open Scope string_scope.
#[local] Open Scope N_scope.

Definition MIB : N := 1024 * 1024.

Inductive FileSystem : Type := ExFat | Ntfs | UnknownFileSystem.
#[export] Instance FileSystem_eq_dec : EqDecision FileSystem.
Proof. solve_decision. Defined.

Definition FileSystem_display (fs : FileSystem) : string :=
  match fs with ExFat => "exFAT" | Ntfs => "NTFS" | UnknownFileSystem => "unknown" end.

Inductive GuaranteeMode : Type := Strict | Escrow | ContentOnly.
#[export] Instance GuaranteeMode_eq_dec : EqDecision GuaranteeMode.
Proof. solve_decision. Defined.

Definition GuaranteeMode_display (mode : GuaranteeMode) : string :=
  match mode with
  | Strict => "strict"
  | Escrow => "escrow"
  | ContentOnly => "content-only"
  end.

Inductive SemanticFeature : Type :=
| AccessControl
| AlternateDataStreams
| Compression
| EncryptedFiles
| HardLinks
| ReparsePoints
| SparseFiles
| CaseCollisions.
#[export] Instance SemanticFeature_eq_dec : EqDecision SemanticFeature.
Proof. solve_decision. Defined.

Definition feature_label (feature : SemanticFeature) : string :=
  match feature with
  | AccessControl => "ACLs or ownership"
  | AlternateDataStreams => "alternate data streams"
  | Compression => "NTFS compression"
  | EncryptedFiles => "EFS encrypted files"
  | HardLinks => "hard-link groups"
  | ReparsePoints => "reparse points or symlinks"
  | SparseFiles => "sparse files"
  | CaseCollisions => "case-colliding names"
  end.

Definition escrow_supported (feature : SemanticFeature) : bool :=
  match feature with EncryptedFiles => false | _ => true end.

(** [to_ascii_lowercase] on the bytes of a string. *)
Definition ascii_lower (c : Ascii.ascii) : Ascii.ascii :=
  let n := Ascii.N_of_ascii c in
  if (65 <=? n) && (n <=? 90) then Ascii.ascii_of_N (n + 32) else c.
Fixpoint to_ascii_lowercase (s : string) : string :=
  match s with
  | EmptyString => EmptyString
  | String c s => String (ascii_lower c) (to_ascii_lowercase s)
  end.

Record ParseValueError : Type := mkParseValueError {
  pe_kind : string;
  pe_value : string
}.

Definition FileSystem_from_str (value : string) : outcome ParseValueError FileSystem :=
  let lower := to_ascii_lowercase value in
  if (lower =? "exfat")%string then Ok ExFat
  else if (lower =? "ntfs")%string then Ok Ntfs
  else Err (mkParseValueError "filesystem" value).

Definition GuaranteeMode_from_str (value : string) : outcome ParseValueError GuaranteeMode :=
  let lower := to_ascii_lowercase value in
  if (lower =? "strict")%string then Ok Strict
  else if (lower =? "escrow")%string then Ok Escrow
  else if (lower =? "content-only")%string || (lower =? "content")%string then Ok ContentOnly
  else Err (mkParseValueError "guarantee mode" value).

Inductive HealthState : Type := Clean | Dirty | UnknownHealth.
#[export] Instance HealthState_eq_dec : EqDecision HealthState.
Proof. solve_decision. Defined.
Inductive AccessState : Type := Offline | Mounted | UnknownAccess.
#[export] Instance AccessState_eq_dec : EqDecision AccessState.
Proof. solve_decision. Defined.

Record VolumeState : Type := mkVolumeState {
  vs_health : HealthState;
  vs_access : AccessState
}.
Record VolumeRole : Type := mkVolumeRole {
  vr_system_volume : bool;
  vr_encrypted_container : bool
}.

(** Free text is kept as its sequence of Unicode scalar values. *)
Record VolumeProfile : Type := mkVolumeProfile {
  vp_display_name : list N;
  vp_stable_id : list N;
  vp_filesystem : FileSystem;
  vp_capacity_bytes : N;
  vp_free_bytes : option N;
  vp_logical_sector_bytes : N;
  vp_cluster_bytes : N;
  vp_state : VolumeState;
  vp_role : VolumeRole;
  vp_features : list SemanticFeature;
  vp_inventory_complete : bool
}.

Definition chars (s : string) : list N :=
  (fun c => Ascii.N_of_ascii c) <$> String.list_ascii_of_string s.

Definition demo_exfat : VolumeProfile := {|
  vp_display_name := chars "DEMO_ARCHIVE";
  vp_stable_id := chars "image://demo-archive.exfat";
  vp_filesystem := ExFat;
  vp_capacity_bytes := 64 * 1024 * MIB;
  vp_free_bytes := Some (21 * 1024 * MIB);
  vp_logical_sector_bytes := 512;
  vp_cluster_bytes := 128 * 1024;
  vp_state := mkVolumeState Clean Offline;
  vp_role := mkVolumeRole false false;
  vp_features := [];
  vp_inventory_complete := true
|}.

Inductive Severity : Type := Info | Warning | Blocker.
#[export] Instance Severity_eq_dec : EqDecision Severity.
Proof. solve_decision. Defined.
Definition severity_token (severity : Severity) : string :=
  match severity with Info => "READY" | Warning => "WARN" | Blocker => "BLOCKED" end.

Record PlanIssue : Type := mkPlanIssue {
  is_severity : Severity;
  is_code : string;
  is_message : string
}.
Record PlannedPhase : Type := mkPlannedPhase {
  pp_number : N;
  pp_name : string;
  pp_summary : string
}.
Record ConversionPlan : Type := mkConversionPlan {
  cp_source : VolumeProfile;
  cp_target : FileSystem;
  cp_mode : GuaranteeMode;
  cp_metadata_reserve_bytes : N;
  cp_escrow_reserve_bytes : N;
  cp_required_temporary_bytes : N;
  cp_issues : list PlanIssue;
  cp_phases : list PlannedPhase
}.

Definition is_blocker (issue : PlanIssue) : bool :=
  bool_decide (is_severity issue = Blocker).
Definition is_ready (plan : ConversionPlan) : bool :=
  negb (existsb is_blocker (cp_issues plan)).
Definition blocker_count (plan : ConversionPlan) : N :=
  len (List.filter is_blocker (cp_issues plan)).
Definition warning_count (plan : ConversionPlan) : N :=
  len (List.filter (fun issue => bool_decide (is_severity issue = Warning)) (cp_issues plan)).

(** Issues are appended in program order. *)
Definition info (issues : list PlanIssue) (code message : string) : list PlanIssue :=
  issues ++ [mkPlanIssue Info code message].
Definition warning (issues : list PlanIssue) (code message : string) : list PlanIssue :=
  issues ++ [mkPlanIssue Warning code message].
Definition blocker (issues : list PlanIssue) (code message : string) : list PlanIssue :=
  issues ++ [mkPlanIssue Blocker code message].
Definition blocker_if (c : bool) (code message : string) (issues : list PlanIssue)
    : list PlanIssue :=
  if c then blocker issues code message else issues.

(** [char::is_whitespace] and [str::trim]. *)
Definition is_whitespace (c : N) : bool :=
  ((9 <=? c) && (c <=? 13)) || (c =? 32) || (c =? 133) || (c =? 160) || (c =? 5760)
  || ((8192 <=? c) && (c <=? 8202)) || (c =? 8232) || (c =? 8233) || (c =? 8239)
  || (c =? 8287) || (c =? 12288).
Fixpoint trim_start (s : list N) : list N :=
  match s with
  | [] => []
  | c :: rest => if is_whitespace c then trim_start rest else s
  end.
Definition trim (s : list N) : list N := reverse (trim_start (reverse (trim_start s))).

Definition validate_identity_and_format (source : VolumeProfile) (target : FileSystem)
    (issues : list PlanIssue) : list PlanIssue :=
  let issues := blocker_if (is_empty (trim (vp_stable_id source))) "identity.missing"
    "The source does not have a stable identity." issues in
  let issues := blocker_if (bool_decide (vp_filesystem source = UnknownFileSystem))
    "source.unsupported" "The source filesystem is not recognized as exFAT or NTFS." issues in
  let issues := blocker_if (bool_decide (target = UnknownFileSystem))
    "target.unsupported" "The target filesystem must be exFAT or NTFS." issues in
  let issues := blocker_if (bool_decide (vp_filesystem source = target))
    "direction.same-filesystem"
    ("The source already uses " +:+ FileSystem_display target +:+ ".") issues in
  blocker_if (negb (vp_inventory_complete source)) "inventory.incomplete"
    "Allocation and object metadata have not been completely scanned." issues.

Definition validate_state (source : VolumeProfile) (issues : list PlanIssue)
    : list PlanIssue :=
  let issues :=
    match vs_health (vp_state source) with
    | Dirty => blocker issues "health.dirty"
        "The source is dirty. Repair it with the operating-system filesystem checker and analyze again."
    | UnknownHealth => blocker issues "health.unknown"
        "Filesystem cleanliness has not been proven from authoritative metadata."
    | Clean => issues
    end in
  let issues :=
    match vs_access (vp_state source) with
    | Mounted => blocker issues "access.mounted"
        "The source is mounted. Conversion requires an offline, exclusively locked source."
    | UnknownAccess => blocker issues "access.unknown"
        "Exclusive offline access has not been proven."
    | Offline => issues
    end in
  let issues := blocker_if (vr_system_volume (vp_role source)) "topology.system-volume"
    "System, boot, paging, hibernation, and crash-dump volumes are outside the support envelope."
    issues in
  blocker_if (vr_encrypted_container (vp_role source)) "topology.encrypted-container"
    "Encrypted containers must be decrypted outside StarConverter before planning." issues.

(** The divisor of the last test is evaluated only for a nonzero sector size
    when the earlier tests fail, since a zero cluster stops them; [cluster % 0]
    is reached for a zero sector size and aborts. *)
Definition invalid_cluster_size (cluster sector : N) : outcome False bool :=
  if (cluster =? 0) || negb (is_power_of_two cluster) || (cluster <? sector) then Ok true
  else rest ← rem_u64 cluster sector; Ok (negb (rest =? 0)).

Definition validate_geometry (source : VolumeProfile) (issues : list PlanIssue)
    : outcome False (list PlanIssue) :=
  let sector := vp_logical_sector_bytes source in
  let issues := blocker_if (negb ((sector =? 512) || (sector =? 4096)))
    "geometry.sector-size"
    ("Logical sector size " +:+ pretty sector +:+
     " is outside the initial 512/4096-byte support set.") issues in
  let issues := blocker_if (vp_capacity_bytes source =? 0) "geometry.empty"
    "The source reports zero capacity." issues in
  let issues := blocker_if
    match vp_free_bytes source with
    | Some free_bytes => vp_capacity_bytes source <? free_bytes
    | None => false
    end "space.invalid" "Proven free space exceeds the source capacity." issues in
  invalid ← invalid_cluster_size (vp_cluster_bytes source) sector;
  Ok (blocker_if invalid "geometry.cluster-size"
        "Cluster size must be a non-zero power-of-two multiple of the logical sector size."
        issues).

Definition validate_source (source : VolumeProfile) (target : FileSystem)
    (issues : list PlanIssue) : outcome False (list PlanIssue) :=
  validate_geometry source
    (validate_state source (validate_identity_and_format source target issues)).

(** One round of the feature loop. *)
Definition classify_feature (mode : GuaranteeMode) (state : N * list PlanIssue)
    (feature : SemanticFeature) : N * list PlanIssue :=
  let '(escrow_reserve_bytes, issues) := state in
  match mode with
  | Strict => (escrow_reserve_bytes, blocker issues "semantics.not-native"
      ("Strict mode cannot represent " +:+ feature_label feature +:+ " on exFAT."))
  | Escrow =>
      if escrow_supported feature then
        (saturating_add escrow_reserve_bytes (16 * MIB),
         warning issues "semantics.escrow"
           (feature_label feature +:+ " will require round-trip escrow."))
      else
        (escrow_reserve_bytes, blocker issues "semantics.escrow-unsupported"
           (feature_label feature +:+ " is not supported by the initial escrow contract."))
  | ContentOnly => (escrow_reserve_bytes, warning issues "semantics.content-only"
      ("Content-only mode will not round-trip " +:+ feature_label feature +:+ "."))
  end.

Definition classify_semantics (source : VolumeProfile) (target : FileSystem)
    (mode : GuaranteeMode) (issues : list PlanIssue) : N * list PlanIssue :=
  if negb (bool_decide (vp_filesystem source = Ntfs)) || negb (bool_decide (target = ExFat))
  then (0, issues)
  else foldl (classify_feature mode) (0, issues) (vp_features source).

Definition default_phases : list PlannedPhase :=
  [mkPlannedPhase 1 "DISCOVER" "Read and hash source metadata without mutation.";
   mkPlannedPhase 2 "RESERVE" "Reserve target metadata, scratch, and rollback extents.";
   mkPlannedPhase 3 "RELOCATE" "Move only extents that conflict with the target layout.";
   mkPlannedPhase 4 "STAGE" "Build inactive target metadata and transaction records.";
   mkPlannedPhase 5 "VERIFY" "Validate the candidate filesystem through an overlay view.";
   mkPlannedPhase 6 "ACTIVATE"
     "Write backup boot data, flush, then activate the primary boot record.";
   mkPlannedPhase 7 "VALIDATE" "Mount read-only and verify structure and content.";
   mkPlannedPhase 8 "FINALIZE"
     "Release rollback material only after explicit confirmation."].

Definition plan (source : VolumeProfile) (target : FileSystem) (mode : GuaranteeMode)
    : outcome False ConversionPlan :=
  issues ← validate_source source target [];
  let '(escrow_reserve_bytes, issues) := classify_semantics source target mode issues in
  let metadata_reserve_bytes := N.max (vp_capacity_bytes source / 100) (256 * MIB) in
  let required_temporary_bytes :=
    saturating_add metadata_reserve_bytes escrow_reserve_bytes in
  let issues :=
    match vp_free_bytes source with
    | Some free_bytes =>
        blocker_if (free_bytes <? required_temporary_bytes) "space.insufficient"
          ("The preliminary plan needs " +:+ pretty (required_temporary_bytes / MIB) +:+
           " MiB, but only " +:+ pretty (free_bytes / MIB) +:+ " MiB is free.") issues
    | None => blocker issues "space.unknown"
        "Free space has not been proven from allocation metadata."
    end in
  let issues :=
    if is_empty issues then
      info issues "preflight.ready"
        "The supplied evidence satisfies the current preflight policy."
    else issues in
  Ok (mkConversionPlan source target mode metadata_reserve_bytes escrow_reserve_bytes
        required_temporary_bytes issues default_phases).

(** ** Specification *)

Definition escrow_reserve (source : VolumeProfile) (mode : GuaranteeMode) : N :=
  match vp_filesystem source, mode with
  | Ntfs, Escrow =>
      N.min (16 * MIB * len (List.filter escrow_supported (vp_features source))) u64_max
  | _, _ => 0
  end.
Definition required_space (source : VolumeProfile) (mode : GuaranteeMode) : N :=
  saturating_add (N.max (vp_capacity_bytes source / 100) (256 * MIB))
    (escrow_reserve source mode).

(** The semantics of an NTFS source survive the mode. *)
Definition semantics_supported (source : VolumeProfile) (mode : GuaranteeMode) : Prop :=
  match vp_filesystem source, mode with
  | Ntfs, Strict => vp_features source = []
  | Ntfs, Escrow => EncryptedFiles ∉ vp_features source
  | _, _ => True
  end.

(** Everything the evidence has to establish. *)
Definition ready_evidence (source : VolumeProfile) (target : FileSystem)
    (mode : GuaranteeMode) : Prop :=
  trim (vp_stable_id source) <> [] /\
  vp_filesystem source <> UnknownFileSystem /\ target <> UnknownFileSystem /\
  vp_filesystem source <> target /\
  vp_inventory_complete source = true /\
  vs_health (vp_state source) = Clean /\ vs_access (vp_state source) = Offline /\
  vr_system_volume (vp_role source) = false /\
  vr_encrypted_container (vp_role source) = false /\
  (vp_logical_sector_bytes source = 512 \/ vp_logical_sector_bytes source = 4096) /\
  vp_capacity_bytes source <> 0 /\
  is_power_of_two (vp_cluster_bytes source) = true /\
  vp_logical_sector_bytes source <= vp_cluster_bytes source /\
  vp_cluster_bytes source mod vp_logical_sector_bytes source = 0 /\
  semantics_supported source mode /\
  exists free, vp_free_bytes source = Some free /\ free <= vp_capacity_bytes source /\
    required_space source mode <= free.

(** ** Proofs *)
Definition blocked (issues : list PlanIssue) : bool := existsb is_blocker issues.

Lemma blocked_app l1 l2 : blocked (l1 ++ l2) = blocked l1 || blocked l2.
Proof. apply existsb_app. Qed.
Lemma blocked_blocker issues code message : blocked (blocker issues code message) = true.
Proof. unfold blocker. rewrite blocked_app. apply orb_true_r. Qed.
Lemma blocked_warning issues code message :
  blocked (warning issues code message) = blocked issues.
Proof. unfold warning. rewrite blocked_app. apply orb_false_r. Qed.
Lemma blocked_info issues code message : blocked (info issues code message) = blocked issues.
Proof. unfold info. rewrite blocked_app. apply orb_false_r. Qed.
Lemma blocked_if c code message issues :
  blocked (blocker_if c code message issues) = blocked issues || c.
Proof.
  destruct c; simpl; [by rewrite blocked_blocker, orb_true_r | by rewrite orb_false_r].
Qed.
Create Rewrite HintDb blocked.
#[local] Hint Rewrite blocked_blocker blocked_warning blocked_info blocked_if : blocked.

(** The feature loop: reserve and verdict. *)
Lemma classify_fold mode features reserve issues :
  reserve <= u64_max ->
  let result := foldl (classify_feature mode) (reserve, issues) features in
  result.1 = match mode with
             | Escrow => N.min (reserve + 16 * MIB * len (List.filter escrow_supported features))
                           u64_max
             | _ => reserve
             end /\
  (blocked result.2 = false <->
   blocked issues = false /\
   match mode with
   | Strict => features = []
   | Escrow => EncryptedFiles ∉ features
   | ContentOnly => True
   end).
Proof.
  cbv zeta. revert reserve issues. induction features as [|f features IH]; intros reserve issues Hr.
  { split.
    - destruct mode; cbn [foldl fst snd List.filter]; [done | | done].
      rewrite (@len_nil SemanticFeature). lia.
    - cbn [foldl fst snd]. split; [|tauto]. intros ->. split; [done |].
      destruct mode; [done | by apply not_elem_of_nil | done]. }
  simpl foldl. destruct mode.
  - destruct (IH reserve (blocker issues "semantics.not-native"
      ("Strict mode cannot represent " +:+ feature_label f +:+ " on exFAT.")) Hr) as [IH1 IH2].
    split; [exact IH1 |]. rewrite IH2, blocked_blocker. split; [by intros [] | by intros []].
  - simpl. destruct (escrow_supported f) eqn:Hs.
    + destruct (IH (saturating_add reserve (16 * MIB)) (warning issues "semantics.escrow"
        (feature_label f +:+ " will require round-trip escrow."))) as [IH1 IH2].
      { unfold saturating_add. lia. }
      split.
      * rewrite IH1, len_cons. unfold saturating_add. lia.
      * rewrite IH2, blocked_warning, elem_of_cons. split; intros [H1 H2]; (split; [done |]).
        -- intros [<-|Hin]; [done | by apply H2].
        -- intros Hin. apply H2. by right.
    + assert (f = EncryptedFiles) as -> by (by destruct f).
      destruct (IH reserve (blocker issues "semantics.escrow-unsupported"
        (feature_label EncryptedFiles +:+ " is not supported by the initial escrow contract."))
        Hr) as [IH1 IH2].
      split; [exact IH1 |]. rewrite IH2, blocked_blocker.
      split; [by intros [] | intros [_ H]; destruct H; left].
  - destruct (IH reserve (warning issues "semantics.content-only"
      ("Content-only mode will not round-trip " +:+ feature_label f +:+ ".")) Hr) as [IH1 IH2].
    split; [exact IH1 |]. by rewrite IH2, blocked_warning.
Qed.

Lemma classify_semantics_spec source target mode issues :
  vp_filesystem source <> target -> vp_filesystem source <> UnknownFileSystem ->
  target <> UnknownFileSystem ->
  (classify_semantics source target mode issues).1 = escrow_reserve source mode /\
  (blocked (classify_semantics source target mode issues).2 = false <->
   blocked issues = false /\ semantics_supported source mode).
Proof.
  intros H1 H2 H3. unfold classify_semantics, escrow_reserve, semantics_supported.
  destruct (vp_filesystem source) eqn:Hf, target; try done; simpl.
  - by split; [|tauto].
  - destruct (classify_fold mode (vp_features source) 0 issues) as [Hr Hb]; [lia |].
    split; [|rewrite Hb; by destruct mode]. rewrite Hr. destruct mode; [done | by rewrite N.add_0_l | done].
Qed.

Lemma classify_blocked source target mode issues :
  blocked issues = true ->
  blocked (classify_semantics source target mode issues).2 = true.
Proof.
  intros Hb. unfold classify_semantics. case_match; [done |].
  apply not_false_iff_true. intros Hf.
  destruct (classify_fold mode (vp_features source) 0 issues) as [_ Hc]; [lia |].
  apply Hc in Hf as [? _]. congruence.
Qed.

Lemma validate_source_spec source target issues issues' :
  validate_source source target issues = Ok issues' ->
  (blocked issues' = false <->
   blocked issues = false /\
   trim (vp_stable_id source) <> [] /\
   vp_filesystem source <> UnknownFileSystem /\ target <> UnknownFileSystem /\
   vp_filesystem source <> target /\
   vp_inventory_complete source = true /\
   vs_health (vp_state source) = Clean /\ vs_access (vp_state source) = Offline /\
   vr_system_volume (vp_role source) = false /\
   vr_encrypted_container (vp_role source) = false /\
   (vp_logical_sector_bytes source = 512 \/ vp_logical_sector_bytes source = 4096) /\
   vp_capacity_bytes source <> 0 /\
   is_power_of_two (vp_cluster_bytes source) = true /\
   vp_logical_sector_bytes source <= vp_cluster_bytes source /\
   vp_cluster_bytes source mod vp_logical_sector_bytes source = 0 /\
   (forall free, vp_free_bytes source = Some free -> free <= vp_capacity_bytes source)).
Proof.
  unfold validate_source, validate_geometry, validate_identity_and_format. intros H. inv_ok.
  rewrite blocked_if.
  assert (Hstate : forall l, blocked (validate_state source l) = false <->
    blocked l = false /\ vs_health (vp_state source) = Clean /\
    vs_access (vp_state source) = Offline /\ vr_system_volume (vp_role source) = false /\
    vr_encrypted_container (vp_role source) = false).
  { intros l. unfold validate_state. autorewrite with blocked.
    rewrite !orb_false_iff.
    destruct (vs_health _), (vs_access _); autorewrite with blocked; intuition congruence. }
  assert (Hcluster : a = false <-> is_power_of_two (vp_cluster_bytes source) = true /\
    vp_logical_sector_bytes source <= vp_cluster_bytes source /\
    vp_cluster_bytes source mod vp_logical_sector_bytes source = 0).
  { unfold invalid_cluster_size in Hok.
    destruct (N.eqb_spec (vp_cluster_bytes source) 0) as [Hz|Hz]; simpl in Hok.
    { inv_ok. rewrite Hz. split; [done | by intros []]. }
    destruct (is_power_of_two (vp_cluster_bytes source)); simpl in Hok;
      [|inv_ok; split; [done | by intros []]].
    destruct (N.ltb_spec (vp_cluster_bytes source) (vp_logical_sector_bytes source));
      [inv_ok; split; [done | intros (_ & ? & _); lia] |].
    inv_ok. rewrite negb_false_iff, N.eqb_eq. tauto. }
  rewrite !blocked_if, !orb_false_iff, Hstate, !blocked_if, !orb_false_iff, Hcluster.
  rewrite !bool_decide_eq_false, !negb_false_iff, orb_true_iff, !N.eqb_eq, N.eqb_neq.
  assert (Hid : is_empty (trim (vp_stable_id source)) = false <-> trim (vp_stable_id source) <> [])
    by (by destruct (trim _)).
  assert (Hfree : match vp_free_bytes source with
                  | Some free_bytes => vp_capacity_bytes source <? free_bytes
                  | None => false end = false <->
    (forall free, vp_free_bytes source = Some free -> free <= vp_capacity_bytes source)).
  { destruct (vp_free_bytes source) as [f|]; [|done]. rewrite N.ltb_ge.
    split; [by intros ? ? [= <-] | intros Hx; by apply Hx]. }
  rewrite Hid, Hfree. tauto.
Qed.

(** The planner reports a plan as ready exactly when the evidence satisfies
    the written-out policy: known and different filesystems, a stable identity, a
    complete inventory, a clean offline data volume, supported geometry, enough
    proven free space for the reserve, and semantics the mode can carry. *)
Theorem plan_ready_iff source target mode p :
  plan source target mode = Ok p ->
  (is_ready p = true <-> ready_evidence source target mode).
Proof.
  unfold plan. intros H. inv_ok.
  destruct (classify_semantics source target mode a) as [reserve issues] eqn:Hc.
  inv_ok. unfold is_ready. cbn [cp_issues].
  match goal with |- context [existsb is_blocker (if is_empty ?l then _ else _)] =>
    set (final := l) end.
  assert (Hfinal : existsb is_blocker (if is_empty final then info final "preflight.ready"
      "The supplied evidence satisfies the current preflight policy." else final) =
      blocked final).
  { destruct final as [|i final]; [done | done]. }
  rewrite Hfinal, negb_true_iff.
  apply validate_source_spec in Hok.
  destruct (blocked a) eqn:Ha.
  - assert (Hbi : blocked issues = true).
    { change issues with ((reserve, issues).2). rewrite <- Hc. by apply classify_blocked. }
    split.
    + intros Hf. exfalso. unfold final in Hf.
      destruct (vp_free_bytes source); [|by rewrite blocked_blocker in Hf].
      by rewrite blocked_if, Hbi in Hf.
    + intros (?&?&?&?&?&?&?&?&?&?&?&?&?&?&?&free&Hfree&?&?). exfalso.
      assert (true = false); [|done]. apply Hok.
      split_and!; try done. intros f Hf'. congruence.
  - destruct Hok as [Hok _]. specialize (Hok eq_refl) as (_&Hid&H1&H2&H3&?&?&?&?&?&?&?&?&?&?&Hcap).
    destruct (classify_semantics_spec source target mode a H3 H1 H2) as [Hr Hs].
    rewrite Hc in Hr, Hs. cbn [fst snd] in Hr, Hs. subst reserve.
    unfold final. destruct (vp_free_bytes source) as [free|] eqn:Hfree.
    + rewrite blocked_if, orb_false_iff, N.ltb_ge, Hs. split.
      * intros [[_ ?] ?]. repeat (split; [done |]). exists free. by split_and!; [| apply Hcap |].
      * intros (?&?&?&?&?&?&?&?&?&?&?&?&?&?&?&f&Hf&?&?). simplify_eq. by split_and!.
    + rewrite blocked_blocker. split; [done |].
      intros (?&?&?&?&?&?&?&?&?&?&?&?&?&?&?&f&Hf&?). congruence.
Qed.

Lemma safe_bind_panic {E A B} (m : outcome E A) (f : A -> outcome E B) :
  (forall a, m = Ok a -> f a <> Panic) -> m ≫= f = Panic <-> m = Panic.
Proof. destruct m; simpl; naive_solver. Qed.

(** The planner aborts on one class of inputs only: a zero logical sector
    size together with a power-of-two cluster size divides by zero before the
    "geometry.sector-size" blocker can be reported. *)
Theorem plan_aborts_iff_zero_sector source target mode :
  plan source target mode = Panic <->
  vp_logical_sector_bytes source = 0 /\ is_power_of_two (vp_cluster_bytes source) = true.
Proof.
  unfold plan. rewrite safe_bind_panic; [|intros a _; by destruct (classify_semantics _ _ _ a)].
  unfold validate_source, validate_geometry. rewrite safe_bind_panic by done.
  unfold invalid_cluster_size, rem_u64.
  destruct (N.eqb_spec (vp_cluster_bytes source) 0) as [Hz|Hz]; simpl.
  { rewrite Hz. split; [done | by intros []]. }
  destruct (is_power_of_two _) eqn:Hp; simpl; [|split; [done | by intros []]].
  destruct (N.ltb_spec (vp_cluster_bytes source) (vp_logical_sector_bytes source)).
  { split; [done | intros [? _]; lia]. }
  destruct (N.eqb_spec (vp_logical_sector_bytes source) 0); simpl; naive_solver.
Qed.

(** Weaker guarantees never lose readiness: evidence accepted in strict mode
    is accepted in escrow mode, and evidence accepted in escrow mode is accepted in
    content-only mode. *)
Theorem readiness_is_monotone source target p1 p2 p3 :
  plan source target Strict = Ok p1 -> plan source target Escrow = Ok p2 ->
  plan source target ContentOnly = Ok p3 ->
  (is_ready p1 = true -> is_ready p2 = true) /\ (is_ready p2 = true -> is_ready p3 = true).
Proof.
  intros H1 H2 H3. apply plan_ready_iff in H1, H2, H3. rewrite H1, H2, H3.
  unfold ready_evidence, semantics_supported, required_space, escrow_reserve.
  split.
  - intros (?&?&?&?&?&?&?&?&?&?&?&?&?&?&Hs&f&?&?&Hreq). repeat (split; [done |]).
    destruct (vp_filesystem source); [split; [done | by exists f] | | done].
    rewrite Hs in *. split; [by apply not_elem_of_nil |]. exists f.
    split_and!; [done | done | exact Hreq].
  - intros (?&?&?&?&?&?&?&?&?&?&?&?&?&?&_&f&?&?&Hreq). repeat (split; [done |]).
    split; [by destruct (vp_filesystem source) |]. exists f. split_and!; [done | done |].
    etransitivity; [|exact Hreq]. unfold saturating_add.
    destruct (vp_filesystem source); lia.
Qed.

(** The command-line parsers read back what the display functions print, in
    any letter case, and accept nothing else. *)
Theorem parse_display_roundtrip :
  (forall fs, fs <> UnknownFileSystem -> FileSystem_from_str (FileSystem_display fs) = Ok fs) /\
  (forall mode, GuaranteeMode_from_str (GuaranteeMode_display mode) = Ok mode) /\
  (forall s fs, FileSystem_from_str s = Ok fs <->
     fs <> UnknownFileSystem /\
     to_ascii_lowercase s = to_ascii_lowercase (FileSystem_display fs)) /\
  (forall s mode, GuaranteeMode_from_str s = Ok mode <->
     to_ascii_lowercase s = GuaranteeMode_display mode \/
     mode = ContentOnly /\ to_ascii_lowercase s = "content").
Proof.
  split_and!.
  - by intros [].
  - by intros [].
  - intros s fs. unfold FileSystem_from_str.
    assert (E1 : to_ascii_lowercase (FileSystem_display ExFat) = "exfat") by done.
    assert (E2 : to_ascii_lowercase (FileSystem_display Ntfs) = "ntfs") by done.
    repeat match goal with |- context [(?l =? ?r)%string] =>
      destruct (String.eqb_spec l r) as [->|] end;
      destruct fs; rewrite ?E1, ?E2;
      (split; [intros ?; simplify_eq; auto | intros [? ?]; congruence]).
  - intros s mode. unfold GuaranteeMode_from_str.
    repeat match goal with |- context [(?l =? ?r)%string] =>
      destruct (String.eqb_spec l r) as [->|] end;
      destruct mode; simpl;
      (split; [intros ?; simplify_eq; auto | intros [?|[? ?]]; congruence]).
Qed.

(** ** Witnesses *)
Section Witnesses.
Definition demo_plan : ConversionPlan :=
  mkConversionPlan demo_exfat Ntfs Strict 687194767 0 687194767
    [mkPlanIssue Info "preflight.ready"
       "The supplied evidence satisfies the current preflight policy."] default_phases.
Definition with_mode (mode : GuaranteeMode) : ConversionPlan :=
  mkConversionPlan demo_exfat Ntfs mode 687194767 0 687194767 (cp_issues demo_plan)
    default_phases.

(** Witness. *)
Lemma plan_ready_iff_witness :
  is_ready demo_plan = true <-> ready_evidence demo_exfat Ntfs Strict.
Proof. apply plan_ready_iff. by vm_compute. Defined.

(** Witness. *)
Lemma readiness_is_monotone_witness :
  (is_ready (with_mode Strict) = true -> is_ready (with_mode Escrow) = true) /\
  (is_ready (with_mode Escrow) = true -> is_ready (with_mode ContentOnly) = true).
Proof. apply (readiness_is_monotone demo_exfat Ntfs); by vm_compute. Defined.
End Witnesses.
