(* ===== verification/Object.v ===== *)
(** * Objects, names and streams ([object.rs])

    [ObjectGraph::build] accepts a normalized filesystem graph exactly when its
    identities are unique, its streams are covered by extents without gaps, its
    directory entries are unambiguous and counted, every object is reachable from
    the root, and no directory contains itself.  The depth-first search of the
    source is modelled with its explicit stack and three colours. *)

From S2P Require Import Prelude Extent Planner.
From stdpp Require Import gmap options.
#[local] Open Scope N_scope.

Abbreviation ObjectId := N (only parsing).

Inductive ObjectKind : Type := File | Directory.
#[export] Instance ObjectKind_eq_dec : EqDecision ObjectKind.
Proof. solve_decision. Defined.

Record ObjectSemantics : Type := mkObjectSemantics {
  os_has_security_descriptor : bool;
  os_is_reparse_point : bool
}.
#[export] Instance ObjectSemantics_eq_dec : EqDecision ObjectSemantics.
Proof. solve_decision. Defined.

Record StreamFlags : Type := mkStreamFlags {
  sf_sparse : bool;
  sf_compressed : bool;
  sf_encrypted : bool;
  sf_compression_block_bytes : N
}.
#[export] Instance StreamFlags_eq_dec : EqDecision StreamFlags.
Proof. solve_decision. Defined.

Inductive StreamStorage : Type :=
| Resident (bytes : list byte)
| Extents.
#[export] Instance StreamStorage_eq_dec : EqDecision StreamStorage.
Proof. solve_decision. Defined.

(** Names are sequences of UTF-16 code units. *)
Record ObjectStream : Type := mkObjectStream {
  st_id : StreamId;
  st_name : option (list N);
  st_logical_bytes : N;
  st_initialized_bytes : N;
  st_mapped_bytes : N;
  st_allocated_bytes : N;
  st_flags : StreamFlags;
  st_storage : StreamStorage
}.
#[export] Instance ObjectStream_eq_dec : EqDecision ObjectStream.
Proof. solve_decision. Defined.

Record ObjectRecord : Type := mkObjectRecord {
  ob_id : ObjectId;
  ob_kind : ObjectKind;
  ob_link_count : N;
  ob_semantics : ObjectSemantics;
  ob_streams : list ObjectStream
}.
#[export] Instance ObjectRecord_eq_dec : EqDecision ObjectRecord.
Proof. solve_decision. Defined.

Record NamespaceEntry : Type := mkNamespaceEntry {
  ne_parent : ObjectId;
  ne_target : ObjectId;
  ne_name : list N
}.
#[export] Instance NamespaceEntry_eq_dec : EqDecision NamespaceEntry.
Proof. solve_decision. Defined.

Record ObjectGraphLimits : Type := mkObjectGraphLimits {
  ogl_max_objects : N;
  ogl_max_entries : N;
  ogl_max_streams : N;
  ogl_max_name_code_units : N
}.

Record ObjectGraph : Type := mkObjectGraph {
  og_root : ObjectId;
  og_objects : list ObjectRecord;
  og_entries : list NamespaceEntry;
  og_extents : ExtentGraph;
  og_features : list SemanticFeature
}.

Inductive ObjectGraphError : Type :=
| InvalidLimit (field : string)
| ObjectLimitExceeded (actual maximum : N)
| EntryLimitExceeded (actual maximum : N)
| StreamLimitExceeded (actual maximum : N)
| DuplicateObject (id : ObjectId)
| MissingRoot (id : ObjectId)
| RootNotDirectory (id : ObjectId)
| DuplicateStream (id : StreamId)
| DuplicateUnnamedStream (id : ObjectId)
| InvalidStreamSizes (stream : StreamId)
| ResidentLengthMismatch (stream : StreamId) (declared actual : N)
| ResidentAllocation (stream : StreamId) (allocated : N)
| MissingStreamExtent (id : StreamId)
| UnknownExtentStream (id : StreamId)
| ExtentGap (stream : StreamId) (expected actual : N)
| ExtentLengthMismatch (stream : StreamId) (expected actual : N)
| AllocationMismatch (stream : StreamId) (expected actual : N)
| MissingParent (id : ObjectId)
| ParentNotDirectory (id : ObjectId)
| MissingTarget (id : ObjectId)
| RootHasNamespaceEntry
| EmptyName (target : ObjectId)
| NameTooLong (target : ObjectId) (actual maximum : N)
| DuplicateName (parent : ObjectId) (name : list N)
| LinkCountMismatch (object : ObjectId) (expected actual : N)
| UnreachableObject (id : ObjectId)
| DirectoryCycle (id : ObjectId)
| ArithmeticOverflow.

#[local] Abbreviation graph := (outcome ObjectGraphError).

Definition validate_limits (limits : ObjectGraphLimits) : graph unit :=
  for_each (fun fv : string * N => refuse_if (fv.2 =? 0) (InvalidLimit fv.1))
    [("max_objects"%string, ogl_max_objects limits);
     ("max_entries"%string, ogl_max_entries limits);
     ("max_streams"%string, ogl_max_streams limits);
     ("max_name_code_units"%string, ogl_max_name_code_units limits)].

(** [BTreeMap::insert(..).is_some()] refuses a key that is present. *)
Definition index_object (state : gmap N N * N) (object : ObjectRecord)
    : graph (gmap N N * N) :=
  let '(index, position) := state in
  refuse_if (bool_decide (is_Some (index !! ob_id object))) (DuplicateObject (ob_id object)) ;;
  Ok (<[ob_id object := position]> index, position + 1).

Definition index_objects (objects : list ObjectRecord) (root : ObjectId)
    (limits : ObjectGraphLimits) : graph (gmap N N) :=
  state ← try_fold index_object (∅, 0) objects;
  let index := state.1 in
  root_position ← ok_or (MissingRoot root) (index !! root);
  object ← at_index objects root_position;
  refuse_if (negb (bool_decide (ob_kind object = Directory))) (RootNotDirectory root) ;;
  refuse_if (ogl_max_objects limits <? len objects)
    (ObjectLimitExceeded (len objects) (ogl_max_objects limits)) ;;
  Ok index.

(** One extent of the coverage loop; the state is the next logical offset and
    the physical byte count. *)
Definition cover_extent (stream : ObjectStream) (state : N * N) (extent : Extent)
    : graph (N * N) :=
  let '(expected_offset, physical) := state in
  refuse_if (negb (ex_logical_offset extent =? expected_offset))
    (ExtentGap (st_id stream) expected_offset (ex_logical_offset extent)) ;;
  next_offset ← ok_or ArithmeticOverflow (checked_add expected_offset (ex_length extent));
  match ex_placement extent with
  | Physical _ =>
      physical ← ok_or ArithmeticOverflow (checked_add physical (ex_length extent));
      Ok (next_offset, physical)
  | Sparse => Ok (next_offset, physical)
  end.

Definition validate_stream_extents (stream : ObjectStream) (extents : ExtentGraph)
    : graph unit :=
  let own := filter (fun extent => ex_stream extent = st_id stream) (eg_extents extents) in
  state ← try_fold (cover_extent stream) (0, 0) own;
  let '(expected_offset, physical) := state in
  refuse_if (negb (st_mapped_bytes stream =? 0) && is_empty own)
    (MissingStreamExtent (st_id stream)) ;;
  refuse_if (negb (expected_offset =? st_mapped_bytes stream))
    (ExtentLengthMismatch (st_id stream) (st_mapped_bytes stream) expected_offset) ;;
  refuse_if (negb (physical =? st_allocated_bytes stream))
    (AllocationMismatch (st_id stream) (st_allocated_bytes stream) physical).

Definition validate_storage (stream : ObjectStream) (extents : ExtentGraph) : graph unit :=
  match st_storage stream with
  | Resident bytes =>
      refuse_if (negb (bool_decide (u64_try_from (len bytes) = Some (st_logical_bytes stream))))
        (ResidentLengthMismatch (st_id stream) (st_logical_bytes stream) (len bytes)) ;;
      refuse_if (negb (st_allocated_bytes stream =? 0))
        (ResidentAllocation (st_id stream) (st_allocated_bytes stream)) ;;
      refuse_if (negb (st_mapped_bytes stream =? st_logical_bytes stream))
        (InvalidStreamSizes (st_id stream))
  | Extents => validate_stream_extents stream extents
  end.

Definition is_extents (storage : StreamStorage) : bool :=
  match storage with Extents => true | Resident _ => false end.

(** One stream; the state is the stream index and whether the object already
    has an unnamed stream. *)
Definition validate_stream (object : ObjectRecord) (extents : ExtentGraph)
    (state : gmap N bool * bool) (stream : ObjectStream) : graph (gmap N bool * bool) :=
  let '(streams, unnamed) := state in
  unnamed ←
    (if bool_decide (st_name stream = None) then
       refuse_if unnamed (DuplicateUnnamedStream (ob_id object)) ;;
       Ok true
     else Ok unnamed);
  refuse_if ((st_logical_bytes stream <? st_initialized_bytes stream)
             || (st_mapped_bytes stream <? st_logical_bytes stream))
    (InvalidStreamSizes (st_id stream)) ;;
  refuse_if (bool_decide (is_Some (streams !! st_id stream))) (DuplicateStream (st_id stream)) ;;
  validate_storage stream extents ;;
  Ok (<[st_id stream := is_extents (st_storage stream)]> streams, unnamed).

Definition validate_object_streams (extents : ExtentGraph) (streams : gmap N bool)
    (object : ObjectRecord) : graph (gmap N bool) :=
  state ← try_fold (validate_stream object extents) (streams, false) (ob_streams object);
  Ok state.1.

Definition count_streams (objects : list ObjectRecord) : graph N :=
  try_fold (fun sum object =>
    ok_or ArithmeticOverflow (checked_add sum (len (ob_streams object)))) 0 objects.

Definition validate_streams (objects : list ObjectRecord) (extents : ExtentGraph)
    (limits : ObjectGraphLimits) : graph (gmap N bool) :=
  total ← count_streams objects;
  refuse_if (ogl_max_streams limits <? total)
    (StreamLimitExceeded total (ogl_max_streams limits)) ;;
  try_fold (validate_object_streams extents) ∅ objects.

Definition validate_extent_references (extents : ExtentGraph) (streams : gmap N bool)
    : graph unit :=
  for_each (fun extent =>
    refuse_if (negb (bool_decide (streams !! ex_stream extent = Some true)))
      (UnknownExtentStream (ex_stream extent))) (eg_extents extents).

(** One directory entry; the state is the set of names and the link counts. *)
Definition validate_entry (objects : list ObjectRecord) (index : gmap N N)
    (root : ObjectId) (limits : ObjectGraphLimits)
    (state : gset (N * list N) * gmap N N) (entry : NamespaceEntry)
    : graph (gset (N * list N) * gmap N N) :=
  let '(names, links) := state in
  position ← ok_or (MissingParent (ne_parent entry)) (index !! ne_parent entry);
  parent ← at_index objects position;
  refuse_if (negb (bool_decide (ob_kind parent = Directory)))
    (ParentNotDirectory (ne_parent entry)) ;;
  refuse_if (bool_decide (index !! ne_target entry = None)) (MissingTarget (ne_target entry)) ;;
  refuse_if (ne_target entry =? root) RootHasNamespaceEntry ;;
  refuse_if (is_empty (ne_name entry)) (EmptyName (ne_target entry)) ;;
  refuse_if (ogl_max_name_code_units limits <? len (ne_name entry))
    (NameTooLong (ne_target entry) (len (ne_name entry)) (ogl_max_name_code_units limits)) ;;
  refuse_if (bool_decide ((ne_parent entry, ne_name entry) ∈ names))
    (DuplicateName (ne_parent entry) (ne_name entry)) ;;
  count ← ok_or ArithmeticOverflow
    (checked_add_u32 (default 0 (links !! ne_target entry)) 1);
  Ok ({[(ne_parent entry, ne_name entry)]} ∪ names, <[ne_target entry := count]> links).

Definition validate_link_count (root : ObjectId) (links : gmap N N) (object : ObjectRecord)
    : graph unit :=
  let actual := default 0 (links !! ob_id object) in
  let expected := if ob_id object =? root then 0 else ob_link_count object in
  refuse_if (negb (actual =? expected)) (LinkCountMismatch (ob_id object) expected actual).

Definition validate_entries (objects : list ObjectRecord) (entries : list NamespaceEntry)
    (index : gmap N N) (root : ObjectId) (limits : ObjectGraphLimits) : graph unit :=
  state ← try_fold (validate_entry objects index root limits) (∅, ∅) entries;
  for_each (validate_link_count root state.2) objects.

(** [directory_children]: the directory targets of every parent, in order. *)
Definition add_child (objects : list ObjectRecord) (index : gmap N N)
    (children : gmap N (list N)) (entry : NamespaceEntry) : graph (gmap N (list N)) :=
  position ← expect (index !! ne_target entry);
  target ← at_index objects position;
  if bool_decide (ob_kind target = Directory) then
    Ok (<[ne_parent entry :=
          default [] (children !! ne_parent entry) ++ [ne_target entry]]> children)
  else Ok children.

Record DfsState : Type := mkDfsState {
  dfs_stack : list (N * bool);
  dfs_state : gmap N N;
  dfs_reachable : gset N
}.

Definition entry_targets (entries : list NamespaceEntry) (directory : N) : list N :=
  ne_target <$> filter (fun entry => ne_parent entry = directory) entries.

(** One round of [while let Some((directory, exiting)) = stack.pop()].  The head
    of the list is the top of the stack. *)
Definition dfs_round (entries : list NamespaceEntry) (children : gmap N (list N))
    (directory : N) (exiting : bool) (rest : list (N * bool)) (s : DfsState)
    : graph DfsState :=
  let seen := dfs_state s in
  if exiting then Ok (mkDfsState rest (<[directory := 2]> seen) (dfs_reachable s))
  else
    match seen !! directory with
    | Some 1 => Err (DirectoryCycle directory)
    | Some 2 => Ok (mkDfsState rest seen (dfs_reachable s))
    | _ =>
        Ok (mkDfsState
              (((fun child => (child, false)) <$> default [] (children !! directory))
                 ++ (directory, true) :: rest)
              (<[directory := 1]> seen)
              (list_to_set (entry_targets entries directory)
                 ∪ ({[directory]} ∪ dfs_reachable s)))
    end.

(** Every directory is expanded once and pushes itself and its children, so the
    number of rounds is bounded by the capacity that the source reserves. *)
Fixpoint dfs_loop (fuel : nat) (entries : list NamespaceEntry)
    (children : gmap N (list N)) (s : DfsState) : graph (gset N) :=
  match fuel with
  | O => Panic
  | S fuel =>
      match dfs_stack s with
      | [] => Ok (dfs_reachable s)
      | (directory, exiting) :: rest =>
          s ← dfs_round entries children directory exiting rest s;
          dfs_loop fuel entries children s
      end
  end.

Definition validate_reachability (objects : list ObjectRecord)
    (entries : list NamespaceEntry) (index : gmap N N) (root : ObjectId) : graph unit :=
  children ← try_fold (add_child objects index) ∅ entries;
  work ← ok_or ArithmeticOverflow (checked_add (len objects) (len entries));
  _ ← ok_or ArithmeticOverflow (checked_add work 1);
  reachable ← dfs_loop (S (S (length objects + length entries))) entries children
    (mkDfsState [(root, false)] ∅ ∅);
  for_each (fun object =>
    refuse_if (negb (bool_decide (ob_id object ∈ reachable))) (UnreachableObject (ob_id object)))
    objects.

(** Feature numbers in the order of the source's set. *)
Definition stream_features (found : list N) (stream : ObjectStream) : list N :=
  let found := if bool_decide (st_name stream = None) then found else btree_insert 1 found in
  let found := if sf_compressed (st_flags stream) then btree_insert 2 found else found in
  let found := if sf_encrypted (st_flags stream) then btree_insert 3 found else found in
  if sf_sparse (st_flags stream) then btree_insert 6 found else found.

Definition object_features (found : list N) (object : ObjectRecord) : list N :=
  let found := if 1 <? ob_link_count object then btree_insert 4 found else found in
  let found := if os_has_security_descriptor (ob_semantics object)
               then btree_insert 0 found else found in
  let found := if os_is_reparse_point (ob_semantics object)
               then btree_insert 5 found else found in
  foldl stream_features found (ob_streams object).

Definition feature_of_number (feature : N) : SemanticFeature :=
  match feature with
  | 0 => AccessControl
  | 1 => AlternateDataStreams
  | 2 => Compression
  | 3 => EncryptedFiles
  | 4 => HardLinks
  | 5 => ReparsePoints
  | _ => SparseFiles
  end.

Definition collect_features (objects : list ObjectRecord) : list SemanticFeature :=
  feature_of_number <$> foldl object_features [] objects.

Definition ObjectGraph_build (root : ObjectId) (objects : list ObjectRecord)
    (entries : list NamespaceEntry) (extents : ExtentGraph) (limits : ObjectGraphLimits)
    : graph ObjectGraph :=
  validate_limits limits ;;
  refuse_if (ogl_max_objects limits <? len objects)
    (ObjectLimitExceeded (len objects) (ogl_max_objects limits)) ;;
  refuse_if (ogl_max_entries limits <? len entries)
    (EntryLimitExceeded (len entries) (ogl_max_entries limits)) ;;
  object_index ← index_objects objects root limits;
  stream_index ← validate_streams objects extents limits;
  validate_entries objects entries object_index root limits ;;
  validate_extent_references extents stream_index ;;
  validate_reachability objects entries object_index root ;;
  Ok (mkObjectGraph root objects entries extents (collect_features objects)).

(** * Proofs *)

(** ** The depth-first search *)
Lemma elem_of_entries (c : N) (cs : list N) : (c, false) ∈ ((fun c => (c, false)) <$> cs) <-> c ∈ cs.
Proof. rewrite list_elem_of_fmap. naive_solver. Qed.

Section Dfs.
#[local] Set Default Proof Using "Type*".
Context (entries : list NamespaceEntry) (children : gmap N (list N)) (root : N).

Let ch (d : N) : list N := default [] (children !! d).
Let edge (d c : N) : Prop := c ∈ ch d.

(** Every marker on the stack is waiting for its children: they are finished
    or above it. *)
Fixpoint pending (seen : gmap N N) (black : list N) (above : list N)
    (stack : list (N * bool)) : Prop :=
  match stack with
  | [] => True
  | (d, b) :: rest =>
      (b = true -> seen !! d = Some 1 /\ forall c, c ∈ ch d -> c ∈ black \/ c ∈ above) /\
      pending seen black (d :: above) rest
  end.

(** Finished directories, newest first: children precede their parents. *)
Fixpoint finished (black : list N) : Prop :=
  match black with
  | [] => True
  | d :: rest => (forall c, c ∈ ch d -> c ∈ rest) /\ (d ∉ rest) /\ finished rest
  end.

(** What lies above an exit marker is a strict descendant of it. *)
Definition descends (a b : N * bool) : Prop := b.2 = true -> tc edge b.1 a.1.
(** A directory has at most one exit marker. *)
Definition one_marker (a b : N * bool) : Prop := a.2 = true -> b.2 = true -> a.1 <> b.1.

Record dfs_ok (s : DfsState) (black : list N) : Prop := mk_dfs_ok {
  ok_black : forall d, dfs_state s !! d = Some 2 <-> (d ∈ black);
  ok_range : forall d n, dfs_state s !! d = Some n -> n = 1 \/ n = 2;
  ok_finished : finished black;
  ok_pending : pending (dfs_state s) black [] (dfs_stack s);
  ok_gray : forall d, dfs_state s !! d = Some 1 -> (d, true) ∈ dfs_stack s;
  ok_marker : StronglySorted one_marker (dfs_stack s);
  ok_descends : StronglySorted descends (dfs_stack s);
  ok_children : forall p c, is_Some (dfs_state s !! p) -> c ∈ ch p ->
    is_Some (dfs_state s !! c) \/ (c, false) ∈ dfs_stack s;
  ok_root : is_Some (dfs_state s !! root) \/ (root, false) ∈ dfs_stack s;
  ok_reachable : forall x, x ∈ dfs_reachable s <->
    is_Some (dfs_state s !! x) \/
    exists p, is_Some (dfs_state s !! p) /\ x ∈ entry_targets entries p;
  ok_origin : forall d, is_Some (dfs_state s !! d) \/ (exists b, (d, b) ∈ dfs_stack s) ->
    rtc edge root d
}.

Lemma pending_weaken seen seen' black black' above above' stack :
  (forall d, (d, true) ∈ stack -> seen !! d = Some 1 -> seen' !! d = Some 1) ->
  (forall x, x ∈ black -> x ∈ black') ->
  (forall x, x ∈ above -> x ∈ above' \/ x ∈ black') ->
  pending seen black above stack -> pending seen' black' above' stack.
Proof.
  revert above above'. induction stack as [|[d b] stack IH]; intros above above' Hs Hb Ha; simpl;
    [done |]. intros [H1 H2]. split.
  - intros ->. destruct (H1 eq_refl) as [Hd Hc]. split; [apply Hs; [left | done] |].
    intros c Hcd. destruct (Hc c Hcd) as [?|Hab]; [left; by apply Hb |].
    destruct (Ha c Hab); [by right | by left].
  - eapply IH, H2; [| done |].
    + intros d' Hd'. apply Hs. by right.
    + intros x [->|Hx]%elem_of_cons; [left; left |].
      destruct (Ha x Hx); [left; by right | by right].
Qed.

Lemma pending_app_entries seen black above (cs : list N) stack :
  pending seen black (reverse cs ++ above) stack ->
  pending seen black above (((fun c => (c, false)) <$> cs) ++ stack).
Proof.
  revert above. induction cs as [|c cs IH]; intros above H; simpl; [done |].
  split; [done |]. apply IH. by rewrite reverse_cons, <- app_assoc in H.
Qed.

Lemma dfs_ok_init : dfs_ok (mkDfsState [(root, false)] ∅ ∅) [].
Proof.
  split; cbn [dfs_stack dfs_state dfs_reachable].
  - intros d. rewrite lookup_empty. split; [done | by intros ?%not_elem_of_nil].
  - intros d n. by rewrite lookup_empty.
  - done.
  - by split.
  - intros d. by rewrite lookup_empty.
  - by repeat constructor.
  - by repeat constructor.
  - intros p c. rewrite lookup_empty. by intros [].
  - right. left.
  - intros x. rewrite lookup_empty. setoid_rewrite lookup_empty. split; [set_solver |].
    intros [[]|(p & [] & _)]; done.
  - intros d. rewrite lookup_empty. intros [[]|[b Hd]]; [done |].
    apply list_elem_of_singleton in Hd. by simplify_eq.
Qed.

(** Popping an exit marker finishes the directory. *)
Lemma dfs_exit_ok d rest s black :
  dfs_stack s = (d, true) :: rest -> dfs_ok s black ->
  dfs_ok (mkDfsState rest (<[d := 2]> (dfs_state s)) (dfs_reachable s)) (d :: black).
Proof.
  intros Hst [Hb Hr Hf Hp Hg Hm Hd Hc Hroot Hre Ho]. rewrite Hst in *. simpl in Hp.
  destruct Hp as [Hp1 Hp2]. destruct (Hp1 eq_refl) as [Hd1 Hkids].
  apply StronglySorted_inv in Hm as [Hm Hm1]. apply StronglySorted_inv in Hd as [Hd _].
  rewrite Forall_forall in Hm1.
  assert (Hdb : d ∉ black) by (intros Hin; apply Hb in Hin; congruence).
  assert (Hsome : forall x, is_Some (<[d:=2]> (dfs_state s) !! x) <-> is_Some (dfs_state s !! x)).
  { intros x. destruct (decide (d = x)) as [<-|Hne].
    - rewrite lookup_insert_eq. split; [by rewrite Hd1 | done].
    - by rewrite lookup_insert_ne. }
  assert (Hrest : forall c, (c, true) ∈ rest -> c <> d).
  { intros c Hin He. specialize (Hm1 _ Hin eq_refl eq_refl). simpl in Hm1. congruence. }
  split; simpl; try done.
  - intros x. rewrite elem_of_cons, <- Hb. destruct (decide (d = x)) as [<-|Hne].
    + rewrite lookup_insert_eq. naive_solver.
    + rewrite lookup_insert_ne by done. naive_solver.
  - intros x n. destruct (decide (d = x)) as [<-|Hne].
    + rewrite lookup_insert_eq. intros [= <-]. by right.
    + rewrite lookup_insert_ne by done. apply Hr.
  - split_and!; [|done|done]. intros c Hin. destruct (Hkids c Hin) as [?|Hn]; [done |].
    by apply not_elem_of_nil in Hn.
  - eapply pending_weaken, Hp2.
    + intros x Hin. rewrite lookup_insert_ne; [done |]. by apply not_eq_sym, Hrest.
    + intros x Hx. by right.
    + intros x Hx. apply list_elem_of_singleton in Hx as ->. right. left.
  - intros x Hx. destruct (decide (d = x)) as [<-|Hne]; [by rewrite lookup_insert_eq in Hx |].
    rewrite lookup_insert_ne in Hx by done.
    apply Hg in Hx. apply elem_of_cons in Hx as [Hx|Hx]; [congruence | done].
  - intros p c. rewrite !Hsome. intros Hpp Hcc. destruct (Hc p c Hpp Hcc) as [?|Hin]; [by left |].
    apply elem_of_cons in Hin as [Hin|Hin]; [by simplify_eq | by right].
  - rewrite Hsome. destruct Hroot as [?|Hin]; [by left |].
    apply elem_of_cons in Hin as [Hin|Hin]; [by simplify_eq | by right].
  - intros x. rewrite Hre, Hsome. by setoid_rewrite Hsome.
  - intros x. rewrite Hsome. intros [?|[b Hin]]; apply Ho; [by left |].
    right. exists b. by right.
Qed.

(** Popping a finished directory changes nothing. *)
Lemma dfs_skip_ok d rest s black :
  dfs_stack s = (d, false) :: rest -> dfs_state s !! d = Some 2 -> dfs_ok s black ->
  dfs_ok (mkDfsState rest (dfs_state s) (dfs_reachable s)) black.
Proof.
  intros Hst H2 [Hb Hr Hf Hp Hg Hm Hd Hc Hroot Hre Ho]. rewrite Hst in *. simpl in Hp.
  destruct Hp as [_ Hp2].
  apply StronglySorted_inv in Hm as [Hm _]. apply StronglySorted_inv in Hd as [Hd _].
  split; simpl; try done.
  - eapply pending_weaken, Hp2; [done | done |]. intros x Hx.
    apply list_elem_of_singleton in Hx as ->. right. by apply Hb.
  - intros x Hx. apply Hg in Hx. apply elem_of_cons in Hx as [Hx|Hx]; [congruence | done].
  - intros p c Hpp Hcc. destruct (Hc p c Hpp Hcc) as [?|Hin]; [by left |].
    apply elem_of_cons in Hin as [Hin|Hin]; [|by right]. simplify_eq. left. by eexists.
  - destruct Hroot as [?|Hin]; [by left |].
    apply elem_of_cons in Hin as [Hin|Hin]; [|by right]. simplify_eq. left. by eexists.
  - intros x [?|[b Hin]]; apply Ho; [by left |]. right. exists b. by right.
Qed.

(** Expanding a directory seen for the first time. *)
Lemma dfs_expand_ok d rest s black :
  dfs_stack s = (d, false) :: rest -> dfs_state s !! d = None -> dfs_ok s black ->
  dfs_ok (mkDfsState (((fun c => (c, false)) <$> ch d) ++ (d, true) :: rest)
            (<[d := 1]> (dfs_state s))
            (list_to_set (entry_targets entries d) ∪ ({[d]} ∪ dfs_reachable s))) black.
Proof.
  intros Hst H0 [Hb Hr Hf Hp Hg Hm Hd Hc Hroot Hre Ho]. rewrite Hst in *. simpl in Hp.
  destruct Hp as [_ Hp2].
  apply StronglySorted_inv in Hm as [Hm _]. apply StronglySorted_inv in Hd as [Hd Hd1].
  rewrite Forall_forall in Hd1.
  assert (Hsome : forall x, is_Some (<[d:=1]> (dfs_state s) !! x) <->
                            x = d \/ is_Some (dfs_state s !! x)).
  { intros x. destruct (decide (d = x)) as [<-|Hne].
    - rewrite lookup_insert_eq. naive_solver.
    - rewrite lookup_insert_ne by done. naive_solver. }
  assert (Hmark : forall c, (c, true) ∈ rest -> c <> d).
  { intros c Hin ->. clear - Hp2 Hin H0.
    generalize dependent ([d] : list N). induction rest as [|[e b] rest IH]; intros above Hp.
    - by apply not_elem_of_nil in Hin.
    - destruct Hp as [Hp1 Hp2]. apply elem_of_cons in Hin as [Hin|Hin]; [|by eapply IH].
      simplify_eq. destruct (Hp1 eq_refl). congruence. }
  assert (Hrd : rtc edge root d) by (apply Ho; right; exists false; left).
  split; simpl.
  - intros x. rewrite <- Hb. destruct (decide (d = x)) as [<-|Hne].
    + rewrite lookup_insert_eq, H0. done.
    + by rewrite lookup_insert_ne.
  - intros x n. destruct (decide (d = x)) as [<-|Hne].
    + rewrite lookup_insert_eq. intros [= <-]. by left.
    + rewrite lookup_insert_ne by done. apply Hr.
  - done.
  - apply pending_app_entries. simpl. split.
    + intros _. rewrite lookup_insert_eq. split; [done |]. intros c Hcd. right.
      rewrite app_nil_r. by apply elem_of_reverse.
    + eapply pending_weaken, Hp2; [| done |].
      * intros x Hin ?. rewrite lookup_insert_ne; [done |]. by apply not_eq_sym, Hmark.
      * intros x Hx. apply list_elem_of_singleton in Hx as ->. left. left.
  - intros x Hx. apply elem_of_app. right. destruct (decide (d = x)) as [<-|Hne]; [left |].
    rewrite lookup_insert_ne in Hx by done. apply Hg in Hx.
    apply elem_of_cons in Hx as [Hx|Hx]; [by simplify_eq | by right].
  - apply StronglySorted_app_iff. split_and!.
    + apply StronglySorted_lookup. intros i j x y _ Hx _. unfold one_marker.
      apply list_lookup_fmap_Some in Hx as (? & -> & _). done.
    + constructor; [done |]. apply Forall_forall. intros [c b] Hin _ Hbt. simpl in *. subst b.
      by apply not_eq_sym, Hmark.
    + intros x y Hx _. apply list_elem_of_fmap in Hx as (? & -> & _). done.
  - apply StronglySorted_app_iff. split_and!.
    + apply StronglySorted_lookup. intros i j x y _ _ Hy. unfold descends.
      apply list_lookup_fmap_Some in Hy as (? & -> & _). done.
    + constructor; [done |]. apply Forall_forall. intros y Hy Hyt. by apply (Hd1 y Hy Hyt).
    + intros x y Hx Hy Hyt. apply list_elem_of_fmap in Hx as (c & -> & Hcd). simpl.
      apply elem_of_cons in Hy as [->|Hy]; [by apply tc_once |].
      eapply tc_r; [by apply (Hd1 y Hy Hyt) | done].
  - intros p c. rewrite Hsome, (Hsome c). intros [->|Hpp] Hcc.
    + right. apply elem_of_app. left. by apply elem_of_entries.
    + destruct (Hc p c Hpp Hcc) as [?|Hin]; [left; by right |].
      apply elem_of_cons in Hin as [Hin|Hin]; [simplify_eq; left; by left |].
      right. apply elem_of_app. right. by right.
  - rewrite Hsome. destruct Hroot as [?|Hin]; [left; by right |].
    apply elem_of_cons in Hin as [Hin|Hin]; [simplify_eq; left; by left |].
    right. apply elem_of_app. right. by right.
  - intros x. rewrite !elem_of_union, elem_of_list_to_set, elem_of_singleton, Hre, Hsome.
    setoid_rewrite Hsome. naive_solver.
  - intros x. rewrite Hsome. intros [[->|?]|[b Hin]]; [done | apply Ho; by left |].
    apply elem_of_app in Hin as [Hin|[Hin|Hin]%elem_of_cons].
    + apply list_elem_of_fmap in Hin as (c & Hx & Hcd). simplify_eq. by eapply rtc_r.
    + by simplify_eq.
    + apply Ho. right. exists b. by right.
Qed.

Lemma dfs_round_ok d exiting rest s black s' :
  dfs_stack s = (d, exiting) :: rest -> dfs_ok s black ->
  dfs_round entries children d exiting rest s = Ok s' ->
  exists black', dfs_ok s' black'.
Proof.
  intros Hst Hok H. unfold dfs_round in H. destruct exiting.
  - inv_ok. eexists. by eapply dfs_exit_ok.
  - destruct (dfs_state s !! d) as [n|] eqn:Hn.
    + destruct (ok_range _ _ Hok d n Hn) as [-> | ->]; [discriminate |]. inv_ok.
      eexists. by eapply dfs_skip_ok.
    + inv_ok. eexists. by apply dfs_expand_ok.
Qed.

(** The only error is a directory that contains itself. *)
Lemma dfs_round_err d exiting rest s black e :
  dfs_stack s = (d, exiting) :: rest -> dfs_ok s black ->
  dfs_round entries children d exiting rest s = Err e -> tc edge d d.
Proof.
  intros Hst Hok H. unfold dfs_round in H. destruct exiting; [discriminate |].
  destruct (dfs_state s !! d) as [n|] eqn:Hn; [|discriminate].
  destruct (ok_range _ _ Hok d n Hn) as [-> | ->]; [|discriminate].
  apply (ok_gray _ _ Hok) in Hn. pose proof (ok_descends _ _ Hok) as Hd. rewrite Hst in Hn, Hd.
  apply elem_of_cons in Hn as [Hn|Hn]; [by simplify_eq |].
  apply StronglySorted_inv in Hd as [_ Hd]. rewrite Forall_forall in Hd.
  by apply (Hd _ Hn).
Qed.

Lemma dfs_loop_ok fuel s black reachable :
  dfs_ok s black -> dfs_loop fuel entries children s = Ok reachable ->
  exists s' black', dfs_ok s' black' /\ dfs_stack s' = [] /\ dfs_reachable s' = reachable.
Proof.
  revert s black. induction fuel as [|fuel IH]; intros s black Hok H; simpl in H; [discriminate |].
  destruct (dfs_stack s) as [|[d b] rest] eqn:Hst; [inv_ok; eauto |].
  inv_ok. destruct (dfs_round_ok _ _ _ _ _ _ Hst Hok Hok0) as [black' Hok']. by eapply IH.
Qed.

Lemma dfs_loop_err fuel s black e :
  dfs_ok s black -> dfs_loop fuel entries children s = Err e -> exists d, tc edge d d.
Proof.
  revert s black. induction fuel as [|fuel IH]; intros s black Hok H; simpl in H; [discriminate |].
  destruct (dfs_stack s) as [|[d b] rest] eqn:Hst; [discriminate |].
  destruct (dfs_round _ _ d b rest s) as [s'| |] eqn:Hr; simpl in H; [| | discriminate].
  - destruct (dfs_round_ok _ _ _ _ _ _ Hst Hok Hr) as [black' Hok']. by eapply IH.
  - exists d. by eapply dfs_round_err.
Qed.

(** Finished directories have no cycle. *)
Lemma finished_descend black d c : finished black -> d ∈ black -> tc edge d c -> c ∈ black.
Proof.
  intros Hf Hd Hc. induction Hc as [d c He|d m c He Hc IH].
  - induction black as [|x black IHb]; [by apply not_elem_of_nil in Hd |].
    destruct Hf as (H1 & _ & Hf). right.
    apply elem_of_cons in Hd as [->|Hd]; [by apply H1 | by apply IHb].
  - apply IH. clear IH Hc.
    induction black as [|x black IHb]; [by apply not_elem_of_nil in Hd |].
    destruct Hf as (H1 & _ & Hf). right.
    apply elem_of_cons in Hd as [->|Hd]; [by apply H1 | by apply IHb].
Qed.

Lemma finished_acyclic black d : finished black -> d ∈ black -> ~ tc edge d d.
Proof.
  induction black as [|x black IH]; intros Hf Hd Hc; [by apply not_elem_of_nil in Hd |].
  pose proof Hf as (H1 & H2 & Hf').
  apply elem_of_cons in Hd as [->|Hd]; [|by apply IH].
  inversion Hc as [? ? He|? m ? He Hm]; subst.
  - by apply H2, H1.
  - apply H2. eapply finished_descend; [done | by apply H1 | done].
Qed.

(** What a successful search establishes. *)
Lemma dfs_result fuel reachable :
  dfs_loop fuel entries children (mkDfsState [(root, false)] ∅ ∅) = Ok reachable ->
  exists black, finished black /\ root ∈ black /\
    (forall d c, d ∈ black -> edge d c -> c ∈ black) /\
    (forall d, d ∈ black -> rtc edge root d) /\
    forall x, x ∈ reachable <-> x ∈ black \/ exists p, p ∈ black /\ x ∈ entry_targets entries p.
Proof.
  intros H. apply (dfs_loop_ok _ _ _ _ dfs_ok_init) in H as (s & black & Hok & Hst & <-).
  assert (Hin : forall d, is_Some (dfs_state s !! d) <-> d ∈ black).
  { intros d. rewrite <- (ok_black _ _ Hok). split; [|by eexists].
    intros [n Hn]. destruct (ok_range _ _ Hok _ _ Hn) as [-> | ->]; [|done].
    apply (ok_gray _ _ Hok) in Hn. rewrite Hst in Hn. by apply not_elem_of_nil in Hn. }
  exists black. split_and!.
  - apply (ok_finished _ _ Hok).
  - apply Hin. destruct (ok_root _ _ Hok) as [?|Hr]; [done |].
    rewrite Hst in Hr. by apply not_elem_of_nil in Hr.
  - intros d c Hd He. apply Hin.
    destruct (ok_children _ _ Hok d c) as [?|Hr]; [by apply Hin | done | done |].
    rewrite Hst in Hr. by apply not_elem_of_nil in Hr.
  - intros d Hd. apply (ok_origin _ _ Hok). left. by apply Hin.
  - intros x. rewrite (ok_reachable _ _ Hok), Hin. by setoid_rewrite Hin.
Qed.
End Dfs.

(** * Specification *)

Definition is_directory (objects : list ObjectRecord) (id : ObjectId) : Prop :=
  exists o, o ∈ objects /\ ob_id o = id /\ ob_kind o = Directory.

(** The extents cover the logical bytes from [from] to [to] without a gap. *)
Fixpoint contiguous (from : N) (l : list Extent) (to : N) : Prop :=
  match l with
  | [] => from = to
  | e :: l => ex_logical_offset e = from /\ contiguous (from + ex_length e) l to
  end.
Definition physical_length (e : Extent) : N := if is_physical e then ex_length e else 0.
Definition stream_extents (s : ObjectStream) (extents : ExtentGraph) : list Extent :=
  filter (fun e => ex_stream e = st_id s) (eg_extents extents).

Definition stream_ok (extents : ExtentGraph) (s : ObjectStream) : Prop :=
  st_initialized_bytes s <= st_logical_bytes s <= st_mapped_bytes s /\
  match st_storage s with
  | Resident bytes =>
      len bytes = st_logical_bytes s /\ st_allocated_bytes s = 0 /\
      st_mapped_bytes s = st_logical_bytes s
  | Extents =>
      contiguous 0 (stream_extents s extents) (st_mapped_bytes s) /\
      sum_by physical_length (stream_extents s extents) = st_allocated_bytes s
  end.

Definition all_streams (objects : list ObjectRecord) : list ObjectStream :=
  concat (ob_streams <$> objects).
Definition unnamed_streams (streams : list ObjectStream) : list ObjectStream :=
  filter (fun s => st_name s = None) streams.

Definition entry_ok (objects : list ObjectRecord) (root : ObjectId) (maximum : N)
    (e : NamespaceEntry) : Prop :=
  is_directory objects (ne_parent e) /\ ne_target e ∈ ob_id <$> objects /\
  ne_target e <> root /\ ne_name e <> [] /\ len (ne_name e) <= maximum.

Definition links_to (entries : list NamespaceEntry) (id : ObjectId) : N :=
  len (filter (fun e => ne_target e = id) entries).

(** [c] is an entry of directory [p]; the second relation keeps directories. *)
Definition entry_link (entries : list NamespaceEntry) (p c : ObjectId) : Prop :=
  exists e, e ∈ entries /\ ne_parent e = p /\ ne_target e = c.
Definition directory_link (objects : list ObjectRecord) (entries : list NamespaceEntry)
    (p c : ObjectId) : Prop :=
  entry_link entries p c /\ is_directory objects c.

(** The graphs that [build] accepts. *)
Record graph_ok (root : ObjectId) (objects : list ObjectRecord)
    (entries : list NamespaceEntry) (extents : ExtentGraph) (limits : ObjectGraphLimits)
    : Prop := mk_graph_ok {
  go_limits : 0 < ogl_max_objects limits /\ 0 < ogl_max_entries limits /\
    0 < ogl_max_streams limits /\ 0 < ogl_max_name_code_units limits;
  go_counts : len objects <= ogl_max_objects limits /\ len entries <= ogl_max_entries limits /\
    len (all_streams objects) <= ogl_max_streams limits;
  go_ids : NoDup (ob_id <$> objects);
  go_root : is_directory objects root;
  go_streams : NoDup (st_id <$> all_streams objects);
  go_unnamed : Forall (fun o => len (unnamed_streams (ob_streams o)) <= 1) objects;
  go_stream : Forall (stream_ok extents) (all_streams objects);
  go_extents : Forall (fun e => exists s, s ∈ all_streams objects /\
    st_id s = ex_stream e /\ st_storage s = Extents) (eg_extents extents);
  go_entries : Forall (entry_ok objects root (ogl_max_name_code_units limits)) entries;
  go_names : NoDup ((fun e => (ne_parent e, ne_name e)) <$> entries);
  go_links : Forall (fun o => links_to entries (ob_id o) =
    if ob_id o =? root then 0 else ob_link_count o) objects;
  go_reachable : Forall (fun o => rtc (entry_link entries) root (ob_id o)) objects;
  go_acyclic : forall d, ~ tc (directory_link objects entries) d d
}.

(** Field widths of the source: [u64] sizes, [u32] link counts, and lengths that
    fit in memory. *)
Record graph_widths (objects : list ObjectRecord) (entries : list NamespaceEntry)
    (limits : ObjectGraphLimits) : Prop := mk_graph_widths {
  gw_work : len objects + len entries + 1 <= u64_max;
  gw_streams : ogl_max_streams limits <= u64_max;
  gw_links : Forall (fun o => ob_link_count o <= u32_max) objects;
  gw_sizes : Forall (fun s => st_mapped_bytes s <= u64_max /\ st_logical_bytes s <= u64_max /\
    st_allocated_bytes s <= u64_max) (all_streams objects)
}.

(** * Proofs of the validators *)

(** ** The object index *)
Definition index_ok (objects : list ObjectRecord) (index : gmap N N) : Prop :=
  forall id p, index !! id = Some p <->
    exists o, objects !! N.to_nat p = Some o /\ ob_id o = id.

Lemma index_fold rest done index st :
  index_ok done index -> NoDup (ob_id <$> done) ->
  try_fold index_object (index, len done) rest = Ok st ->
  index_ok (done ++ rest) st.1 /\ NoDup (ob_id <$> (done ++ rest)).
Proof.
  revert done index. induction rest as [|o rest IH]; intros done index Hi Hn H; simpl in H.
  { inv_ok. by rewrite app_nil_r. }
  inv_ok. bool_props. rename select (~ is_Some _) into Hnew.
  assert (Ho : ob_id o ∉ ob_id <$> done).
  { intros (x & Hx & Hin)%list_elem_of_fmap. apply list_elem_of_lookup in Hin as [i Hl].
    apply Hnew. exists (N.of_nat i). apply Hi. exists x. by rewrite Nat2N.id. }
  replace (len done + 1) with (len (done ++ [o])) in H
    by (rewrite len_app, len_cons, len_nil; lia).
  apply IH in H.
  - by rewrite <- app_assoc in H.
  - intros id p. unfold len. destruct (decide (ob_id o = id)) as [<-|Hne].
    + rewrite lookup_insert_eq. split.
      * intros [= <-]. exists o. by rewrite Nat2N.id, lookup_app_r, Nat.sub_diag by lia.
      * intros (x & Hx & He). apply lookup_snoc_Some in Hx as [[Hlt Hx]|[Hp Hx]].
        -- exfalso. apply Ho. rewrite <- He. apply list_elem_of_fmap. exists x.
           split; [done |]. by eapply list_elem_of_lookup_2.
        -- f_equal. lia.
    + rewrite lookup_insert_ne by done. rewrite (Hi id p). split.
      * intros (x & Hx & He). exists x. split; [|done]. by apply lookup_app_l_Some.
      * intros (x & Hx & He). apply lookup_snoc_Some in Hx as [[_ Hx]|[_ <-]]; [eauto | done].
  - rewrite fmap_app. apply NoDup_app. split_and!; [done | | by apply NoDup_singleton].
    intros x Hx Hx'. apply list_elem_of_singleton in Hx' as ->. done.
Qed.

Lemma index_fold_complete rest done index :
  index_ok done index -> NoDup (ob_id <$> (done ++ rest)) ->
  exists st, try_fold index_object (index, len done) rest = Ok st.
Proof.
  revert done index. induction rest as [|o rest IH]; intros done index Hi Hn; simpl; [eauto |].
  assert (Hdone : NoDup (ob_id <$> done)) by (rewrite fmap_app in Hn; by apply NoDup_app in Hn as [? _]).
  assert (Hnone : index !! ob_id o = None).
  { apply eq_None_not_Some. intros [p Hp]. apply Hi in Hp as (x & Hx & He).
    rewrite fmap_app in Hn. apply NoDup_app in Hn as (_ & Hd & _).
    apply (Hd (ob_id o)); [|by left]. apply list_elem_of_fmap. exists x. split; [done |].
    by eapply list_elem_of_lookup_2. }
  rewrite Hnone, bool_decide_false by by intros []. simpl.
  assert (Hstep : try_fold index_object (index, len done) [o] =
                  Ok (<[ob_id o := len done]> index, len done + 1)).
  { simpl. by rewrite Hnone, bool_decide_false by by intros []. }
  apply index_fold in Hstep as [Hi' _]; [|done..].
  replace (len done + 1) with (len (done ++ [o])) by (rewrite len_app, len_cons, len_nil; lia).
  apply IH; [done |]. by rewrite <- app_assoc.
Qed.

Lemma index_ok_nil : index_ok [] ∅.
Proof. intros id p. rewrite lookup_empty. split; [done | intros (o & Ho & _); done]. Qed.

(** Indexing through the map is a membership test. *)
Lemma index_elem objects index id p :
  index_ok objects index -> index !! id = Some p ->
  exists o, at_index (E := ObjectGraphError) objects p = Ok o /\ o ∈ objects /\ ob_id o = id.
Proof.
  intros Hi Hp. apply Hi in Hp as (o & Ho & He). exists o. unfold at_index. rewrite Ho.
  split_and!; [done | by eapply list_elem_of_lookup_2 | done].
Qed.

Lemma index_unique objects (a b : ObjectRecord) :
  NoDup (ob_id <$> objects) -> a ∈ objects -> b ∈ objects -> ob_id a = ob_id b -> a = b.
Proof.
  intros Hn [i Hi]%list_elem_of_lookup [j Hj]%list_elem_of_lookup He.
  assert (i = j) as <-; [|by simplify_eq].
  apply (NoDup_lookup _ i j (ob_id a) Hn); rewrite list_lookup_fmap.
  - by rewrite Hi.
  - by rewrite Hj, He.
Qed.

Lemma index_directory objects index id p o :
  index_ok objects index -> NoDup (ob_id <$> objects) -> index !! id = Some p ->
  at_index (E := ObjectGraphError) objects p = Ok o ->
  ob_kind o = Directory <-> is_directory objects id.
Proof.
  intros Hi Hn Hp Ho. destruct (index_elem _ _ _ _ Hi Hp) as (x & Hx & Hin & Hid).
  rewrite Hx in Ho. injection Ho as ->. split.
  - intros Hk. by exists o.
  - intros (y & Hy & Hyid & Hk). assert (o = y) as ->; [|done].
    eapply index_unique; [done | done | done | congruence].
Qed.

Lemma index_member objects index id :
  index_ok objects index -> is_Some (index !! id) <-> id ∈ ob_id <$> objects.
Proof.
  intros Hi. split.
  - intros [p Hp]. destruct (index_elem _ _ _ _ Hi Hp) as (o & _ & Ho & <-).
    by apply list_elem_of_fmap_2.
  - intros (o & -> & Ho)%list_elem_of_fmap. apply list_elem_of_lookup in Ho as [i Hl].
    exists (N.of_nat i). apply Hi. exists o. by rewrite Nat2N.id.
Qed.

Lemma index_objects_Ok objects root limits index :
  index_objects objects root limits = Ok index ->
  index_ok objects index /\ NoDup (ob_id <$> objects) /\ is_directory objects root.
Proof.
  unfold index_objects. intros H. inv_ok. bool_props.
  apply (index_fold objects [] ∅ a) in Hok as [Hi Hn]; [|apply index_ok_nil | constructor].
  simpl in Hi, Hn. split_and!; [done | done |].
  eapply index_directory; [done | done | done | done |]. done.
Qed.

Lemma index_objects_complete objects root limits :
  NoDup (ob_id <$> objects) -> is_directory objects root ->
  len objects <= ogl_max_objects limits ->
  exists index, index_objects objects root limits = Ok index.
Proof.
  intros Hn Hr Hl. destruct (index_fold_complete objects [] ∅ index_ok_nil Hn) as [st Hst].
  change (len (@nil ObjectRecord)) with 0 in Hst.
  destruct (index_fold objects [] ∅ st index_ok_nil (NoDup_nil_2) Hst) as [Hi _]. simpl in Hi.
  destruct Hr as (o & Ho & Hid & Hk).
  destruct (proj2 (index_member objects st.1 root Hi)) as [p Hp].
  { rewrite <- Hid. by apply list_elem_of_fmap_2. }
  destruct (index_elem _ _ _ _ Hi Hp) as (x & Hx & Hxin & Hxid).
  assert (x = o) as -> by (eapply index_unique; [done | done | done | congruence]).
  exists st.1. unfold index_objects. rewrite Hst. simpl. rewrite Hp. simpl. rewrite Hx. simpl.
  rewrite Hk, bool_decide_true by done. simpl.
  by destruct (N.ltb_spec (ogl_max_objects limits) (len objects)); [lia |].
Qed.

Lemma index_objects_safe objects root limits : index_objects objects root limits <> Panic.
Proof.
  unfold index_objects.
  apply bind_safe; [apply try_fold_safe; intros [] ? _; unfold index_object; safe |].
  intros st Hst. apply (index_fold objects [] ∅ st) in Hst as [Hi _];
    [|apply index_ok_nil | constructor]. cbn [app] in Hi.
  apply bind_safe; [safe |]. intros p Hp. inv_ok.
  destruct (index_elem _ _ _ _ Hi Hp) as (o & -> & _). simpl. safe.
Qed.

(** ** Streams *)
Lemma cover_extent_Ok s from physical e st :
  cover_extent s (from, physical) e = Ok st <->
  ex_logical_offset e = from /\ st = (from + ex_length e, physical + physical_length e) /\
  from + ex_length e <= u64_max /\ (is_physical e = true -> physical + ex_length e <= u64_max).
Proof.
  unfold cover_extent, physical_length, is_physical. split.
  - intros H. inv_ok. bool_props. destruct (ex_placement e); inv_ok; rewrite ?N.add_0_r; split_and!; (done || by intros).
  - intros (He & -> & H1 & H2). rewrite He, N.eqb_refl. simpl.
    rewrite (checked_add_in from (ex_length e) H1). simpl. revert H2.
    destruct (ex_placement e); simpl; intros H2.
    + by rewrite (checked_add_in physical (ex_length e) (H2 eq_refl)).
    + by rewrite N.add_0_r.
Qed.

Lemma cover_fold s own from physical st :
  try_fold (cover_extent s) (from, physical) own = Ok st ->
  contiguous from own st.1 /\ st.2 = physical + sum_by physical_length own.
Proof.
  revert from physical. induction own as [|e own IH]; intros from physical H; cbn [try_fold] in H.
  { inv_ok. simpl. split; [done | lia]. }
  apply bind_Ok in H as (a & Hok & H). apply cover_extent_Ok in Hok as (He & -> & _). apply IH in H as [H1 H2].
  split; [by split |]. rewrite H2. simpl. lia.
Qed.

Lemma contiguous_ge from own to : contiguous from own to -> from <= to.
Proof.
  revert from. induction own as [|e own IH]; intros from; simpl; [lia |].
  intros [_ H%IH]. lia.
Qed.

Lemma cover_fold_complete s own from physical to :
  contiguous from own to -> to <= u64_max ->
  physical + sum_by physical_length own <= u64_max ->
  try_fold (cover_extent s) (from, physical) own
    = Ok (to, physical + sum_by physical_length own).
Proof.
  revert from physical. induction own as [|e own IH]; intros from physical Hc Ht Hp; cbn [try_fold].
  { simpl in *. subst. by rewrite N.add_0_r. }
  destruct Hc as [He Hc]. pose proof (contiguous_ge _ _ _ Hc). rewrite sum_by_cons in *.
  assert (Hstep : cover_extent s (from, physical) e =
                  Ok (from + ex_length e, physical + physical_length e)).
  { apply cover_extent_Ok. split_and!; [done | done | lia |].
    intros Hph. unfold physical_length in Hp at 1. rewrite Hph in Hp. lia. }
  rewrite Hstep. cbn [mbind outcome_bind]. rewrite IH; [f_equal; f_equal; lia | done | done | lia].
Qed.

Lemma validate_storage_Ok s extents u :
  st_mapped_bytes s <= u64_max -> st_logical_bytes s <= u64_max ->
  st_allocated_bytes s <= u64_max ->
  validate_storage s extents = Ok u <->
  match st_storage s with
  | Resident bytes =>
      len bytes = st_logical_bytes s /\ st_allocated_bytes s = 0 /\
      st_mapped_bytes s = st_logical_bytes s
  | Extents =>
      contiguous 0 (stream_extents s extents) (st_mapped_bytes s) /\
      sum_by physical_length (stream_extents s extents) = st_allocated_bytes s
  end.
Proof.
  intros Hm Hl Ha. destruct u. unfold validate_storage. destruct (st_storage s) as [bytes|].
  - split.
    + intros H. inv_ok. bool_props.
      rename select (u64_try_from _ = _) into Hu. apply u64_try_from_Some in Hu as [? _].
      split_and!; congruence.
    + intros (H1 & H2 & H3). rewrite bool_decide_true by (apply u64_try_from_Some; lia).
      rewrite H2, H3, N.eqb_refl. done.
  - unfold validate_stream_extents. fold (stream_extents s extents).
    set (own := stream_extents s extents). split.
    + intros H. inv_ok. apply cover_fold in Hok as [H1 H2]. destruct a as [to physical].
      inv_ok. bool_props. simpl in *. subst. done.
    + intros [H1 H2].
      rewrite (cover_fold_complete s own 0 0 (st_mapped_bytes s)); [|done|done|lia].
      simpl. rewrite H2, !N.eqb_refl. simpl.
      destruct own; simpl in *; [by rewrite <- H1 | by rewrite andb_false_r].
Qed.

Lemma validate_storage_sound s extents u :
  validate_storage s extents = Ok u ->
  match st_storage s with
  | Resident bytes =>
      len bytes = st_logical_bytes s /\ st_allocated_bytes s = 0 /\
      st_mapped_bytes s = st_logical_bytes s
  | Extents =>
      contiguous 0 (stream_extents s extents) (st_mapped_bytes s) /\
      sum_by physical_length (stream_extents s extents) = st_allocated_bytes s
  end.
Proof.
  unfold validate_storage. destruct (st_storage s) as [bytes|]; intros H.
  - inv_ok. bool_props. rename select (u64_try_from _ = _) into Hu.
    apply u64_try_from_Some in Hu as [? _]. split_and!; congruence.
  - unfold validate_stream_extents in H. fold (stream_extents s extents) in H. inv_ok.
    apply cover_fold in Hok as [H1 H2]. destruct a as [to physical]. inv_ok. bool_props.
    simpl in *. by subst.
Qed.

Lemma validate_storage_safe s extents : validate_storage s extents <> Panic.
Proof.
  unfold validate_storage, validate_stream_extents.
  destruct (st_storage s); safe.
  - destruct s0. unfold cover_extent. safe.
  - destruct a. safe.
Qed.

(** The stream index after a list of streams. *)
Definition add_streams (m : gmap N bool) (l : list ObjectStream) : gmap N bool :=
  foldl (fun m s => <[st_id s := is_extents (st_storage s)]> m) m l.
Definition names_ok (unnamed : bool) (l : list ObjectStream) : Prop :=
  (if unnamed then 1 else 0) + len (unnamed_streams l) <= 1.
Definition fresh_ids (m : gmap N bool) (l : list ObjectStream) : Prop :=
  NoDup (st_id <$> l) /\ Forall (fun s => m !! st_id s = None) l.
Definition sizes_ok (s : ObjectStream) : Prop :=
  st_mapped_bytes s <= u64_max /\ st_logical_bytes s <= u64_max /\
  st_allocated_bytes s <= u64_max.

Lemma validate_stream_sound o extents m unnamed s st :
  validate_stream o extents (m, unnamed) s = Ok st ->
  (unnamed = true -> st_name s <> None) /\ stream_ok extents s /\ m !! st_id s = None /\
  st = (<[st_id s := is_extents (st_storage s)]> m,
        if bool_decide (st_name s = None) then true else unnamed).
Proof.
  unfold validate_stream. intros H. inv_ok. bool_props.
  rename select (validate_storage _ _ = _) into Hs. apply validate_storage_sound in Hs.
  rename select (~ is_Some _) into Hn. apply eq_None_not_Some in Hn.
  split_and!; [| |done|].
  - intros -> Hnone. rewrite bool_decide_true in Hok by done. discriminate Hok.
  - split; [lia | done].
  - destruct (bool_decide (st_name s = None)); inv_ok; done.
Qed.

Lemma validate_stream_complete o extents m unnamed s :
  (unnamed = true -> st_name s <> None) -> stream_ok extents s -> m !! st_id s = None ->
  sizes_ok s ->
  validate_stream o extents (m, unnamed) s =
    Ok (<[st_id s := is_extents (st_storage s)]> m,
        if bool_decide (st_name s = None) then true else unnamed).
Proof.
  intros Hu [Hsz Hst] Hn (H1 & H2 & H3). unfold validate_stream.
  apply (validate_storage_Ok s extents tt H1 H2 H3) in Hst.
  assert (Hname : (if bool_decide (st_name s = None)
                   then refuse_if unnamed (DuplicateUnnamedStream (ob_id o)) ;; Ok true
                   else Ok unnamed) =
                  Ok (if bool_decide (st_name s = None) then true else unnamed)).
  { case_bool_decide; [|done]. destruct unnamed; [by specialize (Hu eq_refl) | done]. }
  rewrite Hname. simpl.
  destruct (N.ltb_spec (st_logical_bytes s) (st_initialized_bytes s)); [lia |].
  destruct (N.ltb_spec (st_mapped_bytes s) (st_logical_bytes s)); [lia |]. simpl.
  rewrite Hn, (bool_decide_false (is_Some (@None bool))) by by intros []. simpl. by rewrite Hst.
Qed.

Lemma fresh_cons m s l :
  fresh_ids m (s :: l) <->
  m !! st_id s = None /\ fresh_ids (<[st_id s := is_extents (st_storage s)]> m) l.
Proof.
  unfold fresh_ids. rewrite fmap_cons, NoDup_cons, Forall_cons. split.
  - intros ((Hn & Hd) & Hs & Hl). split_and!; [done | done |].
    rewrite Forall_forall in *. intros x Hx. rewrite lookup_insert_ne; [by apply Hl |].
    intros He. apply Hn. rewrite He. by apply list_elem_of_fmap_2.
  - intros (Hs & Hd & Hl). split_and!; [| done | done |].
    + intros (x & Hx & Hin)%list_elem_of_fmap. rewrite Forall_forall in Hl.
      specialize (Hl x Hin). rewrite <- Hx, lookup_insert_eq in Hl. done.
    + rewrite Forall_forall in *. intros x Hx. specialize (Hl x Hx).
      by apply lookup_insert_None in Hl as [? _].
Qed.

Lemma names_ok_cons unnamed s l :
  names_ok unnamed (s :: l) <->
  (unnamed = true -> st_name s <> None) /\
  names_ok (if bool_decide (st_name s = None) then true else unnamed) l.
Proof.
  unfold names_ok, unnamed_streams. rewrite filter_cons.
  destruct (decide (st_name s = None)) as [Hn|Hn].
  - rewrite bool_decide_true, len_cons by done. destruct unnamed; split; intros H;
      [lia | destruct H as [H _]; by destruct H | split; [done | lia] | lia].
  - rewrite bool_decide_false by done. split; [by split | by intros []].
Qed.

Lemma streams_fold_sound o extents l m unnamed st :
  try_fold (validate_stream o extents) (m, unnamed) l = Ok st ->
  names_ok unnamed l /\ Forall (stream_ok extents) l /\ fresh_ids m l /\ st.1 = add_streams m l.
Proof.
  revert m unnamed. induction l as [|s l IH]; intros m unnamed H; cbn [try_fold] in H.
  { inv_ok. split_and!; [by destruct unnamed | constructor | split; constructor | done]. }
  apply bind_Ok in H as (a & Hok & H). apply validate_stream_sound in Hok as (H1 & H2 & H3 & ->).
  apply IH in H as (H4 & H5 & H6 & H7). rewrite names_ok_cons, fresh_cons.
  split_and!; try done. by constructor.
Qed.

Lemma streams_fold_complete o extents l m unnamed :
  names_ok unnamed l -> Forall (stream_ok extents) l -> fresh_ids m l -> Forall sizes_ok l ->
  exists st, try_fold (validate_stream o extents) (m, unnamed) l = Ok st /\
    st.1 = add_streams m l.
Proof.
  revert m unnamed. induction l as [|s l IH]; intros m unnamed H1 H2 H3 H4; cbn [try_fold]; [eauto |].
  apply names_ok_cons in H1 as [Hn H1]. apply fresh_cons in H3 as [Hf H3].
  apply Forall_cons in H2 as [? H2]. apply Forall_cons in H4 as [? H4].
  rewrite validate_stream_complete by done. cbn [mbind outcome_bind]. by apply IH.
Qed.

Lemma add_streams_app m l1 l2 : add_streams m (l1 ++ l2) = add_streams (add_streams m l1) l2.
Proof. unfold add_streams. by rewrite foldl_app. Qed.

Lemma fresh_app m l1 l2 :
  fresh_ids m (l1 ++ l2) <-> fresh_ids m l1 /\ fresh_ids (add_streams m l1) l2.
Proof.
  revert m. induction l1 as [|s l1 IH]; intros m; simpl.
  - split; [intros; split; [split; constructor | done] | tauto].
  - rewrite !fresh_cons, IH. tauto.
Qed.

Lemma objects_fold_sound extents objects m m' :
  try_fold (validate_object_streams extents) m objects = Ok m' ->
  Forall (fun o => len (unnamed_streams (ob_streams o)) <= 1) objects /\
  Forall (stream_ok extents) (all_streams objects) /\ fresh_ids m (all_streams objects) /\
  m' = add_streams m (all_streams objects).
Proof.
  unfold all_streams. revert m. induction objects as [|o objects IH]; intros m H; simpl in H.
  { inv_ok. split_and!; [constructor | constructor | split; constructor | done]. }
  inv_ok. unfold validate_object_streams in Hok. inv_ok.
  apply streams_fold_sound in Hok0 as (H1 & H2 & H3 & H4). rewrite H4 in H.
  apply IH in H as (H5 & H6 & H7 & ->). rewrite fmap_cons. cbn [concat].
  rewrite Forall_app, fresh_app, add_streams_app.
  split_and!; try done. constructor; [|done]. unfold names_ok in H1. lia.
Qed.

Lemma objects_fold_complete extents objects m :
  Forall (fun o => len (unnamed_streams (ob_streams o)) <= 1) objects ->
  Forall (stream_ok extents) (all_streams objects) -> fresh_ids m (all_streams objects) ->
  Forall sizes_ok (all_streams objects) ->
  try_fold (validate_object_streams extents) m objects
    = Ok (add_streams m (all_streams objects)).
Proof.
  unfold all_streams. revert m. induction objects as [|o objects IH]; intros m H1 H2 H3 H4; [done |].
  rewrite fmap_cons in *. cbn [concat] in *. rewrite Forall_app in H2, H4.
  rewrite fresh_app in H3. destruct H2 as [H2 H2'], H3 as [H3 H3'], H4 as [H4 H4'].
  apply Forall_cons in H1 as [H1 H1'].
  destruct (streams_fold_complete o extents (ob_streams o) m false) as (st & Hst & He);
    [unfold names_ok; lia | done | done | done |].
  assert (Hstep : validate_object_streams extents m o = Ok (add_streams m (ob_streams o))).
  { unfold validate_object_streams. rewrite Hst. cbn [mbind outcome_bind]. by rewrite He. }
  cbn [try_fold]. rewrite Hstep, add_streams_app. by apply IH.
Qed.

Lemma add_streams_lookup l m id b :
  fresh_ids m l ->
  add_streams m l !! id = Some b <->
  m !! id = Some b \/ exists s, s ∈ l /\ st_id s = id /\ is_extents (st_storage s) = b.
Proof.
  revert m. induction l as [|s l IH]; intros m Hf; simpl; [set_solver |].
  apply fresh_cons in Hf as [Hn Hf]. rewrite IH by done. setoid_rewrite elem_of_cons.
  destruct (decide (st_id s = id)) as [<-|Hne].
  - rewrite lookup_insert_eq, Hn. naive_solver.
  - rewrite lookup_insert_ne by done. naive_solver.
Qed.

Lemma count_streams_gen objects acc :
  (forall n, try_fold (fun sum o =>
     ok_or ArithmeticOverflow (checked_add sum (len (ob_streams o)))) acc objects = Ok n ->
     n = acc + len (all_streams objects)) /\
  (acc + len (all_streams objects) <= u64_max ->
   try_fold (fun sum o =>
     ok_or ArithmeticOverflow (checked_add sum (len (ob_streams o)))) acc objects
   = Ok (acc + len (all_streams objects))).
Proof.
  unfold all_streams. revert acc. induction objects as [|o objects IH]; intros acc;
    cbn [try_fold fmap list_fmap concat].
  { rewrite len_nil, N.add_0_r. split; [by intros n [= <-] | done]. }
  rewrite len_app. destruct (IH (acc + len (ob_streams o))) as [H1 H2]. split.
  - intros n H. inv_ok. apply H1 in H as ->. unfold fmap. lia.
  - intros Hl. unfold fmap in *. rewrite checked_add_in by lia. simpl. rewrite H2 by lia.
    f_equal. lia.
Qed.

Lemma validate_streams_Ok objects extents limits m :
  validate_streams objects extents limits = Ok m ->
  len (all_streams objects) <= ogl_max_streams limits /\
  Forall (fun o => len (unnamed_streams (ob_streams o)) <= 1) objects /\
  Forall (stream_ok extents) (all_streams objects) /\ NoDup (st_id <$> all_streams objects) /\
  forall id, m !! id = Some true <->
    exists s, s ∈ all_streams objects /\ st_id s = id /\ st_storage s = Extents.
Proof.
  unfold validate_streams. intros H. inv_ok. bool_props.
  apply (proj1 (count_streams_gen objects 0)) in Hok as ->.
  apply objects_fold_sound in H as (H1 & H2 & H3 & ->).
  split_and!; [lia | done | done | by destruct H3 |].
  intros id. rewrite add_streams_lookup by done. rewrite lookup_empty. split.
  - intros [|(s & Hs & Hid & Hb)]; [done |]. exists s. split_and!; [done | done |].
    by destruct (st_storage s).
  - intros (s & Hs & Hid & Hb). right. exists s. by rewrite Hb.
Qed.

Lemma validate_streams_complete objects extents limits :
  len (all_streams objects) <= ogl_max_streams limits -> ogl_max_streams limits <= u64_max ->
  Forall (fun o => len (unnamed_streams (ob_streams o)) <= 1) objects ->
  Forall (stream_ok extents) (all_streams objects) -> NoDup (st_id <$> all_streams objects) ->
  Forall sizes_ok (all_streams objects) ->
  exists m, validate_streams objects extents limits = Ok m.
Proof.
  intros H1 H1' H2 H3 H4 H5. eexists. unfold validate_streams, count_streams.
  rewrite (proj2 (count_streams_gen objects 0)) by lia. rewrite N.add_0_l. simpl.
  destruct (N.ltb_spec (ogl_max_streams limits) (len (all_streams objects))); [lia |]. simpl.
  apply objects_fold_complete; [done | done | | done].
  split; [done |]. apply Forall_forall. intros. apply lookup_empty.
Qed.

Lemma validate_streams_safe objects extents limits :
  validate_streams objects extents limits <> Panic.
Proof.
  unfold validate_streams, count_streams, validate_object_streams, validate_stream.
  safe. destruct s0. safe. by apply validate_storage_safe.
Qed.

(** ** Entries *)
Definition entry_key (e : NamespaceEntry) : N * list N := (ne_parent e, ne_name e).

Lemma links_to_cons e l t :
  links_to (e :: l) t = (if decide (ne_target e = t) then 1 else 0) + links_to l t.
Proof.
  unfold links_to. rewrite filter_cons. case_decide; [by rewrite len_cons | done].
Qed.

Section Entries.
#[local] Set Default Proof Using "Type*".
Context (objects : list ObjectRecord) (index : gmap N N) (root : N)
  (limits : ObjectGraphLimits).
Hypothesis Hindex : index_ok objects index.
Hypothesis Hids : NoDup (ob_id <$> objects).

Let ok (e : NamespaceEntry) : Prop :=
  entry_ok objects root (ogl_max_name_code_units limits) e.

Lemma validate_entry_sound names links e st :
  validate_entry objects index root limits (names, links) e = Ok st ->
  ok e /\ (entry_key e ∉ names) /\
  default 0 (links !! ne_target e) + 1 <= u32_max /\
  st = ({[entry_key e]} ∪ names,
        <[ne_target e := default 0 (links !! ne_target e) + 1]> links).
Proof.
  unfold validate_entry. intros H. inv_ok. bool_props.
  rename select (at_index _ _ = _) into Hat. rename select (ob_kind _ = Directory) into Hk.
  split_and!; [| done | done | done].
  split_and!.
  - by eapply index_directory.
  - apply (index_member _ _ _ Hindex). apply not_eq_None_Some. done.
  - done.
  - by destruct (ne_name e).
  - done.
Qed.

Lemma validate_entry_complete names links e :
  ok e -> entry_key e ∉ names -> default 0 (links !! ne_target e) + 1 <= u32_max ->
  validate_entry objects index root limits (names, links) e =
    Ok ({[entry_key e]} ∪ names,
        <[ne_target e := default 0 (links !! ne_target e) + 1]> links).
Proof.
  intros (Hp & Ht & Hr & Hn & Hl) Hk Hc. unfold validate_entry.
  destruct Hp as (o & Ho & Hid & Hdir).
  destruct (proj2 (index_member _ _ (ne_parent e) Hindex)) as [p Hp].
  { rewrite <- Hid. by apply list_elem_of_fmap_2. }
  destruct (index_elem _ _ _ _ Hindex Hp) as (x & Hx & Hxin & Hxid).
  assert (x = o) as -> by (eapply index_unique; [done | done | done | congruence]).
  rewrite Hp. cbn [ok_or mbind outcome_bind]. rewrite Hx. cbn [mbind outcome_bind].
  rewrite Hdir, (bool_decide_true (Directory = Directory)) by done. cbn [negb refuse_if mbind outcome_bind].
  apply (index_member _ _ _ Hindex) in Ht as [q Hq].
  rewrite Hq, (bool_decide_false (Some q = None)) by done. cbn [refuse_if mbind outcome_bind].
  destruct (N.eqb_spec (ne_target e) root); [done |].
  destruct (ne_name e) as [|c name] eqn:Hname; [done |].
  cbn [is_empty refuse_if mbind outcome_bind].
  destruct (N.ltb_spec (ogl_max_name_code_units limits) (len (c :: name))); [lia |].
  cbn [refuse_if mbind outcome_bind].
  unfold entry_key in *. rewrite Hname in *. rewrite (bool_decide_false (_ ∈ names)) by done.
  cbn [refuse_if mbind outcome_bind].
  by rewrite (proj2 (checked_add_u32_Some _ 1 _) (conj eq_refl Hc)).
Qed.

Lemma entries_fold_sound l names links st :
  try_fold (validate_entry objects index root limits) (names, links) l = Ok st ->
  Forall ok l /\ NoDup (entry_key <$> l) /\ Forall (fun e => entry_key e ∉ names) l /\
  forall t, default 0 (st.2 !! t) = default 0 (links !! t) + links_to l t.
Proof.
  revert names links. induction l as [|e l IH]; intros names links H; cbn [try_fold] in H.
  { inv_ok. split_and!; [constructor | constructor | constructor |].
    intros t. change (links_to [] t) with 0. by rewrite N.add_0_r. }
  apply bind_Ok in H as (a & Hok & H).
  apply validate_entry_sound in Hok as (H1 & H2 & H3 & ->).
  apply IH in H as (H4 & H5 & H6 & H7). rewrite Forall_forall in H6. split_and!.
  - by constructor.
  - rewrite fmap_cons. apply NoDup_cons. split; [|done].
    intros (x & Hx & Hin)%list_elem_of_fmap. specialize (H6 x Hin).
    rewrite not_elem_of_union, not_elem_of_singleton in H6. destruct H6; congruence.
  - constructor; [done |]. apply Forall_forall. intros x Hx. specialize (H6 x Hx).
    by apply not_elem_of_union in H6 as [_ ?].
  - intros t. rewrite H7, links_to_cons. case_decide as Ht.
    + subst t. rewrite lookup_insert_eq. simpl. lia.
    + rewrite lookup_insert_ne by done. lia.
Qed.

Lemma entries_fold_complete l names links :
  Forall ok l -> NoDup (entry_key <$> l) -> Forall (fun e => entry_key e ∉ names) l ->
  (forall t, default 0 (links !! t) + links_to l t <= u32_max) ->
  exists st, try_fold (validate_entry objects index root limits) (names, links) l = Ok st.
Proof.
  revert names links. induction l as [|e l IH]; intros names links H1 H2 H3 H4;
    cbn [try_fold]; [eauto |].
  apply Forall_cons in H1 as [H1 H1']. rewrite fmap_cons in H2. apply NoDup_cons in H2 as [H2 H2'].
  apply Forall_cons in H3 as [H3 H3']. rewrite Forall_forall in H3'.
  pose proof (H4 (ne_target e)) as Hc. rewrite links_to_cons, decide_True in Hc by done.
  rewrite validate_entry_complete by (done || lia). cbn [mbind outcome_bind].
  apply IH; [done | done | |].
  - apply Forall_forall. intros x Hx. specialize (H3' x Hx).
    rewrite elem_of_union, elem_of_singleton. intros [He|?]; [|done].
    apply H2. rewrite <- He. by apply list_elem_of_fmap_2.
  - intros t. specialize (H4 t). rewrite links_to_cons in H4. case_decide as Ht.
    + subst t. rewrite lookup_insert_eq. simpl. lia.
    + rewrite lookup_insert_ne by done. lia.
Qed.

Lemma validate_entries_Ok entries u :
  validate_entries objects entries index root limits = Ok u ->
  Forall ok entries /\ NoDup (entry_key <$> entries) /\
  Forall (fun o => links_to entries (ob_id o) =
    if ob_id o =? root then 0 else ob_link_count o) objects.
Proof.
  unfold validate_entries. intros H. inv_ok.
  apply entries_fold_sound in Hok as (H1 & H2 & _ & H3). split_and!; [done | done |].
  apply for_each_Ok in H. eapply Forall_impl; [exact H |]. intros o Ho.
  unfold validate_link_count in Ho. inv_ok. bool_props. rewrite H3, lookup_empty in *. simpl in *.
  lia.
Qed.

Lemma validate_entries_complete entries :
  Forall ok entries -> NoDup (entry_key <$> entries) ->
  Forall (fun o => links_to entries (ob_id o) =
    if ob_id o =? root then 0 else ob_link_count o) objects ->
  Forall (fun o => ob_link_count o <= u32_max) objects ->
  validate_entries objects entries index root limits = Ok tt.
Proof.
  intros H1 H2 H3 H4. unfold validate_entries. rewrite Forall_forall in H3, H4.
  destruct (entries_fold_complete entries ∅ ∅) as [st Hst].
  - done.
  - done.
  - apply Forall_forall. intros e _. apply not_elem_of_empty.
  - intros t. rewrite lookup_empty. simpl.
    destruct (decide (t ∈ ob_id <$> objects)) as [(o & -> & Ho)%list_elem_of_fmap|Hno].
    + rewrite H3 by done. specialize (H4 o Ho). case_match; unfold u32_max in *; lia.
    + assert (links_to entries t = 0) as ->; [|unfold u32_max; lia].
      unfold links_to. destruct (filter _ entries) as [|e l] eqn:Hf; [done |]. exfalso.
      assert (He : e ∈ filter (fun e => ne_target e = t) entries) by (rewrite Hf; left).
      apply list_elem_of_filter in He as [Het He]. rewrite Forall_forall in H1.
      destruct (H1 e He) as (_ & Htt & _). by rewrite Het in Htt.
  - rewrite Hst. cbn [mbind outcome_bind].
    apply entries_fold_sound in Hst as (_ & _ & _ & Hl).
    apply for_each_Ok, Forall_forall. intros o Ho. unfold validate_link_count.
    rewrite Hl, lookup_empty, H3 by done. cbn [default]. rewrite N.add_0_l, N.eqb_refl. done.
Qed.

Lemma validate_entries_safe entries :
  validate_entries objects entries index root limits <> Panic.
Proof.
  unfold validate_entries. apply bind_safe.
  - apply try_fold_safe. intros [names links] e _. unfold validate_entry.
    apply bind_safe; [safe |]. intros p Hp. inv_ok.
    destruct (index_elem _ _ _ _ Hindex Hp) as (o & -> & _). simpl. safe.
  - intros st _. safe. unfold validate_link_count. safe.
Qed.

End Entries.

(** ** Reachability *)
Lemma add_children_spec objects index l children children' :
  index_ok objects index -> NoDup (ob_id <$> objects) ->
  Forall (fun e => ne_target e ∈ ob_id <$> objects) l ->
  try_fold (add_child objects index) children l = Ok children' ->
  forall d c, c ∈ default [] (children' !! d) <->
    c ∈ default [] (children !! d) \/
    exists e, e ∈ l /\ ne_parent e = d /\ ne_target e = c /\ is_directory objects c.
Proof.
  intros Hindex Hids. revert children.
  induction l as [|e l IH]; intros children Hl H d c; cbn [try_fold] in H.
  { inv_ok. split; [by left |]. intros [?|(e & He & _)]; [done | by apply not_elem_of_nil in He]. }
  apply Forall_cons in Hl as [He Hl]. apply bind_Ok in H as (m & Hok & H).
  rewrite (IH m Hl H d c). unfold add_child in Hok. inv_ok.
  rename select (at_index _ _ = _) into Hat.
  pose proof (index_directory _ _ _ _ _ Hindex Hids Hok0 Hat) as Hdir.
  setoid_rewrite elem_of_cons.
  case_bool_decide as Hk; inv_ok.
  - destruct (decide (ne_parent e = d)) as [<-|Hne].
    + rewrite lookup_insert_eq. simpl. rewrite elem_of_app, list_elem_of_singleton.
      apply Hdir in Hk. naive_solver.
    + rewrite lookup_insert_ne by done. naive_solver.
  - assert (~ is_directory objects (ne_target e)) by (by rewrite <- Hdir). naive_solver.
Qed.

(** ** Termination of the search *)
Section Fuel.
#[local] Set Default Proof Using "Type*".
Context (entries : list NamespaceEntry) (children : gmap N (list N)) (ids : list N).
Let ch (d : N) : list N := default [] (children !! d).

(** The rounds that unexpanded directories will still cost. *)
Fixpoint remaining_work (seen : gmap N N) (l : list N) : nat :=
  match l with
  | [] => 0
  | d :: l => (match seen !! d with None => S (length (ch d)) | Some _ => 0 end
               + remaining_work seen l)%nat
  end.

Lemma remaining_work_le seen d n l :
  (remaining_work (<[d := n]> seen) l <= remaining_work seen l)%nat.
Proof.
  induction l as [|x l IH]; simpl; [done |].
  destruct (decide (d = x)) as [<-|Hne].
  - rewrite lookup_insert_eq. lia.
  - rewrite lookup_insert_ne by done. lia.
Qed.

Lemma remaining_work_lt seen d n l :
  d ∈ l -> seen !! d = None ->
  (remaining_work (<[d := n]> seen) l + S (length (ch d)) <= remaining_work seen l)%nat.
Proof.
  induction l as [|x l IH]; intros Hd Hn; [by apply not_elem_of_nil in Hd |].
  simpl. apply elem_of_cons in Hd as [->|Hd].
  - rewrite lookup_insert_eq, Hn. pose proof (remaining_work_le seen x n l). lia.
  - specialize (IH Hd Hn). destruct (decide (d = x)) as [<-|Hne].
    + rewrite lookup_insert_eq. lia.
    + rewrite lookup_insert_ne by done. lia.
Qed.

Lemma dfs_loop_safe root fuel s black :
  dfs_ok entries children root s black ->
  (length (dfs_stack s) + remaining_work (dfs_state s) ids < fuel)%nat ->
  (forall d b, (d, b) ∈ dfs_stack s -> d ∈ ids) ->
  (forall d c, c ∈ ch d -> c ∈ ids) ->
  dfs_loop fuel entries children s <> Panic.
Proof.
  intros Hok Hf Hs Hc. revert s black Hok Hf Hs.
  induction fuel as [|fuel IH]; intros s black Hok Hf Hs; [by apply Nat.nlt_0_r in Hf |].
  cbn [dfs_loop]. destruct (dfs_stack s) as [|[d b] rest] eqn:Hst; [done |].
  assert (Hrest : forall x y, (x, y) ∈ rest -> x ∈ ids).
  { intros x y Hx. apply (Hs x y). by right. }
  assert (Hd : d ∈ ids) by (apply (Hs d b); left).
  apply bind_safe; [unfold dfs_round; destruct b; [done |];
    destruct (dfs_state s !! d) as [n|] eqn:Hn; [|done];
    by destruct (ok_range _ _ _ _ _ Hok _ _ Hn) as [-> | ->] |].
  intros s' Hr. destruct (dfs_round_ok _ _ _ _ _ _ _ _ _ Hst Hok Hr) as [black' Hok'].
  apply (IH s' black' Hok'); simpl in Hf; unfold dfs_round in Hr; destruct b.
  - inv_ok. simpl. pose proof (remaining_work_le (dfs_state s) d 2 ids). lia.
  - destruct (dfs_state s !! d) as [n|] eqn:Hn.
    + destruct (ok_range _ _ _ _ _ Hok _ _ Hn) as [-> | ->]; inv_ok. simpl. lia.
    + inv_ok. simpl. rewrite length_app, length_fmap. simpl.
      pose proof (remaining_work_lt (dfs_state s) d 1 ids Hd Hn). unfold ch in *. lia.
  - by inv_ok.
  - destruct (dfs_state s !! d) as [n|] eqn:Hn.
    + destruct (ok_range _ _ _ _ _ Hok _ _ Hn) as [-> | ->]; by inv_ok.
    + inv_ok. simpl. intros x y [Hx|[Hx|Hx]%elem_of_cons]%elem_of_app.
      * apply list_elem_of_fmap in Hx as (c & Hx & Hin). simplify_eq. by eapply Hc.
      * by simplify_eq.
      * by eapply Hrest.
Qed.
End Fuel.

(** The children lists together hold at most one element per entry. *)
Lemma children_count entries ids (f : N -> list N) :
  NoDup ids ->
  (forall d, (length (f d) <= length (filter (fun e => ne_parent e = d) entries))%nat) ->
  (sum_list_with (fun d => length (f d)) ids <= length entries)%nat.
Proof.
  intros Hn Hf.
  assert (Hle : (sum_list_with (fun d => length (f d)) ids <=
    sum_list_with (fun d => length (filter (fun e => ne_parent e = d) entries)) ids)%nat).
  { clear Hn. induction ids as [|d ids IH]; simpl; [done |]. specialize (Hf d). lia. }
  etransitivity; [exact Hle |]. clear Hle Hf.
  induction entries as [|e entries IH]; simpl.
  { clear Hn. induction ids; simpl; [done |]. done. }
  assert (Hstep : (sum_list_with (fun d => length (filter (fun e => ne_parent e = d) (e :: entries))) ids
    <= (if decide (ne_parent e ∈ ids) then 1 else 0) +
       sum_list_with (fun d => length (filter (fun e => ne_parent e = d) entries)) ids)%nat).
  { clear IH. induction Hn as [|d ids Hd Hn IHn]; simpl; [lia |].
    rewrite filter_cons. destruct (decide (ne_parent e = d)) as [He|He]; simpl.
    - rewrite decide_False in IHn by (by rewrite He). rewrite decide_True by (rewrite He; left). lia.
    - destruct (decide (ne_parent e ∈ ids)); [rewrite decide_True by (by right); lia |].
      rewrite decide_False by (by intros [?|?]%elem_of_cons). lia. }
  case_decide; lia.
Qed.

Lemma tc_mono {A} (R1 R2 : relation A) a b :
  (forall x y, R1 x y -> R2 x y) -> tc R1 a b -> tc R2 a b.
Proof. intros HR. induction 1; [apply tc_once | eapply tc_l]; eauto. Qed.

Section Reach.
#[local] Set Default Proof Using "Type*".
Context (objects : list ObjectRecord) (index : gmap N N) (root : N)
  (limits : ObjectGraphLimits) (entries : list NamespaceEntry).
Hypothesis Hindex : index_ok objects index.
Hypothesis Hids : NoDup (ob_id <$> objects).
Hypothesis Hroot : is_directory objects root.
Hypothesis Hentries : Forall (entry_ok objects root (ogl_max_name_code_units limits)) entries.

Lemma targets_known : Forall (fun e => ne_target e ∈ ob_id <$> objects) entries.
Proof. eapply Forall_impl; [exact Hentries |]. by intros e (_ & ? & _). Qed.

Lemma children_link children :
  try_fold (add_child objects index) ∅ entries = Ok children ->
  forall d c, c ∈ default [] (children !! d) <-> directory_link objects entries d c.
Proof.
  intros H d c. rewrite (add_children_spec _ _ _ _ _ Hindex Hids targets_known H d c).
  rewrite lookup_empty. unfold directory_link, entry_link. simpl. split.
  - intros [Hn|(e & ? & ? & ? & ?)]; [by apply not_elem_of_nil in Hn | eauto 10].
  - intros [(e & ? & ? & ?) ?]. right. eauto 10.
Qed.

Lemma elem_of_targets p x : x ∈ entry_targets entries p <-> entry_link entries p x.
Proof.
  unfold entry_targets, entry_link. rewrite list_elem_of_fmap.
  setoid_rewrite list_elem_of_filter. naive_solver.
Qed.

Lemma parent_directory p x : entry_link entries p x -> is_directory objects p.
Proof.
  intros (e & He & <- & _). rewrite Forall_forall in Hentries. by destruct (Hentries e He).
Qed.

Lemma rtc_edge_link children d :
  try_fold (add_child objects index) ∅ entries = Ok children ->
  rtc (fun p c => c ∈ default [] (children !! p)) root d -> rtc (entry_link entries) root d.
Proof.
  intros Hc. apply rtc_subrel. intros x y He. by apply (children_link _ Hc) in He as [? _].
Qed.

Lemma tc_edge_link children a b :
  try_fold (add_child objects index) ∅ entries = Ok children ->
  tc (fun p c => c ∈ default [] (children !! p)) a b <-> tc (directory_link objects entries) a b.
Proof.
  intros Hc. split; apply tc_mono; intros x y; by apply (children_link _ Hc).
Qed.

(** What a finished search says about links. *)
Lemma search_reaches children fuel reachable :
  try_fold (add_child objects index) ∅ entries = Ok children ->
  dfs_loop fuel entries children (mkDfsState [(root, false)] ∅ ∅) = Ok reachable ->
  (forall x, x ∈ reachable <-> rtc (entry_link entries) root x) /\
  (forall d, rtc (entry_link entries) root d -> is_directory objects d ->
     ~ tc (directory_link objects entries) d d).
Proof.
  intros Hc Hl. apply dfs_result in Hl as (black & Hf & Hr & Hclosed & Horigin & Hreach).
  assert (Hdir : forall x, rtc (entry_link entries) root x -> is_directory objects x -> x ∈ black).
  { apply (rtc_ind_r (fun x => is_directory objects x -> x ∈ black)); [done |].
    intros p x Hp Hpx IH Hd. assert (p ∈ black) by (apply IH; by eapply parent_directory).
    eapply Hclosed; [done |]. by apply (children_link _ Hc). }
  split.
  - intros x. rewrite Hreach. split.
    + intros [Hx|(p & Hp & Hx)].
      * by eapply rtc_edge_link, Horigin.
      * apply elem_of_targets in Hx. eapply rtc_r; [|exact Hx].
        by eapply rtc_edge_link, Horigin.
    + intros Hx. destruct (rtc_inv_r _ _ Hx) as [<-|(p & Hp & Hpx)]; [by left |].
      right. exists p. split; [|by apply elem_of_targets].
      apply Hdir; [done | by eapply parent_directory].
  - intros d Hd Hdd Hcyc. apply (tc_edge_link _ _ _ Hc) in Hcyc. revert Hcyc.
    eapply finished_acyclic; [done | by apply Hdir].
Qed.

Lemma validate_reachability_Ok u :
  validate_reachability objects entries index root = Ok u ->
  Forall (fun o => rtc (entry_link entries) root (ob_id o)) objects /\
  forall d, ~ tc (directory_link objects entries) d d.
Proof.
  unfold validate_reachability. intros H. inv_ok.
  rename select (try_fold _ _ _ = _) into Hc. rename select (dfs_loop _ _ _ _ = _) into Hl.
  destruct (search_reaches _ _ _ Hc Hl) as [Hr Ha].
  assert (Hall : Forall (fun o => rtc (entry_link entries) root (ob_id o)) objects).
  { apply for_each_Ok in H. eapply Forall_impl; [exact H |]. intros o Ho. simpl in Ho. inv_ok.
    bool_props. by apply Hr. }
  split; [done |]. intros d Hcyc.
  assert (Hd : is_directory objects d).
  { inversion Hcyc as [? ? [Hl' _]|? ? ? [Hl' _]]; by eapply parent_directory. }
  pose proof Hd as (o & Ho & <- & _). rewrite Forall_forall in Hall.
  by apply (Ha (ob_id o) (Hall o Ho) Hd).
Qed.

Lemma add_children_complete l children :
  Forall (fun e => ne_target e ∈ ob_id <$> objects) l ->
  exists children', try_fold (add_child objects index) children l = Ok children'.
Proof.
  revert children. induction l as [|e l IH]; intros children Hl; cbn [try_fold]; [eauto |].
  apply Forall_cons in Hl as [He Hl].
  destruct (proj2 (index_member _ _ _ Hindex) He) as [p Hp].
  destruct (index_elem _ _ _ _ Hindex Hp) as (o & Ho & _).
  assert (exists m, add_child objects index children e = Ok m) as [m Hm].
  { unfold add_child. rewrite Hp. cbn [expect mbind outcome_bind]. rewrite Ho.
    cbn [mbind outcome_bind]. case_bool_decide; eauto. }
  rewrite Hm. by apply IH.
Qed.

(** Every entry is a child of at most its parent. *)
Lemma add_children_length l children children' d :
  try_fold (add_child objects index) children l = Ok children' ->
  (length (default [] (children' !! d)) <=
   length (default [] (children !! d)) + length (filter (fun e => ne_parent e = d) l))%nat.
Proof.
  revert children. induction l as [|e l IH]; intros children H; cbn [try_fold] in H.
  { inv_ok. simpl. lia. }
  apply bind_Ok in H as (m & Hok & H). apply IH in H. unfold add_child in Hok. inv_ok.
  rewrite filter_cons.
  case_bool_decide; inv_ok; destruct (decide (ne_parent e = d)) as [<-|Hne]; simpl.
  - rewrite lookup_insert_eq in H. simpl in H. rewrite length_app in H. simpl in H. lia.
  - by rewrite lookup_insert_ne in H by done.
  - lia.
  - done.
Qed.

Lemma work_initial children :
  try_fold (add_child objects index) ∅ entries = Ok children ->
  (remaining_work children ∅ (ob_id <$> objects) <= length objects + length entries)%nat.
Proof.
  intros Hc.
  assert (Hs : (sum_list_with (fun d => length (default [] (children !! d))) (ob_id <$> objects)
                <= length entries)%nat).
  { apply children_count; [done |]. intros d.
    apply (add_children_length _ _ _ d) in Hc. by rewrite lookup_empty in Hc. }
  assert (Hw : forall l, remaining_work children ∅ l =
    (length l + sum_list_with (fun d => length (default [] (children !! d))) l)%nat).
  { induction l as [|x l IH]; [done |]. cbn [remaining_work length sum_list_with].
    rewrite lookup_empty, IH. lia. }
  rewrite Hw, length_fmap. lia.
Qed.

Lemma search_safe children :
  try_fold (add_child objects index) ∅ entries = Ok children ->
  dfs_loop (S (S (length objects + length entries))) entries children
    (mkDfsState [(root, false)] ∅ ∅) <> Panic.
Proof.
  intros Hc. apply (dfs_loop_safe _ _ (ob_id <$> objects) root _ _ []); [apply dfs_ok_init | | |].
  - cbn [dfs_stack dfs_state length]. pose proof (work_initial children Hc). lia.
  - cbn [dfs_stack]. intros d b Hd. apply list_elem_of_singleton in Hd. simplify_eq.
    destruct Hroot as (o & Ho & <- & _). by apply list_elem_of_fmap_2.
  - intros d c Hd. apply (children_link _ Hc) in Hd as [_ (o & Ho & <- & _)].
    by apply list_elem_of_fmap_2.
Qed.

Lemma validate_reachability_complete :
  Forall (fun o => rtc (entry_link entries) root (ob_id o)) objects ->
  (forall d, ~ tc (directory_link objects entries) d d) ->
  len objects + len entries + 1 <= u64_max ->
  validate_reachability objects entries index root = Ok tt.
Proof.
  intros Hall Ha Hw. unfold validate_reachability.
  destruct (add_children_complete entries ∅ targets_known) as [children Hc].
  rewrite Hc. cbn [mbind outcome_bind].
  rewrite checked_add_in by lia. cbn [ok_or mbind outcome_bind].
  rewrite checked_add_in by lia. cbn [ok_or mbind outcome_bind].
  destruct (dfs_loop _ _ _ _) as [reachable|e|] eqn:Hl; cbn [mbind outcome_bind].
  - destruct (search_reaches _ _ _ Hc Hl) as [Hr _].
    apply for_each_Ok, Forall_forall. intros o Ho. rewrite Forall_forall in Hall.
    by rewrite (bool_decide_true _ (proj2 (Hr (ob_id o)) (Hall o Ho))).
  - exfalso. apply (dfs_loop_err _ _ root _ _ [] e (dfs_ok_init _ _ _)) in Hl as [d Hd].
    apply (Ha d). by apply (tc_edge_link _ _ _ Hc).
  - by apply search_safe in Hl.
Qed.

Lemma validate_reachability_safe :
  validate_reachability objects entries index root <> Panic.
Proof.
  unfold validate_reachability.
  destruct (add_children_complete entries ∅ targets_known) as [children Hc].
  rewrite Hc. cbn [mbind outcome_bind]. apply bind_safe; [safe |]. intros work _.
  apply bind_safe; [safe |]. intros capacity _. apply bind_safe; [by apply search_safe |]. intros. safe.
Qed.
End Reach.

(** ** Claims *)

Lemma build_graph_ok root objects entries extents limits g :
  ObjectGraph_build root objects entries extents limits = Ok g ->
  graph_ok root objects entries extents limits /\
  g = mkObjectGraph root objects entries extents (collect_features objects).
Proof.
  unfold ObjectGraph_build. intros H. inv_ok. bool_props.
  rename select (validate_limits _ = _) into Hl. apply for_each_Ok in Hl.
  rewrite !Forall_cons in Hl. destruct Hl as (Hl1 & Hl2 & Hl3 & Hl4 & _). simpl in *. inv_ok.
  bool_props.
  rename select (index_objects _ _ _ = _) into Hi.
  apply index_objects_Ok in Hi as (Hi & Hn & Hr).
  rename select (validate_streams _ _ _ = _) into Hs.
  apply validate_streams_Ok in Hs as (Hs1 & Hs2 & Hs3 & Hs4 & Hs5).
  rename select (validate_entries _ _ _ _ _ = _) into He.
  apply (validate_entries_Ok _ _ _ _ Hi Hn) in He as (He1 & He2 & He3).
  rename select (validate_extent_references _ _ = _) into Hx. apply for_each_Ok in Hx.
  rename select (validate_reachability _ _ _ _ = _) into Hv.
  apply (validate_reachability_Ok _ _ _ limits _ Hi Hn Hr He1) in Hv as [Hv1 Hv2].
  split; [|done]. split; try done.
  - lia.
  - eapply Forall_impl; [exact Hx |]. intros e Hxe. simpl in Hxe. inv_ok. bool_props.
    by apply Hs5.
Qed.

(** C17: Every graph the builder returns is well formed: unique object and stream
    identities, a root directory, gap-free extent coverage with exact accounting,
    unambiguous and exactly counted directory entries, every object reachable
    from the root, and no directory that contains itself. *)
Theorem object_graph_build_sound root objects entries extents limits g :
  ObjectGraph_build root objects entries extents limits = Ok g ->
  graph_ok root objects entries extents limits /\
  g = mkObjectGraph root objects entries extents (collect_features objects).
Proof. exact (build_graph_ok root objects entries extents limits g). Qed.

(** C25: Conversely, every well-formed graph whose fields have the widths of the
    source types is accepted, so the builder decides well-formedness; in
    particular the depth-first search terminates within its work bound and reports
    a cycle only when there is one. *)
Theorem object_graph_build_complete root objects entries extents limits :
  graph_ok root objects entries extents limits -> graph_widths objects entries limits ->
  ObjectGraph_build root objects entries extents limits =
    Ok (mkObjectGraph root objects entries extents (collect_features objects)).
Proof.
  intros [(L1 & L2 & L3 & L4) (C1 & C2 & C3) Hids Hroot Hstr Hun Hst Hext Hent Hnm Hln Hre Hac]
    [Ww Ws Wl Wz].
  unfold ObjectGraph_build.
  assert (Hl : validate_limits limits = Ok tt).
  { unfold validate_limits. apply for_each_Ok. repeat constructor; simpl; apply refuse_if_Ok;
      apply N.eqb_neq; lia. }
  rewrite Hl. cbn [mbind outcome_bind].
  rewrite (proj2 (N.ltb_ge _ _) C1), (proj2 (N.ltb_ge _ _) C2).
  cbn [refuse_if mbind outcome_bind].
  destruct (index_objects_complete objects root limits Hids Hroot C1) as [index Hi].
  rewrite Hi. cbn [mbind outcome_bind]. apply index_objects_Ok in Hi as (Hi & _ & _).
  destruct (validate_streams_complete objects extents limits C3 Ws Hun Hst Hstr Wz) as [m Hm].
  rewrite Hm. cbn [mbind outcome_bind].
  apply validate_streams_Ok in Hm as (_ & _ & _ & _ & Hm).
  rewrite (validate_entries_complete _ _ _ _ Hi Hids _ Hent Hnm Hln Wl).
  cbn [mbind outcome_bind].
  assert (Hx : validate_extent_references extents m = Ok tt).
  { apply for_each_Ok. eapply Forall_impl; [exact Hext |]. intros e He. simpl.
    apply Hm in He. by rewrite bool_decide_true. }
  rewrite Hx. cbn [mbind outcome_bind].
  by rewrite (validate_reachability_complete _ _ _ limits _ Hi Hids Hroot Hent Hre Hac Ww).
Qed.

Lemma build_graph_safe root objects entries extents limits :
  ObjectGraph_build root objects entries extents limits <> Panic.
Proof.
  unfold ObjectGraph_build.
  apply bind_safe; [unfold validate_limits; safe |]. intros _ _.
  apply bind_safe; [safe |]. intros _ _. apply bind_safe; [safe |]. intros _ _.
  apply bind_safe; [apply index_objects_safe |]. intros index Hi.
  apply index_objects_Ok in Hi as (Hi & Hn & Hr).
  apply bind_safe; [apply validate_streams_safe |]. intros m _.
  apply bind_safe; [by apply (validate_entries_safe _ _ _ _ Hi Hn) |]. intros u He.
  apply (validate_entries_Ok _ _ _ _ Hi Hn) in He as (He & _ & _).
  apply bind_safe; [unfold validate_extent_references; safe |]. intros _ _.
  apply bind_safe; [by apply (validate_reachability_safe _ _ _ limits) | done].
Qed.

(** The builder never aborts, on any input: no index is out of range, the
    "validated target" is always present, and the search terminates. *)
Theorem object_graph_build_never_panics root objects entries extents limits :
  ObjectGraph_build root objects entries extents limits <> Panic.
Proof. exact (build_graph_safe root objects entries extents limits). Qed.

(** ** Witnesses *)
Section Witnesses.
Definition sample_stream : ObjectStream :=
  mkObjectStream 7 None 700 700 1024 512 (mkStreamFlags true false false 0) Extents.
Definition sample_extents : ExtentGraph :=
  mkExtentGraph 4096
    [mkExtent 7 0 512 (Physical 1024) FileData; mkExtent 7 512 512 Sparse FileData] 512 512.
Definition plain : ObjectSemantics := mkObjectSemantics false false.
Definition sample_objects : list ObjectRecord :=
  [mkObjectRecord 5 Directory 0 plain [];
   mkObjectRecord 6 Directory 1 plain [];
   mkObjectRecord 9 File 2 plain [sample_stream]].
(** The file has a name in both directories. *)
Definition sample_entries : list NamespaceEntry :=
  [mkNamespaceEntry 5 6 [100]; mkNamespaceEntry 5 9 [97]; mkNamespaceEntry 6 9 [97]].
Definition sample_graph_limits : ObjectGraphLimits := mkObjectGraphLimits 8 8 8 255.
Definition sample_graph : ObjectGraph :=
  mkObjectGraph 5 sample_objects sample_entries sample_extents [HardLinks; SparseFiles].

Example sample_graph_built :
  ObjectGraph_build 5 sample_objects sample_entries sample_extents sample_graph_limits
    = Ok sample_graph.
Proof. by vm_compute. Qed.

(** A directory that contains its own parent. *)
Example sample_cycle_refused :
  ObjectGraph_build 5
    [mkObjectRecord 5 Directory 0 plain []; mkObjectRecord 6 Directory 2 plain [];
     mkObjectRecord 7 Directory 1 plain []]
    [mkNamespaceEntry 5 6 [97]; mkNamespaceEntry 6 7 [98]; mkNamespaceEntry 7 6 [99]]
    (mkExtentGraph 4096 [] 0 0) sample_graph_limits = Err (DirectoryCycle 6).
Proof. by vm_compute. Qed.

(** Witness. *)
Lemma object_graph_build_sound_witness :
  graph_ok 5 sample_objects sample_entries sample_extents sample_graph_limits /\
  sample_graph =
    mkObjectGraph 5 sample_objects sample_entries sample_extents (collect_features sample_objects).
Proof. apply object_graph_build_sound. by vm_compute. Defined.

Lemma sample_graph_ok :
  graph_ok 5 sample_objects sample_entries sample_extents sample_graph_limits.
Proof.
  assert (Hd : forall i o, sample_objects !! i = Some o -> o ∈ sample_objects)
    by (intros i o; apply list_elem_of_lookup_2).
  assert (H56 : rtc (entry_link sample_entries) 5 6).
  { apply rtc_once. exists (mkNamespaceEntry 5 6 [100]). split_and!; [left | done | done]. }
  assert (H59 : rtc (entry_link sample_entries) 5 9).
  { apply rtc_once. exists (mkNamespaceEntry 5 9 [97]). split_and!; [right; left | done | done]. }
  assert (H5 : is_directory sample_objects 5)
    by (exists (mkObjectRecord 5 Directory 0 plain []); split_and!; [left | done | done]).
  assert (H6 : is_directory sample_objects 6)
    by (exists (mkObjectRecord 6 Directory 1 plain []); split_and!; [right; left | done | done]).
  split.
  - by vm_compute.
  - by vm_compute.
  - apply (bool_decide_unpack _). by vm_compute.
  - done.
  - apply (bool_decide_unpack _). by vm_compute.
  - repeat constructor; by vm_compute.
  - repeat constructor; by vm_compute.
  - repeat constructor; exists sample_stream; split_and!; (left || done).
  - repeat constructor; (done || (apply (bool_decide_unpack _); by vm_compute)).
  - apply (bool_decide_unpack _). by vm_compute.
  - repeat constructor.
  - constructor; [apply rtc_refl |]. by repeat constructor.
  - assert (Hlt : forall a b, directory_link sample_objects sample_entries a b -> a < b).
    { intros a b [(e & He & <- & <-) _].
      repeat (apply elem_of_cons in He as [->|He]; [by vm_compute |]).
      by apply not_elem_of_nil in He. }
    assert (Htc : forall a b, tc (directory_link sample_objects sample_entries) a b -> a < b).
    { intros a b H. induction H as [a b H|a m b H _ IH]; apply Hlt in H; lia. }
    intros d H. apply Htc in H. lia.
Qed.

(** Witness. *)
Lemma object_graph_build_complete_witness :
  ObjectGraph_build 5 sample_objects sample_entries sample_extents sample_graph_limits =
    Ok (mkObjectGraph 5 sample_objects sample_entries sample_extents
          (collect_features sample_objects)).
Proof.
  apply object_graph_build_complete; [apply sample_graph_ok |].
  split; [by vm_compute | by vm_compute | repeat constructor; by vm_compute |].
  repeat constructor; by vm_compute.
Defined.
End Witnesses.
