(* ===== verification/Relocate.v ===== *)
(** * Relocated object graphs ([geometry.rs], [relocate_object_graph])

    Applying a layout to an object graph: relocated file-data extents change
    their physical placement, materialized streams get the planned extents, and
    the result is validated again by the extent and object builders. *)

From S2P Require Import Prelude Extent Geometry Planner Object.
From stdpp Require Import options.
#[local] Open Scope N_scope.

Inductive RelocatedGraphError : Type :=
| InvalidRelocation (stream : StreamId) (logical_offset : N)
| RelocationSourceMissing (stream : StreamId) (logical_offset : N)
| DuplicateRelocationSource (stream : StreamId) (logical_offset : N)
| NonPayloadRelocation (stream : StreamId) (logical_offset : N) (kind : ExtentKind)
| RelocatedByteCountMismatch (declared actual : N)
| DuplicateMaterialization (stream : StreamId)
| MaterializationUnknownStream (stream : StreamId)
| MaterializationConflictsWithRelocation (stream : StreamId)
| InvalidMaterialization (stream : StreamId)
| MaterializedByteCountMismatch (declared actual : N)
| RelocatedExtents (source : ExtentGraphError)
| RelocatedObjects (source : ObjectGraphError).

#[local] Abbreviation relocated := (outcome RelocatedGraphError).

(** [PhysicalExtentKey]; tuples compare lexicographically. *)
Definition relocation_key (r : Relocation) : list N :=
  [rl_stream r; rl_logical_offset r; br_offset (rl_source r); br_length (rl_source r)].

Definition extent_key (e : Extent) : option (list N) :=
  match ex_placement e with
  | Physical byte_offset => Some [ex_stream e; ex_logical_offset e; byte_offset; ex_length e]
  | Sparse => None
  end.

Definition physical_extent_index (extents : list Extent) : list (list N * N) :=
  sort_by_lex_key fst
    (omap (fun ie : N * Extent => (fun key => (key, ie.1)) <$> extent_key ie.2)
       (imap (fun i e => (N.of_nat i, e)) extents)).

(** [binary_search_by_key(..).ok()].  In a physical extent index keys are
    unique, so the match is determined. *)
Definition binary_search (key : list N) (sources : list (list N * N)) : option N :=
  snd <$> find (fun entry : list N * N => bool_decide (entry.1 = key)) sources.

Definition find_duplicate (keys : list (list N)) : option (list N) :=
  fst <$> find_windows2 (fun a b => bool_decide (a = b)) (sort_by_lex_key id keys).

Definition with_placement (placement : Placement) (e : Extent) : Extent :=
  mkExtent (ex_stream e) (ex_logical_offset e) (ex_length e) placement (ex_kind e).

Definition map_layout_err {A : Type} (e : RelocatedGraphError) (m : outcome LayoutError A)
    : relocated A := map_err (fun _ => e) m.

(** One relocation; the state is the byte count and the extent list. *)
Definition apply_relocation (plan : LayoutPlan) (sources : list (list N * N))
    (state : N * list Extent) (relocation : Relocation) : relocated (N * list Extent) :=
  let '(actual_bytes, extents) := state in
  let stream := rl_stream relocation in
  let logical_offset := rl_logical_offset relocation in
  let invalid := InvalidRelocation stream logical_offset in
  refuse_if (existsb (fun m => mz_stream m =? stream) (lp_materializations plan))
    (MaterializationConflictsWithRelocation stream) ;;
  (if (br_length (rl_source relocation) =? 0)
      || negb (br_length (rl_source relocation) =? br_length (rl_destination relocation))
   then Err invalid
   else
     overlapping ← map_layout_err invalid
       (overlaps (rl_source relocation) (rl_destination relocation));
     refuse_if overlapping invalid) ;;
  actual_bytes ← ok_or (RelocatedByteCountMismatch (lp_relocated_bytes plan) u64_max)
    (checked_add actual_bytes (br_length (rl_source relocation)));
  source_index ← ok_or (RelocationSourceMissing stream logical_offset)
    (binary_search (relocation_key relocation) sources);
  extent ← at_index extents source_index;
  refuse_if (negb (bool_decide (ex_kind extent = FileData)))
    (NonPayloadRelocation stream logical_offset (ex_kind extent)) ;;
  Ok (actual_bytes,
      <[N.to_nat source_index :=
          with_placement (Physical (br_offset (rl_destination relocation))) extent]> extents).

(** ** Materialized streams *)

Definition materialize_stream (stream : StreamId) (allocation_bytes : N) (s : ObjectStream)
    : relocated ObjectStream :=
  refuse_if ((st_logical_bytes s =? 0) || (allocation_bytes <? st_logical_bytes s))
    (InvalidMaterialization stream) ;;
  Ok (mkObjectStream (st_id s) (st_name s) (st_logical_bytes s) (st_initialized_bytes s)
        allocation_bytes allocation_bytes
        (mkStreamFlags (sf_sparse (st_flags s)) false (sf_encrypted (st_flags s)) 0)
        Extents).

Definition has_stream (stream : StreamId) (object : ObjectRecord) : bool :=
  existsb (fun s => st_id s =? stream) (ob_streams object).

(** [find_file_stream_mut] with the update made through the reference it
    returns. *)
Fixpoint update_stream (stream : StreamId) (f : ObjectStream -> relocated ObjectStream)
    (streams : list ObjectStream) : relocated (list ObjectStream) :=
  match streams with
  | [] => Ok []
  | s :: rest =>
      if st_id s =? stream then s ← f s; Ok (s :: rest)
      else rest ← update_stream stream f rest; Ok (s :: rest)
  end.
Fixpoint update_file_stream (stream : StreamId) (f : ObjectStream -> relocated ObjectStream)
    (objects : list ObjectRecord) : relocated (list ObjectRecord) :=
  match objects with
  | [] => Err (MaterializationUnknownStream stream)
  | object :: rest =>
      if negb (bool_decide (ob_kind object = File)) then
        refuse_if (has_stream stream object) (InvalidMaterialization stream) ;;
        rest ← update_file_stream stream f rest;
        Ok (object :: rest)
      else if has_stream stream object then
        streams ← update_stream stream f (ob_streams object);
        Ok (mkObjectRecord (ob_id object) (ob_kind object) (ob_link_count object)
              (ob_semantics object) streams :: rest)
      else
        rest ← update_file_stream stream f rest;
        Ok (object :: rest)
  end.

Definition add_destination (stream : StreamId) (allocation_bytes : N) (destination : ByteRange)
    : relocated N :=
  refuse_if (br_length destination =? 0) (InvalidMaterialization stream) ;;
  _ ← map_layout_err (InvalidMaterialization stream) (ByteRange_end destination);
  ok_or (InvalidMaterialization stream) (checked_add allocation_bytes (br_length destination)).

(** The extents of the planned spans, in logical order. *)
Definition push_destination (stream : StreamId) (state : N * list Extent)
    (destination : ByteRange) : relocated (N * list Extent) :=
  let '(logical_offset, extents) := state in
  next ← ok_or (InvalidMaterialization stream)
    (checked_add logical_offset (br_length destination));
  Ok (next, extents ++ [mkExtent stream logical_offset (br_length destination)
                          (Physical (br_offset destination)) FileData]).

Definition apply_materialization (plan : LayoutPlan)
    (state : N * list ObjectRecord * list Extent) (m : Materialization)
    : relocated (N * list ObjectRecord * list Extent) :=
  let '(actual_bytes, objects, extents) := state in
  let stream := mz_stream m in
  refuse_if (is_empty (mz_destinations m)) (InvalidMaterialization stream) ;;
  allocation_bytes ← try_fold (add_destination stream) 0 (mz_destinations m);
  actual_bytes ← ok_or (MaterializedByteCountMismatch (lp_materialized_bytes plan) u64_max)
    (checked_add actual_bytes allocation_bytes);
  objects ← update_file_stream stream (materialize_stream stream allocation_bytes) objects;
  let extents := filter (fun e => ~ (ex_stream e = stream /\ ex_kind e = FileData)) extents in
  pushed ← try_fold (push_destination stream) (0, extents) (mz_destinations m);
  Ok (actual_bytes, objects, pushed.2).

Definition apply_materializations (objects : list ObjectRecord) (extents : list Extent)
    (plan : LayoutPlan) : relocated (list ObjectRecord * list Extent) :=
  match find_duplicate ((fun m => [mz_stream m]) <$> lp_materializations plan) with
  | Some key => Err (DuplicateMaterialization (hd 0 key))
  | None =>
      state ← try_fold (apply_materialization plan) (0, objects, extents)
        (lp_materializations plan);
      let '(actual_bytes, objects, extents) := state in
      refuse_if (negb (actual_bytes =? lp_materialized_bytes plan))
        (MaterializedByteCountMismatch (lp_materialized_bytes plan) actual_bytes) ;;
      Ok (objects, extents)
  end.

(** [iter().sum::<usize>()] aborts on overflow. *)
Definition sum_usize (l : list N) : relocated N := try_fold (fun sum n => add_u64 sum n) 0 l.

Definition rebuild_relocated_graph_with_objects (source : ObjectGraph)
    (objects : list ObjectRecord) (extents : list Extent) : relocated ObjectGraph :=
  let source_extents := og_extents source in
  extents ← map_err RelocatedExtents
    (ExtentGraph_build extents (eg_volume_bytes source_extents)
       (N.max (saturating_add (len (eg_extents source_extents)) (len objects)) 1));
  stream_count ← sum_usize ((fun object => len (ob_streams object)) <$> objects);
  let limits := {|
    ogl_max_objects := N.max (len objects) 1;
    ogl_max_entries := N.max (len (og_entries source)) 1;
    ogl_max_streams := N.max stream_count 1;
    ogl_max_name_code_units :=
      N.max (foldr (fun entry longest => N.max (len (ne_name entry)) longest) 0
               (og_entries source)) 1
  |} in
  map_err RelocatedObjects
    (ObjectGraph_build (og_root source) objects (og_entries source) extents limits).

Definition relocate_object_graph (source : ObjectGraph) (plan : LayoutPlan)
    : relocated ObjectGraph :=
  let extents := eg_extents (og_extents source) in
  let sources := physical_extent_index extents in
  match find_duplicate (relocation_key <$> lp_relocations plan) with
  | Some key => Err (DuplicateRelocationSource (hd 0 key) (hd 0 (tl key)))
  | None =>
      state ← try_fold (apply_relocation plan sources) (0, extents) (lp_relocations plan);
      let '(actual_bytes, extents) := state in
      refuse_if (negb (actual_bytes =? lp_relocated_bytes plan))
        (RelocatedByteCountMismatch (lp_relocated_bytes plan) actual_bytes) ;;
      rebuilt ← apply_materializations (og_objects source) extents plan;
      rebuild_relocated_graph_with_objects source rebuilt.1 rebuilt.2
  end.

Record SealedRelocationPlan : Type := mkSealedRelocationPlan {
  srp_source_graph : ObjectGraph;
  srp_target_graph : ObjectGraph;
  srp_layout : LayoutPlan
}.
Definition seal (source_graph : ObjectGraph) (plan : LayoutPlan)
    : relocated SealedRelocationPlan :=
  target_graph ← relocate_object_graph source_graph plan;
  Ok (mkSealedRelocationPlan source_graph target_graph plan).

(** ** Streams that must be materialized *)
Definition align_up (value alignment : N) : outcome False (option N) :=
  if value =? 0 then Ok (Some 0)
  else
    mask ← sub_u64 alignment 1;
    match checked_add value mask with
    | None => Ok None
    | Some sum => Ok (Some (N.land sum (not_u64 mask)))
    end.

(** The first stream with the identity, with the kind of its object. *)
Fixpoint find_object_stream (stream : StreamId) (objects : list ObjectRecord)
    : option (ObjectKind * ObjectStream) :=
  match objects with
  | [] => None
  | object :: rest =>
      match find (fun s => st_id s =? stream) (ob_streams object) with
      | Some s => Some (ob_kind object, s)
      | None => find_object_stream stream rest
      end
  end.

Definition materialization_length_for_stream (graph : ObjectGraph) (stream : StreamId)
    (destination_alignment : N) : outcome False (option N) :=
  if (destination_alignment =? 0) || negb (is_power_of_two destination_alignment) then Ok None
  else
    match find_object_stream stream (og_objects graph) with
    | None => Ok None
    | Some (kind, s) =>
        if negb (bool_decide (kind = File)) || (st_logical_bytes s =? 0) then Ok None
        else
          aligned ← align_up (st_logical_bytes s) destination_alignment;
          match aligned with
          | None => Ok None
          | Some dest_length =>
              if negb (sf_compression_block_bytes (st_flags s) =? 0)
                 || (st_initialized_bytes s <? dest_length) then Ok (Some dest_length)
              else
                match st_storage s with
                | Resident bytes =>
                    Ok (if is_empty bytes then None else Some dest_length)
                | Extents =>
                    let extents := filter (fun e => ex_stream e = st_id s /\ ex_kind e = FileData)
                      (eg_extents (og_extents graph)) in
                    let representable := negb (is_empty extents) &&
                      forallb (fun e => (ex_length e mod destination_alignment =? 0)
                                        && is_physical e) extents in
                    Ok (if representable then None else Some dest_length)
                end
          end
    end.

(** * Specification *)

(** The relocation that names an extent, and the extent after it. *)
Definition relocation_of (relocations : list Relocation) (e : Extent) : option Relocation :=
  find (fun r => bool_decide (extent_key e = Some (relocation_key r))) relocations.
Definition move_extent (relocations : list Relocation) (e : Extent) : Extent :=
  match relocation_of relocations e with
  | Some r => with_placement (Physical (br_offset (rl_destination r))) e
  | None => e
  end.

(** The extents of a materialized stream. *)
Fixpoint spans (stream : StreamId) (logical_offset : N) (l : list ByteRange) : list Extent :=
  match l with
  | [] => []
  | d :: l => mkExtent stream logical_offset (br_length d) (Physical (br_offset d)) FileData
              :: spans stream (logical_offset + br_length d) l
  end.
Definition materialized_extents (m : Materialization) : list Extent :=
  spans (mz_stream m) 0 (mz_destinations m).
Definition replaced (l : list Materialization) (e : Extent) : bool :=
  bool_decide (ex_kind e = FileData) && existsb (fun m => mz_stream m =? ex_stream e) l.

Definition materialized_size (m : Materialization) : N :=
  sum_by br_length (mz_destinations m).
Definition materialized (m : Materialization) (s : ObjectStream) : ObjectStream :=
  mkObjectStream (st_id s) (st_name s) (st_logical_bytes s) (st_initialized_bytes s)
    (materialized_size m) (materialized_size m)
    (mkStreamFlags (sf_sparse (st_flags s)) false (sf_encrypted (st_flags s)) 0) Extents.
Definition materialize (l : list Materialization) (s : ObjectStream) : ObjectStream :=
  match find (fun m => mz_stream m =? st_id s) l with
  | Some m => materialized m s
  | None => s
  end.
Definition map_streams (f : ObjectStream -> ObjectStream) (o : ObjectRecord) : ObjectRecord :=
  mkObjectRecord (ob_id o) (ob_kind o) (ob_link_count o) (ob_semantics o) (f <$> ob_streams o).

(** The extents and objects that a layout asks for. *)
Definition layout_extents (plan : LayoutPlan) (l : list Extent) : list Extent :=
  filter (fun e => ~ replaced (lp_materializations plan) e) (move_extent (lp_relocations plan) <$> l)
  ++ concat (materialized_extents <$> lp_materializations plan).
Definition layout_objects (plan : LayoutPlan) (l : list ObjectRecord) : list ObjectRecord :=
  map_streams (materialize (lp_materializations plan)) <$> l.

(** Source graphs as the builders leave them. *)
Definition source_ok (g : ObjectGraph) : Prop :=
  NoDup (omap extent_key (eg_extents (og_extents g))) /\
  NoDup (st_id <$> all_streams (og_objects g)).

(** What one relocation and one materialization have to satisfy. *)
Definition relocation_ok (g : ObjectGraph) (r : Relocation) : Prop :=
  0 < br_length (rl_source r) /\ br_length (rl_source r) = br_length (rl_destination r) /\
  range_apart (rl_source r) (rl_destination r) /\
  exists e, e ∈ eg_extents (og_extents g) /\ extent_key e = Some (relocation_key r) /\
    ex_kind e = FileData.
Definition materialization_ok (g : ObjectGraph) (m : Materialization) : Prop :=
  mz_destinations m <> [] /\ Forall (fun d => 0 < br_length d) (mz_destinations m) /\
  exists o s, o ∈ og_objects g /\ ob_kind o = File /\ s ∈ ob_streams o /\
    st_id s = mz_stream m /\ 0 < st_logical_bytes s <= materialized_size m.

(** * Proofs *)

(** ** The extent index *)
Lemma extent_key_range e k :
  extent_key e = Some k ->
  exists off, physical_range e = Some (off, ex_length e) /\
    k = [ex_stream e; ex_logical_offset e; off; ex_length e].
Proof. unfold extent_key, physical_range. destruct (ex_placement e); naive_solver. Qed.

Lemma omap_cons' {A B} (f : A -> option B) x l :
  omap f (x :: l) = match f x with Some y => y :: omap f l | None => omap f l end.
Proof. done. Qed.

Lemma admissible_keys v maximum l : admissible v maximum l -> NoDup (omap extent_key l).
Proof.
  intros (_ & Hok & _ & Hd & _). unfold disjoint_ranges in Hd.
  induction l as [|e l IH]; [constructor |]. apply Forall_cons in Hok as [He Hok].
  rewrite omap_cons' in Hd. rewrite omap_cons'. destruct (extent_key e) as [k|] eqn:Hk.
  - apply extent_key_range in Hk as (off & Hr & ->). rewrite Hr in Hd.
    apply StronglySorted_inv in Hd as [Hl Hd]. apply NoDup_cons. split; [|by apply IH].
    intros (x & Hx & Hkx)%list_elem_of_omap.
    apply extent_key_range in Hkx as (off' & Hrx & Heq). simplify_eq.
    rewrite Forall_forall in Hd. specialize (Hd (off', ex_length x)).
    assert (Hin : (off', ex_length x) ∈ omap physical_range l)
      by (apply list_elem_of_omap; by exists x).
    specialize (Hd Hin). destruct He as [? _]. unfold apart, before in Hd. simpl in Hd. lia.
  - apply IH; [done |]. destruct (physical_range e); [by apply StronglySorted_inv in Hd as [? _] | done].
Qed.

Lemma binary_search_Some key extents i :
  binary_search key (physical_extent_index extents) = Some i ->
  exists e, extents !! N.to_nat i = Some e /\ extent_key e = Some key.
Proof.
  unfold binary_search. intros H. apply fmap_Some in H as ([k j] & Hf & ->).
  apply find_some in Hf as [Hin Hk]. apply bool_decide_eq_true in Hk. simpl in *. subst k.
  apply list_elem_of_In in Hin. unfold physical_extent_index in Hin.
  rewrite sort_by_lex_key_perm in Hin. apply list_elem_of_omap in Hin as ([i e] & Hie & Hk).
  simpl in Hk. apply fmap_Some in Hk as (k & Hk & He). simplify_eq.
  exists e. split; [|done]. apply list_elem_of_lookup in Hie as [p Hp].
  rewrite list_lookup_imap in Hp. apply fmap_Some in Hp as (x & Hx & He). simplify_eq.
  by rewrite Nat2N.id.
Qed.

Lemma find_duplicate_None keys : find_duplicate keys = None -> NoDup keys.
Proof.
  unfold find_duplicate. intros H. apply fmap_None in H. apply find_windows2_None in H.
  rewrite <- (sort_by_lex_key_perm id keys).
  pose proof (sort_by_lex_key_sorted id keys) as Hs. revert H Hs.
  generalize (sort_by_lex_key id keys) as l. intros l Hne Hs.
  induction Hs as [|x l Hs IH Hf]; constructor.
  - intros Hx. destruct l as [|y l]; [by apply not_elem_of_nil in Hx |].
    apply Sorted_inv in Hne as [_ Hh]. inversion_clear Hh as [|?? Hxy].
    apply bool_decide_eq_false in Hxy. apply Hxy.
    rewrite Forall_forall in Hf. pose proof (Hf y ltac:(left)) as Hle.
    apply elem_of_cons in Hx as [?|Hx]; [done |].
    apply StronglySorted_inv in Hs as [_ Hy]. rewrite Forall_forall in Hy.
    specialize (Hy x Hx). unfold le_lex_key, id in *. by apply lex_leb_antisymm.
  - apply IH. by apply Sorted_inv in Hne as [? _].
Qed.

(** ** Relocations *)
Lemma relocation_of_app l1 l2 e :
  relocation_of (l1 ++ l2) e =
  match relocation_of l1 e with Some r => Some r | None => relocation_of l2 e end.
Proof.
  unfold relocation_of. induction l1 as [|r l1 IH]; simpl; [done |]. by case_bool_decide.
Qed.

Lemma relocation_of_None l e :
  (forall r, r ∈ l -> extent_key e <> Some (relocation_key r)) -> relocation_of l e = None.
Proof.
  unfold relocation_of. induction l as [|r l IH]; intros Hl; simpl; [done |].
  rewrite bool_decide_false by (apply Hl; left). apply IH. intros x Hx. apply Hl. by right.
Qed.

Lemma extent_key_unique l i j (a b : Extent) k :
  NoDup (omap extent_key l) -> l !! i = Some a -> l !! j = Some b ->
  extent_key a = Some k -> extent_key b = Some k -> i = j.
Proof.
  revert i j. induction l as [|e l IH]; intros [|i] [|j] Hn Hi Hj Ha Hb; simplify_eq/=; try done.
  - exfalso. rewrite Ha in Hn. apply NoDup_cons in Hn as [Hn _]. apply Hn.
    apply list_elem_of_omap. exists b. split; [by eapply list_elem_of_lookup_2 | done].
  - exfalso. rewrite Hb in Hn. apply NoDup_cons in Hn as [Hn _]. apply Hn.
    apply list_elem_of_omap. exists a. split; [by eapply list_elem_of_lookup_2 | done].
  - f_equal. apply (IH i j); try done.
    destruct (extent_key e); [by apply NoDup_cons in Hn as [_ ?] | done].
Qed.

(** One more relocation, on extents to which [done] has been applied. *)
Lemma move_snoc extents done r i e :
  NoDup (omap extent_key extents) -> extents !! i = Some e ->
  extent_key e = Some (relocation_key r) -> relocation_key r ∉ relocation_key <$> done ->
  move_extent done e = e /\
  <[i := with_placement (Physical (br_offset (rl_destination r))) e]>
    (move_extent done <$> extents) = move_extent (done ++ [r]) <$> extents.
Proof.
  intros Hn Hi Hk Hnew.
  assert (Hdone : relocation_of done e = None).
  { apply relocation_of_None. intros x Hx Hkx. apply Hnew.
    assert (relocation_key r = relocation_key x) as -> by congruence.
    by apply list_elem_of_fmap_2. }
  split; [unfold move_extent; by rewrite Hdone |].
  apply list_eq. intros j. destruct (decide (i = j)) as [<-|Hne].
  - rewrite list_lookup_insert_eq by (rewrite length_fmap; by eapply lookup_lt_Some).
    rewrite list_lookup_fmap, Hi. simpl. unfold move_extent.
    rewrite relocation_of_app, Hdone. unfold relocation_of. simpl.
    by rewrite bool_decide_true.
  - rewrite list_lookup_insert_ne by done. rewrite !list_lookup_fmap.
    destruct (extents !! j) as [x|] eqn:Hj; [|done]. simpl. f_equal. unfold move_extent.
    rewrite relocation_of_app. destruct (relocation_of done x); [done |].
    unfold relocation_of. simpl. rewrite bool_decide_false; [done |].
    intros Hkx. apply Hne. by eapply (extent_key_unique extents i j e x).
Qed.

Lemma apply_relocations_spec g plan rest done bytes st :
  let extents := eg_extents (og_extents g) in
  NoDup (omap extent_key extents) -> NoDup (relocation_key <$> (done ++ rest)) ->
  try_fold (apply_relocation plan (physical_extent_index extents))
    (bytes, move_extent done <$> extents) rest = Ok st ->
  st = (bytes + sum_by (fun r => br_length (rl_source r)) rest,
        move_extent (done ++ rest) <$> extents) /\
  Forall (relocation_ok g) rest /\
  Forall (fun r => existsb (fun m => mz_stream m =? rl_stream r) (lp_materializations plan) = false)
    rest.
Proof.
  intros extents Hn. revert done bytes.
  induction rest as [|r rest IH]; intros done bytes Hr H; cbn [try_fold] in H.
  { inv_ok. rewrite app_nil_r, N.add_0_r. by split_and!. }
  apply bind_Ok in H as (a & Hok & H). unfold apply_relocation in Hok. inv_ok.
  rename select (binary_search _ _ = _) into Hb.
  apply binary_search_Some in Hb as (e & He & Hk).
  rename select (at_index _ _ = _) into Hat. unfold at_index in Hat. inv_ok.
  assert (Hnew : relocation_key r ∉ relocation_key <$> done).
  { rewrite fmap_app in Hr. apply NoDup_app in Hr as (_ & Hd & _). intros Hin.
    apply (Hd _ Hin). left. }
  destruct (move_snoc extents done r _ e Hn He Hk Hnew) as [Hsame Hstep].
  rewrite list_lookup_fmap, He in Hat. simpl in Hat. rewrite Hsame in Hat. simplify_eq.
  rewrite Hstep in H.
  assert (Happ : done ++ r :: rest = (done ++ [r]) ++ rest) by (by rewrite <- app_assoc).
  rewrite Happ in Hr. apply IH in H as (-> & Hall & Hconf); [|done].
  rewrite sum_by_cons, <- app_assoc. split_and!; [f_equal; lia | | by constructor].
  constructor; [|done].
  rename select ((if _ || _ then _ else _) = Ok _) into Hgeo.
  case_match eqn:Hlen; [discriminate |]. unfold map_layout_err in Hgeo. inv_ok. bool_props.
  rename select (overlaps _ _ = _) into Hov. apply overlaps_Ok in Hov. subst.
  split_and!; [lia | done | by apply overlapb_false |].
  eexists. split_and!; [by eapply list_elem_of_lookup_2 | done | done].
Qed.

(** ** Materializations: extents *)
Lemma add_destinations_Ok stream l n total :
  try_fold (add_destination stream) n l = Ok total ->
  total = n + sum_by br_length l /\ Forall (fun d => 0 < br_length d) l.
Proof.
  revert n. induction l as [|d l IH]; intros n H; cbn [try_fold] in H.
  { inv_ok. split; [|done]. by rewrite N.add_0_r. }
  apply bind_Ok in H as (a & Hok & H). unfold add_destination, map_layout_err in Hok. inv_ok.
  bool_props. apply IH in H as (-> & Hall). rewrite sum_by_cons.
  split; [lia | constructor; [lia | done]].
Qed.

Lemma push_destinations_Ok stream l off extents st :
  try_fold (push_destination stream) (off, extents) l = Ok st ->
  st.2 = extents ++ spans stream off l.
Proof.
  revert off extents. induction l as [|d l IH]; intros off extents H; cbn [try_fold] in H.
  { inv_ok. by rewrite app_nil_r. }
  apply bind_Ok in H as (a & Hok & H). unfold push_destination in Hok. inv_ok.
  apply IH in H as ->. by rewrite <- app_assoc.
Qed.

Lemma spans_stream stream off l e :
  e ∈ spans stream off l -> ex_stream e = stream /\ ex_kind e = FileData.
Proof.
  revert off. induction l as [|d l IH]; intros off; simpl; [by intros ?%not_elem_of_nil |].
  intros [->|?]%elem_of_cons; [done | by eapply IH].
Qed.

Lemma replaced_snoc l m e :
  replaced (l ++ [m]) e <->
  replaced l e \/ (ex_stream e = mz_stream m /\ ex_kind e = FileData).
Proof.
  unfold replaced. rewrite existsb_app. simpl. rewrite orb_false_r.
  destruct (bool_decide (ex_kind e = FileData)) eqn:Hk; bool_props; simpl.
  - destruct (existsb _ l); simpl; [naive_solver |]. destruct (N.eqb_spec (mz_stream m) (ex_stream e));
      simpl; naive_solver.
  - naive_solver.
Qed.

Lemma list_filter_all {A} (P : A -> Prop) `{!forall x, Decision (P x)} (l : list A) :
  (forall x, x ∈ l -> P x) -> filter P l = l.
Proof.
  induction l as [|x l IH]; intros Hl; [done |]. rewrite filter_cons_True by (apply Hl; left).
  f_equal. apply IH. intros y Hy. apply Hl. by right.
Qed.

Lemma list_elem_of_concat {A} (x : A) (ls : list (list A)) :
  x ∈ concat ls <-> exists l, l ∈ ls /\ x ∈ l.
Proof.
  rewrite list_elem_of_In, in_concat. setoid_rewrite list_elem_of_In. naive_solver.
Qed.

Lemma filter_materialized m done :
  mz_stream m ∉ mz_stream <$> done ->
  filter (fun e => ~ (ex_stream e = mz_stream m /\ ex_kind e = FileData))
    (concat (materialized_extents <$> done)) = concat (materialized_extents <$> done).
Proof.
  intros Hm. apply list_filter_all. intros e He [Hs _]. apply Hm.
  apply list_elem_of_concat in He as (l & (m' & -> & Hm')%list_elem_of_fmap & He).
  apply spans_stream in He as [He _]. rewrite <- Hs, He. by apply list_elem_of_fmap_2.
Qed.

Lemma extents_snoc done m l :
  mz_stream m ∉ mz_stream <$> done ->
  filter (fun e => ~ (ex_stream e = mz_stream m /\ ex_kind e = FileData))
    (filter (fun e => ~ replaced done e) l ++ concat (materialized_extents <$> done))
    ++ materialized_extents m =
  filter (fun e => ~ replaced (done ++ [m]) e) l
    ++ concat (materialized_extents <$> (done ++ [m])).
Proof.
  intros Hm. rewrite filter_app, filter_materialized by done.
  rewrite fmap_app, concat_app. simpl. rewrite app_nil_r, app_assoc. f_equal. f_equal.
  rewrite list_filter_filter. apply list_filter_iff. intros e. rewrite replaced_snoc. tauto.
Qed.

(** ** Materializations: objects *)
Definition update_at (stream : StreamId) (h : ObjectStream -> ObjectStream) (s : ObjectStream)
    : ObjectStream := if st_id s =? stream then h s else s.

Lemma has_stream_spec stream o : has_stream stream o <-> stream ∈ st_id <$> ob_streams o.
Proof.
  unfold has_stream. rewrite Is_true_true, existsb_exists, list_elem_of_fmap. split.
  - intros (s & Hs%list_elem_of_In & He%N.eqb_eq). by exists s.
  - intros (s & -> & Hs%list_elem_of_In). exists s. split; [done | apply N.eqb_refl].
Qed.

Lemma update_at_other stream h (l : list ObjectStream) :
  stream ∉ st_id <$> l -> update_at stream h <$> l = l.
Proof.
  intros Hn. induction l as [|s l IH]; [done |]. rewrite fmap_cons in *.
  apply not_elem_of_cons in Hn as [Hs Hl]. rewrite IH by done. f_equal.
  unfold update_at. by destruct (N.eqb_spec (st_id s) stream).
Qed.

Lemma update_stream_Ok stream f h (l l' : list ObjectStream) :
  (forall s s', f s = Ok s' -> s' = h s) ->
  NoDup (st_id <$> l) -> update_stream stream f l = Ok l' ->
  l' = update_at stream h <$> l /\
  (stream ∈ st_id <$> l -> exists s s', s ∈ l /\ st_id s = stream /\ f s = Ok s').
Proof.
  intros Hf. revert l'. induction l as [|s l IH]; intros l' Hn H; simpl in H.
  { inv_ok. split; [done | by intros ?%not_elem_of_nil]. }
  rewrite fmap_cons in Hn. apply NoDup_cons in Hn as [Hs Hn].
  destruct (N.eqb_spec (st_id s) stream) as [<-|Hne]; inv_ok.
  - rewrite fmap_cons, update_at_other by done. split.
    + f_equal. unfold update_at. rewrite N.eqb_refl. by apply Hf.
    + intros _. exists s. eexists. split_and!; [left | done | done].
  - destruct (IH _ Hn Hok) as [-> IHex]. split.
    + rewrite fmap_cons. f_equal. unfold update_at. by destruct (N.eqb_spec (st_id s) stream).
    + rewrite fmap_cons. intros [?|Hin]%elem_of_cons; [done |].
      destruct (IHex Hin) as (x & x' & Hx & Hid & Hfx). exists x, x'.
      split_and!; [by right | done | done].
Qed.

Lemma map_streams_other stream h o :
  stream ∉ st_id <$> ob_streams o -> map_streams (update_at stream h) o = o.
Proof. intros Hn. destruct o. unfold map_streams. simpl in *. by rewrite update_at_other. Qed.

Lemma all_streams_cons o l : all_streams (o :: l) = ob_streams o ++ all_streams l.
Proof. done. Qed.

Lemma map_streams_others stream h (l : list ObjectRecord) :
  stream ∉ st_id <$> all_streams l -> map_streams (update_at stream h) <$> l = l.
Proof.
  induction l as [|o l IH]; [done |]. rewrite all_streams_cons, fmap_app, not_elem_of_app.
  intros [Ho Hl]. rewrite fmap_cons. f_equal; [by apply map_streams_other | by apply IH].
Qed.

Lemma update_file_stream_Ok stream f h l l' :
  (forall s s', f s = Ok s' -> s' = h s) ->
  NoDup (st_id <$> all_streams l) -> update_file_stream stream f l = Ok l' ->
  l' = map_streams (update_at stream h) <$> l /\
  exists o s s', o ∈ l /\ ob_kind o = File /\ s ∈ ob_streams o /\ st_id s = stream /\ f s = Ok s'.
Proof.
  intros Hf. revert l'. induction l as [|o l IH]; intros l' Hn H; simpl in H; [discriminate |].
  rewrite all_streams_cons, fmap_app in Hn. apply NoDup_app in Hn as (Hno & Hd & Hnl).
  destruct (has_stream stream o) eqn:Hs.
  - apply Is_true_true, has_stream_spec in Hs.
    destruct (bool_decide (ob_kind o = File)) eqn:Hk; simpl in H; [|inv_ok; discriminate].
    bool_props. inv_ok. apply (update_stream_Ok _ _ h) in Hok as [-> Hex]; [|done|done].
    rewrite fmap_cons, map_streams_others by (intros Hin; by apply (Hd stream)).
    split; [done |]. destruct (Hex Hs) as (s & s' & Hin & Hid & Hfs). exists o, s, s'.
    split_and!; [left | done | done | done | done].
  - assert (Hno' : stream ∉ st_id <$> ob_streams o)
      by (rewrite <- has_stream_spec, Hs; by intros []).
    assert (Hrec : exists rest, update_file_stream stream f l = Ok rest /\ l' = o :: rest)
      by (destruct (bool_decide (ob_kind o = File)); simpl in H; inv_ok; naive_solver).
    destruct Hrec as (rest & Hrest & ->). destruct (IH _ Hnl Hrest) as [-> Hex].
    rewrite fmap_cons, map_streams_other by done. split; [done |].
    destruct Hex as (o' & s & s' & Ho & ?). exists o', s, s'. split; [by right | done].
Qed.

(** ** The invariant of the materialization loop *)
Lemma st_id_materialize l s : st_id (materialize l s) = st_id s.
Proof. unfold materialize. by destruct (find _ l). Qed.

Lemma find_app {A} (p : A -> bool) l1 l2 :
  find p (l1 ++ l2) = match find p l1 with Some x => Some x | None => find p l2 end.
Proof. induction l1 as [|x l1 IH]; simpl; [done |]. by destruct (p x). Qed.

Lemma materialize_snoc done m s :
  mz_stream m ∉ mz_stream <$> done ->
  update_at (mz_stream m) (materialized m) (materialize done s) = materialize (done ++ [m]) s.
Proof.
  intros Hm. unfold update_at. rewrite st_id_materialize. unfold materialize. rewrite find_app.
  destruct (N.eqb_spec (st_id s) (mz_stream m)) as [He|Hne].
  - replace (find (fun m0 => mz_stream m0 =? st_id s) done) with (@None Materialization).
    + simpl. by rewrite He, N.eqb_refl.
    + symmetry. apply eq_None_not_Some. intros [x Hx]. apply find_some in Hx as [Hx Hid%N.eqb_eq].
      apply list_elem_of_In in Hx. apply Hm. rewrite <- He, <- Hid. by apply list_elem_of_fmap_2.
  - destruct (find _ done); [done |]. simpl. destruct (N.eqb_spec (mz_stream m) (st_id s)); [|done].
    congruence.
Qed.

Lemma map_streams_snoc done m (objects : list ObjectRecord) :
  mz_stream m ∉ mz_stream <$> done ->
  map_streams (update_at (mz_stream m) (materialized m)) <$>
    (map_streams (materialize done) <$> objects) =
  map_streams (materialize (done ++ [m])) <$> objects.
Proof.
  intros Hm. rewrite <- list_fmap_compose. apply list_fmap_ext. intros _ o _.
  unfold map_streams. simpl. f_equal. rewrite <- list_fmap_compose. apply list_fmap_ext.
  intros _ s _. simpl. by apply materialize_snoc.
Qed.

Lemma all_streams_map f (objects : list ObjectRecord) : all_streams (map_streams f <$> objects) = f <$> all_streams objects.
Proof.
  induction objects as [|o objects IH]; [done |].
  by rewrite fmap_cons, !all_streams_cons, fmap_app, IH.
Qed.

Lemma st_id_map l objects :
  st_id <$> all_streams (map_streams (materialize l) <$> objects) = st_id <$> all_streams objects.
Proof.
  rewrite all_streams_map, <- list_fmap_compose. apply list_fmap_ext. intros _ s _.
  apply st_id_materialize.
Qed.

Definition after_materializations (done : list Materialization) (objects : list ObjectRecord)
    (extents : list Extent) (bytes : N) : N * list ObjectRecord * list Extent :=
  (bytes, map_streams (materialize done) <$> objects,
   filter (fun e => ~ replaced done e) extents ++ concat (materialized_extents <$> done)).

Lemma apply_materialization_step g plan done m extents bytes st :
  let objects := og_objects g in
  NoDup (st_id <$> all_streams objects) -> mz_stream m ∉ mz_stream <$> done ->
  apply_materialization plan (after_materializations done objects extents bytes) m = Ok st ->
  st = after_materializations (done ++ [m]) objects extents (bytes + materialized_size m) /\
  materialization_ok g m.
Proof.
  intros objects Hn Hm H. unfold apply_materialization, after_materializations in H. inv_ok.
  rename select (try_fold (add_destination _) _ _ = _) into Hadd.
  apply add_destinations_Ok in Hadd as [-> Hpos]. rewrite N.add_0_l in *.
  change (sum_by br_length (mz_destinations m)) with (materialized_size m) in *.
  rename select (try_fold (push_destination _) _ _ = _) into Hpush.
  apply push_destinations_Ok in Hpush. rewrite Hpush.
  rename select (update_file_stream _ _ _ = _) into Hupd.
  apply (update_file_stream_Ok _ _ (materialized m)) in Hupd as [-> Hex].
  - split.
    + unfold after_materializations. rewrite map_streams_snoc, <- extents_snoc by done.
      done.
    + destruct Hex as (o & s & s' & Ho & Hk & Hs & Hid & Hf). unfold materialize_stream in Hf.
      inv_ok. bool_props.
      apply list_elem_of_fmap in Ho as (o0 & -> & Ho). simpl in *.
      apply list_elem_of_fmap in Hs as (s0 & -> & Hs). rewrite st_id_materialize in Hid.
      assert (Hlog : st_logical_bytes (materialize done s0) = st_logical_bytes s0)
        by (unfold materialize; by destruct (find _ done)).
      rewrite Hlog in *. split; [by destruct (mz_destinations m) |]. split; [done |].
      exists o0, s0. split_and!; try done; lia.
  - intros s s' Hf. unfold materialize_stream in Hf. by inv_ok.
  - by rewrite st_id_map.
Qed.

Lemma apply_materializations_spec g plan rest done extents bytes st :
  let objects := og_objects g in
  NoDup (st_id <$> all_streams objects) -> NoDup (mz_stream <$> (done ++ rest)) ->
  try_fold (apply_materialization plan) (after_materializations done objects extents bytes) rest
    = Ok st ->
  st = after_materializations (done ++ rest) objects extents
         (bytes + sum_by materialized_size rest) /\
  Forall (materialization_ok g) rest.
Proof.
  intros objects Hn. revert done bytes.
  induction rest as [|m rest IH]; intros done bytes Hr H; cbn [try_fold] in H.
  { inv_ok. rewrite app_nil_r, N.add_0_r. by split. }
  apply bind_Ok in H as (a & Hok & H).
  assert (Hm : mz_stream m ∉ mz_stream <$> done).
  { rewrite fmap_app in Hr. apply NoDup_app in Hr as (_ & Hd & _). intros Hin.
    apply (Hd _ Hin). left. }
  apply apply_materialization_step in Hok as [-> Hmz]; [|done|done].
  assert (Happ : done ++ m :: rest = (done ++ [m]) ++ rest) by (by rewrite <- app_assoc).
  rewrite Happ in Hr. apply IH in H as [-> Hall]; [|done].
  rewrite sum_by_cons, <- app_assoc. split; [f_equal; lia | by constructor].
Qed.

Lemma fmap_singleton_NoDup {A} (f : A -> N) (l : list A) :
  NoDup ((fun x => [f x]) <$> l) -> NoDup (f <$> l).
Proof.
  intros H. apply (NoDup_fmap_1 (fun n : N => [n])). by rewrite <- list_fmap_compose.
Qed.

Lemma apply_materializations_Ok g plan extents r :
  NoDup (st_id <$> all_streams (og_objects g)) ->
  apply_materializations (og_objects g) extents plan = Ok r ->
  r = (layout_objects plan (og_objects g),
       filter (fun e => ~ replaced (lp_materializations plan) e) extents
         ++ concat (materialized_extents <$> lp_materializations plan)) /\
  NoDup (mz_stream <$> lp_materializations plan) /\
  Forall (materialization_ok g) (lp_materializations plan) /\
  sum_by materialized_size (lp_materializations plan) = lp_materialized_bytes plan.
Proof.
  intros Hn H. unfold apply_materializations in H.
  destruct (find_duplicate _) eqn:Hd; [discriminate |].
  apply find_duplicate_None, fmap_singleton_NoDup in Hd.
  apply bind_Ok in H as ([[bytes objects] exts] & Hok & H).
  assert (Hinit : (0, og_objects g, extents) =
    after_materializations [] (og_objects g) extents 0).
  { unfold after_materializations. rewrite app_nil_r, list_filter_all
      by (intros e _; unfold replaced; simpl; rewrite andb_false_r; by intros []).
    f_equal. f_equal. rewrite <- (list_fmap_id (og_objects g)) at 1. apply list_fmap_ext.
    intros _ o _. destruct o. unfold map_streams. simpl. f_equal. symmetry. apply list_fmap_id. }
  rewrite Hinit in Hok. apply apply_materializations_spec in Hok as [Heq Hall]; [|done|done].
  unfold after_materializations in Heq. simpl in Heq. simplify_eq. inv_ok. bool_props.
  split_and!; [done | done | done | by rewrite N.add_0_l in *].
Qed.

(** ** The rebuilt graph *)
Lemma sum_usize_safe l : sum_by id l <= u64_max -> sum_usize l <> Panic.
Proof.
  unfold sum_usize. intros Hl.
  assert (Hgen : forall n, n + sum_by id l <= u64_max ->
    @try_fold RelocatedGraphError _ _ (fun sum n => add_u64 sum n) n l <> Panic); [|by apply Hgen].
  clear Hl. induction l as [|x l IH]; intros n Hn; [done |]. rewrite sum_by_cons in Hn.
  unfold id at 1 in Hn. cbn [try_fold]. apply bind_safe; [apply add_u64_safe; lia |].
  intros a Ha. apply add_u64_Ok in Ha as [-> _]. apply IH. lia.
Qed.

Lemma len_all_streams objects :
  sum_by id ((fun o => len (ob_streams o)) <$> objects) = len (all_streams objects).
Proof.
  induction objects as [|o objects IH]; [done |].
  rewrite all_streams_cons, fmap_cons, sum_by_cons, IH. unfold len, id. rewrite length_app. lia.
Qed.

Lemma rebuild_Ok source objects extents g :
  eg_volume_bytes (og_extents source) <= u64_max ->
  rebuild_relocated_graph_with_objects source objects extents = Ok g ->
  (exists maximum, admissible (eg_volume_bytes (og_extents source)) maximum extents) /\
  eg_extents (og_extents g) ≡ₚ extents /\
  eg_volume_bytes (og_extents g) = eg_volume_bytes (og_extents source) /\
  (exists limits,
    graph_ok (og_root source) objects (og_entries source) (og_extents g) limits) /\
  og_root g = og_root source /\ og_objects g = objects /\ og_entries g = og_entries source.
Proof.
  intros Hv H. unfold rebuild_relocated_graph_with_objects in H. inv_ok.
  rename select (ExtentGraph_build _ _ _ = _) into Hb.
  apply extent_build_iff in Hb as (Hadm & -> & _); [|done].
  rename select (ObjectGraph_build _ _ _ _ _ = _) into Hg.
  apply build_graph_ok in Hg as [Hg ->]. simpl.
  split_and!; try done.
  - by eexists.
  - apply sort_by_lex_key_perm.
  - by eexists.
Qed.

(** * The claims *)

(** What a relocated graph promises: every relocation names one file-data extent
    of the source by its exact key, every materialization one non-empty stream of
    a file with room for its bytes, no stream is both, and the target is the
    source with exactly those placements. *)
Record relocated_graph (source : ObjectGraph) (plan : LayoutPlan) (target : ObjectGraph)
    : Prop := mk_relocated_graph {
  rg_relocations : Forall (relocation_ok source) (lp_relocations plan);
  rg_keys : NoDup (relocation_key <$> lp_relocations plan);
  rg_materializations : Forall (materialization_ok source) (lp_materializations plan);
  rg_streams : NoDup (mz_stream <$> lp_materializations plan);
  rg_exclusive : Forall (fun r => rl_stream r ∉ mz_stream <$> lp_materializations plan)
    (lp_relocations plan);
  rg_relocated_bytes :
    sum_by (fun r => br_length (rl_source r)) (lp_relocations plan) = lp_relocated_bytes plan;
  rg_materialized_bytes :
    sum_by materialized_size (lp_materializations plan) = lp_materialized_bytes plan;
  rg_extents : eg_extents (og_extents target) ≡ₚ
    layout_extents plan (eg_extents (og_extents source));
  rg_objects : og_objects target = layout_objects plan (og_objects source);
  rg_namespace : og_root target = og_root source /\ og_entries target = og_entries source;
  rg_volume : eg_volume_bytes (og_extents target) = eg_volume_bytes (og_extents source);
  rg_admissible : exists maximum, admissible (eg_volume_bytes (og_extents source)) maximum
    (layout_extents plan (eg_extents (og_extents source)));
  rg_graph_ok : exists limits, graph_ok (og_root source) (og_objects target)
    (og_entries source) (og_extents target) limits
}.

Lemma relocate_ok source plan target :
  source_ok source -> eg_volume_bytes (og_extents source) <= u64_max ->
  relocate_object_graph source plan = Ok target -> relocated_graph source plan target.
Proof.
  intros [Hk Hs] Hv H. unfold relocate_object_graph in H.
  destruct (find_duplicate _) eqn:Hd; [discriminate |]. apply find_duplicate_None in Hd.
  apply bind_Ok in H as ([bytes extents] & Hok & H).
  assert (Hinit : eg_extents (og_extents source) = move_extent [] <$> eg_extents (og_extents source)).
  { rewrite <- list_fmap_id at 1. by apply list_fmap_ext. }
  rewrite Hinit in Hok at 2.
  apply (apply_relocations_spec source) in Hok as (Heq & Hall & Hconf); [|done|done].
  simplify_eq. inv_ok. bool_props. rename select (apply_materializations _ _ _ = _) into Hm.
  apply apply_materializations_Ok in Hm as (-> & Hms & Hmz & Hsum); [|done].
  simpl in H. apply rebuild_Ok in H as (Ha & Hp & Hvol & Hg & Hroot & Hobj & Hent); [|done].
  rewrite N.add_0_l in *. rewrite <- Hobj in Hg. split; try done.
  eapply Forall_impl; [exact Hconf |]. intros r Hr Hin.
  apply list_elem_of_fmap in Hin as (m & Hrm & Hm). simpl in Hr.
  assert (Hex : existsb (fun m => mz_stream m =? rl_stream r) (lp_materializations plan) = true).
  { apply existsb_exists. exists m. split; [by apply list_elem_of_In | by rewrite Hrm, N.eqb_refl]. }
  congruence.
Qed.

Lemma source_ok_built root objects entries l v maximum extents limits g :
  v <= u64_max -> ExtentGraph_build l v maximum = Ok extents ->
  ObjectGraph_build root objects entries extents limits = Ok g ->
  source_ok g /\ eg_volume_bytes (og_extents g) = v /\
  og_objects g = objects /\ og_extents g = extents.
Proof.
  intros Hv He Hg. apply build_graph_ok in Hg as [Hg ->]. simpl.
  apply extent_build_iff in He as (Ha & -> & _); [|done]. simpl. split_and!; try done.
  split; simpl; [|apply Hg].
  rewrite (sort_by_lex_key_perm (fun e => logical_key e ++ placement_sort_key (ex_placement e)) l).
  by eapply admissible_keys.
Qed.

(** C7: Applying a layout to a graph the builders made: on success the target has
    the same objects, link structure and namespace, relocated extents sit at
    their destinations, materialized streams own exactly the planned spans, and
    nothing else has moved; the result satisfies the extent and object invariants
    again, and the byte counts the layout declares are the actual ones. *)
Theorem relocate_object_graph_sound root objects entries l v maximum extents limits source plan target :
  v <= u64_max -> ExtentGraph_build l v maximum = Ok extents ->
  ObjectGraph_build root objects entries extents limits = Ok source ->
  relocate_object_graph source plan = Ok target ->
  relocated_graph source plan target.
Proof.
  intros Hv He Hg H. destruct (source_ok_built _ _ _ _ _ _ _ _ _ Hv He Hg) as (Hs & Hvol & _ & _).
  apply relocate_ok; [done | by rewrite Hvol | done].
Qed.

(** ** No aborts *)
Lemma apply_relocation_safe plan extents state r :
  length state.2 = length extents ->
  apply_relocation plan (physical_extent_index extents) state r <> Panic /\
  forall state', apply_relocation plan (physical_extent_index extents) state r = Ok state' ->
    length state'.2 = length extents.
Proof.
  destruct state as [bytes current]. simpl. intros Hlen. unfold apply_relocation. split.
  - safe.
    + unfold map_layout_err. apply map_err_safe, overlaps_safe.
    + rename select (ok_or _ (binary_search _ _) = _) into Hb. apply ok_or_Ok in Hb.
      apply binary_search_Some in Hb as (e & He & _). apply lookup_lt_Some in He.
      destruct (lookup_lt_is_Some_2 current (N.to_nat a2)) as [x Hx]; [lia |].
      unfold at_index. by rewrite Hx.
  - intros state' H. inv_ok. simpl. by rewrite length_insert.
Qed.

Lemma apply_relocations_safe plan extents l state :
  length state.2 = length extents ->
  try_fold (apply_relocation plan (physical_extent_index extents)) state l <> Panic.
Proof.
  revert state. induction l as [|r l IH]; intros state Hlen; [done |]. cbn [try_fold].
  destruct (apply_relocation_safe plan extents state r Hlen) as [Hsafe Hnext].
  apply bind_safe; [done |]. intros a Ha. apply IH. by apply Hnext.
Qed.

Lemma update_stream_safe stream f l :
  (forall s, f s <> Panic) -> update_stream stream f l <> Panic.
Proof.
  intros Hf. induction l as [|s l IH]; simpl; [done |]. case_match; by safe.
Qed.
Lemma update_file_stream_safe stream f l :
  (forall s, f s <> Panic) -> update_file_stream stream f l <> Panic.
Proof.
  intros Hf. induction l as [|o l IH]; simpl; [done |]. repeat case_match; safe; try done.
  by apply update_stream_safe.
Qed.

Lemma update_stream_length stream f l l' :
  update_stream stream f l = Ok l' -> length l' = length l.
Proof.
  revert l'. induction l as [|s l IH]; intros l' H; simpl in H; [by inv_ok |].
  case_match; inv_ok; simpl; [done | by rewrite (IH a)].
Qed.
Lemma update_file_stream_count stream f l l' :
  update_file_stream stream f l = Ok l' -> len (all_streams l') = len (all_streams l).
Proof.
  assert (Hcons : forall (o : ObjectRecord) l, len (all_streams (o :: l)) =
    len (ob_streams o) + len (all_streams l)).
  { intros o l0. rewrite all_streams_cons. unfold len. rewrite length_app. lia. }
  revert l'. induction l as [|o l IH]; intros l' H; simpl in H; [discriminate |].
  repeat case_match; inv_ok; rewrite !Hcons; simpl.
  all: try (rename select (update_file_stream _ _ _ = _) into Hr; by rewrite (IH _ Hr)).
  rename select (update_stream _ _ _ = _) into Hr. apply update_stream_length in Hr.
  unfold len. by rewrite Hr.
Qed.

Lemma apply_materialization_safe plan state m : apply_materialization plan state m <> Panic.
Proof.
  destruct state as [[bytes objects] extents]. unfold apply_materialization. safe.
  - unfold add_destination, map_layout_err. safe. apply ByteRange_end_safe.
  - apply update_file_stream_safe. intros s. unfold materialize_stream. safe.
  - destruct s. unfold push_destination. safe.
Qed.

Lemma apply_materialization_count plan state m state' :
  apply_materialization plan state m = Ok state' ->
  len (all_streams state'.1.2) = len (all_streams state.1.2).
Proof.
  destruct state as [[bytes objects] extents]. unfold apply_materialization. intros H. inv_ok.
  simpl. by eapply update_file_stream_count.
Qed.

Lemma apply_materializations_count objects extents plan r :
  apply_materializations objects extents plan = Ok r ->
  len (all_streams r.1) = len (all_streams objects).
Proof.
  unfold apply_materializations. destruct (find_duplicate _); [discriminate |]. intros H.
  apply bind_Ok in H as ([[bytes os] es] & Hok & H). inv_ok. simpl.
  assert (Hc : len (all_streams (bytes, os, es).1.2) = len (all_streams (0, objects, extents).1.2));
    [|exact Hc].
  eapply (try_fold_invariant (fun st : N * list ObjectRecord * list Extent =>
    len (all_streams st.1.2) = len (all_streams (0, objects, extents).1.2))); [done | |exact Hok].
  intros st m st' _ <- Hst. by eapply apply_materialization_count.
Qed.

Lemma apply_materializations_safe objects extents plan :
  apply_materializations objects extents plan <> Panic.
Proof.
  unfold apply_materializations. case_match; [done |]. apply bind_safe.
  - apply try_fold_safe. intros. apply apply_materialization_safe.
  - intros [[bytes os] es] _. safe.
Qed.

(** Applying a layout never aborts, for any graph and any layout: every index
    comes from the extent index, and the stream count is a count of vectors that
    fit in memory. *)
Lemma relocate_safe source plan :
  len (all_streams (og_objects source)) <= usize_max ->
  relocate_object_graph source plan <> Panic.
Proof.
  intros Hlen. unfold relocate_object_graph. case_match; [done |].
  apply bind_safe; [by apply apply_relocations_safe |]. intros [bytes extents] _.
  apply bind_safe; [apply refuse_if_safe |]. intros _ _.
  apply bind_safe; [apply apply_materializations_safe |]. intros r Hr.
  apply apply_materializations_count in Hr. unfold rebuild_relocated_graph_with_objects.
  apply bind_safe; [apply map_err_safe, extent_build_safe |]. intros ex _.
  apply bind_safe; [|intros n _; apply map_err_safe, build_graph_safe].
  apply sum_usize_safe. rewrite len_all_streams, Hr. done.
Qed.

(** ** The extent limit of the rebuilt graph

    One file of four clusters that must be materialized, on a volume whose free
    space is four separate clusters. *)
Definition fragmented_objects : list ObjectRecord :=
  [mkObjectRecord 5 Directory 0 plain [];
   mkObjectRecord 6 File 1 plain
     [mkObjectStream 3 None 4096 100 4096 4096 (mkStreamFlags false false false 0) Extents]].
Definition fragmented_extents : list Extent := [mkExtent 3 0 4096 (Physical 0) FileData].
Definition fragmented_graph : ObjectGraph :=
  mkObjectGraph 5 fragmented_objects [mkNamespaceEntry 5 6 [97]]
    (mkExtentGraph 12288 fragmented_extents 4096 0) [].
Definition fragmented_input : LayoutInput :=
  mkLayoutInput 12288 1024 1024 1024 (mkByteRange 0 12288) true
    [] []
    [mkByteRange 0 4096; mkByteRange 5120 1024; mkByteRange 7168 1024; mkByteRange 9216 1024]
    [mkMaterializationRequest 3 4096] LayoutLimits_default.
Definition fragmented_layout : LayoutPlan :=
  mkLayoutPlan [] [mkMaterialization 3
    [mkByteRange 4096 1024; mkByteRange 6144 1024; mkByteRange 8192 1024; mkByteRange 10240 1024]]
    [mkByteRange 11264 1024] 0 4096 1024.

(** The solver splits a materialized stream over as many free ranges as it
    needs, but the rebuilt graph may only hold as many extents as the source had,
    plus one per object.  A valid graph and the very layout that the solver
    returned for it, with the length that [materialization_length_for_stream]
    asked for, are refused for lack of extents. *)
Theorem fragmented_materialization_refused :
  ObjectGraph_build 5 fragmented_objects [mkNamespaceEntry 5 6 [97]]
    (mkExtentGraph 12288 fragmented_extents 4096 0) (mkObjectGraphLimits 8 8 8 8)
    = Ok fragmented_graph /\
  materialization_length_for_stream fragmented_graph 3 1024 = Ok (Some 4096) /\
  solve_layout_with_domain_and_alignments_inner fragmented_input = Ok fragmented_layout /\
  admissible 12288 4 (layout_extents fragmented_layout fragmented_extents) /\
  relocate_object_graph fragmented_graph fragmented_layout =
    Err (RelocatedExtents (TooManyExtents 4 3)).
Proof.
  assert (Hb : exists g, ExtentGraph_build (layout_extents fragmented_layout fragmented_extents)
    12288 4 = Ok g) by (eexists; by vm_compute).
  destruct Hb as [g Hb]. apply extent_build_iff in Hb as [Ha _]; [|by vm_compute].
  split; [by vm_compute |]. split; [by vm_compute |]. split; [by vm_compute |].
  split; [exact Ha | by vm_compute].
Qed.

(** ** Witnesses *)
Section Witnesses.
Definition moved_graph_layout : LayoutPlan :=
  mkLayoutPlan [mkRelocation 7 0 (mkByteRange 1024 512) (mkByteRange 2048 512)] [] [] 512 0 0.
Definition moved_graph : ObjectGraph :=
  mkObjectGraph 5 sample_objects sample_entries
    (mkExtentGraph 4096
      [mkExtent 7 0 512 (Physical 2048) FileData; mkExtent 7 512 512 Sparse FileData] 512 512)
    [HardLinks; SparseFiles].

(** Witness. *)
Lemma relocate_object_graph_sound_witness :
  relocate_object_graph sample_graph moved_graph_layout = Ok moved_graph /\
  relocated_graph sample_graph moved_graph_layout moved_graph.
Proof.
  assert (H : relocate_object_graph sample_graph moved_graph_layout = Ok moved_graph)
    by (by vm_compute).
  split; [exact H |].
  apply (relocate_object_graph_sound 5 sample_objects sample_entries
    (eg_extents Object.sample_extents) 4096 16 Object.sample_extents sample_graph_limits);
    [by vm_compute | by vm_compute | by vm_compute | exact H].
Defined.

(** The allocated and the sparse part of a file become one planned span. *)
Example materialized_graph_built :
  relocate_object_graph sample_graph
    (mkLayoutPlan [] [mkMaterialization 7 [mkByteRange 2048 1024]] [] 0 1024 0) =
  Ok (mkObjectGraph 5
    [mkObjectRecord 5 Directory 0 plain [];
     mkObjectRecord 6 Directory 1 plain [];
     mkObjectRecord 9 File 2 plain
       [mkObjectStream 7 None 700 700 1024 1024 (mkStreamFlags true false false 0) Extents]]
    sample_entries
    (mkExtentGraph 4096 [mkExtent 7 0 1024 (Physical 2048) FileData] 1024 0)
    [HardLinks; SparseFiles]).
Proof. by vm_compute. Qed.
End Witnesses.
