(* ===== verification/Conversion.v ===== *)
(** * The conversion coordinator ([conversion.rs], evidence types of [executor.rs])

    A prepared conversion and the transaction it drives.  The coordinator does no
    I/O: it reads and extends the bytes of a capsule, and hands out intents for
    the executor.  A function that takes [&mut Vec<u8>] returns the capsule it
    leaves behind next to its result, on the error paths too. *)

From S2P Require Import Prelude Digest Image Extent Object Overlay Recovery Geometry Planner Relocate Capsule.
From stdpp Require Import options.
#[local] Open Scope N_scope.

(** ** Data *)
Definition CHECKPOINT_MAGIC : list byte := ascii_bytes "SCORCH1" ++ [x00].

(** The stable identity of a container: token and length. *)
Record ContainerIdentity : Type := mkContainerIdentity {
  ct_instance : list byte;
  ct_image_bytes : N
}.
#[export] Instance ContainerIdentity_eq_dec : EqDecision ContainerIdentity.
Proof. solve_decision. Defined.

Record ManifestCommitment : Type := mkManifestCommitment {
  mc_digest : list byte;
  mc_logical_bytes_hashed : N;
  mc_object_count : N
}.
#[export] Instance ManifestCommitment_eq_dec : EqDecision ManifestCommitment.
Proof. solve_decision. Defined.

Record PreflightEvidence : Type := mkPreflightEvidence {
  pf_image : ContainerIdentity;
  pf_source_filesystem : FileSystem;
  pf_source_evidence_digest : list byte;
  pf_source_manifest_commitment : ManifestCommitment;
  pf_sector_bytes : N;
  pf_allocation_alignment : N;
  pf_inventory_complete : bool;
  pf_allocation_map_complete : bool;
  pf_health : HealthState;
  pf_access : AccessState
}.

Record ObservedImage : Type := mkObservedImage {
  ob_image : ContainerIdentity;
  ob_source_evidence_digest : option (list byte)
}.

Inductive PreservationMethod : Type :=
| Native
| EscrowMethod (schema_version : N) (payload_digest : list byte).
#[export] Instance PreservationMethod_eq_dec : EqDecision PreservationMethod.
Proof. solve_decision. Defined.

Record FeatureCompatibility : Type := mkFeatureCompatibility {
  fc_feature : SemanticFeature;
  fc_method : PreservationMethod
}.

Record ReservedWrite : Type := mkReservedWrite {
  rw_reservation_kind : ReservationKind;
  rw_write : OverlayWrite
}.
#[export] Instance ReservedWrite_eq_dec : EqDecision ReservedWrite.
Proof. solve_decision. Defined.

Record OpaqueWriteSets : Type := mkOpaqueWriteSets {
  ws_target_staging : list ReservedWrite;
  ws_backup_boot : list ReservedWrite;
  ws_activation : list ReservedWrite;
  ws_target_staging_rollback : list OverlayWrite;
  ws_backup_boot_rollback : list OverlayWrite;
  ws_activation_rollback : list OverlayWrite
}.

Record ExpectedVerification : Type := mkExpectedVerification {
  ev_target_filesystem : FileSystem;
  ev_object_graph_digest : list byte;
  ev_plan_digest : list byte
}.

Record ExpectedStagingVerification : Type := mkExpectedStagingVerification {
  es_target_filesystem : FileSystem;
  es_object_graph_digest : list byte;
  es_plan_digest : list byte;
  es_candidate_overlay_digest : list byte
}.

Record StagingVerificationEvidence : Type := mkStagingVerificationEvidence {
  se_target_filesystem : FileSystem;
  se_parser_validated : bool;
  se_inventory_complete : bool;
  se_object_graph_digest : list byte;
  se_plan_digest : list byte;
  se_candidate_overlay_digest : list byte
}.

Record PhaseCompletion : Type := mkPhaseCompletion {
  cp_image : ContainerIdentity;
  cp_plan_digest : list byte;
  cp_health : HealthState;
  cp_access : AccessState
}.

Record VerificationEvidence : Type := mkVerificationEvidence {
  ve_target_filesystem : FileSystem;
  ve_inventory_complete : bool;
  ve_object_graph_digest : list byte;
  ve_plan_digest : list byte
}.

Record RollbackCompletion : Type := mkRollbackCompletion {
  rc_image : ContainerIdentity;
  rc_plan_digest : list byte;
  rc_applied_rollback_digest : option (list byte);
  rc_health : HealthState;
  rc_access : AccessState
}.

(** [TransactionIntent::None] is [NoIntent]. *)
Inductive TransactionIntent : Type :=
| Reserve (reservations : list DestinationReservation)
| Relocate (relocations : list Relocation)
| StageTarget (writes : list ReservedWrite)
| WriteBackupBoot (writes : list ReservedWrite)
| VerifyStaging (expected : ExpectedStagingVerification)
| Activate (writes : list ReservedWrite)
| Verify (expected : ExpectedVerification)
| Finalize
| NoIntent.

Inductive RollbackIntent : Type :=
| DiscardStaging
| RestoreSource (writes : list OverlayWrite) (digest : list byte).

Record ResumePoint : Type := mkResumePoint {
  rp_generation : N;
  rp_phase : TransactionPhase;
  rp_next : TransactionIntent
}.

Record PreparedConversion : Type := mkPreparedConversion {
  pc_identity : CapsuleIdentity;
  pc_preflight : PreflightEvidence;
  pc_target_filesystem : FileSystem;
  pc_target_features : list FeatureCompatibility;
  pc_source_graph_digest : list byte;
  pc_target_graph_digest : list byte;
  pc_plan_digest : list byte;
  pc_candidate_overlay_digest : list byte;
  pc_relocation_rollback_digest : list byte;
  pc_staging_rollback_digest : list byte;
  pc_preactivation_rollback_digest : list byte;
  pc_full_rollback_digest : list byte;
  pc_reservations : list DestinationReservation;
  pc_layout : LayoutPlan;
  pc_writes : OpaqueWriteSets;
  pc_candidate_overlay : OverlayPlan;
  pc_relocation_rollback_overlay : OverlayPlan;
  pc_staging_rollback_overlay : OverlayPlan;
  pc_preactivation_rollback_overlay : OverlayPlan;
  pc_full_rollback_overlay : OverlayPlan;
  pc_recovery_payload : list byte;
  pc_prepared_envelope : list byte;
  pc_capsule_limits : CapsuleLimits
}.

(** *** Executor evidence *)
Inductive ExecutionKind : Type := Relocation' | TargetStaging | BackupBoot | Activation | Rollback.
#[export] Instance ExecutionKind_eq_dec : EqDecision ExecutionKind.
Proof. solve_decision. Defined.

Record ExecutionEvidence : Type := mkExecutionEvidence {
  ee_kind : ExecutionKind;
  ee_operations : N;
  ee_bytes_written : N;
  ee_verified_digest : list byte;
  ee_sync_data_completed : bool;
  ee_sync_all_completed : bool
}.

Record ExecutedIntent : Type := mkExecutedIntent {
  ei_evidence : ExecutionEvidence;
  ei_plan_digest : list byte;
  ei_image_instance : list byte;
  ei_completed_phase : TransactionPhase
}.

Inductive RollbackOutcome : Type :=
| StagingDiscarded
| SourceRestored (evidence : ExecutionEvidence).

Record ExecutedRollback : Type := mkExecutedRollback {
  er_outcome : RollbackOutcome;
  er_plan_digest : list byte;
  er_image_instance : list byte;
  er_rollback_digest : option (list byte)
}.

(** [into_checkpoint]: whether the source was restored, and the evidence. *)
Definition rollback_into_checkpoint (executed : ExecutedRollback)
    : bool * option ExecutionEvidence :=
  match er_outcome executed with
  | StagingDiscarded => (false, None)
  | SourceRestored evidence => (true, Some evidence)
  end.

(** [ConversionError]; [AllocationFailed] and texts are left out. *)
Inductive ConversionError : Type :=
| InvalidLimit (field : string)
| UnknownFilesystemError
| SameFilesystem
| ActivationAuthorizationMismatch (authorized target : FileSystem)
| ImageLengthMismatch (graph evidence : N)
| InventoryIncomplete
| AllocationMapIncomplete
| HealthNotClean (actual : HealthState)
| AccessNotOffline (actual : AccessState)
| InvalidSectorSize (sector_bytes : N)
| InvalidAlignment (alignment : N)
| FeatureRuleLimitExceeded (actual maximum : N)
| DuplicateFeatureRule (feature : SemanticFeature)
| MissingFeatureRule (feature : SemanticFeature)
| FeatureNotPresent (feature : SemanticFeature)
| UnsupportedNativeFeature (feature : SemanticFeature) (target : FileSystem)
| InvalidEscrowRule (feature : SemanticFeature)
| MissingGraphAllocation (stream : StreamId) (logical_offset : N)
| UnsafeMovableAllocation (stream : StreamId) (logical_offset : N)
| MissingReservation (kind : ReservationKind)
| WriteLimitExceeded (actual maximum : N)
| WriteByteLimitExceeded (actual maximum : N)
| EmptyWriteSet (set : string)
| WriteNotReserved (offset : N) (kind : ReservationKind)
| InvalidWritePhase (set : string) (kind : ReservationKind)
| RollbackRangeMismatch
| RelocationBeforeImageRangeMismatch
| InPlaceMaterializationUnsupported
| TargetGraphMismatch
| CapsuleAlreadyStarted
| CapsuleNotStarted
| LegacyCapsuleRollbackOnly
| EnvelopeRaisesCapsuleLimits
| TransactionIdentityChanged
| ImageIdentityChanged
| StaleSourceEvidence
| PlanChanged
| TerminalPhase (phase : TransactionPhase)
| UnexpectedPhase (expected actual : TransactionPhase)
| VerificationRequired
| StagingVerificationRequired
| UnexpectedStagingVerificationEvidence
| StagingVerificationNotExpected (phase : TransactionPhase)
| StagingVerificationIncomplete
| StagingVerificationMismatch
| UnexpectedVerificationEvidence
| InvalidExecutionEvidence
| VerificationInventoryIncomplete
| VerificationMismatch
| RollbackBoundaryCrossed (phase : TransactionPhase)
| InvalidRollbackEvidence
| ArithmeticOverflow
| LayoutFailure (error : LayoutError)
| RelocatedGraphFailure (error : RelocatedGraphError)
| OverlayFailure (error : OverlayError)
| CapsuleFailure (error : CapsuleError)
| RecoveryFailure (error : RecoveryError)
| PreparedEnvelopeInvalid.

Abbreviation conversion := (outcome ConversionError).

(** ** Phases *)
Definition next_phase (phase : TransactionPhase) : option TransactionPhase :=
  match phase with
  | Discovered => Some Reserved
  | Reserved => Some Relocating
  | Relocating => Some TargetStaged
  | TargetStaged => Some BackupBootWritten
  | BackupBootWritten => Some Activated
  | Activated => Some Verified
  | Verified => Some Finalized
  | Finalized | RolledBack => None
  end.

Definition phase_requires_source_evidence (phase : TransactionPhase) : bool :=
  match phase with
  | Discovered | Reserved | Relocating | TargetStaged | BackupBootWritten => true
  | Activated | Verified | Finalized | RolledBack => false
  end.

Definition require_clean_offline (health : HealthState) (access : AccessState) : conversion unit :=
  refuse_if (negb (bool_decide (health = Clean))) (HealthNotClean health) ;;
  refuse_if (negb (bool_decide (access = Offline))) (AccessNotOffline access).

(** ** Digests

    Every digest is SHA-256 of a canonical byte string. *)
Section Digests.
Context `{Digests}.

Definition put_bytes (bytes : list byte) : list byte := u64_le (len bytes) ++ bytes.
Definition bool_byte (b : bool) : byte := if b then x01 else x00.

Definition feature_key (feature : SemanticFeature) : N :=
  match feature with
  | AccessControl => 0
  | AlternateDataStreams => 1
  | Compression => 2
  | EncryptedFiles => 3
  | HardLinks => 4
  | ReparsePoints => 5
  | SparseFiles => 6
  | CaseCollisions => 7
  end.
Definition reservation_kind_key (kind : ReservationKind) : N :=
  match kind with
  | BootRegion => 0
  | AllocationMetadata => 1
  | NamespaceMetadata => 2
  | Journal => 3
  | CapsuleReservation => 4
  | OtherReservation => 5
  end.
Definition filesystem_key (filesystem : FileSystem) : N :=
  match filesystem with ExFat => 0 | Ntfs => 1 | UnknownFileSystem => 2 end.

Definition commitment_bytes (c : ManifestCommitment) : list byte :=
  mc_digest c ++ u64_le (mc_logical_bytes_hashed c) ++ u64_le (mc_object_count c).

Definition digest_source_identity (evidence : PreflightEvidence) (graph_digest : list byte)
    : list byte :=
  sha256 (ascii_bytes "starconverter-source-v1" ++
    ct_instance (pf_image evidence) ++ u64_le (ct_image_bytes (pf_image evidence)) ++
    pf_source_evidence_digest evidence ++
    commitment_bytes (pf_source_manifest_commitment evidence) ++ graph_digest).

Definition units_bytes (units : list N) : list byte :=
  u64_le (len units) ++ concat (u16_le <$> units).

Definition stream_bytes (stream : ObjectStream) : list byte :=
  u64_le (st_id stream) ++
  match st_name stream with
  | None => [x00]
  | Some name => x01 :: units_bytes name
  end ++
  concat (u64_le <$> [st_logical_bytes stream; st_initialized_bytes stream;
                      st_mapped_bytes stream; st_allocated_bytes stream]) ++
  (bool_byte <$> [sf_sparse (st_flags stream); sf_compressed (st_flags stream);
                  sf_encrypted (st_flags stream)]) ++
  u64_le (sf_compression_block_bytes (st_flags stream)) ++
  match st_storage stream with
  | Resident bytes => x00 :: put_bytes bytes
  | Extents => [x01]
  end.

Definition object_bytes (object : ObjectRecord) : list byte :=
  u64_le (ob_id object) ++
  [match ob_kind object with File => x00 | Directory => x01 end] ++
  u32_le (ob_link_count object) ++
  [bool_byte (os_has_security_descriptor (ob_semantics object));
   bool_byte (os_is_reparse_point (ob_semantics object))] ++
  concat (stream_bytes <$> sort_by_key st_id (ob_streams object)).

Definition entry_bytes (entry : NamespaceEntry) : list byte :=
  u64_le (ne_parent entry) ++ u64_le (ne_target entry) ++ units_bytes (ne_name entry).

Definition extent_kind_byte (kind : ExtentKind) : byte :=
  match kind with
  | FileData => x00
  | DirectoryData => x01
  | FileSystemMetadata => x02
  | Extent.Reserved => x03
  | BadCluster => x04
  end.
Definition extent_bytes (extent : Extent) : list byte :=
  u64_le (ex_stream extent) ++ u64_le (ex_logical_offset extent) ++ u64_le (ex_length extent) ++
  [extent_kind_byte (ex_kind extent)] ++
  match ex_placement extent with
  | Physical byte_offset => x00 :: u64_le byte_offset
  | Sparse => [x01]
  end.

(** Entries are ordered by parent, name and target; a name is compared as a
    slice, so the key ends the name before the target. *)
Definition entry_leb (a b : NamespaceEntry) : bool :=
  (ne_parent a <? ne_parent b) ||
  ((ne_parent a =? ne_parent b) &&
   (negb (lex_leb (ne_name b) (ne_name a)) ||
    (bool_decide (ne_name a = ne_name b) && (ne_target a <=? ne_target b)))).
Definition sort_entries : list NamespaceEntry -> list NamespaceEntry :=
  merge_sort (fun a b => Is_true (entry_leb a b)).

Definition digest_graph (graph : ObjectGraph) : list byte :=
  sha256 (ascii_bytes "starconverter-object-graph-v1" ++ u64_le (og_root graph) ++
    concat (object_bytes <$> sort_by_key ob_id (og_objects graph)) ++
    concat (entry_bytes <$> sort_entries (og_entries graph)) ++
    concat (extent_bytes <$> eg_extents (og_extents graph))).

Definition write_bytes (write : OverlayWrite) : list byte :=
  u64_le (ow_offset write) ++ put_bytes (ow_bytes write).
Definition digest_overlay_writes (writes : list OverlayWrite) : list byte :=
  sha256 (ascii_bytes "starconverter-overlay-writes-v1" ++
    concat (write_bytes <$> sort_by_key ow_offset writes)).

Definition feature_bytes (feature : FeatureCompatibility) : list byte :=
  byte_of_N (feature_key (fc_feature feature)) ::
  match fc_method feature with
  | Native => [x00]
  | EscrowMethod schema_version payload_digest => x01 :: u16_le schema_version ++ payload_digest
  end.
Definition range_bytes (range : ByteRange) : list byte :=
  u64_le (br_offset range) ++ u64_le (br_length range).
Definition reservation_bytes (reservation : DestinationReservation) : list byte :=
  range_bytes (dr_range reservation) ++ [byte_of_N (reservation_kind_key (dr_kind reservation))].
Definition relocation_bytes (relocation : Relocation) : list byte :=
  u64_le (rl_stream relocation) ++ u64_le (rl_logical_offset relocation) ++
  range_bytes (rl_source relocation) ++ range_bytes (rl_destination relocation).
Definition materialization_bytes (materialization : Materialization) : list byte :=
  u64_le (mz_stream materialization) ++
  u64_le (default u64_max (u64_try_from (len (mz_destinations materialization)))) ++
  concat (range_bytes <$> mz_destinations materialization).
Definition reserved_write_bytes (tag : byte) (value : ReservedWrite) : list byte :=
  tag :: byte_of_N (reservation_kind_key (rw_reservation_kind value)) :: write_bytes (rw_write value).

Definition digest_plan (evidence : PreflightEvidence) (target : FileSystem)
    (features : list FeatureCompatibility) (reservations : list DestinationReservation)
    (plan : LayoutPlan) (writes : OpaqueWriteSets)
    (source_graph_digest target_graph_digest : list byte)
    (relocation_destination_before_images : list OverlayWrite) : list byte :=
  sha256 (ascii_bytes "starconverter-plan-v2" ++ source_graph_digest ++ target_graph_digest ++
    (byte_of_N <$> [filesystem_key (pf_source_filesystem evidence); filesystem_key target]) ++
    u64_le (ct_image_bytes (pf_image evidence)) ++ u32_le (pf_sector_bytes evidence) ++
    u64_le (pf_allocation_alignment evidence) ++
    commitment_bytes (pf_source_manifest_commitment evidence) ++
    concat (feature_bytes <$> features) ++
    concat (reservation_bytes <$> reservations) ++
    concat (relocation_bytes <$> lp_relocations plan) ++
    concat (materialization_bytes <$> lp_materializations plan) ++
    concat (reserved_write_bytes x00 <$> ws_target_staging writes) ++
    concat (reserved_write_bytes x01 <$> ws_backup_boot writes) ++
    concat (reserved_write_bytes x02 <$> ws_activation writes) ++
    digest_overlay_writes (ws_target_staging_rollback writes) ++
    digest_overlay_writes (ws_backup_boot_rollback writes) ++
    digest_overlay_writes (ws_activation_rollback writes) ++
    digest_overlay_writes relocation_destination_before_images).
End Digests.

(** ** The coordinator *)
Section Coordinator.
Context `{Digests}.
Implicit Types (p : PreparedConversion) (capsule : list byte).

Definition expected_verification p : ExpectedVerification :=
  mkExpectedVerification (pc_target_filesystem p) (pc_target_graph_digest p) (pc_plan_digest p).
Definition expected_staging_verification p : ExpectedStagingVerification :=
  mkExpectedStagingVerification (pc_target_filesystem p) (pc_target_graph_digest p)
    (pc_plan_digest p) (pc_candidate_overlay_digest p).

Definition intent_after p (phase : TransactionPhase) : TransactionIntent :=
  match phase with
  | Discovered => Reserve (pc_reservations p)
  | Reserved => Relocate (lp_relocations (pc_layout p))
  | Relocating => StageTarget (ws_target_staging (pc_writes p))
  | TargetStaged => VerifyStaging (expected_staging_verification p)
  | BackupBootWritten => Activate (ws_activation (pc_writes p))
  | Activated => Verify (expected_verification p)
  | Verified => Finalize
  | Finalized | RolledBack => NoIntent
  end.

(** The before-images that rebuild the source view at a checkpoint. *)
Definition observation_rollback_writes p (phase : TransactionPhase) : option (list OverlayWrite) :=
  match phase with
  | Discovered | Finalized | RolledBack => None
  | Reserved =>
      if is_empty (lp_relocations (pc_layout p)) then None
      else Some (op_writes (pc_relocation_rollback_overlay p))
  | Relocating => Some (op_writes (pc_staging_rollback_overlay p))
  | TargetStaged => Some (op_writes (pc_preactivation_rollback_overlay p))
  | BackupBootWritten | Activated | Verified => Some (op_writes (pc_full_rollback_overlay p))
  end.

Definition rollback_intent p (phase : TransactionPhase) : conversion RollbackIntent :=
  match phase with
  | Discovered => Ok DiscardStaging
  | Reserved =>
      if is_empty (lp_relocations (pc_layout p)) then Ok DiscardStaging
      else Ok (RestoreSource (op_writes (pc_relocation_rollback_overlay p))
                 (pc_relocation_rollback_digest p))
  | Relocating =>
      Ok (RestoreSource (op_writes (pc_staging_rollback_overlay p)) (pc_staging_rollback_digest p))
  | TargetStaged =>
      Ok (RestoreSource (op_writes (pc_preactivation_rollback_overlay p))
            (pc_preactivation_rollback_digest p))
  | BackupBootWritten | Activated | Verified =>
      Ok (RestoreSource (op_writes (pc_full_rollback_overlay p)) (pc_full_rollback_digest p))
  | Finalized | RolledBack => Err (RollbackBoundaryCrossed phase)
  end.

Definition checkpoint_payload p : list byte := CHECKPOINT_MAGIC ++ pc_plan_digest p.

Definition validate_observed p (observed : ObservedImage) (require_source : bool)
    : conversion unit :=
  refuse_if (negb (bool_decide (ob_image observed = pf_image (pc_preflight p))))
    ImageIdentityChanged ;;
  refuse_if (require_source &&
      negb (bool_decide (ob_source_evidence_digest observed =
                         Some (pf_source_evidence_digest (pc_preflight p)))))
    StaleSourceEvidence.

Definition validate_common_completion p (image : ContainerIdentity) (plan_digest : list byte)
    (health : HealthState) (access : AccessState) : conversion unit :=
  refuse_if (negb (bool_decide (image = pf_image (pc_preflight p)))) ImageIdentityChanged ;;
  refuse_if (negb (bool_decide (plan_digest = pc_plan_digest p))) PlanChanged ;;
  require_clean_offline health access.
Definition validate_completion p (completion : PhaseCompletion) : conversion unit :=
  validate_common_completion p (cp_image completion) (cp_plan_digest completion)
    (cp_health completion) (cp_access completion).

Definition validate_verification p (evidence : VerificationEvidence) : conversion unit :=
  refuse_if (negb (ve_inventory_complete evidence)) VerificationInventoryIncomplete ;;
  let expected := expected_verification p in
  refuse_if (negb (bool_decide (ve_target_filesystem evidence = ev_target_filesystem expected))
             || negb (bool_decide (ve_object_graph_digest evidence = ev_object_graph_digest expected))
             || negb (bool_decide (ve_plan_digest evidence = ev_plan_digest expected)))
    VerificationMismatch.

Definition validate_staging_verification p (evidence : StagingVerificationEvidence)
    : conversion unit :=
  refuse_if (negb (se_parser_validated evidence) || negb (se_inventory_complete evidence))
    StagingVerificationIncomplete ;;
  let expected := expected_staging_verification p in
  refuse_if (negb (bool_decide (se_target_filesystem evidence = es_target_filesystem expected))
             || negb (bool_decide (se_object_graph_digest evidence = es_object_graph_digest expected))
             || negb (bool_decide (se_plan_digest evidence = es_plan_digest expected))
             || negb (bool_decide (se_candidate_overlay_digest evidence =
                                   es_candidate_overlay_digest expected)))
    StagingVerificationMismatch.

(** *** Reading the capsule *)
Definition resume_without_observation p capsule : conversion ResumePoint :=
  view ← map_err CapsuleFailure (recover_capsule capsule (pc_capsule_limits p));
  newest ← ok_or CapsuleNotStarted (view_newest view);
  refuse_if (negb (bool_decide (cg_identity newest = pc_identity p)))
    TransactionIdentityChanged ;;
  first ← ok_or CapsuleNotStarted (head (cv_generations view));
  refuse_if (negb (bool_decide (cg_payload first = pc_prepared_envelope p))
             && negb (bool_decide (cg_payload first = pc_recovery_payload p))) PlanChanged ;;
  refuse_if (negb (cg_generation newest =? 0)
             && negb (bool_decide (cg_payload newest = checkpoint_payload p))) PlanChanged ;;
  Ok (mkResumePoint (cg_generation newest) (cg_phase newest)
        (intent_after p (cg_phase newest))).

Definition is_legacy_capsule p capsule : conversion bool :=
  view ← map_err CapsuleFailure (recover_capsule capsule (pc_capsule_limits p));
  first ← ok_or CapsuleNotStarted (head (cv_generations view));
  Ok (bool_decide (cg_payload first = pc_recovery_payload p)).

Definition resume p capsule (observed : ObservedImage) : conversion ResumePoint :=
  resumed ← resume_without_observation p capsule;
  legacy ← is_legacy_capsule p capsule;
  refuse_if (legacy : bool) LegacyCapsuleRollbackOnly ;;
  validate_observed p observed (phase_requires_source_evidence (rp_phase resumed)) ;;
  Ok resumed.

Definition resume_for_rollback p capsule (observed : ObservedImage) : conversion ResumePoint :=
  resumed ← resume_without_observation p capsule;
  validate_observed p observed (phase_requires_source_evidence (rp_phase resumed)) ;;
  Ok resumed.

Definition authorize_backup_boot p capsule (observed : ObservedImage)
    (evidence : StagingVerificationEvidence) : conversion TransactionIntent :=
  current ← resume p capsule observed;
  refuse_if (negb (bool_decide (rp_phase current = TargetStaged)))
    (StagingVerificationNotExpected (rp_phase current)) ;;
  validate_staging_verification p evidence ;;
  Ok (WriteBackupBoot (ws_backup_boot (pc_writes p))).

(** *** Extending the capsule *)

(** [append_generation(capsule, ..)?]: a refused append leaves the bytes alone. *)
Definition append_checkpoint p capsule (phase : TransactionPhase) (payload : list byte)
    : list byte * conversion unit :=
  match append_generation capsule (pc_identity p) phase payload (pc_capsule_limits p) with
  | Ok capsule' => (capsule', Ok tt)
  | Err e => (capsule, Err (CapsuleFailure e))
  | Panic => (capsule, Panic)
  end.
(** Checks that do not touch the capsule, then a continuation that may. *)
Definition checked {A : Type} capsule (m : conversion A)
    (k : A -> list byte * conversion unit) : list byte * conversion unit :=
  match m with
  | Ok a => k a
  | Err e => (capsule, Err e)
  | Panic => (capsule, Panic)
  end.

Definition begin_capsule p capsule (observed : ObservedImage) : list byte * conversion unit :=
  checked capsule
    (refuse_if (negb (is_empty capsule)) CapsuleAlreadyStarted ;;
     validate_observed p observed true)
    (fun _ => append_checkpoint p capsule Discovered (pc_prepared_envelope p)).

(** The checks of [record_phase]; the result is the number of valid bytes. *)
Definition check_phase p capsule (observed : ObservedImage) (next : TransactionPhase)
    (completion : PhaseCompletion) (staging_verification : option StagingVerificationEvidence)
    (verification : option VerificationEvidence) : conversion N :=
  current ← resume p capsule observed;
  view ← map_err CapsuleFailure (recover_capsule capsule (pc_capsule_limits p));
  expected ← ok_or (TerminalPhase (rp_phase current)) (next_phase (rp_phase current));
  refuse_if (negb (bool_decide (next = expected))) (UnexpectedPhase expected next) ;;
  validate_completion p completion ;;
  (if bool_decide (next = BackupBootWritten) then
     evidence ← ok_or StagingVerificationRequired staging_verification;
     validate_staging_verification p evidence
   else refuse_if (bool_decide (is_Some staging_verification))
          UnexpectedStagingVerificationEvidence) ;;
  (if bool_decide (next = Verified) then
     evidence ← ok_or VerificationRequired verification;
     validate_verification p evidence
   else refuse_if (bool_decide (is_Some verification)) UnexpectedVerificationEvidence) ;;
  Ok (cv_validated_bytes view).

Definition record_phase p capsule (observed : ObservedImage) (next : TransactionPhase)
    (completion : PhaseCompletion) (staging_verification : option StagingVerificationEvidence)
    (verification : option VerificationEvidence) : list byte * conversion unit :=
  checked capsule (check_phase p capsule observed next completion staging_verification verification)
    (fun validated_bytes =>
       append_checkpoint p (take (N.to_nat validated_bytes) capsule) next (checkpoint_payload p)).

(** The completion the crate-private recorders supply. *)
Definition own_completion p : PhaseCompletion :=
  mkPhaseCompletion (pf_image (pc_preflight p)) (pc_plan_digest p)
    (pf_health (pc_preflight p)) (pf_access (pc_preflight p)).

Definition record_reservation p capsule (observed : ObservedImage) :=
  record_phase p capsule observed Reserved (own_completion p) None None.

Definition record_execution p capsule (observed : ObservedImage) (executed : ExecutedIntent)
    (staging_verification : option StagingVerificationEvidence) : list byte * conversion unit :=
  checked capsule
    (refuse_if (negb (bool_decide (ei_plan_digest executed = pc_plan_digest p))
                || negb (bool_decide (ei_image_instance executed =
                                      ct_instance (pf_image (pc_preflight p))))
                || negb (ee_sync_data_completed (ei_evidence executed))
                || negb (ee_sync_all_completed (ei_evidence executed)))
       InvalidExecutionEvidence)
    (fun _ => record_phase p capsule observed (ei_completed_phase executed) (own_completion p)
                staging_verification None).

Definition record_verification p capsule (observed : ObservedImage)
    (evidence : VerificationEvidence) :=
  record_phase p capsule observed Verified (own_completion p) None (Some evidence).

Definition record_finalization p capsule (observed : ObservedImage) :=
  record_phase p capsule observed Finalized (own_completion p) None None.

(** The checks of [record_rollback]. *)
Definition check_rollback p capsule (observed : ObservedImage) (completion : RollbackCompletion)
    : conversion N :=
  current ← resume_for_rollback p capsule observed;
  validate_observed p observed true ;;
  view ← map_err CapsuleFailure (recover_capsule capsule (pc_capsule_limits p));
  intent ← rollback_intent p (rp_phase current);
  validate_common_completion p (rc_image completion) (rc_plan_digest completion)
    (rc_health completion) (rc_access completion) ;;
  match intent with
  | DiscardStaging =>
      refuse_if (bool_decide (is_Some (rc_applied_rollback_digest completion)))
        InvalidRollbackEvidence
  | RestoreSource _ digest =>
      refuse_if (negb (bool_decide (rc_applied_rollback_digest completion = Some digest)))
        InvalidRollbackEvidence
  end ;;
  Ok (cv_validated_bytes view).

Definition record_rollback p capsule (observed : ObservedImage) (completion : RollbackCompletion)
    : list byte * conversion unit :=
  checked capsule (check_rollback p capsule observed completion)
    (fun validated_bytes =>
       append_checkpoint p (take (N.to_nat validated_bytes) capsule) RolledBack
         (checkpoint_payload p)).

Definition durable_rollback (executed : ExecutedRollback) : bool :=
  let '(restored_source, evidence) := rollback_into_checkpoint executed in
  let digest := bool_decide (is_Some (er_rollback_digest executed)) in
  match evidence with
  | None => negb restored_source && negb digest
  | Some evidence =>
      restored_source && bool_decide (ee_kind evidence = Rollback)
      && ee_sync_data_completed evidence && ee_sync_all_completed evidence && digest
  end.

Definition record_executed_rollback p capsule (observed : ObservedImage)
    (executed : ExecutedRollback) : list byte * conversion unit :=
  checked capsule
    (refuse_if (negb (durable_rollback executed)
                || negb (bool_decide (er_plan_digest executed = pc_plan_digest p))
                || negb (bool_decide (er_image_instance executed =
                                      ct_instance (pf_image (pc_preflight p)))))
       InvalidExecutionEvidence)
    (fun _ => record_rollback p capsule observed
       (mkRollbackCompletion (pf_image (pc_preflight p)) (pc_plan_digest p)
          (er_rollback_digest executed) (pf_health (pc_preflight p))
          (pf_access (pc_preflight p)))).
End Coordinator.

(** * Specification *)
Section Specification.
Context `{Digests}.
Implicit Types (p : PreparedConversion) (capsule : list byte).

(** A recovered view belongs to the plan: the newest generation carries the
    identity, the first the envelope (or a legacy recovery bundle), every later
    newest one the checkpoint of the plan. *)
Definition bound_view p (view : CapsuleView) (first newest : CapsuleGeneration) : Prop :=
  head (cv_generations view) = Some first /\ view_newest view = Some newest /\
  cg_identity newest = pc_identity p /\
  (cg_payload first = pc_prepared_envelope p \/ cg_payload first = pc_recovery_payload p) /\
  (cg_generation newest = 0 \/ cg_payload newest = checkpoint_payload p).

(** The observation matches the container, and the source bytes where needed. *)
Definition observed_ok p (observed : ObservedImage) (require_source : bool) : Prop :=
  ob_image observed = pf_image (pc_preflight p) /\
  (require_source = true ->
   ob_source_evidence_digest observed = Some (pf_source_evidence_digest (pc_preflight p))).

Definition completion_ok p (completion : PhaseCompletion) : Prop :=
  cp_image completion = pf_image (pc_preflight p) /\
  cp_plan_digest completion = pc_plan_digest p /\
  cp_health completion = Clean /\ cp_access completion = Offline.

Definition staging_ok p (e : StagingVerificationEvidence) : Prop :=
  se_parser_validated e = true /\ se_inventory_complete e = true /\
  se_target_filesystem e = pc_target_filesystem p /\
  se_object_graph_digest e = pc_target_graph_digest p /\
  se_plan_digest e = pc_plan_digest p /\
  se_candidate_overlay_digest e = pc_candidate_overlay_digest p.

Definition verification_ok p (e : VerificationEvidence) : Prop :=
  ve_inventory_complete e = true /\
  ve_target_filesystem e = pc_target_filesystem p /\
  ve_object_graph_digest e = pc_target_graph_digest p /\
  ve_plan_digest e = pc_plan_digest p.

(** Evidence is required by exactly one phase and refused by every other. *)
Definition evidence_for {E : Type} (phase next : TransactionPhase) (ok : E -> Prop)
    (evidence : option E) : Prop :=
  (next = phase /\ exists e, evidence = Some e /\ ok e) \/ (next <> phase /\ evidence = None).

(** What [record_phase] needs of the capsule and of the evidence. *)
Record phase_ready p (view : CapsuleView) (observed : ObservedImage) (next : TransactionPhase)
    (completion : PhaseCompletion) (staging : option StagingVerificationEvidence)
    (verification : option VerificationEvidence) : Prop := mk_phase_ready {
  pr_bound : exists first newest, bound_view p view first newest /\
    cg_payload first <> pc_recovery_payload p /\
    observed_ok p observed (phase_requires_source_evidence (cg_phase newest)) /\
    next_phase (cg_phase newest) = Some next;
  pr_completion : completion_ok p completion;
  pr_staging : evidence_for BackupBootWritten next (staging_ok p) staging;
  pr_verification : evidence_for Verified next (verification_ok p) verification
}.

(** What [record_rollback] needs. *)
Definition rollback_digest_of p (phase : TransactionPhase) : option (option (list byte)) :=
  match rollback_intent p phase with
  | Ok DiscardStaging => Some None
  | Ok (RestoreSource _ digest) => Some (Some digest)
  | _ => None
  end.
End Specification.

(** * Proofs *)
Ltac bool_cases :=
  bool_props;
  repeat (match goal with H : _ && _ = false |- _ => apply andb_false_iff in H as [H|H] end;
          bool_props).

Section Proofs.
Context `{Digests}.
Implicit Types (p : PreparedConversion) (capsule : list byte).

Lemma resume_bare_Ok p capsule point :
  resume_without_observation p capsule = Ok point <->
  exists view first newest,
    recover_capsule capsule (pc_capsule_limits p) = Ok view /\
    bound_view p view first newest /\
    point = mkResumePoint (cg_generation newest) (cg_phase newest)
              (intent_after p (cg_phase newest)).
Proof.
  unfold resume_without_observation, bound_view. split.
  - intros Hr. inv_ok. bool_cases; eexists _, _, _; split_and!; try done; tauto.
  - intros (view & first & newest & Hv & (Hf & Hn & Hid & Hp & Hc) & ->).
    rewrite Hv. simpl. rewrite Hn. simpl.
    rewrite (bool_decide_true (cg_identity newest = pc_identity p)) by done. simpl.
    rewrite Hf. simpl.
    assert (Hp' : negb (bool_decide (cg_payload first = pc_prepared_envelope p)) &&
      negb (bool_decide (cg_payload first = pc_recovery_payload p)) = false).
    { apply andb_false_iff. destruct Hp; [left | right]; by rewrite bool_decide_true by done. }
    rewrite Hp'. simpl.
    assert (Hc' : negb (cg_generation newest =? 0) &&
      negb (bool_decide (cg_payload newest = checkpoint_payload p)) = false).
    { apply andb_false_iff. destruct Hc as [Hc|Hc]; [left; by rewrite Hc | right].
      by rewrite bool_decide_true by done. }
    by rewrite Hc'.
Qed.

Lemma validate_observed_Ok p observed require u :
  validate_observed p observed require = Ok u <-> observed_ok p observed require.
Proof.
  unfold validate_observed, observed_ok. destruct u. rewrite bind_Ok. split.
  - intros ([] & H1 & H2). apply refuse_if_Ok in H1, H2. bool_props.
    split; [done |]. intros ->. simpl in H2. by bool_props.
  - intros [H1 H2]. exists tt. rewrite !refuse_if_Ok, bool_decide_true by done.
    split; [done |]. destruct require; [|done]. by rewrite bool_decide_true by auto.
Qed.

Lemma require_clean_offline_Ok health access u :
  require_clean_offline health access = Ok u <-> health = Clean /\ access = Offline.
Proof.
  unfold require_clean_offline. split; [|intros [-> ->]; by destruct u].
  intros Hc. inv_ok. by bool_props.
Qed.

Lemma validate_completion_Ok p c u : validate_completion p c = Ok u <-> completion_ok p c.
Proof.
  unfold validate_completion, validate_common_completion, completion_ok. split.
  - intros Hc. inv_ok. bool_props. apply require_clean_offline_Ok in Hc. tauto.
  - intros (H1 & H2 & H3 & H4). rewrite !bool_decide_true by done. simpl.
    by apply require_clean_offline_Ok.
Qed.

Lemma validate_staging_Ok p e u : validate_staging_verification p e = Ok u <-> staging_ok p e.
Proof.
  unfold validate_staging_verification, staging_ok. simpl. split.
  - intros Hc. inv_ok. bool_props. tauto.
  - intros (-> & -> & H1 & H2 & H3 & H4). simpl. rewrite !bool_decide_true by done. by destruct u.
Qed.
Lemma validate_verification_Ok p e u : validate_verification p e = Ok u <-> verification_ok p e.
Proof.
  unfold validate_verification, verification_ok. simpl. split.
  - intros Hc. inv_ok. bool_props. tauto.
  - intros (-> & H1 & H2 & H3). simpl. rewrite !bool_decide_true by done. by destruct u.
Qed.

Lemma evidence_Ok {E} phase next (ok : E -> Prop) (check : E -> conversion unit) evidence
    missing unexpected u :
  (forall e u, check e = Ok u <-> ok e) ->
  (if bool_decide (next = phase) then e ← ok_or missing evidence; check e
   else refuse_if (bool_decide (is_Some evidence)) unexpected) = Ok u <->
  evidence_for phase next ok evidence.
Proof.
  intros Hc. unfold evidence_for. case_bool_decide as Hn.
  - destruct evidence as [e|]; simpl; [rewrite Hc; naive_solver | naive_solver].
  - rewrite refuse_if_Ok, bool_decide_eq_false. destruct evidence; simpl; [|naive_solver].
    split; [intros Hs; exfalso; eauto | naive_solver].
Qed.

Lemma resume_Ok p capsule observed point :
  resume p capsule observed = Ok point <->
  exists view first newest,
    recover_capsule capsule (pc_capsule_limits p) = Ok view /\
    bound_view p view first newest /\ cg_payload first <> pc_recovery_payload p /\
    observed_ok p observed (phase_requires_source_evidence (cg_phase newest)) /\
    point = mkResumePoint (cg_generation newest) (cg_phase newest)
              (intent_after p (cg_phase newest)).
Proof.
  unfold resume. split.
  - intros Hr. inv_ok. bool_props. apply resume_bare_Ok in Hok as (view & first & newest & Hv & Hb & ->).
    unfold is_legacy_capsule in Hok0. rewrite Hv in Hok0. simpl in Hok0.
    pose proof Hb as (Hf & _). rewrite Hf in Hok0. simpl in Hok0. simplify_eq. bool_props.
    rename select (validate_observed _ _ _ = _) into Ho. apply validate_observed_Ok in Ho.
    exists view, first, newest. by split_and!.
  - intros (view & first & newest & Hv & Hb & Hl & Ho & ->).
    rewrite (proj2 (resume_bare_Ok p capsule _)) by (exists view, first, newest; done).
    simpl. unfold is_legacy_capsule. rewrite Hv. simpl. pose proof Hb as (Hf & _). rewrite Hf. simpl.
    rewrite bool_decide_false by done. simpl.
    by rewrite (proj2 (validate_observed_Ok p observed _ tt) Ho).
Qed.

Lemma check_phase_Ok p capsule observed next completion staging verification n :
  check_phase p capsule observed next completion staging verification = Ok n <->
  exists view, recover_capsule capsule (pc_capsule_limits p) = Ok view /\
    phase_ready p view observed next completion staging verification /\
    n = cv_validated_bytes view.
Proof.
  unfold check_phase. split.
  - intros Hc. apply bind_Ok in Hc as (point & Hr & Hc).
    apply resume_Ok in Hr as (view & first & newest & Hv & Hb & Hl & Ho & ->).
    rewrite Hv in Hc. simpl in Hc. apply bind_Ok in Hc as (expected & He & Hc).
    apply ok_or_Ok in He. apply bind_Ok in Hc as ([] & Hn & Hc).
    apply refuse_if_Ok in Hn. bool_props. subst expected.
    apply bind_Ok in Hc as ([] & Hco & Hc). apply validate_completion_Ok in Hco.
    apply bind_Ok in Hc as ([] & Hs & Hc).
    apply (evidence_Ok _ _ (staging_ok p)) in Hs; [|apply validate_staging_Ok].
    apply bind_Ok in Hc as ([] & Hve & Hc).
    apply (evidence_Ok _ _ (verification_ok p)) in Hve; [|apply validate_verification_Ok].
    inv_ok. exists view. split_and!; [done | | done]. split; try done. by exists first, newest.
  - intros (view & Hv & [(first & newest & Hb & Hl & Ho & Hn) Hco Hs Hve] & ->).
    rewrite (proj2 (resume_Ok p capsule observed (mkResumePoint (cg_generation newest)
      (cg_phase newest) (intent_after p (cg_phase newest))))) by (exists view, first, newest; done).
    simpl. rewrite Hv. simpl. rewrite Hn. simpl.
    rewrite (bool_decide_true (next = next)) by done. simpl.
    rewrite (proj2 (validate_completion_Ok p completion tt) Hco). simpl.
    eapply bind_step; [apply (evidence_Ok _ _ (staging_ok p)); [apply validate_staging_Ok | done] |].
    eapply bind_step;
      [apply (evidence_Ok _ _ (verification_ok p)); [apply validate_verification_Ok | done] |].
    done.
Unshelve. all: exact tt.
Qed.
End Proofs.

(** ** Histories

    The events that extend a capsule after it was started, and the capsules they
    lead to.  A run requires that the header search of every capsule on the way
    is unambiguous ([Capsule.unambiguous]). *)
Inductive event : Type :=
| Recorded (next : TransactionPhase) (staging : option StagingVerificationEvidence)
    (verification : option VerificationEvidence)
| RollbackRecorded (executed : ExecutedRollback).
Definition event_phase (e : event) : TransactionPhase :=
  match e with Recorded next _ _ => next | RollbackRecorded _ => RolledBack end.

(** The order of the phases after [Discovered]. *)
Definition forward : list TransactionPhase :=
  [Reserved; Relocating; TargetStaged; BackupBootWritten; Activated; Verified; Finalized].
(** A prefix of the order, or a shorter one that was rolled back. *)
Definition history (phases : list TransactionPhase) : Prop :=
  (exists n, (n <= 7)%nat /\ phases = take n forward) \/
  (exists n, (n <= 6)%nat /\ phases = take n forward ++ [RolledBack]).

Section History.
Context `{Digests}.
Implicit Types (p : PreparedConversion) (capsule : list byte) (trace : list event).

Definition readable p capsule : Prop :=
  len capsule <= isize_max /\ exists cs, unambiguous capsule (pc_capsule_limits p) cs.

Inductive run p : list event -> list byte -> Prop :=
| run_begin observed capsule :
    begin_capsule p [] observed = (capsule, Ok tt) -> readable p capsule -> run p [] capsule
| run_record trace capsule observed next completion staging verification capsule' :
    run p trace capsule ->
    record_phase p capsule observed next completion staging verification = (capsule', Ok tt) ->
    readable p capsule' -> run p (trace ++ [Recorded next staging verification]) capsule'
| run_rollback trace capsule observed executed capsule' :
    run p trace capsule ->
    record_executed_rollback p capsule observed executed = (capsule', Ok tt) ->
    readable p capsule' -> run p (trace ++ [RollbackRecorded executed]) capsule'.

(** The evidence an event carries was checked. *)
Definition justified p (e : event) : Prop :=
  match e with
  | Recorded next staging verification =>
      evidence_for BackupBootWritten next (staging_ok p) staging /\
      evidence_for Verified next (verification_ok p) verification
  | RollbackRecorded executed =>
      durable_rollback executed = true /\ er_plan_digest executed = pc_plan_digest p /\
      er_image_instance executed = ct_instance (pf_image (pc_preflight p))
  end.

(** The generations a run has written. *)
Record written p trace capsule (gs : list CapsuleGeneration) : Prop := mk_written {
  wr_chain : chained capsule (pc_capsule_limits p) None 0 gs (len capsule);
  wr_count : len gs <= cl_max_generations (pc_capsule_limits p);
  wr_phases : cg_phase <$> gs = Discovered :: (event_phase <$> trace);
  wr_numbers : forall i g, gs !! i = Some g -> cg_generation g = N.of_nat i;
  wr_identity : Forall (fun g => cg_identity g = pc_identity p) gs;
  wr_first : exists first, head gs = Some first /\ cg_payload first = pc_prepared_envelope p;
  wr_payloads : Forall (fun g => cg_payload g = checkpoint_payload p) (tail gs);
  wr_limits : Capsule.validate_limits (pc_capsule_limits p) = Ok tt /\
    len capsule <= cl_max_capsule_bytes (pc_capsule_limits p)
}.

(** *** Lemmas *)
Lemma checked_Ok {A} capsule (m : conversion A) k capsule' :
  checked capsule m k = (capsule', Ok tt) <-> exists a, m = Ok a /\ k a = (capsule', Ok tt).
Proof. destruct m; simpl; naive_solver. Qed.

Lemma append_checkpoint_Ok p capsule phase payload capsule' :
  append_checkpoint p capsule phase payload = (capsule', Ok tt) <->
  append_generation capsule (pc_identity p) phase payload (pc_capsule_limits p) = Ok capsule'.
Proof. unfold append_checkpoint. destruct (append_generation _ _ _ _ _); naive_solver. Qed.

Lemma append_checkpoint_keeps p capsule phase payload capsule' r :
  append_checkpoint p capsule phase payload = (capsule', r) -> r <> Ok tt -> capsule' = capsule.
Proof. unfold append_checkpoint. destruct (append_generation _ _ _ _ _); naive_solver. Qed.

Lemma record_phase_Ok p capsule observed next completion staging verification capsule' :
  record_phase p capsule observed next completion staging verification = (capsule', Ok tt) <->
  exists view, recover_capsule capsule (pc_capsule_limits p) = Ok view /\
    phase_ready p view observed next completion staging verification /\
    append_generation (take (N.to_nat (cv_validated_bytes view)) capsule) (pc_identity p) next
      (checkpoint_payload p) (pc_capsule_limits p) = Ok capsule'.
Proof.
  unfold record_phase. rewrite checked_Ok. setoid_rewrite append_checkpoint_Ok.
  setoid_rewrite check_phase_Ok. naive_solver.
Qed.

Lemma check_rollback_Ok p capsule observed completion n :
  check_rollback p capsule observed completion = Ok n ->
  exists view first newest, recover_capsule capsule (pc_capsule_limits p) = Ok view /\
    bound_view p view first newest /\ observed_ok p observed true /\
    rollback_digest_of p (cg_phase newest) = Some (rc_applied_rollback_digest completion) /\
    completion_ok p (mkPhaseCompletion (rc_image completion) (rc_plan_digest completion)
      (rc_health completion) (rc_access completion)) /\
    n = cv_validated_bytes view.
Proof.
  unfold check_rollback, resume_for_rollback. intros Hc. inv_ok.
  rename select (resume_without_observation _ _ = _) into Hr.
  apply resume_bare_Ok in Hr as (view & first & newest & Hv & Hb & ->).
  rename select (recover_capsule _ _ = _) into Hv'. rewrite Hv in Hv'. simplify_eq.
  rename select (validate_observed _ _ true = _) into Ho. apply validate_observed_Ok in Ho.
  rename select (validate_common_completion _ _ _ _ _ = _) into Hco.
  apply (validate_completion_Ok p (mkPhaseCompletion _ _ _ _)) in Hco.
  rename select (rollback_intent _ _ = _) into Hi. simpl in Hi.
  eexists _, _, _. split_and!; try done. unfold rollback_digest_of. rewrite Hi.
  case_match; inv_ok; bool_props; [|congruence].
  rename select (~ is_Some _) into Hnone. apply eq_None_not_Some in Hnone. by rewrite Hnone.
Qed.

Lemma record_rollback_Ok p capsule observed executed capsule' :
  record_executed_rollback p capsule observed executed = (capsule', Ok tt) ->
  justified p (RollbackRecorded executed) /\
  exists view first newest, recover_capsule capsule (pc_capsule_limits p) = Ok view /\
    bound_view p view first newest /\ observed_ok p observed true /\
    rollback_digest_of p (cg_phase newest) = Some (er_rollback_digest executed) /\
    append_generation (take (N.to_nat (cv_validated_bytes view)) capsule) (pc_identity p)
      RolledBack (checkpoint_payload p) (pc_capsule_limits p) = Ok capsule'.
Proof.
  unfold record_executed_rollback, record_rollback. intros Hr.
  apply checked_Ok in Hr as ([] & Hg & Hr). apply checked_Ok in Hr as (n & Hc & Ha).
  apply check_rollback_Ok in Hc as (view & first & newest & Hv & Hb & Ho & Hd & _ & ->).
  apply append_checkpoint_Ok in Ha. apply refuse_if_Ok in Hg. bool_props.
  split; [done |]. by exists view, first, newest.
Qed.

Lemma forward_step n q next :
  (n <= 7)%nat -> last (Discovered :: take n forward) = Some q -> next_phase q = Some next ->
  (S n <= 7)%nat /\ take n forward ++ [next] = take (S n) forward.
Proof.
  intros Hn. do 7 (destruct n as [|n]; [simpl; intros [= <-] [= <-]; split; [lia | done] |]).
  destruct n; [by intros [= <-] | lia].
Qed.
End History.

Section Runs.
Context `{Digests}.
Implicit Types (p : PreparedConversion) (capsule : list byte) (trace : list event).

Lemma written_scan p trace capsule gs allow :
  readable p capsule -> written p trace capsule gs ->
  scan_capsule_impl capsule (pc_capsule_limits p) allow = Ok (mkCapsuleView gs (len capsule)).
Proof.
  intros [Hfit [cs Hu]] [Hc Hn _ _ _ _ _ [Hl Hmax]]. by apply (scan_of_chain allow _ _ cs).
Qed.

Lemma written_length p trace capsule gs :
  written p trace capsule gs -> length gs = S (length trace).
Proof.
  intros [_ _ Hp _ _ _ _ _]. apply (f_equal length) in Hp. simpl in Hp.
  by rewrite !length_fmap in Hp.
Qed.

Lemma written_newest p trace capsule gs :
  written p trace capsule gs ->
  exists g, last gs = Some g /\ cg_generation g = len trace /\ cg_identity g = pc_identity p /\
    last (Discovered :: (event_phase <$> trace)) = Some (cg_phase g) /\
    (trace = [] \/ cg_payload g = checkpoint_payload p).
Proof.
  intros Hw. pose proof (written_length _ _ _ _ Hw) as Hlen.
  destruct Hw as [_ _ Hp Hnum Hid _ Hpay _]. destruct (last gs) as [g|] eqn:Hl.
  2: { apply last_None in Hl. by subst. }
  exists g. split; [done |]. rewrite <- Hp, fmap_last, Hl.
  pose proof Hl as Hat. rewrite last_lookup, Hlen in Hat. simpl in Hat.
  split_and!; [by apply Hnum in Hat | | done |].
  - rewrite Forall_forall in Hid. apply Hid. by eapply list_elem_of_lookup_2.
  - destruct trace as [|e trace]; [by left | right]. destruct gs as [|g0 gs]; [done |].
    rewrite Forall_forall in Hpay. apply Hpay. simpl in *. by eapply list_elem_of_lookup_2.
Qed.

Lemma written_bound p trace capsule gs :
  written p trace capsule gs ->
  exists first g, bound_view p (mkCapsuleView gs (len capsule)) first g /\
    cg_generation g = len trace /\ cg_payload first = pc_prepared_envelope p /\
    last (Discovered :: (event_phase <$> trace)) = Some (cg_phase g).
Proof.
  intros Hw. destruct (written_newest _ _ _ _ Hw) as (g & Hl & Hn & Hid & Hp & Hc).
  destruct (wr_first _ _ _ _ Hw) as (first & Hf & He). exists first, g.
  split_and!; try done. unfold bound_view. simpl. split_and!; try done; [by left |].
  destruct Hc as [-> | Hc]; [by left | by right].
Qed.

Lemma written_resume p trace capsule gs :
  readable p capsule -> written p trace capsule gs ->
  exists q, last (Discovered :: (event_phase <$> trace)) = Some q /\
    resume_without_observation p capsule = Ok (mkResumePoint (len trace) q (intent_after p q)).
Proof.
  intros Hr Hw. destruct (written_bound _ _ _ _ Hw) as (first & g & Hb & Hn & _ & Hp).
  exists (cg_phase g). split; [done |]. apply resume_bare_Ok.
  exists (mkCapsuleView gs (len capsule)), first, g. rewrite Hn.
  split_and!; [by eapply written_scan | done | done].
Qed.

Lemma written_extend p trace capsule gs e capsule' :
  identity_wf (pc_identity p) -> readable p capsule -> len capsule' <= isize_max ->
  written p trace capsule gs ->
  append_generation capsule (pc_identity p) (event_phase e) (checkpoint_payload p)
    (pc_capsule_limits p) = Ok capsule' ->
  exists g, written p (trace ++ [e]) capsule' (gs ++ [g]).
Proof.
  intros Hid Hr Hfit Hw Ha.
  destruct (append_chain _ _ _ _ _ _ [] (proj1 Hr) Hid Ha)
    as (view & link & Hv & _ & Hlink & Hc & Hn & Hmax & Hlim & _ & _ & _).
  unfold scan_capsule in Hv. rewrite (written_scan _ _ _ _ _ Hr Hw) in Hv. simplify_eq.
  rewrite app_nil_r in Hc. simpl in *.
  destruct (written_newest _ _ _ _ Hw) as (g & Hl & Hgn & _).
  pose proof (written_length _ _ _ _ Hw) as Hlen. destruct Hw as [_ _ Hp Hnum Hids Hf Hpay _].
  eexists. split; [exact Hc | | | | | | | done].
  - rewrite len_app, len_cons, len_nil. lia.
  - rewrite !fmap_app, Hp. done.
  - intros i x Hx. apply lookup_app_Some in Hx as [Hx|[Hi Hx]]; [by apply Hnum |].
    apply list_lookup_singleton_Some in Hx as [Hi0 <-]. unfold view_newest in Hlink. simpl in Hlink.
    rewrite Hl in Hlink. destruct Hlink as (Hnew & _). simpl in *. rewrite Hnew, Hgn. unfold len. lia.
  - apply Forall_app. split; [done | by constructor].
  - destruct gs; [done | simpl in *; done].
  - destruct gs as [|g0 gs]; [done |]. simpl in *. apply Forall_app. split; [done | by constructor].
Qed.

(** Truncation to the validated bytes of a run's capsule is the identity. *)
Lemma take_len {A} (l : list A) : take (N.to_nat (len l)) l = l.
Proof. unfold len. rewrite Nat2N.id. by apply take_ge. Qed.

Lemma history_next phases q next :
  history phases -> last (Discovered :: phases) = Some q -> next_phase q = Some next ->
  history (phases ++ [next]).
Proof.
  intros [(n & Hn & ->)|(n & Hn & ->)] Hl Hx.
  - destruct (forward_step _ _ _ Hn Hl Hx) as [Hs He]. left. by exists (S n).
  - rewrite app_comm_cons, last_snoc in Hl. by simplify_eq.
Qed.
Lemma history_rollback p phases q d :
  history phases -> last (Discovered :: phases) = Some q -> rollback_digest_of p q = Some d ->
  history (phases ++ [RolledBack]).
Proof.
  intros [(n & Hn & ->)|(n & Hn & ->)] Hl Hx.
  - right. exists n. split; [|done]. destruct (decide (n = 7)%nat) as [->|]; [|lia].
    simpl in Hl. by simplify_eq.
  - rewrite app_comm_cons, last_snoc in Hl. by simplify_eq.
Qed.

Lemma begin_written p observed capsule :
  identity_wf (pc_identity p) -> len capsule <= isize_max ->
  begin_capsule p [] observed = (capsule, Ok tt) -> exists gs, written p [] capsule gs.
Proof.
  intros Hid Hfit Hb. unfold begin_capsule in Hb. apply checked_Ok in Hb as ([] & _ & Ha).
  apply append_checkpoint_Ok in Ha.
  assert (Hnil : len (@nil byte) <= isize_max) by (rewrite len_nil; by vm_compute).
  destruct (append_chain _ _ _ _ _ _ [] Hnil Hid Ha)
    as (view & link & Hv & Hc0 & Hlink & Hc & Hn & Hmax & Hlim & _ & _ & _).
  apply chained_count in Hc0.
  assert (Hgs : cv_generations view = []).
  { destruct (cv_generations view); [done |]. unfold len in Hc0. simpl in Hc0. lia. }
  rewrite Hgs in *. rewrite app_nil_r in Hc. simpl in *. unfold view_newest in Hlink.
  rewrite Hgs in Hlink. simpl in Hlink.
  exists [new_generation 0 link (pc_identity p) Discovered (pc_prepared_envelope p)].
  split; [exact Hc | | done | | | | done | done].
  - unfold len in *. simpl in *. lia.
  - intros i x Hx. apply list_lookup_singleton_Some in Hx as [-> <-]. simpl. by destruct Hlink as (-> & _).
  - by constructor.
  - by eexists.
Qed.

Lemma run_written p trace capsule :
  identity_wf (pc_identity p) -> run p trace capsule ->
  readable p capsule /\ history (event_phase <$> trace) /\ Forall (justified p) trace /\
  exists gs, written p trace capsule gs.
Proof.
  intros Hid. induction 1 as [observed capsule Hb Hr
    | trace capsule observed next completion staging verification capsule' Hrun IH Hrec Hr
    | trace capsule observed executed capsule' Hrun IH Hrec Hr].
  - split_and!; [done | left; by exists 0%nat; split; [lia |] | constructor |].
    by eapply begin_written; [done | apply Hr |].
  - destruct IH as (Hr0 & Hh & Hj & gs & Hw).
    apply record_phase_Ok in Hrec as (view & Hv & [(first & newest & Hb & _ & _ & Hn) _ Hs Hve] & Ha).
    unfold recover_capsule in Hv. rewrite (written_scan _ _ _ _ _ Hr0 Hw) in Hv. simplify_eq.
    simpl in Ha. rewrite take_len in Ha.
    destruct (written_newest _ _ _ _ Hw) as (g & Hl & _ & _ & Hp & _).
    destruct Hb as (_ & Hnew & _). unfold view_newest in Hnew. simpl in Hnew.
    assert (g = newest) as -> by congruence. rewrite fmap_app.
    split_and!; [done | by eapply history_next | |].
    + apply Forall_app. split; [done | by apply Forall_singleton].
    + destruct (written_extend p trace capsule gs (Recorded next staging verification) capsule')
        as [x Hx]; try done; [apply Hr | by eexists].
  - destruct IH as (Hr0 & Hh & Hj & gs & Hw).
    apply record_rollback_Ok in Hrec as (Hjust & view & first & newest & Hv & Hb & _ & Hd & Ha).
    unfold recover_capsule in Hv. rewrite (written_scan _ _ _ _ _ Hr0 Hw) in Hv. simplify_eq.
    simpl in Ha. rewrite take_len in Ha.
    destruct (written_newest _ _ _ _ Hw) as (g & Hl & _ & _ & Hp & _).
    destruct Hb as (_ & Hnew & _). unfold view_newest in Hnew. simpl in Hnew.
    assert (g = newest) as -> by congruence. rewrite fmap_app.
    split_and!; [done | by eapply history_rollback | |].
    + apply Forall_app. split; [done | by apply Forall_singleton].
    + destruct (written_extend p trace capsule gs (RollbackRecorded executed) capsule')
        as [x Hx]; try done; [apply Hr | by eexists].
Qed.

(** The capsule of a run holds a whole record. *)
Lemma written_whole p trace capsule gs :
  written p trace capsule gs -> (8 <= length capsule)%nat.
Proof.
  intros [Hc _ _ _ _ (first & Hf & _)]. destruct gs as [|g gs]; [done |].
  destruct Hc as ((_ & (Hl & _) & _) & _). unfold record_len, Capsule.HEADER_BYTES, len in Hl. lia.
Qed.
End Runs.

(** ** Safety of the checks *)
Section Safety.
Context `{Digests}.
Implicit Types (p : PreparedConversion) (capsule : list byte).

Lemma resume_bare_safe p capsule :
  recover_capsule capsule (pc_capsule_limits p) <> Panic ->
  resume_without_observation p capsule <> Panic.
Proof. intros Hr. unfold resume_without_observation. by safe. Qed.
Lemma validate_observed_safe p observed b : validate_observed p observed b <> Panic.
Proof. unfold validate_observed. safe. Qed.
Lemma common_completion_safe p i d h a : validate_common_completion p i d h a <> Panic.
Proof. unfold validate_common_completion, require_clean_offline. safe. Qed.
Lemma check_phase_safe p capsule observed next completion staging verification :
  recover_capsule capsule (pc_capsule_limits p) <> Panic ->
  check_phase p capsule observed next completion staging verification <> Panic.
Proof.
  intros Hr. unfold check_phase, resume, is_legacy_capsule. safe; try done.
  - by apply resume_bare_safe.
  - apply validate_observed_safe.
  - apply common_completion_safe.
  - case_bool_decide; safe; unfold validate_staging_verification; safe.
  - case_bool_decide; safe; unfold validate_verification; safe.
Qed.
Lemma check_rollback_safe p capsule observed completion :
  recover_capsule capsule (pc_capsule_limits p) <> Panic ->
  check_rollback p capsule observed completion <> Panic.
Proof.
  intros Hr. unfold check_rollback, resume_for_rollback. safe; try done.
  - by apply resume_bare_safe.
  - apply validate_observed_safe.
  - apply validate_observed_safe.
  - unfold rollback_intent. repeat case_match; done.
  - apply common_completion_safe.
  - case_match; safe.
Qed.

Lemma checked_refused {A} capsule (m : conversion A) k :
  m <> Panic -> (forall a, m <> Ok a) -> exists e, checked capsule m k = (capsule, Err e).
Proof. destruct m; simpl; naive_solver. Qed.
End Safety.

(** * The claims *)
Section Claims.
Context `{Digests}.
Implicit Types (p : PreparedConversion) (capsule : list byte) (trace : list event).

(** C19: [record_phase] succeeds exactly when the recovered capsule belongs to
    the plan and is not a legacy one, the observation matches the container and
    (until activation) the sealed source bytes, the phase is the successor of the
    recorded one, the completion is clean, offline and of this plan, staging
    evidence is present and exact for [BackupBootWritten] and absent otherwise,
    verification evidence likewise for [Verified], and the capsule has room; it
    then appends exactly one checkpoint to the validated prefix.  When it fails,
    the capsule is unchanged or cut back to its validated prefix. *)
Theorem record_phase_spec p capsule observed next completion staging verification capsule' :
  (record_phase p capsule observed next completion staging verification = (capsule', Ok tt) <->
   exists view, recover_capsule capsule (pc_capsule_limits p) = Ok view /\
     phase_ready p view observed next completion staging verification /\
     append_generation (take (N.to_nat (cv_validated_bytes view)) capsule) (pc_identity p) next
       (checkpoint_payload p) (pc_capsule_limits p) = Ok capsule') /\
  forall e, record_phase p capsule observed next completion staging verification
              = (capsule', Err e) ->
    capsule' = capsule \/
    exists view, recover_capsule capsule (pc_capsule_limits p) = Ok view /\
      capsule' = take (N.to_nat (cv_validated_bytes view)) capsule.
Proof.
  split; [apply record_phase_Ok |]. intros e Hr. unfold record_phase, checked in Hr.
  destruct (check_phase _ _ _ _ _ _ _) as [n|e'|] eqn:Hc; [|by simplify_eq; left | done].
  apply check_phase_Ok in Hc as (view & Hv & _ & ->). right. exists view. split; [done |].
  by eapply append_checkpoint_keeps in Hr.
Qed.

(** C9: the history of every run: the recorded phases are a prefix of the fixed
    order, optionally ended by one rollback that is never after finalization;
    backup boot and verification were recorded with exact evidence, rollbacks
    with durable executor evidence of this plan and container; and resuming
    always returns the last recorded phase, its number and its next intent. *)
Theorem run_history p trace capsule :
  identity_wf (pc_identity p) -> run p trace capsule ->
  history (event_phase <$> trace) /\ Forall (justified p) trace /\
  exists q, last (Discovered :: (event_phase <$> trace)) = Some q /\
    resume_without_observation p capsule = Ok (mkResumePoint (len trace) q (intent_after p q)).
Proof.
  intros Hid Hrun. destruct (run_written _ _ _ Hid Hrun) as (Hr & Hh & Hj & gs & Hw).
  split_and!; [done | done | by eapply written_resume].
Qed.

(** once a run has been finalized or rolled back, no phase and no rollback
    can be recorded any more, whatever evidence is supplied; the attempt returns
    an error and leaves the capsule as it is. *)
Theorem terminal_phase_is_final p trace capsule q :
  identity_wf (pc_identity p) -> run p trace capsule ->
  last (Discovered :: (event_phase <$> trace)) = Some q -> q = Finalized \/ q = RolledBack ->
  (forall observed next completion staging verification, exists e,
     record_phase p capsule observed next completion staging verification = (capsule, Err e)) /\
  (forall observed executed, exists e,
     record_executed_rollback p capsule observed executed = (capsule, Err e)).
Proof.
  intros Hid Hrun Hl Hq. destruct (run_written _ _ _ Hid Hrun) as (Hr & Hh & Hj & gs & Hw).
  pose proof (written_scan _ _ _ _ true Hr Hw) as Hs.
  assert (Hsafe : recover_capsule capsule (pc_capsule_limits p) <> Panic)
    by (unfold recover_capsule; by rewrite Hs).
  assert (Hnewest : forall view first newest, recover_capsule capsule (pc_capsule_limits p) = Ok view ->
    bound_view p view first newest -> cg_phase newest = q).
  { intros view first newest Hv (_ & Hn & _). unfold recover_capsule in Hv. rewrite Hs in Hv.
    simplify_eq. destruct (written_newest _ _ _ _ Hw) as (g & Hg & _ & _ & Hp & _).
    unfold view_newest in Hn. simpl in Hn. congruence. }
  split.
  - intros observed next completion staging verification. apply checked_refused.
    + by apply check_phase_safe.
    + intros n (view & Hv & [(first & newest & Hb & _ & _ & Hn) _ _ _] & _)%check_phase_Ok.
      rewrite (Hnewest _ _ _ Hv Hb) in Hn. by destruct Hq; subst.
  - intros observed executed. unfold record_executed_rollback.
    destruct (refuse_if _ _) as [u|e|] eqn:Hg; simpl; [|by eexists | by apply refuse_if_safe in Hg].
    apply checked_refused.
    + by apply check_rollback_safe.
    + intros n (view & first & newest & Hv & Hb & _ & Hd & _)%check_rollback_Ok.
      rewrite (Hnewest _ _ _ Hv Hb) in Hd. by destruct Hq; subst.
Qed.

(** C21: a checkpoint is atomic.  If recording a phase is cut off by a crash
    after any proper part of the new record reached the capsule, resuming from
    the torn capsule gives the same answer as resuming from the capsule before,
    so the phase can be recorded again.  As for every capsule of a run, the
    complete one must be readable: its length fits and the search for generations
    in it is unambiguous.  Payloads can be chosen for which it is not
    ([Capsule.shadow_start_is_ambiguous]). *)
Theorem torn_checkpoint_resumes p trace capsule observed next completion staging verification
    capsule' k :
  identity_wf (pc_identity p) -> run p trace capsule ->
  record_phase p capsule observed next completion staging verification = (capsule', Ok tt) ->
  readable p capsule' -> (length capsule < k < length capsule')%nat ->
  resume_without_observation p (take k capsule') = resume_without_observation p capsule.
Proof.
  intros Hid Hrun Hrec [Hfit [cs Hu]] Hk.
  destruct (run_written _ _ _ Hid Hrun) as (Hr & Hh & Hj & gs & Hw).
  pose proof (written_whole _ _ _ _ Hw) as H8.
  apply record_phase_Ok in Hrec as (view & Hv & _ & Ha).
  pose proof Hv as Hv'. unfold recover_capsule in Hv'. rewrite (written_scan _ _ _ _ _ Hr Hw) in Hv'.
  simplify_eq. simpl in Ha. rewrite take_len in Ha.
  pose proof (recover_torn_readable _ _ _ _ _ _ _ _ Hfit Hid Ha Hu Hk ltac:(lia)) as Ht.
  unfold scan_capsule in Ht. rewrite (written_scan _ _ _ _ _ Hr Hw) in Ht.
  unfold resume_without_observation. by rewrite Ht, Hv.
Qed.
End Claims.

(** ** Witnesses *)
Section Witnesses.
#[local] Existing Instance rolling_digests.

Definition sample_container : ContainerIdentity := mkContainerIdentity (replicate 32 x01) 65536.
Definition sample_preflight : PreflightEvidence :=
  mkPreflightEvidence sample_container ExFat (replicate 32 x02)
    (mkManifestCommitment (replicate 32 x03) 0 1) 512 4096 true true Clean Offline.
Definition boot_write (offset : N) (b : byte) : ReservedWrite :=
  mkReservedWrite BootRegion (mkOverlayWrite offset (replicate 512 b)).
Definition sample_write_sets : OpaqueWriteSets :=
  mkOpaqueWriteSets
    [mkReservedWrite NamespaceMetadata (mkOverlayWrite 4096 (replicate 512 x11))]
    [boot_write 1024 x12] [boot_write 0 x13]
    [mkOverlayWrite 4096 (replicate 512 x00)] [mkOverlayWrite 1024 (replicate 512 x00)]
    [mkOverlayWrite 0 (replicate 512 x00)].
Definition sample_overlay (writes : list OverlayWrite) : OverlayPlan :=
  mkOverlayPlan 65536 512 writes (sum_by ow_length writes) 4096.
Definition sample_prepared : PreparedConversion := {|
  pc_identity := sample_identity;
  pc_preflight := sample_preflight;
  pc_target_filesystem := Ntfs;
  pc_target_features := [];
  pc_source_graph_digest := replicate 32 x04;
  pc_target_graph_digest := replicate 32 x05;
  pc_plan_digest := replicate 32 x06;
  pc_candidate_overlay_digest := replicate 32 x07;
  pc_relocation_rollback_digest := digest_overlay_writes [];
  pc_staging_rollback_digest := replicate 32 x08;
  pc_preactivation_rollback_digest := replicate 32 x09;
  pc_full_rollback_digest := replicate 32 x0a;
  pc_reservations := [mkDestinationReservation (mkByteRange 0 2048) BootRegion;
    mkDestinationReservation (mkByteRange 4096 4096) NamespaceMetadata];
  pc_layout := mkLayoutPlan [] [] [] 0 0 0;
  pc_writes := sample_write_sets;
  pc_candidate_overlay := sample_overlay [];
  pc_relocation_rollback_overlay := sample_overlay [];
  pc_staging_rollback_overlay := sample_overlay [mkOverlayWrite 4096 (replicate 512 x00)];
  pc_preactivation_rollback_overlay := sample_overlay
    [mkOverlayWrite 1024 (replicate 512 x00); mkOverlayWrite 4096 (replicate 512 x00)];
  pc_full_rollback_overlay := sample_overlay
    [mkOverlayWrite 0 (replicate 512 x00); mkOverlayWrite 1024 (replicate 512 x00);
     mkOverlayWrite 4096 (replicate 512 x00)];
  pc_recovery_payload := [x52];
  pc_prepared_envelope := [x45; x4e];
  pc_capsule_limits := sample_capsule_limits
|}.
Definition sample_observed : ObservedImage :=
  mkObservedImage sample_container (Some (replicate 32 x02)).
Definition sample_discarded : ExecutedRollback :=
  mkExecutedRollback StagingDiscarded (replicate 32 x06) (replicate 32 x01) None.

Definition started : list byte := Eval vm_compute in
  (begin_capsule sample_prepared [] sample_observed).1.
Definition reserved : list byte := Eval vm_compute in
  (record_reservation sample_prepared started sample_observed).1.
Definition abandoned : list byte := Eval vm_compute in
  (record_executed_rollback sample_prepared reserved sample_observed sample_discarded).1.

Lemma readable_check p c :
  pc_capsule_limits p = sample_capsule_limits -> (len c <=? isize_max) = true ->
  find_candidates c sample_capsule_limits = Ok (sample_candidates c) ->
  compatibleb (sample_candidates c) = true -> readable p c.
Proof.
  intros Hp Hl Hf Hc. split; [by apply N.leb_le |]. exists (sample_candidates c). rewrite Hp.
  split; [exact Hf | by apply compatibleb_ok].
Qed.

Lemma sample_readable :
  readable sample_prepared started /\ readable sample_prepared reserved /\
  readable sample_prepared abandoned.
Proof. split_and!; apply readable_check; vm_compute; reflexivity. Qed.

Lemma sample_reserved_run : run sample_prepared [Recorded Reserved None None] reserved.
Proof.
  apply (run_record sample_prepared [] started sample_observed Reserved
           (own_completion sample_prepared) None None).
  - apply (run_begin sample_prepared sample_observed); [vm_compute; reflexivity |].
    apply sample_readable.
  - vm_compute. reflexivity.
  - apply sample_readable.
Qed.
Lemma sample_abandoned_run :
  run sample_prepared [Recorded Reserved None None; RollbackRecorded sample_discarded] abandoned.
Proof.
  apply (run_rollback sample_prepared [Recorded Reserved None None] reserved sample_observed).
  - apply sample_reserved_run.
  - vm_compute. reflexivity.
  - apply sample_readable.
Qed.

(** Witness. *)
Lemma record_phase_spec_witness :
  exists view, recover_capsule started sample_capsule_limits = Ok view /\
    phase_ready sample_prepared view sample_observed Reserved (own_completion sample_prepared)
      None None /\
    append_generation (take (N.to_nat (cv_validated_bytes view)) started) sample_identity Reserved
      (checkpoint_payload sample_prepared) sample_capsule_limits = Ok reserved.
Proof.
  apply (proj1 (proj1 (record_phase_spec sample_prepared started sample_observed Reserved
    (own_completion sample_prepared) None None reserved))).
  vm_compute. reflexivity.
Defined.

(** Witness. *)
Lemma run_history_witness :
  history [Reserved; RolledBack] /\
  resume_without_observation sample_prepared abandoned =
    Ok (mkResumePoint 2 RolledBack NoIntent).
Proof.
  destruct (run_history sample_prepared
    [Recorded Reserved None None; RollbackRecorded sample_discarded] abandoned
    sample_identity_wf sample_abandoned_run) as (Hh & _ & q & Hq & Hr).
  injection Hq as <-. split; [exact Hh | exact Hr].
Defined.

(** Witness. *)
Lemma terminal_phase_is_final_witness :
  exists e, record_reservation sample_prepared abandoned sample_observed = (abandoned, Err e).
Proof.
  pose proof (proj1 (terminal_phase_is_final sample_prepared
    [Recorded Reserved None None; RollbackRecorded sample_discarded] abandoned RolledBack
    sample_identity_wf sample_abandoned_run eq_refl (or_intror eq_refl))) as Hrefused.
  exact (Hrefused sample_observed Reserved (own_completion sample_prepared) None None).
Defined.

(** Witness. *)
Lemma torn_checkpoint_resumes_witness :
  resume_without_observation sample_prepared (take 500 reserved) =
    Ok (mkResumePoint 0 Discovered (Reserve (pc_reservations sample_prepared))).
Proof.
  assert (Hrun : run sample_prepared [] started)
    by (apply (run_begin sample_prepared sample_observed);
          [vm_compute; reflexivity | apply sample_readable]).
  rewrite (torn_checkpoint_resumes sample_prepared [] started sample_observed Reserved
    (own_completion sample_prepared) None None reserved 500 sample_identity_wf Hrun).
  - vm_compute. reflexivity.
  - vm_compute. reflexivity.
  - apply sample_readable.
  - vm_compute. lia.
Defined.
End Witnesses.
