(* ===== verification/ActivationBytes.v ===== *)
(** * Activation byte classification ([conversion/activation_bytes.rs])

    After a restart the coordinator must know how far a write group came. It
    reads the ranges of the group and compares every byte with its before-image
    and its after-image.

    The theorems: the classification reads only the ranges of the group, never
    panics, and reports exactly whether all bytes are the before-images, all are
    the after-images, each byte is one of the two (a torn group), or some byte is
    neither, independently of the chunk size; an image on which any part of the
    group was written over the before-images is never a third state. *)

From S2P Require Import Prelude Bytes Image Overlay Preimage Conversion.
From stdpp Require Import options.
#[local] Open Scope N_scope.

Record ActivationByteLimits : Type := mkActivationByteLimits {
  al_write_count : N;
  al_write_bytes : N;
  al_read_bytes : N
}.

Inductive ActivationByteState : Type :=
| ExactBefore
| ExactAfter
| MixedBeforeAfter
| ThirdState.

Inductive ByteImageSide : Type := Before | After.

Inductive ActivationByteError : Type :=
| InvalidLimit (field : string)
| EmptyGroup
| WriteCountMismatch (before after : N)
| WriteLimitExceeded (actual maximum : N)
| EmptyWrite (side : ByteImageSide) (index offset : N)
| RangesNotOrdered (side : ByteImageSide) (previous_offset next_offset : N)
| OverlappingRanges (side : ByteImageSide) (first_offset second_offset : N)
| RangeOutsideImage (side : ByteImageSide) (index offset length image_bytes : N)
| RangeMismatch (index before_offset before_length after_offset after_length : N)
| WriteByteLimitExceeded (actual maximum : N)
| ShortRead (offset expected actual : N)
| ArithmeticOverflow
| ActivationImage (source : ImageError).

(** The trait of the two kinds of writes. *)
Class CanonicalWrite (W : Type) := {
  cw_offset : W -> N;
  cw_bytes : W -> list byte
}.
#[export] Instance overlay_canonical_write : CanonicalWrite OverlayWrite := {
  cw_offset := ow_offset;
  cw_bytes := ow_bytes
}.
#[export] Instance reserved_canonical_write : CanonicalWrite ReservedWrite := {
  cw_offset w := ow_offset (rw_write w);
  cw_bytes w := ow_bytes (rw_write w)
}.

Definition validate_limits (limits : ActivationByteLimits) : outcome ActivationByteError unit :=
  refuse_if (al_write_count limits =? 0) (InvalidLimit "max_writes") ;;
  refuse_if (al_write_bytes limits =? 0) (InvalidLimit "max_write_bytes") ;;
  refuse_if (al_read_bytes limits =? 0) (InvalidLimit "max_read_bytes").

Section Write.
Context `{CanonicalWrite W}.

Definition write_length (write : W) : outcome ActivationByteError N :=
  ok_or ArithmeticOverflow (u64_try_from (len (cw_bytes write))).

(** One round of the range loop; the state is the previous write. *)
Definition validate_range (side : ByteImageSide) (image_bytes : N) (previous : option W)
    (indexed : N * W) : outcome ActivationByteError (option W) :=
  let '(index, write) := indexed in
  refuse_if (is_empty (cw_bytes write)) (EmptyWrite side index (cw_offset write)) ;;
  length ← write_length write;
  end_ ← ok_or ArithmeticOverflow (checked_add (cw_offset write) length);
  refuse_if (image_bytes <? end_)
    (RangeOutsideImage side index (cw_offset write) length image_bytes) ;;
  match previous with
  | Some first =>
      refuse_if (cw_offset write <=? cw_offset first)
        (RangesNotOrdered side (cw_offset first) (cw_offset write)) ;;
      first_length ← write_length first;
      first_end ← ok_or ArithmeticOverflow (checked_add (cw_offset first) first_length);
      refuse_if (cw_offset write <? first_end)
        (OverlappingRanges side (cw_offset first) (cw_offset write))
  | None => Ok tt
  end ;;
  Ok (Some write).
Definition validate_ranges (writes : list W) (side : ByteImageSide) (image_bytes : N)
    : outcome ActivationByteError unit :=
  last ← try_fold (validate_range side image_bytes) None (enumerate writes);
  Ok tt.
End Write.

(** The three flags of the comparison: all bytes are before-image bytes, all are
    after-image bytes, every byte is one of the two. *)
Record Flags : Type := mkFlags {
  exact_before : bool;
  exact_after : bool;
  only_before_or_after : bool
}.

(** [observed.iter().zip(before).zip(after).all(..)]. *)
Fixpoint all_between (observed before after : list byte) : bool :=
  match observed, before, after with
  | actual :: observed, b :: before, a :: after =>
      (bool_decide (actual = b) || bool_decide (actual = a)) && all_between observed before after
  | _, _, _ => true
  end.
Definition compare_chunk (flags : Flags) (observed before after : list byte) : Flags :=
  mkFlags (exact_before flags && bool_decide (observed = before))
    (exact_after flags && bool_decide (observed = after))
    (only_before_or_after flags && all_between observed before after).

Section Classify.
Context `{BoundedImageReader R} `{CanonicalWrite A}.

Definition check_pair (total_bytes : N) (indexed : N * (OverlayWrite * A))
    : outcome ActivationByteError N :=
  let '(index, (before_write, after_write)) := indexed in
  before_length ← write_length before_write;
  after_length ← write_length after_write;
  refuse_if (negb (cw_offset before_write =? cw_offset after_write)
             || negb (before_length =? after_length))
    (RangeMismatch index (cw_offset before_write) before_length
       (cw_offset after_write) after_length) ;;
  ok_or ArithmeticOverflow (checked_add total_bytes before_length).

(** The chunks of one write. Every round reads at least one byte, so one round
    more than the write has bytes is enough. *)
Fixpoint observe_write (fuel : nat) (reader : R) (chunk_bytes_u64 write_bytes : N)
    (before_write : OverlayWrite) (after_write : A) (relative : N) (flags : Flags)
    : outcome ActivationByteError Flags :=
  match fuel with
  | O => Panic
  | S fuel =>
      if relative <? write_bytes then
        remaining ← sub_u64 write_bytes relative;
        count ← ok_or ArithmeticOverflow (usize_try_from (N.min remaining chunk_bytes_u64));
        offset ← ok_or ArithmeticOverflow (checked_add (cw_offset before_write) relative);
        observed ← map_err ActivationImage (rd_read_exact_at reader offset count);
        refuse_if (negb (len observed =? count)) (ShortRead offset count (len observed)) ;;
        start ← ok_or ArithmeticOverflow (usize_try_from relative);
        end_ ← ok_or ArithmeticOverflow (checked_add start count);
        before_chunk ← index_range start end_ (cw_bytes before_write);
        after_chunk ← index_range start end_ (cw_bytes after_write);
        count_u64 ← ok_or ArithmeticOverflow (u64_try_from count);
        relative ← ok_or ArithmeticOverflow (checked_add relative count_u64);
        observe_write fuel reader chunk_bytes_u64 write_bytes before_write after_write relative
          (compare_chunk flags observed before_chunk after_chunk)
      else Ok flags
  end.

Definition observe_pair (reader : R) (chunk_bytes_u64 : N) (flags : Flags)
    (pair : OverlayWrite * A) : outcome ActivationByteError Flags :=
  let '(before_write, after_write) := pair in
  write_bytes ← write_length before_write;
  observe_write (S (N.to_nat write_bytes)) reader chunk_bytes_u64 write_bytes
    before_write after_write 0 flags.

Definition state_of_flags (flags : Flags) : ActivationByteState :=
  if exact_before flags then ExactBefore
  else if exact_after flags then ExactAfter
  else if only_before_or_after flags then MixedBeforeAfter
  else ThirdState.

Definition classify_write_group (reader : R) (before : list OverlayWrite) (after : list A)
    (limits : ActivationByteLimits) : outcome ActivationByteError ActivationByteState :=
  validate_limits limits ;;
  refuse_if (is_empty before || is_empty after) EmptyGroup ;;
  refuse_if (negb (len before =? len after)) (WriteCountMismatch (len before) (len after)) ;;
  refuse_if (al_write_count limits <? len before)
    (WriteLimitExceeded (len before) (al_write_count limits)) ;;
  let image_bytes := rd_len reader in
  validate_ranges before Before image_bytes ;;
  validate_ranges after After image_bytes ;;
  total_bytes ← try_fold check_pair 0 (enumerate (zip before after));
  refuse_if (default u64_max (u64_try_from (al_write_bytes limits)) <? total_bytes)
    (WriteByteLimitExceeded total_bytes (al_write_bytes limits)) ;;
  let chunk_bytes := N.min (al_read_bytes limits) (rd_max_read_bytes reader) in
  refuse_if (chunk_bytes =? 0) (InvalidLimit "reader max_read_bytes") ;;
  chunk_bytes_u64 ← ok_or ArithmeticOverflow (u64_try_from chunk_bytes);
  flags ← try_fold (observe_pair reader chunk_bytes_u64) (mkFlags true true true) (zip before after);
  Ok (state_of_flags flags).
End Classify.

Definition classify_reserved_write_group `{BoundedImageReader R} (reader : R)
    (before : list OverlayWrite) (after : list ReservedWrite) (limits : ActivationByteLimits)
    : outcome ActivationByteError ActivationByteState :=
  classify_write_group reader before after limits.

(** ** Specification *)
Section Spec.
Context `{CanonicalWrite A}.

Definition cw_length `{CanonicalWrite W} (w : W) : N := len (cw_bytes w).

(** The pairs cover the same ranges. *)
Definition same_range (b : OverlayWrite) (a : A) : Prop :=
  ow_offset b = cw_offset a /\ ow_length b = cw_length a.

(** The groups that are classified. *)
Record group_ok (image_bytes : N) (before : list OverlayWrite) (after : list A)
    (limits : ActivationByteLimits) : Prop := {
  go_limits : 0 < al_write_count limits /\ 0 < al_write_bytes limits /\ 0 < al_read_bytes limits;
  go_some : before <> [];
  go_count : len before <= al_write_count limits;
  go_fits : Forall (fun w => 0 < ow_length w /\ write_fits image_bytes w) before;
  go_ordered : Sorted (Prelude.before ow_offset ow_length) before;
  go_pairs : Forall2 same_range before after;
  go_bytes : sum_by ow_length before <= al_write_bytes limits
}.

(** The image carries the bytes of a write. *)
Definition carries `{CanonicalWrite W} (img : list byte) (w : W) : Prop :=
  subslice (cw_offset w) (cw_offset w + cw_length w) img = cw_bytes w.
(** Every byte of the range is the byte of one of the two writes. *)
Definition carries_either (img : list byte) (b : OverlayWrite) (a : A) : Prop :=
  forall i : nat, N.of_nat i < ow_length b ->
    img !! (N.to_nat (ow_offset b) + i)%nat = ow_bytes b !! i \/
    img !! (N.to_nat (ow_offset b) + i)%nat = cw_bytes a !! i.

Definition state_of (img : list byte) (before : list OverlayWrite) (after : list A)
    (s : ActivationByteState) : Prop :=
  match s with
  | ExactBefore => Forall (carries img) before
  | ExactAfter => ~ Forall (carries img) before /\ Forall (carries img) after
  | MixedBeforeAfter =>
      ~ Forall (carries img) before /\ ~ Forall (carries img) after /\
      Forall2 (carries_either img) before after
  | ThirdState => ~ Forall2 (carries_either img) before after
  end.
End Spec.

(** * Lemmas *)
Section Ranges.
Context `{CanonicalWrite W}.
Variables (side : ByteImageSide) (ib : N).
Hypothesis Hib : ib <= u64_max.

Definition cw_fits (w : W) : Prop := 0 < cw_length w /\ cw_offset w + cw_length w <= ib.

Lemma activation_range_Ok previous i (w : W) r :
  match previous with Some p => cw_fits p | None => True end ->
  validate_range side ib previous (i, w) = Ok r <->
  cw_fits w /\
  match previous with Some p => before cw_offset cw_length p w | None => True end /\
  r = Some w.
Proof using Hib.
  intros Hp. unfold validate_range, write_length, cw_fits in *. fold (cw_length w).
  assert (He : is_empty (cw_bytes w) = false <-> 0 < cw_length w).
  { unfold cw_length, len. destruct (cw_bytes w); simpl; split; intros; lia || done. }
  split.
  - intros Hr. apply then_Ok in Hr as [H1 Hr]. apply refuse_if_Ok, He in H1.
    apply bind_Ok in Hr as (n & Hn & Hr). apply ok_or_Ok, u64_try_from_Some in Hn as [-> _].
    apply bind_Ok in Hr as (e & Hend & Hr). apply ok_or_Ok, checked_add_Some in Hend as [-> _].
    apply then_Ok in Hr as [H2 Hr]. apply refuse_if_Ok, N.ltb_ge in H2.
    apply then_Ok in Hr as [H3 [= <-]]. split; [done |]. split; [|done].
    destruct previous as [p|]; [|done]. unfold before. fold (cw_length p) in H3.
    apply then_Ok in H3 as [H3 H4]. rewrite u64_try_from_in in H4 by lia. cbn [ok_or mbind outcome_bind] in H4.
    rewrite checked_add_in in H4 by lia. cbn [ok_or mbind outcome_bind] in H4.
    by apply refuse_if_Ok, N.ltb_ge in H4.
  - intros ([H0 H1] & Hb & ->). rewrite then_Ok. split; [by apply refuse_if_Ok, He |].
    rewrite u64_try_from_in by lia. cbn [ok_or mbind outcome_bind].
    rewrite checked_add_in by lia. cbn [ok_or mbind outcome_bind].
    rewrite then_Ok. split; [by apply refuse_if_Ok, N.ltb_ge |].
    rewrite then_Ok. split; [|done]. destruct previous as [p|]; [|done]. fold (cw_length p).
    unfold before in Hb. rewrite then_Ok. split; [apply refuse_if_Ok, N.leb_gt; lia |].
    rewrite u64_try_from_in by lia. cbn [ok_or mbind outcome_bind].
    rewrite checked_add_in by lia. cbn [ok_or mbind outcome_bind]. by apply refuse_if_Ok, N.ltb_ge.
Qed.

Lemma validate_ranges_fold l i previous :
  match previous with Some p => cw_fits p | None => True end ->
  (exists r, try_fold (validate_range side ib) previous (enumerate_from i l) = Ok r) <->
  Forall cw_fits l /\ Sorted (before cw_offset cw_length) l /\
  match previous with Some p => HdRel (before cw_offset cw_length) p l | None => True end.
Proof using Hib.
  revert i previous. induction l as [|w l IH]; intros i previous Hp; cbn [enumerate_from try_fold].
  { split; [|eauto]. intros _. split; [constructor |]. split; [constructor |]. by destruct previous. }
  split.
  - intros (r & (p' & Hw & Hr)%bind_Ok). apply activation_range_Ok in Hw as (Hf & Hb & ->); [|done].
    destruct (proj1 (IH (i + 1) (Some w) Hf) (ex_intro _ r Hr)) as (Hl & Hs & Hh).
    split; [by constructor |]. split; [by constructor |]. destruct previous; [by constructor | done].
  - intros ([Hf Hl]%Forall_cons & [Hs Hh]%Sorted_inv & Hp').
    destruct (proj2 (IH (i + 1) (Some w) Hf)) as [r Hr]; [done |]. exists r.
    eapply bind_step; [|exact Hr]. apply activation_range_Ok; [done |]. split; [done |]. split; [|done].
    destruct previous; [by apply HdRel_inv in Hp' | done].
Qed.
Lemma validate_ranges_Ok l u :
  validate_ranges l side ib = Ok u <-> Forall cw_fits l /\ Sorted (before cw_offset cw_length) l.
Proof using Hib.
  destruct (validate_ranges_fold l 0 None I) as [H1 H2]. unfold validate_ranges, enumerate. destruct u. split.
  - intros (r & Hr & _)%bind_Ok. destruct H1 as (? & ? & _); eauto.
  - intros [Hf Hs]. destruct H2 as [r Hr]; [done |]. by rewrite Hr.
Qed.
Lemma validate_ranges_safe (l : list W) : validate_ranges l side ib <> Panic.
Proof using Type.
  unfold validate_ranges. apply bind_safe; [|done]. apply try_fold_safe. intros previous [i w] _.
  unfold validate_range, write_length. safe. destruct previous; [|done]. safe.
Qed.
End Ranges.

Section Group.
Context `{BoundedImageReader R} `{CanonicalWrite A}.

Lemma check_pairs_Ok (bs : list OverlayWrite) (aws : list A) i acc t :
  length bs = length aws ->
  acc + sum_by ow_length bs <= u64_max -> Forall (fun a => cw_length a <= u64_max) aws ->
  try_fold check_pair acc (enumerate_from i (zip bs aws)) = Ok t <->
  Forall2 same_range bs aws /\ t = acc + sum_by ow_length bs.
Proof.
  revert aws i acc. induction bs as [|b bs IH]; intros [|a aws] i acc Hl Hs Ha; try done.
  { cbn [zip zip_with enumerate_from try_fold]. unfold sum_by. simpl. rewrite N.add_0_r.
    split; [intros [= <-]; done | by intros [_ ->]]. }
  apply Forall_cons in Ha as [Ha Has]. rewrite sum_by_cons in *. cbn [zip zip_with enumerate_from try_fold].
  assert (Hc : forall r, check_pair acc (i, (b, a)) = Ok r <-> same_range b a /\ r = acc + ow_length b).
  { intros r. unfold check_pair, write_length, same_range. fold (ow_length b). fold (cw_length a).
    cbn [cw_offset cw_bytes overlay_canonical_write]. fold (ow_length b).
    rewrite u64_try_from_in by lia. cbn [ok_or mbind outcome_bind].
    rewrite u64_try_from_in by lia. cbn [ok_or mbind outcome_bind]. rewrite then_Ok, refuse_if_Ok.
    rewrite orb_false_iff, !negb_false_iff, !N.eqb_eq, checked_add_in by lia. cbn [ok_or].
    split; [intros [? [= <-]]; done | intros [? ->]; done]. }
  rewrite Forall2_cons. split.
  - intros (r & Hr & Ht)%bind_Ok. apply Hc in Hr as [Hb ->]. apply IH in Ht as [Hf ->]; [|by injection Hl | lia | done].
    split; [done | lia].
  - intros [[Hb Hf] ->]. apply (bind_step _ _ (acc + ow_length b)); [by apply Hc |].
    apply IH; [by injection Hl | lia | done |]. split; [done | lia].
Qed.

Lemma compare_nil flags : compare_chunk flags [] [] [] = flags.
Proof. destruct flags as [b a o]. unfold compare_chunk. simpl. by rewrite !andb_true_r. Qed.
Lemma eq_app_bool (o1 o2 b1 b2 : list byte) :
  length o1 = length b1 ->
  bool_decide (o1 ++ o2 = b1 ++ b2) = bool_decide (o1 = b1) && bool_decide (o2 = b2).
Proof.
  intros Hl. rewrite <- bool_decide_and. apply bool_decide_ext. split; [|by intros [-> ->]].
  intros He. by apply app_inj_1 in He.
Qed.
Lemma between_app o1 o2 b1 b2 a1 a2 :
  length o1 = length b1 -> length o1 = length a1 ->
  all_between (o1 ++ o2) (b1 ++ b2) (a1 ++ a2) = all_between o1 b1 a1 && all_between o2 b2 a2.
Proof.
  revert b1 a1. induction o1 as [|o o1 IH]; intros [|b b1] [|a a1] Hb Ha; try done. cbn [all_between app].
  injection Hb as Hb. injection Ha as Ha. rewrite IH by done. apply andb_assoc.
Qed.
Lemma compare_app flags o1 o2 b1 b2 a1 a2 :
  length o1 = length b1 -> length o1 = length a1 ->
  compare_chunk (compare_chunk flags o1 b1 a1) o2 b2 a2 =
  compare_chunk flags (o1 ++ o2) (b1 ++ b2) (a1 ++ a2).
Proof.
  intros Hb Ha. unfold compare_chunk. cbn [exact_before exact_after only_before_or_after].
  by rewrite !eq_app_bool, between_app, !andb_assoc.
Qed.
Lemma all_between_spec o b a :
  length o = length b -> length o = length a ->
  all_between o b a = true <-> forall i, (i < length o)%nat -> o !! i = b !! i \/ o !! i = a !! i.
Proof.
  revert b a. induction o as [|x o IH]; intros [|y b] [|z a] Hb Ha; try done.
  { split; [intros _ i Hi; simpl in Hi; lia | done]. }
  injection Hb as Hb. injection Ha as Ha. cbn [all_between]. rewrite andb_true_iff, IH by done.
  rewrite orb_true_iff, !bool_decide_eq_true. split.
  - intros [Hx Hr] [|i] Hi; simpl in *; [|apply Hr; lia]. destruct Hx as [->| ->]; auto.
  - intros Hr. split.
    + specialize (Hr 0%nat ltac:(simpl; lia)). simpl in Hr. destruct Hr as [[= ->]|[= ->]]; auto.
    + intros i Hi. apply (Hr (S i)). simpl. lia.
Qed.

(** What the comparison of one pair, and of a list of pairs, adds to the flags. *)
Definition window (img : list byte) (b : OverlayWrite) : list byte :=
  subslice (ow_offset b) (ow_offset b + ow_length b) img.
Definition compare_pair (img : list byte) (flags : Flags) (pair : OverlayWrite * A) : Flags :=
  compare_chunk flags (window img pair.1) (ow_bytes pair.1) (cw_bytes pair.2).

Lemma observe_write_spec fuel (reader : R) img chunk b a relative flags :
  Faithful reader img -> 0 < chunk -> chunk <= u64_max ->
  ow_offset b + ow_length b <= len img -> same_range b a ->
  relative <= ow_length b -> (N.to_nat (ow_length b - relative) < fuel)%nat ->
  let result := compare_chunk flags (subslice (ow_offset b + relative) (ow_offset b + ow_length b) img)
      (subslice relative (ow_length b) (ow_bytes b)) (subslice relative (ow_length b) (cw_bytes a)) in
  observe_write fuel reader chunk (ow_length b) b a relative flags <> Panic /\
  (forall f, observe_write fuel reader chunk (ow_length b) b a relative flags = Ok f -> f = result) /\
  (Serving reader img -> chunk <= rd_max_read_bytes reader ->
   observe_write fuel reader chunk (ow_length b) b a relative flags = Ok result).
Proof.
  intros Hf Hpos Hc Hfit [Ho Hl]. pose proof (faithful_fits _ _ Hf). revert relative flags.
  induction fuel as [|fuel IH]; intros relative flags Hrel Hfuel; [lia |]. cbn [observe_write].
  destruct (N.ltb_spec relative (ow_length b)) as [Hlt|Hge].
  2: { replace relative with (ow_length b) by lia. unfold subslice. rewrite !N.sub_diag. cbn zeta.
    cbn [N.to_nat take]. rewrite !take_0, compare_nil. naive_solver. }
  cbn zeta. rewrite sub_u64_in by lia. cbn [mbind outcome_bind].
  set (count := N.min (ow_length b - relative) chunk).
  rewrite (usize_try_from_in count) by (unfold usize_max; lia). cbn [ok_or mbind outcome_bind].
  cbn [cw_offset cw_bytes overlay_canonical_write].
  rewrite (checked_add_in (ow_offset b) relative) by lia. cbn [ok_or mbind outcome_bind].
  assert (Hb : len (ow_bytes b) = ow_length b) by done.
  assert (Ha : len (cw_bytes a) = ow_length b) by (by rewrite Hl).
  set (observed := subslice (ow_offset b + relative) (ow_offset b + relative + count) img).
  assert (Hobs : len observed = count) by (unfold observed; rewrite len_subslice; lia).
  destruct (IH (relative + count) (compare_chunk flags observed
    (subslice relative (relative + count) (ow_bytes b)) (subslice relative (relative + count) (cw_bytes a))))
    as (Hs & Hr & Ht); [lia | lia |]. cbn zeta in Hr, Ht.
  rewrite compare_app in Hr, Ht by (apply Nat2N.inj; fold (len observed); rewrite Hobs;
    match goal with |- _ = N.of_nat (length ?l) => fold (len l) end; rewrite len_subslice; lia).
  unfold observed in Hr, Ht. rewrite N.add_assoc, !subslice_split in Hr, Ht by lia. fold observed in Hr, Ht.
  destruct (rd_read_exact_at reader (ow_offset b + relative) count) as [bytes|e|] eqn:Hread;
    cbn [map_err mbind outcome_bind].
  - pose proof (faithful_read _ _ Hf _ _ _ Hread) as (_ & _ & ->). fold observed.
    rewrite Hobs, N.eqb_refl. cbn [negb refuse_if mbind outcome_bind].
    rewrite (usize_try_from_in relative) by (unfold usize_max; lia). cbn [ok_or mbind outcome_bind].
    rewrite (checked_add_in relative count) by lia. cbn [ok_or mbind outcome_bind].
    rewrite index_range_in by lia. cbn [mbind outcome_bind].
    rewrite index_range_in by lia. cbn [mbind outcome_bind].
    rewrite (u64_try_from_in count) by lia. cbn [ok_or mbind outcome_bind].
    rewrite checked_add_in by lia. cbn [ok_or mbind outcome_bind]. done.
  - split; [done |]. split; [done |]. intros Hsv Hm. rewrite (serving_read _ _ Hsv) in Hread by lia. done.
  - by apply (faithful_safe _ _ Hf) in Hread.
Qed.

Lemma observe_pairs_spec (reader : R) img chunk bs (aws : list A) flags :
  Faithful reader img -> 0 < chunk -> chunk <= u64_max ->
  Forall (write_fits (len img)) bs -> Forall2 same_range bs aws ->
  let result := foldl (compare_pair img) flags (zip bs aws) in
  try_fold (observe_pair reader chunk) flags (zip bs aws) <> Panic /\
  (forall f, try_fold (observe_pair reader chunk) flags (zip bs aws) = Ok f -> f = result) /\
  (Serving reader img -> chunk <= rd_max_read_bytes reader ->
   try_fold (observe_pair reader chunk) flags (zip bs aws) = Ok result).
Proof.
  intros Hf Hpos Hc Hfit Hp. pose proof (faithful_fits _ _ Hf). revert flags.
  induction Hp as [|b a bs aws Hba Hp IH]; intros flags; [naive_solver |].
  apply Forall_cons in Hfit as [Hb Hfit]. unfold write_fits in Hb. cbn [zip zip_with try_fold foldl].
  destruct (observe_write_spec (S (N.to_nat (ow_length b))) reader img chunk b a 0 flags Hf Hpos Hc Hb Hba)
    as (Hs & Hr & Ht); [lia | lia |]. cbn zeta in Hr, Ht.
  assert (Ha : cw_length a = ow_length b) by (by destruct Hba).
  rewrite N.add_0_r, (subslice_whole (ow_bytes b)), (subslice_whole (cw_bytes a)) in Hr, Ht by done.
  assert (Hstep : observe_pair reader chunk flags (b, a) =
    observe_write (S (N.to_nat (ow_length b))) reader chunk (ow_length b) b a 0 flags).
  { unfold observe_pair, write_length. cbn [cw_bytes overlay_canonical_write]. fold (ow_length b).
    rewrite u64_try_from_in by lia. done. }
  rewrite Hstep. cbn zeta.
  destruct (IH Hfit (compare_pair img flags (b, a))) as (IHs & IHr & IHt). unfold compare_pair in *.
  cbn [fst snd] in *. fold (window img b) in Hr, Ht.
  destruct (observe_write _ _ _ _ _ _ _ _) as [f|e|] eqn:He; cbn [mbind outcome_bind]; [| |done].
  - rewrite (Hr f eq_refl). done.
  - split; [done |]. split; [done |]. intros Hsv Hm. specialize (Ht Hsv Hm). done.
Qed.

(** The flags of a group. *)
Lemma group_flags img bs (aws : list A) flags :
  Forall (write_fits (len img)) bs -> Forall2 same_range bs aws ->
  let f := foldl (compare_pair img) flags (zip bs aws) in
  (exact_before f = true <-> exact_before flags = true /\ Forall (carries img) bs) /\
  (exact_after f = true <-> exact_after flags = true /\ Forall (carries img) aws) /\
  (only_before_or_after f = true <->
   only_before_or_after flags = true /\ Forall2 (carries_either img) bs aws).
Proof.
  intros Hfit Hp. revert flags. induction Hp as [|b a bs aws [Ho Hl] Hp IH]; intros flags.
  { cbn. rewrite !Forall_nil, Forall2_nil. tauto. }
  apply Forall_cons in Hfit as [Hb Hfit]. unfold write_fits in Hb. cbn [zip zip_with foldl].
  destruct (IH Hfit (compare_pair img flags (b, a))) as (IHb & IHa & IHo).
  cbn zeta. rewrite IHb, IHa, IHo, !Forall_cons, Forall2_cons.
  unfold compare_pair, compare_chunk. cbn [exact_before exact_after only_before_or_after fst snd].
  rewrite !andb_true_iff, !bool_decide_eq_true.
  assert (Hw : length (window img b) = length (ow_bytes b)).
  { apply Nat2N.inj. fold (len (window img b)). fold (len (ow_bytes b)). unfold window.
    rewrite len_subslice by lia. unfold ow_length. lia. }
  assert (Hwa : length (window img b) = length (cw_bytes a)).
  { rewrite Hw. apply Nat2N.inj. exact Hl. }
  rewrite all_between_spec by done.
  assert (Hcb : carries img b <-> window img b = ow_bytes b) by reflexivity.
  assert (Hca : carries img a <-> window img b = cw_bytes a).
  { unfold carries, window. by rewrite <- Ho, <- Hl. }
  assert (Hce : carries_either img b a <-> forall i, (i < length (window img b))%nat ->
    window img b !! i = ow_bytes b !! i \/ window img b !! i = cw_bytes a !! i).
  { unfold carries_either.
    assert (Hn : forall i, (i < length (window img b))%nat <-> N.of_nat i < ow_length b)
      by (intros i; rewrite Hw; unfold ow_length, len; lia).
    assert (He : forall i, N.of_nat i < ow_length b ->
      window img b !! i = img !! (N.to_nat (ow_offset b) + i)%nat)
      by (intros i Hi; apply subslice_lookup; lia).
    split; intros Hx i Hi.
    - rewrite He by (by apply Hn). apply Hx, Hn, Hi.
    - rewrite <- He by done. apply Hx, Hn, Hi. }
  rewrite Hcb, Hca, Hce. tauto.
Qed.

Lemma activation_limits_Ok l u :
  validate_limits l = Ok u <-> 0 < al_write_count l /\ 0 < al_write_bytes l /\ 0 < al_read_bytes l.
Proof. unfold validate_limits. destruct u. rewrite !then_Ok, !refuse_if_Ok, !N.eqb_neq. lia. Qed.
Lemma same_ranges_sound bs (aws : list A) ib :
  Forall2 same_range bs aws -> Forall (fun w => 0 < ow_length w /\ write_fits ib w) bs ->
  Sorted (before ow_offset ow_length) bs ->
  Forall (cw_fits ib) aws /\ Sorted (before cw_offset cw_length) aws.
Proof.
  intros Hp. induction Hp as [|b a bs aws [Ho Hl] Hp IH]; intros Hf Hs; [by split; constructor |].
  apply Forall_cons in Hf as [Hb Hf]. apply Sorted_inv in Hs as [Hs Hh]. destruct (IH Hf Hs) as [Ha Hsa].
  unfold write_fits in Hb. split; constructor; try done.
  - unfold cw_fits. rewrite <- Ho, <- Hl. lia.
  - destruct Hp as [|b' a' bs aws [Ho' Hl'] Hp]; constructor. apply HdRel_inv in Hh.
    unfold before in *. by rewrite <- Ho, <- Hl, <- Ho'.
Qed.

(** The flags decide the state. *)
Lemma state_of_flags_spec img bs (aws : list A) :
  Forall (write_fits (len img)) bs -> Forall2 same_range bs aws ->
  state_of img bs aws (state_of_flags (foldl (compare_pair img) (mkFlags true true true) (zip bs aws))).
Proof.
  intros Hfit Hp. destruct (group_flags img bs aws (mkFlags true true true) Hfit Hp) as (Hb & Ha & Ho).
  cbn zeta in *. cbn [exact_before exact_after only_before_or_after] in Hb, Ha, Ho.
  destruct (foldl (compare_pair img) _ _) as [fb fa fo]. unfold state_of_flags, state_of.
  cbn [exact_before exact_after only_before_or_after] in *.
  destruct fb; [by apply Hb |]. destruct fa; [split; [by intros ?%(conj eq_refl)%Hb | by apply Ha] |].
  destruct fo.
  - split; [by intros ?%(conj eq_refl)%Hb |]. split; [by intros ?%(conj eq_refl)%Ha | by apply Ho].
  - by intros ?%(conj eq_refl)%Ho.
Qed.

Lemma classify_group_ok (reader : R) bs (aws : list A) limits s :
  rd_len reader <= u64_max -> al_write_bytes limits <= u64_max ->
  classify_write_group reader bs aws limits = Ok s ->
  group_ok (rd_len reader) bs aws limits.
Proof.
  intros Hlen Hm Hc. unfold classify_write_group in Hc.
  apply then_Ok in Hc as [H1 Hc]. apply activation_limits_Ok in H1.
  apply then_Ok in Hc as [H2 Hc]. apply refuse_if_Ok in H2. apply then_Ok in Hc as [H3 Hc].
  apply then_Ok in Hc as [H4 Hc]. apply then_Ok in Hc as [H5 Hc]. apply then_Ok in Hc as [H6 Hc].
  apply bind_Ok in Hc as (t & Ht & Hc). apply then_Ok in Hc as [H7 _].
  apply refuse_if_Ok in H3, H4, H7. bool_props. rewrite u64_try_from_in in H7 by done. simpl in H7.
  apply (validate_ranges_Ok Before _ Hlen) in H5 as [Hfit Hs].
  apply (validate_ranges_Ok After _ Hlen) in H6 as [Hfa _].
  assert (Hsum : sum_by ow_length bs <= rd_len reader)
    by (apply (disjoint_sum_bound ow_offset); [by apply adjacent_disjoint | exact Hfit]).
  apply (check_pairs_Ok bs aws 0 0) in Ht as [Hp ->].
  - split; [done | by intros -> | done | exact Hfit | exact Hs | done | lia].
  - unfold len in *. lia.
  - lia.
  - eapply Forall_impl; [exact Hfa |]. intros a [_ Ha]. lia.
Qed.

(** With an admissible group the classification comes down to the comparison. *)
Lemma classify_compares (reader : R) bs (aws : list A) limits :
  rd_len reader <= u64_max -> al_write_bytes limits <= u64_max -> al_read_bytes limits <= u64_max ->
  0 < rd_max_read_bytes reader -> group_ok (rd_len reader) bs aws limits ->
  classify_write_group reader bs aws limits =
    flags ← try_fold (observe_pair reader (N.min (al_read_bytes limits) (rd_max_read_bytes reader)))
      (mkFlags true true true) (zip bs aws);
    Ok (state_of_flags flags).
Proof.
  intros Hlen Hm Hr Hpos [Hl Hne Hc Hfit Hs Hp Hb]. unfold classify_write_group.
  destruct (same_ranges_sound _ _ _ Hp Hfit Hs) as [Hfa Hsa]. pose proof (Forall2_length _ _ _ Hp) as Hlens.
  rewrite (proj2 (activation_limits_Ok limits tt) Hl). cbn [mbind outcome_bind].
  assert (Hsum : sum_by ow_length bs <= rd_len reader)
    by (apply (disjoint_sum_bound ow_offset); [by apply adjacent_disjoint | exact Hfit]).
  replace (is_empty bs || is_empty aws) with false by (destruct bs, aws; done).
  replace (len bs =? len aws) with true by (symmetry; apply N.eqb_eq; unfold len; lia).
  rewrite (proj2 (N.ltb_ge _ _) Hc). cbn [refuse_if negb mbind outcome_bind].
  rewrite (proj2 (validate_ranges_Ok Before _ Hlen bs tt)) by done. cbn [mbind outcome_bind].
  rewrite (proj2 (validate_ranges_Ok After _ Hlen aws tt)) by done. cbn [mbind outcome_bind].
  unfold enumerate. rewrite (proj2 (check_pairs_Ok bs aws 0 0 (sum_by ow_length bs) Hlens ltac:(lia)
    ltac:(eapply Forall_impl; [exact Hfa |]; intros a [_ ?]; lia))) by done.
  cbn [mbind outcome_bind]. rewrite (u64_try_from_in (al_write_bytes limits)) by done. cbn [from_option id].
  rewrite (proj2 (N.ltb_ge _ _) Hb). cbn [refuse_if mbind outcome_bind].
  rewrite (proj2 (N.eqb_neq _ 0)) by lia. cbn [refuse_if mbind outcome_bind].
  rewrite u64_try_from_in by lia. done.
Qed.

Lemma classify_safe (reader : R) bs (aws : list A) limits :
  rd_len reader <= u64_max -> al_write_bytes limits <= u64_max ->
  (forall chunk flags, Forall2 same_range bs aws -> Forall (write_fits (rd_len reader)) bs ->
     0 < chunk -> chunk <= al_read_bytes limits ->
     try_fold (observe_pair reader chunk) flags (zip bs aws) <> Panic) ->
  classify_write_group reader bs aws limits <> Panic.
Proof.
  intros Hlen Hm Hobs. unfold classify_write_group.
  apply bind_safe; [unfold validate_limits; safe | intros _ _].
  apply bind_safe; [apply refuse_if_safe | intros _ _].
  apply bind_safe; [apply refuse_if_safe | intros u3 H3]. apply bind_safe; [apply refuse_if_safe | intros _ _].
  apply bind_safe; [apply validate_ranges_safe | intros u5 H5].
  apply bind_safe; [apply validate_ranges_safe | intros u6 H6].
  apply bind_safe; [apply try_fold_safe; intros t [i [b a]] _; unfold check_pair, write_length; safe |].
  intros t Ht. apply bind_safe; [apply refuse_if_safe | intros _ _].
  apply bind_safe; [apply refuse_if_safe | intros u8 H8].
  apply bind_safe; [apply ok_or_safe |]. intros c Hc. apply ok_or_Ok, u64_try_from_Some in Hc as [-> _].
  apply refuse_if_Ok in H3, H8. bool_props.
  apply (validate_ranges_Ok Before _ Hlen) in H5 as [Hfit Hs].
  apply (validate_ranges_Ok After _ Hlen) in H6 as [Hfa _].
  assert (Hsum : sum_by ow_length bs <= rd_len reader)
    by (apply (disjoint_sum_bound ow_offset); [by apply adjacent_disjoint | exact Hfit]).
  apply (check_pairs_Ok bs aws 0 0) in Ht as [Hp _].
  - apply bind_safe; [apply Hobs; [done | eapply Forall_impl; [exact Hfit | by intros w []] | lia | lia] | done].
  - unfold len in *. lia.
  - lia.
  - eapply Forall_impl; [exact Hfa |]. intros a [_ Ha]. lia.
Qed.
End Group.

(** * Properties *)

(** C27: the restart classification of a write group never panics. When it
    answers, the group was admissible, and the answer is the relation of the
    image to the group: all ranges carry their before-images; else all carry
    their after-images; else every byte is one of the two; and a third state
    exactly when some byte is neither. Over a reader that serves the image every
    admissible group gets an answer. *)
Theorem activation_classified `{BoundedImageReader R} `{CanonicalWrite A} (reader : R) img
    (before : list OverlayWrite) (after : list A) limits :
  Faithful reader img -> al_write_bytes limits <= u64_max -> al_read_bytes limits <= u64_max ->
  classify_write_group reader before after limits <> Panic /\
  (forall s, classify_write_group reader before after limits = Ok s ->
     group_ok (len img) before after limits /\ state_of img before after s) /\
  (Serving reader img -> group_ok (len img) before after limits ->
   exists s, classify_write_group reader before after limits = Ok s).
Proof.
  intros Hf Hw Hr. pose proof (faithful_fits _ _ Hf) as Hfit. pose proof (faithful_len _ _ Hf) as Hl.
  pose proof (faithful_max _ _ Hf) as Hmax. rewrite <- Hl in Hfit.
  assert (Hg : group_ok (rd_len reader) before after limits ->
    Forall (write_fits (len img)) before /\ Forall2 same_range before after).
  { intros [_ _ _ Hb _ Hp _]. rewrite <- Hl. split; [|done].
    eapply Forall_impl; [exact Hb | by intros w []]. }
  split; [|split].
  - apply classify_safe; [done | done |]. intros chunk flags Hp Hb Hpos Hc. rewrite Hl in Hb.
    apply (observe_pairs_spec reader img); [done | done | lia | done | done].
  - intros s Hs. pose proof (classify_group_ok _ _ _ _ _ Hfit Hw Hs) as Hok.
    destruct (Hg Hok) as [Hb Hp]. rewrite Hl in Hok. split; [done |]. rewrite <- Hl in Hok.
    rewrite classify_compares in Hs by done. apply bind_Ok in Hs as (f & Hobs & [= <-]).
    assert (Hcl : 0 < al_read_bytes limits) by apply Hok.
    apply (observe_pairs_spec reader img) in Hobs as ->; [|done | lia | lia | done | done].
    by apply state_of_flags_spec.
  - intros Hsv Hok. rewrite <- Hl in Hok. destruct (Hg Hok) as [Hb Hp].
    rewrite classify_compares by done. assert (Hcl : 0 < al_read_bytes limits) by apply Hok.
    destruct (observe_pairs_spec reader img (N.min (al_read_bytes limits) (rd_max_read_bytes reader))
      before after (mkFlags true true true)) as (_ & _ & Ht); [done | lia | lia | done | done |].
    rewrite Ht by (done || lia). by eexists.
Qed.

(** A group of two writes, of which the first was written and the second torn. *)
Definition sample_group_before : list OverlayWrite :=
  [mkOverlayWrite 4 [x00; x00]; mkOverlayWrite 8 [x00; x00; x00]].
Definition sample_group_after : list OverlayWrite :=
  [mkOverlayWrite 4 [x01; x01]; mkOverlayWrite 8 [x02; x02; x02]].
Definition sample_torn : list byte :=
  patch (replicate 16 x00) [mkOverlayWrite 4 [x01; x01]; mkOverlayWrite 8 [x02]].
Definition sample_group_limits : ActivationByteLimits := mkActivationByteLimits 2 16 2.
Example sample_group_classified :
  classify_write_group (quiet_image sample_torn 7) sample_group_before sample_group_after
    sample_group_limits = Ok MixedBeforeAfter.
Proof. vm_compute. reflexivity. Qed.

Lemma activation_classified_witness :
  group_ok (len sample_torn) sample_group_before sample_group_after sample_group_limits /\
  state_of sample_torn sample_group_before sample_group_after MixedBeforeAfter.
Proof.
  assert (Hs : Serving (quiet_image sample_torn 7) sample_torn)
    by (apply quiet_image_serving; [vm_compute; discriminate | vm_compute; reflexivity]).
  assert (Hw : al_write_bytes sample_group_limits <= u64_max) by (vm_compute; discriminate).
  assert (Hr : al_read_bytes sample_group_limits <= u64_max) by (vm_compute; discriminate).
  exact (proj1 (proj2 (activation_classified (quiet_image sample_torn 7) sample_torn sample_group_before
    sample_group_after sample_group_limits (serving_faithful _ _ Hs) Hw Hr)) MixedBeforeAfter
    sample_group_classified).
Defined.
