(* ===== verification/Prepare.v ===== *)
(** * Building a prepared conversion ([conversion.rs], [build] and its validators)

    The planner of an in-place conversion: evidence, allocations, reservations
    and write groups are validated, the layout is solved, the target graph is
    checked against the relocated projection, and the forward and rollback
    overlays, the digests and the recovery bundle are derived. *)

From S2P Require Import Prelude Digest Image Extent Object Overlay Recovery Geometry Planner Preimage Relocate Capsule Conversion.
From stdpp Require Import options.
#[local] Open Scope N_scope.

Record TargetCapabilities : Type := mkTargetCapabilities {
  tc_filesystem : FileSystem;
  tc_features : list FeatureCompatibility
}.
(** [ActivationAuthorizedWrites] of [phase.rs]. *)
Record ActivationAuthorizedWrites : Type := mkActivationAuthorizedWrites {
  aw_filesystem : FileSystem;
  aw_writes : OpaqueWriteSets
}.
Record ConversionDraft : Type := mkConversionDraft {
  cd_transaction_id : list byte;
  cd_preflight : PreflightEvidence;
  cd_target : TargetCapabilities;
  cd_source_allocations : list SourceAllocation;
  cd_reservations : list DestinationReservation;
  cd_writes : ActivationAuthorizedWrites
}.
Record ConversionLimits : Type := mkConversionLimits {
  cl_layout : LayoutLimits;
  cl_overlay : OverlayLimits;
  cl_capsule : CapsuleLimits;
  cl_max_feature_rules : N;
  cl_max_total_writes : N;
  cl_max_total_write_bytes : N
}.
Definition ConversionLimits_default : ConversionLimits := {|
  cl_layout := LayoutLimits_default;
  cl_overlay := OverlayLimits_default;
  cl_capsule := CapsuleLimits_default;
  cl_max_feature_rules := 64;
  cl_max_total_writes := 2 * 1024 * 1024;
  cl_max_total_write_bytes := 1024 * 1024 * 1024
|}.

#[export] Instance ExtentGraph_eq_dec : EqDecision ExtentGraph.
Proof. solve_decision. Defined.
#[export] Instance ObjectGraph_eq_dec : EqDecision ObjectGraph.
Proof. solve_decision. Defined.

(** ** Validators *)
Definition validate_limits (limits : ConversionLimits) : conversion unit :=
  for_each (fun fv : string * N => refuse_if (fv.2 =? 0) (InvalidLimit fv.1))
    [("max_feature_rules"%string, cl_max_feature_rules limits);
     ("max_total_writes"%string, cl_max_total_writes limits);
     ("max_total_write_bytes"%string, cl_max_total_write_bytes limits)].

Definition validate_initial_capsule_generation (payload_bytes : N) (limits : CapsuleLimits)
    : conversion unit :=
  refuse_if (cl_max_generation_bytes limits <? payload_bytes)
    (CapsuleFailure (GenerationTooLarge payload_bytes (cl_max_generation_bytes limits))) ;;
  record_bytes ← ok_or (CapsuleFailure Capsule.ArithmeticOverflow)
    (headers ← checked_mul Capsule.HEADER_BYTES 2; checked_add headers payload_bytes);
  refuse_if (cl_max_capsule_bytes limits <? record_bytes)
    (CapsuleFailure (CapsuleTooLarge record_bytes (cl_max_capsule_bytes limits))).

Definition validate_preflight (graph : ObjectGraph) (evidence : PreflightEvidence)
    (target : FileSystem) : conversion unit :=
  refuse_if (bool_decide (pf_source_filesystem evidence = UnknownFileSystem)
             || bool_decide (target = UnknownFileSystem)) UnknownFilesystemError ;;
  refuse_if (bool_decide (pf_source_filesystem evidence = target)) SameFilesystem ;;
  let volume := eg_volume_bytes (og_extents graph) in
  refuse_if (negb (volume =? ct_image_bytes (pf_image evidence)))
    (ImageLengthMismatch volume (ct_image_bytes (pf_image evidence))) ;;
  refuse_if (negb (pf_inventory_complete evidence)) InventoryIncomplete ;;
  refuse_if (negb (pf_allocation_map_complete evidence)) AllocationMapIncomplete ;;
  require_clean_offline (pf_health evidence) (pf_access evidence) ;;
  let sector := pf_sector_bytes evidence in
  let alignment := pf_allocation_alignment evidence in
  refuse_if ((sector =? 0) || negb (is_power_of_two sector)) (InvalidSectorSize sector) ;;
  refuse_if ((alignment =? 0) || negb (is_power_of_two alignment)) (InvalidAlignment alignment) ;;
  remainder ← rem_u64 alignment sector;
  refuse_if (negb (remainder =? 0)) (InvalidAlignment alignment).

Definition native_feature (target : FileSystem) (feature : SemanticFeature) : bool :=
  bool_decide (target = Ntfs) && negb (bool_decide (feature = CaseCollisions)).

Definition check_feature (target : FileSystem) (rules : list FeatureCompatibility)
    (feature : SemanticFeature) : conversion unit :=
  rule ← ok_or (MissingFeatureRule feature)
    (find (fun rule => bool_decide (fc_feature rule = feature)) rules);
  match fc_method rule with
  | Native =>
      refuse_if (negb (native_feature target feature)) (UnsupportedNativeFeature feature target)
  | EscrowMethod schema_version payload_digest =>
      refuse_if ((schema_version =? 0) || bool_decide (payload_digest = replicate 32 x00))
        (InvalidEscrowRule feature)
  end.

(** [validate_features] sorts the rules of the target in place. *)
Definition validate_features (graph : ObjectGraph) (target : TargetCapabilities) (maximum : N)
    : conversion TargetCapabilities :=
  refuse_if (maximum <? len (tc_features target))
    (FeatureRuleLimitExceeded (len (tc_features target)) maximum) ;;
  let rules := sort_by_key (fun rule => feature_key (fc_feature rule)) (tc_features target) in
  for_windows2 (fun a b => refuse_if (bool_decide (fc_feature a = fc_feature b))
                             (DuplicateFeatureRule (fc_feature a))) rules ;;
  for_each (check_feature (tc_filesystem target) rules) (og_features graph) ;;
  for_each (fun rule => refuse_if (negb (bool_decide (fc_feature rule ∈ og_features graph)))
                          (FeatureNotPresent (fc_feature rule))) rules ;;
  Ok (mkTargetCapabilities (tc_filesystem target) rules).

(** The allocation names exactly this extent. *)
Definition names_extent (extent : Extent) (allocation : SourceAllocation) : bool :=
  (ex_stream extent =? sa_stream allocation)
  && (ex_logical_offset extent =? sa_logical_offset allocation)
  && (ex_length extent =? br_length (sa_range allocation))
  && bool_decide (ex_placement extent = Physical (br_offset (sa_range allocation))).

Definition check_extent_allocation (allocations : list SourceAllocation) (extent : Extent)
    : conversion unit :=
  match ex_placement extent with
  | Sparse => Ok tt
  | Physical byte_offset =>
      matched ← ok_or (MissingGraphAllocation (ex_stream extent) (ex_logical_offset extent))
        (find (fun allocation =>
                 (sa_stream allocation =? ex_stream extent)
                 && (sa_logical_offset allocation =? ex_logical_offset extent)
                 && bool_decide (sa_range allocation = mkByteRange byte_offset (ex_length extent)))
              allocations);
      refuse_if (sa_movable matched && negb (bool_decide (ex_kind extent = FileData)))
        (UnsafeMovableAllocation (ex_stream extent) (ex_logical_offset extent))
  end.

Definition check_movable (extents : list Extent) (allocation : SourceAllocation)
    : conversion unit :=
  if sa_movable allocation then
    let safe := existsb (fun extent => names_extent extent allocation
                                       && bool_decide (ex_kind extent = FileData)) extents in
    refuse_if (negb safe)
      (UnsafeMovableAllocation (sa_stream allocation) (sa_logical_offset allocation))
  else Ok tt.

Definition validate_source_allocations (graph : ObjectGraph)
    (allocations : list SourceAllocation) : conversion unit :=
  let extents := eg_extents (og_extents graph) in
  for_each (check_extent_allocation allocations) extents ;;
  for_each (check_movable extents) allocations.

Definition is_graph_allocation (graph : ObjectGraph) (allocation : SourceAllocation) : bool :=
  existsb (fun extent => names_extent extent allocation) (eg_extents (og_extents graph)).
Definition partition_source_allocations (graph : ObjectGraph)
    (allocations : list SourceAllocation) : list SourceAllocation * list ByteRange :=
  (filter (fun a => Is_true (is_graph_allocation graph a)) allocations,
   sa_range <$> filter (fun a => ~ is_graph_allocation graph a) allocations).

Definition validate_required_reservations (reservations : list DestinationReservation)
    : conversion unit :=
  for_each (fun kind =>
      refuse_if (negb (existsb (fun r => bool_decide (dr_kind r = kind)) reservations))
        (MissingReservation kind))
    [BootRegion; AllocationMetadata; NamespaceMetadata].

(** The number of writes in the six groups. *)
Definition count_writes (writes : OpaqueWriteSets) : option N :=
  v ← checked_add (len (ws_target_staging writes)) (len (ws_backup_boot writes));
  v ← checked_add v (len (ws_activation writes));
  v ← checked_add v (len (ws_target_staging_rollback writes));
  v ← checked_add v (len (ws_backup_boot_rollback writes));
  checked_add v (len (ws_activation_rollback writes)).

Definition forward_writes (writes : OpaqueWriteSets) : list OverlayWrite :=
  rw_write <$> (ws_target_staging writes ++ ws_backup_boot writes ++ ws_activation writes).
Definition rollback_writes (writes : OpaqueWriteSets) : list OverlayWrite :=
  ws_target_staging_rollback writes ++ ws_backup_boot_rollback writes
  ++ ws_activation_rollback writes.

Definition add_length (sum : N) (write : OverlayWrite) : conversion N :=
  ok_or ArithmeticOverflow (checked_add sum (len (ow_bytes write))).

Definition validate_write_caps (writes : OpaqueWriteSets) (limits : ConversionLimits)
    : conversion unit :=
  for_each (fun se : string * bool => refuse_if se.2 (EmptyWriteSet se.1))
    [("target_staging"%string, is_empty (ws_target_staging writes));
     ("backup_boot"%string, is_empty (ws_backup_boot writes));
     ("activation"%string, is_empty (ws_activation writes));
     ("target_staging_rollback"%string, is_empty (ws_target_staging_rollback writes));
     ("backup_boot_rollback"%string, is_empty (ws_backup_boot_rollback writes));
     ("activation_rollback"%string, is_empty (ws_activation_rollback writes))] ;;
  count ← ok_or ArithmeticOverflow (count_writes writes);
  refuse_if (cl_max_total_writes limits <? count)
    (WriteLimitExceeded count (cl_max_total_writes limits)) ;;
  forward_bytes ← try_fold add_length 0 (forward_writes writes);
  rollback_bytes ← try_fold add_length 0 (rollback_writes writes);
  bytes ← ok_or ArithmeticOverflow (checked_add forward_bytes rollback_bytes);
  refuse_if (cl_max_total_write_bytes limits <? default usize_max (usize_try_from bytes))
    (WriteByteLimitExceeded bytes (cl_max_total_write_bytes limits)).

Definition contains_write (write_end : N) (value : ReservedWrite)
    (reservation : DestinationReservation) : bool :=
  bool_decide (dr_kind reservation = rw_reservation_kind value)
  && (br_offset (dr_range reservation) <=? ow_offset (rw_write value))
  && match checked_add (br_offset (dr_range reservation)) (br_length (dr_range reservation)) with
     | Some end_ => write_end <=? end_
     | None => false
     end.

Definition check_reserved_write (reservations : list DestinationReservation) (set : string)
    (boot : bool) (value : ReservedWrite) : conversion unit :=
  let kind := rw_reservation_kind value in
  refuse_if (boot && negb (bool_decide (kind = BootRegion))) (InvalidWritePhase set kind) ;;
  refuse_if (negb boot && (bool_decide (kind = BootRegion)
                           || bool_decide (kind = CapsuleReservation)))
    (InvalidWritePhase set kind) ;;
  write_end ← ok_or ArithmeticOverflow
    (checked_add (ow_offset (rw_write value)) (len (ow_bytes (rw_write value))));
  refuse_if (negb (existsb (contains_write write_end value) reservations))
    (WriteNotReserved (ow_offset (rw_write value)) kind).

Definition validate_writes_against_reservations (writes : OpaqueWriteSets)
    (reservations : list DestinationReservation) : conversion unit :=
  for_each (check_reserved_write reservations "target_staging" false) (ws_target_staging writes) ;;
  for_each (check_reserved_write reservations "backup_boot" true) (ws_backup_boot writes) ;;
  for_each (check_reserved_write reservations "activation" true) (ws_activation writes).

(** The range of a write, as a key. *)
Definition write_range (write : OverlayWrite) : list N := [ow_offset write; len (ow_bytes write)].
Definition sort_ranges : list (list N) -> list (list N) := sort_by_lex_key id.

Definition check_pairing (forward : list ReservedWrite) (rollback : list OverlayWrite)
    : conversion unit :=
  refuse_if (negb (bool_decide (sort_ranges ((fun value => write_range (rw_write value)) <$> forward)
                                = sort_ranges (write_range <$> rollback))))
    RollbackRangeMismatch.
Definition validate_rollback_pairing (writes : OpaqueWriteSets) : conversion unit :=
  check_pairing (ws_target_staging writes) (ws_target_staging_rollback writes) ;;
  check_pairing (ws_backup_boot writes) (ws_backup_boot_rollback writes) ;;
  check_pairing (ws_activation writes) (ws_activation_rollback writes).

Definition validate_relocation_before_image_ranges (plan : LayoutPlan)
    (before_images : list OverlayWrite) : conversion unit :=
  let expected := sort_ranges ((fun relocation => [br_offset (rl_destination relocation);
                    br_length (rl_destination relocation)]) <$> lp_relocations plan) in
  refuse_if (negb (bool_decide (write_range <$> before_images = expected)))
    RelocationBeforeImageRangeMismatch.

(** Sorts the before-images in place and returns them. *)
Definition validate_relocation_before_images (plan : LayoutPlan)
    (before_images : list OverlayWrite) (writes : OpaqueWriteSets) (limits : ConversionLimits)
    : conversion (list OverlayWrite) :=
  let before_images := sort_by_key ow_offset before_images in
  validate_relocation_before_image_ranges plan before_images ;;
  existing_count ← ok_or ArithmeticOverflow (count_writes writes);
  count ← ok_or ArithmeticOverflow (checked_add existing_count (len before_images));
  refuse_if (cl_max_total_writes limits <? count)
    (WriteLimitExceeded count (cl_max_total_writes limits)) ;;
  existing_bytes ← try_fold add_length 0
    (forward_writes writes ++ rollback_writes writes ++ before_images);
  refuse_if (cl_max_total_write_bytes limits <? existing_bytes)
    (WriteByteLimitExceeded existing_bytes (cl_max_total_write_bytes limits)) ;;
  Ok before_images.

(** ** Write sets *)
Definition staging_rollback_writes (relocation : list OverlayWrite) (writes : OpaqueWriteSets)
    : list OverlayWrite := relocation ++ ws_target_staging_rollback writes.
Definition preactivation_rollback_writes (relocation : list OverlayWrite)
    (writes : OpaqueWriteSets) : list OverlayWrite :=
  staging_rollback_writes relocation writes ++ ws_backup_boot_rollback writes.
Definition full_rollback_writes (relocation : list OverlayWrite) (writes : OpaqueWriteSets)
    : list OverlayWrite :=
  preactivation_rollback_writes relocation writes ++ ws_activation_rollback writes.
Definition final_writes (writes : OpaqueWriteSets) : list OverlayWrite := forward_writes writes.

Definition reservation_sort_key (value : DestinationReservation) : list N :=
  [br_offset (dr_range value); br_length (dr_range value); reservation_kind_key (dr_kind value)].
Definition reserved_write_sort_key (value : ReservedWrite) : list N :=
  [ow_offset (rw_write value); len (ow_bytes (rw_write value));
   reservation_kind_key (rw_reservation_kind value)].
Definition sort_write_sets (writes : OpaqueWriteSets) : OpaqueWriteSets :=
  mkOpaqueWriteSets
    (sort_by_lex_key reserved_write_sort_key (ws_target_staging writes))
    (sort_by_lex_key reserved_write_sort_key (ws_backup_boot writes))
    (sort_by_lex_key reserved_write_sort_key (ws_activation writes))
    (sort_by_key ow_offset (ws_target_staging_rollback writes))
    (sort_by_key ow_offset (ws_backup_boot_rollback writes))
    (sort_by_key ow_offset (ws_activation_rollback writes)).

(** ** The durable envelope

    What the coordinator needs of [prepared_envelope.rs]: an encoder of a whole
    prepared conversion and its decoder, which also returns the commitment of the
    source manifest.  The two modules call each other, so the codec is an
    interface here. *)
Class PreparedEnvelope : Type := {
  encode_prepared_envelope : PreparedConversion -> conversion (list byte);
  decode_prepared_envelope : list byte -> conversion (PreparedConversion * ManifestCommitment)
}.

Section Build.
Context `{Digests} `{PreparedEnvelope}.

Definition with_envelope (p : PreparedConversion) (encoded : list byte) : PreparedConversion := {|
  pc_identity := pc_identity p;
  pc_preflight := pc_preflight p;
  pc_target_filesystem := pc_target_filesystem p;
  pc_target_features := pc_target_features p;
  pc_source_graph_digest := pc_source_graph_digest p;
  pc_target_graph_digest := pc_target_graph_digest p;
  pc_plan_digest := pc_plan_digest p;
  pc_candidate_overlay_digest := pc_candidate_overlay_digest p;
  pc_relocation_rollback_digest := pc_relocation_rollback_digest p;
  pc_staging_rollback_digest := pc_staging_rollback_digest p;
  pc_preactivation_rollback_digest := pc_preactivation_rollback_digest p;
  pc_full_rollback_digest := pc_full_rollback_digest p;
  pc_reservations := pc_reservations p;
  pc_layout := pc_layout p;
  pc_writes := pc_writes p;
  pc_candidate_overlay := pc_candidate_overlay p;
  pc_relocation_rollback_overlay := pc_relocation_rollback_overlay p;
  pc_staging_rollback_overlay := pc_staging_rollback_overlay p;
  pc_preactivation_rollback_overlay := pc_preactivation_rollback_overlay p;
  pc_full_rollback_overlay := pc_full_rollback_overlay p;
  pc_recovery_payload := pc_recovery_payload p;
  pc_prepared_envelope := encoded;
  pc_capsule_limits := pc_capsule_limits p
|}.

Definition refresh_durable_envelope (p : PreparedConversion) : conversion PreparedConversion :=
  encoded ← encode_prepared_envelope p;
  validate_initial_capsule_generation (len encoded) (pc_capsule_limits p) ;;
  Ok (with_envelope p encoded).

Definition build_with_projected_target_graph
    (source_graph projected_target_graph target_graph : ObjectGraph) (draft : ConversionDraft)
    (relocation_destination_before_images : list OverlayWrite) (limits : ConversionLimits)
    : conversion PreparedConversion :=
  validate_limits limits ;;
  _ ← map_err CapsuleFailure (scan_capsule [] (cl_capsule limits));
  let authorized_filesystem := aw_filesystem (cd_writes draft) in
  let writes := aw_writes (cd_writes draft) in
  let target_filesystem := tc_filesystem (cd_target draft) in
  let preflight := cd_preflight draft in
  let image_bytes := ct_image_bytes (pf_image preflight) in
  let sector_bytes := pf_sector_bytes preflight in
  refuse_if (negb (bool_decide (authorized_filesystem = target_filesystem)))
    (ActivationAuthorizationMismatch authorized_filesystem target_filesystem) ;;
  validate_preflight source_graph preflight target_filesystem ;;
  target ← validate_features source_graph (cd_target draft) (cl_max_feature_rules limits);
  validate_source_allocations source_graph (cd_source_allocations draft) ;;
  validate_required_reservations (cd_reservations draft) ;;
  validate_write_caps writes limits ;;
  let reservations := sort_by_lex_key reservation_sort_key (cd_reservations draft) in
  let writes := sort_write_sets writes in
  validate_writes_against_reservations writes reservations ;;
  validate_rollback_pairing writes ;;
  let '(live_allocations, staging_exclusions) :=
    partition_source_allocations source_graph (cd_source_allocations draft) in
  layout ← map_err LayoutFailure
    (solve_layout_with_staging_exclusions_and_io_alignment image_bytes
       (pf_allocation_alignment preflight) sector_bytes live_allocations reservations
       staging_exclusions (cl_layout limits));
  refuse_if (negb (is_empty (lp_materializations layout))) InPlaceMaterializationUnsupported ;;
  relocated_target ← map_err RelocatedGraphFailure
    (relocate_object_graph projected_target_graph layout);
  refuse_if (negb (bool_decide (relocated_target = target_graph))) TargetGraphMismatch ;;
  before_images ← validate_relocation_before_images layout relocation_destination_before_images
    writes limits;
  let overlay group := map_err OverlayFailure
    (OverlayPlan_build image_bytes sector_bytes group (cl_overlay limits)) in
  candidate_overlay ← overlay (final_writes writes);
  relocation_rollback_overlay ← overlay before_images;
  staging_rollback_overlay ← overlay (staging_rollback_writes before_images writes);
  preactivation_rollback_overlay ← overlay (preactivation_rollback_writes before_images writes);
  full_rollback_overlay ← overlay (full_rollback_writes before_images writes);
  let source_graph_digest := digest_graph source_graph in
  let target_graph_digest := digest_graph target_graph in
  let plan_digest := digest_plan preflight (tc_filesystem target) (tc_features target)
    reservations layout writes source_graph_digest target_graph_digest before_images in
  recovery_payload ← map_err RecoveryFailure
    (encode_recovery_bundle
       (mkRecoveryBundle plan_digest before_images (ws_target_staging_rollback writes)
          (ws_backup_boot_rollback writes) (ws_activation_rollback writes))
       (mkRecoveryLimits (cl_max_total_writes limits) (cl_max_total_write_bytes limits)));
  let prepared := {|
    pc_identity := mkCapsuleIdentity (cd_transaction_id draft)
      (digest_source_identity preflight source_graph_digest);
    pc_preflight := preflight;
    pc_target_filesystem := tc_filesystem target;
    pc_target_features := tc_features target;
    pc_source_graph_digest := source_graph_digest;
    pc_target_graph_digest := target_graph_digest;
    pc_plan_digest := plan_digest;
    pc_candidate_overlay_digest := digest_overlay_writes (op_writes candidate_overlay);
    pc_relocation_rollback_digest :=
      digest_overlay_writes (op_writes relocation_rollback_overlay);
    pc_staging_rollback_digest := digest_overlay_writes (op_writes staging_rollback_overlay);
    pc_preactivation_rollback_digest :=
      digest_overlay_writes (op_writes preactivation_rollback_overlay);
    pc_full_rollback_digest := digest_overlay_writes (op_writes full_rollback_overlay);
    pc_reservations := reservations;
    pc_layout := layout;
    pc_writes := writes;
    pc_candidate_overlay := candidate_overlay;
    pc_relocation_rollback_overlay := relocation_rollback_overlay;
    pc_staging_rollback_overlay := staging_rollback_overlay;
    pc_preactivation_rollback_overlay := preactivation_rollback_overlay;
    pc_full_rollback_overlay := full_rollback_overlay;
    pc_recovery_payload := recovery_payload;
    pc_prepared_envelope := [];
    pc_capsule_limits := cl_capsule limits
  |} in
  refresh_durable_envelope prepared.

Definition build_with_target_graph (source_graph target_graph : ObjectGraph)
    (draft : ConversionDraft) (relocation_destination_before_images : list OverlayWrite)
    (limits : ConversionLimits) : conversion PreparedConversion :=
  build_with_projected_target_graph source_graph source_graph target_graph draft
    relocation_destination_before_images limits.

Definition build (source_graph : ObjectGraph) (draft : ConversionDraft)
    (limits : ConversionLimits) : conversion PreparedConversion :=
  build_with_target_graph source_graph source_graph draft [] limits.

Definition from_restart_capsule (capsule : list byte) (policy : CapsuleLimits)
    : conversion PreparedConversion :=
  view ← map_err CapsuleFailure (recover_capsule capsule policy);
  first ← ok_or CapsuleNotStarted (head (cv_generations view));
  decoded ← decode_prepared_envelope (cg_payload first);
  let prepared := decoded.1 in
  refuse_if ((cl_max_capsule_bytes policy <? cl_max_capsule_bytes (pc_capsule_limits prepared))
             || (cl_max_generation_bytes policy
                 <? cl_max_generation_bytes (pc_capsule_limits prepared))
             || (cl_max_generations policy <? cl_max_generations (pc_capsule_limits prepared)))
    EnvelopeRaisesCapsuleLimits ;;
  refuse_if (negb (bool_decide (cg_identity first = pc_identity prepared)))
    TransactionIdentityChanged ;;
  let prepared := with_envelope prepared (cg_payload first) in
  _ ← resume_without_observation prepared capsule;
  Ok prepared.
End Build.

(** * Specification *)

(** The forward effect of a transaction is a sequence of four groups of ranges:
    the relocation destinations, the staging writes, the backup boot region and
    the activation writes.  The intent that follows a checkpoint may be cut off
    at any point, so everything up to and including its group can differ from
    the source. *)
Definition relocation_ranges (p : PreparedConversion) : list (list N) :=
  (fun r => [br_offset (rl_destination r); br_length (rl_destination r)])
    <$> lp_relocations (pc_layout p).
Definition reserved_ranges (writes : list ReservedWrite) : list (list N) :=
  (fun value => write_range (rw_write value)) <$> writes.
Definition staging_ranges (p : PreparedConversion) : list (list N) :=
  relocation_ranges p ++ reserved_ranges (ws_target_staging (pc_writes p)).
Definition backup_ranges (p : PreparedConversion) : list (list N) :=
  staging_ranges p ++ reserved_ranges (ws_backup_boot (pc_writes p)).
Definition all_ranges (p : PreparedConversion) : list (list N) :=
  backup_ranges p ++ reserved_ranges (ws_activation (pc_writes p)).
Definition touched (p : PreparedConversion) (phase : TransactionPhase) : list (list N) :=
  match phase with
  | Discovered => []
  | Reserved => relocation_ranges p
  | Relocating => staging_ranges p
  | TargetStaged => backup_ranges p
  | BackupBootWritten | Activated | Verified | Finalized | RolledBack => all_ranges p
  end.

(** [img'] differs from [img] only inside the ranges. *)
Definition differs_within (ranges : list (list N)) (img img' : list byte) : Prop :=
  len img' = len img /\
  forall i : nat,
    (forall o n, [o; n] ∈ ranges -> ~ in_range o n (N.of_nat i)) -> img' !! i = img !! i.

(** The image after a rollback intent. *)
Definition apply_rollback (intent : RollbackIntent) (img : list byte) : list byte :=
  match intent with
  | DiscardStaging => img
  | RestoreSource writes _ => patch img writes
  end.

(** The forward writes of a phase stay in reservations of their kind; only the
    two boot groups write the boot region. *)
Definition reserved_in (reservations : list DestinationReservation) (boot : bool)
    (value : ReservedWrite) : Prop :=
  (if boot then rw_reservation_kind value = BootRegion
   else rw_reservation_kind value <> BootRegion /\
        rw_reservation_kind value <> CapsuleReservation) /\
  exists r, r ∈ reservations /\ dr_kind r = rw_reservation_kind value /\
    br_offset (dr_range r) <= ow_offset (rw_write value) /\
    ow_offset (rw_write value) + ow_length (rw_write value)
      <= br_offset (dr_range r) + br_length (dr_range r).

Section PreparedOk.
Context `{Digests}.

(** What a prepared conversion promises to its executor. *)
Record prepared_ok (p : PreparedConversion) (before_images : list OverlayWrite) : Prop := {
  po_candidate : plan_ok (pc_candidate_overlay p) /\
    op_writes (pc_candidate_overlay p) = sort_by_key ow_offset (final_writes (pc_writes p));
  po_relocation : plan_ok (pc_relocation_rollback_overlay p) /\
    op_writes (pc_relocation_rollback_overlay p) = sort_by_key ow_offset before_images;
  po_staging : plan_ok (pc_staging_rollback_overlay p) /\
    op_writes (pc_staging_rollback_overlay p) =
      sort_by_key ow_offset (staging_rollback_writes before_images (pc_writes p));
  po_preactivation : plan_ok (pc_preactivation_rollback_overlay p) /\
    op_writes (pc_preactivation_rollback_overlay p) =
      sort_by_key ow_offset (preactivation_rollback_writes before_images (pc_writes p));
  po_full : plan_ok (pc_full_rollback_overlay p) /\
    op_writes (pc_full_rollback_overlay p) =
      sort_by_key ow_offset (full_rollback_writes before_images (pc_writes p));
  po_relocation_ranges : write_range <$> before_images ≡ₚ relocation_ranges p;
  po_staging_ranges : reserved_ranges (ws_target_staging (pc_writes p))
    ≡ₚ write_range <$> ws_target_staging_rollback (pc_writes p);
  po_backup_ranges : reserved_ranges (ws_backup_boot (pc_writes p))
    ≡ₚ write_range <$> ws_backup_boot_rollback (pc_writes p);
  po_activation_ranges : reserved_ranges (ws_activation (pc_writes p))
    ≡ₚ write_range <$> ws_activation_rollback (pc_writes p);
  po_digests :
    pc_candidate_overlay_digest p = digest_overlay_writes (op_writes (pc_candidate_overlay p)) /\
    pc_relocation_rollback_digest p =
      digest_overlay_writes (op_writes (pc_relocation_rollback_overlay p)) /\
    pc_staging_rollback_digest p =
      digest_overlay_writes (op_writes (pc_staging_rollback_overlay p)) /\
    pc_preactivation_rollback_digest p =
      digest_overlay_writes (op_writes (pc_preactivation_rollback_overlay p)) /\
    pc_full_rollback_digest p = digest_overlay_writes (op_writes (pc_full_rollback_overlay p));
  po_plan_digest : pc_plan_digest p =
    digest_plan (pc_preflight p) (pc_target_filesystem p) (pc_target_features p)
      (pc_reservations p) (pc_layout p) (pc_writes p) (pc_source_graph_digest p)
      (pc_target_graph_digest p) before_images;
  po_reserved :
    Forall (reserved_in (pc_reservations p) false) (ws_target_staging (pc_writes p)) /\
    Forall (reserved_in (pc_reservations p) true) (ws_backup_boot (pc_writes p)) /\
    Forall (reserved_in (pc_reservations p) true) (ws_activation (pc_writes p));
  po_in_place : lp_materializations (pc_layout p) = []
}.
End PreparedOk.

(** * Proofs *)
Section Restoring.
Context `{Digests}.

Lemma differs_agrees ws img img' :
  differs_within (write_range <$> ws) img img' <-> agrees_outside ws img img'.
Proof.
  unfold differs_within, agrees_outside.
  assert (Hiff : forall i : nat,
    (forall o n, [o; n] ∈ write_range <$> ws -> ~ in_range o n (N.of_nat i)) <->
    (forall w, w ∈ ws -> ~ in_range (ow_offset w) (ow_length w) (N.of_nat i))).
  { intros i. split.
    - intros Hr w Hw. apply Hr. apply list_elem_of_fmap. by exists w.
    - intros Hr o n (w & [= -> ->] & Hw)%list_elem_of_fmap. by apply Hr. }
  by setoid_rewrite Hiff.
Qed.

#[export] Instance differs_within_perm :
  Proper (Permutation ==> eq ==> eq ==> iff) differs_within.
Proof.
  intros r1 r2 Hp ? img -> ? img' ->. unfold differs_within.
  by setoid_rewrite Hp.
Qed.

(** The four rollback groups cover the four forward groups. *)
Lemma staging_covered p before_images :
  prepared_ok p before_images ->
  write_range <$> staging_rollback_writes before_images (pc_writes p) ≡ₚ staging_ranges p.
Proof.
  intros Hp. unfold staging_rollback_writes, staging_ranges.
  by rewrite fmap_app, (po_relocation_ranges _ _ Hp), (po_staging_ranges _ _ Hp).
Qed.
Lemma backup_covered p before_images :
  prepared_ok p before_images ->
  write_range <$> preactivation_rollback_writes before_images (pc_writes p) ≡ₚ backup_ranges p.
Proof.
  intros Hp. unfold preactivation_rollback_writes, backup_ranges.
  by rewrite fmap_app, (staging_covered _ _ Hp), (po_backup_ranges _ _ Hp).
Qed.
Lemma all_covered p before_images :
  prepared_ok p before_images ->
  write_range <$> full_rollback_writes before_images (pc_writes p) ≡ₚ all_ranges p.
Proof.
  intros Hp. unfold full_rollback_writes, all_ranges.
  by rewrite fmap_app, (backup_covered _ _ Hp), (po_activation_ranges _ _ Hp).
Qed.

Lemma touched_rollback p before_images phase :
  prepared_ok p before_images ->
  match rollback_intent p phase with
  | Ok DiscardStaging => touched p phase = []
  | Ok (RestoreSource writes digest) =>
      write_range <$> writes ≡ₚ touched p phase /\ digest = digest_overlay_writes writes /\
      writes ⊆ op_writes (pc_full_rollback_overlay p)
  | Err _ => phase = Finalized \/ phase = RolledBack
  | Panic => False
  end.
Proof.
  intros Hp. pose proof (po_digests _ _ Hp) as (_ & Hd1 & Hd2 & Hd3 & Hd4).
  destruct (po_relocation _ _ Hp) as [_ Hr]. destruct (po_staging _ _ Hp) as [_ Hs].
  destruct (po_preactivation _ _ Hp) as [_ Ha]. destruct (po_full _ _ Hp) as [_ Hf].
  assert (Hsub : forall ws, (forall w, w ∈ ws -> w ∈ full_rollback_writes before_images (pc_writes p)) ->
    sort_by_key ow_offset ws ⊆ op_writes (pc_full_rollback_overlay p)).
  { intros ws Hw w. rewrite Hf, !sort_by_key_perm. apply Hw. }
  unfold full_rollback_writes, preactivation_rollback_writes, staging_rollback_writes in Hsub.
  destruct phase; simpl; auto.
  - destruct (is_empty _) eqn:He.
    { unfold relocation_ranges. by destruct (lp_relocations _). }
    split_and!; [|done | rewrite Hr; apply Hsub; set_solver].
    rewrite Hr, sort_by_key_perm. by apply po_relocation_ranges.
  - split_and!; [|done | rewrite Hs; apply Hsub; set_solver].
    rewrite Hs, sort_by_key_perm. by apply staging_covered.
  - split_and!; [|done | rewrite Ha; apply Hsub; set_solver].
    rewrite Ha, sort_by_key_perm. by apply backup_covered.
  - split_and!; [|done..]. rewrite Hf, sort_by_key_perm. by apply all_covered.
  - split_and!; [|done..]. rewrite Hf, sort_by_key_perm. by apply all_covered.
  - split_and!; [|done..]. rewrite Hf, sort_by_key_perm. by apply all_covered.
Qed.

Lemma rollback_restores p before_images phase img img' :
  prepared_ok p before_images ->
  Forall (fragment_of img) (op_writes (pc_full_rollback_overlay p)) ->
  differs_within (touched p phase) img img' ->
  match rollback_intent p phase with
  | Ok intent =>
      apply_rollback intent img' = img /\
      forall writes digest, intent = RestoreSource writes digest ->
        digest = digest_overlay_writes writes
  | Err _ => phase = Finalized \/ phase = RolledBack
  | Panic => False
  end.
Proof.
  intros Hp Hf Hd. pose proof (touched_rollback p before_images phase Hp) as Ht.
  destruct (rollback_intent p phase) as [[|writes digest]| |]; [| |done..]; simpl.
  - rewrite Ht in Hd. split; [|done]. destruct Hd as [_ Hd]. apply list_eq. intros i.
    apply Hd. intros o n Hin. by apply not_elem_of_nil in Hin.
  - destruct Ht as (Hr & -> & Hsub). split; [|by intros ? ? [= -> ->]].
    apply patch_restores; [|apply differs_agrees; by rewrite Hr].
    rewrite Forall_forall in Hf |- *. auto.
Qed.
End Restoring.

(** ** What the validators accept *)
Definition preflight_ok (graph : ObjectGraph) (evidence : PreflightEvidence)
    (target : FileSystem) : Prop :=
  pf_source_filesystem evidence <> UnknownFileSystem /\ target <> UnknownFileSystem /\
  pf_source_filesystem evidence <> target /\
  eg_volume_bytes (og_extents graph) = ct_image_bytes (pf_image evidence) /\
  pf_inventory_complete evidence = true /\ pf_allocation_map_complete evidence = true /\
  pf_health evidence = Clean /\ pf_access evidence = Offline /\
  is_power_of_two (pf_sector_bytes evidence) = true /\
  is_power_of_two (pf_allocation_alignment evidence) = true /\
  pf_allocation_alignment evidence mod pf_sector_bytes evidence = 0.

(** The method of a rule can carry the feature to the target. *)
Definition method_ok (target : FileSystem) (rule : FeatureCompatibility) : Prop :=
  match fc_method rule with
  | Native => target = Ntfs /\ fc_feature rule <> CaseCollisions
  | EscrowMethod schema_version payload_digest =>
      schema_version <> 0 /\ payload_digest <> replicate 32 x00
  end.
(** One rule for each feature of the source and no other. *)
Definition features_ok (graph : ObjectGraph) (target : FileSystem)
    (rules : list FeatureCompatibility) : Prop :=
  StronglySorted (fun a b => feature_key (fc_feature a) < feature_key (fc_feature b)) rules /\
  (forall feature, feature ∈ og_features graph <-> feature ∈ fc_feature <$> rules) /\
  Forall (method_ok target) rules.

(** Every physical extent is an allocation, and only file data may move. *)
Definition names (extent : Extent) (allocation : SourceAllocation) : Prop :=
  sa_stream allocation = ex_stream extent /\
  sa_logical_offset allocation = ex_logical_offset extent /\
  ex_placement extent = Physical (br_offset (sa_range allocation)) /\
  ex_length extent = br_length (sa_range allocation).
Definition allocations_ok (graph : ObjectGraph) (allocations : list SourceAllocation) : Prop :=
  (forall extent, extent ∈ eg_extents (og_extents graph) -> ex_placement extent <> Sparse ->
     exists allocation, allocation ∈ allocations /\ names extent allocation) /\
  (forall allocation, allocation ∈ allocations -> sa_movable allocation = true ->
     exists extent, extent ∈ eg_extents (og_extents graph) /\ names extent allocation /\
       ex_kind extent = FileData).

Section Validators.

Lemma validate_preflight_Ok graph evidence target u :
  validate_preflight graph evidence target = Ok u -> preflight_ok graph evidence target.
Proof.
  unfold validate_preflight, preflight_ok. intros Hv. inv_ok. bool_props.
  rename select (require_clean_offline _ _ = _) into Hc. apply require_clean_offline_Ok in Hc.
  by split_and!; try tauto.
Qed.

Lemma feature_key_inj : Inj (=) (=) feature_key.
Proof. by intros [] []. Qed.

Lemma check_feature_Ok target rules feature u :
  check_feature target rules feature = Ok u ->
  exists rule, rule ∈ rules /\ fc_feature rule = feature /\ method_ok target rule.
Proof.
  unfold check_feature. intros Hc. inv_ok. apply find_some in Hok as [Hin Hf].
  apply list_elem_of_In in Hin. bool_props. exists a. split_and!; [done | done |].
  unfold method_ok. destruct (fc_method a); inv_ok; unfold native_feature in *; bool_props.
  - subst. tauto.
  - tauto.
Qed.

Lemma distinct_rules rules :
  StronglySorted (le_key (fun rule => feature_key (fc_feature rule))) rules ->
  Sorted (fun a b => fc_feature a <> fc_feature b) rules ->
  StronglySorted (fun a b => feature_key (fc_feature a) < feature_key (fc_feature b)) rules.
Proof.
  intros Hle Hne. apply Sorted_StronglySorted; [intros x y z; apply N.lt_trans |].
  apply StronglySorted_Sorted in Hle. clear - Hle Hne.
  induction Hle as [|rule l Hl IH Ha]; [constructor |].
  apply Sorted_inv in Hne as [Hne Hh]. constructor; [by apply IH |].
  destruct Ha as [|rule' l Hab]; constructor. apply HdRel_inv in Hh.
  unfold le_key in Hab.
  assert (feature_key (fc_feature rule) <> feature_key (fc_feature rule')).
  { intros He. by apply feature_key_inj in He. }
  lia.
Qed.

Lemma validate_features_Ok graph target maximum target' :
  validate_features graph target maximum = Ok target' ->
  tc_filesystem target' = tc_filesystem target /\ tc_features target' ≡ₚ tc_features target /\
  features_ok graph (tc_filesystem target) (tc_features target').
Proof.
  unfold validate_features, features_ok. intros Hv. inv_ok. bool_props. simpl.
  rename select (for_windows2 _ _ = _) into Hw. apply for_windows2_Ok in Hw.
  rename select (for_each (check_feature _ _) _ = _) into Hc. apply for_each_Ok in Hc.
  rename select (for_each _ (sort_by_key _ _) = _) into Hp. apply for_each_Ok in Hp.
  assert (Hs : StronglySorted (fun a b => feature_key (fc_feature a) < feature_key (fc_feature b))
    (sort_by_key (fun rule => feature_key (fc_feature rule)) (tc_features target))).
  { apply distinct_rules; [apply sort_by_key_sorted |].
    eapply Sorted_ext, Hw. intros ? ? _ _ Hr. apply refuse_if_Ok in Hr. by bool_props. }
  rewrite Forall_forall in Hc. rewrite Forall_forall in Hp.
  assert (Hpres : forall rule, rule ∈ sort_by_key (fun rule => feature_key (fc_feature rule))
    (tc_features target) -> fc_feature rule ∈ og_features graph).
  { intros rule Hin. specialize (Hp rule Hin). apply refuse_if_Ok in Hp. by bool_props. }
  split; [done |]. split; [by rewrite sort_by_key_perm |]. split_and!; [done | |].
  - intros feature. rewrite list_elem_of_fmap. split.
    + intros Hin. apply Hc, check_feature_Ok in Hin as (rule & ? & <- & _). eauto.
    + intros (rule & -> & Hin). by apply Hpres.
  - apply Forall_forall. intros rule Hin.
    destruct (check_feature_Ok _ _ _ _ (Hc _ (Hpres _ Hin))) as (rule' & Hin' & He & Hm).
    assert (rule' = rule); [|by subst].
    apply list_elem_of_lookup in Hin as [i Hi]. apply list_elem_of_lookup in Hin' as [j Hj].
    rewrite StronglySorted_lookup in Hs.
    destruct (Nat.lt_trichotomy i j) as [Hij|[->|Hij]]; [| congruence |].
    + specialize (Hs i j _ _ Hij Hi Hj). rewrite He in Hs. lia.
    + specialize (Hs j i _ _ Hij Hj Hi). rewrite He in Hs. lia.
Qed.

Lemma validate_allocations_Ok graph allocations u :
  validate_source_allocations graph allocations = Ok u -> allocations_ok graph allocations.
Proof.
  unfold validate_source_allocations, allocations_ok, names. intros Hv. inv_ok.
  apply for_each_Ok in Hok, Hv. rewrite Forall_forall in Hok. rewrite Forall_forall in Hv. split.
  - intros extent Hin Hph. specialize (Hok extent Hin). unfold check_extent_allocation in Hok.
    destruct (ex_placement extent) eqn:Hp; [|done]. inv_ok. apply find_some in Hok0 as [Ha Hf].
    apply list_elem_of_In in Ha. bool_props. eexists. split; [exact Ha |].
    rename select (sa_range _ = _) into Hr. rewrite Hr. done.
  - intros allocation Hin Hm. specialize (Hv allocation Hin). unfold check_movable in Hv.
    rewrite Hm in Hv. apply refuse_if_Ok in Hv. bool_props. apply existsb_exists in Hv
      as (extent & He & Hx). apply list_elem_of_In in He. unfold names_extent in Hx. bool_props.
    exists extent. done.
Qed.

Lemma check_reserved_Ok reservations set boot value u :
  check_reserved_write reservations set boot value = Ok u ->
  reserved_in reservations boot value.
Proof.
  unfold check_reserved_write, reserved_in. intros Hc. inv_ok. bool_props.
  apply existsb_exists in Hc as (r & Hr & Hx). apply list_elem_of_In in Hr.
  unfold contains_write in Hx. bool_props.
  assert (Hkind : if boot then rw_reservation_kind value = BootRegion
    else rw_reservation_kind value <> BootRegion /\ rw_reservation_kind value <> CapsuleReservation).
  { destruct boot; simpl in *; by bool_props. }
  split; [done |]. exists r. destruct (checked_add _ _) eqn:Hadd; [|done]. inv_ok. bool_props.
  unfold ow_length. split_and!; done || congruence.
Qed.

Lemma validate_reserved_Ok writes reservations u :
  validate_writes_against_reservations writes reservations = Ok u ->
  Forall (reserved_in reservations false) (ws_target_staging writes) /\
  Forall (reserved_in reservations true) (ws_backup_boot writes) /\
  Forall (reserved_in reservations true) (ws_activation writes).
Proof.
  unfold validate_writes_against_reservations. intros Hv. inv_ok.
  apply for_each_Ok in Hok, Hok0, Hv.
  split_and!; (eapply Forall_impl; [eassumption |]); intros value; apply check_reserved_Ok.
Qed.

Lemma sort_ranges_perm l : sort_ranges l ≡ₚ l.
Proof. apply sort_by_lex_key_perm. Qed.

Lemma check_pairing_Ok fwd back u :
  check_pairing fwd back = Ok u -> reserved_ranges fwd ≡ₚ write_range <$> back.
Proof.
  unfold check_pairing. intros Hc. inv_ok. bool_props.
  rename select (sort_ranges _ = sort_ranges _) into He.
  rewrite <- (sort_ranges_perm (write_range <$> back)), <- He. by rewrite sort_ranges_perm.
Qed.

Lemma validate_pairing_Ok writes u :
  validate_rollback_pairing writes = Ok u ->
  reserved_ranges (ws_target_staging writes) ≡ₚ write_range <$> ws_target_staging_rollback writes /\
  reserved_ranges (ws_backup_boot writes) ≡ₚ write_range <$> ws_backup_boot_rollback writes /\
  reserved_ranges (ws_activation writes) ≡ₚ write_range <$> ws_activation_rollback writes.
Proof.
  unfold validate_rollback_pairing. intros Hv. inv_ok.
  split_and!; by eapply check_pairing_Ok.
Qed.

Lemma validate_before_images_Ok plan before_images writes limits result :
  validate_relocation_before_images plan before_images writes limits = Ok result ->
  result = sort_by_key ow_offset before_images /\
  write_range <$> result ≡ₚ (fun r => [br_offset (rl_destination r); br_length (rl_destination r)])
    <$> lp_relocations plan.
Proof.
  unfold validate_relocation_before_images, validate_relocation_before_image_ranges.
  intros Hv. inv_ok. bool_props. split; [done |].
  rename select (_ = sort_ranges _) into He. by rewrite He, sort_ranges_perm.
Qed.
End Validators.

Section Building.
Context `{Digests} `{PreparedEnvelope}.

(** How a prepared conversion was derived from its inputs. *)
Record built (source_graph projected_target_graph target_graph : ObjectGraph)
    (draft : ConversionDraft) (limits : ConversionLimits) (p : PreparedConversion)
    (before_images : list OverlayWrite) : Prop := {
  bd_filesystem : aw_filesystem (cd_writes draft) = pc_target_filesystem p /\
    pc_target_filesystem p = tc_filesystem (cd_target draft);
  bd_preflight : pc_preflight p = cd_preflight draft /\
    preflight_ok source_graph (cd_preflight draft) (pc_target_filesystem p);
  bd_features : pc_target_features p ≡ₚ tc_features (cd_target draft) /\
    features_ok source_graph (pc_target_filesystem p) (pc_target_features p);
  bd_allocations : allocations_ok source_graph (cd_source_allocations draft);
  bd_reservations :
    pc_reservations p = sort_by_lex_key reservation_sort_key (cd_reservations draft) /\
    forall kind, kind ∈ [BootRegion; AllocationMetadata; NamespaceMetadata] ->
      exists r, r ∈ pc_reservations p /\ dr_kind r = kind;
  bd_writes : pc_writes p = sort_write_sets (aw_writes (cd_writes draft));
  bd_overlays :
    let overlay group := OverlayPlan_build (ct_image_bytes (pf_image (pc_preflight p)))
      (pf_sector_bytes (pc_preflight p)) group (cl_overlay limits) in
    overlay (final_writes (pc_writes p)) = Ok (pc_candidate_overlay p) /\
    overlay before_images = Ok (pc_relocation_rollback_overlay p) /\
    overlay (staging_rollback_writes before_images (pc_writes p))
      = Ok (pc_staging_rollback_overlay p) /\
    overlay (preactivation_rollback_writes before_images (pc_writes p))
      = Ok (pc_preactivation_rollback_overlay p) /\
    overlay (full_rollback_writes before_images (pc_writes p)) = Ok (pc_full_rollback_overlay p);
  bd_layout : let '(live, exclusions) :=
      partition_source_allocations source_graph (cd_source_allocations draft) in
    solve_layout_with_staging_exclusions_and_io_alignment
      (ct_image_bytes (pf_image (cd_preflight draft)))
      (pf_allocation_alignment (cd_preflight draft)) (pf_sector_bytes (cd_preflight draft))
      live (pc_reservations p) exclusions (cl_layout limits) = Ok (pc_layout p);
  bd_target : relocate_object_graph projected_target_graph (pc_layout p) = Ok target_graph /\
    pc_source_graph_digest p = digest_graph source_graph /\
    pc_target_graph_digest p = digest_graph target_graph;
  bd_recovery : encode_recovery_bundle
      (mkRecoveryBundle (pc_plan_digest p) before_images
         (ws_target_staging_rollback (pc_writes p)) (ws_backup_boot_rollback (pc_writes p))
         (ws_activation_rollback (pc_writes p)))
      (mkRecoveryLimits (cl_max_total_writes limits) (cl_max_total_write_bytes limits))
    = Ok (pc_recovery_payload p);
  bd_identity : pc_identity p = mkCapsuleIdentity (cd_transaction_id draft)
    (digest_source_identity (cd_preflight draft) (digest_graph source_graph));
  bd_envelope : encode_prepared_envelope (with_envelope p []) = Ok (pc_prepared_envelope p) /\
    pc_capsule_limits p = cl_capsule limits /\
    len (pc_prepared_envelope p) <= cl_max_generation_bytes (cl_capsule limits) /\
    2 * Capsule.HEADER_BYTES + len (pc_prepared_envelope p)
      <= cl_max_capsule_bytes (cl_capsule limits)
}.

Lemma initial_generation_Ok payload_bytes limits u :
  validate_initial_capsule_generation payload_bytes limits = Ok u ->
  payload_bytes <= cl_max_generation_bytes limits /\
  2 * Capsule.HEADER_BYTES + payload_bytes <= cl_max_capsule_bytes limits.
Proof.
  unfold validate_initial_capsule_generation. intros Hv. inv_ok. bool_props.
  destruct (checked_mul _ _) as [headers|] eqn:Hm; [|done]. simpl in *. inv_ok. lia.
Qed.

Lemma overlay_plan_Ok ib sb group limits plan :
  ib <= u64_max -> OverlayPlan_build ib sb group limits = Ok plan ->
  plan_ok plan /\ op_writes plan = sort_by_key ow_offset group.
Proof.
  intros Hib Hb. split; [by eapply overlay_build_plan_ok |].
  by apply overlay_build_iff in Hb as [_ ->].
Qed.

Lemma required_Ok reservations u kind :
  validate_required_reservations reservations = Ok u ->
  kind ∈ [BootRegion; AllocationMetadata; NamespaceMetadata] ->
  exists r, r ∈ reservations /\ dr_kind r = kind.
Proof.
  unfold validate_required_reservations. intros Hv Hk. apply for_each_Ok in Hv.
  rewrite Forall_forall in Hv. apply Hv, refuse_if_Ok in Hk. bool_props.
  apply existsb_exists in Hk as (r & Hr & Hx). apply list_elem_of_In in Hr. bool_props. eauto.
Qed.

Lemma build_Ok source projected target draft images limits p :
  ct_image_bytes (pf_image (cd_preflight draft)) <= u64_max ->
  build_with_projected_target_graph source projected target draft images limits = Ok p ->
  exists before_images, before_images = sort_by_key ow_offset images /\
    prepared_ok p before_images /\ built source projected target draft limits p before_images.
Proof.
  intros Hib Hb. unfold build_with_projected_target_graph in Hb.
  apply bind_Ok in Hb as (? & _ & Hb). apply bind_Ok in Hb as (? & _ & Hb). cbv zeta in Hb.
  apply bind_Ok in Hb as (? & Hfs & Hb). apply refuse_if_Ok in Hfs.
  apply bind_Ok in Hb as (? & Hpre & Hb). apply validate_preflight_Ok in Hpre.
  apply bind_Ok in Hb as (t & Hfeat & Hb). apply validate_features_Ok in Hfeat as (Htf & Hperm & Hfeat).
  apply bind_Ok in Hb as (? & Hall & Hb). apply validate_allocations_Ok in Hall.
  apply bind_Ok in Hb as (? & Hreq & Hb). apply bind_Ok in Hb as (? & _ & Hb).
  apply bind_Ok in Hb as (? & Hres & Hb). apply validate_reserved_Ok in Hres.
  apply bind_Ok in Hb as (? & Hpair & Hb). apply validate_pairing_Ok in Hpair as (Hp1 & Hp2 & Hp3).
  destruct (partition_source_allocations _ _) as [live exclusions] eqn:Hpart.
  apply bind_Ok in Hb as (plan & Hplan & Hb). apply map_err_Ok in Hplan.
  apply bind_Ok in Hb as (? & Hmat & Hb). apply refuse_if_Ok in Hmat.
  apply bind_Ok in Hb as (rt & Hrel & Hb). apply map_err_Ok in Hrel.
  apply bind_Ok in Hb as (? & Htgt & Hb). apply refuse_if_Ok in Htgt.
  apply bind_Ok in Hb as (bi & Hbi & Hb). apply validate_before_images_Ok in Hbi as (-> & Hbi).
  apply bind_Ok in Hb as (o1 & Ho1 & Hb). apply map_err_Ok in Ho1.
  apply bind_Ok in Hb as (o2 & Ho2 & Hb). apply map_err_Ok in Ho2.
  apply bind_Ok in Hb as (o3 & Ho3 & Hb). apply map_err_Ok in Ho3.
  apply bind_Ok in Hb as (o4 & Ho4 & Hb). apply map_err_Ok in Ho4.
  apply bind_Ok in Hb as (o5 & Ho5 & Hb). apply map_err_Ok in Ho5.
  apply bind_Ok in Hb as (payload & Hpay & Hb). apply map_err_Ok in Hpay.
  unfold refresh_durable_envelope in Hb. apply bind_Ok in Hb as (enc & Henc & Hb).
  apply bind_Ok in Hb as (? & Hgen & Hb). apply initial_generation_Ok in Hgen. simpl in Hgen.
  injection Hb as <-. bool_props. subst rt.
  pose proof (conj Ho1 (conj Ho2 (conj Ho3 (conj Ho4 Ho5)))) as Hoverlays.
  apply overlay_plan_Ok in Ho1, Ho2, Ho3, Ho4, Ho5; [|done..].
  eexists. split; [reflexivity |]. split; split; simpl; try done.
  - by destruct (lp_materializations plan).
  - split; congruence.
  - split; [done |]. by rewrite Htf.
  - split; [done |]. by rewrite Htf.
  - split; [done |]. intros kind Hk.
    destruct (required_Ok _ _ _ Hreq Hk) as (r & Hr & ?). exists r.
    by rewrite sort_by_lex_key_perm.
  - unfold partition_source_allocations in Hpart. by injection Hpart as <- <-.
Qed.
End Building.

(** ** No aborts *)
Section Safe.
Context `{Digests} `{PreparedEnvelope}.

Lemma scan_empty_safe limits : scan_capsule [] limits <> Panic.
Proof. unfold scan_capsule, scan_capsule_impl, Capsule.validate_limits. simpl. safe. Qed.

Lemma validate_preflight_safe graph evidence target :
  validate_preflight graph evidence target <> Panic.
Proof.
  unfold validate_preflight, require_clean_offline. safe.
  rename select (refuse_if _ (InvalidSectorSize _) = _) into Hs. apply refuse_if_Ok in Hs.
  apply orb_false_iff in Hs as [Hs _]. unfold rem_u64. by rewrite Hs.
Qed.

Lemma validate_features_safe graph target maximum : validate_features graph target maximum <> Panic.
Proof. unfold validate_features, check_feature. safe. case_match; safe. Qed.

Lemma validate_allocations_safe graph allocations :
  validate_source_allocations graph allocations <> Panic.
Proof. unfold validate_source_allocations, check_extent_allocation, check_movable. safe. case_match; safe. Qed.

Lemma validate_caps_safe writes limits : validate_write_caps writes limits <> Panic.
Proof. unfold validate_write_caps, add_length. safe. Qed.

Lemma validate_reserved_safe writes reservations :
  validate_writes_against_reservations writes reservations <> Panic.
Proof. unfold validate_writes_against_reservations, check_reserved_write. safe. Qed.

Lemma validate_before_images_safe plan images writes limits :
  validate_relocation_before_images plan images writes limits <> Panic.
Proof.
  unfold validate_relocation_before_images, validate_relocation_before_image_ranges, add_length.
  safe.
Qed.

Lemma build_safe source projected target draft images limits :
  (forall p, encode_prepared_envelope p <> Panic) ->
  pf_allocation_alignment (cd_preflight draft) <= u64_max ->
  len (all_streams (og_objects projected)) <= usize_max ->
  build_with_projected_target_graph source projected target draft images limits <> Panic.
Proof.
  intros Henc Hal Hlen. unfold build_with_projected_target_graph, validate_limits. safe.
  - apply scan_empty_safe.
  - apply validate_preflight_safe.
  - apply validate_features_safe.
  - apply validate_allocations_safe.
  - unfold validate_required_reservations. safe.
  - apply validate_caps_safe.
  - apply validate_reserved_safe.
  - unfold validate_rollback_pairing, check_pairing. safe.
  - destruct (partition_source_allocations _ _). safe.
    + unfold solve_layout_with_staging_exclusions_and_io_alignment.
      by apply solve_layout_safe.
    + by apply relocate_safe.
    + apply validate_before_images_safe.
    + apply overlay_build_safe.
    + apply overlay_build_safe.
    + apply overlay_build_safe.
    + apply overlay_build_safe.
    + apply overlay_build_safe.
    + apply encode_safe.
    + unfold refresh_durable_envelope, validate_initial_capsule_generation. safe. apply Henc.
Qed.
End Safe.

(** ** Restart *)
Section Restart.
Context `{Digests} `{PreparedEnvelope}.

(** Reading back the capsule of a run returns what the decoder makes of the
    envelope, if that is ready to resume as the plan itself is. *)
Lemma restart_decoded p q trace capsule manifest :
  identity_wf (pc_identity p) -> run p trace capsule ->
  decode_prepared_envelope (pc_prepared_envelope p) = Ok (q, manifest) ->
  pc_capsule_limits q = pc_capsule_limits p -> pc_identity q = pc_identity p ->
  resume_without_observation (with_envelope q (pc_prepared_envelope p)) capsule
    = resume_without_observation p capsule ->
  from_restart_capsule capsule (pc_capsule_limits p)
    = Ok (with_envelope q (pc_prepared_envelope p)).
Proof.
  intros Hid Hrun Hdec Hlim Hqid Hres. destruct (run_written _ _ _ Hid Hrun) as (Hr & _ & _ & gs & Hw).
  destruct (wr_first _ _ _ _ Hw) as (first & Hf & Hpay).
  destruct (written_resume _ _ _ _ Hr Hw) as (r & _ & Hp).
  unfold from_restart_capsule, recover_capsule.
  rewrite (written_scan _ _ _ _ true Hr Hw). simpl. rewrite Hf. simpl. rewrite Hpay, Hdec. simpl.
  rewrite Hlim, !N.ltb_irrefl. simpl.
  assert (Hfid : cg_identity first = pc_identity q).
  { rewrite Hqid. destruct gs as [|g gs]; [done |]. injection Hf as ->.
    pose proof (wr_identity _ _ _ _ Hw) as Hi. by apply Forall_cons in Hi as [? _]. }
  rewrite Hfid, bool_decide_true by done. simpl. by rewrite Hres, Hp.
Qed.
End Restart.

(** * The claims *)
Section Claims.
Context `{Digests} `{PreparedEnvelope}.
Implicit Types (p : PreparedConversion) (capsule img : list byte).

(** C5: a prepared conversion is only built from complete, clean and offline
    evidence of two known and different file systems, with exactly one usable
    rule per semantic feature, every physical extent in the allocation map and
    only file data movable; the solved layout materializes nothing and carries
    the projected graph to the target graph; every forward write lies in a
    reservation of its kind; the five overlays are valid plans of exactly the
    derived write groups, the rollback groups cover exactly the ranges of the
    forward groups and of the relocation destinations, and every digest, the
    recovery bundle and the envelope are those of the resulting plan. *)
Theorem prepared_conversion_sound source projected target draft images limits p :
  ct_image_bytes (pf_image (cd_preflight draft)) <= u64_max ->
  build_with_projected_target_graph source projected target draft images limits = Ok p ->
  exists before_images, before_images = sort_by_key ow_offset images /\
    prepared_ok p before_images /\ built source projected target draft limits p before_images.
Proof. apply build_Ok. Qed.

(** planning never aborts: whatever the graphs, evidence, allocations, writes
    and limits are, the result is a prepared conversion or an error, provided the
    envelope encoder does not abort. *)
Theorem build_never_panics source projected target draft images limits :
  (forall p, encode_prepared_envelope p <> Panic) ->
  pf_allocation_alignment (cd_preflight draft) <= u64_max ->
  len (all_streams (og_objects projected)) <= usize_max ->
  build_with_projected_target_graph source projected target draft images limits <> Panic.
Proof. apply build_safe. Qed.

(** C3: rollback is complete.  Let the before-images be the source's own bytes.
    At every checkpoint before finalization the rollback intent exists, its
    digest is that of its writes, and applying it restores the source image
    exactly, wherever the crash fell: from any image that differs from the source
    only in the ranges of the groups up to and including the intent in progress.
    At the terminal phases there is no rollback intent. *)
Theorem rollback_restores_source p before_images phase img img' :
  prepared_ok p before_images ->
  Forall (fragment_of img) (op_writes (pc_full_rollback_overlay p)) ->
  differs_within (touched p phase) img img' ->
  match rollback_intent p phase with
  | Ok intent =>
      apply_rollback intent img' = img /\
      forall writes digest, intent = RestoreSource writes digest ->
        digest = digest_overlay_writes writes
  | Err _ => phase = Finalized \/ phase = RolledBack
  | Panic => False
  end.
Proof. apply rollback_restores. Qed.
End Claims.

(** ** Witnesses *)
Section Witnesses.
#[local] Existing Instance rolling_digests.

Definition small_sector : list byte := replicate 512 x00.
Definition small_stream : ObjectStream :=
  mkObjectStream 7 None 512 512 512 512 (mkStreamFlags false false false 0) Extents.
Definition small_objects : list ObjectRecord :=
  [mkObjectRecord 5 Directory 0 plain []; mkObjectRecord 7 File 1 plain [small_stream]].
Definition small_extents (offset : N) : list Extent :=
  [mkExtent 7 0 512 (Physical offset) FileData].
Definition small_graph (offset : N) : ObjectGraph :=
  mkObjectGraph 5 small_objects [mkNamespaceEntry 5 7 [97]]
    (mkExtentGraph 4096 (small_extents offset) 512 0) [].
Definition small_write (kind : ReservationKind) (offset : N) (b : byte) : ReservedWrite :=
  mkReservedWrite kind (mkOverlayWrite offset (replicate 512 b)).
Definition zero_write (offset : N) : OverlayWrite := mkOverlayWrite offset small_sector.
(** [old] is the content of the file, which the staging group overwrites. *)
Definition small_writes (old : byte) : OpaqueWriteSets :=
  mkOpaqueWriteSets [small_write NamespaceMetadata 1024 x11] [small_write BootRegion 512 x12]
    [small_write BootRegion 0 x13] [mkOverlayWrite 1024 (replicate 512 old)] [zero_write 512]
    [zero_write 0].
Definition small_draft_of (container : ContainerIdentity) (old : byte) : ConversionDraft := {|
  cd_transaction_id := replicate 16 x07;
  cd_preflight := mkPreflightEvidence container ExFat
    (replicate 32 x02) (mkManifestCommitment (replicate 32 x03) 0 1) 512 512 true true Clean Offline;
  cd_target := mkTargetCapabilities Ntfs [];
  cd_source_allocations := [mkSourceAllocation 7 0 (mkByteRange 1024 512) true];
  cd_reservations := [mkDestinationReservation (mkByteRange 1024 512) NamespaceMetadata;
    mkDestinationReservation (mkByteRange 1536 512) AllocationMetadata;
    mkDestinationReservation (mkByteRange 0 1024) BootRegion];
  cd_writes := mkActivationAuthorizedWrites Ntfs (small_writes old)
|}.
Definition small_container : ContainerIdentity := mkContainerIdentity (replicate 32 x01) 4096.
Definition small_draft : ConversionDraft := small_draft_of small_container x00.
Definition small_limits : ConversionLimits :=
  mkConversionLimits (mkLayoutLimits 8 8 8 8) (mkOverlayLimits 16 8192 4096)
    sample_capsule_limits 4 16 8192.

(** An envelope that carries nothing. *)
Definition blank_envelope : PreparedEnvelope := {|
  encode_prepared_envelope := fun _ => Ok [x45; x4e];
  decode_prepared_envelope := fun _ => Err PreparedEnvelopeInvalid
|}.

Example small_graph_built :
  ObjectGraph_build 5 small_objects [mkNamespaceEntry 5 7 [97]]
    (mkExtentGraph 4096 (small_extents 1024) 512 0) sample_graph_limits = Ok (small_graph 1024).
Proof. by vm_compute. Qed.

(** The file stands where the target's namespace goes; it moves to the first
    free sector. *)
Definition small_prepared : PreparedConversion := Eval vm_compute in
  match @build_with_projected_target_graph _ blank_envelope (small_graph 1024) (small_graph 1024)
    (small_graph 2048) small_draft [zero_write 2048] small_limits with
  | Ok p => p
  | _ => sample_prepared
  end.

Lemma small_built :
  @build_with_projected_target_graph _ blank_envelope (small_graph 1024) (small_graph 1024)
    (small_graph 2048) small_draft [zero_write 2048] small_limits = Ok small_prepared.
Proof. vm_compute. reflexivity. Qed.

Example small_relocations : lp_relocations (pc_layout small_prepared) =
  [mkRelocation 7 0 (mkByteRange 1024 512) (mkByteRange 2048 512)].
Proof. reflexivity. Qed.

(** A target graph that ignores the relocation, and a missing before-image. *)
Example small_target_mismatch :
  @build_with_projected_target_graph _ blank_envelope (small_graph 1024) (small_graph 1024)
    (small_graph 1024) small_draft [zero_write 2048] small_limits = Err TargetGraphMismatch.
Proof. vm_compute. reflexivity. Qed.
Example small_image_missing :
  @build_with_projected_target_graph _ blank_envelope (small_graph 1024) (small_graph 1024)
    (small_graph 2048) small_draft [] small_limits = Err RelocationBeforeImageRangeMismatch.
Proof. vm_compute. reflexivity. Qed.

(** Witness. *)
Lemma prepared_conversion_sound_witness :
  exists before_images, before_images = [zero_write 2048] /\
    prepared_ok small_prepared before_images /\
    @built _ blank_envelope (small_graph 1024) (small_graph 1024) (small_graph 2048) small_draft
      small_limits small_prepared before_images.
Proof.
  apply (@prepared_conversion_sound _ blank_envelope (small_graph 1024) (small_graph 1024)
    (small_graph 2048) small_draft [zero_write 2048] small_limits small_prepared).
  - vm_compute. discriminate.
  - apply small_built.
Defined.

Lemma small_prepared_ok : prepared_ok small_prepared [zero_write 2048].
Proof.
  destruct (@build_Ok _ blank_envelope (small_graph 1024) (small_graph 1024) (small_graph 2048)
    small_draft [zero_write 2048] small_limits small_prepared) as (b & -> & Hp & _).
  - vm_compute. discriminate.
  - apply small_built.
  - exact Hp.
Qed.

(** Witness. *)
Lemma build_never_panics_witness :
  @build_with_projected_target_graph _ blank_envelope (small_graph 1024) (small_graph 1024)
    (small_graph 2048) small_draft [] small_limits <> Panic.
Proof.
  apply (@build_never_panics _ blank_envelope).
  - intros p. discriminate.
  - vm_compute. discriminate.
  - vm_compute. discriminate.
Defined.

(** An empty source whose staging group was half written. *)
Definition blank_image : list byte := replicate 4096 x00.
Definition torn_image : list byte := splice 1024 (replicate 100 x11) blank_image.

(** Witness. *)
Lemma rollback_restores_source_witness :
  exists intent, rollback_intent small_prepared Relocating = Ok intent /\
    apply_rollback intent torn_image = blank_image.
Proof.
  assert (Hd : differs_within (touched small_prepared Relocating) blank_image torn_image).
  { apply (differs_agrees [zero_write 2048; zero_write 1024]).
    split; [vm_compute; reflexivity |]. intros i Hi. unfold torn_image.
    specialize (Hi (zero_write 1024) ltac:(right; left)).
    apply (patch_outside blank_image [mkOverlayWrite 1024 (replicate 100 x11)]).
    - apply Forall_singleton. vm_compute. discriminate.
    - intros w ->%list_elem_of_singleton Hw. apply Hi. revert Hw. unfold in_range.
      change (ow_length (zero_write 1024)) with 512.
      change (ow_length (mkOverlayWrite 1024 (replicate 100 x11))) with 100. simpl. lia. }
  pose proof (rollback_restores_source small_prepared [zero_write 2048] Relocating blank_image
    torn_image small_prepared_ok) as Hx.
  eexists. split; [reflexivity |]. apply Hx; [|exact Hd].
  repeat apply Forall_cons_2; [..| apply Forall_nil_2]; split; vm_compute; done.
Defined.
End Witnesses.
