(* ===== verification/EnvelopeWire.v ===== *)
(** * The wire format of a prepared conversion ([conversion/prepared_envelope.rs])

    The sections, the header and the keys of the durable envelope: what the codec
    writes for each part of a prepared conversion and how it reads the part back.
    [EnvelopeCodec.v] assembles the parts. *)

From S2P Require Import Prelude Bytes Digest Image Extent Overlay Recovery Geometry Planner Capsule Conversion.
From stdpp Require Import options.
#[local] Open Scope N_scope.

Definition MAGIC : list byte := ascii_bytes "SCPREP02".
Definition VERSION : N := 2.
Definition HEADER_BYTES : N := 576.
Definition HEADER_CRC_OFFSET : N := 64.
Definition SECTION_HEADER_BYTES : N := 48.
Definition SECTION_COUNT : N := 12.
Definition RESERVED_WRITE_HEADER_BYTES : N := 24.
Definition ROLLBACK_WRITE_HEADER_BYTES : N := 16.

Definition RESERVATIONS : N := 1.
Definition RELOCATIONS : N := 2.
Definition FREE_RANGES : N := 3.
Definition TARGET_STAGING : N := 4.
Definition BACKUP_BOOT : N := 5.
Definition ACTIVATION : N := 6.
Definition TARGET_STAGING_ROLLBACK : N := 7.
Definition BACKUP_BOOT_ROLLBACK : N := 8.
Definition ACTIVATION_ROLLBACK : N := 9.
Definition RECOVERY_PAYLOAD : N := 10.
Definition TARGET_FEATURES : N := 11.
Definition RELOCATION_DESTINATION_ROLLBACK : N := 12.

Record PreparedEnvelopeLimits : Type := mkPreparedEnvelopeLimits {
  pl_max_envelope_bytes : N;
  pl_max_entries : N;
  pl_max_write_bytes : N;
  pl_max_recovery_bytes : N;
  pl_max_read_bytes : N;
  pl_max_logical_bytes : N
}.
Definition PreparedEnvelopeLimits_default : PreparedEnvelopeLimits := {|
  pl_max_envelope_bytes := 2 * 1024 * 1024 * 1024;
  pl_max_entries := 8 * 1024 * 1024;
  pl_max_write_bytes := 1024 * 1024 * 1024;
  pl_max_recovery_bytes := 1024 * 1024 * 1024;
  pl_max_read_bytes := 16 * 1024 * 1024;
  pl_max_logical_bytes := 2 ^ 50
|}.

(** [AllocationFailed] is left out: allocation is not modelled. *)
Inductive PreparedEnvelopeError : Type :=
| InvalidLimit (field : string)
| EnvelopeTooLarge (actual maximum : N)
| Truncated
| InvalidMagic
| UnsupportedVersion (actual : N)
| InvalidHeaderLength (actual : N)
| InvalidTotalLength (declared actual : N)
| NonZeroReserved
| HeaderCrcMismatch
| PayloadDigestMismatch
| InvalidSectionCount (actual : N)
| UnexpectedSection (expected actual : N)
| SectionDigestMismatch (section : N)
| EntryLimitExceeded (actual maximum : N)
| WriteByteLimitExceeded (actual maximum : N)
| RecoveryByteLimitExceeded (actual maximum : N)
| InvalidFixedSectionLength (section declared : N)
| InvalidSingletonSection (section count : N)
| InvalidEnum (field : string) (value : N)
| InvalidBooleanFlags (value : N)
| InvalidGeometry
| InvalidCapsuleLimits
| InvalidPreparedInvariant
| EmptyWrite (section offset : N)
| RangeOverflow (offset length : N)
| NonCanonicalOrder (section : N)
| ArithmeticOverflow
| CapsuleRefused (error : CapsuleError)
| RecoveryRefused (error : RecoveryError)
| RecoveryMismatch
| CommitmentMismatch (field : string)
| OverlayRefused (error : OverlayError).
Abbreviation envelope := (outcome PreparedEnvelopeError).

Record EnvelopeState : Type := mkEnvelopeState {
  es_identity : CapsuleIdentity;
  es_preflight : PreflightEvidence;
  es_target_filesystem : FileSystem;
  es_target_features : list FeatureCompatibility;
  es_source_graph_digest : list byte;
  es_target_graph_digest : list byte;
  es_plan_digest : list byte;
  es_candidate_overlay_digest : list byte;
  es_relocation_rollback_digest : list byte;
  es_staging_rollback_digest : list byte;
  es_preactivation_rollback_digest : list byte;
  es_full_rollback_digest : list byte;
  es_reservations : list DestinationReservation;
  es_layout : LayoutPlan;
  es_writes : OpaqueWriteSets;
  es_relocation_destination_before_images : list OverlayWrite;
  es_recovery_payload : list byte;
  es_capsule_limits : CapsuleLimits
}.

Record EncodedSection : Type := mkEncodedSection {
  ec_tag : N;
  ec_count : N;
  ec_bytes : list byte
}.
Record SectionMeta : Type := mkSectionMeta {
  sm_tag : N;
  sm_count : N;
  sm_start : N;
  sm_end : N
}.

Record HeaderState : Type := mkHeaderState {
  hs_identity : CapsuleIdentity;
  hs_preflight : PreflightEvidence;
  hs_target_filesystem : FileSystem;
  hs_source_graph_digest : list byte;
  hs_target_graph_digest : list byte;
  hs_plan_digest : list byte;
  hs_candidate_overlay_digest : list byte;
  hs_relocation_rollback_digest : list byte;
  hs_staging_rollback_digest : list byte;
  hs_preactivation_rollback_digest : list byte;
  hs_full_rollback_digest : list byte;
  hs_relocated_bytes : N;
  hs_largest_free_range : N;
  hs_capsule_limits : CapsuleLimits
}.

(** ** Reading *)
Definition array (n : N) (bytes : list byte) (offset : N) : envelope (list byte) :=
  end_ ← add_u64 offset n;
  ok_or Truncated (get_range offset end_ bytes).
Definition array_16 : list byte -> N -> envelope (list byte) := array 16.
Definition array_32 : list byte -> N -> envelope (list byte) := array 32.
Definition read_u16 (bytes : list byte) (offset : N) : envelope N :=
  raw ← array 2 bytes offset; Ok (le_num raw).
Definition read_u32 (bytes : list byte) (offset : N) : envelope N :=
  raw ← array 4 bytes offset; Ok (le_num raw).
Definition read_u64 (bytes : list byte) (offset : N) : envelope N :=
  raw ← array 8 bytes offset; Ok (le_num raw).
Definition usize_u64 (value : N) : envelope N := ok_or ArithmeticOverflow (u64_try_from value).
Definition read_usize (bytes : list byte) (offset : N) : envelope N :=
  value ← read_u64 bytes offset; ok_or ArithmeticOverflow (usize_try_from value).
Definition copy_bounded (bytes : list byte) : envelope (list byte) := Ok bytes.
Definition bounded_vec {T : Type} (count : N) : envelope (list T) :=
  _ ← ok_or ArithmeticOverflow (usize_try_from count); Ok [].
(** [bytes.iter().any(|byte| *byte != 0)]. *)
Definition any_nonzero (bytes : list byte) : bool :=
  existsb (fun b => negb (bool_decide (b = x00))) bytes.

(** [values.windows(2).any(|pair| key(pair[0]) >= key(pair[1]))]; a tuple is the
    list of its components. *)
Definition ensure_order {T : Type} (values : list T) (section : N) (key : T -> list N)
    : envelope unit :=
  match find_windows2 (fun a b => lex_leb (key b) (key a)) values with
  | Some _ => Err (NonCanonicalOrder section)
  | None => Ok tt
  end.

(** ** Keys *)
Definition filesystem_key (value : FileSystem) : envelope N :=
  match value with
  | ExFat => Ok 0
  | Ntfs => Ok 1
  | UnknownFileSystem => Err (InvalidEnum "filesystem" 2)
  end.
Definition decode_filesystem (value : N) (field : string) : envelope FileSystem :=
  match value with
  | 0 => Ok ExFat
  | 1 => Ok Ntfs
  | _ => Err (InvalidEnum field value)
  end.
Definition health_key (value : HealthState) : N :=
  match value with Clean => 0 | Dirty => 1 | UnknownHealth => 2 end.
Definition decode_health (value : N) : envelope HealthState :=
  match value with
  | 0 => Ok Clean
  | 1 => Ok Dirty
  | 2 => Ok UnknownHealth
  | _ => Err (InvalidEnum "health" value)
  end.
Definition access_key (value : AccessState) : N :=
  match value with Offline => 0 | Mounted => 1 | UnknownAccess => 2 end.
Definition decode_access (value : N) : envelope AccessState :=
  match value with
  | 0 => Ok Offline
  | 1 => Ok Mounted
  | 2 => Ok UnknownAccess
  | _ => Err (InvalidEnum "access" value)
  end.
Definition reservation_kind_key (value : ReservationKind) : N :=
  match value with
  | BootRegion => 0
  | AllocationMetadata => 1
  | NamespaceMetadata => 2
  | Journal => 3
  | CapsuleReservation => 4
  | OtherReservation => 5
  end.
Definition decode_reservation_kind (value : N) : envelope ReservationKind :=
  match value with
  | 0 => Ok BootRegion
  | 1 => Ok AllocationMetadata
  | 2 => Ok NamespaceMetadata
  | 3 => Ok Journal
  | 4 => Ok CapsuleReservation
  | 5 => Ok OtherReservation
  | _ => Err (InvalidEnum "reservation kind" value)
  end.
Definition semantic_feature_key (value : SemanticFeature) : N :=
  match value with
  | AccessControl => 0
  | AlternateDataStreams => 1
  | Compression => 2
  | EncryptedFiles => 3
  | HardLinks => 4
  | ReparsePoints => 5
  | SparseFiles => 6
  | CaseCollisions => 7
  end.
Definition decode_semantic_feature (value : N) : envelope SemanticFeature :=
  match value with
  | 0 => Ok AccessControl
  | 1 => Ok AlternateDataStreams
  | 2 => Ok Compression
  | 3 => Ok EncryptedFiles
  | 4 => Ok HardLinks
  | 5 => Ok ReparsePoints
  | 6 => Ok SparseFiles
  | 7 => Ok CaseCollisions
  | _ => Err (InvalidEnum "semantic feature" value)
  end.

(** ** Fixed-size sections *)
Definition encode_range (value : ByteRange) (bytes : list byte) : list byte :=
  (bytes ++ u64_le (br_offset value)) ++ u64_le (br_length value).
Definition encode_reservation (value : DestinationReservation) (bytes : list byte) : list byte :=
  let bytes := bytes ++ u64_le (br_offset (dr_range value)) in
  let bytes := bytes ++ u64_le (br_length (dr_range value)) in
  let bytes := bytes ++ [byte_of_N (reservation_kind_key (dr_kind value))] in
  bytes ++ replicate 7 x00.
Definition encode_relocation (value : Relocation) (bytes : list byte) : list byte :=
  let bytes := bytes ++ u64_le (rl_stream value) in
  let bytes := bytes ++ u64_le (rl_logical_offset value) in
  encode_range (rl_destination value) (encode_range (rl_source value) bytes).
Definition encode_target_feature (value : FeatureCompatibility) (bytes : list byte)
    : list byte :=
  let bytes := bytes ++ [byte_of_N (semantic_feature_key (fc_feature value))] in
  match fc_method value with
  | Native =>
      let bytes := bytes ++ [x00] in
      let bytes := bytes ++ u16_le 0 in
      bytes ++ replicate 32 x00
  | EscrowMethod schema_version payload_digest =>
      let bytes := bytes ++ [x01] in
      let bytes := bytes ++ u16_le schema_version in
      bytes ++ payload_digest
  end.

Definition fixed_section {T : Type} (tag : N) (values : list T)
    (encode : T -> list byte -> list byte) : envelope EncodedSection :=
  let bytes := foldl (fun bytes value => encode value bytes) [] values in
  count ← ok_or ArithmeticOverflow (u32_try_from (len values));
  Ok (mkEncodedSection tag count bytes).

(** [chunks_exact(width)]: the remainder is left out. *)
Fixpoint chunks_from (fuel : nat) (width : N) (bytes : list byte) : list (list byte) :=
  match fuel with
  | O => []
  | S fuel =>
      if len bytes <? width then []
      else subslice 0 width bytes :: chunks_from fuel width (subslice width (len bytes) bytes)
  end.
Definition chunks_exact (width : N) (bytes : list byte) : list (list byte) :=
  chunks_from (length bytes) width bytes.

(** The loops that push one value per chunk. *)
Definition push_chunk {T : Type} (decode : list byte -> envelope T) (output : list T)
    (chunk : list byte) : envelope (list T) :=
  value ← decode chunk; Ok (output ++ [value]).

Definition reservation_key (value : DestinationReservation) : list N :=
  [br_offset (dr_range value); br_length (dr_range value); reservation_kind_key (dr_kind value)].
Definition decode_reservation (chunk : list byte) : envelope DestinationReservation :=
  reserved ← index_range 17 24 chunk;
  refuse_if (any_nonzero reserved) NonZeroReserved ;;
  offset ← read_u64 chunk 0;
  length ← read_u64 chunk 8;
  kind_byte ← at_index chunk 16;
  kind ← decode_reservation_kind (Byte.to_N kind_byte);
  Ok (mkDestinationReservation (mkByteRange offset length) kind).
Definition decode_reservations (bytes : list byte) (count : N)
    : envelope (list DestinationReservation) :=
  output ← bounded_vec count;
  output ← try_fold (push_chunk decode_reservation) output (chunks_exact 24 bytes);
  ensure_order output RESERVATIONS reservation_key ;;
  Ok output.

Definition relocation_key (value : Relocation) : list N :=
  [br_offset (rl_source value); rl_stream value; rl_logical_offset value].
Definition decode_relocation (chunk : list byte) : envelope Relocation :=
  stream ← read_u64 chunk 0;
  logical_offset ← read_u64 chunk 8;
  source_offset ← read_u64 chunk 16;
  source_length ← read_u64 chunk 24;
  destination_offset ← read_u64 chunk 32;
  destination_length ← read_u64 chunk 40;
  Ok (mkRelocation stream logical_offset (mkByteRange source_offset source_length)
        (mkByteRange destination_offset destination_length)).
Definition decode_relocations (bytes : list byte) (count : N) : envelope (list Relocation) :=
  output ← bounded_vec count;
  output ← try_fold (push_chunk decode_relocation) output (chunks_exact 48 bytes);
  ensure_order output RELOCATIONS relocation_key ;;
  Ok output.

Definition range_key (value : ByteRange) : list N := [br_offset value; br_length value].
Definition decode_range (chunk : list byte) : envelope ByteRange :=
  offset ← read_u64 chunk 0;
  length ← read_u64 chunk 8;
  Ok (mkByteRange offset length).
Definition decode_ranges (bytes : list byte) (count : N) : envelope (list ByteRange) :=
  output ← bounded_vec count;
  output ← try_fold (push_chunk decode_range) output (chunks_exact 16 bytes);
  ensure_order output FREE_RANGES range_key ;;
  Ok output.

Definition validate_target_features (features : list FeatureCompatibility) : envelope unit :=
  ensure_order features TARGET_FEATURES (fun value => [semantic_feature_key (fc_feature value)]) ;;
  for_each (fun value =>
    match fc_method value with
    | EscrowMethod 0 _ => Err (CommitmentMismatch "escrow schema version")
    | _ => Ok tt
    end) features.
Definition decode_target_feature (chunk : list byte) : envelope FeatureCompatibility :=
  feature_byte ← at_index chunk 0;
  feature ← decode_semantic_feature (Byte.to_N feature_byte);
  version_low ← at_index chunk 2;
  version_high ← at_index chunk 3;
  let schema_version := le_num [version_low; version_high] in
  payload_digest ← index_range 4 36 chunk;
  method_byte ← at_index chunk 1;
  method ← match Byte.to_N method_byte with
           | 0 =>
               if (schema_version =? 0) && bool_decide (payload_digest = replicate 32 x00)
               then Ok Native
               else Err NonZeroReserved
           | 1 =>
               if negb (schema_version =? 0) then Ok (EscrowMethod schema_version payload_digest)
               else Err (InvalidEnum "preservation method" 1)
           | value => Err (InvalidEnum "preservation method" value)
           end;
  Ok (mkFeatureCompatibility feature method).
Definition decode_target_features (bytes : list byte) (count : N)
    : envelope (list FeatureCompatibility) :=
  output ← bounded_vec count;
  output ← try_fold (push_chunk decode_target_feature) output (chunks_exact 36 bytes);
  validate_target_features output ;;
  Ok output.

(** ** Write sections *)
Definition push_reserved_write (bytes : list byte) (value : ReservedWrite) : envelope (list byte) :=
  let bytes := bytes ++ [byte_of_N (reservation_kind_key (rw_reservation_kind value))] in
  let bytes := bytes ++ replicate 7 x00 in
  let bytes := bytes ++ u64_le (ow_offset (rw_write value)) in
  length ← usize_u64 (len (ow_bytes (rw_write value)));
  let bytes := bytes ++ u64_le length in
  Ok (bytes ++ ow_bytes (rw_write value)).
Definition reserved_write_section (tag : N) (writes : list ReservedWrite)
    : envelope EncodedSection :=
  bytes ← try_fold push_reserved_write [] writes;
  count ← ok_or ArithmeticOverflow (u32_try_from (len writes));
  Ok (mkEncodedSection tag count bytes).
Definition push_rollback_write (bytes : list byte) (value : OverlayWrite) : envelope (list byte) :=
  let bytes := bytes ++ u64_le (ow_offset value) in
  length ← usize_u64 (len (ow_bytes value));
  let bytes := bytes ++ u64_le length in
  Ok (bytes ++ ow_bytes value).
Definition rollback_write_section (tag : N) (writes : list OverlayWrite)
    : envelope EncodedSection :=
  bytes ← try_fold push_rollback_write [] writes;
  count ← ok_or ArithmeticOverflow (u32_try_from (len writes));
  Ok (mkEncodedSection tag count bytes).

(** Returns the end of the data and the payload bytes so far. *)
Definition bounded_write_end (bytes : list byte) (start offset length section payload : N)
    (limits : PreparedEnvelopeLimits) : envelope (N * N) :=
  refuse_if (length =? 0) (EmptyWrite section offset) ;;
  _ ← ok_or (RangeOverflow offset length) (checked_add offset length);
  payload ← ok_or ArithmeticOverflow (checked_add payload length);
  max_write_bytes ← usize_u64 (pl_max_write_bytes limits);
  refuse_if (max_write_bytes <? payload)
    (WriteByteLimitExceeded payload (pl_max_write_bytes limits)) ;;
  start_u64 ← usize_u64 start;
  end_ ← ok_or ArithmeticOverflow (checked_add start_u64 length);
  end_ ← ok_or Truncated (usize_try_from end_);
  refuse_if (len bytes <? end_) Truncated ;;
  Ok (end_, payload).

(** [for _ in 0..count], pushing what each round decodes; the state is the cursor
    and the payload bytes so far. *)
Fixpoint decode_loop {T : Type} (count : nat) (decode : N * N -> envelope (T * (N * N)))
    (output : list T) (state : N * N) : envelope (list T * (N * N)) :=
  match count with
  | O => Ok (output, state)
  | S count =>
      round ← decode state;
      decode_loop count decode (output ++ [round.1]) round.2
  end.

Definition decode_reserved_write (bytes : list byte) (meta : SectionMeta)
    (limits : PreparedEnvelopeLimits) (state : N * N) : envelope (ReservedWrite * (N * N)) :=
  let '(cursor, payload) := state in
  header_end ← ok_or ArithmeticOverflow (checked_add cursor RESERVED_WRITE_HEADER_BYTES);
  refuse_if (len bytes <? header_end) Truncated ;;
  reserved ← index_range (cursor + 1) (cursor + 8) bytes;
  refuse_if (any_nonzero reserved) NonZeroReserved ;;
  offset ← read_u64 bytes (cursor + 8);
  length ← read_u64 bytes (cursor + 16);
  '(data_end, payload) ← bounded_write_end bytes header_end offset length (sm_tag meta) payload
    limits;
  kind_byte ← at_index bytes cursor;
  reservation_kind ← decode_reservation_kind (Byte.to_N kind_byte);
  data ← index_range header_end data_end bytes;
  data ← copy_bounded data;
  Ok (mkReservedWrite reservation_kind (mkOverlayWrite offset data), (data_end, payload)).
Definition reserved_write_key (value : ReservedWrite) : list N :=
  [ow_offset (rw_write value); reservation_kind_key (rw_reservation_kind value)].
Definition decode_reserved_writes (bytes : list byte) (meta : SectionMeta)
    (limits : PreparedEnvelopeLimits) : envelope (list ReservedWrite) :=
  output ← bounded_vec (sm_count meta);
  decoded ← decode_loop (N.to_nat (sm_count meta)) (decode_reserved_write bytes meta limits)
    output (0, 0);
  (if negb (decoded.2.1 =? len bytes) then
     declared ← usize_u64 (len bytes); Err (InvalidFixedSectionLength (sm_tag meta) declared)
   else Ok tt) ;;
  ensure_order decoded.1 (sm_tag meta) reserved_write_key ;;
  Ok decoded.1.

Definition decode_rollback_write (bytes : list byte) (meta : SectionMeta)
    (limits : PreparedEnvelopeLimits) (state : N * N) : envelope (OverlayWrite * (N * N)) :=
  let '(cursor, payload) := state in
  header_end ← ok_or ArithmeticOverflow (checked_add cursor ROLLBACK_WRITE_HEADER_BYTES);
  refuse_if (len bytes <? header_end) Truncated ;;
  offset ← read_u64 bytes cursor;
  length ← read_u64 bytes (cursor + 8);
  '(data_end, payload) ← bounded_write_end bytes header_end offset length (sm_tag meta) payload
    limits;
  data ← index_range header_end data_end bytes;
  data ← copy_bounded data;
  Ok (mkOverlayWrite offset data, (data_end, payload)).
Definition rollback_write_key (value : OverlayWrite) : list N := [ow_offset value].
Definition decode_rollback_writes (bytes : list byte) (meta : SectionMeta)
    (limits : PreparedEnvelopeLimits) : envelope (list OverlayWrite) :=
  output ← bounded_vec (sm_count meta);
  decoded ← decode_loop (N.to_nat (sm_count meta)) (decode_rollback_write bytes meta limits)
    output (0, 0);
  (if negb (decoded.2.1 =? len bytes) then
     declared ← usize_u64 (len bytes); Err (InvalidFixedSectionLength (sm_tag meta) declared)
   else Ok tt) ;;
  ensure_order decoded.1 (sm_tag meta) rollback_write_key ;;
  Ok decoded.1.

(** * Specification of the sections *)

Definition range_typed (r : ByteRange) : Prop := br_offset r <= u64_max /\ br_length r <= u64_max.
Definition reservation_typed (v : DestinationReservation) : Prop := range_typed (dr_range v).
Definition relocation_typed (v : Relocation) : Prop :=
  rl_stream v <= u64_max /\ rl_logical_offset v <= u64_max /\ range_typed (rl_source v) /\
  range_typed (rl_destination v).
(** A rule that the decoder can return. *)
Definition feature_typed (v : FeatureCompatibility) : Prop :=
  match fc_method v with
  | Native => True
  | EscrowMethod schema_version payload_digest =>
      schema_version <= u16_max /\ len payload_digest = 32
  end.
Definition feature_versioned (v : FeatureCompatibility) : Prop :=
  match fc_method v with EscrowMethod 0 _ => False | _ => True end.
(** A write of at least one byte that ends below 2^64. *)
Definition write_in_range (w : OverlayWrite) : Prop :=
  0 < ow_length w /\ ow_offset w + ow_length w <= u64_max.

(** The bytes of one element. *)
Definition reserved_write_wire (v : ReservedWrite) : list byte :=
  byte_of_N (reservation_kind_key (rw_reservation_kind v)) :: replicate 7 x00 ++
  entry (rw_write v).
Definition wire {T : Type} (encode : T -> list byte -> list byte) (values : list T) : list byte :=
  concat ((fun v => encode v []) <$> values).

(** * Reading *)
Section Reading.

Lemma array_Ok n bytes offset s :
  len bytes <= u64_max ->
  array n bytes offset = Ok s <->
  offset + n <= len bytes /\ s = subslice offset (offset + n) bytes.
Proof.
  intros Hfit. unfold array. split.
  - intros Ha. inv_ok. apply get_range_Some in Ha as (_ & ? & ->). done.
  - intros [Ho ->]. ok_step. apply ok_or_Ok, get_range_Some. split_and!; [lia | lia | done].
Qed.
Lemma array_in n bytes offset :
  len bytes <= u64_max -> offset + n <= len bytes ->
  array n bytes offset = Ok (subslice offset (offset + n) bytes).
Proof. intros. by apply array_Ok. Qed.
Lemma array_safe n bytes offset : offset + n <= u64_max -> array n bytes offset <> Panic.
Proof. intros. unfold array. apply bind_safe; [by apply add_u64_safe |]. intros. apply ok_or_safe. Qed.

Lemma zero_bytes_check l : any_nonzero l = false <-> l = replicate (length l) x00.
Proof. apply zero_bytes. Qed.

(** A field of [n] bytes holds the number [v]. *)
Lemma field_num n bytes offset v :
  offset + N.of_nat n <= len bytes -> v < 256 ^ N.of_nat n ->
  le_num (subslice offset (offset + N.of_nat n) bytes) = v <->
  subslice offset (offset + N.of_nat n) bytes = le_bytes n v.
Proof.
  intros Hl Hv. split.
  - intros <-. rewrite le_bytes_num; [done |]. rewrite len_subslice; lia.
  - intros ->. rewrite le_num_le_bytes. by apply N.mod_small.
Qed.
End Reading.

(** ** Fixed-size sections *)
Section Fixed.
Context {T : Type} (width : N) (encode : T -> list byte -> list byte)
  (decode : list byte -> envelope T) (ok : T -> Prop).
Context (width_pos : 0 < width)
  (encode_append : forall v bytes, encode v bytes = bytes ++ encode v [])
  (encode_len : forall v, ok v -> len (encode v []) = width)
  (decode_chunk : forall chunk v, len chunk = width ->
     decode chunk = Ok v <-> ok v /\ encode v [] = chunk).

Lemma wire_cons v values : wire encode (v :: values) = encode v [] ++ wire encode values.
Proof using. done. Qed.

Lemma fixed_bytes values : forall bytes,
  foldl (fun bytes value => encode value bytes) bytes values = bytes ++ wire encode values.
Proof using encode_append.
  induction values as [|v values IH]; intros bytes; simpl; [by rewrite app_nil_r |].
  rewrite IH, encode_append, wire_cons. by rewrite <- app_assoc.
Qed.

Lemma fixed_section_Ok tag values s :
  fixed_section tag values encode = Ok s <->
  len values <= u32_max /\ s = mkEncodedSection tag (len values) (wire encode values).
Proof using encode_append.
  unfold fixed_section. rewrite fixed_bytes. simpl. split.
  - intros Hs. inv_ok. done.
  - intros [Hl ->]. by rewrite u32_try_from_in.
Qed.

Lemma len_wire values : Forall ok values -> len (wire encode values) = len values * width.
Proof using encode_len.
  induction 1 as [|v values Hv _ IH]; [done |].
  rewrite wire_cons, len_app, len_cons, IH, encode_len by done. ring.
Qed.

Lemma decode_chunks n : forall fuel data output r,
  (length data <= fuel)%nat -> len data = N.of_nat n * width ->
  try_fold (push_chunk decode) output (chunks_from fuel width data) = Ok r <->
  exists values, r = output ++ values /\ Forall ok values /\ wire encode values = data.
Proof using width_pos encode_len decode_chunk.
  induction n as [|n IH]; intros fuel data output r Hf Hd.
  - assert (data = []) as -> by (destruct data; [done | rewrite len_cons in Hd; lia]).
    assert (chunks_from fuel width [] = []) as ->.
    { destruct fuel; simpl; [done |]. rewrite len_nil. by rewrite (proj2 (N.ltb_lt 0 width)). }
    simpl. split.
    + intros [= <-]. exists []. rewrite app_nil_r. by repeat constructor.
    + intros (values & -> & Hok & Hw). pose proof (len_wire values Hok) as Hl.
      rewrite Hw, len_nil in Hl. destruct values; [by rewrite app_nil_r |].
      rewrite len_cons in Hl. lia.
  - assert (Hge : width <= len data) by lia.
    destruct fuel as [|fuel]; [unfold len in Hge; lia |]. cbn [chunks_from].
    rewrite (proj2 (N.ltb_ge _ _) Hge). cbn [try_fold].
    set (chunk := subslice 0 width data). set (rest := subslice width (len data) data).
    assert (Hc : len chunk = width) by (unfold chunk; rewrite len_subslice; lia).
    assert (Hr : len rest = N.of_nat n * width) by (unfold rest; rewrite len_subslice; lia).
    assert (Hsp : data = chunk ++ rest)
      by (unfold chunk, rest; rewrite subslice_split, subslice_all; [done | lia | lia]).
    assert (Hfr : (length rest <= fuel)%nat) by (unfold len in *; lia).
    rewrite bind_Ok. unfold push_chunk at 1. split.
    + intros (out & Ho & Hl). apply bind_Ok in Ho as (a & Hok & [= <-]).
      apply decode_chunk in Hok as [Hv He]; [|done].
      apply IH in Hl as (values & -> & Hok & Hw); [|done..]. exists (a :: values).
      rewrite wire_cons, He, Hw. split; [by rewrite <- app_assoc |]. by split; [constructor |].
    + intros (values & -> & Hok & Hw). destruct values as [|v values].
      { exfalso. rewrite <- Hw in Hge. change (len (wire encode [])) with 0 in Hge. lia. }
      apply Forall_cons in Hok as [Hv Hok]. rewrite wire_cons, Hsp in Hw.
      apply app_inj_1 in Hw as [He Hw];
        [|pose proof (encode_len v Hv) as Hlv; unfold len in Hlv, Hc; lia].
      exists (output ++ [v]). split.
      * apply bind_Ok. exists v. split; [by apply decode_chunk | done].
      * apply IH; [done..|]. exists values. split; [by rewrite <- app_assoc | done].
Qed.

Lemma decode_fixed count data r :
  len data = count * width ->
  try_fold (push_chunk decode) [] (chunks_exact width data) = Ok r <->
  Forall ok r /\ wire encode r = data.
Proof using width_pos encode_len decode_chunk.
  intros Hd. unfold chunks_exact. rewrite (decode_chunks (N.to_nat count)) by (rewrite ?N2Nat.id; done || lia).
  split; [intros (values & -> & ? & ?); done | intros []; by exists r].
Qed.

Lemma decode_fixed_safe data :
  (forall chunk, len chunk = width -> decode chunk <> Panic) ->
  try_fold (push_chunk decode) [] (chunks_exact width data) <> Panic.
Proof using width_pos.
  intros Hs. apply try_fold_safe. intros output chunk Hc. unfold push_chunk.
  apply bind_safe; [apply Hs | done]. revert Hc. unfold chunks_exact.
  generalize (length data) as fuel. intros fuel. revert data.
  induction fuel as [|fuel IH]; intros data; simpl; [by intros ?%elem_of_nil |].
  destruct (N.ltb_spec (len data) width); [by intros ?%elem_of_nil |].
  intros [->|Hc]%elem_of_cons; [rewrite len_subslice; lia | by apply (IH _ Hc)].
Qed.
End Fixed.

(** ** Tilings

    A byte string cut into consecutive parts of given widths. *)
Fixpoint tiled (offset : N) (parts : list (N * list byte)) (l : list byte) : Prop :=
  match parts with
  | [] => True
  | (n, part) :: parts => subslice offset (offset + n) l = part /\ tiled (offset + n) parts l
  end.
Definition widths (parts : list (N * list byte)) : N := sum_by fst parts.

Section Tilings.

Lemma tiled_concat parts : forall offset l,
  Forall (fun p => len p.2 = p.1) parts -> offset + widths parts <= len l ->
  subslice offset (offset + widths parts) l = concat (snd <$> parts) <-> tiled offset parts l.
Proof.
  induction parts as [|[n part] parts IH]; intros offset l Hf Hl; simpl.
  - split; [done |]. intros _. unfold subslice, widths, sum_by. simpl.
    by replace (offset + 0 - offset) with 0 by lia.
  - apply Forall_cons in Hf as [Hn Hf]. simpl in Hn.
    change (widths ((n, part) :: parts)) with (n + widths parts) in *.
    rewrite N.add_assoc in *.
    rewrite <- IH, <- (subslice_split offset (offset + n)) by (done || lia). split.
    + intros Ha. apply app_inj_1 in Ha; [done |].
      assert (Hs : len (subslice offset (offset + n) l) = len part) by (rewrite len_subslice; lia).
      by apply Nat2N.inj.
    + by intros [-> ->].
Qed.

Lemma tiled_iff parts l :
  Forall (fun p => len p.2 = p.1) parts -> widths parts = len l ->
  concat (snd <$> parts) = l <-> tiled 0 parts l.
Proof.
  intros Hf Hl. rewrite <- (tiled_concat parts 0 l Hf) by lia.
  rewrite N.add_0_l, Hl, subslice_all. naive_solver.
Qed.

Lemma tiled_app parts1 parts2 offset l :
  tiled offset (parts1 ++ parts2) l <->
  tiled offset parts1 l /\ tiled (offset + widths parts1) parts2 l.
Proof.
  revert offset. induction parts1 as [|[n part] parts1 IH]; intros offset; simpl.
  - unfold widths, sum_by. simpl. rewrite N.add_0_r. naive_solver.
  - change (widths ((n, part) :: parts1)) with (n + widths parts1).
    rewrite IH, N.add_assoc. naive_solver.
Qed.
End Tilings.

(** ** The four fixed-size codecs *)
Section Codecs.

Lemma decode_reservation_kind_Ok b k :
  decode_reservation_kind (Byte.to_N b) = Ok k <-> [b] = [byte_of_N (reservation_kind_key k)].
Proof. split; [destruct b; simpl; intros [= <-]; done | intros [= ->]; by destruct k]. Qed.
Lemma decode_semantic_feature_Ok b f :
  decode_semantic_feature (Byte.to_N b) = Ok f <-> [b] = [byte_of_N (semantic_feature_key f)].
Proof. split; [destruct b; simpl; intros [= <-]; done | intros [= ->]; by destruct f]. Qed.
Lemma decode_filesystem_Ok b name f :
  decode_filesystem (Byte.to_N b) name = Ok f <->
  exists key, filesystem_key f = Ok key /\ [b] = [byte_of_N key].
Proof.
  split.
  - destruct b; simpl; intros [= <-]; by eexists.
  - intros (key & Hk & [= ->]). by destruct f; simplify_eq/=.
Qed.
Lemma decode_health_Ok b h : decode_health (Byte.to_N b) = Ok h <-> [b] = [byte_of_N (health_key h)].
Proof. split; [destruct b; simpl; intros [= <-]; done | intros [= ->]; by destruct h]. Qed.
Lemma decode_access_Ok b a : decode_access (Byte.to_N b) = Ok a <-> [b] = [byte_of_N (access_key a)].
Proof. split; [destruct b; simpl; intros [= <-]; done | intros [= ->]; by destruct a]. Qed.

(** One byte as a slice. *)
Lemma at_index_slice {E} (bytes : list byte) i b :
  @at_index E byte bytes i = Ok b <-> subslice i (i + 1) bytes = [b].
Proof.
  rewrite at_index_Ok. unfold subslice. replace (N.to_nat (i + 1 - i)) with 1%nat by lia. split.
  - intros Hb. by rewrite (drop_S _ b _ Hb).
  - intros Hs. destruct (drop (N.to_nat i) bytes) as [|c rest] eqn:Hd; [done |].
    simpl in Hs. injection Hs as ->. rewrite <- (Nat.add_0_r (N.to_nat i)), <- lookup_drop.
    by rewrite Hd.
Qed.
End Codecs.

Section Chunks.

Ltac tile_widths := repeat constructor; cbn [fst snd]; rewrite ?len_u64_le, ?len_u16_le; done.

Lemma num_u64 bytes o v :
  o + 8 <= len bytes ->
  v = le_num (subslice o (o + 8) bytes) <-> v <= u64_max /\ subslice o (o + 8) bytes = u64_le v.
Proof.
  intros Hl. assert (Hs : len (subslice o (o + 8) bytes) = 8) by (rewrite len_subslice; lia). split.
  - intros ->. split; [by apply le_num_u64_bound |]. by rewrite u64_le_num.
  - intros [Hv ->]. by rewrite le_num_u64.
Qed.
Lemma num_u32 bytes o v :
  o + 4 <= len bytes ->
  v = le_num (subslice o (o + 4) bytes) <-> v <= u32_max /\ subslice o (o + 4) bytes = u32_le v.
Proof.
  intros Hl. assert (Hs : len (subslice o (o + 4) bytes) = 4) by (rewrite len_subslice; lia). split.
  - intros ->. split; [by apply le_num_u32_bound |]. by rewrite u32_le_num.
  - intros [Hv ->]. by rewrite le_num_u32.
Qed.
Lemma num_u16 bytes o v :
  o + 2 <= len bytes ->
  v = le_num (subslice o (o + 2) bytes) <-> v <= u16_max /\ subslice o (o + 2) bytes = u16_le v.
Proof.
  intros Hl. assert (Hs : len (subslice o (o + 2) bytes) = 2) by (rewrite len_subslice; lia). split.
  - intros ->. split; [|by rewrite u16_le_num].
    pose proof (le_num_bound (subslice o (o + 2) bytes)) as Hb. rewrite Hs in Hb.
    apply N.lt_succ_r, Hb.
  - intros [Hv ->]. by rewrite le_num_u16.
Qed.

Lemma wire_u64_Ok bytes o v :
  len bytes <= u64_max -> o + 8 <= len bytes ->
  read_u64 bytes o = Ok v <-> v <= u64_max /\ subslice o (o + 8) bytes = u64_le v.
Proof.
  intros Hf Hl. rewrite <- num_u64 by done. unfold read_u64. rewrite array_in by lia. simpl.
  naive_solver.
Qed.
Lemma wire_u32_Ok bytes o v :
  len bytes <= u64_max -> o + 4 <= len bytes ->
  read_u32 bytes o = Ok v <-> v <= u32_max /\ subslice o (o + 4) bytes = u32_le v.
Proof.
  intros Hf Hl. rewrite <- num_u32 by done. unfold read_u32. rewrite array_in by lia. simpl.
  naive_solver.
Qed.
Lemma wire_u16_Ok bytes o v :
  len bytes <= u64_max -> o + 2 <= len bytes ->
  read_u16 bytes o = Ok v <-> v <= u16_max /\ subslice o (o + 2) bytes = u16_le v.
Proof.
  intros Hf Hl. rewrite <- num_u16 by done. unfold read_u16. rewrite array_in by lia. simpl.
  naive_solver.
Qed.

Lemma zero_slice lo hi n bytes :
  len bytes = n -> lo <= hi -> hi <= n ->
  any_nonzero (subslice lo hi bytes) = false <->
  subslice lo hi bytes = replicate (N.to_nat (hi - lo)) x00.
Proof.
  intros Hn Hlo Hhi. rewrite zero_bytes_check.
  assert (Hl : length (subslice lo hi bytes) = N.to_nat (hi - lo)).
  { assert (len (subslice lo hi bytes) = hi - lo) as Hs by (rewrite len_subslice; lia).
    unfold len in Hs. lia. }
  by rewrite Hl.
Qed.

Lemma bind_iff {E A B} (m : outcome E A) (f : A -> outcome E B) (P : A -> Prop) r :
  (forall a, m = Ok a <-> P a) -> m ≫= f = Ok r <-> exists a, P a /\ f a = Ok r.
Proof. intros Hm. rewrite bind_Ok. by setoid_rewrite Hm. Qed.

(** [reads H] resolves the [read_u64] of a decoder that succeeds; [read_next]
    runs one. *)
Ltac reads H :=
  repeat match type of H with
  | read_u64 _ _ ≫= _ = Ok _ =>
      let Hr := fresh "Hread" in
      apply bind_Ok in H as (? & Hr & H); apply wire_u64_Ok in Hr as [? ?]; [|done|lia]
  end.
Ltac read_next :=
  eapply bind_step; [apply wire_u64_Ok; [done | lia | split; [| eassumption]; assumption] | cbv beta].

Lemma decode_range_chunk chunk v :
  len chunk = 16 -> decode_range chunk = Ok v <-> range_typed v /\ encode_range v [] = chunk.
Proof.
  intros Hc. assert (Hb : len chunk <= u64_max) by (rewrite Hc; done).
  assert (He : encode_range v [] = concat (snd <$> [(8, u64_le (br_offset v)); (8, u64_le (br_length v))])) by done.
  rewrite He, tiled_iff by (tile_widths || by rewrite Hc). cbn [tiled].
  unfold decode_range, range_typed. destruct v as [o l]. split.
  - intros Hd. reads Hd. injection Hd as <- <-. done.
  - intros ([? ?] & ? & ? & _). read_next. read_next. done.
Qed.

Lemma decode_reservation_chunk chunk v :
  len chunk = 24 ->
  decode_reservation chunk = Ok v <-> reservation_typed v /\ encode_reservation v [] = chunk.
Proof.
  intros Hc. assert (Hb : len chunk <= u64_max) by (rewrite Hc; done).
  assert (He : encode_reservation v [] = concat (snd <$>
    [(8, u64_le (br_offset (dr_range v))); (8, u64_le (br_length (dr_range v)));
     (1, [byte_of_N (reservation_kind_key (dr_kind v))]); (7, replicate 7 x00)])) by done.
  rewrite He, tiled_iff by (tile_widths || by rewrite Hc). cbn [tiled].
  unfold decode_reservation, reservation_typed, range_typed. destruct v as [[o l] k].
  cbn [dr_range dr_kind br_offset br_length]. split.
  - intros Hd. apply bind_Ok in Hd as (z & Hz & Hd).
    apply index_range_Ok in Hz as (_ & _ & ->).
    apply bind_Ok in Hd as (? & Hz & Hd). apply refuse_if_Ok in Hz.
    apply (zero_slice 17 24 24) in Hz; [|done..]. reads Hd.
    apply bind_Ok in Hd as (b & Hk & Hd). apply at_index_slice in Hk.
    apply bind_Ok in Hd as (kind & Hd' & Hd). apply decode_reservation_kind_Ok in Hd'.
    injection Hd as <- <- <-. rewrite <- Hd'. done.
  - intros ([? ?] & ? & ? & Hk & Hz & _).
    eapply bind_step; [apply index_range_in; [done | by rewrite Hc] | cbv beta].
    eapply bind_step; [by apply refuse_step, (zero_slice 17 24 24) | cbv beta].
    read_next. read_next. eapply bind_step; [by apply (at_index_slice _ 16) | cbv beta].
    eapply bind_step; [by apply decode_reservation_kind_Ok | cbv beta]. done.
Qed.

Lemma decode_relocation_chunk chunk v :
  len chunk = 48 ->
  decode_relocation chunk = Ok v <-> relocation_typed v /\ encode_relocation v [] = chunk.
Proof.
  intros Hc. assert (Hb : len chunk <= u64_max) by (rewrite Hc; done).
  assert (He : encode_relocation v [] = concat (snd <$>
    [(8, u64_le (rl_stream v)); (8, u64_le (rl_logical_offset v));
     (8, u64_le (br_offset (rl_source v))); (8, u64_le (br_length (rl_source v)));
     (8, u64_le (br_offset (rl_destination v))); (8, u64_le (br_length (rl_destination v)))]))
    by done.
  rewrite He, tiled_iff by (tile_widths || by rewrite Hc). cbn [tiled].
  unfold decode_relocation, relocation_typed, range_typed. destruct v as [st lo [so sl] [d_o d_l]].
  cbn [rl_stream rl_logical_offset rl_source rl_destination br_offset br_length]. split.
  - intros Hd. reads Hd. injection Hd as <- <- <- <- <- <-. done.
  - intros ((? & ? & [? ?] & ? & ?) & ? & ? & ? & ? & ? & ? & _). do 6 read_next. done.
Qed.

(** The rules the decoder can return: typed, and an escrow rule has a version. *)
Definition feature_ok (v : FeatureCompatibility) : Prop := feature_typed v /\ feature_versioned v.

Definition method_parts (method : PreservationMethod) : list (N * list byte) :=
  match method with
  | Native => [(1, [x00]); (2, u16_le 0); (32, replicate 32 x00)]
  | EscrowMethod version digest => [(1, [x01]); (2, u16_le version); (32, digest)]
  end.

Lemma encode_target_feature_parts v :
  encode_target_feature v [] = concat (snd <$>
    ((1, [byte_of_N (semantic_feature_key (fc_feature v))]) :: method_parts (fc_method v))).
Proof. destruct v as [f [|version digest]]; cbn; [done |]. by rewrite app_nil_r. Qed.

Lemma two_bytes (bytes : list byte) o low high :
  subslice o (o + 1) bytes = [low] -> subslice (o + 1) (o + 1 + 1) bytes = [high] ->
  subslice o (o + 2) bytes = [low; high].
Proof.
  intros H1 H2. replace (o + 2) with (o + 1 + 1) by lia.
  rewrite <- (subslice_split o (o + 1)) by lia. by rewrite H1, H2.
Qed.
Lemma len_one_slice (bytes : list byte) i : i < len bytes -> exists b, subslice i (i + 1) bytes = [b].
Proof.
  intros Hi. assert (Hl : len (subslice i (i + 1) bytes) = 1) by (rewrite len_subslice; lia).
  destruct (subslice i (i + 1) bytes) as [|b [|]]; [done | by exists b |].
  rewrite !len_cons in Hl. lia.
Qed.

Lemma decode_target_feature_chunk chunk v :
  len chunk = 36 ->
  decode_target_feature chunk = Ok v <-> feature_ok v /\ encode_target_feature v [] = chunk.
Proof.
  intros Hc. rewrite encode_target_feature_parts.
  destruct (len_one_slice chunk 0 ltac:(lia)) as [b0 H0].
  destruct (len_one_slice chunk 1 ltac:(lia)) as [b1 H1].
  destruct (len_one_slice chunk 2 ltac:(lia)) as [b2 H2].
  destruct (len_one_slice chunk 3 ltac:(lia)) as [b3 H3].
  change (0 + 1) with 1 in H0. change (1 + 1) with 2 in H1.
  pose proof (two_bytes chunk 2 b2 b3 H2 H3) as H23. change (2 + 2) with 4 in H23. set (digest := subslice 4 36 chunk).
  assert (Hd : len digest = 32) by (unfold digest; rewrite len_subslice; lia).
  assert (Hv : le_num [b2; b3] <= u16_max).
  { pose proof (le_num_bound [b2; b3]) as Hb. apply N.lt_succ_r, Hb. }
  assert (Hw : u16_le (le_num [b2; b3]) = [b2; b3]) by (by apply u16_le_num).
  unfold decode_target_feature.
  rewrite (proj2 (at_index_slice chunk 0 b0) H0), (proj2 (at_index_slice chunk 1 b1) H1),
    (proj2 (at_index_slice chunk 2 b2) H2), (proj2 (at_index_slice chunk 3 b3) H3),
    (index_range_in 4 36 chunk) by (rewrite ?Hc; done). fold digest. cbn [mbind outcome_bind].
  set (version := le_num [b2; b3]) in *. clearbody version.
  destruct v as [f m]. unfold feature_ok, feature_typed, feature_versioned. cbn [fc_feature fc_method].
  split.
  - intros Hx. apply bind_Ok in Hx as (f' & Hf & Hx). apply decode_semantic_feature_Ok in Hf.
    apply bind_Ok in Hx as (m' & Hm & [= -> ->]).
    assert (Hcase : (b1 = x00 /\ version = 0 /\ digest = replicate 32 x00 /\ m = Native) \/
                    (b1 = x01 /\ version <> 0 /\ m = EscrowMethod version digest)).
    { destruct b1; cbn in Hm; try discriminate Hm.
      - left. destruct (_ && _) eqn:Hz; [|discriminate Hm]. bool_props. by injection Hm as <-.
      - right. destruct (N.eqb_spec version 0); [discriminate Hm | by injection Hm as <-]. }
    destruct Hcase as [(-> & -> & Hz & ->)|(-> & Hn & ->)]; (split; [|apply tiled_iff]); cbn [method_parts].
    + done.
    + tile_widths.
    + by rewrite Hc.
    + cbn [tiled]. rewrite <- Hf. fold digest. split_and!; try done. by rewrite Hw.
    + destruct version; [done |]. done.
    + repeat constructor; done.
    + by rewrite Hc.
    + cbn [tiled]. rewrite <- Hf. fold digest. split_and!; try done. by rewrite Hw.
  - intros [[Ht Hn] He]. apply tiled_iff in He; [| | by destruct m; rewrite Hc].
    2: { destruct m; cbn [method_parts]; repeat constructor; try done. by cbn; apply Ht. }
    cbn [tiled] in He. change (0 + 1) with 1 in He. destruct He as [Hf He].
    rewrite H0 in Hf. rewrite (proj2 (decode_semantic_feature_Ok b0 f) Hf). cbn [mbind outcome_bind].
    destruct m as [|ver dig]; cbn [method_parts tiled] in He; change (1 + 1) with 2 in He;
      change (2 + 2) with 4 in He; change (4 + 32) with 36 in He;
      destruct He as (Hm & Hver & Hdig & _); rewrite H1 in Hm; injection Hm as ->;
      rewrite H23, <- Hw in Hver; apply (f_equal le_num) in Hver;
      rewrite !le_num_u16 in Hver by (done || apply Ht); subst version; unfold digest; rewrite Hdig.
    + cbn. by rewrite bool_decide_true.
    + cbn. by destruct ver.
Qed.
End Chunks.

(** ** Write sections *)
Section Loop.
Context {T : Type} (bytes : list byte) (decode : N * N -> envelope (T * (N * N)))
  (write : T -> list byte) (size : T -> N) (ok : T -> Prop) (maximum : N).
Context (decode_step : forall c p v c' p', c <= len bytes ->
  decode (c, p) = Ok (v, (c', p')) <->
  ok v /\ c' = c + len (write v) /\ c' <= len bytes /\ p' = p + size v /\ p' <= maximum /\
  subslice c c' bytes = write v).

Definition writes_wire (values : list T) : list byte := concat (write <$> values).

Lemma decode_loop_Ok n : forall output c p output' c' p',
  c <= len bytes -> p <= maximum ->
  decode_loop n decode output (c, p) = Ok (output', (c', p')) <->
  exists values, output' = output ++ values /\ length values = n /\ Forall ok values /\
    c' = c + len (writes_wire values) /\ c' <= len bytes /\
    p' = p + sum_by size values /\ p' <= maximum /\ subslice c c' bytes = writes_wire values.
Proof using decode_step.
  induction n as [|n IH]; intros output c p output' c' p' Hc Hp; cbn [decode_loop].
  - split.
    + intros [= <- <- <-]. exists []. rewrite app_nil_r. unfold writes_wire, sum_by. simpl.
      rewrite len_nil, !N.add_0_r. split_and!; try done. unfold subslice. by rewrite N.sub_diag.
    + intros (values & -> & Hn & _ & -> & _ & -> & _). apply nil_length_inv in Hn as ->.
      unfold writes_wire, sum_by. simpl. by rewrite len_nil, !N.add_0_r, app_nil_r.
  - rewrite bind_Ok. split.
    + intros ([v [c1 p1]] & Hv & Hr). simpl in Hr.
      apply decode_step in Hv as (Hok & Hc1 & Hle & Hp1 & Hpm & Hs); [|done].
      apply IH in Hr as (values & -> & <- & Hf & -> & Hle' & -> & Hpm' & Hs'); [|lia|done].
      exists (v :: values). rewrite sum_by_cons.
      change (writes_wire (v :: values)) with (write v ++ writes_wire values). rewrite len_app.
      split_and!; try done; try lia.
      * by rewrite <- app_assoc.
      * by constructor.
      * rewrite <- (subslice_split c c1) by lia. by rewrite Hs, Hs'.
    + intros (values & -> & Hn & Hf & -> & Hle & -> & Hpm & Hs).
      destruct values as [|v values]; [done |]. apply Forall_cons in Hf as [Hok Hf].
      rewrite sum_by_cons in *.
      change (writes_wire (v :: values)) with (write v ++ writes_wire values) in *.
      rewrite len_app in *.
      assert (Hs1 : subslice c (c + len (write v)) bytes = write v /\
        subslice (c + len (write v)) (c + (len (write v) + len (writes_wire values))) bytes
          = writes_wire values).
      { rewrite <- (subslice_split c (c + len (write v))) in Hs by lia.
        apply app_inj_1 in Hs; [done |].
        assert (Hl : len (subslice c (c + len (write v)) bytes) = len (write v))
          by (rewrite len_subslice; lia). by apply Nat2N.inj. }
      destruct Hs1 as [Hs1 Hs2].
      exists (v, (c + len (write v), p + size v)). split.
      * apply decode_step; [done |]. split_and!; try done; lia.
      * cbn [fst snd]. apply IH; [lia | lia |]. exists values. split_and!; try done; try lia.
        -- by rewrite <- app_assoc.
        -- simpl in Hn. lia.
Qed.

Lemma decode_loop_whole n output' s' :
  decode_loop n decode [] (0, 0) = Ok (output', s') /\ s'.1 = len bytes <->
  length output' = n /\ Forall ok output' /\ writes_wire output' = bytes /\
  sum_by size output' <= maximum /\ s' = (len bytes, sum_by size output').
Proof using decode_step.
  destruct s' as [c' p']. split.
  - intros [Hd Hc]. simpl in Hc. subst c'.
    apply decode_loop_Ok in Hd as (values & -> & <- & Hf & Hc & _ & -> & Hm & Hs); [|lia|lia].
    simpl. rewrite subslice_all in Hs. split_and!; done.
  - intros (<- & Hf & Hw & Hm & [= -> ->]). split; [|done].
    apply decode_loop_Ok; [lia | lia |]. exists output'. rewrite Hw, subslice_all.
    split_and!; try done; lia.
Qed.

Lemma decode_loop_safe n : forall output c p,
  (forall c p, c <= len bytes -> decode (c, p) <> Panic) ->
  c <= len bytes -> decode_loop n decode output (c, p) <> Panic.
Proof using decode_step.
  induction n as [|n IH]; intros output c p Hs Hc; cbn [decode_loop]; [done |].
  apply bind_safe; [by apply Hs |]. intros [v [c1 p1]] Hv.
  apply decode_step in Hv as (_ & _ & ? & _); [|done]. by apply IH.
Qed.
End Loop.

Lemma len_reserved_write_wire v :
  len (reserved_write_wire v) = RESERVED_WRITE_HEADER_BYTES + ow_length (rw_write v).
Proof.
  unfold reserved_write_wire. rewrite len_cons, len_app, len_entry, len_replicate.
  unfold RESERVED_WRITE_HEADER_BYTES, ENTRY_BYTES. lia.
Qed.

Section Writes.
Context (limits : PreparedEnvelopeLimits) (bytes : list byte) (meta : SectionMeta).
Context (limit_fits : pl_max_write_bytes limits <= u64_max) (bytes_fit : len bytes <= isize_max).

Lemma bounded_write_end_Ok start offset length section payload e p :
  start <= len bytes ->
  bounded_write_end bytes start offset length section payload limits = Ok (e, p) <->
  0 < length /\ offset + length <= u64_max /\ p = payload + length /\
  p <= pl_max_write_bytes limits /\ e = start + length /\ e <= len bytes.
Proof using limit_fits bytes_fit.
  intros Hs. pose proof isize_lt_u64. unfold bounded_write_end, usize_u64. split.
  - intros Hb. inv_ok. bool_props. split_and!; try done; lia.
  - intros (H0 & H1 & -> & Hp & -> & He).
    do 8 ok_step. ok_step. done.
Qed.
Lemma bounded_write_end_safe start offset length section payload :
  bounded_write_end bytes start offset length section payload limits <> Panic.
Proof using. unfold bounded_write_end, usize_u64. safe. Qed.

Lemma entry_slices c w :
  c + len (entry w) <= len bytes ->
  subslice c (c + len (entry w)) bytes = entry w <->
  subslice c (c + 8) bytes = u64_le (ow_offset w) /\
  subslice (c + 8) (c + 16) bytes = u64_le (ow_length w) /\
  subslice (c + 16) (c + 16 + ow_length w) bytes = ow_bytes w.
Proof using limit_fits bytes_fit.
  rewrite len_entry. unfold ENTRY_BYTES. intros Hl.
  replace (c + (16 + ow_length w)) with (c + 16 + ow_length w) by lia.
  rewrite <- (subslice_split c (c + 8) (c + 16 + ow_length w)),
    <- (subslice_split (c + 8) (c + 16) (c + 16 + ow_length w)) by lia.
  unfold entry. split; [|by intros (-> & -> & ->)].
  assert (Hn : forall lo hi, lo <= hi -> hi <= len bytes ->
    length (subslice lo hi bytes) = N.to_nat (hi - lo)).
  { intros lo hi ? ?. assert (Hs : len (subslice lo hi bytes) = hi - lo)
      by (rewrite len_subslice; lia). unfold len in Hs. lia. }
  intros Ha. apply app_inj_1 in Ha as [H1 Ha]; [|rewrite Hn by lia; change (length (u64_le (ow_offset w))) with 8%nat; lia].
  apply app_inj_1 in Ha as [H2 H3]; [done |].
  rewrite Hn by lia. change (length (u64_le (ow_length w))) with 8%nat. lia.
Qed.

Lemma decode_rollback_write_Ok c p w c' p' :
  c <= len bytes ->
  decode_rollback_write bytes meta limits (c, p) = Ok (w, (c', p')) <->
  write_in_range w /\ c' = c + len (entry w) /\ c' <= len bytes /\ p' = p + ow_length w /\
  p' <= pl_max_write_bytes limits /\ subslice c c' bytes = entry w.
Proof using limit_fits bytes_fit.
  intros Hc. pose proof isize_lt_u64.
  unfold decode_rollback_write, ROLLBACK_WRITE_HEADER_BYTES, copy_bounded. split.
  - intros Hd. inv_ok. bool_props. apply wire_u64_Ok in Hok1 as [Ho Hos]; [|lia|lia].
    apply wire_u64_Ok in Hok2 as [Hn Hns]; [|lia|lia]. destruct a3 as [e pp].
    apply bounded_write_end_Ok in Hok3 as (H0 & H1 & -> & Hp & -> & He); [|lia].
    apply bind_Ok in Hd as (data & Hdata & Hd). apply index_range_Ok in Hdata as (_ & _ & ->).
    cbn [mbind outcome_bind] in Hd. injection Hd as <- <- <-. set (w := mkOverlayWrite _ _).
    assert (Hw : ow_length w = a2).
    { unfold w, ow_length. cbn [ow_bytes]. rewrite len_subslice by lia. lia. }
    assert (Hle : len (entry w) = 16 + a2) by (rewrite len_entry, Hw; done).
    unfold write_in_range. rewrite Hw, Hle. split_and!; try done; try lia.
    replace (c + 16 + a2) with (c + len (entry w)) by lia.
    apply entry_slices; [lia |]. rewrite Hw. cbn [w ow_offset ow_bytes].
    replace (c + 16) with (c + 8 + 8) at 1 by lia. done.
  - intros ([H0 H1] & -> & He & -> & Hp & Hs). apply entry_slices in Hs as (Hs1 & Hs2 & Hs3); [|done].
    rewrite len_entry in *. unfold ENTRY_BYTES in *. ok_step. ok_step.
    eapply bind_step; [apply wire_u64_Ok; [lia | lia | split; [|exact Hs1]; lia] | cbv beta].
    eapply bind_step; [apply wire_u64_Ok; [lia | lia |] | cbv beta].
    { split; [|replace (c + 8 + 8) with (c + 16) by lia; exact Hs2]. lia. }
    eapply bind_step; [apply bounded_write_end_Ok; [lia |]; split_and!; try done; lia | cbv beta iota].
    eapply bind_step; [apply index_range_in; lia | cbv beta]. rewrite Hs3. cbn [mbind outcome_bind].
    destruct w. do 3 f_equal. lia.
Qed.

Lemma decode_rollback_write_safe c p :
  c <= len bytes -> decode_rollback_write bytes meta limits (c, p) <> Panic.
Proof using limit_fits bytes_fit.
  intros Hc. pose proof isize_lt_u64.
  unfold decode_rollback_write, ROLLBACK_WRITE_HEADER_BYTES, copy_bounded, read_u64.
  safe; try (apply array_safe); rename select (refuse_if _ _ = Ok _) into Hr; inv_ok; bool_props;
    try lia; [apply bounded_write_end_safe |].
  rename select (bounded_write_end _ _ _ _ _ _ _ = _) into Hb.
  match type of Hb with _ = Ok ?r => destruct r as [e pp] end.
  apply bounded_write_end_Ok in Hb as (_ & _ & _ & _ & -> & ?); [|lia].
  safe. apply index_range_safe; lia.
Qed.

Lemma reserved_slices c v :
  c + len (reserved_write_wire v) <= len bytes ->
  subslice c (c + len (reserved_write_wire v)) bytes = reserved_write_wire v <->
  subslice c (c + 1) bytes = [byte_of_N (reservation_kind_key (rw_reservation_kind v))] /\
  subslice (c + 1) (c + 8) bytes = replicate 7 x00 /\
  subslice (c + 8) (c + 8 + len (entry (rw_write v))) bytes = entry (rw_write v).
Proof using limit_fits bytes_fit.
  assert (Hl : len (reserved_write_wire v) = 8 + len (entry (rw_write v))).
  { rewrite len_reserved_write_wire, len_entry. unfold RESERVED_WRITE_HEADER_BYTES, ENTRY_BYTES. lia. }
  rewrite Hl. intros Hle. set (n := len (entry (rw_write v))) in *.
  replace (c + (8 + n)) with (c + 8 + n) by lia.
  rewrite <- (subslice_split c (c + 1) (c + 8 + n)),
    <- (subslice_split (c + 1) (c + 8) (c + 8 + n)) by lia.
  change (reserved_write_wire v) with
    ([byte_of_N (reservation_kind_key (rw_reservation_kind v))] ++ replicate 7 x00 ++
     entry (rw_write v)).
  split; [|by intros (-> & -> & ->)].
  assert (Hn : forall lo hi, lo <= hi -> hi <= len bytes ->
    length (subslice lo hi bytes) = N.to_nat (hi - lo)).
  { intros lo hi ? ?. assert (Hs : len (subslice lo hi bytes) = hi - lo)
      by (rewrite len_subslice; lia). unfold len in Hs. lia. }
  intros Ha. apply app_inj_1 in Ha as [H1 Ha]; [|rewrite Hn by lia; simpl; lia].
  apply app_inj_1 in Ha as [H2 H3]; [done |].
  rewrite Hn by lia. rewrite length_replicate. lia.
Qed.

Lemma decode_reserved_write_Ok c p v c' p' :
  c <= len bytes ->
  decode_reserved_write bytes meta limits (c, p) = Ok (v, (c', p')) <->
  write_in_range (rw_write v) /\ c' = c + len (reserved_write_wire v) /\ c' <= len bytes /\
  p' = p + ow_length (rw_write v) /\ p' <= pl_max_write_bytes limits /\
  subslice c c' bytes = reserved_write_wire v.
Proof using limit_fits bytes_fit.
  intros Hc. pose proof isize_lt_u64.
  unfold decode_reserved_write, RESERVED_WRITE_HEADER_BYTES, copy_bounded. split.
  - intros Hd. inv_ok. bool_props. apply index_range_Ok in Hok1 as (_ & _ & ->).
    apply (zero_slice _ _ (len bytes)) in Hok2; [|done|lia|lia].
    replace (c + 8 - (c + 1)) with 7 in Hok2 by lia. change (N.to_nat 7) with 7%nat in Hok2.
    apply wire_u64_Ok in Hok3 as [Ho Hos]; [|lia|lia].
    apply wire_u64_Ok in Hok4 as [Hn Hns]; [|lia|lia].
    match type of Hok5 with _ = Ok ?r => destruct r as [e pp] end.
    apply bounded_write_end_Ok in Hok5 as (H0 & H1 & -> & Hp & -> & He); [|lia].
    apply bind_Ok in Hd as (b & Hb & Hd). apply at_index_slice in Hb.
    apply bind_Ok in Hd as (k & Hk & Hd). apply decode_reservation_kind_Ok in Hk.
    apply bind_Ok in Hd as (data & Hdata & Hd). apply index_range_Ok in Hdata as (_ & _ & ->).
    cbn [mbind outcome_bind] in Hd. injection Hd as <- <- <-. set (w := mkOverlayWrite _ _).
    cbn [rw_write].
    match type of Hn with ?n <= _ => assert (Hw : ow_length w = n) end.
    { unfold w, ow_length. cbn [ow_bytes]. rewrite len_subslice by lia. lia. }
    assert (Hle : len (entry w) = 16 + ow_length w) by (rewrite len_entry; done).
    rewrite len_reserved_write_wire. cbn [rw_write]. unfold RESERVED_WRITE_HEADER_BYTES.
    unfold write_in_range. rewrite Hw in *. split_and!; try done; try lia.
    match goal with |- subslice _ ?e _ = ?r =>
      replace e with (c + len r) by (rewrite len_reserved_write_wire; cbn [rw_write];
        unfold RESERVED_WRITE_HEADER_BYTES; lia) end.
    apply reserved_slices; [rewrite len_reserved_write_wire; cbn [rw_write];
      unfold RESERVED_WRITE_HEADER_BYTES; lia |].
    cbn [rw_write rw_reservation_kind]. rewrite <- Hk. split_and!; [done | done |].
    apply entry_slices; [lia |]. rewrite Hw. cbn [w ow_offset ow_bytes].
    replace (c + 8 + 16) with (c + 24) by lia. replace (c + 16 + 8) with (c + 24) in Hns by lia.
    replace (c + 8 + 8) with (c + 16) in Hos |- * by lia. done.
  - intros ([H0 H1] & -> & He & -> & Hp & Hs). apply reserved_slices in Hs as (Hk & Hz & Hs); [|done].
    rewrite len_reserved_write_wire in *. unfold RESERVED_WRITE_HEADER_BYTES in *.
    apply entry_slices in Hs as (Hs1 & Hs2 & Hs3); [|rewrite len_entry; unfold ENTRY_BYTES; lia].
    replace (c + 8 + 8) with (c + 16) in Hs1, Hs2 by lia.
    replace (c + 8 + 16) with (c + 24) in Hs2, Hs3 by lia.
    ok_step. ok_step.
    eapply bind_step; [apply index_range_in; lia | cbv beta].
    eapply bind_step; [apply refuse_step, (zero_slice _ _ (len bytes)); [done | lia | lia |] | cbv beta].
    { replace (c + 8 - (c + 1)) with 7 by lia. done. }
    eapply bind_step; [apply wire_u64_Ok; [lia | lia |] | cbv beta].
    { split; [|replace (c + 8 + 8) with (c + 16) by lia; exact Hs1]. lia. }
    eapply bind_step; [apply wire_u64_Ok; [lia | lia |] | cbv beta].
    { split; [|replace (c + 16 + 8) with (c + 24) by lia; exact Hs2]. lia. }
    eapply bind_step; [apply bounded_write_end_Ok; [lia |]; split_and!; try done; lia | cbv beta iota].
    eapply bind_step; [by apply at_index_slice | cbv beta].
    eapply bind_step; [by apply decode_reservation_kind_Ok | cbv beta].
    eapply bind_step; [apply index_range_in; lia | cbv beta]. rewrite Hs3. cbn [mbind outcome_bind].
    destruct v as [k [o d]]. do 3 f_equal. lia.
Qed.

Lemma decode_reserved_write_safe c p :
  c <= len bytes -> decode_reserved_write bytes meta limits (c, p) <> Panic.
Proof using limit_fits bytes_fit.
  intros Hc. pose proof isize_lt_u64.
  unfold decode_reserved_write, RESERVED_WRITE_HEADER_BYTES, copy_bounded.
  apply bind_safe; [apply ok_or_safe |]. intros e He. inv_ok.
  apply bind_safe; [apply refuse_if_safe |]. intros u Hu. inv_ok. bool_props.
  apply bind_safe; [apply index_range_safe; lia |]. intros z _.
  apply bind_safe; [apply refuse_if_safe |]. intros _ _. unfold read_u64.
  safe; try (apply array_safe; lia); try apply bounded_write_end_safe.
  rename select (bounded_write_end _ _ _ _ _ _ _ = _) into Hb.
  match type of Hb with _ = Ok ?r => destruct r as [e pp] end.
  apply bounded_write_end_Ok in Hb as (_ & _ & _ & _ & -> & ?); [|lia].
  apply bind_safe; [apply at_index_safe; lia |]. intros b _.
  apply bind_safe; [by destruct b |]. intros k _.
  apply bind_safe; [apply index_range_safe; lia | done].
Qed.
End Writes.

(** ** Whole sections

    Each section codec: what the encoder writes, and that the decoder accepts
    exactly that, for elements in range and in order. *)
Section Sections.

Definition reserved_in_range (v : ReservedWrite) : Prop := write_in_range (rw_write v).
Definition reserved_length (v : ReservedWrite) : N := ow_length (rw_write v).

Lemma push_values_Ok {T} (push : list byte -> T -> envelope (list byte)) (write : T -> list byte)
    (ok : T -> Prop) :
  (forall bytes v, ok v -> push bytes v = Ok (bytes ++ write v)) ->
  forall values bytes, Forall ok values ->
  try_fold push bytes values = Ok (bytes ++ writes_wire write values).
Proof.
  intros Hp. induction values as [|v values IH]; intros bytes Hf; simpl.
  - unfold writes_wire. simpl. by rewrite app_nil_r.
  - apply Forall_cons in Hf as [Hv Hf]. rewrite Hp by done. simpl. rewrite IH by done.
    change (writes_wire write (v :: values)) with (write v ++ writes_wire write values).
    by rewrite app_assoc.
Qed.

Lemma push_rollback_write_Ok bytes w :
  write_in_range w -> push_rollback_write bytes w = Ok (bytes ++ entry w).
Proof.
  intros [_ Hw]. unfold push_rollback_write, usize_u64. fold (ow_length w).
  rewrite u64_try_from_in by lia. simpl. unfold entry. by rewrite <- !app_assoc.
Qed.
Lemma push_reserved_write_Ok bytes v :
  reserved_in_range v -> push_reserved_write bytes v = Ok (bytes ++ reserved_write_wire v).
Proof.
  intros [_ Hw]. unfold push_reserved_write, usize_u64. fold (ow_length (rw_write v)).
  rewrite u64_try_from_in by lia. simpl. unfold reserved_write_wire, entry.
  by rewrite <- !app_assoc.
Qed.

Lemma rollback_write_section_Ok tag writes s :
  Forall write_in_range writes ->
  rollback_write_section tag writes = Ok s <->
  len writes <= u32_max /\ s = mkEncodedSection tag (len writes) (writes_wire entry writes).
Proof.
  intros Hf. unfold rollback_write_section.
  rewrite (push_values_Ok _ entry _ push_rollback_write_Ok) by done. simpl. split.
  - intros Hs. inv_ok. done.
  - intros [Hl ->]. by rewrite u32_try_from_in.
Qed.
Lemma reserved_write_section_Ok tag writes s :
  Forall reserved_in_range writes ->
  reserved_write_section tag writes = Ok s <->
  len writes <= u32_max /\
  s = mkEncodedSection tag (len writes) (writes_wire reserved_write_wire writes).
Proof.
  intros Hf. unfold reserved_write_section.
  rewrite (push_values_Ok _ reserved_write_wire _ push_reserved_write_Ok) by done. simpl. split.
  - intros Hs. inv_ok. done.
  - intros [Hl ->]. by rewrite u32_try_from_in.
Qed.

Lemma bounded_vec_in {T} count : count <= u64_max -> @bounded_vec T count = Ok [].
Proof. intros. unfold bounded_vec. by rewrite usize_try_from_in. Qed.

(** The end of both list decoders. *)
Lemma decode_list_Ok {T} bytes meta (decode : N * N -> envelope (T * (N * N)))
    (write : T -> list byte) size ok maximum key r :
  (forall c p v c' p', c <= len bytes ->
    decode (c, p) = Ok (v, (c', p')) <->
    ok v /\ c' = c + len (write v) /\ c' <= len bytes /\ p' = p + size v /\ p' <= maximum /\
    subslice c c' bytes = write v) ->
  (decoded ← decode_loop (N.to_nat (sm_count meta)) decode [] (0, 0);
   (if negb (decoded.2.1 =? len bytes) then
      declared ← usize_u64 (len bytes); Err (InvalidFixedSectionLength (sm_tag meta) declared)
    else Ok tt) ;;
   ensure_order decoded.1 (sm_tag meta) key ;;
   Ok decoded.1) = Ok r <->
  len r = sm_count meta /\ Forall ok r /\ writes_wire write r = bytes /\
  sum_by size r <= maximum /\ ensure_order r (sm_tag meta) key = Ok tt.
Proof.
  intros Hstep.
  pose proof (decode_loop_whole bytes decode write size ok maximum Hstep
    (N.to_nat (sm_count meta))) as Hloop.
  split.
  - intros Hd. apply bind_Ok in Hd as ([out s] & Hl & Hd). cbn [fst snd] in Hd.
    apply then_Ok in Hd as [He Hd]. apply then_Ok in Hd as [Ho [= ->]].
    destruct (N.eqb_spec s.1 (len bytes)) as [Hs|]; [|by unfold usize_u64 in He; simpl in He;
      destruct (u64_try_from _)].
    destruct (proj1 (Hloop r s)) as (Hn & Hf & Hw & Hm & _); [done |].
    split_and!; try done. unfold len. lia.
  - intros (Hn & Hf & Hw & Hm & Ho).
    destruct (proj2 (Hloop r (len bytes, sum_by size r))) as [Hl _].
    { split_and!; try done. unfold len in Hn. lia. }
    rewrite Hl. cbn [mbind outcome_bind fst snd]. rewrite N.eqb_refl. simpl. by rewrite Ho.
Qed.

Lemma ensure_order_safe {T} (values : list T) section key : ensure_order values section key <> Panic.
Proof. unfold ensure_order. by destruct (find_windows2 _ _). Qed.

Context (limits : PreparedEnvelopeLimits) (limit_fits : pl_max_write_bytes limits <= u64_max).

Lemma decode_rollback_writes_Ok bytes meta r :
  len bytes <= isize_max -> sm_count meta <= u64_max ->
  decode_rollback_writes bytes meta limits = Ok r <->
  len r = sm_count meta /\ Forall write_in_range r /\ writes_wire entry r = bytes /\
  sum_by ow_length r <= pl_max_write_bytes limits /\
  ensure_order r (sm_tag meta) rollback_write_key = Ok tt.
Proof using limit_fits.
  intros Hb Hc. unfold decode_rollback_writes. rewrite bounded_vec_in by done.
  apply decode_list_Ok. intros. by apply decode_rollback_write_Ok.
Qed.
Lemma decode_reserved_writes_Ok bytes meta r :
  len bytes <= isize_max -> sm_count meta <= u64_max ->
  decode_reserved_writes bytes meta limits = Ok r <->
  len r = sm_count meta /\ Forall reserved_in_range r /\ writes_wire reserved_write_wire r = bytes /\
  sum_by reserved_length r <= pl_max_write_bytes limits /\
  ensure_order r (sm_tag meta) reserved_write_key = Ok tt.
Proof using limit_fits.
  intros Hb Hc. unfold decode_reserved_writes. rewrite bounded_vec_in by done.
  apply decode_list_Ok. intros. by apply decode_reserved_write_Ok.
Qed.

Lemma decode_rollback_writes_safe bytes meta :
  len bytes <= isize_max -> decode_rollback_writes bytes meta limits <> Panic.
Proof using limit_fits.
  intros Hb. unfold decode_rollback_writes, bounded_vec, usize_u64. safe; [|apply ensure_order_safe].
  rename select (_ ≫= _ = Ok _) into Hv. inv_ok.
  eapply decode_loop_safe; [| |lia].
  - intros. by apply decode_rollback_write_Ok.
  - intros. by apply decode_rollback_write_safe.
Qed.
Lemma decode_reserved_writes_safe bytes meta :
  len bytes <= isize_max -> decode_reserved_writes bytes meta limits <> Panic.
Proof using limit_fits.
  intros Hb. unfold decode_reserved_writes, bounded_vec, usize_u64. safe; [|apply ensure_order_safe].
  rename select (_ ≫= _ = Ok _) into Hv. inv_ok.
  eapply decode_loop_safe; [| |lia].
  - intros. by apply (decode_reserved_write_Ok limits bytes meta).
  - intros. by apply decode_reserved_write_safe.
Qed.
End Sections.

Section FixedSections.

Lemma encode_range_append v bytes : encode_range v bytes = bytes ++ encode_range v [].
Proof. unfold encode_range. by rewrite <- !app_assoc. Qed.
Lemma encode_reservation_append v bytes :
  encode_reservation v bytes = bytes ++ encode_reservation v [].
Proof. unfold encode_reservation. by rewrite <- !app_assoc. Qed.
Lemma encode_relocation_append v bytes :
  encode_relocation v bytes = bytes ++ encode_relocation v [].
Proof. unfold encode_relocation, encode_range. by rewrite <- !app_assoc. Qed.
Lemma encode_target_feature_append v bytes :
  encode_target_feature v bytes = bytes ++ encode_target_feature v [].
Proof. unfold encode_target_feature. destruct (fc_method v); by rewrite <- !app_assoc. Qed.

Lemma len_encode_range v : len (encode_range v []) = 16.
Proof. done. Qed.
Lemma len_encode_reservation v : len (encode_reservation v []) = 24.
Proof. done. Qed.
Lemma len_encode_relocation v : len (encode_relocation v []) = 48.
Proof. done. Qed.
Lemma len_encode_target_feature v : feature_ok v -> len (encode_target_feature v []) = 36.
Proof.
  intros [Ht _]. unfold feature_typed in Ht. unfold encode_target_feature.
  destruct (fc_method v); [done |]. rewrite !len_app, (proj2 Ht). done.
Qed.

(** The shape of the four decoders. *)
Lemma decode_fixed_list_Ok {T} width (encode : T -> list byte -> list byte) decode ok check bytes
    count (r : list T) :
  0 < width -> (forall v, ok v -> len (encode v []) = width) ->
  (forall chunk v, len chunk = width -> decode chunk = Ok v <-> ok v /\ encode v [] = chunk) ->
  count <= u64_max -> len bytes = count * width ->
  (output ← bounded_vec count;
   output ← try_fold (push_chunk decode) output (chunks_exact width bytes);
   check output ;; Ok output) = Ok r <->
  Forall ok r /\ wire encode r = bytes /\ check r = Ok tt.
Proof.
  intros Hw Hl Hd Hc Hb. rewrite bounded_vec_in by done. cbn [mbind outcome_bind]. rewrite bind_Ok.
  setoid_rewrite (decode_fixed width encode decode ok Hw Hl Hd count bytes); [|done]. split.
  - intros (out & [Hf He] & Hx). apply then_Ok in Hx as [Ho [= ->]]. done.
  - intros (Hf & He & Ho). exists r. split; [done |]. by rewrite Ho.
Qed.

Lemma decode_reservations_Ok bytes count r :
  count <= u64_max -> len bytes = count * 24 ->
  decode_reservations bytes count = Ok r <->
  Forall reservation_typed r /\ wire encode_reservation r = bytes /\
  ensure_order r RESERVATIONS reservation_key = Ok tt.
Proof.
  intros Hc Hb. apply (decode_fixed_list_Ok 24 encode_reservation decode_reservation reservation_typed
    (fun output => ensure_order output RESERVATIONS reservation_key)); try done.
  intros. by apply decode_reservation_chunk.
Qed.
Lemma decode_relocations_Ok bytes count r :
  count <= u64_max -> len bytes = count * 48 ->
  decode_relocations bytes count = Ok r <->
  Forall relocation_typed r /\ wire encode_relocation r = bytes /\
  ensure_order r RELOCATIONS relocation_key = Ok tt.
Proof.
  intros Hc Hb. apply (decode_fixed_list_Ok 48 encode_relocation decode_relocation relocation_typed
    (fun output => ensure_order output RELOCATIONS relocation_key)); try done.
  intros. by apply decode_relocation_chunk.
Qed.
Lemma decode_ranges_Ok bytes count r :
  count <= u64_max -> len bytes = count * 16 ->
  decode_ranges bytes count = Ok r <->
  Forall range_typed r /\ wire encode_range r = bytes /\
  ensure_order r FREE_RANGES range_key = Ok tt.
Proof.
  intros Hc Hb. apply (decode_fixed_list_Ok 16 encode_range decode_range range_typed
    (fun output => ensure_order output FREE_RANGES range_key)); try done.
  intros. by apply decode_range_chunk.
Qed.
Lemma decode_target_features_Ok bytes count r :
  count <= u64_max -> len bytes = count * 36 ->
  decode_target_features bytes count = Ok r <->
  Forall feature_ok r /\ wire encode_target_feature r = bytes /\
  validate_target_features r = Ok tt.
Proof.
  intros Hc Hb. apply (decode_fixed_list_Ok 36 encode_target_feature decode_target_feature feature_ok
    validate_target_features); try done.
  - apply len_encode_target_feature.
  - intros. by apply decode_target_feature_chunk.
Qed.

Lemma validate_target_features_versioned features u :
  validate_target_features features = Ok u -> Forall feature_versioned features.
Proof.
  unfold validate_target_features. rewrite then_Ok, for_each_Ok. intros [_ Hf].
  eapply Forall_impl; [exact Hf |]. intros v Hv. cbv beta in Hv. unfold feature_versioned.
  destruct (fc_method v) as [|[|]]; done.
Qed.
Lemma validate_target_features_safe features : validate_target_features features <> Panic.
Proof.
  unfold validate_target_features. safe; [apply ensure_order_safe |].
  destruct (fc_method _) as [|[|]]; done.
Qed.

Lemma chunk_reads_safe chunk n o : len chunk = n -> o + 8 <= n -> n <= u64_max ->
  read_u64 chunk o <> Panic.
Proof. intros Hn Ho Hm. unfold read_u64. safe. apply array_safe. lia. Qed.
Lemma decode_reservation_safe chunk : len chunk = 24 -> decode_reservation chunk <> Panic.
Proof.
  intros Hn. unfold decode_reservation.
  safe; try (apply (chunk_reads_safe _ 24); done).
  - apply index_range_safe; [done | by rewrite Hn].
  - apply at_index_safe. by rewrite Hn.
  - match goal with |- decode_reservation_kind (Byte.to_N ?b) <> Panic => by destruct b end.
Qed.
Lemma decode_relocation_safe chunk : len chunk = 48 -> decode_relocation chunk <> Panic.
Proof. intros Hn. unfold decode_relocation. safe; by apply (chunk_reads_safe _ 48). Qed.
Lemma decode_range_safe chunk : len chunk = 16 -> decode_range chunk <> Panic.
Proof. intros Hn. unfold decode_range. safe; by apply (chunk_reads_safe _ 16). Qed.
Lemma decode_target_feature_safe chunk : len chunk = 36 -> decode_target_feature chunk <> Panic.
Proof.
  intros Hn. unfold decode_target_feature. safe; try (apply at_index_safe; by rewrite Hn).
  - match goal with |- decode_semantic_feature (Byte.to_N ?b) <> Panic => by destruct b end.
  - apply index_range_safe; [done | by rewrite Hn].
  - match goal with |- context [Byte.to_N ?b] => destruct b; cbn; try done; by case_match end.
Qed.
End FixedSections.
