(* ===== verification/EnvelopeHeader.v ===== *)
(** * The header of the durable envelope ([conversion/prepared_envelope.rs])

    The 576 bytes that bind the sections together: the encoder, the checks and the
    decoder, and the proof that both describe one byte string. *)

From S2P Require Import Prelude Bytes Digest Image Extent Overlay Recovery Geometry Planner Capsule Conversion EnvelopeWire.
From stdpp Require Import options.
#[local] Open Scope N_scope.

Section Codec.
Context `{Digests}.

(** ** The header *)
(** [header[i] = value]. *)
Definition put_byte (header : list byte) (i value : N) : envelope (list byte) :=
  copy_from_slice i (i + 1) [byte_of_N value] header.
Definition header_crc (header : list byte) : envelope N :=
  copy ← index_range 0 HEADER_BYTES header;
  copy ← copy_from_slice HEADER_CRC_OFFSET (HEADER_CRC_OFFSET + 4) (replicate 4 x00) copy;
  Ok (crc32 copy).

Definition encode_header (header : list byte) (state : EnvelopeState) (total_bytes : N)
    (payload_digest : list byte) : envelope (list byte) :=
  let preflight := es_preflight state in
  let manifest := pf_source_manifest_commitment preflight in
  header ← copy_from_slice 0 8 MAGIC header;
  header ← put_le 2 header 8 VERSION;
  header_bytes ← ok_or ArithmeticOverflow (u16_try_from HEADER_BYTES);
  header ← put_le 2 header 10 header_bytes;
  total ← ok_or ArithmeticOverflow (u64_try_from total_bytes);
  header ← put_le 8 header 16 total;
  payload ← sub_u64 total_bytes HEADER_BYTES;
  payload ← ok_or ArithmeticOverflow (u64_try_from payload);
  header ← put_le 8 header 24 payload;
  header ← copy_from_slice 32 64 payload_digest header;
  header ← copy_from_slice 72 88 (ci_transaction_id (es_identity state)) header;
  header ← copy_from_slice 88 120 (ci_source_digest (es_identity state)) header;
  header ← copy_from_slice 120 152 (ct_instance (pf_image preflight)) header;
  header ← put_le 8 header 152 (ct_image_bytes (pf_image preflight));
  header ← copy_from_slice 160 192 (pf_source_evidence_digest preflight) header;
  header ← copy_from_slice 192 224 (es_source_graph_digest state) header;
  header ← copy_from_slice 224 256 (es_plan_digest state) header;
  header ← copy_from_slice 256 288 (es_candidate_overlay_digest state) header;
  header ← copy_from_slice 288 320 (es_staging_rollback_digest state) header;
  header ← copy_from_slice 320 352 (es_preactivation_rollback_digest state) header;
  header ← copy_from_slice 352 384 (es_full_rollback_digest state) header;
  header ← copy_from_slice 384 416 (mc_digest manifest) header;
  header ← put_le 8 header 416 (mc_logical_bytes_hashed manifest);
  header ← put_le 4 header 424 (pf_sector_bytes preflight);
  source_key ← filesystem_key (pf_source_filesystem preflight);
  header ← put_byte header 428 source_key;
  target_key ← filesystem_key (es_target_filesystem state);
  header ← put_byte header 429 target_key;
  header ← put_byte header 430 (health_key (pf_health preflight));
  header ← put_byte header 431 (access_key (pf_access preflight));
  header ← put_le 8 header 432 (pf_allocation_alignment preflight);
  header ← put_byte header 440
    (N.lor (N.b2n (pf_inventory_complete preflight))
       (N.shiftl (N.b2n (pf_allocation_map_complete preflight)) 1));
  header ← put_le 8 header 448 (lp_relocated_bytes (es_layout state));
  header ← put_le 8 header 456 (lp_largest_free_range (es_layout state));
  max_capsule_bytes ← usize_u64 (cl_max_capsule_bytes (es_capsule_limits state));
  header ← put_le 8 header 464 max_capsule_bytes;
  max_generation_bytes ← usize_u64 (cl_max_generation_bytes (es_capsule_limits state));
  header ← put_le 8 header 472 max_generation_bytes;
  max_generations ← usize_u64 (cl_max_generations (es_capsule_limits state));
  header ← put_le 8 header 480 max_generations;
  section_count ← ok_or ArithmeticOverflow (u32_try_from SECTION_COUNT);
  header ← put_le 4 header 488 section_count;
  header ← put_le 8 header 492 (mc_object_count manifest);
  header ← copy_from_slice 500 532 (es_target_graph_digest state) header;
  header ← copy_from_slice 532 564 (es_relocation_rollback_digest state) header;
  crc ← header_crc header;
  put_le 4 header HEADER_CRC_OFFSET crc.

Definition validate_header (bytes : list byte) : envelope unit :=
  magic ← index_range 0 8 bytes;
  refuse_if (negb (bool_decide (magic = MAGIC))) InvalidMagic ;;
  version ← read_u16 bytes 8;
  refuse_if (negb (version =? VERSION)) (UnsupportedVersion version) ;;
  header_len ← read_u16 bytes 10;
  refuse_if (negb (header_len =? HEADER_BYTES)) (InvalidHeaderLength header_len) ;;
  reserved_0 ← index_range 12 16 bytes;
  reserved_1 ← index_range 68 72 bytes;
  reserved_2 ← index_range 441 448 bytes;
  reserved_3 ← index_range 564 HEADER_BYTES bytes;
  refuse_if (any_nonzero (reserved_0 ++ reserved_1 ++ reserved_2 ++ reserved_3)) NonZeroReserved ;;
  stored ← read_u32 bytes HEADER_CRC_OFFSET;
  header ← index_range 0 HEADER_BYTES bytes;
  crc ← header_crc header;
  refuse_if (negb (stored =? crc)) HeaderCrcMismatch.

(** Fields are decoded in the order of the struct expression. *)
Definition decode_header (bytes : list byte) : envelope HeaderState :=
  flags_byte ← at_index bytes 440;
  let flags := Byte.to_N flags_byte in
  refuse_if (negb (N.land flags (N.lxor 3 u8_max) =? 0)) (InvalidBooleanFlags flags) ;;
  max_capsule_bytes ← read_usize bytes 464;
  max_generation_bytes ← read_usize bytes 472;
  max_generations ← read_usize bytes 480;
  transaction_id ← array_16 bytes 72;
  source_digest ← array_32 bytes 88;
  instance ← array_32 bytes 120;
  image_bytes ← read_u64 bytes 152;
  source_byte ← at_index bytes 428;
  source_filesystem ← decode_filesystem (Byte.to_N source_byte) "source filesystem";
  source_evidence_digest ← array_32 bytes 160;
  manifest_digest ← array_32 bytes 384;
  logical_bytes_hashed ← read_u64 bytes 416;
  object_count ← read_u64 bytes 492;
  sector_bytes ← read_u32 bytes 424;
  allocation_alignment ← read_u64 bytes 432;
  health_byte ← at_index bytes 430;
  health ← decode_health (Byte.to_N health_byte);
  access_byte ← at_index bytes 431;
  access ← decode_access (Byte.to_N access_byte);
  target_byte ← at_index bytes 429;
  target_filesystem ← decode_filesystem (Byte.to_N target_byte) "target filesystem";
  source_graph_digest ← array_32 bytes 192;
  target_graph_digest ← array_32 bytes 500;
  plan_digest ← array_32 bytes 224;
  candidate_overlay_digest ← array_32 bytes 256;
  relocation_rollback_digest ← array_32 bytes 532;
  staging_rollback_digest ← array_32 bytes 288;
  preactivation_rollback_digest ← array_32 bytes 320;
  full_rollback_digest ← array_32 bytes 352;
  relocated_bytes ← read_u64 bytes 448;
  largest_free_range ← read_u64 bytes 456;
  Ok {|
    hs_identity := mkCapsuleIdentity transaction_id source_digest;
    hs_preflight := mkPreflightEvidence (mkContainerIdentity instance image_bytes)
      source_filesystem source_evidence_digest
      (mkManifestCommitment manifest_digest logical_bytes_hashed object_count)
      sector_bytes allocation_alignment (negb (N.land flags 1 =? 0)) (negb (N.land flags 2 =? 0))
      health access;
    hs_target_filesystem := target_filesystem;
    hs_source_graph_digest := source_graph_digest;
    hs_target_graph_digest := target_graph_digest;
    hs_plan_digest := plan_digest;
    hs_candidate_overlay_digest := candidate_overlay_digest;
    hs_relocation_rollback_digest := relocation_rollback_digest;
    hs_staging_rollback_digest := staging_rollback_digest;
    hs_preactivation_rollback_digest := preactivation_rollback_digest;
    hs_full_rollback_digest := full_rollback_digest;
    hs_relocated_bytes := relocated_bytes;
    hs_largest_free_range := largest_free_range;
    hs_capsule_limits := mkCapsuleLimits max_capsule_bytes max_generation_bytes max_generations
  |}.
End Codec.

(** * Specification *)

(** The header fields of a state. *)
Definition header_of (s : EnvelopeState) : HeaderState := {|
  hs_identity := es_identity s;
  hs_preflight := es_preflight s;
  hs_target_filesystem := es_target_filesystem s;
  hs_source_graph_digest := es_source_graph_digest s;
  hs_target_graph_digest := es_target_graph_digest s;
  hs_plan_digest := es_plan_digest s;
  hs_candidate_overlay_digest := es_candidate_overlay_digest s;
  hs_relocation_rollback_digest := es_relocation_rollback_digest s;
  hs_staging_rollback_digest := es_staging_rollback_digest s;
  hs_preactivation_rollback_digest := es_preactivation_rollback_digest s;
  hs_full_rollback_digest := es_full_rollback_digest s;
  hs_relocated_bytes := lp_relocated_bytes (es_layout s);
  hs_largest_free_range := lp_largest_free_range (es_layout s);
  hs_capsule_limits := es_capsule_limits s
|}.

(** The fields have the sizes of their Rust types. *)
Definition is_digest (b : list byte) : Prop := len b = 32.
Record header_typed (h : HeaderState) : Prop := {
  ht_transaction : len (ci_transaction_id (hs_identity h)) = 16;
  ht_digests : Forall is_digest
    [ci_source_digest (hs_identity h); ct_instance (pf_image (hs_preflight h));
     pf_source_evidence_digest (hs_preflight h);
     mc_digest (pf_source_manifest_commitment (hs_preflight h));
     hs_source_graph_digest h; hs_target_graph_digest h; hs_plan_digest h;
     hs_candidate_overlay_digest h; hs_relocation_rollback_digest h; hs_staging_rollback_digest h;
     hs_preactivation_rollback_digest h; hs_full_rollback_digest h];
  ht_numbers : Forall (fun n => n <= u64_max)
    [ct_image_bytes (pf_image (hs_preflight h));
     mc_logical_bytes_hashed (pf_source_manifest_commitment (hs_preflight h));
     mc_object_count (pf_source_manifest_commitment (hs_preflight h));
     pf_allocation_alignment (hs_preflight h); hs_relocated_bytes h; hs_largest_free_range h;
     cl_max_capsule_bytes (hs_capsule_limits h); cl_max_generation_bytes (hs_capsule_limits h);
     cl_max_generations (hs_capsule_limits h)];
  ht_sector : pf_sector_bytes (hs_preflight h) <= u32_max
}.
(** The two filesystems are known. *)
Definition known (h : HeaderState) : Prop :=
  pf_source_filesystem (hs_preflight h) <> UnknownFileSystem /\
  hs_target_filesystem h <> UnknownFileSystem.
Definition key_byte (f : FileSystem) : list byte :=
  match f with ExFat => [x00] | Ntfs => [x01] | UnknownFileSystem => [x02] end.
Definition flag_byte (p : PreflightEvidence) : list byte :=
  [byte_of_N (N.lor (N.b2n (pf_inventory_complete p))
    (N.shiftl (N.b2n (pf_allocation_map_complete p)) 1))].

(** The header, part by part: what stands before the checksum, and what follows. *)
Definition front_parts (total payload : N) (digest : list byte) : list (N * list byte) :=
  [(8, MAGIC); (2, u16_le VERSION); (2, u16_le HEADER_BYTES); (4, replicate 4 x00);
   (8, u64_le total); (8, u64_le payload); (32, digest)].
Definition back_parts (h : HeaderState) : list (N * list byte) :=
  let p := hs_preflight h in
  let m := pf_source_manifest_commitment p in
  [(4, replicate 4 x00); (16, ci_transaction_id (hs_identity h));
   (32, ci_source_digest (hs_identity h)); (32, ct_instance (pf_image p));
   (8, u64_le (ct_image_bytes (pf_image p))); (32, pf_source_evidence_digest p);
   (32, hs_source_graph_digest h); (32, hs_plan_digest h); (32, hs_candidate_overlay_digest h);
   (32, hs_staging_rollback_digest h); (32, hs_preactivation_rollback_digest h);
   (32, hs_full_rollback_digest h); (32, mc_digest m); (8, u64_le (mc_logical_bytes_hashed m));
   (4, u32_le (pf_sector_bytes p)); (1, key_byte (pf_source_filesystem p));
   (1, key_byte (hs_target_filesystem h)); (1, [byte_of_N (health_key (pf_health p))]);
   (1, [byte_of_N (access_key (pf_access p))]); (8, u64_le (pf_allocation_alignment p));
   (1, flag_byte p); (7, replicate 7 x00); (8, u64_le (hs_relocated_bytes h));
   (8, u64_le (hs_largest_free_range h)); (8, u64_le (cl_max_capsule_bytes (hs_capsule_limits h)));
   (8, u64_le (cl_max_generation_bytes (hs_capsule_limits h)));
   (8, u64_le (cl_max_generations (hs_capsule_limits h))); (4, u32_le SECTION_COUNT);
   (8, u64_le (mc_object_count m)); (32, hs_target_graph_digest h);
   (32, hs_relocation_rollback_digest h); (12, replicate 12 x00)].
Definition header_parts (h : HeaderState) (total payload : N) (digest crc : list byte)
    : list (N * list byte) :=
  front_parts total payload digest ++ (4, crc) :: back_parts h.
Definition header_image (h : HeaderState) (total payload : N) (digest crc : list byte)
    : list byte := concat (snd <$> header_parts h total payload digest crc).

(** ** The header *)
Section Header.
Context `{Digests}.

(** The checksum is that of the header with a zero checksum. *)
Definition checksum (h : HeaderState) (total payload : N) (digest : list byte) : list byte :=
  u32_le (crc32 (header_image h total payload digest (replicate 4 x00))).

Lemma header_parts_lengths h total payload digest crc :
  header_typed h -> len digest = 32 -> len crc = 4 ->
  Forall (fun p => len p.2 = p.1) (header_parts h total payload digest crc).
Proof.
  intros [Ht Hd _ _] Hdg Hcrc. unfold is_digest in Hd. rewrite !Forall_cons in Hd. destruct_and!.
  unfold header_parts, front_parts, back_parts. simpl. repeat constructor; cbn [fst snd]; try done.
  - by destruct (pf_source_filesystem (hs_preflight h)).
  - by destruct (hs_target_filesystem h).
Qed.

Lemma header_parts_widths h total payload digest crc :
  widths (header_parts h total payload digest crc) = HEADER_BYTES.
Proof. reflexivity. Qed.

Lemma len_concat_parts parts :
  Forall (fun p : N * list byte => len p.2 = p.1) parts -> len (concat (snd <$> parts)) = widths parts.
Proof.
  induction 1 as [|[n part] parts Hp _ IH]; [done |].
  change (len (part ++ concat (snd <$> parts)) = n + widths parts).
  rewrite len_app, IH. by f_equal.
Qed.
Lemma len_header_image h total payload digest crc :
  header_typed h -> len digest = 32 -> len crc = 4 ->
  len (header_image h total payload digest crc) = 576.
Proof. intros. by apply (eq_trans (len_concat_parts _ (header_parts_lengths h total payload digest crc
  ltac:(done) ltac:(done) ltac:(done)))). Qed.

(** Replacing the checksum. *)
Lemma header_image_split h total payload digest crc :
  header_image h total payload digest crc =
  concat (snd <$> front_parts total payload digest) ++ crc ++ concat (snd <$> back_parts h).
Proof. unfold header_image, header_parts. rewrite fmap_app, concat_app. done. Qed.

Lemma splice_between {A} (l1 l2 l3 src : list A) o :
  len l1 = o -> len src = len l2 -> splice o src (l1 ++ l2 ++ l3) = l1 ++ src ++ l3.
Proof.
  intros <- Hs. unfold splice. rewrite Hs. unfold len. rewrite <- Nat2N.inj_add, !Nat2N.id.
  rewrite take_app_length, (app_assoc l1 l2 l3), <- length_app. do 2 f_equal. apply drop_app_length.
Qed.

Lemma splice_crc h total payload digest crc crc' :
  header_typed h -> len digest = 32 -> len crc = 4 -> len crc' = 4 ->
  splice 64 crc' (header_image h total payload digest crc) =
  header_image h total payload digest crc'.
Proof.
  intros Ht Hd Hc Hc'. rewrite !header_image_split.
  pose proof (header_parts_lengths h total payload digest crc Ht Hd Hc) as Hf.
  unfold header_parts in Hf. apply Forall_app in Hf as [Hf _].
  assert (Hl : len (concat (snd <$> front_parts total payload digest)) = 64)
    by exact (len_concat_parts _ Hf).
  apply splice_between; [exact Hl | congruence].
Qed.

Lemma header_crc_Ok h total payload digest crc rest :
  header_typed h -> len digest = 32 -> len crc = 4 ->
  (header ← index_range 0 HEADER_BYTES (header_image h total payload digest crc ++ rest);
   header_crc header) =
  Ok (crc32 (header_image h total payload digest (replicate 4 x00))).
Proof.
  intros Ht Hd Hc. pose proof (len_header_image h total payload digest crc Ht Hd Hc) as Hl.
  rewrite index_range_in by (rewrite ?len_app, ?Hl; unfold HEADER_BYTES; lia).
  unfold HEADER_BYTES. rewrite subslice_prefix by done. cbn [mbind outcome_bind].
  unfold header_crc, HEADER_BYTES, HEADER_CRC_OFFSET.
  rewrite index_range_in by (rewrite ?Hl; lia). rewrite subslice_whole by done.
  cbn [mbind outcome_bind].
  eapply bind_step; [apply copy_from_slice_Ok; split_and!; [lia | rewrite Hl; lia | done | reflexivity]
    | cbv beta].
  by rewrite splice_crc.
Qed.

(** *** Encoding

    A buffer of zeros that is filled from left to right. *)
Fixpoint filled (at_ : N) (writes : list (N * N * list byte)) (size : N) : list byte :=
  match writes with
  | [] => replicate (N.to_nat (size - at_)) x00
  | (offset, n, src) :: writes =>
      replicate (N.to_nat (offset - at_)) x00 ++ src ++ filled (offset + n) writes size
  end.
Fixpoint ascending (at_ : N) (writes : list (N * N * list byte)) (size : N) : bool :=
  match writes with
  | [] => at_ <=? size
  | (offset, n, _) :: writes => (at_ <=? offset) && ascending (offset + n) writes size
  end.
Definition put_slice (header : list byte) (write : N * N * list byte) : envelope (list byte) :=
  let '(offset, n, src) := write in copy_from_slice offset (offset + n) src header.

Lemma ascending_le writes : forall at_ size, ascending at_ writes size = true -> at_ <= size.
Proof.
  induction writes as [|[[offset n] src] writes IH]; intros at_ size Ha; simpl in Ha; bool_props; [done |].
  pose proof (IH _ _ H1). lia.
Qed.

Lemma fill_Ok writes : forall pre size,
  Forall (fun w => len w.2 = w.1.2) writes -> ascending (len pre) writes size = true ->
  try_fold put_slice (pre ++ replicate (N.to_nat (size - len pre)) x00) writes =
  Ok (pre ++ filled (len pre) writes size).
Proof.
  induction writes as [|[[offset n] src] writes IH]; intros pre size Hf Ha; [done |].
  apply Forall_cons in Hf as [Hn Hf]. cbn [fst snd] in Hn. simpl in Ha. bool_props.
  rename select (ascending _ _ _ = true) into Hr. pose proof (ascending_le _ _ _ Hr) as Hle.
  cbn [try_fold filled put_slice].
  set (pre' := pre ++ replicate (N.to_nat (offset - len pre)) x00 ++ src).
  assert (Hl : len pre' = offset + n)
    by (unfold pre'; rewrite !len_app, len_replicate, Hn; lia).
  assert (Hc : copy_from_slice offset (offset + n) src
      (pre ++ replicate (N.to_nat (size - len pre)) x00) =
    @Ok PreparedEnvelopeError _ (pre' ++ replicate (N.to_nat (size - len pre')) x00)).
  { apply copy_from_slice_Ok. rewrite !len_app, len_replicate, Hl. split_and!; [lia | lia | lia |].
    replace (N.to_nat (size - len pre)) with
      (N.to_nat (offset - len pre) + (N.to_nat n + N.to_nat (size - (offset + n))))%nat by lia.
    rewrite !replicate_add, (app_assoc pre).
    assert (Ho : len (pre ++ replicate (N.to_nat (offset - len pre)) x00) = offset)
      by (rewrite len_app, len_replicate; lia).
    rewrite (splice_between _ _ _ _ _ Ho) by (rewrite len_replicate; lia).
    unfold pre'. by rewrite <- !app_assoc. }
  rewrite Hc. cbn [mbind outcome_bind]. rewrite IH by (done || by rewrite Hl).
  rewrite Hl. unfold pre'. by rewrite <- !app_assoc.
Qed.

(** The writes of [encode_header], without the checksum. *)
Definition header_writes (h : HeaderState) (total payload : N) (digest : list byte)
    : list (N * N * list byte) :=
  let p := hs_preflight h in
  let m := pf_source_manifest_commitment p in
  [(0, 8, MAGIC); (8, 2, u16_le VERSION); (10, 2, u16_le HEADER_BYTES); (16, 8, u64_le total);
   (24, 8, u64_le payload); (32, 32, digest); (72, 16, ci_transaction_id (hs_identity h));
   (88, 32, ci_source_digest (hs_identity h)); (120, 32, ct_instance (pf_image p));
   (152, 8, u64_le (ct_image_bytes (pf_image p))); (160, 32, pf_source_evidence_digest p);
   (192, 32, hs_source_graph_digest h); (224, 32, hs_plan_digest h);
   (256, 32, hs_candidate_overlay_digest h); (288, 32, hs_staging_rollback_digest h);
   (320, 32, hs_preactivation_rollback_digest h); (352, 32, hs_full_rollback_digest h);
   (384, 32, mc_digest m); (416, 8, u64_le (mc_logical_bytes_hashed m));
   (424, 4, u32_le (pf_sector_bytes p)); (428, 1, key_byte (pf_source_filesystem p));
   (429, 1, key_byte (hs_target_filesystem h)); (430, 1, [byte_of_N (health_key (pf_health p))]);
   (431, 1, [byte_of_N (access_key (pf_access p))]);
   (432, 8, u64_le (pf_allocation_alignment p)); (440, 1, flag_byte p);
   (448, 8, u64_le (hs_relocated_bytes h)); (456, 8, u64_le (hs_largest_free_range h));
   (464, 8, u64_le (cl_max_capsule_bytes (hs_capsule_limits h)));
   (472, 8, u64_le (cl_max_generation_bytes (hs_capsule_limits h)));
   (480, 8, u64_le (cl_max_generations (hs_capsule_limits h))); (488, 4, u32_le SECTION_COUNT);
   (492, 8, u64_le (mc_object_count m)); (500, 32, hs_target_graph_digest h);
   (532, 32, hs_relocation_rollback_digest h)].

Lemma header_writes_lengths h total payload digest :
  header_typed h -> len digest = 32 ->
  Forall (fun w => len w.2 = w.1.2) (header_writes h total payload digest).
Proof.
  intros [Ht Hd _ _] Hdg. unfold is_digest in Hd. rewrite !Forall_cons in Hd. destruct_and!.
  unfold header_writes. repeat constructor; cbn [fst snd]; try done.
  - by destruct (pf_source_filesystem (hs_preflight h)).
  - by destruct (hs_target_filesystem h).
Qed.

Lemma header_filled h total payload digest :
  filled 0 (header_writes h total payload digest) 576 =
  header_image h total payload digest (replicate 4 x00).
Proof. reflexivity. Qed.

(** A chain of writes as one fold. *)
Fixpoint put_all {A : Type} (header : list byte) (writes : list (N * N * list byte))
    (k : list byte -> envelope A) : envelope A :=
  match writes with
  | [] => k header
  | (offset, n, src) :: writes =>
      header ← copy_from_slice offset (offset + n) src header; put_all header writes k
  end.
Lemma put_all_fold {A} writes (k : list byte -> envelope A) : forall header,
  put_all header writes k = try_fold put_slice header writes ≫= k.
Proof.
  induction writes as [|[[offset n] src] writes IH]; intros header; simpl; [done |].
  destruct (copy_from_slice _ _ _ _); simpl; [apply IH | done | done].
Qed.

Lemma filesystem_key_known f :
  f <> UnknownFileSystem -> exists key, filesystem_key f = Ok key /\ key_byte f = [byte_of_N key].
Proof. destruct f; [eexists; split; reflexivity.. | done]. Qed.

Lemma encode_header_chain header s total digest :
  header_typed (header_of s) -> known (header_of s) -> 576 <= total -> total <= u64_max ->
  encode_header header s total digest =
  put_all header (header_writes (header_of s) total (total - 576) digest)
    (fun header => crc ← header_crc header; put_le 4 header HEADER_CRC_OFFSET crc).
Proof.
  intros [_ _ Hn _] [Hs Ht] Hlo Hhi. rewrite !Forall_cons in Hn. destruct_and!.
  destruct (filesystem_key_known _ Hs) as (k1 & Hk1 & Hb1).
  destruct (filesystem_key_known _ Ht) as (k2 & Hk2 & Hb2).
  cbn [header_of hs_preflight hs_target_filesystem hs_capsule_limits] in *.
  unfold encode_header, usize_u64. rewrite (u64_try_from_in total), (sub_u64_in total) by done.
  unfold HEADER_BYTES. cbn [mbind outcome_bind ok_or].
  rewrite (u64_try_from_in (total - 576)) by lia.
  rewrite Hk1, Hk2, !u64_try_from_in by done.
  unfold header_writes. cbn [header_of hs_preflight hs_target_filesystem]. rewrite Hb1, Hb2.
  reflexivity.
Qed.

Lemma encode_header_Ok s total digest :
  header_typed (header_of s) -> known (header_of s) -> 576 <= total -> total <= u64_max ->
  len digest = 32 ->
  encode_header (replicate 576 x00) s total digest =
  Ok (header_image (header_of s) total (total - 576) digest
        (checksum (header_of s) total (total - 576) digest)).
Proof.
  intros Ht Hk Hlo Hhi Hd. rewrite encode_header_chain, put_all_fold by done.
  set (h := header_of s) in *. set (payload := total - 576).
  pose proof (fill_Ok (header_writes h total payload digest) [] 576
    (header_writes_lengths h total payload digest Ht Hd) eq_refl) as Hf.
  change (len []) with 0 in Hf. change (N.to_nat (576 - 0)) with 576%nat in Hf.
  rewrite !app_nil_l, header_filled in Hf. rewrite Hf. cbn [mbind outcome_bind]. clear Hf.
  pose proof (len_header_image h total payload digest (replicate 4 x00) Ht Hd eq_refl) as Hl.
  pose proof (header_crc_Ok h total payload digest (replicate 4 x00) [] Ht Hd eq_refl) as Hc.
  rewrite app_nil_r, index_range_in in Hc by (rewrite ?Hl; done).
  unfold HEADER_BYTES in Hc. rewrite subslice_whole in Hc by done.
  cbn [mbind outcome_bind] in Hc. rewrite Hc. cbn [mbind outcome_bind].
  rewrite put_le_in by (rewrite Hl; done). by rewrite splice_crc.
Qed.

(** *** Decoding *)
Lemma array_eq n bytes o s :
  len bytes <= u64_max -> o + n <= len bytes ->
  array n bytes o = Ok s <-> len s = n /\ subslice o (o + n) bytes = s.
Proof.
  intros Hf Hl. rewrite array_Ok by done. split.
  - intros [_ ->]. split; [|done]. rewrite len_subslice; lia.
  - by intros [_ <-].
Qed.

Lemma any_nonzero_app l1 l2 : any_nonzero (l1 ++ l2) = any_nonzero l1 || any_nonzero l2.
Proof. unfold any_nonzero. by rewrite existsb_app. Qed.

Lemma flags_Ok b inventory allocation :
  N.land (Byte.to_N b) (N.lxor 3 u8_max) = 0 /\
  inventory = negb (N.land (Byte.to_N b) 1 =? 0) /\
  allocation = negb (N.land (Byte.to_N b) 2 =? 0) <->
  [b] = [byte_of_N (N.lor (N.b2n inventory) (N.shiftl (N.b2n allocation) 1))].
Proof.
  split.
  - intros (Hz & -> & ->). destruct b; first [discriminate Hz | reflexivity].
  - intros [= ->]. by destruct inventory, allocation.
Qed.

Lemma validate_header_Ok bytes :
  576 <= len bytes -> len bytes <= u64_max ->
  validate_header bytes = Ok tt <->
  subslice 0 8 bytes = MAGIC /\ subslice 8 10 bytes = u16_le VERSION /\
  subslice 10 12 bytes = u16_le HEADER_BYTES /\ subslice 12 16 bytes = replicate 4 x00 /\
  subslice 68 72 bytes = replicate 4 x00 /\ subslice 441 448 bytes = replicate 7 x00 /\
  subslice 564 576 bytes = replicate 12 x00 /\
  exists crc, header_crc (subslice 0 576 bytes) = Ok crc /\ crc <= u32_max /\
    subslice 64 68 bytes = u32_le crc.
Proof.
  intros Hl Hf. unfold validate_header, HEADER_BYTES, HEADER_CRC_OFFSET.
  rewrite (index_range_in 0 8), (index_range_in 12 16), (index_range_in 68 72),
    (index_range_in 441 448), (index_range_in 564 576), (index_range_in 0 576) by lia.
  cbn [mbind outcome_bind]. rewrite then_Ok, refuse_if_Ok.
  assert (Hz : any_nonzero (subslice 12 16 bytes ++ subslice 68 72 bytes ++ subslice 441 448 bytes
      ++ subslice 564 576 bytes) = false <->
    subslice 12 16 bytes = replicate 4 x00 /\ subslice 68 72 bytes = replicate 4 x00 /\
    subslice 441 448 bytes = replicate 7 x00 /\ subslice 564 576 bytes = replicate 12 x00).
  { rewrite !any_nonzero_app, !orb_false_iff, (zero_slice 12 16 (len bytes)),
      (zero_slice 68 72 (len bytes)), (zero_slice 441 448 (len bytes)),
      (zero_slice 564 576 (len bytes)) by (done || lia). done. }
  split.
  - intros [Hm Hd]. bool_props. apply bind_Ok in Hd as (v & Hv & Hd).
    apply wire_u16_Ok in Hv as [_ Hv]; [|done|lia]. apply then_Ok in Hd as [Hver Hd].
    apply refuse_if_Ok in Hver. apply bind_Ok in Hd as (n & Hn & Hd).
    apply wire_u16_Ok in Hn as [_ Hn]; [|done|lia]. apply then_Ok in Hd as [Hlen Hd].
    apply refuse_if_Ok in Hlen. apply then_Ok in Hd as [Hres Hd]. apply refuse_if_Ok in Hres.
    apply Hz in Hres. destruct_and!. apply bind_Ok in Hd as (c & Hc & Hd).
    apply wire_u32_Ok in Hc as [Hcb Hc]; [|done|lia]. apply bind_Ok in Hd as (crc & Hcrc & Hd).
    apply refuse_if_Ok in Hd. bool_props. subst. split_and!; try done. by exists crc.
  - intros (Hm & Hv & Hn & H1 & H2 & H3 & H4 & crc & Hcrc & Hcb & Hc).
    rewrite Hm. split; [done |].
    eapply bind_step; [apply wire_u16_Ok; [done | lia | split; [|exact Hv]; done] | cbv beta].
    cbn [negb N.eqb VERSION Pos.eqb refuse_if mbind outcome_bind].
    eapply bind_step; [apply wire_u16_Ok; [done | lia | split; [|exact Hn]; done] | cbv beta].
    cbn [negb N.eqb Pos.eqb refuse_if mbind outcome_bind].
    eapply bind_step; [by apply refuse_step, Hz | cbv beta].
    eapply bind_step; [apply wire_u32_Ok; [done | lia | split; [|exact Hc]; done] | cbv beta].
    rewrite Hcrc. cbn [mbind outcome_bind]. by rewrite N.eqb_refl.
Qed.

(** The fields of the header in the bytes. *)
Definition header_slices (h : HeaderState) (bytes : list byte) : Prop :=
  let p := hs_preflight h in
  let m := pf_source_manifest_commitment p in
  let at_ lo hi part := subslice lo hi bytes = part in
  (at_ 72 88 (ci_transaction_id (hs_identity h)) /\
   at_ 88 120 (ci_source_digest (hs_identity h)) /\ at_ 120 152 (ct_instance (pf_image p)) /\
   at_ 152 160 (u64_le (ct_image_bytes (pf_image p))) /\
   at_ 160 192 (pf_source_evidence_digest p) /\ at_ 192 224 (hs_source_graph_digest h) /\
   at_ 224 256 (hs_plan_digest h) /\ at_ 256 288 (hs_candidate_overlay_digest h) /\
   at_ 288 320 (hs_staging_rollback_digest h) /\ at_ 320 352 (hs_preactivation_rollback_digest h) /\
   at_ 352 384 (hs_full_rollback_digest h) /\ at_ 384 416 (mc_digest m) /\
   at_ 416 424 (u64_le (mc_logical_bytes_hashed m)) /\ at_ 424 428 (u32_le (pf_sector_bytes p))) /\
  (at_ 428 429 (key_byte (pf_source_filesystem p)) /\
   at_ 429 430 (key_byte (hs_target_filesystem h)) /\
   at_ 430 431 [byte_of_N (health_key (pf_health p))] /\
   at_ 431 432 [byte_of_N (access_key (pf_access p))] /\
   at_ 432 440 (u64_le (pf_allocation_alignment p)) /\ at_ 440 441 (flag_byte p) /\
   at_ 448 456 (u64_le (hs_relocated_bytes h)) /\ at_ 456 464 (u64_le (hs_largest_free_range h)) /\
   at_ 464 472 (u64_le (cl_max_capsule_bytes (hs_capsule_limits h))) /\
   at_ 472 480 (u64_le (cl_max_generation_bytes (hs_capsule_limits h))) /\
   at_ 480 488 (u64_le (cl_max_generations (hs_capsule_limits h))) /\
   at_ 492 500 (u64_le (mc_object_count m)) /\ at_ 500 532 (hs_target_graph_digest h) /\
   at_ 532 564 (hs_relocation_rollback_digest h)).

Lemma decode_known b name f :
  decode_filesystem (Byte.to_N b) name = Ok f <-> f <> UnknownFileSystem /\ [b] = key_byte f.
Proof.
  rewrite decode_filesystem_Ok. split.
  - intros (key & Hk & Hb). rewrite Hb. by destruct f; simplify_eq/=.
  - intros [Hf ->]. destruct (filesystem_key_known f Hf) as (key & Hk & ->). by exists key.
Qed.

Lemma read_usize_Ok bytes o v :
  len bytes <= u64_max -> o + 8 <= len bytes ->
  read_usize bytes o = Ok v <-> v <= u64_max /\ subslice o (o + 8) bytes = u64_le v.
Proof.
  intros Hf Hl. rewrite <- wire_u64_Ok by done. unfold read_usize. split.
  - intros Hr. apply bind_Ok in Hr as (a & Ha & Hr). by inv_ok.
  - intros Hr. rewrite Hr. simpl. apply wire_u64_Ok in Hr as [Hv _]; [|done|done].
    by rewrite usize_try_from_in.
Qed.

Lemma decode_header_Ok bytes h :
  576 <= len bytes -> len bytes <= u64_max ->
  decode_header bytes = Ok h <-> header_typed h /\ known h /\ header_slices h bytes.
Proof.
  intros Hl Hf. unfold decode_header, array_16, array_32. split.
  - intros Hd. apply bind_Ok in Hd as (b & Hb & Hd). apply at_index_slice in Hb.
    apply then_Ok in Hd as [Hflags Hd]. apply refuse_if_Ok in Hflags. bool_props.
    repeat match type of Hd with
    | read_usize _ _ ≫= _ = Ok _ => let Hr := fresh "Hr" in
        apply bind_Ok in Hd as (? & Hr & Hd); apply read_usize_Ok in Hr as [? ?]; [|done|lia]
    | read_u64 _ _ ≫= _ = Ok _ => let Hr := fresh "Hr" in
        apply bind_Ok in Hd as (? & Hr & Hd); apply wire_u64_Ok in Hr as [? ?]; [|done|lia]
    | read_u32 _ _ ≫= _ = Ok _ => let Hr := fresh "Hr" in
        apply bind_Ok in Hd as (? & Hr & Hd); apply wire_u32_Ok in Hr as [? ?]; [|done|lia]
    | array _ _ _ ≫= _ = Ok _ => let Hr := fresh "Hr" in
        apply bind_Ok in Hd as (? & Hr & Hd); apply array_eq in Hr as [? ?]; [|done|lia]
    | at_index _ _ ≫= _ = Ok _ => let Hr := fresh "Hr" in
        apply bind_Ok in Hd as (? & Hr & Hd); apply at_index_slice in Hr
    | decode_filesystem _ _ ≫= _ = Ok _ => let Hr := fresh "Hr" in
        apply bind_Ok in Hd as (? & Hr & Hd); apply decode_known in Hr as [? Hr]
    | decode_health _ ≫= _ = Ok _ => let Hr := fresh "Hr" in
        apply bind_Ok in Hd as (? & Hr & Hd); apply decode_health_Ok in Hr
    | decode_access _ ≫= _ = Ok _ => let Hr := fresh "Hr" in
        apply bind_Ok in Hd as (? & Hr & Hd); apply decode_access_Ok in Hr
    end.
    injection Hd as <-. split; [|split; [done |]].
    + split; cbn; repeat constructor; done.
    + unfold header_slices. cbn [hs_preflight hs_identity hs_target_filesystem hs_source_graph_digest
        hs_target_graph_digest hs_plan_digest hs_candidate_overlay_digest
        hs_relocation_rollback_digest hs_staging_rollback_digest hs_preactivation_rollback_digest
        hs_full_rollback_digest hs_relocated_bytes hs_largest_free_range hs_capsule_limits
        pf_source_manifest_commitment pf_image pf_source_filesystem pf_source_evidence_digest
        pf_sector_bytes pf_allocation_alignment pf_health pf_access ci_transaction_id
        ci_source_digest ct_instance ct_image_bytes mc_digest mc_logical_bytes_hashed
        mc_object_count cl_max_capsule_bytes cl_max_generation_bytes cl_max_generations].
      unfold flag_byte. cbn [pf_inventory_complete pf_allocation_map_complete].
      rewrite <- (proj1 (flags_Ok b _ _) (conj Hflags (conj eq_refl eq_refl))).
      repeat match goal with Hx : [_] = ?part |- context [?part] => rewrite <- Hx; clear Hx end.
      split_and!; assumption.
  - intros ([Ht Hd Hn Hs] & [Hk1 Hk2] & S1 & S2). unfold is_digest in Hd.
    rewrite !Forall_cons in Hd. rewrite !Forall_cons in Hn. destruct_and!.
    destruct (len_one_slice bytes 440 ltac:(lia)) as [b0 E0].
    destruct (len_one_slice bytes 428 ltac:(lia)) as [b1 E1].
    destruct (len_one_slice bytes 429 ltac:(lia)) as [b2 E2].
    destruct (len_one_slice bytes 430 ltac:(lia)) as [b3 E3].
    destruct (len_one_slice bytes 431 ltac:(lia)) as [b4 E4].
    change (440 + 1) with 441 in E0. change (428 + 1) with 429 in E1.
    change (429 + 1) with 430 in E2. change (430 + 1) with 431 in E3. change (431 + 1) with 432 in E4.
    repeat match goal with
    | E : subslice ?lo ?hi bytes = [?b], Hx : subslice ?lo ?hi bytes = ?part |- _ =>
        is_var b; rewrite E in Hx
    end.
    match goal with Hx : [b0] = flag_byte _ |- _ =>
      apply flags_Ok in Hx as (Hflags & Hinv & Halloc) end.
    eapply bind_step; [by apply (at_index_slice bytes 440) | cbv beta].
    eapply bind_step; [by apply refuse_step; rewrite Hflags | cbv beta].
    repeat (eapply bind_step;
      [first [ apply read_usize_Ok; [done | lia | split; [|eassumption]; assumption]
             | apply wire_u64_Ok; [done | lia | split; [|eassumption]; assumption]
             | apply wire_u32_Ok; [done | lia | split; [|eassumption]; assumption]
             | apply array_eq; [done | lia | split; [|eassumption]; assumption]
             | apply at_index_slice; eassumption
             | apply decode_known; split; [|eassumption]; assumption
             | apply decode_health_Ok; eassumption
             | apply decode_access_Ok; eassumption ] | cbv beta]).
    rewrite <- Hinv, <- Halloc. by destruct h as [[] [[] ? ? [] ? ? ? ? ? ?] ? ? ? ? ? ? ? ? ? ? ? []].
Qed.

Lemma header_tiled h total payload digest crc bytes :
  tiled 0 (header_parts h total payload digest crc) bytes <->
  (subslice 0 8 bytes = MAGIC /\ subslice 8 10 bytes = u16_le VERSION /\
   subslice 10 12 bytes = u16_le HEADER_BYTES /\ subslice 12 16 bytes = replicate 4 x00 /\
   subslice 16 24 bytes = u64_le total /\ subslice 24 32 bytes = u64_le payload /\
   subslice 32 64 bytes = digest) /\
  subslice 64 68 bytes = crc /\
  (subslice 68 72 bytes = replicate 4 x00 /\ subslice 441 448 bytes = replicate 7 x00 /\
   subslice 564 576 bytes = replicate 12 x00 /\ subslice 488 492 bytes = u32_le SECTION_COUNT) /\
  header_slices h bytes.
Proof.
  unfold header_parts, front_parts, back_parts, header_slices.
  cbn [app tiled N.add Pos.add Pos.succ Pos.add_carry]. split.
  - intros Ht. destruct_and!. split_and!; assumption.
  - intros (Hf & ? & Hr & H1 & H2). destruct_and!. split_and!; assumption || exact I.
Qed.

(** What the checks and the decoder of the header accept. *)
Lemma header_Ok bytes h total payload digest :
  576 <= len bytes -> len bytes <= u64_max ->
  (validate_header bytes = Ok tt /\ read_u64 bytes 16 = Ok total /\ read_u64 bytes 24 = Ok payload /\
   array_32 bytes 32 = Ok digest /\ read_u32 bytes 488 = Ok SECTION_COUNT /\
   decode_header bytes = Ok h) <->
  (header_typed h /\ known h /\ total <= u64_max /\ payload <= u64_max /\ len digest = 32 /\
   subslice 0 576 bytes =
     header_image h total payload digest (checksum h total payload digest)).
Proof.
  intros Hl Hf. unfold array_32.
  rewrite validate_header_Ok, !wire_u64_Ok, array_eq, wire_u32_Ok, decode_header_Ok by (done || lia).
  change (16 + 8) with 24. change (24 + 8) with 32. change (32 + 32) with 64. change (488 + 4) with 492.
  assert (Hw : forall crc, header_typed h -> len digest = 32 -> len crc = 4 ->
    subslice 0 576 bytes = header_image h total payload digest crc <->
    tiled 0 (header_parts h total payload digest crc) bytes).
  { intros crc Ht Hd Hc. rewrite <- tiled_concat by (by apply header_parts_lengths || by rewrite header_parts_widths).
    by rewrite header_parts_widths. }
  assert (Hcrc : forall crc, header_typed h -> len digest = 32 -> len crc = 4 ->
    subslice 0 576 bytes = header_image h total payload digest crc ->
    header_crc (subslice 0 576 bytes) =
      Ok (crc32 (header_image h total payload digest (replicate 4 x00)))).
  { intros crc Ht Hd Hc Hs. rewrite Hs.
    rewrite <- (header_crc_Ok h total payload digest crc [] Ht Hd Hc), app_nil_r.
    pose proof (len_header_image h total payload digest crc Ht Hd Hc) as Hli.
    rewrite index_range_in by (rewrite ?Hli; done). unfold HEADER_BYTES.
    by rewrite subslice_whole. }
  split.
  - intros ((? & ? & ? & ? & ? & ? & ? & crc & Hx & Hcb & Hs) & [? ?] & [? ?] & [? ?] & [_ ?] & Ht & Hk & Hsl).
    split_and!; try done.
    assert (Ha : subslice 0 576 bytes = header_image h total payload digest (u32_le crc)).
    { apply Hw; [done | done | done |]. apply header_tiled. split_and!; assumption. }
    rewrite (Hcrc (u32_le crc)) in Hx by done. injection Hx as <-. exact Ha.
  - intros (Ht & Hk & Htot & Hpay & Hd & Ha). pose proof Ha as Htl.
    apply Hw in Htl; [|done|done|done]. apply header_tiled in Htl.
    destruct Htl as (? & Hc & ? & Hsl). destruct_and!. split_and!; try done.
    exists (crc32 (header_image h total payload digest (replicate 4 x00))).
    split_and!; [by apply (Hcrc (checksum h total payload digest)) | apply crc32_u32 | done].
Qed.
End Header.
