(* ===== verification/EnvelopeCodec.v ===== *)
(** * The durable envelope ([conversion/prepared_envelope.rs])

    The encoding of a prepared conversion that the first generation of a capsule
    carries: the validation of a state, the scan of the sections, the encoder and the
    decoder, and the [PreparedEnvelope] interface of [Prepare.v]
    that they implement. *)

From S2P Require Import Prelude Bytes Digest Image Extent Object Overlay Recovery Geometry Planner Relocate Capsule Conversion Prepare EnvelopeWire EnvelopeHeader.
From stdpp Require Import options.
#[local] Open Scope N_scope.

(** ** The state *)
Definition from_prepared (prepared : PreparedConversion) : EnvelopeState := {|
  es_identity := pc_identity prepared;
  es_preflight := pc_preflight prepared;
  es_target_filesystem := pc_target_filesystem prepared;
  es_target_features := pc_target_features prepared;
  es_source_graph_digest := pc_source_graph_digest prepared;
  es_target_graph_digest := pc_target_graph_digest prepared;
  es_plan_digest := pc_plan_digest prepared;
  es_candidate_overlay_digest := pc_candidate_overlay_digest prepared;
  es_relocation_rollback_digest := pc_relocation_rollback_digest prepared;
  es_staging_rollback_digest := pc_staging_rollback_digest prepared;
  es_preactivation_rollback_digest := pc_preactivation_rollback_digest prepared;
  es_full_rollback_digest := pc_full_rollback_digest prepared;
  es_reservations := pc_reservations prepared;
  es_layout := pc_layout prepared;
  es_writes := pc_writes prepared;
  es_relocation_destination_before_images := op_writes (pc_relocation_rollback_overlay prepared);
  es_recovery_payload := pc_recovery_payload prepared;
  es_capsule_limits := pc_capsule_limits prepared
|}.

Record DecodedPreparedEnvelope : Type := mkDecodedPreparedEnvelope {
  dp_prepared : PreparedConversion;
  dp_expected_manifest : ManifestCommitment
}.

(** ** Limits *)
Definition validate_limits (limits : PreparedEnvelopeLimits) : envelope unit :=
  for_each (fun fz : string * bool => refuse_if fz.2 (InvalidLimit fz.1))
    [("max_envelope_bytes"%string, pl_max_envelope_bytes limits =? 0);
     ("max_entries"%string, pl_max_entries limits =? 0);
     ("max_write_bytes"%string, pl_max_write_bytes limits =? 0);
     ("max_recovery_bytes"%string, pl_max_recovery_bytes limits =? 0);
     ("max_read_bytes"%string, pl_max_read_bytes limits =? 0);
     ("max_logical_bytes"%string, pl_max_logical_bytes limits =? 0)].
Definition ensure_envelope_cap (actual : N) (limits : PreparedEnvelopeLimits) : envelope unit :=
  maximum ← usize_u64 (pl_max_envelope_bytes limits);
  refuse_if (maximum <? actual) (EnvelopeTooLarge actual (pl_max_envelope_bytes limits)).
Definition from_conversion_error {A : Type} (m : conversion A) : envelope A :=
  map_err (fun error =>
    match error with
    | CapsuleFailure error => CapsuleRefused error
    | _ => InvalidPreparedInvariant
    end) m.
Definition validate_envelope_generation (payload_bytes : N) (limits : CapsuleLimits)
    : envelope unit :=
  from_conversion_error (validate_initial_capsule_generation payload_bytes limits).
(** [map_err(|_| PreparedEnvelopeError::InvalidPreparedInvariant)]. *)
Definition invariant {A : Type} (m : conversion A) : envelope A :=
  map_err (fun _ => InvalidPreparedInvariant) m.

(** ** Validation *)
Definition add_count (sum count : N) : envelope N :=
  ok_or ArithmeticOverflow (checked_add sum count).
(** The writes of the seven write sections, in the order of the chain. *)
Definition chained_writes (state : EnvelopeState) : list OverlayWrite :=
  let writes := es_writes state in
  (rw_write <$> ws_target_staging writes) ++ (rw_write <$> ws_backup_boot writes) ++
  (rw_write <$> ws_activation writes) ++ ws_target_staging_rollback writes ++
  ws_backup_boot_rollback writes ++ ws_activation_rollback writes ++
  es_relocation_destination_before_images state.
Definition section_counts (state : EnvelopeState) : list N :=
  let writes := es_writes state in
  [len (es_reservations state); len (lp_relocations (es_layout state));
   len (lp_free_after_staging (es_layout state)); len (ws_target_staging writes);
   len (ws_backup_boot writes); len (ws_activation writes);
   len (ws_target_staging_rollback writes); len (ws_backup_boot_rollback writes);
   len (ws_activation_rollback writes); len (es_relocation_destination_before_images state);
   len (es_target_features state)].
Definition validate_counts_and_bytes (state : EnvelopeState) (limits : PreparedEnvelopeLimits)
    : envelope unit :=
  total ← try_fold add_count 0 (section_counts state);
  (if pl_max_entries limits <? total then
     actual ← usize_u64 total; Err (EntryLimitExceeded actual (pl_max_entries limits))
   else Ok tt) ;;
  write_bytes ← try_fold add_count 0 ((fun v => len (ow_bytes v)) <$> chained_writes state);
  (if pl_max_write_bytes limits <? write_bytes then
     actual ← usize_u64 write_bytes;
     Err (WriteByteLimitExceeded actual (pl_max_write_bytes limits))
   else Ok tt) ;;
  if pl_max_recovery_bytes limits <? len (es_recovery_payload state) then
    actual ← usize_u64 (len (es_recovery_payload state));
    Err (RecoveryByteLimitExceeded actual (pl_max_recovery_bytes limits))
  else Ok tt.

Definition validate_range (range : ByteRange) : envelope unit :=
  refuse_if (br_length range =? 0) InvalidGeometry ;;
  _ ← ok_or (RangeOverflow (br_offset range) (br_length range))
    (checked_add (br_offset range) (br_length range));
  Ok tt.
Definition validate_write (section : N) (write : OverlayWrite) : envelope unit :=
  length ← usize_u64 (len (ow_bytes write));
  refuse_if (length =? 0) (EmptyWrite section (ow_offset write)) ;;
  _ ← ok_or (RangeOverflow (ow_offset write) length) (checked_add (ow_offset write) length);
  Ok tt.
Definition add_relocated (sum : N) (value : Relocation) : envelope N :=
  refuse_if (negb (br_length (rl_source value) =? br_length (rl_destination value)))
    InvalidPreparedInvariant ;;
  ok_or ArithmeticOverflow (checked_add sum (br_length (rl_source value))).
Definition validate_ranges (state : EnvelopeState) : envelope unit :=
  let layout := es_layout state in
  let writes := es_writes state in
  for_each validate_range
    ((dr_range <$> es_reservations state) ++ lp_free_after_staging layout ++
     (lp_relocations layout ≫= fun v => [rl_source v; rl_destination v])) ;;
  ensure_order (es_reservations state) RESERVATIONS reservation_key ;;
  ensure_order (lp_relocations layout) RELOCATIONS relocation_key ;;
  ensure_order (lp_free_after_staging layout) FREE_RANGES range_key ;;
  relocated_bytes ← try_fold add_relocated 0 (lp_relocations layout);
  let largest_free_range := foldl N.max 0 (br_length <$> lp_free_after_staging layout) in
  refuse_if (negb (is_empty (lp_materializations layout))
             || negb (lp_materialized_bytes layout =? 0)) InvalidPreparedInvariant ;;
  refuse_if (negb (relocated_bytes =? lp_relocated_bytes layout)
             || negb (largest_free_range =? lp_largest_free_range layout))
    InvalidPreparedInvariant ;;
  for_each (fun group : N * list ReservedWrite =>
      ensure_order group.2 group.1 reserved_write_key ;;
      for_each (fun value => validate_write group.1 (rw_write value)) group.2)
    [(TARGET_STAGING, ws_target_staging writes); (BACKUP_BOOT, ws_backup_boot writes);
     (ACTIVATION, ws_activation writes)] ;;
  for_each (fun group : N * list OverlayWrite =>
      ensure_order group.2 group.1 rollback_write_key ;;
      for_each (validate_write group.1) group.2)
    [(TARGET_STAGING_ROLLBACK, ws_target_staging_rollback writes);
     (BACKUP_BOOT_ROLLBACK, ws_backup_boot_rollback writes);
     (ACTIVATION_ROLLBACK, ws_activation_rollback writes);
     (RELOCATION_DESTINATION_ROLLBACK, es_relocation_destination_before_images state)].

Section Codec.
Context `{Digests}.

Definition validate_state (state : EnvelopeState) (limits : PreparedEnvelopeLimits)
    : envelope unit :=
  let preflight := es_preflight state in
  let writes := es_writes state in
  let before_images := es_relocation_destination_before_images state in
  validate_limits limits ;;
  refuse_if ((ct_image_bytes (pf_image preflight) =? 0) || (pf_sector_bytes preflight =? 0)
             || negb (is_power_of_two (pf_sector_bytes preflight))
             || (pf_allocation_alignment preflight =? 0)
             || negb (is_power_of_two (pf_allocation_alignment preflight))
             || bool_decide (pf_source_filesystem preflight = UnknownFileSystem)
             || bool_decide (es_target_filesystem state = UnknownFileSystem)
             || bool_decide (pf_source_filesystem preflight = es_target_filesystem state)
             || negb (pf_inventory_complete preflight)
             || negb (pf_allocation_map_complete preflight)
             || negb (bool_decide (pf_health preflight = Clean))
             || negb (bool_decide (pf_access preflight = Offline))) InvalidGeometry ;;
  refuse_if ((cl_max_capsule_bytes (es_capsule_limits state) =? 0)
             || (cl_max_generation_bytes (es_capsule_limits state) =? 0)
             || (cl_max_generations (es_capsule_limits state) =? 0)) InvalidCapsuleLimits ;;
  validate_counts_and_bytes state limits ;;
  validate_ranges state ;;
  validate_target_features (es_target_features state) ;;
  invariant (validate_required_reservations (es_reservations state)) ;;
  invariant (validate_writes_against_reservations writes (es_reservations state)) ;;
  invariant (validate_rollback_pairing writes) ;;
  invariant (validate_relocation_before_image_ranges (es_layout state) before_images) ;;
  let manifest := pf_source_manifest_commitment preflight in
  max_entries ← usize_u64 (pl_max_entries limits);
  refuse_if ((max_entries <? mc_object_count manifest)
             || (pl_max_logical_bytes limits <? mc_logical_bytes_hashed manifest))
    InvalidPreparedInvariant ;;
  recovery ← map_err RecoveryRefused
    (decode_recovery_bundle (es_recovery_payload state)
       (mkRecoveryLimits (pl_max_entries limits) (pl_max_recovery_bytes limits)));
  refuse_if (negb (bool_decide
      ((rb_plan_digest recovery, rb_relocation_destinations recovery, rb_target_staging recovery,
        rb_backup_boot recovery, rb_activation recovery) =
       (es_plan_digest state, before_images, ws_target_staging_rollback writes,
        ws_backup_boot_rollback writes, ws_activation_rollback writes)))) RecoveryMismatch ;;
  for_each (fun commitment : string * list byte * list byte =>
      refuse_if (negb (bool_decide (commitment.1.2 = commitment.2)))
        (CommitmentMismatch commitment.1.1))
    [("candidate overlay"%string, digest_overlay_writes (final_writes writes),
      es_candidate_overlay_digest state);
     ("relocation rollback"%string, digest_overlay_writes before_images,
      es_relocation_rollback_digest state);
     ("staging rollback"%string,
      digest_overlay_writes (staging_rollback_writes before_images writes),
      es_staging_rollback_digest state);
     ("preactivation rollback"%string,
      digest_overlay_writes (preactivation_rollback_writes before_images writes),
      es_preactivation_rollback_digest state);
     ("full rollback"%string, digest_overlay_writes (full_rollback_writes before_images writes),
      es_full_rollback_digest state)] ;;
  refuse_if (negb (bool_decide
      (digest_plan preflight (es_target_filesystem state) (es_target_features state)
         (es_reservations state) (es_layout state) writes (es_source_graph_digest state)
         (es_target_graph_digest state) before_images = es_plan_digest state)))
    (CommitmentMismatch "plan") ;;
  refuse_if (negb (bool_decide
      (digest_source_identity preflight (es_source_graph_digest state) =
       ci_source_digest (es_identity state)))) (CommitmentMismatch "source identity").

(** ** The sections *)
Definition encode_sections (state : EnvelopeState) : envelope (list EncodedSection) :=
  let layout := es_layout state in
  let writes := es_writes state in
  s1 ← fixed_section RESERVATIONS (es_reservations state) encode_reservation;
  s2 ← fixed_section RELOCATIONS (lp_relocations layout) encode_relocation;
  s3 ← fixed_section FREE_RANGES (lp_free_after_staging layout) encode_range;
  s4 ← reserved_write_section TARGET_STAGING (ws_target_staging writes);
  s5 ← reserved_write_section BACKUP_BOOT (ws_backup_boot writes);
  s6 ← reserved_write_section ACTIVATION (ws_activation writes);
  s7 ← rollback_write_section TARGET_STAGING_ROLLBACK (ws_target_staging_rollback writes);
  s8 ← rollback_write_section BACKUP_BOOT_ROLLBACK (ws_backup_boot_rollback writes);
  s9 ← rollback_write_section ACTIVATION_ROLLBACK (ws_activation_rollback writes);
  s11 ← fixed_section TARGET_FEATURES (es_target_features state) encode_target_feature;
  s12 ← rollback_write_section RELOCATION_DESTINATION_ROLLBACK
    (es_relocation_destination_before_images state);
  Ok [s1; s2; s3; s4; s5; s6; s7; s8; s9;
      mkEncodedSection RECOVERY_PAYLOAD 1 (es_recovery_payload state); s11; s12].

Definition is_reserved_section (tag : N) : bool :=
  (tag =? TARGET_STAGING) || (tag =? BACKUP_BOOT) || (tag =? ACTIVATION).
Definition is_write_section (tag : N) : bool :=
  is_reserved_section tag || (tag =? TARGET_STAGING_ROLLBACK) || (tag =? BACKUP_BOOT_ROLLBACK)
  || (tag =? ACTIVATION_ROLLBACK) || (tag =? RELOCATION_DESTINATION_ROLLBACK).
(** The unit of a section of fixed-size elements. *)
Definition fixed_unit (tag : N) : option N :=
  if tag =? RESERVATIONS then Some 24
  else if tag =? RELOCATIONS then Some 48
  else if tag =? FREE_RANGES then Some 16
  else if tag =? TARGET_FEATURES then Some 36
  else None.
Definition validate_fixed_section_len (tag count length : N) : envelope unit :=
  match fixed_unit tag with
  | Some unit_ =>
      expected ← ok_or ArithmeticOverflow (checked_mul count unit_);
      refuse_if (negb (length =? expected)) (InvalidFixedSectionLength tag length)
  | None => Ok tt
  end.

Record ScanState : Type := mkScanState {
  sc_metas : list SectionMeta;
  sc_cursor : N;
  sc_entries : N;
  sc_write_bytes : N
}.

(** The limits on the number of entries, or on the singleton. *)
Definition scan_count (tag count length entries : N) (limits : PreparedEnvelopeLimits)
    : envelope N :=
  if tag =? RECOVERY_PAYLOAD then
    refuse_if (negb (count =? 1)) (InvalidSingletonSection tag count) ;;
    max_recovery_bytes ← usize_u64 (pl_max_recovery_bytes limits);
    refuse_if (max_recovery_bytes <? length)
      (RecoveryByteLimitExceeded length (pl_max_recovery_bytes limits)) ;;
    Ok entries
  else
    entries ← ok_or ArithmeticOverflow (checked_add entries count);
    max_entries ← usize_u64 (pl_max_entries limits);
    refuse_if (max_entries <? entries) (EntryLimitExceeded entries (pl_max_entries limits)) ;;
    Ok entries.
(** The limit on the bytes of all write sections. *)
Definition scan_write_bytes (tag count length write_bytes : N) (limits : PreparedEnvelopeLimits)
    : envelope N :=
  if is_write_section tag then
    let header_bytes := if is_reserved_section tag then RESERVED_WRITE_HEADER_BYTES
                        else ROLLBACK_WRITE_HEADER_BYTES in
    entry_headers ← ok_or ArithmeticOverflow (checked_mul count header_bytes);
    payload_bytes ← ok_or (InvalidFixedSectionLength tag length)
      (checked_sub length entry_headers);
    write_bytes ← ok_or ArithmeticOverflow (checked_add write_bytes payload_bytes);
    max_write_bytes ← usize_u64 (pl_max_write_bytes limits);
    refuse_if (max_write_bytes <? write_bytes)
      (WriteByteLimitExceeded write_bytes (pl_max_write_bytes limits)) ;;
    Ok write_bytes
  else Ok write_bytes.

(** One round of the scan. *)
Definition scan_section (bytes : list byte) (limits : PreparedEnvelopeLimits) (state : ScanState)
    (expected : N) : envelope ScanState :=
  let cursor := sc_cursor state in
  header_end ← ok_or ArithmeticOverflow (checked_add cursor SECTION_HEADER_BYTES);
  refuse_if (len bytes <? header_end) Truncated ;;
  tag ← read_u16 bytes cursor;
  refuse_if (negb (tag =? expected)) (UnexpectedSection expected tag) ;;
  reserved ← index_range (cursor + 2) (cursor + 4) bytes;
  refuse_if (any_nonzero reserved) NonZeroReserved ;;
  count ← read_u32 bytes (cursor + 4);
  length ← read_u64 bytes (cursor + 8);
  entries ← scan_count tag count length (sc_entries state) limits;
  data_start ← usize_u64 header_end;
  data_end ← ok_or ArithmeticOverflow (checked_add data_start length);
  data_end ← ok_or Truncated (usize_try_from data_end);
  refuse_if (len bytes <? data_end) Truncated ;;
  data ← index_range header_end data_end bytes;
  digest ← array_32 bytes (cursor + 16);
  refuse_if (negb (bool_decide (sha256 data = digest))) (SectionDigestMismatch tag) ;;
  write_bytes ← scan_write_bytes tag count length (sc_write_bytes state) limits;
  validate_fixed_section_len tag count length ;;
  Ok (mkScanState (sc_metas state ++ [mkSectionMeta tag count header_end data_end]) data_end
        entries write_bytes).

(** [1..=SECTION_COUNT]. *)
Definition section_tags : list N := [1; 2; 3; 4; 5; 6; 7; 8; 9; 10; 11; 12].
Definition scan_sections (bytes : list byte) (limits : PreparedEnvelopeLimits)
    : envelope (list SectionMeta) :=
  scanned ← try_fold (scan_section bytes limits) (mkScanState [] HEADER_BYTES 0 0) section_tags;
  (if negb (sc_cursor scanned =? len bytes) then
     declared ← usize_u64 (sc_cursor scanned); Err (InvalidTotalLength declared (len bytes))
   else Ok tt) ;;
  Ok (sc_metas scanned).

(** ** Encoding *)
Definition add_section (sum : N) (section : EncodedSection) : envelope N :=
  ok_or ArithmeticOverflow
    (value ← checked_add sum SECTION_HEADER_BYTES; checked_add value (len (ec_bytes section))).
Definition push_section (output : list byte) (section : EncodedSection) : envelope (list byte) :=
  let output := output ++ u16_le (ec_tag section) in
  let output := output ++ replicate 2 x00 in
  let output := output ++ u32_le (ec_count section) in
  length ← ok_or ArithmeticOverflow (u64_try_from (len (ec_bytes section)));
  let output := output ++ u64_le length in
  let output := output ++ sha256 (ec_bytes section) in
  Ok (output ++ ec_bytes section).
Definition encode_state (state : EnvelopeState) (limits : PreparedEnvelopeLimits)
    : envelope (list byte) :=
  validate_limits limits ;;
  validate_state state limits ;;
  sections ← encode_sections state;
  payload_bytes ← try_fold add_section 0 sections;
  total_bytes ← ok_or ArithmeticOverflow (checked_add HEADER_BYTES payload_bytes);
  ensure_envelope_cap (default u64_max (u64_try_from total_bytes)) limits ;;
  validate_envelope_generation total_bytes (es_capsule_limits state) ;;
  let output := replicate 576 x00 in
  output ← try_fold push_section output sections;
  payload ← index_range HEADER_BYTES (len output) output;
  let payload_digest := sha256 payload in
  header ← index_range 0 HEADER_BYTES output;
  header ← encode_header header state total_bytes payload_digest;
  copy_from_slice 0 HEADER_BYTES header output.

(** ** Decoding *)
Definition section_bytes (bytes : list byte) (meta : SectionMeta) : envelope (list byte) :=
  index_range (sm_start meta) (sm_end meta) bytes.

(** The part of [decode_state] after the scan. *)
Definition decode_sections (bytes : list byte) (limits : PreparedEnvelopeLimits)
    (header : HeaderState) (sections : list SectionMeta) : envelope EnvelopeState :=
  match sections with
  | [m1; m2; m3; m4; m5; m6; m7; m8; m9; m10; m11; m12] =>
      d1 ← section_bytes bytes m1;
      reservations ← decode_reservations d1 (sm_count m1);
      d2 ← section_bytes bytes m2;
      relocations ← decode_relocations d2 (sm_count m2);
      d3 ← section_bytes bytes m3;
      free_after_staging ← decode_ranges d3 (sm_count m3);
      d4 ← section_bytes bytes m4;
      target_staging ← decode_reserved_writes d4 m4 limits;
      d5 ← section_bytes bytes m5;
      backup_boot ← decode_reserved_writes d5 m5 limits;
      d6 ← section_bytes bytes m6;
      activation ← decode_reserved_writes d6 m6 limits;
      d7 ← section_bytes bytes m7;
      target_staging_rollback ← decode_rollback_writes d7 m7 limits;
      d8 ← section_bytes bytes m8;
      backup_boot_rollback ← decode_rollback_writes d8 m8 limits;
      d9 ← section_bytes bytes m9;
      activation_rollback ← decode_rollback_writes d9 m9 limits;
      d10 ← section_bytes bytes m10;
      recovery_payload ← copy_bounded d10;
      d12 ← section_bytes bytes m12;
      relocation_destination_before_images ← decode_rollback_writes d12 m12 limits;
      d11 ← section_bytes bytes m11;
      target_features ← decode_target_features d11 (sm_count m11);
      Ok {|
        es_identity := hs_identity header;
        es_preflight := hs_preflight header;
        es_target_filesystem := hs_target_filesystem header;
        es_target_features := target_features;
        es_source_graph_digest := hs_source_graph_digest header;
        es_target_graph_digest := hs_target_graph_digest header;
        es_plan_digest := hs_plan_digest header;
        es_candidate_overlay_digest := hs_candidate_overlay_digest header;
        es_relocation_rollback_digest := hs_relocation_rollback_digest header;
        es_staging_rollback_digest := hs_staging_rollback_digest header;
        es_preactivation_rollback_digest := hs_preactivation_rollback_digest header;
        es_full_rollback_digest := hs_full_rollback_digest header;
        es_reservations := reservations;
        es_layout := mkLayoutPlan relocations [] free_after_staging (hs_relocated_bytes header) 0
          (hs_largest_free_range header);
        es_writes := mkOpaqueWriteSets target_staging backup_boot activation
          target_staging_rollback backup_boot_rollback activation_rollback;
        es_relocation_destination_before_images := relocation_destination_before_images;
        es_recovery_payload := recovery_payload;
        es_capsule_limits := hs_capsule_limits header
      |}
  | _ => Panic
  end.

Definition decode_state (bytes : list byte) (limits : PreparedEnvelopeLimits)
    : envelope EnvelopeState :=
  validate_limits limits ;;
  ensure_envelope_cap (default u64_max (u64_try_from (len bytes))) limits ;;
  refuse_if (len bytes <? HEADER_BYTES) Truncated ;;
  validate_header bytes ;;
  total ← read_u64 bytes 16;
  refuse_if (negb (total =? default u64_max (u64_try_from (len bytes))))
    (InvalidTotalLength total (len bytes)) ;;
  payload_len ← read_u64 bytes 24;
  actual_payload ← sub_u64 (len bytes) HEADER_BYTES;
  refuse_if (negb (payload_len =? default u64_max (u64_try_from actual_payload)))
    (InvalidTotalLength payload_len actual_payload) ;;
  payload ← index_range HEADER_BYTES (len bytes) bytes;
  payload_digest ← array_32 bytes 32;
  refuse_if (negb (bool_decide (sha256 payload = payload_digest))) PayloadDigestMismatch ;;
  section_count ← read_u32 bytes 488;
  expected_count ← ok_or ArithmeticOverflow (u32_try_from SECTION_COUNT);
  refuse_if (negb (section_count =? expected_count)) (InvalidSectionCount section_count) ;;
  header ← decode_header bytes;
  validate_envelope_generation (len bytes) (hs_capsule_limits header) ;;
  sections ← scan_sections bytes limits;
  state ← decode_sections bytes limits header sections;
  validate_state state limits ;;
  Ok state.

(** ** The prepared conversion *)
Definition overlay_limits (limits : PreparedEnvelopeLimits) : OverlayLimits :=
  mkOverlayLimits (pl_max_entries limits) (pl_max_write_bytes limits) (pl_max_read_bytes limits).

Definition into_decoded (state : EnvelopeState) (limits : PreparedEnvelopeLimits)
    : envelope DecodedPreparedEnvelope :=
  validate_state state limits ;;
  let overlay_limits := overlay_limits limits in
  let image_bytes := ct_image_bytes (pf_image (es_preflight state)) in
  let sector_bytes := pf_sector_bytes (es_preflight state) in
  let before_images := es_relocation_destination_before_images state in
  let overlay group := map_err OverlayRefused
    (OverlayPlan_build image_bytes sector_bytes group overlay_limits) in
  candidate_overlay ← overlay (final_writes (es_writes state));
  staging_rollback_overlay ← overlay (staging_rollback_writes before_images (es_writes state));
  preactivation_rollback_overlay ←
    overlay (preactivation_rollback_writes before_images (es_writes state));
  full_rollback_overlay ← overlay (full_rollback_writes before_images (es_writes state));
  relocation_rollback_overlay ← overlay before_images;
  Ok (mkDecodedPreparedEnvelope {|
    pc_identity := es_identity state;
    pc_preflight := es_preflight state;
    pc_target_filesystem := es_target_filesystem state;
    pc_target_features := es_target_features state;
    pc_source_graph_digest := es_source_graph_digest state;
    pc_target_graph_digest := es_target_graph_digest state;
    pc_plan_digest := es_plan_digest state;
    pc_candidate_overlay_digest := es_candidate_overlay_digest state;
    pc_relocation_rollback_digest := es_relocation_rollback_digest state;
    pc_staging_rollback_digest := es_staging_rollback_digest state;
    pc_preactivation_rollback_digest := es_preactivation_rollback_digest state;
    pc_full_rollback_digest := es_full_rollback_digest state;
    pc_reservations := es_reservations state;
    pc_layout := es_layout state;
    pc_writes := es_writes state;
    pc_candidate_overlay := candidate_overlay;
    pc_relocation_rollback_overlay := relocation_rollback_overlay;
    pc_staging_rollback_overlay := staging_rollback_overlay;
    pc_preactivation_rollback_overlay := preactivation_rollback_overlay;
    pc_full_rollback_overlay := full_rollback_overlay;
    pc_recovery_payload := es_recovery_payload state;
    pc_prepared_envelope := [];
    pc_capsule_limits := es_capsule_limits state
  |} (pf_source_manifest_commitment (es_preflight state))).

Definition encode_prepared_envelope (prepared : PreparedConversion)
    (limits : PreparedEnvelopeLimits) : envelope (list byte) :=
  encode_state (from_prepared prepared) limits.
Definition decode_prepared_envelope (bytes : list byte) (limits : PreparedEnvelopeLimits)
    : envelope DecodedPreparedEnvelope :=
  state ← decode_state bytes limits;
  decoded ← into_decoded state limits;
  prepared_envelope ← copy_bounded bytes;
  Ok (mkDecodedPreparedEnvelope (with_envelope (dp_prepared decoded) prepared_envelope)
        (dp_expected_manifest decoded)).

(** [From<PreparedEnvelopeError> for ConversionError], and the calls of
    [conversion.rs], which use the default limits. *)
Definition into_conversion_error (error : PreparedEnvelopeError) : ConversionError :=
  match error with
  | CapsuleRefused error => CapsuleFailure error
  | _ => PreparedEnvelopeInvalid
  end.
Definition envelope_codec : PreparedEnvelope := {|
  Prepare.encode_prepared_envelope := fun prepared =>
    map_err into_conversion_error
      (encode_prepared_envelope prepared PreparedEnvelopeLimits_default);
  Prepare.decode_prepared_envelope := fun bytes =>
    decoded ← map_err into_conversion_error
      (decode_prepared_envelope bytes PreparedEnvelopeLimits_default);
    Ok (dp_prepared decoded, dp_expected_manifest decoded)
|}.
End Codec.

(** * Specification *)

Record state_typed (s : EnvelopeState) : Prop := {
  st_header : header_typed (header_of s);
  st_reservations : Forall reservation_typed (es_reservations s);
  st_relocations : Forall relocation_typed (lp_relocations (es_layout s));
  st_free : Forall range_typed (lp_free_after_staging (es_layout s));
  st_features : Forall feature_typed (es_target_features s)
}.


(** The bytes of a section: tag, reserved bytes, count, length, digest, data. *)
Definition section_parts `{Digests} (tag : N) (section : N * list byte) : list (N * list byte) :=
  [(2, u16_le tag); (2, replicate 2 x00); (4, u32_le section.1); (8, u64_le (len section.2));
   (32, sha256 section.2); (len section.2, section.2)].
Definition section_wire `{Digests} (tag : N) (section : N * list byte) : list byte :=
  concat (snd <$> section_parts tag section).
Fixpoint sections_wire `{Digests} (tags : list N) (sections : list (N * list byte)) : list byte :=
  match tags, sections with
  | tag :: tags, section :: sections => section_wire tag section ++ sections_wire tags sections
  | _, _ => []
  end.

(** The limits a section must meet after [entries] entries and [written] bytes. *)
Definition header_unit (tag : N) : N :=
  if is_reserved_section tag then RESERVED_WRITE_HEADER_BYTES else ROLLBACK_WRITE_HEADER_BYTES.
Definition next_entries (tag count entries : N) : N :=
  if tag =? RECOVERY_PAYLOAD then entries else entries + count.
Definition next_written (tag count length written : N) : N :=
  if is_write_section tag then written + (length - count * header_unit tag) else written.
Definition admissible (limits : PreparedEnvelopeLimits) (tag count length entries written : N)
    : Prop :=
  (if tag =? RECOVERY_PAYLOAD then count = 1 /\ length <= pl_max_recovery_bytes limits
   else entries + count <= pl_max_entries limits) /\
  (if is_write_section tag then
     count * header_unit tag <= length /\
     next_written tag count length written <= pl_max_write_bytes limits
   else True) /\
  match fixed_unit tag with Some unit_ => length = count * unit_ | None => True end.
Fixpoint budget (limits : PreparedEnvelopeLimits) (tags : list N) (sections : list (N * list byte))
    (entries written : N) : Prop :=
  match tags, sections with
  | tag :: tags, section :: sections =>
      section.1 <= u32_max /\ admissible limits tag section.1 (len section.2) entries written /\
      budget limits tags sections (next_entries tag section.1 entries)
        (next_written tag section.1 (len section.2) written)
  | _, _ => True
  end.

(** The state of the scan after some sections. *)
Definition advance (state : ScanState) (tag : N) (section : N * list byte) : ScanState :=
  let start := sc_cursor state + SECTION_HEADER_BYTES in
  let end_ := start + len section.2 in
  mkScanState (sc_metas state ++ [mkSectionMeta tag section.1 start end_]) end_
    (next_entries tag section.1 (sc_entries state))
    (next_written tag section.1 (len section.2) (sc_write_bytes state)).
Fixpoint advance_all (state : ScanState) (tags : list N) (sections : list (N * list byte))
    : ScanState :=
  match tags, sections with
  | tag :: tags, section :: sections => advance_all (advance state tag section) tags sections
  | _, _ => state
  end.

(** The sections of a state: count and data, in the order of the tags. *)
Definition section_list (s : EnvelopeState) : list (N * list byte) :=
  let layout := es_layout s in
  let writes := es_writes s in
  [(len (es_reservations s), wire encode_reservation (es_reservations s));
   (len (lp_relocations layout), wire encode_relocation (lp_relocations layout));
   (len (lp_free_after_staging layout), wire encode_range (lp_free_after_staging layout));
   (len (ws_target_staging writes), writes_wire reserved_write_wire (ws_target_staging writes));
   (len (ws_backup_boot writes), writes_wire reserved_write_wire (ws_backup_boot writes));
   (len (ws_activation writes), writes_wire reserved_write_wire (ws_activation writes));
   (len (ws_target_staging_rollback writes), writes_wire entry (ws_target_staging_rollback writes));
   (len (ws_backup_boot_rollback writes), writes_wire entry (ws_backup_boot_rollback writes));
   (len (ws_activation_rollback writes), writes_wire entry (ws_activation_rollback writes));
   (1, es_recovery_payload s);
   (len (es_target_features s), wire encode_target_feature (es_target_features s));
   (len (es_relocation_destination_before_images s),
    writes_wire entry (es_relocation_destination_before_images s))].

(** What validation says of the writes and the layout. *)
Definition reserved_group_ok (group : N * list ReservedWrite) : Prop :=
  ensure_order group.2 group.1 reserved_write_key = Ok tt /\ Forall reserved_in_range group.2.
Definition rollback_group_ok (group : N * list OverlayWrite) : Prop :=
  ensure_order group.2 group.1 rollback_write_key = Ok tt /\ Forall write_in_range group.2.
Record ranges_ok (s : EnvelopeState) : Prop := {
  ro_reservations : ensure_order (es_reservations s) RESERVATIONS reservation_key = Ok tt;
  ro_relocations : ensure_order (lp_relocations (es_layout s)) RELOCATIONS relocation_key = Ok tt;
  ro_free : ensure_order (lp_free_after_staging (es_layout s)) FREE_RANGES range_key = Ok tt;
  ro_in_place : lp_materializations (es_layout s) = [] /\ lp_materialized_bytes (es_layout s) = 0;
  ro_reserved : Forall reserved_group_ok
    [(TARGET_STAGING, ws_target_staging (es_writes s)); (BACKUP_BOOT, ws_backup_boot (es_writes s));
     (ACTIVATION, ws_activation (es_writes s))];
  ro_rollback : Forall rollback_group_ok
    [(TARGET_STAGING_ROLLBACK, ws_target_staging_rollback (es_writes s));
     (BACKUP_BOOT_ROLLBACK, ws_backup_boot_rollback (es_writes s));
     (ACTIVATION_ROLLBACK, ws_activation_rollback (es_writes s));
     (RELOCATION_DESTINATION_ROLLBACK, es_relocation_destination_before_images s)]
}.
Record counts_ok (s : EnvelopeState) (limits : PreparedEnvelopeLimits) : Prop := {
  co_entries : sum_by id (section_counts s) <= pl_max_entries limits;
  co_written : sum_by ow_length (chained_writes s) <= pl_max_write_bytes limits;
  co_recovery : len (es_recovery_payload s) <= pl_max_recovery_bytes limits
}.

(** The envelope of a state: the header, then the sections. *)
Definition payload_of `{Digests} (s : EnvelopeState) : list byte :=
  sections_wire section_tags (section_list s).
Definition envelope_of `{Digests} (s : EnvelopeState) : list byte :=
  let payload := payload_of s in
  let total := HEADER_BYTES + len payload in
  header_image (header_of s) total (len payload) (sha256 payload)
    (checksum (header_of s) total (len payload) (sha256 payload)) ++ payload.
(** The states that have an envelope under the limits. *)
Record encodable `{Digests} (s : EnvelopeState) (limits : PreparedEnvelopeLimits) : Prop := {
  en_valid : validate_state s limits = Ok tt;
  en_counts : Forall (fun section => section.1 <= u32_max) (section_list s);
  en_cap : HEADER_BYTES + len (payload_of s) <= pl_max_envelope_bytes limits;
  en_generation :
    validate_envelope_generation (HEADER_BYTES + len (payload_of s)) (es_capsule_limits s) = Ok tt
}.

(** The limits are those of a 64-bit target. *)
Record limits_typed (limits : PreparedEnvelopeLimits) : Prop := {
  lt_envelope : pl_max_envelope_bytes limits <= u64_max;
  lt_entries : pl_max_entries limits <= u64_max;
  lt_write : pl_max_write_bytes limits <= u64_max;
  lt_recovery : pl_max_recovery_bytes limits <= u64_max
}.

(** ** The scan *)
Section Scan.
Context `{Digests} (limits : PreparedEnvelopeLimits) (limits_fit : limits_typed limits).

Lemma section_parts_lengths tag section :
  Forall (fun p => len p.2 = p.1) (section_parts tag section).
Proof using. unfold section_parts. repeat constructor; cbn [fst snd]; try done. apply sha256_length. Qed.
Lemma section_widths tag section :
  widths (section_parts tag section) = SECTION_HEADER_BYTES + len section.2.
Proof using.
  unfold widths, section_parts, sum_by, SECTION_HEADER_BYTES. cbn [foldr fst]. lia.
Qed.
Lemma len_section_wire tag section :
  len (section_wire tag section) = SECTION_HEADER_BYTES + len section.2.
Proof using.
  rewrite <- (section_widths tag section). apply len_concat_parts, section_parts_lengths.
Qed.

Lemma scan_count_Ok tag count length entries e :
  scan_count tag count length entries limits = Ok e <->
  (if tag =? RECOVERY_PAYLOAD then count = 1 /\ length <= pl_max_recovery_bytes limits
   else entries + count <= pl_max_entries limits) /\ e = next_entries tag count entries.
Proof using limits_fit.
  pose proof (lt_entries _ limits_fit). pose proof (lt_recovery _ limits_fit).
  unfold scan_count, next_entries, usize_u64.
  rewrite (u64_try_from_in (pl_max_recovery_bytes limits)),
    (u64_try_from_in (pl_max_entries limits)) by done.
  destruct (tag =? RECOVERY_PAYLOAD); cbn [ok_or mbind outcome_bind]; split.
  - intros Hs. inv_ok. bool_props. done.
  - intros [[-> Hl] ->]. simpl. by rewrite (proj2 (N.ltb_ge _ _) Hl).
  - intros Hs. inv_ok. bool_props. done.
  - intros [Hl ->]. rewrite checked_add_in by lia. simpl. by rewrite (proj2 (N.ltb_ge _ _) Hl).
Qed.

Lemma scan_write_bytes_Ok tag count length written w :
  length <= u64_max ->
  scan_write_bytes tag count length written limits = Ok w <->
  (if is_write_section tag then
     count * header_unit tag <= length /\
     next_written tag count length written <= pl_max_write_bytes limits
   else True) /\ w = next_written tag count length written.
Proof using limits_fit.
  intros Hlen. pose proof (lt_write _ limits_fit).
  unfold scan_write_bytes, next_written, usize_u64, header_unit.
  destruct (is_write_section tag); [|split; [by intros [= ->] | by intros [_ ->]]].
  rewrite u64_try_from_in by done.
  set (unit_ := if is_reserved_section tag then _ else _). cbn [ok_or mbind outcome_bind]. split.
  - intros Hs. inv_ok. bool_props. done.
  - intros [[Hu Hl] ->]. rewrite checked_mul_in by lia. simpl. rewrite checked_sub_in by done. simpl.
    rewrite checked_add_in by lia. simpl. by rewrite (proj2 (N.ltb_ge _ _) Hl).
Qed.

Lemma validate_fixed_Ok tag count length :
  length <= u64_max ->
  validate_fixed_section_len tag count length = Ok tt <->
  match fixed_unit tag with Some unit_ => length = count * unit_ | None => True end.
Proof using.
  intros Hl. unfold validate_fixed_section_len. destruct (fixed_unit tag) as [u|]; [|done]. split.
  - intros Hs. inv_ok. bool_props. done.
  - intros ->. rewrite checked_mul_in by done. simpl. by rewrite N.eqb_refl.
Qed.

Lemma advance_all_cursor tags : forall sections state,
  length sections = length tags ->
  sc_cursor (advance_all state tags sections) =
  sc_cursor state + len (sections_wire tags sections).
Proof using limits_fit.
  induction tags as [|tag tags IH]; intros [|section sections] state Hl; try done;
    cbn [advance_all sections_wire].
  - rewrite len_nil. lia.
  - rewrite IH by (by injection Hl). rewrite len_app, len_section_wire. simpl. lia.
Qed.

Context (bytes : list byte) (bytes_fit : len bytes <= isize_max).

Lemma scan_section_Ok state tag state' :
  tag <= u16_max -> sc_cursor state <= len bytes ->
  scan_section bytes limits state tag = Ok state' <->
  exists section, section.1 <= u32_max /\
    admissible limits tag section.1 (len section.2) (sc_entries state) (sc_write_bytes state) /\
    state' = advance state tag section /\ sc_cursor state' <= len bytes /\
    subslice (sc_cursor state) (sc_cursor state') bytes = section_wire tag section.
Proof using limits_fit bytes_fit.
  intros Htag Hc. pose proof isize_lt_u64. destruct state as [metas c e w].
  cbn [sc_metas sc_cursor sc_entries sc_write_bytes] in *.
  assert (Htile : forall section, c + (48 + len section.2) <= len bytes ->
    subslice c (c + 48 + len section.2) bytes = section_wire tag section <->
    tiled c (section_parts tag section) bytes).
  { intros section Hl. rewrite <- tiled_concat by (apply section_parts_lengths || by rewrite section_widths).
    rewrite section_widths. unfold SECTION_HEADER_BYTES. by rewrite N.add_assoc. }
  unfold scan_section, SECTION_HEADER_BYTES, usize_u64, array_32.
  cbn [sc_metas sc_cursor sc_entries sc_write_bytes]. split.
  - intros Hs. apply bind_Ok in Hs as (he & Hhe & Hs).
    apply ok_or_Ok, checked_add_Some in Hhe as [-> Hhe].
    apply then_Ok in Hs as [Ht Hs]. apply refuse_if_Ok, N.ltb_ge in Ht.
    apply bind_Ok in Hs as (t & Hrt & Hs). apply wire_u16_Ok in Hrt as [_ Hrt]; [|lia|lia].
    apply then_Ok in Hs as [Heq Hs]. apply refuse_if_Ok, negb_false_iff, N.eqb_eq in Heq. subst t.
    apply bind_Ok in Hs as (z & Hz & Hs). apply index_range_Ok in Hz as (_ & _ & ->).
    apply then_Ok in Hs as [Hz Hs]. apply refuse_if_Ok in Hz.
    apply (zero_slice _ _ (len bytes)) in Hz; [|done|lia|lia].
    replace (c + 4 - (c + 2)) with 2 in Hz by lia.
    apply bind_Ok in Hs as (count & Hcount & Hs). apply wire_u32_Ok in Hcount as [Hcb Hcs]; [|lia|lia].
    apply bind_Ok in Hs as (n & Hn & Hs). apply wire_u64_Ok in Hn as [Hnb Hns]; [|lia|lia].
    apply bind_Ok in Hs as (e' & He & Hs). apply scan_count_Ok in He as [Ha1 ->].
    rewrite u64_try_from_in in Hs by lia. cbn [ok_or] in Hs.
    apply bind_Ok in Hs as (ds & [= <-] & Hs).
    apply bind_Ok in Hs as (de & Hde & Hs). apply ok_or_Ok, checked_add_Some in Hde as [-> Hde].
    apply bind_Ok in Hs as (de & Hde' & Hs). apply ok_or_Ok, usize_try_from_Some in Hde' as [-> _].
    apply then_Ok in Hs as [Hle Hs]. apply refuse_if_Ok, N.ltb_ge in Hle.
    apply bind_Ok in Hs as (data & Hdata & Hs). apply index_range_Ok in Hdata as (_ & _ & Hdata).
    apply bind_Ok in Hs as (digest & Hdg & Hs). apply array_eq in Hdg as [_ Hdg]; [|lia|lia].
    apply then_Ok in Hs as [Hsha Hs]. apply refuse_if_Ok, negb_false_iff, bool_decide_eq_true in Hsha.
    apply bind_Ok in Hs as (w' & Hw & Hs). apply scan_write_bytes_Ok in Hw as [Ha2 ->]; [|done].
    apply then_Ok in Hs as [Hv Hs]. apply validate_fixed_Ok in Hv; [|done].
    assert (Hld : len data = n) by (rewrite Hdata, len_subslice; lia).
    injection Hs as <-. exists (count, data). unfold advance, SECTION_HEADER_BYTES.
    cbn [fst snd sc_cursor sc_metas sc_entries sc_write_bytes]. rewrite Hld. unfold admissible.
    split_and!; try done. rewrite <- Hld. apply (Htile (count, data)); [cbn [snd]; lia |].
    unfold section_parts. cbn [tiled fst snd].
    replace (c + 2 + 2) with (c + 4) by lia. replace (c + 4 + 4) with (c + 8) in * by lia.
    replace (c + 8 + 8) with (c + 16) in * by lia. replace (c + 16 + 32) with (c + 48) in * by lia.
    rewrite Hld. split_and!; try done. by rewrite Hsha.
  - intros ([count data] & Hcb & Ha & -> & Hle & Hs). unfold advance, SECTION_HEADER_BYTES in *.
    cbn [fst snd sc_cursor sc_metas sc_entries sc_write_bytes] in *.
    apply (Htile (count, data)) in Hs; [|cbn [snd]; lia].
    unfold section_parts in Hs. cbn [tiled fst snd] in Hs.
    replace (c + 2 + 2) with (c + 4) in Hs by lia. replace (c + 4 + 4) with (c + 8) in Hs by lia.
    replace (c + 8 + 8) with (c + 16) in Hs by lia. replace (c + 16 + 32) with (c + 48) in Hs by lia.
    destruct Hs as (Ht & Hz & Hc1 & Hn & Hdg & Hd & _). destruct Ha as (Ha1 & Ha2 & Ha3).
    eapply bind_step; [apply ok_or_step, checked_add_in; lia | cbv beta]. ok_step.
    eapply bind_step; [apply wire_u16_Ok; [lia | lia | split; [|exact Ht]; done] | cbv beta]. ok_step.
    eapply bind_step; [apply index_range_in; lia | cbv beta].
    eapply bind_step; [apply refuse_step, (zero_slice _ _ (len bytes)); [done | lia | lia |] | cbv beta].
    { replace (c + 4 - (c + 2)) with 2 by lia. done. }
    eapply bind_step; [apply wire_u32_Ok; [lia | lia |] | cbv beta].
    { replace (c + 4 + 4) with (c + 8) by lia. split; [|exact Hc1]. done. }
    eapply bind_step; [apply wire_u64_Ok; [lia | lia |] | cbv beta].
    { replace (c + 8 + 8) with (c + 16) by lia. split; [|exact Hn]. lia. }
    eapply bind_step; [by apply scan_count_Ok | cbv beta]. ok_step. ok_step. ok_step. ok_step.
    eapply bind_step; [apply index_range_in; lia | cbv beta]. rewrite Hd.
    eapply bind_step; [apply array_eq; [lia | lia |] | cbv beta].
    { replace (c + 16 + 32) with (c + 48) by lia. split; [|exact Hdg]. apply sha256_length. }
    eapply bind_step; [by apply refuse_step; rewrite bool_decide_true | cbv beta].
    eapply bind_step; [apply scan_write_bytes_Ok; [lia | done] | cbv beta].
    rewrite (proj2 (validate_fixed_Ok tag count (len data) ltac:(lia)) Ha3). done.
Qed.

Lemma scan_fold_Ok tags : forall state state',
  Forall (fun tag => tag <= u16_max) tags -> sc_cursor state <= len bytes ->
  try_fold (scan_section bytes limits) state tags = Ok state' <->
  exists sections, length sections = length tags /\
    budget limits tags sections (sc_entries state) (sc_write_bytes state) /\
    state' = advance_all state tags sections /\ sc_cursor state' <= len bytes /\
    subslice (sc_cursor state) (sc_cursor state') bytes = sections_wire tags sections.
Proof using limits_fit bytes_fit.
  induction tags as [|tag tags IH]; intros state state' Hf Hc; cbn [try_fold].
  - split.
    + intros [= <-]. exists []. split_and!; try done. unfold subslice. by rewrite N.sub_diag.
    + intros ([|] & Hl & _ & -> & _); done.
  - apply Forall_cons in Hf as [Ht Hf]. rewrite bind_Ok. split.
    + intros (state1 & H1 & H2). apply scan_section_Ok in H1 as (section & Hcb & Ha & -> & Hle & Hs);
        [|done|done].
      apply IH in H2 as (sections & Hl & Hb & -> & Hle' & Hs'); [|done|done].
      exists (section :: sections). cbn [budget advance_all sections_wire length].
      split_and!; try done; [by f_equal |]. rewrite <- Hs, <- Hs'. symmetry. apply subslice_split.
      * simpl. lia.
      * rewrite advance_all_cursor by done. lia.
    + intros (sections & Hl & Hb & -> & Hle & Hs). destruct sections as [|section sections]; [done |].
      injection Hl as Hl. cbn [budget advance_all sections_wire] in *.
      destruct Hb as (Hcb & Ha & Hb).
      rewrite advance_all_cursor in Hs, Hle by done.
      assert (Hcur : sc_cursor (advance state tag section) =
        sc_cursor state + len (section_wire tag section))
        by (rewrite len_section_wire; simpl; lia).
      rewrite Hcur in Hs, Hle.
      rewrite <- (subslice_split (sc_cursor state) (sc_cursor state + len (section_wire tag section)))
        in Hs by lia.
      apply app_inj_1 in Hs as [Hs1 Hs2].
      2: { apply Nat2N.inj. fold (len (section_wire tag section)).
           match goal with |- N.of_nat (length ?l) = _ => fold (len l) end.
           rewrite len_subslice; lia. }
      exists (advance state tag section). split.
      * apply scan_section_Ok; [done | done |]. exists section. rewrite Hcur.
        split_and!; try done. lia.
      * apply IH; [done | rewrite Hcur; lia |]. exists sections.
        rewrite advance_all_cursor by done. rewrite Hcur. split_and!; done.
Qed.

Lemma scan_sections_Ok metas :
  576 <= len bytes ->
  scan_sections bytes limits = Ok metas <->
  exists sections, length sections = 12%nat /\ budget limits section_tags sections 0 0 /\
    metas = sc_metas (advance_all (mkScanState [] 576 0 0) section_tags sections) /\
    subslice 576 (len bytes) bytes = sections_wire section_tags sections.
Proof using limits_fit bytes_fit.
  intros Hl. unfold scan_sections, HEADER_BYTES.
  assert (Hf : Forall (fun tag => tag <= u16_max) section_tags) by (by repeat constructor).
  split.
  - intros Hs. apply bind_Ok in Hs as (st & Hst & Hs).
    apply scan_fold_Ok in Hst as (sections & Hlen & Hb & -> & Hle & Hsub); [|done|done].
    apply then_Ok in Hs as [Hc [= <-]]. exists sections. cbn [sc_cursor] in *.
    destruct (N.eqb_spec (sc_cursor (advance_all (mkScanState [] 576 0 0) section_tags sections))
      (len bytes)) as [He|]; [|by unfold usize_u64 in Hc; simpl in Hc; destruct (u64_try_from _)].
    rewrite He in Hsub. done.
  - intros (sections & Hlen & Hb & -> & Hsub).
    assert (Hc : sc_cursor (advance_all (mkScanState [] 576 0 0) section_tags sections) = len bytes).
    { rewrite advance_all_cursor by done. rewrite <- Hsub, len_subslice by lia. simpl. lia. }
    eapply bind_step.
    { apply scan_fold_Ok; [done | done |]. exists sections. rewrite Hc.
      split_and!; done || lia. }
    cbv beta. rewrite Hc, N.eqb_refl. done.
Qed.

(** What the scan says of the data of each section. *)
Definition locates (meta : SectionMeta) (tagged : N * (N * list byte)) : Prop :=
  sm_tag meta = tagged.1 /\ sm_count meta = tagged.2.1 /\ section_bytes bytes meta = Ok tagged.2.2.

Lemma metas_locate tags : forall sections state,
  length sections = length tags ->
  sc_cursor state + len (sections_wire tags sections) <= len bytes ->
  subslice (sc_cursor state) (sc_cursor state + len (sections_wire tags sections)) bytes =
    sections_wire tags sections ->
  exists metas, sc_metas (advance_all state tags sections) = sc_metas state ++ metas /\
    Forall2 locates metas (zip tags sections).
Proof using limits_fit bytes_fit.
  induction tags as [|tag tags IH]; intros [|section sections] state Hl Hle Hs; try done;
    cbn [advance_all sections_wire] in *.
  - exists []. rewrite app_nil_r. split; [done | constructor].
  - injection Hl as Hl. rewrite len_app in *.
    set (c := sc_cursor state) in *. set (n := len (section_wire tag section)) in *.
    rewrite <- (subslice_split c (c + n)) in Hs by lia.
    apply app_inj_1 in Hs as [Hs1 Hs2].
    2: { apply Nat2N.inj. fold (len (section_wire tag section)).
         match goal with |- N.of_nat (length ?l) = _ => fold (len l) end.
         rewrite len_subslice; lia. }
    assert (Hcur : sc_cursor (advance state tag section) = c + n)
      by (unfold n; rewrite len_section_wire; simpl; unfold c; lia).
    destruct (IH sections (advance state tag section) Hl) as (metas & Hm & Hf).
    { rewrite Hcur. lia. }
    { rewrite Hcur. by rewrite <- N.add_assoc. }
    rewrite Hm. cbn [advance sc_metas].
    exists (mkSectionMeta tag section.1 (c + 48) (c + 48 + len section.2) :: metas).
    split; [by rewrite <- app_assoc |]. constructor; [|done]. split; [done |]. split; [done |].
    assert (Hn : n = 48 + len section.2) by (unfold n; by rewrite len_section_wire).
    unfold section_bytes. cbn [sm_start sm_end snd].
    rewrite index_range_in by lia. f_equal.
    unfold section_wire in Hs1. replace (c + n) with (c + widths (section_parts tag section)) in Hs1
      by (rewrite section_widths; unfold SECTION_HEADER_BYTES; lia).
    apply tiled_concat in Hs1; [|apply section_parts_lengths|].
    2: { rewrite section_widths. unfold SECTION_HEADER_BYTES. lia. }
    unfold section_parts in Hs1. cbn [tiled] in Hs1.
    replace (c + 48) with (c + 2 + 2 + 4 + 8 + 32) by lia. apply Hs1.
Qed.
End Scan.

(** ** Validation *)
Section Validation.
Context `{Digests} (limits : PreparedEnvelopeLimits) (limits_fit : limits_typed limits).

Lemma add_count_fold counts : forall a n,
  a <= u64_max ->
  try_fold add_count a counts = Ok n <-> n = a + sum_by id counts /\ n <= u64_max.
Proof using.
  induction counts as [|c counts IH]; intros a n Ha; cbn [try_fold].
  - unfold sum_by. simpl. rewrite N.add_0_r. split; [intros [= <-]; done | by intros [-> _]].
  - rewrite bind_Ok, sum_by_cons. unfold add_count at 1, id at 1. split.
    + intros (v & Hv & Hn). inv_ok. apply IH in Hn; [|done]. lia.
    + intros [-> Hn]. exists (a + c). split; [apply ok_or_step, checked_add_in; lia |].
      apply IH; lia.
Qed.

Lemma sum_lengths ws : sum_by id ((fun v => len (ow_bytes v)) <$> ws) = sum_by ow_length ws.
Proof using. induction ws as [|w ws IH]; [done |]. cbn [fmap list_fmap]. by rewrite !sum_by_cons, <- IH. Qed.

Lemma validate_counts_Ok s u : validate_counts_and_bytes s limits = Ok u -> counts_ok s limits.
Proof using limits_fit.
  unfold validate_counts_and_bytes, usize_u64. intros Hv.
  apply bind_Ok in Hv as (total & Ht & Hv). apply add_count_fold in Ht as [-> Ht]; [|done].
  rewrite N.add_0_l in *.
  apply then_Ok in Hv as [He Hv]. apply bind_Ok in Hv as (written & Hw & Hv).
  apply add_count_fold in Hw as [-> Hw]; [|done]. rewrite N.add_0_l, sum_lengths in Hw, Hv.
  apply then_Ok in Hv as [Hwb Hv]. split.
  - destruct (N.ltb_spec (pl_max_entries limits) (sum_by id (section_counts s))); [|done].
    by destruct (u64_try_from (sum_by _ _)).
  - destruct (N.ltb_spec (pl_max_write_bytes limits) (sum_by ow_length (chained_writes s))); [|done].
    by destruct (u64_try_from (sum_by ow_length (chained_writes s))).
  - destruct (N.ltb_spec (pl_max_recovery_bytes limits) (len (es_recovery_payload s))); [|done].
    by destruct (u64_try_from (len (es_recovery_payload s))).
Qed.

Lemma envelope_write_Ok section w u : validate_write section w = Ok u -> write_in_range w.
Proof using.
  unfold validate_write, usize_u64. intros Hv. inv_ok. bool_props. fold (ow_length w) in *.
  unfold write_in_range. lia.
Qed.

Lemma envelope_ranges_Ok s u : validate_ranges s = Ok u -> ranges_ok s.
Proof using.
  unfold validate_ranges. intros Hv. apply then_Ok in Hv as [_ Hv].
  apply then_Ok in Hv as [H1 Hv]. apply then_Ok in Hv as [H2 Hv]. apply then_Ok in Hv as [H3 Hv].
  apply bind_Ok in Hv as (r & _ & Hv). cbv zeta in Hv.
  apply then_Ok in Hv as [Hm Hv]. apply refuse_if_Ok in Hm. apply then_Ok in Hv as [_ Hv].
  apply then_Ok in Hv as [Hg1 Hv]. apply for_each_Ok in Hg1, Hv. bool_props. split; try done.
  - split; [by destruct (lp_materializations _) | done].
  - eapply Forall_impl; [exact Hg1 |]. intros g Hg. apply then_Ok in Hg as [Ho Hg]. split; [done |].
    apply for_each_Ok in Hg. eapply Forall_impl; [exact Hg |]. intros v. apply envelope_write_Ok.
  - eapply Forall_impl; [exact Hv |]. intros g Hg. apply then_Ok in Hg as [Ho Hg]. split; [done |].
    apply for_each_Ok in Hg. eapply Forall_impl; [exact Hg |]. intros v. apply envelope_write_Ok.
Qed.

Record validated (s : EnvelopeState) : Prop := {
  va_known : known (header_of s);
  va_counts : counts_ok s limits;
  va_ranges : ranges_ok s;
  va_features : validate_target_features (es_target_features s) = Ok tt
}.
Lemma validate_state_Ok s u : validate_state s limits = Ok u -> validated s.
Proof using limits_fit.
  unfold validate_state. intros Hv. cbv zeta in Hv. apply then_Ok in Hv as [_ Hv].
  apply then_Ok in Hv as [Hg Hv]. apply refuse_if_Ok in Hg. bool_props.
  apply then_Ok in Hv as [_ Hv]. apply then_Ok in Hv as [Hc Hv]. apply validate_counts_Ok in Hc.
  apply then_Ok in Hv as [Hr Hv]. apply envelope_ranges_Ok in Hr. apply then_Ok in Hv as [Hf _].
  by split.
Qed.
End Validation.

(** ** The sections of a state *)
Section SectionsOf.
Context `{Digests} (limits : PreparedEnvelopeLimits) (limits_fit : limits_typed limits).

Lemma len_writes {T} (write : T -> list byte) (size : T -> N) unit_ :
  (forall v, len (write v) = unit_ + size v) ->
  forall values, len (writes_wire write values) = len values * unit_ + sum_by size values.
Proof using.
  intros Hw. induction values as [|v values IH]; [done |].
  change (writes_wire write (v :: values)) with (write v ++ writes_wire write values).
  rewrite len_app, Hw, IH, len_cons, sum_by_cons. ring.
Qed.
Lemma len_reserved_writes values :
  len (writes_wire reserved_write_wire values) = len values * 24 + sum_by reserved_length values.
Proof using. apply len_writes. intros. apply len_reserved_write_wire. Qed.
Lemma len_rollback_writes values :
  len (writes_wire entry values) = len values * 16 + sum_by ow_length values.
Proof using. apply len_writes. intros. apply len_entry. Qed.
Lemma sum_reserved_writes values : sum_by ow_length (rw_write <$> values) = sum_by reserved_length values.
Proof using. induction values as [|v values IH]; [done |]. cbn [fmap list_fmap]. by rewrite !sum_by_cons, <- IH. Qed.

Lemma features_ok s :
  state_typed s -> validate_target_features (es_target_features s) = Ok tt ->
  Forall feature_ok (es_target_features s).
Proof using.
  intros [_ _ _ _ Ht] Hv%validate_target_features_versioned. unfold feature_ok.
  rewrite Forall_forall in *. intros v Hin. split; [by apply Ht | by apply Hv].
Qed.

Lemma section_budget s :
  state_typed s -> validated limits s -> Forall (fun section => section.1 <= u32_max) (section_list s) ->
  budget limits section_tags (section_list s) 0 0.
Proof using.
  intros Ht [_ [He Hw Hr] _ Hf] Hc. unfold section_list in *. rewrite !Forall_cons in Hc.
  pose proof (features_ok s Ht Hf) as Hfo.
  pose proof (len_wire 24 encode_reservation (fun _ => True) (fun v _ => len_encode_reservation v)
    (es_reservations s) ltac:(by apply Forall_true)) as L1.
  pose proof (len_wire 48 encode_relocation (fun _ => True) (fun v _ => len_encode_relocation v)
    (lp_relocations (es_layout s)) ltac:(by apply Forall_true)) as L2.
  pose proof (len_wire 16 encode_range (fun _ => True) (fun v _ => len_encode_range v)
    (lp_free_after_staging (es_layout s)) ltac:(by apply Forall_true)) as L3.
  pose proof (len_wire 36 encode_target_feature feature_ok len_encode_target_feature _ Hfo) as L11.
  unfold section_counts, sum_by, chained_writes, id in He. cbn [foldr] in He.
  unfold chained_writes in Hw. rewrite !sum_by_app, !sum_reserved_writes in Hw.
  unfold budget, section_tags, admissible, next_entries, next_written, header_unit.
  cbn [fst snd] in Hc |- *. rewrite L1, L2, L3, L11, !len_reserved_writes, !len_rollback_writes.
  cbv [N.eqb Pos.eqb is_write_section is_reserved_section fixed_unit RECOVERY_PAYLOAD RESERVATIONS
    RELOCATIONS FREE_RANGES TARGET_STAGING BACKUP_BOOT ACTIVATION TARGET_STAGING_ROLLBACK
    BACKUP_BOOT_ROLLBACK ACTIVATION_ROLLBACK TARGET_FEATURES RELOCATION_DESTINATION_ROLLBACK orb
    RESERVED_WRITE_HEADER_BYTES ROLLBACK_WRITE_HEADER_BYTES].
  destruct_and!. split_and!; done || lia.
Qed.

Definition encoded_sections (tags : list N) (sections : list (N * list byte))
    : list EncodedSection :=
  zip_with (fun tag section => mkEncodedSection tag section.1 section.2) tags sections.

Lemma encode_sections_Ok s ss :
  ranges_ok s ->
  encode_sections s = Ok ss <->
  Forall (fun section => section.1 <= u32_max) (section_list s) /\
  ss = encoded_sections section_tags (section_list s).
Proof using.
  intros [_ _ _ _ Hr Hb]. rewrite !Forall_cons in Hr. rewrite !Forall_cons in Hb.
  unfold reserved_group_ok, rollback_group_ok in *. cbn [fst snd] in *. destruct_and!.
  unfold encode_sections. split.
  - intros He.
    repeat match type of He with
    | fixed_section _ _ encode_reservation ≫= _ = Ok _ => let Hs := fresh "Hs" in
        apply bind_Ok in He as (? & Hs & He);
        apply (fixed_section_Ok _ encode_reservation_append) in Hs as [? ->]
    | fixed_section _ _ encode_relocation ≫= _ = Ok _ => let Hs := fresh "Hs" in
        apply bind_Ok in He as (? & Hs & He);
        apply (fixed_section_Ok _ encode_relocation_append) in Hs as [? ->]
    | fixed_section _ _ encode_range ≫= _ = Ok _ => let Hs := fresh "Hs" in
        apply bind_Ok in He as (? & Hs & He);
        apply (fixed_section_Ok _ encode_range_append) in Hs as [? ->]
    | fixed_section _ _ encode_target_feature ≫= _ = Ok _ => let Hs := fresh "Hs" in
        apply bind_Ok in He as (? & Hs & He);
        apply (fixed_section_Ok _ encode_target_feature_append) in Hs as [? ->]
    | reserved_write_section _ _ ≫= _ = Ok _ => let Hs := fresh "Hs" in
        apply bind_Ok in He as (? & Hs & He); apply reserved_write_section_Ok in Hs as [? ->]; [|done]
    | rollback_write_section _ _ ≫= _ = Ok _ => let Hs := fresh "Hs" in
        apply bind_Ok in He as (? & Hs & He); apply rollback_write_section_Ok in Hs as [? ->]; [|done]
    end.
    injection He as <-. split; [|reflexivity]. by repeat constructor.
  - intros [Hc ->]. unfold section_list in Hc. rewrite !Forall_cons in Hc. cbn [fst] in Hc.
    destruct_and!.
    repeat (eapply bind_step;
      [first [ by apply (fixed_section_Ok _ encode_reservation_append)
             | by apply (fixed_section_Ok _ encode_relocation_append)
             | by apply (fixed_section_Ok _ encode_range_append)
             | by apply (fixed_section_Ok _ encode_target_feature_append)
             | by apply reserved_write_section_Ok
             | by apply rollback_write_section_Ok ] | cbv beta]).
    reflexivity.
Qed.

Lemma add_section_fold tags : forall sections a n,
  length sections = length tags -> a <= u64_max ->
  try_fold add_section a (encoded_sections tags sections) = Ok n <->
  n = a + len (sections_wire tags sections) /\ n <= u64_max.
Proof using.
  induction tags as [|tag tags IH]; intros [|section sections] a n Hl Ha; try done.
  - cbn. rewrite len_nil, N.add_0_r. split; [intros [= <-]; done | by intros [-> _]].
  - injection Hl as Hl. cbn [encoded_sections zip_with try_fold sections_wire].
    rewrite len_app, len_section_wire, bind_Ok. unfold add_section at 1. cbn [ec_bytes]. split.
    + intros (v & Hv & Hn). apply ok_or_Ok in Hv.
      apply bind_Some in Hv as (v1 & Hv1 & Hv). apply checked_add_Some in Hv1 as [-> _].
      apply checked_add_Some in Hv as [-> Hv]. apply IH in Hn; [|done|done]. lia.
    + intros [-> Hn]. exists (a + (SECTION_HEADER_BYTES + len section.2)). split.
      * apply ok_or_step. rewrite checked_add_in by lia. cbn [mbind option_bind].
        rewrite checked_add_in by lia. f_equal. lia.
      * apply IH; [done | lia |]. lia.
Qed.

Lemma push_section_Ok output tag section :
  len section.2 <= u64_max ->
  push_section output (mkEncodedSection tag section.1 section.2) =
  Ok (output ++ section_wire tag section).
Proof using.
  intros Hl. unfold push_section. cbn [ec_tag ec_count ec_bytes].
  rewrite u64_try_from_in by done. cbn [ok_or mbind outcome_bind]. f_equal.
  unfold section_wire, section_parts. cbn [fmap list_fmap concat snd].
  by rewrite app_nil_r, <- !app_assoc.
Qed.
Lemma push_sections tags : forall sections output,
  length sections = length tags -> len (sections_wire tags sections) <= u64_max ->
  try_fold push_section output (encoded_sections tags sections) =
  Ok (output ++ sections_wire tags sections).
Proof using.
  induction tags as [|tag tags IH]; intros [|section sections] output Hl Hs; try done.
  - cbn. by rewrite app_nil_r.
  - injection Hl as Hl. cbn [encoded_sections zip_with try_fold sections_wire] in *.
    rewrite len_app, len_section_wire in Hs. rewrite push_section_Ok by lia.
    cbn [mbind outcome_bind]. fold (encoded_sections tags sections).
    rewrite IH by (done || lia). by rewrite <- app_assoc.
Qed.

Lemma length_section_list s : length (section_list s) = 12%nat.
Proof using. done. Qed.

(** The end of [encode_state]. *)
Definition assemble (s : EnvelopeState) (total_bytes : N) (output : list byte)
    : envelope (list byte) :=
  payload ← index_range HEADER_BYTES (len output) output;
  header ← index_range 0 HEADER_BYTES output;
  header ← encode_header header s total_bytes (sha256 payload);
  copy_from_slice 0 HEADER_BYTES header output.

Lemma assemble_Ok s zeros :
  state_typed s -> known (header_of s) -> zeros = replicate 576 x00 ->
  HEADER_BYTES + len (payload_of s) <= u64_max ->
  assemble s (HEADER_BYTES + len (payload_of s)) (zeros ++ payload_of s) = Ok (envelope_of s).
Proof using.
  intros Ht Hk Hz Htot. unfold assemble, envelope_of.
  set (payload := payload_of s) in *. clearbody payload. set (total := HEADER_BYTES + len payload) in *.
  assert (Hlz : len zeros = 576) by (by rewrite Hz, len_replicate).
  assert (Hl : len (zeros ++ payload) = total) by (by rewrite len_app, Hlz).
  assert (Hlo : 576 <= total) by (unfold total, HEADER_BYTES; lia).
  assert (Hp : total - 576 = len payload) by (unfold total, HEADER_BYTES; lia).
  unfold HEADER_BYTES.
  rewrite (index_range_in 576), (index_range_in 0) by (rewrite ?Hl; lia).
  cbn [mbind outcome_bind].
  rewrite (subslice_after zeros payload 576 _ 576), (subslice_prefix zeros) by done.
  rewrite Hl, Hp, subslice_all, Hz.
  rewrite encode_header_Ok by (apply Ht || apply Hk || apply sha256_length || done).
  rewrite <- Hz, Hp. cbn [mbind outcome_bind].
  pose proof (len_header_image (header_of s) total (len payload) (sha256 payload)
    (checksum (header_of s) total (len payload) (sha256 payload)) (st_header s Ht)
    (sha256_length _) (len_u32_le _)) as Hi.
  apply copy_from_slice_Ok. rewrite Hl, Hi. split_and!; [lia | lia | lia |].
  rewrite <- (app_nil_l (zeros ++ payload)).
  by rewrite splice_between by (done || by rewrite Hi, Hlz).
Qed.

Lemma encode_state_Ok s bytes :
  state_typed s ->
  encode_state s limits = Ok bytes <-> encodable s limits /\ bytes = envelope_of s.
Proof using limits_fit.
  intros Ht. pose proof (lt_envelope _ limits_fit) as Hfit.
  unfold encode_state, ensure_envelope_cap, usize_u64. rewrite (u64_try_from_in _ Hfit).
  cbn [ok_or mbind outcome_bind].
  set (payload := payload_of s). set (total := HEADER_BYTES + len payload).
  split.
  - intros He. apply then_Ok in He as [_ He]. apply then_Ok in He as [Hv He].
    pose proof (validate_state_Ok _ limits_fit _ _ Hv) as Hva.
    apply bind_Ok in He as (ss & Hss & He).
    apply encode_sections_Ok in Hss as [Hc ->]; [|apply Hva].
    apply bind_Ok in He as (n & Hn & He). apply add_section_fold in Hn as [-> Hn]; [|done|done].
    rewrite N.add_0_l in *. change (sections_wire section_tags (section_list s)) with payload in *.
    apply bind_Ok in He as (t & Hto & He). apply ok_or_Ok, checked_add_Some in Hto as [-> Hto].
    fold total in He, Hto. rewrite u64_try_from_in in He by done. cbn [from_option] in He.
    apply then_Ok in He as [Hcap He]. apply refuse_if_Ok, N.ltb_ge in Hcap.
    apply then_Ok in He as [Hg He]. apply bind_Ok in He as (output & Hout & He).
    rewrite push_sections in Hout by (done || (fold (payload_of s); fold payload; unfold total in Hto; lia)).
    injection Hout as <-. change (assemble s total (replicate 576 x00 ++ payload) = Ok bytes) in He.
    unfold total, payload in He.
    rewrite assemble_Ok in He by (done || apply Hva). injection He as <-.
    split; [|done]. by split.
  - intros [[Hv Hc Hcap Hg] ->]. fold payload in Hcap, Hg. fold total in Hcap, Hg.
    assert (Hl : validate_limits limits = Ok tt) by (by apply then_Ok in Hv as [? _]).
    rewrite Hl, Hv. cbn [mbind outcome_bind].
    pose proof (validate_state_Ok _ limits_fit _ _ Hv) as Hva.
    eapply bind_step; [by apply encode_sections_Ok; [apply Hva |] | cbv beta].
    eapply bind_step; [apply add_section_fold; [done | done | split; [reflexivity |]] | cbv beta].
    { change (sections_wire section_tags (section_list s)) with payload. lia. }
    rewrite N.add_0_l. change (sections_wire section_tags (section_list s)) with payload.
    eapply bind_step; [apply ok_or_step, checked_add_in; lia | cbv beta]. fold total.
    rewrite u64_try_from_in by lia. cbn [from_option].
    eapply bind_step; [by apply refuse_step, N.ltb_ge | cbv beta].
    rewrite Hg. cbn [mbind outcome_bind].
    eapply bind_step; [apply push_sections; [done |] | cbv beta].
    { fold (payload_of s). fold payload. unfold total in *. lia. }
    apply (assemble_Ok s (replicate 576 x00)); [done | apply Hva | done |].
    unfold total, payload in *. lia.
Qed.
Lemma fixed_complete s m1 m2 m3 m11 :
  state_typed s -> validated limits s ->
  Forall (fun section => section.1 <= u32_max) (section_list s) ->
  sm_count m1 = len (es_reservations s) -> sm_count m2 = len (lp_relocations (es_layout s)) ->
  sm_count m3 = len (lp_free_after_staging (es_layout s)) ->
  sm_count m11 = len (es_target_features s) ->
  decode_reservations (wire encode_reservation (es_reservations s)) (sm_count m1)
    = Ok (es_reservations s) /\
  decode_relocations (wire encode_relocation (lp_relocations (es_layout s))) (sm_count m2)
    = Ok (lp_relocations (es_layout s)) /\
  decode_ranges (wire encode_range (lp_free_after_staging (es_layout s))) (sm_count m3)
    = Ok (lp_free_after_staging (es_layout s)) /\
  decode_target_features (wire encode_target_feature (es_target_features s)) (sm_count m11)
    = Ok (es_target_features s).
Proof using.
  intros Ht [_ _ [O1 O2 O3 _ _ _] Hf] Hc -> -> -> ->. unfold section_list in Hc.
  rewrite !Forall_cons in Hc. cbn [fst] in Hc. destruct_and!. widths.
  pose proof (features_ok s Ht Hf) as Hfo. destruct Ht as [_ Y1 Y2 Y3 _]. split_and!.
  - apply decode_reservations_Ok; [lia | by apply (len_wire 24 _ reservation_typed) | done].
  - apply decode_relocations_Ok; [lia | by apply (len_wire 48 _ relocation_typed) | done].
  - apply decode_ranges_Ok; [lia | by apply (len_wire 16 _ range_typed) | done].
  - apply decode_target_features_Ok; [lia | | done].
    by apply (len_wire 36 _ feature_ok len_encode_target_feature).
Qed.
End SectionsOf.
