(* ===== verification/Envelope.v ===== *)
(** * The durable envelope is canonical ([conversion/prepared_envelope.rs])

    The decoder accepts exactly what the encoder writes, and a restart from a
    capsule gives back the prepared conversion that began it. *)

From S2P Require Import Prelude Bytes Digest Image Extent Object Overlay Recovery Geometry Planner Relocate Capsule Conversion Prepare EnvelopeWire EnvelopeHeader EnvelopeCodec.
From stdpp Require Import options.
#[local] Open Scope N_scope.

(** ** Decoding *)
(** A section of fixed-size elements holds as many as it says. *)
Lemma fixed_sound {T} width (encode : T -> list byte -> list byte) ok (section : N * list byte) values :
  0 < width -> (forall v, ok v -> len (encode v []) = width) ->
  len section.2 = section.1 * width -> Forall ok values -> wire encode values = section.2 ->
  section = (len values, wire encode values).
Proof.
  intros Hw Hl Hs Hf He. pose proof (len_wire width encode ok Hl values Hf) as Hn.
  rewrite He, Hs in Hn. apply N.mul_cancel_r in Hn; [|lia]. destruct section. simpl in *. congruence.
Qed.

Section Decoding.
Context `{Digests} (limits : PreparedEnvelopeLimits) (limits_fit : limits_typed limits).
Context (bytes : list byte) (bytes_fit : len bytes <= isize_max).

Lemma located_length meta tagged : locates bytes meta tagged -> len tagged.2.2 <= isize_max.
Proof using bytes_fit.
  intros (_ & _ & Hs). unfold section_bytes in Hs. apply index_range_Ok in Hs as (Hlo & Hhi & ->).
  rewrite len_subslice by done. lia.
Qed.

(** Twelve sections, one by one. *)
Lemma located_twelve metas sections :
  length sections = 12%nat -> Forall2 (locates bytes) metas (zip section_tags sections) ->
  exists m1 m2 m3 m4 m5 m6 m7 m8 m9 m10 m11 m12 s1 s2 s3 s4 s5 s6 s7 s8 s9 s10 s11 s12,
    metas = [m1; m2; m3; m4; m5; m6; m7; m8; m9; m10; m11; m12] /\
    sections = [s1; s2; s3; s4; s5; s6; s7; s8; s9; s10; s11; s12] /\
    (locates bytes m1 (1, s1) /\ locates bytes m2 (2, s2) /\ locates bytes m3 (3, s3) /\
     locates bytes m4 (4, s4) /\ locates bytes m5 (5, s5) /\ locates bytes m6 (6, s6)) /\
    (locates bytes m7 (7, s7) /\ locates bytes m8 (8, s8) /\ locates bytes m9 (9, s9) /\
     locates bytes m10 (10, s10) /\ locates bytes m11 (11, s11) /\ locates bytes m12 (12, s12)).
Proof using.
  intros Hl Hf. do 12 (destruct sections as [|? sections]; [done |]).
  destruct sections; [|done]. cbn [zip zip_with section_tags] in Hf.
  repeat match goal with
  | Hx : Forall2 _ ?ms (_ :: _) |- _ =>
      apply Forall2_cons_inv_r in Hx as (? & ? & ? & Hx & ->)
  | Hx : Forall2 _ ?ms [] |- _ => apply Forall2_nil_inv_r in Hx as ->
  end.
  do 24 eexists. split; [reflexivity |]. split; [reflexivity |]. split_and!; assumption.
Qed.

(** A section that decodes. *)
Lemma read_section {T A} meta tagged (decode : list byte -> envelope T) values
    (k : T -> envelope A) :
  locates bytes meta tagged -> decode tagged.2.2 = Ok values ->
  (data ← section_bytes bytes meta; value ← decode data; k value) = k values.
Proof using. intros (_ & _ & Hb) Hd. rewrite Hb. cbn [mbind outcome_bind]. by rewrite Hd. Qed.

Lemma reserved_complete meta tag values :
  locates bytes meta (tag, (len values, writes_wire reserved_write_wire values)) ->
  reserved_group_ok (tag, values) -> len values <= u32_max ->
  sum_by reserved_length values <= pl_max_write_bytes limits ->
  decode_reserved_writes (writes_wire reserved_write_wire values) meta limits = Ok values.
Proof using limits_fit bytes_fit.
  intros Hm [Ho Hf] Hc Hs. pose proof (located_length _ _ Hm) as Hl. destruct Hm as (Ht & Hn & _).
  cbn [fst snd] in *. widths.
  apply decode_reserved_writes_Ok; [apply (lt_write _ limits_fit) | done | lia |].
  rewrite Ht, Hn. done.
Qed.
Lemma rollback_complete meta tag values :
  locates bytes meta (tag, (len values, writes_wire entry values)) ->
  rollback_group_ok (tag, values) -> len values <= u32_max ->
  sum_by ow_length values <= pl_max_write_bytes limits ->
  decode_rollback_writes (writes_wire entry values) meta limits = Ok values.
Proof using limits_fit bytes_fit.
  intros Hm [Ho Hf] Hc Hs. pose proof (located_length _ _ Hm) as Hl. destruct Hm as (Ht & Hn & _).
  cbn [fst snd] in *. widths.
  apply decode_rollback_writes_Ok; [apply (lt_write _ limits_fit) | done | lia |].
  rewrite Ht, Hn. done.
Qed.

Lemma decode_sections_complete h metas s :
  header_of s = h -> state_typed s -> validated limits s ->
  Forall (fun section => section.1 <= u32_max) (section_list s) ->
  Forall2 (locates bytes) metas (zip section_tags (section_list s)) ->
  decode_sections bytes limits h metas = Ok s.
Proof using limits_fit bytes_fit.
  intros <- Ht Hva Hc Hm.
  destruct (located_twelve metas (section_list s) eq_refl Hm) as (m1 & m2 & m3 & m4 & m5 & m6 & m7 &
    m8 & m9 & m10 & m11 & m12 & s1 & s2 & s3 & s4 & s5 & s6 & s7 & s8 & s9 & s10 & s11 & s12 &
    -> & Hs & (M1 & M2 & M3 & M4 & M5 & M6) & M7 & M8 & M9 & M10 & M11 & M12).
  unfold section_list in Hs. injection Hs as <- <- <- <- <- <- <- <- <- <- <- <-.
  destruct (fixed_complete limits s m1 m2 m3 m11 Ht Hva Hc) as (D1 & D2 & D3 & D11);
    [apply M1 | apply M2 | apply M3 | apply M11 |].
  destruct Hva as [_ [_ Hw _] [_ _ _ [Hmat Hmb] Hr Hb] _].
  unfold chained_writes in Hw. rewrite !sum_by_app, !sum_reserved_writes in Hw.
  unfold section_list in Hc. rewrite !Forall_cons in Hc. rewrite !Forall_cons in Hr.
  rewrite !Forall_cons in Hb. cbn [fst] in Hc. destruct_and!.
  pose proof (fun H1 H2 H3 => reserved_complete _ _ _ M4 H1 H2 H3) as D4.
  pose proof (fun H1 H2 H3 => reserved_complete _ _ _ M5 H1 H2 H3) as D5.
  pose proof (fun H1 H2 H3 => reserved_complete _ _ _ M6 H1 H2 H3) as D6.
  pose proof (fun H1 H2 H3 => rollback_complete _ _ _ M7 H1 H2 H3) as D7.
  pose proof (fun H1 H2 H3 => rollback_complete _ _ _ M8 H1 H2 H3) as D8.
  pose proof (fun H1 H2 H3 => rollback_complete _ _ _ M9 H1 H2 H3) as D9.
  pose proof (fun H1 H2 H3 => rollback_complete _ _ _ M12 H1 H2 H3) as D12.
  unfold decode_sections.
  rewrite (read_section _ _ (fun d => decode_reservations d _) _ _ M1 D1),
    (read_section _ _ (fun d => decode_relocations d _) _ _ M2 D2),
    (read_section _ _ (fun d => decode_ranges d _) _ _ M3 D3),
    (read_section _ _ (fun d => decode_reserved_writes d _ _) _ _ M4 (D4 ltac:(done) ltac:(done) ltac:(lia))),
    (read_section _ _ (fun d => decode_reserved_writes d _ _) _ _ M5 (D5 ltac:(done) ltac:(done) ltac:(lia))),
    (read_section _ _ (fun d => decode_reserved_writes d _ _) _ _ M6 (D6 ltac:(done) ltac:(done) ltac:(lia))),
    (read_section _ _ (fun d => decode_rollback_writes d _ _) _ _ M7 (D7 ltac:(done) ltac:(done) ltac:(lia))),
    (read_section _ _ (fun d => decode_rollback_writes d _ _) _ _ M8 (D8 ltac:(done) ltac:(done) ltac:(lia))),
    (read_section _ _ (fun d => decode_rollback_writes d _ _) _ _ M9 (D9 ltac:(done) ltac:(done) ltac:(lia))),
    (read_section _ _ copy_bounded _ _ M10 eq_refl),
    (read_section _ _ (fun d => decode_rollback_writes d _ _) _ _ M12 (D12 ltac:(done) ltac:(done) ltac:(lia))),
    (read_section _ _ (fun d => decode_target_features d _) _ _ M11 D11).
  cbn [snd fst]. destruct s as [? ? ? ? ? ? ? ? ? ? ? ? ? lay wr ? ? ?]. simpl in *.
  destruct lay, wr. simpl in *. by subst.
Qed.

Lemma read_section_inv {T A} meta tagged (decode : list byte -> envelope T)
    (k : T -> envelope A) r :
  locates bytes meta tagged ->
  (data ← section_bytes bytes meta; value ← decode data; k value) = Ok r ->
  exists value, decode tagged.2.2 = Ok value /\ k value = Ok r.
Proof using. intros (_ & _ & Hb). rewrite Hb. cbn [mbind outcome_bind]. by rewrite bind_Ok. Qed.

Lemma reserved_sound meta tag section values :
  locates bytes meta (tag, section) -> section.1 <= u32_max ->
  decode_reserved_writes section.2 meta limits = Ok values ->
  section = (len values, writes_wire reserved_write_wire values).
Proof using limits_fit bytes_fit.
  intros Hm Hc Hd. pose proof (located_length _ _ Hm) as Hl. destruct Hm as (_ & Hn & _).
  cbn [fst snd] in *. widths.
  apply decode_reserved_writes_Ok in Hd as (Hv & _ & Hw & _);
    [|apply (lt_write _ limits_fit) | done | lia].
  destruct section. simpl in *. congruence.
Qed.
Lemma rollback_sound meta tag section values :
  locates bytes meta (tag, section) -> section.1 <= u32_max ->
  decode_rollback_writes section.2 meta limits = Ok values ->
  section = (len values, writes_wire entry values).
Proof using limits_fit bytes_fit.
  intros Hm Hc Hd. pose proof (located_length _ _ Hm) as Hl. destruct Hm as (_ & Hn & _).
  cbn [fst snd] in *. widths.
  apply decode_rollback_writes_Ok in Hd as (Hv & _ & Hw & _);
    [|apply (lt_write _ limits_fit) | done | lia].
  destruct section. simpl in *. congruence.
Qed.

Lemma decode_sections_sound h metas sections s :
  length sections = 12%nat -> Forall2 (locates bytes) metas (zip section_tags sections) ->
  budget limits section_tags sections 0 0 ->
  decode_sections bytes limits h metas = Ok s ->
  header_of s = h /\ section_list s = sections /\
  Forall reservation_typed (es_reservations s) /\
  Forall relocation_typed (lp_relocations (es_layout s)) /\
  Forall range_typed (lp_free_after_staging (es_layout s)) /\
  Forall feature_typed (es_target_features s).
Proof using limits_fit bytes_fit.
  intros Hl Hm Hb Hd. widths.
  destruct (located_twelve metas sections Hl Hm) as (m1 & m2 & m3 & m4 & m5 & m6 & m7 &
    m8 & m9 & m10 & m11 & m12 & s1 & s2 & s3 & s4 & s5 & s6 & s7 & s8 & s9 & s10 & s11 & s12 &
    -> & -> & (M1 & M2 & M3 & M4 & M5 & M6) & M7 & M8 & M9 & M10 & M11 & M12).
  unfold budget, section_tags, admissible in Hb.
  cbv [N.eqb Pos.eqb fixed_unit RECOVERY_PAYLOAD RESERVATIONS RELOCATIONS FREE_RANGES
    TARGET_FEATURES] in Hb. destruct_and!.
  unfold decode_sections in Hd.
  apply (read_section_inv _ _ (fun d => decode_reservations d _) _ _ M1) in Hd as (v1 & D1 & Hd).
  apply (read_section_inv _ _ (fun d => decode_relocations d _) _ _ M2) in Hd as (v2 & D2 & Hd).
  apply (read_section_inv _ _ (fun d => decode_ranges d _) _ _ M3) in Hd as (v3 & D3 & Hd).
  apply (read_section_inv _ _ (fun d => decode_reserved_writes d _ _) _ _ M4) in Hd as (v4 & D4 & Hd).
  apply (read_section_inv _ _ (fun d => decode_reserved_writes d _ _) _ _ M5) in Hd as (v5 & D5 & Hd).
  apply (read_section_inv _ _ (fun d => decode_reserved_writes d _ _) _ _ M6) in Hd as (v6 & D6 & Hd).
  apply (read_section_inv _ _ (fun d => decode_rollback_writes d _ _) _ _ M7) in Hd as (v7 & D7 & Hd).
  apply (read_section_inv _ _ (fun d => decode_rollback_writes d _ _) _ _ M8) in Hd as (v8 & D8 & Hd).
  apply (read_section_inv _ _ (fun d => decode_rollback_writes d _ _) _ _ M9) in Hd as (v9 & D9 & Hd).
  apply (read_section_inv _ _ copy_bounded _ _ M10) in Hd as (v10 & [= D10] & Hd).
  apply (read_section_inv _ _ (fun d => decode_rollback_writes d _ _) _ _ M12) in Hd as (v12 & D12 & Hd).
  apply (read_section_inv _ _ (fun d => decode_target_features d _) _ _ M11) in Hd as (v11 & D11 & Hd).
  injection Hd as <-. cbn [fst snd] in *.
  pose proof (proj1 (proj2 M1)) as C1. pose proof (proj1 (proj2 M2)) as C2.
  pose proof (proj1 (proj2 M3)) as C3. pose proof (proj1 (proj2 M11)) as C11. cbn [fst snd] in *.
  apply decode_reservations_Ok in D1 as (Y1 & E1 & _); [|lia | by rewrite C1].
  apply decode_relocations_Ok in D2 as (Y2 & E2 & _); [|lia | by rewrite C2].
  apply decode_ranges_Ok in D3 as (Y3 & E3 & _); [|lia | by rewrite C3].
  apply decode_target_features_Ok in D11 as (Y11 & E11 & _); [|lia | by rewrite C11].
  apply (fixed_sound 24 _ reservation_typed s1) in E1 as ->; [|done|done|done|exact Y1].
  apply (fixed_sound 48 _ relocation_typed s2) in E2 as ->; [|done|done|done|exact Y2].
  apply (fixed_sound 16 _ range_typed s3) in E3 as ->; [|done|done|done|exact Y3].
  apply (fixed_sound 36 _ feature_ok s11) in E11 as ->; [|done|exact len_encode_target_feature|done|exact Y11].
  apply (reserved_sound _ _ s4 _ M4) in D4 as ->; [|done].
  apply (reserved_sound _ _ s5 _ M5) in D5 as ->; [|done].
  apply (reserved_sound _ _ s6 _ M6) in D6 as ->; [|done].
  apply (rollback_sound _ _ s7 _ M7) in D7 as ->; [|done].
  apply (rollback_sound _ _ s8 _ M8) in D8 as ->; [|done].
  apply (rollback_sound _ _ s9 _ M9) in D9 as ->; [|done].
  apply (rollback_sound _ _ s12 _ M12) in D12 as ->; [|done].
  destruct s10 as [c10 d10]. simpl in *. subst. split; [by destruct h |].
  split; [reflexivity |]. split_and!; try done. eapply Forall_impl; [exact Y11 |]. by intros v [].
Qed.

Lemma budget_counts tags : forall sections entries written,
  length sections = length tags -> budget limits tags sections entries written ->
  Forall (fun section => section.1 <= u32_max) sections.
Proof using.
  induction tags as [|tag tags IH]; intros [|section sections] entries written Hl Hb; try done.
  injection Hl as Hl. destruct Hb as (Hc & _ & Hb). constructor; [done | by eapply IH].
Qed.

Lemma len_envelope_of s :
  state_typed s -> len (envelope_of s) = HEADER_BYTES + len (payload_of s).
Proof using.
  intros Ht. unfold envelope_of. rewrite len_app, len_header_image; [done | apply Ht | |done].
  apply sha256_length.
Qed.

Lemma decode_state_sound s :
  decode_state bytes limits = Ok s ->
  state_typed s /\ encodable s limits /\ bytes = envelope_of s.
Proof using limits_fit bytes_fit.
  intros Hd. pose proof isize_lt_u64. widths. pose proof (lt_envelope _ limits_fit) as Hle.
  unfold decode_state, ensure_envelope_cap, usize_u64 in Hd.
  rewrite (u64_try_from_in (len bytes)), (u64_try_from_in _ Hle) in Hd by lia.
  cbn [from_option ok_or mbind outcome_bind] in Hd.
  apply then_Ok in Hd as [_ Hd]. apply then_Ok in Hd as [Hcap Hd]. apply refuse_if_Ok, N.ltb_ge in Hcap.
  apply then_Ok in Hd as [Hlo Hd]. apply refuse_if_Ok, N.ltb_ge in Hlo.
  apply then_Ok in Hd as [Hvh Hd]. apply bind_Ok in Hd as (total & Htot & Hd).
  apply then_Ok in Hd as [Heq Hd]. apply refuse_if_Ok, negb_false_iff, N.eqb_eq in Heq. subst total.
  apply bind_Ok in Hd as (plen & Hpl & Hd). unfold HEADER_BYTES in *.
  rewrite sub_u64_in in Hd by done. cbn [mbind outcome_bind] in Hd.
  rewrite (u64_try_from_in (len bytes - 576)) in Hd by lia. cbn [from_option] in Hd.
  apply then_Ok in Hd as [Heq Hd]. apply refuse_if_Ok, negb_false_iff, N.eqb_eq in Heq. subst plen.
  rewrite (index_range_in 576) in Hd by (done || lia). cbn [mbind outcome_bind] in Hd.
  apply bind_Ok in Hd as (digest & Hdg & Hd).
  apply then_Ok in Hd as [Heq Hd]. apply refuse_if_Ok, negb_false_iff, bool_decide_eq_true in Heq.
  subst digest. apply bind_Ok in Hd as (count & Hcount & Hd).
  apply bind_Ok in Hd as (expected & [= <-] & Hd).
  apply then_Ok in Hd as [Heq Hd]. apply refuse_if_Ok, negb_false_iff, N.eqb_eq in Heq. subst count.
  apply bind_Ok in Hd as (h & Hh & Hd). apply then_Ok in Hd as [Hgen Hd].
  apply bind_Ok in Hd as (metas & Hscan & Hd). apply bind_Ok in Hd as (s' & Hsec & Hd).
  apply then_Ok in Hd as [Hval [= ->]].
  destruct (proj1 (header_Ok bytes h (len bytes) (len bytes - 576) (sha256 (subslice 576 (len bytes) bytes))
    Hlo ltac:(lia))) as (Hht & Hk & _ & _ & _ & Himg); [split_and!; assumption |].
  apply (scan_sections_Ok limits limits_fit bytes bytes_fit metas Hlo) in Hscan
    as (sections & Hlen & Hbud & -> & Hpay).
  destruct (metas_locate limits limits_fit bytes bytes_fit section_tags sections (mkScanState [] 576 0 0))
    as (ms & Hms & Hloc); [done | | |].
  { rewrite <- Hpay, len_subslice by done. simpl. lia. }
  { rewrite <- Hpay, len_subslice by done. simpl sc_cursor. by replace (576 + (len bytes - 576)) with (len bytes) by lia. }
  rewrite Hms in Hsec. cbn [sc_metas app] in Hsec.
  destruct (decode_sections_sound h ms sections s Hlen Hloc Hbud Hsec) as (Hhs & Hss & Y1 & Y2 & Y3 & Y4).
  assert (Ht : state_typed s) by (split; [by rewrite Hhs | done..]).
  assert (Hp : payload_of s = subslice 576 (len bytes) bytes) by (unfold payload_of; by rewrite Hss).
  assert (Hlp : len (payload_of s) = len bytes - 576) by (rewrite Hp, len_subslice; done).
  assert (Htotal : HEADER_BYTES + len (payload_of s) = len bytes) by (rewrite Hlp; unfold HEADER_BYTES; lia).
  split; [done |]. split.
  - split; [done | | by rewrite Htotal | rewrite Htotal].
    + rewrite Hss. exact (budget_counts section_tags _ 0 0 Hlen Hbud).
    + by rewrite <- Hhs in Hgen.
  - unfold envelope_of. rewrite Htotal, Hhs, Hlp, Hp, <- Himg.
    by rewrite subslice_split, subslice_all by (done || lia).
Qed.

Lemma decode_state_complete s :
  state_typed s -> encodable s limits -> bytes = envelope_of s ->
  decode_state bytes limits = Ok s.
Proof using limits_fit bytes_fit.
  intros Ht [Hv Hc Hcap Hgen] Hb. pose proof isize_lt_u64. widths.
  pose proof (lt_envelope _ limits_fit) as Hle. pose proof (len_envelope_of s Ht) as Hlen.
  rewrite <- Hb in Hlen. set (payload := payload_of s) in *. unfold HEADER_BYTES in Hlen.
  pose proof (validate_state_Ok _ limits_fit _ _ Hv) as Hva.
  pose proof (len_header_image (header_of s) (576 + len payload) (len payload) (sha256 payload)
    (checksum (header_of s) (576 + len payload) (len payload) (sha256 payload)) (st_header s Ht)
    (sha256_length _) (len_u32_le _)) as Hi.
  unfold envelope_of in Hb. fold payload in Hb. unfold HEADER_BYTES in Hb.
  assert (Himg : subslice 0 576 bytes = header_image (header_of s) (len bytes) (len bytes - 576)
    (sha256 payload) (checksum (header_of s) (len bytes) (len bytes - 576) (sha256 payload))).
  { rewrite Hlen. replace (576 + len payload - 576) with (len payload) by lia.
    rewrite Hb. by apply subslice_prefix. }
  assert (Hpay : subslice 576 (len bytes) bytes = payload).
  { rewrite Hlen, Hb. rewrite (subslice_after _ _ _ _ 576) by done.
    replace (576 + len payload - 576) with (len payload) by lia. apply subslice_all. }
  destruct (proj2 (header_Ok bytes (header_of s) (len bytes) (len bytes - 576) (sha256 payload)
    ltac:(lia) ltac:(lia))) as (Hvh & Htot & Hpl & Hdg & Hcount & Hh).
  { split_and!; try done; [apply Ht | apply Hva | lia | lia | apply sha256_length]. }
  unfold decode_state, ensure_envelope_cap, usize_u64.
  rewrite (u64_try_from_in (len bytes)), (u64_try_from_in _ Hle) by lia.
  cbn [from_option ok_or mbind outcome_bind].
  assert (Hl : validate_limits limits = Ok tt) by (by apply then_Ok in Hv as [? _]).
  rewrite Hl. cbn [mbind outcome_bind].
  eapply bind_step; [by apply refuse_step, N.ltb_ge; rewrite Hlen | cbv beta].
  eapply bind_step; [apply refuse_step, N.ltb_ge; unfold HEADER_BYTES; lia | cbv beta].
  rewrite Hvh, Htot. cbn [mbind outcome_bind]. rewrite N.eqb_refl. cbn [negb refuse_if mbind outcome_bind].
  rewrite Hpl. cbn [mbind outcome_bind]. unfold HEADER_BYTES. rewrite sub_u64_in by lia.
  cbn [mbind outcome_bind]. rewrite (u64_try_from_in (len bytes - 576)) by lia. cbn [from_option].
  rewrite N.eqb_refl. cbn [negb refuse_if mbind outcome_bind].
  rewrite (index_range_in 576) by lia. cbn [mbind outcome_bind]. rewrite Hpay, Hdg.
  cbn [mbind outcome_bind]. rewrite bool_decide_true by done. cbn [negb refuse_if mbind outcome_bind].
  rewrite Hcount. cbn [mbind outcome_bind].
  eapply bind_step; [reflexivity | cbv beta]. eapply bind_step; [reflexivity | cbv beta].
  rewrite Hh. cbn [mbind outcome_bind].
  eapply bind_step; [rewrite Hlen; exact Hgen | cbv beta].
  pose proof (section_budget limits s Ht Hva Hc) as Hbud.
  destruct (metas_locate limits limits_fit bytes bytes_fit section_tags (section_list s)
    (mkScanState [] 576 0 0)) as (ms & Hms & Hloc); [done | | |].
  { fold (payload_of s). fold payload. simpl. lia. }
  { fold (payload_of s). fold payload. cbn [sc_cursor]. by rewrite <- Hlen. }
  eapply bind_step.
  { apply (scan_sections_Ok limits limits_fit bytes bytes_fit); [lia |].
    exists (section_list s). split_and!; [done | done | exact (eq_sym Hms) | exact Hpay]. }
  cbv beta. cbn [sc_metas app]. rewrite (decode_sections_complete (header_of s) ms s) by done.
  cbn [mbind outcome_bind]. by rewrite Hv.
Qed.
End Decoding.

(** ** No aborts *)
Section Safe.
Context `{Digests} (limits : PreparedEnvelopeLimits) (limits_fit : limits_typed limits).

Lemma invariant_safe {A} (m : conversion A) : m <> Panic -> invariant m <> Panic.
Proof using. apply map_err_safe. Qed.

Lemma validate_counts_safe s : validate_counts_and_bytes s limits <> Panic.
Proof using. unfold validate_counts_and_bytes, usize_u64, add_count. safe. Qed.
Lemma envelope_ranges_safe s : validate_ranges s <> Panic.
Proof using.
  unfold validate_ranges, validate_range, validate_write, add_relocated, usize_u64.
  safe; apply ensure_order_safe.
Qed.
Lemma validate_state_safe s :
  len (es_recovery_payload s) <= isize_max -> validate_state s limits <> Panic.
Proof using.
  intros Hr. unfold validate_state, validate_limits, usize_u64. cbv zeta. safe.
  - apply validate_counts_safe.
  - apply envelope_ranges_safe.
  - apply validate_target_features_safe.
  - apply invariant_safe. unfold validate_required_reservations. safe.
  - apply invariant_safe, validate_reserved_safe.
  - apply invariant_safe. unfold validate_rollback_pairing, check_pairing. safe.
  - apply invariant_safe. unfold validate_relocation_before_image_ranges. safe.
  - by apply decode_safe.
Qed.

Context (bytes : list byte) (bytes_fit : len bytes <= isize_max).

Lemma read_safe n o : o + n <= 576 -> array n bytes o <> Panic.
Proof using bytes_fit.
  intros Ho. apply array_safe. widths. lia.
Qed.
Lemma validate_header_safe : 576 <= len bytes -> validate_header bytes <> Panic.
Proof using bytes_fit.
  intros Hl. unfold validate_header, HEADER_BYTES, HEADER_CRC_OFFSET, read_u16, read_u32, header_crc,
    HEADER_BYTES, HEADER_CRC_OFFSET.
  safe; try (apply index_range_safe; lia); try (apply read_safe; lia).
  - inv_reads. apply index_range_safe; [lia |]. rewrite len_subslice; lia.
  - inv_reads. apply copy_from_slice_safe; [lia | | done].
    rewrite len_subslice; rewrite ?len_subslice; lia.
Qed.
Lemma envelope_header_safe : 576 <= len bytes -> decode_header bytes <> Panic.
Proof using bytes_fit.
  intros Hl. unfold decode_header, read_usize, read_u64, read_u32, array_16, array_32.
  safe; try (apply at_index_safe; lia); try (apply read_safe; lia);
    match goal with |- context [Byte.to_N ?b] => by destruct b end.
Qed.

Lemma scan_checks_safe tag count length n :
  scan_count tag count length n limits <> Panic /\
  scan_write_bytes tag count length n limits <> Panic /\
  validate_fixed_section_len tag count length <> Panic.
Proof using.
  unfold scan_count, scan_write_bytes, validate_fixed_section_len, usize_u64.
  split_and!; [by safe | by safe |]. destruct (fixed_unit tag); by safe.
Qed.
Lemma scan_section_safe state tag :
  sc_cursor state <= len bytes -> scan_section bytes limits state tag <> Panic.
Proof using bytes_fit.
  intros Hc. widths.
  unfold scan_section, SECTION_HEADER_BYTES, array_32, read_u16, read_u32, read_u64, usize_u64.
  apply bind_safe; [apply ok_or_safe |]. intros he Hhe. apply ok_or_Ok, checked_add_Some in Hhe as [-> _].
  apply bind_safe; [apply refuse_if_safe |]. intros u Hu. apply refuse_if_Ok, N.ltb_ge in Hu.
  apply bind_safe; [apply bind_safe; [apply array_safe; lia | done] |]. intros t _.
  apply bind_safe; [apply refuse_if_safe |]. intros _ _.
  apply bind_safe; [apply index_range_safe; lia |]. intros z _.
  apply bind_safe; [apply refuse_if_safe |]. intros _ _.
  apply bind_safe; [apply bind_safe; [apply array_safe; lia | done] |]. intros count _.
  apply bind_safe; [apply bind_safe; [apply array_safe; lia | done] |]. intros n _.
  apply bind_safe; [apply scan_checks_safe; exact 0 |]. intros e _.
  apply bind_safe; [apply ok_or_safe |]. intros ds Hds. apply ok_or_Ok, u64_try_from_Some in Hds as [-> _].
  apply bind_safe; [apply ok_or_safe |]. intros de Hde. apply ok_or_Ok, checked_add_Some in Hde as [-> _].
  apply bind_safe; [apply ok_or_safe |]. intros de Hde. apply ok_or_Ok, usize_try_from_Some in Hde as [-> _].
  apply bind_safe; [apply refuse_if_safe |]. intros ? Hle. apply refuse_if_Ok, N.ltb_ge in Hle.
  apply bind_safe; [apply index_range_safe; lia |]. intros data _.
  apply bind_safe; [apply array_safe; lia |]. intros digest _.
  apply bind_safe; [apply refuse_if_safe |]. intros _ _.
  apply bind_safe; [apply scan_checks_safe |]. intros w _.
  apply bind_safe; [apply scan_checks_safe; exact 0 | done].
Qed.

(** The sections of fixed-size elements, read in chunks of their width. *)
Lemma decode_chunked_safe {T} width (decode : list byte -> envelope T)
    (check : list T -> envelope unit) data count :
  0 < width -> (forall chunk, len chunk = width -> decode chunk <> Panic) ->
  (forall output, check output <> Panic) ->
  (output ← @bounded_vec T count;
   output ← try_fold (push_chunk decode) output (chunks_exact width data);
   check output ;; Ok output) <> Panic.
Proof using.
  intros Hw Hd Hc. unfold bounded_vec. apply bind_safe; [apply bind_safe; [apply ok_or_safe | done] |].
  intros o Ho. apply bind_Ok in Ho as (? & _ & [= <-]).
  apply bind_safe; [by apply decode_fixed_safe |]. intros output _.
  apply bind_safe; [apply Hc | done].
Qed.
Lemma decode_reservations_safe data count : decode_reservations data count <> Panic.
Proof using.
  apply decode_chunked_safe; [done | apply decode_reservation_safe | intros; apply ensure_order_safe].
Qed.
Lemma decode_relocations_safe data count : decode_relocations data count <> Panic.
Proof using.
  apply decode_chunked_safe; [done | apply decode_relocation_safe | intros; apply ensure_order_safe].
Qed.
Lemma decode_ranges_safe data count : decode_ranges data count <> Panic.
Proof using.
  apply decode_chunked_safe; [done | apply decode_range_safe | intros; apply ensure_order_safe].
Qed.
Lemma decode_target_features_safe data count : decode_target_features data count <> Panic.
Proof using.
  apply decode_chunked_safe; [done | apply decode_target_feature_safe |
    intros; apply validate_target_features_safe].
Qed.

Lemma decode_sections_safe h metas sections :
  length sections = 12%nat -> Forall2 (locates bytes) metas (zip section_tags sections) ->
  decode_sections bytes limits h metas <> Panic.
Proof using limits_fit bytes_fit.
  intros Hl Hm. pose proof (lt_write _ limits_fit) as Hlw.
  destruct (located_twelve bytes metas sections Hl Hm) as (m1 & m2 & m3 & m4 & m5 & m6 & m7 &
    m8 & m9 & m10 & m11 & m12 & s1 & s2 & s3 & s4 & s5 & s6 & s7 & s8 & s9 & s10 & s11 & s12 &
    -> & -> & (M1 & M2 & M3 & M4 & M5 & M6) & M7 & M8 & M9 & M10 & M11 & M12).
  assert (Hb : forall m tagged, locates bytes m tagged -> section_bytes bytes m <> Panic)
    by (intros m tagged (_ & _ & ->); done).
  assert (Hd : forall m d, section_bytes bytes m = Ok d -> len d <= isize_max).
  { intros m d Hd. unfold section_bytes in Hd. apply index_range_Ok in Hd as (? & ? & ->).
    rewrite len_subslice by done. lia. }
  assert (Hk : forall {A T} m tagged (decode : list byte -> envelope A) (k : A -> envelope T),
    locates bytes m tagged -> (forall d, len d <= isize_max -> decode d <> Panic) ->
    (forall v, k v <> Panic) ->
    (data ← section_bytes bytes m; value ← decode data; k value) <> Panic).
  { intros A T m tagged decode k Hlo Hs Hx. apply bind_safe; [by eapply Hb |]. intros d Hsec.
    apply bind_safe; [apply Hs; by eapply Hd | done]. }
  pose proof (fun m d Hfit => decode_reserved_writes_safe limits Hlw d m Hfit) as Hres.
  pose proof (fun m d Hfit => decode_rollback_writes_safe limits Hlw d m Hfit) as Hrol.
  unfold decode_sections.
  eapply Hk; [exact M1 | intros; apply decode_reservations_safe | intros v1].
  eapply Hk; [exact M2 | intros; apply decode_relocations_safe | intros v2].
  eapply Hk; [exact M3 | intros; apply decode_ranges_safe | intros v3].
  eapply Hk; [exact M4 | apply Hres | intros v4]. eapply Hk; [exact M5 | apply Hres | intros v5].
  eapply Hk; [exact M6 | apply Hres | intros v6]. eapply Hk; [exact M7 | apply Hrol | intros v7].
  eapply Hk; [exact M8 | apply Hrol | intros v8]. eapply Hk; [exact M9 | apply Hrol | intros v9].
  eapply Hk; [exact M10 | done | intros v10]. eapply Hk; [exact M12 | apply Hrol | intros v12].
  eapply Hk; [exact M11 | intros; apply decode_target_features_safe | done].
Qed.

Lemma scanned_sections metas :
  576 <= len bytes -> scan_sections bytes limits = Ok metas ->
  exists sections, length sections = 12%nat /\ budget limits section_tags sections 0 0 /\
    Forall2 (locates bytes) metas (zip section_tags sections).
Proof using limits_fit bytes_fit.
  intros Hlo Hscan. apply (scan_sections_Ok limits limits_fit bytes bytes_fit _ Hlo) in Hscan
    as (sections & Hlen & Hbud & -> & Hpay).
  destruct (metas_locate limits limits_fit bytes bytes_fit section_tags sections (mkScanState [] 576 0 0))
    as (ms & Hms & Hloc); [done | | |].
  { rewrite <- Hpay, len_subslice by done. simpl. lia. }
  { rewrite <- Hpay, len_subslice by done. simpl sc_cursor. by replace (576 + (len bytes - 576)) with (len bytes) by lia. }
  exists sections. rewrite Hms. done.
Qed.

Lemma decode_state_safe : decode_state bytes limits <> Panic.
Proof using limits_fit bytes_fit.
  widths. unfold decode_state, validate_limits, ensure_envelope_cap, usize_u64.
  apply bind_safe; [safe |]. intros _ _. apply bind_safe; [safe |]. intros _ _.
  apply bind_safe; [safe |]. intros u Hlo. apply refuse_if_Ok, N.ltb_ge in Hlo. unfold HEADER_BYTES in *.
  apply bind_safe; [by apply validate_header_safe |]. intros _ _.
  unfold read_u64, read_u32, array_32. safe; try (apply read_safe; lia).
  - apply sub_u64_safe. lia.
  - apply index_range_safe; lia.
  - by apply envelope_header_safe.
  - unfold validate_envelope_generation, from_conversion_error, validate_initial_capsule_generation.
    safe.
  - unfold scan_sections. apply bind_safe; [|intros; unfold usize_u64; safe].
    apply (yields_safe (fun st => sc_cursor st <= len bytes)), yields_fold;
      [unfold HEADER_BYTES; simpl; lia |].
    intros st tag Htag Hst. apply yields_intro; [by apply scan_section_safe |].
    intros st' Hs. apply scan_section_Ok in Hs as (_ & _ & _ & _ & ? & _); try done.
    revert Htag. clear. unfold section_tags. rewrite !elem_of_cons, elem_of_nil. widths. lia.
  - rename select (scan_sections _ _ = _) into Hscan.
    apply scanned_sections in Hscan as (sections & Hlen & _ & Hloc); [|done].
    by eapply decode_sections_safe.
  - rename select (scan_sections _ _ = _) into Hscan. rename select (decode_sections _ _ _ _ = _) into Hsec.
    apply scanned_sections in Hscan as (sections & Hlen & Hbud & Hloc); [|done].
    apply (decode_sections_sound limits limits_fit bytes bytes_fit _ _ _ _ Hlen Hloc Hbud)
      in Hsec as (_ & <- & _).
    apply validate_state_safe. apply (located_twelve bytes) in Hloc as (? & ? & ? & ? & ? & ? & ? & ? & ? &
      m10 & ? & ? & ? & ? & ? & ? & ? & ? & ? & ? & ? & ? & ? & ? & _ & [= <- <- <- <- <- <- <- <- <- <- <- <-] &
      _ & _ & _ & _ & M10 & _); [|done].
    by apply (located_length bytes bytes_fit) in M10.
Qed.
End Safe.

(** ** The codec as the coordinator uses it *)
Lemma disjoint_offsets ws :
  Forall (fun w => 0 < ow_length w) ws -> writes_disjoint ws -> NoDup (ow_offset <$> ws).
Proof.
  intros Hp Hd. induction ws as [|w ws IH]; [constructor |].
  apply Forall_cons in Hp as [Hw Hp]. apply StronglySorted_inv in Hd as [Hd Hf].
  constructor; [|by apply IH]. intros (v & Hv & Hin)%list_elem_of_fmap.
  rewrite Forall_forall in Hf, Hp. specialize (Hf v Hin). specialize (Hp v Hin). unfold apart, before in Hf. lia.
Qed.

(** Sorted writes of a plan are not reordered. *)
Lemma sort_admissible ib sb ws lim :
  overlay_admissible ib sb ws lim -> StronglySorted (le_key ow_offset) ws ->
  sort_by_key ow_offset ws = ws.
Proof.
  intros (_ & _ & _ & _ & Hw & _ & Hd) Hs. symmetry. apply sort_by_key_unique; [|done | done].
  apply disjoint_offsets; [|done]. eapply Forall_impl; [exact Hw | by intros w []].
Qed.

(** A plan with another bound on the length of a read. *)
Definition with_read_bound (bound : N) (plan : OverlayPlan) : OverlayPlan :=
  mkOverlayPlan (op_image_bytes plan) (op_sector_bytes plan) (op_writes plan)
    (op_replacement_bytes plan) bound.
(** What a restart holds: the prepared conversion, its overlays under the
    envelope's own bound on the length of a read. *)
Definition restarted (p : PreparedConversion) : PreparedConversion :=
  let overlay := with_read_bound (pl_max_read_bytes PreparedEnvelopeLimits_default) in {|
    pc_identity := pc_identity p;
    pc_preflight := pc_preflight p;
    pc_target_filesystem := pc_target_filesystem p;
    pc_target_features := pc_target_features p;
    pc_source_graph_digest := pc_source_graph_digest p;
    pc_target_graph_digest := pc_target_graph_digest p;
    pc_plan_digest := pc_plan_digest p;
    pc_candidate_overlay_digest := pc_candidate_overlay_digest p;
    pc_relocation_rollback_digest := pc_relocation_rollback_digest p;
    pc_staging_rollback_digest := pc_staging_rollback_digest p;
    pc_preactivation_rollback_digest := pc_preactivation_rollback_digest p;
    pc_full_rollback_digest := pc_full_rollback_digest p;
    pc_reservations := pc_reservations p;
    pc_layout := pc_layout p;
    pc_writes := pc_writes p;
    pc_candidate_overlay := overlay (pc_candidate_overlay p);
    pc_relocation_rollback_overlay := overlay (pc_relocation_rollback_overlay p);
    pc_staging_rollback_overlay := overlay (pc_staging_rollback_overlay p);
    pc_preactivation_rollback_overlay := overlay (pc_preactivation_rollback_overlay p);
    pc_full_rollback_overlay := overlay (pc_full_rollback_overlay p);
    pc_recovery_payload := pc_recovery_payload p;
    pc_prepared_envelope := pc_prepared_envelope p;
    pc_capsule_limits := pc_capsule_limits p
  |}.

Lemma default_typed : limits_typed PreparedEnvelopeLimits_default.
Proof. split; vm_compute; discriminate. Qed.

(** A group of writes accepted once is accepted again under the envelope's
    limits, when it is within them. *)
Lemma overlay_rebuilt ib sb group lim plan :
  ib <= u64_max -> OverlayPlan_build ib sb group lim = Ok plan ->
  len group <= pl_max_entries PreparedEnvelopeLimits_default ->
  sum_by ow_length group <= pl_max_write_bytes PreparedEnvelopeLimits_default ->
  OverlayPlan_build ib sb group (overlay_limits PreparedEnvelopeLimits_default) =
    Ok (with_read_bound (pl_max_read_bytes PreparedEnvelopeLimits_default) plan).
Proof.
  intros Hib Hb Hn Hs. apply overlay_build_iff in Hb as [(_ & Hsb & Hpow & _ & Hw & _ & Hd) ->]; [|done].
  apply overlay_build_iff; [done |]. split; [|done]. split_and!; done.
Qed.

Section Restart.
Context `{Digests}.
Existing Instance envelope_codec.

Lemma into_decoded_prepared source projected target draft limits p before_images :
  ct_image_bytes (pf_image (pc_preflight p)) <= u64_max ->
  built source projected target draft limits p before_images ->
  op_writes (pc_relocation_rollback_overlay p) = before_images ->
  encodable (from_prepared p) PreparedEnvelopeLimits_default ->
  into_decoded (from_prepared p) PreparedEnvelopeLimits_default =
    Ok (mkDecodedPreparedEnvelope (with_envelope (restarted p) [])
          (pf_source_manifest_commitment (pc_preflight p))).
Proof.
  intros Hib Hbd Hbi [Hv _ _ _]. unfold into_decoded. rewrite Hv. cbn [mbind outcome_bind].
  apply (validate_state_Ok _ default_typed) in Hv. destruct Hv as [_ [Hn Hw _] _ _].
  destruct (bd_overlays _ _ _ _ _ _ _ Hbd) as (H1 & H2 & H3 & H4 & H5).
  cbn [from_prepared es_preflight es_writes es_relocation_destination_before_images] in *.
  rewrite Hbi. unfold section_counts, chained_writes in *.
  cbn [from_prepared es_preflight es_writes es_relocation_destination_before_images] in *.
  rewrite Hbi in Hn, Hw. rewrite !sum_by_app in Hw. rewrite !sum_by_cons in Hn. unfold id in Hn.
  assert (Hf : len (final_writes (pc_writes p)) = len (ws_target_staging (pc_writes p)) +
    len (ws_backup_boot (pc_writes p)) + len (ws_activation (pc_writes p))).
  { unfold final_writes, forward_writes. unfold len. rewrite length_fmap, !length_app. lia. }
  assert (Hs : sum_by ow_length (final_writes (pc_writes p)) =
    sum_by ow_length (rw_write <$> ws_target_staging (pc_writes p)) +
    sum_by ow_length (rw_write <$> ws_backup_boot (pc_writes p)) +
    sum_by ow_length (rw_write <$> ws_activation (pc_writes p))).
  { unfold final_writes, forward_writes. rewrite !fmap_app, !sum_by_app. lia. }
  rewrite (overlay_rebuilt _ _ _ _ _ Hib H1) by lia.
  rewrite (overlay_rebuilt _ _ _ _ _ Hib H3), (overlay_rebuilt _ _ _ _ _ Hib H4),
    (overlay_rebuilt _ _ _ _ _ Hib H5), (overlay_rebuilt _ _ _ _ _ Hib H2);
    unfold full_rollback_writes, preactivation_rollback_writes, staging_rollback_writes;
    rewrite ?len_app, ?sum_by_app; try lia.
  reflexivity.
Qed.

Lemma resume_restarted p capsule :
  resume_without_observation (restarted p) capsule = resume_without_observation p capsule.
Proof. reflexivity. Qed.

(** The envelope stored with a prepared conversion decodes to it. *)
Lemma stored_envelope_decodes source projected target draft limits p before_images :
  state_typed (from_prepared p) ->
  built source projected target draft limits p before_images ->
  op_writes (pc_relocation_rollback_overlay p) = before_images ->
  Prepare.decode_prepared_envelope (pc_prepared_envelope p) =
    Ok (restarted p, pf_source_manifest_commitment (pc_preflight p)).
Proof.
  intros Ht Hbd Hbi. destruct (bd_envelope _ _ _ _ _ _ _ Hbd) as (He & _).
  apply map_err_Ok in He. unfold encode_prepared_envelope in He.
  change (from_prepared (with_envelope p [])) with (from_prepared p) in He.
  apply (encode_state_Ok _ default_typed _ _ Ht) in He as [Hen He].
  assert (Hib : ct_image_bytes (pf_image (pc_preflight p)) <= u64_max).
  { pose proof (ht_numbers _ (st_header _ Ht)) as Hn. by apply Forall_cons in Hn as [Hn _]. }
  assert (Hlen : len (pc_prepared_envelope p) <= isize_max).
  { rewrite He, (len_envelope_of _ Ht). pose proof (en_cap _ _ Hen) as Hc. revert Hc.
    change (pl_max_envelope_bytes PreparedEnvelopeLimits_default) with 2147483648. widths. lia. }
  cbn [Prepare.decode_prepared_envelope envelope_codec]. unfold decode_prepared_envelope.
  rewrite (decode_state_complete _ default_typed _ Hlen _ Ht Hen He). cbn [mbind outcome_bind].
  rewrite (into_decoded_prepared _ _ _ _ _ _ _ Hib Hbd Hbi Hen). reflexivity.
Qed.
End Restart.

(** * The claims *)
Section Claims.
Context `{Digests}.

(** C18: the durable envelope is canonical.  On any bytes of a 64-bit target the
    decoder does not abort, and it returns a state exactly when those bytes are
    what the encoder writes for that state under the same limits, whose fields
    have the widths of their Rust types: one encoding per state, one state per
    encoding, and every other byte string is refused. *)
Theorem envelope_codec_canonical (limits : PreparedEnvelopeLimits) (bytes : list byte) :
  limits_typed limits -> len bytes <= isize_max ->
  decode_state bytes limits <> Panic /\
  forall s, decode_state bytes limits = Ok s <->
    state_typed s /\ encode_state s limits = Ok bytes.
Proof.
  intros Hl Hb. split; [by apply decode_state_safe |]. intros s. split.
  - intros Hd. apply (decode_state_sound limits Hl bytes Hb) in Hd as (Ht & He & ->).
    split; [done |]. by apply encode_state_Ok.
  - intros [Ht He]. apply (encode_state_Ok _ Hl _ _ Ht) in He as [He ->].
    by apply decode_state_complete.
Qed.

(** C10: the capsule alone is enough to go on.  For a prepared conversion that
    the builder returned, with the envelope encoder of the repository, and whose
    fields have the widths of their Rust types: after any run over a capsule that
    stays readable (its length fits and the search for generations in it is
    unambiguous), reading the capsule back through the envelope decoder of the
    repository gives that conversion again, ready to resume or roll back.  Its
    five overlays are rebuilt under the decoder's own bound of 16 MiB on the
    length of a read; when the builder used that bound, the result is the very
    conversion that was prepared. *)
Theorem restart_reconstructs_prepared (source projected target : ObjectGraph)
    (draft : ConversionDraft) (images : list OverlayWrite) (limits : ConversionLimits)
    (p : PreparedConversion) (trace : list event) (capsule : list byte) :
  ct_image_bytes (pf_image (cd_preflight draft)) <= u64_max ->
  @build_with_projected_target_graph _ envelope_codec source projected target draft images limits
    = Ok p ->
  state_typed (from_prepared p) -> run p trace capsule ->
  @from_restart_capsule _ envelope_codec capsule (pc_capsule_limits p) = Ok (restarted p) /\
  (ol_max_read_bytes (cl_overlay limits) = 16 * 1024 * 1024 -> restarted p = p).
Proof.
  intros Hib Hb Ht Hrun.
  apply (@build_Ok _ envelope_codec) in Hb as (before_images & Hbi & Hp & Hbd); [|done].
  assert (Hpib : ct_image_bytes (pf_image (pc_preflight p)) <= u64_max).
  { by rewrite (proj1 (bd_preflight _ _ _ _ _ _ _ Hbd)). }
  pose proof (bd_overlays _ _ _ _ _ _ _ Hbd) as Ho. cbv zeta in Ho. destruct Ho as (O1 & O2 & O3 & O4 & O5).
  assert (Hw : op_writes (pc_relocation_rollback_overlay p) = before_images).
  { apply overlay_build_iff in O2 as [Ha ->]; [|done]. cbn [op_writes].
    apply (sort_admissible _ _ _ _ Ha). rewrite Hbi. apply sort_by_key_sorted. }
  split.
  - pose proof (stored_envelope_decodes _ _ _ _ _ _ _ Ht Hbd Hw) as Hd.
    assert (Hid : identity_wf (pc_identity p)).
    { pose proof (ht_digests _ (st_header _ Ht)) as Hx. apply Forall_cons in Hx as [Hx _].
      split; [apply (ht_transaction _ (st_header _ Ht)) | exact Hx]. }
    exact (@restart_decoded _ envelope_codec p (restarted p) trace capsule _ Hid Hrun Hd
      eq_refl eq_refl eq_refl).
  - intros Hr. unfold restarted. cbv zeta.
    change (pl_max_read_bytes PreparedEnvelopeLimits_default) with (16 * 1024 * 1024).
    rewrite <- Hr. apply overlay_build_iff in O1 as [_ O1], O2 as [_ O2], O3 as [_ O3], O4 as [_ O4],
      O5 as [_ O5]; try done. destruct p; simpl in *. by rewrite O1, O2, O3, O4, O5.
Qed.
End Claims.

(** ** Searching a concrete capsule *)
(** The search only looks further where the magic stands, which one pass over
    the bytes finds. *)
Fixpoint magic_at (position : N) (bytes : list byte) : list N :=
  match bytes with
  | [] => []
  | _ :: rest =>
      let found := magic_at (position + 1) rest in
      if bool_decide (take 8 bytes = Capsule.MAGIC) then position :: found else found
  end.

Lemma magic_at_short bytes : (length bytes < 8)%nat -> forall position, magic_at position bytes = [].
Proof.
  induction bytes as [|b bytes IH]; intros Hl position; [done |]. cbn [magic_at].
  simpl in Hl. rewrite IH by lia. rewrite bool_decide_false; [done |].
  intros He. apply (f_equal length) in He. rewrite length_take in He.
  change (length Capsule.MAGIC) with 8%nat in He. cbn [length] in He. lia.
Qed.

Lemma find_by_magic_go `{Digests} bytes limits : len bytes <= isize_max -> forall n pre rest cs,
  bytes = pre ++ rest -> length rest = (n + 7)%nat ->
  try_fold (find_at bytes limits) cs (N.of_nat <$> seq (length pre) n) =
  try_fold (find_at bytes limits) cs (magic_at (len pre) rest).
Proof.
  intros Hfit n. induction n as [|n IH]; intros pre rest cs Hb Hl.
  { by rewrite magic_at_short by lia. }
  destruct rest as [|b rest]; [done |]. simpl in Hl.
  assert (Hnext : forall cs, try_fold (find_at bytes limits) cs (N.of_nat <$> seq (S (length pre)) n) =
    try_fold (find_at bytes limits) cs (magic_at (len pre + 1) rest)).
  { intros cs'. specialize (IH (pre ++ [b]) rest cs'). rewrite length_app, len_app in IH. simpl in IH.
    rewrite Nat.add_1_r in IH.
    apply IH; [by rewrite <- app_assoc | clear - Hl; lia]. }
  cbn [seq fmap list_fmap magic_at]. pose proof isize_lt_u64. widths.
  assert (Hw : find_at bytes limits cs (len pre) =
    if bool_decide (take 8 (b :: rest) = Capsule.MAGIC) then find_at bytes limits cs (len pre) else Ok cs).
  { case_bool_decide as Hm; [done |]. unfold find_at. change (len Capsule.MAGIC) with 8.
    assert (Hlen : len pre + 8 <= len bytes) by (rewrite Hb, len_app; unfold len; cbn [length]; lia).
    rewrite add_u64_in by lia. cbn [mbind outcome_bind]. rewrite index_range_in by lia.
    cbn [mbind outcome_bind]. rewrite bool_decide_false; [done |].
    rewrite Hb, (subslice_after pre (b :: rest) _ _ (len pre)) by done.
    replace (len pre + 8 - len pre) with 8 by lia. rewrite N.sub_diag. exact Hm. }
  change (N.of_nat (length pre)) with (len pre). cbn [try_fold]. rewrite Hw.
  case_bool_decide; cbn [try_fold]; [|apply Hnext].
  destruct (find_at bytes limits cs (len pre)); [apply Hnext | done | done].
Qed.
Lemma find_by_magic `{Digests} bytes limits :
  len bytes <= isize_max -> 8 <= len bytes ->
  find_candidates bytes limits = try_fold (find_at bytes limits) [] (magic_at 0 bytes).
Proof.
  intros Hfit Hl. unfold find_candidates, positions, saturating_sub. change (len Capsule.MAGIC) with 8.
  apply (find_by_magic_go bytes limits Hfit _ [] bytes []); [done |]. unfold len in *. lia.
Qed.

(** ** Witnesses *)
Section Witnesses.
#[local] Existing Instance rolling_digests.

(** The small plan of [Prepare], with room in the capsule for its envelope and
    the decoder's bound on the length of a read. *)
Definition stored_capsule_limits : CapsuleLimits := mkCapsuleLimits 65536 16384 16.
Definition stored_limits : ConversionLimits :=
  mkConversionLimits (mkLayoutLimits 8 8 8 8) (mkOverlayLimits 16 8192 (16 * 1024 * 1024))
    stored_capsule_limits 4 16 8192.
Definition stored_prepared : PreparedConversion := Eval vm_compute in
  match @build_with_projected_target_graph _ envelope_codec (small_graph 1024) (small_graph 1024)
    (small_graph 2048) small_draft [zero_write 2048] stored_limits with
  | Ok p => p
  | _ => sample_prepared
  end.
Definition stored_observed : ObservedImage :=
  mkObservedImage small_container (Some (replicate 32 x02)).
Definition stored_capsule : list byte := Eval vm_compute in
  (begin_capsule stored_prepared [] stored_observed).1.

Lemma stored_built :
  @build_with_projected_target_graph _ envelope_codec (small_graph 1024) (small_graph 1024)
    (small_graph 2048) small_draft [zero_write 2048] stored_limits = Ok stored_prepared.
Proof. vm_compute. reflexivity. Qed.

Lemma below_check bound l : forallb (fun n => n <=? bound) l = true -> Forall (fun n => n <= bound) l.
Proof. rewrite forallb_forall, List.Forall_forall. intros Hl x Hx. by apply N.leb_le, Hl. Qed.

Lemma stored_typed : state_typed (from_prepared stored_prepared).
Proof.
  split; [split | ..].
  - reflexivity.
  - repeat constructor.
  - apply below_check. vm_compute. reflexivity.
  - vm_compute. discriminate.
  - repeat apply Forall_cons_2; try apply Forall_nil_2; split; vm_compute; done.
  - repeat apply Forall_cons_2; try apply Forall_nil_2; split_and!; vm_compute; done.
  - repeat apply Forall_cons_2; try apply Forall_nil_2; split; vm_compute; done.
  - apply Forall_nil_2.
Qed.

Lemma stored_run : run stored_prepared [] stored_capsule.
Proof.
  apply (run_begin stored_prepared stored_observed); [vm_compute; reflexivity |].
  split; [vm_compute; discriminate |].
  exists (result [] (try_fold (find_at stored_capsule stored_capsule_limits) []
    (magic_at 0 stored_capsule))).
  change (pc_capsule_limits stored_prepared) with stored_capsule_limits. split.
  - rewrite find_by_magic by (vm_compute; discriminate). vm_compute. reflexivity.
  - apply compatibleb_ok. vm_compute. reflexivity.
Qed.

(** Witness. *)
Lemma envelope_codec_canonical_witness :
  decode_state (pc_prepared_envelope stored_prepared) PreparedEnvelopeLimits_default
    = Ok (from_prepared stored_prepared) /\
  decode_state (x00 :: pc_prepared_envelope stored_prepared) PreparedEnvelopeLimits_default
    <> Panic.
Proof.
  split.
  - apply (envelope_codec_canonical PreparedEnvelopeLimits_default
      (pc_prepared_envelope stored_prepared)); [apply default_typed | vm_compute; discriminate |].
    split; [apply stored_typed | vm_compute; reflexivity].
  - apply (envelope_codec_canonical PreparedEnvelopeLimits_default
      (x00 :: pc_prepared_envelope stored_prepared)); [apply default_typed | vm_compute; discriminate].
Defined.

(** Witness. *)
Lemma restart_reconstructs_prepared_witness :
  @from_restart_capsule _ envelope_codec stored_capsule stored_capsule_limits = Ok stored_prepared.
Proof.
  destruct (restart_reconstructs_prepared (small_graph 1024) (small_graph 1024) (small_graph 2048)
    small_draft [zero_write 2048] stored_limits stored_prepared [] stored_capsule) as [Hr Hsame].
  - vm_compute. discriminate.
  - apply stored_built.
  - apply stored_typed.
  - apply stored_run.
  - rewrite (Hsame eq_refl) in Hr. exact Hr.
Defined.

(** One byte of the stored envelope changed: the decoder refuses it. *)
Example damaged_envelope :
  decode_state (<[600%nat := xff]> (pc_prepared_envelope stored_prepared))
    PreparedEnvelopeLimits_default = Err PayloadDigestMismatch.
Proof. vm_compute. reflexivity. Qed.
End Witnesses.
