(* ===== verification/Executor.v ===== *)
(** * The image-mutation executor ([executor.rs])

    The only code that changes an image.  It works through an open handle whose
    every call may fail or move fewer bytes than asked, and through a fault hook
    that may stop it at any boundary, so the interesting statements hold for
    every way a run can end. *)

From S2P Require Import Prelude Digest Image Extent Object Overlay Recovery Geometry Planner Preimage Relocate Capsule Conversion Prepare.
From stdpp Require Import options.
#[local] Open Scope N_scope.

(** ** Data *)
Inductive FaultBoundary : Type :=
| BeforeRead
| AfterRead
| BeforeWrite
| AfterWrite
| BeforeVerificationRead
| AfterVerification
| BeforeSyncData
| AfterSyncData
| BeforeSyncAll
| AfterSyncAll.

Record FaultPoint : Type := mkFaultPoint {
  fp_kind : ExecutionKind;
  fp_boundary : FaultBoundary;
  fp_operation_index : option N;
  fp_chunk_offset : N
}.

(** [trait FaultInjector]: [should_fail] takes [&mut self]. *)
Class FaultInjector (F : Type) : Type := should_fail : F -> FaultPoint -> F * bool.

Inductive NoFault : Type := noFault.
#[export] Instance no_fault : FaultInjector NoFault := fun faults _ => (faults, false).

Inductive ExecutorError : Type :=
| IoFailed (operation : string) (source : io_error)
| IdentityMismatch
| PlanImageMismatch
| InvalidExecutionLease
| LeaseIntentMismatch
| IntentNotAuthorized
| NonMutatingIntent
| InvalidRelocation (index : N)
| RangeOutsideImage (offset length image_length : N)
| ExecutorOverflow
| VerificationMismatch (offset : N)
| InjectedFault (point : FaultPoint).

(** The executor without its handle; [max_chunk_bytes] is its only limit. *)
Record ImageExecutor : Type := mkImageExecutor {
  ie_identity : ImageIdentity;
  ie_canonical_path : string;
  ie_max_chunk_bytes : N
}.

Record ExecutionLease : Type := mkExecutionLease {
  el_capsule_generation : N;
  el_current_phase : TransactionPhase;
  el_plan_digest : list byte;
  el_image_instance : list byte
}.
Record LeasedIntent : Type := mkLeasedIntent {
  li_executed : ExecutedIntent;
  li_capsule_generation : N;
  li_current_phase : TransactionPhase
}.
Record LeasedRollback : Type := mkLeasedRollback {
  lr_executed : ExecutedRollback;
  lr_capsule_generation : N;
  lr_current_phase : TransactionPhase
}.

(** ** The operating system

    The calls the executor makes, on a world [W].  [os_content] is the content of
    the image and is not a call: it only occurs in specifications. *)
Definition io (A : Type) : Type := (io_error + A)%type.

Class OperatingSystem (W : Type) : Type := {
  os_content : W -> list byte;
  os_file_metadata : W -> W * io Metadata;
  os_canonicalize : W -> string -> W * io string;
  os_path_metadata : W -> string -> W * io Metadata;
  os_read_at : W -> N -> N -> W * io (list byte);
  os_write_at : W -> N -> list byte -> W * io N;
  os_sync_data : W -> W * io unit;
  os_sync_all : W -> W * io unit
}.

(** What POSIX promises of an image of fixed length that only this handle
    writes.  A read delivers bytes of the file, perhaps fewer than asked; a write
    inside the file changes a prefix of the range, perhaps not all of it; a
    failed write leaves anything in the range and nothing outside it. *)
Class OperatingSystemLaws (W : Type) `{OperatingSystem W} : Prop := {
  file_metadata_keeps : forall w, os_content (os_file_metadata w).1 = os_content w;
  canonicalize_keeps : forall w path, os_content (os_canonicalize w path).1 = os_content w;
  path_metadata_keeps : forall w path, os_content (os_path_metadata w path).1 = os_content w;
  sync_data_keeps : forall w, os_content (os_sync_data w).1 = os_content w;
  sync_all_keeps : forall w, os_content (os_sync_all w).1 = os_content w;
  read_at_keeps : forall w offset count, os_content (os_read_at w offset count).1 = os_content w;
  read_at_bytes : forall w offset count bytes,
    (os_read_at w offset count).2 = inr bytes ->
    len bytes <= count /\ bytes = subslice offset (offset + len bytes) (os_content w);
  write_at_bytes : forall w offset buffer count,
    offset + len buffer <= len (os_content w) ->
    (os_write_at w offset buffer).2 = inr count ->
    count <= len buffer /\
    os_content (os_write_at w offset buffer).1 =
      splice offset (take (N.to_nat count) buffer) (os_content w);
  write_at_failed : forall w offset buffer e,
    offset + len buffer <= len (os_content w) ->
    (os_write_at w offset buffer).2 = inl e ->
    differs_within [[offset; len buffer]] (os_content w) (os_content (os_write_at w offset buffer).1)
}.

(** ** The executor monad: the world and the fault hook, and errors *)
Section Executor.
Context {W F : Type} `{OperatingSystem W} `{FaultInjector F} `{Digests}.

Definition exec (A : Type) : Type := W * F -> (W * F) * outcome ExecutorError A.
#[local] Instance exec_ret : MRet exec := fun _ a s => (s, Ok a).
#[local] Instance exec_bind : MBind exec := fun _ _ k m s =>
  match m s with
  | (s, Ok a) => k a s
  | (s, Err e) => (s, Err e)
  | (s, Panic) => (s, Panic)
  end.
Definition lift {A} (m : outcome ExecutorError A) : exec A := fun s => (s, m).
(** One call, with the text its error is reported under. *)
Definition call {A} (operation : string) (f : W -> W * io A) : exec A := fun s =>
  let '(w, r) := f s.1 in
  ((w, s.2), match r with inl e => Err (IoFailed operation e) | inr a => Ok a end).

Definition inject (kind : ExecutionKind) (boundary : FaultBoundary)
    (operation_index : option N) (chunk_offset : N) : exec unit := fun s =>
  let point := mkFaultPoint kind boundary operation_index chunk_offset in
  let '(faults, stop) := should_fail s.2 point in
  ((s.1, faults), if stop then Err (InjectedFault point) else Ok tt).

(** *** Identity *)
Definition stable_container_token (identity : ImageIdentity) : list byte :=
  let path := ascii_bytes (id_canonical_path identity) in
  sha256 (ascii_bytes "starconverter/regular-container/v1" ++ [x00] ++
    u64_le (default u64_max (u64_try_from (len path))) ++ path ++ u64_le (id_length identity) ++
    match id_platform identity with
    | Unix device inode => ascii_bytes "unix" ++ [x00] ++ u64_le device ++ u64_le inode
    end).
Definition from_regular_image (identity : ImageIdentity) : ContainerIdentity :=
  mkContainerIdentity (stable_container_token identity) (id_length identity).
Definition matches_regular_image (p : PreparedConversion) (identity : ImageIdentity) : bool :=
  bool_decide (pf_image (pc_preflight p) = from_regular_image identity).

(** [matches_open_file] after its metadata query, on Unix. *)
Definition matches_open_file (identity : ImageIdentity) (metadata : Metadata) : bool :=
  md_is_file metadata && (id_length identity =? md_len metadata)
  && same_platform_file (id_platform identity) metadata.

Definition ensure_same_container (x : ImageExecutor) : exec unit :=
  handle_metadata ← call "revalidate opened image" os_file_metadata;
  handle ← call "identify opened image" os_file_metadata;
  lift (refuse_if (negb (matches_container_metadata (ie_identity x) handle_metadata)
                   || negb (matches_open_file (ie_identity x) handle)) IdentityMismatch) ;;
  current_path ← call "revalidate canonical image path"
    (fun w => os_canonicalize w (ie_canonical_path x));
  path_metadata ← call "revalidate image path" (fun w => os_path_metadata w current_path);
  lift (refuse_if (negb (bool_decide (current_path = ie_canonical_path x))
                   || negb (matches_container_metadata (ie_identity x) path_metadata))
          IdentityMismatch).

(** *** Positional loops *)
Definition UnexpectedEof : io_error := 1.
Definition WriteZero : io_error := 2.

(** [done] is the length of the bytes read so far; every round reads at least one. *)
Fixpoint positional_read_loop (fuel : nat) (offset length : N) (buffer : list byte) (w : W)
    : W * outcome io_error (list byte) :=
  match fuel with
  | O => (w, Panic)
  | S fuel =>
      if len buffer <? length then
        match add_u64 offset (len buffer) with
        | Ok position =>
            match os_read_at w position (length - len buffer) with
            | (w, inl e) => (w, Err e)
            | (w, inr chunk) =>
                if is_empty chunk then (w, Err UnexpectedEof)
                else positional_read_loop fuel offset length (buffer ++ chunk) w
            end
        | Err e => (w, Err e)
        | Panic => (w, Panic)
        end
      else (w, Ok buffer)
  end.

(** [buffer] is what is left to write; every round writes at least one byte. *)
Fixpoint positional_write_loop (fuel : nat) (offset done : N) (buffer : list byte) (w : W)
    : W * outcome io_error unit :=
  match fuel with
  | O => (w, Panic)
  | S fuel =>
      if is_empty buffer then (w, Ok tt)
      else
        match add_u64 offset done with
        | Ok position =>
            match os_write_at w position buffer with
            | (w, inl e) => (w, Err e)
            | (w, inr count) =>
                if count =? 0 then (w, Err WriteZero)
                else positional_write_loop fuel offset (done + count)
                       (drop (N.to_nat count) buffer) w
            end
        | Err e => (w, Err e)
        | Panic => (w, Panic)
        end
  end.

Definition loop_result {A} (operation : string) (f : W -> W * outcome io_error A) : exec A :=
  fun s => let '(w, r) := f s.1 in ((w, s.2), map_err (IoFailed operation) r).
Definition read_exact_at (operation : string) (offset length : N) : exec (list byte) :=
  loop_result operation (positional_read_loop (S (N.to_nat length)) offset length []).
Definition write_all_at (operation : string) (offset : N) (buffer : list byte) : exec unit :=
  loop_result operation (positional_write_loop (S (length buffer)) offset 0 buffer).

(** *** Steps *)
Definition validate_range (image_length offset length : N) : outcome ExecutorError unit :=
  end_ ← ok_or ExecutorOverflow (checked_add offset length);
  refuse_if ((length =? 0) || (image_length <? end_))
    (RangeOutsideImage offset length image_length).

Definition ranges_overlap (a_offset a_length b_offset b_length : N)
    : outcome ExecutorError bool :=
  a_end ← ok_or ExecutorOverflow (checked_add a_offset a_length);
  b_end ← ok_or ExecutorOverflow (checked_add b_offset b_length);
  Ok ((a_offset <? b_end) && (b_offset <? a_end)).

Definition chunk_length (remaining maximum : N) : outcome ExecutorError N :=
  maximum_u64 ← ok_or ExecutorOverflow (u64_try_from maximum);
  ok_or ExecutorOverflow (usize_try_from (N.min remaining maximum_u64)).

Definition kind_byte (kind : ExecutionKind) : byte :=
  match kind with
  | Relocation' => x00
  | TargetStaging => x01
  | BackupBoot => x02
  | Activation => x03
  | Rollback => x04
  end.
Definition evidence_hasher (kind : ExecutionKind) : list byte :=
  ascii_bytes "starconverter-executor-evidence-v1" ++ [kind_byte kind].

Definition overlay_digest (writes : list OverlayWrite) : list byte :=
  sha256 (ascii_bytes "starconverter-overlay-writes-v1" ++
    concat ((fun write => u64_le (ow_offset write) ++ u64_le (len (ow_bytes write))
                          ++ ow_bytes write) <$> sort_by_key ow_offset writes)).

Definition verify_at (offset : N) (expected : list byte) (kind : ExecutionKind)
    (operation_index chunk_offset : N) : exec unit :=
  inject kind BeforeVerificationRead (Some operation_index) chunk_offset ;;
  actual ← read_exact_at "read back written image range" offset (len expected);
  lift (refuse_if (negb (bool_decide (actual = expected))) (VerificationMismatch offset)) ;;
  inject kind AfterVerification (Some operation_index) chunk_offset.

(** One round of the relocation loop; the result is the bytes moved. *)
Definition relocation_chunk (x : ImageExecutor) (index : N) (relocation : Relocation)
    (relative count : N) : exec (list byte) :=
  let kind := Relocation' in
  ensure_same_container x ;;
  inject kind BeforeRead (Some index) relative ;;
  source ← lift (add_u64 (br_offset (rl_source relocation)) relative);
  bytes ← read_exact_at "read relocation source" source count;
  inject kind AfterRead (Some index) relative ;;
  inject kind BeforeWrite (Some index) relative ;;
  destination ← lift (add_u64 (br_offset (rl_destination relocation)) relative);
  write_all_at "write relocation destination" destination bytes ;;
  inject kind AfterWrite (Some index) relative ;;
  verify_at destination bytes kind index relative ;;
  mret bytes.

(** [while relative < length]; [total] and [hasher] are threaded through. *)
Fixpoint relocation_chunks (fuel : nat) (x : ImageExecutor) (index : N) (relocation : Relocation)
    (relative total : N) (hasher : list byte) : exec (N * list byte) :=
  match fuel with
  | O => lift Panic
  | S fuel =>
      let length := br_length (rl_source relocation) in
      if relative <? length then
        count ← lift (chunk_length (length - relative) (ie_max_chunk_bytes x));
        bytes ← relocation_chunk x index relocation relative count;
        relative ← lift (ok_or ExecutorOverflow (checked_add relative count));
        total ← lift (ok_or ExecutorOverflow (checked_add total count));
        relocation_chunks fuel x index relocation relative total (hasher ++ bytes)
      else mret (total, hasher)
  end.

Definition check_relocation (x : ImageExecutor) (index : N) (relocation : Relocation)
    : outcome ExecutorError unit :=
  let source := rl_source relocation in
  let destination := rl_destination relocation in
  (if negb (br_length source =? br_length destination) || (br_length source =? 0)
   then Err (InvalidRelocation index)
   else
     overlap ← ranges_overlap (br_offset source) (br_length source) (br_offset destination)
                 (br_length destination);
     refuse_if overlap (InvalidRelocation index)) ;;
  validate_range (id_length (ie_identity x)) (br_offset source) (br_length source) ;;
  validate_range (id_length (ie_identity x)) (br_offset destination) (br_length destination).

(** The body of the loop over the relocations. *)
Definition copy_relocation (x : ImageExecutor) (index : N) (relocation : Relocation)
    (state : N * list byte) : exec (N * list byte) :=
  lift (check_relocation x index relocation) ;;
  let hasher := state.2 ++ u64_le (br_offset (rl_source relocation)) ++
    u64_le (br_offset (rl_destination relocation)) ++ u64_le (br_length (rl_source relocation)) in
  relocation_chunks (S (N.to_nat (br_length (rl_source relocation)))) x index relocation 0
    state.1 hasher.

(** [for (index, item) in items.iter().enumerate()]. *)
Fixpoint each {A S : Type} (f : N -> A -> S -> exec S) (index : N) (items : list A) (state : S)
    : exec S :=
  match items with
  | [] => mret state
  | item :: items => state ← f index item state; each f (index + 1) items state
  end.

Definition finish_durable (x : ImageExecutor) (kind : ExecutionKind)
    (operations bytes_written : N) (hasher : list byte) : exec ExecutionEvidence :=
  ensure_same_container x ;;
  inject kind BeforeSyncData None 0 ;;
  call "flush image data" os_sync_data ;;
  inject kind AfterSyncData None 0 ;;
  ensure_same_container x ;;
  inject kind BeforeSyncAll None 0 ;;
  call "flush image data and metadata" os_sync_all ;;
  inject kind AfterSyncAll None 0 ;;
  ensure_same_container x ;;
  mret (mkExecutionEvidence kind operations bytes_written (sha256 hasher) true true).

Definition copy_relocations (x : ImageExecutor) (relocations : list Relocation)
    : exec ExecutionEvidence :=
  state ← each (copy_relocation x) 0 relocations (0, evidence_hasher Relocation');
  finish_durable x Relocation' (len relocations) state.1 state.2.

(** One round of the write loop. *)
Definition write_chunk (x : ImageExecutor) (kind : ExecutionKind) (index : N)
    (write : OverlayWrite) (relative : N) (bytes : list byte) : exec unit :=
  ensure_same_container x ;;
  inject kind BeforeWrite (Some index) relative ;;
  offset ← lift (add_u64 (ow_offset write) relative);
  write_all_at "write prepared image range" offset bytes ;;
  inject kind AfterWrite (Some index) relative ;;
  verify_at offset bytes kind index relative.

Fixpoint write_chunks (fuel : nat) (x : ImageExecutor) (kind : ExecutionKind) (index : N)
    (write : OverlayWrite) (relative total : N) (hasher : list byte) : exec (N * list byte) :=
  match fuel with
  | O => lift Panic
  | S fuel =>
      let length := len (ow_bytes write) in
      if relative <? length then
        count ← lift (chunk_length (length - relative) (ie_max_chunk_bytes x));
        start ← lift (ok_or ExecutorOverflow (usize_try_from relative));
        end_ ← lift (ok_or ExecutorOverflow (checked_add start count));
        bytes ← lift (index_range start end_ (ow_bytes write));
        write_chunk x kind index write relative bytes ;;
        relative ← lift (ok_or ExecutorOverflow (checked_add relative count));
        total ← lift (ok_or ExecutorOverflow (checked_add total count));
        write_chunks fuel x kind index write relative total (hasher ++ bytes)
      else mret (total, hasher)
  end.

Definition apply_write (x : ImageExecutor) (kind : ExecutionKind) (index : N)
    (write : OverlayWrite) (state : N * list byte) : exec (N * list byte) :=
  length ← lift (ok_or ExecutorOverflow (u64_try_from (len (ow_bytes write))));
  lift (validate_range (id_length (ie_identity x)) (ow_offset write) length) ;;
  let hasher := state.2 ++ u64_le (ow_offset write) ++ u64_le length in
  write_chunks (S (List.length (ow_bytes write))) x kind index write 0 state.1 hasher.

Definition apply_write_refs (x : ImageExecutor) (kind : ExecutionKind)
    (writes : list OverlayWrite) : exec ExecutionEvidence :=
  state ← each (apply_write x kind) 0 writes (0, evidence_hasher kind);
  finish_durable x kind (len writes) state.1 state.2.
Definition apply_reserved_writes (x : ImageExecutor) (kind : ExecutionKind)
    (writes : list ReservedWrite) : exec ExecutionEvidence :=
  apply_write_refs x kind (rw_write <$> writes).
Definition apply_overlay_writes (x : ImageExecutor) (kind : ExecutionKind)
    (writes : list OverlayWrite) : exec ExecutionEvidence :=
  apply_write_refs x kind writes.

(** *** Intents *)
Definition validate_exact_phase (expected supplied : list ReservedWrite)
    : outcome ExecutorError unit :=
  if bool_decide (supplied = expected) then Ok tt else Err IntentNotAuthorized.

Definition execute_intent_with_faults (x : ImageExecutor) (p : PreparedConversion)
    (intent : TransactionIntent) : exec ExecutedIntent :=
  lift (refuse_if (negb (matches_regular_image p (ie_identity x))) PlanImageMismatch) ;;
  result ← match intent with
    | Relocate relocations =>
        lift (refuse_if (negb (is_empty (lp_materializations (pc_layout p))))
                IntentNotAuthorized) ;;
        lift (refuse_if (negb (bool_decide (relocations = lp_relocations (pc_layout p))))
                IntentNotAuthorized) ;;
        evidence ← copy_relocations x relocations;
        mret (evidence, Relocating)
    | StageTarget writes =>
        lift (validate_exact_phase (ws_target_staging (pc_writes p)) writes) ;;
        evidence ← apply_reserved_writes x TargetStaging writes;
        mret (evidence, TargetStaged)
    | WriteBackupBoot writes =>
        lift (validate_exact_phase (ws_backup_boot (pc_writes p)) writes) ;;
        evidence ← apply_reserved_writes x BackupBoot writes;
        mret (evidence, BackupBootWritten)
    | Activate writes =>
        lift (validate_exact_phase (ws_activation (pc_writes p)) writes) ;;
        evidence ← apply_reserved_writes x Activation writes;
        mret (evidence, Activated)
    | Reserve _ | VerifyStaging _ | Verify _ | Finalize | NoIntent => lift (Err NonMutatingIntent)
    end;
  mret (mkExecutedIntent result.1 (pc_plan_digest p) (stable_container_token (ie_identity x))
          result.2).

Definition execute_rollback_with_faults (x : ImageExecutor) (p : PreparedConversion)
    (intent : RollbackIntent) : exec ExecutedRollback :=
  lift (refuse_if (negb (matches_regular_image p (ie_identity x))) PlanImageMismatch) ;;
  result ← match intent with
    | DiscardStaging => mret (StagingDiscarded, None)
    | RestoreSource writes digest =>
        let authorized := existsb (fun candidate => bool_decide (candidate = writes))
          [op_writes (pc_staging_rollback_overlay p); op_writes (pc_preactivation_rollback_overlay p);
           op_writes (pc_full_rollback_overlay p)] in
        lift (refuse_if (negb authorized || negb (bool_decide (overlay_digest writes = digest)))
                IntentNotAuthorized) ;;
        evidence ← apply_overlay_writes x Rollback writes;
        mret (SourceRestored evidence, Some digest)
    end;
  mret (mkExecutedRollback result.1 (pc_plan_digest p) (stable_container_token (ie_identity x))
          result.2).

(** *** Leases *)
Definition validate_lease (x : ImageExecutor) (p : PreparedConversion)
    (plan_digest image_instance : list byte) : outcome ExecutorError unit :=
  refuse_if (negb (bool_decide (plan_digest = pc_plan_digest p))
             || negb (bool_decide (image_instance = stable_container_token (ie_identity x)))
             || negb (matches_regular_image p (ie_identity x))) InvalidExecutionLease.

Definition lease_authorizes (phase : TransactionPhase) (intent : TransactionIntent) : bool :=
  match phase, intent with
  | Reserved, Relocate _
  | Relocating, StageTarget _
  | TargetStaged, WriteBackupBoot _
  | BackupBootWritten, Activate _ => true
  | _, _ => false
  end.

Definition execute_leased_intent (x : ImageExecutor) (p : PreparedConversion)
    (lease : ExecutionLease) (intent : TransactionIntent) : exec LeasedIntent :=
  lift (validate_lease x p (el_plan_digest lease) (el_image_instance lease)) ;;
  lift (refuse_if (negb (lease_authorizes (el_current_phase lease) intent))
          LeaseIntentMismatch) ;;
  executed ← execute_intent_with_faults x p intent;
  mret (mkLeasedIntent executed (el_capsule_generation lease) (el_current_phase lease)).

Definition execute_leased_rollback (x : ImageExecutor) (p : PreparedConversion)
    (lease : ExecutionLease) (intent : RollbackIntent) : exec LeasedRollback :=
  lift (validate_lease x p (el_plan_digest lease) (el_image_instance lease)) ;;
  lift (refuse_if (bool_decide (el_current_phase lease = Finalized)
                   || bool_decide (el_current_phase lease = RolledBack)) LeaseIntentMismatch) ;;
  executed ← execute_rollback_with_faults x p intent;
  mret (mkLeasedRollback executed (el_capsule_generation lease) (el_current_phase lease)).
End Executor.

(** * Specification *)

(** The image after a relocation, and after all of them in order. *)
Definition relocate_one (img : list byte) (r : Relocation) : list byte :=
  splice (br_offset (rl_destination r))
    (subslice (br_offset (rl_source r)) (br_offset (rl_source r) + br_length (rl_source r)) img)
    img.
Definition relocate_bytes (img : list byte) (rs : list Relocation) : list byte :=
  foldl relocate_one img rs.

(** The ranges an intent may change, and the image its success leaves. *)
Definition intent_ranges (intent : TransactionIntent) : list (list N) :=
  match intent with
  | Relocate relocations =>
      (fun r => [br_offset (rl_destination r); br_length (rl_destination r)]) <$> relocations
  | StageTarget writes | WriteBackupBoot writes | Activate writes => reserved_ranges writes
  | _ => []
  end.
Definition intent_effect (intent : TransactionIntent) (img : list byte) : list byte :=
  match intent with
  | Relocate relocations => relocate_bytes img relocations
  | StageTarget writes | WriteBackupBoot writes | Activate writes => patch img (rw_write <$> writes)
  | _ => img
  end.
Definition rollback_ranges (intent : RollbackIntent) : list (list N) :=
  match intent with
  | DiscardStaging => []
  | RestoreSource writes _ => write_range <$> writes
  end.

(** * Proofs *)

Lemma add_u64_fits {E} a b : a + b <= u64_max -> @add_u64 E a b = Ok (a + b).
Proof. intros Hf. by apply add_u64_Ok. Qed.

(** ** Images that differ within ranges *)
Section Differs.
Lemma differs_refl rs img : differs_within rs img img.
Proof. done. Qed.
Lemma differs_trans rs img1 img2 img3 :
  differs_within rs img1 img2 -> differs_within rs img2 img3 -> differs_within rs img1 img3.
Proof. intros [Hl1 H1] [Hl2 H2]. split; [lia |]. intros i Hi. by rewrite H2, H1. Qed.
Lemma differs_mono rs rs' img img' :
  rs ⊆ rs' -> differs_within rs img img' -> differs_within rs' img img'.
Proof. intros Hs [Hl Hd]. split; [done |]. intros i Hi. apply Hd. intros o n Hin. by apply Hi, Hs. Qed.
Lemma differs_sym rs img img' : differs_within rs img img' -> differs_within rs img' img.
Proof. intros [Hl Hd]. split; [done |]. intros i Hi. by rewrite Hd. Qed.
(** A smaller range inside a listed one. *)
Lemma differs_sub o n o' n' rs img img' :
  [o'; n'] ∈ rs -> o' <= o -> o + n <= o' + n' ->
  differs_within [[o; n]] img img' -> differs_within rs img img'.
Proof.
  intros Hin Ho Hn [Hl Hd]. split; [done |]. intros i Hi. apply Hd.
  intros a b [= -> ->]%list_elem_of_singleton Hr. apply (Hi o' n' Hin). unfold in_range in *. lia.
Qed.
Lemma splice_differs o buffer img :
  o + len buffer <= len img -> differs_within [[o; len buffer]] img (splice o buffer img).
Proof.
  intros Hf. split; [by apply len_splice |]. intros i Hi. rewrite splice_lookup by done.
  rewrite decide_False; [done |]. apply (Hi o (len buffer)). by apply list_elem_of_singleton.
Qed.
Lemma splice_extend o a b (img : list byte) :
  o + len a + len b <= len img -> splice (o + len a) b (splice o a img) = splice o (a ++ b) img.
Proof.
  intros Hf. apply list_eq. intros i.
  rewrite splice_lookup by (rewrite len_splice; lia). rewrite splice_lookup by lia.
  rewrite splice_lookup by (rewrite len_app; lia). rewrite len_app.
  unfold len in *. repeat case_decide; try lia; try done.
  - rewrite lookup_app_r by lia. f_equal. lia.
  - rewrite lookup_app_l by lia. done.
Qed.
Lemma splice_nil o (img : list byte) : o <= len img -> splice o [] img = img.
Proof.
  intros Hf. apply list_eq. intros i. rewrite splice_lookup by (unfold len in *; simpl; lia).
  rewrite decide_False; [done |]. unfold len. simpl. lia.
Qed.
Lemma subslice_splice_apart o n d bytes (img : list byte) :
  d + len bytes <= len img -> o + n <= d \/ d + len bytes <= o ->
  subslice o (o + n) (splice d bytes img) = subslice o (o + n) img.
Proof.
  intros Hf Ha. apply list_eq. intros i.
  destruct (decide (N.of_nat i < o + n - o)) as [Hi|Hi].
  - rewrite !subslice_lookup by done. rewrite splice_lookup by done. rewrite decide_False; [done |].
    lia.
  - by rewrite !subslice_lookup_ge by lia.
Qed.
End Differs.

(** ** How a step may end

    [ends m s R Q]: started in [s], [m] does not abort, changes nothing outside
    [R] however it ends, and if it succeeds with [a] then [Q a] holds of the
    image it leaves. *)
Section Calculus.
Context {W F : Type} `{OperatingSystemLaws W} `{FaultInjector F} `{Digests}.
#[local] Existing Instances exec_ret exec_bind.
#[local] Set Default Proof Using "Type*".
Abbreviation execution := (exec (W := W) (F := F)).
Implicit Types s : W * F.

Definition image (s : W * F) : list byte := os_content s.1.

Definition ends {A} (m : execution A) s (R : list (list N)) (Q : A -> list byte -> Prop) : Prop :=
  differs_within R (image s) (image (m s).1) /\ (m s).2 <> Panic /\
  forall a, (m s).2 = Ok a -> Q a (image (m s).1).

(** A step that leaves the image alone. *)
Definition keeps {A} (m : execution A) s (Q : A -> Prop) : Prop :=
  image (m s).1 = image s /\ (m s).2 <> Panic /\ forall a, (m s).2 = Ok a -> Q a.

Lemma ends_bind {A B} (m : execution A) (k : A -> execution B) s R P Q :
  ends m s R P ->
  (forall a s', differs_within R (image s) (image s') -> P a (image s') -> ends (k a) s' R Q) ->
  ends (m ≫= k) s R Q.
Proof.
  intros (Hd & Hp & Hok) Hk. unfold ends, mbind, exec_bind.
  destruct (m s) as [s' [a|e|]]; simpl in *; [|done..].
  destruct (Hk a s' Hd (Hok a eq_refl)) as (Hd' & Hp' & Hok').
  split; [by eapply differs_trans |]. done.
Qed.
Lemma ends_keep {A B} (m : execution A) (k : A -> execution B) s R P Q :
  keeps m s P ->
  (forall a s', image s' = image s -> P a -> ends (k a) s' R Q) ->
  ends (m ≫= k) s R Q.
Proof.
  intros (Hd & Hp & Hok) Hk. eapply (ends_bind _ _ _ _ (fun a c => P a /\ c = image s)).
  - split; [rewrite Hd; apply differs_refl |]. split; [done |]. intros a Ha. auto.
  - intros a s' _ [Ha Hi]. by apply Hk.
Qed.
Lemma keeps_bind {A B} (m : execution A) (k : A -> execution B) s P Q :
  keeps m s P -> (forall a s', image s' = image s -> P a -> keeps (k a) s' Q) ->
  keeps (m ≫= k) s Q.
Proof.
  intros (Hd & Hp & Hok) Hk. unfold keeps, mbind, exec_bind.
  destruct (m s) as [s' [a|e|]]; simpl in *; [|done..].
  destruct (Hk a s' Hd (Hok a eq_refl)) as (Hd' & Hp' & Hok'). by rewrite Hd'.
Qed.
Lemma ends_ret {A} (a : A) s R (Q : A -> list byte -> Prop) :
  Q a (image s) -> ends (mret a) s R Q.
Proof. intros HQ. split; [apply differs_refl |]. split; [done |]. by intros ? [= <-]. Qed.
Lemma ends_weaken {A} (m : execution A) s R R' (Q Q' : A -> list byte -> Prop) :
  ends m s R Q -> (forall img, differs_within R (image s) img -> differs_within R' (image s) img) ->
  (forall a c, Q a c -> Q' a c) -> ends m s R' Q'.
Proof. intros (Hd & Hp & Hok) HR HQ. split; [by apply HR |]. split; [done |]. auto. Qed.
Lemma ends_keeps {A} (m : execution A) s R P (Q : A -> list byte -> Prop) :
  keeps m s P -> (forall a, P a -> Q a (image s)) -> ends m s R Q.
Proof.
  intros (Hd & Hp & Hok) HQ. split; [rewrite Hd; apply differs_refl |]. split; [done |].
  intros a Ha. rewrite Hd. auto.
Qed.

(** *** Steps that keep the image *)
Lemma keeps_ret {A} (a : A) s (Q : A -> Prop) : Q a -> keeps (mret a) s Q.
Proof. intros HQ. split_and!; [done | done | by intros ? [= <-]]. Qed.
Lemma keeps_lift {A} (m : outcome ExecutorError A) s :
  m <> Panic -> keeps (lift m) s (fun a => m = Ok a).
Proof. by intros Hm. Qed.
Lemma keeps_inject kind boundary index offset s :
  keeps (inject kind boundary index offset) s (fun _ => True).
Proof. unfold keeps, inject, image. destruct (should_fail _ _) as [f []]; done. Qed.
Lemma keeps_call {A} operation (f : W -> W * io A) s :
  (forall w, os_content (f w).1 = os_content w) -> keeps (call operation f) s (fun _ => True).
Proof.
  intros Hf. unfold keeps, call, image. specialize (Hf s.1).
  destruct (f s.1) as [w [e|a]]; simpl in *; done.
Qed.
Lemma keeps_same x s : keeps (ensure_same_container x) s (fun _ => True).
Proof.
  unfold ensure_same_container.
  eapply keeps_bind; [apply keeps_call, file_metadata_keeps |]. intros m1 s1 _ _.
  eapply keeps_bind; [apply keeps_call, file_metadata_keeps |]. intros m2 s2 _ _.
  eapply keeps_bind; [apply keeps_lift, refuse_if_safe |]. intros ? s3 _ _.
  eapply keeps_bind; [apply keeps_call; intros; apply canonicalize_keeps |]. intros path s4 _ _.
  eapply keeps_bind; [apply keeps_call; intros; apply path_metadata_keeps |]. intros m3 s5 _ _.
  split_and!; [done | apply refuse_if_safe | done].
Qed.

(** *** Positional loops *)
Lemma read_loop_keeps fuel : forall offset length buffer w,
  (N.to_nat (length - len buffer) < fuel)%nat -> offset + length <= u64_max ->
  len buffer <= length ->
  let '(w', r) := positional_read_loop fuel offset length buffer w in
  os_content w' = os_content w /\ r <> Panic /\
  forall bytes, r = Ok bytes -> len bytes = length /\
    bytes = buffer ++ subslice (offset + len buffer) (offset + length) (os_content w).
Proof.
  induction fuel as [|fuel IH]; intros offset length buffer w Hf Ho Hb; simpl; [lia |].
  destruct (N.ltb_spec (len buffer) length) as [Hlt|Hge].
  - rewrite (add_u64_fits (E := io_error)) by lia.
    pose proof (read_at_keeps w (offset + len buffer) (length - len buffer)) as Hk.
    pose proof (read_at_bytes w (offset + len buffer) (length - len buffer)) as Hr.
    destruct (os_read_at _ _ _) as [w' [e|chunk]]; simpl in *; [done |].
    destruct (Hr chunk eq_refl) as [Hc Hbytes].
    destruct (is_empty chunk) eqn:He; [done |].
    assert (Hpos : 0 < len chunk) by (destruct chunk; [done | unfold len; simpl; lia]).
    specialize (IH offset length (buffer ++ chunk) w').
    rewrite len_app in IH. specialize (IH ltac:(lia) Ho ltac:(lia)).
    destruct (positional_read_loop _ _ _ _ _) as [w'' r]. destruct IH as (Hk' & Hp & Hok).
    split; [congruence |]. split; [done |]. intros bytes Hb'. destruct (Hok bytes Hb') as [Hl ->].
    split; [done |]. rewrite Hk, <- app_assoc. f_equal. rewrite Hbytes at 1.
    rewrite N.add_assoc. apply subslice_split; lia.
  - split; [done |]. split; [done |]. intros bytes [= <-]. split; [lia |].
    replace length with (len buffer) by lia. unfold subslice.
    rewrite N.sub_diag. simpl. by rewrite app_nil_r.
Qed.

Lemma keeps_read operation offset length s :
  offset + length <= u64_max ->
  keeps (read_exact_at operation offset length) s
    (fun bytes => len bytes = length /\ bytes = subslice offset (offset + length) (image s)).
Proof.
  intros Ho. unfold keeps, read_exact_at, loop_result, image.
  pose proof (read_loop_keeps (S (N.to_nat length)) offset length [] s.1) as Hl.
  destruct (positional_read_loop _ _ _ _ _) as [w r]. simpl in *.
  destruct Hl as (Hk & Hp & Hok); [unfold len; simpl; lia | done | unfold len; simpl; lia |].
  split; [done |]. split; [by apply map_err_safe |]. intros bytes Hb. apply map_err_Ok in Hb.
  destruct (Hok bytes Hb) as [Hl Hbytes]. split; [done |]. rewrite Hbytes. simpl.
  by rewrite N.add_0_r.
Qed.

(** The loop started after [done'] bytes of the whole buffer were written. *)
Lemma write_loop_ends fuel : forall offset done' buffer w,
  (length buffer < fuel)%nat -> offset + done' + len buffer <= len (os_content w) ->
  len (os_content w) <= u64_max ->
  let '(w', r) := positional_write_loop fuel offset done' buffer w in
  differs_within [[offset + done'; len buffer]] (os_content w) (os_content w') /\ r <> Panic /\
  (r = Ok tt -> os_content w' = splice (offset + done') buffer (os_content w)).
Proof.
  induction fuel as [|fuel IH]; intros offset done' buffer w Hf Hfit Hu; simpl; [lia |].
  destruct (is_empty buffer) eqn:He.
  { destruct buffer; [|done]. split; [apply differs_refl |]. split; [done |]. intros _.
    rewrite splice_nil; [done |]. unfold len in *. simpl in *. lia. }
  rewrite (add_u64_fits (E := io_error)) by lia.
  pose proof (write_at_bytes w (offset + done') buffer) as Hok.
  pose proof (write_at_failed w (offset + done') buffer) as Hfail.
  destruct (os_write_at _ _ _) as [w' [e|count]]; simpl in *.
  { split; [by eapply Hfail |]. done. }
  destruct (Hok count Hfit eq_refl) as [Hc Hw]. clear Hok Hfail.
  set (front := take (N.to_nat count) buffer) in *.
  assert (Hfl : len front = count) by (unfold front, len in *; rewrite length_take; lia).
  assert (Hd : differs_within [[offset + done'; len buffer]] (os_content w) (os_content w')).
  { rewrite Hw. eapply (differs_sub (offset + done') (len front)); [left | lia | lia |].
    apply splice_differs. lia. }
  destruct (N.eqb_spec count 0) as [->|Hpos]; [done |].
  assert (Hdl : len (drop (N.to_nat count) buffer) = len buffer - count)
    by (unfold len in *; rewrite length_drop; lia).
  specialize (IH offset (done' + count) (drop (N.to_nat count) buffer) w').
  destruct Hd as [Hlen Hd]. rewrite Hlen, Hdl in IH.
  specialize (IH ltac:(rewrite length_drop; unfold len in *; lia) ltac:(lia) Hu).
  destruct (positional_write_loop _ _ _ _ _) as [w'' r]. destruct IH as (Hd' & Hp & Hok).
  split; [|split; [done |]].
  - eapply differs_trans; [by split |]. eapply differs_sub; [left | | |exact Hd']; lia.
  - intros Hr. rewrite (Hok Hr), Hw, N.add_assoc.
    replace (offset + done' + count) with (offset + done' + len front) by lia.
    rewrite splice_extend by (rewrite Hdl; lia). unfold front. by rewrite take_drop.
Qed.

Lemma ends_write operation offset buffer s :
  offset + len buffer <= len (image s) -> len (image s) <= u64_max ->
  ends (write_all_at operation offset buffer) s [[offset; len buffer]]
    (fun _ c => c = splice offset buffer (image s)).
Proof.
  intros Hf Hu. unfold ends, write_all_at, loop_result, image in *.
  pose proof (write_loop_ends (S (length buffer)) offset 0 buffer s.1) as Hl.
  destruct (positional_write_loop _ _ _ _ _) as [w r]. simpl in *. rewrite N.add_0_r in Hl.
  destruct Hl as (Hd & Hp & Hok); [lia | done | done |].
  split; [done |]. split; [by apply map_err_safe |]. intros [] Ha. apply map_err_Ok in Ha. auto.
Qed.

Lemma keeps_verify offset expected kind index chunk s :
  offset + len expected <= u64_max ->
  keeps (verify_at offset expected kind index chunk) s (fun _ => True).
Proof.
  intros Ho. unfold verify_at.
  eapply keeps_bind; [apply keeps_inject |]. intros ? s1 _ _.
  eapply keeps_bind; [by apply keeps_read |]. intros actual s2 _ _.
  eapply keeps_bind; [apply keeps_lift, refuse_if_safe |]. intros ? s3 _ _. apply keeps_inject.
Qed.
End Calculus.

(** ** The write loops *)
Section Loops.
Context {W F : Type} `{OperatingSystemLaws W} `{FaultInjector F} `{Digests}.
#[local] Existing Instances exec_ret exec_bind.
#[local] Set Default Proof Using "Type*".
Abbreviation execution := (exec (W := W) (F := F)).
Implicit Types (s : W * F) (x : ImageExecutor).

(** The executor was opened with a usable chunk limit. *)
Definition executor_ok x : Prop := 0 < ie_max_chunk_bytes x <= usize_max.
(** The handle is on an image of the pinned length. *)
Definition pinned x s : Prop :=
  len (image s) = id_length (ie_identity x) /\ len (image s) <= u64_max.

Lemma pinned_differs x s s' rs :
  pinned x s -> differs_within rs (image s) (image s') -> pinned x s'.
Proof. intros [Hl Hu] [Hd _]. unfold pinned. by rewrite Hd. Qed.

Lemma chunk_length_Ok remaining maximum count :
  chunk_length remaining maximum = Ok count -> count = N.min remaining maximum.
Proof. unfold chunk_length. intros Hc. inv_ok. done. Qed.
Lemma chunk_length_safe remaining maximum : chunk_length remaining maximum <> Panic.
Proof. unfold chunk_length. safe. Qed.
Lemma keeps_chunk_length remaining maximum s :
  0 < remaining -> 0 < maximum ->
  keeps (lift (chunk_length remaining maximum) : execution N) s
    (fun count => 0 < count <= remaining).
Proof.
  intros Hr Hm. split_and!; [done | apply chunk_length_safe |].
  intros count Hc%chunk_length_Ok. lia.
Qed.
Lemma keeps_add a b s :
  keeps (lift (ok_or ExecutorOverflow (checked_add a b)) : execution N) s (fun c => c = a + b).
Proof. split_and!; [done | apply ok_or_safe |]. intros c Hc. simpl in Hc. by inv_ok. Qed.
Lemma keeps_add_u64 a b s :
  a + b <= u64_max -> keeps (lift (add_u64 a b) : execution N) s (fun c => c = a + b).
Proof.
  intros Hf. split_and!; [done | by apply add_u64_safe |]. intros c Hc. simpl in Hc. by inv_ok.
Qed.
Lemma keeps_usize n s :
  keeps (lift (ok_or ExecutorOverflow (usize_try_from n)) : execution N) s (fun c => c = n).
Proof. split_and!; [done | apply ok_or_safe |]. intros c Hc. simpl in Hc. by inv_ok. Qed.
Lemma keeps_index lo hi (l : list byte) s :
  lo <= hi -> hi <= len l ->
  keeps (lift (index_range lo hi l) : execution _) s (fun c => c = subslice lo hi l).
Proof.
  intros Hl Hh. split_and!; [done | by apply index_range_safe |]. intros c Hc. simpl in Hc.
  by apply index_range_Ok in Hc as (_ & _ & ->).
Qed.

Lemma write_chunk_ends x kind index write relative bytes s R :
  ow_offset write + relative + len bytes <= len (image s) -> len (image s) <= u64_max ->
  [ow_offset write + relative; len bytes] = R ->
  ends (write_chunk x kind index write relative bytes : execution unit) s [R]
    (fun _ c => c = splice (ow_offset write + relative) bytes (image s)).
Proof.
  intros Hf Hu <-. unfold write_chunk.
  eapply ends_keep; [apply keeps_same |]. intros ? s1 Hs1 _.
  eapply ends_keep; [apply keeps_inject |]. intros ? s2 Hs2 _. rewrite <- Hs2 in Hs1. clear Hs2.
  eapply ends_keep; [apply keeps_add_u64; lia |]. intros ? s3 Hs3 ->.
  rewrite <- Hs3 in Hs1. clear Hs3 s2.
  eapply ends_bind; [apply ends_write; rewrite Hs1; lia |]. intros [] s4 _ Hs4. simpl in Hs4.
  eapply ends_keep; [apply keeps_inject |]. intros ? s5 Hs5 _.
  eapply ends_keeps; [apply keeps_verify; lia |]. intros _ _. by rewrite Hs5, Hs4, Hs1.
Qed.

(** One write, chunk by chunk: after [relative] bytes the image holds the first
    [relative] bytes of the write. *)
Lemma write_chunks_ends x kind index write img fuel : forall relative total hasher s,
  executor_ok x -> len img <= u64_max -> ow_offset write + ow_length write <= len img ->
  relative <= ow_length write -> (N.to_nat (ow_length write - relative) < fuel)%nat ->
  image s = splice (ow_offset write) (take (N.to_nat relative) (ow_bytes write)) img ->
  ends (write_chunks fuel x kind index write relative total hasher : execution _) s
    [write_range write]
    (fun r c => c = patch_one img write /\ r.1 = total + (ow_length write - relative) /\
                r.2 = hasher ++ drop (N.to_nat relative) (ow_bytes write)).
Proof.
  induction fuel as [|fuel IH]; intros relative total hasher s Hx Hu Hfit Hrel Hfuel Hs;
    [lia |]. simpl. fold (ow_length write).
  assert (Hfront : len (take (N.to_nat relative) (ow_bytes write)) = relative)
    by (unfold ow_length, len in *; rewrite length_take; lia).
  assert (Hlen : len (image s) = len img) by (rewrite Hs; apply len_splice; lia).
  destruct (N.ltb_spec relative (ow_length write)) as [Hlt|Hge].
  2: { apply ends_ret. assert (relative = ow_length write) as -> by lia. simpl. split_and!.
    - rewrite Hs. unfold patch_one. f_equal. unfold ow_length, len. rewrite Nat2N.id. apply firstn_all.
    - lia.
    - unfold ow_length, len. by rewrite Nat2N.id, drop_all, app_nil_r. }
  eapply ends_keep; [apply keeps_chunk_length; [lia | apply Hx] |]. intros count s1 Hs1 Hc. simpl in Hc.
  eapply ends_keep; [apply keeps_usize |]. intros ? s2 Hs2 ->.
  eapply ends_keep; [apply keeps_add |]. intros ? s3 Hs3 ->.
  eapply ends_keep; [apply keeps_index; [lia | fold (ow_length write); lia] |].
  intros bytes s4 Hs4 ->. set (bytes := subslice _ _ _).
  assert (Hbl : len bytes = count)
    by (unfold bytes; rewrite len_subslice by (fold (ow_length write); lia); lia).
  assert (Hs0 : image s4 = image s) by congruence. clear Hs1 Hs2 Hs3 Hs4.
  apply (ends_bind _ _ _ _ (fun _ c => c = splice (ow_offset write + relative) bytes
    (splice (ow_offset write) (take (N.to_nat relative) (ow_bytes write)) img))).
  { eapply ends_weaken; [by apply write_chunk_ends; [rewrite Hs0; lia.. |] | |].
    - intros c Hd. eapply differs_sub; [left | | |exact Hd]; fold (ow_length write); lia.
    - intros [] c Hc'. rewrite Hs0, Hs in Hc'. exact Hc'. }
  intros [] s5 _ Hs5. simpl in Hs5.
  eapply ends_keep; [apply keeps_add |]. intros ? s6 Hs6 ->.
  eapply ends_keep; [apply keeps_add |]. intros ? s7 Hs7 ->.
  assert (Htake : take (N.to_nat relative) (ow_bytes write) ++ bytes =
    take (N.to_nat (relative + count)) (ow_bytes write)).
  { unfold bytes, subslice. rewrite N2Nat.inj_add, <- take_take_drop. do 2 f_equal. lia. }
  eapply ends_weaken; [apply (IH (relative + count) (total + count) (hasher ++ bytes)) |done|]; try done.
  - lia.
  - lia.
  - rewrite Hs7, Hs6, Hs5. replace (ow_offset write + relative) with
      (ow_offset write + len (take (N.to_nat relative) (ow_bytes write))) by lia.
    rewrite splice_extend by lia. by rewrite Htake.
  - intros r c (-> & -> & ->). split_and!; [done | lia |]. rewrite <- app_assoc. f_equal.
    unfold bytes, subslice. rewrite N2Nat.inj_add, <- drop_drop.
    replace (N.to_nat (relative + count - relative)) with (N.to_nat count) by lia.
    apply take_drop.
Qed.

(** The same for relocations, whose bytes come from the image itself. *)
Definition relocation_write (img : list byte) (r : Relocation) : OverlayWrite :=
  mkOverlayWrite (br_offset (rl_destination r))
    (subslice (br_offset (rl_source r)) (br_offset (rl_source r) + br_length (rl_source r)) img).
(** What [check_relocation] establishes. *)
Definition relocation_fits (n : N) (r : Relocation) : Prop :=
  let src := rl_source r in let dst := rl_destination r in
  br_length dst = br_length src /\ 0 < br_length src /\
  br_offset src + br_length src <= n /\ br_offset dst + br_length dst <= n /\
  (br_offset src + br_length src <= br_offset dst \/
   br_offset dst + br_length dst <= br_offset src).

Lemma relocation_write_length img r :
  br_offset (rl_source r) + br_length (rl_source r) <= len img ->
  ow_length (relocation_write img r) = br_length (rl_source r).
Proof. intros Hf. unfold ow_length, relocation_write. simpl. rewrite len_subslice; lia. Qed.

Lemma executor_range_Ok n offset length u :
  validate_range n offset length = Ok u -> 0 < length /\ offset + length <= n.
Proof. unfold validate_range. intros Hv. inv_ok. bool_props. lia. Qed.
Lemma executor_range_safe n offset length : validate_range n offset length <> Panic.
Proof. unfold validate_range. safe. Qed.

Lemma check_relocation_Ok x index r u :
  check_relocation x index r = Ok u -> relocation_fits (id_length (ie_identity x)) r.
Proof.
  unfold check_relocation, relocation_fits. intros Hc. apply bind_Ok in Hc as ([] & Hg & Hc).
  apply bind_Ok in Hc as ([] & Hs & Hd). apply executor_range_Ok in Hs, Hd.
  destruct (negb _ || _) eqn:He; [done |]. bool_props.
  apply bind_Ok in Hg as (overlap & Ho & Hg). apply refuse_if_Ok in Hg. subst overlap.
  unfold ranges_overlap in Ho. inv_ok. apply andb_false_iff in Ho.
  rewrite !N.ltb_ge in Ho. split_and!; try lia.
Qed.
Lemma check_relocation_safe x index r : check_relocation x index r <> Panic.
Proof. unfold check_relocation, ranges_overlap, validate_range. safe. Qed.

Lemma relocation_chunk_ends x index r relative count s :
  let src := br_offset (rl_source r) + relative in
  let dst := br_offset (rl_destination r) + relative in
  len (image s) <= u64_max -> src + count <= len (image s) -> dst + count <= len (image s) ->
  ends (relocation_chunk x index r relative count : execution _) s [[dst; count]]
    (fun bytes c => bytes = subslice src (src + count) (image s) /\
                    c = splice dst bytes (image s)).
Proof.
  intros src dst Hu Hsrc Hdst. unfold relocation_chunk.
  eapply ends_keep; [apply keeps_same |]. intros ? s1 Hs1 _.
  eapply ends_keep; [apply keeps_inject |]. intros ? s2 Hs2 _. rewrite <- Hs2 in Hs1. clear s1 Hs2.
  eapply ends_keep; [apply keeps_add_u64; fold src; lia |]. intros ? s3 Hs3 ->. fold src.
  rewrite <- Hs3 in Hs1. clear s2 Hs3.
  eapply ends_keep; [apply keeps_read; lia |]. intros bytes s4 Hs4 [Hbl Hbytes].
  rewrite Hs1 in Hbytes. rewrite <- Hs4 in Hs1. clear s3 Hs4.
  eapply ends_keep; [apply keeps_inject |]. intros ? s5 Hs5 _. rewrite <- Hs5 in Hs1. clear s4 Hs5.
  eapply ends_keep; [apply keeps_inject |]. intros ? s6 Hs6 _. rewrite <- Hs6 in Hs1. clear s5 Hs6.
  eapply ends_keep; [apply keeps_add_u64; fold dst; lia |]. intros ? s7 Hs7 ->. fold dst.
  rewrite <- Hs7 in Hs1. clear s6 Hs7.
  apply (ends_bind _ _ _ _ (fun _ c => c = splice dst bytes (image s))).
  { eapply ends_weaken; [apply ends_write; rewrite Hs1; lia | |].
    - intros c Hd. by rewrite Hbl in Hd.
    - intros _ c ->. by rewrite Hs1. }
  intros [] s8 _ Hs8.
  eapply ends_keep; [apply keeps_inject |]. intros ? s9 Hs9 _.
  eapply ends_keep; [apply keeps_verify; lia |]. intros ? s10 Hs10 _.
  apply ends_ret. by rewrite Hs10, Hs9, Hs8.
Qed.

Lemma relocation_chunks_ends x index r img fuel : forall relative total hasher s,
  executor_ok x -> len img <= u64_max -> relocation_fits (len img) r ->
  relative <= br_length (rl_source r) -> (N.to_nat (br_length (rl_source r) - relative) < fuel)%nat ->
  image s = splice (br_offset (rl_destination r))
    (take (N.to_nat relative) (ow_bytes (relocation_write img r))) img ->
  ends (relocation_chunks fuel x index r relative total hasher : execution _) s
    [[br_offset (rl_destination r); br_length (rl_destination r)]]
    (fun st c => c = relocate_one img r /\
       st.1 = total + (br_length (rl_source r) - relative) /\
       st.2 = hasher ++ drop (N.to_nat relative) (ow_bytes (relocation_write img r))).
Proof.
  induction fuel as [|fuel IH]; intros relative total hasher s Hx Hu Hfit Hrel Hfuel Hs;
    [lia |]. simpl. pose proof Hfit as (Heq & Hpos & Hsf & Hdf & Hapart).
  pose proof (relocation_write_length img r Hsf) as HB.
  set (B := ow_bytes (relocation_write img r)) in *. unfold ow_length in HB. fold B in HB.
  set (src := br_offset (rl_source r)) in *. set (dst := br_offset (rl_destination r)) in *.
  set (n := br_length (rl_source r)) in *.
  assert (Hfront : len (take (N.to_nat relative) B) = relative)
    by (unfold len in *; rewrite length_take; lia).
  assert (Hlen : len (image s) = len img) by (rewrite Hs; apply len_splice; lia).
  destruct (N.ltb_spec relative n) as [Hlt|Hge].
  2: { apply ends_ret. assert (relative = n) as -> by lia. simpl. split_and!.
    - rewrite Hs. unfold relocate_one. f_equal. fold src n. change (subslice _ _ _) with B.
      rewrite <- HB. unfold len. rewrite Nat2N.id. apply firstn_all.
    - lia.
    - assert (N.to_nat n = length B) as -> by (unfold len in HB; lia).
      by rewrite drop_all, app_nil_r. }
  eapply ends_keep; [apply keeps_chunk_length; [lia | apply Hx] |]. intros count s1 Hs1 Hc.
  simpl in Hc.
  apply (ends_bind _ _ _ _ (fun bytes c => bytes = subslice relative (relative + count) B /\
    c = splice (dst + relative) bytes (splice dst (take (N.to_nat relative) B) img))).
  { eapply ends_weaken; [apply relocation_chunk_ends; rewrite ?Hs1; fold src dst; lia | |].
    - intros c Hd. eapply differs_sub; [left | | |exact Hd]; fold dst; lia.
    - intros bytes c [Hb ->]. fold src dst in Hb |- *. rewrite Hs1, Hs in Hb |- *.
      split; [|done]. rewrite Hb. rewrite subslice_splice_apart by lia.
      unfold B, relocation_write. simpl. fold src n. rewrite subslice_subslice by lia.
      f_equal; lia. }
  intros bytes s2 _ [Hbytes Hs2].
  assert (Hbl : len bytes = count) by (rewrite Hbytes, len_subslice by lia; lia).
  eapply ends_keep; [apply keeps_add |]. intros ? s6 Hs6 ->.
  eapply ends_keep; [apply keeps_add |]. intros ? s7 Hs7 ->.
  assert (Htake : take (N.to_nat relative) B ++ bytes = take (N.to_nat (relative + count)) B).
  { rewrite Hbytes. unfold subslice. rewrite N2Nat.inj_add, <- take_take_drop. do 2 f_equal. lia. }
  eapply ends_weaken; [apply (IH (relative + count) (total + count) (hasher ++ bytes)) |done|];
    try done; fold src dst n B.
  - lia.
  - lia.
  - rewrite Hs7, Hs6, Hs2. rewrite <- Htake, <- splice_extend by lia. by rewrite Hfront.
  - intros st c (-> & -> & ->). split_and!; [done | lia |]. rewrite <- app_assoc. f_equal.
    rewrite Hbytes. unfold subslice. rewrite N2Nat.inj_add, <- drop_drop.
    replace (N.to_nat (relative + count - relative)) with (N.to_nat count) by lia.
    apply take_drop.
Qed.
End Loops.

(** ** Whole intents *)

(** The bytes the evidence of a run commits to. *)
Definition write_evidence (write : OverlayWrite) : list byte :=
  u64_le (ow_offset write) ++ u64_le (ow_length write) ++ ow_bytes write.
Fixpoint relocation_evidence (img : list byte) (rs : list Relocation) : list byte :=
  match rs with
  | [] => []
  | r :: rs =>
      u64_le (br_offset (rl_source r)) ++ u64_le (br_offset (rl_destination r)) ++
      u64_le (br_length (rl_source r)) ++ ow_bytes (relocation_write img r) ++
      relocation_evidence (relocate_one img r) rs
  end.

(** The ranges the executor has checked when an intent succeeds. *)
Definition intent_fits (n : N) (intent : TransactionIntent) : Prop :=
  match intent with
  | Relocate rs => Forall (relocation_fits n) rs
  | StageTarget ws | WriteBackupBoot ws | Activate ws =>
      Forall (write_fits n) (rw_write <$> ws)
  | _ => True
  end.

(** The group of the plan an intent stands for, and the phase it completes. *)
Definition plan_ranges (p : PreparedConversion) (intent : TransactionIntent) : list (list N) :=
  match intent with
  | Relocate _ => relocation_ranges p
  | StageTarget _ => reserved_ranges (ws_target_staging (pc_writes p))
  | WriteBackupBoot _ => reserved_ranges (ws_backup_boot (pc_writes p))
  | Activate _ => reserved_ranges (ws_activation (pc_writes p))
  | _ => []
  end.
Definition authorized (p : PreparedConversion) (intent : TransactionIntent)
    (completed : TransactionPhase) (kind : ExecutionKind) : Prop :=
  match intent with
  | Relocate rs => rs = lp_relocations (pc_layout p) /\ lp_materializations (pc_layout p) = [] /\
      completed = Relocating /\ kind = Relocation'
  | StageTarget ws => ws = ws_target_staging (pc_writes p) /\ completed = TargetStaged /\
      kind = TargetStaging
  | WriteBackupBoot ws => ws = ws_backup_boot (pc_writes p) /\ completed = BackupBootWritten /\
      kind = BackupBoot
  | Activate ws => ws = ws_activation (pc_writes p) /\ completed = Activated /\ kind = Activation
  | _ => False
  end.

Section Intents.
Context {W F : Type} `{OperatingSystemLaws W} `{FaultInjector F} `{Digests}.
#[local] Existing Instances exec_ret exec_bind.
#[local] Set Default Proof Using "Type*".
Abbreviation execution := (exec (W := W) (F := F)).
Implicit Types (s : W * F) (x : ImageExecutor) (p : PreparedConversion).

(** The exact evidence of a run over the given bytes. *)
Definition evidence_of (kind : ExecutionKind) (operations bytes_written : N)
    (hashed : list byte) : ExecutionEvidence :=
  mkExecutionEvidence kind operations bytes_written (sha256 (evidence_hasher kind ++ hashed))
    true true.
Definition intent_evidence (img : list byte) (kind : ExecutionKind) (intent : TransactionIntent)
    : ExecutionEvidence :=
  match intent with
  | Relocate rs => evidence_of kind (len rs) (sum_by (fun r => br_length (rl_source r)) rs)
      (relocation_evidence img rs)
  | StageTarget ws | WriteBackupBoot ws | Activate ws =>
      evidence_of kind (len ws) (sum_by (fun w => ow_length (rw_write w)) ws)
        (concat (write_evidence <$> (rw_write <$> ws)))
  | _ => evidence_of kind 0 0 []
  end.

Lemma keeps_finish x kind operations bytes hasher s :
  keeps (finish_durable x kind operations bytes hasher : execution _) s
    (fun e => e = mkExecutionEvidence kind operations bytes (sha256 hasher) true true).
Proof.
  unfold finish_durable.
  eapply keeps_bind; [apply keeps_same |]. intros ? s1 _ _.
  eapply keeps_bind; [apply keeps_inject |]. intros ? s2 _ _.
  eapply keeps_bind; [apply keeps_call, sync_data_keeps |]. intros ? s3 _ _.
  eapply keeps_bind; [apply keeps_inject |]. intros ? s4 _ _.
  eapply keeps_bind; [apply keeps_same |]. intros ? s5 _ _.
  eapply keeps_bind; [apply keeps_inject |]. intros ? s6 _ _.
  eapply keeps_bind; [apply keeps_call, sync_all_keeps |]. intros ? s7 _ _.
  eapply keeps_bind; [apply keeps_inject |]. intros ? s8 _ _.
  eapply keeps_bind; [apply keeps_same |]. intros ? s9 _ _. by apply keeps_ret.
Qed.

Lemma copy_relocation_ends x index r st s :
  executor_ok x -> pinned x s ->
  ends (copy_relocation x index r st : execution _) s
    [[br_offset (rl_destination r); br_length (rl_destination r)]]
    (fun st' c => c = relocate_one (image s) r /\ relocation_fits (len (image s)) r /\
       st'.1 = st.1 + br_length (rl_source r) /\
       st'.2 = st.2 ++ u64_le (br_offset (rl_source r)) ++ u64_le (br_offset (rl_destination r)) ++
         u64_le (br_length (rl_source r)) ++ ow_bytes (relocation_write (image s) r)).
Proof.
  intros Hx [Hl Hu]. unfold copy_relocation.
  eapply ends_keep; [apply keeps_lift, check_relocation_safe |]. intros ? s1 Hs1 Hc.
  apply check_relocation_Ok in Hc. rewrite <- Hl in Hc. pose proof Hc as (Heq & Hpos & ? & ? & ?).
  rewrite Heq. eapply ends_weaken; [apply (relocation_chunks_ends _ _ _ (image s)) | |].
  - done.
  - done.
  - done.
  - lia.
  - lia.
  - rewrite Hs1. simpl. by rewrite splice_nil by lia.
  - intros c. by rewrite Heq.
  - intros st' c (-> & -> & ->). split_and!; [done | done | lia |]. simpl.
    by rewrite <- !app_assoc.
Qed.

Lemma copy_all_ends x R rs : forall index st s,
  executor_ok x -> pinned x s ->
  ((fun r => [br_offset (rl_destination r); br_length (rl_destination r)]) <$> rs) ⊆ R ->
  ends (each (copy_relocation x) index rs st : execution _) s R
    (fun st' c => c = relocate_bytes (image s) rs /\
       Forall (relocation_fits (len (image s))) rs /\
       st'.1 = st.1 + sum_by (fun r => br_length (rl_source r)) rs /\
       st'.2 = st.2 ++ relocation_evidence (image s) rs).
Proof.
  induction rs as [|r rs IH]; intros index st s Hx Hp HR; simpl.
  - apply ends_ret. simpl. rewrite app_nil_r. split_and!; [done | constructor | lia | done].
  - eapply ends_bind.
    + eapply ends_weaken; [by apply copy_relocation_ends | | done].
      intros c. apply differs_mono. intros y ->%list_elem_of_singleton. apply HR. left.
    + intros st1 s1 Hd (Hs1 & Hfit & Ht & Hh).
      eapply ends_weaken; [apply IH | done |].
      * done.
      * by eapply pinned_differs.
      * intros y Hy. apply HR. by right.
      * destruct Hd as [Hd _].
        intros st' c (-> & Hall & -> & ->). rewrite Hs1 in Hall |- *.
        assert (Hlen : len (relocate_one (image s) r) = len (image s)) by (by rewrite <- Hs1).
        rewrite Hlen in Hall. split_and!; [done | by constructor | rewrite Ht; simpl; lia |].
        rewrite Hh, <- !app_assoc. done.
Qed.

Lemma apply_write_ends x kind index write st s :
  executor_ok x -> pinned x s ->
  ends (apply_write x kind index write st : execution _) s [write_range write]
    (fun st' c => c = patch_one (image s) write /\ write_fits (len (image s)) write /\
       st'.1 = st.1 + ow_length write /\ st'.2 = st.2 ++ write_evidence write).
Proof.
  intros Hx [Hl Hu]. unfold apply_write.
  eapply (ends_keep _ _ _ _ (fun n => n = ow_length write)).
  { split_and!; [done | apply ok_or_safe |]. intros n Hn. simpl in Hn. by inv_ok. }
  intros ? s1 Hs1 ->.
  eapply ends_keep; [apply keeps_lift, executor_range_safe |]. intros ? s2 Hs2 Hv.
  apply executor_range_Ok in Hv as [Hpos Hfit]. rewrite <- Hl in Hfit.
  eapply ends_weaken; [apply (write_chunks_ends _ _ _ _ (image s)) | done |].
  - done.
  - done.
  - done.
  - lia.
  - unfold ow_length, len. lia.
  - rewrite Hs2, Hs1. simpl. by rewrite splice_nil by lia.
  - intros st' c (-> & -> & ->). split_and!; [done | done | lia |].
    unfold write_evidence. simpl. by rewrite <- !app_assoc.
Qed.

Lemma apply_all_ends x kind R writes : forall index st s,
  executor_ok x -> pinned x s -> (write_range <$> writes) ⊆ R ->
  ends (each (apply_write x kind) index writes st : execution _) s R
    (fun st' c => c = patch (image s) writes /\ Forall (write_fits (len (image s))) writes /\
       st'.1 = st.1 + sum_by ow_length writes /\
       st'.2 = st.2 ++ concat (write_evidence <$> writes)).
Proof.
  induction writes as [|w writes IH]; intros index st s Hx Hp HR; simpl.
  - apply ends_ret. simpl. rewrite app_nil_r. split_and!; [done | constructor | lia | done].
  - eapply ends_bind.
    + eapply ends_weaken; [by apply apply_write_ends | | done].
      intros c. apply differs_mono. intros y ->%list_elem_of_singleton. apply HR. left.
    + intros st1 s1 Hd (Hs1 & Hfit & Ht & Hh).
      eapply ends_weaken; [apply IH | done |].
      * done.
      * by eapply pinned_differs.
      * intros y Hy. apply HR. by right.
      * destruct Hd as [Hd _].
        intros st' c (-> & Hall & -> & ->). rewrite Hs1 in Hall |- *.
        assert (Hlen : len (patch_one (image s) w) = len (image s)) by (by rewrite <- Hs1).
        rewrite Hlen in Hall. split_and!; [done | by constructor | rewrite Ht; simpl; lia |].
        rewrite Hh, <- !app_assoc. done.
Qed.

Lemma copy_relocations_ends x relocations s :
  executor_ok x -> pinned x s ->
  ends (copy_relocations x relocations : execution _) s (intent_ranges (Relocate relocations))
    (fun e c => c = relocate_bytes (image s) relocations /\
       Forall (relocation_fits (len (image s))) relocations /\
       e = intent_evidence (image s) Relocation' (Relocate relocations)).
Proof.
  intros Hx Hp. unfold copy_relocations. eapply ends_bind; [by apply copy_all_ends |].
  intros st s1 _ (Hc & Hf & Ht & Hh). eapply ends_keeps; [apply keeps_finish |].
  intros e ->. rewrite Ht, Hh. done.
Qed.
Lemma apply_writes_ends x kind writes s :
  executor_ok x -> pinned x s ->
  ends (apply_write_refs x kind writes : execution _) s (write_range <$> writes)
    (fun e c => c = patch (image s) writes /\ Forall (write_fits (len (image s))) writes /\
       e = evidence_of kind (len writes) (sum_by ow_length writes)
             (concat (write_evidence <$> writes))).
Proof.
  intros Hx Hp. unfold apply_write_refs. eapply ends_bind; [by apply apply_all_ends |].
  intros st s1 _ (Hc & Hf & Ht & Hh). eapply ends_keeps; [apply keeps_finish |].
  intros e ->. rewrite Ht, Hh. done.
Qed.
End Intents.

Section Authorized.
Context {W F : Type} `{OperatingSystemLaws W} `{FaultInjector F} `{Digests}.
#[local] Existing Instances exec_ret exec_bind.
#[local] Set Default Proof Using "Type*".
Abbreviation execution := (exec (W := W) (F := F)).
Implicit Types (s : W * F) (x : ImageExecutor) (p : PreparedConversion).

Lemma sum_reserved ws : sum_by ow_length (rw_write <$> ws) = sum_by (fun w => ow_length (rw_write w)) ws.
Proof.
  clear. induction ws as [|w ws IH]; [done |].
  change (sum_by ow_length (rw_write <$> w :: ws))
    with (ow_length (rw_write w) + sum_by ow_length (rw_write <$> ws)). by rewrite IH.
Qed.
Lemma reserved_ranges_writes ws : write_range <$> (rw_write <$> ws) = reserved_ranges ws.
Proof. unfold reserved_ranges. by rewrite <- list_fmap_compose. Qed.
Lemma exact_phase_Ok expected supplied u :
  validate_exact_phase expected supplied = Ok u -> supplied = expected.
Proof. unfold validate_exact_phase. by case_bool_decide. Qed.
Lemma exact_phase_safe expected supplied : validate_exact_phase expected supplied <> Panic.
Proof. unfold validate_exact_phase. by case_bool_decide. Qed.

Lemma apply_reserved_ends x kind ws s :
  executor_ok x -> pinned x s ->
  ends (apply_reserved_writes x kind ws : execution _) s (reserved_ranges ws)
    (fun e c => c = patch (image s) (rw_write <$> ws) /\
       Forall (write_fits (len (image s))) (rw_write <$> ws) /\
       e = evidence_of kind (len ws) (sum_by (fun w => ow_length (rw_write w)) ws)
             (concat (write_evidence <$> (rw_write <$> ws)))).
Proof.
  intros Hx Hp. unfold apply_reserved_writes. rewrite <- reserved_ranges_writes, <- sum_reserved.
  eapply ends_weaken; [by apply apply_writes_ends | done |].
  intros e c (-> & Hf & ->). split; [done |]. split; [done |]. unfold len. by rewrite length_fmap.
Qed.

(** The three write groups share this step. *)
Lemma write_group_ends x kind expected ws completed s (Q : _ -> _ -> Prop) :
  executor_ok x -> pinned x s ->
  (forall e, ws = expected -> Forall (write_fits (len (image s))) (rw_write <$> ws) -> e = evidence_of kind (len ws)
     (sum_by (fun w => ow_length (rw_write w)) ws) (concat (write_evidence <$> (rw_write <$> ws))) ->
   Q (e, completed) (patch (image s) (rw_write <$> ws))) ->
  ends (lift (validate_exact_phase expected ws) ;;
        evidence ← apply_reserved_writes x kind ws;
        mret (evidence, completed) : execution (ExecutionEvidence * TransactionPhase)) s
    (reserved_ranges expected) Q.
Proof.
  intros Hx Hp HQ.
  eapply ends_keep; [apply keeps_lift, exact_phase_safe |]. intros ? s1 Hs1 He.
  apply exact_phase_Ok in He as Hws. rewrite <- Hws.
  eapply ends_bind.
  { apply apply_reserved_ends; [done |]. unfold pinned. by rewrite Hs1. }
  intros e s2 _ (Hc & Hf & Hev). apply ends_ret. rewrite Hs1 in Hc, Hf. rewrite Hc. by apply HQ.
Qed.

Lemma execute_intent_ends x p intent s :
  executor_ok x -> pinned x s ->
  ends (execute_intent_with_faults x p intent : execution _) s (plan_ranges p intent)
    (fun ei c => c = intent_effect intent (image s) /\ intent_fits (len (image s)) intent /\
       matches_regular_image p (ie_identity x) = true /\
       (exists kind, authorized p intent (ei_completed_phase ei) kind /\
          ei_evidence ei = intent_evidence (image s) kind intent) /\
       ei_plan_digest ei = pc_plan_digest p /\
       ei_image_instance ei = stable_container_token (ie_identity x)).
Proof.
  intros Hx Hp. unfold execute_intent_with_faults.
  eapply ends_keep; [apply keeps_lift, refuse_if_safe |]. intros ? s1 Hs1 Hm.
  apply refuse_if_Ok in Hm. bool_props.
  assert (Hp1 : pinned x s1) by (unfold pinned; by rewrite Hs1).
  apply (ends_bind _ _ _ _ (fun r c => c = intent_effect intent (image s) /\
    intent_fits (len (image s)) intent /\ exists kind, authorized p intent r.2 kind /\ r.1 = intent_evidence (image s) kind intent)).
  2: { intros r s2 _ (Hc & Hfit & Ha). apply ends_ret. simpl. by split_and!. }
  rewrite <- Hs1. clear s Hs1 Hp.
  destruct intent as [|relocations|ws|ws| |ws| | |]; try (by split_and!; [apply differs_refl | done..]).
  - eapply ends_keep; [apply keeps_lift, refuse_if_safe |]. intros ? s2 Hs2 Hmat.
    eapply ends_keep; [apply keeps_lift, refuse_if_safe |]. intros ? s3 Hs3 Hrel.
    apply refuse_if_Ok in Hmat, Hrel. bool_props. subst relocations.
    rewrite <- Hs2, <- Hs3.
    eapply ends_bind; [apply copy_relocations_ends; [done | unfold pinned; by rewrite Hs3, Hs2] |].
    intros e s4 _ (Hc & Hf & He). apply ends_ret. simpl. split; [done |]. split; [done |].
    exists Relocation'. split_and!; [done | by destruct (lp_materializations _) | done | done | done].
  - apply write_group_ends; [done | done |]. intros e He Hf Hev. split; [done |]. split; [done |].
    exists TargetStaging. done.
  - apply write_group_ends; [done | done |]. intros e He Hf Hev. split; [done |]. split; [done |].
    exists BackupBoot. done.
  - apply write_group_ends; [done | done |]. intros e He Hf Hev. split; [done |]. split; [done |].
    exists Activation. done.
Qed.

Lemma lease_phase phase intent :
  lease_authorizes phase intent = true -> forall p, plan_ranges p intent ⊆ touched p phase.
Proof.
  intros Ha p. unfold touched, all_ranges, backup_ranges, staging_ranges.
  destruct phase, intent; try discriminate Ha; simpl; intros y Hy; try done;
    apply elem_of_app; right; exact Hy.
Qed.

Lemma leased_intent_ends x p lease intent s :
  executor_ok x -> pinned x s ->
  ends (execute_leased_intent x p lease intent : execution _) s (touched p (el_current_phase lease))
    (fun li c => c = intent_effect intent (image s) /\ intent_fits (len (image s)) intent /\
       lease_authorizes (el_current_phase lease) intent = true /\
       el_plan_digest lease = pc_plan_digest p /\ matches_regular_image p (ie_identity x) = true /\
       exists kind, authorized p intent (ei_completed_phase (li_executed li)) kind).
Proof.
  intros Hx Hp. unfold execute_leased_intent, validate_lease.
  eapply ends_keep; [apply keeps_lift, refuse_if_safe |]. intros ? s1 Hs1 Hl.
  apply refuse_if_Ok in Hl. bool_props.
  eapply ends_keep; [apply keeps_lift, refuse_if_safe |]. intros ? s2 Hs2 Ha.
  apply refuse_if_Ok in Ha. bool_props. rewrite <- Hs1, <- Hs2.
  eapply ends_bind.
  - eapply ends_weaken; [apply execute_intent_ends; [done |] | |].
    + unfold pinned. by rewrite Hs2, Hs1.
    + intros c. apply differs_mono. by apply lease_phase.
    + intros ei c Hc. exact Hc.
  - intros ei s3 _ (Hc & Hf & Hm & (kind & Hk & _) & _). apply ends_ret. split_and!; eauto.
Qed.

(** The rollback the executor accepts. *)
Definition rollback_authorized p (writes : list OverlayWrite) (digest : list byte) : Prop :=
  (writes = op_writes (pc_staging_rollback_overlay p) \/
   writes = op_writes (pc_preactivation_rollback_overlay p) \/
   writes = op_writes (pc_full_rollback_overlay p)) /\ overlay_digest writes = digest.

Lemma rollback_guard p writes digest :
  negb (existsb (fun candidate => bool_decide (candidate = writes))
    [op_writes (pc_staging_rollback_overlay p); op_writes (pc_preactivation_rollback_overlay p);
     op_writes (pc_full_rollback_overlay p)]) ||
  negb (bool_decide (overlay_digest writes = digest)) = false <->
  rollback_authorized p writes digest.
Proof.
  clear. unfold rollback_authorized.
  rewrite orb_false_iff, !negb_false_iff, bool_decide_eq_true. simpl.
  rewrite !orb_true_iff, !bool_decide_eq_true.
  split; intros [Ha Hd]; (split; [|done]); naive_solver.
Qed.

Lemma execute_rollback_ends x p intent s :
  executor_ok x -> pinned x s ->
  ends (execute_rollback_with_faults x p intent : execution _) s (rollback_ranges intent)
    (fun er c => c = apply_rollback intent (image s) /\
       match intent with
       | DiscardStaging => er_outcome er = StagingDiscarded /\ er_rollback_digest er = None
       | RestoreSource writes digest => rollback_authorized p writes digest /\
           er_rollback_digest er = Some digest /\
           er_outcome er = SourceRestored (evidence_of Rollback (len writes)
             (sum_by ow_length writes) (concat (write_evidence <$> writes)))
       end /\
       er_plan_digest er = pc_plan_digest p /\
       er_image_instance er = stable_container_token (ie_identity x)).
Proof.
  intros Hx Hp. unfold execute_rollback_with_faults.
  eapply ends_keep; [apply keeps_lift, refuse_if_safe |]. intros ? s1 Hs1 _.
  assert (Hp1 : pinned x s1) by (unfold pinned; by rewrite Hs1). rewrite <- Hs1. clear s Hs1 Hp.
  destruct intent as [|writes digest].
  - eapply ends_keep; [by apply (keeps_ret _ _ (fun r => r = (StagingDiscarded, None))) |].
    intros ? s2 Hs2 ->. apply ends_ret. simpl. by rewrite Hs2.
  - apply (ends_bind _ _ _ _ (fun r c => c = patch (image s1) writes /\
      rollback_authorized p writes digest /\ r.2 = Some digest /\
      r.1 = SourceRestored (evidence_of Rollback (len writes) (sum_by ow_length writes)
        (concat (write_evidence <$> writes))))).
    2: { intros r s2 _ (Hc & Ha & Hr2 & Hr1). apply ends_ret. simpl. split_and!; try done; apply Ha. }
    eapply ends_keep; [apply keeps_lift, refuse_if_safe |]. intros ? s2 Hs2 Ha.
    apply refuse_if_Ok in Ha. cbv zeta in Ha. rewrite rollback_guard in Ha.
    eapply ends_bind; [apply apply_writes_ends; [done | unfold pinned; by rewrite Hs2] |].
    intros e s3 _ (Hc & _ & He). apply ends_ret. rewrite Hc, Hs2, He. done.
Qed.

(** The evidence names the plan and the container, and is durable. *)
Lemma leased_rollback_exact x p lease intent s :
  executor_ok x -> pinned x s ->
  ends (execute_leased_rollback x p lease intent : execution _) s (rollback_ranges intent)
    (fun lr c => c = apply_rollback intent (image s) /\
       justified p (RollbackRecorded (lr_executed lr)) /\
       er_rollback_digest (lr_executed lr) =
         match intent with DiscardStaging => None | RestoreSource _ digest => Some digest end).
Proof.
  intros Hx Hp. unfold execute_leased_rollback, validate_lease.
  eapply ends_keep; [apply keeps_lift, refuse_if_safe |]. intros ? s1 Hs1 Hl.
  apply refuse_if_Ok in Hl. unfold matches_regular_image in Hl. bool_props.
  eapply ends_keep; [apply keeps_lift, refuse_if_safe |]. intros ? s2 Hs2 _.
  rewrite <- Hs1, <- Hs2. eapply ends_bind.
  - apply execute_rollback_ends; [done |]. unfold pinned. by rewrite Hs2, Hs1.
  - intros er s3 _ (Hc & Hi & Hpd & Him). apply ends_ret. simpl. split; [done |].
    rename select (pf_image _ = _) into Hpi. rewrite Hpi, Hpd, Him. simpl.
    unfold durable_rollback, rollback_into_checkpoint.
    destruct intent as [|writes digest].
    + destruct Hi as [-> ->]. done.
    + destruct Hi as (_ & -> & ->). done.
Qed.
Lemma leased_rollback_ends x p lease intent s :
  executor_ok x -> pinned x s ->
  ends (execute_leased_rollback x p lease intent : execution _) s (rollback_ranges intent)
    (fun _ c => c = apply_rollback intent (image s)).
Proof.
  intros Hx Hp. eapply ends_weaken; [by apply leased_rollback_exact | done |]. by intros ? ? [-> _].
Qed.
End Authorized.

(** * The claims *)
Section Claims.
Context {W F : Type} `{OperatingSystemLaws W} `{FaultInjector F} `{Digests}.
#[local] Set Default Proof Using "Type*".
Implicit Types (s : W * F) (x : ImageExecutor) (p : PreparedConversion).

(** C8: execution is confined.  Whatever intent is supplied, however the handle
    fails or shortens its transfers and wherever the fault hook stops the run,
    executing returns (no abort, every loop ends) and the image keeps its length
    and every byte outside the ranges the plan gives to that kind of intent; and
    a rollback touches nothing outside its own writes. *)
Theorem execution_confined x p lease intent s :
  executor_ok x -> pinned x s ->
  (let '(s', r) := execute_leased_intent x p lease intent s in
   r <> Panic /\ differs_within (touched p (el_current_phase lease)) (image s) (image s')) /\
  (let '(s', r) := execute_intent_with_faults x p intent s in
   r <> Panic /\ differs_within (plan_ranges p intent) (image s) (image s')) /\
  forall rollback,
    let '(s', r) := execute_leased_rollback x p lease rollback s in
    r <> Panic /\ differs_within (rollback_ranges rollback) (image s) (image s').
Proof.
  intros Hx Hp.
  destruct (leased_intent_ends x p lease intent s Hx Hp) as (Hd & Hn & _).
  destruct (execute_intent_ends x p intent s Hx Hp) as (Hd' & Hn' & _).
  destruct (execute_leased_intent x p lease intent s).
  destruct (execute_intent_with_faults x p intent s). split; [done |]. split; [done |].
  intros rollback. destruct (leased_rollback_ends x p lease rollback s Hx Hp) as (Hr & Hm & _).
  by destruct (execute_leased_rollback x p lease rollback s).
Qed.

(** C13: completion evidence is exact.  If executing an intent succeeds, the plan
    belongs to this container, the intent is exactly the plan's group of that
    kind, the image is the old one with the relocations copied or the writes
    applied in order, all of them inside the image, and the evidence names the kind, the number of operations,
    the bytes written, the digest of the ranges and bytes, both flushes, the plan,
    the container and the phase that was completed. *)
Theorem execute_intent_success x p intent s s' ei :
  executor_ok x -> pinned x s ->
  execute_intent_with_faults x p intent s = (s', Ok ei) ->
  image s' = intent_effect intent (image s) /\ intent_fits (len (image s)) intent /\
  pf_image (pc_preflight p) = from_regular_image (ie_identity x) /\
  (exists kind, authorized p intent (ei_completed_phase ei) kind /\
     ei_evidence ei = intent_evidence (image s) kind intent) /\
  ei_plan_digest ei = pc_plan_digest p /\
  ei_image_instance ei = ct_instance (pf_image (pc_preflight p)).
Proof.
  intros Hx Hp Hrun.
  destruct (execute_intent_ends x p intent s Hx Hp) as (_ & _ & Hok). rewrite Hrun in Hok.
  destruct (Hok ei eq_refl) as (Hc & Hf & Hm & Hk & Hpd & Hi). unfold matches_regular_image in Hm.
  apply bool_decide_eq_true in Hm. rewrite Hm. done.
Qed.

(** a rollback from [Reserved] is refused when there is something to undo.
    The coordinator answers with the before-images of the relocation
    destinations, but the executor accepts only the three later rollback
    overlays, so it returns [IntentNotAuthorized] on every image and leaves the
    image as it is. *)
Theorem relocation_rollback_refused x p before_images s :
  prepared_ok p before_images -> lp_relocations (pc_layout p) <> [] ->
  ws_target_staging_rollback (pc_writes p) <> [] ->
  matches_regular_image p (ie_identity x) = true ->
  exists intent, rollback_intent p Reserved = Ok intent /\
    execute_rollback_with_faults x p intent s = (s, Err IntentNotAuthorized).
Proof.
  intros Hp Hr Hs Hm. exists (RestoreSource (op_writes (pc_relocation_rollback_overlay p))
    (pc_relocation_rollback_digest p)). split.
  - simpl. by destruct (lp_relocations (pc_layout p)).
  - unfold execute_rollback_with_faults. rewrite Hm.
    destruct (po_relocation _ _ Hp) as [_ H3]. destruct (po_staging _ _ Hp) as [_ H4].
    destruct (po_preactivation _ _ Hp) as [_ H5]. destruct (po_full _ _ Hp) as [_ H6].
    assert (Hne : forall ws, ws = sort_by_key ow_offset before_images ->
      (length before_images < length ws)%nat -> False).
    { intros ws -> Hl. revert Hl. rewrite sort_by_key_perm. lia. }
    assert (Hpos : (0 < length (ws_target_staging_rollback (pc_writes p)))%nat)
      by (destruct (ws_target_staging_rollback _); [done | simpl; lia]).
    assert (Hd : forall plan ws, op_writes plan = sort_by_key ow_offset ws ->
      (length before_images < length ws)%nat ->
      bool_decide (op_writes plan = op_writes (pc_relocation_rollback_overlay p)) = false).
    { intros plan ws Hw Hl. apply bool_decide_false. rewrite H3. intros He. apply (Hne _ He).
      by rewrite Hw, sort_by_key_perm. }
    unfold full_rollback_writes, preactivation_rollback_writes, staging_rollback_writes in *.
    unfold mbind, exec_bind, lift, existsb.
    rewrite (Hd _ _ H4), (Hd _ _ H5), (Hd _ _ H6) by (rewrite !length_app; lia). done.
Qed.
End Claims.

(** ** Witnesses

    A disk that moves at most 100 bytes per call and fails the writes whose turn
    is listed. *)
Section Witnesses.
#[local] Existing Instance rolling_digests.

Record Disk : Type := mkDisk {
  dk_content : list byte;
  dk_writes : N;
  dk_failures : list N
}.
Definition disk_write (w : Disk) (offset : N) (buffer : list byte) : Disk * io N :=
  let turn := dk_writes w in
  let moved := take 100 buffer in
  if bool_decide (turn ∈ dk_failures w)
  then (mkDisk (splice offset (take 7 moved) (dk_content w)) (turn + 1) (dk_failures w), inl 5)
  else (mkDisk (splice offset moved (dk_content w)) (turn + 1) (dk_failures w), inr (len moved)).
#[local] Instance disk_os : OperatingSystem Disk := {
  os_content := dk_content;
  os_file_metadata w := (w, inr (quiet_metadata (len (dk_content w))));
  os_canonicalize w path := (w, inr path);
  os_path_metadata w _ := (w, inr (quiet_metadata (len (dk_content w))));
  os_read_at w offset count :=
    (w, inr (subslice offset (N.min (offset + N.min count 100) (len (dk_content w)))
               (dk_content w)));
  os_write_at := disk_write;
  os_sync_data w := (w, inr tt);
  os_sync_all w := (w, inr tt)
}.

#[local] Instance disk_laws : OperatingSystemLaws Disk.
Proof.
  split; try done.
  - intros w offset count bytes [= <-]. set (hi := N.min _ _).
    destruct (decide (offset <= hi)) as [Hle|Hgt].
    + rewrite len_subslice by (subst hi; lia). split; [subst hi; lia |]. f_equal. lia.
    + assert (He : subslice offset hi (dk_content w) = []).
      { unfold subslice. assert (N.to_nat (hi - offset) = 0%nat) as -> by lia. apply take_0. }
      rewrite He. change (len (@nil byte)) with 0. split; [lia |].
      unfold subslice. by rewrite N.add_0_r, N.sub_diag.
  - intros w offset buffer count _ Hw. simpl in *. unfold disk_write in *.
    case_bool_decide; simpl in *; [done |]. injection Hw as <-.
    assert (Hl : len (take 100 buffer) <= len buffer) by (unfold len; rewrite length_take; lia).
    split; [done |]. f_equal. unfold len. rewrite Nat2N.id, length_take.
    destruct (decide (100 <= length buffer)%nat) as [Hlong|Hshort].
    + by rewrite Nat.min_l.
    + rewrite Nat.min_r by lia. by rewrite !take_ge by lia.
  - intros w offset buffer e Hf Hw. simpl in *. unfold disk_write in *.
    case_bool_decide; simpl in *; [|done].
    assert (Hl : len (take 7 (take 100 buffer)) <= len buffer)
      by (unfold len; rewrite !length_take; lia).
    eapply (differs_sub offset (len (take 7 (take 100 buffer)))); [left | lia | lia |].
    apply splice_differs. lia.
Qed.

Definition device_identity : ImageIdentity :=
  mkImageIdentity "image.bin" 4096 None None (Unix 0 0).
Definition device : ImageExecutor := mkImageExecutor device_identity "image.bin" 200.
Definition device_draft : ConversionDraft :=
  small_draft_of (from_regular_image device_identity) x41.
Definition device_prepared : PreparedConversion := Eval vm_compute in
  match @build_with_projected_target_graph _ blank_envelope (small_graph 1024) (small_graph 1024)
    (small_graph 2048) device_draft [zero_write 2048]
    small_limits with
  | Ok p => p
  | _ => sample_prepared
  end.
Lemma device_built :
  @build_with_projected_target_graph _ blank_envelope (small_graph 1024) (small_graph 1024)
    (small_graph 2048) device_draft [zero_write 2048]
    small_limits = Ok device_prepared.
Proof. vm_compute. reflexivity. Qed.
Lemma device_prepared_ok : prepared_ok device_prepared [zero_write 2048].
Proof.
  destruct (@build_Ok _ blank_envelope (small_graph 1024) (small_graph 1024) (small_graph 2048)
    device_draft [zero_write 2048] small_limits
    device_prepared) as (b & -> & Hp & _).
  - vm_compute. discriminate.
  - apply device_built.
  - exact Hp.
Qed.
Lemma device_ok : executor_ok device.
Proof. split; vm_compute; congruence. Qed.

(** The file's bytes at their old place. *)
Definition device_image : list byte := splice 1024 (replicate 512 x41) blank_image.
Definition fresh_disk (failures : list N) : Disk * NoFault := (mkDisk device_image 0 failures, noFault).
Lemma fresh_disk_pinned failures : pinned device (fresh_disk failures).
Proof. split; vm_compute; congruence. Qed.

Definition device_lease (phase : TransactionPhase) : ExecutionLease :=
  mkExecutionLease 1 phase (pc_plan_digest device_prepared)
    (stable_container_token device_identity).

(** The relocation is moved in chunks of 200, 200 and 112 bytes. *)
Definition relocated : (Disk * NoFault) * outcome ExecutorError LeasedIntent := Eval vm_compute in
  execute_leased_intent device device_prepared (device_lease Reserved)
    (intent_after device_prepared Reserved) (fresh_disk []).
Example relocated_bytes :
  image relocated.1 = splice 2048 (replicate 512 x41) device_image /\
  exists li, relocated.2 = Ok li /\ ei_completed_phase (li_executed li) = Relocating /\
    ee_bytes_written (ei_evidence (li_executed li)) = 512.
Proof. split; [vm_compute; reflexivity |]. eexists. split; [reflexivity | done]. Qed.

(** Witness. *)
Lemma execution_confined_witness :
  differs_within [[2048; 512]] device_image
    (image (execute_leased_intent device device_prepared (device_lease Reserved)
              (intent_after device_prepared Reserved) (fresh_disk [2])).1).
Proof.
  pose proof (execution_confined device device_prepared (device_lease Reserved)
    (intent_after device_prepared Reserved) (fresh_disk [2]) device_ok (fresh_disk_pinned [2])) as (Hx & _ & _).
  destruct (execute_leased_intent device device_prepared (device_lease Reserved)
    (intent_after device_prepared Reserved) (fresh_disk [2])) as [s' r].
  destruct Hx as [_ Hd]. exact Hd.
Defined.

(** Witness. *)
Lemma execute_intent_success_witness :
  exists s' ei,
    execute_intent_with_faults device device_prepared (intent_after device_prepared Reserved)
      (fresh_disk []) = (s', Ok ei) /\
    image s' = relocate_bytes device_image (lp_relocations (pc_layout device_prepared)).
Proof.
  assert (He : exists s' ei,
    execute_intent_with_faults device device_prepared (intent_after device_prepared Reserved)
      (fresh_disk []) = (s', Ok ei)) by (do 2 eexists; vm_compute; reflexivity).
  destruct He as (s' & ei & He). exists s', ei. split; [exact He |].
  exact (proj1 (execute_intent_success device device_prepared
    (intent_after device_prepared Reserved) (fresh_disk []) s' ei device_ok (fresh_disk_pinned []) He)).
Defined.

(** Witness. *)
Lemma relocation_rollback_refused_witness :
  exists intent, rollback_intent device_prepared Reserved = Ok intent /\
    execute_rollback_with_faults device device_prepared intent (fresh_disk []) =
      (fresh_disk [], Err IntentNotAuthorized).
Proof.
  apply (relocation_rollback_refused device device_prepared [zero_write 2048] (fresh_disk [])
    device_prepared_ok).
  - discriminate.
  - discriminate.
  - vm_compute. reflexivity.
Defined.
End Witnesses.
