(* ===== verification/Transaction.v ===== *)
(** * Transactions: coordinator and executor together

    The composition of [Conversion], [Prepare] and [Executor]: the image and the
    checkpoint of a transaction step by step, with crashes at any point, and the
    effect of a complete forward run. *)

From S2P Require Import Prelude Digest Image Extent Object Overlay Recovery Geometry Planner Preimage Relocate Capsule Conversion Prepare Executor.
From stdpp Require Import options.
From stdpp Require Import relations.
#[local] Open Scope N_scope.

(** ** The transition system *)

(** The checkpoint in the capsule and the bytes on the disk. *)
Record Transaction : Type := mkTransaction {
  tx_phase : TransactionPhase;
  tx_image : list byte
}.

Section Steps.
Context {W F : Type} `{OperatingSystemLaws W} `{FaultInjector F} `{Digests}.
Variables (x : ImageExecutor) (p : PreparedConversion).

(** Executing any intent under a lease of the current checkpoint, however it
    ends; a rollback attempt, however it ends; recording the next checkpoint; and
    a power loss, after which anything may stand in the ranges written so far. *)
Inductive step (t : Transaction) : Transaction -> Prop :=
| step_execute (s : W * F) lease intent :
    el_current_phase lease = tx_phase t -> pinned x s -> image s = tx_image t ->
    step t (mkTransaction (tx_phase t) (image (execute_leased_intent x p lease intent s).1))
| step_rollback (s : W * F) lease intent :
    rollback_intent p (tx_phase t) = Ok intent -> pinned x s -> image s = tx_image t ->
    step t (mkTransaction (tx_phase t) (image (execute_leased_rollback x p lease intent s).1))
| step_checkpoint next :
    next_phase (tx_phase t) = Some next -> step t (mkTransaction next (tx_image t))
| step_power_loss img :
    differs_within (touched p (tx_phase t)) (tx_image t) img ->
    step t (mkTransaction (tx_phase t) img).

(** Successful execution of a list of intents, each in its own session. *)
Inductive executed : list TransactionIntent -> list byte -> list byte -> Prop :=
| executed_nil img : executed [] img img
| executed_cons (s s' : W * F) lease intent li rest img :
    pinned x s -> execute_leased_intent x p lease intent s = (s', Ok li) ->
    executed rest (image s') img -> executed (intent :: rest) (image s) img.
End Steps.

(** The mutating intents of a run, in order. *)
Definition forward_intents (p : PreparedConversion) : list TransactionIntent :=
  [Relocate (lp_relocations (pc_layout p)); StageTarget (ws_target_staging (pc_writes p));
   WriteBackupBoot (ws_backup_boot (pc_writes p)); Activate (ws_activation (pc_writes p))].

(** The bytes of a range. *)
Definition bytes_at (img : list byte) (r : ByteRange) : list byte :=
  subslice (br_offset r) (range_end r) img.

(** ** Crash safety *)
Section Crash.
Context {W F : Type} `{OperatingSystemLaws W} `{FaultInjector F} `{Digests}.
#[local] Set Default Proof Using "Type*".
Implicit Types (x : ImageExecutor) (p : PreparedConversion).

Lemma touched_next p phase next :
  next_phase phase = Some next -> touched p phase ⊆ touched p next.
Proof.
  clear. unfold touched, all_ranges, backup_ranges, staging_ranges.
  intros Hn r Hr. destruct phase; simplify_eq/=; try done;
    first [by apply not_elem_of_nil in Hr | apply elem_of_app; by left].
Qed.

Lemma rollback_within p before_images phase intent :
  prepared_ok p before_images -> rollback_intent p phase = Ok intent ->
  rollback_ranges intent ⊆ touched p phase.
Proof.
  clear. intros Hp Hi. pose proof (touched_rollback p before_images phase Hp) as Ht.
  rewrite Hi in Ht. destruct intent as [|writes digest]; simpl.
  - intros r Hr. by apply not_elem_of_nil in Hr.
  - destruct Ht as [Ht _]. intros r. by rewrite Ht.
Qed.

(** Every reachable image differs from the source only in the ranges of the
    groups up to the one in progress. *)
Lemma reachable_within x p before_images source t :
  executor_ok x -> prepared_ok p before_images ->
  rtc (step (W := W) (F := F) x p) (mkTransaction Discovered source) t ->
  differs_within (touched p (tx_phase t)) source (tx_image t).
Proof.
  intros Hx Hp Hr.
  assert (Hgen : forall t0, rtc (step (W := W) (F := F) x p) t0 t ->
    differs_within (touched p (tx_phase t0)) source (tx_image t0) ->
    differs_within (touched p (tx_phase t)) source (tx_image t)).
  { clear Hr. intros t0 Ht0. induction Ht0 as [t1|t1 t2 t3 Hstep Hrest IH]; [done |]. intros Hd.
    apply IH. clear IH.
    destruct Hstep as [s lease intent Hl Hpin Hi|s lease intent Hl Hpin Hi|next Hn|img Hi];
      simpl.
    - destruct (leased_intent_ends x p lease intent s Hx Hpin) as (He & _ & _).
      rewrite Hl, Hi in He. by eapply differs_trans.
    - destruct (leased_rollback_ends x p lease intent s Hx Hpin) as (He & _ & _).
      rewrite Hi in He. eapply differs_trans; [exact Hd |].
      eapply differs_mono, He. by eapply rollback_within.
    - eapply differs_mono, Hd. by apply touched_next.
    - by eapply differs_trans. }
  eapply Hgen; [exact Hr |]. apply differs_refl.
Qed.

Lemma rollback_digest_agrees p phase intent :
  rollback_intent p phase = Ok intent ->
  rollback_digest_of p phase = Some (match intent with
    | DiscardStaging => None
    | RestoreSource _ digest => Some digest
    end).
Proof. clear. unfold rollback_digest_of. intros ->. by destruct intent. Qed.
End Crash.

(** ** A complete forward run *)
Section Forward.
Context {W F : Type} `{OperatingSystemLaws W} `{FaultInjector F} `{Digests}.
#[local] Set Default Proof Using "Type*".
Implicit Types (x : ImageExecutor) (p : PreparedConversion).

Lemma executed_step x p intent rest img img' :
  executor_ok x -> executed (W := W) (F := F) x p (intent :: rest) img img' ->
  intent_fits (len img) intent /\ len img = ct_image_bytes (pf_image (pc_preflight p)) /\
  len (intent_effect intent img) = len img /\
  executed (W := W) (F := F) x p rest (intent_effect intent img) img'.
Proof.
  intros Hx He. inversion He as [|s s' lease intent' li rest' img0 Hpin Hrun Hrest]; subst.
  destruct (leased_intent_ends x p lease intent s Hx Hpin) as (Hd & _ & Hok).
  rewrite Hrun in Hd, Hok. destruct (Hok li eq_refl) as (Hc & Hf & _ & _ & Hm & _).
  unfold matches_regular_image in Hm. apply bool_decide_eq_true in Hm.
  simpl in Hc, Hd. rewrite Hc in Hrest. split; [done |]. split.
  - destruct Hpin as [-> _]. by rewrite Hm.
  - split; [|done]. rewrite <- Hc. apply Hd.
Qed.

Lemma patch_writes_app img ws1 ws2 :
  patch (patch img (rw_write <$> ws1)) (rw_write <$> ws2) = patch img (rw_write <$> (ws1 ++ ws2)).
Proof. clear. by rewrite fmap_app, patch_app. Qed.

(** The whole run is the relocations and then the forward writes. *)
Lemma executed_forward x p img img' :
  executor_ok x -> executed (W := W) (F := F) x p (forward_intents p) img img' ->
  img' = patch (relocate_bytes img (lp_relocations (pc_layout p))) (final_writes (pc_writes p)) /\
  len img = ct_image_bytes (pf_image (pc_preflight p)) /\
  len (relocate_bytes img (lp_relocations (pc_layout p))) = len img /\
  Forall (relocation_fits (len img)) (lp_relocations (pc_layout p)) /\
  Forall (write_fits (len img)) (final_writes (pc_writes p)).
Proof.
  intros Hx He. unfold forward_intents in He.
  apply executed_step in He as (Hf1 & Hl & Hl1 & He); [|done].
  apply executed_step in He as (Hf2 & _ & Hl2 & He); [|done].
  apply executed_step in He as (Hf3 & _ & Hl3 & He); [|done].
  apply executed_step in He as (Hf4 & _ & _ & He); [|done].
  inversion He; subst. simpl in *. rewrite Hl3, Hl2, Hl1 in Hf4. rewrite Hl2, Hl1 in Hf3.
  rewrite Hl1 in Hf2. unfold final_writes, forward_writes.
  split_and!; [|done..|].
  - rewrite !patch_writes_app. by rewrite app_assoc.
  - rewrite !fmap_app. by rewrite !Forall_app.
Qed.
End Forward.

(** ** Where the payload goes *)
Section Payload.

Lemma disjoint_fmap {A B} (f : A -> B) (off ln : B -> N) (l : list A) :
  disjoint_ranges off ln (f <$> l) <-> disjoint_ranges (fun a => off (f a)) (fun a => ln (f a)) l.
Proof.
  unfold disjoint_ranges. rewrite !StronglySorted_lookup. unfold apart, before. split.
  - intros Hs i j a b Hij Ha Hb. apply (Hs i j (f a) (f b) Hij);
      rewrite list_lookup_fmap; [by rewrite Ha | by rewrite Hb].
  - intros Hs i j y z Hij Hy Hz. rewrite list_lookup_fmap in Hy, Hz.
    apply fmap_Some in Hy as (a & Ha & ->). apply fmap_Some in Hz as (b & Hb & ->).
    by apply (Hs i j).
Qed.

(** A write range as its two numbers. *)
Definition range_offset (r : list N) : N := hd 0 r.
Definition range_length (r : list N) : N := hd 0 (tl r).
Definition ranges_apart : list (list N) -> Prop := disjoint_ranges range_offset range_length.

Lemma writes_apart ws : writes_disjoint ws <-> ranges_apart (write_range <$> ws).
Proof. unfold ranges_apart. by rewrite disjoint_fmap. Qed.

Lemma writes_apart_perm ws1 ws2 :
  write_range <$> ws1 ≡ₚ write_range <$> ws2 -> writes_disjoint ws1 -> writes_disjoint ws2.
Proof. rewrite !writes_apart. intros Hp. by apply disjoint_ranges_perm. Qed.

Lemma patch_perm img ws1 ws2 :
  Forall (write_fits (len img)) ws1 -> writes_disjoint ws1 -> ws1 ≡ₚ ws2 ->
  patch img ws1 = patch img ws2.
Proof.
  intros Hf Hd Hp. assert (Hf2 : Forall (write_fits (len img)) ws2) by (by rewrite <- Hp).
  assert (Hd2 : writes_disjoint ws2) by (apply (writes_apart_perm ws1); [by rewrite Hp | done]).
  apply list_eq. intros i.
  destruct (decide (Exists (fun w => ow_offset w <= N.of_nat i < ow_offset w + ow_length w) ws1))
    as [He|Hn].
  - apply Exists_exists in He as (w & Hw & Hi).
    rewrite (patch_inside img ws1 w i) by done. rewrite (patch_inside img ws2 w i); try done.
    by rewrite <- Hp.
  - rewrite !patch_outside; try done; intros w Hw Hi; apply Hn, Exists_exists; exists w;
      [by rewrite Hp | done].
Qed.

Lemma apart_bytes o n d m :
  0 < n -> 0 < m -> (forall q, in_range o n q -> in_range d m q -> False) ->
  o + n <= d \/ d + m <= o.
Proof.
  intros Hn Hm Hq. unfold in_range in Hq.
  destruct (decide (o + n <= d)) as [|H1]; [by left |].
  destruct (decide (d + m <= o)) as [|H2]; [by right |].
  exfalso. apply (Hq (N.max o d)); lia.
Qed.

(** Destinations that meet no source: copying in order is one patch. *)
Lemma relocate_patch img rs :
  Forall (relocation_fits (len img)) rs ->
  (forall r1 r2 q, r1 ∈ rs -> r2 ∈ rs ->
     in_range (br_offset (rl_destination r1)) (br_length (rl_destination r1)) q ->
     in_range (br_offset (rl_source r2)) (br_length (rl_source r2)) q -> False) ->
  relocate_bytes img rs = patch img (relocation_write img <$> rs).
Proof.
  revert img. induction rs as [|r rs IH]; intros img Hf Ha; [done |].
  change (relocate_bytes img (r :: rs)) with (relocate_bytes (relocate_one img r) rs).
  apply Forall_cons in Hf as [Hr Hf]. pose proof Hr as (Heq & Hpos & Hsf & Hdf & _).
  pose proof (relocation_write_length img r Hsf) as Hwl. unfold ow_length in Hwl.
  assert (Hl : len (relocate_one img r) = len img).
  { unfold relocate_one. change (subslice _ _ _) with (ow_bytes (relocation_write img r)).
    rewrite len_splice; [done | lia]. }
  rewrite IH; [|by rewrite Hl|intros r1 r2 q Hr1 Hr2; apply (Ha r1 r2 q); by right].
  change (patch img (relocation_write img <$> r :: rs))
    with (patch (relocate_one img r) (relocation_write img <$> rs)).
  f_equal. apply list_fmap_ext. intros i r2 Hi. apply list_elem_of_lookup_2 in Hi.
  rewrite Forall_forall in Hf. pose proof (Hf r2 Hi) as (Heq2 & Hpos2 & Hsf2 & _).
  unfold relocation_write at 1 2. f_equal. unfold relocate_one.
  change (subslice (br_offset (rl_source r)) _ img) with (ow_bytes (relocation_write img r)).
  apply subslice_splice_apart; [lia |]. rewrite Hwl.
  apply or_comm, apart_bytes; [done | done |]. rewrite <- Heq.
  intros q Hq1 Hq2. eapply (Ha r r2); [left | by right | done | done].
Qed.
End Payload.

Section Layout.
Context `{Digests} `{PreparedEnvelope}.
#[local] Set Default Proof Using "Type*".

(** The facts of the solved layout that the payload needs. *)
Lemma built_layout source projected target draft limits p before_images :
  pf_allocation_alignment (cd_preflight draft) <= u64_max ->
  built source projected target draft limits p before_images ->
  let live := (partition_source_allocations source (cd_source_allocations draft)).1 in
  (forall r, r ∈ lp_relocations (pc_layout p) -> exists a, a ∈ live /\ rl_source r = sa_range a) /\
  (forall a r q, a ∈ live -> r ∈ lp_relocations (pc_layout p) ->
     in_range (br_offset (rl_destination r)) (br_length (rl_destination r)) q ->
     in_range (br_offset (sa_range a)) (br_length (sa_range a)) q -> False) /\
  (forall a d, a ∈ live -> d ∈ pc_reservations p ->
     (forall r, r ∈ lp_relocations (pc_layout p) -> rl_source r <> sa_range a) ->
     overlapb (sa_range a) (dr_range d) = false).
Proof.
  intros Hal Hb live. pose proof (bd_layout _ _ _ _ _ _ _ Hb) as Hs. subst live.
  destruct (partition_source_allocations source _) as [live exclusions]. simpl.
  apply solve_layout_ok in Hs as [_ Hc]; [|done].
  destruct Hc as (Hrel & _ & _ & _ & Hcov & _). simpl in *.
  assert (Hconf : forall a, a ∈ conflicting_sources (mkLayoutInput
      (ct_image_bytes (pf_image (cd_preflight draft))) (pf_allocation_alignment (cd_preflight draft))
      (pf_allocation_alignment (cd_preflight draft)) (pf_sector_bytes (cd_preflight draft))
      (mkByteRange 0 (ct_image_bytes (pf_image (cd_preflight draft)))) false live
      (pc_reservations p) exclusions [] (cl_layout limits)) <->
    a ∈ live /\ conflictsb (mkByteRange 0 (ct_image_bytes (pf_image (cd_preflight draft))))
      (pf_allocation_alignment (cd_preflight draft)) (pc_reservations p) a = true).
  { intros a. unfold conflicting_sources. simpl. rewrite list_elem_of_filter, sort_by_key_perm. tauto. }
  split_and!.
  - intros r Hr. apply list_elem_of_lookup in Hr as [i Hi].
    destruct (Forall2_lookup_r _ _ _ _ _ Hrel Hi) as (a & Ha & _ & _ & Hsrc & _).
    apply list_elem_of_lookup_2, Hconf in Ha as [Ha _]. eauto.
  - intros a r q Ha Hr Hq Hqa.
    assert (Hp : covered q (plan_destinations (pc_layout p) ++ lp_free_after_staging (pc_layout p))).
    { exists (rl_destination r). split; [|done]. unfold plan_destinations, relocation_destinations.
      rewrite !elem_of_app. left. left. by apply list_elem_of_fmap_2. }
    apply Hcov in Hp as [_ Hno]. apply Hno. exists (sa_range a). split; [|done].
    unfold occupied_ranges. simpl. apply elem_of_app. left. by apply list_elem_of_fmap_2.
  - intros a d Ha Hd Hno.
    destruct (overlapb (sa_range a) (dr_range d)) eqn:Ho; [|done]. exfalso.
    assert (Hin : a ∈ live /\ conflictsb (mkByteRange 0 (ct_image_bytes (pf_image (cd_preflight draft))))
      (pf_allocation_alignment (cd_preflight draft)) (pc_reservations p) a = true).
    { split; [done |]. unfold conflictsb. apply orb_true_iff. right. apply existsb_exists.
      exists d. by rewrite <- list_elem_of_In. }
    apply Hconf, list_elem_of_lookup in Hin as [i Hi].
    destruct (Forall2_lookup_l _ _ _ _ _ Hrel Hi) as (r & Hr & _ & _ & Hsrc & _).
    apply list_elem_of_lookup_2 in Hr. by apply (Hno r Hr).
Qed.
End Layout.

(** ** The final image *)
Section Final.
Context {W F : Type} `{OperatingSystemLaws W} `{FaultInjector F} `{Digests} `{PreparedEnvelope}.
#[local] Set Default Proof Using "Type*".
Implicit Types (x : ImageExecutor) (p : PreparedConversion).

(** Relocations and forward writes as one list of pairwise disjoint writes. *)
Definition all_effects p (img : list byte) : list OverlayWrite :=
  (relocation_write img <$> lp_relocations (pc_layout p)) ++ final_writes (pc_writes p).

Lemma effects_ranges p img :
  Forall (relocation_fits (len img)) (lp_relocations (pc_layout p)) ->
  write_range <$> all_effects p img = all_ranges p.
Proof.
  clear. intros Hf. unfold all_effects, all_ranges, backup_ranges, staging_ranges, final_writes,
    forward_writes, relocation_ranges, reserved_ranges.
  rewrite !fmap_app, <- !list_fmap_compose, <- !app_assoc. f_equal.
  apply list_fmap_ext. intros i r Hi. apply list_elem_of_lookup_2 in Hi.
  rewrite Forall_forall in Hf. destruct (Hf r Hi) as (Heq & _ & Hsf & _).
  pose proof (relocation_write_length img r Hsf) as Hl. unfold ow_length in Hl.
  unfold write_range. simpl in *. by rewrite Heq, Hl.
Qed.

Lemma effects_disjoint p before_images img :
  prepared_ok p before_images ->
  Forall (relocation_fits (len img)) (lp_relocations (pc_layout p)) ->
  writes_disjoint (all_effects p img).
Proof.
  clear. intros Hp Hf. destruct (po_full _ _ Hp) as [Hplan Hw].
  apply plan_disjoint in Hplan. rewrite Hw in Hplan.
  eapply writes_apart_perm, Hplan. rewrite sort_by_key_perm, (all_covered _ _ Hp).
  by rewrite effects_ranges.
Qed.

Lemma effects_fit p img :
  Forall (relocation_fits (len img)) (lp_relocations (pc_layout p)) ->
  Forall (write_fits (len img)) (final_writes (pc_writes p)) ->
  Forall (write_fits (len img)) (all_effects p img).
Proof.
  clear. intros Hf Hw. apply Forall_app. split; [|done]. apply Forall_fmap.
  eapply Forall_impl; [exact Hf |]. intros r (Heq & _ & Hsf & Hdf & _).
  unfold write_fits. simpl. rewrite relocation_write_length by done. simpl. lia.
Qed.

(** Everything the claims need of a finished run. *)
Lemma forward_effects x p source projected target draft limits before_images img img' :
  executor_ok x -> pf_allocation_alignment (cd_preflight draft) <= u64_max ->
  prepared_ok p before_images -> built source projected target draft limits p before_images ->
  executed (W := W) (F := F) x p (forward_intents p) img img' ->
  img' = patch img (all_effects p img) /\
  img' = patch (relocate_bytes img (lp_relocations (pc_layout p)))
           (op_writes (pc_candidate_overlay p)) /\
  Forall (write_fits (len img)) (all_effects p img) /\
  Forall (relocation_fits (len img)) (lp_relocations (pc_layout p)).
Proof.
  intros Hx Hal Hp Hb He. apply executed_forward in He as (-> & Hlen & Hrl & Hrf & Hwf); [|done].
  assert (Hsrc : forall r1 r2 q, r1 ∈ lp_relocations (pc_layout p) ->
    r2 ∈ lp_relocations (pc_layout p) ->
    in_range (br_offset (rl_destination r1)) (br_length (rl_destination r1)) q ->
    in_range (br_offset (rl_source r2)) (br_length (rl_source r2)) q -> False).
  { destruct (built_layout _ _ _ _ _ _ _ Hal Hb) as (Hs & Ha & _).
    intros r1 r2 q Hr1 Hr2 Hq1 Hq2. destruct (Hs r2 Hr2) as (a & Hin & Heq).
    rewrite Heq in Hq2. by apply (Ha a r1 q). }
  split_and!.
  - unfold all_effects. by rewrite patch_app, relocate_patch.
  - destruct (po_candidate _ _ Hp) as [Hplan ->]. apply patch_perm.
    + by rewrite Hrl.
    + pose proof (effects_disjoint _ _ _ Hp Hrf) as Hd. unfold all_effects, writes_disjoint,
        disjoint_ranges in Hd. by apply StronglySorted_app_iff in Hd as (_ & Hd & _).
    + by rewrite sort_by_key_perm.
  - by apply effects_fit.
  - done.
Qed.

Lemma payload_moved p before_images img r :
  prepared_ok p before_images -> Forall (write_fits (len img)) (all_effects p img) ->
  Forall (relocation_fits (len img)) (lp_relocations (pc_layout p)) ->
  r ∈ lp_relocations (pc_layout p) ->
  bytes_at (patch img (all_effects p img)) (rl_destination r) = bytes_at img (rl_source r).
Proof.
  clear. intros Hp Hfit Hrf Hr. pose proof Hrf as Hr'. rewrite Forall_forall in Hr'.
  destruct (Hr' r Hr) as (Heq & Hpos & Hsf & Hdf & _).
  pose proof (relocation_write_length img r Hsf) as Hwl.
  assert (Hin : relocation_write img r ∈ all_effects p img)
    by (apply elem_of_app; left; by apply list_elem_of_fmap_2).
  unfold bytes_at, range_end. apply list_eq. intros i.
  destruct (decide (N.of_nat i < br_length (rl_source r))) as [Hi|Hi].
  - rewrite !subslice_lookup by lia.
    rewrite (patch_inside img _ (relocation_write img r)); [|done|by eapply effects_disjoint|done|].
    + unfold relocation_write. simpl. rewrite subslice_lookup by lia. f_equal. lia.
    + unfold in_range. rewrite Hwl. simpl. lia.
  - by rewrite !subslice_lookup_ge by lia.
Qed.

Lemma payload_stays p source projected target draft limits before_images img a :
  pf_allocation_alignment (cd_preflight draft) <= u64_max ->
  prepared_ok p before_images -> built source projected target draft limits p before_images ->
  Forall (write_fits (len img)) (all_effects p img) ->
  Forall (relocation_fits (len img)) (lp_relocations (pc_layout p)) ->
  a ∈ cd_source_allocations draft -> is_graph_allocation source a = true ->
  (forall r, r ∈ lp_relocations (pc_layout p) -> rl_source r <> sa_range a) ->
  bytes_at (patch img (all_effects p img)) (sa_range a) = bytes_at img (sa_range a).
Proof.
  clear. intros Hal Hp Hb Hfit Hrf Ha Hg Hno.
  destruct (built_layout _ _ _ _ _ _ _ Hal Hb) as (_ & Hdst & Hres).
  assert (Hlive : a ∈ (partition_source_allocations source (cd_source_allocations draft)).1).
  { simpl. apply list_elem_of_filter. split; [|done]. by rewrite Hg. }
  unfold bytes_at, range_end. apply list_eq. intros i.
  destruct (decide (N.of_nat i < br_length (sa_range a))) as [Hi|Hi].
  2: by rewrite !subslice_lookup_ge by lia.
  rewrite !subslice_lookup by lia. apply patch_outside; [done |].
  set (q := N.of_nat _).
  assert (Hq : in_range (br_offset (sa_range a)) (br_length (sa_range a)) q)
    by (unfold in_range, q; lia).
  intros w Hw Hiw. unfold all_effects in Hw. apply elem_of_app in Hw as [Hw|Hw].
  - apply list_elem_of_fmap in Hw as (r & -> & Hr). apply (Hdst a r q); try done.
    rewrite Forall_forall in Hrf. destruct (Hrf r Hr) as (Heq & _ & Hsf & _).
    unfold in_range in *. rewrite relocation_write_length in Hiw by done. simpl in Hiw. lia.
  - unfold final_writes, forward_writes in Hw. apply list_elem_of_fmap in Hw as (v & -> & Hv).
    destruct (po_reserved _ _ Hp) as (Hg1 & Hg2 & Hg3). rewrite Forall_forall in Hg1.
    rewrite Forall_forall in Hg2. rewrite Forall_forall in Hg3.
    assert (Hd : exists d, d ∈ pc_reservations p /\
      br_offset (dr_range d) <= ow_offset (rw_write v) /\
      ow_offset (rw_write v) + ow_length (rw_write v)
        <= br_offset (dr_range d) + br_length (dr_range d)).
    { rewrite !elem_of_app in Hv. destruct Hv as [Hv|[Hv|Hv]];
        [destruct (Hg1 v Hv) as (_ & d & ? & _ & ? & ?)
        |destruct (Hg2 v Hv) as (_ & d & ? & _ & ? & ?)
        |destruct (Hg3 v Hv) as (_ & d & ? & _ & ? & ?)]; by exists d. }
    destruct Hd as (d & Hd & Hlo & Hhi). specialize (Hres a d Hlive Hd Hno).
    unfold overlapb, range_end in Hres. apply andb_false_iff in Hres. rewrite !N.ltb_ge in Hres.
    unfold in_range in *. lia.
Qed.
End Final.

(** * The claims *)
Section Claims.
Context {W F : Type} `{OperatingSystemLaws W} `{FaultInjector F} `{Digests} `{PreparedEnvelope}.
#[local] Set Default Proof Using "Type*".
Implicit Types (x : ImageExecutor) (p : PreparedConversion).

(** C1: crash safety.  Start a transaction on the source image and let it
    run in any way: intents executed, failed or cut off by faults, rollback
    attempts that did not finish, checkpoints recorded, and power losses that
    leave anything in the ranges written so far.  If a rollback then succeeds at a
    checkpoint, the image is the source image, byte for byte, and the returned
    evidence is one the coordinator accepts for that checkpoint. *)
Theorem crash_then_rollback_restores_source x p before_images source t (s s' : W * F) lease
    intent lr :
  executor_ok x -> prepared_ok p before_images ->
  Forall (fragment_of source) (op_writes (pc_full_rollback_overlay p)) ->
  rtc (step (W := W) (F := F) x p) (mkTransaction Discovered source) t ->
  rollback_intent p (tx_phase t) = Ok intent -> pinned x s -> image s = tx_image t ->
  execute_leased_rollback x p lease intent s = (s', Ok lr) ->
  image s' = source /\
  justified p (RollbackRecorded (lr_executed lr)) /\
  rollback_digest_of p (tx_phase t) = Some (er_rollback_digest (lr_executed lr)).
Proof.
  intros Hx Hp Hf Hreach Hi Hpin Himg Hrun.
  pose proof (reachable_within _ _ _ _ _ Hx Hp Hreach) as Hd.
  pose proof (rollback_restores p before_images (tx_phase t) source (tx_image t) Hp Hf Hd) as Hr.
  rewrite Hi in Hr. destruct Hr as [Hr _].
  rewrite (rollback_digest_agrees _ _ _ Hi).
  destruct (leased_rollback_exact x p lease intent s Hx Hpin) as (_ & _ & Hok).
  rewrite Hrun in Hok. destruct (Hok lr eq_refl) as (Hc & Hj & Hdig).
  simpl in Hc. rewrite Hc, Himg, Hr. split_and!; [done | done |]. by rewrite Hdig.
Qed.

(** C2: a finished conversion keeps the payload.  When the four mutating intents
    have been executed, the image is the relocated source with the candidate
    overlay applied, the image that staging verification saw; every relocated
    extent stands at its destination with its old bytes; and every other extent
    of the source graph stands untouched at its old place. *)
Theorem conversion_preserves_payload x source projected target draft images limits p img img' :
  executor_ok x -> ct_image_bytes (pf_image (cd_preflight draft)) <= u64_max ->
  pf_allocation_alignment (cd_preflight draft) <= u64_max ->
  build_with_projected_target_graph source projected target draft images limits = Ok p ->
  executed (W := W) (F := F) x p (forward_intents p) img img' ->
  img' = patch (relocate_bytes img (lp_relocations (pc_layout p)))
           (op_writes (pc_candidate_overlay p)) /\
  (forall r, r ∈ lp_relocations (pc_layout p) ->
     bytes_at img' (rl_destination r) = bytes_at img (rl_source r)) /\
  (forall a, a ∈ cd_source_allocations draft -> is_graph_allocation source a = true ->
     (forall r, r ∈ lp_relocations (pc_layout p) -> rl_source r <> sa_range a) ->
     bytes_at img' (sa_range a) = bytes_at img (sa_range a)).
Proof.
  intros Hx Hib Hal Hbuild He.
  destruct (build_Ok _ _ _ _ _ _ _ Hib Hbuild) as (before_images & _ & Hp & Hb).
  destruct (forward_effects _ _ _ _ _ _ _ _ _ _ Hx Hal Hp Hb He) as (Hall & Hcand & Hfit & Hrf).
  split; [done |]. rewrite Hall. split.
  - intros r Hr. by eapply payload_moved.
  - intros a Ha Hg Hno. by eapply payload_stays.
Qed.
End Claims.

(** ** Witnesses *)
Section Witnesses.
#[local] Existing Instances rolling_digests disk_os disk_laws.

(** A run on the disk of [Executor]: the payload is moved, then staging fails in
    its third write call, and the source is rolled back from there. *)
Definition moved : Disk * NoFault := relocated.1.
Definition staging_failed : (Disk * NoFault) * outcome ExecutorError LeasedIntent := Eval vm_compute in
  execute_leased_intent device device_prepared (device_lease Relocating)
    (intent_after device_prepared Relocating) (mkDisk (image moved) 0 [2], noFault).
Definition crashed : Transaction := mkTransaction Relocating (image staging_failed.1).
Definition staging_intent : RollbackIntent := Eval vm_compute in
  match rollback_intent device_prepared Relocating with Ok intent => intent | _ => DiscardStaging end.
Definition restored : (Disk * NoFault) * outcome ExecutorError LeasedRollback := Eval vm_compute in
  execute_leased_rollback device device_prepared (device_lease Relocating) staging_intent
    (mkDisk (image staging_failed.1) 0 [], noFault).

Example staging_was_torn :
  image staging_failed.1 = splice 1024 (replicate 207 x11) (image moved) /\
  staging_failed.2 = Err (IoFailed "write prepared image range" 5).
Proof. split; vm_compute; reflexivity. Qed.

Lemma moved_image :
  image (execute_leased_intent device device_prepared (device_lease Reserved)
    (intent_after device_prepared Reserved) (fresh_disk [])).1 = image moved.
Proof. vm_compute. reflexivity. Qed.

Lemma crashed_reachable :
  rtc (step (W := Disk) (F := NoFault) device device_prepared)
    (mkTransaction Discovered device_image) crashed.
Proof.
  apply (rtc_l _ _ (mkTransaction Reserved device_image)).
  { exact (step_checkpoint device device_prepared (mkTransaction Discovered device_image)
      Reserved eq_refl). }
  apply (rtc_l _ _ (mkTransaction Reserved (image moved))).
  { rewrite <- moved_image.
    exact (step_execute device device_prepared (mkTransaction Reserved device_image)
      (fresh_disk []) (device_lease Reserved) (intent_after device_prepared Reserved)
      eq_refl (fresh_disk_pinned []) eq_refl). }
  apply (rtc_l _ _ (mkTransaction Relocating (image moved))).
  { exact (step_checkpoint device device_prepared (mkTransaction Reserved (image moved))
      Relocating eq_refl). }
  apply rtc_once.
  assert (Hpin : pinned device (mkDisk (image moved) 0 [2], noFault))
    by (split; vm_compute; congruence).
  pose proof (step_execute device device_prepared (mkTransaction Relocating (image moved))
    (mkDisk (image moved) 0 [2], noFault) (device_lease Relocating)
    (intent_after device_prepared Relocating) eq_refl Hpin eq_refl) as Hstep.
  assert (Himg : image (execute_leased_intent device device_prepared (device_lease Relocating)
    (intent_after device_prepared Relocating) (mkDisk (image moved) 0 [2], noFault)).1
    = image staging_failed.1) by (vm_compute; reflexivity).
  rewrite Himg in Hstep. exact Hstep.
Qed.

(** Witness. *)
Lemma crash_then_rollback_restores_source_witness :
  exists lr, restored.2 = Ok lr /\ image restored.1 = device_image /\
    justified device_prepared (RollbackRecorded (lr_executed lr)).
Proof.
  assert (Hrun : exists lr, execute_leased_rollback device device_prepared
    (device_lease Relocating) staging_intent (mkDisk (image staging_failed.1) 0 [], noFault)
    = (restored.1, Ok lr) /\ restored.2 = Ok lr)
    by (eexists; split; vm_compute; reflexivity).
  destruct Hrun as (lr & Hrun & Hlr). exists lr. split; [exact Hlr |].
  destruct (crash_then_rollback_restores_source device device_prepared [zero_write 2048]
    device_image crashed (mkDisk (image staging_failed.1) 0 [], noFault) restored.1
    (device_lease Relocating) staging_intent lr device_ok device_prepared_ok) as (Hi & Hj & _).
  - repeat apply Forall_cons_2; [..| apply Forall_nil_2]; split; vm_compute; done.
  - apply crashed_reachable.
  - vm_compute. reflexivity.
  - split; vm_compute; congruence.
  - reflexivity.
  - exact Hrun.
  - split; [exact Hi | exact Hj].
Defined.

(** The four sessions of a complete run. *)
Definition session (phase : TransactionPhase) (intent : TransactionIntent) (w : Disk)
    : (Disk * NoFault) * outcome ExecutorError LeasedIntent :=
  execute_leased_intent device device_prepared (device_lease phase) intent (w, noFault).
Definition staged : Disk * NoFault := Eval vm_compute in
  (session Relocating (intent_after device_prepared Relocating) moved.1).1.
Definition backed : Disk * NoFault := Eval vm_compute in
  (session TargetStaged (WriteBackupBoot (ws_backup_boot (pc_writes device_prepared))) staged.1).1.
Definition activated : Disk * NoFault := Eval vm_compute in
  (session BackupBootWritten (intent_after device_prepared BackupBootWritten) backed.1).1.

Lemma device_executed :
  executed (W := Disk) (F := NoFault) device device_prepared (forward_intents device_prepared)
    device_image (image activated).
Proof.
  assert (Hpin : forall s : Disk * NoFault, len (image s) = 4096 -> pinned device s).
  { intros s Hs. split; rewrite Hs; [done | vm_compute; congruence]. }
  change device_image with (image (fresh_disk [])).
  eapply (executed_cons _ _ (fresh_disk []) moved (device_lease Reserved));
    [apply Hpin; vm_compute; reflexivity | vm_compute; reflexivity |].
  eapply (executed_cons _ _ moved staged (device_lease Relocating));
    [apply Hpin; vm_compute; reflexivity | vm_compute; reflexivity |].
  eapply (executed_cons _ _ staged backed (device_lease TargetStaged));
    [apply Hpin; vm_compute; reflexivity | vm_compute; reflexivity |].
  eapply (executed_cons _ _ backed activated (device_lease BackupBootWritten));
    [apply Hpin; vm_compute; reflexivity | vm_compute; reflexivity |].
  apply executed_nil.
Qed.

(** Witness. *)
Lemma conversion_preserves_payload_witness :
  bytes_at (image activated) (mkByteRange 2048 512) = replicate 512 x41.
Proof.
  destruct (@conversion_preserves_payload _ _ _ _ _ _ blank_envelope device (small_graph 1024)
    (small_graph 1024) (small_graph 2048) device_draft [zero_write 2048] small_limits
    device_prepared device_image (image activated) device_ok) as (_ & Hmoved & _).
  - vm_compute. congruence.
  - vm_compute. congruence.
  - apply device_built.
  - apply device_executed.
  - etransitivity.
    + exact (Hmoved (mkRelocation 7 0 (mkByteRange 1024 512) (mkByteRange 2048 512)) ltac:(left)).
    + vm_compute. reflexivity.
Defined.
End Witnesses.
