(* ===== verification/Runlist.v ===== *)
(** * NTFS mapping pairs

    The reader of non-resident runlists ([fs/ntfs_runlist.rs]) and the writer
    of the NTFS serializer ([encode_runs] of [fs/ntfs_serialize.rs]).  A run is
    a length with an optional signed distance from the previous physical run;
    the reader turns the byte string into contiguous extents of virtual
    clusters, coalescing compatible neighbours.

    The specification reads a runlist cluster by cluster: [clusters_of] lists,
    for every virtual cluster, the logical cluster that stores it or [None] in
    a hole.  The theorems: what the reader accepts is contiguous, inside the
    volume and inside the caller's limits; it reads back every encoding that
    the writer produces; no byte string makes it panic or run forever. *)

From S2P Require Export Prelude Bytes.
From stdpp Require Import options.

#[local] Open Scope N_scope.

(** ** Data *)
Record MappingPairsLimits : Type := mkMappingPairsLimits {
  ml_starting_vcn : N;
  ml_expected_next_vcn : option N;
  ml_volume_cluster_count : N;
  ml_max_runs : N;
  ml_max_decoded_clusters : N
}.

Inductive ExtentLocation : Type :=
| SparseRun
| PhysicalRun (lcn : N).

Record NtfsExtent : Type := mkNtfsExtent {
  ne_vcn : N;
  ne_length : N;
  ne_location : ExtentLocation
}.

Record NtfsRunlist : Type := mkNtfsRunlist {
  rl_extents : list NtfsExtent;
  rl_next_vcn : N;
  rl_encoded_runs : N;
  rl_bytes_consumed : N;
  rl_decoded_clusters : N;
  rl_physical_clusters : N;
  rl_sparse_clusters : N
}.

Inductive MappingPairField : Type :=
| RunLength
| LcnDelta.

Inductive MappingPairsError : Type :=
| MissingTerminator
| MissingRunLength (offset : N)
| FieldWidthTooLarge (field : MappingPairField) (offset width : N)
| TruncatedRun (offset required_end actual : N)
| RunLimitExceeded (maximum : N)
| ZeroLengthPhysicalRun (run_index : N)
| DecodedClusterCountOverflow
| DecodedClusterLimitExceeded (decoded maximum : N)
| VcnOverflow (vcn length : N)
| LcnOverflow (run_index : N) (previous_lcn delta : Z)
| NegativeLcn (run_index : N) (value : Z)
| PhysicalRunEndOverflow (run_index lcn length : N)
| PhysicalRunOutOfBounds (run_index lcn length volume_cluster_count : N)
| ExpectedNextVcnMismatch (expected actual : N)
| TrailingNonZeroByte (offset value : N)
| AllocationFailed.

Record DecodedRun : Type := mkDecodedRun {
  dr_length : N;
  dr_location : ExtentLocation;
  dr_next_lcn : Z;
  dr_next_offset : N
}.

(** ** Signed 64-bit integers *)
Definition i64_min : Z := -9223372036854775808.
Definition i64_max : Z := 9223372036854775807.
Definition i64_try_from (z : Z) : option Z :=
  if ((i64_min <=? z) && (z <=? i64_max))%Z then Some z else None.
(** [i64::from_le_bytes(u.to_le_bytes())]. *)
Definition i64_of_u64 (u : N) : Z :=
  if u <? 2 ^ 63 then Z.of_N u else (Z.of_N u - 2 ^ 64)%Z.
(** [i64::to_le_bytes]. *)
Definition i64_le (z : Z) : list byte := u64_le (Z.to_N (z mod 2 ^ 64)%Z).

(** ** Reading *)
Definition validate_width (field : MappingPairField) (offset width : N)
    : outcome MappingPairsError unit :=
  refuse_if (8 <? width) (FieldWidthTooLarge field offset width).

(** The fold carries the position of the byte; a field has at most eight. *)
Fixpoint decode_unsigned_from (shift value : N) (bytes : list byte) : N :=
  match bytes with
  | [] => value
  | byte :: bytes =>
      decode_unsigned_from (shift + 1)
        (N.lor value (N.shiftl (Byte.to_N byte) (shift * 8))) bytes
  end.
Definition decode_unsigned (bytes : list byte) : N := decode_unsigned_from 0 0 bytes.

Definition top_bit_set (byte : byte) : bool := negb (N.land (Byte.to_N byte) 128 =? 0).

Definition decode_signed (bytes : list byte) : outcome MappingPairsError Z :=
  let unsigned := decode_unsigned bytes in
  let bits := len bytes * 8 in
  if bits =? 64 then Ok (i64_of_u64 unsigned)
  else if (match last bytes with Some byte => top_bit_set byte | None => false end)
  then expect (i64_try_from (Z.of_N unsigned - Z.shiftl 1 (Z.of_N bits))%Z)
  else expect (i64_try_from (Z.of_N unsigned)).

Definition decode_run (bytes : list byte) (offset : N) (header : byte) (run_index : N)
    (previous_lcn : Z) (volume_cluster_count : N) : outcome MappingPairsError DecodedRun :=
  let length_width := N.land (Byte.to_N header) 15 in
  let lcn_width := N.shiftr (Byte.to_N header) 4 in
  refuse_if (length_width =? 0) (MissingRunLength offset) ;;
  validate_width RunLength offset length_width ;;
  validate_width LcnDelta offset lcn_width ;;
  let payload_width := length_width + lcn_width in
  required_end ← ok_or (TruncatedRun offset usize_max (len bytes))
    (checked_add offset (1 + payload_width));
  refuse_if (len bytes <? required_end) (TruncatedRun offset required_end (len bytes)) ;;
  length_start ← add_u64 offset 1;
  lcn_start ← add_u64 length_start length_width;
  length_bytes ← index_range length_start lcn_start bytes;
  let length := decode_unsigned length_bytes in
  if lcn_width =? 0 then Ok (mkDecodedRun length SparseRun previous_lcn required_end)
  else
    refuse_if (length =? 0) (ZeroLengthPhysicalRun run_index) ;;
    delta_bytes ← index_range lcn_start required_end bytes;
    delta ← decode_signed delta_bytes;
    let sum := (previous_lcn + delta)%Z in
    next_lcn ← ok_or (LcnOverflow run_index previous_lcn delta) (i64_try_from sum);
    refuse_if (next_lcn <? 0)%Z (NegativeLcn run_index next_lcn) ;;
    lcn ← expect (u64_try_from (Z.to_N next_lcn));
    run_end ← ok_or (PhysicalRunEndOverflow run_index lcn length) (checked_add lcn length);
    refuse_if (volume_cluster_count <? run_end)
      (PhysicalRunOutOfBounds run_index lcn length volume_cluster_count) ;;
    Ok (mkDecodedRun length (PhysicalRun lcn) next_lcn required_end).

(** The first byte of [bytes[start..]] that is not zero. *)
Definition validate_zero_padding (bytes : list byte) (start : N)
    : outcome MappingPairsError unit :=
  tail ← index_range start (len bytes) bytes;
  match find_nonzero 0 tail with
  | Some (relative_offset, value) =>
      offset ← add_u64 start relative_offset;
      Err (TrailingNonZeroByte offset (Byte.to_N value))
  | None => Ok tt
  end.

Definition mergeable (previous extent : NtfsExtent) : bool :=
  match ne_location previous, ne_location extent with
  | SparseRun, SparseRun => true
  | PhysicalRun previous_lcn, PhysicalRun lcn =>
      bool_decide (checked_add previous_lcn (ne_length previous) = Some lcn)
  | _, _ => false
  end.
Definition follows (previous extent : NtfsExtent) : bool :=
  bool_decide (checked_add (ne_vcn previous) (ne_length previous) = Some (ne_vcn extent)).

(** [extents.last_mut()] is the last element; a push that cannot allocate is
    not modelled. *)
Definition append_extent (extents : list NtfsExtent) (extent : NtfsExtent)
    : outcome MappingPairsError (list NtfsExtent) :=
  match last extents with
  | Some previous =>
      if follows previous extent && mergeable previous extent then
        length ← ok_or DecodedClusterCountOverflow
          (checked_add (ne_length previous) (ne_length extent));
        Ok (removelast extents ++
            [mkNtfsExtent (ne_vcn previous) length (ne_location previous)])
      else Ok (extents ++ [extent])
  | None => Ok (extents ++ [extent])
  end.

(** The local variables of the parsing loop. *)
Record parse_state : Type := mkParseState {
  ps_extents : list NtfsExtent;
  ps_offset : N;
  ps_encoded_runs : N;
  ps_next_vcn : N;
  ps_previous_lcn : Z;
  ps_decoded_clusters : N;
  ps_physical_clusters : N;
  ps_sparse_clusters : N
}.

(** The terminator branch. *)
Definition finish_runlist (bytes : list byte) (limits : MappingPairsLimits)
    (attribute_alignment_padding : bool) (s : parse_state)
    : outcome MappingPairsError NtfsRunlist :=
  bytes_consumed ← add_u64 (ps_offset s) 1;
  remaining ← sub_u64 (len bytes) bytes_consumed;
  (if negb (attribute_alignment_padding && (len bytes mod 8 =? 0) && (remaining <=? 7))
   then validate_zero_padding bytes bytes_consumed else Ok tt) ;;
  match ml_expected_next_vcn limits with
  | Some expected =>
      refuse_if (negb (ps_next_vcn s =? expected))
        (ExpectedNextVcnMismatch expected (ps_next_vcn s))
  | None => Ok tt
  end ;;
  Ok (mkNtfsRunlist (ps_extents s) (ps_next_vcn s) (ps_encoded_runs s) bytes_consumed
        (ps_decoded_clusters s) (ps_physical_clusters s) (ps_sparse_clusters s)).

(** The accounting of one decoded run. *)
Definition account_run (limits : MappingPairsLimits) (s : parse_state)
    (encoded_runs : N) (run : DecodedRun) : outcome MappingPairsError parse_state :=
  decoded ← ok_or DecodedClusterCountOverflow
    (checked_add (ps_decoded_clusters s) (dr_length run));
  refuse_if (ml_max_decoded_clusters limits <? decoded)
    (DecodedClusterLimitExceeded decoded (ml_max_decoded_clusters limits)) ;;
  let run_vcn := ps_next_vcn s in
  next_vcn ← ok_or (VcnOverflow (ps_next_vcn s) (dr_length run))
    (checked_add (ps_next_vcn s) (dr_length run));
  '(physical, sparse) ←
    match dr_location run with
    | SparseRun =>
        sparse ← ok_or DecodedClusterCountOverflow
          (checked_add (ps_sparse_clusters s) (dr_length run));
        Ok (ps_physical_clusters s, sparse)
    | PhysicalRun _ =>
        physical ← ok_or DecodedClusterCountOverflow
          (checked_add (ps_physical_clusters s) (dr_length run));
        Ok (physical, ps_sparse_clusters s)
    end;
  extents ←
    (if dr_length run =? 0 then Ok (ps_extents s)
     else append_extent (ps_extents s)
            (mkNtfsExtent run_vcn (dr_length run) (dr_location run)));
  Ok (mkParseState extents (dr_next_offset run) encoded_runs next_vcn (dr_next_lcn run)
        decoded physical sparse).

(** One round of the loop on a header that is not the terminator. *)
Definition parse_run (bytes : list byte) (limits : MappingPairsLimits) (header : byte)
    (s : parse_state) : outcome MappingPairsError parse_state :=
  refuse_if (ml_max_runs limits <=? ps_encoded_runs s)
    (RunLimitExceeded (ml_max_runs limits)) ;;
  let run_index := ps_encoded_runs s in
  encoded_runs ← add_u64 (ps_encoded_runs s) 1;
  run ← decode_run bytes (ps_offset s) header run_index (ps_previous_lcn s)
          (ml_volume_cluster_count limits);
  account_run limits s encoded_runs run.

Fixpoint parse_loop (fuel : nat) (bytes : list byte) (limits : MappingPairsLimits)
    (attribute_alignment_padding : bool) (s : parse_state)
    : outcome MappingPairsError NtfsRunlist :=
  match fuel with
  | O => Panic
  | S fuel =>
      match bytes !! N.to_nat (ps_offset s) with
      | None => Err MissingTerminator
      | Some header =>
          if Byte.to_N header =? 0
          then finish_runlist bytes limits attribute_alignment_padding s
          else
            s ← parse_run bytes limits header s;
            parse_loop fuel bytes limits attribute_alignment_padding s
      end
  end.

Definition initial_parse_state (limits : MappingPairsLimits) : parse_state :=
  mkParseState [] 0 0 (ml_starting_vcn limits) 0%Z 0 0 0.

(** Every round consumes at least two bytes. *)
Definition parse_mapping_pairs_with_padding (bytes : list byte)
    (limits : MappingPairsLimits) (attribute_alignment_padding : bool)
    : outcome MappingPairsError NtfsRunlist :=
  parse_loop (S (length bytes)) bytes limits attribute_alignment_padding
    (initial_parse_state limits).
Definition parse_mapping_pairs (bytes : list byte) (limits : MappingPairsLimits)
    : outcome MappingPairsError NtfsRunlist :=
  parse_mapping_pairs_with_padding bytes limits false.
Definition parse_attribute_mapping_pairs (bytes : list byte) (limits : MappingPairsLimits)
    : outcome MappingPairsError NtfsRunlist :=
  parse_mapping_pairs_with_padding bytes limits true.

(** ** Writing *)
Definition all_zero (bytes : list byte) : bool :=
  forallb (fun byte => Byte.to_N byte =? 0) bytes.

Definition unsigned_bytes (value : N) : list byte :=
  let raw := u64_le value in
  let length :=
    default 8%nat (find (fun length => all_zero (drop length raw)) (seq 1 8)) in
  take length raw.

(** The loop that drops redundant sign bytes; the indices stay below eight. *)
Fixpoint signed_width (raw : list byte) (length : nat) : nat :=
  match length with
  | S ((S before_top) as shorter) =>
      let top := nth shorter raw x00 in
      let next := nth before_top raw x00 in
      if ((Byte.to_N top =? 0) && negb (top_bit_set next))
         || ((Byte.to_N top =? 255) && top_bit_set next)
      then signed_width raw shorter else length
  | _ => length
  end.
Definition signed_bytes (value : Z) : list byte :=
  let raw := i64_le value in
  take (signed_width raw 8) raw.

Definition u8_try_from (n : N) : option N := if n <=? u8_max then Some n else None.

Fixpoint encode_runs_from (output : list byte) (previous : Z)
    (runs : list (option N * N)) : option (list byte) :=
  match runs with
  | [] => Some (output ++ [x00])
  | (lcn, length) :: runs =>
      if length =? 0 then None
      else
        let length_bytes := unsigned_bytes length in
        match lcn with
        | None =>
            width ← u8_try_from (len length_bytes);
            encode_runs_from (output ++ byte_of_N width :: length_bytes) previous runs
        | Some lcn =>
            let delta := (Z.of_N lcn - previous)%Z in
            delta_i64 ← i64_try_from delta;
            let delta_bytes := signed_bytes delta_i64 in
            delta_width ← u8_try_from (len delta_bytes);
            length_width ← u8_try_from (len length_bytes);
            encode_runs_from
              (output ++
               byte_of_N (N.lor (N.land (N.shiftl delta_width 4) 255) length_width)
                 :: length_bytes ++ delta_bytes)
              (Z.of_N lcn) runs
        end
  end.
Definition encode_runs (runs : list (option N * N)) : option (list byte) :=
  encode_runs_from [] 0%Z runs.

(** ** Specification *)

(** A run: where it is stored, and its length in clusters. *)

Definition run_location (lcn : option N) : ExtentLocation :=
  match lcn with
  | Some lcn => PhysicalRun lcn
  | None => SparseRun
  end.

(** The logical cluster of every virtual cluster. *)
Definition location_clusters (location : ExtentLocation) (n : nat) : list (option N) :=
  match location with
  | SparseRun => replicate n None
  | PhysicalRun lcn => (fun i => Some (lcn + N.of_nat i)) <$> seq 0 n
  end.
Definition clusters_of (extents : list NtfsExtent) : list (option N) :=
  e ← extents; location_clusters (ne_location e) (N.to_nat (ne_length e)).
Definition run_clusters (runs : list (option N * N)) : list (option N) :=
  r ← runs; location_clusters (run_location (fst r)) (N.to_nat (snd r)).

(** The two's complement value of a little-endian field. *)
Definition signed_num (l : list byte) : Z :=
  if 2 * le_num l <? 256 ^ len l then Z.of_N (le_num l)
  else (Z.of_N (le_num l) - Z.of_N (256 ^ len l))%Z.

(** The grammar of mapping pairs.  [encodes prev bytes runs padding]: after a
    physical run at [prev], [bytes] lists [runs], a terminator and [padding]. *)
Definition low_nibble (header : byte) : N := N.land (Byte.to_N header) 15.
Definition high_nibble (header : byte) : N := N.shiftr (Byte.to_N header) 4.
Inductive encodes : Z -> list byte -> list (option N * N) -> list byte -> Prop :=
| encodes_end prev padding : encodes prev (x00 :: padding) [] padding
| encodes_hole prev header lb rest runs padding :
    low_nibble header = len lb -> high_nibble header = 0 ->
    1 <= len lb <= 8 -> encodes prev rest runs padding ->
    encodes prev (header :: lb ++ rest) ((None, le_num lb) :: runs) padding
| encodes_extent prev header lb db lcn rest runs padding :
    low_nibble header = len lb -> high_nibble header = len db ->
    1 <= len lb <= 8 -> 1 <= len db <= 8 ->
    Z.of_N lcn = (prev + signed_num db)%Z -> encodes (Z.of_N lcn) rest runs padding ->
    encodes prev (header :: lb ++ db ++ rest) ((Some lcn, le_num lb) :: runs) padding.

(** A physical run is not empty and lies in the volume. *)
Definition run_fits (volume_cluster_count : N) (r : option N * N) : Prop :=
  match fst r with
  | Some lcn =>
      0 < snd r /\ (Z.of_N lcn <= i64_max)%Z /\ lcn + snd r <= volume_cluster_count
  | None => True
  end.

(** The extents of a list of runs: empty holes disappear, and a run that
    continues the last extent extends it. *)
Definition continues (previous extent : NtfsExtent) : Prop :=
  match ne_location previous, ne_location extent with
  | SparseRun, SparseRun => True
  | PhysicalRun previous_lcn, PhysicalRun lcn => previous_lcn + ne_length previous = lcn
  | _, _ => False
  end.
#[export] Instance continues_dec previous extent : Decision (continues previous extent).
Proof. unfold continues. destruct (ne_location previous), (ne_location extent); apply _. Defined.

Definition push_extent (extents : list NtfsExtent) (extent : NtfsExtent)
    : list NtfsExtent :=
  match last extents with
  | Some previous =>
      if decide (continues previous extent) then
        removelast extents ++
        [mkNtfsExtent (ne_vcn previous) (ne_length previous + ne_length extent)
           (ne_location previous)]
      else extents ++ [extent]
  | None => [extent]
  end.
Definition push_run (layout : list NtfsExtent * N) (r : option N * N) : list NtfsExtent * N :=
  let (extents, vcn) := layout in
  (if snd r =? 0 then extents
   else push_extent extents (mkNtfsExtent vcn (snd r) (run_location (fst r))),
   vcn + snd r).
Definition layout_of (start : N) (runs : list (option N * N)) : list NtfsExtent * N :=
  foldl push_run ([], start) runs.
Definition physical_length (r : option N * N) : N := if fst r is Some _ then snd r else 0.
Definition sparse_length (r : option N * N) : N := if fst r is Some _ then 0 else snd r.

(** What the reader answers for a list of runs. *)
Definition runlist_of (limits : MappingPairsLimits) (runs : list (option N * N)) (consumed : N)
    : NtfsRunlist :=
  let layout := layout_of (ml_starting_vcn limits) runs in
  mkNtfsRunlist (fst layout) (snd layout) (len runs) consumed
    (sum_by snd runs) (sum_by physical_length runs) (sum_by sparse_length runs).

(** The limits that the runs respect. *)
Definition within (limits : MappingPairsLimits) (runs : list (option N * N)) : Prop :=
  Forall (run_fits (ml_volume_cluster_count limits)) runs /\
  len runs <= ml_max_runs limits /\
  (sum_by snd runs <= ml_max_decoded_clusters limits \/ runs = []) /\
  ml_starting_vcn limits + sum_by snd runs <= u64_max.

(** They end where the caller expects, and the bytes after the terminator are
    zero, or the alignment tail of an attribute. *)
Record accepted (bytes : list byte) (limits : MappingPairsLimits) (aligned : bool)
    (runs : list (option N * N)) (padding : list byte) : Prop := {
  accepted_within : within limits runs;
  accepted_next : forall expected, ml_expected_next_vcn limits = Some expected ->
    ml_starting_vcn limits + sum_by snd runs = expected;
  accepted_padding :
    aligned = true /\ len bytes mod 8 = 0 /\ len padding <= 7 \/
    Forall (fun b => b = x00) padding
}.

(** Contiguous extents from one virtual cluster to another. *)
Fixpoint spans_vcns (vcn : N) (extents : list NtfsExtent) (next : N) : Prop :=
  match extents with
  | [] => vcn = next
  | e :: extents =>
      ne_vcn e = vcn /\ 0 < ne_length e /\ spans_vcns (vcn + ne_length e) extents next
  end.
Definition extent_fits (volume_cluster_count : N) (e : NtfsExtent) : Prop :=
  match ne_location e with
  | PhysicalRun lcn => lcn + ne_length e <= volume_cluster_count
  | SparseRun => True
  end.
Definition limits_typed (limits : MappingPairsLimits) : Prop :=
  ml_starting_vcn limits <= u64_max /\ ml_volume_cluster_count limits <= u64_max /\
  ml_max_runs limits <= u64_max /\ ml_max_decoded_clusters limits <= u64_max.

(** * Lemmas *)

(** ** Bytes *)
Lemma decode_unsigned_from_spec shift value l :
  value < 2 ^ (shift * 8) ->
  decode_unsigned_from shift value l = value + 2 ^ (shift * 8) * le_num l.
Proof.
  revert shift value. induction l as [|b l IH]; intros shift value Hv; simpl; [lia |].
  rewrite lor_shiftl_add by done. pose proof (to_N_bound b) as Hb.
  assert (Hs : 2 ^ ((shift + 1) * 8) = 256 * 2 ^ (shift * 8)).
  { rewrite N.mul_add_distr_r, N.pow_add_r. change (2 ^ (1 * 8)) with 256. lia. }
  rewrite IH, Hs; [lia |]. rewrite Hs. nia.
Qed.

Lemma decode_unsigned_spec l : decode_unsigned l = le_num l.
Proof. unfold decode_unsigned. rewrite decode_unsigned_from_spec; [simpl; lia | done]. Qed.

Lemma top_bit_set_spec b : top_bit_set b = (128 <=? Byte.to_N b).
Proof. by destruct b. Qed.

Lemma top_bit_le_num l b :
  top_bit_set b = negb (2 * le_num (l ++ [b]) <? 256 ^ len (l ++ [b])).
Proof.
  rewrite top_bit_set_spec, le_num_app, len_app. simpl le_num.
  change (len [b]) with 1. rewrite N.pow_add_r. change (256 ^ 1) with 256.
  pose proof (le_num_bound l) as Hl. pose proof (to_N_bound b).
  destruct (N.ltb_spec (2 * (le_num l + 256 ^ len l * (Byte.to_N b + 256 * 0)))
              (256 ^ len l * 256)); destruct (N.leb_spec 128 (Byte.to_N b)); try done; nia.
Qed.

Lemma pow256_le n : n <= 8 -> 256 ^ n <= 2 ^ 64.
Proof. intros. change (2 ^ 64) with (256 ^ 8). by apply N.pow_le_mono_r. Qed.
Lemma pow256_bits n : 2 ^ (n * 8) = 256 ^ n.
Proof. rewrite N.mul_comm, N.pow_mul_r. done. Qed.

Lemma signed_num_bound l : len l <= 8 -> (i64_min <= signed_num l <= i64_max)%Z.
Proof.
  intros Hl. unfold signed_num, i64_min, i64_max.
  pose proof (le_num_bound l). pose proof (pow256_le _ Hl) as Hp.
  change (2 ^ 64) with 18446744073709551616 in Hp.
  destruct (N.ltb_spec (2 * le_num l) (256 ^ len l)); lia.
Qed.

Lemma i64_try_from_Some z v :
  i64_try_from z = Some v <-> v = z /\ (i64_min <= z <= i64_max)%Z.
Proof.
  unfold i64_try_from. destruct (Z.leb_spec i64_min z), (Z.leb_spec z i64_max); simpl;
    split; intros; destruct_and?; simplify_eq; try lia; done.
Qed.

Lemma decode_signed_spec l : 1 <= len l <= 8 -> decode_signed l = Ok (signed_num l).
Proof.
  intros Hl. pose proof (signed_num_bound l ltac:(lia)) as Hb. revert Hb.
  unfold decode_signed. rewrite decode_unsigned_spec. unfold signed_num.
  pose proof (le_num_bound l) as Hn.
  destruct (N.eqb_spec (len l * 8) 64) as [H8|H8].
  - intros _. assert (len l = 8) as He by lia. rewrite He in *. unfold i64_of_u64.
    change (256 ^ 8) with (2 ^ 64). f_equal.
    destruct (N.ltb_spec (le_num l) (2 ^ 63)), (N.ltb_spec (2 * le_num l) (2 ^ 64)); try done.
    + change (2 ^ 63) with 9223372036854775808 in *.
      change (2 ^ 64) with 18446744073709551616 in *. lia.
    + change (2 ^ 63) with 9223372036854775808 in *.
      change (2 ^ 64) with 18446744073709551616 in *. lia.
  - destruct (last_snoc_inv l) as [->|(l' & b & ->)]; [by destruct Hl |].
    rewrite last_snoc, (top_bit_le_num l').
    destruct (2 * le_num (l' ++ [b]) <? 256 ^ len (l' ++ [b])); simpl; intros Hb.
    + by rewrite (proj2 (i64_try_from_Some _ _) (conj eq_refl Hb)).
    + rewrite Z.shiftl_1_l.
      replace (2 ^ Z.of_N (len (l' ++ [b]) * 8))%Z with (Z.of_N (256 ^ len (l' ++ [b])))
        by (by rewrite <- pow256_bits, N2Z.inj_pow).
      by rewrite (proj2 (i64_try_from_Some _ _) (conj eq_refl Hb)).
Qed.

(** ** One run *)
Definition placed (vol : N) (prev : Z) (db : list byte) (r : DecodedRun) : Prop :=
  db = [] /\ dr_location r = SparseRun /\ dr_next_lcn r = prev \/
  1 <= len db /\ exists lcn,
    Z.of_N lcn = (prev + signed_num db)%Z /\ run_fits vol (Some lcn, dr_length r) /\
    dr_location r = PhysicalRun lcn /\ dr_next_lcn r = Z.of_N lcn.

Section DecodeRun.
Context (pre : list byte) (header : byte) (rest : list byte) (index : N) (prev : Z) (vol : N).
Let bytes : list byte := pre ++ header :: rest.

Lemma slice_field (lb db rest' : list byte) :
  rest = lb ++ db ++ rest' ->
  subslice (len pre + 1) (len pre + 1 + len lb) bytes = lb /\
  subslice (len pre + 1 + len lb) (len pre + (1 + (len lb + len db))) bytes = db.
Proof.
  intros ->. unfold bytes. replace (pre ++ header :: lb ++ db ++ rest')
    with ((pre ++ [header]) ++ lb ++ db ++ rest') by (by rewrite <- app_assoc).
  assert (Hp : len (pre ++ [header]) = len pre + 1) by (by rewrite len_app, len_cons, len_nil).
  split; [by apply subslice_middle |].
  rewrite app_assoc. apply subslice_middle; [rewrite len_app, Hp |]; lia.
Qed.

Lemma decode_run_inv r :
  decode_run bytes (len pre) header index prev vol = Ok r ->
  exists lb db rest', rest = lb ++ db ++ rest' /\
    low_nibble header = len lb /\ high_nibble header = len db /\
    1 <= len lb <= 8 /\ len db <= 8 /\ dr_length r = le_num lb /\
    dr_next_offset r = len pre + 1 + len lb + len db /\ placed vol prev db r.
Proof.
  unfold decode_run, validate_width. fold (low_nibble header) (high_nibble header).
  intros H. inv_ok. bool_props.
  destruct (split_three rest (low_nibble header) (high_nibble header))
    as (lb & db & rest' & Hr & Hlb & Hdb).
  { unfold bytes in *. rewrite len_app, len_cons in *. lia. }
  destruct (slice_field lb db rest' Hr) as [Hs1 Hs2].
  match goal with H : index_range _ _ _ = Ok _ |- _ =>
    apply index_range_Ok in H as (_ & _ & ->) end.
  rewrite Hlb in Hs1, Hs2. rewrite Hdb in Hs2.
  rewrite Hs1, decode_unsigned_spec in H.
  exists lb, db, rest'. split; [exact Hr |]. clear Hr.
  destruct (N.eqb_spec (high_nibble header) 0) as [H0|H0]; inv_ok.
  - split_and!; try done; try (simpl; lia). left. split; [|done].
    apply nil_length_inv. unfold len in *. lia.
  - match goal with H : index_range _ _ _ = Ok _ |- _ =>
      apply index_range_Ok in H as (_ & _ & ->) end.
    match goal with H : decode_signed _ = Ok _ |- _ =>
      rewrite decode_signed_spec in H by lia end. inv_ok.
    match goal with H : i64_try_from _ = Some _ |- _ =>
      apply i64_try_from_Some in H as [-> ?] end.
    match goal with H : (_ <? 0)%Z = false |- _ => apply Z.ltb_ge in H end.
    bool_props. split_and!; try done; try (simpl; lia).
    right. split; [lia |]. eexists (Z.to_N _). unfold run_fits. simpl.
    rewrite Z2N.id by eassumption. split_and!; try done; lia.
Qed.

Lemma decode_run_intro lb db rest' r :
  len bytes <= isize_max -> vol <= u64_max ->
  rest = lb ++ db ++ rest' ->
  low_nibble header = len lb -> high_nibble header = len db ->
  1 <= len lb <= 8 -> len db <= 8 -> dr_length r = le_num lb ->
  dr_next_offset r = len pre + 1 + len lb + len db -> placed vol prev db r ->
  decode_run bytes (len pre) header index prev vol = Ok r.
Proof.
  intros Hb Hv Hr Hlo Hhi Hlb Hdb Hlen Hoff Hpl.
  pose proof isize_lt_u64 as Hi.
  assert (Hl : len bytes = len pre + 1 + len lb + len db + len rest').
  { unfold bytes. rewrite Hr, len_app, len_cons, !len_app. lia. }
  destruct (slice_field lb db rest' Hr) as [Hs1 Hs2].
  unfold decode_run, validate_width. fold (low_nibble header) (high_nibble header).
  rewrite Hlo, Hhi. ok_step. ok_step. ok_step.
  eapply bind_step; [ok_auto; apply checked_add_in; lia |]. ok_step.
  ok_step. ok_step. ok_step. rewrite Hs1, decode_unsigned_spec.
  unfold placed in Hpl. destruct r as [length location next next_offset]. simpl in *. subst length next_offset.
  destruct Hpl as [(-> & -> & ->)|(Hd & lcn & He & Hf & -> & ->)].
  - simpl. do 2 f_equal. rewrite len_nil. lia.
  - destruct Hf as (Hpos & Hmax & Hfit). simpl in *.
    destruct (N.eqb_spec (len db) 0) as [?|_]; [lia |].
    ok_step. ok_step. rewrite Hs2.
    eapply bind_step; [by apply decode_signed_spec |]. cbv beta.
    eapply bind_step; [ok_auto; apply i64_try_from_Some; unfold i64_min in *; split; [done | lia] |].
    cbv beta. eapply bind_step; [apply refuse_step, Z.ltb_ge; lia |].
    apply (bind_step _ _ lcn); [apply expect_step, u64_try_from_Some; lia |].
    eapply bind_step; [ok_auto; apply checked_add_in; lia |]. cbv beta. ok_step.
    do 2 f_equal. lia.
Qed.

Lemma decode_run_safe : len bytes <= isize_max ->
  decode_run bytes (len pre) header index prev vol <> Panic.
Proof.
  intros Hb. pose proof isize_lt_u64 as Hi. unfold decode_run, validate_width. safe.
  all: inv_ok; bool_props; fold (low_nibble header) (high_nibble header) in *.
  - apply add_u64_safe. lia.
  - apply add_u64_safe. lia.
  - apply index_range_safe; lia.
  - apply index_range_safe; lia.
  - match goal with H : index_range _ _ _ = Ok _ |- _ =>
      apply index_range_Ok in H as (? & ? & ->) end. rewrite decode_signed_spec; [done |].
    rewrite len_subslice by lia. lia.
  - match goal with H : i64_try_from _ = Some _ |- _ =>
      apply i64_try_from_Some in H as [-> ?] end. unfold u64_try_from.
    rewrite (proj2 (N.leb_le _ _)); [done |]. unfold i64_max, u64_max in *. lia.
Qed.
End DecodeRun.

(** ** Layout *)
Lemma layout_snoc start runs r :
  layout_of start (runs ++ [r]) = push_run (layout_of start runs) r.
Proof. unfold layout_of. by rewrite foldl_app. Qed.

Lemma layout_next start runs : snd (layout_of start runs) = start + sum_by snd runs.
Proof.
  induction runs as [|r runs IH] using rev_ind; [unfold sum_by; simpl; lia |].
  rewrite layout_snoc, sum_by_app. unfold push_run.
  destruct (layout_of start runs) as [extents vcn]. unfold sum_by in *. simpl in *. lia.
Qed.

Lemma spans_snoc vcn extents e next :
  spans_vcns vcn (extents ++ [e]) next <->
  spans_vcns vcn extents (ne_vcn e) /\ 0 < ne_length e /\ next = ne_vcn e + ne_length e.
Proof.
  revert vcn. induction extents as [|x extents IH]; intros vcn; simpl.
  - naive_solver.
  - rewrite IH. naive_solver.
Qed.

Lemma clusters_snoc extents e :
  clusters_of (extents ++ [e]) =
  clusters_of extents ++ location_clusters (ne_location e) (N.to_nat (ne_length e)).
Proof. unfold clusters_of. rewrite bind_app. simpl. by rewrite app_nil_r. Qed.

Lemma location_clusters_app location n m lcn' :
  (match location with
   | SparseRun => lcn' = SparseRun
   | PhysicalRun lcn => lcn' = PhysicalRun (lcn + n)
   end) ->
  location_clusters location (N.to_nat n) ++ location_clusters lcn' (N.to_nat m) =
  location_clusters location (N.to_nat (n + m)).
Proof.
  rewrite N2Nat.inj_add. destruct location as [|lcn]; intros ->; simpl.
  - by rewrite replicate_add.
  - rewrite seq_app, fmap_app. f_equal.
    pose proof (fmap_add_seq (N.to_nat n) 0 (N.to_nat m)) as Hs.
    rewrite Nat.add_0_r in Hs. simpl. rewrite <- Hs.
    rewrite <- list_fmap_compose. apply list_fmap_ext. intros i x _. simpl.
    f_equal. lia.
Qed.

(** The coalesced layout of runs that fit: contiguous, in the volume, with no
    two neighbours that could be one extent, and cluster for cluster the runs. *)
Lemma push_extent_spec vol start extents next e :
  spans_vcns start extents next -> Forall (extent_fits vol) extents ->
  Sorted (fun a b => ~ continues a b) extents ->
  ne_vcn e = next -> 0 < ne_length e -> extent_fits vol e ->
  spans_vcns start (push_extent extents e) (next + ne_length e) /\
  Forall (extent_fits vol) (push_extent extents e) /\
  Sorted (fun a b => ~ continues a b) (push_extent extents e) /\
  clusters_of (push_extent extents e) =
    clusters_of extents ++ location_clusters (ne_location e) (N.to_nat (ne_length e)).
Proof.
  intros Hsp Hfit Hs He Hpos Hf. unfold push_extent.
  destruct (last_snoc_inv extents) as [->|(l & p & ->)].
  { simpl in *. subst next. split_and!; try done; repeat constructor; [done |].
    by apply (clusters_snoc []). }
  rewrite last_snoc. apply spans_snoc in Hsp as (Hsp & Hp & ->).
  apply Forall_app in Hfit as [Hfl Hfp]. rewrite Forall_singleton in Hfp.
  case_decide as Hc.
  - rewrite removelast_last. rewrite spans_snoc, Forall_app, Forall_singleton. simpl.
    split_and!; try done; try lia.
    + unfold extent_fits, continues in *. simpl.
      destruct (ne_location p), (ne_location e); try done; lia.
    + by apply Sorted_snoc_iff in Hs; apply Sorted_snoc_iff.
    + rewrite !clusters_snoc. simpl. rewrite <- app_assoc. f_equal.
      symmetry. apply location_clusters_app. unfold continues in Hc.
      destruct (ne_location p), (ne_location e); try done. by rewrite Hc.
  - rewrite spans_snoc, !Forall_app, !Forall_singleton. rewrite spans_snoc.
    split_and!; try done; try lia.
    + apply Sorted_snoc_iff. split; [done |]. intros y. rewrite last_snoc. by intros [= <-].
    + apply clusters_snoc.
Qed.

Definition good_layout (vol start : N) (runs : list (option N * N)) : Prop :=
  let extents := fst (layout_of start runs) in
  spans_vcns start extents (start + sum_by snd runs) /\
  Forall (extent_fits vol) extents /\
  Sorted (fun a b => ~ continues a b) extents /\
  clusters_of extents = run_clusters runs.

Lemma layout_good vol start runs :
  Forall (run_fits vol) runs -> good_layout vol start runs.
Proof.
  induction runs as [|[lcn n] runs IH] using rev_ind; intros Hf.
  { split_and!; try done; try constructor. unfold sum_by. simpl. lia. }
  apply Forall_app in Hf as [Hf Hr]. rewrite Forall_singleton in Hr.
  destruct (IH Hf) as (Hsp & Hfit & Hs & Hc).
  assert (Hrc : run_clusters (runs ++ [(lcn, n)]) =
    run_clusters runs ++ location_clusters (run_location lcn) (N.to_nat n)).
  { unfold run_clusters. rewrite bind_app. simpl. by rewrite app_nil_r. }
  unfold good_layout. rewrite layout_snoc, Hrc, sum_by_app. pose proof (layout_next start runs) as Hn.
  unfold push_run. destruct (layout_of start runs) as [extents vcn]. simpl in *.
  change (sum_by snd [(lcn, n)]) with (n + 0). rewrite (N.add_0_r n).
  destruct (N.eqb_spec n 0) as [->|Hpos].
  - rewrite N.add_0_r. split_and!; try done.
    rewrite Hc. by destruct lcn; simpl; rewrite app_nil_r.
  - rewrite N.add_assoc, <- Hn, <- Hc. subst vcn.
    apply (push_extent_spec vol start extents _ (mkNtfsExtent _ n _)); try done; simpl; [lia |].
    destruct lcn; [by destruct Hr as (_ & _ & ?) | done].
Qed.

Lemma spans_end start extents e next :
  spans_vcns start (extents ++ [e]) next -> ne_vcn e + ne_length e = next.
Proof. intros (_ & _ & ->)%spans_snoc. done. Qed.

Lemma append_extent_Ok vol start extents next e :
  spans_vcns start extents next -> Forall (extent_fits vol) extents ->
  vol <= u64_max -> ne_vcn e = next -> next + ne_length e <= u64_max ->
  append_extent extents e = Ok (push_extent extents e).
Proof.
  intros Hsp Hf Hv He Hn. unfold append_extent, push_extent.
  destruct (last_snoc_inv extents) as [->|(l & p & ->)]; [done |].
  rewrite last_snoc. pose proof (spans_end _ _ _ _ Hsp) as Hp.
  apply Forall_app in Hf as [_ Hf]. rewrite Forall_singleton in Hf.
  unfold follows. rewrite bool_decide_eq_true_2 by (apply checked_add_Some; lia).
  assert (Hm : mergeable p e = true <-> continues p e).
  { unfold mergeable, continues, extent_fits in *.
    destruct (ne_location p) as [|a], (ne_location e) as [|b]; try done.
    rewrite bool_decide_eq_true, checked_add_Some. lia. }
  simpl. case_decide as Hc.
  - rewrite (proj2 Hm Hc), checked_add_in by lia. done.
  - destruct (mergeable p e); [|done]. by destruct Hc; apply Hm.
Qed.

(** ** The loop *)
Definition state_of (limits : MappingPairsLimits) (runs : list (option N * N))
    (offset : N) (previous : Z) : parse_state :=
  let layout := layout_of (ml_starting_vcn limits) runs in
  mkParseState (fst layout) offset (len runs) (snd layout) previous (sum_by snd runs)
    (sum_by physical_length runs) (sum_by sparse_length runs).

Lemma length_split r : physical_length r + sparse_length r = snd r.
Proof. unfold physical_length, sparse_length. destruct (fst r); lia. Qed.
Lemma sum_split runs :
  sum_by physical_length runs + sum_by sparse_length runs = sum_by snd runs.
Proof.
  induction runs as [|r runs IH]; [done |].
  rewrite !sum_by_cons. pose proof (length_split r). lia.
Qed.
Lemma sum_snoc (f : option N * N -> N) runs r : sum_by f (runs ++ [r]) = sum_by f runs + f r.
Proof. rewrite sum_by_app. unfold sum_by at 2. simpl. lia. Qed.

Lemma within_prefix limits a b : within limits (a ++ b) -> within limits a.
Proof.
  intros (Hf & Hc & Ht & Hv). apply Forall_app in Hf as [Hf _].
  rewrite len_app in Hc. rewrite sum_by_app in Ht, Hv.
  repeat split; [done | lia | | lia].
  destruct Ht as [Ht|Ht]; [left; lia | right]. by apply app_eq_nil in Ht as [-> _].
Qed.

Lemma account_run_Ok limits runs offset previous lcn n next_lcn next_offset s' :
  limits_typed limits -> within limits runs ->
  run_fits (ml_volume_cluster_count limits) (lcn, n) ->
  account_run limits (state_of limits runs offset previous) (len runs + 1)
    (mkDecodedRun n (run_location lcn) next_lcn next_offset) = Ok s' <->
  sum_by snd runs + n <= ml_max_decoded_clusters limits /\
  ml_starting_vcn limits + (sum_by snd runs + n) <= u64_max /\
  s' = state_of limits (runs ++ [(lcn, n)]) next_offset next_lcn.
Proof.
  intros (Hstart & Hvol & _ & _) (Hf & Hc & Ht & Hv) Hr.
  pose proof (sum_split runs) as Hsplit.
  destruct (layout_good _ (ml_starting_vcn limits) runs Hf) as (Hsp & Hef & _ & _).
  pose proof (layout_next (ml_starting_vcn limits) runs) as Hn.
  assert (Hs' : state_of limits (runs ++ [(lcn, n)]) next_offset next_lcn =
    mkParseState
      (if n =? 0 then fst (layout_of (ml_starting_vcn limits) runs)
       else push_extent (fst (layout_of (ml_starting_vcn limits) runs))
              (mkNtfsExtent (snd (layout_of (ml_starting_vcn limits) runs)) n (run_location lcn)))
      next_offset (len runs + 1) (snd (layout_of (ml_starting_vcn limits) runs) + n) next_lcn
      (sum_by snd runs + n)
      (sum_by physical_length runs + physical_length (lcn, n))
      (sum_by sparse_length runs + sparse_length (lcn, n))).
  { unfold state_of. rewrite layout_snoc, !sum_snoc, len_app. simpl.
    by destruct (layout_of (ml_starting_vcn limits) runs). }
  rewrite Hs'. unfold account_run. simpl ps_decoded_clusters. simpl dr_length.
  assert (Hext : snd (layout_of (ml_starting_vcn limits) runs) + n <= u64_max ->
    (if n =? 0 then Ok (fst (layout_of (ml_starting_vcn limits) runs))
     else append_extent (fst (layout_of (ml_starting_vcn limits) runs))
       (mkNtfsExtent (snd (layout_of (ml_starting_vcn limits) runs)) n (run_location lcn))) =
    Ok (if n =? 0 then fst (layout_of (ml_starting_vcn limits) runs)
       else push_extent (fst (layout_of (ml_starting_vcn limits) runs))
              (mkNtfsExtent (snd (layout_of (ml_starting_vcn limits) runs)) n (run_location lcn)))).
  { intros Hle. destruct (n =? 0); [done |]. eapply append_extent_Ok; [exact Hsp | exact Hef | done | exact Hn | by rewrite <- Hn]. }
  split.
  - intros H. inv_ok. bool_props. split_and!; [lia | simpl in *; lia |].
    simpl in *. match goal with p : (N * N)%type |- _ => destruct p as [physical sparse] end.
    rewrite Hext in H by done. unfold physical_length, sparse_length.
    destruct lcn; simpl in *; inv_ok; intros; simplify_eq; by rewrite N.add_0_r.
  - intros (Hm & Hu & ->). ok_step. ok_step. simpl ps_next_vcn.
    eapply bind_step; [ok_auto; apply checked_add_in; lia |]. cbv beta.
    destruct lcn as [lcn|]; simpl;
      (rewrite checked_add_in by lia; simpl; simpl in Hext; rewrite Hext by lia; simpl;
       unfold physical_length, sparse_length; simpl; by rewrite N.add_0_r).
Qed.

Lemma validate_zero_padding_Ok bytes start u :
  start <= len bytes ->
  validate_zero_padding bytes start = Ok u <->
  Forall (fun b => b = x00) (subslice start (len bytes) bytes).
Proof.
  intros Hs. unfold validate_zero_padding. rewrite index_range_in by done. simpl.
  rewrite <- (find_nonzero_None 0).
  destruct (find_nonzero 0 _) as [[i b]|]; [|by destruct u].
  split; [|done]. intros H. inv_ok.
Qed.
Lemma validate_zero_padding_safe bytes start :
  start <= len bytes -> len bytes <= isize_max -> validate_zero_padding bytes start <> Panic.
Proof.
  intros Hs Hb. unfold validate_zero_padding. rewrite index_range_in by done. simpl.
  destruct (find_nonzero 0 _) as [[i b]|] eqn:Hf; [|done]. safe.
  apply find_nonzero_bound in Hf. rewrite len_subslice in Hf by lia.
  apply add_u64_safe. pose proof isize_lt_u64. lia.
Qed.

Section Loop.
Context (limits : MappingPairsLimits) (aligned : bool).
Context (Hlim : limits_typed limits).

Lemma finish_runlist_Ok pre padding runs prev rl :
  let bytes := pre ++ x00 :: padding in
  len bytes <= isize_max -> within limits runs ->
  finish_runlist bytes limits aligned (state_of limits runs (len pre) prev) = Ok rl <->
  accepted bytes limits aligned runs padding /\
  rl = runlist_of limits runs (len bytes - len padding).
Proof.
  intros bytes Hb Hw. pose proof isize_lt_u64 as Hi.
  assert (Hl : len bytes = len pre + 1 + len padding).
  { unfold bytes. rewrite len_app, len_cons. lia. }
  assert (Hs : subslice (len pre + 1) (len bytes) bytes = padding).
  { unfold bytes at 2. replace (pre ++ x00 :: padding) with ((pre ++ [x00]) ++ padding)
      by (by rewrite <- app_assoc).
    rewrite subslice_skip; rewrite len_app, len_cons, len_nil; [|lia].
    replace (len pre + 1 - (len pre + (1 + 0))) with 0 by lia.
    apply subslice_whole. lia. }
  unfold finish_runlist, add_u64, sub_u64. simpl ps_offset. simpl ps_next_vcn.
  rewrite (expect_step _ _ (checked_add_in (len pre) 1 ltac:(lia))). simpl.
  rewrite (expect_step _ _ (checked_sub_in (len bytes) (len pre + 1) ltac:(lia))). simpl.
  rewrite layout_next.
  assert (Hpad : (if negb (aligned && (len bytes mod 8 =? 0) && (len bytes - (len pre + 1) <=? 7))
      then validate_zero_padding bytes (len pre + 1) else Ok ()) = Ok tt <->
    (aligned = true /\ len bytes mod 8 = 0 /\ len padding <= 7 \/
     Forall (fun b => b = x00) padding)).
  { destruct (negb _) eqn:Hneg.
    - rewrite validate_zero_padding_Ok, Hs by lia. split; [by right |].
      intros [(Ha & Hm & Hp)|]; [|done]. rewrite Ha, Hm in Hneg. simpl in Hneg.
      apply negb_true_iff, N.leb_gt in Hneg. lia.
    - split; [|done]. intros _. left. bool_props.
      repeat match goal with H : _ && _ = true |- _ => apply andb_true_iff in H as [? ?] end.
      bool_props. split_and!; [done | done | lia]. }
  assert (Hrl : runlist_of limits runs (len bytes - len padding) =
    mkNtfsRunlist (fst (layout_of (ml_starting_vcn limits) runs))
      (snd (layout_of (ml_starting_vcn limits) runs)) (len runs) (len pre + 1)
      (sum_by snd runs) (sum_by physical_length runs) (sum_by sparse_length runs)).
  { unfold runlist_of. f_equal. lia. }
  rewrite Hrl. split.
  - intros H. apply bind_Ok in H as ([] & Hp & H). apply bind_Ok in H as ([] & He & H).
    injection H as <-. split; [|by rewrite layout_next]. constructor; [done | | by apply Hpad].
    intros expected Hx. rewrite Hx in He. apply refuse_if_Ok in He. bool_props. done.
  - intros [[_ Hn Hp] ->]. apply Hpad in Hp. rewrite Hp. simpl.
    destruct (ml_expected_next_vcn limits) as [expected|]; simpl; [|by rewrite layout_next].
    rewrite (Hn expected eq_refl), N.eqb_refl. simpl. by rewrite layout_next, (Hn expected eq_refl).
Qed.

(** One round: a run that follows the grammar and the limits is absorbed, and
    nothing else. *)
Lemma parse_run_Ok pre header rest runs prev s' :
  let bytes := pre ++ header :: rest in
  len bytes <= isize_max -> within limits runs ->
  parse_run bytes limits header (state_of limits runs (len pre) prev) = Ok s' <->
  exists lcn lb db rest', rest = lb ++ db ++ rest' /\
    low_nibble header = len lb /\ high_nibble header = len db /\
    1 <= len lb <= 8 /\ len db <= 8 /\
    match lcn with
    | None => db = []
    | Some l => 1 <= len db /\ Z.of_N l = (prev + signed_num db)%Z
    end /\
    within limits (runs ++ [(lcn, le_num lb)]) /\
    s' = state_of limits (runs ++ [(lcn, le_num lb)]) (len pre + 1 + len lb + len db)
           (match lcn with Some l => Z.of_N l | None => prev end).
Proof using Hlim.
  intros bytes Hb Hw. pose proof isize_lt_u64 as Hi.
  destruct Hlim as (_ & Hvol & Hmax & _). destruct (Hw) as (Hf & Hc & Ht & Hv).
  assert (Hnew : forall lcn n, within limits (runs ++ [(lcn, n)]) <->
    run_fits (ml_volume_cluster_count limits) (lcn, n) /\ len runs < ml_max_runs limits /\
    sum_by snd runs + n <= ml_max_decoded_clusters limits /\
    ml_starting_vcn limits + (sum_by snd runs + n) <= u64_max).
  { intros lcn n. unfold within. rewrite Forall_app, Forall_singleton, len_app, sum_snoc.
    change (len [(lcn, n)]) with 1. simpl. split.
    - intros ([_ ?] & ? & [?|[_ ?]%app_eq_nil] & ?); [split_and!; try done; lia | done].
    - intros (? & ? & ? & ?). split_and!; try done; [lia | by left]. }
  unfold parse_run. split.
  - intros H. apply bind_Ok in H as ([] & Hlt & H). apply refuse_if_Ok in Hlt.
    simpl in Hlt. bool_props. inv_ok.
    match goal with H : decode_run _ _ _ _ _ _ = Ok _ |- _ =>
      apply decode_run_inv in H as (lb & db & rest' & Hr & Hlo & Hhi & Hl1 & Hl2 & Hlen & Hoff & Hpl) end.
    destruct a0 as [n location next_lcn next_offset]. unfold placed in Hpl. simpl in *. subst n next_offset.
    destruct Hpl as [(-> & -> & ->)|(Hd & lcn & He & Hfit & -> & ->)].
    + apply (account_run_Ok _ _ _ _ None) in H as (Hm & Hu & ->); [|done..].
      exists None, lb, [], rest'. rewrite Hnew. split_and!; try done; lia.
    + apply (account_run_Ok _ _ _ _ (Some lcn)) in H as (Hm & Hu & ->); [|done..].
      exists (Some lcn), lb, db, rest'. rewrite Hnew. split_and!; try done; lia.
  - intros (lcn & lb & db & rest' & Hr & Hlo & Hhi & Hl1 & Hl2 & Hpl & Hn & ->).
    apply Hnew in Hn as (Hfit & Hlt & Hm & Hu).
    eapply bind_step; [apply refuse_step, N.leb_gt; exact Hlt |]. cbv beta.
    eapply bind_step; [apply expect_step, checked_add_in; simpl; lia |]. cbv beta.
    eapply bind_step.
    { eapply (decode_run_intro _ _ _ _ _ _ lb db rest' (mkDecodedRun (le_num lb) (run_location lcn)
        (match lcn with Some l => Z.of_N l | None => prev end) (len pre + 1 + len lb + len db)));
        try done.
      unfold placed. destruct lcn as [lcn|]; [right | by left].
      destruct Hpl as [Hd He]. split; [done |]. by exists lcn. }
    cbv beta. by apply account_run_Ok.
Qed.

Lemma encodes_length prev bytes runs padding :
  encodes prev bytes runs padding -> len padding < len bytes.
Proof. induction 1; rewrite len_cons, ?len_app in *; lia. Qed.

Lemma parse_loop_Ok fuel pre rest runs prev rl :
  let bytes := pre ++ rest in
  len bytes <= isize_max -> (length rest < fuel)%nat -> within limits runs ->
  parse_loop fuel bytes limits aligned (state_of limits runs (len pre) prev) = Ok rl <->
  exists more padding, encodes prev rest more padding /\
    accepted bytes limits aligned (runs ++ more) padding /\
    rl = runlist_of limits (runs ++ more) (len bytes - len padding).
Proof using Hlim.
  revert pre rest runs prev rl. induction fuel as [|fuel IH]; intros pre rest runs prev rl bytes Hb Hf Hw;
    [lia |]. simpl parse_loop.
  destruct rest as [|header rest].
  { unfold bytes. rewrite app_nil_r, lookup_ge_None_2 by (unfold len; lia).
    split; [done |]. intros (more & padding & He & _). inversion He. }
  assert (Hh : bytes !! N.to_nat (len pre) = Some header).
  { unfold bytes, len. rewrite Nat2N.id. by apply list_lookup_middle. }
  rewrite Hh. destruct (N.eqb_spec (Byte.to_N header) 0) as [H0|H0].
  - apply to_N_zero in H0 as ->. unfold bytes. rewrite finish_runlist_Ok by done. split.
    + intros [Ha ->]. exists [], rest. rewrite app_nil_r. by split; [constructor |].
    + intros (more & padding & He & Ha & ->). inversion He; subst.
      * rewrite app_nil_r in *. done.
      * done || (change (low_nibble x00) with 0 in *; lia).
      * change (low_nibble x00) with 0 in *. lia.
  - assert (Hstep : forall lb db rest', rest = lb ++ db ++ rest' ->
      bytes = (pre ++ header :: lb ++ db) ++ rest' /\
      len (pre ++ header :: lb ++ db) = len pre + 1 + len lb + len db /\
      (length rest' < fuel)%nat).
    { intros lb db rest' ->. unfold bytes. rewrite <- app_assoc. simpl in *.
      rewrite <- app_assoc, len_app, len_cons, len_app.
      rewrite !length_app in Hf. split_and!; [done | lia | lia]. }
    split.
    + intros H. apply bind_Ok in H as (s' & Hrun & H).
      apply parse_run_Ok in Hrun as (lcn & lb & db & rest' & Hr & Hlo & Hhi & Hl1 & Hl2 & Hpl & Hn & ->);
        [|done..].
      destruct (Hstep lb db rest' Hr) as (Hbytes & Hlen & Hfuel).
      rewrite <- Hlen, Hbytes in H. apply IH in H as (more & padding & He & Ha & ->);
        [|by rewrite <- Hbytes | done | done].
      rewrite <- Hbytes, <- (app_assoc runs) in Ha. rewrite <- Hbytes, <- (app_assoc runs).
      exists ((lcn, le_num lb) :: more), padding. split_and!; [|done | done]. subst rest.
      destruct lcn as [lcn|].
      * destruct Hpl as [Hd Hz]. by apply encodes_extent.
      * subst db. simpl. by apply encodes_hole.
    + intros (more & padding & He & Ha & ->).
      assert (Hone : exists lcn lb db rest' more', more = (lcn, le_num lb) :: more' /\
        rest = lb ++ db ++ rest' /\ low_nibble header = len lb /\ high_nibble header = len db /\
        1 <= len lb <= 8 /\ len db <= 8 /\
        match lcn with
        | None => db = []
        | Some l => 1 <= len db /\ Z.of_N l = (prev + signed_num db)%Z
        end /\
        encodes (match lcn with Some l => Z.of_N l | None => prev end) rest' more' padding).
      { inversion He; subst; [done | |].
        - exists None, lb, [], rest0, runs0. split_and!; try done; lia.
        - exists (Some lcn), lb, db, rest0, runs0. split_and!; try done; lia. }
      destruct Hone as (lcn & lb & db & rest' & more' & -> & Hr & Hlo & Hhi & Hl1 & Hl2 & Hpl & He').
      destruct (Hstep lb db rest' Hr) as (Hbytes & Hlen & Hfuel).
      pose proof (accepted_within _ _ _ _ _ Ha) as Hall.
      rewrite (cons_middle _ runs more'), app_assoc in Hall. apply within_prefix in Hall.
      eapply bind_step.
      { apply parse_run_Ok; [done.. |]. exists lcn, lb, db, rest'.
        repeat (split; [assumption |]). reflexivity. }
      cbv beta. rewrite <- Hlen.
      pose proof (IH (pre ++ header :: lb ++ db) rest' (runs ++ [(lcn, le_num lb)]) (match lcn with Some l => Z.of_N l | None => prev end)
        (runlist_of limits (runs ++ (lcn, le_num lb) :: more') (len bytes - len padding))) as IH'.
      rewrite <- Hbytes in IH'. apply IH'; [done | done | done |].
      exists more', padding. rewrite <- (app_assoc runs).
      split_and!; [exact He' | exact Ha | reflexivity].
Qed.

(** The reader is safe in any state whose offset is in the slice. *)
Lemma append_extent_safe extents e : append_extent extents e <> Panic.
Proof. clear. unfold append_extent. destruct (last extents); safe. Qed.

Lemma account_run_safe s n r : account_run limits s n r <> Panic.
Proof.
  clear. unfold account_run. safe; try (by destruct (dr_location r); safe).
  match goal with p : (N * N)%type |- _ => destruct p as [physical sparse] end.
  safe. apply append_extent_safe.
Qed.

Lemma parse_run_offset bytes header s s' :
  bytes !! N.to_nat (ps_offset s) = Some header ->
  parse_run bytes limits header s = Ok s' ->
  ps_offset s + 2 <= ps_offset s' <= len bytes.
Proof.
  clear. intros (pre & rest & -> & Ho)%split_at H.
  unfold parse_run in H. apply bind_Ok in H as ([] & _ & H).
  apply bind_Ok in H as (n & _ & H). apply bind_Ok in H as (r & Hr & H).
  assert (Hs : ps_offset s' = dr_next_offset r).
  { unfold account_run in H. inv_ok.
    match goal with p : (N * N)%type |- _ => destruct p as [physical sparse] end. by inv_ok. }
  rewrite Ho in *. rewrite Hs. clear Hs.
  apply decode_run_inv in Hr as (lb & db & rest' & He & _ & _ & Hl & _ & _ & Hoff & _).
  rewrite Hoff, He, len_app, len_cons, !len_app. lia.
Qed.

Lemma parse_loop_safe fuel bytes s :
  len bytes <= isize_max -> ps_offset s <= len bytes ->
  (N.to_nat (len bytes - ps_offset s) < fuel)%nat ->
  parse_loop fuel bytes limits aligned s <> Panic.
Proof using Hlim.
  intros Hb. pose proof isize_lt_u64 as Hi. destruct Hlim as (_ & _ & Hmax & _).
  revert s. induction fuel as [|fuel IH]; intros s Ho Hf; [lia |]. simpl.
  destruct (bytes !! N.to_nat (ps_offset s)) as [header|] eqn:Hh; [|done].
  pose proof (lookup_lt_Some _ _ _ Hh) as Hlt.
  assert (Hlt' : ps_offset s < len bytes) by (unfold len; lia). clear Hlt.
  destruct (Byte.to_N header =? 0).
  - unfold finish_runlist. apply bind_safe; [apply add_u64_safe; lia |]. intros c Hc. inv_ok.
    apply bind_safe; [apply sub_u64_safe; lia |]. intros r Hr. inv_ok.
    apply bind_safe.
    + destruct (negb _); [|done]. apply validate_zero_padding_safe; [lia | done].
    + intros _ _. apply bind_safe; [destruct (ml_expected_next_vcn limits); safe |]. done.
  - apply bind_safe.
    + unfold parse_run. apply bind_safe; [safe |]. intros [] Hlt. apply refuse_if_Ok in Hlt.
      bool_props. apply bind_safe; [apply add_u64_safe; lia |]. intros n _.
      apply bind_safe; [|intros; apply account_run_safe].
      destruct (split_at _ _ _ Hh) as (pre & rest & -> & ->). by apply decode_run_safe.
    + intros s' Hs'. apply (parse_run_offset _ _ _ _ Hh) in Hs'. apply IH; lia.
Qed.
End Loop.

(** ** Writing *)
Lemma le_num_all_zero l : all_zero l = true -> le_num l = 0.
Proof.
  unfold all_zero. induction l as [|b l IH]; simpl; [done |].
  intros [Hb Hl]%andb_true_iff. apply N.eqb_eq in Hb. rewrite IH by done. lia.
Qed.

Lemma unsigned_bytes_spec v :
  v <= u64_max -> le_num (unsigned_bytes v) = v /\ 1 <= len (unsigned_bytes v) <= 8.
Proof.
  intros Hv. unfold unsigned_bytes. set (raw := u64_le v).
  assert (Hlen : forall n, (1 <= n <= 8)%nat -> len (take n raw) = N.of_nat n).
  { intros n Hn. unfold len. rewrite length_take.
    change (length raw) with 8%nat. lia. }
  destruct (find (fun length => all_zero (drop length raw)) (seq 1 8)) as [n|] eqn:Hf.
  - simpl default. apply find_some in Hf as [Hin Hz]. apply in_seq in Hin.
    rewrite Hlen by lia. split; [|lia].
    transitivity (le_num raw); [|by apply le_num_u64].
    rewrite <- (take_drop n raw) at 2. rewrite le_num_app, (le_num_all_zero _ Hz). lia.
  - simpl default. rewrite Hlen by lia. split; [|lia].
    rewrite take_ge by done. by apply le_num_u64.
Qed.

Lemma signed_num_i64_le z : (i64_min <= z <= i64_max)%Z -> signed_num (i64_le z) = z.
Proof.
  intros Hz. unfold signed_num, i64_le. rewrite len_u64_le.
  unfold u64_le. rewrite le_num_le_bytes.
  change (256 ^ N.of_nat 8) with (2 ^ 64). change (256 ^ 8) with (2 ^ 64).
  pose proof (Z.mod_pos_bound z (2 ^ 64) ltac:(done)) as Hm.
  rewrite (N.mod_small (Z.to_N _)) by (change (2 ^ 64) with (Z.to_N (2 ^ 64)); lia).
  unfold i64_min, i64_max in Hz. change (2 ^ 64)%Z with 18446744073709551616%Z in *.
  change (2 ^ 64) with 18446744073709551616.
  assert (Hc : (0 <= z /\ z mod 18446744073709551616 = z \/
    z < 0 /\ z mod 18446744073709551616 = z + 18446744073709551616)%Z).
  { destruct (Z.le_gt_cases 0 z); [left | right]; (split; [done |]).
    - apply Z.mod_small. lia.
    - symmetry. apply (Z.mod_unique_pos _ _ (-1)); lia. }
  destruct (N.ltb_spec (2 * Z.to_N (z mod 18446744073709551616)) 18446744073709551616); lia.
Qed.

(** A sign byte may be dropped. *)
Lemma signed_num_shrink l b top :
  (Byte.to_N top =? 0) && negb (top_bit_set b) || (Byte.to_N top =? 255) && top_bit_set b = true ->
  signed_num ((l ++ [b]) ++ [top]) = signed_num (l ++ [b]).
Proof.
  rewrite (top_bit_le_num l), negb_involutive. unfold signed_num.
  rewrite (le_num_app (l ++ [b])), (len_app (l ++ [b])). simpl le_num.
  change (len [top]) with 1. rewrite N.pow_add_r. change (256 ^ 1) with 256.
  pose proof (le_num_bound (l ++ [b])) as Hb. set (p := 256 ^ len (l ++ [b])) in *.
  set (x := le_num (l ++ [b])) in *. rewrite orb_true_iff, !andb_true_iff, !N.eqb_eq.
  intros [[Ht Hx]|[Ht Hx]]; rewrite Ht; [rewrite Hx |]; bool_props.
  - destruct (N.ltb_spec (2 * (x + p * (0 + 256 * 0))) (p * 256)); lia.
  - rewrite (proj2 (N.ltb_ge _ _) Hx).
    destruct (N.ltb_spec (2 * (x + p * (255 + 256 * 0))) (p * 256)); lia.
Qed.

Lemma signed_width_spec raw n :
  (1 <= n)%nat -> (n <= length raw)%nat ->
  (1 <= signed_width raw n <= n)%nat /\
  signed_num (take (signed_width raw n) raw) = signed_num (take n raw).
Proof.
  induction n as [|[|n] IH]; intros H1 Hn; [lia | done |].
  change (signed_width raw (S (S n))) with
    (if (Byte.to_N (nth (S n) raw x00) =? 0) && negb (top_bit_set (nth n raw x00))
        || (Byte.to_N (nth (S n) raw x00) =? 255) && top_bit_set (nth n raw x00)
     then signed_width raw (S n) else S (S n)).
  destruct (_ || _) eqn:Hc; [|split; [lia | done]].
  destruct (IH ltac:(lia) ltac:(lia)) as [Hw ->]. split; [lia |].
  assert (Hsnoc : forall k, (k < length raw)%nat -> take (S k) raw = take k raw ++ [nth k raw x00]).
  { intros k Hk. destruct (lookup_lt_is_Some_2 raw k Hk) as [y Hy].
    rewrite (take_S_r _ _ y Hy). f_equal. f_equal. symmetry. by apply nth_lookup_Some. }
  rewrite (Hsnoc (S n)), (Hsnoc n) by lia. symmetry. by apply signed_num_shrink.
Qed.

Lemma signed_bytes_spec z :
  (i64_min <= z <= i64_max)%Z ->
  signed_num (signed_bytes z) = z /\ 1 <= len (signed_bytes z) <= 8.
Proof.
  intros Hz. unfold signed_bytes. set (raw := i64_le z).
  assert (Hl : length raw = 8%nat) by done.
  destruct (signed_width_spec raw 8 ltac:(lia) ltac:(lia)) as [Hw ->]. split.
  - rewrite take_ge by lia. by apply signed_num_i64_le.
  - unfold len. rewrite length_take, Hl. lia.
Qed.

Lemma header_nibbles (i j : nat) :
  (i <= 8)%nat -> (j <= 8)%nat ->
  let header := byte_of_N (N.lor (N.land (N.shiftl (N.of_nat i) 4) 255) (N.of_nat j)) in
  low_nibble header = N.of_nat j /\ high_nibble header = N.of_nat i.
Proof.
  intros Hi Hj.
  do 9 (destruct i as [|i]; [clear Hi; do 9 (destruct j as [|j]; [done |]); lia |]). lia.
Qed.

Lemma encode_header_spec a b :
  a <= 8 -> b <= 8 ->
  low_nibble (byte_of_N (N.lor (N.land (N.shiftl a 4) 255) b)) = b /\
  high_nibble (byte_of_N (N.lor (N.land (N.shiftl a 4) 255) b)) = a.
Proof.
  intros Ha Hb. pose proof (header_nibbles (N.to_nat a) (N.to_nat b)) as H.
  rewrite !N2Nat.id in H. apply H; lia.
Qed.

Lemma nibble_try_from_in n : n <= 8 -> u8_try_from n = Some n.
Proof. intros. unfold u8_try_from, u8_max. by rewrite (proj2 (N.leb_le _ _)) by lia. Qed.

(** What the writer accepts, and what it writes. *)
Definition run_typed (r : option N * N) : Prop :=
  0 < snd r <= u64_max /\ (forall lcn, fst r = Some lcn -> (Z.of_N lcn <= i64_max)%Z).

Lemma encode_runs_from_spec output previous runs :
  (0 <= previous <= i64_max)%Z -> Forall run_typed runs ->
  exists tail, encode_runs_from output previous runs = Some (output ++ tail) /\
    encodes previous tail runs [] /\ len tail <= 17 * len runs + 1.
Proof.
  intros Hp Hr. revert output previous Hp. induction Hr as [|[lcn n] runs [Hn Hl] _ IH];
    intros output previous Hp; cbn [encode_runs_from fst snd] in *.
  { exists [x00]. split_and!; [done | constructor | done]. }
  destruct (N.eqb_spec n 0) as [?|_]; [lia |].
  destruct (unsigned_bytes_spec n ltac:(lia)) as [Hv Hw].
  destruct lcn as [lcn|].
  - specialize (Hl lcn eq_refl).
    assert (Hd : (i64_min <= Z.of_N lcn - previous <= i64_max)%Z)
      by (unfold i64_min, i64_max in *; lia).
    rewrite (proj2 (i64_try_from_Some _ _) (conj eq_refl Hd)). cbn [mbind option_bind].
    destruct (signed_bytes_spec _ Hd) as [Hs Hsw].
    rewrite !nibble_try_from_in by lia. cbn [mbind option_bind].
    destruct (encode_header_spec (len (signed_bytes (Z.of_N lcn - previous)))
      (len (unsigned_bytes n)) ltac:(lia) ltac:(lia)) as [Hlo Hhi].
    edestruct (IH (output ++ byte_of_N (N.lor (N.land (N.shiftl
        (len (signed_bytes (Z.of_N lcn - previous))) 4) 255) (len (unsigned_bytes n)))
        :: unsigned_bytes n ++ signed_bytes (Z.of_N lcn - previous)) (Z.of_N lcn))
      as (tail & -> & He & Ht); [lia |].
    eexists. split; [by rewrite <- app_assoc |].
    cbn [app]. rewrite <- app_assoc. split; [|rewrite !len_cons, !len_app; lia].
    match goal with |- encodes _ (?h :: ?lb ++ ?db ++ _) _ _ =>
      pose proof (encodes_extent previous h lb db lcn tail runs []) as Hx end.
    rewrite Hv in Hx. apply Hx; try done. lia.
  - rewrite nibble_try_from_in by lia. cbn [mbind option_bind].
    destruct (encode_header_spec 0 (len (unsigned_bytes n)) ltac:(lia) ltac:(lia)) as [Hlo Hhi].
    edestruct (IH (output ++ byte_of_N (len (unsigned_bytes n)) :: unsigned_bytes n) previous)
      as (tail & -> & He & Ht); [done |].
    eexists. split; [by rewrite <- app_assoc |].
    cbn [app]. split; [|rewrite !len_cons, !len_app; lia].
    match goal with |- encodes _ (?h :: ?lb ++ _) _ _ =>
      pose proof (encodes_hole previous h lb tail runs []) as Hx end.
    rewrite Hv in Hx. by apply Hx.
Qed.

(** * Theorems *)

Lemma runlist_of_good limits runs consumed :
  within limits runs ->
  spans_vcns (ml_starting_vcn limits) (rl_extents (runlist_of limits runs consumed))
    (rl_next_vcn (runlist_of limits runs consumed)) /\
  Forall (extent_fits (ml_volume_cluster_count limits))
    (rl_extents (runlist_of limits runs consumed)) /\
  Sorted (fun a b => ~ continues a b) (rl_extents (runlist_of limits runs consumed)) /\
  clusters_of (rl_extents (runlist_of limits runs consumed)) = run_clusters runs.
Proof.
  intros (Hf & _). simpl. rewrite layout_next. by apply layout_good.
Qed.

Lemma parse_initial limits bytes aligned :
  parse_mapping_pairs_with_padding bytes limits aligned =
  parse_loop (S (length bytes)) ([] ++ bytes) limits aligned (state_of limits [] (len (@nil byte)) 0%Z).
Proof. done. Qed.

Lemma within_nil limits : limits_typed limits -> within limits [].
Proof. intros (Hs & _). unfold within. change (sum_by snd (@nil (option N * N))) with 0.
  change (len (@nil (option N * N))) with 0. split_and!; [constructor | lia | by right | lia]. Qed.

(** C29: reading mapping pairs is exactly the grammar.  The reader accepts a byte
    string if and only if it spells a list of runs in the mapping-pairs grammar
    (field widths 1 to 8, signed distances from the previous physical run, a
    terminator) that respects every limit of the caller and whose trailing bytes
    are zero or, for an attribute, its alignment tail; and then the runlist it
    returns is the one determined by those runs: coalesced contiguous extents,
    the next virtual cluster, and exact counts of runs, bytes and clusters. *)
Theorem mapping_pairs_grammar bytes limits aligned rl :
  limits_typed limits -> len bytes <= isize_max ->
  parse_mapping_pairs_with_padding bytes limits aligned = Ok rl <->
  exists runs padding, encodes 0 bytes runs padding /\
    accepted bytes limits aligned runs padding /\
    rl = runlist_of limits runs (len bytes - len padding).
Proof.
  intros Hl Hb. rewrite parse_initial. apply parse_loop_Ok; [done | done | lia | by apply within_nil].
Qed.

(** an accepted runlist is safe to follow.  The extents are contiguous from
    the starting virtual cluster to the next one, none is empty, every physical
    extent lies inside the volume, no two neighbours could be one extent, the
    caller's limits on runs and clusters hold, and the physical and sparse
    counts add up to the clusters decoded. *)
Theorem parsed_runlist_sound bytes limits aligned rl :
  limits_typed limits -> len bytes <= isize_max ->
  parse_mapping_pairs_with_padding bytes limits aligned = Ok rl ->
  spans_vcns (ml_starting_vcn limits) (rl_extents rl) (rl_next_vcn rl) /\
  Forall (extent_fits (ml_volume_cluster_count limits)) (rl_extents rl) /\
  Sorted (fun a b => ~ continues a b) (rl_extents rl) /\
  rl_physical_clusters rl + rl_sparse_clusters rl = rl_decoded_clusters rl /\
  rl_next_vcn rl = ml_starting_vcn limits + rl_decoded_clusters rl /\
  rl_next_vcn rl <= u64_max /\
  rl_decoded_clusters rl <= ml_max_decoded_clusters limits /\
  rl_encoded_runs rl <= ml_max_runs limits /\ rl_bytes_consumed rl <= len bytes /\
  (forall expected, ml_expected_next_vcn limits = Some expected -> rl_next_vcn rl = expected).
Proof.
  intros Hl Hb H. rewrite parse_initial in H.
  apply parse_loop_Ok in H as (runs & padding & He & Ha & ->); [|done | done | lia | by apply within_nil].
  destruct Ha as [Hw Hn _]. simpl app in *.
  destruct (runlist_of_good limits runs (len bytes - len padding) Hw) as (Hs & Hf & Hc & _).
  destruct Hw as (_ & Hr & Ht & Hv).
  split_and!; try done; simpl; rewrite ?layout_next; try lia.
  - apply sum_split.
  - destruct Ht as [Ht| ->]; [done | apply N.le_0_l].
  - exact Hn.
Qed.

(** C26: mapping pairs round-trip.  Every list of non-empty runs with addressable
    clusters is encoded by the serializer, and if the runs respect the reader's
    limits the reader returns their coalesced layout, consuming every byte, and
    that layout maps every virtual cluster to the logical cluster it was given. *)
Theorem mapping_pairs_roundtrip runs limits :
  limits_typed limits -> within limits runs -> Forall run_typed runs ->
  17 * len runs + 1 <= isize_max ->
  (forall expected, ml_expected_next_vcn limits = Some expected ->
    ml_starting_vcn limits + sum_by snd runs = expected) ->
  exists bytes, encode_runs runs = Some bytes /\
    parse_mapping_pairs bytes limits = Ok (runlist_of limits runs (len bytes)) /\
    clusters_of (rl_extents (runlist_of limits runs (len bytes))) = run_clusters runs.
Proof.
  intros Hl Hw Ht Hn He.
  destruct (encode_runs_from_spec [] 0 runs ltac:(done) Ht) as (bytes & Henc & Hg & Hlen).
  exists bytes. split; [done |].
  destruct (runlist_of_good limits runs (len bytes) Hw) as (_ & _ & _ & Hc). split; [|done].
  unfold parse_mapping_pairs. rewrite parse_initial.
  apply parse_loop_Ok; [done | simpl; lia | lia | by apply within_nil |].
  exists runs, []. simpl. rewrite len_nil, N.sub_0_r. split_and!; [done | | done].
  constructor; [done | done | by right].
Qed.

(** reading mapping pairs is total.  No byte string of any content makes the
    reader panic, index out of range or run forever: it returns a runlist or one
    of its errors, for attributes and for standalone arrays. *)
Theorem parse_mapping_pairs_total bytes limits aligned :
  limits_typed limits -> len bytes <= isize_max ->
  parse_mapping_pairs_with_padding bytes limits aligned <> Panic.
Proof.
  intros Hl Hb. unfold parse_mapping_pairs_with_padding. apply parse_loop_safe; [done | done | |].
  - simpl. apply N.le_0_l.
  - simpl. unfold len. lia.
Qed.

(** ** Witnesses *)
Definition sample_runs : list (option N * N) :=
  [(Some 5, 3); (Some 3, 2); (None, 4); (Some 70000, 300); (Some 70300, 1)].
Definition sample_mapping_limits : MappingPairsLimits :=
  mkMappingPairsLimits 10 (Some 320) 200000 32 100000.
Definition sample_pairs : list byte := Eval vm_compute in default [] (encode_runs sample_runs).

Lemma sample_mapping_typed : limits_typed sample_mapping_limits.
Proof. by vm_compute. Qed.
Lemma sample_within : within sample_mapping_limits sample_runs.
Proof. split_and!; [repeat constructor; by vm_compute | by vm_compute | left; by vm_compute | by vm_compute]. Qed.

Lemma mapping_pairs_grammar_witness :
  exists runs padding, encodes 0 sample_pairs runs padding /\
    accepted sample_pairs sample_mapping_limits false runs padding /\
    runlist_of sample_mapping_limits sample_runs (len sample_pairs) =
    runlist_of sample_mapping_limits runs (len sample_pairs - len padding).
Proof.
  apply (mapping_pairs_grammar sample_pairs sample_mapping_limits false);
    [apply sample_mapping_typed | by vm_compute | vm_compute; reflexivity].
Defined.

Lemma parsed_runlist_sound_witness :
  spans_vcns 10 (fst (layout_of 10 sample_runs)) 320.
Proof.
  assert (Hp : parse_mapping_pairs_with_padding sample_pairs sample_mapping_limits false =
    Ok (runlist_of sample_mapping_limits sample_runs (len sample_pairs)))
    by (vm_compute; reflexivity).
  exact (proj1 (parsed_runlist_sound sample_pairs sample_mapping_limits false _
    sample_mapping_typed ltac:(by vm_compute) Hp)).
Defined.

Lemma mapping_pairs_roundtrip_witness :
  exists bytes, encode_runs sample_runs = Some bytes /\
    parse_mapping_pairs bytes sample_mapping_limits =
      Ok (runlist_of sample_mapping_limits sample_runs (len bytes)) /\
    clusters_of (rl_extents (runlist_of sample_mapping_limits sample_runs (len bytes))) =
      run_clusters sample_runs.
Proof.
  apply mapping_pairs_roundtrip.
  - apply sample_mapping_typed.
  - apply sample_within.
  - repeat constructor; try done; by intros lcn [= <-].
  - by vm_compute.
  - by intros expected [= <-].
Defined.

Lemma parse_mapping_pairs_total_witness :
  parse_mapping_pairs_with_padding [x11; x03] sample_mapping_limits true <> Panic.
Proof.
  apply parse_mapping_pairs_total; [apply sample_mapping_typed | by vm_compute].
Defined.
