(* ===== verification/FileRecord.v ===== *)
(** * NTFS FILE records

    The reader of MFT records ([fs/ntfs_record.rs]) with its multi-sector
    transfer fixups, and the writer of the NTFS serializer
    ([finish_record_with_sequence] and [resident_attribute] of
    [fs/ntfs_serialize.rs]).  A record is protected by replacing the last two
    bytes of every 512-byte sector with an update sequence number and keeping
    the displaced bytes in an array near the header; the reader refuses a record
    whose sectors carry different numbers, puts the displaced bytes back, and
    walks the attribute list of the repaired copy.

    The theorems: what an accepted record guarantees (every sector belongs to
    the same write, the repaired copy differs in the sector trailers only, the
    attributes tile the used area up to the end marker); the writer's records
    are read back with their attributes intact; no input makes the reader panic
    or loop. *)

From S2P Require Export Prelude Bytes.
From stdpp Require Import options.

#[local] Open Scope N_scope.

Definition MIN_FILE_RECORD_HEADER_LEN : N := 42.
Definition MAX_FILE_RECORD_SIZE : N := 16 * 1024 * 1024.
Definition UPDATE_SEQUENCE_STRIDE : N := 512.
Definition FILE_MAGIC : list byte := ascii_bytes "FILE".
Definition NTFS_31_HEADER_LEN : N := 48.
Definition ATTRIBUTE_HEADER_LEN : N := 16.
Definition ATTRIBUTE_END : N := 4294967295.
Definition KNOWN_FLAGS : N := 15.

(** ** Data *)
Inductive FileRecordHeaderVersion : Type :=
| Legacy
| Ntfs31.

Record MftReference : Type := mkMftReference {
  mr_record_number : N;
  mr_sequence_number : N
}.

Record FileRecordFlags : Type := mkFileRecordFlags {
  ff_raw : N;
  ff_unknown_bits : N
}.
Definition is_in_use (f : FileRecordFlags) : bool := negb (N.land (ff_raw f) 1 =? 0).
Definition is_directory (f : FileRecordFlags) : bool := negb (N.land (ff_raw f) 2 =? 0).
Definition is_metadata (f : FileRecordFlags) : bool := negb (N.land (ff_raw f) 4 =? 0).
Definition is_view_index (f : FileRecordFlags) : bool := negb (N.land (ff_raw f) 8 =? 0).

Record NtfsFileRecord : Type := mkNtfsFileRecord {
  fr_repaired : list byte;
  fr_header_version : FileRecordHeaderVersion;
  fr_update_sequence_offset : N;
  fr_update_sequence_count : N;
  fr_log_file_sequence_number : N;
  fr_sequence_number : N;
  fr_hard_link_count : N;
  fr_attributes_offset : N;
  fr_flags : FileRecordFlags;
  fr_bytes_in_use : N;
  fr_bytes_allocated : N;
  fr_base_record : option MftReference;
  fr_next_attribute_id : N;
  fr_record_number : option N;
  fr_attribute_count : N;
  fr_end_marker_offset : N
}.

Inductive NtfsFileRecordError : Type :=
| RecordTruncated (actual required : N)
| RecordTooLarge (actual maximum : N)
| RecordSizeNotStrideAligned (record_size stride : N)
| RecordInvalidMagic (found : list byte)
| InvalidUpdateSequenceOffset (value : N)
| InvalidUpdateSequenceCount (found expected : N)
| UpdateSequenceArrayOutOfBounds (offset length first_sector_limit : N)
| UpdateSequenceOverlapsAttributes (update_sequence_end attributes_offset : N)
| FixupMismatch (sector found expected : N)
| InvalidAllocatedSize (found record_size : N)
| InvalidUsedSize (found minimum allocated : N)
| UsedSizeNotEightByteAligned (value : N)
| InvalidAttributeOffset (value minimum used : N)
| AttributeOffsetNotEightByteAligned (value : N)
| ReservedFieldNotZero (value : N)
| TruncatedAttributeHeader (offset remaining : N)
| InvalidAttributeType (offset value : N)
| AttributeTypesOutOfOrder (offset previous current : N)
| InvalidAttributeLength (offset value remaining : N)
| InvalidNonResidentFlag (offset value : N)
| MissingEndMarker (attributes_offset used : N).

(** ** Reading *)
Definition validate_input_geometry (bytes : list byte) : outcome NtfsFileRecordError unit :=
  refuse_if (len bytes <? MIN_FILE_RECORD_HEADER_LEN)
    (RecordTruncated (len bytes) MIN_FILE_RECORD_HEADER_LEN) ;;
  refuse_if (MAX_FILE_RECORD_SIZE <? len bytes)
    (RecordTooLarge (len bytes) MAX_FILE_RECORD_SIZE) ;;
  refuse_if (negb (len bytes mod UPDATE_SEQUENCE_STRIDE =? 0))
    (RecordSizeNotStrideAligned (len bytes) UPDATE_SEQUENCE_STRIDE).

(** The offsets and counts are [u16] values, so their sums fit a [usize]. *)
Definition validate_update_sequence_layout (record_size offset count : N)
    : outcome NtfsFileRecordError FileRecordHeaderVersion :=
  version ←
    (if offset =? MIN_FILE_RECORD_HEADER_LEN then Ok Legacy
     else if (NTFS_31_HEADER_LEN <=? offset) && (offset mod 2 =? 0) then Ok Ntfs31
     else Err (InvalidUpdateSequenceOffset offset));
  let expected := 1 + record_size / UPDATE_SEQUENCE_STRIDE in
  refuse_if (negb (count =? expected)) (InvalidUpdateSequenceCount count expected) ;;
  let array_length := count * 2 in
  let array_end := offset + array_length in
  let first_sector_limit := UPDATE_SEQUENCE_STRIDE - 2 in
  refuse_if (first_sector_limit <? array_end)
    (UpdateSequenceArrayOutOfBounds offset array_length first_sector_limit) ;;
  Ok version.

Definition minimum_header (version : FileRecordHeaderVersion) : N :=
  match version with
  | Legacy => MIN_FILE_RECORD_HEADER_LEN
  | Ntfs31 => NTFS_31_HEADER_LEN
  end.

Definition validate_header_sizes (record_size : N) (version : FileRecordHeaderVersion)
    (update_sequence_offset update_sequence_count attributes_offset bytes_in_use
     bytes_allocated : N) : outcome NtfsFileRecordError unit :=
  refuse_if (negb (bool_decide (usize_try_from bytes_allocated = Some record_size)))
    (InvalidAllocatedSize bytes_allocated record_size) ;;
  let minimum := minimum_header version in
  let used := default usize_max (usize_try_from bytes_in_use) in
  refuse_if ((used <? minimum + 4) || (record_size <? used))
    (InvalidUsedSize bytes_in_use (minimum + 4) bytes_allocated) ;;
  refuse_if (negb (bytes_in_use mod 8 =? 0)) (UsedSizeNotEightByteAligned bytes_in_use) ;;
  refuse_if (negb (attributes_offset mod 8 =? 0))
    (AttributeOffsetNotEightByteAligned attributes_offset) ;;
  refuse_if ((attributes_offset <? minimum) || (used <? attributes_offset + 4))
    (InvalidAttributeOffset attributes_offset minimum bytes_in_use) ;;
  let update_sequence_end := update_sequence_offset + update_sequence_count * 2 in
  refuse_if (attributes_offset <? update_sequence_end)
    (UpdateSequenceOverlapsAttributes update_sequence_end attributes_offset).

(** One sector: its trailer must carry the update sequence number, and is
    replaced by its entry of the array. *)
Definition fix_sector (protected : list byte) (array_offset update_sequence_number : N)
    (repaired : list byte) (sector_index : N) : outcome NtfsFileRecordError (list byte) :=
  let trailer_offset := (sector_index + 1) * UPDATE_SEQUENCE_STRIDE - 2 in
  found ← read_le 2 protected trailer_offset;
  refuse_if (negb (found =? update_sequence_number))
    (FixupMismatch sector_index found update_sequence_number) ;;
  let replacement_offset := array_offset + (sector_index + 1) * 2 in
  replacement ← index_range replacement_offset (replacement_offset + 2) protected;
  copy_from_slice trailer_offset (trailer_offset + 2) replacement repaired.


Definition apply_update_sequence_fixups (protected repaired : list byte)
    (array_offset array_count : N) : outcome NtfsFileRecordError (list byte) :=
  update_sequence_number ← read_le 2 protected array_offset;
  sectors ← sub_u64 array_count 1;
  try_fold (fix_sector protected array_offset update_sequence_number) repaired
    (indices sectors).

(** The attribute at [offset]: its type and length. *)
Definition check_attribute (repaired : list byte) (bytes_in_use offset previous_type
    attribute_type : N) : outcome NtfsFileRecordError N :=
  remaining ← sub_u64 bytes_in_use offset;
  refuse_if (remaining <? ATTRIBUTE_HEADER_LEN) (TruncatedAttributeHeader offset remaining) ;;
  refuse_if (attribute_type =? 0) (InvalidAttributeType offset attribute_type) ;;
  refuse_if (attribute_type <? previous_type)
    (AttributeTypesOutOfOrder offset previous_type attribute_type) ;;
  length ← read_le 4 repaired (offset + 4);
  let length_usize := default usize_max (usize_try_from length) in
  refuse_if ((length_usize <? ATTRIBUTE_HEADER_LEN) || (remaining <? length_usize)
             || negb (length mod 8 =? 0))
    (InvalidAttributeLength offset length remaining) ;;
  non_resident ← read_le 1 repaired (offset + 8);
  refuse_if (1 <? non_resident) (InvalidNonResidentFlag offset non_resident) ;;
  Ok length_usize.

Fixpoint attribute_loop (fuel : nat) (repaired : list byte)
    (attributes_offset bytes_in_use offset count previous_type : N)
    : outcome NtfsFileRecordError (N * N) :=
  match fuel with
  | O => Panic
  | S fuel =>
      if 4 <=? saturating_sub bytes_in_use offset then
        attribute_type ← read_le 4 repaired offset;
        if attribute_type =? ATTRIBUTE_END then Ok (count, offset)
        else
          length ← check_attribute repaired bytes_in_use offset previous_type attribute_type;
          offset ← add_u64 offset length;
          count ← add_u64 count 1;
          attribute_loop fuel repaired attributes_offset bytes_in_use offset count
            attribute_type
      else
        Err (MissingEndMarker attributes_offset (default u32_max (u32_try_from bytes_in_use)))
  end.

(** Every attribute takes at least sixteen bytes. *)
Definition validate_attribute_list (repaired : list byte) (attributes_offset bytes_in_use : N)
    : outcome NtfsFileRecordError (N * N) :=
  attribute_loop (S (N.to_nat bytes_in_use)) repaired attributes_offset bytes_in_use
    attributes_offset 0 16.

Definition decode_mft_reference (raw : N) : MftReference :=
  mkMftReference (N.land raw 281474976710655) (N.land (N.shiftr raw 48) u16_max).

Definition parse_file_record (bytes : list byte) : outcome NtfsFileRecordError NtfsFileRecord :=
  validate_input_geometry bytes ;;
  magic ← index_range 0 4 bytes;
  refuse_if (negb (bool_decide (magic = FILE_MAGIC))) (RecordInvalidMagic magic) ;;
  update_sequence_offset ← read_le 2 bytes 4;
  update_sequence_count ← read_le 2 bytes 6;
  header_version ← validate_update_sequence_layout (len bytes) update_sequence_offset
                     update_sequence_count;
  attributes_offset ← read_le 2 bytes 20;
  bytes_in_use ← read_le 4 bytes 24;
  bytes_allocated ← read_le 4 bytes 28;
  validate_header_sizes (len bytes) header_version update_sequence_offset
    update_sequence_count attributes_offset bytes_in_use bytes_allocated ;;
  record_number ←
    match header_version with
    | Ntfs31 =>
        reserved ← read_le 2 bytes 42;
        refuse_if (negb (reserved =? 0)) (ReservedFieldNotZero reserved) ;;
        number ← read_le 4 bytes 44; Ok (Some number)
    | Legacy => Ok None
    end;
  repaired ← apply_update_sequence_fixups bytes bytes update_sequence_offset
               update_sequence_count;
  used ← ok_or (InvalidUsedSize bytes_in_use MIN_FILE_RECORD_HEADER_LEN bytes_allocated)
           (usize_try_from bytes_in_use);
  '(attribute_count, end_marker_offset) ←
    validate_attribute_list repaired attributes_offset used;
  raw_flags ← read_le 2 repaired 22;
  base_raw ← read_le 8 repaired 32;
  log_file_sequence_number ← read_le 8 bytes 8;
  sequence_number ← read_le 2 bytes 16;
  hard_link_count ← read_le 2 bytes 18;
  next_attribute_id ← read_le 2 bytes 40;
  Ok (mkNtfsFileRecord repaired header_version update_sequence_offset update_sequence_count
        log_file_sequence_number sequence_number hard_link_count attributes_offset
        (mkFileRecordFlags raw_flags (N.land raw_flags (N.lxor KNOWN_FLAGS u16_max)))
        bytes_in_use bytes_allocated
        (if base_raw =? 0 then None else Some (decode_mft_reference base_raw))
        next_attribute_id record_number attribute_count end_marker_offset).

(** ** Writing *)
Definition RECORD_BYTES : N := 1024.
Definition FILE_NAME : N := 48.
Definition END_ATTRIBUTE : N := u32_max.
Definition USA_OFFSET : N := 48.
Definition ATTRIBUTES_OFFSET : N := 56.
Definition USA_VALUE : N := 42330.

(** The errors of the serializer that the record, attribute and stream writers
    return. *)
Inductive NtfsSerializeError : Type :=
| SerializeArithmeticOverflow
| RecordOverflow (record_number : N)
| UnalignedExtent (stream offset length : N)
| SparseExtent (stream : N)
| MappingPairsTooLarge (stream : N).

Definition align_eight (value : N) : N := N.land (saturating_add value 7) (not_u64 7).

Definition record_sequence (record_number : N) : N :=
  if (1 <=? record_number) && (record_number <=? 23) then record_number else 1.

(** [repaired[cursor..end].copy_from_slice(&attribute)] for every attribute. *)
Definition append_attribute (record_number : N) (state : list byte * N) (attribute : list byte)
    : outcome NtfsSerializeError (list byte * N) :=
  let '(repaired, cursor) := state in
  end_ ← ok_or SerializeArithmeticOverflow (checked_add cursor (len attribute));
  refuse_if (match checked_add end_ 8 with
             | None => true
             | Some value => RECORD_BYTES - 2 <? value
             end) (RecordOverflow record_number) ;;
  repaired ← copy_from_slice cursor end_ attribute repaired;
  Ok (repaired, end_).

Definition record_header (record_number sequence_number flags hard_links attribute_count : N)
    : outcome NtfsSerializeError (list byte) :=
  repaired ← copy_from_slice 0 4 FILE_MAGIC (replicate (N.to_nat RECORD_BYTES) x00);
  repaired ← put_le 2 repaired 4 48;
  repaired ← put_le 2 repaired 6 3;
  repaired ← put_le 2 repaired 16 sequence_number;
  repaired ← put_le 2 repaired 18 hard_links;
  repaired ← put_le 2 repaired 20 56;
  repaired ← put_le 2 repaired 22 flags;
  repaired ← put_le 4 repaired 28 1024;
  repaired ← put_le 2 repaired 40
    (if attribute_count <=? u16_max then attribute_count else u16_max);
  number ← ok_or SerializeArithmeticOverflow (u32_try_from record_number);
  put_le 4 repaired 44 number.

(** The displaced trailers go to the array, and the trailers get the number. *)
Definition protect_record (repaired : list byte) : outcome NtfsSerializeError (list byte) :=
  repaired ← put_le 2 repaired USA_OFFSET USA_VALUE;
  original0 ← read_le 2 repaired 510;
  original1 ← read_le 2 repaired 1022;
  repaired ← put_le 2 repaired (USA_OFFSET + 2) original0;
  repaired ← put_le 2 repaired (USA_OFFSET + 4) original1;
  repaired ← put_le 2 repaired 510 USA_VALUE;
  put_le 2 repaired 1022 USA_VALUE.

Definition finish_record_with_sequence (record_number sequence_number flags hard_links : N)
    (attributes : list (list byte)) : outcome NtfsSerializeError (list byte) :=
  repaired ← record_header record_number sequence_number flags hard_links (len attributes);
  '(repaired, cursor) ←
    try_fold (append_attribute record_number) (repaired, ATTRIBUTES_OFFSET) attributes;
  repaired ← put_le 4 repaired cursor END_ATTRIBUTE;
  next ← add_u64 cursor 4;
  let cursor := align_eight next in
  in_use ← expect (u32_try_from cursor);
  repaired ← put_le 4 repaired 24 in_use;
  protect_record repaired.
Definition finish_record (record_number flags hard_links : N) (attributes : list (list byte))
    : outcome NtfsSerializeError (list byte) :=
  finish_record_with_sequence record_number (record_sequence record_number) flags hard_links
    attributes.

Definition write_utf16 (bytes : list byte) (offset : N) (units : list N)
    : outcome NtfsSerializeError (list byte) :=
  try_fold (fun bytes '(index, unit_) => put_le 2 bytes (offset + index * 2) unit_) bytes
    (zip (indices (len units)) units).

Definition resident_attribute (attribute_type : N) (name : option (list N)) (id : N)
    (value : list byte) : outcome NtfsSerializeError (list byte) :=
  let name := default [] name in
  name_bytes ← ok_or SerializeArithmeticOverflow (checked_mul (len name) 2);
  let name_offset := if is_empty name then 0 else 24 in
  header ← add_u64 24 name_bytes;
  let value_offset := align_eight header in
  unaligned ← ok_or SerializeArithmeticOverflow (checked_add value_offset (len value));
  let total := align_eight unaligned in
  let bytes := replicate (N.to_nat total) x00 in
  bytes ← put_le 4 bytes 0 attribute_type;
  total32 ← ok_or SerializeArithmeticOverflow (u32_try_from total);
  bytes ← put_le 4 bytes 4 total32;
  name_units ← ok_or SerializeArithmeticOverflow
    (if len name <=? u8_max then Some (len name) else None);
  bytes ← put_le 1 bytes 9 name_units;
  bytes ← put_le 2 bytes 10 name_offset;
  bytes ← put_le 2 bytes 14 id;
  value_length ← ok_or SerializeArithmeticOverflow (u32_try_from (len value));
  bytes ← put_le 4 bytes 16 value_length;
  value_offset16 ← ok_or SerializeArithmeticOverflow
    (if value_offset <=? u16_max then Some value_offset else None);
  bytes ← put_le 2 bytes 20 value_offset16;
  bytes ← (if attribute_type =? FILE_NAME then put_le 1 bytes 22 1 else Ok bytes);
  bytes ← (if is_empty name then Ok bytes else write_utf16 bytes name_offset name);
  copy_from_slice value_offset (value_offset + len value) value bytes.

(** ** Specification *)

(** The attributes, by type and length, from one offset to the end marker. *)
Inductive attribute_tiles (repaired : list byte) (used : N)
  : N -> N -> list (N * N) -> N -> Prop :=
| tiles_end previous offset :
    offset + 4 <= used -> field 4 repaired offset = ATTRIBUTE_END ->
    attribute_tiles repaired used previous offset [] offset
| tiles_attribute previous offset kind length rest end_ :
    field 4 repaired offset = kind -> field 4 repaired (offset + 4) = length ->
    0 < kind -> previous <= kind -> kind <> ATTRIBUTE_END ->
    16 <= length -> length mod 8 = 0 -> offset + length <= used ->
    field 1 repaired (offset + 8) <= 1 ->
    attribute_tiles repaired used kind (offset + length) rest end_ ->
    attribute_tiles repaired used previous offset ((kind, length) :: rest) end_.

(** An encoded attribute that a record can hold. *)
Definition attribute_ok (a : list byte) : Prop :=
  16 <= len a <= u32_max /\ len a mod 8 = 0 /\ 16 <= field 4 a 0 < ATTRIBUTE_END /\
  field 4 a 4 = len a /\ field 1 a 8 <= 1.
Definition kinds_sorted (attributes : list (list byte)) : Prop :=
  Sorted (fun a b => field 4 a 0 <= field 4 b 0) attributes.

(** Whether an offset is in the trailer of one of the first [n] sectors. *)
Definition in_trailer (n i : N) : Prop :=
  exists k, k < n /\ k * 512 + 510 <= i < k * 512 + 512.

(** The repaired copy: the trailers hold the bytes of the update array. *)
Record repaired_from (bytes repaired : list byte) (array_offset sectors : N) : Prop := {
  rf_len : len repaired = len bytes;
  rf_number : forall k, k < sectors ->
    field 2 bytes (k * 512 + 510) = field 2 bytes array_offset;
  rf_trailer : forall k e, k < sectors -> e < 2 ->
    repaired !! N.to_nat (k * 512 + 510 + e) =
    bytes !! N.to_nat (array_offset + 2 * (k + 1) + e);
  rf_other : forall i, ~ in_trailer sectors i ->
    repaired !! N.to_nat i = bytes !! N.to_nat i
}.

(** * Lemmas *)
Lemma splice_lookup_N {A} lo (src dst : list A) i :
  lo + len src <= len dst ->
  splice lo src dst !! N.to_nat i =
    if decide (lo <= i < lo + len src) then src !! N.to_nat (i - lo) else dst !! N.to_nat i.
Proof.
  intros Hl. rewrite splice_lookup by done. rewrite N2Nat.id.
  case_decide; [|done]. f_equal. lia.
Qed.
Lemma subslice_lookup_N {A} lo hi (l : list A) i :
  i < hi - lo -> subslice lo hi l !! N.to_nat i = l !! N.to_nat (lo + i).
Proof. intros. rewrite subslice_lookup by lia. f_equal. lia. Qed.

(** ** Fixups *)
Lemma fix_sector_Ok protected off usn rep k rep' :
  fix_sector protected off usn rep k = Ok rep' <->
  k * 512 + 512 <= len protected /\ field 2 protected (k * 512 + 510) = usn /\
  off + 2 * (k + 1) + 2 <= len protected /\ k * 512 + 512 <= len rep /\
  rep' = splice (k * 512 + 510) (subslice (off + 2 * (k + 1)) (off + 2 * (k + 1) + 2) protected) rep.
Proof.
  unfold fix_sector, UPDATE_SEQUENCE_STRIDE.
  replace ((k + 1) * 512 - 2) with (k * 512 + 510) by lia.
  replace (off + (k + 1) * 2) with (off + 2 * (k + 1)) by lia. split.
  - intros H. inv_ok. bool_props.
    match goal with H : read_le _ _ _ = Ok _ |- _ => apply read_le_Ok in H as [? ->] end.
    match goal with H : index_range _ _ _ = Ok _ |- _ =>
      apply index_range_Ok in H as (_ & ? & ->) end.
    apply copy_from_slice_Ok in H as (_ & ? & _ & ->). split_and!; try done; lia.
  - intros (H1 & <- & H2 & H3 & ->).
    eapply bind_step; [apply read_le_in; lia |]. cbv beta. ok_step.
    eapply bind_step; [apply index_range_in; lia |]. cbv beta.
    apply copy_from_slice_Ok. rewrite len_subslice by lia. split_and!; [lia | lia | lia | done].
Qed.

Lemma in_trailer_succ n i :
  in_trailer (n + 1) i <-> in_trailer n i \/ n * 512 + 510 <= i < n * 512 + 512.
Proof.
  unfold in_trailer. split.
  - intros (k & Hk & Hi). destruct (decide (k = n)) as [->|]; [by right |].
    left. exists k. split; [lia | done].
  - intros [(k & Hk & Hi)|Hi]; [exists k | exists n]; (split; [lia | done]).
Qed.

Lemma fix_sectors_Ok bytes off n rep :
  n * 512 <= len bytes ->
  try_fold (fix_sector bytes off (field 2 bytes off)) bytes (indices n) = Ok rep ->
  repaired_from bytes rep off n.
Proof.
  revert rep. induction n as [|n IH] using N.peano_ind; intros rep Hn H.
  { injection H as <-. split; [done | lia | lia | done]. }
  rewrite <- N.add_1_r in *. rewrite indices_succ, try_fold_app in H.
  apply bind_Ok in H as (r & Hr & H). apply IH in Hr as [Hl Hnum Htr Hot]; [|lia].
  apply bind_Ok in H as (r' & Hf & [= <-]).
  apply fix_sector_Ok in Hf as (H1 & H2 & H3 & H4 & ->).
  assert (Hsrc : len (subslice (off + 2 * (n + 1)) (off + 2 * (n + 1) + 2) bytes) = 2)
    by (rewrite len_subslice; lia).
  split.
  - rewrite len_splice; [done | lia].
  - intros k Hk. destruct (decide (k = n)) as [->|]; [done |]. apply Hnum. lia.
  - intros k e Hk He. rewrite splice_lookup_N, Hsrc by lia. case_decide as Hd.
    + assert (k = n) as -> by lia. rewrite subslice_lookup_N by lia. f_equal. lia.
    + apply Htr; [|done]. destruct (decide (k = n)) as [->|]; lia.
  - intros i Hi. rewrite in_trailer_succ in Hi. rewrite splice_lookup_N, Hsrc by lia.
    rewrite decide_False by (intros ?; apply Hi; right; lia). apply Hot. tauto.
Qed.

Lemma fix_sectors_complete bytes off n :
  n * 512 <= len bytes -> off + 2 * n + 2 <= len bytes ->
  (forall k, k < n -> field 2 bytes (k * 512 + 510) = field 2 bytes off) ->
  exists rep,
    try_fold (fix_sector bytes off (field 2 bytes off)) bytes (indices n) = Ok rep.
Proof.
  induction n as [|n IH] using N.peano_ind; intros Hn Ho Hk; [by eexists |].
  destruct IH as [r Hr]; [lia | lia | intros; apply Hk; lia |].
  rewrite <- N.add_1_r.
  destruct (fix_sectors_Ok bytes off n r ltac:(lia) Hr) as [Hl _ _ _].
  rewrite indices_succ, try_fold_app, Hr. cbn [mbind outcome_bind try_fold].
  eexists. eapply bind_step; [|reflexivity]. apply fix_sector_Ok.
  split_and!; [lia | apply Hk; lia | lia | lia | reflexivity].
Qed.

(** ** The attribute list *)
Lemma check_attribute_Ok repaired used offset previous kind length :
  used <= len repaired -> used <= u32_max -> offset + 4 <= used ->
  check_attribute repaired used offset previous kind = Ok length <->
  16 <= used - offset /\ 0 < kind /\ previous <= kind /\
  length = field 4 repaired (offset + 4) /\ 16 <= length /\ offset + length <= used /\
  length mod 8 = 0 /\ field 1 repaired (offset + 8) <= 1.
Proof.
  intros Hu Hm Ho. unfold check_attribute, ATTRIBUTE_HEADER_LEN. split.
  - intros H. inv_ok. bool_props.
    repeat match goal with H : read_le _ _ _ = Ok _ |- _ => apply read_le_Ok in H as [? ->] end.
    match goal with H : context [default usize_max (usize_try_from ?x)] |- _ =>
      pose proof (field_bound 4 repaired (offset + 4) ltac:(lia)) as Hb;
      rewrite (usize_try_from_in x) in * by (change (256 ^ N.of_nat 4) with 4294967296 in Hb;
        unfold u64_max; lia) end.
    simpl in *. split_and!; try done; lia.
  - intros (H1 & H2 & H3 & -> & H4 & H5 & H6 & H7).
    assert (Hs : usize_try_from (field 4 repaired (offset + 4)) = Some (field 4 repaired (offset + 4)))
      by (apply usize_try_from_in; unfold u64_max, u32_max in *; lia).
    ok_step. ok_step. ok_step. ok_step.
    eapply bind_step; [apply read_le_in; lia |]. cbv beta. rewrite Hs. simpl default.
    eapply bind_step.
    { apply refuse_step. repeat apply orb_false_intro; false_test. }
    cbv beta. eapply bind_step; [apply read_le_in; lia |]. cbv beta. by ok_step.
Qed.

Lemma attribute_loop_Ok fuel repaired first used offset count previous c e :
  used <= len repaired -> used <= u32_max ->
  (N.to_nat (used - offset) < fuel)%nat -> count + (used - offset) <= u64_max ->
  attribute_loop fuel repaired first used offset count previous = Ok (c, e) <->
  exists tiles, attribute_tiles repaired used previous offset tiles e /\ c = count + len tiles.
Proof.
  intros Hu Hm. revert offset count previous.
  induction fuel as [|fuel IH]; intros offset count previous Hf Hc; [lia |].
  cbn [attribute_loop]. unfold saturating_sub.
  destruct (N.leb_spec 4 (used - offset)) as [H4|H4].
  2: { split; [done |]. intros (tiles & Ht & _). inversion Ht; subst; lia. }
  rewrite read_le_in by lia. cbn [mbind outcome_bind].
  destruct (N.eqb_spec (field 4 repaired offset) ATTRIBUTE_END) as [He|He].
  { split.
    - intros [= <- <-]. exists []. split; [constructor; [lia | done] |]. rewrite len_nil. lia.
    - intros (tiles & Ht & ->). inversion Ht; subst; [|done].
      rewrite len_nil, N.add_0_r. done. }
  split.
  - intros H. apply bind_Ok in H as (length & Hl & H).
    apply check_attribute_Ok in Hl as (H16 & Hk & Hp & -> & Hl1 & Hl2 & Hl3 & Hn); [|lia..].
    inv_ok. apply IH in H as (tiles & Ht & ->); [|lia | lia].
    exists ((field 4 repaired offset, field 4 repaired (offset + 4)) :: tiles).
    split; [by constructor | rewrite len_cons; lia].
  - intros (tiles & Ht & ->). inversion Ht; subst; [done |].
    eapply bind_step.
    { apply check_attribute_Ok; [lia.. |]. split_and!; try done; lia. }
    cbv beta. unfold u32_max in Hm. eapply bind_step; [apply expect_step, checked_add_in; unfold u64_max; lia |].
    cbv beta. eapply bind_step; [apply expect_step, checked_add_in; lia |]. cbv beta.
    apply IH; [lia | lia |]. exists rest. split; [done |]. rewrite len_cons. lia.
Qed.

Lemma attribute_loop_safe fuel repaired first used offset count previous :
  used <= len repaired -> used <= u32_max ->
  (N.to_nat (used - offset) < fuel)%nat -> count + (used - offset) <= u64_max ->
  attribute_loop fuel repaired first used offset count previous <> Panic.
Proof.
  intros Hu Hm. revert offset count previous.
  induction fuel as [|fuel IH]; intros offset count previous Hf Hc; [lia |].
  cbn [attribute_loop]. unfold saturating_sub.
  destruct (N.leb_spec 4 (used - offset)) as [H4|H4]; [|done].
  rewrite read_le_in by lia. cbn [mbind outcome_bind].
  destruct (N.eqb_spec (field 4 repaired offset) ATTRIBUTE_END); [done |].
  apply bind_safe.
  - unfold check_attribute, ATTRIBUTE_HEADER_LEN. safe.
    + apply sub_u64_safe. lia.
    + inv_ok. bool_props. apply read_le_safe. lia.
    + inv_ok. bool_props. apply read_le_safe. lia.
  - intros length Hl.
    apply check_attribute_Ok in Hl as (H16 & Hk & Hp & -> & Hl1 & Hl2 & Hl3 & Hn); [|lia..].
    unfold u32_max in Hm. apply bind_safe; [apply add_u64_safe; unfold u64_max; lia |]. intros ? Ha. inv_ok.
    apply bind_safe; [apply add_u64_safe; lia |]. intros ? Ha'. inv_ok. apply IH; lia.
Qed.

Lemma fix_sectors_safe bytes off usn n :
  n * 512 <= len bytes -> off + 2 * n + 2 <= len bytes ->
  try_fold (fix_sector bytes off usn) bytes (indices n) <> Panic.
Proof.
  intros Hn Ho.
  assert (Hg : forall ks rep, (forall k, k ∈ ks -> k < n) -> len rep = len bytes ->
    try_fold (fix_sector bytes off usn) rep ks <> Panic).
  { induction ks as [|k ks IH]; intros rep Hk Hl; cbn [try_fold]; [done |].
    assert (Hlt : k < n) by (apply Hk; set_solver). apply bind_safe.
    - unfold fix_sector, UPDATE_SEQUENCE_STRIDE.
      replace ((k + 1) * 512 - 2) with (k * 512 + 510) by lia.
      rewrite read_le_in by lia. safe.
      + apply index_range_safe; lia.
      + match goal with H : index_range _ _ _ = Ok _ |- _ =>
          apply index_range_Ok in H as (? & ? & ->) end.
        apply copy_from_slice_safe; rewrite ?len_subslice by lia; lia.
    - intros rep' Hf. apply fix_sector_Ok in Hf as (? & ? & ? & ? & ->).
      apply IH; [intros; apply Hk; by right |].
      rewrite len_splice; [done |]. rewrite len_subslice by lia. lia. }
  apply Hg; [|done]. intros k. by rewrite elem_of_indices.
Qed.

(** ** The reader as a whole *)
Definition header_accepted (bytes : list byte) (version : FileRecordHeaderVersion) : Prop :=
  let usa := field 2 bytes 4 in
  let count := field 2 bytes 6 in
  let attributes := field 2 bytes 20 in
  let used := field 4 bytes 24 in
  42 <= len bytes <= MAX_FILE_RECORD_SIZE /\ len bytes mod 512 = 0 /\
  subslice 0 4 bytes = FILE_MAGIC /\
  match version with
  | Legacy => usa = 42
  | Ntfs31 => usa <> 42 /\ 48 <= usa /\ usa mod 2 = 0 /\ field 2 bytes 42 = 0
  end /\
  count = 1 + len bytes / 512 /\ usa + count * 2 <= 510 /\
  field 4 bytes 28 = len bytes /\
  minimum_header version + 4 <= used <= len bytes /\ used mod 8 = 0 /\
  attributes mod 8 = 0 /\ minimum_header version <= attributes /\ attributes + 4 <= used /\
  usa + count * 2 <= attributes.

Definition record_of (bytes repaired : list byte) (version : FileRecordHeaderVersion)
    (count end_ : N) : NtfsFileRecord :=
  mkNtfsFileRecord repaired version (field 2 bytes 4) (field 2 bytes 6) (field 8 bytes 8)
    (field 2 bytes 16) (field 2 bytes 18) (field 2 bytes 20)
    (mkFileRecordFlags (field 2 repaired 22)
       (N.land (field 2 repaired 22) (N.lxor KNOWN_FLAGS u16_max)))
    (field 4 bytes 24) (field 4 bytes 28)
    (if field 8 repaired 32 =? 0 then None else Some (decode_mft_reference (field 8 repaired 32)))
    (field 2 bytes 40)
    (match version with Ntfs31 => Some (field 4 bytes 44) | Legacy => None end) count end_.

Lemma sectors_of (bytes : list byte) : len bytes mod 512 = 0 -> len bytes / 512 * 512 = len bytes.
Proof. intros Hm. pose proof (N.div_mod' (len bytes) 512). lia. Qed.

Lemma validate_layout_Ok size offset count v :
  validate_update_sequence_layout size offset count = Ok v <->
  match v with
  | Legacy => offset = 42
  | Ntfs31 => offset <> 42 /\ 48 <= offset /\ offset mod 2 = 0
  end /\ count = 1 + size / 512 /\ offset + count * 2 <= 510.
Proof.
  unfold validate_update_sequence_layout, MIN_FILE_RECORD_HEADER_LEN, NTFS_31_HEADER_LEN,
    UPDATE_SEQUENCE_STRIDE. change (512 - 2) with 510.
  destruct (N.eqb_spec offset 42) as [->|H42];
    [|destruct (N.leb_spec 48 offset), (N.eqb_spec (offset mod 2) 0)]; cbn [andb mbind outcome_bind].
  1: { split.
    - intros H. inv_ok. bool_props. done.
    - intros (Hv & -> & Hl). destruct v; [|lia].
      ok_step. by ok_step. }
  all: split; [intros Hx; inv_ok; bool_props; try done; split_and!; done
              | intros (Hv & -> & Hl); destruct v; try lia].
  ok_step. by ok_step.
Qed.

Lemma validate_header_sizes_Ok size version usa count attributes used allocated u :
  size <= u64_max -> used <= u32_max -> allocated <= u32_max ->
  validate_header_sizes size version usa count attributes used allocated = Ok u <->
  allocated = size /\ minimum_header version + 4 <= used <= size /\ used mod 8 = 0 /\
  attributes mod 8 = 0 /\ minimum_header version <= attributes /\ attributes + 4 <= used /\
  usa + count * 2 <= attributes.
Proof.
  intros Hs Hu Ha. unfold validate_header_sizes.
  rewrite !usize_try_from_in by (unfold u64_max, u32_max in *; lia). simpl default. split.
  - intros H. inv_ok. bool_props.
    repeat match goal with H : (_ || _) = false |- _ => apply orb_false_iff in H as [? ?] end.
    bool_props.
    match goal with H : Some _ = Some _ |- _ => injection H as -> end. split_and!; done.
  - intros (-> & H1 & H2 & H3 & H4 & H5 & H6). destruct u.
    ok_step. ok_step. ok_step. ok_step. ok_step. apply refuse_step. false_test.
Qed.

Lemma field_u16 bytes o : o + 2 <= len bytes -> field 2 bytes o <= u16_max.
Proof. intros H. apply N.lt_succ_r. by apply (field_bound 2). Qed.
Lemma field_u32 bytes o : o + 4 <= len bytes -> field 4 bytes o <= u32_max.
Proof. intros H. apply N.lt_succ_r. by apply (field_bound 4). Qed.

(** Acceptance, in both directions. *)
Lemma parse_file_record_Ok bytes r :
  parse_file_record bytes = Ok r <->
  exists version repaired tiles end_,
    header_accepted bytes version /\
    try_fold (fix_sector bytes (field 2 bytes 4) (field 2 bytes (field 2 bytes 4))) bytes
      (indices (len bytes / 512)) = Ok repaired /\
    attribute_tiles repaired (field 4 bytes 24) 16 (field 2 bytes 20) tiles end_ /\
    r = record_of bytes repaired version (len tiles) end_.
Proof.
  unfold parse_file_record, validate_input_geometry, MIN_FILE_RECORD_HEADER_LEN,
    UPDATE_SEQUENCE_STRIDE. split.
  - intros H. apply bind_Ok in H as ([] & Hg & H). inv_ok. bool_props.
    repeat match goal with H : index_range _ _ _ = Ok _ |- _ => apply index_range_Ok in H as (_ & _ & ->) end.
    repeat match goal with H : read_le _ _ _ = Ok _ |- _ => apply read_le_Ok in H as [? ->] end.
    match goal with H : validate_update_sequence_layout _ _ _ = Ok ?v |- _ =>
      rename v into version; apply validate_layout_Ok in H as (Hv & Hc & Hfit) end.
    match goal with H : validate_header_sizes _ _ _ _ _ _ _ = Ok _ |- _ =>
      apply validate_header_sizes_Ok in H as (Hal & Hus & Hu8 & Ha8 & Hmin & Hau & Hov) end.
    2: { unfold u64_max, MAX_FILE_RECORD_SIZE in *. lia. }
    2, 3: apply field_u32; lia.
    match goal with p : (N * N)%type |- _ => destruct p as [count end_] end.
    match goal with H : apply_update_sequence_fixups _ _ _ _ = Ok ?p |- _ =>
      rename p into repaired; unfold apply_update_sequence_fixups in H; rename H into Hfix end.
    inv_ok.
    repeat match goal with H : read_le _ _ _ = Ok _ |- _ => apply read_le_Ok in H as [? ->] end.
    rewrite Hc in Hfix. replace (1 + len bytes / 512 - 1) with (len bytes / 512) in Hfix by lia.
    pose proof (fix_sectors_Ok bytes (field 2 bytes 4) (len bytes / 512) repaired
      ltac:(rewrite sectors_of; done) Hfix) as [Hrl _ _ _].
    match goal with H : validate_attribute_list _ _ _ = Ok _ |- _ =>
      unfold validate_attribute_list in H; rename H into Hlist end.
    apply attribute_loop_Ok in Hlist as (tiles & Ht & ->);
      [|lia | by apply field_u32; lia | lia | unfold u64_max, MAX_FILE_RECORD_SIZE in *; lia].
    exists version, repaired, tiles, end_. rewrite N.add_0_l. split_and!; try done.
    + unfold header_accepted. destruct version; inv_ok; bool_props;
        repeat match goal with H : read_le _ _ _ = Ok _ |- _ => apply read_le_Ok in H as [? ->] end;
        split_and!; try done; try lia.
    + unfold record_of. destruct version; inv_ok; 
        repeat match goal with H : read_le _ _ _ = Ok _ |- _ => apply read_le_Ok in H as [? ->] end;
        done.
  - intros (version & repaired & tiles & end_ & Hh & Hfix & Ht & ->).
    destruct Hh as (Hlen & Hmod & Hmagic & Hv & Hc & Hfit & Hal & Hus & Hu8 & Ha8 & Hmin & Hau & Hov).
    pose proof (sectors_of bytes Hmod) as Hsec.
    assert (Hmin' : 42 <= minimum_header version)
      by (destruct version; unfold minimum_header, MIN_FILE_RECORD_HEADER_LEN, NTFS_31_HEADER_LEN; lia).
    pose proof (fix_sectors_Ok bytes (field 2 bytes 4) (len bytes / 512) repaired
      ltac:(lia) Hfix) as [Hrl _ _ _].
    assert (H512 : 512 <= len bytes) by (destruct (N.eq_dec (len bytes / 512) 0); lia).
    eapply bind_step.
    { unfold MAX_FILE_RECORD_SIZE in *. ok_step. ok_step. apply refuse_step.
      by rewrite Hmod. }
    cbv beta. ok_step. rewrite Hmagic. ok_step.
    eapply bind_step; [apply read_le_in; lia |]. cbv beta.
    eapply bind_step; [apply read_le_in; lia |]. cbv beta.
    eapply bind_step; [apply (validate_layout_Ok _ _ _ version); split_and!; [destruct version; tauto | done | done] |].
    cbv beta.
    eapply bind_step; [apply read_le_in; lia |]. cbv beta.
    eapply bind_step; [apply read_le_in; lia |]. cbv beta.
    eapply bind_step; [apply read_le_in; lia |]. cbv beta.
    eapply bind_step.
    { apply (validate_header_sizes_Ok _ _ _ _ _ _ _ tt); [unfold u64_max, MAX_FILE_RECORD_SIZE in *; lia
        | apply field_u32; lia | apply field_u32; lia |]. split_and!; try done; lia. }
    cbv beta.
    apply (bind_step _ _ (match version with Ntfs31 => Some (field 4 bytes 44) | Legacy => None end)).
    { destruct version; [done |]. destruct Hv as (_ & _ & _ & Hz).
      eapply bind_step; [apply read_le_in; lia |]. cbv beta. rewrite Hz. ok_step.
      eapply bind_step; [apply read_le_in; lia |]. done. }
    cbv beta.
    eapply bind_step.
    { unfold apply_update_sequence_fixups.
      eapply bind_step; [apply read_le_in; lia |]. cbv beta.
      eapply bind_step; [apply expect_step, checked_sub_in; lia |]. cbv beta.
      rewrite Hc. replace (1 + len bytes / 512 - 1) with (len bytes / 512) by lia. exact Hfix. }
    cbv beta.
    eapply bind_step; [apply ok_or_step, usize_try_from_in; unfold u64_max, MAX_FILE_RECORD_SIZE in *; lia |].
    cbv beta.
    apply (bind_step _ _ (len tiles, end_)).
    { apply attribute_loop_Ok; [lia | apply field_u32; lia | lia | unfold u64_max, MAX_FILE_RECORD_SIZE in *; lia |].
      exists tiles. by rewrite N.add_0_l. }
    cbv beta iota.
    do 6 (eapply bind_step; [apply read_le_in; lia |]; cbv beta). done.
Qed.

Lemma parse_file_record_safe bytes : parse_file_record bytes <> Panic.
Proof.
  unfold parse_file_record, validate_input_geometry, MIN_FILE_RECORD_HEADER_LEN,
    UPDATE_SEQUENCE_STRIDE. apply bind_safe; [safe |]. intros [] Hg. inv_ok. bool_props.
  pose proof (sectors_of bytes ltac:(done)) as Hsec.
  assert (H512 : 512 <= len bytes) by (destruct (N.eq_dec (len bytes / 512) 0); lia).
  rewrite index_range_in by lia. apply bind_safe; [done |]. intros magic _.
  apply bind_safe; [safe |]. intros [] _. cbv beta. rewrite !read_le_in by lia.
  apply bind_safe; [done |]. intros ? [= <-]. apply bind_safe; [done |]. intros ? [= <-].
  apply bind_safe.
  { unfold validate_update_sequence_layout. safe. }
  intros version (Hv & Hc & Hfit)%validate_layout_Ok.
  apply bind_safe; [done |]. intros ? [= <-]. apply bind_safe; [done |]. intros ? [= <-].
  apply bind_safe; [done |]. intros ? [= <-].
  apply bind_safe; [unfold validate_header_sizes; safe |]. intros [] Hsz.
  apply validate_header_sizes_Ok in Hsz as (Hal & Hus & Hu8 & Ha8 & Hmin & Hau & Hov);
    [|unfold u64_max, MAX_FILE_RECORD_SIZE in *; lia | apply field_u32; lia | apply field_u32; lia].
  apply bind_safe.
  { destruct version; [done |]. by safe. }
  intros number _. apply bind_safe.
  { unfold apply_update_sequence_fixups. apply bind_safe; [apply read_le_safe; lia |].
    intros ? Hr. apply read_le_Ok in Hr as [_ ->].
    apply bind_safe; [apply sub_u64_safe; lia |]. intros ? Hs. inv_ok. rewrite Hc in *.
    replace (1 + len bytes / 512 - 1) with (len bytes / 512) by lia.
    apply fix_sectors_safe; lia. }
  intros repaired Hfix. unfold apply_update_sequence_fixups in Hfix. inv_ok.
  repeat match goal with H : read_le _ _ _ = Ok _ |- _ => apply read_le_Ok in H as [? ->] end.
  rewrite Hc in Hfix. replace (1 + len bytes / 512 - 1) with (len bytes / 512) in Hfix by lia.
  pose proof (fix_sectors_Ok bytes (field 2 bytes 4) (len bytes / 512) repaired ltac:(lia) Hfix)
    as [Hrl _ _ _].
  apply bind_safe; [safe |]. intros used Hused. inv_ok.
  apply bind_safe.
  { apply attribute_loop_safe; [lia | apply field_u32; lia | lia
      | unfold u64_max, MAX_FILE_RECORD_SIZE in *; lia]. }
  intros [count end_] _. cbv beta. rewrite !read_le_in by lia. by safe.
Qed.

Lemma record_header_Ok number sequence flags links count h :
  record_header number sequence flags links count = Ok h ->
  len h = 1024 /\ number <= u32_max /\ subslice 0 4 h = FILE_MAGIC /\
  field 2 h 4 = 48 /\ field 2 h 6 = 3 /\ field 8 h 8 = 0 /\
  field 2 h 16 = sequence mod 65536 /\ field 2 h 18 = links mod 65536 /\ field 2 h 20 = 56 /\
  field 2 h 22 = flags mod 65536 /\ field 4 h 28 = 1024 /\ field 8 h 32 = 0 /\
  field 2 h 40 = N.min count u16_max /\ field 2 h 42 = 0 /\ field 4 h 44 = number.
Proof.
  unfold record_header. intros H. inv_ok. puts.
  change (N.of_nat 2) with 2 in *. change (N.of_nat 4) with 4 in *.
  lens. rewrite len_replicate in *. change (N.of_nat (N.to_nat RECORD_BYTES)) with 1024 in *.
  change (len FILE_MAGIC) with 4 in *.
  split_and!; try (by peel); try lia; peel.
  - match goal with H : field 2 _ 40 = _ |- _ => rewrite H end. change (256 ^ 2) with 65536.
    unfold u16_max. destruct (N.leb_spec count 65535); rewrite N.mod_small; lia.
  - match goal with H : field 4 h 44 = _ |- _ => rewrite H end.
    apply N.mod_small. change (256 ^ 4) with 4294967296. unfold u32_max in *. lia.
Qed.

Lemma concat_snoc {A} (ls : list (list A)) l : concat (ls ++ [l]) = concat ls ++ l.
Proof. rewrite concat_app. simpl. by rewrite app_nil_r. Qed.

Lemma append_attributes_Ok number attributes h c r e :
  len h = 1024 ->
  try_fold (append_attribute number) (h, c) attributes = Ok (r, e) ->
  e = c + len (concat attributes) /\ (attributes = [] \/ e + 8 <= 1022) /\ len r = 1024 /\
  (forall lo hi, hi <= c \/ e <= lo -> subslice lo hi r = subslice lo hi h) /\
  subslice c e r = concat attributes.
Proof.
  intros Hl. revert r e. induction attributes as [|a attributes IH] using rev_ind;
    intros r e H.
  { injection H as <- <-. change (len (concat [])) with 0. split_and!; [lia | by left | done | done |].
    unfold subslice. rewrite N.sub_diag. apply take_0. }
  rewrite try_fold_app in H. apply bind_Ok in H as ([r0 e0] & H0 & H).
  apply IH in H0 as (-> & _ & Hr0 & Hother & Hin).
  apply bind_Ok in H as ([r1 e1] & H & [= <- <-]). unfold append_attribute, RECORD_BYTES in H.
  inv_ok. match goal with H : (match checked_add ?a ?b with _ => _ end) = false |- _ =>
    destruct (checked_add a b) as [v|] eqn:Hv; [|done] end.
  apply checked_add_Some in Hv as [-> Hv]. bool_props. 
  match goal with H : copy_from_slice _ _ _ _ = Ok _ |- _ =>
    apply copy_updated in H as (H1 & H2 & H3 & [Hu1 Hu2] & Hs) end.
  rewrite concat_snoc, len_app. split_and!; [lia | right; lia | lia | |].
  - intros lo hi Hr. rewrite Hu2 by lia. apply Hother. lia.
  - rewrite <- (subslice_split c (c + len (concat attributes))) by lia.
    rewrite Hu2 by lia. by rewrite Hin, Hs.
Qed.

Lemma repaired_slice bytes rep off n lo hi :
  repaired_from bytes rep off n -> (forall i, lo <= i < hi -> ~ in_trailer n i) ->
  subslice lo hi rep = subslice lo hi bytes.
Proof.
  intros [_ _ _ Ho] Hn. apply list_eq. intros i.
  destruct (N.lt_ge_cases (N.of_nat i) (hi - lo)) as [Hi|Hi].
  - rewrite <- (Nat2N.id i), !subslice_lookup_N by lia. apply Ho, Hn. lia.
  - by rewrite !subslice_lookup_ge by lia.
Qed.
Lemma repaired_trailer bytes rep off n k :
  repaired_from bytes rep off n -> k < n ->
  subslice (k * 512 + 510) (k * 512 + 512) rep =
  subslice (off + 2 * (k + 1)) (off + 2 * (k + 1) + 2) bytes.
Proof.
  intros [_ _ Ht _] Hk. apply list_eq. intros i.
  destruct (N.lt_ge_cases (N.of_nat i) 2) as [Hi|Hi].
  - rewrite <- (Nat2N.id i), !subslice_lookup_N by lia. by apply Ht.
  - by rewrite !subslice_lookup_ge by lia.
Qed.
Lemma split_sectors {A} (l : list A) :
  len l = 1024 ->
  l = subslice 0 510 l ++ subslice 510 512 l ++ subslice 512 1022 l ++ subslice 1022 1024 l.
Proof. intros Hl. rewrite !subslice_split by lia. symmetry. by apply subslice_whole. Qed.

Lemma field_bytes n b o :
  o + N.of_nat n <= len b -> le_bytes n (field n b o) = subslice o (o + N.of_nat n) b.
Proof. intros. unfold field. apply le_bytes_num. rewrite len_subslice by lia. lia. Qed.

(** Protecting a record and repairing it gives the record back. *)
Lemma protect_repair r bytes :
  len r = 1024 -> protect_record r = Ok bytes ->
  exists fixed, len fixed = 1024 /\ len bytes = 1024 /\
    (forall lo hi, hi <= 48 \/ 54 <= lo -> subslice lo hi fixed = subslice lo hi r) /\
    (forall lo hi, hi <= 510 -> subslice lo hi bytes = subslice lo hi fixed) /\
    field 2 bytes 48 = USA_VALUE /\
    try_fold (fix_sector bytes 48 (field 2 bytes 48)) bytes (indices 2) = Ok fixed.
Proof.
  intros Hr. unfold protect_record, USA_OFFSET. intros H. inv_ok.
  repeat match goal with H : read_le _ _ _ = Ok _ |- _ => apply read_le_Ok in H as [_ ->] end.
  puts. change (N.of_nat 2) with 2 in *. lens.
  match goal with
  | H1 : updated r ?b1 48 2, H2 : updated ?b1 ?b2 (48 + 2) 2, H3 : updated ?b2 ?b3 (48 + 4) 2,
    H4 : updated ?b3 ?b4 510 2, H5 : updated ?b4 bytes 1022 2 |- _ =>
      rename b1 into a1, b2 into a2, b3 into fixed, b4 into a4 end.
  change (256 ^ 2) with 65536 in *. change (48 + 2) with 50 in *. change (48 + 4) with 52 in *.
  change (USA_VALUE mod 65536) with USA_VALUE in *.
  assert (Husa : field 2 bytes 48 = USA_VALUE) by (by peel).
  assert (Hnum : forall k, k < 2 -> field 2 bytes (k * 512 + 510) = field 2 bytes 48).
  { intros k Hk. rewrite Husa. assert (k = 0 \/ k = 1) as [-> | ->] by lia.
    - change (0 * 512 + 510) with 510. by peel.
    - done. }
  destruct (fix_sectors_complete bytes 48 2 ltac:(lia) ltac:(lia) Hnum) as [rep Hrep].
  pose proof (fix_sectors_Ok bytes 48 2 rep ltac:(lia) Hrep) as Hfrom.
  exists fixed. split_and!; [lia | lia | by intros; peel | by intros; peel | done |].
  rewrite Hrep. f_equal.
  assert (Hlow : forall i, i < 1022 -> i < 510 \/ 512 <= i -> ~ in_trailer 2 i)
    by (intros i ? ? (k & ? & ?); lia).
  rewrite (split_sectors rep), (split_sectors fixed) by (rewrite ?(rf_len _ _ _ _ Hfrom); lia).
  pose proof (repaired_trailer bytes rep 48 2 0 Hfrom ltac:(lia)) as Ht0.
  pose proof (repaired_trailer bytes rep 48 2 1 Hfrom ltac:(lia)) as Ht1.
  change (0 * 512 + 510) with 510 in Ht0. change (0 * 512 + 512) with 512 in Ht0.
  change (1 * 512 + 510) with 1022 in Ht1. change (1 * 512 + 512) with 1024 in Ht1.
  change (48 + 2 * (0 + 1)) with 50 in Ht0. change (48 + 2 * (1 + 1)) with 52 in Ht1.
  rewrite Ht0, Ht1, !(repaired_slice bytes rep 48 2) by (done || (intros; apply Hlow; lia)).
  f_equal; [by peel |]. f_equal; [|f_equal; [by peel |]].
  - transitivity (le_bytes 2 (field 2 a1 510)).
    + change (50 + 2) with (50 + N.of_nat 2). rewrite <- (field_bytes 2 bytes 50) by lia. f_equal. peel.
      match goal with H : field 2 a2 50 = _ |- _ => rewrite H end.
      peel. apply N.mod_small, (field_bound 2). simpl. lia.
    + rewrite field_bytes by lia. change (510 + N.of_nat 2) with 512. by peel.
  - transitivity (le_bytes 2 (field 2 a1 1022)).
    + change (52 + 2) with (52 + N.of_nat 2). rewrite <- (field_bytes 2 bytes 52) by lia. f_equal. peel.
      match goal with H : field 2 fixed 52 = _ |- _ => rewrite H end.
      peel. apply N.mod_small, (field_bound 2). simpl. lia.
    + rewrite field_bytes by lia. change (1022 + N.of_nat 2) with 1024. by peel.
Qed.

Lemma mod8_add a b : a mod 8 = 0 -> b mod 8 = 0 -> (a + b) mod 8 = 0.
Proof. intros Ha Hb. rewrite N.Div0.add_mod, Ha, Hb. done. Qed.

Lemma concat_mod8 attributes :
  Forall attribute_ok attributes -> len (concat attributes) mod 8 = 0.
Proof.
  induction 1 as [|a attributes (_ & Ha & _) _ IH]; simpl; [done |].
  rewrite len_app. by apply mod8_add.
Qed.

Lemma align_eight_spec v : v + 7 <= u64_max -> align_eight v = 8 * ((v + 7) / 8).
Proof.
  intros Hv. unfold align_eight. rewrite saturating_add_in by done.
  change 7 with (2 ^ 3 - 1) at 2. change 8 with (2 ^ 3). by apply land_not_mask.
Qed.
Lemma align_eight_add4 e : e mod 8 = 0 -> e + 11 <= u64_max -> align_eight (e + 4) = e + 8.
Proof.
  intros Hm He. rewrite align_eight_spec by lia. pose proof (N.div_mod' e 8).
  replace (e + 4 + 7) with (3 + (e / 8 + 1) * 8) by lia.
  rewrite N.div_add, (N.div_small 3) by lia. lia.
Qed.

Lemma tiles_of_attributes r used attributes previous offset :
  Forall attribute_ok attributes -> kinds_sorted attributes ->
  (forall a rest, attributes = a :: rest -> previous <= field 4 a 0) ->
  subslice offset (offset + len (concat attributes)) r = concat attributes ->
  offset + len (concat attributes) + 4 <= used ->
  field 4 r (offset + len (concat attributes)) = ATTRIBUTE_END ->
  attribute_tiles r used previous offset ((fun a => (field 4 a 0, len a)) <$> attributes)
    (offset + len (concat attributes)).
Proof.
  intros Hok. revert previous offset. induction Hok as [|a attributes Ha Hok IH];
    intros previous offset Hs Hp Hsl Hu He; simpl in *.
  { rewrite N.add_0_r in *. by constructor. }
  destruct Ha as (Hl & Hm & Hk & Hf & Hn). rewrite len_app in *.
  assert (Hsa : subslice offset (offset + len a) r = a).
  { apply (f_equal (subslice 0 (len a))) in Hsl. rewrite subslice_subslice in Hsl by lia.
    rewrite subslice_app_l in Hsl. by rewrite N.add_0_r in Hsl. }
  assert (Hfa : forall n k, k + N.of_nat n <= len a -> field n r (offset + k) = field n a k).
  { intros n k Hk'. rewrite <- Hsa. by rewrite field_of_slice by lia. }
  pose proof (Hfa 4%nat 0 ltac:(simpl; lia)) as Hf0. rewrite N.add_0_r in Hf0.
  apply tiles_attribute; [done | by rewrite Hfa by (simpl; lia) | lia | by apply (Hp a attributes)
    | lia | lia | done | lia | by rewrite Hfa by (simpl; lia) |].
  rewrite N.add_assoc. rewrite !N.add_assoc in *. apply IH.
  - by inversion_clear Hs.
  - intros b rest ->. inversion_clear Hs as [|?? _ Hh]. by inversion_clear Hh.
  - apply (f_equal (subslice (len a) (len a + len (concat attributes)))) in Hsl.
    rewrite subslice_subslice in Hsl by lia. rewrite subslice_skip in Hsl by lia.
    rewrite N.sub_diag in Hsl. replace (len a + len (concat attributes) - len a)
      with (len (concat attributes)) in Hsl by lia. by rewrite subslice_all, N.add_assoc in Hsl.
  - lia.
  - done.
Qed.

Lemma align_eight_ge v : v + 7 <= u64_max -> v <= align_eight v /\ align_eight v mod 8 = 0.
Proof.
  intros Hv. rewrite align_eight_spec by done. pose proof (N.div_mod' (v + 7) 8).
  pose proof (N.mod_lt (v + 7) 8 ltac:(done)). split; [lia |].
  rewrite N.mul_comm. apply N.Div0.mod_mul.
Qed.
Lemma align_eight_u32 v : v <= u64_max -> align_eight v <= u32_max -> v + 7 <= u64_max.
Proof.
  intros Hv Ha. destruct (N.le_gt_cases (v + 7) u64_max) as [|Hg]; [done |].
  unfold align_eight, saturating_add in Ha. rewrite N.min_r in Ha by lia.
  by vm_compute in Ha.
Qed.

(** Writes at or after byte 24 leave the attribute header alone. *)
Lemma write_utf16_Ok b units b' offset :
  24 <= offset -> write_utf16 b offset units = Ok b' ->
  len b' = len b /\ forall lo hi, hi <= 24 -> subslice lo hi b' = subslice lo hi b.
Proof.
  intros Ho. apply (try_fold_invariant (fun s => len s = len b /\
    forall lo hi, hi <= 24 -> subslice lo hi s = subslice lo hi b)); [done |].
  intros s [index unit_] s' _ [Hl Hs] Hp. apply put_updated in Hp as ([Hl' Hu] & _ & _).
  split; [congruence |]. intros lo hi Hh. rewrite Hu by lia. by apply Hs.
Qed.

Lemma resident_attribute_Ok kind name id value b :
  16 <= kind < ATTRIBUTE_END -> resident_attribute kind name id value = Ok b ->
  attribute_ok b /\ field 4 b 0 = kind /\ field 4 b 16 = len value /\
  exists offset, field 2 b 20 = offset /\
    subslice offset (offset + len value) b = value.
Proof.
  intros Hk H. unfold resident_attribute, FILE_NAME in H. inv_ok.
  repeat match goal with H : (if _ <=? _ then _ else _) = Some _ |- _ =>
    let Hc := fresh "Hle" in destruct (_ <=? _) eqn:Hc in H; [injection H as <- | discriminate H] end.
  bool_props.
  set (voff := align_eight (24 + len (default [] name) * 2)) in *.
  set (total := align_eight (voff + len value)) in *.
  assert (Htot : 24 <= voff /\ voff + len value <= total /\ total mod 8 = 0).
  { destruct (align_eight_ge (24 + len (default [] name) * 2)) as [Hv _];
      [unfold u8_max, u64_max in *; lia |]. fold voff in Hv.
    destruct (align_eight_ge (voff + len value)) as [Ht Hm];
      [apply align_eight_u32; done |]. fold total in Ht, Hm. split_and!; [lia | lia | done]. }
  destruct Htot as (Hv & Ht & Hm).
  puts. change (N.of_nat 1) with 1 in *. change (N.of_nat 2) with 2 in *.
  change (N.of_nat 4) with 4 in *.
  rewrite len_replicate, N2Nat.id in *.
  match goal with
  | Ha : (if kind =? 48 then put_le 1 ?x 22 1 else Ok ?x) = Ok ?y,
    Hb : (if is_empty _ then Ok ?y else write_utf16 ?y _ _) = Ok ?z |- _ =>
      rename x into b12, y into b13, z into b14, Ha into Hflag, Hb into Hname end.
  assert (H13 : len b13 = len b12 /\ forall lo hi, hi <= 22 -> subslice lo hi b13 = subslice lo hi b12).
  { destruct (kind =? 48); [|by injection Hflag as <-].
    apply put_updated in Hflag as ([Hl Hu] & _ & _). split; [done |]. intros. apply Hu. lia. }
  assert (H14 : len b14 = len b13 /\ forall lo hi, hi <= 24 -> subslice lo hi b14 = subslice lo hi b13).
  { destruct (is_empty (default [] name)); [by injection Hname as <-|].
    by apply write_utf16_Ok in Hname. }
  destruct H13 as [Hl13 Hu13], H14 as [Hl14 Hu14].
  assert (Hbody : forall n o, o + N.of_nat n <= 22 -> field n b o = field n b12 o).
  { intros n o Ho. rewrite (field_updated n b14 b _ _ o) by (eassumption || lia).
    unfold field. rewrite Hu14, Hu13 by lia. done. }
  lens. rewrite len_replicate, N2Nat.id in *.
  assert (Hlb : len b = total) by lia.
  unfold attribute_ok. rewrite Hlb, !Hbody by (simpl; lia). peel.
  repeat match goal with H : field _ _ _ = _ mod _ |- _ => rewrite H; clear H end.
  change (256 ^ 4) with 4294967296. change (256 ^ 2) with 65536.
  unfold ATTRIBUTE_END, u32_max, u16_max in *.
  rewrite !(N.mod_small _ 4294967296), !(N.mod_small _ 65536) by lia. rewrite field_zeros by (simpl; lia).
  split_and!; try done; try lia.
  by eexists.
Qed.

(** * Theorems *)

(** C30: an accepted FILE record is whole.  Its size is a multiple of the stride;
    the update array stands between the header and the first attribute, inside
    the first sector; every sector trailer carries the record's one update
    sequence number, so no sector comes from another write; the repaired copy
    has the displaced bytes of the array in the trailers and is otherwise the
    input; and its attributes, in increasing order of type, tile the bytes from
    the first attribute to the end marker, inside the bytes in use. *)
Theorem accepted_record_is_whole bytes r :
  parse_file_record bytes = Ok r ->
  let usa := fr_update_sequence_offset r in
  let sectors := len bytes / 512 in
  len bytes = sectors * 512 /\ fr_bytes_allocated r = len bytes /\
  fr_update_sequence_count r = sectors + 1 /\
  usa + 2 * (sectors + 1) <= 510 /\ usa + 2 * (sectors + 1) <= fr_attributes_offset r /\
  repaired_from bytes (fr_repaired r) usa sectors /\
  exists tiles, attribute_tiles (fr_repaired r) (fr_bytes_in_use r) 16
    (fr_attributes_offset r) tiles (fr_end_marker_offset r) /\
    fr_attribute_count r = len tiles /\ fr_bytes_in_use r <= len bytes.
Proof.
  intros (version & repaired & tiles & end_ & Hh & Hfix & Ht & ->)%parse_file_record_Ok.
  destruct Hh as (Hlen & Hmod & _ & Hv & Hc & Hfit & Hal & Hus & _ & _ & _ & _ & Hov). simpl.
  pose proof (sectors_of bytes Hmod). split_and!; try lia.
  - apply fix_sectors_Ok; [lia | exact Hfix].
  - exists tiles. split_and!; [done | done | lia].
Qed.

(** a torn record is refused.  If any sector of the input carries a trailer
    that is not the update sequence number, the record is never accepted,
    whatever else it contains. *)
Theorem torn_record_refused bytes k :
  k < len bytes / 512 ->
  field 2 bytes (k * 512 + 510) <> field 2 bytes (field 2 bytes 4) ->
  forall r, parse_file_record bytes <> Ok r.
Proof.
  intros Hk Hne r (version & repaired & tiles & end_ & Hh & Hfix & Ht & ->)%parse_file_record_Ok.
  destruct Hh as (_ & Hmod & _). apply Hne.
  apply fix_sectors_Ok in Hfix as [_ Hn _ _]; [by apply Hn | by rewrite sectors_of].
Qed.

(** C28: FILE records round-trip.  Whatever attributes the serializer packs into a
    record, in order of type, the reader accepts the protected record and finds
    the same identity, counts and flags, no base record, and exactly those
    attribute bytes between the first attribute and the end marker, also where
    they cross a sector trailer. *)
Theorem file_record_roundtrip number sequence flags links attributes bytes :
  sequence <= u16_max -> flags <= u16_max -> links <= u16_max ->
  Forall attribute_ok attributes -> kinds_sorted attributes ->
  finish_record_with_sequence number sequence flags links attributes = Ok bytes ->
  exists r, parse_file_record bytes = Ok r /\ len bytes = 1024 /\
    fr_header_version r = Ntfs31 /\ fr_record_number r = Some number /\
    fr_sequence_number r = sequence /\ fr_hard_link_count r = links /\
    ff_raw (fr_flags r) = flags /\ fr_base_record r = None /\
    fr_attribute_count r = len attributes /\
    subslice (fr_attributes_offset r) (fr_end_marker_offset r) (fr_repaired r) =
      concat attributes.
Proof.
  intros Hsq Hfl Hlk Hok Hsorted H. unfold finish_record_with_sequence in H.
  apply bind_Ok in H as (h & Hh & H).
  apply record_header_Ok in Hh as (Hlh & Hnum & Hmagic & H4 & H6 & H8 & H16 & H18 & H20 & H22 & H28
    & H32 & H40 & H42 & H44).
  apply bind_Ok in H as ([r e] & Ha & H).
  apply append_attributes_Ok in Ha as (-> & Hfit & Hlr & Hother & Hin); [|done].
  unfold ATTRIBUTES_OFFSET in *. set (total := len (concat attributes)) in *.
  assert (Htot : 56 + total + 8 <= 1024).
  { destruct Hfit as [->|]; [|lia]. subst total. simpl. done. }
  assert (Hm : total mod 8 = 0) by (by apply concat_mod8).
  inv_ok.
  match goal with H : protect_record ?x = Ok _ |- _ =>
    apply protect_repair in H as (fixed & Hlf & Hlb & Hfix & Hsame & Husa & Hfold); rename x into r2 end.
  2: { puts. lens. lia. }
  puts. lens.
  rewrite align_eight_add4 in * by (try apply mod8_add; try done; unfold u64_max; lia).
  change (N.of_nat 4) with 4 in *.
  assert (Hfh : forall n o, o + N.of_nat n <= 48 -> o + N.of_nat n <= 24 \/ 28 <= o ->
    field n fixed o = field n h o).
  { intros n o Ho Hd. unfold field. rewrite Hfix by lia. peel. apply f_equal, Hother. lia. }
  assert (Hbh : forall n o, o + N.of_nat n <= 48 -> o + N.of_nat n <= 24 \/ 28 <= o ->
    field n bytes o = field n h o).
  { intros n o Ho Hd. rewrite <- Hfh by done. unfold field. by rewrite Hsame by lia. }
  assert (Huse : field 4 bytes 24 = 56 + total + 8).
  { unfold field. change (24 + N.of_nat 4) with 28. rewrite Hsame, Hfix by lia.
    change (subslice 24 28 r2) with (subslice 24 (24 + N.of_nat 4) r2). fold (field 4 r2 24).
    rewrite Hfld. apply N.mod_small. change (256 ^ 4) with 4294967296. unfold u32_max in *. lia. }
  assert (Hend : field 4 fixed (56 + total) = ATTRIBUTE_END).
  { unfold field. rewrite Hfix by lia. peel. done. }
  assert (Htiles : attribute_tiles fixed (56 + total + 8) 16 56
    ((fun a => (field 4 a 0, len a)) <$> attributes) (56 + total)).
  { apply tiles_of_attributes; [done | done | | | subst total; lia | done].
    - intros b rest ->. by apply Forall_cons in Hok as [(_ & _ & [? _] & _) _].
    - fold total. rewrite Hfix by lia. peel. done. }
  pose proof (Hbh 2%nat 4 ltac:(simpl; lia) ltac:(simpl; lia)) as B4.
  pose proof (Hbh 2%nat 6 ltac:(simpl; lia) ltac:(simpl; lia)) as B6.
  pose proof (Hbh 2%nat 16 ltac:(simpl; lia) ltac:(simpl; lia)) as B16.
  pose proof (Hbh 2%nat 18 ltac:(simpl; lia) ltac:(simpl; lia)) as B18.
  pose proof (Hbh 2%nat 20 ltac:(simpl; lia) ltac:(simpl; lia)) as B20.
  pose proof (Hbh 4%nat 28 ltac:(simpl; lia) ltac:(simpl; lia)) as B28.
  pose proof (Hbh 2%nat 42 ltac:(simpl; lia) ltac:(simpl; lia)) as B42.
  pose proof (Hbh 4%nat 44 ltac:(simpl; lia) ltac:(simpl; lia)) as B44.
  pose proof (Hfh 2%nat 22 ltac:(simpl; lia) ltac:(simpl; lia)) as F22.
  pose proof (Hfh 8%nat 32 ltac:(simpl; lia) ltac:(simpl; lia)) as F32.
  exists (record_of bytes fixed Ntfs31 (len ((fun a => (field 4 a 0, len a)) <$> attributes))
    (56 + total)).
  split.
  - apply parse_file_record_Ok. exists Ntfs31, fixed, ((fun a => (field 4 a 0, len a)) <$> attributes),
      (56 + total).
    rewrite Huse, B4, H4, B20, H20, Hlb. split_and!; try done.
    unfold header_accepted. rewrite Huse, B4, H4, B6, H6, B20, H20, B28, H28, B42, H42, Hlb.
    rewrite Hsame, Hfix by lia. peel. rewrite Hother by lia.
    cbn [minimum_header]. unfold MAX_FILE_RECORD_SIZE, NTFS_31_HEADER_LEN.
    split_and!; try done; try lia. rewrite <- N.add_assoc. by repeat apply mod8_add.
  - simpl. rewrite B16, H16, B18, H18, B20, H20, F22, H22, F32, H32, B44, H44.
    unfold u16_max in *. rewrite !N.mod_small by lia.
    split_and!; try done; [unfold len; by rewrite length_fmap |].
    rewrite Hfix by lia. peel. done.
Qed.

(** reading FILE records is total.  No slice of any size and content makes
    the reader index out of range, overflow or loop over attributes: it returns
    a record or one of its errors. *)
Theorem parse_file_record_total bytes : parse_file_record bytes <> Panic.
Proof. apply parse_file_record_safe. Qed.

(** ** Witnesses *)
Definition built (m : outcome NtfsSerializeError (list byte)) : list byte :=
  match m with Ok b => b | _ => [] end.
(** A record whose second attribute crosses the first sector trailer. *)
Definition sample_attributes : list (list byte) :=
  [built (resident_attribute 16 None 0 (replicate 48 x01));
   built (resident_attribute 128 None 1 (replicate 500 xab))].
Definition sample_record : list byte := Eval vm_compute in
  built (finish_record 23 1 1 sample_attributes).
Definition parsed_record : option NtfsFileRecord := Eval vm_compute in
  match parse_file_record sample_record with Ok r => Some r | _ => None end.

Lemma sample_attributes_ok : Forall attribute_ok sample_attributes /\ kinds_sorted sample_attributes.
Proof.
  split.
  - constructor; [|constructor; [|constructor]].
    + apply (resident_attribute_Ok 16 None 0 (replicate 48 x01)); [by vm_compute | by vm_compute].
    + apply (resident_attribute_Ok 128 None 1 (replicate 500 xab)); [by vm_compute | by vm_compute].
  - repeat constructor. by vm_compute.
Qed.
Lemma sample_record_finished :
  finish_record_with_sequence 23 23 1 1 sample_attributes = Ok sample_record.
Proof. vm_compute. reflexivity. Qed.

Lemma file_record_roundtrip_witness :
  exists r, parse_file_record sample_record = Ok r /\ fr_attribute_count r = 2.
Proof.
  destruct sample_attributes_ok as [Hok Hs].
  destruct (file_record_roundtrip 23 23 1 1 sample_attributes sample_record
    ltac:(by vm_compute) ltac:(by vm_compute) ltac:(by vm_compute) Hok Hs sample_record_finished)
    as (r & Hr & _ & _ & _ & _ & _ & _ & _ & Hc & _).
  exists r. split; [exact Hr | exact Hc].
Defined.

Lemma accepted_record_is_whole_witness :
  match parsed_record with
  | Some r => fr_update_sequence_count r = len sample_record / 512 + 1
  | None => False
  end.
Proof.
  unfold parsed_record. apply (accepted_record_is_whole sample_record). vm_compute. reflexivity.
Defined.

(** The same record with one trailer of an older write. *)
Definition torn_record : list byte := splice 1022 [x59; xa5] sample_record.
Lemma torn_record_refused_witness : forall r, parse_file_record torn_record <> Ok r.
Proof.
  apply (torn_record_refused torn_record 1); [by vm_compute | by vm_compute].
Defined.
