(* ===== verification/Lznt1.v ===== *)
(** * LZNT1 decompression

    The decoder of NTFS compressed streams ([fs/lznt1.rs]): [decompress_unit]
    writes the chunks of one compression unit into a caller's buffer, and
    [materialize_ntfs_compressed_stream] rebuilds a stream unit by unit from its
    extents.

    The reference is the format itself ([lznt1], after MS-XCA 2.5): an inductive
    grammar that says which bytes encode which text, with the documented width
    of the offset field and no code of the decoder.  The decoder is proved to
    produce the text of every unit of the grammar cut to the buffer, and to leave
    the rest of the buffer alone, as long as no match starts where its own width
    rule differs.  [unit_meaning] is only a step of that proof: the loops of the
    decoder over lists, without buffer and cursors.  The decoder is also proved
    total on arbitrary input.

    The width of the offset field is a step function of the bytes already
    decoded in the chunk.  [bit_allocator_spec] states the decoder's exactly; the
    format puts every step one byte later (see [offset_width_step]). *)

From S2P Require Export Prelude Bytes Extent.
From S2P Require Import Bits.
From stdpp Require Import options.

#[local] Open Scope N_scope.

Inductive Lznt1Error : Type :=
| TruncatedChunk
| BackReferenceBeforeChunk
| CompressionBlockTooLarge
| Lznt1ArithmeticOverflow.

(** [dst[i] = b]. *)
Definition set_index {E A : Type} (l : list A) (i : N) (x : A) : outcome E (list A) :=
  if i <? len l then Ok (<[N.to_nat i := x]> l) else Panic.

(** ** One compression unit *)
Fixpoint bit_allocator_loop (fuel : nat) (emitted offset_bits threshold : N) : N :=
  match fuel with
  | O => offset_bits
  | S fuel =>
      if (threshold <=? emitted) && (offset_bits <? 12)
      then bit_allocator_loop fuel emitted (offset_bits + 1) (N.shiftl threshold 1)
      else offset_bits
  end.
(** The loop runs at most eight times. *)
Definition bit_allocator_u (emitted : N) : N :=
  bit_allocator_loop 9 emitted 4 (N.shiftl 1 4).

(** [for index in 0..take { dst[dst_cursor + index] = dst[src_pos + index]; }] *)
Definition copy_match (dst : list byte) (src_pos dst_cursor take_ : N)
    : outcome Lznt1Error (list byte) :=
  try_fold (fun dst index =>
    b ← at_index dst (src_pos + index);
    set_index dst (dst_cursor + index) b) dst (indices take_).

(** The buffer with its cursor, and the position in the chunk. *)
Record chunk_state : Type := mkChunkState {
  cs_dst : list byte;
  cs_cursor : N;
  cs_in : N
}.

Definition decode_match (chunk : list byte) (chunk_start : N) (s : chunk_state)
    : outcome Lznt1Error chunk_state :=
  refuse_if (match checked_add (cs_in s) 2 with
             | None => true
             | Some needed => len chunk <? needed
             end) TruncatedChunk ;;
  token ← read_le 2 chunk (cs_in s);
  chunk_in ← add_u64 (cs_in s) 2;
  before ← sub_u64 (cs_cursor s) chunk_start;
  emitted ← ok_or Lznt1ArithmeticOverflow (u32_try_from before);
  let offset_bits := bit_allocator_u emitted in
  let length_bits := 16 - offset_bits in
  let length_mask := N.shiftl 1 length_bits - 1 in
  let length := N.land token length_mask + 3 in
  let offset := N.shiftr token length_bits + 1 in
  refuse_if (before <? offset) BackReferenceBeforeChunk ;;
  src_pos ← sub_u64 (cs_cursor s) offset;
  room ← sub_u64 (len (cs_dst s)) (cs_cursor s);
  let take_ := N.min length room in
  dst ← copy_match (cs_dst s) src_pos (cs_cursor s) take_;
  cursor ← add_u64 (cs_cursor s) take_;
  Ok (mkChunkState dst cursor chunk_in).

Definition decode_literal (chunk : list byte) (s : chunk_state)
    : outcome Lznt1Error chunk_state :=
  b ← at_index chunk (cs_in s);
  dst ← set_index (cs_dst s) (cs_cursor s) b;
  chunk_in ← add_u64 (cs_in s) 1;
  cursor ← add_u64 (cs_cursor s) 1;
  Ok (mkChunkState dst cursor chunk_in).

(** [for bit in 0..8_u8] with its [break]. *)
Fixpoint decode_bits (chunk : list byte) (chunk_start flags : N) (bits : list N)
    (s : chunk_state) : outcome Lznt1Error chunk_state :=
  match bits with
  | [] => Ok s
  | bit :: bits =>
      if (len chunk <=? cs_in s) || (len (cs_dst s) <=? cs_cursor s) then Ok s
      else
        s ← (if N.land flags (N.shiftl 1 bit) =? 0 then decode_literal chunk s
             else decode_match chunk chunk_start s);
        decode_bits chunk chunk_start flags bits s
  end.

Fixpoint decode_chunk (fuel : nat) (chunk : list byte) (chunk_start : N) (s : chunk_state)
    : outcome Lznt1Error chunk_state :=
  match fuel with
  | O => Panic
  | S fuel =>
      if (cs_in s <? len chunk) && (cs_cursor s <? len (cs_dst s)) then
        flags ← at_index chunk (cs_in s);
        chunk_in ← add_u64 (cs_in s) 1;
        s ← decode_bits chunk chunk_start (Byte.to_N flags) (indices 8)
              (mkChunkState (cs_dst s) (cs_cursor s) chunk_in);
        decode_chunk fuel chunk chunk_start s
      else Ok s
  end.

Fixpoint unit_loop (fuel : nat) (src : list byte) (src_cursor : N) (dst : list byte)
    (dst_cursor : N) : outcome Lznt1Error (N * list byte) :=
  match fuel with
  | O => Panic
  | S fuel =>
      if (saturating_add src_cursor 2 <=? len src) && (dst_cursor <? len dst) then
        header ← read_le 2 src src_cursor;
        if header =? 0 then Ok (dst_cursor, dst)
        else
          src_cursor ← add_u64 src_cursor 2;
          let is_compressed := negb (N.land header 32768 =? 0) in
          let chunk_len := N.land header 4095 + 1 in
          end_ ← ok_or Lznt1ArithmeticOverflow (checked_add src_cursor chunk_len);
          refuse_if (len src <? end_) TruncatedChunk ;;
          chunk ← index_range src_cursor end_ src;
          if is_compressed then
            s ← decode_chunk (S (length chunk)) chunk dst_cursor (mkChunkState dst dst_cursor 0);
            unit_loop fuel src end_ (cs_dst s) (cs_cursor s)
          else
            room ← sub_u64 (len dst) dst_cursor;
            let take_ := N.min chunk_len room in
            part ← index_range 0 take_ chunk;
            after ← add_u64 dst_cursor take_;
            dst ← copy_from_slice dst_cursor after part dst;
            unit_loop fuel src end_ dst after
      else Ok (dst_cursor, dst)
  end.

(** The buffer is returned with the count. *)
Definition decompress_unit (src dst : list byte) : outcome Lznt1Error (N * list byte) :=
  unit_loop (S (length src)) src 0 dst 0.

(** ** Streams *)
Section Materialize.
Context {E : Type} (from : Lznt1Error -> E) (read_physical : N -> N -> outcome E (list byte)).

Definition in_unit (stream : StreamId) (cu_start window_end : N) (e : Extent) : bool :=
  (ex_stream e =? stream) && bool_decide (ex_kind e = FileData) &&
  (ex_logical_offset e <? window_end) &&
  match checked_add (ex_logical_offset e) (ex_length e) with
  | Some end_ => cu_start <? end_
  | None => false
  end.

(** [try_reserve] fails when the capacity would pass [isize::MAX]; a failure of
    the allocator itself is not modelled. *)
Definition collect_extent (cu_start window_end : N) (acc : list byte * N * N) (e : Extent)
    : outcome E (list byte * N * N) :=
  let '(physical, physical_bytes, sparse_bytes) := acc in
  let overlap_start := N.max (ex_logical_offset e) cu_start in
  end_ ← ok_or (from Lznt1ArithmeticOverflow) (checked_add (ex_logical_offset e) (ex_length e));
  let overlap_end := N.min end_ window_end in
  if overlap_end <=? overlap_start then Ok acc
  else
    overlap ← sub_u64 overlap_end overlap_start;
    match ex_placement e with
    | Sparse =>
        sparse_bytes ← ok_or (from Lznt1ArithmeticOverflow) (checked_add sparse_bytes overlap);
        Ok (physical, physical_bytes, sparse_bytes)
    | Physical byte_offset =>
        skip ← sub_u64 overlap_start (ex_logical_offset e);
        read_at ← ok_or (from Lznt1ArithmeticOverflow) (checked_add byte_offset skip);
        take_ ← ok_or (from Lznt1ArithmeticOverflow) (usize_try_from overlap);
        bytes ← read_physical read_at take_;
        refuse_if (negb (len bytes =? take_)) (from TruncatedChunk) ;;
        refuse_if (isize_max <? len physical + take_) (from Lznt1ArithmeticOverflow) ;;
        physical_bytes ← ok_or (from Lznt1ArithmeticOverflow) (checked_add physical_bytes overlap);
        Ok (physical ++ bytes, physical_bytes, sparse_bytes)
    end.

Definition collect_cu_payload (extents : list Extent) (stream : StreamId)
    (cu_start window_end : N) : outcome E (list byte * N * N) :=
  try_fold (collect_extent cu_start window_end) ([], 0, 0)
    (List.filter (in_unit stream cu_start window_end) extents).

(** The content of one unit. *)
Definition materialize_unit (block window : N) (payload : list byte * N * N) (copy : N)
    (dest_start : N) (destination : list byte) : outcome E (list byte) :=
  let '(physical, physical_bytes, sparse_bytes) := payload in
  if (sparse_bytes =? 0) && (physical_bytes =? window) then
    let take_ := N.min copy (len physical) in
    part ← index_range 0 take_ physical;
    after ← add_u64 dest_start take_;
    copy_from_slice dest_start after part destination
  else
    '(_, unit_) ← map_err from (decompress_unit physical (replicate (N.to_nat block) x00));
    let take_ := N.min copy (len unit_) in
    part ← index_range 0 take_ unit_;
    after ← add_u64 dest_start take_;
    copy_from_slice dest_start after part destination.

Fixpoint materialize_loop (fuel : nat) (extents : list Extent) (stream : StreamId)
    (compression_block_bytes block logical_end dest_len cu_start : N)
    (destination : list byte) : outcome E (list byte) :=
  match fuel with
  | O => Panic
  | S fuel =>
      if cu_start <? logical_end then
        window_end ← ok_or (from Lznt1ArithmeticOverflow)
          (checked_add cu_start compression_block_bytes);
        payload ← collect_cu_payload extents stream cu_start window_end;
        dest_start ← ok_or (from Lznt1ArithmeticOverflow) (usize_try_from cu_start);
        if dest_len <=? dest_start then Ok destination
        else
          left_ ← sub_u64 logical_end cu_start;
          space ← sub_u64 dest_len dest_start;
          copy ← ok_or (from Lznt1ArithmeticOverflow)
            (usize_try_from (N.min left_ (default u64_max (u64_try_from space))));
          if snd (fst payload) =? 0
          then materialize_loop fuel extents stream compression_block_bytes block logical_end
                 dest_len window_end destination
          else
            window ← sub_u64 window_end cu_start;
            destination ← materialize_unit block window payload copy dest_start destination;
            materialize_loop fuel extents stream compression_block_bytes block logical_end
              dest_len window_end destination
      else Ok destination
  end.

(** Every round moves [cu_start] forward, and it stays below [dest_len]. *)
Definition materialize_ntfs_compressed_stream (extents : list Extent) (stream : StreamId)
    (compression_block_bytes initialized_bytes dest_len : N) : outcome E (list byte) :=
  refuse_if (compression_block_bytes =? 0) (from CompressionBlockTooLarge) ;;
  refuse_if (16 * 1024 * 1024 <? compression_block_bytes) (from CompressionBlockTooLarge) ;;
  block ← ok_or (from Lznt1ArithmeticOverflow) (usize_try_from compression_block_bytes);
  let destination := replicate (N.to_nat dest_len) x00 in
  let logical_end := N.min initialized_bytes (default u64_max (u64_try_from dest_len)) in
  materialize_loop (S (N.to_nat logical_end)) extents stream compression_block_bytes block
    logical_end dest_len 0 destination.
End Materialize.

(** ** The format *)

(** [n] more bytes, each a copy of the one [offset] places back. *)
Fixpoint replay (n : nat) (out : list byte) (offset : N) : list byte :=
  match n with
  | O => out
  | S n => replay n (out ++ [nth (N.to_nat (len out - offset)) out x00]) offset
  end.

(** The width of the offset field of a token that starts after [emitted] bytes of
    its chunk: the smallest from 4 to 12 with [emitted <= 2 ^ width]. *)
Definition offset_width (emitted : N) : N := N.min 12 (N.max 4 (N.log2_up emitted)).

(** A match takes [length] bytes from [offset] bytes back; its token has the
    offset less one in the upper bits and the length less three in the others. *)
Definition match_token (emitted offset length : N) : N :=
  (offset - 1) * 2 ^ (16 - offset_width emitted) + (length - 3).
Record match_fits (emitted offset length : N) : Prop := {
  mf_offset : 1 <= offset <= emitted /\ offset <= 2 ^ offset_width emitted;
  mf_length : 3 <= length < 2 ^ (16 - offset_width emitted) + 3
}.

(** The positions of a chunk where the decoder's width is the documented one. *)
Definition off_step (emitted : N) : Prop := forall k, 4 <= k < 12 -> emitted <> 2 ^ k.

Section Format.
(** The positions at which a match may start. *)
Context (allowed : N -> Prop).

(** The items from bit [i] of a flag byte up to bit [j]: they turn the text
    [out] of the chunk into [out'].  A clear bit is a literal, a set bit a match. *)
Inductive items (flags : N) : nat -> list byte -> list byte -> nat -> list byte -> Prop :=
| items_none i out : items flags i out [] i out
| items_literal i out b bytes j out' :
    N.testbit flags (N.of_nat i) = false -> items flags (S i) (out ++ [b]) bytes j out' ->
    items flags i out (b :: bytes) j out'
| items_match i out offset length bytes j out' :
    N.testbit flags (N.of_nat i) = true -> match_fits (len out) offset length ->
    allowed (len out) ->
    items flags (S i) (replay (N.to_nat length) out offset) bytes j out' ->
    items flags i out (u16_le (match_token (len out) offset length) ++ bytes) j out'.

(** A compressed chunk is a sequence of flag bytes with eight items each; the
    last may have fewer. *)
Inductive compressed : list byte -> list byte -> list byte -> Prop :=
| compressed_end out : compressed out [] out
| compressed_group out flags bytes j mid more out' :
    items (Byte.to_N flags) 0 out bytes j mid -> (j <= 8)%nat -> (j = 8%nat \/ more = []) ->
    compressed mid more out' -> compressed out (flags :: bytes ++ more) out'.

(** The header of a chunk: its length less one, a three-bit signature and the
    bit that says whether it is compressed.  It is not zero. *)
Definition chunk_header (signature : N) (is_compressed : bool) (data : list byte) : N :=
  (len data - 1) + 4096 * signature + 32768 * N.b2n is_compressed.
Definition header_fits (signature : N) (is_compressed : bool) (data : list byte) : Prop :=
  1 <= len data <= 4096 /\ signature < 8 /\ 0 < chunk_header signature is_compressed data.

(** A unit: chunks up to a zero header, or to less than a header. *)
Inductive lznt1 : list byte -> list byte -> Prop :=
| lznt1_short src : len src < 2 -> lznt1 src []
| lznt1_zero rest : lznt1 (u16_le 0 ++ rest) []
| lznt1_stored signature data rest out :
    header_fits signature false data -> lznt1 rest out ->
    lznt1 (u16_le (chunk_header signature false data) ++ data ++ rest) (data ++ out)
| lznt1_compressed signature data text rest out :
    header_fits signature true data -> compressed [] data text -> lznt1 rest out ->
    lznt1 (u16_le (chunk_header signature true data) ++ data ++ rest) (text ++ out).
End Format.

(** ** The decoder over lists *)

(** The items announced by one flag byte, read from [input]. *)
Fixpoint bits_meaning (flags : N) (bits : list N) (input out : list byte)
    : option (list byte * list byte) :=
  match bits with
  | [] => Some (input, out)
  | bit :: bits =>
      match input with
      | [] => Some ([], out)
      | b :: rest =>
          if N.land flags (N.shiftl 1 bit) =? 0 then bits_meaning flags bits rest (out ++ [b])
          else
            match rest with
            | [] => None
            | b2 :: rest =>
                let token := le_num [b; b2] in
                let length_bits := 16 - bit_allocator_u (len out) in
                let length := N.land token (N.shiftl 1 length_bits - 1) + 3 in
                let offset := N.shiftr token length_bits + 1 in
                if len out <? offset then None
                else bits_meaning flags bits rest (replay (N.to_nat length) out offset)
            end
      end
  end.
Fixpoint chunk_meaning (fuel : nat) (input out : list byte) : option (list byte) :=
  match fuel with
  | O => None
  | S fuel =>
      match input with
      | [] => Some out
      | flags :: rest =>
          '(rest, out) ← bits_meaning (Byte.to_N flags) (indices 8) rest out;
          chunk_meaning fuel rest out
      end
  end.
(** A unit is a sequence of chunks, up to a zero header or the end. *)
Fixpoint unit_meaning (fuel : nat) (src : list byte) : option (list byte) :=
  match fuel with
  | O => None
  | S fuel =>
      match src with
      | h0 :: h1 :: rest =>
          let header := le_num [h0; h1] in
          if header =? 0 then Some []
          else
            let chunk_len := N.land header 4095 + 1 in
            if len rest <? chunk_len then None
            else
              let chunk := subslice 0 chunk_len rest in
              data ← (if negb (N.land header 32768 =? 0)
                      then chunk_meaning (S (length chunk)) chunk [] else Some chunk);
              more ← unit_meaning fuel (subslice chunk_len (len rest) rest);
              Some (data ++ more)
      | _ => Some []
      end
  end.

(** What a buffer holds after [out] has been written at [at_]: the part that
    fits, and nothing else has changed. *)
Definition filled (dst : list byte) (at_ : N) (out : list byte) : list byte :=
  splice at_ (subslice 0 (N.min (len out) (len dst - at_)) out) dst.

(** * Lemmas *)
Lemma set_index_Ok {E A} (l : list A) i x r :
  @set_index E A l i x = Ok r <-> i < len l /\ r = <[N.to_nat i := x]> l.
Proof. unfold set_index. destruct (N.ltb_spec i (len l)); naive_solver lia. Qed.
Lemma len_insert {A} (l : list A) i x : len (<[i := x]> l) = len l.
Proof. unfold len. by rewrite length_insert. Qed.

(** ** The offset width *)
Lemma bit_allocator_spec emitted :
  let b := bit_allocator_u emitted in
  4 <= b <= 12 /\ (b < 12 -> emitted < 2 ^ b) /\ (4 < b -> 2 ^ (b - 1) <= emitted).
Proof.
  assert (Hg : forall fuel k, (N.to_nat (12 - k) < fuel)%nat -> 4 <= k <= 12 ->
    (4 < k -> 2 ^ (k - 1) <= emitted) ->
    let b := bit_allocator_loop fuel emitted k (2 ^ k) in
    4 <= b <= 12 /\ (b < 12 -> emitted < 2 ^ b) /\ (4 < b -> 2 ^ (b - 1) <= emitted)).
  { induction fuel as [|fuel IH]; intros k Hf Hk Hb; [lia |]. cbn [bit_allocator_loop].
    destruct (N.leb_spec (2 ^ k) emitted) as [Hle|Hgt], (N.ltb_spec k 12) as [Hlt|Hge];
      cbn [andb]; cbv zeta; try (split_and!; try done; lia).
    assert (Hs : N.shiftl (2 ^ k) 1 = 2 ^ (k + 1)) by (rewrite N.shiftl_mul_pow2, N.pow_add_r; done).
    rewrite Hs. apply IH; [lia | lia |]. intros _. by replace (k + 1 - 1) with k by lia. }
  unfold bit_allocator_u. change (N.shiftl 1 4) with (2 ^ 4). apply Hg; [simpl; lia | lia | lia].
Qed.

(** ** Matches *)
Lemma len_replay n out offset : len (replay n out offset) = len out + N.of_nat n.
Proof.
  revert out. induction n as [|n IH]; intros out; simpl; [lia |].
  rewrite IH, len_app. change (len [_]) with 1. lia.
Qed.
Lemma replay_prefix n out offset : exists more, replay n out offset = out ++ more.
Proof.
  revert out. induction n as [|n IH]; intros out; simpl; [exists []; by rewrite app_nil_r |].
  destruct (IH (out ++ [nth (N.to_nat (len out - offset)) out x00])) as [m Hm].
  rewrite Hm, <- app_assoc. by eexists.
Qed.
Lemma replay_snoc n out offset :
  replay (S n) out offset =
  replay n out offset ++
    [nth (N.to_nat (len (replay n out offset) - offset)) (replay n out offset) x00].
Proof. revert out. induction n as [|n IH]; intros out; [done |]. simpl. apply IH. Qed.
Lemma replay_add n m out offset : replay (n + m) out offset = replay m (replay n out offset) offset.
Proof. revert out. induction n as [|n IH]; intros out; simpl; [done | apply IH]. Qed.

Lemma splice_snoc (dst out : list byte) at_ b :
  at_ + len out < len dst ->
  <[N.to_nat (at_ + len out) := b]> (splice at_ out dst) = splice at_ (out ++ [b]) dst.
Proof.
  intros Hl. apply list_eq. intros i.
  assert (Hb : len (out ++ [b]) = len out + 1) by (by rewrite len_app).
  rewrite (splice_lookup at_ (out ++ [b])) by lia. rewrite Hb.
  destruct (decide (i = N.to_nat (at_ + len out))) as [->|Hi].
  - rewrite list_lookup_insert_eq by (pose proof (len_splice at_ out dst); unfold len in *; lia).
    rewrite decide_True by lia.
    replace (N.to_nat (at_ + len out) - N.to_nat at_)%nat with (length out) by (unfold len; lia).
    by rewrite lookup_app_r, Nat.sub_diag by lia.
  - rewrite list_lookup_insert_ne by done. rewrite splice_lookup by lia.
    repeat case_decide; try done; try lia.
    rewrite lookup_app_l; [done |]. unfold len in *. lia.
Qed.
Lemma splice_at (dst out : list byte) at_ i :
  at_ + len out <= len dst -> i < len out ->
  splice at_ out dst !! N.to_nat (at_ + i) = Some (nth (N.to_nat i) out x00).
Proof.
  intros Hl Hi. rewrite splice_lookup by done. rewrite decide_True by lia.
  replace (N.to_nat (at_ + i) - N.to_nat at_)%nat with (N.to_nat i) by lia.
  destruct (lookup_lt_is_Some_2 out (N.to_nat i)) as [y Hy]; [unfold len in Hi; lia |].
  rewrite Hy. f_equal. symmetry. by apply nth_lookup_Some.
Qed.

Lemma copy_match_replay dst at_ out offset n :
  0 < offset <= len out -> at_ + len out + n <= len dst ->
  copy_match (splice at_ out dst) (at_ + (len out - offset)) (at_ + len out) n =
  Ok (splice at_ (replay (N.to_nat n) out offset) dst).
Proof.
  intros Ho. unfold copy_match. induction n as [|n IH] using N.peano_ind; intros Hl; [done |].
  rewrite <- N.add_1_r in *. rewrite indices_succ, try_fold_app, IH by lia.
  cbn [mbind outcome_bind try_fold]. set (r := replay (N.to_nat n) out offset).
  assert (Hr : len r = len out + n) by (unfold r; rewrite len_replay; lia).
  assert (Hi : at_ + (len out - offset) + n = at_ + (len r - offset)) by lia.
  eapply bind_step; [|reflexivity].
  eapply bind_step.
  { apply at_index_Ok. rewrite Hi. apply splice_at; lia. }
  cbv beta. apply set_index_Ok. rewrite len_splice by lia. split; [lia |].
  replace (at_ + len out + n) with (at_ + len r) by lia.
  rewrite splice_snoc by lia. f_equal.
  replace (N.to_nat (n + 1)) with (S (N.to_nat n)) by lia. apply replay_snoc.
Qed.

(** ** The buffer *)
Lemma filled_all dst at_ out :
  at_ + len out <= len dst -> filled dst at_ out = splice at_ out dst.
Proof. intros. unfold filled. by rewrite N.min_l, subslice_all by lia. Qed.
Lemma len_filled dst at_ out : at_ <= len dst -> len (filled dst at_ out) = len dst.
Proof. intros. unfold filled. apply len_splice. rewrite len_subslice; lia. Qed.
(** Once the buffer is full, more output changes nothing. *)
Lemma filled_full dst at_ out more :
  at_ <= len dst -> len dst <= at_ + len out -> filled dst at_ (out ++ more) = filled dst at_ out.
Proof.
  intros. unfold filled. rewrite len_app, !N.min_r by lia. f_equal.
  apply subslice_app_low. lia.
Qed.

(** ** Simulation *)
Lemma rest_cons {A} (l : list A) i x rest :
  subslice i (len l) l = x :: rest ->
  i < len l /\ l !! N.to_nat i = Some x /\ rest = subslice (i + 1) (len l) l.
Proof.
  intros Hs.
  assert (Hi : i < len l).
  { destruct (N.lt_ge_cases i (len l)) as [|Hge]; [done |].
    unfold subslice in Hs. replace (len l - i) with 0 in Hs by lia. done. }
  assert (Hx : l !! N.to_nat i = Some x).
  { apply (f_equal (lookup 0%nat)) in Hs. rewrite subslice_lookup in Hs by lia.
    by rewrite Nat.add_0_r in Hs. }
  split_and!; [done | done |].
  rewrite <- (subslice_split i (i + 1)) in Hs by lia.
  assert (H1 : subslice i (i + 1) l = [x]).
  { unfold subslice. replace (N.to_nat (i + 1 - i)) with 1%nat by lia.
    rewrite (drop_S _ _ _ Hx). done. }
  rewrite H1 in Hs. by injection Hs.
Qed.
Lemma rest_nil {A} (l : list A) i : i <= len l -> subslice i (len l) l = [] -> i = len l.
Proof.
  intros Hi Hs. apply (f_equal len) in Hs. rewrite len_subslice in Hs by lia.
  change (len []) with 0 in Hs. lia.
Qed.

Lemma bits_prefix flags bits input out input' out' :
  bits_meaning flags bits input out = Some (input', out') -> exists more, out' = out ++ more.
Proof.
  revert input out. induction bits as [|bit bits IH]; intros input out; simpl.
  { intros [= <- <-]. exists []. by rewrite app_nil_r. }
  destruct input as [|b rest]; [intros [= <- <-]; exists []; by rewrite app_nil_r |].
  destruct (N.land flags (N.shiftl 1 bit) =? 0).
  { intros (more & ->)%IH. exists ([b] ++ more). by rewrite <- app_assoc. }
  destruct rest as [|b2 rest]; [done |]. cbv zeta.
  destruct (_ <? _); [done |]. intros (more & ->)%IH.
  match goal with |- context [replay ?n out ?o] => destruct (replay_prefix n out o) as [m ->] end.
  exists (m ++ more). by rewrite <- app_assoc.
Qed.
Lemma chunk_prefix fuel input out out' :
  chunk_meaning fuel input out = Some out' -> exists more, out' = out ++ more.
Proof.
  revert input out. induction fuel as [|fuel IH]; intros input out; [done |].
  cbn [chunk_meaning]. destruct input as [|b rest].
  { intros [= <-]. exists []. by rewrite app_nil_r. }
  destruct (bits_meaning _ _ rest out) as [[rest' out1]|] eqn:Hb; [|done].
  cbn. intros (more & ->)%IH. apply bits_prefix in Hb as [m ->].
  exists (m ++ more). by rewrite <- app_assoc.
Qed.

Lemma rest_pair l i b b2 rest :
  subslice i (len l) l = b :: b2 :: rest ->
  i + 2 <= len l /\ @read_le Lznt1Error 2 l i = Ok (le_num [b; b2]) /\
  rest = subslice (i + 2) (len l) l.
Proof.
  intros Hs. pose proof (rest_cons _ _ _ _ Hs) as (Hlt & Hb & Hrest). symmetry in Hrest.
  pose proof (rest_cons _ _ _ _ Hrest) as (Hlt2 & Hb2 & Hrest2).
  split_and!; [lia | | rewrite Hrest2; f_equal; lia].
  apply read_le_Ok. split; [simpl; lia |]. unfold field. f_equal.
  change (N.of_nat 2) with 2. unfold subslice.
  replace (N.to_nat (i + 2 - i)) with 2%nat by lia.
  rewrite (drop_S _ _ _ Hb). simpl. f_equal.
  replace (S (N.to_nat i)) with (N.to_nat (i + 1)) by lia. by rewrite (drop_S _ _ _ Hb2).
Qed.

Section Chunk.
Context (chunk dst0 : list byte) (c0 : N).
Context (Hstart : c0 <= len dst0) (Hdst : len dst0 <= u32_max) (Hchunk : len chunk <= isize_max).

Definition sim (s : chunk_state) (input out : list byte) : Prop :=
  cs_dst s = filled dst0 c0 out /\
  cs_cursor s = c0 + N.min (len out) (len dst0 - c0) /\
  (len out < len dst0 - c0 ->
   cs_in s <= len chunk /\ input = subslice (cs_in s) (len chunk) chunk).

Lemma sim_full s input out input' more :
  sim s input out -> len dst0 - c0 <= len out -> sim s input' (out ++ more).
Proof using Hstart Hdst Hchunk.
  intros (Hd & Hc & _) Hf. split_and!.
  - rewrite filled_full by lia. done.
  - rewrite len_app. lia.
  - rewrite len_app. lia.
Qed.

Lemma match_sim s b b2 rest out :
  sim s (b :: b2 :: rest) out -> len out < len dst0 - c0 ->
  let token := le_num [b; b2] in
  let length_bits := 16 - bit_allocator_u (len out) in
  let length := N.land token (N.shiftl 1 length_bits - 1) + 3 in
  let offset := N.shiftr token length_bits + 1 in
  offset <= len out ->
  exists s', decode_match chunk c0 s = Ok s' /\
    sim s' rest (replay (N.to_nat length) out offset).
Proof using Hstart Hdst Hchunk.
  intros (Hd & Hc & Hin) Hroom. cbv zeta. set (token := le_num [b; b2]).
  set (length_bits := 16 - bit_allocator_u (len out)).
  set (length := N.land token (N.shiftl 1 length_bits - 1) + 3).
  set (offset := N.shiftr token length_bits + 1). intros Hoff.
  pose proof isize_lt_u64 as Hi.
  destruct (Hin Hroom) as [Hle Hsub]. symmetry in Hsub.
  destruct (rest_pair _ _ _ _ _ Hsub) as (Hlt2 & Htok & Hrest2).
  rewrite filled_all in Hd by lia. rewrite N.min_l in Hc by lia.
  assert (Hld : len (cs_dst s) = len dst0) by (rewrite Hd; apply len_splice; lia).
  set (take_ := N.min length (len dst0 - c0 - len out)).
  exists (mkChunkState (splice c0 (replay (N.to_nat take_) out offset) dst0)
    (c0 + len out + take_) (cs_in s + 2)). split.
  - unfold decode_match. rewrite checked_add_in by lia.
    eapply bind_step; [apply refuse_step, N.ltb_ge; lia |]. cbv beta.
    eapply bind_step; [exact Htok |]. cbv beta.
    eapply bind_step; [apply expect_step, checked_add_in; lia |]. cbv beta.
    eapply bind_step; [apply expect_step, checked_sub_in; lia |]. cbv beta.
    replace (cs_cursor s - c0) with (len out) by lia.
    eapply bind_step; [apply ok_or_step, u32_try_from_in; lia |]. cbv beta zeta.
    fold token length_bits. fold length offset.
    eapply bind_step; [apply refuse_step, N.ltb_ge; lia |]. cbv beta.
    eapply bind_step; [apply expect_step, checked_sub_in; lia |]. cbv beta.
    eapply bind_step; [apply expect_step, checked_sub_in; lia |]. cbv beta.
    rewrite Hld. replace (len dst0 - cs_cursor s) with (len dst0 - c0 - len out) by lia.
    fold take_. eapply bind_step.
    { rewrite Hd, Hc. replace (c0 + len out - offset) with (c0 + (len out - offset)) by lia.
      apply copy_match_replay; [unfold offset in *; lia | unfold take_; lia]. }
    cbv beta. eapply bind_step; [apply expect_step, checked_add_in; unfold take_, u32_max, u64_max in *; lia |].
    cbv beta. by rewrite Hc.
  - destruct (replay_prefix (N.to_nat length - N.to_nat take_) (replay (N.to_nat take_) out offset) offset)
      as [m Hm]. rewrite <- replay_add in Hm.
    replace (N.to_nat take_ + (N.to_nat length - N.to_nat take_))%nat with (N.to_nat length) in Hm
      by (unfold take_; lia).
    pose proof (len_replay (N.to_nat take_) out offset) as Hl1.
    pose proof (len_replay (N.to_nat length) out offset) as Hl2. rewrite N2Nat.id in Hl1, Hl2.
    split_and!; cbn [cs_dst cs_cursor cs_in].
    + unfold filled. f_equal. rewrite Hm at 2. rewrite Hl2.
      replace (N.min (len out + length) (len dst0 - c0)) with (len (replay (N.to_nat take_) out offset))
        by (rewrite Hl1; unfold take_; lia).
      symmetry. apply subslice_app_l.
    + rewrite Hl2. unfold take_. lia.
    + intros _. by split; [lia |].
Qed.

Lemma literal_sim s b rest out :
  sim s (b :: rest) out -> len out < len dst0 - c0 ->
  exists s', decode_literal chunk s = Ok s' /\ sim s' rest (out ++ [b]).
Proof using Hstart Hdst Hchunk.
  intros (Hd & Hc & Hin) Hroom. pose proof isize_lt_u64 as Hi.
  destruct (Hin Hroom) as [Hle Hsub]. symmetry in Hsub.
  pose proof (rest_cons _ _ _ _ Hsub) as (Hlt & Hb & Hrest).
  rewrite filled_all in Hd by lia. rewrite N.min_l in Hc by lia.
  assert (Hlen : len (out ++ [b]) = len out + 1) by (by rewrite len_app).
  exists (mkChunkState (splice c0 (out ++ [b]) dst0) (c0 + len out + 1) (cs_in s + 1)). split.
  - unfold decode_literal. eapply bind_step; [by apply at_index_Ok |]. cbv beta.
    eapply bind_step.
    { apply set_index_Ok. rewrite Hd, Hc, len_splice by lia. split; [lia |].
      rewrite splice_snoc by lia. reflexivity. }
    cbv beta. eapply bind_step; [apply expect_step, checked_add_in; lia |]. cbv beta.
    eapply bind_step; [apply expect_step, checked_add_in; unfold u32_max, u64_max in *; lia |].
    cbv beta. by rewrite Hc.
  - split_and!; cbn [cs_dst cs_cursor cs_in].
    + rewrite filled_all by lia. done.
    + rewrite Hlen. lia.
    + intros _. split; [lia | done].
Qed.

Lemma bits_sim flags bits s input out input' out' :
  bits_meaning flags bits input out = Some (input', out') -> sim s input out ->
  exists s', decode_bits chunk c0 flags bits s = Ok s' /\ sim s' input' out'.
Proof using Hstart Hdst Hchunk.
  revert s input out. induction bits as [|bit bits IH]; intros s input out Hm Hs.
  { injection Hm as <- <-. by exists s. }
  destruct (N.le_gt_cases (len dst0 - c0) (len out)) as [Hf|Hroom].
  { destruct (bits_prefix _ _ _ _ _ _ Hm) as [more ->]. exists s.
    split; [|by eapply sim_full]. cbn [decode_bits]. destruct Hs as (Hd & Hc & _).
    rewrite Hd, Hc, len_filled by lia.
    by rewrite (proj2 (N.leb_le (len dst0) _)), orb_true_r by lia. }
  cbn [decode_bits bits_meaning] in *. pose proof Hs as (Hd & Hc & Hin).
  destruct (Hin Hroom) as [Hle Hsub].
  assert (Hfree : (len (cs_dst s) <=? cs_cursor s) = false).
  { apply N.leb_gt. rewrite Hd, Hc, len_filled by lia. lia. }
  rewrite Hfree, orb_false_r.
  destruct input as [|b rest].
  { injection Hm as <- <-. exists s. symmetry in Hsub. apply rest_nil in Hsub; [|done].
    rewrite (proj2 (N.leb_le _ _)) by lia. done. }
  symmetry in Hsub. destruct (rest_cons _ _ _ _ Hsub) as (Hlt & _).
  rewrite (proj2 (N.leb_gt _ _)) by lia.
  destruct (N.land flags (N.shiftl 1 bit) =? 0).
  - destruct (literal_sim s b rest out Hs Hroom) as (s1 & -> & H1). cbn. by eapply IH.
  - destruct rest as [|b2 rest]; [done |]. cbv zeta in Hm.
    destruct (_ <? _) eqn:Ho in Hm; [done |]. apply N.ltb_ge in Ho.
    destruct (match_sim s b b2 rest out Hs Hroom Ho) as (s1 & -> & H1). cbn. by eapply IH.
Qed.
End Chunk.

Lemma chunk_sim chunk dst0 c0 fuel s input out out' :
  c0 <= len dst0 -> len dst0 <= u32_max -> len chunk <= isize_max ->
  chunk_meaning fuel input out = Some out' -> sim chunk dst0 c0 s input out ->
  exists s', decode_chunk fuel chunk c0 s = Ok s' /\
    cs_dst s' = filled dst0 c0 out' /\
    cs_cursor s' = c0 + N.min (len out') (len dst0 - c0).
Proof.
  intros Hc0 Hd0 Hch. pose proof isize_lt_u64 as Hi. revert s input out.
  induction fuel as [|fuel IH]; intros s input out Hm Hs; [done |].
  cbn [decode_chunk]. pose proof Hs as (Hd & Hc & Hin).
  destruct (N.le_gt_cases (len dst0 - c0) (len out)) as [Hf|Hroom].
  { destruct (chunk_prefix _ _ _ _ Hm) as [more ->]. exists s.
    rewrite Hd, len_filled, (proj2 (N.ltb_ge (cs_cursor s) _)), andb_false_r by lia.
    split_and!; [done | by rewrite filled_full by lia | rewrite len_app; lia]. }
  cbn [chunk_meaning] in Hm. destruct (Hin Hroom) as [Hle Hsub]. symmetry in Hsub.
  assert (Hfree : (cs_cursor s <? len (cs_dst s)) = true).
  { apply N.ltb_lt. rewrite Hd, Hc, len_filled by lia. lia. }
  rewrite Hfree, andb_true_r.
  destruct input as [|flags rest].
  { injection Hm as <-. apply rest_nil in Hsub; [|done]. exists s.
    by rewrite (proj2 (N.ltb_ge _ _)) by lia. }
  destruct (rest_cons _ _ _ _ Hsub) as (Hlt & Hb & Hrest).
  rewrite (proj2 (N.ltb_lt _ _)) by done.
  destruct (bits_meaning _ _ rest out) as [[rest' out1]|] eqn:Hbits; [|done]. cbn in Hm.
  destruct (bits_sim chunk dst0 c0 Hc0 Hd0 Hch _ _
    (mkChunkState (cs_dst s) (cs_cursor s) (cs_in s + 1)) _ _ _ _ Hbits) as (s1 & He & Hs1).
  { split_and!; [done | done |]. intros _. split; [simpl; lia | done]. }
  destruct (IH _ _ _ Hm Hs1) as (s2 & He2 & H2). exists s2. split; [|done].
  eapply bind_step; [by apply at_index_Ok |]. cbv beta.
  eapply bind_step; [apply expect_step, checked_add_in; lia |]. cbv beta.
  eapply bind_step; [exact He |]. done.
Qed.

Lemma filled_nil dst at_ : at_ <= len dst -> filled dst at_ [] = dst.
Proof.
  intros Ha. rewrite filled_all by (change (len (@nil byte)) with 0; lia).
  unfold splice. change (len (@nil byte)) with 0. rewrite N.add_0_r. simpl. apply take_drop.
Qed.
Lemma splice_app (dst a b : list byte) at_ :
  at_ + len a + len b <= len dst ->
  splice (at_ + len a) b (splice at_ a dst) = splice at_ (a ++ b) dst.
Proof.
  intros Hl. apply list_eq. intros i.
  rewrite (splice_lookup (at_ + len a)) by (rewrite len_splice; lia).
  rewrite (splice_lookup at_ (a ++ b)), (splice_lookup at_ a) by (rewrite ?len_app; lia).
  rewrite len_app. repeat case_decide; try done; try lia.
  - rewrite lookup_app_r by (unfold len in *; lia). f_equal. unfold len in *. lia.
  - rewrite lookup_app_l; [done |]. unfold len in *. lia.
Qed.
Lemma filled_app dst acc data :
  len acc <= len dst ->
  filled (filled dst 0 acc) (len acc) data = filled dst 0 (acc ++ data).
Proof.
  intros Ha. rewrite (filled_all dst 0 acc) by lia.
  unfold filled. rewrite len_splice by lia. rewrite len_app, N.sub_0_r.
  replace (N.min (len acc + len data) (len dst)) with (len acc + N.min (len data) (len dst - len acc))
    by lia.
  assert (Hp : subslice 0 (len acc + N.min (len data) (len dst - len acc)) (acc ++ data) =
    acc ++ subslice 0 (N.min (len data) (len dst - len acc)) data).
  { rewrite <- (subslice_split 0 (len acc)) by lia. rewrite subslice_app_l. f_equal.
    rewrite subslice_skip by lia. f_equal; lia. }
  rewrite Hp. pose proof (splice_app dst acc
    (subslice 0 (N.min (len data) (len dst - len acc)) data) 0) as Hs.
  rewrite N.add_0_l in Hs. apply Hs. rewrite len_subslice by lia. lia.
Qed.

Lemma unit_sim mfuel fuel src dst0 src_cursor acc out :
  len src <= isize_max -> len dst0 <= u32_max -> src_cursor <= len src ->
  (N.to_nat (len src - src_cursor) < fuel)%nat ->
  unit_meaning mfuel (subslice src_cursor (len src) src) = Some out ->
  unit_loop fuel src src_cursor (filled dst0 0 acc) (N.min (len acc) (len dst0)) =
  Ok (N.min (len (acc ++ out)) (len dst0), filled dst0 0 (acc ++ out)).
Proof.
  intros Hsrc Hd0. pose proof isize_lt_u64 as Hi. revert fuel src_cursor acc out.
  induction mfuel as [|mfuel IH]; intros fuel src_cursor acc out Hc Hf Hm; [done |].
  destruct fuel as [|fuel]; [lia |]. cbn [unit_loop].
  assert (Hlf : len (filled dst0 0 acc) = len dst0) by (apply len_filled; lia). rewrite Hlf.
  destruct (N.le_gt_cases (len dst0) (len acc)) as [Hfull|Hroom].
  { rewrite N.min_r, (proj2 (N.ltb_ge _ _)), andb_false_r by lia.
    rewrite filled_full, len_app, N.min_r by lia. done. }
  rewrite N.min_l, (proj2 (N.ltb_lt (len acc) _)), andb_true_r by lia.
  cbn [unit_meaning] in Hm.
  destruct (subslice src_cursor (len src) src) as [|h0 [|h1 rest]] eqn:Hsub.
  { injection Hm as <-. apply rest_nil in Hsub; [|done]. rewrite app_nil_r.
    rewrite (proj2 (N.leb_gt _ _)) by (unfold saturating_add; lia). by rewrite N.min_l by lia. }
  { injection Hm as <-. destruct (rest_cons _ _ _ _ Hsub) as (Hlt & _ & Hr). symmetry in Hr.
    apply rest_nil in Hr; [|lia]. rewrite app_nil_r.
    rewrite (proj2 (N.leb_gt _ _)) by (unfold saturating_add; lia). by rewrite N.min_l by lia. }
  destruct (rest_pair _ _ _ _ _ Hsub) as (Hlt & Hread & Hrest).
  rewrite saturating_add_in, (proj2 (N.leb_le _ _)) by lia. rewrite Hread.
  cbn [mbind outcome_bind] in *. set (header := le_num [h0; h1]) in *.
  destruct (header =? 0).
  { injection Hm as <-. rewrite app_nil_r. by rewrite N.min_l by lia. }
  set (chunk_len := N.land header 4095 + 1) in *. cbv zeta in Hm.
  destruct (N.ltb_spec (len rest) chunk_len) as [|Hfit]; [done |].
  assert (Hlr : len rest = len src - (src_cursor + 2)) by (rewrite Hrest, len_subslice; lia).
  assert (Hpos : 0 < chunk_len) by (unfold chunk_len; lia).
  assert (Hchunk : subslice 0 chunk_len rest = subslice (src_cursor + 2) (src_cursor + 2 + chunk_len) src)
    by (rewrite Hrest, subslice_subslice, N.add_0_r by lia; done).
  assert (Hnext : subslice chunk_len (len rest) rest =
    subslice (src_cursor + 2 + chunk_len) (len src) src).
  { rewrite Hrest at 2. rewrite subslice_subslice by lia. f_equal. lia. }
  rewrite Hchunk, Hnext in Hm.
  eapply bind_step; [apply expect_step, checked_add_in; lia |]. cbv beta zeta.
  eapply bind_step; [apply ok_or_step, checked_add_in; fold chunk_len; lia |]. cbv beta. fold chunk_len.
  eapply bind_step; [apply refuse_step, N.ltb_ge; lia |]. cbv beta.
  eapply bind_step; [apply index_range_in; lia |]. cbv beta.
  set (chunk := subslice (src_cursor + 2) (src_cursor + 2 + chunk_len) src) in *.
  assert (Hlc : len chunk = chunk_len) by (unfold chunk; rewrite len_subslice; lia).
  destruct (negb _).
  - destruct (chunk_meaning _ chunk []) as [data|] eqn:Hdata; [|done]. cbn in Hm.
    destruct (unit_meaning mfuel _) as [more|] eqn:Hmore; [|done]. injection Hm as <-.
    destruct (chunk_sim chunk (filled dst0 0 acc) (len acc) (S (length chunk))
      (mkChunkState (filled dst0 0 acc) (len acc) 0) chunk [] data) as (s & He & Hds & Hcs);
      [lia | lia | lia | exact Hdata | |].
    { split_and!; cbn [cs_dst cs_cursor cs_in].
      - by rewrite filled_nil by lia.
      - change (len (@nil byte)) with 0. lia.
      - intros _. split; [lia | by rewrite subslice_all]. }
    eapply bind_step; [exact He |]. cbv beta.
    rewrite Hds, Hcs, Hlf, filled_app, app_assoc by lia.
    replace (len acc + N.min (len data) (len dst0 - len acc)) with (N.min (len (acc ++ data)) (len dst0))
      by (rewrite len_app; lia).
    apply IH; [lia | lia | done].
  - cbn in Hm. destruct (unit_meaning mfuel _) as [more|] eqn:Hmore; [|done]. injection Hm as <-.
    eapply bind_step; [apply expect_step, checked_sub_in; lia |]. cbv beta zeta.
    eapply bind_step; [apply index_range_in; lia |]. cbv beta.
    eapply bind_step; [apply expect_step, checked_add_in; unfold u32_max, u64_max in *; lia |]. cbv beta.
    eapply bind_step.
    { apply copy_from_slice_Ok. rewrite len_subslice by lia. rewrite Hlf.
      split_and!; [lia | lia | lia | reflexivity]. }
    cbv beta. rewrite <- Hlc.
    replace (splice (len acc) (subslice 0 (N.min (len chunk) (len dst0 - len acc)) chunk) (filled dst0 0 acc))
      with (filled (filled dst0 0 acc) (len acc) chunk) by (unfold filled at 1; by rewrite Hlf).
    rewrite filled_app, app_assoc by lia.
    replace (len acc + N.min (len chunk) (len dst0 - len acc)) with (N.min (len (acc ++ chunk)) (len dst0))
      by (rewrite len_app; lia).
    apply IH; [lia | lia | by rewrite Hlc].
Qed.

Lemma isize_room : isize_max + 8192 <= u64_max.
Proof. by vm_compute. Qed.

(** ** Totality *)
Definition keeps_outside (dst0 : list byte) (lo hi : N) (dst : list byte) : Prop :=
  len dst = len dst0 /\
  forall i, i < lo \/ hi <= i -> dst !! N.to_nat i = dst0 !! N.to_nat i.

Lemma keeps_trans dst0 dst1 dst2 lo mid hi :
  keeps_outside dst0 lo mid dst1 -> keeps_outside dst1 mid hi dst2 -> lo <= mid <= hi ->
  keeps_outside dst0 lo hi dst2.
Proof.
  intros [Hl1 H1] [Hl2 H2] Hm. split; [congruence |]. intros i Hi.
  rewrite H2 by lia. apply H1. lia.
Qed.
Lemma keeps_refl dst lo hi : keeps_outside dst lo hi dst.
Proof. by split. Qed.
Lemma keeps_insert dst lo hi i b :
  lo <= i < hi -> keeps_outside dst lo hi (<[N.to_nat i := b]> dst).
Proof.
  intros Hi. split; [apply len_insert |]. intros j Hj. apply list_lookup_insert_ne. lia.
Qed.
Lemma keeps_splice dst lo src :
  lo + len src <= len dst -> keeps_outside dst lo (lo + len src) (splice lo src dst).
Proof.
  intros Hl. split; [by apply len_splice |]. intros i Hi.
  rewrite splice_lookup by done. by rewrite decide_False by lia.
Qed.

Lemma copy_match_total dst src_pos cursor take_ :
  src_pos <= cursor -> cursor + take_ <= len dst ->
  yields (keeps_outside dst cursor (cursor + take_)) (copy_match dst src_pos cursor take_).
Proof.
  intros Hs Hl. unfold copy_match. apply yields_fold; [apply keeps_refl |].
  intros d i Hi%elem_of_indices [Hld Hd].
  apply yields_then; [apply at_index_safe; lia |]. intros b _.
  unfold set_index. rewrite (proj2 (N.ltb_lt _ _)) by lia. simpl. split.
  - by rewrite len_insert.
  - intros j Hj. rewrite list_lookup_insert_ne by lia. by apply Hd.
Qed.

Section Total.
Context (chunk : list byte) (dst0 : list byte) (c0 : N).
Context (Hchunk : len chunk <= isize_max) (Hdst : len dst0 <= isize_max).

Definition in_bounds (s : chunk_state) : Prop :=
  c0 <= cs_cursor s <= len dst0 /\ cs_in s <= len chunk /\
  keeps_outside dst0 c0 (cs_cursor s) (cs_dst s).

Definition advances (s s' : chunk_state) : Prop := in_bounds s' /\ cs_in s <= cs_in s'.

Lemma decode_literal_total s :
  in_bounds s -> cs_in s < len chunk -> cs_cursor s < len dst0 ->
  yields (advances s) (decode_literal chunk s).
Proof using Hchunk Hdst.
  intros (Hc & Hin & Hk) Hlt Hroom. pose proof isize_room. unfold decode_literal.
  apply yields_then; [by apply at_index_safe |]. intros b _.
  unfold set_index. rewrite (proj1 Hk), (proj2 (N.ltb_lt _ _)) by lia. cbn [mbind outcome_bind].
  apply yields_then; [apply add_u64_safe; lia |]. intros ? H1. inv_ok.
  apply yields_then; [apply add_u64_safe; lia |]. intros ? H2. inv_ok.
  split; [|simpl; lia]. split_and!; simpl; [lia | lia | lia |].
  eapply keeps_trans; [exact Hk | apply keeps_insert; lia | lia].
Qed.

Lemma decode_match_total s :
  in_bounds s -> cs_cursor s < len dst0 -> yields (advances s) (decode_match chunk c0 s).
Proof using Hchunk Hdst.
  intros (Hc & Hin & Hk) Hroom. pose proof isize_room. unfold decode_match.
  apply yields_then; [apply refuse_if_safe |]. intros [] Hr. apply refuse_if_Ok in Hr.
  rewrite checked_add_in in Hr by lia. bool_props.
  apply yields_then; [apply read_le_safe; simpl; lia |]. intros token _.
  apply yields_then; [apply add_u64_safe; lia |]. intros ? H1. inv_ok.
  apply yields_then; [apply sub_u64_safe; lia |]. intros ? H2. inv_ok.
  apply yields_then; [apply ok_or_safe |]. intros ? H3. inv_ok. cbv zeta.
  apply yields_then; [apply refuse_if_safe |]. intros [] Ho. apply refuse_if_Ok in Ho. bool_props.
  apply yields_then; [apply sub_u64_safe; lia |]. intros ? H4. inv_ok.
  rewrite (proj1 Hk).
  apply yields_then; [apply sub_u64_safe; lia |]. intros ? H5. inv_ok.
  eapply yields_bind; [apply copy_match_total; rewrite ?(proj1 Hk); lia |]. intros dst Hd.
  apply yields_then; [apply add_u64_safe; lia |]. intros ? H6. inv_ok.
  split; [|simpl; lia]. split_and!; simpl; [lia | lia | lia |].
  eapply keeps_trans; [exact Hk | exact Hd | lia].
Qed.

Lemma decode_bits_total flags bits s :
  in_bounds s -> yields (advances s) (decode_bits chunk c0 flags bits s).
Proof using Hchunk Hdst.
  revert s. induction bits as [|bit bits IH]; intros s Hs; cbn [decode_bits]; [by split |].
  destruct (N.leb_spec (len chunk) (cs_in s)) as [|Hlt]; [by split |].
  destruct (N.leb_spec (len (cs_dst s)) (cs_cursor s)) as [|Hroom]; [by split |]. cbn [orb].
  pose proof (proj1 (proj2 (proj2 Hs))) as Hl. rewrite Hl in Hroom.
  apply (yields_bind _ (advances s)).
  - destruct (_ =? 0); [by apply decode_literal_total | by apply decode_match_total].
  - intros s1 [Hb1 Hi1]. eapply yields_weaken; [by apply IH |].
    intros s2 [Hb2 Hi2]. split; [done | lia].
Qed.

Lemma decode_chunk_total fuel s :
  in_bounds s -> (N.to_nat (len chunk - cs_in s) < fuel)%nat ->
  yields in_bounds (decode_chunk fuel chunk c0 s).
Proof using Hchunk Hdst.
  revert s. induction fuel as [|fuel IH]; intros s Hs Hf; [lia |]. cbn [decode_chunk].
  destruct (N.ltb_spec (cs_in s) (len chunk)) as [Hlt|]; [|done].
  destruct (_ <? _); [|done]. cbn [andb]. pose proof isize_room.
  apply yields_then; [by apply at_index_safe |]. intros flags _.
  apply yields_then; [apply add_u64_safe; lia |]. intros ? H1. inv_ok.
  destruct Hs as (Hc & Hin & Hk).
  eapply yields_bind; [apply decode_bits_total; split_and!; simpl; (lia || done) |].
  intros s1 [Hb1 Hi1]. simpl in Hi1. apply IH; [done | lia].
Qed.
End Total.

Lemma unit_loop_total fuel src dst0 src_cursor dst dst_cursor :
  len src <= isize_max -> len dst0 <= isize_max -> src_cursor <= len src ->
  dst_cursor <= len dst0 -> keeps_outside dst0 0 dst_cursor dst ->
  (N.to_nat (len src - src_cursor) < fuel)%nat ->
  yields (fun r => fst r <= len dst0 /\ keeps_outside dst0 0 (fst r) (snd r))
    (unit_loop fuel src src_cursor dst dst_cursor).
Proof.
  intros Hsrc Hd0. pose proof isize_room. revert src_cursor dst dst_cursor.
  induction fuel as [|fuel IH]; intros src_cursor dst dst_cursor Hs Hd Hk Hf; [lia |].
  cbn [unit_loop]. rewrite saturating_add_in by lia.
  destruct (N.leb_spec (src_cursor + 2) (len src)) as [H2|]; [|done].
  destruct (N.ltb_spec dst_cursor (len dst)) as [Hroom|]; [|done]. cbn [andb].
  rewrite (proj1 Hk) in Hroom.
  apply yields_then; [apply read_le_safe; simpl; lia |]. intros header _.
  destruct (header =? 0); [done |].
  apply yields_then; [apply add_u64_safe; lia |]. intros ? H1. inv_ok. cbv zeta.
  apply yields_then; [apply ok_or_safe |]. intros end_ He. inv_ok.
  apply yields_then; [apply refuse_if_safe |]. intros [] Hr. apply refuse_if_Ok in Hr. bool_props.
  set (chunk_len := N.land header 4095 + 1) in *.
  rewrite index_range_in by lia. cbn [mbind outcome_bind].
  set (chunk := subslice (src_cursor + 2) (src_cursor + 2 + chunk_len) src).
  assert (Hlc : len chunk = chunk_len) by (unfold chunk; rewrite len_subslice; lia).
  destruct (negb _).
  - eapply yields_bind.
    { apply (decode_chunk_total chunk dst dst_cursor); [lia | rewrite (proj1 Hk); lia | |].
      - split_and!; simpl; [lia | rewrite (proj1 Hk); lia | lia | apply keeps_refl].
      - simpl. unfold len. lia. }
    intros s (Hc & _ & Hks). rewrite (proj1 Hk) in Hc. apply IH; [lia | lia | | lia].
    eapply keeps_trans; [exact Hk | exact Hks | lia].
  - rewrite (proj1 Hk). apply yields_then; [apply sub_u64_safe; lia |]. intros ? H3. inv_ok.
    cbv zeta. rewrite index_range_in by lia. cbn [mbind outcome_bind].
    apply yields_then; [apply add_u64_safe; lia |]. intros ? H4. inv_ok.
    assert (Hlp : len (subslice 0 (N.min chunk_len (len dst0 - dst_cursor)) chunk) =
      N.min chunk_len (len dst0 - dst_cursor)) by (rewrite len_subslice; lia).
    eapply yields_bind with (Q := keeps_outside dst dst_cursor
      (dst_cursor + N.min chunk_len (len dst0 - dst_cursor))).
    { apply yields_intro; [apply copy_from_slice_safe; rewrite ?(proj1 Hk), ?Hlp; lia |].
      intros d (_ & _ & _ & ->)%copy_from_slice_Ok. rewrite <- Hlp at 1.
      apply keeps_splice. rewrite (proj1 Hk), Hlp. lia. }
    intros d Hkd. apply IH; [lia | lia | | lia].
    eapply keeps_trans; [exact Hk | exact Hkd | lia].
Qed.

Section MaterializeTotal.
Context {E : Type} (from : Lznt1Error -> E) (read_physical : N -> N -> outcome E (list byte)).
Context (Hread : forall at_ n, read_physical at_ n <> Panic).

Definition payload_ok (p : list byte * N * N) : Prop :=
  len (fst (fst p)) = snd (fst p) /\ len (fst (fst p)) <= isize_max.

Lemma collect_total extents stream cu_start window_end :
  yields payload_ok (collect_cu_payload from read_physical extents stream cu_start window_end).
Proof using Hread.
  unfold collect_cu_payload. apply yields_fold; [done |].
  intros [[physical physical_bytes] sparse_bytes] e _ Hp. unfold collect_extent.
  apply yields_then; [apply ok_or_safe |]. intros end_ He. inv_ok. cbv zeta.
  destruct (N.leb_spec (N.min (ex_logical_offset e + ex_length e) window_end)
    (N.max (ex_logical_offset e) cu_start)); [done |].
  apply yields_then; [apply sub_u64_safe; lia |]. intros overlap Ho. inv_ok.
  destruct (ex_placement e).
  2: { apply yields_then; [apply ok_or_safe |]. intros ? Hs. by inv_ok. }
  apply yields_then; [apply sub_u64_safe; lia |]. intros skip Hs. inv_ok.
  apply yields_then; [apply ok_or_safe |]. intros read_at Hr. inv_ok.
  apply yields_then; [apply ok_or_safe |]. intros take_ Ht. inv_ok.
  apply yields_then; [apply Hread |]. intros bytes _.
  apply yields_then; [apply refuse_if_safe |]. intros [] Hl. apply refuse_if_Ok in Hl. bool_props.
  apply yields_then; [apply refuse_if_safe |]. intros [] Hcap. apply refuse_if_Ok in Hcap. bool_props.
  apply yields_then; [apply ok_or_safe |]. intros ? Hs'. inv_ok.
  unfold payload_ok in *. simpl in *. rewrite len_app. lia.
Qed.

Lemma copy_part_total (source destination : list byte) dest_start copy :
  dest_start + copy <= len destination -> len destination <= isize_max ->
  yields (keeps_outside destination dest_start (dest_start + copy))
    (part ← @index_range E byte 0 (N.min copy (len source)) source;
     after ← add_u64 dest_start (N.min copy (len source));
     copy_from_slice dest_start after part destination).
Proof using from.
  clear Hread. intros Hfit Hd. pose proof isize_room. rewrite index_range_in by lia. cbn [mbind outcome_bind].
  apply yields_then; [apply add_u64_safe; lia |]. intros after Ha. inv_ok.
  assert (Hlp : len (subslice 0 (N.min copy (len source)) source) = N.min copy (len source))
    by (rewrite len_subslice; lia).
  apply yields_intro; [apply copy_from_slice_safe; rewrite ?Hlp; lia |].
  intros d (_ & _ & _ & ->)%copy_from_slice_Ok.
  destruct (keeps_splice destination dest_start (subslice 0 (N.min copy (len source)) source))
    as [Hl Hk]; [lia |]. split; [done |]. intros i Hi. apply Hk. lia.
Qed.

Lemma materialize_unit_total block window payload copy dest_start destination :
  payload_ok payload -> block <= isize_max ->
  dest_start + copy <= len destination -> len destination <= isize_max ->
  yields (keeps_outside destination dest_start (dest_start + copy))
    (materialize_unit from block window payload copy dest_start destination).
Proof using from.
  clear Hread. destruct payload as [[physical physical_bytes] sparse_bytes]. intros [_ Hp] Hb Hfit Hd.
  unfold materialize_unit. destruct (_ && _); [by apply copy_part_total |].
  apply yields_then.
  - apply map_err_safe. eapply yields_safe. apply unit_loop_total; [done | | lia | lia | apply keeps_refl |].
    + by rewrite len_replicate, N2Nat.id.
    + unfold len. lia.
  - intros [n unit_] _. by apply copy_part_total.
Qed.

Definition zero_from (lo dest_len : N) (destination : list byte) : Prop :=
  len destination = dest_len /\
  forall i, lo <= i < dest_len -> destination !! N.to_nat i = Some x00.

Lemma materialize_loop_total fuel extents stream cbb logical_end dest_len cu_start destination :
  0 < cbb <= isize_max -> dest_len <= isize_max -> logical_end <= dest_len ->
  (N.to_nat (logical_end - cu_start) < fuel)%nat -> zero_from logical_end dest_len destination ->
  yields (zero_from logical_end dest_len)
    (materialize_loop from read_physical fuel extents stream cbb cbb logical_end dest_len
       cu_start destination).
Proof using Hread from.
  intros Hcbb Hdl Hle. pose proof isize_room. revert cu_start destination.
  induction fuel as [|fuel IH]; intros cu_start destination Hf Hz; [lia |].
  cbn [materialize_loop]. destruct (N.ltb_spec cu_start logical_end) as [Hlt|]; [|done].
  apply yields_then; [apply ok_or_safe |]. intros window_end Hw. inv_ok.
  eapply yields_bind; [apply collect_total |]. intros payload Hp.
  apply yields_then; [apply ok_or_safe |]. intros ? Hs. inv_ok.
  destruct (N.leb_spec dest_len cu_start); [lia |].
  apply yields_then; [apply sub_u64_safe; lia |]. intros ? H1. inv_ok.
  apply yields_then; [apply sub_u64_safe; lia |]. intros ? H2. inv_ok.
  rewrite (u64_try_from_in (dest_len - cu_start)) by lia. simpl default.
  apply yields_then; [apply ok_or_safe |]. intros ? H3. inv_ok.
  destruct (snd (fst payload) =? 0); [apply IH; [lia | done] |].
  apply yields_then; [apply sub_u64_safe; lia |]. intros ? H4. inv_ok.
  destruct Hz as [Hl Hz].
  eapply yields_bind; [apply materialize_unit_total; [done | lia | lia | lia] |].
  intros d [Hld Hd]. apply IH; [lia |]. split; [lia |]. intros i Hi.
  rewrite Hd by lia. by apply Hz.
Qed.
End MaterializeTotal.

(** ** The format is what the decoder reads *)
Lemma offset_width_bounds emitted :
  let w := offset_width emitted in
  4 <= w <= 12 /\ (4 < w -> 2 ^ (w - 1) < emitted) /\ (w < 12 -> emitted <= 2 ^ w).
Proof.
  cbv zeta. unfold offset_width. split_and!; [lia | lia | |].
  - intros Hw. destruct (N.lt_ge_cases 1 emitted) as [H1|]; [|by rewrite N.log2_up_eqn0 in Hw by lia].
    destruct (N.log2_up_spec emitted H1) as [Hlo _]. eapply N.le_lt_trans; [|exact Hlo].
    apply N.pow_le_mono_r; lia.
  - intros Hw. destruct (N.lt_ge_cases 1 emitted) as [H1|].
    + destruct (N.log2_up_spec emitted H1) as [_ Hhi]. etrans; [exact Hhi |].
      apply N.pow_le_mono_r; lia.
    + etrans; [exact H |]. change 1 with (2 ^ 0). apply N.pow_le_mono_r; lia.
Qed.

Lemma allocator_off_step emitted : off_step emitted -> bit_allocator_u emitted = offset_width emitted.
Proof.
  intros Hs. destruct (bit_allocator_spec emitted) as (Hb & Hbh & Hbl).
  destruct (offset_width_bounds emitted) as (Hw & Hwl & Hwh).
  set (b := bit_allocator_u emitted) in *. set (w := offset_width emitted) in *.
  assert (Hmono : forall x y, x <= y -> 2 ^ x <= 2 ^ y) by (intros; apply N.pow_le_mono_r; lia).
  destruct (N.lt_trichotomy b w) as [Hlt|[->|Hgt]]; [exfalso | done | exfalso].
  - specialize (Hbh ltac:(lia)). specialize (Hwl ltac:(lia)).
    specialize (Hmono b (w - 1) ltac:(lia)). lia.
  - specialize (Hbl ltac:(lia)). specialize (Hwh ltac:(lia)).
    specialize (Hmono w (b - 1) ltac:(lia)). apply (Hs w); lia.
Qed.

(** The token of a match has its two fields back. *)
Lemma match_token_fields emitted offset length :
  match_fits emitted offset length -> off_step emitted ->
  let token := match_token emitted offset length in
  let length_bits := 16 - bit_allocator_u emitted in
  token <= u16_max /\ N.land token (N.shiftl 1 length_bits - 1) + 3 = length /\
  N.shiftr token length_bits + 1 = offset.
Proof.
  intros [Ho Hl] Hs. cbv zeta. rewrite allocator_off_step by done.
  destruct (offset_width_bounds emitted) as (Hw & _). unfold match_token.
  set (w := offset_width emitted) in *. set (n := 16 - w) in *.
  assert (Hp : 2 ^ w * 2 ^ n = 65536).
  { rewrite <- N.pow_add_r. by replace (w + n) with 16 by (unfold n; lia). }
  replace (N.shiftl 1 n - 1) with (N.ones n) by (rewrite N.shiftl_1_l, N.ones_equiv; lia).
  rewrite N.land_ones, N.shiftr_div_pow2.
  assert (Hn : 2 ^ n <> 0) by (apply N.pow_nonzero; lia).
  rewrite N.add_comm, N.Div0.mod_add, N.mod_small, N.div_add, N.div_small by lia.
  split_and!; [|lia | lia]. unfold u16_max.
  assert ((offset - 1) * 2 ^ n <= (2 ^ w - 1) * 2 ^ n) by (apply N.mul_le_mono_r; lia). nia.
Qed.

Lemma flag_bit flags i :
  (N.land flags (N.shiftl 1 (N.of_nat i)) =? 0) = negb (N.testbit flags (N.of_nat i)).
Proof. by rewrite <- test_bit, negb_involutive. Qed.

Lemma items_read flags i out bytes j out' : items off_step flags i out bytes j out' ->
  (j <= 8)%nat -> forall more, j = 8%nat \/ more = [] ->
  bits_meaning flags (drop i (indices 8)) (bytes ++ more) out = Some (more, out').
Proof.
  assert (Hbit : forall i, (i < 8)%nat -> drop i (indices 8) = N.of_nat i :: drop (S i) (indices 8)).
  { intros k Hk. apply drop_S. do 8 (destruct k as [|k]; [done |]). lia. }
  assert (Hle : forall i out bytes j out', items off_step flags i out bytes j out' -> (i <= j)%nat).
  { induction 1; lia. }
  induction 1 as [i out|i out b bytes j out' Hb Hi IH|i out offset length bytes j out' Hb Hf Ha Hi IH];
    intros Hj more Hm.
  - destruct (decide (i = 8%nat)) as [->|]; [done |]. destruct Hm as [ | -> ]; [done |].
    by rewrite Hbit by lia.
  - pose proof (Hle _ _ _ _ _ Hi). rewrite Hbit by lia. cbn [bits_meaning app].
    rewrite flag_bit, Hb. by apply IH.
  - pose proof (Hle _ _ _ _ _ Hi). rewrite Hbit by lia.
    destruct (match_token_fields _ _ _ Hf Ha) as (Ht & Hlen & Hoff).
    set (token := match_token (len out) offset length) in *.
    pose proof (le_num_u16 token Ht) as Hle16.
    assert (Hu : exists b0 b1, u16_le token = [b0; b1]) by (by do 2 eexists).
    destruct Hu as (b0 & b1 & Hu). rewrite Hu in *.
    cbn [bits_meaning app]. rewrite flag_bit, Hb. cbn [negb]. rewrite Hle16, Hlen, Hoff.
    rewrite (proj2 (N.ltb_ge _ _)) by (destruct Hf as [? _]; lia). by apply IH.
Qed.

Lemma compressed_read out bytes out' : compressed off_step out bytes out' ->
  forall fuel, (length bytes < fuel)%nat -> chunk_meaning fuel bytes out = Some out'.
Proof.
  induction 1 as [out|out flags bytes j mid more out' Hi Hj Hm Hc IH]; intros [|fuel] Hf; try lia; [done |].
  cbn [chunk_meaning]. pose proof (items_read _ _ _ _ _ _ Hi Hj more Hm) as Hb.
  rewrite drop_0 in Hb. rewrite Hb. cbn. apply IH. simpl in Hf. rewrite length_app in Hf. lia.
Qed.

Lemma header_fields signature is_compressed data :
  header_fits signature is_compressed data ->
  let header := chunk_header signature is_compressed data in
  header <= u16_max /\ N.land header 4095 + 1 = len data /\
  negb (N.land header 32768 =? 0) = is_compressed.
Proof.
  intros (Hl & Hs & _). cbv zeta. change 4095 with (N.ones 12). rewrite N.land_ones.
  change 32768 with (N.shiftl 1 15). rewrite test_bit, N.testbit_eqb.
  unfold chunk_header, u16_max. change (2 ^ 12) with 4096. change (2 ^ 15) with 32768.
  destruct is_compressed; cbn [N.b2n]; split_and!; try lia.
  - replace (len data - 1 + 4096 * signature + 32768 * 1) with (len data - 1 + (signature + 8) * 4096) by lia.
    rewrite N.Div0.mod_add, N.mod_small; lia.
  - rewrite (N.mul_comm 32768), N.div_add, N.div_small by lia. done.
  - replace (len data - 1 + 4096 * signature + 32768 * 0) with (len data - 1 + signature * 4096) by lia.
    rewrite N.Div0.mod_add, N.mod_small; lia.
  - rewrite N.mul_0_r, N.add_0_r, N.div_small by lia. done.
Qed.

Lemma lznt1_read src out : lznt1 off_step src out ->
  forall fuel, (length src < fuel)%nat -> unit_meaning fuel src = Some out.
Proof.
  assert (Hpair : forall v l, exists h0 h1, u16_le v ++ l = h0 :: h1 :: l /\ u16_le v = [h0; h1]).
  { intros v l. by do 2 eexists. }
  assert (Hread : forall signature flag data rest,
    header_fits signature flag data -> exists h0 h1,
      u16_le (chunk_header signature flag data) ++ data ++ rest = h0 :: h1 :: (data ++ rest) /\
      le_num [h0; h1] = chunk_header signature flag data).
  { intros signature flag data rest Hf. destruct (Hpair (chunk_header signature flag data) (data ++ rest))
      as (h0 & h1 & -> & He). exists h0, h1. split; [done |]. rewrite <- He. apply le_num_u16.
    apply (header_fields _ _ _ Hf). }
  induction 1 as [src Hs|rest|signature data rest out Hf Hr IH|signature data text rest out Hf Hc Hr IH];
    intros [|fuel] Hfu; try lia.
  - cbn [unit_meaning]. destruct src as [|h0 [|h1 src]]; [done | done |].
    unfold len in Hs. simpl in Hs. lia.
  - done.
  - destruct (Hread signature false data rest Hf) as (h0 & h1 & Hb & Hh). rewrite Hb in *.
    cbn [unit_meaning]. rewrite Hh. destruct (header_fields _ _ _ Hf) as (_ & Hl & Hbit).
    rewrite (proj2 (N.eqb_neq _ 0)) by (destruct Hf as (_ & _ & ?); lia). rewrite Hl, Hbit.
    rewrite (proj2 (N.ltb_ge _ _)) by (rewrite len_app; lia).
    rewrite (subslice_prefix data rest (len data)) by done. rewrite (subslice_after data rest) with (n := len data) by done.
    rewrite len_app, N.sub_diag. replace (len data + len rest - len data) with (len rest) by lia.
    rewrite subslice_all. cbn [mbind option_bind].
    rewrite IH; [done |]. simpl in Hfu. rewrite length_app in Hfu. lia.
  - destruct (Hread signature true data rest Hf) as (h0 & h1 & Hb & Hh). rewrite Hb in *.
    cbn [unit_meaning]. rewrite Hh. destruct (header_fields _ _ _ Hf) as (_ & Hl & Hbit).
    rewrite (proj2 (N.eqb_neq _ 0)) by (destruct Hf as (_ & _ & ?); lia). rewrite Hl, Hbit.
    rewrite (proj2 (N.ltb_ge _ _)) by (rewrite len_app; lia).
    rewrite (subslice_prefix data rest (len data)) by done. rewrite (subslice_after data rest) with (n := len data) by done.
    rewrite len_app, N.sub_diag. replace (len data + len rest - len data) with (len rest) by lia.
    rewrite subslice_all, (compressed_read _ _ _ Hc) by lia. cbn [mbind option_bind].
    rewrite IH; [done |]. simpl in Hfu. rewrite length_app in Hfu. lia.
Qed.

(** * Theorems *)

(** C20: the decoder reads the format.  Take any unit of LZNT1 as MS-XCA 2.5
    describes it ([lznt1]: stored and compressed chunks, flag bytes, literals, and
    matches whose offset field has the documented width), in which no match
    starts exactly 16, 32, ..., 2048 bytes into its chunk, where the decoder's
    width rule is off by one.  Decoding it into a buffer of any length succeeds,
    reports the number of bytes that fit, writes exactly that prefix of the text
    the unit encodes, and leaves the bytes of the buffer behind it as they were. *)
Theorem decompress_unit_meaning src dst text :
  len src <= isize_max -> len dst <= u32_max -> lznt1 off_step src text ->
  let n := N.min (len text) (len dst) in
  decompress_unit src dst = Ok (n, splice 0 (subslice 0 n text) dst).
Proof.
  intros Hs Hd Hm. cbv zeta. apply lznt1_read with (fuel := S (length src)) in Hm; [|lia].
  pose proof (unit_sim (S (length src)) (S (length src)) src dst 0 [] text Hs Hd ltac:(lia) ltac:(unfold len; lia)) as H.
  rewrite subslice_all in H. specialize (H Hm). rewrite filled_nil in H by lia.
  change (len (@nil byte)) with 0 in H. rewrite N.min_0_l in H. simpl app in H.
  unfold filled in H. unfold decompress_unit. by rewrite N.sub_0_r in H.
Qed.

(** decoding is total.  Whatever the compressed bytes, the decoder neither
    panics nor runs forever nor writes outside the buffer: it returns an error, or
    a count within the buffer behind which nothing has changed. *)
Theorem decompress_unit_total src dst :
  len src <= isize_max -> len dst <= isize_max ->
  yields (fun r => fst r <= len dst /\ keeps_outside dst 0 (fst r) (snd r))
    (decompress_unit src dst).
Proof.
  intros Hs Hd. apply unit_loop_total; [done | done | lia | lia | apply keeps_refl |].
  unfold len. lia.
Qed.

(** a rebuilt stream never shows stale data.  For any extents, any unit size
    and any reader that does not abort, rebuilding a compressed stream returns an
    error or a buffer of the requested length that is zero from the initialized
    size on, however much the units decode to. *)
Theorem materialized_tail_is_zero E (from : Lznt1Error -> E) read_physical extents stream
    compression_block_bytes initialized_bytes dest_len :
  (forall at_ n, read_physical at_ n <> Panic) -> dest_len <= isize_max ->
  yields (zero_from (N.min initialized_bytes dest_len) dest_len)
    (materialize_ntfs_compressed_stream from read_physical extents stream
       compression_block_bytes initialized_bytes dest_len).
Proof.
  intros Hread Hd. pose proof isize_room. unfold materialize_ntfs_compressed_stream.
  apply yields_then; [apply refuse_if_safe |]. intros [] H0. apply refuse_if_Ok in H0.
  apply yields_then; [apply refuse_if_safe |]. intros [] H1. apply refuse_if_Ok in H1. bool_props.
  apply yields_then; [apply ok_or_safe |]. intros block Hb. inv_ok.
  rewrite (u64_try_from_in dest_len) by lia. simpl default. change (16 * 1024 * 1024) with 16777216 in *.
  apply materialize_loop_total; [done | | done | lia | lia |].
  - unfold isize_max. lia.
  - split; [by rewrite len_replicate, N2Nat.id |]. intros i Hi.
    apply lookup_replicate_2. lia.
Qed.

(** The width that the format documents for a token: the largest [M] from 4 to
    12 with [2 ^ (M - 1)] below the number of bytes already decoded. *)
Definition documented_width (emitted m : N) : Prop :=
  4 <= m <= 12 /\ (4 < m -> 2 ^ (m - 1) < emitted) /\ (m < 12 -> emitted <= 2 ^ m).

(** where the offset field widens.  The decoder's width is the documented one
    except when the number of bytes decoded in the chunk is exactly [2 ^ k] for
    [k] from 4 to 11: there it already uses [k + 1] bits while the documented
    width is [k]. *)
Theorem offset_width_step emitted m :
  documented_width emitted m ->
  bit_allocator_u emitted = m \/
  bit_allocator_u emitted = m + 1 /\ m < 12 /\ emitted = 2 ^ m.
Proof.
  intros (Hm & Hlow & Hhigh). destruct (bit_allocator_spec emitted) as (Hb & Hbh & Hbl).
  set (b := bit_allocator_u emitted) in *.
  assert (Hmono : forall x y, x <= y -> 2 ^ x <= 2 ^ y) by (intros; apply N.pow_le_mono_r; lia).
  destruct (N.lt_trichotomy b m) as [Hlt|[->|Hgt]]; [exfalso | by left | right].
  - specialize (Hbh ltac:(lia)). specialize (Hlow ltac:(lia)).
    specialize (Hmono b (m - 1) ltac:(lia)). lia.
  - specialize (Hbl ltac:(lia)). specialize (Hhigh ltac:(lia)).
    assert (b = m + 1) as Hbm.
    { destruct (N.eq_dec b (m + 1)); [done |].
      pose proof (Hmono (m + 1) (b - 1) ltac:(lia)) as Hp.
      rewrite N.pow_add_r in Hp. change (2 ^ 1) with 2 in Hp.
      pose proof (N.pow_nonzero 2 m ltac:(lia)). lia. }
    split_and!; [done | lia |]. rewrite Hbm in Hbl. replace (m + 1 - 1) with m in Hbl by lia. lia.
Qed.

(** ** Witnesses *)

(** Four literals, then a match of nine bytes four places back that overlaps its
    own output. *)
Definition sample_unit : list byte :=
  [x06; xb0; x10; x61; x62; x63; x64; x06; x30; x00; x00].
Definition sample_text : list byte := ascii_bytes "abcdabcdabcda".

Lemma small_off_step n : n < 16 -> off_step n.
Proof.
  intros Hn k Hk ->. pose proof (N.pow_le_mono_r 2 4 k ltac:(lia) ltac:(lia)) as Hp.
  change (2 ^ 4) with 16 in Hp. lia.
Qed.

Lemma sample_lznt1 : lznt1 off_step sample_unit sample_text.
Proof.
  apply (lznt1_compressed _ 3 [x10; x61; x62; x63; x64; x06; x30] sample_text [x00; x00] []).
  - split_and!; by vm_compute.
  - apply (compressed_group _ [] x10 [x61; x62; x63; x64; x06; x30] 5 sample_text []);
      [| lia | by right | constructor].
    do 4 (apply items_literal; [reflexivity |]).
    apply (items_match _ _ 4 (ascii_bytes "abcd") 4 9 [] 5 sample_text);
      [done | split; by vm_compute | by apply small_off_step | apply items_none].
  - apply (lznt1_zero _ []).
Qed.

Lemma decompress_unit_meaning_witness :
  lznt1 off_step sample_unit sample_text /\
  decompress_unit sample_unit (replicate 6 xff) = Ok (6, ascii_bytes "abcdab") /\
  decompress_unit sample_unit (replicate 15 xff) = Ok (13, sample_text ++ [xff; xff]).
Proof.
  split; [exact sample_lznt1 |]. split.
  - exact (decompress_unit_meaning sample_unit (replicate 6 xff) sample_text
      ltac:(by vm_compute) ltac:(by vm_compute) sample_lznt1).
  - exact (decompress_unit_meaning sample_unit (replicate 15 xff) sample_text
      ltac:(by vm_compute) ltac:(by vm_compute) sample_lznt1).
Defined.

(** On a step the decoder reads another text: after sixteen literals, a match of
    three bytes sixteen places back is split one bit off. *)
Definition stepped_text : list byte := ascii_bytes "abcdefghijklmnop".
Definition stepped_unit : list byte :=
  [x14; xb0; x00] ++ take 8 stepped_text ++ [x00] ++ drop 8 stepped_text ++ [x01; x00; xf0].
Example stepped_lznt1 :
  lznt1 (fun _ => True) stepped_unit (stepped_text ++ ascii_bytes "abc").
Proof.
  apply (lznt1_compressed _ 3 (drop 2 stepped_unit) (stepped_text ++ ascii_bytes "abc") [] []); [split_and!; by vm_compute | |
    apply lznt1_short; by vm_compute].
  apply (compressed_group _ [] x00 (take 8 stepped_text) 8 (take 8 stepped_text)
    ([x00] ++ drop 8 stepped_text ++ [x01; x00; xf0])); [| lia | by left |].
  { do 8 (apply items_literal; [reflexivity |]). apply items_none. }
  apply (compressed_group _ _ x00 (drop 8 stepped_text) 8 stepped_text [x01; x00; xf0]);
    [| lia | by left |].
  { do 8 (apply items_literal; [reflexivity |]). apply items_none. }
  apply (compressed_group _ stepped_text x01 [x00; xf0] 1 (stepped_text ++ ascii_bytes "abc") []); [| lia | by right | constructor].
  apply (items_match _ _ 0 stepped_text 16 3 [] 1 (stepped_text ++ ascii_bytes "abc"));
    [done | split; by vm_compute | done | apply items_none].
Qed.
Example stepped_misread :
  decompress_unit stepped_unit (replicate 32 x00) = Err BackReferenceBeforeChunk.
Proof. by vm_compute. Qed.

Lemma decompress_unit_total_witness :
  yields (fun r => fst r <= 2 /\ keeps_outside [x00; x00] 0 (fst r) (snd r))
    (decompress_unit [x02; xb0; x01; xff; xff] [x00; x00]).
Proof. apply (decompress_unit_total [x02; xb0; x01; xff; xff] [x00; x00]); by vm_compute. Defined.

Lemma materialized_tail_is_zero_witness :
  yields (zero_from 5 8)
    (materialize_ntfs_compressed_stream (fun e => e) (fun _ n => Ok (subslice 0 n sample_unit))
       [mkExtent 3 0 11 (Physical 100) FileData; mkExtent 3 11 5 Sparse FileData] 3 16 5 8).
Proof.
  apply (materialized_tail_is_zero Lznt1Error (fun e => e) _ _ 3 16 5 8); [|by vm_compute].
  intros at_ n. done.
Defined.

Lemma offset_width_step_witness : bit_allocator_u 16 = 5 /\ documented_width 16 4.
Proof.
  assert (Hd : documented_width 16 4) by (split_and!; [done | done | done | by vm_compute]).
  split; [|exact Hd].
  destruct (offset_width_step 16 4 Hd) as [H|[H _]]; [discriminate H | exact H].
Defined.
