(* ===== verification/ExfatBoot.v ===== *)
(** * exFAT boot sector

    The parser of the main boot sector ([parse_boot_sector] of [fs/exfat.rs]),
    in the three stages of the source: the fixed bytes and the sector and
    cluster sizes, the volume flags, and the placement of the FATs and the
    cluster heap.

    The theorems: the parser accepts exactly the sectors that satisfy a
    declarative contract of the on-disk structure and reports their fields; the
    structures of an accepted volume are disjoint, ordered and inside the
    volume, and no byte offset computed from them overflows. *)

From S2P Require Export Prelude Bytes.
From stdpp Require Import options.

#[local] Open Scope N_scope.

Definition FIXED_BOOT_FIELDS_BYTES : N := 512.
Definition FILE_SYSTEM_NAME : list byte := ascii_bytes "EXFAT   ".
Definition JUMP_BOOT : list byte := [xeb; x76; x90].
Definition BOOT_SIGNATURE : N := 43605.
Definition EXFAT_REVISION_1_00 : N := 256.
Definition MAIN_AND_BACKUP_BOOT_SECTORS : N := 24.
Definition MIN_BYTES_PER_SECTOR_SHIFT : N := 9.
Definition MAX_BYTES_PER_SECTOR_SHIFT : N := 12.
Definition MAX_CLUSTER_BYTES_SHIFT : N := 25.
Definition MAX_CLUSTER_COUNT : N := 4294967285.
Definition VALID_VOLUME_FLAGS_MASK : N := 15.
Definition ACTIVE_FAT_FLAG : N := 1.
Definition UNKNOWN_PERCENT_IN_USE : N := 255.

(** ** Data *)
Record ExfatBootSector : Type := mkExfatBootSector {
  eb_partition_offset_sectors : N;
  eb_volume_length_sectors : N;
  eb_fat_offset_sectors : N;
  eb_fat_length_sectors : N;
  eb_cluster_heap_offset_sectors : N;
  eb_cluster_count : N;
  eb_root_directory_cluster : N;
  eb_volume_serial_number : N;
  eb_filesystem_revision : N;
  eb_volume_flags : N;
  eb_bytes_per_sector_shift : N;
  eb_sectors_per_cluster_shift : N;
  eb_number_of_fats : N;
  eb_drive_select : N;
  eb_percent_in_use : option N;
  eb_bytes_per_sector : N;
  eb_sectors_per_cluster : N;
  eb_bytes_per_cluster : N
}.

Inductive ExfatBootSectorError : Type :=
| Truncated (actual minimum : N)
| SectorLengthMismatch (declared actual : N)
| InvalidJumpBoot (found : list byte)
| InvalidFileSystemName (found : list byte)
| MustBeZero (offset value : N)
| ReservedMustBeZero (offset value : N)
| UnsupportedRevision (found : N)
| InvalidBytesPerSectorShift (found : N)
| InvalidSectorsPerClusterShift (found maximum : N)
| InvalidFatCount (found : N)
| InvalidVolumeFlags (found : N)
| InactiveOnlyFatMarkedActive
| InvalidPercentInUse (found : N)
| InvalidBootSignature (found : N)
| VolumeTooShort (found minimum : N)
| FatOffsetBeforeBootRegions (found minimum : N)
| ZeroFatLength
| InvalidClusterCount (found : N)
| ClusterCountMismatch (found expected : N)
| FatTooSmall (found minimum : N)
| FatRegionOutsideVolume (end_ volume_length : N)
| ClusterHeapOverlapsFatRegion (heap_offset fat_end : N)
| ClusterHeapOutsideVolume (heap_offset volume_length : N)
| ClusterHeapOutsideVolumeEnd (heap_end volume_length : N)
| RootDirectoryClusterOutOfRange (found minimum maximum : N)
| ArithmeticOverflow (operation : string).

(** ** Parsing *)
Definition validate_zeroes (bytes : list byte) (start end_ : N) (reserved : bool)
    : outcome ExfatBootSectorError unit :=
  range ← index_range start end_ bytes;
  match find_nonzero 0 range with
  | Some (relative_offset, value) =>
      offset ← add_u64 start relative_offset;
      Err (if reserved then ReservedMustBeZero offset (Byte.to_N value)
           else MustBeZero offset (Byte.to_N value))
  | None => Ok tt
  end.

(** The sizes that the first stage derives: the two shifts, the sector size,
    the sectors of a cluster and the bytes of a cluster. *)
Definition parse_sizes (sector : list byte)
    : outcome ExfatBootSectorError (N * N * N * N * N) :=
  refuse_if (len sector <? FIXED_BOOT_FIELDS_BYTES)
    (Truncated (len sector) FIXED_BOOT_FIELDS_BYTES) ;;
  found_jump ← index_range 0 3 sector;
  refuse_if (negb (bool_decide (found_jump = JUMP_BOOT))) (InvalidJumpBoot found_jump) ;;
  found_name ← index_range 3 11 sector;
  refuse_if (negb (bool_decide (found_name = FILE_SYSTEM_NAME)))
    (InvalidFileSystemName found_name) ;;
  validate_zeroes sector 11 64 false ;;
  bytes_per_sector_shift ← read_le 1 sector 108;
  refuse_if (negb ((MIN_BYTES_PER_SECTOR_SHIFT <=? bytes_per_sector_shift)
                   && (bytes_per_sector_shift <=? MAX_BYTES_PER_SECTOR_SHIFT)))
    (InvalidBytesPerSectorShift bytes_per_sector_shift) ;;
  bytes_per_sector ← ok_or (ArithmeticOverflow "logical sector size")
    (checked_shl_u32 1 bytes_per_sector_shift);
  declared_sector_bytes ← ok_or (ArithmeticOverflow "logical sector size conversion")
    (usize_try_from bytes_per_sector);
  refuse_if (negb (len sector =? declared_sector_bytes))
    (SectorLengthMismatch declared_sector_bytes (len sector)) ;;
  sectors_per_cluster_shift ← read_le 1 sector 109;
  maximum_cluster_shift ← sub_u64 MAX_CLUSTER_BYTES_SHIFT bytes_per_sector_shift;
  refuse_if (maximum_cluster_shift <? sectors_per_cluster_shift)
    (InvalidSectorsPerClusterShift sectors_per_cluster_shift maximum_cluster_shift) ;;
  sectors_per_cluster ← ok_or (ArithmeticOverflow "sectors per cluster")
    (checked_shl_u32 1 sectors_per_cluster_shift);
  bytes_per_cluster ← ok_or (ArithmeticOverflow "bytes per cluster")
    (checked_mul_u32 bytes_per_sector sectors_per_cluster);
  Ok (bytes_per_sector_shift, sectors_per_cluster_shift, bytes_per_sector,
      sectors_per_cluster, bytes_per_cluster).

(** The number of FATs, the volume flags and the percentage in use. *)
Definition parse_flags (sector : list byte)
    : outcome ExfatBootSectorError (N * N * N * option N) :=
  validate_zeroes sector 113 120 true ;;
  filesystem_revision ← read_le 2 sector 104;
  refuse_if (negb (filesystem_revision =? EXFAT_REVISION_1_00))
    (UnsupportedRevision filesystem_revision) ;;
  number_of_fats ← read_le 1 sector 110;
  refuse_if (negb ((number_of_fats =? 1) || (number_of_fats =? 2)))
    (InvalidFatCount number_of_fats) ;;
  volume_flags ← read_le 2 sector 106;
  refuse_if (negb (N.land volume_flags (N.lxor VALID_VOLUME_FLAGS_MASK u16_max) =? 0))
    (InvalidVolumeFlags volume_flags) ;;
  refuse_if ((number_of_fats =? 1) && negb (N.land volume_flags ACTIVE_FAT_FLAG =? 0))
    InactiveOnlyFatMarkedActive ;;
  percent_in_use_raw ← read_le 1 sector 112;
  percent_in_use ←
    (if percent_in_use_raw <=? 100 then Ok (Some percent_in_use_raw)
     else if percent_in_use_raw =? UNKNOWN_PERCENT_IN_USE then Ok None
     else Err (InvalidPercentInUse percent_in_use_raw));
  boot_signature ← read_le 2 sector 510;
  refuse_if (negb (boot_signature =? BOOT_SIGNATURE)) (InvalidBootSignature boot_signature) ;;
  Ok (filesystem_revision, number_of_fats, volume_flags, percent_in_use).

(** The sectors that [cluster_count + 2] FAT entries take. *)
Definition minimum_fat_sectors (cluster_count bytes_per_sector : N)
    : outcome ExfatBootSectorError N :=
  fat_entry_count ← ok_or (ArithmeticOverflow "FAT entry count") (checked_add cluster_count 2);
  fat_bytes_required ← ok_or (ArithmeticOverflow "FAT byte length")
    (checked_mul fat_entry_count 4);
  slack ← sub_u64 bytes_per_sector 1;
  rounded ← ok_or (ArithmeticOverflow "rounded FAT byte length")
    (checked_add fat_bytes_required slack);
  div_u64 rounded bytes_per_sector.

(** The cluster heap, which starts after the FATs and takes the rest of the
    volume. *)
Definition check_cluster_heap (cluster_heap_offset_sectors cluster_count fat_end
    sectors_per_cluster volume_length_sectors : N) : outcome ExfatBootSectorError unit :=
  refuse_if (cluster_heap_offset_sectors <? fat_end)
    (ClusterHeapOverlapsFatRegion cluster_heap_offset_sectors fat_end) ;;
  refuse_if (volume_length_sectors <=? cluster_heap_offset_sectors)
    (ClusterHeapOutsideVolume cluster_heap_offset_sectors volume_length_sectors) ;;
  cluster_heap_length ← ok_or (ArithmeticOverflow "cluster heap length")
    (checked_mul cluster_count sectors_per_cluster);
  cluster_heap_end ← ok_or (ArithmeticOverflow "cluster heap end")
    (checked_add cluster_heap_offset_sectors cluster_heap_length);
  refuse_if (volume_length_sectors <? cluster_heap_end)
    (ClusterHeapOutsideVolumeEnd cluster_heap_end volume_length_sectors) ;;
  available_heap_sectors ← sub_u64 volume_length_sectors cluster_heap_offset_sectors;
  clusters_that_fit ← div_u64 available_heap_sectors sectors_per_cluster;
  let expected_cluster_count := N.min clusters_that_fit MAX_CLUSTER_COUNT in
  if negb (cluster_count =? expected_cluster_count) then
    expected ← ok_or (ArithmeticOverflow "expected cluster count conversion")
      (u32_try_from expected_cluster_count);
    Err (ClusterCountMismatch cluster_count expected)
  else Ok tt.

Definition parse_boot_sector (sector : list byte)
    : outcome ExfatBootSectorError ExfatBootSector :=
  '(bytes_per_sector_shift, sectors_per_cluster_shift, bytes_per_sector,
    sectors_per_cluster, bytes_per_cluster) ← parse_sizes sector;
  '(filesystem_revision, number_of_fats, volume_flags, percent_in_use) ← parse_flags sector;
  partition_offset_sectors ← read_le 8 sector 64;
  volume_length_sectors ← read_le 8 sector 72;
  partition_end ← ok_or (ArithmeticOverflow "partition end")
    (checked_add partition_offset_sectors volume_length_sectors);
  minimum_volume_sectors ← div_u64 (2 ^ 20) bytes_per_sector;
  refuse_if (volume_length_sectors <? minimum_volume_sectors)
    (VolumeTooShort volume_length_sectors minimum_volume_sectors) ;;
  fat_offset_sectors ← read_le 4 sector 80;
  refuse_if (fat_offset_sectors <? MAIN_AND_BACKUP_BOOT_SECTORS)
    (FatOffsetBeforeBootRegions fat_offset_sectors MAIN_AND_BACKUP_BOOT_SECTORS) ;;
  fat_length_sectors ← read_le 4 sector 84;
  refuse_if (fat_length_sectors =? 0) ZeroFatLength ;;
  cluster_count ← read_le 4 sector 92;
  refuse_if ((cluster_count =? 0) || (MAX_CLUSTER_COUNT <? cluster_count))
    (InvalidClusterCount cluster_count) ;;
  minimum ← minimum_fat_sectors cluster_count bytes_per_sector;
  refuse_if (fat_length_sectors <? minimum) (FatTooSmall fat_length_sectors minimum) ;;
  all_fats_length ← ok_or (ArithmeticOverflow "combined FAT length")
    (checked_mul fat_length_sectors number_of_fats);
  fat_end ← ok_or (ArithmeticOverflow "FAT region end")
    (checked_add fat_offset_sectors all_fats_length);
  refuse_if (volume_length_sectors <? fat_end)
    (FatRegionOutsideVolume fat_end volume_length_sectors) ;;
  cluster_heap_offset_sectors ← read_le 4 sector 88;
  check_cluster_heap cluster_heap_offset_sectors cluster_count fat_end sectors_per_cluster
    volume_length_sectors ;;
  root_directory_cluster ← read_le 4 sector 96;
  maximum_root_cluster ← ok_or (ArithmeticOverflow "maximum root directory cluster")
    (checked_add_u32 cluster_count 1);
  refuse_if (negb ((2 <=? root_directory_cluster)
                   && (root_directory_cluster <=? maximum_root_cluster)))
    (RootDirectoryClusterOutOfRange root_directory_cluster 2 maximum_root_cluster) ;;
  volume_serial_number ← read_le 4 sector 100;
  drive_select ← read_le 1 sector 111;
  Ok (mkExfatBootSector partition_offset_sectors volume_length_sectors fat_offset_sectors
        fat_length_sectors cluster_heap_offset_sectors cluster_count root_directory_cluster
        volume_serial_number filesystem_revision volume_flags bytes_per_sector_shift
        sectors_per_cluster_shift number_of_fats drive_select percent_in_use bytes_per_sector
        sectors_per_cluster bytes_per_cluster).

(** ** Specification *)

(** The bytes that do not depend on the volume. *)
Record fixed_fields (sector : list byte) : Prop := {
  xf_jump : subslice 0 3 sector = JUMP_BOOT;
  xf_name : subslice 3 11 sector = FILE_SYSTEM_NAME;
  xf_zero : Forall (fun b => b = x00) (subslice 11 64 sector);
  xf_reserved : Forall (fun b => b = x00) (subslice 113 120 sector);
  xf_signature : field 2 sector 510 = BOOT_SIGNATURE
}.

(** The fields of the sector, at their offsets. *)
Record fields_of (sector : list byte) (b : ExfatBootSector) : Prop := {
  xo_partition : eb_partition_offset_sectors b = field 8 sector 64;
  xo_volume : eb_volume_length_sectors b = field 8 sector 72;
  xo_fat_offset : eb_fat_offset_sectors b = field 4 sector 80;
  xo_fat_length : eb_fat_length_sectors b = field 4 sector 84;
  xo_heap : eb_cluster_heap_offset_sectors b = field 4 sector 88;
  xo_count : eb_cluster_count b = field 4 sector 92;
  xo_root : eb_root_directory_cluster b = field 4 sector 96;
  xo_serial : eb_volume_serial_number b = field 4 sector 100;
  xo_revision : eb_filesystem_revision b = field 2 sector 104;
  xo_flags : eb_volume_flags b = field 2 sector 106;
  xo_sector_shift : eb_bytes_per_sector_shift b = field 1 sector 108;
  xo_cluster_shift : eb_sectors_per_cluster_shift b = field 1 sector 109;
  xo_fats : eb_number_of_fats b = field 1 sector 110;
  xo_drive : eb_drive_select b = field 1 sector 111;
  xo_percent : field 1 sector 112 = default UNKNOWN_PERCENT_IN_USE (eb_percent_in_use b)
}.

(** What the exFAT specification asks of the values. *)
Record volume_geometry (b : ExfatBootSector) : Prop := {
  xg_sector_shift : 9 <= eb_bytes_per_sector_shift b <= 12;
  xg_cluster_shift : eb_bytes_per_sector_shift b + eb_sectors_per_cluster_shift b <= 25;
  xg_sector : eb_bytes_per_sector b = 2 ^ eb_bytes_per_sector_shift b;
  xg_cluster : eb_sectors_per_cluster b = 2 ^ eb_sectors_per_cluster_shift b;
  xg_cluster_bytes : eb_bytes_per_cluster b = eb_bytes_per_sector b * eb_sectors_per_cluster b;
  xg_revision : eb_filesystem_revision b = EXFAT_REVISION_1_00;
  xg_fats : eb_number_of_fats b = 1 \/ eb_number_of_fats b = 2;
  xg_flags : eb_volume_flags b < 16;
  xg_active : eb_number_of_fats b = 1 -> N.even (eb_volume_flags b) = true;
  xg_percent : from_option (fun p => p <= 100) True (eb_percent_in_use b);
  xg_partition : eb_partition_offset_sectors b + eb_volume_length_sectors b <= u64_max;
  xg_volume : 2 ^ 20 <= eb_volume_length_sectors b * eb_bytes_per_sector b;
  xg_fat_offset : 24 <= eb_fat_offset_sectors b;
  xg_fat_length : 4 * (eb_cluster_count b + 2) <=
                  eb_fat_length_sectors b * eb_bytes_per_sector b;
  xg_heap_offset : eb_fat_offset_sectors b + eb_fat_length_sectors b * eb_number_of_fats b
                   <= eb_cluster_heap_offset_sectors b;
  xg_heap_end : eb_cluster_heap_offset_sectors b
                + eb_cluster_count b * eb_sectors_per_cluster b <= eb_volume_length_sectors b;
  xg_count : 1 <= eb_cluster_count b <= MAX_CLUSTER_COUNT;
  xg_count_maximal : eb_cluster_count b = MAX_CLUSTER_COUNT \/
    eb_volume_length_sectors b < eb_cluster_heap_offset_sectors b
      + (eb_cluster_count b + 1) * eb_sectors_per_cluster b;
  xg_root : 2 <= eb_root_directory_cluster b <= eb_cluster_count b + 1
}.

(** A sector that holds an exFAT volume described by [b]. *)
Definition boot_sector_of (sector : list byte) (b : ExfatBootSector) : Prop :=
  len sector = eb_bytes_per_sector b /\ fixed_fields sector /\ fields_of sector b /\
  volume_geometry b.

(** * Lemmas *)
Lemma validate_zeroes_Ok bytes lo hi r u :
  lo <= hi -> hi <= len bytes ->
  validate_zeroes bytes lo hi r = Ok u <-> Forall (fun b => b = x00) (subslice lo hi bytes).
Proof.
  intros Hl Hh. unfold validate_zeroes. rewrite index_range_in by done. simpl.
  rewrite <- (find_nonzero_None 0).
  destruct (find_nonzero 0 _) as [[i b]|]; [|by destruct u].
  split; [|done]. intros H. inv_ok.
Qed.
Lemma validate_zeroes_safe bytes lo hi r :
  lo <= hi -> hi <= len bytes -> hi <= u64_max -> validate_zeroes bytes lo hi r <> Panic.
Proof.
  intros Hl Hh Hm. unfold validate_zeroes. rewrite index_range_in by done. simpl.
  destruct (find_nonzero 0 _) as [[i b]|] eqn:Hf; [|done]. safe.
  apply find_nonzero_bound in Hf. rewrite len_subslice in Hf by lia.
  apply add_u64_safe. lia.
Qed.

Lemma field_1_bound bytes o : o + 1 <= len bytes -> field 1 bytes o < 256.
Proof. intros. by apply (field_bound 1). Qed.
Lemma field_2_bound bytes o : o + 2 <= len bytes -> field 2 bytes o <= u16_max.
Proof. intros H. by apply (field_bound 2), N.lt_le_pred in H. Qed.
Lemma field_4_bound bytes o : o + 4 <= len bytes -> field 4 bytes o <= u32_max.
Proof. intros H. by apply (field_bound 4), N.lt_le_pred in H. Qed.
Lemma field_8_bound bytes o : o + 8 <= len bytes -> field 8 bytes o <= u64_max.
Proof. intros H. by apply (field_bound 8), N.lt_le_pred in H. Qed.

Lemma parse_sizes_Ok s a c B C K :
  parse_sizes s = Ok (a, c, B, C, K) <->
  512 <= len s /\ subslice 0 3 s = JUMP_BOOT /\ subslice 3 11 s = FILE_SYSTEM_NAME /\
  Forall (fun b => b = x00) (subslice 11 64 s) /\ a = field 1 s 108 /\ 9 <= a <= 12 /\
  B = 2 ^ a /\ len s = B /\ c = field 1 s 109 /\ a + c <= 25 /\ C = 2 ^ c /\ K = B * C.
Proof.
  unfold parse_sizes, FIXED_BOOT_FIELDS_BYTES, MIN_BYTES_PER_SECTOR_SHIFT,
    MAX_BYTES_PER_SECTOR_SHIFT, MAX_CLUSTER_BYTES_SHIFT. split.
  - intros H. inv_ok. inv_reads. bool_props.
    match goal with H : validate_zeroes _ _ _ _ = Ok _ |- _ =>
      apply validate_zeroes_Ok in H; [|lia..] end.
    rewrite checked_shl_one in * by lia.
    repeat match goal with H : Some _ = Some _ |- _ => injection H as <- end.
    match goal with H : checked_mul_u32 _ _ = _ |- _ => apply checked_mul_u32_Some in H as [-> ?] end.
    split_and!; try done; lia.
  - intros (H1 & H2 & H3 & H4 & Ha & H5 & -> & H6 & Hc & H7 & -> & ->).
    assert (HB : 2 ^ a * 2 ^ c <= u32_max).
    { rewrite <- N.pow_add_r. apply N.le_trans with (2 ^ 25); [|done]. apply N.pow_le_mono_r; lia. }
    assert (H12 : 2 ^ a <= 2 ^ 12) by (apply N.pow_le_mono_r; lia).
    change (2 ^ 12) with 4096 in H12.
    ok_step. read_step. rewrite H2. ok_step. read_step. rewrite H3. ok_step.
    eapply bind_step; [apply (validate_zeroes_Ok _ _ _ _ tt); [lia | lia | done] | cbv beta].
    read_step. rewrite <- Ha. eapply bind_step; [apply refuse_step | cbv beta].
    { rewrite !(proj2 (N.leb_le _ _)) by lia. done. }
    rewrite checked_shl_one by lia. ok_step; [done |].
    eapply bind_step; [apply ok_or_step, usize_try_from_in; unfold u64_max; lia | cbv beta].
    ok_step. read_step. rewrite <- Hc. ok_step. ok_step.
    rewrite checked_shl_one by lia. ok_step; [done |].
    eapply bind_step; [apply ok_or_step, checked_mul_u32_Some; done | done].
Qed.

Lemma parse_flags_Ok s rev fats flags p :
  512 <= len s ->
  parse_flags s = Ok (rev, fats, flags, p) <->
  Forall (fun b => b = x00) (subslice 113 120 s) /\ rev = field 2 s 104 /\
  rev = EXFAT_REVISION_1_00 /\ fats = field 1 s 110 /\ (fats = 1 \/ fats = 2) /\
  flags = field 2 s 106 /\ flags < 16 /\ (fats = 1 -> N.even flags = true) /\
  field 1 s 112 = default UNKNOWN_PERCENT_IN_USE p /\
  from_option (fun p => p <= 100) True p /\ field 2 s 510 = BOOT_SIGNATURE.
Proof.
  intros Hs. unfold parse_flags.
  assert (Hf : N.land (field 2 s 106) (N.lxor VALID_VOLUME_FLAGS_MASK u16_max) = 0
               <-> field 2 s 106 < 16).
  { change VALID_VOLUME_FLAGS_MASK with (N.ones 4). change u16_max with (N.ones 16).
    apply (land_high_zero _ 4 16); [apply (field_bound 2); lia | done]. }
  assert (He : forall x, N.land x ACTIVE_FAT_FLAG = 0 <-> N.even x = true).
  { intros x. change ACTIVE_FAT_FLAG with (N.ones 1). rewrite N.land_ones, N.even_spec.
    change (2 ^ 1) with 2. split; [intros H; exists (x / 2); pose proof (N.div_mod x 2); lia |].
    intros [m ->]. rewrite N.mul_comm. apply N.Div0.mod_mul. }
  unfold ACTIVE_FAT_FLAG in *. split.
  - intros H. inv_ok. inv_reads. bool_props.
    match goal with H : validate_zeroes _ _ _ _ = Ok _ |- _ =>
      apply validate_zeroes_Ok in H; [|lia..] end.
    match goal with H : _ || _ = true |- _ =>
      apply orb_true_iff in H; rewrite !N.eqb_eq in H end.
    match goal with H : _ && _ = false |- _ =>
      apply andb_false_iff in H; rewrite N.eqb_neq, negb_false_iff, N.eqb_eq, He in H end.
    match goal with H : (if _ then _ else _) = Ok _ |- _ =>
      destruct (N.leb_spec (field 1 s 112) 100);
        [|destruct (N.eqb_spec (field 1 s 112) UNKNOWN_PERCENT_IN_USE)]; inv_ok end.
    + split_and!; try done; [tauto | naive_solver].
    + split_and!; try done; [tauto | naive_solver].
  - intros (H1 & -> & H2 & -> & H3 & -> & H4 & H5 & H6 & H7 & H8).
    eapply bind_step; [apply (validate_zeroes_Ok _ _ _ _ tt); [lia | lia | done] | cbv beta].
    read_step. ok_step. read_step. eapply bind_step; [apply refuse_step | cbv beta].
    { apply negb_false_iff, orb_true_iff. rewrite !N.eqb_eq. done. }
    read_step. ok_step. eapply bind_step; [apply refuse_step | cbv beta].
    { apply andb_false_iff. rewrite N.eqb_neq, negb_false_iff, N.eqb_eq, He.
      destruct (decide (field 1 s 110 = 1)); auto. }
    read_step. rewrite H6. destruct p as [p|]; simpl in H7 |- *.
    + rewrite (proj2 (N.leb_le _ _)) by done. cbn [mbind outcome_bind]. read_step. by ok_step.
    + cbn [mbind outcome_bind]. read_step. by ok_step.
Qed.

Lemma minimum_fat_sectors_Ok count k m :
  count <= u32_max -> k <= 12 -> minimum_fat_sectors count (2 ^ k) = Ok m ->
  forall fat, m <= fat <-> 4 * (count + 2) <= fat * 2 ^ k.
Proof.
  unfold minimum_fat_sectors. intros Hc Hk H fat. inv_ok.
  pose proof (N.pow_nonzero 2 k ltac:(done)) as Hp. revert Hp. generalize (2 ^ k). intros B HB.
  split; intros.
  - assert (fat * B >= ((count + 2) * 4 + (B - 1)) / B * B) by nia.
    pose proof (N.div_mod ((count + 2) * 4 + (B - 1)) B HB).
    pose proof (N.mod_lt ((count + 2) * 4 + (B - 1)) B HB). nia.
  - apply N.lt_succ_r. apply N.Div0.div_lt_upper_bound. nia.
Qed.
Lemma minimum_fat_sectors_total count k :
  count <= u32_max -> k <= 12 -> exists m, minimum_fat_sectors count (2 ^ k) = Ok m.
Proof.
  intros Hc Hk. unfold minimum_fat_sectors.
  assert (2 ^ k <= 2 ^ 12) by (apply N.pow_le_mono_r; lia).
  change (2 ^ 12) with 4096 in *. pose proof (N.pow_nonzero 2 k ltac:(done)).
  widths. eexists. ok_step. ok_step. ok_step. ok_step. by apply div_u64_Ok.
Qed.

Lemma check_cluster_heap_Ok heap count fat_end k volume u :
  heap <= u32_max -> count <= u32_max -> k <= 25 ->
  check_cluster_heap heap count fat_end (2 ^ k) volume = Ok u <->
  fat_end <= heap /\ heap < volume /\ heap + count * 2 ^ k <= volume /\
  count <= MAX_CLUSTER_COUNT /\
  (count = MAX_CLUSTER_COUNT \/ volume < heap + (count + 1) * 2 ^ k).
Proof.
  intros Hh Hc Hk. unfold check_cluster_heap. destruct u.
  assert (H25 : 2 ^ k <= 2 ^ 25) by (apply N.pow_le_mono_r; lia).
  change (2 ^ 25) with 33554432 in H25. pose proof (N.pow_nonzero 2 k ltac:(done)) as Hp.
  revert Hp H25. generalize (2 ^ k). intros C HC H25. widths.
  assert (Hd : heap < volume -> heap + count * C <= volume ->
    (count =? N.min ((volume - heap) / C) MAX_CLUSTER_COUNT) = true <->
    count <= MAX_CLUSTER_COUNT /\
    (count = MAX_CLUSTER_COUNT \/ volume < heap + (count + 1) * C)).
  { intros Hv He. rewrite N.eqb_eq.
    pose proof (N.div_mod (volume - heap) C HC). pose proof (N.mod_lt (volume - heap) C HC).
    assert (count <= (volume - heap) / C) by (apply N.div_le_lower_bound; lia).
    assert ((volume - heap) / C <= count <-> volume < heap + (count + 1) * C) .
    { split; intros.
      - assert (C * ((volume - heap) / C) <= C * count) by (by apply N.mul_le_mono_l). lia.
      - apply N.lt_succ_r, N.Div0.div_lt_upper_bound. lia. }
    lia. }
  split.
  - intros H. inv_ok. bool_props.
    match type of H with (if negb ?t then _ else _) = _ =>
      assert (t = true) as Hq by (destruct t; [done | cbn [negb] in H; inv_ok]) end.
    apply Hd in Hq as [Hq1 Hq2]; [by split_and! | done | done].
  - intros (H1 & H2 & H3 & H4 & H5).
    assert (count * C <= u32_max * 33554432) by (apply N.mul_le_mono; assumption).
    ok_step. ok_step. ok_step. ok_step. ok_step. ok_step. eapply bind_step; [by apply div_u64_Ok | cbv beta zeta].
    rewrite (proj2 (Hd H2 H3)) by done. done.
Qed.
Lemma check_cluster_heap_safe heap count fat_end k volume :
  check_cluster_heap heap count fat_end (2 ^ k) volume <> Panic.
Proof.
  unfold check_cluster_heap. safe.
  - apply sub_u64_safe. bool_props. inv_ok. bool_props. lia.
  - apply div_u64_safe. by apply N.pow_nonzero.
Qed.

(** ** The parser and its contract *)

Ltac boot_fields :=
  cbn [eb_partition_offset_sectors eb_volume_length_sectors eb_fat_offset_sectors
       eb_fat_length_sectors eb_cluster_heap_offset_sectors eb_cluster_count
       eb_root_directory_cluster eb_volume_serial_number eb_filesystem_revision
       eb_volume_flags eb_bytes_per_sector_shift eb_sectors_per_cluster_shift
       eb_number_of_fats eb_drive_select eb_percent_in_use eb_bytes_per_sector
       eb_sectors_per_cluster eb_bytes_per_cluster] in *.

(** The sector and cluster sizes of a geometry, as numbers. *)
Lemma geometry_sizes b :
  volume_geometry b -> 512 <= eb_bytes_per_sector b <= 4096 /\
  1 <= eb_sectors_per_cluster b /\ eb_bytes_per_cluster b <= 2 ^ 25.
Proof.
  intros []. rewrite xg_cluster_bytes0, xg_sector0, xg_cluster0.
  pose proof (N.pow_nonzero 2 (eb_sectors_per_cluster_shift b) ltac:(done)).
  split_and!; [| |lia|].
  - change 512 with (2 ^ 9). apply N.pow_le_mono_r; lia.
  - change 4096 with (2 ^ 12). apply N.pow_le_mono_r; lia.
  - rewrite <- N.pow_add_r. apply N.pow_le_mono_r; lia.
Qed.

Lemma minimum_volume_iff k volume :
  k <= 12 -> 2 ^ 20 / 2 ^ k <= volume <-> 2 ^ 20 <= volume * 2 ^ k.
Proof.
  intros Hk. replace 20 with (20 - k + k) by lia.
  rewrite N.pow_add_r, N.div_mul by (by apply N.pow_nonzero).
  pose proof (N.pow_nonzero 2 k ltac:(done)).
  split; intros Hv; [by apply N.mul_le_mono_r | apply (N.mul_le_mono_pos_r _ _ (2 ^ k)); [lia | done]].
Qed.

Lemma parse_boot_sector_sound sector b :
  parse_boot_sector sector = Ok b -> boot_sector_of sector b.
Proof.
  unfold parse_boot_sector. intros H.
  apply bind_Ok in H as ([[[[a c] B] C] K] & Hs & H).
  apply parse_sizes_Ok in Hs as (Hl & Hj & Hn & Hz & -> & Ha & -> & HB & -> & Hc & -> & ->).
  apply bind_Ok in H as ([[[rev fats] flags] p] & Hf & H).
  apply parse_flags_Ok in Hf as (Hr & -> & Hrev & -> & Hfat & -> & Hfl & Hev & Hp & Hp' & Hsig);
    [|done].
  inv_ok. inv_reads. bool_props.
  pose proof (field_4_bound sector 88 ltac:(lia)). pose proof (field_4_bound sector 92 ltac:(lia)).
  match goal with H : minimum_fat_sectors _ _ = _ |- _ =>
    pose proof (fun Hc Hk => minimum_fat_sectors_Ok _ _ _ Hc Hk H (field 4 sector 84)) as Hm end.
  specialize (Hm ltac:(lia) ltac:(lia)).
  match goal with H : check_cluster_heap _ _ _ _ _ = _ |- _ =>
    apply check_cluster_heap_Ok in H as (? & ? & ? & ? & ?); [|lia..] end.
  pose proof (minimum_volume_iff (field 1 sector 108) (field 8 sector 72) ltac:(lia)).
  unfold MAIN_AND_BACKUP_BOOT_SECTORS in *.
  split; [|split; [|split]]; [exact HB | | |].
  - by split.
  - split; first [reflexivity | assumption].
  - split; boot_fields; first [assumption | lia].
Qed.

Lemma parse_boot_sector_complete sector b :
  boot_sector_of sector b -> parse_boot_sector sector = Ok b.
Proof.
  intros (Hl & Hf & Ho & Hg). pose proof (geometry_sizes b Hg) as (HB & HC & HK).
  destruct b, Hf, Ho, Hg. boot_fields. subst.
  unfold parse_boot_sector. widths. rewrite xg_sector0 in *.
  assert (H512 : 512 <= len sector) by lia.
  assert (Hmax : MAX_CLUSTER_COUNT = 4294967285) by reflexivity.
  eapply bind_step; [apply parse_sizes_Ok; split_and!; first [assumption | reflexivity | lia] | cbv beta iota].
  eapply bind_step; [eapply (proj2 (parse_flags_Ok sector _ _ _ eb_percent_in_use0 H512)); split_and!; first [eassumption | reflexivity] | cbv beta iota].
  pose proof (field_4_bound sector 88 ltac:(lia)). pose proof (field_4_bound sector 92 ltac:(lia)).
  pose proof (field_4_bound sector 84 ltac:(lia)). pose proof (field_4_bound sector 80 ltac:(lia)).
  destruct (minimum_fat_sectors_total (field 4 sector 92) (field 1 sector 108))
    as [m Hm]; [lia | lia |].
  pose proof (minimum_fat_sectors_Ok (field 4 sector 92) (field 1 sector 108) m ltac:(lia)
    ltac:(lia) Hm (field 4 sector 84)) as Hfat.
  pose proof (minimum_volume_iff (field 1 sector 108) (field 8 sector 72) ltac:(lia)).
  assert (field 4 sector 84 * field 1 sector 110 <= 2 * u32_max) by (destruct xg_fats0 as [-> | ->]; lia).
  read_step. read_step. ok_step.
  eapply bind_step; [apply div_u64_Ok; split; [reflexivity | lia] | cbv beta].
  ok_step. read_step. ok_step. read_step. ok_step. read_step.
  eapply bind_step; [apply refuse_step, orb_false_intro; [apply N.eqb_neq | apply N.ltb_ge]; lia | cbv beta].
  rewrite Hm. cbn [mbind outcome_bind]. ok_step. ok_step. ok_step. ok_step. read_step.
  eapply bind_step; [apply (check_cluster_heap_Ok _ _ _ _ _ tt); [lia.. |]; split_and!;
    [lia | lia | exact xg_heap_end0 | lia | exact xg_count_maximal0] | cbv beta].
  read_step. eapply bind_step; [apply ok_or_step, checked_add_u32_Some; split; [done | lia] | cbv beta].
  eapply bind_step; [apply refuse_step | cbv beta].
  { rewrite !(proj2 (N.leb_le _ _)) by lia. done. }
  read_step. read_step. done.
Qed.

Lemma parse_boot_sector_iff sector b :
  parse_boot_sector sector = Ok b <-> boot_sector_of sector b.
Proof. split; [apply parse_boot_sector_sound | apply parse_boot_sector_complete]. Qed.

Lemma parse_boot_sector_safe sector : parse_boot_sector sector <> Panic.
Proof.
  assert (Hp : forall k, 2 ^ k <> 0) by (intros; by apply N.pow_nonzero).
  unfold parse_boot_sector. apply bind_safe.
  { unfold parse_sizes. widths. safe; inv_ok; bool_props; unfold FIXED_BOOT_FIELDS_BYTES in *.
    all: try first [apply index_range_safe; lia | apply read_le_safe; lia].
    - apply validate_zeroes_safe; lia.
    - apply sub_u64_safe. unfold MAX_CLUSTER_BYTES_SHIFT, MAX_BYTES_PER_SECTOR_SHIFT in *. lia. }
  intros [[[[a c] B] C] K] Hs.
  apply parse_sizes_Ok in Hs as (Hl & _ & _ & _ & -> & Ha & -> & HB & -> & Hc & -> & ->).
  apply bind_safe.
  { unfold parse_flags. widths. safe; try (apply read_le_safe; lia).
    apply validate_zeroes_safe; lia. }
  intros [[[rev fats] flags] p] _. safe; try (apply read_le_safe; lia).
  - by apply div_u64_safe.
  - inv_reads. destruct (minimum_fat_sectors_total (field 4 sector 92) (field 1 sector 108))
      as [m ->]; [by apply field_4_bound; lia | lia | done].
  - apply check_cluster_heap_safe.
Qed.

(** Only the first 512 bytes of a sector carry fields. *)
Lemma boot_contract_ext s1 s2 b :
  (forall lo hi, hi <= 512 -> subslice lo hi s1 = subslice lo hi s2) ->
  fixed_fields s1 -> fields_of s1 b -> fixed_fields s2 /\ fields_of s2 b.
Proof.
  intros Hs [] []. unfold field in *. split; split; unfold field; rewrite <- ?Hs by done; assumption.
Qed.

(** * Properties *)

(** C39: [parse_boot_sector] never panics, and it accepts a sector exactly when
    the sector carries the fixed bytes of exFAT and its values describe a volume
    of the exFAT specification; the result reports the fields of the sector. *)
Theorem boot_sector_contract sector :
  parse_boot_sector sector <> Panic /\
  (forall b, parse_boot_sector sector = Ok b <-> boot_sector_of sector b).
Proof. split; [apply parse_boot_sector_safe | apply parse_boot_sector_iff]. Qed.

(** A volume of one mebibyte with 2008 clusters of one sector. *)
Definition sample_sector : list byte :=
  JUMP_BOOT ++ FILE_SYSTEM_NAME ++ replicate 53 x00
  ++ u64_le 0 ++ u64_le 2048 ++ u32_le 24 ++ u32_le 16 ++ u32_le 40 ++ u32_le 2008 ++ u32_le 2
  ++ u32_le 305441741 ++ u16_le 256 ++ u16_le 0 ++ [x09; x00; x01; x80; xff]
  ++ replicate 7 x00 ++ replicate 390 xf4 ++ u16_le 43605.
Definition sample_boot_sector : ExfatBootSector :=
  mkExfatBootSector 0 2048 24 16 40 2008 2 305441741 256 0 9 0 1 128 None 512 1 512.
Example sample_sector_parses : parse_boot_sector sample_sector = Ok sample_boot_sector.
Proof. vm_compute. reflexivity. Qed.
