(* ===== verification/ExfatRegion.v ===== *)
(** * exFAT boot regions

    The validator of the main and backup boot regions ([fs/exfat_region.rs]):
    twelve sectors each, the last one filled with a rotate-and-add checksum of
    the other eleven that skips the volume flags and the percentage in use.

    The theorems: a region is accepted exactly when it satisfies the contract of
    the specification; the checksum changes with every single byte it covers and
    with none of the three it skips, so no accepted region stays accepted after
    one byte of it is damaged; the comparison of the two regions reports the
    first difference, and only stale fields when there is none. *)

From S2P Require Export Prelude Bytes ExfatBoot.
From stdpp Require Import options.

#[local] Open Scope N_scope.

Definition MIN_BYTES_PER_SECTOR : N := 512.
Definition MAX_BYTES_PER_SECTOR : N := 4096.
Definition SECTORS_PER_BOOT_REGION : N := 12.
Definition CHECKSUMMED_SECTORS_PER_REGION : N := 11.
Definition TOTAL_BOOT_REGION_SECTORS : N := 24.
Definition CHECKSUM_SECTOR : N := 11.
Definition EXTENDED_BOOT_SIGNATURE : N := 2857697280.
Definition VOLUME_FLAGS_FIRST_OFFSET : N := 106.
Definition VOLUME_FLAGS_SECOND_OFFSET : N := 107.
Definition PERCENT_IN_USE_OFFSET : N := 112.

(** ** Data *)
Inductive ExfatBootRegionKind : Type := Main | Backup.

Record ExfatBootRegionValidation : Type := mkExfatBootRegionValidation {
  rv_kind : ExfatBootRegionKind;
  rv_boot_sector : ExfatBootSector;
  rv_boot_checksum : N
}.

Inductive ExfatBootRegionComparison : Type :=
| Exact
| EquivalentExceptStaleFields (volume_flags_differ percent_in_use_differs : bool)
| Divergent (first_differing_byte : N).

Record ExfatBootRegionsValidation : Type := mkExfatBootRegionsValidation {
  rs_main : ExfatBootRegionValidation;
  rs_backup : ExfatBootRegionValidation;
  rs_comparison : ExfatBootRegionComparison
}.

Inductive ExfatBootRegionError : Type :=
| InvalidSectorSize (found : N)
| RegionArithmeticOverflow (operation : string)
| RegionLengthMismatch (actual expected : N)
| InvalidBootSector (region : ExfatBootRegionKind) (source : ExfatBootSectorError)
| InvalidExtendedBootSignature (region : ExfatBootRegionKind) (sector found : N)
| InvalidBootChecksumWord (region : ExfatBootRegionKind) (word expected found : N).

#[export] Instance boot_sector_eq_dec : EqDecision ExfatBootSector.
Proof. solve_decision. Defined.
#[export] Instance comparison_eq_dec : EqDecision ExfatBootRegionComparison.
Proof. solve_decision. Defined.

(** ** Operations *)
Definition validate_sector_size (bytes_per_sector : N) : outcome ExfatBootRegionError unit :=
  refuse_if (negb (is_power_of_two bytes_per_sector)
             || negb ((MIN_BYTES_PER_SECTOR <=? bytes_per_sector)
                      && (bytes_per_sector <=? MAX_BYTES_PER_SECTOR)))
    (InvalidSectorSize bytes_per_sector).

(** [u32::rotate_right(1)]. *)
Definition rotate_right_1 (x : N) : N := N.lor (N.shiftr x 1) (N.shiftl (N.land x 1) 31).
Definition checksum_step (checksum : N) (byte : byte) : N :=
  (rotate_right_1 checksum + Byte.to_N byte) mod 2 ^ 32.
Definition is_stale_offset (index : N) : bool :=
  (index =? VOLUME_FLAGS_FIRST_OFFSET) || (index =? VOLUME_FLAGS_SECOND_OFFSET)
  || (index =? PERCENT_IN_USE_OFFSET).
Definition boot_checksum (covered_sectors : list byte) : N :=
  fold_left (fun checksum entry => checksum_step checksum (snd entry))
    (List.filter (fun entry => negb (is_stale_offset (fst entry))) (enumerate covered_sectors))
    0.

(** The words of [chunks_exact(4)] with their indices. *)
Definition validate_checksum_sector (sector : list byte) (expected : N)
    (kind : ExfatBootRegionKind) : outcome ExfatBootRegionError unit :=
  for_each (fun word =>
    found ← read_le 4 sector (4 * word);
    refuse_if (negb (found =? expected)) (InvalidBootChecksumWord kind word expected found))
    (indices (len sector / 4)).

Definition check_extended_signature (region : list byte) (bytes_per_sector : N)
    (kind : ExfatBootRegionKind) (sector : N) : outcome ExfatBootRegionError unit :=
  sector_start ← ok_or (RegionArithmeticOverflow "extended boot sector offset")
    (checked_mul sector bytes_per_sector);
  tail ← sub_u64 bytes_per_sector 4;
  signature_start ← ok_or (RegionArithmeticOverflow "extended boot signature offset")
    (checked_add sector_start tail);
  found ← read_le 4 region signature_start;
  refuse_if (negb (found =? EXTENDED_BOOT_SIGNATURE))
    (InvalidExtendedBootSignature kind sector found).

Definition validate_boot_region (region : list byte) (bytes_per_sector : N)
    (kind : ExfatBootRegionKind) : outcome ExfatBootRegionError ExfatBootRegionValidation :=
  validate_sector_size bytes_per_sector ;;
  expected_length ← ok_or (RegionArithmeticOverflow "boot-region byte length")
    (checked_mul bytes_per_sector SECTORS_PER_BOOT_REGION);
  refuse_if (negb (len region =? expected_length))
    (RegionLengthMismatch (len region) expected_length) ;;
  checksummed_bytes ← ok_or (RegionArithmeticOverflow "checksummed boot-region byte length")
    (checked_mul bytes_per_sector CHECKSUMMED_SECTORS_PER_REGION);
  covered ← index_range 0 checksummed_bytes region;
  let checksum := boot_checksum covered in
  checksum_sector_start ← ok_or (RegionArithmeticOverflow "boot checksum sector offset")
    (checked_mul bytes_per_sector CHECKSUM_SECTOR);
  checksum_sector ← index_range checksum_sector_start (len region) region;
  validate_checksum_sector checksum_sector checksum kind ;;
  first ← index_range 0 bytes_per_sector region;
  boot_sector ← map_err (InvalidBootSector kind) (parse_boot_sector first);
  for_each (check_extended_signature region bytes_per_sector kind) [1; 2; 3; 4; 5; 6; 7; 8] ;;
  Ok (mkExfatBootRegionValidation kind boot_sector checksum).

Definition differs_at {E : Type} (main backup : list byte) (offset : N) : outcome E bool :=
  a ← at_index main offset; b ← at_index backup offset; Ok (negb (bool_decide (a = b))).

Definition compare_regions (main backup : list byte) (bytes_per_sector : N)
    : outcome ExfatBootRegionError ExfatBootRegionComparison :=
  let compared_bytes := bytes_per_sector * CHECKSUMMED_SECTORS_PER_REGION in
  difference ← try_find (fun offset =>
    if is_stale_offset offset then Ok false else differs_at main backup offset)
    (indices compared_bytes);
  match difference with
  | Some first_differing_byte => Ok (Divergent first_differing_byte)
  | None =>
      first ← differs_at main backup VOLUME_FLAGS_FIRST_OFFSET;
      volume_flags_differ ←
        (if (first : bool) then Ok true else differs_at main backup VOLUME_FLAGS_SECOND_OFFSET);
      percent_in_use_differs ← differs_at main backup PERCENT_IN_USE_OFFSET;
      Ok (if volume_flags_differ || percent_in_use_differs
          then EquivalentExceptStaleFields volume_flags_differ percent_in_use_differs
          else Exact)
  end.

Definition validate_boot_regions (regions : list byte) (bytes_per_sector : N)
    : outcome ExfatBootRegionError ExfatBootRegionsValidation :=
  validate_sector_size bytes_per_sector ;;
  expected_length ← ok_or (RegionArithmeticOverflow "combined boot-region byte length")
    (checked_mul bytes_per_sector TOTAL_BOOT_REGION_SECTORS);
  refuse_if (negb (len regions =? expected_length))
    (RegionLengthMismatch (len regions) expected_length) ;;
  region_bytes ← ok_or (RegionArithmeticOverflow "single boot-region byte length")
    (checked_mul bytes_per_sector SECTORS_PER_BOOT_REGION);
  main_bytes ← index_range 0 region_bytes regions;
  backup_bytes ← index_range region_bytes (len regions) regions;
  main ← validate_boot_region main_bytes bytes_per_sector Main;
  backup ← validate_boot_region backup_bytes bytes_per_sector Backup;
  comparison ← compare_regions main_bytes backup_bytes bytes_per_sector;
  Ok (mkExfatBootRegionsValidation main backup comparison).

(** ** Specification *)

(** A valid region of sectors of [bytes_per_sector] bytes whose boot sector is
    [b]. *)
Record region_of (region : list byte) (bytes_per_sector : N) (b : ExfatBootSector) : Prop := {
  ro_len : len region = 12 * bytes_per_sector;
  ro_boot : boot_sector_of (subslice 0 bytes_per_sector region) b;
  ro_signatures : forall s, 1 <= s <= 8 ->
    field 4 region ((s + 1) * bytes_per_sector - 4) = EXTENDED_BOOT_SIGNATURE;
  ro_checksum : forall w, w < bytes_per_sector / 4 ->
    field 4 region (11 * bytes_per_sector + 4 * w) =
    boot_checksum (subslice 0 (11 * bytes_per_sector) region)
}.

(** * Lemmas *)

(** ** The checksum *)
Lemma rotate_right_1_value x :
  x < 2 ^ 32 -> rotate_right_1 x = x / 2 + x mod 2 * 2 ^ 31.
Proof.
  intros Hx. unfold rotate_right_1.
  assert (Hl : N.land x 1 = x mod 2) by (change 1 with (N.ones 1); apply N.land_ones).
  rewrite Hl, lor_shiftl_add, N.shiftr_div_pow2; [done |].
  rewrite N.shiftr_div_pow2. change (2 ^ 1) with 2. change (2 ^ 31) with 2147483648.
  change (2 ^ 32) with 4294967296 in Hx. apply N.Div0.div_lt_upper_bound. exact Hx.
Qed.
Lemma rotate_right_1_inj x y :
  x < 2 ^ 32 -> y < 2 ^ 32 -> rotate_right_1 x = rotate_right_1 y -> x = y.
Proof.
  intros Hx Hy. rewrite !rotate_right_1_value by done.
  change (2 ^ 31) with 2147483648. change (2 ^ 32) with 4294967296 in *.
  intros H. pose proof (N.Div0.div_mod x 2). pose proof (N.Div0.div_mod y 2).
  pose proof (N.mod_lt x 2 ltac:(done)). pose proof (N.mod_lt y 2 ltac:(done)).
  revert H. set (q := x / 2) in *. set (r := x mod 2) in *. set (q' := y / 2) in *.
  set (r' := y mod 2) in *. clearbody q r q' r'. intros H.
  assert (r = r') by (destruct (N.lt_trichotomy r r') as [|[|]]; lia). lia.
Qed.
Lemma rotate_right_1_bound x : x < 2 ^ 32 -> rotate_right_1 x < 2 ^ 32.
Proof.
  intros Hx. rewrite rotate_right_1_value by done.
  change (2 ^ 31) with 2147483648. change (2 ^ 32) with 4294967296 in *.
  pose proof (N.Div0.div_mod x 2). pose proof (N.mod_lt x 2 ltac:(done)). lia.
Qed.

Lemma add_mod_cancel a b c n :
  a < n -> b < n -> (a + c) mod n = (b + c) mod n -> a = b.
Proof.
  intros Ha Hb H.
  assert (Hd : forall x, exists q, x = n * q + x mod n)
    by (intros x; exists (x / n); apply N.Div0.div_mod).
  destruct (Hd (a + c)) as [q Hq], (Hd (b + c)) as [q' Hq']. rewrite H in Hq.
  destruct (N.lt_trichotomy q q') as [Hl|[->|Hl]]; [|lia|].
  - assert (n * (q + 1) <= n * q') by (apply N.mul_le_mono_l; lia). lia.
  - assert (n * (q' + 1) <= n * q) by (apply N.mul_le_mono_l; lia). lia.
Qed.

Lemma checksum_step_bound s b : checksum_step s b < 2 ^ 32.
Proof. by apply N.mod_lt. Qed.
Lemma checksum_step_inj s s' b :
  s < 2 ^ 32 -> s' < 2 ^ 32 -> checksum_step s b = checksum_step s' b -> s = s'.
Proof.
  intros Hs Hs' H. apply rotate_right_1_inj; [done | done |].
  eapply add_mod_cancel; [by apply rotate_right_1_bound.. | exact H].
Qed.
Lemma checksum_step_byte_inj s b b' :
  s < 2 ^ 32 -> checksum_step s b = checksum_step s b' -> b = b'.
Proof.
  unfold checksum_step. intros Hs H. rewrite !(N.add_comm (rotate_right_1 s)) in H.
  pose proof (to_N_bound b). pose proof (to_N_bound b').
  apply add_mod_cancel in H; [|change (2 ^ 32) with 4294967296; lia..].
  by rewrite <- (byte_of_N_to_N b), <- (byte_of_N_to_N b'), H.
Qed.

(** The checksum of a list that starts at offset [i] of the region. *)
Definition checksum_from (i s : N) (l : list byte) : N :=
  fold_left (fun checksum entry => checksum_step checksum (snd entry))
    (List.filter (fun entry => negb (is_stale_offset (fst entry))) (enumerate_from i l)) s.

Lemma checksum_from_cons i s b l :
  checksum_from i s (b :: l) =
  checksum_from (i + 1) (if is_stale_offset i then s else checksum_step s b) l.
Proof. unfold checksum_from. simpl. by destruct (is_stale_offset i). Qed.
Lemma checksum_from_app i s l1 l2 :
  checksum_from i s (l1 ++ l2) = checksum_from (i + len l1) (checksum_from i s l1) l2.
Proof.
  revert i s. induction l1 as [|b l1 IH]; intros i s; simpl.
  - by rewrite len_nil, N.add_0_r.
  - rewrite !checksum_from_cons, IH, len_cons. by rewrite N.add_assoc.
Qed.
Lemma checksum_from_bound i s l : s < 2 ^ 32 -> checksum_from i s l < 2 ^ 32.
Proof.
  revert i s. induction l as [|b l IH]; intros i s Hs; [done |].
  rewrite checksum_from_cons. apply IH. destruct (is_stale_offset i); [done |].
  apply checksum_step_bound.
Qed.
Lemma checksum_from_inj i s s' l :
  s < 2 ^ 32 -> s' < 2 ^ 32 -> checksum_from i s l = checksum_from i s' l -> s = s'.
Proof.
  revert i s s'. induction l as [|b l IH]; intros i s s' Hs Hs'; [done |].
  rewrite !checksum_from_cons. destruct (is_stale_offset i); [by apply IH |].
  intros H. apply IH in H; [|apply checksum_step_bound..]. by eapply checksum_step_inj.
Qed.

Lemma boot_checksum_insert l i b b' :
  l !! N.to_nat i = Some b -> b' <> b ->
  boot_checksum (<[N.to_nat i := b']> l) = boot_checksum l <-> is_stale_offset i = true.
Proof.
  intros Hl Hb. apply split_at in Hl as (l1 & l2 & -> & ->).
  replace (N.to_nat (len l1)) with (length l1 + 0)%nat by (unfold len; lia).
  rewrite insert_app_r. cbn [insert list_insert].
  change boot_checksum with (checksum_from 0 0).
  rewrite !checksum_from_app, !checksum_from_cons, N.add_0_l.
  destruct (is_stale_offset (len l1)); [done |]. split; [|done]. intros H.
  apply checksum_from_inj in H; [|apply checksum_step_bound..].
  apply checksum_step_byte_inj in H; [done |]. by apply checksum_from_bound.
Qed.

(** ** Regions *)
Definition sector_size_ok (bps : N) : Prop := bps = 512 \/ bps = 1024 \/ bps = 2048 \/ bps = 4096.

Lemma sector_size_shift bps : sector_size_ok bps <-> exists k, 9 <= k <= 12 /\ bps = 2 ^ k.
Proof.
  split.
  - intros [-> | [-> | [-> | ->]]]; [exists 9 | exists 10 | exists 11 | exists 12]; split; lia || done.
  - intros (k & Hk & ->). unfold sector_size_ok.
    assert (k = 9 \/ k = 10 \/ k = 11 \/ k = 12) as [-> | [-> | [-> | ->]]] by lia; auto.
Qed.
Lemma validate_sector_size_Ok bps u : validate_sector_size bps = Ok u <-> sector_size_ok bps.
Proof.
  unfold validate_sector_size, MIN_BYTES_PER_SECTOR, MAX_BYTES_PER_SECTOR.
  rewrite refuse_if_Ok, orb_false_iff, !negb_false_iff, andb_true_iff, !N.leb_le,
    is_power_of_two_spec, sector_size_shift. split.
  - intros [[k ->] [H1 H2]]. exists k. split; [|done].
    change 512 with (2 ^ 9) in H1. change 4096 with (2 ^ 12) in H2.
    apply N.pow_le_mono_r_iff in H1; [|lia]. apply N.pow_le_mono_r_iff in H2; lia.
  - intros (k & Hk & ->). split; [by exists k |].
    change 512 with (2 ^ 9). change 4096 with (2 ^ 12). split; apply N.pow_le_mono_r; lia.
Qed.
Lemma sector_size_bound bps : sector_size_ok bps -> 512 <= bps <= 4096 /\ 4 * (bps / 4) = bps.
Proof. by intros [-> | [-> | [-> | ->]]]. Qed.

Lemma boot_sector_size_ok sector b :
  boot_sector_of sector b -> sector_size_ok (eb_bytes_per_sector b).
Proof. intros (_ & _ & _ & []). apply sector_size_shift. eauto. Qed.

Lemma validate_checksum_sector_Ok sector expected kind u :
  validate_checksum_sector sector expected kind = Ok u <->
  forall w, w < len sector / 4 -> field 4 sector (4 * w) = expected.
Proof.
  unfold validate_checksum_sector. rewrite for_each_Ok, Forall_forall.
  pose proof (N.Div0.mul_div_le (len sector) 4).
  split.
  - intros Hf w Hw. specialize (Hf w ltac:(by apply elem_of_indices)). inv_ok. inv_reads.
    by bool_props.
  - intros Hf w Hw. apply elem_of_indices in Hw. read_step.
    apply refuse_step, negb_false_iff, N.eqb_eq. by apply Hf.
Qed.

Lemma check_extended_signature_Ok region bps kind s u :
  512 <= bps <= 4096 -> len region = 12 * bps -> 1 <= s <= 8 ->
  check_extended_signature region bps kind s = Ok u <->
  field 4 region ((s + 1) * bps - 4) = EXTENDED_BOOT_SIGNATURE.
Proof.
  intros Hb Hl Hs. unfold check_extended_signature. widths. destruct u.
  assert (s * bps <= 8 * bps) by (apply N.mul_le_mono_r; lia).
  rewrite N.mul_add_distr_r, N.mul_1_l.
  replace (s * bps + bps - 4) with (s * bps + (bps - 4)) by lia. split.
  - intros H0. inv_ok. inv_reads. by bool_props.
  - intros H0. ok_step. ok_step. ok_step. read_step. by apply refuse_step, negb_false_iff, N.eqb_eq.
Qed.

Lemma elem_of_extended_sectors s : s ∈ [1; 2; 3; 4; 5; 6; 7; 8] <-> 1 <= s <= 8.
Proof. rewrite !elem_of_cons, elem_of_nil. lia. Qed.

Lemma validate_boot_region_Ok region bps kind v :
  validate_boot_region region bps kind = Ok v <->
  rv_kind v = kind /\ region_of region bps (rv_boot_sector v) /\
  rv_boot_checksum v = boot_checksum (subslice 0 (11 * bps) region).
Proof.
  unfold validate_boot_region, SECTORS_PER_BOOT_REGION, CHECKSUMMED_SECTORS_PER_REGION,
    CHECKSUM_SECTOR. widths. split.
  - intros H. apply bind_Ok in H as ([] & Hs & H). apply validate_sector_size_Ok in Hs.
    pose proof (sector_size_bound _ Hs) as [Hb H4]. inv_ok. inv_reads. bool_props.
    repeat match goal with H : parse_boot_sector _ = Ok _ |- _ => apply parse_boot_sector_iff in H end.
    repeat match goal with H : validate_checksum_sector _ _ _ = Ok _ |- _ =>
      rewrite (validate_checksum_sector_Ok _ _ _ _) in H; rename H into Hc end.
    repeat match goal with H : for_each _ _ = Ok _ |- _ =>
      apply for_each_Ok in H; rewrite Forall_forall in H; rename H into He end.
    rewrite !(N.mul_comm bps) in *. rewrite len_subslice in Hc by lia.
    cbn [rv_kind rv_boot_sector rv_boot_checksum]. split_and!; [done | | done].
    split; [done | done | |].
    + intros s Hsr. eapply check_extended_signature_Ok; [done | done | done |].
      by apply He, elem_of_extended_sectors.
    + intros w Hw. rewrite <- (Hc w); [|by replace (len region - 11 * bps) with bps by lia].
      symmetry. apply field_of_slice. lia.
  - destruct v as [k b c]. cbn [rv_kind rv_boot_sector rv_boot_checksum].
    intros (-> & [Hl Hp Hs Hc] & ->).
    assert (Hz : eb_bytes_per_sector b = bps).
    { pose proof (proj1 Hp) as Hq. rewrite len_subslice in Hq by lia. lia. }
    pose proof (boot_sector_size_ok _ _ Hp) as Hok. rewrite Hz in Hok.
    pose proof (sector_size_bound _ Hok) as [Hb H4].
    eapply bind_step; [by apply (validate_sector_size_Ok _ tt) | cbv beta].
    ok_step. ok_step. ok_step. read_step. cbv zeta. ok_step. read_step.
    rewrite !(N.mul_comm bps).
    eapply bind_step; [apply (validate_checksum_sector_Ok _ _ _ tt) | cbv beta].
    { intros w Hw. rewrite len_subslice in Hw by lia.
      replace (len region - 11 * bps) with bps in Hw by lia.
      rewrite field_of_slice by lia. by apply Hc. }
    read_step. apply parse_boot_sector_iff in Hp. rewrite Hp. cbn [map_err].
    cbn [mbind outcome_bind]. eapply bind_step; [apply (for_each_Ok _ _ tt) | done].
    rewrite Forall_forall. intros s Hsr%elem_of_extended_sectors.
    apply check_extended_signature_Ok; [done | done | done | by apply Hs].
Qed.

Lemma sector_size_mul bps n : sector_size_ok bps -> n <= 24 -> bps * n <= u64_max.
Proof.
  intros [Hb _]%sector_size_bound Hn. widths.
  assert (bps * n <= 4096 * 24) by (apply N.mul_le_mono; lia). lia.
Qed.

Lemma validate_boot_region_safe region bps kind : validate_boot_region region bps kind <> Panic.
Proof.
  unfold validate_boot_region, SECTORS_PER_BOOT_REGION, CHECKSUMMED_SECTORS_PER_REGION,
    CHECKSUM_SECTOR. widths.
  apply bind_safe; [apply refuse_if_safe | intros [] Hs].
  apply validate_sector_size_Ok in Hs. pose proof (sector_size_bound _ Hs) as [Hb H4].
  safe; inv_ok; inv_reads; bool_props; try (apply index_range_safe; lia).
  - unfold validate_checksum_sector. safe.
    pose proof (N.Div0.mul_div_le (len (subslice (bps * 11) (len region) region)) 4).
    match goal with H : _ ∈ indices _ |- _ => apply elem_of_indices in H end.
    apply read_le_safe. lia.
  - apply parse_boot_sector_safe.
  - unfold check_extended_signature. safe; inv_ok; try (apply sub_u64_safe; lia).
    match goal with H : _ ∈ _ |- _ => apply elem_of_extended_sectors in H end.
    assert (x * bps <= 8 * bps) by (apply N.mul_le_mono_r; lia). apply read_le_safe. lia.
Qed.

(** ** The comparison *)
Lemma differs_at_Ok {E} main backup i d :
  i < len main -> i < len backup ->
  @differs_at E main backup i = Ok d <->
  d = negb (bool_decide (main !! N.to_nat i = backup !! N.to_nat i)).
Proof.
  intros Hm Hb. unfold differs_at, at_index.
  destruct (lookup_lt_is_Some_2 main (N.to_nat i)) as [x ->]; [unfold len in *; lia |].
  destruct (lookup_lt_is_Some_2 backup (N.to_nat i)) as [y ->]; [unfold len in *; lia |].
  simpl. rewrite (bool_decide_ext (x = y) (Some x = Some y)) by naive_solver. naive_solver.
Qed.

(** The bytes of the two regions that must agree. *)
Definition agree_below (main backup : list byte) (n : N) : Prop :=
  forall i, i < n -> is_stale_offset i = false -> main !! N.to_nat i = backup !! N.to_nat i.
Definition comparison_means (main backup : list byte) (bps : N)
    (c : ExfatBootRegionComparison) : Prop :=
  match c with
  | Exact => subslice 0 (11 * bps) main = subslice 0 (11 * bps) backup
  | EquivalentExceptStaleFields flags percent =>
      agree_below main backup (11 * bps) /\ flags || percent = true /\
      flags = bool_decide (subslice 106 108 main <> subslice 106 108 backup) /\
      percent = bool_decide (subslice 112 113 main <> subslice 112 113 backup)
  | Divergent i =>
      i < 11 * bps /\ is_stale_offset i = false /\ agree_below main backup i /\
      main !! N.to_nat i <> backup !! N.to_nat i
  end.

Lemma subslice_eq_iff {A} (l1 l2 : list A) lo hi :
  subslice lo hi l1 = subslice lo hi l2 <->
  forall i, lo <= i < hi -> l1 !! N.to_nat i = l2 !! N.to_nat i.
Proof.
  split.
  - intros He i Hi. apply (f_equal (fun l => l !! N.to_nat (i - lo))) in He.
    rewrite !subslice_lookup in He by lia.
    by replace (N.to_nat lo + N.to_nat (i - lo))%nat with (N.to_nat i) in He by lia.
  - intros He. apply list_eq. intros i. destruct (N.lt_ge_cases (N.of_nat i) (hi - lo)).
    + rewrite !subslice_lookup by done. specialize (He (lo + N.of_nat i) ltac:(lia)).
      by replace (N.to_nat (lo + N.of_nat i)) with (N.to_nat lo + i)%nat in He by lia.
    + by rewrite !subslice_lookup_ge by done.
Qed.

Lemma stale_offset_true i : is_stale_offset i = true <-> i = 106 \/ i = 107 \/ i = 112.
Proof.
  unfold is_stale_offset, VOLUME_FLAGS_FIRST_OFFSET, VOLUME_FLAGS_SECOND_OFFSET,
    PERCENT_IN_USE_OFFSET. rewrite !orb_true_iff, !N.eqb_eq. tauto.
Qed.

Lemma find_difference_None main backup n :
  n <= len main -> n <= len backup ->
  Forall (fun i => (if is_stale_offset i then Ok false
                    else differs_at (E := ExfatBootRegionError) main backup i) = Ok false)
    (indices n) <-> agree_below main backup n.
Proof.
  intros Hm Hb. rewrite Forall_forall. split.
  - intros Hf i Hi Hs. specialize (Hf i ltac:(by apply elem_of_indices)).
    rewrite Hs in Hf. apply differs_at_Ok in Hf; [|lia..].
    by apply eq_sym, negb_false_iff, bool_decide_eq_true in Hf.
  - intros Ha i Hi%elem_of_indices. destruct (is_stale_offset i) eqn:Hs; [done |].
    apply differs_at_Ok; [lia..|]. symmetry. by apply negb_false_iff, bool_decide_eq_true, Ha.
Qed.

Lemma indices_split n l1 x l2 : indices n = l1 ++ x :: l2 -> x < n /\ l1 = indices x.
Proof.
  revert l1 l2. induction n as [|n IH] using N.peano_ind; intros l1 l2.
  { by destruct l1. }
  rewrite <- N.add_1_r, indices_succ. intros H.
  destruct (last_snoc_inv l2) as [->|(l2' & y & ->)].
  - apply app_inj_tail in H as [<- <-]. split; [lia | done].
  - rewrite app_comm_cons, app_assoc in H. apply app_inj_tail in H as [H _].
    apply IH in H as [? ->]. split; [lia | done].
Qed.

Lemma volume_flags_slice (main backup : list byte) :
  subslice 106 108 main = subslice 106 108 backup <->
  main !! N.to_nat 106 = backup !! N.to_nat 106 /\ main !! N.to_nat 107 = backup !! N.to_nat 107.
Proof.
  rewrite subslice_eq_iff. split; [intros H; split; apply H; lia |]. intros [H1 H2] i Hi.
  assert (i = 106 \/ i = 107) as [-> | ->] by lia; done.
Qed.
Lemma percent_slice (main backup : list byte) :
  subslice 112 113 main = subslice 112 113 backup <->
  main !! N.to_nat 112 = backup !! N.to_nat 112.
Proof.
  rewrite subslice_eq_iff. split; [intros H; apply H; lia |]. intros H i Hi.
  by assert (i = 112) as -> by lia.
Qed.
Lemma agree_exact main backup n :
  agree_below main backup n ->
  main !! N.to_nat 106 = backup !! N.to_nat 106 ->
  main !! N.to_nat 107 = backup !! N.to_nat 107 ->
  main !! N.to_nat 112 = backup !! N.to_nat 112 ->
  subslice 0 n main = subslice 0 n backup.
Proof.
  intros Hf H1 H2 H3. apply subslice_eq_iff. intros i [_ Hi].
  destruct (is_stale_offset i) eqn:Hs; [|by apply Hf].
  by apply stale_offset_true in Hs as [-> | [-> | ->]].
Qed.

Lemma compare_regions_means main backup bps :
  512 <= bps <= 4096 -> 11 * bps <= len main -> 11 * bps <= len backup ->
  exists c, compare_regions main backup bps = Ok c /\ comparison_means main backup bps c.
Proof.
  intros Hb Hm Hk. unfold compare_regions, CHECKSUMMED_SECTORS_PER_REGION.
  rewrite (N.mul_comm bps 11).
  assert (Hd : forall i, i < 11 * bps -> differs_at (E := ExfatBootRegionError) main backup i =
    Ok (negb (bool_decide (main !! N.to_nat i = backup !! N.to_nat i))))
    by (intros; apply differs_at_Ok; [lia | lia | done]).
  match goal with |- context [try_find ?p ?l] => destruct (try_find_total p l) as [[i|] Hf] end.
  { intros i Hi%elem_of_indices. destruct (is_stale_offset i); [by eexists | eexists; by apply Hd]. }
  - rewrite Hf. apply try_find_Some in Hf as (l1 & l2 & Hl & Hf & Hi).
    apply indices_split in Hl as [Hin ->]. eexists. split; [reflexivity |]. simpl.
    destruct (is_stale_offset i) eqn:Hs; [done |].
    apply differs_at_Ok in Hi; [|lia..]. apply eq_sym, negb_true_iff, bool_decide_eq_false in Hi.
    split_and!; [done | done | | done]. apply find_difference_None; [lia.. | done].
  - rewrite Hf. apply try_find_None, find_difference_None in Hf; [|lia..].
    cbn [mbind outcome_bind]. unfold VOLUME_FLAGS_FIRST_OFFSET, VOLUME_FLAGS_SECOND_OFFSET,
      PERCENT_IN_USE_OFFSET. rewrite !Hd by lia. cbn [mbind outcome_bind].
    pose proof (volume_flags_slice main backup) as Hflags.
    pose proof (percent_slice main backup) as Hpercent.
    pose proof (agree_exact main backup (11 * bps) Hf) as Hexact.
    revert Hflags Hpercent Hexact.
    generalize (main !! N.to_nat 106), (backup !! N.to_nat 106), (main !! N.to_nat 107),
      (backup !! N.to_nat 107), (main !! N.to_nat 112), (backup !! N.to_nat 112).
    intros a1 b1 a2 b2 a3 b3 Hflags Hpercent Hexact.
    destruct (decide (a1 = b1)) as [H1|H1]; [rewrite (bool_decide_eq_true_2 _ H1) | rewrite (bool_decide_eq_false_2 _ H1)];
    (destruct (decide (a2 = b2)) as [H2|H2]; [rewrite (bool_decide_eq_true_2 _ H2) | rewrite (bool_decide_eq_false_2 _ H2)]);
    (destruct (decide (a3 = b3)) as [H3|H3]; [rewrite (bool_decide_eq_true_2 _ H3) | rewrite (bool_decide_eq_false_2 _ H3)]);
    eexists; (split; [reflexivity |]); simpl; try (by apply Hexact);
    (split_and!; [done | done | |]); symmetry;
    first [apply bool_decide_eq_true_2 | apply bool_decide_eq_false_2]; rewrite ?Hflags, ?Hpercent; naive_solver.
Qed.

Lemma lookup_insert_byte (l : list byte) i j b :
  l !! N.to_nat i <> None ->
  <[N.to_nat i := b]> l !! N.to_nat j = if decide (i = j) then Some b else l !! N.to_nat j.
Proof.
  intros Hi. case_decide as Hd.
  - subst. apply list_lookup_insert_eq. apply lookup_lt_is_Some. by apply not_eq_None_Some.
  - apply list_lookup_insert_ne. lia.
Qed.
Lemma subslice_insert_other (l : list byte) i b lo hi :
  i < lo \/ hi <= i -> subslice lo hi (<[N.to_nat i := b]> l) = subslice lo hi l.
Proof.
  intros Hi. apply subslice_eq_iff. intros j Hj. apply list_lookup_insert_ne. lia.
Qed.
Lemma subslice_insert_prefix (l : list byte) i b n :
  i < n -> subslice 0 n (<[N.to_nat i := b]> l) = <[N.to_nat i := b]> (subslice 0 n l).
Proof.
  intros Hi. unfold subslice. change (N.to_nat 0) with 0%nat. rewrite !drop_0, N.sub_0_r.
  apply take_insert_lt. lia.
Qed.

Lemma compare_regions_same main bps :
  512 <= bps <= 4096 -> 11 * bps <= len main -> compare_regions main main bps = Ok Exact.
Proof.
  intros Hb Hl. destruct (compare_regions_means main main bps Hb Hl Hl) as (c & -> & Hc).
  destruct c as [|flags percent|i]; [done | | by destruct Hc as (_ & _ & _ & ?)].
  destruct Hc as (_ & Ht & -> & ->). by rewrite !bool_decide_eq_false_2 in Ht by auto.
Qed.

(** The contract of [validate_boot_regions]. *)
Lemma validate_boot_regions_spec regions bps :
  validate_boot_regions regions bps <> Panic /\
  forall v, validate_boot_regions regions bps = Ok v <->
    (let main := subslice 0 (12 * bps) regions in
     let backup := subslice (12 * bps) (24 * bps) regions in
     len regions = 24 * bps /\
     region_of main bps (rv_boot_sector (rs_main v)) /\
     region_of backup bps (rv_boot_sector (rs_backup v)) /\
     rs_main v = mkExfatBootRegionValidation Main (rv_boot_sector (rs_main v))
       (boot_checksum (subslice 0 (11 * bps) main)) /\
     rs_backup v = mkExfatBootRegionValidation Backup (rv_boot_sector (rs_backup v))
       (boot_checksum (subslice 0 (11 * bps) backup)) /\
     compare_regions main backup bps = Ok (rs_comparison v) /\
     comparison_means main backup bps (rs_comparison v)).
Proof.
  unfold validate_boot_regions, SECTORS_PER_BOOT_REGION, TOTAL_BOOT_REGION_SECTORS. widths.
  assert (Hcmp : sector_size_ok bps -> len regions = 24 * bps -> exists c,
    compare_regions (subslice 0 (12 * bps) regions) (subslice (12 * bps) (24 * bps) regions) bps
      = Ok c /\ comparison_means (subslice 0 (12 * bps) regions)
                  (subslice (12 * bps) (24 * bps) regions) bps c).
  { intros Hs Hl. pose proof (sector_size_bound _ Hs) as [Hb H4].
    apply compare_regions_means; [done | rewrite len_subslice by lia; lia..]. }
  split.
  - apply bind_safe; [apply refuse_if_safe | intros [] Hs]. apply validate_sector_size_Ok in Hs.
    pose proof (sector_size_bound _ Hs) as [Hb H4].
    safe; inv_ok; inv_reads; bool_props; try (apply index_range_safe; lia);
      try apply validate_boot_region_safe.
    rewrite !(N.mul_comm bps) in *. destruct Hcmp as (c & Hc & _); [done | done |].
    replace (len regions) with (24 * bps) by lia. by rewrite Hc.
  - intros v. cbv zeta. split.
    + intros H. apply bind_Ok in H as ([] & Hs & H). apply validate_sector_size_Ok in Hs.
      inv_ok. inv_reads. bool_props. rewrite !(N.mul_comm bps) in *.
      match goal with H : len regions = _ |- _ => rewrite H in * end.
      repeat match goal with H : validate_boot_region _ _ _ = Ok _ |- _ =>
        apply validate_boot_region_Ok in H as (? & ? & ?) end.
      destruct (Hcmp Hs eq_refl) as (c & Hc & Hm).
      repeat match goal with v : ExfatBootRegionValidation |- _ => destruct v end.
      simpl in *. subst. split_and!; try done. congruence.
    + destruct v as [[k1 b1 c1] [k2 b2 c2] c]. cbn [rs_main rs_backup rs_comparison rv_boot_sector].
      intros (Hl & Hm & Hb & Hv1 & Hv2 & Hc & _).
      assert (Hz : eb_bytes_per_sector b1 = bps).
      { pose proof (ro_len _ _ _ Hm) as Hq. rewrite len_subslice in Hq by lia.
        pose proof (proj1 (ro_boot _ _ _ Hm)) as Hq'. rewrite !len_subslice in Hq' by (rewrite ?len_subslice; lia). lia. }
      pose proof (boot_sector_size_ok _ _ (ro_boot _ _ _ Hm)) as Hs. rewrite Hz in Hs.
      pose proof (sector_size_bound _ Hs) as [Hr _].
      eapply bind_step; [by apply (validate_sector_size_Ok _ tt) | cbv beta].
      ok_step. ok_step. ok_step. read_step. read_step. rewrite !(N.mul_comm bps), Hl.
      injection Hv1 as -> ->. injection Hv2 as -> ->.
      eapply bind_step; [eapply (validate_boot_region_Ok _ _ _ (mkExfatBootRegionValidation Main b1 _)); by split_and! | cbv beta].
      eapply bind_step; [eapply (validate_boot_region_Ok _ _ _ (mkExfatBootRegionValidation Backup b2 _)); by split_and! | cbv beta].
      by rewrite Hc.
Qed.

(** * Properties *)

(** C32: damaging one byte of a valid boot region (any byte but the three the
    checksum skips) makes the validator refuse the region: the checksum is
    sensitive to every byte that it covers, whatever the value was and becomes,
    and every word of the checksum sector is compared. *)
Theorem corrupted_region_refused region bps kind v i b b' :
  validate_boot_region region bps kind = Ok v ->
  region !! N.to_nat i = Some b -> b' <> b -> is_stale_offset i = false ->
  exists e, validate_boot_region (<[N.to_nat i := b']> region) bps kind = Err e.
Proof.
  intros Hv Hb Hn Hi.
  destruct (validate_boot_region (<[N.to_nat i := b']> region) bps kind) as [v'|e|] eqn:Hv';
    [exfalso | by exists e | by apply validate_boot_region_safe in Hv'].
  apply validate_boot_region_Ok in Hv as (_ & [Hl Hp _ Hc] & _).
  apply validate_boot_region_Ok in Hv' as (_ & [Hl' _ _ Hc'] & _).
  assert (Hz : eb_bytes_per_sector (rv_boot_sector v) = bps).
  { pose proof (proj1 Hp) as Hq. rewrite len_subslice in Hq by lia. lia. }
  pose proof (boot_sector_size_ok _ _ Hp) as Hok. rewrite Hz in Hok.
  pose proof (sector_size_bound _ Hok) as [Hr H4].
  pose proof (lookup_lt_Some _ _ _ Hb) as Hlt.
  destruct (N.lt_ge_cases i (11 * bps)) as [Hin|Hin].
  - specialize (Hc 0 ltac:(lia)). specialize (Hc' 0 ltac:(lia)).
    unfold field in Hc, Hc'. rewrite subslice_insert_other, Hc in Hc' by lia.
    rewrite subslice_insert_prefix in Hc' by done. symmetry in Hc'.
    apply boot_checksum_insert with (b := b) in Hc'; [congruence | | done].
    rewrite subslice_lookup by lia. by rewrite Nat.add_0_l.
  - set (w := (i - 11 * bps) / 4).
    assert (Hw : w < bps / 4) by (apply N.Div0.div_lt_upper_bound; unfold len in Hl; lia).
    specialize (Hc w Hw). specialize (Hc' w Hw).
    rewrite (subslice_insert_other _ _ _ 0) in Hc' by lia. rewrite <- Hc in Hc'.
    apply le_num_inj in Hc'; [|unfold subslice; rewrite !length_take, !length_drop, length_insert; done].
    apply subslice_eq_iff with (i := i) in Hc'.
    + rewrite lookup_insert_byte, decide_True, Hb in Hc' by congruence. congruence.
    + pose proof (N.Div0.div_mod (i - 11 * bps) 4) as Hd. fold w in Hd.
      pose proof (N.mod_lt (i - 11 * bps) 4 ltac:(done)) as Hr4.
      clearbody w. revert Hd Hr4. generalize ((i - 11 * bps) mod 4). intros r Hd Hr4.
      change (N.of_nat 4) with 4. clear - Hin Hd Hr4. lia.
Qed.

(** [validate_boot_regions] never panics, and it accepts a byte string
    exactly when its two halves are valid boot regions of the given sector size;
    the comparison it reports is the true relation of the two regions. *)
Theorem boot_regions_contract regions bps :
  validate_boot_regions regions bps <> Panic /\
  forall v, validate_boot_regions regions bps = Ok v <->
    (let main := subslice 0 (12 * bps) regions in
     let backup := subslice (12 * bps) (24 * bps) regions in
     len regions = 24 * bps /\
     region_of main bps (rv_boot_sector (rs_main v)) /\
     region_of backup bps (rv_boot_sector (rs_backup v)) /\
     rs_main v = mkExfatBootRegionValidation Main (rv_boot_sector (rs_main v))
       (boot_checksum (subslice 0 (11 * bps) main)) /\
     rs_backup v = mkExfatBootRegionValidation Backup (rv_boot_sector (rs_backup v))
       (boot_checksum (subslice 0 (11 * bps) backup)) /\
     compare_regions main backup bps = Ok (rs_comparison v) /\
     comparison_means main backup bps (rs_comparison v)).
Proof. apply validate_boot_regions_spec. Qed.

(** ** Witness *)
Definition zero_extended_sector : list byte := replicate 508 x00 ++ u32_le EXTENDED_BOOT_SIGNATURE.
Definition sample_covered : list byte :=
  sample_sector ++ concat (replicate 8 zero_extended_sector) ++ replicate 1024 x00.
Definition sample_region : list byte :=
  sample_covered ++ concat (replicate 128 (u32_le (boot_checksum sample_covered))).

Lemma corrupted_region_refused_witness :
  exists e, validate_boot_region (<[N.to_nat 600 := x01]> sample_region) 512 Main = Err e.
Proof.
  apply (corrupted_region_refused sample_region 512 Main
    (mkExfatBootRegionValidation Main sample_boot_sector 714790889) 600 x00 x01).
  - vm_compute. reflexivity.
  - vm_compute. reflexivity.
  - done.
  - reflexivity.
Defined.
