(* ===== verification/ExfatAllocation.v ===== *)
(** * exFAT allocation structures

    The primitives of [fs/exfat_allocation.rs]: the cluster heap, the file
    allocation table as linked lists, and the allocation bitmap.

    The theorems: the clusters of a valid volume are disjoint byte ranges inside
    the volume and their offsets never overflow; the chain iterator terminates on
    every table, returns exactly the path that the table links from the start
    cluster to an end mark, and never visits a cluster twice; the summary of a
    bitmap counts exactly the clusters that the bitmap marks allocated. *)

From S2P Require Export Prelude Bytes Bits ExfatBoot.
From stdpp Require Import options.

#[local] Open Scope N_scope.

Definition FIRST_DATA_CLUSTER : N := 2.
Definition BAD_CLUSTER : N := 4294967287.
Definition END_OF_CHAIN : N := u32_max.

(** ** Data *)
Inductive FatEntry : Type :=
| Free
| Next (cluster : N)
| Bad
| EndOfChain.

Record FatChain : Type := mkFatChain {
  fc_next : option N;
  fc_traversed : N;
  fc_start_cluster : N
}.

Record AllocationSummary : Type := mkAllocationSummary {
  as_allocated_clusters : N;
  as_free_clusters : N;
  as_required_bitmap_bytes : N
}.

Inductive ExfatAllocationError : Type :=
| InvalidCluster (cluster : N)
| AllocationArithmeticOverflow (calculation : string)
| FatSliceTooShort (required actual : N)
| BitmapSliceTooShort (required actual : N)
| BitmapSliceTooLong (required actual : N)
| BitmapReservedTailBitSet (bit_index : N)
| InvalidFatValue (cluster value : N)
| FreeClusterInChain (cluster : N)
| BadClusterInChain (cluster : N)
| ChainCycleOrTooLong (start_cluster : N).

(** ** Clusters *)
Definition validate_cluster (geometry : ExfatBootSector) (cluster : N)
    : outcome ExfatAllocationError unit :=
  cluster_limit ← ok_or (AllocationArithmeticOverflow "cluster heap index limit")
    (checked_add_u32 FIRST_DATA_CLUSTER (eb_cluster_count geometry));
  refuse_if ((cluster <? FIRST_DATA_CLUSTER) || (cluster_limit <=? cluster))
    (InvalidCluster cluster).

Definition cluster_byte_offset (geometry : ExfatBootSector) (cluster : N)
    : outcome ExfatAllocationError N :=
  validate_cluster geometry cluster ;;
  relative_cluster ← sub_u64 cluster FIRST_DATA_CLUSTER;
  relative_bytes ← ok_or (AllocationArithmeticOverflow "cluster-relative byte offset")
    (checked_mul relative_cluster (eb_bytes_per_cluster geometry));
  ok_or (AllocationArithmeticOverflow "image-relative cluster byte offset")
    (heap_offset ← checked_mul (eb_cluster_heap_offset_sectors geometry)
                     (eb_bytes_per_sector geometry);
     checked_add heap_offset relative_bytes).

(** ** The file allocation table *)

(** The meaning of a table value, shared by every reader of the table. *)
Definition classify_fat_value (geometry : ExfatBootSector) (cluster value : N)
    : outcome ExfatAllocationError FatEntry :=
  if value =? 0 then Ok Free
  else if value =? BAD_CLUSTER then Ok Bad
  else if value =? END_OF_CHAIN then Ok EndOfChain
  else match validate_cluster geometry value with
       | Ok _ => Ok (Next value)
       | Err _ => Err (InvalidFatValue cluster value)
       | Panic => Panic
       end.

Definition fat_entry (fat : list byte) (geometry : ExfatBootSector) (cluster : N)
    : outcome ExfatAllocationError FatEntry :=
  validate_cluster geometry cluster ;;
  offset ← ok_or (AllocationArithmeticOverflow "FAT entry byte offset") (checked_mul cluster 4);
  end_ ← ok_or (AllocationArithmeticOverflow "FAT entry end") (checked_add offset 4);
  offset_usize ← ok_or (AllocationArithmeticOverflow "FAT entry platform offset")
    (usize_try_from offset);
  end_usize ← add_u64 offset_usize 4;
  bytes ← ok_or (FatSliceTooShort end_ (len fat)) (get_range offset_usize end_usize fat);
  classify_fat_value geometry cluster (le_num bytes).

Definition fat_chain (geometry : ExfatBootSector) (start_cluster : N)
    : outcome ExfatAllocationError FatChain :=
  validate_cluster geometry start_cluster ;;
  Ok (mkFatChain (Some start_cluster) 0 start_cluster).

(** [Iterator::next]: the item, if any, and the iterator after it. *)
Definition fat_chain_next (fat : list byte) (geometry : ExfatBootSector) (chain : FatChain)
    : option (outcome ExfatAllocationError N) * FatChain :=
  match fc_next chain with
  | None => (None, chain)
  | Some cluster =>
      let finished := mkFatChain None (fc_traversed chain + 1) (fc_start_cluster chain) in
      if eb_cluster_count geometry <=? fc_traversed chain then
        (Some (Err (ChainCycleOrTooLong (fc_start_cluster chain))),
         mkFatChain None (fc_traversed chain) (fc_start_cluster chain))
      else
        match fat_entry fat geometry cluster with
        | Ok (Next next) =>
            (Some (Ok cluster),
             mkFatChain (Some next) (fc_traversed chain + 1) (fc_start_cluster chain))
        | Ok EndOfChain => (Some (Ok cluster), finished)
        | Ok Free => (Some (Err (FreeClusterInChain cluster)), finished)
        | Ok Bad => (Some (Err (BadClusterInChain cluster)), finished)
        | Err error => (Some (Err error), finished)
        | Panic => (Some Panic, finished)
        end
  end.

(** [collect::<Result<Vec<u32>, _>>()] drives the iterator until it is exhausted
    or an item is an error. *)
Fixpoint collect_chain (fuel : nat) (fat : list byte) (geometry : ExfatBootSector)
    (chain : FatChain) : outcome ExfatAllocationError (list N) :=
  match fuel with
  | O => Panic
  | S fuel =>
      match fat_chain_next fat geometry chain with
      | (None, _) => Ok []
      | (Some item, chain) =>
          cluster ← item; clusters ← collect_chain fuel fat geometry chain;
          Ok (cluster :: clusters)
      end
  end.
(** Each call but the last one traverses a cluster. *)
Definition chain_clusters (fat : list byte) (geometry : ExfatBootSector) (start_cluster : N)
    : outcome ExfatAllocationError (list N) :=
  chain ← fat_chain geometry start_cluster;
  collect_chain (S (S (N.to_nat (eb_cluster_count geometry)))) fat geometry chain.

(** ** The allocation bitmap *)
Definition bitmap_cluster_is_allocated (bitmap : list byte) (geometry : ExfatBootSector)
    (cluster : N) : outcome ExfatAllocationError bool :=
  validate_cluster geometry cluster ;;
  bit_index ← sub_u64 cluster FIRST_DATA_CLUSTER;
  let byte_index := bit_index / 8 in
  required ← add_u64 byte_index 1;
  index ← ok_or (AllocationArithmeticOverflow "allocation bitmap platform offset")
    (usize_try_from byte_index);
  byte ← ok_or (BitmapSliceTooShort required (len bitmap)) (bitmap !! N.to_nat index);
  Ok (negb (N.land (Byte.to_N byte) (N.shiftl 1 (bit_index mod 8)) =? 0)).


Definition summarize_allocation_bitmap (bitmap : list byte) (geometry : ExfatBootSector)
    : outcome ExfatAllocationError AllocationSummary :=
  let cluster_count := eb_cluster_count geometry in
  let required_bitmap_bytes := (cluster_count + 7) / 8 in
  let actual := default u64_max (u64_try_from (len bitmap)) in
  refuse_if (actual <? required_bitmap_bytes)
    (BitmapSliceTooShort required_bitmap_bytes (len bitmap)) ;;
  refuse_if (required_bitmap_bytes <? actual)
    (BitmapSliceTooLong required_bitmap_bytes (len bitmap)) ;;
  full_bytes ← ok_or (AllocationArithmeticOverflow "allocation bitmap full-byte count")
    (usize_try_from (cluster_count / 8));
  full ← index_range 0 full_bytes bitmap;
  let allocated_in_full_bytes := sum_by (fun byte => count_ones (Byte.to_N byte)) full in
  tail_bits ← ok_or (AllocationArithmeticOverflow "allocation bitmap tail bit count")
    (u32_try_from (cluster_count mod 8));
  (if negb (tail_bits =? 0) then
     let meaningful_mask := N.shiftl 1 tail_bits - 1 in
     byte ← at_index bitmap full_bytes;
     let reserved := N.land (Byte.to_N byte) (N.lxor meaningful_mask u8_max) in
     if negb (reserved =? 0) then
       tail_index ← ok_or (AllocationArithmeticOverflow "allocation bitmap tail byte index")
         (u64_try_from full_bytes);
       Err (BitmapReservedTailBitSet (tail_index * 8 + trailing_zeros 8 reserved))
     else Ok tt
   else Ok tt) ;;
  allocated_in_tail ←
    (if tail_bits =? 0 then Ok 0
     else
       let mask := N.shiftl 1 tail_bits - 1 in
       byte ← at_index bitmap full_bytes;
       Ok (count_ones (N.land (Byte.to_N byte) mask)));
  allocated_clusters ← add_u64 allocated_in_full_bytes allocated_in_tail;
  free_clusters ← sub_u64 cluster_count allocated_clusters;
  Ok (mkAllocationSummary allocated_clusters free_clusters required_bitmap_bytes).

(** ** Specification *)
Definition data_cluster (geometry : ExfatBootSector) (cluster : N) : Prop :=
  2 <= cluster < eb_cluster_count geometry + 2.

(** The path that a table links from a cluster to an end mark. *)
Inductive chain_from (entry : N -> option FatEntry) : N -> list N -> Prop :=
| chain_last cluster : entry cluster = Some EndOfChain -> chain_from entry cluster [cluster]
| chain_link cluster next rest :
    entry cluster = Some (Next next) -> chain_from entry next rest ->
    chain_from entry cluster (cluster :: rest).

(** The value of a computation that succeeds. *)
Definition result_of {E A : Type} (m : outcome E A) : option A :=
  match m with
  | Ok a => Some a
  | _ => None
  end.

(** The byte range of a cluster in the image. *)
Definition cluster_start (geometry : ExfatBootSector) (cluster : N) : N :=
  eb_cluster_heap_offset_sectors geometry * eb_bytes_per_sector geometry
  + (cluster - 2) * eb_bytes_per_cluster geometry.

(** * Lemmas *)

(** ** Clusters *)
Lemma validate_cluster_Ok geometry cluster u :
  validate_cluster geometry cluster = Ok u <->
  eb_cluster_count geometry + 2 <= u32_max /\ data_cluster geometry cluster.
Proof.
  unfold validate_cluster, data_cluster, FIRST_DATA_CLUSTER. destruct u. split.
  - intros H. inv_ok. bool_props. lia.
  - intros [Hm Hc]. eapply bind_step.
    { apply ok_or_step, checked_add_u32_Some. split; [reflexivity | lia]. }
    cbv beta. apply refuse_step, orb_false_intro; [apply N.ltb_ge | apply N.leb_gt]; lia.
Qed.
Lemma validate_cluster_safe geometry cluster : validate_cluster geometry cluster <> Panic.
Proof. unfold validate_cluster. safe. Qed.

Lemma cluster_byte_offset_Ok geometry cluster offset :
  cluster_byte_offset geometry cluster = Ok offset ->
  eb_cluster_count geometry + 2 <= u32_max /\ data_cluster geometry cluster /\
  offset = cluster_start geometry cluster.
Proof.
  unfold cluster_byte_offset, FIRST_DATA_CLUSTER. intros H. inv_ok.
  match goal with H : validate_cluster _ _ = _ |- _ => apply validate_cluster_Ok in H as [? ?] end.
  destruct (checked_mul (eb_cluster_heap_offset_sectors geometry) _) as [h|] eqn:Hh; [|done].
  simpl in *. inv_ok. done.
Qed.
Lemma cluster_byte_offset_safe geometry cluster : cluster_byte_offset geometry cluster <> Panic.
Proof.
  unfold cluster_byte_offset. apply bind_safe; [apply validate_cluster_safe |].
  intros u Hv. apply validate_cluster_Ok in Hv as [_ [Hv _]]. safe.
  by apply sub_u64_safe.
Qed.

(** The clusters of a volume lie one after the other inside the volume. *)
Lemma cluster_end_bound geometry cluster :
  volume_geometry geometry -> data_cluster geometry cluster ->
  cluster_start geometry cluster + eb_bytes_per_cluster geometry
    <= eb_volume_length_sectors geometry * eb_bytes_per_sector geometry.
Proof.
  intros Hg [H1 H2]. unfold cluster_start. rewrite (xg_cluster_bytes _ Hg).
  generalize (xg_heap_end _ Hg). generalize (eb_bytes_per_sector geometry), (eb_sectors_per_cluster geometry),
    (eb_cluster_heap_offset_sectors geometry), (eb_volume_length_sectors geometry).
  intros B C h v Hv.
  assert (Hc : (cluster - 2) * C + C <= eb_cluster_count geometry * C).
  { replace ((cluster - 2) * C + C) with ((cluster - 2 + 1) * C) by lia.
    apply N.mul_le_mono_r. lia. }
  apply N.le_trans with ((h + eb_cluster_count geometry * C) * B);
    [|by apply N.mul_le_mono_r].
  apply N.le_trans with ((h + ((cluster - 2) * C + C)) * B); [lia |].
  apply N.mul_le_mono_r. lia.
Qed.
Lemma cluster_start_bound geometry cluster :
  eb_cluster_heap_offset_sectors geometry <= u32_max ->
  volume_geometry geometry -> data_cluster geometry cluster ->
  cluster_start geometry cluster + eb_bytes_per_cluster geometry <= u64_max.
Proof.
  intros Hh Hg [H1 H2]. destruct (geometry_sizes _ Hg) as ([_ HB] & _ & HK).
  destruct Hg as [_ _ _ _ _ _ _ _ _ _ _ _ _ _ _ _ [_ Hc] _ _].
  unfold cluster_start, MAX_CLUSTER_COUNT in *. widths. change (2 ^ 25) with 33554432 in HK.
  assert (eb_cluster_heap_offset_sectors geometry * eb_bytes_per_sector geometry
    <= u32_max * 4096) by (apply N.mul_le_mono; lia).
  assert ((cluster - 2) * eb_bytes_per_cluster geometry <= u32_max * 33554432)
    by (apply N.mul_le_mono; lia).
  lia.
Qed.
Lemma cluster_byte_offset_total geometry cluster :
  eb_cluster_heap_offset_sectors geometry <= u32_max ->
  volume_geometry geometry -> data_cluster geometry cluster ->
  cluster_byte_offset geometry cluster = Ok (cluster_start geometry cluster).
Proof.
  intros Hh Hg Hc. pose proof (cluster_start_bound _ _ Hh Hg Hc) as Hb.
  unfold cluster_byte_offset, FIRST_DATA_CLUSTER. unfold cluster_start in *.
  assert (Hm : eb_cluster_count geometry <= MAX_CLUSTER_COUNT) by apply Hg.
  unfold MAX_CLUSTER_COUNT in Hm. widths. destruct Hc as [H1 H2].
  eapply bind_step; [apply (validate_cluster_Ok _ _ tt); split; [lia | by split] | cbv beta].
  pose proof (N.le_0_l ((cluster - 2) * eb_bytes_per_cluster geometry)).
  ok_step. ok_step. rewrite checked_mul_in by lia. cbn [mbind option_bind].
  apply ok_or_step, checked_add_in. lia.
Qed.

(** ** The table *)
Lemma classify_fat_value_safe geometry cluster value :
  classify_fat_value geometry cluster value <> Panic.
Proof.
  unfold classify_fat_value. safe. destruct (validate_cluster geometry value) eqn:Hv; try done.
  by apply validate_cluster_safe in Hv.
Qed.
Lemma classify_fat_value_Next geometry cluster value next :
  classify_fat_value geometry cluster value = Ok (Next next) ->
  value = next /\ data_cluster geometry next.
Proof.
  unfold classify_fat_value. repeat case_match; try done. intros [= <-].
  split; [done |]. by eapply validate_cluster_Ok.
Qed.
Lemma fat_entry_Ok fat geometry cluster entry :
  fat_entry fat geometry cluster = Ok entry <->
  eb_cluster_count geometry + 2 <= u32_max /\ data_cluster geometry cluster /\
  4 * cluster + 4 <= len fat /\
  classify_fat_value geometry cluster (field 4 fat (4 * cluster)) = Ok entry.
Proof.
  unfold fat_entry, field. widths. split.
  - intros H. inv_ok.
    match goal with H : validate_cluster _ _ = _ |- _ => apply validate_cluster_Ok in H as [? ?] end.
    match goal with H : get_range _ _ _ = _ |- _ => apply get_range_Some in H as (_ & ? & ->) end.
    rewrite (N.mul_comm cluster 4) in *. split_and!; [done | done | lia | done].
  - intros (Hm & Hc & Hl & He). destruct Hc as [H1 H2].
    eapply bind_step; [apply (validate_cluster_Ok _ _ tt); split; [lia | by split] | cbv beta].
    ok_step. ok_step.
    eapply bind_step; [apply ok_or_step, usize_try_from_in; lia | cbv beta]. ok_step.
    rewrite (N.mul_comm cluster 4). eapply bind_step; [|exact He].
    apply ok_or_step, get_range_Some. split_and!; [lia | lia | done].
Qed.
Lemma fat_entry_safe fat geometry cluster : fat_entry fat geometry cluster <> Panic.
Proof.
  unfold fat_entry. apply bind_safe; [apply validate_cluster_safe |]. intros u Hv.
  apply validate_cluster_Ok in Hv as [Hm [_ Hv]]. widths.
  safe; [|apply classify_fat_value_safe]. inv_ok. apply add_u64_safe. lia.
Qed.

(** ** Chains *)
Section Chains.
Context (entry : N -> option FatEntry).

Lemma chain_from_inj c l1 l2 : chain_from entry c l1 -> chain_from entry c l2 -> l1 = l2.
Proof.
  intros H1. revert l2. induction H1 as [c Hc|c n l Hc Hl IH]; intros l2 H2;
    inversion H2; subst; try congruence. simplify_eq. f_equal. by apply IH; simplify_eq.
Qed.
Lemma chain_from_suffix c l x :
  chain_from entry c l -> x ∈ l -> exists pre suf, l = pre ++ suf /\ chain_from entry x suf.
Proof.
  intros H. induction H as [c Hc|c n l Hc Hl IH]; intros Hx.
  - apply list_elem_of_singleton in Hx as ->. exists [], [c]. split; [done | by constructor].
  - apply elem_of_cons in Hx as [->|Hx].
    + exists [], (c :: l). split; [done | by eapply chain_link].
    + destruct (IH Hx) as (pre & suf & -> & Hs). by exists (c :: pre), suf.
Qed.
Lemma chain_from_NoDup c l : chain_from entry c l -> NoDup l.
Proof.
  intros H. induction H as [c Hc|c n l Hc Hl IH]; [apply NoDup_singleton |].
  constructor; [|done]. intros Hin.
  destruct (chain_from_suffix _ _ _ Hl Hin) as (pre & suf & -> & Hs).
  assert (Hw : chain_from entry c (c :: pre ++ suf)) by (by eapply chain_link).
  pose proof (chain_from_inj _ _ _ Hw Hs) as He. apply (f_equal length) in He.
  simpl in He. rewrite length_app in He. lia.
Qed.
Lemma chain_from_entries c l : chain_from entry c l -> Forall (fun x => is_Some (entry x)) l.
Proof. induction 1; repeat constructor; eauto. Qed.
Lemma chain_from_head c l : chain_from entry c l -> exists rest, l = c :: rest.
Proof. destruct 1; eauto. Qed.
End Chains.

Lemma chain_from_ext e1 e2 c l :
  (forall x, x ∈ l -> e1 x = e2 x) -> chain_from e1 c l -> chain_from e2 c l.
Proof.
  intros He H. induction H as [c Hc|c n l Hc Hl IH].
  - constructor. rewrite <- He; [done | by left].
  - eapply chain_link; [rewrite <- He; [done | by left] |]. apply IH. intros ??. apply He. by right.
Qed.

Lemma bounded_NoDup_length (l : list N) lo n :
  NoDup l -> Forall (fun x => lo <= x < lo + n) l -> len l <= n.
Proof.
  intros Hnd Hf.
  assert (Hs : l ⊆+ (fun i => lo + i) <$> indices n).
  { apply NoDup_submseteq; [done |]. intros x Hx. rewrite Forall_forall in Hf.
    specialize (Hf x Hx). apply list_elem_of_fmap. exists (x - lo).
    rewrite elem_of_indices. lia. }
  apply submseteq_length in Hs. rewrite length_fmap in Hs.
  unfold indices in Hs. rewrite length_fmap, length_seq in Hs. unfold len. lia.
Qed.

(** The entries of a table, as a partial function. *)
Definition table_entry (fat : list byte) (geometry : ExfatBootSector) (cluster : N)
    : option FatEntry := result_of (fat_entry fat geometry cluster).
Lemma table_entry_Some fat geometry cluster e :
  table_entry fat geometry cluster = Some e <-> fat_entry fat geometry cluster = Ok e.
Proof. unfold table_entry. destruct (fat_entry _ _ _); simpl; naive_solver. Qed.

Lemma fat_chain_length fat geometry c l :
  chain_from (table_entry fat geometry) c l -> len l <= eb_cluster_count geometry.
Proof.
  intros H. apply bounded_NoDup_length with (lo := 2); [by eapply chain_from_NoDup |].
  eapply Forall_impl; [by eapply chain_from_entries |]. intros x [e He].
  apply table_entry_Some, fat_entry_Ok in He as (_ & [? ?] & _). lia.
Qed.

Lemma collect_chain_spec fat geometry fuel c t start :
  (N.to_nat (eb_cluster_count geometry - t) + 2 <= fuel)%nat -> t <= eb_cluster_count geometry ->
  collect_chain fuel fat geometry (mkFatChain (Some c) t start) <> Panic /\
  forall l, collect_chain fuel fat geometry (mkFatChain (Some c) t start) = Ok l <->
    chain_from (table_entry fat geometry) c l /\ t + len l <= eb_cluster_count geometry.
Proof.
  revert c t. induction fuel as [|fuel IH]; intros c t Hf Ht; [lia |].
  cbn [collect_chain]. unfold fat_chain_next. cbn [fc_next fc_traversed fc_start_cluster].
  destruct (N.leb_spec (eb_cluster_count geometry) t) as [Hc|Hc].
  { split; [done |]. intros l. split; [done |]. intros [H Hl]. exfalso.
    destruct (chain_from_head _ _ _ H) as [r ->]. rewrite len_cons in Hl. lia. }
  assert (Hend : forall i, i <> Panic ->
    (cluster ← i; clusters ← collect_chain fuel fat geometry (mkFatChain None (t + 1) start);
     Ok (cluster :: clusters)) = (cluster ← i; Ok [cluster])).
  { intros i _. destruct fuel; [lia |]. by destruct i. }
  destruct (fat_entry fat geometry c) as [e|e|] eqn:He; [| |by apply fat_entry_safe in He].
  2: { split; [done |]. intros l. split; [done |]. intros [H _].
       destruct H as [c H|c n l H _]; apply table_entry_Some in H; congruence. }
  pose proof (proj2 (table_entry_Some _ _ _ _) He) as Hte. destruct e.
  1,3: split; [done |]; intros l; split; [done |]; intros [H _];
    destruct H; congruence.
  - destruct (IH cluster (t + 1)) as [Hs Hl]; [lia | lia |]. cbn [mbind outcome_bind]. split.
    { by destruct (collect_chain fuel fat geometry (mkFatChain (Some cluster) (t + 1) start)). }
    intros l.
    destruct (collect_chain fuel fat geometry (mkFatChain (Some cluster) (t + 1) start))
      as [r|e|] eqn:Hr; [| |done].
    + specialize (Hl r). destruct (proj1 Hl eq_refl) as [H1 H2]. split.
      * intros [= <-]. rewrite len_cons. split; [by eapply chain_link | lia].
      * intros [H3 _]. cbn [mbind outcome_bind]. f_equal. eapply chain_from_inj; [by eapply chain_link | done].
    + split; [done |]. intros [H3 H4]. exfalso. inversion H3 as [|? n r H5 H6]; subst; [congruence |].
      assert (n = cluster) as -> by congruence. rewrite len_cons in H4.
      by assert (@Err ExfatAllocationError (list N) e = Ok r) by (apply Hl; split; [done | lia]).
  - rewrite Hend by done. split; [done |]. intros l. cbn [mbind outcome_bind]. split.
    + intros [= <-]. rewrite len_cons, len_nil. split; [by constructor | lia].
    + intros [H _]. inversion H; [done | congruence].
Qed.

Lemma chain_clusters_spec fat geometry start :
  chain_clusters fat geometry start <> Panic /\
  forall l, chain_clusters fat geometry start = Ok l <->
    chain_from (table_entry fat geometry) start l.
Proof.
  unfold chain_clusters, fat_chain.
  destruct (validate_cluster geometry start) as [[]|e|] eqn:Hv;
    [| |by apply validate_cluster_safe in Hv].
  - cbn [mbind outcome_bind].
    destruct (collect_chain_spec fat geometry (S (S (N.to_nat (eb_cluster_count geometry))))
      start 0 start ltac:(lia) ltac:(lia)) as [Hs Hl].
    split; [exact Hs |]. intros l. rewrite Hl. split; [by intros [H _] |].
    intros H. split; [done |]. apply fat_chain_length in H. lia.
  - split; [done |]. intros l. split; [done |]. intros H. exfalso.
    assert (Hx : is_Some (table_entry fat geometry start)) by (destruct H; eauto).
    destruct Hx as [x Hx]. apply table_entry_Some, fat_entry_Ok in Hx as (Hm & Hc & _).
    assert (Hok : validate_cluster geometry start = Ok tt) by by apply validate_cluster_Ok.
    congruence.
Qed.

(** ** The bitmap *)
Lemma bitmap_cluster_is_allocated_Ok bitmap geometry cluster d :
  eb_cluster_count geometry + 2 <= u32_max -> data_cluster geometry cluster ->
  (eb_cluster_count geometry + 7) / 8 <= len bitmap ->
  bitmap_cluster_is_allocated bitmap geometry cluster = Ok d <->
  d = bitmap_bit bitmap (cluster - 2).
Proof.
  intros Hm [H1 H2] Hl. unfold bitmap_cluster_is_allocated, FIRST_DATA_CLUSTER, bitmap_bit. widths.
  set (i := cluster - 2). assert (Hi : i < eb_cluster_count geometry) by lia.
  assert (Hk : i / 8 < len bitmap).
  { eapply N.lt_le_trans; [|exact Hl]. apply N.Div0.div_lt_upper_bound.
    pose proof (N.Div0.div_mod (eb_cluster_count geometry + 7) 8).
    pose proof (N.mod_lt (eb_cluster_count geometry + 7) 8 ltac:(done)). lia. }
  assert (i / 8 <= i) by (apply N.Div0.div_le_upper_bound; lia).
  destruct (lookup_lt_is_Some_2 bitmap (N.to_nat (i / 8))) as [b Hb]; [unfold len in Hk; lia |].
  assert (Hr : validate_cluster geometry cluster = Ok tt)
    by (apply validate_cluster_Ok; split; [done | by split]).
  rewrite Hr. cbn [mbind outcome_bind]. unfold sub_u64. rewrite checked_sub_in by lia.
  fold i. cbn [mbind outcome_bind expect]. unfold add_u64. rewrite checked_add_in by lia.
  cbn [mbind outcome_bind expect]. rewrite usize_try_from_in by lia. cbn [mbind outcome_bind ok_or].
  rewrite Hb. cbn [mbind outcome_bind ok_or].
  rewrite test_bit. naive_solver.
Qed.
Lemma bitmap_cluster_is_allocated_safe bitmap geometry cluster :
  bitmap_cluster_is_allocated bitmap geometry cluster <> Panic.
Proof.
  unfold bitmap_cluster_is_allocated, FIRST_DATA_CLUSTER.
  apply bind_safe; [apply validate_cluster_safe |]. intros u Hv.
  apply validate_cluster_Ok in Hv as [Hm [H1 H2]]. widths.
  safe; [by apply sub_u64_safe |]. inv_ok. apply add_u64_safe.
  assert ((cluster - 2) / 8 <= cluster - 2) by (apply N.Div0.div_le_upper_bound; lia). lia.
Qed.

(** A bitmap of the right size without bits past the last cluster. *)
Definition bitmap_canonical (bitmap : list byte) (cluster_count : N) : Prop :=
  len bitmap = (cluster_count + 7) / 8 /\
  forall i, cluster_count <= i -> bitmap_bit bitmap i = false.
Definition summary_of (bitmap : list byte) (cluster_count : N) : AllocationSummary :=
  let allocated := bits_set (bitmap_bit bitmap) cluster_count in
  mkAllocationSummary allocated (cluster_count - allocated) (len bitmap).

Lemma div_ceil_8 n : (n + 7) / 8 = n / 8 + (if n mod 8 =? 0 then 0 else 1).
Proof.
  pose proof (N.Div0.div_mod n 8) as Hd. pose proof (N.mod_lt n 8 ltac:(done)) as Hm.
  symmetry. revert Hd Hm. generalize (n / 8), (n mod 8). intros q r -> Hr.
  destruct (N.eqb_spec r 0) as [H0|H0].
  - apply N.div_unique with 7; lia.
  - apply N.div_unique with (r - 1); lia.
Qed.

Lemma summarize_spec bitmap geometry :
  eb_cluster_count geometry <= u32_max ->
  summarize_allocation_bitmap bitmap geometry <> Panic /\
  forall s, summarize_allocation_bitmap bitmap geometry = Ok s <->
    bitmap_canonical bitmap (eb_cluster_count geometry) /\
    s = summary_of bitmap (eb_cluster_count geometry).
Proof.
  intros Hc. unfold summarize_allocation_bitmap, bitmap_canonical, summary_of. widths.
  generalize dependent (eb_cluster_count geometry). intros count Hc.
  rewrite (div_ceil_8 count).
  pose proof (N.Div0.div_mod count 8) as Hd. pose proof (N.mod_lt count 8 ltac:(done)) as Hm.
  revert Hd Hm. generalize (count / 8) as k, (count mod 8) as r. intros k r -> Hr.
  set (required := k + (if r =? 0 then 0 else 1)).
  assert (Hreq : required <= u32_max) by (unfold required; destruct (r =? 0); lia).
  assert (Hdef : forall x, default u64_max (u64_try_from x) = N.min x u64_max).
  { intros x. unfold u64_try_from. destruct (N.leb_spec x u64_max); simpl; lia. }
  rewrite Hdef. destruct (decide (len bitmap = required)) as [Hl|Hl].
  2: { destruct (N.ltb_spec (N.min (len bitmap) u64_max) required) as [H1|H1];
         [split; [done | naive_solver] |].
       destruct (N.ltb_spec required (N.min (len bitmap) u64_max)) as [H2|H2];
         [split; [done | naive_solver] |].
       exfalso. clearbody required. lia. }
  rewrite Hl, N.min_l, N.ltb_irrefl by lia. cbn [refuse_if mbind outcome_bind].
  rewrite usize_try_from_in by (unfold usize_max in *; lia). cbn [ok_or mbind outcome_bind].
  rewrite index_range_in by (unfold required in Hl; destruct (r =? 0); lia).
  cbn [mbind outcome_bind]. rewrite u32_try_from_in by lia. cbn [ok_or mbind outcome_bind].
  rewrite full_bytes_bits by (unfold required in Hl; destruct (r =? 0); lia).
  pose proof (bits_set_le (bitmap_bit bitmap) (8 * k)) as Hle. unfold required in Hl.
  destruct (N.eqb_spec r 0) as [->|Hr0]; cbn [negb mbind outcome_bind].
  - rewrite !N.add_0_r in *. unfold add_u64, sub_u64.
    rewrite checked_add_in by lia. cbn [expect mbind outcome_bind]. rewrite N.add_0_r.
    rewrite checked_sub_in by lia. cbn [expect mbind outcome_bind].
    split; [done |]. intros s. split.
    + intros [= <-]. split; [|done]. split; [done |]. intros i Hi. apply bitmap_bit_outside. lia.
    + by intros [_ ->].
  - destruct (lookup_lt_is_Some_2 bitmap (N.to_nat k)) as [b Hb]; [unfold len in Hl; lia |].
    unfold at_index. rewrite Hb. cbn [expect mbind outcome_bind].
    assert (Htail : (forall i, 8 * k + r <= i -> bitmap_bit bitmap i = false) <->
      forall i, r <= i < 8 -> N.testbit (Byte.to_N b) i = false).
    { split.
      - intros H i Hi. rewrite <- (bitmap_bit_at bitmap k) by (done || lia). apply H. lia.
      - intros H i Hi. destruct (N.lt_ge_cases i (8 * len bitmap)) as [Hlt|Hge];
          [|by apply bitmap_bit_outside].
        replace i with (8 * k + (i - 8 * k)) by lia.
        rewrite (bitmap_bit_at bitmap k b) by (done || lia). apply H. lia. }
    rewrite <- byte_tail_zero in Htail by done.
    destruct (N.eqb_spec (N.land (Byte.to_N b) (N.lxor (N.shiftl 1 r - 1) u8_max)) 0) as [Hz|Hz];
      cbn [negb mbind outcome_bind].
    + rewrite count_ones_masked by done.
      assert (Hsum : bits_set (bitmap_bit bitmap) (8 * k) + bits_set (N.testbit (Byte.to_N b)) r =
                     bits_set (bitmap_bit bitmap) (8 * k + r)).
      { rewrite bits_set_add. f_equal. apply bits_set_ext. intros i Hi. symmetry.
        apply (bitmap_bit_at bitmap k b); [done | lia]. }
      pose proof (bits_set_le (bitmap_bit bitmap) (8 * k + r)) as Hle'.
      unfold add_u64, sub_u64. rewrite checked_add_in by lia. cbn [expect mbind outcome_bind].
      rewrite Hsum, checked_sub_in by lia. cbn [expect mbind outcome_bind].
      split; [done |]. intros s. split; [intros [= <-]; split; [|done]; split; [done | by apply Htail] |].
      by intros [_ ->].
    + rewrite u64_try_from_in by lia. cbn [ok_or mbind outcome_bind]. split; [done |].
      intros s. split; [done |]. intros [[_ H] _]. by apply Htail in H.
Qed.

(** * Properties *)

(** in a volume with an accepted boot sector the byte offset of a cluster
    number is computed without overflow exactly for the numbers of the heap; the
    cluster then lies after the FATs and inside the volume, and different
    clusters share no byte. *)
Theorem heap_clusters_disjoint sector geometry c1 c2 :
  parse_boot_sector sector = Ok geometry ->
  data_cluster geometry c1 -> data_cluster geometry c2 -> c1 <> c2 ->
  let size := eb_bytes_per_cluster geometry in
  exists o1 o2,
    cluster_byte_offset geometry c1 = Ok o1 /\ cluster_byte_offset geometry c2 = Ok o2 /\
    (o1 + size <= o2 \/ o2 + size <= o1) /\
    (eb_fat_offset_sectors geometry + eb_fat_length_sectors geometry * eb_number_of_fats geometry)
      * eb_bytes_per_sector geometry <= o1 /\
    o1 + size <= eb_volume_length_sectors geometry * eb_bytes_per_sector geometry /\
    o1 + size <= u64_max /\
    (forall c, ~ data_cluster geometry c -> cluster_byte_offset geometry c = Err (InvalidCluster c)).
Proof.
  intros Hp H1 H2 Hn size. apply parse_boot_sector_iff in Hp as (Hl & _ & Hf & Hg).
  pose proof (geometry_sizes _ Hg) as ([H512 _] & _).
  assert (Hh : eb_cluster_heap_offset_sectors geometry <= u32_max)
    by (rewrite (xo_heap _ _ Hf); apply field_4_bound; lia).
  exists (cluster_start geometry c1), (cluster_start geometry c2).
  rewrite !cluster_byte_offset_total by done. split_and!; [done | done | | | | |].
  - unfold cluster_start, size. destruct H1 as [H1 _], H2 as [H2 _].
    generalize (eb_cluster_heap_offset_sectors geometry * eb_bytes_per_sector geometry),
      (eb_bytes_per_cluster geometry). intros h K.
    destruct (N.lt_ge_cases c1 c2) as [Hc|Hc]; [left | right].
    + assert ((c1 - 2 + 1) * K <= (c2 - 2) * K) by (apply N.mul_le_mono_r; lia). lia.
    + assert ((c2 - 2 + 1) * K <= (c1 - 2) * K) by (apply N.mul_le_mono_r; lia). lia.
  - unfold cluster_start. etrans; [|apply N.le_add_r]. apply N.mul_le_mono_r, (xg_heap_offset _ Hg).
  - by apply cluster_end_bound.
  - by apply cluster_start_bound.
  - intros c Hc. destruct (xg_count _ Hg) as [_ Hm]. unfold MAX_CLUSTER_COUNT in Hm. widths.
    unfold cluster_byte_offset, validate_cluster, FIRST_DATA_CLUSTER.
    unfold checked_add_u32. rewrite (proj2 (N.leb_le _ _)) by lia.
    cbn [ok_or mbind outcome_bind].
    assert ((c <? 2) || (2 + eb_cluster_count geometry <=? c) = true) as ->; [|done].
    apply orb_true_iff. rewrite N.ltb_lt, N.leb_le. unfold data_cluster in Hc. lia.
Qed.

(** on every table, cyclic ones included, walking a chain terminates without
    a panic; the walk succeeds with a list of clusters exactly when the table
    links that list from the start cluster to an end mark, and then no cluster
    occurs twice and all of them are in the heap. *)
Theorem chain_walk fat geometry start :
  chain_clusters fat geometry start <> Panic /\
  forall l, chain_clusters fat geometry start = Ok l <->
    chain_from (table_entry fat geometry) start l /\ NoDup l /\
    Forall (data_cluster geometry) l /\ len l <= eb_cluster_count geometry.
Proof.
  destruct (chain_clusters_spec fat geometry start) as [Hs Hl]. split; [done |].
  intros l. rewrite Hl. split; [|tauto]. intros H. split_and!.
  - done.
  - by eapply chain_from_NoDup.
  - eapply Forall_impl; [by eapply chain_from_entries |]. intros x [e He].
    by apply table_entry_Some, fat_entry_Ok in He as (_ & ? & _).
  - by eapply fat_chain_length.
Qed.

(** the summary of an allocation bitmap is accepted exactly for bitmaps of
    the canonical size without bits past the last cluster, and it counts the
    clusters that [bitmap_cluster_is_allocated] reports allocated. *)
Theorem bitmap_summary_counts bitmap geometry :
  eb_cluster_count geometry + 2 <= u32_max ->
  summarize_allocation_bitmap bitmap geometry <> Panic /\
  forall s, summarize_allocation_bitmap bitmap geometry = Ok s <->
    bitmap_canonical bitmap (eb_cluster_count geometry) /\
    as_allocated_clusters s + as_free_clusters s = eb_cluster_count geometry /\
    as_required_bitmap_bytes s = len bitmap /\
    as_allocated_clusters s =
      sum_by (fun i => match bitmap_cluster_is_allocated bitmap geometry (i + 2) with
                       | Ok true => 1
                       | _ => 0
                       end) (indices (eb_cluster_count geometry)).
Proof.
  intros Hm. destruct (summarize_spec bitmap geometry ltac:(lia)) as [Hs Hl]. split; [done |].
  intros s. rewrite Hl.
  assert (Hcount : bitmap_canonical bitmap (eb_cluster_count geometry) ->
    sum_by (fun i => match bitmap_cluster_is_allocated bitmap geometry (i + 2) with
                     | Ok true => 1 | _ => 0 end) (indices (eb_cluster_count geometry)) =
    bits_set (bitmap_bit bitmap) (eb_cluster_count geometry)).
  { intros [Hlen _]. apply sum_by_ext. intros i Hi%elem_of_indices.
    destruct (bitmap_cluster_is_allocated bitmap geometry (i + 2)) as [d|e|] eqn:Hb.
    - apply bitmap_cluster_is_allocated_Ok in Hb as ->; [| done | unfold data_cluster; lia | lia].
      rewrite N.add_sub. by destruct (bitmap_bit bitmap i).
    - exfalso. pose proof (proj2 (bitmap_cluster_is_allocated_Ok bitmap geometry (i + 2) _ Hm
        ltac:(unfold data_cluster; lia) ltac:(lia)) eq_refl). congruence.
    - by apply bitmap_cluster_is_allocated_safe in Hb. }
  pose proof (bits_set_le (bitmap_bit bitmap) (eb_cluster_count geometry)). split.
  - intros [Hc ->]. rewrite Hcount by done. unfold summary_of. simpl. split_and!; [done | lia | done | done].
  - intros (Hc & Hsum & Hreq & Hal). split; [done |]. rewrite Hcount in Hal by done.
    destruct s as [a f q]. simpl in *. unfold summary_of. f_equal; [done | lia | done].
Qed.

(** A table that links 2 to 4. *)
Definition sample_fat : list byte :=
  u32_le 4294967288 ++ u32_le 4294967295 ++ u32_le 4 ++ u32_le 4294967295 ++ u32_le 4294967295.
Example sample_chain : chain_clusters sample_fat sample_boot_sector 2 = Ok [2; 4].
Proof. vm_compute. reflexivity. Qed.
Example sample_cycle :
  chain_clusters (u64_le 0 ++ u32_le 3 ++ u32_le 2) sample_boot_sector 2 = Err (ChainCycleOrTooLong 2).
Proof. vm_compute. reflexivity. Qed.

Lemma bitmap_summary_counts_witness :
  eb_cluster_count sample_boot_sector + 2 <= u32_max /\
  summarize_allocation_bitmap [] sample_boot_sector <> Panic.
Proof. split; [done |]. by apply (bitmap_summary_counts [] sample_boot_sector). Defined.

Lemma heap_clusters_disjoint_witness :
  exists o1 o2,
    cluster_byte_offset sample_boot_sector 2 = Ok o1 /\
    cluster_byte_offset sample_boot_sector 9 = Ok o2 /\ (o1 + 512 <= o2 \/ o2 + 512 <= o1).
Proof.
  destruct (heap_clusters_disjoint sample_sector sample_boot_sector 2 9) as (o1 & o2 & H1 & H2 & H3 & _).
  - vm_compute. reflexivity.
  - split; vm_compute; congruence.
  - split; vm_compute; congruence.
  - done.
  - exists o1, o2. split_and!; [exact H1 | exact H2 | exact H3].
Defined.
