(* ===== verification/ExfatImage.v ===== *)
(** * exFAT streams of an image

    The bounded stream reads of [fs/exfat_image.rs], over any implementation of
    the reader interface of [Image.v]: a stream is a contiguous run of clusters
    or a chain of the file allocation table, read in pieces no larger than the
    reader accepts.

    The theorems: on a reader that serves an image which contains the volume, a
    read succeeds exactly when the request is within the caller's limits and the
    clusters exist, and returns the bytes of those clusters in order; whatever
    the image contains, cyclic tables included, reading terminates and does not
    panic.  [try_reserve] is not modelled: allocation does not fail. *)

From S2P Require Export Prelude Bytes ExfatBoot ExfatAllocation.
From S2P Require Import Image.
From stdpp Require Import options.

#[local] Open Scope N_scope.

(** ** Data *)
Record StreamReadLimits : Type := mkStreamReadLimits {
  sl_max_bytes : N;
  sl_max_clusters : N
}.

Record ExfatStream : Type := mkExfatStream {
  xs_bytes : list byte;
  xs_clusters : list N;
  xs_allocation_bytes : N;
  xs_contiguous : bool
}.

Inductive FatIndex : Type := First | Second.
Definition fat_number (fat : FatIndex) : N :=
  match fat with
  | First => 0
  | Second => 1
  end.
Definition from_bitmap_identifier (identifier : N) : option FatIndex :=
  if identifier =? 0 then Some First else if identifier =? 1 then Some Second else None.
Definition active_fat (geometry : ExfatBootSector) : FatIndex :=
  if N.land (eb_volume_flags geometry) 1 =? 0 then First else Second.

Inductive ExfatImageError : Type :=
| StreamInvalidLimits
| InvalidFatIndex (requested available : N)
| InvalidDataLength (length : N)
| StreamTooLarge (length maximum : N)
| ClusterLimitExceeded (maximum : N)
| ChainCycle (cluster : N)
| ChainEndedEarly (expected_clusters actual_clusters : N)
| ChainContinuesPastData (next_cluster : N)
| StreamFreeCluster (cluster : N)
| StreamBadCluster (cluster : N)
| StreamArithmeticOverflow (calculation : string)
| Allocation (error : ExfatAllocationError)
| ImageFailure (error : ImageError).

(** ** Operations *)
Definition validate_stream_limits (limits : StreamReadLimits) : outcome ExfatImageError unit :=
  refuse_if ((sl_max_bytes limits =? 0) || (sl_max_clusters limits =? 0)) StreamInvalidLimits.
Definition validate_fat_index (geometry : ExfatBootSector) (fat : FatIndex)
    : outcome ExfatImageError unit :=
  refuse_if (negb (fat_number fat <? eb_number_of_fats geometry))
    (InvalidFatIndex (fat_number fat) (eb_number_of_fats geometry)).
Definition enforce_byte_limit (length maximum : N) : outcome ExfatImageError unit :=
  refuse_if (default u64_max (u64_try_from maximum) <? length) (StreamTooLarge length maximum).

Definition contiguous_clusters (geometry : ExfatBootSector) (first_cluster count : N)
    : outcome ExfatImageError (list N) :=
  offset ← map_err Allocation (cluster_byte_offset geometry first_cluster);
  count_u32 ← ok_or (StreamArithmeticOverflow "contiguous cluster count conversion")
    (u32_try_from count);
  end_ ← ok_or (StreamArithmeticOverflow "contiguous cluster range")
    (checked_add_u32 first_cluster count_u32);
  heap_end ← ok_or (StreamArithmeticOverflow "cluster heap end")
    (checked_add_u32 2 (eb_cluster_count geometry));
  refuse_if (heap_end <? end_) (Allocation (InvalidCluster (saturating_sub end_ 1))) ;;
  Ok ((fun i => first_cluster + i) <$> indices (end_ - first_cluster)).

Definition validate_new_cluster (geometry : ExfatBootSector) (cluster : N) (seen : gset N)
    : outcome ExfatImageError (gset N) :=
  offset ← map_err Allocation (cluster_byte_offset geometry cluster);
  refuse_if (bool_decide (cluster ∈ seen)) (ChainCycle cluster) ;;
  Ok ({[cluster]} ∪ seen).

Section Reader.
Context `{BoundedImageReader R} (image : R) (geometry : ExfatBootSector).

Definition read_image_fat_entry (fat : FatIndex) (cluster : N)
    : outcome ExfatImageError FatEntry :=
  fat_start ← ok_or (StreamArithmeticOverflow "selected FAT sector offset")
    (checked_mul (fat_number fat) (eb_fat_length_sectors geometry));
  fat_sector ← ok_or (StreamArithmeticOverflow "selected FAT sector")
    (checked_add (eb_fat_offset_sectors geometry) fat_start);
  offset ← ok_or (StreamArithmeticOverflow "FAT entry image offset")
    (base ← checked_mul fat_sector (eb_bytes_per_sector geometry);
     checked_add base (cluster * 4));
  bytes ← map_err ImageFailure (rd_read_exact_at image offset 4);
  value ← read_le 4 bytes 0;
  if value =? 0 then Ok Free
  else if value =? BAD_CLUSTER then Ok Bad
  else if value =? u32_max then Ok EndOfChain
  else match cluster_byte_offset geometry value with
       | Ok _ => Ok (Next value)
       | Err _ => Err (Allocation (InvalidFatValue cluster value))
       | Panic => Panic
       end.

(** [for index in 0..needed]; [todo] counts the iterations that remain. *)
Fixpoint exact_loop (todo : nat) (fat : FatIndex) (needed maximum index : N)
    (clusters : list N) (seen : gset N) (current : N) : outcome ExfatImageError (list N) :=
  match todo with
  | O => Err (ClusterLimitExceeded maximum)
  | S todo =>
      seen ← validate_new_cluster geometry current seen;
      let clusters := clusters ++ [current] in
      entry ← read_image_fat_entry fat current;
      match entry with
      | Next next =>
          if index + 1 <? needed
          then exact_loop todo fat needed maximum (index + 1) clusters seen next
          else Err (ChainContinuesPastData next)
      | EndOfChain =>
          if index + 1 =? needed then Ok clusters
          else Err (ChainEndedEarly needed (len clusters))
      | Free => Err (StreamFreeCluster current)
      | Bad => Err (StreamBadCluster current)
      end
  end.
Definition exact_fat_chain (fat : FatIndex) (first_cluster needed maximum : N)
    : outcome ExfatImageError (list N) :=
  exact_loop (N.to_nat needed) fat needed maximum 0 [] ∅ first_cluster.

(** [loop]: the limit on the number of clusters is tested first, so [maximum + 1]
    rounds are enough. *)
Fixpoint to_end_loop (fuel : nat) (fat : FatIndex) (maximum : N)
    (clusters : list N) (seen : gset N) (current : N) : outcome ExfatImageError (list N) :=
  match fuel with
  | O => Panic
  | S fuel =>
      if maximum <=? len clusters then Err (ClusterLimitExceeded maximum)
      else
        seen ← validate_new_cluster geometry current seen;
        let clusters := clusters ++ [current] in
        entry ← read_image_fat_entry fat current;
        match entry with
        | Next next => to_end_loop fuel fat maximum clusters seen next
        | EndOfChain => Ok clusters
        | Free => Err (StreamFreeCluster current)
        | Bad => Err (StreamBadCluster current)
        end
  end.
Definition fat_chain_to_end (fat : FatIndex) (first_cluster maximum : N)
    : outcome ExfatImageError (list N) :=
  to_end_loop (S (N.to_nat maximum)) fat maximum [] ∅ first_cluster.

(** [while cluster_remaining > 0]: every round reads at least one byte. *)
Fixpoint read_chunks (fuel : nat) (offset cluster_remaining remaining : N) (bytes : list byte)
    : outcome ExfatImageError (list byte * N) :=
  match fuel with
  | O => Panic
  | S fuel =>
      if 0 <? cluster_remaining then
        let chunk_length := N.min cluster_remaining (rd_max_read_bytes image) in
        chunk ← map_err ImageFailure (rd_read_exact_at image offset chunk_length);
        chunk_u64 ← ok_or (StreamArithmeticOverflow "cluster chunk offset conversion")
          (u64_try_from chunk_length);
        offset ← ok_or (StreamArithmeticOverflow "cluster chunk offset")
          (checked_add offset chunk_u64);
        cluster_remaining ← sub_u64 cluster_remaining chunk_length;
        remaining ← sub_u64 remaining chunk_length;
        read_chunks fuel offset cluster_remaining remaining (bytes ++ chunk)
      else Ok (bytes, remaining)
  end.
Fixpoint read_clusters_loop (clusters : list N) (remaining : N) (bytes : list byte)
    : outcome ExfatImageError (list byte) :=
  match clusters with
  | [] => Ok bytes
  | cluster :: clusters =>
      offset ← map_err Allocation (cluster_byte_offset geometry cluster);
      cluster_bytes ← ok_or (StreamArithmeticOverflow "cluster byte length conversion")
        (usize_try_from (eb_bytes_per_cluster geometry));
      let cluster_remaining := N.min remaining cluster_bytes in
      '(bytes, remaining) ← read_chunks (S (N.to_nat cluster_remaining)) offset
                              cluster_remaining remaining bytes;
      if remaining =? 0 then Ok bytes else read_clusters_loop clusters remaining bytes
  end.
Definition read_clusters (clusters : list N) (data_length maximum : N)
    : outcome ExfatImageError (list byte) :=
  enforce_byte_limit data_length maximum ;;
  length ← ok_or (StreamArithmeticOverflow "stream length conversion")
    (usize_try_from data_length);
  read_clusters_loop clusters length [].

Definition read_stream_from_fat (fat : FatIndex) (first_cluster data_length : N)
    (no_fat_chain : bool) (limits : StreamReadLimits) : outcome ExfatImageError ExfatStream :=
  validate_stream_limits limits ;;
  validate_fat_index geometry fat ;;
  if data_length =? 0 then
    if negb (first_cluster =? 0) then Err (InvalidDataLength data_length)
    else Ok (mkExfatStream [] [] 0 no_fat_chain)
  else
    enforce_byte_limit data_length (sl_max_bytes limits) ;;
    let cluster_bytes := eb_bytes_per_cluster geometry in
    whole ← div_u64 data_length cluster_bytes;
    rest ← rem_u64 data_length cluster_bytes;
    let needed_clusters := if 0 <? rest then whole + 1 else whole in
    needed_usize ← ok_or (StreamArithmeticOverflow "stream cluster count conversion")
      (usize_try_from needed_clusters);
    refuse_if (sl_max_clusters limits <? needed_usize)
      (ClusterLimitExceeded (sl_max_clusters limits)) ;;
    clusters ←
      (if no_fat_chain then contiguous_clusters geometry first_cluster needed_usize
       else exact_fat_chain fat first_cluster needed_usize (sl_max_clusters limits));
    allocation_bytes ← ok_or (StreamArithmeticOverflow "stream allocation length")
      (checked_mul needed_clusters cluster_bytes);
    bytes ← read_clusters clusters data_length (sl_max_bytes limits);
    Ok (mkExfatStream bytes clusters allocation_bytes no_fat_chain).
Definition read_stream (first_cluster data_length : N) (no_fat_chain : bool)
    (limits : StreamReadLimits) : outcome ExfatImageError ExfatStream :=
  read_stream_from_fat (active_fat geometry) first_cluster data_length no_fat_chain limits.

Definition read_chain_to_end_from_fat (fat : FatIndex) (first_cluster : N)
    (limits : StreamReadLimits) : outcome ExfatImageError ExfatStream :=
  validate_stream_limits limits ;;
  validate_fat_index geometry fat ;;
  clusters ← fat_chain_to_end fat first_cluster (sl_max_clusters limits);
  count ← ok_or (StreamArithmeticOverflow "chain cluster count conversion")
    (u64_try_from (len clusters));
  data_length ← ok_or (StreamArithmeticOverflow "chain byte length")
    (checked_mul count (eb_bytes_per_cluster geometry));
  enforce_byte_limit data_length (sl_max_bytes limits) ;;
  bytes ← read_clusters clusters data_length (sl_max_bytes limits);
  Ok (mkExfatStream bytes clusters data_length false).
Definition read_chain_to_end (first_cluster : N) (limits : StreamReadLimits)
    : outcome ExfatImageError ExfatStream :=
  read_chain_to_end_from_fat (active_fat geometry) first_cluster limits.
End Reader.

(** ** Specification *)

(** Where a table starts in the image, and its entries. *)
Definition fat_base (geometry : ExfatBootSector) (fat : FatIndex) : N :=
  (eb_fat_offset_sectors geometry + fat_number fat * eb_fat_length_sectors geometry)
  * eb_bytes_per_sector geometry.
Definition image_entry (img : list byte) (geometry : ExfatBootSector) (fat : FatIndex)
    (cluster : N) : option FatEntry :=
  if decide (data_cluster geometry cluster)
  then result_of (classify_fat_value geometry cluster
                    (field 4 img (fat_base geometry fat + cluster * 4)))
  else None.

(** The first [n] bytes of the clusters, in order. *)
Fixpoint stream_bytes (img : list byte) (geometry : ExfatBootSector) (clusters : list N)
    (n : N) : list byte :=
  match clusters with
  | [] => []
  | cluster :: clusters =>
      let m := N.min n (eb_bytes_per_cluster geometry) in
      subslice (cluster_start geometry cluster) (cluster_start geometry cluster + m) img
      ++ stream_bytes img geometry clusters (n - m)
  end.

(** The clusters of a stream of [count] clusters. *)
Definition stream_clusters (img : list byte) (geometry : ExfatBootSector) (fat : FatIndex)
    (no_fat_chain : bool) (first count : N) (clusters : list N) : Prop :=
  if no_fat_chain then
    2 <= first /\ first + count <= eb_cluster_count geometry + 2 /\
    clusters = (fun i => first + i) <$> indices count
  else chain_from (image_entry img geometry fat) first clusters /\ len clusters = count.
Definition div_ceil (a b : N) : N := (a + b - 1) / b.

(** * Lemmas *)
Lemma cluster_byte_offset_iff geometry cluster :
  eb_cluster_heap_offset_sectors geometry <= u32_max -> volume_geometry geometry ->
  cluster_byte_offset geometry cluster =
  match validate_cluster geometry cluster with
  | Ok _ => Ok (cluster_start geometry cluster)
  | Err e => Err e
  | Panic => Panic
  end.
Proof.
  intros Hh Hg. destruct (validate_cluster geometry cluster) as [u|e|] eqn:Hv.
  - apply cluster_byte_offset_total; [done | done |]. by eapply validate_cluster_Ok.
  - unfold cluster_byte_offset. by rewrite Hv.
  - by apply validate_cluster_safe in Hv.
Qed.

Lemma stream_bytes_app_nil img geometry clusters : stream_bytes img geometry clusters 0 = [].
Proof.
  induction clusters as [|c l IH]; [done |]. cbn [stream_bytes]. rewrite N.min_0_l, N.sub_diag, IH.
  unfold subslice. by rewrite N.add_0_r, N.sub_diag.
Qed.

Section Serving.
#[local] Set Default Proof Using "All".
Context `{BoundedImageReader R} (r : R) (img : list byte) (geometry : ExfatBootSector).
Context (Hr : Serving r img) (Hg : volume_geometry geometry).
Context (Hlen : eb_volume_length_sectors geometry * eb_bytes_per_sector geometry <= len img).
Context (Hh : eb_cluster_heap_offset_sectors geometry <= u32_max).
Context (Hmax : 4 <= rd_max_read_bytes r).
#[local] Abbreviation K := (eb_bytes_per_cluster geometry).

Lemma fits : len img <= u64_max.
Proof. apply faithful_fits with r, Hr. Qed.
Lemma max_read : 0 < rd_max_read_bytes r.
Proof. apply (faithful_max _ _ (serving_faithful _ _ Hr)). Qed.
Lemma cluster_size : 512 <= K <= 2 ^ 25.
Proof.
  destruct (geometry_sizes _ Hg) as ([? _] & ? & ?). split; [|done].
  rewrite (xg_cluster_bytes _ Hg). change 512 with (512 * 1). by apply N.mul_le_mono.
Qed.
Lemma cluster_inside c : data_cluster geometry c -> cluster_start geometry c + K <= len img.
Proof. intros Hc. etrans; [by apply cluster_end_bound | done]. Qed.

Lemma fat_inside fat c :
  fat_number fat < eb_number_of_fats geometry -> data_cluster geometry c ->
  fat_base geometry fat + c * 4 + 4 <= len img.
Proof.
  intros Hf [H1 H2]. etrans; [|exact Hlen]. unfold fat_base.
  pose proof (xg_fat_length _ Hg). pose proof (xg_heap_offset _ Hg). pose proof (xg_heap_end _ Hg).
  set (B := eb_bytes_per_sector geometry) in *. set (L := eb_fat_length_sectors geometry) in *.
  set (n := fat_number fat) in *. set (F := eb_fat_offset_sectors geometry) in *.
  assert (n * L + L <= L * eb_number_of_fats geometry).
  { rewrite (N.mul_comm L). replace (n * L + L) with ((n + 1) * L) by lia.
    apply N.mul_le_mono_r. lia. }
  assert ((F + (n * L + L)) * B <= eb_volume_length_sectors geometry * B)
    by (apply N.mul_le_mono_r; lia).
  lia.
Qed.

Lemma read_image_fat_entry_value fat c :
  fat_number fat < eb_number_of_fats geometry -> data_cluster geometry c ->
  read_image_fat_entry r geometry fat c =
  map_err Allocation (classify_fat_value geometry c (field 4 img (fat_base geometry fat + c * 4))).
Proof.
  intros Hf Hc. pose proof (fat_inside fat c Hf Hc) as Hin. pose proof fits. widths.
  unfold fat_base in *.
  set (base := (eb_fat_offset_sectors geometry + fat_number fat * eb_fat_length_sectors geometry)
    * eb_bytes_per_sector geometry) in *.
  assert (HB : 1 <= eb_bytes_per_sector geometry) by (pose proof (geometry_sizes _ Hg); lia).
  assert (Hs : eb_fat_offset_sectors geometry + fat_number fat * eb_fat_length_sectors geometry
    <= base).
  { unfold base. rewrite <- (N.mul_1_r (_ + _)) at 1. by apply N.mul_le_mono_l. }
  unfold read_image_fat_entry. rewrite checked_mul_in by lia. cbn [ok_or mbind outcome_bind].
  rewrite checked_add_in by lia. cbn [ok_or mbind outcome_bind].
  rewrite checked_mul_in by (fold base; lia). cbn [mbind option_bind]. fold base.
  rewrite checked_add_in by lia. cbn [ok_or mbind outcome_bind].
  rewrite (serving_read _ _ Hr) by (done || lia). cbn [map_err mbind outcome_bind].
  rewrite read_le_in by (rewrite len_subslice by lia; lia). cbn [mbind outcome_bind].
  rewrite field_of_slice, N.add_0_r by lia.
  unfold classify_fat_value, END_OF_CHAIN. rewrite cluster_byte_offset_iff by done.
  destruct (_ =? 0); [done |]. destruct (_ =? BAD_CLUSTER); [done |].
  destruct (_ =? u32_max); [done |]. by destruct (validate_cluster _ _).
Qed.

Lemma image_entry_Some fat c e :
  fat_number fat < eb_number_of_fats geometry ->
  image_entry img geometry fat c = Some e <->
  data_cluster geometry c /\ read_image_fat_entry r geometry fat c = Ok e.
Proof.
  intros Hf. unfold image_entry. case_decide as Hc; [|naive_solver].
  rewrite read_image_fat_entry_value by done.
  destruct (classify_fat_value _ _ _); simpl; naive_solver.
Qed.

Lemma validate_new_cluster_Ok c seen seen' :
  validate_new_cluster geometry c seen = Ok seen' <->
  data_cluster geometry c /\ c ∉ seen /\ seen' = ({[c]} ∪ seen).
Proof.
  unfold validate_new_cluster. rewrite cluster_byte_offset_iff by done. split.
  - intros H0. inv_ok. bool_props. split_and!; [|done|done].
    case_match; simplify_eq. by eapply validate_cluster_Ok.
  - intros (Hc & Hs & ->).
    assert (validate_cluster geometry c = Ok tt) as ->.
    { apply validate_cluster_Ok. split; [|done]. pose proof (xg_count _ Hg).
      unfold MAX_CLUSTER_COUNT in *. widths. lia. }
    cbn [map_err mbind outcome_bind]. by rewrite bool_decide_eq_false_2.
Qed.

(** ** Chains *)
Lemma exact_loop_Ok fat todo needed maximum index clusters seen c l :
  fat_number fat < eb_number_of_fats geometry ->
  index + N.of_nat todo = needed -> (0 < todo)%nat ->
  exact_loop r geometry todo fat needed maximum index clusters seen c = Ok l <->
  exists rest, l = clusters ++ rest /\ chain_from (image_entry img geometry fat) c rest /\
    length rest = todo /\ (forall x, x ∈ rest -> x ∉ seen).
Proof.
  intros Hf. revert index clusters seen c. induction todo as [|todo IH];
    intros index clusters seen c Hi Ht; [lia |]. cbn [exact_loop]. split.
  - intros H0. inv_ok.
    match goal with H : validate_new_cluster _ _ _ = _ |- _ =>
      apply validate_new_cluster_Ok in H as (Hc & Hs & ->) end.
    match goal with H : read_image_fat_entry _ _ _ _ = Ok ?e |- _ =>
      pose proof (proj2 (image_entry_Some _ _ _ Hf) (conj Hc H)) as He; destruct e end; try done.
    + destruct (N.ltb_spec (index + 1) needed) as [Hl|Hl]; [|done].
      apply IH in H0 as (rest & -> & Hch & Hlr & Hd); [|lia|lia].
      exists (c :: rest). rewrite <- app_assoc. split_and!; [done | by eapply chain_link | simpl; lia |].
      intros x [->|Hx]%elem_of_cons; [done |]. specialize (Hd x Hx). set_solver.
    + destruct (N.eqb_spec (index + 1) needed) as [Hl|Hl]; [|done]. injection H0 as <-.
      exists [c]. split_and!; [done | by constructor | simpl; lia |].
      by intros x ->%list_elem_of_singleton.
  - intros (rest & -> & Hch & Hlr & Hd).
    pose proof (chain_from_NoDup _ _ _ Hch) as Hnd.
    destruct Hch as [c He|c next rest He Hch]; apply image_entry_Some in He as [Hc He]; try done.
    + rewrite (proj2 (validate_new_cluster_Ok c seen _)) by (split_and!; [done | apply Hd; by left | done]).
      cbn [mbind outcome_bind]. rewrite He. cbn [mbind outcome_bind].
      by rewrite (proj2 (N.eqb_eq _ _)) by (simpl in Hlr; lia).
    + rewrite (proj2 (validate_new_cluster_Ok c seen _)) by (split_and!; [done | apply Hd; by left | done]).
      cbn [mbind outcome_bind]. rewrite He. cbn [mbind outcome_bind].
      assert (0 < length rest)%nat by (destruct Hch; simpl; lia). simpl in Hlr.
      rewrite (proj2 (N.ltb_lt _ _)) by lia. apply IH; [lia | lia |].
      exists rest. rewrite <- app_assoc. split_and!; [done | done | lia |].
      intros x Hx. apply NoDup_cons in Hnd as [Hn _]. specialize (Hd x ltac:(by right)). set_solver.
Qed.

Lemma to_end_loop_Ok fuel fat maximum clusters seen c l :
  fat_number fat < eb_number_of_fats geometry ->
  (N.to_nat (maximum - len clusters) < fuel)%nat ->
  to_end_loop r geometry fuel fat maximum clusters seen c = Ok l <->
  exists rest, l = clusters ++ rest /\ chain_from (image_entry img geometry fat) c rest /\
    len clusters + len rest <= maximum /\ (forall x, x ∈ rest -> x ∉ seen).
Proof.
  intros Hf. revert clusters seen c. induction fuel as [|fuel IH];
    intros clusters seen c Ht; [lia |]. cbn [to_end_loop].
  destruct (N.leb_spec maximum (len clusters)) as [Hm|Hm].
  { split; [done |]. intros (rest & -> & Hch & Hl & _). exfalso.
    destruct (chain_from_head _ _ _ Hch) as [rest' ->]. rewrite len_cons in Hl. lia. }
  assert (Happ : len (clusters ++ [c]) = len clusters + 1) by (by rewrite len_app).
  split.
  - intros H0. inv_ok.
    match goal with H : validate_new_cluster _ _ _ = _ |- _ =>
      apply validate_new_cluster_Ok in H as (Hc & Hs & ->) end.
    match goal with H : read_image_fat_entry _ _ _ _ = Ok ?e |- _ =>
      pose proof (proj2 (image_entry_Some _ _ _ Hf) (conj Hc H)) as He; destruct e end; try done.
    + apply IH in H0 as (rest & -> & Hch & Hlr & Hd); [|lia].
      exists (c :: rest). rewrite <- app_assoc, len_cons.
      split_and!; [done | by eapply chain_link | lia |].
      intros x [->|Hx]%elem_of_cons; [done |]. specialize (Hd x Hx). set_solver.
    + injection H0 as <-.
      exists [c]. rewrite len_cons, len_nil. split_and!; [done | by constructor | lia |].
      by intros x ->%list_elem_of_singleton.
  - intros (rest & -> & Hch & Hlr & Hd).
    pose proof (chain_from_NoDup _ _ _ Hch) as Hnd.
    destruct Hch as [c He|c next rest He Hch]; apply image_entry_Some in He as [Hc He]; try done;
      rewrite (proj2 (validate_new_cluster_Ok c seen _))
        by (split_and!; [done | apply Hd; by left | done]);
      cbn [mbind outcome_bind]; rewrite He; cbn [mbind outcome_bind]; [done |].
    rewrite len_cons in Hlr. apply IH; [lia |].
    exists rest. rewrite <- app_assoc. split_and!; [done | done | lia |].
    intros x Hx. apply NoDup_cons in Hnd as [Hn _]. specialize (Hd x ltac:(by right)). set_solver.
Qed.

Lemma contiguous_clusters_Ok first count l :
  0 < count -> contiguous_clusters geometry first count = Ok l <->
  2 <= first /\ first + count <= eb_cluster_count geometry + 2 /\
  l = (fun i => first + i) <$> indices count.
Proof.
  intros Hc. unfold contiguous_clusters. rewrite cluster_byte_offset_iff by done.
  pose proof (xg_count _ Hg) as [_ Hm]. unfold MAX_CLUSTER_COUNT in Hm. widths. split.
  - intros H0. inv_ok. bool_props.
    destruct (validate_cluster geometry first) eqn:Hv; [|done..].
    apply validate_cluster_Ok in Hv as [_ [? ?]].
    replace (first + count - first) with count by lia. split_and!; [done | lia | done].
  - intros (H1 & H2 & ->).
    rewrite (proj2 (validate_cluster_Ok geometry first tt)) by (unfold data_cluster; lia).
    cbn [map_err mbind outcome_bind]. rewrite u32_try_from_in by lia.
    cbn [ok_or mbind outcome_bind]. unfold checked_add_u32.
    rewrite !(proj2 (N.leb_le _ _)) by lia. cbn [ok_or mbind outcome_bind].
    rewrite (proj2 (N.ltb_ge _ _)) by lia. cbn [refuse_if mbind outcome_bind].
    by replace (first + count - first) with count by lia.
Qed.

(** ** Bytes *)
Lemma read_chunks_value fuel offset n remaining bytes :
  (N.to_nat n < fuel)%nat -> n <= remaining -> offset + n <= len img ->
  read_chunks r fuel offset n remaining bytes =
  Ok (bytes ++ subslice offset (offset + n) img, remaining - n).
Proof.
  pose proof fits as Hfit. revert offset n remaining bytes.
  induction fuel as [|fuel IH]; intros offset n remaining bytes Hf Hn Ho; [lia |].
  cbn [read_chunks]. destruct (N.ltb_spec 0 n) as [H0|H0].
  - set (m := N.min n (rd_max_read_bytes r)). assert (1 <= m <= n) by lia.
    rewrite (serving_read _ _ Hr) by lia. cbn [map_err mbind outcome_bind].
    rewrite u64_try_from_in by lia. cbn [ok_or mbind outcome_bind].
    rewrite checked_add_in by lia. cbn [ok_or mbind outcome_bind].
    unfold sub_u64. rewrite !checked_sub_in by lia. cbn [expect mbind outcome_bind].
    rewrite IH by lia. rewrite <- app_assoc. do 2 f_equal; [f_equal |lia].
    replace (offset + m + (n - m)) with (offset + n) by lia. apply subslice_split; lia.
  - assert (n = 0) as -> by lia. rewrite N.add_0_r, N.sub_0_r.
    unfold subslice. by rewrite N.sub_diag, app_nil_r.
Qed.

Lemma read_clusters_loop_value clusters n bytes :
  Forall (data_cluster geometry) clusters ->
  read_clusters_loop r geometry clusters n bytes =
  Ok (bytes ++ stream_bytes img geometry clusters n).
Proof.
  intros Hc. revert n bytes. induction Hc as [|c clusters Hc _ IH]; intros n bytes.
  - by rewrite app_nil_r.
  - cbn [read_clusters_loop stream_bytes]. pose proof cluster_size. pose proof (cluster_inside c Hc).
    widths. change (2 ^ 25) with 33554432 in *.
    rewrite cluster_byte_offset_total by done. cbn [map_err mbind outcome_bind].
    rewrite usize_try_from_in by lia. cbn [ok_or mbind outcome_bind].
    rewrite read_chunks_value by lia. cbn [mbind outcome_bind].
    destruct (N.eqb_spec (n - N.min n K) 0) as [Hz|Hz].
    + rewrite Hz, stream_bytes_app_nil. by rewrite app_nil_r.
    + rewrite IH. by rewrite <- app_assoc.
Qed.
Lemma read_clusters_value clusters n maximum :
  Forall (data_cluster geometry) clusters -> n <= maximum -> maximum <= u64_max ->
  read_clusters r geometry clusters n maximum = Ok (stream_bytes img geometry clusters n).
Proof.
  intros Hc Hn Hm. unfold read_clusters, enforce_byte_limit.
  rewrite (u64_try_from_in maximum) by exact Hm.
  change (default u64_max (Some maximum)) with maximum. rewrite (proj2 (N.ltb_ge _ _)) by lia.
  cbn [refuse_if mbind outcome_bind]. rewrite usize_try_from_in by lia.
  cbn [ok_or mbind outcome_bind]. by apply read_clusters_loop_value.
Qed.

(** What a read of [n] bytes promises. *)
Definition limits_ok (limits : StreamReadLimits) : Prop :=
  0 < sl_max_bytes limits <= u64_max /\ 0 < sl_max_clusters limits.
Definition stream_of (fat : FatIndex) (first n : N) (no_fat_chain : bool)
    (limits : StreamReadLimits) (s : ExfatStream) : Prop :=
  if decide (n = 0) then first = 0 /\ s = mkExfatStream [] [] 0 no_fat_chain
  else
    let count := div_ceil n K in
    n <= sl_max_bytes limits /\ count <= sl_max_clusters limits /\
    stream_clusters img geometry fat no_fat_chain first count (xs_clusters s) /\
    s = mkExfatStream (stream_bytes img geometry (xs_clusters s) n) (xs_clusters s)
          (count * K) no_fat_chain.

Lemma stream_clusters_data fat no_fat_chain first count l :
  stream_clusters img geometry fat no_fat_chain first count l ->
  Forall (data_cluster geometry) l.
Proof.
  unfold stream_clusters. destruct no_fat_chain.
  - intros (H1 & H2 & ->). rewrite Forall_forall. intros x (i & -> & Hi)%list_elem_of_fmap.
    apply elem_of_indices in Hi. unfold data_cluster. lia.
  - intros [Hch _]. eapply Forall_impl; [by eapply chain_from_entries |].
    intros x [e He]. unfold image_entry in He. by case_decide.
Qed.

Lemma exact_fat_chain_Ok fat first count maximum l :
  fat_number fat < eb_number_of_fats geometry -> 0 < count ->
  exact_fat_chain r geometry fat first count maximum = Ok l <->
  stream_clusters img geometry fat false first count l.
Proof.
  intros Hf Hc. unfold exact_fat_chain, stream_clusters.
  rewrite exact_loop_Ok by (try exact Hf; lia). unfold len. split.
  - intros (rest & -> & Hch & Hl & _). simpl. split; [done | lia].
  - intros [Hch Hl]. exists l. split_and!; [done | done | lia |]. intros. set_solver.
Qed.

Lemma div_ceil_value a b :
  b <> 0 -> (if 0 <? a mod b then a / b + 1 else a / b) = div_ceil a b.
Proof.
  intros Hb. unfold div_ceil. rewrite div_ceil_split by done. f_equal. lia.
Qed.

Lemma div_ceil_bounds a b : 0 < a -> 0 < b -> div_ceil a b <= a /\ 0 < div_ceil a b.
Proof.
  intros Ha Hb. rewrite <- div_ceil_value by lia.
  pose proof (N.Div0.div_mod a b) as Hd. pose proof (N.mod_lt a b ltac:(lia)) as Hm.
  revert Hd Hm. generalize (a / b), (a mod b). intros q s -> Hs.
  assert (q <= b * q) by nia. destruct (N.ltb_spec 0 s); split; lia.
Qed.
Lemma heap_bytes : eb_cluster_count geometry * K <= u64_max.
Proof.
  etrans; [|apply fits]. etrans; [|exact Hlen]. rewrite (xg_cluster_bytes _ Hg).
  pose proof (xg_heap_end _ Hg).
  rewrite (N.mul_comm (eb_bytes_per_sector geometry)), N.mul_assoc. apply N.mul_le_mono_r. lia.
Qed.
Lemma stream_clusters_bound fat no_fat_chain first count l :
  stream_clusters img geometry fat no_fat_chain first count l -> count * K <= u64_max.
Proof.
  intros Hs. etrans; [|apply heap_bytes]. apply N.mul_le_mono_r.
  pose proof (stream_clusters_data _ _ _ _ _ Hs) as Hd. unfold stream_clusters in Hs.
  destruct no_fat_chain; [lia |]. destruct Hs as [Hch <-].
  apply bounded_NoDup_length with (lo := 2); [by eapply chain_from_NoDup |].
  eapply Forall_impl; [exact Hd |]. unfold data_cluster. intros. lia.
Qed.

Lemma read_stream_Ok fat first n no_fat_chain limits s :
  sl_max_bytes limits <= u64_max ->
  read_stream_from_fat r geometry fat first n no_fat_chain limits = Ok s <->
  limits_ok limits /\ fat_number fat < eb_number_of_fats geometry /\
  stream_of fat first n no_fat_chain limits s.
Proof.
  intros Hml. unfold read_stream_from_fat, validate_stream_limits, validate_fat_index, limits_ok.
  destruct (N.eqb_spec (sl_max_bytes limits) 0) as [H1|H1]; [split; [done | lia] |].
  destruct (N.eqb_spec (sl_max_clusters limits) 0) as [H2|H2]; [split; [done | lia] |].
  cbn [orb refuse_if mbind outcome_bind].
  destruct (N.ltb_spec (fat_number fat) (eb_number_of_fats geometry)) as [Hf|Hf];
    [|split; [done | lia]]. cbn [negb refuse_if mbind outcome_bind]. unfold stream_of.
  destruct (N.eqb_spec n 0) as [->|Hn].
  { rewrite decide_True by done. destruct (N.eqb_spec first 0) as [->|Hfi]; simpl; [|naive_solver].
    split; [intros [= <-]; split_and!; try done; lia | by intros (_ & _ & _ & ->)]. }
  rewrite decide_False by done. cbv zeta. pose proof cluster_size as [HK1 HK2].
  unfold enforce_byte_limit. rewrite (u64_try_from_in (sl_max_bytes limits)) by exact Hml.
  change (default u64_max (Some (sl_max_bytes limits))) with (sl_max_bytes limits).
  destruct (N.ltb_spec (sl_max_bytes limits) n) as [Hb|Hb];
    [split; [done |]; intros (_ & _ & ? & _); lia |].
  cbn [refuse_if mbind outcome_bind]. unfold div_u64, rem_u64.
  rewrite (proj2 (N.eqb_neq K 0)) by lia. cbn [mbind outcome_bind].
  rewrite div_ceil_value by lia.
  pose proof (div_ceil_bounds n K ltac:(lia) ltac:(lia)) as [Hc1 Hc2].
  rewrite usize_try_from_in by lia. cbn [ok_or mbind outcome_bind].
  destruct (N.ltb_spec (sl_max_clusters limits) (div_ceil n K)) as [Hx|Hx];
    [split; [done |]; intros (_ & _ & _ & ? & _); lia |].
  cbn [refuse_if mbind outcome_bind].
  set (cs := if no_fat_chain then _ else _).
  assert (Hcs : forall l, cs = Ok l <->
    stream_clusters img geometry fat no_fat_chain first (div_ceil n K) l).
  { intros l. unfold cs. destruct no_fat_chain; [by apply contiguous_clusters_Ok |].
    apply exact_fat_chain_Ok; [exact Hf | lia]. }
  clearbody cs. split.
  - intros H0. apply bind_Ok in H0 as (l & Hl & H0). apply Hcs in Hl.
    pose proof (stream_clusters_data _ _ _ _ _ Hl) as Hd.
    rewrite read_clusters_value in H0 by (done || lia). inv_ok. cbn [xs_clusters].
    split_and!; try done; lia.
  - intros (_ & _ & _ & _ & Hl & ->). cbn [xs_clusters] in *.
    pose proof (stream_clusters_data _ _ _ _ _ Hl) as Hd.
    rewrite (proj2 (Hcs _) Hl). cbn [mbind outcome_bind].
    rewrite checked_mul_in by (by eapply stream_clusters_bound).
    cbn [ok_or mbind outcome_bind]. rewrite read_clusters_value by (done || lia). done.
Qed.

Lemma read_chain_to_end_Ok fat first limits s :
  sl_max_bytes limits <= u64_max ->
  read_chain_to_end_from_fat r geometry fat first limits = Ok s <->
  limits_ok limits /\ fat_number fat < eb_number_of_fats geometry /\
  chain_from (image_entry img geometry fat) first (xs_clusters s) /\
  len (xs_clusters s) <= sl_max_clusters limits /\
  len (xs_clusters s) * K <= sl_max_bytes limits /\
  s = mkExfatStream (stream_bytes img geometry (xs_clusters s) (len (xs_clusters s) * K))
        (xs_clusters s) (len (xs_clusters s) * K) false.
Proof.
  intros Hml. unfold read_chain_to_end_from_fat, validate_stream_limits, validate_fat_index,
    limits_ok, fat_chain_to_end.
  assert (Hdata : forall l, chain_from (image_entry img geometry fat) first l ->
    Forall (data_cluster geometry) l /\ len l * K <= u64_max /\ len l <= u64_max).
  { intros l Hch. pose proof (conj Hch (eq_refl (len l))
      : stream_clusters img geometry fat false first (len l) l) as Hs.
    pose proof cluster_size. pose proof (stream_clusters_bound _ _ _ _ _ Hs).
    assert (len l * 1 <= len l * K) by (apply N.mul_le_mono_l; lia).
    split_and!; [by eapply stream_clusters_data | done | lia]. }
  assert (Hdef : default u64_max (u64_try_from (sl_max_bytes limits)) = sl_max_bytes limits)
    by (by rewrite (u64_try_from_in (sl_max_bytes limits)) by exact Hml).
  split.
  - intros H0. inv_ok. bool_props.
    match goal with H : to_end_loop _ _ _ _ _ _ _ _ = Ok _ |- _ =>
      apply to_end_loop_Ok in H as (l & -> & Hch & Hl & _); [|lia | rewrite len_nil; lia] end.
    rewrite len_nil, N.add_0_l in Hl. destruct (Hdata l Hch) as (Hd & Hb & _). simpl app in *.
    unfold enforce_byte_limit in *. rewrite Hdef in *. inv_ok. bool_props.
    rewrite read_clusters_value in * by (done || lia).
    repeat match goal with H : Ok _ = Ok _ |- _ => injection H as <- end.
    cbn [xs_clusters]. split_and!; try done; lia.
  - intros (Hlim & Hf & Hch & H1 & H2 & ->). cbn [xs_clusters] in *.
    destruct (Hdata _ Hch) as (Hd & Hb & Hl).
    ok_step.
    eapply bind_step; [by apply refuse_step, negb_false_iff, N.ltb_lt | cbv beta].
    eapply bind_step.
    { apply to_end_loop_Ok; [exact Hf | rewrite len_nil; lia |]. exists (xs_clusters s).
      rewrite len_nil. split_and!; [done | exact Hch | lia | set_solver]. }
    cbv beta. eapply bind_step; [apply ok_or_step, u64_try_from_in; exact Hl | cbv beta].
    eapply bind_step; [apply ok_or_step, checked_mul_in; exact Hb | cbv beta].
    unfold enforce_byte_limit. rewrite Hdef.
    eapply bind_step; [by apply refuse_step, N.ltb_ge | cbv beta].
    by rewrite read_clusters_value by (done || lia).
Qed.
End Serving.

(** ** Arbitrary images *)
Section Faithful.
#[local] Set Default Proof Using "All".
Context `{BoundedImageReader R} (r : R) (img : list byte) (geometry : ExfatBootSector).
Context (Hr : Faithful r img) (Hk : eb_bytes_per_cluster geometry <> 0).

Lemma read_image_fat_entry_safe fat c : read_image_fat_entry r geometry fat c <> Panic.
Proof.
  unfold read_image_fat_entry. safe; [apply (faithful_safe _ _ Hr) | |].
  - inv_ok. apply read_le_safe.
    match goal with H : rd_read_exact_at _ _ _ = Ok _ |- _ =>
      rewrite (faithful_read_len _ _ _ _ _ Hr H) end. lia.
  - destruct (cluster_byte_offset _ _) eqn:Hc; [done | done |].
    by apply cluster_byte_offset_safe in Hc.
Qed.
Lemma validate_new_cluster_safe c seen : validate_new_cluster geometry c seen <> Panic.
Proof. unfold validate_new_cluster. safe. apply cluster_byte_offset_safe. Qed.
Lemma exact_loop_safe todo fat needed maximum index clusters seen c :
  exact_loop r geometry todo fat needed maximum index clusters seen c <> Panic.
Proof.
  revert index clusters seen c. induction todo as [|todo IH]; intros; cbn [exact_loop]; [done |].
  apply bind_safe; [apply validate_new_cluster_safe | intros ? _].
  apply bind_safe; [apply read_image_fat_entry_safe | intros [] _]; safe; apply IH.
Qed.
Lemma to_end_loop_safe fuel fat maximum clusters seen c :
  (N.to_nat (maximum - len clusters) < fuel)%nat ->
  to_end_loop r geometry fuel fat maximum clusters seen c <> Panic.
Proof.
  revert clusters seen c. induction fuel as [|fuel IH]; intros clusters seen c Hf; [lia |].
  cbn [to_end_loop]. destruct (N.leb_spec maximum (len clusters)); [done |].
  apply bind_safe; [apply validate_new_cluster_safe | intros ? _].
  apply bind_safe; [apply read_image_fat_entry_safe | intros [] _]; safe. apply IH.
  rewrite len_app, len_cons, len_nil. lia.
Qed.
Lemma contiguous_clusters_safe first count : contiguous_clusters geometry first count <> Panic.
Proof. unfold contiguous_clusters. safe. apply cluster_byte_offset_safe. Qed.

Lemma read_chunks_yields fuel offset n remaining bytes :
  (N.to_nat n < fuel)%nat -> n <= remaining ->
  read_chunks r fuel offset n remaining bytes <> Panic.
Proof.
  pose proof (faithful_max _ _ Hr) as Hm. revert offset n remaining bytes.
  induction fuel as [|fuel IH]; intros offset n remaining bytes Hf Hn; [lia |].
  cbn [read_chunks]. destruct (N.ltb_spec 0 n); [|done].
  safe; inv_ok; [apply (faithful_safe _ _ Hr) | apply sub_u64_safe; lia
    | apply sub_u64_safe; lia | apply IH; lia].
Qed.
Lemma read_chunks_remaining fuel offset n remaining bytes out rest :
  n <= remaining -> read_chunks r fuel offset n remaining bytes = Ok (out, rest) ->
  rest = remaining - n.
Proof.
  revert offset n remaining bytes. induction fuel as [|fuel IH]; intros offset n remaining bytes Hn;
    [done |]. cbn [read_chunks]. destruct (N.ltb_spec 0 n); intros Hx; inv_ok; [|lia].
  apply IH in Hx as ->; lia.
Qed.
Lemma read_clusters_loop_safe clusters n bytes :
  read_clusters_loop r geometry clusters n bytes <> Panic.
Proof.
  revert n bytes. induction clusters as [|c clusters IH]; intros n bytes;
    cbn [read_clusters_loop]; [done |].
  safe; inv_ok; [apply cluster_byte_offset_safe | apply read_chunks_yields; lia |].
  case_match. safe. apply IH.
Qed.
Lemma read_clusters_safe clusters n maximum : read_clusters r geometry clusters n maximum <> Panic.
Proof. unfold read_clusters, enforce_byte_limit. safe. apply read_clusters_loop_safe. Qed.

Lemma read_stream_safe fat first n no_fat_chain limits :
  read_stream_from_fat r geometry fat first n no_fat_chain limits <> Panic.
Proof.
  unfold read_stream_from_fat, validate_stream_limits, validate_fat_index, enforce_byte_limit,
    exact_fat_chain.
  safe; first [by apply div_u64_safe | by apply rem_u64_safe | apply contiguous_clusters_safe
    | apply exact_loop_safe | apply read_clusters_safe].
Qed.
Lemma read_chain_to_end_safe fat first limits :
  read_chain_to_end_from_fat r geometry fat first limits <> Panic.
Proof.
  unfold read_chain_to_end_from_fat, validate_stream_limits, validate_fat_index,
    enforce_byte_limit, fat_chain_to_end.
  safe; [apply to_end_loop_safe; rewrite len_nil; lia | apply read_clusters_safe].
Qed.
End Faithful.

(** * Properties *)

(** on a reader that serves an image which contains an accepted exFAT volume,
    a stream read succeeds exactly when the request is inside the caller's limits
    and its clusters exist (a run inside the heap, or a chain of the selected
    table of exactly the needed length), and it returns the bytes of these
    clusters in order, cut at the length of the stream. *)
Theorem stream_read_exact `{BoundedImageReader R} (r : R) img sector geometry fat first n
    no_fat_chain limits :
  Serving r img -> parse_boot_sector sector = Ok geometry ->
  eb_volume_length_sectors geometry * eb_bytes_per_sector geometry <= len img ->
  4 <= rd_max_read_bytes r -> sl_max_bytes limits <= u64_max ->
  forall s, read_stream_from_fat r geometry fat first n no_fat_chain limits = Ok s <->
    limits_ok limits /\ fat_number fat < eb_number_of_fats geometry /\
    stream_of img geometry fat first n no_fat_chain limits s.
Proof.
  intros Hr Hp Hlen Hmax Hml s. apply parse_boot_sector_iff in Hp as (Hl & _ & Hf & Hg).
  pose proof (geometry_sizes _ Hg) as ([H512 _] & _).
  apply read_stream_Ok; try done. rewrite (xo_heap _ _ Hf). apply field_4_bound. lia.
Qed.

(** with any faithful reader, whatever the image holds and whatever table the
    reader presents, reading a stream or a chain to its end terminates and does
    not panic. *)
Theorem stream_read_total `{BoundedImageReader R} (r : R) img geometry fat first n
    no_fat_chain limits :
  Faithful r img -> eb_bytes_per_cluster geometry <> 0 ->
  read_stream_from_fat r geometry fat first n no_fat_chain limits <> Panic /\
  read_chain_to_end_from_fat r geometry fat first limits <> Panic.
Proof. split; [by eapply read_stream_safe | by eapply read_chain_to_end_safe]. Qed.

(** ** Witnesses *)
Definition blank_image : list byte := replicate (N.to_nat (2048 * 512)) x00.
Lemma len_blank_image : len blank_image = 1048576.
Proof. unfold blank_image. rewrite len_replicate, N2Nat.id. done. Qed.
Lemma blank_image_serving : Serving (quiet_image blank_image 4096) blank_image.
Proof. apply quiet_image_serving; [by rewrite len_blank_image | done]. Qed.

Lemma stream_read_exact_witness :
  exists s, read_stream_from_fat (quiet_image blank_image 4096) sample_boot_sector First 2 700 true
              (mkStreamReadLimits 4096 8) = Ok s /\ xs_clusters s = [2; 3] /\
            xs_allocation_bytes s = 1024.
Proof.
  set (s := mkExfatStream (stream_bytes blank_image sample_boot_sector [2; 3] 700) [2; 3] 1024 true).
  exists s. split; [|by split].
  apply (stream_read_exact (quiet_image blank_image 4096) blank_image sample_sector
    sample_boot_sector First 2 700 true (mkStreamReadLimits 4096 8)).
  - apply blank_image_serving.
  - vm_compute. reflexivity.
  - rewrite len_blank_image. vm_compute. congruence.
  - vm_compute. congruence.
  - vm_compute. congruence.
  - split; [by vm_compute | split; [by vm_compute |]].
    split; [by vm_compute |]. split; [by vm_compute |]. split; [by vm_compute | reflexivity].
Defined.
Lemma stream_read_total_witness :
  read_chain_to_end_from_fat (quiet_image blank_image 4096) sample_boot_sector First 2
    (mkStreamReadLimits 4096 8) <> Panic.
Proof.
  apply (stream_read_total (quiet_image blank_image 4096) blank_image sample_boot_sector First 2 1
    true (mkStreamReadLimits 4096 8)); [apply serving_faithful, blank_image_serving | done].
Defined.
