(* ===== verification/ExfatFormat.v ===== *)
(** * exFAT destination formatting

    The parts of [fs/exfat_serialize.rs] that lay out and format a destination
    volume: the choice of the geometry, the boot regions, the file allocation
    table and the allocation of metadata clusters.

    The theorems connect the writer with the readers of [ExfatBoot.v],
    [ExfatRegion.v] and [ExfatAllocation.v]: every geometry that is chosen
    satisfies the boot-sector contract, although the iteration that looks for it
    is stopped after 64 rounds; the boot regions written for it are accepted and
    read back field by field; the chains written to a table are the chains the
    readers walk. *)

From S2P Require Import Overlay.
From S2P Require Export Prelude Bytes ExfatBoot ExfatRegion ExfatAllocation.
From stdpp Require Import options.

#[local] Open Scope N_scope.

Definition FAT_OFFSET_SECTORS : N := 24.
Definition BOOT_CODE_START : N := 120.
Definition BOOT_CODE_END : N := 510.
Definition FAT_BAD_CLUSTER : N := 4294967287.
Definition FAT_MEDIA_ENTRY : N := 4294967288.

(** ** Data *)
Record ExfatSerializeOptions : Type := mkExfatSerializeOptions {
  so_bytes_per_sector : N;
  so_bytes_per_cluster : N;
  so_partition_offset_sectors : N;
  so_volume_serial_number : N;
  so_drive_select : N
}.

Record ExfatDestinationGeometry : Type := mkExfatDestinationGeometry {
  dg_volume_bytes : N;
  dg_volume_sectors : N;
  dg_fat_offset_sectors : N;
  dg_fat_length_sectors : N;
  dg_cluster_heap_offset_sectors : N;
  dg_cluster_count : N;
  dg_root_directory_cluster : N;
  dg_bytes_per_sector : N;
  dg_bytes_per_cluster : N
}.

Record ExfatAllocationRun : Type := mkAllocation {
  al_first_cluster : N;
  al_cluster_count : N
}.

(** Objects and streams are identified by numbers.  [AllocationFailed] is a
    failure to reserve memory, which no definition returns. *)
Inductive ExfatSerializeError : Type :=
| InvalidLimit (limit : string)
| InvalidGeometry (reason : string)
| LimitExceeded (limit : string) (actual maximum : N)
| SerializeOverflow (operation : string)
| AllocationFailed
| MissingMetadata (object : N)
| DuplicateMetadata (object : N)
| RootMetadata (object : N)
| UnknownMetadata (object : N)
| UnsupportedObject (object : N) (reason : string)
| InvalidAttributes (object : N)
| InvalidTimestamp (object : N)
| InvalidVolumeLabel (reason : string)
| InvalidUpcaseTable
| UnsupportedPreservationEvidence (reason : string)
| InvalidName (object : N) (reason : string)
| CaseInsensitiveCollision (parent : N)
| PayloadOutsideHeap (stream : N)
| PayloadNotClusterAligned (stream : N)
| BadClusterOverlapsDestinationMetadata (offset : N)
| MetadataSpaceExhausted (clusters : N)
| DestinationLayoutChanged
| GraphSubstitution
| GeneratedBootRegion (error : ExfatBootRegionError)
| GeneratedBootCode (region : ExfatBootRegionKind) (offset found : N)
| SerializeOverlay (error : OverlayError).

(** ** Geometry *)
Definition align_up (value alignment : N) : outcome ExfatSerializeError N :=
  slack ← sub_u64 alignment 1;
  sum ← ok_or (SerializeOverflow "alignment") (checked_add value slack);
  quotient ← div_u64 sum alignment;
  expect (checked_mul quotient alignment).

(** One round of the search: the heap that follows a FAT of the given length,
    the clusters that fit in it, and the FAT that they need. *)
Definition geometry_round (volume_sectors sectors_per_cluster sector fat_length : N)
    : outcome ExfatSerializeError (N * N * N) :=
  fat_end ← ok_or (SerializeOverflow "FAT end") (checked_add FAT_OFFSET_SECTORS fat_length);
  new_heap ← align_up fat_end sectors_per_cluster;
  refuse_if (volume_sectors <=? new_heap) (InvalidGeometry "metadata leaves no cluster heap") ;;
  available ← sub_u64 volume_sectors new_heap;
  new_count ← div_u64 available sectors_per_cluster;
  fat_bytes ← ok_or (SerializeOverflow "FAT entries")
    (value ← checked_add new_count 2; checked_mul value 4);
  whole ← div_u64 fat_bytes sector;
  rest ← rem_u64 fat_bytes sector;
  Ok (new_heap, new_count, if 0 <? rest then whole + 1 else whole).

(** [for _ in 0..64]. *)
Fixpoint geometry_loop (rounds : nat) (volume_sectors sectors_per_cluster sector
    heap_offset cluster_count fat_length : N) : outcome ExfatSerializeError (N * N * N) :=
  match rounds with
  | O => Ok (heap_offset, cluster_count, fat_length)
  | S rounds =>
      '(new_heap, new_count, new_fat) ←
        geometry_round volume_sectors sectors_per_cluster sector fat_length;
      if (new_heap =? heap_offset) && (new_count =? cluster_count) && (new_fat =? fat_length)
      then Ok (heap_offset, cluster_count, fat_length)
      else geometry_loop rounds volume_sectors sectors_per_cluster sector new_heap new_count
             new_fat
  end.

Definition choose_geometry (volume_bytes : N) (options : ExfatSerializeOptions)
    (max_clusters : N) : outcome ExfatSerializeError ExfatDestinationGeometry :=
  let sector := so_bytes_per_sector options in
  let cluster := so_bytes_per_cluster options in
  refuse_if (negb ((512 <=? sector) && (sector <=? 4096)) || negb (is_power_of_two sector))
    (InvalidGeometry "sector size must be a power of two from 512 through 4096") ;;
  bad_cluster ←
    (if (cluster <? sector) || negb (is_power_of_two cluster)
        || (32 * 1024 * 1024 <? cluster) then Ok true
     else remainder ← rem_u64 cluster sector; Ok (negb (remainder =? 0)));
  refuse_if bad_cluster
    (InvalidGeometry "cluster size must be a sector multiple and a power of two no larger than 32 MiB") ;;
  bad_volume ←
    (if volume_bytes <? 1048576 then Ok true
     else remainder ← rem_u64 volume_bytes sector; Ok (negb (remainder =? 0)));
  refuse_if bad_volume (InvalidGeometry "volume must be at least 1 MiB and sector aligned") ;;
  volume_sectors ← div_u64 volume_bytes sector;
  partition_end ← ok_or (InvalidGeometry "partition offset plus volume length overflows")
    (checked_add (so_partition_offset_sectors options) volume_sectors);
  sectors_per_cluster ← div_u64 cluster sector;
  '(heap_offset, cluster_count, fat_length) ←
    geometry_loop 64 volume_sectors sectors_per_cluster sector 0 0 1;
  refuse_if ((cluster_count =? 0) || (MAX_CLUSTER_COUNT <? cluster_count))
    (InvalidGeometry "cluster count is outside exFAT 1.00 bounds") ;;
  refuse_if (default u64_max (u64_try_from max_clusters) <? cluster_count)
    (LimitExceeded "clusters" cluster_count max_clusters) ;;
  fat_offset ← expect (u32_try_from FAT_OFFSET_SECTORS);
  fat_length ← ok_or (SerializeOverflow "FAT sector count") (u32_try_from fat_length);
  heap_offset ← ok_or (SerializeOverflow "heap sector offset") (u32_try_from heap_offset);
  cluster_count ← ok_or (SerializeOverflow "cluster count") (u32_try_from cluster_count);
  Ok (mkExfatDestinationGeometry volume_bytes volume_sectors fat_offset fat_length heap_offset
        cluster_count 2 sector cluster).

(** ** Boot regions *)
Definition validate_formatter_boot_code (regions : list byte) (bytes_per_sector : N)
    : outcome ExfatSerializeError unit :=
  region_bytes ← ok_or (SerializeOverflow "boot region byte length")
    (checked_mul bytes_per_sector 12);
  for_each (fun '(region, base) =>
    start ← add_u64 base BOOT_CODE_START;
    end_ ← add_u64 base BOOT_CODE_END;
    boot_code ← ok_or (InvalidGeometry "generated boot code range is truncated")
      (get_range start end_ regions);
    match List.find (fun entry => negb (bool_decide (snd entry = xf4))) (enumerate boot_code) with
    | Some (offset, found) => Err (GeneratedBootCode region offset (Byte.to_N found))
    | None => Ok tt
    end) [(Main, 0); (Backup, region_bytes)].

Definition validate_generated_boot_regions (regions : list byte) (bytes_per_sector : N)
    : outcome ExfatSerializeError unit :=
  validated ← map_err GeneratedBootRegion (validate_boot_regions regions bytes_per_sector);
  refuse_if (negb (bool_decide (rs_comparison validated = Exact)))
    (InvalidGeometry "generated main and backup boot regions differ") ;;
  validate_formatter_boot_code regions bytes_per_sector.

(** The fields of the boot sector, over a region of zeros. *)
Definition boot_fields (geometry : ExfatDestinationGeometry) (options : ExfatSerializeOptions)
    (percent_in_use : N) (main : list byte) : outcome ExfatSerializeError (list byte) :=
  main ← copy_from_slice 0 3 [xeb; x76; x90] main;
  main ← copy_from_slice 3 11 (ascii_bytes "EXFAT   ") main;
  main ← put_le 8 main 64 (so_partition_offset_sectors options);
  main ← put_le 8 main 72 (dg_volume_sectors geometry);
  main ← put_le 4 main 80 (dg_fat_offset_sectors geometry);
  main ← put_le 4 main 84 (dg_fat_length_sectors geometry);
  main ← put_le 4 main 88 (dg_cluster_heap_offset_sectors geometry);
  main ← put_le 4 main 92 (dg_cluster_count geometry);
  main ← put_le 4 main 96 (dg_root_directory_cluster geometry);
  main ← put_le 4 main 100 (so_volume_serial_number options);
  main ← put_le 2 main 104 256;
  sector_shift ← ok_or (SerializeOverflow "sector shift")
    (u8_try_from (trailing_zeros 32 (dg_bytes_per_sector geometry)));
  main ← put_le 1 main 108 sector_shift;
  ratio ← div_u64 (dg_bytes_per_cluster geometry) (dg_bytes_per_sector geometry);
  cluster_shift ← ok_or (SerializeOverflow "cluster shift")
    (u8_try_from (trailing_zeros 32 ratio));
  main ← put_le 1 main 109 cluster_shift;
  main ← put_le 1 main 110 1;
  main ← put_le 1 main 111 (so_drive_select options);
  main ← put_le 1 main 112 percent_in_use;
  main ← copy_from_slice BOOT_CODE_START BOOT_CODE_END
           (replicate (N.to_nat (BOOT_CODE_END - BOOT_CODE_START)) xf4) main;
  put_le 2 main 510 43605.

Definition extended_signatures (sector : N) (main : list byte)
    : outcome ExfatSerializeError (list byte) :=
  try_fold (fun main index =>
    position ← sub_u64 (index * sector + sector) 4;
    put_le 4 main position 2857697280) main [1; 2; 3; 4; 5; 6; 7; 8].

(** [for offset in (11 * sector..12 * sector).step_by(4)]. *)
Definition checksum_sector (sector checksum : N) (main : list byte)
    : outcome ExfatSerializeError (list byte) :=
  try_fold (fun main word => put_le 4 main (11 * sector + 4 * word) checksum) main
    (indices ((sector + 3) / 4)).

Definition build_boot_regions (geometry : ExfatDestinationGeometry)
    (options : ExfatSerializeOptions) (percent_in_use : N)
    : outcome ExfatSerializeError (list byte) :=
  sector ← ok_or (SerializeOverflow "sector bytes") (usize_try_from (dg_bytes_per_sector geometry));
  region_bytes ← ok_or (SerializeOverflow "boot region bytes") (checked_mul sector 12);
  main ← boot_fields geometry options percent_in_use (replicate (N.to_nat region_bytes) x00);
  main ← extended_signatures sector main;
  covered ← index_range 0 (11 * sector) main;
  main ← checksum_sector sector (boot_checksum covered) main;
  let both := main ++ main in
  validate_generated_boot_regions both sector ;;
  Ok both.

(** ** Specification *)

(** The boot sector that the geometry and the options describe. *)
Definition described_boot_sector (geometry : ExfatDestinationGeometry)
    (options : ExfatSerializeOptions) (percent_in_use : N) : ExfatBootSector :=
  mkExfatBootSector (so_partition_offset_sectors options) (dg_volume_sectors geometry)
    (dg_fat_offset_sectors geometry) (dg_fat_length_sectors geometry)
    (dg_cluster_heap_offset_sectors geometry) (dg_cluster_count geometry)
    (dg_root_directory_cluster geometry) (so_volume_serial_number options) 256 0
    (N.log2 (dg_bytes_per_sector geometry))
    (N.log2 (dg_bytes_per_cluster geometry / dg_bytes_per_sector geometry)) 1
    (so_drive_select options) (Some percent_in_use) (dg_bytes_per_sector geometry)
    (dg_bytes_per_cluster geometry / dg_bytes_per_sector geometry)
    (dg_bytes_per_cluster geometry).

(** The types of the fields. *)
Definition options_typed (options : ExfatSerializeOptions) : Prop :=
  so_partition_offset_sectors options <= u64_max /\
  so_volume_serial_number options <= u32_max /\ so_drive_select options <= u8_max.
Definition geometry_typed (geometry : ExfatDestinationGeometry) : Prop :=
  dg_volume_sectors geometry <= u64_max /\ dg_fat_offset_sectors geometry <= u32_max /\
  dg_fat_length_sectors geometry <= u32_max /\
  dg_cluster_heap_offset_sectors geometry <= u32_max /\
  dg_cluster_count geometry <= u32_max /\ dg_root_directory_cluster geometry <= u32_max.

(** * Lemmas *)

(** ** The search for a geometry *)

Section Search.
#[local] Set Default Proof Using "All".
Context (V C B : N) (HC : C <> 0) (HB : B <> 0).

(** The heap, the clusters and the FAT length that follow from a FAT length. *)
Definition heap_for (f : N) : N := (FAT_OFFSET_SECTORS + f + (C - 1)) / C * C.
Definition count_for (f : N) : N := (V - heap_for f) / C.
Definition fat_for (f : N) : N := ((count_for f + 2) * 4 + (B - 1)) / B.

Lemma heap_for_above f : FAT_OFFSET_SECTORS + f <= heap_for f.
Proof.
  unfold heap_for. pose proof (N.Div0.div_mod (FAT_OFFSET_SECTORS + f + (C - 1)) C) as Hd.
  pose proof (N.mod_lt (FAT_OFFSET_SECTORS + f + (C - 1)) C HC) as Hm.
  rewrite (N.mul_comm C) in Hd. lia.
Qed.
Lemma heap_for_mono f1 f2 : f1 <= f2 -> heap_for f1 <= heap_for f2.
Proof. intros. unfold heap_for. apply N.mul_le_mono_r, N.Div0.div_le_mono. lia. Qed.
Lemma fat_for_anti f1 f2 : f1 <= f2 -> fat_for f2 <= fat_for f1.
Proof.
  intros Hf. pose proof (heap_for_mono _ _ Hf). unfold fat_for, count_for.
  apply N.Div0.div_le_mono.
  assert ((V - heap_for f2) / C <= (V - heap_for f1) / C) by (apply N.Div0.div_le_mono; lia). lia.
Qed.
Lemma fat_for_enough f : 4 * (count_for f + 2) <= fat_for f * B.
Proof.
  unfold fat_for. pose proof (N.Div0.div_mod ((count_for f + 2) * 4 + (B - 1)) B) as Hd.
  pose proof (N.mod_lt ((count_for f + 2) * 4 + (B - 1)) B HB) as Hm.
  rewrite (N.mul_comm B) in Hd. lia.
Qed.
Lemma fat_for_pos f : 1 <= fat_for f.
Proof. pose proof (fat_for_enough f). destruct (decide (fat_for f = 0)) as [He|]; [rewrite He in *|]; lia. Qed.

Lemma geometry_round_Ok f h c f' :
  geometry_round V C B f = Ok (h, c, f') ->
  h = heap_for f /\ h < V /\ c = count_for f /\ f' = fat_for f.
Proof.
  unfold geometry_round, align_up. intros H. inv_ok. bool_props.
  destruct (checked_add _ 2) as [v|] eqn:Hv; [|done]. simpl in *.
  apply checked_add_Some in Hv as [-> Hv]. inv_ok. unfold fat_for, count_for, heap_for.
  rewrite <- (div_ceil_split _ B) by exact HB. done.
Qed.

(** The state after a round whose FAT length was [p]. *)
Definition reached (p h c f : N) : Prop :=
  h = heap_for p /\ h < V /\ c = count_for p /\ f = fat_for p.
Definition chosen (h c f : N) : Prop :=
  FAT_OFFSET_SECTORS + f <= h /\ h < V /\ c = (V - h) / C /\ 4 * (c + 2) <= f * B /\ (C | h).

Lemma reached_chosen p h c f : reached p h c f -> f <= p -> chosen h c f.
Proof.
  intros (-> & Hv & -> & ->) Hf. pose proof (heap_for_above p). split_and!; [lia | done | done | |].
  - apply fat_for_enough.
  - by exists ((FAT_OFFSET_SECTORS + p + (C - 1)) / C).
Qed.

(** The lengths of successive rounds alternate around each other, so that the
    last of an even number of rounds is too short to reach the heap. *)
Lemma geometry_loop_chosen n p h c f h' c' f' :
  reached p h c f -> (if Nat.even n then f <= p else p <= f) ->
  geometry_loop n V C B h c f = Ok (h', c', f') -> chosen h' c' f'.
Proof.
  revert p h c f. induction n as [|n IH]; intros p h c f Hr Hp H.
  - injection H as <- <- <-. by eapply reached_chosen.
  - cbn [geometry_loop] in H. apply bind_Ok in H as ([[nh nc] nf] & Hround & H).
    apply geometry_round_Ok in Hround as (-> & Hv & -> & ->).
    assert (Hn : reached f (heap_for f) (count_for f) (fat_for f)) by (by split_and!).
    destruct ((heap_for f =? h) && (count_for f =? c) && (fat_for f =? f)) eqn:Hsame.
    + bool_props. injection H as <- <- <-. eapply (reached_chosen f); [|done].
      split_and!; congruence.
    + eapply (IH f); [exact Hn | | exact H]. destruct Hr as (_ & _ & _ & ->).
      rewrite Nat.even_succ, <- Nat.negb_even in Hp.
      destruct (Nat.even n); simpl in Hp; by apply fat_for_anti.
Qed.

Lemma geometry_search_chosen h c f :
  geometry_loop 64 V C B 0 0 1 = Ok (h, c, f) -> chosen h c f.
Proof.
  intros H. cbn [geometry_loop] in H. apply bind_Ok in H as ([[nh nc] nf] & Hround & H).
  apply geometry_round_Ok in Hround as (-> & Hv & -> & ->).
  pose proof (heap_for_above 1). pose proof (fat_for_pos 1). unfold FAT_OFFSET_SECTORS in *.
  rewrite (proj2 (N.eqb_neq (heap_for 1) 0)) in H by lia. cbn [andb] in H.
  eapply (geometry_loop_chosen 63 1); [by split_and! | done | exact H].
Qed.
End Search.

(** The geometry once the root directory has its clusters. *)
Definition with_root (geometry : ExfatDestinationGeometry) (root : N) : ExfatDestinationGeometry :=
  mkExfatDestinationGeometry (dg_volume_bytes geometry) (dg_volume_sectors geometry)
    (dg_fat_offset_sectors geometry) (dg_fat_length_sectors geometry)
    (dg_cluster_heap_offset_sectors geometry) (dg_cluster_count geometry) root
    (dg_bytes_per_sector geometry) (dg_bytes_per_cluster geometry).

(** What the checks on the options establish. *)
Record geometry_inputs (volume_bytes sector cluster : N) : Prop := {
  gi_sector : sector_size_ok sector;
  gi_cluster : exists j, cluster = 2 ^ j /\ j <= 25 /\ sector <= cluster;
  gi_volume : 2 ^ 20 <= volume_bytes;
  gi_aligned : volume_bytes = volume_bytes / sector * sector
}.

Lemma choose_geometry_Ok volume_bytes options max g :
  choose_geometry volume_bytes options max = Ok g ->
  let sector := so_bytes_per_sector options in
  let cluster := so_bytes_per_cluster options in
  geometry_inputs volume_bytes sector cluster /\
  so_partition_offset_sectors options + volume_bytes / sector <= u64_max /\
  exists h c f, chosen (volume_bytes / sector) (cluster / sector) sector h c f /\
    1 <= c <= MAX_CLUSTER_COUNT /\ h <= u32_max /\ f <= u32_max /\
    g = mkExfatDestinationGeometry volume_bytes (volume_bytes / sector) 24 f h c 2 sector cluster.
Proof.
  intros H. cbv zeta. unfold choose_geometry in H.
  apply bind_Ok in H as ([] & H1 & H). apply refuse_if_Ok, orb_false_iff in H1 as [H1 H2].
  apply negb_false_iff, andb_true_iff in H1 as [H1 H1']. apply N.leb_le in H1, H1'.
  apply negb_false_iff, is_power_of_two_spec in H2 as [k Hk].
  assert (Hs : sector_size_ok (so_bytes_per_sector options)).
  { apply sector_size_shift. exists k. split; [|done]. rewrite Hk in H1, H1'.
    change 512 with (2 ^ 9) in H1. change 4096 with (2 ^ 12) in H1'.
    apply N.pow_le_mono_r_iff in H1; [|lia]. apply N.pow_le_mono_r_iff in H1'; lia. }
  apply bind_Ok in H as (bad & H3 & H). apply bind_Ok in H as ([] & H4 & H).
  apply refuse_if_Ok in H4 as ->.
  destruct (_ || _ || _) eqn:Hc in H3; [done |].
  apply orb_false_iff in Hc as [Hc Hc3]. apply orb_false_iff in Hc as [Hc1 Hc2].
  apply N.ltb_ge in Hc1, Hc3. apply negb_false_iff, is_power_of_two_spec in Hc2 as [j Hj].
  apply bind_Ok in H as (bad & H5 & H). apply bind_Ok in H as ([] & H6 & H).
  apply refuse_if_Ok in H6 as ->.
  destruct (N.ltb_spec volume_bytes 1048576) as [|Hv]; [done |].
  inv_ok. bool_props.
  match goal with H : geometry_loop _ _ _ _ _ _ _ = Ok ?t |- _ => destruct t as [[h c] f]; rename H into Hg end.
  inv_ok. bool_props.
  assert (Hin : geometry_inputs volume_bytes (so_bytes_per_sector options) (so_bytes_per_cluster options)).
  { split; [done | | exact Hv |].
    - exists j. split_and!; [done | | done]. rewrite Hj in Hc3.
      change (32 * 1024 * 1024) with (2 ^ 25) in Hc3. by apply N.pow_le_mono_r_iff in Hc3.
    - pose proof (N.Div0.div_mod volume_bytes (so_bytes_per_sector options)). lia. }
  split; [done |]. split; [done |]. exists h, c, f.
  destruct (sector_size_bound _ Hs) as [Hb _].
  apply geometry_search_chosen in Hg; [| |lia].
  - split; [exact Hg |]. split; [lia |]. split; [assumption |]. split; [assumption | reflexivity].
  - intros Hz. apply N.div_small_iff in Hz; lia.
Qed.

Lemma cluster_ratio volume_bytes sector cluster :
  geometry_inputs volume_bytes sector cluster ->
  exists k j, sector = 2 ^ k /\ 9 <= k <= 12 /\ cluster / sector = 2 ^ j /\ k + j <= 25 /\
    cluster = sector * (cluster / sector).
Proof.
  intros [Hs (j & -> & Hj & Hle) _ _]. apply sector_size_shift in Hs as (k & Hk & ->).
  apply N.pow_le_mono_r_iff in Hle; [|lia]. exists k, (j - k).
  assert (He : 2 ^ j = 2 ^ k * 2 ^ (j - k)) by (rewrite <- N.pow_add_r; f_equal; lia).
  assert (Hd : 2 ^ j / 2 ^ k = 2 ^ (j - k)).
  { rewrite He, N.mul_comm. apply N.div_mul. by apply N.pow_nonzero. }
  rewrite Hd. split_and!; [done | lia | lia | done | lia | done].
Qed.

(** Every geometry that is chosen satisfies the boot-sector contract. *)
Lemma choose_geometry_valid volume_bytes options max g root percent :
  volume_bytes <= u64_max -> options_typed options -> percent <= 100 ->
  choose_geometry volume_bytes options max = Ok g -> 2 <= root <= dg_cluster_count g + 1 ->
  geometry_typed (with_root g root) /\
  volume_geometry (described_boot_sector (with_root g root) options percent).
Proof.
  intros Hv Ho Hp H Hroot.
  apply choose_geometry_Ok in H as (Hin & Hpart & h & c & f & Hch & Hc & Hh & Hf & ->).
  destruct Hch as (Hfh & HhV & Hcount & Hfat & Hdiv). destruct Hin as [Hs' Hcl Hvol Hal] eqn:Hi.
  destruct (cluster_ratio _ _ _ Hin) as (k & j & Hk & Hkr & Hj & Hkj & Hcb). clear Hi.
  cbn [dg_cluster_count] in Hroot. unfold with_root. cbn [dg_volume_bytes dg_volume_sectors
    dg_fat_offset_sectors dg_fat_length_sectors dg_cluster_heap_offset_sectors dg_cluster_count
    dg_bytes_per_sector dg_bytes_per_cluster].
  unfold FAT_OFFSET_SECTORS in Hfh. widths.
  assert (Hmax : MAX_CLUSTER_COUNT = 4294967285) by reflexivity.
  set (V := volume_bytes / so_bytes_per_sector options) in *.
  set (C := so_bytes_per_cluster options / so_bytes_per_sector options) in *.
  assert (HC : C <> 0) by (rewrite Hj; by apply N.pow_nonzero).
  assert (Hfit : h + c * C <= V /\ V < h + (c + 1) * C).
  { destruct (euclid (V - h) C HC) as (q & s & Hq & _ & Hd & Hlt). rewrite Hq in Hcount.
    subst q. split; lia. }
  assert (Hlk : N.log2 (so_bytes_per_sector options) = k) by (rewrite Hk; apply N.log2_pow2; lia).
  assert (Hlj : N.log2 C = j) by (rewrite Hj; apply N.log2_pow2; lia).
  assert (HVm : V <= volume_bytes) by (destruct (sector_size_bound _ Hs'); nia).
  split.
  - split_and!; simpl; lia.
  - unfold described_boot_sector. split; boot_fields; cbn [dg_volume_sectors dg_fat_offset_sectors
      dg_fat_length_sectors dg_cluster_heap_offset_sectors dg_cluster_count
      dg_root_directory_cluster dg_bytes_per_sector dg_bytes_per_cluster]; fold C; try lia.
    + by rewrite Hlk.
    + by rewrite Hlj.
    + reflexivity.
    + reflexivity.
    + exact Hp.
Qed.

(** ** The boot regions *)

Lemma trailing_zeros_pow2 w k : trailing_zeros w (2 ^ k) = k.
Proof.
  destruct k as [|p]; [done |]. rewrite <- (N2Nat.id (N.pos p)). generalize (N.to_nat (N.pos p)).
  intros n. induction n as [|n IH]; [done |]. rewrite Nat2N.inj_succ, N.pow_succ_r'.
  destruct (2 ^ N.of_nat n) as [|q] eqn:Hq; [by apply N.pow_nonzero in Hq |].
  change (1 + trailing_zeros w (N.pos q) = N.succ (N.of_nat n)). rewrite IH. lia.
Qed.

(** The fields are written over zeros into the first 512 bytes. *)
Lemma boot_fields_written geometry options percent zeros :
  volume_geometry (described_boot_sector geometry options percent) ->
  geometry_typed geometry -> options_typed options -> percent <= 100 ->
  512 <= len zeros -> subslice 0 512 zeros = replicate 512 x00 ->
  exists main, boot_fields geometry options percent zeros = Ok main /\ len main = len zeros /\
    fixed_fields main /\ fields_of main (described_boot_sector geometry options percent) /\
    subslice BOOT_CODE_START BOOT_CODE_END main = replicate 390 xf4 /\
    (forall lo hi, 512 <= lo -> subslice lo hi main = subslice lo hi zeros).
Proof.
  intros Hg (Ht1 & Ht2 & Ht3 & Ht4 & Ht5 & Ht6) (Ho1 & Ho2 & Ho3) Hp Hl Hz. widths.
  pose proof (xg_sector_shift _ Hg) as Hk. pose proof (xg_cluster_shift _ Hg) as Hj.
  pose proof (xg_sector _ Hg) as HB. pose proof (xg_cluster _ Hg) as HC.
  unfold described_boot_sector in Hk, Hj, HB, HC. boot_fields.
  set (k := N.log2 (dg_bytes_per_sector geometry)) in *.
  set (j := N.log2 (dg_bytes_per_cluster geometry / dg_bytes_per_sector geometry)) in *.
  unfold boot_fields. unfold BOOT_CODE_START, BOOT_CODE_END.
  do 11 put_next. rewrite HB, trailing_zeros_pow2.
  rewrite (proj2 (u8_try_from_Some k k)) by lia. cbn [ok_or mbind outcome_bind]. put_next.
  unfold div_u64. rewrite (proj2 (N.eqb_neq _ 0)) by (by apply N.pow_nonzero).
  cbn [mbind outcome_bind]. rewrite <- HB, HC, trailing_zeros_pow2.
  rewrite (proj2 (u8_try_from_Some j j)) by lia. cbn [ok_or mbind outcome_bind].
  do 4 put_next. put_next. put_next.
  change (len (replicate (N.to_nat (510 - 120)) xf4)) with 390 in *.
  change (len [xeb; x76; x90]) with 3 in *. change (len (ascii_bytes "EXFAT   ")) with 8 in *.
  assert (Hzero : forall lo hi, hi <= 512 -> Forall (fun b => b = x00) (subslice lo hi zeros)).
  { intros lo hi Hhi. replace (subslice lo hi zeros) with (subslice lo hi (subslice 0 512 zeros))
      by (by rewrite subslice_subslice by lia).
    rewrite Hz, (subslice_replicate lo hi 512) by lia. by apply Forall_replicate. }
  eexists. split; [reflexivity |]. split; [congruence |]. clear Hput Hput0 Hput1 Hput2 Hput3 Hput4
    Hput5 Hput6 Hput7 Hput8 Hput9 Hput10 Hput11 Hput12 Hput13 Hput14 Hput15 Hput16.
  split_and!.
  - split; peel; try done; apply Hzero; lia.
  - unfold described_boot_sector. split; boot_fields; cbn [default from_option]; peel; try done.
    unfold field. peel. symmetry. apply le_num_zeros, Hzero. done.
  - by peel.
  - intros lo hi Hlo. by peel.
Qed.

(** The signatures of the extended boot sectors. *)
Lemma extended_signatures_written sector main :
  512 <= sector <= 4096 -> len main = 12 * sector ->
  exists out, extended_signatures sector main = Ok out /\ len out = len main /\
    (forall s, 1 <= s <= 8 -> field 4 out ((s + 1) * sector - 4) = EXTENDED_BOOT_SIGNATURE) /\
    (forall lo hi, hi <= sector -> subslice lo hi out = subslice lo hi main).
Proof.
  intros Hs Hl. unfold extended_signatures. cbn [try_fold]. unfold sub_u64.
  do 8 (rewrite checked_sub_in by lia; cbn [expect mbind outcome_bind]).
  do 8 put_next.
  eexists. split; [reflexivity |]. split; [congruence |]. split.
  - intros s Hr. unfold EXTENDED_BOOT_SIGNATURE.
    assert (s = 1 \/ s = 2 \/ s = 3 \/ s = 4 \/ s = 5 \/ s = 6 \/ s = 7 \/ s = 8) as Hc by lia.
    destruct Hc as [->|[->|[->|[->|[->|[->|[->| ->]]]]]]];
      match goal with |- field 4 _ (?c * ?x - 4) = _ =>
        let d := eval vm_compute in (c - 1) in
        replace (c * x - 4) with (d * x + x - 4) by lia end;
      peel; assumption.
  - intros lo hi Hh. by peel.
Qed.

(** The words of the checksum sector. *)
Lemma checksum_words_written sector checksum main k :
  len main = 12 * sector -> 4 * k <= sector -> checksum <= u32_max ->
  exists out,
    try_fold (fun main word => put_le (E := ExfatSerializeError) 4 main (11 * sector + 4 * word) checksum)
      main (indices k) = Ok out /\ len out = len main /\
    (forall w, w < k -> field 4 out (11 * sector + 4 * w) = checksum) /\
    (forall lo hi, hi <= 11 * sector -> subslice lo hi out = subslice lo hi main).
Proof.
  intros Hl Hk Hc. widths. induction k as [|k IH] using N.peano_ind.
  { exists main. split_and!; [done | done | lia | done]. }
  destruct IH as (out & Hout & Hlo & Hw & Hs); [lia |]. rewrite <- N.add_1_r.
  rewrite indices_succ, try_fold_app, Hout. cbn [mbind outcome_bind try_fold]. put_next.
  eexists. split; [reflexivity |]. split; [congruence |]. split.
  - intros w Hwk. destruct (decide (w = k)) as [->|Hn]; [done |]. peel. apply Hw. lia.
  - intros lo hi Hh. peel. by apply Hs.
Qed.
Lemma checksum_sector_written sector checksum main :
  sector_size_ok sector -> len main = 12 * sector -> checksum <= u32_max ->
  exists out, checksum_sector sector checksum main = Ok out /\ len out = len main /\
    (forall w, w < sector / 4 -> field 4 out (11 * sector + 4 * w) = checksum) /\
    (forall lo hi, hi <= 11 * sector -> subslice lo hi out = subslice lo hi main).
Proof.
  intros Hs Hl Hc. destruct (sector_size_bound _ Hs) as [_ H4]. unfold checksum_sector.
  assert ((sector + 3) / 4 = sector / 4) as ->
    by (destruct Hs as [->|[->|[->| ->]]]; reflexivity).
  apply checksum_words_written; [done | lia | done].
Qed.

Lemma boot_checksum_bound l : boot_checksum l <= u32_max.
Proof.
  apply N.lt_succ_r. change (boot_checksum l) with (checksum_from 0 0 l).
  by apply (checksum_from_bound 0 0 l).
Qed.

Lemma formatter_boot_code_ok region sector :
  512 <= sector <= 4096 -> len region = 12 * sector ->
  subslice BOOT_CODE_START BOOT_CODE_END region = replicate 390 xf4 ->
  validate_formatter_boot_code (region ++ region) sector = Ok tt.
Proof.
  unfold BOOT_CODE_START, BOOT_CODE_END. intros Hs Hl Hcode. widths.
  assert (Hf : List.find (fun entry => negb (bool_decide (snd entry = xf4)))
                 (enumerate (replicate 390 xf4)) = None) by (vm_compute; reflexivity).
  unfold validate_formatter_boot_code, BOOT_CODE_START, BOOT_CODE_END. ok_step.
  assert (Hget : get_range 120 510 (region ++ region) = Some (replicate 390 xf4) /\
    get_range (sector * 12 + 120) (sector * 12 + 510) (region ++ region) = Some (replicate 390 xf4)).
  { rewrite <- Hcode, !get_range_Some, !len_app, Hl. split; split_and!; try lia.
    - by rewrite subslice_app_low by lia.
    - rewrite subslice_skip by lia. by replace (sector * 12 + 120 - len region) with 120 by lia;
        replace (sector * 12 + 510 - len region) with 510 by lia. }
  destruct Hget as [Hget1 Hget2]. cbn [for_each]. unfold add_u64.
  change (checked_add 0 120) with (Some 120). change (checked_add 0 510) with (Some 510).
  cbn [expect mbind outcome_bind]. rewrite Hget1. cbn [ok_or mbind outcome_bind]. rewrite Hf.
  cbn [mbind outcome_bind].
  rewrite (checked_add_in (sector * 12) 120), (checked_add_in (sector * 12) 510) by lia.
  cbn [expect mbind outcome_bind]. rewrite Hget2. cbn [ok_or mbind outcome_bind]. by rewrite Hf.
Qed.

Lemma build_boot_regions_Ok geometry options percent :
  volume_geometry (described_boot_sector geometry options percent) ->
  geometry_typed geometry -> options_typed options -> percent <= 100 ->
  let sector := dg_bytes_per_sector geometry in
  let described := described_boot_sector geometry options percent in
  exists region checksum,
    build_boot_regions geometry options percent = Ok (region ++ region) /\
    len region = 12 * sector /\ region_of region sector described /\
    validate_boot_regions (region ++ region) sector =
      Ok (mkExfatBootRegionsValidation
            (mkExfatBootRegionValidation Main described checksum)
            (mkExfatBootRegionValidation Backup described checksum) Exact).
Proof.
  intros Hg Ht Ho Hp sector described. widths.
  assert (Hsize : sector_size_ok sector).
  { apply sector_size_shift. exists (eb_bytes_per_sector_shift described). split; apply Hg. }
  destruct (sector_size_bound _ Hsize) as [Hb H4].
  set (zeros := replicate (N.to_nat (sector * 12)) x00).
  assert (Hzl : len zeros = 12 * sector) by (unfold zeros; rewrite len_replicate; lia).
  destruct (boot_fields_written geometry options percent zeros Hg Ht Ho Hp) as
    (main1 & E1 & L1 & F1 & G1 & C1 & S1); [lia | unfold zeros; rewrite subslice_replicate; [done | lia] |].
  destruct (extended_signatures_written sector main1) as (main2 & E2 & L2 & X2 & S2); [done | congruence |].
  set (sum := boot_checksum (subslice 0 (11 * sector) main2)).
  destruct (checksum_sector_written sector sum main2) as (main3 & E3 & L3 & W3 & S3);
    [done | congruence | apply boot_checksum_bound |].
  assert (Hl3 : len main3 = 12 * sector) by congruence.
  assert (Hfirst : forall lo hi, hi <= sector -> subslice lo hi main3 = subslice lo hi main1).
  { intros lo hi Hh. rewrite S3, S2 by lia. done. }
  assert (Hreg : region_of main3 sector described).
  { split; [done | | |].
    - split; [rewrite len_subslice by lia; apply N.sub_0_r |].
      destruct (boot_contract_ext main1 (subslice 0 sector main3) described) as [F3 G3];
        [|done|done|by split_and!].
      intros lo hi Hh. rewrite subslice_subslice, !N.add_0_l by lia. symmetry. apply Hfirst. lia.
    - intros s Hsr. unfold field. rewrite S3 by (destruct Hsr; nia). by apply X2.
    - intros w Hw. rewrite W3 by done. unfold sum. by rewrite S3 by lia. }
  assert (Hval : validate_boot_regions (main3 ++ main3) sector =
      Ok (mkExfatBootRegionsValidation (mkExfatBootRegionValidation Main described sum)
            (mkExfatBootRegionValidation Backup described sum) Exact)).
  { apply validate_boot_regions_spec. cbv zeta. cbn [rs_main rs_backup rs_comparison rv_boot_sector].
    replace (subslice 0 (12 * sector) (main3 ++ main3)) with main3
      by (by rewrite <- Hl3, subslice_app_l).
    replace (subslice (12 * sector) (24 * sector) (main3 ++ main3)) with main3.
    2: { rewrite subslice_skip by lia. rewrite <- (subslice_all main3) at 1. f_equal; lia. }
    assert (Hsum : boot_checksum (subslice 0 (11 * sector) main3) = sum)
      by (unfold sum; by rewrite S3 by lia).
    assert (Hsame : compare_regions main3 main3 sector = Ok Exact)
      by (apply compare_regions_same; [done | lia]).
    rewrite Hsum. split_and!; try done. rewrite len_app. lia. }
  exists main3, sum. split; [|by split_and!].
  unfold build_boot_regions. fold sector. ok_step. ok_step. fold zeros. rewrite E1.
  cbn [mbind outcome_bind]. rewrite E2. cbn [mbind outcome_bind]. read_step. fold sum. rewrite E3.
  cbn [mbind outcome_bind]. unfold validate_generated_boot_regions. rewrite Hval.
  cbn [map_err mbind outcome_bind rs_comparison]. rewrite bool_decide_eq_true_2 by done.
  cbn [negb refuse_if mbind outcome_bind]. rewrite formatter_boot_code_ok; [done | done | done |].
  unfold BOOT_CODE_START, BOOT_CODE_END in *. by rewrite Hfirst by lia.
Qed.

(** * Properties *)

(** C33: formatting and validation agree.  Whenever a geometry is chosen for a
    volume and the root directory lies in its cluster heap, the construction of
    the boot regions succeeds, and the validator of [ExfatRegion.v] accepts the
    two regions as equal and reads back, from each of them, exactly the geometry
    and the options that were written: the round trip of every boot-sector
    field, and the agreement of checksums and signatures. *)
Theorem formatted_volume_accepted volume_bytes options max g root percent :
  volume_bytes <= u64_max -> options_typed options -> percent <= 100 ->
  choose_geometry volume_bytes options max = Ok g -> 2 <= root <= dg_cluster_count g + 1 ->
  let geometry := with_root g root in
  let described := described_boot_sector geometry options percent in
  exists region checksum,
    build_boot_regions geometry options percent = Ok (region ++ region) /\
    len region = 12 * dg_bytes_per_sector geometry /\
    parse_boot_sector (subslice 0 (dg_bytes_per_sector geometry) region) = Ok described /\
    validate_boot_regions (region ++ region) (dg_bytes_per_sector geometry) =
      Ok (mkExfatBootRegionsValidation
            (mkExfatBootRegionValidation Main described checksum)
            (mkExfatBootRegionValidation Backup described checksum) Exact).
Proof.
  intros Hv Ho Hp H Hroot geometry described.
  destruct (choose_geometry_valid _ _ _ _ _ _ Hv Ho Hp H Hroot) as [Ht Hg].
  destruct (build_boot_regions_Ok _ _ _ Hg Ht Ho Hp) as (region & checksum & Hb & Hl & Hr & Hval).
  exists region, checksum. split_and!; [done | done | | done].
  apply parse_boot_sector_iff, Hr.
Qed.

Definition sample_options : ExfatSerializeOptions :=
  mkExfatSerializeOptions 512 4096 2048 3735928559 128.
Definition sample_geometry : ExfatDestinationGeometry :=
  default (mkExfatDestinationGeometry 0 0 0 0 0 0 0 0 0)
    (match choose_geometry 1048576 sample_options 1000 with Ok g => Some g | _ => None end).

Lemma formatted_volume_accepted_witness :
  exists region checksum,
    build_boot_regions (with_root sample_geometry 4) sample_options 7 = Ok (region ++ region) /\
    len region = 6144 /\
    parse_boot_sector (subslice 0 512 region) =
      Ok (described_boot_sector (with_root sample_geometry 4) sample_options 7) /\
    validate_boot_regions (region ++ region) 512 =
      Ok (mkExfatBootRegionsValidation
            (mkExfatBootRegionValidation Main
               (described_boot_sector (with_root sample_geometry 4) sample_options 7) checksum)
            (mkExfatBootRegionValidation Backup
               (described_boot_sector (with_root sample_geometry 4) sample_options 7) checksum)
            Exact).
Proof.
  apply (formatted_volume_accepted 1048576 sample_options 1000 sample_geometry 4 7).
  - vm_compute. discriminate.
  - split_and!; vm_compute; discriminate.
  - vm_compute. discriminate.
  - vm_compute. reflexivity.
  - split; vm_compute; discriminate.
Defined.

(** the bounds of a chosen geometry.  Although the search for the FAT length
    stops after 64 rounds without testing that it converged, every geometry that
    it returns has a FAT between the boot regions and the heap that holds an
    entry for every cluster and the two reserved entries, a heap of whole
    clusters that starts at a multiple of the cluster size, ends inside the
    volume and leaves less than a cluster behind it, and at least one cluster but
    no more than exFAT allows. *)
Theorem chosen_geometry_bounds volume_bytes options max g :
  volume_bytes <= u64_max -> choose_geometry volume_bytes options max = Ok g ->
  let sector := dg_bytes_per_sector g in
  let heap_end := dg_cluster_heap_offset_sectors g * sector
                  + dg_cluster_count g * dg_bytes_per_cluster g in
  24 * sector <= dg_fat_offset_sectors g * sector /\
  dg_fat_offset_sectors g + dg_fat_length_sectors g <= dg_cluster_heap_offset_sectors g /\
  4 * (dg_cluster_count g + 2) <= dg_fat_length_sectors g * sector /\
  heap_end <= volume_bytes < heap_end + dg_bytes_per_cluster g /\
  1 <= dg_cluster_count g <= MAX_CLUSTER_COUNT /\ dg_volume_bytes g = volume_bytes /\
  dg_volume_sectors g * sector = volume_bytes /\
  (dg_bytes_per_cluster g | dg_cluster_heap_offset_sectors g * sector).
Proof.
  intros Hv H. apply choose_geometry_Ok in H as (Hin & _ & h & c & f & Hch & Hc & _ & _ & ->).
  destruct Hch as (Hfh & HhV & Hcount & Hfat & Hdiv).
  destruct (cluster_ratio _ _ _ Hin) as (k & j & Hk & Hkr & Hj & Hkj & Hcb).
  destruct Hin as [Hs _ _ Hal]. destruct (sector_size_bound _ Hs) as [Hb _].
  cbv zeta. cbn [dg_volume_bytes dg_volume_sectors dg_fat_offset_sectors dg_fat_length_sectors
    dg_cluster_heap_offset_sectors dg_cluster_count dg_bytes_per_sector dg_bytes_per_cluster].
  unfold FAT_OFFSET_SECTORS in Hfh.
  set (V := volume_bytes / so_bytes_per_sector options) in *.
  set (C := so_bytes_per_cluster options / so_bytes_per_sector options) in *.
  assert (HC : C <> 0) by (rewrite Hj; by apply N.pow_nonzero).
  destruct (euclid (V - h) C HC) as (q & s & Hq & _ & Hd & Hlt). rewrite Hq in Hcount. subst q.
  assert (HV : V = h + c * C + s) by lia.
  split; [lia |]. split; [lia |]. split; [exact Hfat |]. split; [|split; [exact Hc |]; split; [reflexivity |]; split; [lia |]].
  2: { destruct Hdiv as [m ->]. exists m. rewrite Hcb. lia. }
  rewrite Hal, Hcb, HV. set (S := so_bytes_per_sector options) in *. split; nia.
Qed.

Lemma chosen_geometry_bounds_witness :
  let g := sample_geometry in
  let sector := dg_bytes_per_sector g in
  let heap_end := dg_cluster_heap_offset_sectors g * sector
                  + dg_cluster_count g * dg_bytes_per_cluster g in
  24 * sector <= dg_fat_offset_sectors g * sector /\
  dg_fat_offset_sectors g + dg_fat_length_sectors g <= dg_cluster_heap_offset_sectors g /\
  4 * (dg_cluster_count g + 2) <= dg_fat_length_sectors g * sector /\
  heap_end <= 1048576 < heap_end + dg_bytes_per_cluster g /\
  1 <= dg_cluster_count g <= MAX_CLUSTER_COUNT /\ dg_volume_bytes g = 1048576 /\
  dg_volume_sectors g * sector = 1048576 /\
  (dg_bytes_per_cluster g | dg_cluster_heap_offset_sectors g * sector).
Proof.
  apply (chosen_geometry_bounds 1048576 sample_options 1000 sample_geometry).
  - vm_compute. discriminate.
  - vm_compute. reflexivity.
Defined.
