(* ===== verification/ExfatFat.v ===== *)
(** * exFAT destination allocation

    The part of [fs/exfat_serialize.rs] that hands out clusters and writes the
    structures that say who owns them: the occupancy of the heap while metadata
    is placed, the chains of the file allocation table, the allocation bitmap,
    the clusters that must stay unusable and the stale boot sectors that must be
    zeroed.

    The theorems connect the writer with the readers of [ExfatAllocation.v]: a
    chain that is written is the chain that is walked, and the chains of other
    clusters are not disturbed; an allocation takes the lowest free run and
    nothing else; the bitmap that is written reads back as the occupancy. *)

From S2P Require Import Overlay Geometry.
From S2P Require Export Prelude Bytes ExfatBoot ExfatRegion ExfatAllocation ExfatFormat.
From stdpp Require Import options.

#[local] Open Scope N_scope.

Abbreviation result := (outcome ExfatSerializeError).

(** ** Allocations *)

(** [slice[lo..hi].fill(value)]. *)
Definition fill_range {E A : Type} (lo hi : N) (value : A) (l : list A) : outcome E (list A) :=
  copy_from_slice lo hi (replicate (N.to_nat (hi - lo)) value) l.

Definition allocation_from_clusters (clusters : list N) : result ExfatAllocationRun :=
  first ← ok_or (SerializeOverflow "empty metadata allocation") (head clusters);
  for_windows2 (fun a b =>
    next ← expect (checked_add_u32 a 1);
    refuse_if (negb (b =? next)) (InvalidGeometry "metadata allocation is not contiguous")) clusters ;;
  count ← ok_or (SerializeOverflow "metadata cluster count") (u32_try_from (len clusters));
  Ok (mkAllocation first count).

Definition expand_allocation (allocation : ExfatAllocationRun) : result (list N) :=
  try_fold (fun clusters index =>
    cluster ← ok_or (SerializeOverflow "cluster chain")
      (checked_add_u32 (al_first_cluster allocation) index);
    Ok (clusters ++ [cluster])) [] (indices (al_cluster_count allocation)).

(** The loop of [allocate_contiguous]: the index at which a run of free clusters
    reaches the wanted length. *)
Fixpoint find_run (occupied : list bool) (index run count : N) : option N :=
  match occupied with
  | [] => None
  | used :: occupied =>
      let run := if used : bool then 0 else run + 1 in
      if run =? count then Some index else find_run occupied (index + 1) run count
  end.

Definition allocate_contiguous (occupied : list bool) (count : N)
    : result (ExfatAllocationRun * list bool) :=
  count_usize ← ok_or (SerializeOverflow "allocation cluster count") (usize_try_from count);
  refuse_if (count_usize =? 0) (MetadataSpaceExhausted 0) ;;
  match find_run occupied 0 0 count_usize with
  | Some index =>
      after ← add_u64 index 1;
      start ← sub_u64 after count_usize;
      occupied ← fill_range start after true occupied;
      number ← add_u64 start 2;
      first ← ok_or (SerializeOverflow "allocation first cluster") (u32_try_from number);
      Ok (mkAllocation first count, occupied)
  | None => Err (MetadataSpaceExhausted count)
  end.

Definition reserve_pinned (occupied : list bool) (allocation : ExfatAllocationRun)
    : result (list bool) :=
  first ← ok_or DestinationLayoutChanged
    (usize_try_from (saturating_sub (al_first_cluster allocation) 2));
  count ← ok_or DestinationLayoutChanged (usize_try_from (al_cluster_count allocation));
  end_ ← ok_or DestinationLayoutChanged (checked_add first count);
  range ← ok_or DestinationLayoutChanged (get_range first end_ occupied);
  refuse_if (existsb id range) DestinationLayoutChanged ;;
  fill_range first end_ true occupied.

Definition mark_allocation (bits : list bool) (allocation : ExfatAllocationRun)
    : result (list bool) :=
  first ← ok_or (SerializeOverflow "metadata bitmap index")
    (usize_try_from (saturating_sub (al_first_cluster allocation) 2));
  count ← ok_or (SerializeOverflow "metadata bitmap length")
    (usize_try_from (al_cluster_count allocation));
  end_ ← ok_or (SerializeOverflow "metadata bitmap end") (checked_add first count);
  _ ← ok_or (MetadataSpaceExhausted (al_cluster_count allocation)) (get_range first end_ bits);
  fill_range first end_ true bits.

(** [bits[cluster.saturating_sub(2)] = true] for the clusters of a list. *)
Definition mark_clusters (operation : string) (bits : list bool) (clusters : list N)
    : result (list bool) :=
  try_fold (fun bits cluster =>
    index ← ok_or (SerializeOverflow operation) (usize_try_from (saturating_sub cluster 2));
    fill_range index (index + 1) true bits) bits clusters.

Definition clusters_for (bytes cluster_bytes : N) : result N :=
  quotient ← div_u64 bytes cluster_bytes;
  rest ← rem_u64 bytes cluster_bytes;
  ok_or (SerializeOverflow "allocation cluster count")
    (u32_try_from (N.max (if 0 <? rest then quotient + 1 else quotient) 1)).

Definition padded_allocation_bytes (allocation : ExfatAllocationRun) (cluster_bytes : N)
    : result N :=
  length ← expect (checked_mul (al_cluster_count allocation) cluster_bytes);
  ok_or (SerializeOverflow "allocation byte length") (usize_try_from length).

Definition fat_byte_length (geometry : ExfatDestinationGeometry) : result N :=
  length ← expect (checked_mul (dg_fat_length_sectors geometry) (dg_bytes_per_sector geometry));
  ok_or (SerializeOverflow "FAT byte length") (usize_try_from length).

Definition cluster_offset (geometry : ExfatDestinationGeometry) (cluster : N) : result N :=
  ok_or (SerializeOverflow "cluster byte offset")
    (heap ← checked_mul (dg_cluster_heap_offset_sectors geometry) (dg_bytes_per_sector geometry);
     index ← checked_sub cluster 2;
     relative ← checked_mul index (dg_bytes_per_cluster geometry);
     checked_add heap relative).

(** ** The file allocation table *)
Definition write_fat_entry (fat : list byte) (cluster value : N) : result (list byte) :=
  index ← ok_or (SerializeOverflow "FAT cluster index") (usize_try_from cluster);
  offset ← ok_or (SerializeOverflow "FAT byte offset") (checked_mul index 4);
  end_ ← add_u64 offset 4;
  refuse_if (len fat <? end_) (InvalidGeometry "FAT entry exceeds FAT") ;;
  put_le 4 fat offset value.

(** One round of [write_chain]. *)
Definition write_link (clusters : list N) (fat : list byte) (item : N * N)
    : result (list byte) :=
  let '(index, cluster) := item in
  following ← add_u64 index 1;
  let next := default END_OF_CHAIN (clusters !! N.to_nat following) in
  index ← ok_or (SerializeOverflow "FAT cluster index") (usize_try_from cluster);
  offset ← ok_or (SerializeOverflow "FAT byte offset") (checked_mul index 4);
  end_ ← add_u64 offset 4;
  refuse_if (len fat <? end_) (InvalidGeometry "FAT chain exceeds FAT") ;;
  put_le 4 fat offset next.
Definition write_chain (fat : list byte) (clusters : list N) : result (list byte) :=
  try_fold (write_link clusters) fat (enumerate clusters).

(** ** The allocation bitmap *)

(** [if allocated { bitmap_bytes[index / 8] |= 1 << (index % 8) }] for every
    cluster. *)
Definition write_bitmap (bytes : list byte) (allocated : list bool) : result (list byte) :=
  try_fold (fun bytes '(index, set) =>
    if set : bool then
      old ← at_index bytes (index / 8);
      copy_from_slice (index / 8) (index / 8 + 1)
        [byte_of_N (N.lor (Byte.to_N old) (N.shiftl 1 (index mod 8)))] bytes
    else Ok bytes) bytes (enumerate allocated).

(** [u8::try_from(allocated.saturating_mul(100) / len).unwrap_or(100)]. *)
Definition percent_of (allocated : list bool) (clusters : N) : result N :=
  percent ← div_u64 (saturating_mul (len (List.filter id allocated)) 100) clusters;
  Ok (default 100 (u8_try_from percent)).

(** ** Clusters that must stay unusable *)
Definition bad_cluster_number (heap heap_end cluster : N) (clusters : list N) (lcn : N)
    : result (list N) :=
  offset ← ok_or (SerializeOverflow "bad LCN offset") (checked_mul lcn cluster);
  end_ ← ok_or (SerializeOverflow "bad LCN end") (checked_add offset cluster);
  refuse_if ((offset <? heap) || (heap_end <? end_))
    (BadClusterOverlapsDestinationMetadata offset) ;;
  above ← sub_u64 offset heap;
  relative ← div_u64 above cluster;
  number ← add_u64 relative 2;
  number ← ok_or (SerializeOverflow "bad heap cluster") (u32_try_from number);
  Ok (clusters ++ [number]).

Definition bad_range_error (error : LayoutError) : ExfatSerializeError :=
  match error with
  | RangeOutsideVolume offset _ _ | RangeOverflow offset _ | ZeroLengthRange offset =>
      BadClusterOverlapsDestinationMetadata offset
  | _ => InvalidGeometry "bad-cluster range is not dest-cluster mappable"
  end.

Definition dest_exfat_bad_clusters (geometry : ExfatDestinationGeometry)
    (ranges : list ByteRange) : result (list N) :=
  let cluster := dg_bytes_per_cluster geometry in
  heap ← expect (checked_mul (dg_cluster_heap_offset_sectors geometry)
                   (dg_bytes_per_sector geometry));
  heap_bytes ← expect (checked_mul (dg_cluster_count geometry) cluster);
  heap_end ← ok_or (SerializeOverflow "heap end") (checked_add heap heap_bytes);
  lcns ← map_err bad_range_error
    (clusters_covering_ranges ranges cluster (dg_volume_bytes geometry));
  try_fold (bad_cluster_number heap heap_end cluster) [] lcns.

(** ** Stale boot sectors *)
Record StaleBootSectorScrub : Type := mkStaleBootSectorScrub {
  sb_range : ByteRange;
  sb_heap_cluster : option N
}.

Definition INVALID_SCRUB : ExfatSerializeError := InvalidGeometry
  "stale boot-sector range is not a sector-aligned run inside one destination region".

(** Whether a range lies in [start, end): straddling the boundary is refused. *)
Definition within (range : ByteRange) (start end_ : N) : result bool :=
  range_end ← ok_or (SerializeOverflow "scrub range end")
    (checked_add (br_offset range) (br_length range));
  if (range_end <=? start) || (end_ <=? br_offset range) then Ok false
  else
    refuse_if ((br_offset range <? start) || (end_ <? range_end)) INVALID_SCRUB ;;
    Ok true.

(** The regions of the volume that a scrub is compared with. *)
Record ScrubRegions : Type := mkScrubRegions {
  sr_boot_end : N;
  sr_fat_start : N;
  sr_fat_end : N;
  sr_heap_start : N;
  sr_heap_end : N
}.

Definition scrub_regions (geometry : ExfatDestinationGeometry) : result ScrubRegions :=
  let sector := dg_bytes_per_sector geometry in
  let cluster := dg_bytes_per_cluster geometry in
  boot_end ← expect (checked_mul 24 sector);
  fat_start ← expect (checked_mul (dg_fat_offset_sectors geometry) sector);
  fat_bytes ← expect (checked_mul (dg_fat_length_sectors geometry) sector);
  fat_end ← ok_or (SerializeOverflow "FAT end") (checked_add fat_start fat_bytes);
  heap_start ← expect (checked_mul (dg_cluster_heap_offset_sectors geometry) sector);
  heap_bytes ← expect (checked_mul (dg_cluster_count geometry) cluster);
  heap_end ← ok_or (SerializeOverflow "heap end") (checked_add heap_start heap_bytes);
  Ok (mkScrubRegions boot_end fat_start fat_end heap_start heap_end).

(** The heap cluster of a range in the heap; [None] when the cluster is bad. *)
Definition scrub_cluster (cluster heap_start : N) (occupied : list bool)
    (scrubs : list StaleBootSectorScrub) (range : ByteRange) (end_ : N) : result (option N) :=
  above ← sub_u64 (br_offset range) heap_start;
  first ← div_u64 above cluster;
  last_byte ← sub_u64 end_ 1;
  last_above ← sub_u64 last_byte heap_start;
  last ← div_u64 last_above cluster;
  refuse_if (negb (last =? first)) INVALID_SCRUB ;;
  slot ← ok_or (SerializeOverflow "scrub cluster index") (usize_try_from first);
  used ← at_index occupied slot;
  if used : bool then Ok None
  else
    number ← add_u64 first 2;
    number ← ok_or (SerializeOverflow "scrub cluster") (u32_try_from number);
    refuse_if (existsb (fun existing => bool_decide (sb_heap_cluster existing = Some number))
                 scrubs) INVALID_SCRUB ;;
    Ok (Some number).

(** One round of the loop. *)
Definition plan_scrub (geometry : ExfatDestinationGeometry) (regions : ScrubRegions)
    (occupied : list bool) (scrubs : list StaleBootSectorScrub) (range : ByteRange)
    : result (list StaleBootSectorScrub) :=
  let sector := dg_bytes_per_sector geometry in
  end_ ← ok_or (SerializeOverflow "scrub range end")
    (checked_add (br_offset range) (br_length range));
  invalid ← (if (br_length range =? 0) || (sr_boot_end regions <? br_length range) then Ok true
             else
               offset_rest ← rem_u64 (br_offset range) sector;
               length_rest ← rem_u64 (br_length range) sector;
               Ok (negb (offset_rest =? 0) || negb (length_rest =? 0)
                   || (dg_volume_bytes geometry <? end_)));
  refuse_if invalid INVALID_SCRUB ;;
  for_each (fun existing =>
    existing_end ← add_u64 (br_offset (sb_range existing)) (br_length (sb_range existing));
    refuse_if ((br_offset range <? existing_end) && (br_offset (sb_range existing) <? end_))
      INVALID_SCRUB) scrubs ;;
  in_boot ← within range 0 (sr_boot_end regions);
  if in_boot : bool then Ok scrubs
  else
    in_fat ← within range (sr_fat_start regions) (sr_fat_end regions);
    if in_fat : bool then Ok scrubs
    else
      in_heap ← within range (sr_heap_start regions) (sr_heap_end regions);
      if in_heap : bool then
        cluster ← scrub_cluster (dg_bytes_per_cluster geometry) (sr_heap_start regions) occupied
                    scrubs range end_;
        match cluster with
        | None => Ok scrubs
        | Some number => Ok (scrubs ++ [mkStaleBootSectorScrub range (Some number)])
        end
      else Ok (scrubs ++ [mkStaleBootSectorScrub range None]).

Definition plan_stale_boot_sector_scrubs (geometry : ExfatDestinationGeometry)
    (ranges : list ByteRange) (occupied : list bool) : result (list StaleBootSectorScrub) :=
  regions ← scrub_regions geometry;
  try_fold (plan_scrub geometry regions occupied) [] ranges.

(** ** Reservations and writes *)
Definition allocation_reservation (geometry : ExfatDestinationGeometry)
    (allocation : ExfatAllocationRun) (kind : ReservationKind) : result DestinationReservation :=
  offset ← cluster_offset geometry (al_first_cluster allocation);
  length ← expect (checked_mul (al_cluster_count allocation) (dg_bytes_per_cluster geometry));
  Ok (mkDestinationReservation (mkByteRange offset length) kind).

Definition allocation_write (geometry : ExfatDestinationGeometry)
    (allocation : ExfatAllocationRun) (bytes : list byte) : result OverlayWrite :=
  offset ← cluster_offset geometry (al_first_cluster allocation);
  Ok (mkOverlayWrite offset bytes).

(** * Lemmas *)

(** ** Chains *)
Definition fat_value (fat : list byte) (cluster : N) : N := field 4 fat (4 * cluster).

(** The value that the chain stores for a position. *)
Definition link (clusters : list N) (index : nat) : N := default END_OF_CHAIN (clusters !! S index).

Lemma write_link_in clusters fat (index : nat) c :
  N.of_nat index < u64_max -> c <= u32_max -> 4 * c + 4 <= len fat ->
  link clusters index <= u32_max ->
  exists fat', write_link clusters fat (N.of_nat index, c) = Ok fat' /\ len fat' = len fat /\
    fat_value fat' c = link clusters index /\
    (forall d, d <> c -> fat_value fat' d = fat_value fat d).
Proof.
  intros Hi Hc Hf Hn. widths. unfold write_link. step. step. step. step. step.
  replace (N.to_nat (N.of_nat index + 1)) with (S index) by lia. fold (link clusters index).
  destruct (@put_le_total ExfatSerializeError 4 fat (c * 4) (link clusters index))
    as (fat' & He & Hu & Hv & Hl); [lia |].
  change (256 ^ N.of_nat 4) with 4294967296 in Hv. change (N.of_nat 4) with 4 in *.
  rewrite N.mod_small in Hv by lia. exists fat'. split_and!; [done | done | |].
  - unfold fat_value. by rewrite (N.mul_comm 4).
  - intros d Hd. unfold fat_value. rewrite (field_updated 4 _ _ _ _ _ Hu) by lia. done.
Qed.

Lemma write_chain_fits fat clusters :
  len clusters <= u32_max -> Forall (fun c => c <= u32_max /\ 4 * c + 4 <= len fat) clusters ->
  NoDup clusters ->
  exists fat', write_chain fat clusters = Ok fat' /\ len fat' = len fat /\
    (forall i c, clusters !! i = Some c -> fat_value fat' c = link clusters i) /\
    (forall c, c ∉ clusters -> fat_value fat' c = fat_value fat c).
Proof.
  intros Hlen Hfit Hnd. widths. unfold write_chain, enumerate.
  assert (Hlink : forall i, link clusters i <= u32_max).
  { intros i. unfold link, END_OF_CHAIN. destruct (clusters !! S i) as [n|] eqn:Hn; simpl; [|lia].
    rewrite Forall_lookup in Hfit. by apply Hfit in Hn as [? _]. }
  assert (Hgen : forall suf pre fat0, clusters = pre ++ suf -> len fat0 = len fat ->
    exists fat', try_fold (write_link clusters) fat0 (enumerate_from (len pre) suf) = Ok fat' /\
      len fat' = len fat /\
      (forall i c, suf !! i = Some c -> fat_value fat' c = link clusters (length pre + i)) /\
      (forall c, c ∉ suf -> fat_value fat' c = fat_value fat0 c)).
  { induction suf as [|c suf IH]; intros pre fat0 Hc Hl0.
    { exists fat0. split_and!; [done | done | intros ??; by rewrite lookup_nil | done]. }
    assert (Hcl : c <= u32_max /\ 4 * c + 4 <= len fat).
    { rewrite Forall_forall in Hfit. apply Hfit. rewrite Hc. set_solver. }
    destruct Hcl as [Hc32 Hcl]. pose proof (f_equal len Hc) as Hl. rewrite len_app, len_cons in Hl.
    destruct (write_link_in clusters fat0 (length pre) c) as (fat1 & He & Hl1 & Hv & Ho);
      [unfold len in *; lia | done | lia | done |].
    cbn [enumerate_from try_fold]. change (N.of_nat (length pre)) with (len pre) in He. rewrite He. cbn [mbind outcome_bind].
    destruct (IH (pre ++ [c]) fat1) as (fat' & Hok & Hl' & Hin & Hout);
      [by rewrite <- app_assoc | congruence |].
    rewrite len_app, len_cons, len_nil, N.add_0_r in Hok. rewrite Hok.
    assert (Hnot : c ∉ suf).
    { rewrite Hc in Hnd. apply NoDup_app in Hnd as (_ & _ & Hnd). by apply NoDup_cons in Hnd as [? _]. }
    exists fat'. split_and!; [done | done | |].
    - intros [|i] d Hd; cbn [lookup list_lookup] in Hd.
      + injection Hd as <-. by rewrite Nat.add_0_r, Hout.
      + apply Hin in Hd. rewrite Hd, length_app. simpl. f_equal. lia.
    - intros d Hd. apply not_elem_of_cons in Hd as [Hne Hd]. rewrite Hout by done. by apply Ho. }
  destruct (Hgen clusters [] fat) as (fat' & Hok & Hl & Hin & Hout); [done | done |].
  exists fat'. by split_and!.
Qed.

(** The table value as an entry. *)
Lemma classify_cluster geometry c n :
  eb_cluster_count geometry + 2 <= BAD_CLUSTER -> data_cluster geometry n ->
  classify_fat_value geometry c n = Ok (Next n).
Proof.
  unfold BAD_CLUSTER. intros Hm [H1 H2]. unfold classify_fat_value, BAD_CLUSTER, END_OF_CHAIN. widths.
  rewrite (proj2 (N.eqb_neq n 0)), (proj2 (N.eqb_neq n 4294967287)),
    (proj2 (N.eqb_neq n u32_max)) by lia.
  assert (validate_cluster geometry n = Ok tt) as ->; [|done].
  apply validate_cluster_Ok. split; [lia | by split].
Qed.
Lemma table_entry_of_value fat geometry c :
  eb_cluster_count geometry + 2 <= u32_max -> data_cluster geometry c -> 4 * c + 4 <= len fat ->
  table_entry fat geometry c = result_of (classify_fat_value geometry c (fat_value fat c)).
Proof.
  intros Hm Hc Hl. unfold table_entry.
  destruct (classify_fat_value geometry c (fat_value fat c)) as [e|e|] eqn:He; simpl.
  - assert (fat_entry fat geometry c = Ok e) as ->; [|done]. by apply fat_entry_Ok.
  - destruct (fat_entry fat geometry c) as [x| |] eqn:Hx; [|done|done].
    apply fat_entry_Ok in Hx as (_ & _ & _ & Hx). unfold fat_value in He. congruence.
  - by apply classify_fat_value_safe in He.
Qed.

(** A path that the values of a table link. *)
Lemma linked_chain fat geometry clusters first :
  eb_cluster_count geometry + 2 <= BAD_CLUSTER -> head clusters = Some first ->
  Forall (fun c => data_cluster geometry c /\ 4 * c + 4 <= len fat) clusters ->
  (forall i c, clusters !! i = Some c -> fat_value fat c = link clusters i) ->
  chain_from (table_entry fat geometry) first clusters.
Proof.
  intros Hm. pose proof Hm as Hm'. unfold BAD_CLUSTER in Hm'. widths. revert first.
  induction clusters as [|c clusters IH]; intros first Hh Hf Hv; [done |].
  injection Hh as ->. apply Forall_cons in Hf as [[Hc Hl] Hf].
  pose proof (Hv 0%nat first eq_refl) as Hv0. unfold link in Hv0. cbn [lookup list_lookup] in Hv0.
  destruct clusters as [|n clusters].
  - constructor. rewrite table_entry_of_value by (exact Hc || lia). rewrite Hv0. reflexivity.
  - apply chain_link with n.
    + rewrite table_entry_of_value by (exact Hc || lia). rewrite Hv0. cbn [default from_option id lookup list_lookup].
      apply Forall_cons in Hf as [[Hn _] _]. by rewrite classify_cluster.
    + apply IH; [done | done |]. intros i d Hd. by apply (Hv (S i)).
Qed.

Lemma write_chain_spec fat geometry clusters first :
  eb_cluster_count geometry <= MAX_CLUSTER_COUNT ->
  head clusters = Some first -> NoDup clusters -> Forall (data_cluster geometry) clusters ->
  4 * (eb_cluster_count geometry + 2) <= len fat ->
  exists fat', write_chain fat clusters = Ok fat' /\ len fat' = len fat /\
    chain_from (table_entry fat' geometry) first clusters /\
    (forall c, c ∉ clusters -> fat_value fat' c = fat_value fat c).
Proof.
  intros Hm Hh Hnd Hd Hl. assert (MAX_CLUSTER_COUNT = 4294967285) as E by reflexivity.
  rewrite E in Hm. assert (Hm2 : eb_cluster_count geometry + 2 <= BAD_CLUSTER) by (unfold BAD_CLUSTER; lia).
  pose proof Hm2 as Hm3. unfold BAD_CLUSTER in Hm3. widths.
  assert (Hf : Forall (fun c => data_cluster geometry c /\ 4 * c + 4 <= len fat) clusters).
  { eapply Forall_impl; [exact Hd |]. intros c Hc. split; [done |]. destruct Hc. lia. }
  destruct (write_chain_fits fat clusters) as (fat' & Hok & Hl' & Hin & Hout); [| |done|].
  - pose proof (bounded_NoDup_length clusters 2 (eb_cluster_count geometry) Hnd) as Hb.
    enough (len clusters <= eb_cluster_count geometry) by lia. apply Hb.
    eapply Forall_impl; [exact Hd |]. intros c [H1 H2]. lia.
  - eapply Forall_impl; [exact Hf |]. intros c [[H1 H2] H3]. lia.
  - exists fat'. split_and!; [done | done | | done].
    apply linked_chain; [done | done | | done]. by rewrite Hl'.
Qed.

(** A chain of untouched clusters survives. *)
Lemma chain_survives fat fat' geometry c l :
  len fat' = len fat -> (forall x, x ∈ l -> fat_value fat' x = fat_value fat x) ->
  chain_from (table_entry fat geometry) c l -> chain_from (table_entry fat' geometry) c l.
Proof.
  intros Hl Hv H. eapply chain_from_ext; [|exact H]. intros x Hx. specialize (Hv x Hx).
  apply chain_from_entries in H. rewrite Forall_forall in H. destruct (H x Hx) as [e He].
  rewrite He. symmetry. apply table_entry_Some in He. apply table_entry_Some.
  apply fat_entry_Ok in He as (H1 & H2 & H3 & H4). apply fat_entry_Ok.
  unfold fat_value in Hv. rewrite Hl, Hv. done.
Qed.

(** ** Free runs *)

(** The clusters of the slots [s, s + n) exist and are free. *)
Definition free_run (occupied : list bool) (s n : N) : Prop :=
  forall i, s <= i < s + n -> occupied !! N.to_nat i = Some false.
(** The occupancy after the slots [s, s + n) are taken. *)
Definition taken (occupied : list bool) (s n : N) (after : list bool) : Prop :=
  len after = len occupied /\
  forall i, after !! N.to_nat i =
    if decide (s <= i < s + n) then Some true else occupied !! N.to_nat i.

Lemma find_run_spec occupied count :
  0 < count ->
  match find_run occupied 0 0 count with
  | Some k => count <= k + 1 /\ k < len occupied /\ free_run occupied (k + 1 - count) count /\
              forall s, free_run occupied s count -> k + 1 - count <= s
  | None => forall s, ~ free_run occupied s count
  end.
Proof.
  intros Hc.
  assert (Hgen : forall suf pre run, occupied = pre ++ suf -> run < count -> run <= len pre ->
    free_run occupied (len pre - run) run ->
    (len pre = run \/ occupied !! N.to_nat (len pre - run - 1) = Some true) ->
    (forall s, s + count <= len pre -> ~ free_run occupied s count) ->
    match find_run suf (len pre) run count with
    | Some k => count <= k + 1 /\ k < len occupied /\ free_run occupied (k + 1 - count) count /\
                forall s, free_run occupied s count -> k + 1 - count <= s
    | None => forall s, ~ free_run occupied s count
    end).
  { induction suf as [|used suf IH]; intros pre run Ho Hr Hp Hfree Hmax Hno; cbn [find_run].
    { rewrite app_nil_r in Ho. subst pre. intros s Hs.
      destruct (N.le_gt_cases (s + count) (len occupied)) as [Hle|Hgt]; [by apply (Hno s) |].
      specialize (Hs (s + count - 1) ltac:(lia)). apply lookup_lt_Some in Hs. unfold len in Hgt. lia. }
    assert (Hat : occupied !! N.to_nat (len pre) = Some used).
    { rewrite Ho. unfold len. rewrite Nat2N.id. by apply list_lookup_middle. }
    assert (Hno' : forall s, s + count <= len pre + 1 ->
      (used = true \/ run + 1 <> count) -> ~ free_run occupied s count).
    { intros s Hs Hd Hf. destruct (N.le_gt_cases (s + count) (len pre)) as [|Hg]; [by apply (Hno s) |].
      destruct used.
      - specialize (Hf (len pre) ltac:(lia)). congruence.
      - destruct Hd as [|Hd]; [done |]. destruct Hmax as [Hm|Hm]; [lia |].
        destruct (N.le_gt_cases s (len pre - run - 1)); [|lia].
        destruct (N.eq_dec (len pre) run); [lia |].
        specialize (Hf (len pre - run - 1) ltac:(lia)). congruence. }
    pose proof (len_app pre [used]) as Hl1. rewrite len_cons, len_nil in Hl1.
    destruct used.
    - rewrite (proj2 (N.eqb_neq 0 count)) by lia.
      specialize (IH (pre ++ [true]) 0). rewrite Hl1 in IH. apply IH.
      + by rewrite <- app_assoc.
      + done.
      + lia.
      + intros i Hi. lia.
      + right. rewrite <- Hat. f_equal. lia.
      + intros s Hs. apply Hno'; [lia | by left].
    - assert (Hrun : free_run occupied (len pre + 1 - (run + 1)) (run + 1)).
      { intros i Hi. destruct (N.eq_dec i (len pre)) as [->|]; [done |]. apply Hfree. lia. }
      destruct (N.eqb_spec (run + 1) count) as [He|He].
      + rewrite <- He. split_and!; [lia | | exact Hrun |].
        * rewrite Ho, len_app, len_cons. lia.
        * intros s Hs. destruct (N.le_gt_cases (len pre + 1 - (run + 1)) s) as [|Hlt]; [done |].
          exfalso. apply (Hno s); [lia |]. by rewrite <- He.
      + specialize (IH (pre ++ [false]) (run + 1)). rewrite Hl1 in IH. apply IH.
        * by rewrite <- app_assoc.
        * lia.
        * lia.
        * exact Hrun.
        * destruct Hmax as [->|Hm]; [by left |]. right. rewrite <- Hm. f_equal. lia.
        * intros s Hs. apply Hno'; [lia | by right]. }
  apply (Hgen occupied [] 0); try done.
  - intros i Hi. lia.
  - by left.
  - intros s Hs Hf. rewrite len_nil in Hs. lia.
Qed.

Lemma fill_range_in {E} lo hi (l : list bool) :
  lo <= hi -> hi <= len l ->
  exists l', @fill_range E bool lo hi true l = Ok l' /\ taken l lo (hi - lo) l'.
Proof.
  intros H1 H2. unfold fill_range. eexists. split.
  - apply copy_from_slice_Ok. rewrite len_replicate. split_and!; [done | done | lia | done].
  - split; [apply len_splice; rewrite len_replicate; lia |].
    intros i. rewrite splice_lookup by (rewrite len_replicate; lia). rewrite len_replicate.
    rewrite !N2Nat.id. destruct (decide (lo <= i < lo + (hi - lo))) as [Hi|Hi].
    + apply lookup_replicate_2. lia.
    + done.
Qed.

Lemma allocate_contiguous_spec occupied count :
  0 < count <= u32_max -> len occupied + 2 <= u32_max ->
  match allocate_contiguous occupied count with
  | Ok (run, after) =>
      al_cluster_count run = count /\ 2 <= al_first_cluster run /\
      al_first_cluster run + count <= len occupied + 2 /\
      free_run occupied (al_first_cluster run - 2) count /\
      (forall s, free_run occupied s count -> al_first_cluster run - 2 <= s) /\
      taken occupied (al_first_cluster run - 2) count after
  | Err e => e = MetadataSpaceExhausted count /\ forall s, ~ free_run occupied s count
  | Panic => False
  end.
Proof.
  intros Hc Hl. widths. unfold allocate_contiguous. step. step.
  pose proof (find_run_spec occupied count ltac:(lia)) as Hf.
  destruct (find_run occupied 0 0 count) as [k|]; [|done].
  destruct Hf as (H1 & H2 & H3 & H4). step. step.
  destruct (@fill_range_in ExfatSerializeError (k + 1 - count) (k + 1) occupied) as (after & Ha & Ht);
    [lia | lia |]. rewrite Ha. cbn [mbind outcome_bind]. step. step.
  cbn [al_first_cluster al_cluster_count].
  replace (k + 1 - count + 2 - 2) with (k + 1 - count) by lia.
  replace (k + 1 - (k + 1 - count)) with count in Ht by lia.
  split_and!; [done | lia | lia | done | done | done].
Qed.

(** ** The bitmap *)
Lemma write_bit bytes i :
  i / 8 < len bytes ->
  exists old bytes', bytes !! N.to_nat (i / 8) = Some old /\
    @copy_from_slice ExfatSerializeError byte (i / 8) (i / 8 + 1)
      [byte_of_N (N.lor (Byte.to_N old) (N.shiftl 1 (i mod 8)))] bytes = Ok bytes' /\
    len bytes' = len bytes /\
    forall j, bitmap_bit bytes' j = bitmap_bit bytes j || (j =? i).
Proof.
  intros Hi. destruct (lookup_lt_is_Some_2 bytes (N.to_nat (i / 8))) as [old Hold];
    [unfold len in Hi; lia |].
  set (new := byte_of_N (N.lor (Byte.to_N old) (N.shiftl 1 (i mod 8)))). exists old, (splice (i / 8) [new] bytes).
  assert (Hl : i / 8 + len [new] <= len bytes) by (rewrite len_cons, len_nil; lia).
  split; [done |]. split; [|split; [by apply len_splice |]].
  { apply copy_from_slice_Ok. rewrite len_cons, len_nil. split_and!; [lia | lia | lia | done]. }
  intros j. unfold bitmap_bit. rewrite splice_lookup by done. rewrite len_cons, len_nil, !N2Nat.id.
  pose proof (N.mod_lt i 8 ltac:(done)) as Hm.
  destruct (N.eq_dec (j / 8) (i / 8)) as [He|Hne].
  - rewrite decide_True by lia. rewrite He, Nat.sub_diag, Hold. cbn [lookup list_lookup].
    unfold new. rewrite to_N_byte_of_N. change 256 with (2 ^ 8).
    pose proof (N.mod_lt j 8 ltac:(done)) as Hj.
    rewrite N.mod_pow2_bits_low by lia. rewrite N.lor_spec. f_equal.
    rewrite N.shiftl_1_l, N.pow2_bits_eqb. rewrite N.eqb_sym.
    destruct (N.eqb_spec (j mod 8) (i mod 8)) as [Hb|Hb]; symmetry.
    + apply N.eqb_eq. rewrite (N.Div0.div_mod j 8), (N.Div0.div_mod i 8). congruence.
    + apply N.eqb_neq. congruence.
  - rewrite decide_False by lia. rewrite (proj2 (N.eqb_neq j i)) by congruence.
    by rewrite orb_false_r.
Qed.

Lemma write_bitmap_spec bytes allocated :
  len allocated <= 8 * len bytes ->
  exists bytes', write_bitmap bytes allocated = Ok bytes' /\ len bytes' = len bytes /\
    forall i, bitmap_bit bytes' i =
      bitmap_bit bytes i || default false (allocated !! N.to_nat i).
Proof.
  intros Hl. unfold write_bitmap, enumerate.
  match goal with |- context [try_fold ?f _ _] => set (round := f) end.
  assert (Hgen : forall suf k bytes0, k + len suf <= 8 * len bytes0 ->
    exists bytes', try_fold round bytes0 (enumerate_from k suf) = Ok bytes' /\
      len bytes' = len bytes0 /\
      forall i, bitmap_bit bytes' i = bitmap_bit bytes0 i ||
        (if k <=? i then default false (suf !! N.to_nat (i - k)) else false)).
  { induction suf as [|a suf IH]; intros k bytes0 Hk.
    { exists bytes0. split_and!; [done | done |]. intros i. rewrite lookup_nil.
      destruct (k <=? i); by rewrite orb_false_r. }
    rewrite len_cons in Hk.
    assert (Hone : exists bytes1, round bytes0 (k, a) = Ok bytes1 /\ len bytes1 = len bytes0 /\
      forall i, bitmap_bit bytes1 i = bitmap_bit bytes0 i || (a && (i =? k))).
    { unfold round. destruct a.
      - destruct (write_bit bytes0 k) as (old & bytes1 & Ho & Hc & Hl1 & Hb).
        { apply N.Div0.div_lt_upper_bound. lia. }
        exists bytes1. rewrite (proj2 (at_index_Ok _ _ _) Ho). by split_and!.
      - exists bytes0. split_and!; [done | done |]. intros i. by rewrite orb_false_r. }
    destruct Hone as (bytes1 & H1 & Hl1 & Hb1).
    destruct (IH (k + 1) bytes1) as (bytes' & H2 & Hl2 & Hb2); [lia |].
    exists bytes'. cbn [enumerate_from try_fold]. rewrite H1. cbn [mbind outcome_bind].
    split_and!; [done | congruence |]. intros i. rewrite Hb2, Hb1, <- orb_assoc. f_equal.
    destruct (N.leb_spec k i) as [Hki|Hki].
    - destruct (N.eqb_spec i k) as [->|Hne].
      + rewrite (proj2 (N.leb_gt _ _)) by lia. rewrite N.sub_diag, orb_false_r, andb_true_r. done.
      + rewrite (proj2 (N.leb_le _ _)) by lia. rewrite andb_false_r. simpl orb.
        by replace (N.to_nat (i - k)) with (S (N.to_nat (i - (k + 1)))) by lia.
    - rewrite (proj2 (N.leb_gt _ _)), (proj2 (N.eqb_neq i k)) by lia. by rewrite andb_false_r. }
  destruct (Hgen allocated 0 bytes) as (bytes' & H1 & H2 & H3); [lia |].
  exists bytes'. split_and!; [done | done |]. intros i. rewrite H3.
  by rewrite (proj2 (N.leb_le 0 i)), N.sub_0_r by lia.
Qed.

Lemma bitmap_bit_zeros n i : bitmap_bit (replicate n x00) i = false.
Proof.
  unfold bitmap_bit. destruct (replicate n x00 !! _) eqn:Hr; [|done].
  apply lookup_replicate in Hr as [-> _]. apply N.bits_0.
Qed.

(** ** Unusable clusters *)

(** The bytes of a cluster of the destination. *)
Definition heap_offset (geometry : ExfatDestinationGeometry) : N :=
  dg_cluster_heap_offset_sectors geometry * dg_bytes_per_sector geometry.
Definition in_cluster (geometry : ExfatDestinationGeometry) (cluster p : N) : Prop :=
  in_range (heap_offset geometry + (cluster - 2) * dg_bytes_per_cluster geometry)
    (dg_bytes_per_cluster geometry) p.
Definition heap_cluster (geometry : ExfatDestinationGeometry) (cluster : N) : Prop :=
  2 <= cluster < dg_cluster_count geometry + 2.

(** Sizes and offsets whose products fit. *)
Record geometry_fits (geometry : ExfatDestinationGeometry) : Prop := {
  gf_sector : 0 < dg_bytes_per_sector geometry;
  gf_cluster : 0 < dg_bytes_per_cluster geometry;
  gf_boot : 24 * dg_bytes_per_sector geometry
              <= dg_fat_offset_sectors geometry * dg_bytes_per_sector geometry;
  gf_fat : (dg_fat_offset_sectors geometry + dg_fat_length_sectors geometry)
             * dg_bytes_per_sector geometry <= heap_offset geometry;
  gf_heap : heap_offset geometry + dg_cluster_count geometry * dg_bytes_per_cluster geometry
              <= dg_volume_bytes geometry;
  gf_volume : dg_volume_bytes geometry <= u64_max;
  gf_count : dg_cluster_count geometry + 2 <= u32_max;
  gf_aligned : (dg_bytes_per_cluster geometry | heap_offset geometry)
}.

Section Regions.
#[local] Set Default Proof Using "Type".
Context (geometry : ExfatDestinationGeometry) (Hg : geometry_fits geometry).

Lemma heap_products :
  @expect ExfatSerializeError N (checked_mul (dg_cluster_heap_offset_sectors geometry)
    (dg_bytes_per_sector geometry)) = Ok (heap_offset geometry) /\
  @expect ExfatSerializeError N (checked_mul (dg_cluster_count geometry)
    (dg_bytes_per_cluster geometry)) =
    Ok (dg_cluster_count geometry * dg_bytes_per_cluster geometry).
Proof using Hg.
  destruct Hg as [_ _ _ _ Hh Hv _ _]. unfold heap_offset in *.
  rewrite !checked_mul_in by lia. done.
Qed.

Lemma bad_cluster_number_Ok heap_end clusters lcn clusters' :
  heap_end = heap_offset geometry + dg_cluster_count geometry * dg_bytes_per_cluster geometry ->
  bad_cluster_number (heap_offset geometry) heap_end (dg_bytes_per_cluster geometry) clusters lcn
    = Ok clusters' ->
  exists c, clusters' = clusters ++ [c] /\ heap_cluster geometry c /\
    heap_offset geometry + (c - 2) * dg_bytes_per_cluster geometry = lcn * dg_bytes_per_cluster geometry.
Proof using Hg.
  intros -> H. unfold bad_cluster_number in H. inv_ok. bool_props. eexists. split; [reflexivity |].
  destruct Hg as [_ Hc _ _ _ _ _ (q & Hq)]. rewrite Hq in *.
  set (K := dg_bytes_per_cluster geometry) in *.
  rewrite <- N.mul_sub_distr_r in *.
  rewrite N.div_mul by lia. set (n := dg_cluster_count geometry) in *.
  assert (q <= lcn) by (apply (N.mul_le_mono_pos_r q lcn K); lia).
  assert (lcn + 1 <= q + n) by (apply (N.mul_le_mono_pos_r _ _ K); lia).
  unfold heap_cluster. fold n. split; [lia |]. replace (lcn - q + 2 - 2) with (lcn - q) by lia.
  rewrite <- N.mul_add_distr_r. f_equal. lia.
Qed.

Lemma dest_bad_clusters_Ok ranges clusters :
  dest_exfat_bad_clusters geometry ranges = Ok clusters ->
  Forall (heap_cluster geometry) clusters /\ NoDup clusters /\
  (forall r p, r ∈ ranges -> in_range (br_offset r) (br_length r) p ->
     exists c, c ∈ clusters /\ in_cluster geometry c p) /\
  (forall c, c ∈ clusters ->
     exists r p, r ∈ ranges /\ in_range (br_offset r) (br_length r) p /\ in_cluster geometry c p).
Proof using Hg.
  destruct heap_products as [E1 E2]. unfold dest_exfat_bad_clusters. rewrite E1, E2.
  cbn [mbind outcome_bind]. intros H. inv_ok.
  match goal with H : clusters_covering_ranges _ _ _ = Ok ?l |- _ =>
    rename l into lcns; apply clusters_covering_Ok in H as (Hsort & _ & Hin) end.
  set (K := dg_bytes_per_cluster geometry) in *.
  set (C := dg_cluster_count geometry) in *.
  assert (Hgen : forall l acc out,
    try_fold (bad_cluster_number (heap_offset geometry) (heap_offset geometry + C * K) K) acc l = Ok out ->
    exists cs, out = acc ++ cs /\ Forall2 (fun c lcn => heap_cluster geometry c /\
      heap_offset geometry + (c - 2) * K = lcn * K) cs l).
  { clear -Hg. induction l as [|lcn l IH]; intros acc out Hf; simpl in Hf.
    - inv_ok. exists []. by rewrite app_nil_r.
    - apply bind_Ok in Hf as (acc' & H1 & H2).
      apply bad_cluster_number_Ok in H1 as (c & -> & Hc & He); [|done].
      apply IH in H2 as (cs & -> & Hcs). exists (c :: cs). rewrite <- app_assoc. split; [done |].
      constructor; [by split | done]. }
  apply Hgen in H as (cs & -> & Hcs). rewrite app_nil_l.
  assert (HK : 0 < K) by apply Hg.
  split_and!.
  - eapply Forall2_Forall_l; [exact Hcs |]. apply Forall_true. by intros lcn c [? _].
  - apply NoDup_alt. intros i j c Hi Hj.
    destruct (Forall2_lookup_l _ _ _ _ _ Hcs Hi) as (x & Hx & _ & Hex).
    destruct (Forall2_lookup_l _ _ _ _ _ Hcs Hj) as (y & Hy & _ & Hey).
    assert (x = y) as -> by nia.
    destruct (Nat.lt_trichotomy i j) as [Hlt|[Heq|Hlt]]; [|done|].
    + pose proof (proj1 (StronglySorted_lookup N.lt lcns) Hsort i j _ _ Hlt Hx Hy). lia.
    + pose proof (proj1 (StronglySorted_lookup N.lt lcns) Hsort j i _ _ Hlt Hy Hx). lia.
  - intros r p Hr Hp.
    assert (Ht : in_range (p / K * K) K p).
    { destruct (euclid p K ltac:(lia)) as (q & s & -> & _ & ? & ?). unfold in_range. lia. }
    assert (Hl : p / K ∈ lcns) by (apply Hin; exists r; split; [done |]; by exists p).
    apply list_elem_of_lookup in Hl as [i Hi].
    destruct (Forall2_lookup_r _ _ _ _ _ Hcs Hi) as (c & Hc & _ & He).
    exists c. split; [by eapply list_elem_of_lookup_2 |]. unfold in_cluster. fold K. by rewrite He.
  - intros c Hc. apply list_elem_of_lookup in Hc as [i Hi].
    destruct (Forall2_lookup_l _ _ _ _ _ Hcs Hi) as (lcn & Hl & _ & He).
    apply list_elem_of_lookup_2, Hin in Hl as (r & Hr & p & Hp & Hlp).
    exists r, p. unfold in_cluster. fold K. by rewrite He.
Qed.
End Regions.

(** ** Stale boot sectors *)
Lemma within_Ok range s e b :
  0 < br_length range -> within range s e = Ok b ->
  (b = true /\ s <= br_offset range /\ range_end range <= e) \/
  (b = false /\ (range_end range <= s \/ e <= br_offset range)).
Proof.
  unfold within, range_end. intros Hl H. inv_ok. destruct (_ || _) eqn:Ho.
  - inv_ok. right. split; [done |]. apply orb_true_iff in Ho. rewrite !N.leb_le in Ho. lia.
  - inv_ok. bool_props. left. done.
Qed.
Lemma within_safe range s e : within range s e <> Panic.
Proof. unfold within. safe. Qed.

(** The regions of a destination. *)
Definition regions_of (geometry : ExfatDestinationGeometry) : ScrubRegions :=
  let sector := dg_bytes_per_sector geometry in
  mkScrubRegions (24 * sector) (dg_fat_offset_sectors geometry * sector)
    ((dg_fat_offset_sectors geometry + dg_fat_length_sectors geometry) * sector)
    (heap_offset geometry)
    (heap_offset geometry + dg_cluster_count geometry * dg_bytes_per_cluster geometry).

(** A scrub writes only where nothing else lives. *)
Record scrub_ok (geometry : ExfatDestinationGeometry) (occupied : list bool)
    (scrub : StaleBootSectorScrub) : Prop := {
  sk_nonempty : 0 < br_length (sb_range scrub);
  sk_offset : br_offset (sb_range scrub) mod dg_bytes_per_sector geometry = 0;
  sk_length : br_length (sb_range scrub) mod dg_bytes_per_sector geometry = 0;
  sk_volume : range_end (sb_range scrub) <= dg_volume_bytes geometry;
  sk_boot : sr_boot_end (regions_of geometry) <= br_offset (sb_range scrub);
  sk_fat : range_end (sb_range scrub) <= sr_fat_start (regions_of geometry) \/
           sr_fat_end (regions_of geometry) <= br_offset (sb_range scrub);
  sk_heap : match sb_heap_cluster scrub with
            | None => range_end (sb_range scrub) <= sr_heap_start (regions_of geometry) \/
                      sr_heap_end (regions_of geometry) <= br_offset (sb_range scrub)
            | Some cluster =>
                heap_cluster geometry cluster /\ occupied !! N.to_nat (cluster - 2) = Some false /\
                forall p, in_range (br_offset (sb_range scrub)) (br_length (sb_range scrub)) p ->
                  in_cluster geometry cluster p
            end
}.

(** Two scrubs share neither a byte nor a cluster. *)
Definition scrubs_apart (a b : StaleBootSectorScrub) : Prop :=
  apart br_offset br_length (sb_range a) (sb_range b) /\
  (forall c, sb_heap_cluster a = Some c -> sb_heap_cluster b <> Some c).

(** What happens to a range that is asked for. *)
Definition range_settled (geometry : ExfatDestinationGeometry) (occupied : list bool)
    (scrubs : list StaleBootSectorScrub) (range : ByteRange) : Prop :=
  (exists scrub, scrub ∈ scrubs /\ sb_range scrub = range) \/
  range_end range <= sr_boot_end (regions_of geometry) \/
  (sr_fat_start (regions_of geometry) <= br_offset range /\
   range_end range <= sr_fat_end (regions_of geometry)) \/
  (exists cluster, heap_cluster geometry cluster /\
     occupied !! N.to_nat (cluster - 2) = Some true /\
     forall p, in_range (br_offset range) (br_length range) p -> in_cluster geometry cluster p).

Section Scrubs.
#[local] Set Default Proof Using "All".
Context (geometry : ExfatDestinationGeometry) (Hg : geometry_fits geometry).
Context (occupied : list bool) (Ho : len occupied = dg_cluster_count geometry).

Lemma scrub_regions_fit : scrub_regions geometry = Ok (regions_of geometry).
Proof.
  pose proof (heap_products geometry Hg) as [E1 E2].
  destruct Hg as [Hs Hc Hb Hf Hh Hv _ _]. unfold scrub_regions, regions_of.
  rewrite N.mul_add_distr_r in Hf. step. step. step. step. rewrite E1, E2.
  cbn [mbind outcome_bind]. step. by rewrite N.mul_add_distr_r.
Qed.

Lemma scrub_cluster_yields scrubs range :
  0 < br_length range -> heap_offset geometry <= br_offset range ->
  range_end range <= sr_heap_end (regions_of geometry) ->
  yields (fun found =>
    exists cluster, heap_cluster geometry cluster /\
      (forall p, in_range (br_offset range) (br_length range) p -> in_cluster geometry cluster p) /\
      match found with
      | None => occupied !! N.to_nat (cluster - 2) = Some true
      | Some number => number = cluster /\ occupied !! N.to_nat (cluster - 2) = Some false /\
          Forall (fun s => sb_heap_cluster s <> Some number) scrubs
      end)
    (scrub_cluster (dg_bytes_per_cluster geometry) (heap_offset geometry) occupied scrubs range
       (range_end range)).
Proof.
  intros Hl Hs He. destruct Hg as [_ Hc _ _ Hh Hv Hm _]. unfold regions_of in He. cbn [sr_heap_end] in He.
  unfold scrub_cluster. unfold range_end in *. set (K := dg_bytes_per_cluster geometry) in *.
  set (n := dg_cluster_count geometry) in *. set (h := heap_offset geometry) in *. widths.
  destruct (euclid (br_offset range - h) K ltac:(lia)) as (q & r & Hq & _ & Hqr & Hr).
  destruct (euclid (br_offset range + br_length range - 1 - h) K ltac:(lia))
    as (q' & r' & Hq' & _ & Hqr' & Hr').
  step. step. step. step. step. rewrite Hq, Hq'.
  destruct (N.eqb_spec q' q) as [->|Hne]; [|done]. cbn [negb refuse_if mbind outcome_bind].
  assert (Hqn : q < n) by (apply (N.mul_lt_mono_pos_r K); lia).
  step. step. step. destruct (lookup_lt_is_Some_2 occupied (N.to_nat q)) as [used Hu];
    [unfold len in Ho; lia |].
  rewrite (proj2 (at_index_Ok _ _ _) Hu). cbn [mbind outcome_bind].
  assert (Hin : forall p, in_range (br_offset range) (br_length range) p ->
    in_cluster geometry (q + 2) p).
  { intros p. unfold in_cluster, in_range. fold K h. rewrite N.add_sub. lia. }
  destruct used.
  - exists (q + 2). rewrite N.add_sub. split; [unfold heap_cluster; fold n; lia | done].
  - destruct (existsb _ scrubs) eqn:Hx; [done |]. cbn [refuse_if mbind outcome_bind].
    exists (q + 2). rewrite N.add_sub. split; [unfold heap_cluster; fold n; lia |].
    split; [done |]. split_and!; [done | done |]. apply Forall_forall. intros s Hin' He'.
    assert (existsb (fun existing => bool_decide (sb_heap_cluster existing = Some (q + 2))) scrubs = true)
      as Ht; [|congruence].
    apply existsb_exists. exists s. split; [by apply list_elem_of_In |]. by apply bool_decide_eq_true.
Qed.

(** The state of the loop after some ranges. *)
Record scrub_state (scrubs : list StaleBootSectorScrub) (processed : list ByteRange) : Prop := {
  sx_ok : Forall (scrub_ok geometry occupied) scrubs;
  sx_apart : StronglySorted scrubs_apart scrubs;
  sx_settled : Forall (range_settled geometry occupied scrubs) processed
}.

Lemma range_settled_app scrubs scrub range :
  range_settled geometry occupied scrubs range -> range_settled geometry occupied (scrubs ++ [scrub]) range.
Proof.
  intros [(s & Hs & He)|H]; [|by right]. left. exists s. split; [set_solver | done].
Qed.

Lemma scrub_state_same scrubs processed range :
  scrub_state scrubs processed -> range_settled geometry occupied scrubs range ->
  scrub_state scrubs (processed ++ [range]).
Proof.
  intros [H1 H2 H3] Hr. split; [done | done |]. apply Forall_app. split; [done |]. by apply Forall_singleton.
Qed.
Lemma scrub_state_push scrubs processed scrub :
  scrub_state scrubs processed -> scrub_ok geometry occupied scrub ->
  Forall (fun s => scrubs_apart s scrub) scrubs ->
  scrub_state (scrubs ++ [scrub]) (processed ++ [sb_range scrub]).
Proof.
  intros [H1 H2 H3] Hok Ha. split.
  - apply Forall_app. split; [done |]. by apply Forall_singleton.
  - apply StronglySorted_app_iff. split; [done |]. split; [by repeat constructor |].
    intros x y Hx Hy%list_elem_of_singleton. subst y. rewrite Forall_forall in Ha. by apply Ha.
  - apply Forall_app. split.
    + eapply Forall_impl; [exact H3 |]. intros r. apply range_settled_app.
    + apply Forall_singleton. left. exists scrub. split; [set_solver | done].
Qed.

Lemma plan_scrub_yields scrubs processed range :
  scrub_state scrubs processed ->
  yields (fun scrubs' => scrub_state scrubs' (processed ++ [range]))
    (plan_scrub geometry (regions_of geometry) occupied scrubs range).
Proof.
  intros Hst. pose proof Hg as [Hs Hc Hb Hf Hh Hv Hm _]. widths. unfold plan_scrub.
  apply yields_then; [apply ok_or_safe |]. intros e He. inv_ok. fold (range_end range) in *.
  assert (Hsf : dg_bytes_per_sector geometry <> 0) by lia.
  apply yields_then. { destruct (_ || _); [done |]. safe; by apply rem_u64_safe. }
  intros bad Hbad. apply yields_then; [apply refuse_if_safe |]. intros [] Hb0.
  apply refuse_if_Ok in Hb0 as ->.
  destruct (_ || _) eqn:Hlen in Hbad; [done |]. inv_ok. bool_props.
  apply yields_then.
  { apply for_each_safe. intros s Hin. safe. apply add_u64_safe.
    destruct Hst as [Hsk _ _]. rewrite Forall_forall in Hsk. specialize (Hsk s Hin).
    destruct Hsk as [_ _ _ Hvol _ _ _]. unfold range_end in Hvol. lia. }
  intros [] Hap. apply for_each_Ok in Hap.
  assert (Hl : 0 < br_length range) by lia.
  assert (Hapart : Forall (fun s => apart br_offset br_length (sb_range s) range) scrubs).
  { eapply Forall_impl; [exact Hap |]. intros s Hone. cbv beta in Hone. inv_ok.
    unfold apart, before. unfold range_end in *.
    match goal with H : _ && _ = false |- _ => apply andb_false_iff in H; rewrite !N.ltb_ge in H end.
    lia. }
  apply yields_then; [apply within_safe |]. intros in_boot Hboot. apply within_Ok in Hboot; [|done].
  destruct in_boot.
  { simpl. apply scrub_state_same; [done |]. right. left. by destruct Hboot as [(_ & _ & ?)|[? _]]. }
  apply yields_then; [apply within_safe |]. intros in_fat Hfat. apply within_Ok in Hfat; [|done].
  destruct in_fat.
  { simpl. apply scrub_state_same; [done |]. right. right. left.
    destruct Hfat as [(_ & ? & ?)|[? _]]; [by split | done]. }
  destruct Hboot as [[? _]|(_ & [Hboot|Hboot])]; [done | unfold range_end in Hboot; lia |].
  destruct Hfat as [[? _]|[_ Hfat]]; [done |].
  assert (Hpush : forall found,
    (forall scrub, sb_range scrub = range -> sb_heap_cluster scrub = found ->
       match found with
       | None => range_end range <= sr_heap_start (regions_of geometry) \/
                 sr_heap_end (regions_of geometry) <= br_offset range
       | Some number => heap_cluster geometry number /\
           occupied !! N.to_nat (number - 2) = Some false /\
           (forall p, in_range (br_offset range) (br_length range) p -> in_cluster geometry number p) /\
           Forall (fun s => sb_heap_cluster s <> Some number) scrubs
       end ->
     scrub_state (scrubs ++ [scrub]) (processed ++ [range]))).
  { intros found scrub <- Hfound Hcase. apply scrub_state_push; [done | |].
    - split; try done; rewrite Hfound. destruct found; [|done]. by destruct Hcase as (? & ? & ? & _).
    - apply Forall_forall. intros s Hin. rewrite Forall_forall in Hapart. split; [by apply Hapart |].
      intros c Hsc Hsc'. destruct found as [number|]; [|congruence]. destruct Hcase as (_ & _ & _ & Hd).
      rewrite Forall_forall in Hd. apply (Hd s Hin). congruence. }
  apply yields_then; [apply within_safe |]. intros in_heap Hheap. apply within_Ok in Hheap; [|done].
  destruct in_heap.
  - destruct Hheap as [(_ & Hh1 & Hh2)|[? _]]; [|done].
    eapply yields_bind; [by apply scrub_cluster_yields |]. intros [number|] (cluster & Hhc & Hin & Hcase).
    + destruct Hcase as (-> & Hfree & Hd). simpl. by apply (Hpush (Some cluster)).
    + simpl. apply scrub_state_same; [done |]. right. right. right. by exists cluster.
  - destruct Hheap as [[? _]|[_ Hheap]]; [done |]. simpl. by apply (Hpush None).
Qed.

Lemma plan_scrubs_yields ranges :
  yields (fun scrubs => scrub_state scrubs ranges)
    (plan_stale_boot_sector_scrubs geometry ranges occupied).
Proof.
  unfold plan_stale_boot_sector_scrubs. rewrite scrub_regions_fit. cbn [mbind outcome_bind].
  assert (Hgen : forall rest scrubs processed, scrub_state scrubs processed ->
    yields (fun out => scrub_state out (processed ++ rest))
      (try_fold (plan_scrub geometry (regions_of geometry) occupied) scrubs rest)).
  { induction rest as [|range rest IH]; intros scrubs processed Hst; simpl.
    { by rewrite app_nil_r. }
    eapply yields_bind; [by apply plan_scrub_yields |]. intros scrubs' Hst'.
    specialize (IH _ _ Hst'). by rewrite <- app_assoc in IH. }
  apply (Hgen ranges [] []). split; constructor.
Qed.
End Scrubs.

(** The geometries that [choose_geometry] returns. *)
Lemma chosen_geometry_fits volume_bytes options max g root :
  volume_bytes <= u64_max -> choose_geometry volume_bytes options max = Ok g ->
  geometry_fits (with_root g root).
Proof.
  intros Hv H. apply choose_geometry_Ok in H as (Hin & _ & h & c & f & Hch & Hc & _ & _ & ->).
  destruct Hch as (Hfh & HhV & Hcount & Hfat & m & Hm).
  destruct (cluster_ratio _ _ _ Hin) as (k & j & Hk & Hkr & Hj & Hkj & Hcb).
  destruct Hin as [Hs _ _ Hal]. destruct (sector_size_bound _ Hs) as [Hb _].
  unfold FAT_OFFSET_SECTORS in Hfh. assert (E : MAX_CLUSTER_COUNT = 4294967285) by reflexivity.
  set (V := volume_bytes / so_bytes_per_sector options) in *.
  set (C := so_bytes_per_cluster options / so_bytes_per_sector options) in *.
  assert (HC : C <> 0) by (rewrite Hj; by apply N.pow_nonzero).
  destruct (euclid (V - h) C HC) as (q & s & Hq & _ & Hd & Hlt). rewrite Hq in Hcount. subst q.
  unfold with_root. split; unfold heap_offset; cbn [dg_volume_bytes dg_volume_sectors
    dg_fat_offset_sectors dg_fat_length_sectors dg_cluster_heap_offset_sectors dg_cluster_count
    dg_bytes_per_sector dg_bytes_per_cluster].
  - lia.
  - rewrite Hcb. set (S := so_bytes_per_sector options) in *. nia.
  - lia.
  - apply N.mul_le_mono_r. lia.
  - rewrite Hal, Hcb. replace V with (h + c * C + s) by lia.
    set (S := so_bytes_per_sector options) in *. nia.
  - exact Hv.
  - widths. lia.
  - exists m. rewrite Hcb, Hm. lia.
Qed.

(** * Properties *)

(** C40: what the writer links is what the reader walks.  Writing the chain of a
    list of distinct heap clusters into a table that has an entry for every
    cluster succeeds; the walk of [ExfatAllocation.v] from its first cluster then
    returns exactly that list, and the walk from any cluster whose chain shares
    no cluster with it returns what it returned before. *)
Theorem written_chain_walked fat geometry clusters first :
  eb_cluster_count geometry <= MAX_CLUSTER_COUNT ->
  4 * (eb_cluster_count geometry + 2) <= len fat ->
  head clusters = Some first -> NoDup clusters -> Forall (data_cluster geometry) clusters ->
  exists fat', write_chain fat clusters = Ok fat' /\ len fat' = len fat /\
    chain_clusters fat' geometry first = Ok clusters /\
    forall start l, chain_clusters fat geometry start = Ok l ->
      (forall c, c ∈ l -> c ∉ clusters) -> chain_clusters fat' geometry start = Ok l.
Proof.
  intros Hm Hl Hh Hnd Hd. destruct (write_chain_spec fat geometry clusters first) as
    (fat' & Hok & Hl' & Hchain & Hother); try assumption.
  exists fat'. split_and!; [done | done | by apply chain_clusters_spec |].
  intros start l Hs Hdis. apply chain_clusters_spec. apply chain_clusters_spec in Hs.
  eapply chain_survives; [done | | exact Hs]. intros x Hx. apply Hother. by apply Hdis.
Qed.

Lemma written_chain_walked_witness :
  exists fat', write_chain (replicate 8040 x00) [5; 3; 100] = Ok fat' /\ len fat' = 8040 /\
    chain_clusters fat' sample_boot_sector 5 = Ok [5; 3; 100] /\
    forall start l, chain_clusters (replicate 8040 x00) sample_boot_sector start = Ok l ->
      (forall c, c ∈ l -> c ∉ [5; 3; 100]) -> chain_clusters fat' sample_boot_sector start = Ok l.
Proof.
  apply (written_chain_walked (replicate 8040 x00) sample_boot_sector [5; 3; 100] 5).
  - vm_compute. discriminate.
  - vm_compute. discriminate.
  - reflexivity.
  - vm_compute. repeat constructor; rewrite ?elem_of_cons, ?elem_of_nil; intuition discriminate.
  - repeat constructor; vm_compute; discriminate.
Defined.

(** a metadata allocation takes free clusters and the lowest ones.  For every
    occupancy of a heap and every number of clusters, the allocator returns a run
    of that many clusters of the heap that were all free, at the lowest position
    where such a run starts, and the new occupancy differs exactly in that run;
    it refuses exactly when no such run exists, and it never panics. *)
Theorem first_fit_allocation occupied count :
  0 < count <= u32_max -> len occupied + 2 <= u32_max ->
  match allocate_contiguous occupied count with
  | Ok (run, after) =>
      al_cluster_count run = count /\ 2 <= al_first_cluster run /\
      al_first_cluster run + count <= len occupied + 2 /\
      free_run occupied (al_first_cluster run - 2) count /\
      (forall s, free_run occupied s count -> al_first_cluster run - 2 <= s) /\
      taken occupied (al_first_cluster run - 2) count after
  | Err e => e = MetadataSpaceExhausted count /\ forall s, ~ free_run occupied s count
  | Panic => False
  end.
Proof. apply allocate_contiguous_spec. Qed.

Definition sample_occupied : list bool := [true; false; true; false; false; true; false; false; false].
Lemma first_fit_allocation_witness :
  match allocate_contiguous sample_occupied 2 with
  | Ok (run, after) =>
      al_cluster_count run = 2 /\ 2 <= al_first_cluster run /\
      al_first_cluster run + 2 <= len sample_occupied + 2 /\
      free_run sample_occupied (al_first_cluster run - 2) 2 /\
      (forall s, free_run sample_occupied s 2 -> al_first_cluster run - 2 <= s) /\
      taken sample_occupied (al_first_cluster run - 2) 2 after
  | Err e => e = MetadataSpaceExhausted 2 /\ forall s, ~ free_run sample_occupied s 2
  | Panic => False
  end /\ allocate_contiguous sample_occupied 2 =
         Ok (mkAllocation 5 2, [true; false; true; true; true; true; false; false; false]).
Proof.
  split; [apply (first_fit_allocation sample_occupied 2)|].
  - split; vm_compute; [reflexivity | discriminate].
  - vm_compute. discriminate.
  - vm_compute. reflexivity.
Defined.

(** the allocation bitmap round trip.  Writing the occupancy of a heap over
    zeros that have room for it succeeds, and the readers of [ExfatAllocation.v]
    find, on any prefix of the result that has a bit for every cluster, exactly
    that occupancy, with no bit set past the last cluster. *)
Theorem bitmap_round_trip zeros allocated geometry n :
  eb_cluster_count geometry = len allocated -> len allocated + 2 <= u32_max ->
  (len allocated + 7) / 8 <= n -> n <= N.of_nat zeros ->
  exists bytes, write_bitmap (replicate zeros x00) allocated = Ok bytes /\
    len bytes = N.of_nat zeros /\
    (forall cluster, data_cluster geometry cluster ->
       bitmap_cluster_is_allocated (subslice 0 n bytes) geometry cluster =
         Ok (default false (allocated !! N.to_nat (cluster - 2)))) /\
    (forall i, len allocated <= i -> bitmap_bit bytes i = false).
Proof.
  intros Hc Hm Hn Hz.
  assert (Hroom : len allocated <= 8 * ((len allocated + 7) / 8)).
  { destruct (euclid (len allocated + 7) 8 ltac:(done)) as (q & s & -> & _ & ? & ?). lia. }
  destruct (write_bitmap_spec (replicate zeros x00) allocated) as (bytes & Hok & Hl & Hb).
  { rewrite len_replicate. lia. }
  rewrite len_replicate in Hl. exists bytes. split_and!; [done | done | |].
  - intros cluster Hd. apply bitmap_cluster_is_allocated_Ok.
    + by rewrite Hc.
    + done.
    + rewrite Hc, len_subslice by lia. lia.
    + assert (Hs : bitmap_bit (subslice 0 n bytes) (cluster - 2) = bitmap_bit bytes (cluster - 2)).
      { destruct Hd as [H1 H2]. rewrite Hc in H2. unfold bitmap_bit. rewrite subslice_lookup; [done |].
        rewrite N2Nat.id, N.sub_0_r. eapply N.lt_le_trans; [|exact Hn].
        apply N.Div0.div_lt_upper_bound. lia. }
      rewrite Hs, Hb, bitmap_bit_zeros. done.
  - intros i Hi. rewrite Hb, bitmap_bit_zeros. rewrite (proj2 (lookup_ge_None _ _)); [done |].
    unfold len in Hi. lia.
Qed.

Lemma bitmap_round_trip_witness :
  let geometry := described_boot_sector (mkExfatDestinationGeometry 0 0 0 0 0 9 2 512 4096) sample_options 0 in
  exists bytes, write_bitmap (replicate 16 x00) sample_occupied = Ok bytes /\
    len bytes = 16 /\
    (forall cluster, data_cluster geometry cluster ->
       bitmap_cluster_is_allocated (subslice 0 2 bytes) geometry cluster =
         Ok (default false (sample_occupied !! N.to_nat (cluster - 2)))) /\
    (forall i, len sample_occupied <= i -> bitmap_bit bytes i = false).
Proof.
  apply (bitmap_round_trip 16 sample_occupied
    (described_boot_sector (mkExfatDestinationGeometry 0 0 0 0 0 9 2 512 4096) sample_options 0) 2).
  - reflexivity.
  - vm_compute. discriminate.
  - vm_compute. discriminate.
  - vm_compute. discriminate.
Defined.

(** zeroing stale boot sectors is safe.  For every destination geometry and
    every list of ranges, planning terminates without a panic, and a plan that is
    accepted zeroes only whole sectors of the volume outside the boot regions and
    the FAT; a range inside the heap lies in one cluster, which is free and pinned
    by no other range; the other ranges are outside the heap; no two of them share
    a byte.  Every requested range is zeroed, or lies in a boot region or the FAT,
    which are rewritten, or in a cluster that is marked bad. *)
Theorem scrubs_stay_clear volume_bytes options max g root occupied ranges :
  volume_bytes <= u64_max -> choose_geometry volume_bytes options max = Ok g ->
  len occupied = dg_cluster_count g ->
  let geometry := with_root g root in
  plan_stale_boot_sector_scrubs geometry ranges occupied <> Panic /\
  forall scrubs, plan_stale_boot_sector_scrubs geometry ranges occupied = Ok scrubs ->
    Forall (scrub_ok geometry occupied) scrubs /\ StronglySorted scrubs_apart scrubs /\
    Forall (range_settled geometry occupied scrubs) ranges.
Proof.
  intros Hv H Ho geometry.
  pose proof (plan_scrubs_yields geometry (chosen_geometry_fits _ _ _ _ root Hv H) occupied Ho ranges) as Hy.
  split; [by eapply yields_safe |]. intros scrubs Hs. by destruct (yields_Ok _ _ _ Hy Hs).
Qed.

Definition sample_stale : list ByteRange :=
  [mkByteRange 512 512; mkByteRange 20480 512; mkByteRange 1048064 512].
Lemma scrubs_stay_clear_witness :
  (let geometry := with_root sample_geometry 4 in
   let occupied := replicate 252 false in
   plan_stale_boot_sector_scrubs geometry sample_stale occupied <> Panic /\
   forall scrubs, plan_stale_boot_sector_scrubs geometry sample_stale occupied = Ok scrubs ->
    Forall (scrub_ok geometry occupied) scrubs /\ StronglySorted scrubs_apart scrubs /\
    Forall (range_settled geometry occupied scrubs) sample_stale) /\
  plan_stale_boot_sector_scrubs (with_root sample_geometry 4) sample_stale (replicate 252 false) =
    Ok [mkStaleBootSectorScrub (mkByteRange 20480 512) (Some 3);
        mkStaleBootSectorScrub (mkByteRange 1048064 512) (Some 253)].
Proof.
  split; [apply (scrubs_stay_clear 1048576 sample_options 1000 sample_geometry 4
    (replicate 252 false) sample_stale)|].
  - vm_compute. discriminate.
  - vm_compute. reflexivity.
  - vm_compute. reflexivity.
  - vm_compute. reflexivity.
Defined.

(** the clusters that are marked bad in the destination are distinct clusters
    of its heap, they contain every byte of every unusable range, and each of
    them contains a byte of one. *)
Theorem bad_clusters_covered volume_bytes options max g root ranges clusters :
  volume_bytes <= u64_max -> choose_geometry volume_bytes options max = Ok g ->
  let geometry := with_root g root in
  dest_exfat_bad_clusters geometry ranges = Ok clusters ->
  Forall (heap_cluster geometry) clusters /\ NoDup clusters /\
  (forall r p, r ∈ ranges -> in_range (br_offset r) (br_length r) p ->
     exists c, c ∈ clusters /\ in_cluster geometry c p) /\
  (forall c, c ∈ clusters ->
     exists r p, r ∈ ranges /\ in_range (br_offset r) (br_length r) p /\ in_cluster geometry c p).
Proof.
  intros Hv H geometry. apply dest_bad_clusters_Ok. by eapply chosen_geometry_fits.
Qed.

Lemma bad_clusters_covered_witness :
  let geometry := with_root sample_geometry 4 in
  let ranges := [mkByteRange 40000 1000; mkByteRange 20480 1] in
  let clusters := [3; 7; 8] in
  Forall (heap_cluster geometry) clusters /\ NoDup clusters /\
  (forall r p, r ∈ ranges -> in_range (br_offset r) (br_length r) p ->
     exists c, c ∈ clusters /\ in_cluster geometry c p) /\
  (forall c, c ∈ clusters ->
     exists r p, r ∈ ranges /\ in_range (br_offset r) (br_length r) p /\ in_cluster geometry c p).
Proof.
  apply (bad_clusters_covered 1048576 sample_options 1000 sample_geometry 4
    [mkByteRange 40000 1000; mkByteRange 20480 1] [3; 7; 8]).
  - vm_compute. discriminate.
  - vm_compute. reflexivity.
  - vm_compute. reflexivity.
Defined.
