(* ===== verification/ExfatUpcase.v ===== *)
(** * The exFAT up-case table

    The compressed table of case mappings and the operations on file names of
    [fs/exfat_upcase.rs].

    The theorems: a table is accepted exactly when its words spell a complete
    mapping of the 65,536 code units in the compressed grammar, with the ASCII
    letters mapped as required, and the table that is returned is that mapping;
    the plain encoding of a mapping is read back as the mapping; the search for
    duplicate names finds the first pair that agrees up to case. *)

From S2P Require Export Prelude Bytes Digest ExfatRegion.
From stdpp Require Import options.

#[local] Open Scope N_scope.

Definition UNICODE_MAPPING_COUNT : N := 65536.
Definition MAX_FILE_NAME_CODE_UNITS : N := 255.
Definition COMPRESSION_MARKER : N := 65535.
Definition ASCII_LOWERCASE_START : N := 97.
Definition ASCII_LOWERCASE_END : N := 122.
Definition ASCII_CASE_OFFSET : N := 32.

(** ** Data *)
Record UpcaseLimits : Type := mkUpcaseLimits {
  ul_max_encoded_bytes : N;
  ul_max_mappings : N
}.
Definition COMPLETE_TABLE : UpcaseLimits := mkUpcaseLimits (UNICODE_MAPPING_COUNT * 2) UNICODE_MAPPING_COUNT.

Record UpcaseTable : Type := mkUpcaseTable { ut_mappings : list N }.

Record DuplicateLimits : Type := mkDuplicateLimits {
  dl_max_names : N;
  dl_max_name_code_units : N;
  dl_max_comparisons : N
}.
Record DuplicateName : Type := mkDuplicateName {
  dn_first_index : N;
  dn_second_index : N;
  dn_name_hash : N
}.

Inductive UpcaseError : Type :=
| EncodedTableTooLarge (actual maximum : N)
| MappingLimitTooSmall (required maximum : N)
| EmptyTable
| OddByteLength (actual : N)
| ChecksumMismatch (expected actual : N)
| DanglingCompressionMarker (mapping_index : N)
| ZeroIdentityRun (mapping_index : N)
| IdentityRunOverflow (mapping_index run_length : N)
| ExtraMapping (encoded_word_index : N)
| IncompleteTable (mappings required : N)
| InvalidMandatoryMapping (code_unit expected actual : N)
| UpcaseAllocationFailed (mappings : N).

Inductive NameError : Type :=
| EmptyName
| InvalidNameLimit (requested maximum : N)
| NameTooLong (actual maximum : N)
| OutputTooSmall (required actual : N).

Inductive DuplicateError : Type :=
| DuplicateNameLimit (requested maximum : N)
| TooManyNames (actual maximum : N)
| DuplicateInvalidName (index : N) (source : NameError)
| ComparisonLimitExceeded (required_at_least maximum : N).

(** ** Reading a table *)
Definition table_checksum (encoded : list byte) : N := fold_left checksum_step encoded 0.

(** The words [encoded_word(encoded, 0)], [encoded_word(encoded, 1)], ... of a
    stream with an even number of bytes. *)
Fixpoint encoded_words (encoded : list byte) : list N :=
  match encoded with
  | low :: high :: encoded => le_num [low; high] :: encoded_words encoded
  | _ => []
  end.

(** [mapping_code_unit]: the conversion aborts outside the code units. *)
Definition mapping_code_unit {E : Type} (index : N) : outcome E N := expect (u16_try_from index).

Definition validate_mandatory (index actual : N) : outcome UpcaseError unit :=
  if 128 <=? index then Ok tt
  else
    code_unit ← mapping_code_unit index;
    expected ←
      (if (ASCII_LOWERCASE_START <=? index) && (index <=? ASCII_LOWERCASE_END)
       then sub_u64 code_unit ASCII_CASE_OFFSET else Ok code_unit);
    refuse_if (negb (actual =? expected)) (InvalidMandatoryMapping code_unit expected actual).

(** A marker starts a run, except that the last word of a table may be the
    mapping of U+FFFF. *)
Definition starts_run (word mapping_index : N) (rest : list N) : bool :=
  (word =? COMPRESSION_MARKER)
  && negb ((mapping_index =? UNICODE_MAPPING_COUNT - 1) && is_empty rest).

(** [for index in mapping_index..run_end.min(128)]. *)
Definition validate_run (mapping_index run_end : N) : outcome UpcaseError unit :=
  for_each (fun offset =>
    code_unit ← mapping_code_unit (mapping_index + offset);
    validate_mandatory (mapping_index + offset) code_unit)
    (indices (N.min run_end 128 - mapping_index)).

(** The loop of [validate_encoding]: [words] are the words from [word_index] on;
    the result is the final [mapping_index]. *)
Fixpoint validate_words (words : list N) (word_index mapping_index : N)
    : outcome UpcaseError N :=
  match words with
  | [] => Ok mapping_index
  | word :: rest =>
      refuse_if (mapping_index =? UNICODE_MAPPING_COUNT) (ExtraMapping word_index) ;;
      if starts_run word mapping_index rest then
        match rest with
        | [] => Err (DanglingCompressionMarker mapping_index)
        | run_length :: rest =>
            refuse_if (run_length =? 0) (ZeroIdentityRun mapping_index) ;;
            run_end ← ok_or (IdentityRunOverflow mapping_index run_length)
              (checked_add mapping_index run_length);
            refuse_if (UNICODE_MAPPING_COUNT <? run_end)
              (IdentityRunOverflow mapping_index run_length) ;;
            validate_run mapping_index run_end ;;
            validate_words rest (word_index + 2) run_end
        end
      else
        validate_mandatory mapping_index word ;;
        validate_words rest (word_index + 1) (mapping_index + 1)
  end.

Definition validate_encoding (encoded : list byte) : outcome UpcaseError unit :=
  mapping_index ← validate_words (encoded_words encoded) 0 0;
  refuse_if (negb (mapping_index =? UNICODE_MAPPING_COUNT))
    (IncompleteTable mapping_index UNICODE_MAPPING_COUNT).

Definition validate_table (encoded : list byte) (expected_checksum : N) (limits : UpcaseLimits)
    : outcome UpcaseError unit :=
  refuse_if (ul_max_encoded_bytes limits <? len encoded)
    (EncodedTableTooLarge (len encoded) (ul_max_encoded_bytes limits)) ;;
  refuse_if (ul_max_mappings limits <? UNICODE_MAPPING_COUNT)
    (MappingLimitTooSmall UNICODE_MAPPING_COUNT (ul_max_mappings limits)) ;;
  refuse_if (is_empty encoded) EmptyTable ;;
  refuse_if (negb (len encoded mod 2 =? 0)) (OddByteLength (len encoded)) ;;
  let actual_checksum := table_checksum encoded in
  refuse_if (negb (actual_checksum =? expected_checksum))
    (ChecksumMismatch expected_checksum actual_checksum) ;;
  validate_encoding encoded.

(** [decode_valid_table] calls the visitor on the code units in order with their
    mappings; the result is the list of mappings it is called with. *)
Fixpoint decode_words {E : Type} (words : list N) (mapping_index : N) : outcome E (list N) :=
  match words with
  | [] => Ok []
  | word :: rest =>
      if starts_run word mapping_index rest then
        match rest with
        | [] => Panic
        | run_length :: rest =>
            run_end ← add_u64 mapping_index run_length;
            run ← try_fold (fun run offset =>
                     code_unit ← mapping_code_unit (mapping_index + offset);
                     Ok (run ++ [code_unit])) [] (indices (run_end - mapping_index));
            mappings ← decode_words rest run_end;
            Ok (run ++ mappings)
        end
      else
        _ ← mapping_code_unit mapping_index;
        mappings ← decode_words rest (mapping_index + 1);
        Ok (word :: mappings)
  end.
Definition decode_valid_table (encoded : list byte) : outcome UpcaseError (list N) :=
  decode_words (encoded_words encoded) 0.

Definition UpcaseTable_parse (encoded : list byte) (expected_checksum : N) (limits : UpcaseLimits)
    : outcome UpcaseError UpcaseTable :=
  validate_table encoded expected_checksum limits ;;
  mappings ← decode_valid_table encoded;
  Ok (mkUpcaseTable mappings).

(** [visit_mappings] with a visitor that collects its arguments. *)
Definition visit_mappings (encoded : list byte) (expected_checksum : N) (limits : UpcaseLimits)
    : outcome UpcaseError (list N) :=
  validate_table encoded expected_checksum limits ;;
  decode_valid_table encoded.

(** ** Names *)
Definition UpcaseTable_map {E : Type} (table : UpcaseTable) (code_unit : N) : outcome E N :=
  at_index (ut_mappings table) code_unit.

Definition validate_upcase_name (name : list N) (max_code_units : N) : outcome NameError unit :=
  refuse_if (MAX_FILE_NAME_CODE_UNITS <? max_code_units)
    (InvalidNameLimit max_code_units MAX_FILE_NAME_CODE_UNITS) ;;
  refuse_if (is_empty name) EmptyName ;;
  refuse_if (max_code_units <? len name) (NameTooLong (len name) max_code_units).

(** The code units of a name, mapped one by one. *)
Fixpoint map_name {E : Type} (table : UpcaseTable) (name : list N) : outcome E (list N) :=
  match name with
  | [] => Ok []
  | code_unit :: name =>
      mapped ← UpcaseTable_map table code_unit; rest ← map_name table name; Ok (mapped :: rest)
  end.

(** The name's length and the output with its first code units overwritten. *)
Definition upcase_name_into (table : UpcaseTable) (name output : list N) (max_code_units : N)
    : outcome NameError (N * list N) :=
  validate_upcase_name name max_code_units ;;
  refuse_if (len output <? len name) (OutputTooSmall (len name) (len output)) ;;
  mapped ← map_name table name;
  Ok (len name, mapped ++ drop (length name) output).

(** [u16::rotate_right(1)]. *)
Definition rotate_right_u16 (x : N) : N := N.lor (N.shiftr x 1) (N.shiftl (N.land x 1) 15).
Definition hash_step (hash : N) (byte : byte) : N :=
  (rotate_right_u16 hash + Byte.to_N byte) mod 2 ^ 16.

Definition name_hash (table : UpcaseTable) (name : list N) (max_code_units : N)
    : outcome NameError N :=
  validate_upcase_name name max_code_units ;;
  mapped ← map_name table name;
  Ok (fold_left (fun hash unit => fold_left hash_step (u16_le unit) hash) mapped 0).

(** [zip(..).all(|(left, right)| self.map(left) == self.map(right))]. *)
Fixpoint all_mapped_equal {E : Type} (table : UpcaseTable) (xs ys : list N) : outcome E bool :=
  match xs, ys with
  | x :: xs, y :: ys =>
      mx ← UpcaseTable_map table x; my ← UpcaseTable_map table y;
      if mx =? my then all_mapped_equal table xs ys else Ok false
  | _, _ => Ok true
  end.

(** The body of the inner loop of [find_duplicate_names]: the number of
    comparisons so far and the duplicate that was found, if any. *)
Definition compare_names (table : UpcaseTable) (names : list (list N)) (limits : DuplicateLimits)
    (second second_hash : N) (state : N * option DuplicateName) (first : N)
    : outcome DuplicateError (N * option DuplicateName) :=
  match state with
  | (_, Some _) => Ok state
  | (comparisons, None) =>
      comparisons ← ok_or (ComparisonLimitExceeded usize_max (dl_max_comparisons limits))
        (checked_add comparisons 1);
      refuse_if (dl_max_comparisons limits <? comparisons)
        (ComparisonLimitExceeded comparisons (dl_max_comparisons limits)) ;;
      first_name ← at_index names first;
      second_name ← at_index names second;
      first_hash ← map_err (DuplicateInvalidName first)
        (name_hash table first_name (dl_max_name_code_units limits));
      same ← (if (first_hash =? second_hash) && (len first_name =? len second_name)
              then all_mapped_equal table first_name second_name else Ok false);
      Ok (comparisons,
          if same : bool then Some (mkDuplicateName first second first_hash) else None)
  end.

(** One round of the outer loop. *)
Definition compare_with_earlier (table : UpcaseTable) (names : list (list N))
    (limits : DuplicateLimits) (state : N * option DuplicateName) (second : N)
    : outcome DuplicateError (N * option DuplicateName) :=
  match state with
  | (_, Some _) => Ok state
  | (_, None) =>
      name ← at_index names second;
      second_hash ← map_err (DuplicateInvalidName second)
        (name_hash table name (dl_max_name_code_units limits));
      try_fold (compare_names table names limits second second_hash) state (indices second)
  end.

Definition find_duplicate_names (table : UpcaseTable) (names : list (list N))
    (limits : DuplicateLimits) : outcome DuplicateError (option DuplicateName) :=
  refuse_if (MAX_FILE_NAME_CODE_UNITS <? dl_max_name_code_units limits)
    (DuplicateNameLimit (dl_max_name_code_units limits) MAX_FILE_NAME_CODE_UNITS) ;;
  refuse_if (dl_max_names limits <? len names) (TooManyNames (len names) (dl_max_names limits)) ;;
  for_each (fun '(index, name) =>
    map_err (DuplicateInvalidName index)
      (validate_upcase_name name (dl_max_name_code_units limits))) (enumerate names) ;;
  state ← try_fold (compare_with_earlier table names limits) (0, None)
    ((fun i => i + 1) <$> indices (len names - 1));
  Ok (snd state).

(** ** Specification *)

(** The mapping that the specification requires of the first 128 code units. *)
Definition ascii_upper (unit : N) : N :=
  if (97 <=? unit) && (unit <=? 122) then unit - 32 else unit.
Definition mandatory (index mapping : N) : Prop := index < 128 -> mapping = ascii_upper index.
(** [i, i + 1, ..., i + n - 1]. *)
Definition identity_run (i n : N) : list N := (fun k => i + k) <$> indices n.

(** [spells i words l]: from code unit [i] on, the words stand for the mappings
    [l]. *)
Inductive spells : N -> list N -> list N -> Prop :=
| spells_end i : spells i [] []
| spells_word i word words l :
    i < UNICODE_MAPPING_COUNT ->
    word <> COMPRESSION_MARKER \/ (i = UNICODE_MAPPING_COUNT - 1 /\ words = []) ->
    mandatory i word -> spells (i + 1) words l -> spells i (word :: words) (word :: l)
| spells_run i n words l :
    i < UNICODE_MAPPING_COUNT -> 0 < n -> i + n <= UNICODE_MAPPING_COUNT ->
    (forall j, i <= j < i + n -> mandatory j j) -> spells (i + n) words l ->
    spells i (COMPRESSION_MARKER :: n :: words) (identity_run i n ++ l).

(** * Lemmas *)

(** ** Words *)
Lemma mapping_code_unit_in {E} i : i < UNICODE_MAPPING_COUNT -> @mapping_code_unit E i = Ok i.
Proof.
  unfold UNICODE_MAPPING_COUNT, mapping_code_unit. intros. widths.
  by rewrite (proj2 (u16_try_from_Some i i)) by lia.
Qed.

Lemma validate_mandatory_spec i w :
  i < UNICODE_MAPPING_COUNT ->
  validate_mandatory i w <> Panic /\ forall u, validate_mandatory i w = Ok u <-> mandatory i w.
Proof.
  intros Hi. unfold validate_mandatory, mandatory, ascii_upper.
  destruct (N.leb_spec 128 i) as [Hl|Hl].
  { split; [done |]. intros []. split; [lia | done]. }
  rewrite mapping_code_unit_in by done. cbn [mbind outcome_bind].
  unfold ASCII_LOWERCASE_START, ASCII_LOWERCASE_END, ASCII_CASE_OFFSET.
  destruct ((97 <=? i) && (i <=? 122)) eqn:Hr.
  - bool_props. rewrite sub_u64_in by lia. cbn [mbind outcome_bind].
    split; [apply refuse_if_safe |]. intros u. rewrite refuse_if_Ok, negb_false_iff, N.eqb_eq. tauto.
  - cbn [mbind outcome_bind]. split; [apply refuse_if_safe |]. intros u.
    rewrite refuse_if_Ok, negb_false_iff, N.eqb_eq. tauto.
Qed.

Lemma validate_run_spec i n :
  i + n <= UNICODE_MAPPING_COUNT ->
  validate_run i (i + n) <> Panic /\
  forall u, validate_run i (i + n) = Ok u <-> forall j, i <= j < i + n -> mandatory j j.
Proof.
  intros Hi. unfold validate_run. split.
  - apply for_each_safe. intros k Hk%elem_of_indices.
    rewrite mapping_code_unit_in by lia. cbn [mbind outcome_bind].
    apply validate_mandatory_spec. lia.
  - intros u. rewrite for_each_Ok, Forall_forall. split.
    + intros H j Hj Hj128. specialize (H (j - i)). rewrite elem_of_indices in H.
      specialize (H ltac:(lia)). replace (i + (j - i)) with j in H by lia.
      rewrite mapping_code_unit_in in H by lia. cbn [mbind outcome_bind] in H.
      apply (proj2 (validate_mandatory_spec j j ltac:(lia)) tt) in H. by apply H.
    + intros H k Hk%elem_of_indices. rewrite mapping_code_unit_in by lia. cbn [mbind outcome_bind].
      apply validate_mandatory_spec; [lia |]. apply H. lia.
Qed.

Lemma len_identity_run i n : len (identity_run i n) = n.
Proof. unfold identity_run, indices, len. rewrite !length_fmap, length_seq. lia. Qed.

Lemma spells_bound i words l :
  spells i words l -> i <= UNICODE_MAPPING_COUNT -> i + len l <= UNICODE_MAPPING_COUNT.
Proof.
  induction 1 as [i|i w words l Hi Hw Hm _ IH|i n words l Hi Hn Hle Hm _ IH]; intros Hb.
  - rewrite len_nil. lia.
  - rewrite len_cons. specialize (IH ltac:(lia)). lia.
  - rewrite len_app, len_identity_run. specialize (IH ltac:(lia)). lia.
Qed.

Lemma starts_run_true w i rest :
  starts_run w i rest = true <->
  w = COMPRESSION_MARKER /\ ~ (i = UNICODE_MAPPING_COUNT - 1 /\ rest = []).
Proof.
  unfold starts_run. rewrite andb_true_iff, negb_true_iff, N.eqb_eq, andb_false_iff, N.eqb_neq.
  destruct rest; simpl; intuition (try done).
Qed.

Lemma starts_run_false w i rest :
  starts_run w i rest = false <->
  w <> COMPRESSION_MARKER \/ (i = UNICODE_MAPPING_COUNT - 1 /\ rest = []).
Proof.
  rewrite <- not_true_iff_false, starts_run_true.
  destruct (N.eq_dec w COMPRESSION_MARKER), (N.eq_dec i (UNICODE_MAPPING_COUNT - 1)), rest; naive_solver.
Qed.

(** What the first words of a spelling say. *)
Lemma spells_nil_inv i l : spells i [] l -> l = [].
Proof. by inversion 1. Qed.
Lemma spells_full_inv w words l : ~ spells UNICODE_MAPPING_COUNT (w :: words) l.
Proof. intros H. inversion H; subst; lia. Qed.
Lemma spells_run_inv i n words l :
  spells i (COMPRESSION_MARKER :: n :: words) l ->
  0 < n /\ i + n <= UNICODE_MAPPING_COUNT /\ (forall j, i <= j < i + n -> mandatory j j) /\
  exists l', l = identity_run i n ++ l' /\ spells (i + n) words l'.
Proof.
  inversion 1 as [|? ? ? ? _ [Hw|[_ Hw]]|]; subst; [done | done |].
  split_and!; [done | done | done |]. eexists. by split.
Qed.
Lemma spells_word_inv i w words l :
  w <> COMPRESSION_MARKER \/ (i = UNICODE_MAPPING_COUNT - 1 /\ words = []) ->
  spells i (w :: words) l -> mandatory i w /\ exists l', l = w :: l' /\ spells (i + 1) words l'.
Proof.
  intros Hlit. inversion 1; subst; [split; [done |]; eexists; by split |].
  destruct Hlit as [?|[_ ?]]; done.
Qed.
Lemma dangling_marker i l : i <> UNICODE_MAPPING_COUNT - 1 -> ~ spells i [COMPRESSION_MARKER] l.
Proof. intros Hi H. inversion H as [|? ? ? ? _ [Hw|[Hw _]]|]; done. Qed.

(** The check of the words from some index on: it does not panic, and it accepts
    them exactly when they spell mappings. *)
Definition words_checked (words : list N) (i : N) (m : outcome UpcaseError N) : Prop :=
  m <> Panic /\ forall e, m = Ok e <-> exists l, spells i words l /\ e = i + len l.

Lemma refused_words words i e : (forall l, ~ spells i words l) -> words_checked words i (Err e).
Proof. intros H. split; [done |]. intros x. split; [done |]. intros (l & Hl & _). by apply H in Hl. Qed.

Lemma run_checked i n words m :
  i < UNICODE_MAPPING_COUNT -> 0 < n -> i + n <= UNICODE_MAPPING_COUNT ->
  words_checked words (i + n) m ->
  words_checked (COMPRESSION_MARKER :: n :: words) i (validate_run i (i + n) ;; m).
Proof.
  intros Hlt Hn Hb [Hs Hl]. destruct (validate_run_spec i n Hb) as [Hvs Hvo].
  destruct (validate_run i (i + n)) as [[]|e0|]; [| |done]; cbn [mbind outcome_bind].
  - split; [done |]. intros e. rewrite Hl. split.
    + intros (l & H1 & ->). exists (identity_run i n ++ l). split.
      * constructor; try done. by apply (Hvo tt).
      * rewrite len_app, len_identity_run. lia.
    + intros (l & H1 & ->). apply spells_run_inv in H1 as (_ & _ & _ & l' & -> & H1).
      exists l'. split; [done |]. rewrite len_app, len_identity_run. lia.
  - apply refused_words. intros l H1. apply spells_run_inv in H1 as (_ & _ & Hm & _).
    by apply (Hvo tt) in Hm.
Qed.
Lemma word_checked i w words m :
  i < UNICODE_MAPPING_COUNT ->
  w <> COMPRESSION_MARKER \/ (i = UNICODE_MAPPING_COUNT - 1 /\ words = []) ->
  words_checked words (i + 1) m ->
  words_checked (w :: words) i (validate_mandatory i w ;; m).
Proof.
  intros Hlt Hlit [Hs Hl]. destruct (validate_mandatory_spec i w Hlt) as [Hvs Hvo].
  destruct (validate_mandatory i w) as [[]|e0|]; [| |done]; cbn [mbind outcome_bind].
  - split; [done |]. intros e. rewrite Hl. split.
    + intros (l & H1 & ->). exists (w :: l). split; [|rewrite len_cons; lia].
      constructor; try done. by apply (Hvo tt).
    + intros (l & H1 & ->). apply spells_word_inv in H1 as (_ & l' & -> & H1); [|done].
      exists l'. split; [done |]. rewrite len_cons. lia.
  - apply refused_words. intros l H1. apply spells_word_inv in H1 as [Hm _]; [|done].
    by apply (Hvo tt) in Hm.
Qed.

Lemma validate_words_spec words wi i :
  i <= UNICODE_MAPPING_COUNT -> words_checked words i (validate_words words wi i).
Proof.
  remember (length words) as n eqn:Hn. assert (length words <= n)%nat as Hle by lia. clear Hn.
  revert words wi i Hle. induction n as [|n IH]; intros words wi i Hle Hi;
    (destruct words as [|w words]; [split; [done |]; intros e; split; [|]|]).
  1,4: intros [= <-]; exists []; split; [constructor | rewrite len_nil; lia].
  1,3: intros (l & ->%spells_nil_inv & ->); rewrite len_nil; simpl; f_equal; lia.
  { simpl in Hle. lia. }
  cbn [validate_words]. simpl in Hle.
  destruct (N.eqb_spec i UNICODE_MAPPING_COUNT) as [->|Hne].
  { apply refused_words, spells_full_inv. }
  assert (Hlt : i < UNICODE_MAPPING_COUNT) by lia. cbn [refuse_if mbind outcome_bind].
  destruct (starts_run w i words) eqn:Hrun.
  2: { apply word_checked; [done | by apply starts_run_false | apply IH; lia]. }
  apply starts_run_true in Hrun as [-> Hlast]. destruct words as [|n0 words].
  { apply refused_words. intros l. apply dangling_marker. naive_solver. }
  destruct (N.eqb_spec n0 0) as [->|Hn0].
  { apply refused_words. intros l Hs. apply spells_run_inv in Hs as [? _]. lia. }
  cbn [refuse_if mbind outcome_bind]. unfold checked_add.
  destruct (N.leb_spec (i + n0) u64_max) as [Hu|Hu]; cbn [ok_or mbind outcome_bind].
  2: { apply refused_words. intros l Hs. apply spells_run_inv in Hs as (_ & H1 & _).
       unfold UNICODE_MAPPING_COUNT in *. widths. lia. }
  destruct (N.ltb_spec UNICODE_MAPPING_COUNT (i + n0)) as [Hb|Hb]; cbn [refuse_if mbind outcome_bind].
  { apply refused_words. intros l Hs. apply spells_run_inv in Hs as (_ & H1 & _). lia. }
  apply run_checked; [done | lia | done |]. apply IH; [simpl in Hle; lia | lia].
Qed.

Lemma decode_words_spells {E} i words l : spells i words l -> @decode_words E words i = Ok l.
Proof.
  induction 1 as [i|i w words l Hi Hw Hm _ IH|i n words l Hi Hn Hle Hm _ IH]; cbn [decode_words].
  - done.
  - rewrite (proj2 (starts_run_false w i words) Hw), mapping_code_unit_in by done.
    cbn [mbind outcome_bind]. by rewrite IH.
  - rewrite (proj2 (starts_run_true _ i (n :: words))) by naive_solver.
    rewrite add_u64_in by (unfold UNICODE_MAPPING_COUNT in *; widths; lia). cbn [mbind outcome_bind].
    replace (i + n - i) with n by lia.
    assert (Hf : forall k acc, k <= n -> try_fold (fun run offset =>
        code_unit ← @mapping_code_unit E (i + offset); Ok (run ++ [code_unit])) acc (indices k)
      = Ok (acc ++ identity_run i k)).
    { intros k acc. induction k as [|k IHk] using N.peano_ind; intros Hk.
      - simpl. by rewrite app_nil_r.
      - rewrite <- N.add_1_r. unfold identity_run. rewrite indices_succ, try_fold_app, IHk by lia.
        cbn [mbind outcome_bind try_fold]. rewrite mapping_code_unit_in by lia.
        cbn [mbind outcome_bind]. by rewrite fmap_app, <- app_assoc. }
    rewrite Hf by done. cbn [mbind outcome_bind]. rewrite IH. done.
Qed.

Lemma even_length_words (l : list byte) :
  len l mod 2 = 0 -> exists words, l = concat (u16_le <$> words) /\ encoded_words l = words /\
    Forall (fun w => w <= u16_max) words.
Proof.
  intros Hl. assert (Hn : exists n, length l = (2 * n)%nat).
  { exists (N.to_nat (len l / 2)). pose proof (N.Div0.div_mod (len l) 2). unfold len in *. lia. }
  destruct Hn as [n Hn]. clear Hl. revert l Hn. induction n as [|n IH]; intros l Hn.
  - destruct l; [|simpl in Hn; lia]. exists []. done.
  - destruct l as [|a [|b l]]; [simpl in Hn; lia..|]. destruct (IH l ltac:(simpl in Hn; lia)) as (ws & He & Hw & Hf).
    exists (le_num [a; b] :: ws). cbn [encoded_words]. split_and!.
    + rewrite fmap_cons. cbn [concat]. rewrite u16_le_num by done. by rewrite <- He.
    + by rewrite Hw.
    + constructor; [|done]. widths. pose proof (le_num_bound [a; b]) as Hb. change (256 ^ len [a; b]) with 65536 in Hb. lia.
Qed.
Lemma encoded_words_concat words :
  Forall (fun w => w <= u16_max) words -> encoded_words (concat (u16_le <$> words)) = words.
Proof.
  induction 1 as [|w words Hw _ IH]; [done |]. rewrite fmap_cons. cbn [concat].
  pose proof (le_num_u16 w Hw) as He. change (u16_le w) with [byte_of_N w; byte_of_N (w / 256)] in *.
  cbn [app encoded_words]. by rewrite IH, He.
Qed.

(** A complete table: 65,536 mappings, the first 128 as required. *)
Lemma spells_mandatory i words l j x :
  spells i words l -> l !! j = Some x -> mandatory (i + N.of_nat j) x.
Proof.
  intros H. revert j. induction H as [i|i w words l Hi Hw Hm _ IH|i n words l Hi Hn Hle Hm _ IH];
    intros j Hj; [done | |].
  - destruct j as [|j]; simpl in Hj; [by injection Hj as ->; rewrite N.add_0_r |].
    apply IH in Hj. by replace (i + N.of_nat (S j)) with (i + 1 + N.of_nat j) by lia.
  - destruct (decide (j < length (identity_run i n))%nat) as [Hlt|Hge].
    + rewrite lookup_app_l in Hj by done. pose proof (len_identity_run i n) as Hlen. unfold len in Hlen.
      unfold identity_run, indices in Hj. rewrite !list_lookup_fmap, lookup_seq_lt in Hj by lia.
      injection Hj as <-. simpl. apply Hm. lia.
    + rewrite lookup_app_r in Hj by lia. apply IH in Hj.
      pose proof (len_identity_run i n) as Hlen. unfold len in Hlen.
      by replace (i + N.of_nat j) with (i + n + N.of_nat (j - length (identity_run i n))) by lia.
Qed.
Lemma spells_width i words l :
  spells i words l -> Forall (fun w => w <= u16_max) words -> Forall (fun x => x <= u16_max) l.
Proof.
  intros H. induction H as [i|i w words l Hi Hw Hm _ IH|i n words l Hi Hn Hle Hm _ IH]; intros Hf.
  - constructor.
  - apply Forall_cons in Hf as [H1 H2]. constructor; auto.
  - apply Forall_cons in Hf as [_ Hf]. apply Forall_cons in Hf as [_ Hf]. apply Forall_app.
    split; [|by apply IH]. apply Forall_forall. intros x Hx. unfold identity_run in Hx.
    apply list_elem_of_fmap in Hx as (k & -> & Hk%elem_of_indices).
    unfold UNICODE_MAPPING_COUNT in *. widths. lia.
Qed.

(** What a caller may accept. *)
Record table_admissible (encoded : list byte) (checksum : N) (limits : UpcaseLimits) : Prop := {
  ta_size : 0 < len encoded <= ul_max_encoded_bytes limits;
  ta_even : len encoded mod 2 = 0;
  ta_mappings : UNICODE_MAPPING_COUNT <= ul_max_mappings limits;
  ta_checksum : table_checksum encoded = checksum
}.

Lemma validate_encoding_spec encoded :
  validate_encoding encoded <> Panic /\
  forall u, validate_encoding encoded = Ok u <->
    exists l, spells 0 (encoded_words encoded) l /\ len l = UNICODE_MAPPING_COUNT.
Proof.
  unfold validate_encoding.
  destruct (validate_words_spec (encoded_words encoded) 0 0 ltac:(unfold UNICODE_MAPPING_COUNT; lia)) as [Hs Hl].
  destruct (validate_words (encoded_words encoded) 0 0) as [e|e|] eqn:Hv; [| |done]; cbn [mbind outcome_bind].
  - split; [apply refuse_if_safe |]. intros u. rewrite refuse_if_Ok, negb_false_iff, N.eqb_eq. split.
    + intros He. destruct (proj1 (Hl e) eq_refl) as (l & H1 & H2). exists l. split; [done | lia].
    + intros (l & H1 & H2). assert (Ok e = @Ok UpcaseError N (0 + len l)) as [= ->]; [|done].
      apply Hl. eauto.
  - split; [done |]. intros u. split; [done |]. intros (l & H1 & H2).
    assert (@Err UpcaseError N e = Ok (0 + len l)) by (apply Hl; eauto). done.
Qed.

Lemma is_empty_false_len {A} (l : list A) : is_empty l = false <-> 0 < len l.
Proof. destruct l; unfold len; simpl; split; (done || lia). Qed.

Lemma validate_table_spec encoded checksum limits :
  validate_table encoded checksum limits <> Panic /\
  forall u, validate_table encoded checksum limits = Ok u <->
    table_admissible encoded checksum limits /\
    exists l, spells 0 (encoded_words encoded) l /\ len l = UNICODE_MAPPING_COUNT.
Proof.
  destruct (validate_encoding_spec encoded) as [Hs Hl]. unfold validate_table. split.
  - safe. done.
  - intros u. split.
    + intros H. inv_ok. bool_props. apply Hl in H. split; [|done].
      match goal with H : is_empty _ = false |- _ => apply is_empty_false_len in H end.
      split; [lia | done | lia | done].
    + intros [[H1 H2 H3 H4] Hsp].
      do 2 ok_step.
      eapply bind_step; [apply refuse_step, is_empty_false_len; lia | cbv beta].
      eapply bind_step; [apply refuse_step; rewrite H2; reflexivity | cbv beta].
      eapply bind_step; [apply refuse_step; rewrite H4, N.eqb_refl; reflexivity | cbv beta].
      by apply Hl.
Qed.

Lemma parse_table_spec encoded checksum limits :
  UpcaseTable_parse encoded checksum limits <> Panic /\
  forall t, UpcaseTable_parse encoded checksum limits = Ok t <->
    table_admissible encoded checksum limits /\
    spells 0 (encoded_words encoded) (ut_mappings t) /\ len (ut_mappings t) = UNICODE_MAPPING_COUNT.
Proof.
  destruct (validate_table_spec encoded checksum limits) as [Hs Hl].
  unfold UpcaseTable_parse, decode_valid_table.
  destruct (validate_table encoded checksum limits) as [[]|e|] eqn:Hv; [| |done]; cbn [mbind outcome_bind].
  - destruct (proj1 (Hl tt) eq_refl) as (Ha & l & H1 & H2).
    rewrite (decode_words_spells _ _ _ H1). cbn [mbind outcome_bind]. split; [done |].
    intros t. split; [by intros [= <-] |]. intros (_ & H3 & H4).
    apply (@decode_words_spells UpcaseError) in H1, H3. rewrite H1 in H3. injection H3 as ->. by destruct t.
  - split; [done |]. intros t. split; [done |]. intros (Ha & H1 & H2).
    assert (@Err UpcaseError unit e = Ok tt) by (apply Hl; eauto). done.
Qed.

(** ** Names *)
Definition complete_table (table : UpcaseTable) : Prop := len (ut_mappings table) = UNICODE_MAPPING_COUNT.
Definition code_units (name : list N) : Prop := Forall (fun u => u <= u16_max) name.
(** The name under the table. *)
Definition upcased (table : UpcaseTable) (name : list N) : list N :=
  (fun u => default 0 (ut_mappings table !! N.to_nat u)) <$> name.
Definition hash_of (units : list N) : N :=
  fold_left (fun hash unit => fold_left hash_step (u16_le unit) hash) units 0.

Section Names.
#[local] Set Default Proof Using "Type".
Context (table : UpcaseTable) (Ht : complete_table table).

Lemma table_map_in {E} u :
  u <= u16_max -> @UpcaseTable_map E table u = Ok (default 0 (ut_mappings table !! N.to_nat u)).
Proof using Ht.
  intros Hu. unfold UpcaseTable_map. unfold complete_table, UNICODE_MAPPING_COUNT in Ht. widths.
  destruct (lookup_lt_is_Some_2 (ut_mappings table) (N.to_nat u)) as [x Hx]; [unfold len in Ht; lia |].
  rewrite Hx. by apply at_index_Ok.
Qed.
Lemma map_name_in {E} name : code_units name -> @map_name E table name = Ok (upcased table name).
Proof using Ht.
  induction 1 as [|u name Hu _ IH]; [done |]. cbn [map_name]. rewrite table_map_in by done.
  cbn [mbind outcome_bind]. by rewrite IH.
Qed.
Lemma all_mapped_equal_in {E} xs ys :
  code_units xs -> code_units ys -> len xs = len ys ->
  @all_mapped_equal E table xs ys = Ok (bool_decide (upcased table xs = upcased table ys)).
Proof using Ht.
  intros Hx. revert ys. induction Hx as [|x xs Hx _ IH]; intros ys Hy Hl.
  - destruct ys; [done | unfold len in Hl; simpl in Hl; lia].
  - destruct ys as [|y ys]; [unfold len in Hl; simpl in Hl; lia |]. rewrite !len_cons in Hl.
    apply Forall_cons in Hy as [Hy Hys]. cbn [all_mapped_equal]. rewrite !table_map_in by done.
    cbn [mbind outcome_bind]. unfold upcased. rewrite !fmap_cons.
    destruct (N.eqb_spec (default 0 (ut_mappings table !! N.to_nat x))
      (default 0 (ut_mappings table !! N.to_nat y))) as [He|Hne].
    + rewrite IH by (done || lia). f_equal. apply bool_decide_ext. rewrite He. split; [intros H; f_equal; exact H | by intros [= ?]].
    + rewrite bool_decide_false; [done |]. intros [=]. done.
Qed.

Definition name_ok (max : N) (name : list N) : Prop := 0 < len name <= max /\ max <= MAX_FILE_NAME_CODE_UNITS.
Lemma validate_name_Ok name max u : validate_upcase_name name max = Ok u <-> name_ok max name.
Proof.
  unfold validate_upcase_name, name_ok. destruct u. split.
  - intros H. inv_ok. bool_props.
    match goal with H : is_empty _ = false |- _ => apply is_empty_false_len in H end. lia.
  - intros [[H1 H2] H3]. ok_step. eapply bind_step; [by apply refuse_step, is_empty_false_len | cbv beta].
    apply refuse_step, N.ltb_ge. lia.
Qed.
Lemma name_hash_in name max :
  code_units name -> name_ok max name -> name_hash table name max = Ok (hash_of (upcased table name)).
Proof using Ht.
  intros Hu Hn. unfold name_hash. rewrite (proj2 (validate_name_Ok name max tt)) by done.
  cbn [mbind outcome_bind]. by rewrite map_name_in.
Qed.
Lemma upcased_length name : len (upcased table name) = len name.
Proof. unfold upcased, len. by rewrite length_fmap. Qed.
End Names.

Section Duplicates.
#[local] Set Default Proof Using "All".
Context (table : UpcaseTable) (Ht : complete_table table).
Context (names : list (list N)) (limits : DuplicateLimits).
Context (Hunits : Forall code_units names).
Context (Hnames : Forall (name_ok (dl_max_name_code_units limits)) names).
Context (Hcount : len names <= u32_max).

(** Names [i] and [j] agree up to case. *)
Definition same_name (i j : N) : Prop :=
  exists x y, names !! N.to_nat i = Some x /\ names !! N.to_nat j = Some y /\
    upcased table x = upcased table y.

Lemma get_name i : i < len names ->
  exists x, names !! N.to_nat i = Some x /\ code_units x /\ name_ok (dl_max_name_code_units limits) x.
Proof.
  intros Hi. destruct (lookup_lt_is_Some_2 names (N.to_nat i)) as [x Hx]; [unfold len in Hi; lia |].
  exists x. rewrite Forall_lookup in Hunits, Hnames. eauto.
Qed.

(** The state after the pairs of [second] with the first [k] names. *)
Definition compared (second k comparisons : N) (state : N * option DuplicateName) : Prop :=
  match snd state with
  | None => fst state = comparisons + k /\ forall i, i < k -> ~ same_name i second
  | Some d => dn_second_index d = second /\ dn_first_index d < k /\
      same_name (dn_first_index d) second /\
      (forall i, i < dn_first_index d -> ~ same_name i second) /\
      exists x, names !! N.to_nat second = Some x /\ dn_name_hash d = hash_of (upcased table x)
  end.

Lemma compare_names_round second y comparisons k state :
  names !! N.to_nat second = Some y -> second < len names -> k < second ->
  compared second k comparisons state -> comparisons + k < u64_max ->
  match compare_names table names limits second (hash_of (upcased table y)) state k with
  | Ok state' => compared second (k + 1) comparisons state'
  | Err e => dl_max_comparisons limits < comparisons + (k + 1) /\
             e = ComparisonLimitExceeded (comparisons + (k + 1)) (dl_max_comparisons limits)
  | Panic => False
  end.
Proof.
  intros Hy Hs Hk Hst Hc. destruct state as [c [d|]]; unfold compared in Hst; cbn [fst snd] in Hst.
  { cbn [compare_names]. unfold compared. cbn [snd]. destruct Hst as (? & ? & ? & ? & ?).
    split_and!; (done || lia). }
  destruct Hst as [-> Hno]. cbn [compare_names]. rewrite checked_add_in by lia.
  cbn [ok_or mbind outcome_bind]. rewrite <- N.add_assoc.
  destruct (N.ltb_spec (dl_max_comparisons limits) (comparisons + (k + 1))) as [Hb|Hb];
    cbn [refuse_if mbind outcome_bind]; [done |].
  destruct (get_name k ltac:(lia)) as (x & Hx & Hxu & Hxn).
  destruct (get_name second Hs) as (y' & Hy' & Hyu & Hyn). rewrite Hy in Hy'. injection Hy' as <-.
  rewrite (proj2 (at_index_Ok _ _ _) Hx), (proj2 (at_index_Ok _ _ _) Hy). cbn [mbind outcome_bind].
  rewrite name_hash_in by done. cbn [map_err mbind outcome_bind].
  assert (Hsame : same_name k second <-> upcased table x = upcased table y).
  { split; [|intros; by exists x, y]. intros (x' & y' & H1 & H2 & He). congruence. }
  assert (Hres : (if (hash_of (upcased table x) =? hash_of (upcased table y)) && (len x =? len y)
                  then @all_mapped_equal DuplicateError table x y else Ok false) =
                 Ok (bool_decide (upcased table x = upcased table y))).
  { destruct (decide (upcased table x = upcased table y)) as [He|Hne].
    - assert (Hl : len x = len y) by (rewrite <- (upcased_length table x), He; apply upcased_length).
      rewrite He, !N.eqb_refl, Hl, N.eqb_refl. cbn [andb]. rewrite all_mapped_equal_in by done.
      by rewrite He.
    - rewrite (bool_decide_false _ Hne). destruct (_ && _) eqn:Hand; [|done]. bool_props.
      rewrite all_mapped_equal_in by done. by rewrite bool_decide_false. }
  rewrite Hres. cbn [mbind outcome_bind]. unfold compared. cbn [fst snd].
  destruct (decide (upcased table x = upcased table y)) as [He|Hne].
  - rewrite bool_decide_true by done. cbn [dn_second_index dn_first_index dn_name_hash].
    split_and!; [done | lia | by apply Hsame | done |]. exists y. split; [done |]. by rewrite He.
  - rewrite bool_decide_false by done. split; [done |]. intros i Hi.
    destruct (N.eq_dec i k) as [->|]; [by rewrite Hsame | apply Hno; lia].
Qed.

Lemma compare_names_all second y comparisons k :
  names !! N.to_nat second = Some y -> second < len names -> k <= second ->
  comparisons + k <= u64_max ->
  match try_fold (compare_names table names limits second (hash_of (upcased table y)))
          (comparisons, None) (indices k) with
  | Ok state => compared second k comparisons state
  | Err e => dl_max_comparisons limits < comparisons + k /\
             exists n, e = ComparisonLimitExceeded n (dl_max_comparisons limits)
  | Panic => False
  end.
Proof.
  intros Hy Hs. induction k as [|k IH] using N.peano_ind; intros Hk Hc.
  { simpl. unfold compared. simpl. split; [lia |]. lia. }
  rewrite <- N.add_1_r in *. rewrite indices_succ, try_fold_app.
  destruct (try_fold _ _ (indices k)) as [state|e|] eqn:Hf; [| |by apply IH; lia].
  - cbn [mbind outcome_bind try_fold].
    pose proof (compare_names_round second y comparisons k state Hy Hs ltac:(lia) ltac:(apply IH; lia) ltac:(lia)) as Hr.
    destruct (compare_names _ _ _ _ _ _ _) as [state'|e|]; cbn [mbind outcome_bind]; [done | |done].
    destruct Hr as [? ->]. split; [done | eauto].
  - destruct (IH ltac:(lia) ltac:(lia)) as [? ?]. cbn [mbind outcome_bind]. split; [lia | done].
Qed.

(** The state after the rounds of [1, ..., s - 1]. *)
Definition searched (s : N) (state : N * option DuplicateName) : Prop :=
  match snd state with
  | None => 2 * fst state = s * (s - 1) /\ forall i j, i < j -> j < s -> ~ same_name i j
  | Some d => dn_first_index d < dn_second_index d /\ dn_second_index d < s /\
      same_name (dn_first_index d) (dn_second_index d) /\
      (forall i j, i < j -> j < dn_second_index d \/ (j = dn_second_index d /\ i < dn_first_index d) ->
         ~ same_name i j) /\
      exists x, names !! N.to_nat (dn_second_index d) = Some x /\
        dn_name_hash d = hash_of (upcased table x)
  end.

Lemma compare_round s state :
  1 <= s -> s < len names -> searched s state ->
  match compare_with_earlier table names limits state s with
  | Ok state' => searched (s + 1) state'
  | Err e => 2 * dl_max_comparisons limits < len names * (len names - 1) /\
             exists n, e = ComparisonLimitExceeded n (dl_max_comparisons limits)
  | Panic => False
  end.
Proof.
  intros H1 Hs Hst. destruct state as [c [d|]]; unfold searched in Hst; cbn [fst snd] in Hst.
  { cbn [compare_with_earlier]. unfold searched. cbn [snd]. destruct Hst as (? & ? & ? & ? & ?).
    split_and!; (done || lia). }
  destruct Hst as [Hc Hno]. cbn [compare_with_earlier].
  destruct (get_name s Hs) as (y & Hy & Hyu & Hyn).
  rewrite (proj2 (at_index_Ok _ _ _) Hy). cbn [mbind outcome_bind].
  rewrite name_hash_in by done. cbn [map_err mbind outcome_bind]. widths.
  assert (Htri : s * (s - 1) + 2 * s = (s + 1) * s).
  { replace ((s + 1) * s) with (s * s + s) by lia. rewrite N.mul_sub_distr_l, N.mul_1_r.
    assert (s <= s * s) by nia. lia. }
  pose proof (compare_names_all s y c s Hy Hs (N.le_refl s) ltac:(nia)) as Hall.
  destruct (try_fold _ _ (indices s)) as [[c' o]|e|]; [| |done].
  - unfold compared, searched in *. cbn [fst snd] in *. destruct o as [d|].
    + destruct Hall as (-> & H2 & H3 & H4 & H5). split_and!; [done | lia | done | | done].
      intros i j Hij [Hj|[-> Hi]]; [apply Hno; done | by apply H4].
    + destruct Hall as [-> Hall]. split; [|].
      * rewrite N.add_sub. lia.
      * intros i j Hij Hj. destruct (N.eq_dec j s) as [->|]; [apply Hall; lia | apply Hno; lia].
  - destruct Hall as [Hall He]. split; [|done].
    assert ((s + 1) * s <= len names * (len names - 1)) by (apply N.mul_le_mono; lia). lia.
Qed.

Lemma find_duplicates_spec :
  len names <= dl_max_names limits -> dl_max_name_code_units limits <= MAX_FILE_NAME_CODE_UNITS ->
  match find_duplicate_names table names limits with
  | Ok found => exists c, searched (len names) (c, found)
  | Err e => 2 * dl_max_comparisons limits < len names * (len names - 1) /\
             exists n, e = ComparisonLimitExceeded n (dl_max_comparisons limits)
  | Panic => False
  end.
Proof.
  intros Hmax Hmu. unfold find_duplicate_names.
  rewrite (proj2 (N.ltb_ge _ _) Hmu), (proj2 (N.ltb_ge _ _) Hmax). cbn [refuse_if mbind outcome_bind].
  assert (Hval : for_each (fun '(index, name) => map_err (DuplicateInvalidName index)
    (validate_upcase_name name (dl_max_name_code_units limits))) (enumerate names) = Ok tt).
  { apply for_each_Ok, Forall_forall. intros [i x] Hin. apply elem_of_enumerate_from in Hin as [_ Hx].
    rewrite Forall_lookup in Hnames. apply Hnames in Hx. by rewrite (proj2 (validate_name_Ok _ _ tt) Hx). }
  rewrite Hval. cbn [mbind outcome_bind].
  assert (Hgen : forall n, n <= len names - 1 ->
    match try_fold (compare_with_earlier table names limits) (0, None) ((fun i => i + 1) <$> indices n) with
    | Ok state => searched (n + 1) state
    | Err e => 2 * dl_max_comparisons limits < len names * (len names - 1) /\
               exists k, e = ComparisonLimitExceeded k (dl_max_comparisons limits)
    | Panic => False
    end).
  { induction n as [|n IH] using N.peano_ind; intros Hn.
    { simpl. unfold searched. simpl. split; [done |]. lia. }
    rewrite <- N.add_1_r in *. rewrite indices_succ, fmap_app, try_fold_app.
    specialize (IH ltac:(lia)). destruct (try_fold _ _ _) as [state|e|]; [|done|done].
    cbn [mbind outcome_bind fmap list_fmap try_fold].
    pose proof (compare_round (n + 1) state ltac:(lia) ltac:(lia) IH) as Hr.
    destruct (compare_with_earlier _ _ _ _ _); cbn [mbind outcome_bind]; done. }
  specialize (Hgen (len names - 1) ltac:(lia)). destruct (try_fold _ _ _) as [[c found]|e|]; [|done|done].
  cbn [mbind outcome_bind]. exists c. destruct (N.eq_dec (len names) 0) as [H0|Hn0].
  - rewrite H0 in *. unfold searched in *. cbn [fst snd] in *. destruct found as [d|].
    + destruct Hgen as (_ & _ & (x & ? & Hx & _) & _). apply lookup_lt_Some in Hx. unfold len in H0. lia.
    + destruct Hgen as [H1 H2]. split; [by rewrite H1 |]. lia.
  - by replace (len names - 1 + 1) with (len names) in Hgen by lia.
Qed.
End Duplicates.

(** * Properties *)

(** a table is accepted exactly when its stream is within the caller's
    limits, has the expected checksum and spells a complete mapping in the
    compressed grammar, and the table that is returned is the mapping it spells;
    such a table maps every code unit to a code unit and the ASCII units as the
    specification requires.  No stream makes the parser panic. *)
Theorem upcase_table_grammar encoded checksum limits :
  UpcaseTable_parse encoded checksum limits <> Panic /\
  forall t, UpcaseTable_parse encoded checksum limits = Ok t <->
    table_admissible encoded checksum limits /\
    spells 0 (encoded_words encoded) (ut_mappings t) /\
    len (ut_mappings t) = UNICODE_MAPPING_COUNT /\
    Forall (fun x => x <= u16_max) (ut_mappings t) /\
    forall i x, i < 128 -> ut_mappings t !! N.to_nat i = Some x -> x = ascii_upper i.
Proof.
  destruct (parse_table_spec encoded checksum limits) as [Hs Hl]. split; [done |].
  intros t. rewrite Hl. split; [|tauto]. intros (Ha & Hsp & Hlen). split_and!; [done..| |].
  - eapply spells_width; [exact Hsp |].
    destruct (even_length_words encoded) as (ws & _ & -> & Hw); [apply Ha | done].
  - intros i x Hi Hx. pose proof (spells_mandatory _ _ _ _ _ Hsp Hx) as Hm.
    rewrite N2Nat.id, N.add_0_l in Hm. by apply Hm.
Qed.

(** The plain encoding of a mapping. *)
Definition plain_encoding (mappings : list N) : list byte := concat (u16_le <$> mappings).

(** the round trip of plain tables.  For every complete mapping that maps
    the ASCII units as required and no unit before U+FFFF to U+FFFF, which is
    the mark of a run, the plain encoding of the mapping is accepted under its
    own checksum, and the table that is read is the mapping. *)
Theorem plain_table_roundtrip mappings limits :
  len mappings = UNICODE_MAPPING_COUNT -> Forall (fun x => x <= u16_max) mappings ->
  (forall i x, mappings !! N.to_nat i = Some x -> mandatory i x) ->
  (forall i, i < UNICODE_MAPPING_COUNT - 1 -> mappings !! N.to_nat i <> Some COMPRESSION_MARKER) ->
  2 * UNICODE_MAPPING_COUNT <= ul_max_encoded_bytes limits ->
  UNICODE_MAPPING_COUNT <= ul_max_mappings limits ->
  UpcaseTable_parse (plain_encoding mappings) (table_checksum (plain_encoding mappings)) limits
    = Ok (mkUpcaseTable mappings).
Proof.
  intros Hlen Hw Hm Hmark Hl1 Hl2.
  assert (Hbytes : len (plain_encoding mappings) = 2 * len mappings).
  { clear. unfold plain_encoding. induction mappings as [|x l IH]; [done |].
    rewrite fmap_cons. cbn [concat]. rewrite len_app, IH, len_u16_le, len_cons. lia. }
  apply parse_table_spec. cbn [ut_mappings]. split_and!; [split| |done].
  - rewrite Hbytes, Hlen. unfold UNICODE_MAPPING_COUNT in *. lia.
  - rewrite Hbytes, Hlen. reflexivity.
  - done.
  - reflexivity.
  - unfold plain_encoding. rewrite encoded_words_concat by done.
    assert (Hgen : forall suf i, i + len suf = UNICODE_MAPPING_COUNT ->
      (forall k x, suf !! k = Some x -> mappings !! N.to_nat (i + N.of_nat k) = Some x) -> spells i suf suf).
    { induction suf as [|x suf IH]; intros i Hi Hs; [constructor |]. rewrite len_cons in Hi.
      assert (Hx : mappings !! N.to_nat i = Some x) by (specialize (Hs 0%nat x eq_refl); by rewrite N.add_0_r in Hs).
      constructor.
      - lia.
      - destruct suf as [|y suf]; [destruct (N.eq_dec i (UNICODE_MAPPING_COUNT - 1)) as [|Hn]; [by right |] |].
        + rewrite len_nil in Hi. lia.
        + left. intros ->. rewrite len_cons in Hi. apply (Hmark i); [lia | done].
      - by apply Hm.
      - apply IH; [lia |]. intros k y Hk. specialize (Hs (S k) y Hk).
        by replace (i + 1 + N.of_nat k) with (i + N.of_nat (S k)) by lia. }
    apply Hgen; [lia |]. intros k x Hk. by rewrite N.add_0_l, Nat2N.id.
Qed.

Definition ascii_mappings : list N := ascii_upper <$> indices UNICODE_MAPPING_COUNT.
Lemma ascii_mapping_lookup i x :
  ascii_mappings !! N.to_nat i = Some x -> x = ascii_upper i /\ i < UNICODE_MAPPING_COUNT.
Proof.
  unfold ascii_mappings, indices. rewrite !list_lookup_fmap. intros Hx.
  destruct (seq 0 (N.to_nat UNICODE_MAPPING_COUNT) !! N.to_nat i) as [k|] eqn:Hk; [|done].
  apply lookup_seq in Hk as [-> Hlt]. simpl in Hx. injection Hx as <-. rewrite N2Nat.id. split; [done | lia].
Qed.
Lemma ascii_upper_bound i : i < UNICODE_MAPPING_COUNT -> ascii_upper i <= u16_max.
Proof. unfold ascii_upper, UNICODE_MAPPING_COUNT. intros. widths. destruct (_ && _); lia. Qed.

Lemma plain_table_roundtrip_witness :
  UpcaseTable_parse (plain_encoding ascii_mappings) (table_checksum (plain_encoding ascii_mappings))
    COMPLETE_TABLE = Ok (mkUpcaseTable ascii_mappings).
Proof.
  apply (plain_table_roundtrip ascii_mappings COMPLETE_TABLE).
  - unfold ascii_mappings, indices, len. rewrite !length_fmap, length_seq. apply N2Nat.id.
  - apply Forall_lookup. intros k x Hk. rewrite <- (Nat2N.id k) in Hk.
    apply ascii_mapping_lookup in Hk as [-> Hk]. by apply ascii_upper_bound.
  - intros i x Hx Hi. by apply ascii_mapping_lookup in Hx as [-> _].
  - intros i Hi Hx. apply ascii_mapping_lookup in Hx as [Hx _]. revert Hi Hx.
    unfold ascii_upper, COMPRESSION_MARKER, UNICODE_MAPPING_COUNT. destruct (_ && _); lia.
  - discriminate.
  - discriminate.
Defined.

(** the search for duplicate names.  Under a complete table and for valid
    names within the limits, the search reports the first pair, in the order of
    its second and then its first member, whose names are equal after up-casing,
    with the hash of that name, and reports nothing exactly when all names differ
    after up-casing; comparing hashes first changes nothing.  It fails only when
    the budget is smaller than the number of pairs, and it never panics. *)
Theorem duplicate_names_found table names limits :
  complete_table table -> Forall code_units names ->
  Forall (name_ok (dl_max_name_code_units limits)) names -> len names <= u32_max ->
  len names <= dl_max_names limits -> dl_max_name_code_units limits <= MAX_FILE_NAME_CODE_UNITS ->
  match find_duplicate_names table names limits with
  | Ok (Some d) =>
      dn_first_index d < dn_second_index d /\ dn_second_index d < len names /\
      same_name table names (dn_first_index d) (dn_second_index d) /\
      (forall i j, i < j -> j < dn_second_index d \/ (j = dn_second_index d /\ i < dn_first_index d) ->
         ~ same_name table names i j) /\
      exists x, names !! N.to_nat (dn_second_index d) = Some x /\
        dn_name_hash d = hash_of (upcased table x)
  | Ok None => forall i j, i < j -> j < len names -> ~ same_name table names i j
  | Err e => 2 * dl_max_comparisons limits < len names * (len names - 1) /\
             exists n, e = ComparisonLimitExceeded n (dl_max_comparisons limits)
  | Panic => False
  end.
Proof.
  intros Ht Hu Hn Hc Hm Hl. pose proof (find_duplicates_spec table Ht names limits Hu Hn Hc Hm Hl) as H.
  destruct (find_duplicate_names table names limits) as [[d|]| |]; [| |done|done];
    destruct H as [c H]; unfold searched in H; cbn [fst snd] in H; [done |]. by destruct H.
Qed.

(** ["b"], ["Ab"] and ["aB"]. *)
Definition sample_names : list (list N) := [[98]; [65; 98]; [97; 66]].
Lemma duplicate_names_found_witness :
  match find_duplicate_names (mkUpcaseTable ascii_mappings) sample_names (mkDuplicateLimits 3 255 3) with
  | Ok (Some d) =>
      dn_first_index d < dn_second_index d /\ dn_second_index d < len sample_names /\
      same_name (mkUpcaseTable ascii_mappings) sample_names (dn_first_index d) (dn_second_index d) /\
      (forall i j, i < j -> j < dn_second_index d \/ (j = dn_second_index d /\ i < dn_first_index d) ->
         ~ same_name (mkUpcaseTable ascii_mappings) sample_names i j) /\
      exists x, sample_names !! N.to_nat (dn_second_index d) = Some x /\
        dn_name_hash d = hash_of (upcased (mkUpcaseTable ascii_mappings) x)
  | Ok None => forall i j, i < j -> j < len sample_names ->
      ~ same_name (mkUpcaseTable ascii_mappings) sample_names i j
  | Err e => 2 * 3 < len sample_names * (len sample_names - 1) /\
             exists n, e = ComparisonLimitExceeded n 3
  | Panic => False
  end.
Proof.
  apply (duplicate_names_found (mkUpcaseTable ascii_mappings) sample_names (mkDuplicateLimits 3 255 3)).
  - unfold complete_table, ascii_mappings, indices, len. cbn [ut_mappings].
    rewrite !length_fmap, length_seq. apply N2Nat.id.
  - repeat constructor; unfold u16_max; lia.
  - repeat constructor; vm_compute; (reflexivity || discriminate).
  - vm_compute. discriminate.
  - vm_compute. discriminate.
  - vm_compute. discriminate.
Defined.
