(* ===== verification/UpcaseProfile.v ===== *)
(** * The recommended up-case profile

    [fs/exfat_upcase_serialize.rs]: the table that Microsoft's specification
    recommends, embedded as base64 text, its generation and validation, and the
    comparison of names under it.

    The theorems: the embedded text decodes to a stream with the length, the
    checksum and the compressed form that the specification publishes, so that
    generation succeeds whenever SHA-256 maps that stream to the pinned digest;
    the comparison of names is a total preorder whose equivalence is equality of
    the mapped names. *)

From S2P Require Export Prelude Bytes Digest ExfatUpcase.
From stdpp Require Import options.

#[local] Open Scope N_scope.

Definition RECOMMENDED_EXFAT_UPCASE_BYTES : N := 5836.
Definition RECOMMENDED_EXFAT_UPCASE_CHECKSUM : N := 3860452109.
Definition RECOMMENDED_EXFAT_UPCASE_SHA256 : list byte :=
  [x83; x44; xf2; x7a; x41; x0a; x16; xdf; x14; xad; x98; xde; xcd; xe3; x2b; x48; xc4; xdb; x0b; x8e; x7f; xa8; xb9; xdc; x43; x94; xb5; x8c; xed; x97; x2f; x11].

(** ** Data *)
Record RecommendedExfatUpcaseLimits : Type := mkRecommendedExfatUpcaseLimits {
  rl_max_encoded_bytes : N;
  rl_max_mappings : N;
  rl_max_name_units : N
}.
Definition RecommendedExfatUpcaseLimits_default : RecommendedExfatUpcaseLimits :=
  mkRecommendedExfatUpcaseLimits RECOMMENDED_EXFAT_UPCASE_BYTES UNICODE_MAPPING_COUNT
    MAX_FILE_NAME_CODE_UNITS.

Record RecommendedExfatUpcase : Type := mkRecommendedExfatUpcase {
  ru_encoded : list byte;
  ru_table : UpcaseTable
}.

(** [ProfileAllocationFailed] is a failure to reserve memory, which no definition
    returns. *)
Inductive RecommendedExfatUpcaseError : Type :=
| InvalidProfileLimit (limit : string)
| IncorrectEncodedLength (actual expected : N)
| ProfileDigestMismatch (expected actual : list byte)
| CompiledProfileInvalid
| ProfileAllocationFailed (component : string) (requested : N)
| ProfileTable (error : UpcaseError)
| ProfileName (error : NameError).

(** ** Base64 *)
Definition base64_value (byte : byte) : outcome RecommendedExfatUpcaseError N :=
  let n := Byte.to_N byte in
  if (65 <=? n) && (n <=? 90) then Ok (n - 65)
  else if (97 <=? n) && (n <=? 122) then Ok (n - 97 + 26)
  else if (48 <=? n) && (n <=? 57) then Ok (n - 48 + 52)
  else if n =? 43 then Ok 62
  else if n =? 47 then Ok 63
  else Err CompiledProfileInvalid.

(** A third or fourth character of a group: [=] stands for no value. *)
Definition base64_option (byte : byte) : outcome RecommendedExfatUpcaseError (option N) :=
  if Byte.to_N byte =? 61 then Ok None else value ← base64_value byte; Ok (Some value).

(** The groups of four characters; the last one may be padded. *)
Fixpoint decode_groups (encoded : list byte) : outcome RecommendedExfatUpcaseError (list byte) :=
  match encoded with
  | b0 :: b1 :: b2 :: b3 :: encoded =>
      let last := bool_decide (length encoded < 4)%nat in
      a ← base64_value b0;
      b ← base64_value b1;
      c ← base64_option b2;
      d ← base64_option b3;
      refuse_if ((negb last && (negb (bool_decide (is_Some c)) || negb (bool_decide (is_Some d))))
                 || (negb (bool_decide (is_Some c)) && bool_decide (is_Some d)))
        CompiledProfileInvalid ;;
      let bytes :=
        byte_of_N (N.lor (N.shiftl a 2) (N.shiftr b 4)) ::
        match c with
        | None => []
        | Some c =>
            byte_of_N (N.lor (N.shiftl b 4) (N.shiftr c 2)) ::
            match d with
            | None => []
            | Some d => [byte_of_N (N.lor (N.shiftl c 6) d)]
            end
        end in
      rest ← decode_groups encoded;
      Ok (bytes ++ rest)
  | _ => Ok []
  end.

Definition decode_base64 (encoded : list byte) (expected_bytes : N)
    : outcome RecommendedExfatUpcaseError (list byte) :=
  refuse_if (negb (N.land (len encoded) 3 =? 0)) CompiledProfileInvalid ;;
  output ← decode_groups encoded;
  refuse_if (negb (len output =? expected_bytes)) CompiledProfileInvalid ;;
  Ok output.

Definition PROFILE_BASE64 : string :=
  ("AAABAAIAAwAEAAUABgAHAAgACQAKAAsADAANAA4ADwAQABEAEgATABQAFQAWABcAGAAZABoAGwAcAB0AHgAfACAAIQAiACMA" ++
   "JAAlACYAJwAoACkAKgArACwALQAuAC8AMAAxADIAMwA0ADUANgA3ADgAOQA6ADsAPAA9AD4APwBAAEEAQgBDAEQARQBGAEcA" ++
   "SABJAEoASwBMAE0ATgBPAFAAUQBSAFMAVABVAFYAVwBYAFkAWgBbAFwAXQBeAF8AYABBAEIAQwBEAEUARgBHAEgASQBKAEsA" ++
   "TABNAE4ATwBQAFEAUgBTAFQAVQBWAFcAWABZAFoAewB8AH0AfgB/AIAAgQCCAIMAhACFAIYAhwCIAIkAigCLAIwAjQCOAI8A" ++
   "kACRAJIAkwCUAJUAlgCXAJgAmQCaAJsAnACdAJ4AnwCgAKEAogCjAKQApQCmAKcAqACpAKoAqwCsAK0ArgCvALAAsQCyALMA" ++
   "tAC1ALYAtwC4ALkAugC7ALwAvQC+AL8AwADBAMIAwwDEAMUAxgDHAMgAyQDKAMsAzADNAM4AzwDQANEA0gDTANQA1QDWANcA" ++
   "2ADZANoA2wDcAN0A3gDfAMAAwQDCAMMAxADFAMYAxwDIAMkAygDLAMwAzQDOAM8A0ADRANIA0wDUANUA1gD3ANgA2QDaANsA" ++
   "3ADdAN4AeAEAAQABAgECAQQBBAEGAQYBCAEIAQoBCgEMAQwBDgEOARABEAESARIBFAEUARYBFgEYARgBGgEaARwBHAEeAR4B" ++
   "IAEgASIBIgEkASQBJgEmASgBKAEqASoBLAEsAS4BLgEwATEBMgEyATQBNAE2ATYBOAE5ATkBOwE7AT0BPQE/AT8BQQFBAUMB" ++
   "QwFFAUUBRwFHAUkBSgFKAUwBTAFOAU4BUAFQAVIBUgFUAVQBVgFWAVgBWAFaAVoBXAFcAV4BXgFgAWABYgFiAWQBZAFmAWYB" ++
   "aAFoAWoBagFsAWwBbgFuAXABcAFyAXIBdAF0AXYBdgF4AXkBeQF7AXsBfQF9AX8BQwKBAYIBggGEAYQBhgGHAYcBiQGKAYsB" ++
   "iwGNAY4BjwGQAZEBkQGTAZQB9gGWAZcBmAGYAT0CmwGcAZ0BIAKfAaABoAGiAaIBpAGkAaYBpwGnAakBqgGrAawBrAGuAa8B" ++
   "rwGxAbIBswGzAbUBtQG3AbgBuAG6AbsBvAG8Ab4B9wHAAcEBwgHDAcQBxQHEAccByAHHAcoBywHKAc0BzQHPAc8B0QHRAdMB" ++
   "0wHVAdUB1wHXAdkB2QHbAdsBjgHeAd4B4AHgAeIB4gHkAeQB5gHmAegB6AHqAeoB7AHsAe4B7gHwAfEB8gHxAfQB9AH2AfcB" ++
   "+AH4AfoB+gH8AfwB/gH+AQACAAICAgICBAIEAgYCBgIIAggCCgIKAgwCDAIOAg4CEAIQAhICEgIUAhQCFgIWAhgCGAIaAhoC" ++
   "HAIcAh4CHgIgAiECIgIiAiQCJAImAiYCKAIoAioCKgIsAiwCLgIuAjACMAIyAjICNAI1AjYCNwI4AjkCZSw7AjsCPQJmLD8C" ++
   "QAJBAkECQwJEAkUCRgJGAkgCSAJKAkoCTAJMAk4CTgJQAlECUgKBAYYBVQKJAYoBWAKPAVoCkAFcAl0CXgJfApMBYQJiApQB" ++
   "ZAJlAmYCZwKXAZYBagJiLGwCbQJuApwBcAJxAp0BcwJ0Ap8BdgJ3AngCeQJ6AnsCfAJkLH4CfwKmAYECggKpAYQChQKGAocC" ++
   "rgFEArEBsgFFAo0CjgKPApACkQK3AZMClAKVApYClwKYApkCmgKbApwCnQKeAp8CoAKhAqICowKkAqUCpgKnAqgCqQKqAqsC" ++
   "rAKtAq4CrwKwArECsgKzArQCtQK2ArcCuAK5AroCuwK8Ar0CvgK/AsACwQLCAsMCxALFAsYCxwLIAskCygLLAswCzQLOAs8C" ++
   "0ALRAtIC0wLUAtUC1gLXAtgC2QLaAtsC3ALdAt4C3wLgAuEC4gLjAuQC5QLmAucC6ALpAuoC6wLsAu0C7gLvAvAC8QLyAvMC" ++
   "9AL1AvYC9wL4AvkC+gL7AvwC/QL+Av8CAAMBAwIDAwMEAwUDBgMHAwgDCQMKAwsDDAMNAw4DDwMQAxEDEgMTAxQDFQMWAxcD" ++
   "GAMZAxoDGwMcAx0DHgMfAyADIQMiAyMDJAMlAyYDJwMoAykDKgMrAywDLQMuAy8DMAMxAzIDMwM0AzUDNgM3AzgDOQM6AzsD" ++
   "PAM9Az4DPwNAA0EDQgNDA0QDRQNGA0cDSANJA0oDSwNMA00DTgNPA1ADUQNSA1MDVANVA1YDVwNYA1kDWgNbA1wDXQNeA18D" ++
   "YANhA2IDYwNkA2UDZgNnA2gDaQNqA2sDbANtA24DbwNwA3EDcgNzA3QDdQN2A3cDeAN5A3oD/QP+A/8DfgN/A4ADgQOCA4MD" ++
   "hAOFA4YDhwOIA4kDigOLA4wDjQOOA48DkAORA5IDkwOUA5UDlgOXA5gDmQOaA5sDnAOdA54DnwOgA6EDogOjA6QDpQOmA6cD" ++
   "qAOpA6oDqwOGA4gDiQOKA7ADkQOSA5MDlAOVA5YDlwOYA5kDmgObA5wDnQOeA58DoAOhA6MDowOkA6UDpgOnA6gDqQOqA6sD" ++
   "jAOOA48DzwPQA9ED0gPTA9QD1QPWA9cD2APYA9oD2gPcA9wD3gPeA+AD4APiA+ID5APkA+YD5gPoA+gD6gPqA+wD7APuA+4D" ++
   "8APxA/kD8wP0A/UD9gP3A/cD+QP6A/oD/AP9A/4D/wMABAEEAgQDBAQEBQQGBAcECAQJBAoECwQMBA0EDgQPBBAEEQQSBBME" ++
   "FAQVBBYEFwQYBBkEGgQbBBwEHQQeBB8EIAQhBCIEIwQkBCUEJgQnBCgEKQQqBCsELAQtBC4ELwQQBBEEEgQTBBQEFQQWBBcE" ++
   "GAQZBBoEGwQcBB0EHgQfBCAEIQQiBCMEJAQlBCYEJwQoBCkEKgQrBCwELQQuBC8EAAQBBAIEAwQEBAUEBgQHBAgECQQKBAsE" ++
   "DAQNBA4EDwRgBGAEYgRiBGQEZARmBGYEaARoBGoEagRsBGwEbgRuBHAEcARyBHIEdAR0BHYEdgR4BHgEegR6BHwEfAR+BH4E" ++
   "gASABIIEgwSEBIUEhgSHBIgEiQSKBIoEjASMBI4EjgSQBJAEkgSSBJQElASWBJYEmASYBJoEmgScBJwEngSeBKAEoASiBKIE" ++
   "pASkBKYEpgSoBKgEqgSqBKwErASuBK4EsASwBLIEsgS0BLQEtgS2BLgEuAS6BLoEvAS8BL4EvgTABMEEwQTDBMMExQTFBMcE" ++
   "xwTJBMkEywTLBM0EzQTABNAE0ATSBNIE1ATUBNYE1gTYBNgE2gTaBNwE3ATeBN4E4ATgBOIE4gTkBOQE5gTmBOgE6ATqBOoE" ++
   "7ATsBO4E7gTwBPAE8gTyBPQE9AT2BPYE+AT4BPoE+gT8BPwE/gT+BAAFAAUCBQIFBAUEBQYFBgUIBQgFCgUKBQwFDAUOBQ4F" ++
   "EAUQBRIFEgUUBRUFFgUXBRgFGQUaBRsFHAUdBR4FHwUgBSEFIgUjBSQFJQUmBScFKAUpBSoFKwUsBS0FLgUvBTAFMQUyBTMF" ++
   "NAU1BTYFNwU4BTkFOgU7BTwFPQU+BT8FQAVBBUIFQwVEBUUFRgVHBUgFSQVKBUsFTAVNBU4FTwVQBVEFUgVTBVQFVQVWBVcF" ++
   "WAVZBVoFWwVcBV0FXgVfBWAFMQUyBTMFNAU1BTYFNwU4BTkFOgU7BTwFPQU+BT8FQAVBBUIFQwVEBUUFRgVHBUgFSQVKBUsF" ++
   "TAVNBU4FTwVQBVEFUgVTBVQFVQVWBf//9hdjLH4dfx2AHYEdgh2DHYQdhR2GHYcdiB2JHYodix2MHY0djh2PHZAdkR2SHZMd" ++
   "lB2VHZYdlx2YHZkdmh2bHZwdnR2eHZ8doB2hHaIdox2kHaUdph2nHagdqR2qHasdrB2tHa4drx2wHbEdsh2zHbQdtR22Hbcd" ++
   "uB25Hbodux28Hb0dvh2/HcAdwR3CHcMdxB3FHcYdxx3IHckdyh3LHcwdzR3OHc8d0B3RHdId0x3UHdUd1h3XHdgd2R3aHdsd" ++
   "3B3dHd4d3x3gHeEd4h3jHeQd5R3mHecd6B3pHeod6x3sHe0d7h3vHfAd8R3yHfMd9B31HfYd9x34Hfkd+h37Hfwd/R3+Hf8d" ++
   "AB4AHgIeAh4EHgQeBh4GHggeCB4KHgoeDB4MHg4eDh4QHhAeEh4SHhQeFB4WHhYeGB4YHhoeGh4cHhweHh4eHiAeIB4iHiIe" ++
   "JB4kHiYeJh4oHigeKh4qHiweLB4uHi4eMB4wHjIeMh40HjQeNh42HjgeOB46HjoePB48Hj4ePh5AHkAeQh5CHkQeRB5GHkYe" ++
   "SB5IHkoeSh5MHkweTh5OHlAeUB5SHlIeVB5UHlYeVh5YHlgeWh5aHlweXB5eHl4eYB5gHmIeYh5kHmQeZh5mHmgeaB5qHmoe" ++
   "bB5sHm4ebh5wHnAech5yHnQedB52HnYeeB54Hnoeeh58Hnwefh5+HoAegB6CHoIehB6EHoYehh6IHogeih6KHowejB6OHo4e" ++
   "kB6QHpIekh6UHpQelh6XHpgemR6aHpsenB6dHp4enx6gHqAeoh6iHqQepB6mHqYeqB6oHqoeqh6sHqwerh6uHrAesB6yHrIe" ++
   "tB60HrYeth64Hrgeuh66HrwevB6+Hr4ewB7AHsIewh7EHsQexh7GHsgeyB7KHsoezB7MHs4ezh7QHtAe0h7SHtQe1B7WHtYe" ++
   "2B7YHtoe2h7cHtwe3h7eHuAe4B7iHuIe5B7kHuYe5h7oHuge6h7qHuwe7B7uHu4e8B7wHvIe8h70HvQe9h72Hvge+B76Hvse" ++
   "/B79Hv4e/x4IHwkfCh8LHwwfDR8OHw8fCB8JHwofCx8MHw0fDh8PHxgfGR8aHxsfHB8dHxYfFx8YHxkfGh8bHxwfHR8eHx8f" ++
   "KB8pHyofKx8sHy0fLh8vHygfKR8qHysfLB8tHy4fLx84HzkfOh87HzwfPR8+Hz8fOB85HzofOx88Hz0fPh8/H0gfSR9KH0sf" ++
   "TB9NH0YfRx9IH0kfSh9LH0wfTR9OH08fUB9ZH1IfWx9UH10fVh9fH1gfWR9aH1sfXB9dH14fXx9oH2kfah9rH2wfbR9uH28f" ++
   "aB9pH2ofax9sH20fbh9vH7ofux/IH8kfyh/LH9of2x/4H/kf6h/rH/of+x9+H38fiB+JH4ofix+MH40fjh+PH4gfiR+KH4sf" ++
   "jB+NH44fjx+YH5kfmh+bH5wfnR+eH58fmB+ZH5ofmx+cH50fnh+fH6gfqR+qH6sfrB+tH64frx+oH6kfqh+rH6wfrR+uH68f" ++
   "uB+5H7IfvB+0H7Ufth+3H7gfuR+6H7sfvB+9H74fvx/AH8Efwh/DH8QfxR/GH8cfyB/JH8ofyx/DH80fzh/PH9gf2R/SH9Mf" ++
   "1B/VH9Yf1x/YH9kf2h/bH9wf3R/eH98f6B/pH+If4x/kH+wf5h/nH+gf6R/qH+sf7B/tH+4f7x/wH/Ef8h/zH/Qf9R/2H/cf" ++
   "+B/5H/of+x/zH/0f/h//HwAgASACIAMgBCAFIAYgByAIIAkgCiALIAwgDSAOIA8gECARIBIgEyAUIBUgFiAXIBggGSAaIBsg" ++
   "HCAdIB4gHyAgICEgIiAjICQgJSAmICcgKCApICogKyAsIC0gLiAvIDAgMSAyIDMgNCA1IDYgNyA4IDkgOiA7IDwgPSA+ID8g" ++
   "QCBBIEIgQyBEIEUgRiBHIEggSSBKIEsgTCBNIE4gTyBQIFEgUiBTIFQgVSBWIFcgWCBZIFogWyBcIF0gXiBfIGAgYSBiIGMg" ++
   "ZCBlIGYgZyBoIGkgaiBrIGwgbSBuIG8gcCBxIHIgcyB0IHUgdiB3IHggeSB6IHsgfCB9IH4gfyCAIIEggiCDIIQghSCGIIcg" ++
   "iCCJIIogiyCMII0gjiCPIJAgkSCSIJMglCCVIJYglyCYIJkgmiCbIJwgnSCeIJ8goCChIKIgoyCkIKUgpiCnIKggqSCqIKsg" ++
   "rCCtIK4gryCwILEgsiCzILQgtSC2ILcguCC5ILoguyC8IL0gviC/IMAgwSDCIMMgxCDFIMYgxyDIIMkgyiDLIMwgzSDOIM8g" ++
   "0CDRINIg0yDUINUg1iDXINgg2SDaINsg3CDdIN4g3yDgIOEg4iDjIOQg5SDmIOcg6CDpIOog6yDsIO0g7iDvIPAg8SDyIPMg" ++
   "9CD1IPYg9yD4IPkg+iD7IPwg/SD+IP8gACEBIQIhAyEEIQUhBiEHIQghCSEKIQshDCENIQ4hDyEQIREhEiETIRQhFSEWIRch" ++
   "GCEZIRohGyEcIR0hHiEfISAhISEiISMhJCElISYhJyEoISkhKiErISwhLSEuIS8hMCExITIhMyE0ITUhNiE3ITghOSE6ITsh" ++
   "PCE9IT4hPyFAIUEhQiFDIUQhRSFGIUchSCFJIUohSyFMIU0hMiFPIVAhUSFSIVMhVCFVIVYhVyFYIVkhWiFbIVwhXSFeIV8h" ++
   "YCFhIWIhYyFkIWUhZiFnIWghaSFqIWshbCFtIW4hbyFgIWEhYiFjIWQhZSFmIWchaCFpIWohayFsIW0hbiFvIYAhgSGCIYMh" ++
   "gyH//0sDtiS3JLgkuSS6JLskvCS9JL4kvyTAJMEkwiTDJMQkxSTGJMckyCTJJMokyyTMJM0kziTPJP//RgcALAEsAiwDLAQs" ++
   "BSwGLAcsCCwJLAosCywMLA0sDiwPLBAsESwSLBMsFCwVLBYsFywYLBksGiwbLBwsHSweLB8sICwhLCIsIywkLCUsJiwnLCgs" ++
   "KSwqLCssLCwtLC4sXyxgLGAsYixjLGQsZSxmLGcsZyxpLGksayxrLG0sbixvLHAscSxyLHMsdCx1LHUsdyx4LHkseix7LHws" ++
   "fSx+LH8sgCyALIIsgiyELIQshiyGLIgsiCyKLIosjCyMLI4sjiyQLJAskiySLJQslCyWLJYsmCyYLJosmiycLJwsniyeLKAs" ++
   "oCyiLKIspCykLKYspiyoLKgsqiyqLKwsrCyuLK4ssCywLLIssiy0LLQstiy2LLgsuCy6LLosvCy8LL4svizALMAswizCLMQs" ++
   "xCzGLMYsyCzILMosyizMLMwszizOLNAs0CzSLNIs1CzULNYs1izYLNgs2izaLNws3CzeLN4s4CzgLOIs4izkLOUs5iznLOgs" ++
   "6SzqLOss7CztLO4s7yzwLPEs8izzLPQs9Sz2LPcs+Cz5LPos+yz8LP0s/iz/LKAQoRCiEKMQpBClEKYQpxCoEKkQqhCrEKwQ" ++
   "rRCuEK8QsBCxELIQsxC0ELUQthC3ELgQuRC6ELsQvBC9EL4QvxDAEMEQwhDDEMQQxRD//xvSIf8i/yP/JP8l/yb/J/8o/yn/" ++
   "Kv8r/yz/Lf8u/y//MP8x/zL/M/80/zX/Nv83/zj/Of86/1v/XP9d/17/X/9g/2H/Yv9j/2T/Zf9m/2f/aP9p/2r/a/9s/23/" ++
   "bv9v/3D/cf9y/3P/dP91/3b/d/94/3n/ev97/3z/ff9+/3//gP+B/4L/g/+E/4X/hv+H/4j/if+K/4v/jP+N/47/j/+Q/5H/" ++
   "kv+T/5T/lf+W/5f/mP+Z/5r/m/+c/53/nv+f/6D/of+i/6P/pP+l/6b/p/+o/6n/qv+r/6z/rf+u/6//sP+x/7L/s/+0/7X/" ++
   "tv+3/7j/uf+6/7v/vP+9/77/v//A/8H/wv/D/8T/xf/G/8f/yP/J/8r/y//M/83/zv/P/9D/0f/S/9P/1P/V/9b/1//Y/9n/" ++
   "2v/b/9z/3f/e/9//4P/h/+L/4//k/+X/5v/n/+j/6f/q/+v/7P/t/+7/7//w//H/8v/z//T/9f/2//f/+P/5//r/+//8//3/" ++
   "/v///w==")%string.

(** ** Generation and validation *)
Definition check_profile_limits (limits : RecommendedExfatUpcaseLimits)
    : outcome RecommendedExfatUpcaseError unit :=
  refuse_if (rl_max_encoded_bytes limits =? 0)
    (InvalidProfileLimit "max_encoded_bytes must be nonzero") ;;
  refuse_if (rl_max_mappings limits =? 0) (InvalidProfileLimit "max_mappings must be nonzero") ;;
  refuse_if ((rl_max_name_units limits =? 0) || (MAX_FILE_NAME_CODE_UNITS <? rl_max_name_units limits))
    (InvalidProfileLimit "max_name_units must be in 1..=255").

Definition check_profile_name (name : list N) (limits : RecommendedExfatUpcaseLimits)
    : outcome RecommendedExfatUpcaseError unit :=
  check_profile_limits limits ;;
  refuse_if (is_empty name) (ProfileName EmptyName) ;;
  refuse_if (rl_max_name_units limits <? len name)
    (ProfileName (NameTooLong (len name) (rl_max_name_units limits))).

Definition decode_profile (limits : RecommendedExfatUpcaseLimits)
    : outcome RecommendedExfatUpcaseError (list byte) :=
  refuse_if (rl_max_encoded_bytes limits <? RECOMMENDED_EXFAT_UPCASE_BYTES)
    (ProfileTable (EncodedTableTooLarge RECOMMENDED_EXFAT_UPCASE_BYTES (rl_max_encoded_bytes limits))) ;;
  decode_base64 (ascii_bytes PROFILE_BASE64) RECOMMENDED_EXFAT_UPCASE_BYTES.

Section Profile.
Context `{Digests}.

Definition validate_recommended_exfat_upcase (encoded : list byte)
    (limits : RecommendedExfatUpcaseLimits)
    : outcome RecommendedExfatUpcaseError RecommendedExfatUpcase :=
  check_profile_limits limits ;;
  refuse_if (rl_max_encoded_bytes limits <? len encoded)
    (ProfileTable (EncodedTableTooLarge (len encoded) (rl_max_encoded_bytes limits))) ;;
  refuse_if (negb (len encoded =? RECOMMENDED_EXFAT_UPCASE_BYTES))
    (IncorrectEncodedLength (len encoded) RECOMMENDED_EXFAT_UPCASE_BYTES) ;;
  let actual_digest := sha256 encoded in
  refuse_if (negb (bool_decide (actual_digest = RECOMMENDED_EXFAT_UPCASE_SHA256)))
    (ProfileDigestMismatch RECOMMENDED_EXFAT_UPCASE_SHA256 actual_digest) ;;
  table ← map_err ProfileTable
    (UpcaseTable_parse encoded RECOMMENDED_EXFAT_UPCASE_CHECKSUM
       (mkUpcaseLimits (rl_max_encoded_bytes limits) (rl_max_mappings limits)));
  Ok (mkRecommendedExfatUpcase encoded table).

Definition generate_recommended_exfat_upcase (limits : RecommendedExfatUpcaseLimits)
    : outcome RecommendedExfatUpcaseError RecommendedExfatUpcase :=
  check_profile_limits limits ;;
  bytes ← decode_profile limits;
  validate_recommended_exfat_upcase bytes limits.
End Profile.

(** ** Names *)
Definition upcase_name (profile : RecommendedExfatUpcase) (name : list N)
    (limits : RecommendedExfatUpcaseLimits) : outcome RecommendedExfatUpcaseError (list N) :=
  check_profile_name name limits ;;
  '(_, output) ← map_err ProfileName
    (upcase_name_into (ru_table profile) name (replicate (length name) 0) (rl_max_name_units limits));
  Ok output.

Definition profile_name_hash (profile : RecommendedExfatUpcase) (name : list N)
    (limits : RecommendedExfatUpcaseLimits) : outcome RecommendedExfatUpcaseError N :=
  check_profile_limits limits ;;
  map_err ProfileName (name_hash (ru_table profile) name (rl_max_name_units limits)).

(** [zip(..).map(..).find(|ordering| *ordering != Equal)]. *)
Fixpoint first_difference (table : UpcaseTable) (xs ys : list N)
    : outcome RecommendedExfatUpcaseError (option comparison) :=
  match xs, ys with
  | x :: xs, y :: ys =>
      mx ← UpcaseTable_map table x; my ← UpcaseTable_map table y;
      match mx ?= my with
      | Eq => first_difference table xs ys
      | ordering => Ok (Some ordering)
      end
  | _, _ => Ok None
  end.

Definition collate (profile : RecommendedExfatUpcase) (xs ys : list N)
    (limits : RecommendedExfatUpcaseLimits) : outcome RecommendedExfatUpcaseError comparison :=
  check_profile_name xs limits ;;
  check_profile_name ys limits ;;
  difference ← first_difference (ru_table profile) xs ys;
  Ok (default (len xs ?= len ys) difference).

Definition names_collide (profile : RecommendedExfatUpcase) (xs ys : list N)
    (limits : RecommendedExfatUpcaseLimits) : outcome RecommendedExfatUpcaseError bool :=
  ordering ← collate profile xs ys limits;
  Ok (match ordering with Eq => true | _ => false end).

(** * Lemmas *)

(** Every fixed property of the embedded text, as one test of its decoding. *)
Definition decoded_text_ok (decoded : outcome RecommendedExfatUpcaseError (list byte)) : bool :=
  match decoded with
  | Ok bytes =>
      (len bytes =? RECOMMENDED_EXFAT_UPCASE_BYTES)
      && (table_checksum bytes =? RECOMMENDED_EXFAT_UPCASE_CHECKSUM)
      && match validate_encoding bytes with
         | Ok _ => true
         | _ => false
         end
  | _ => false
  end.
Lemma embedded_text :
  decoded_text_ok (decode_base64 (ascii_bytes PROFILE_BASE64) RECOMMENDED_EXFAT_UPCASE_BYTES) = true.
Proof. vm_compute. reflexivity. Qed.

(** A stream that passes the tests. *)
Record profile_stream (bytes : list byte) (table : UpcaseTable) : Prop := {
  ps_length : len bytes = RECOMMENDED_EXFAT_UPCASE_BYTES;
  ps_checksum : table_checksum bytes = RECOMMENDED_EXFAT_UPCASE_CHECKSUM;
  ps_spells : spells 0 (encoded_words bytes) (ut_mappings table);
  ps_complete : complete_table table
}.
Lemma decoded_text decoded :
  decoded_text_ok decoded = true -> exists bytes table, decoded = Ok bytes /\ profile_stream bytes table.
Proof.
  unfold decoded_text_ok. destruct decoded as [bytes| |]; [|done|done].
  intros [[Hl Hc]%andb_true_iff Hv]%andb_true_iff. apply N.eqb_eq in Hl, Hc.
  destruct (validate_encoding bytes) as [[]| |] eqn:He; [|done|done].
  apply validate_encoding_spec in He as (l & Hs & Hn). exists bytes, (mkUpcaseTable l).
  split; [reflexivity |]. by split.
Qed.
Lemma embedded_profile :
  exists bytes table,
    decode_base64 (ascii_bytes PROFILE_BASE64) RECOMMENDED_EXFAT_UPCASE_BYTES = Ok bytes /\
    profile_stream bytes table.
Proof. exact (decoded_text _ embedded_text). Qed.

Lemma check_profile_limits_in limits :
  0 < rl_max_encoded_bytes limits -> 0 < rl_max_mappings limits ->
  0 < rl_max_name_units limits <= MAX_FILE_NAME_CODE_UNITS -> check_profile_limits limits = Ok tt.
Proof.
  intros H1 H2 [H3 H4]. unfold check_profile_limits. do 2 ok_step. apply refuse_step.
  apply orb_false_intro; [apply N.eqb_neq; lia | apply N.ltb_ge; lia].
Qed.

(** ** The order of names *)
Fixpoint lex_compare (xs ys : list N) : comparison :=
  match xs, ys with
  | [], [] => Eq
  | [], _ => Lt
  | _, [] => Gt
  | x :: xs, y :: ys => match x ?= y with Eq => lex_compare xs ys | c => c end
  end.

Lemma lex_compare_eq xs ys : lex_compare xs ys = Eq <-> xs = ys.
Proof.
  revert ys. induction xs as [|x xs IH]; intros [|y ys]; simpl; try done.
  destruct (N.compare_spec x y) as [->|Hl|Hl].
  - rewrite IH. split; [by intros -> | by intros [= ->]].
  - split; [done | intros [= ->]; lia].
  - split; [done | intros [= ->]; lia].
Qed.
Lemma lex_compare_opp xs ys : lex_compare ys xs = CompOpp (lex_compare xs ys).
Proof.
  revert ys. induction xs as [|x xs IH]; intros [|y ys]; simpl; try done.
  rewrite (N.compare_antisym x y). destruct (x ?= y); simpl; [apply IH | done | done].
Qed.
Lemma lex_compare_trans xs ys zs :
  lex_compare xs ys <> Gt -> lex_compare ys zs <> Gt -> lex_compare xs zs <> Gt.
Proof.
  revert ys zs. induction xs as [|x xs IH]; intros [|y ys] [|z zs]; simpl; try done.
  destruct (N.compare_spec x y), (N.compare_spec y z), (N.compare_spec x z);
    try done; try (exfalso; lia). apply IH.
Qed.

Section Order.
#[local] Set Default Proof Using "All".
Context (table : UpcaseTable) (Ht : complete_table table).

Lemma first_difference_in xs ys :
  code_units xs -> code_units ys ->
  exists d, first_difference table xs ys = Ok d /\
    default (len xs ?= len ys) d = lex_compare (upcased table xs) (upcased table ys).
Proof.
  intros Hx. revert ys. induction Hx as [|x xs Hx _ IH]; intros ys Hy.
  - exists None. split; [done |]. destruct ys; simpl; [done |]. unfold len. simpl. done.
  - destruct Hy as [|y ys Hy Hys]; [exists None; split; [done |]; unfold len; simpl; done |].
    cbn [first_difference]. rewrite !table_map_in by done. cbn [mbind outcome_bind].
    unfold upcased. rewrite !fmap_cons. cbn [lex_compare].
    destruct (N.compare_spec (default 0 (ut_mappings table !! N.to_nat x))
      (default 0 (ut_mappings table !! N.to_nat y))) as [He|Hl|Hl].
    + destruct (IH ys Hys) as (d & Hd & Hc). exists d. split; [done |].
      unfold upcased in Hc. rewrite <- Hc. rewrite !len_cons. destruct d; [done |]. simpl.
      by destruct (N.compare_spec (len xs) (len ys)), (N.compare_spec (1 + len xs) (1 + len ys)); try lia.
    + by exists (Some Lt).
    + by exists (Some Gt).
Qed.
End Order.

(** * Properties *)

(** the embedded profile is the one that is pinned.  The base64 text of the
    source decodes to a stream of the published length and checksum that spells a
    complete table; with sufficient limits, generation returns that stream with
    that table exactly when SHA-256 maps the stream to the pinned digest, and
    reports the digest otherwise. *)
Theorem recommended_profile_generated `{Digests} limits :
  RECOMMENDED_EXFAT_UPCASE_BYTES <= rl_max_encoded_bytes limits ->
  UNICODE_MAPPING_COUNT <= rl_max_mappings limits ->
  0 < rl_max_name_units limits <= MAX_FILE_NAME_CODE_UNITS ->
  exists bytes table,
    decode_profile limits = Ok bytes /\
    len bytes = RECOMMENDED_EXFAT_UPCASE_BYTES /\
    table_checksum bytes = RECOMMENDED_EXFAT_UPCASE_CHECKSUM /\
    spells 0 (encoded_words bytes) (ut_mappings table) /\ complete_table table /\
    generate_recommended_exfat_upcase limits =
      if bool_decide (sha256 bytes = RECOMMENDED_EXFAT_UPCASE_SHA256)
      then Ok (mkRecommendedExfatUpcase bytes table)
      else Err (ProfileDigestMismatch RECOMMENDED_EXFAT_UPCASE_SHA256 (sha256 bytes)).
Proof.
  intros Hb Hm Hn. destruct embedded_profile as (bytes & table & Hd & [Hl Hc Hs Ht]).
  assert (HB : RECOMMENDED_EXFAT_UPCASE_BYTES = 5836) by reflexivity.
  assert (HU : UNICODE_MAPPING_COUNT = 65536) by reflexivity.
  assert (Hprofile : decode_profile limits = Ok bytes).
  { unfold decode_profile. eapply bind_step; [apply refuse_step, N.ltb_ge; lia | exact Hd]. }
  exists bytes, table. split; [exact Hprofile |]. split; [exact Hl |]. split; [exact Hc |].
  split; [exact Hs |]. split; [exact Ht |].
  assert (Hlim : check_profile_limits limits = Ok tt) by (apply check_profile_limits_in; lia).
  assert (Hparse : UpcaseTable_parse bytes RECOMMENDED_EXFAT_UPCASE_CHECKSUM
    (mkUpcaseLimits (rl_max_encoded_bytes limits) (rl_max_mappings limits)) = Ok table).
  { apply parse_table_spec. split; [split; cbn [ul_max_encoded_bytes ul_max_mappings]|].
    - lia.
    - rewrite Hl. reflexivity.
    - lia.
    - exact Hc.
    - split; [exact Hs | exact Ht]. }
  unfold generate_recommended_exfat_upcase, validate_recommended_exfat_upcase.
  rewrite Hlim. cbn [mbind outcome_bind]. rewrite Hprofile. cbn [mbind outcome_bind].
  rewrite (proj2 (N.ltb_ge _ _)) by lia. rewrite Hl, N.eqb_refl. cbn [negb refuse_if mbind outcome_bind].
  case_bool_decide; cbn [negb refuse_if mbind outcome_bind]; [|reflexivity].
  rewrite Hparse. reflexivity.
Qed.

Lemma recommended_profile_generated_witness :
  exists bytes table,
    decode_profile RecommendedExfatUpcaseLimits_default = Ok bytes /\
    len bytes = RECOMMENDED_EXFAT_UPCASE_BYTES /\
    table_checksum bytes = RECOMMENDED_EXFAT_UPCASE_CHECKSUM /\
    spells 0 (encoded_words bytes) (ut_mappings table) /\ complete_table table /\
    @generate_recommended_exfat_upcase rolling_digests RecommendedExfatUpcaseLimits_default =
      if bool_decide (@sha256 rolling_digests bytes = RECOMMENDED_EXFAT_UPCASE_SHA256)
      then Ok (mkRecommendedExfatUpcase bytes table)
      else Err (ProfileDigestMismatch RECOMMENDED_EXFAT_UPCASE_SHA256 (@sha256 rolling_digests bytes)).
Proof.
  apply (@recommended_profile_generated rolling_digests RecommendedExfatUpcaseLimits_default).
  - discriminate.
  - discriminate.
  - split; [reflexivity | discriminate].
Defined.

(** names are compared by their mapped code units.  For valid names under a
    complete table, [collate] is the lexicographic comparison of the names after
    mapping, a total preorder; two names collide exactly when they are equal
    after mapping, which makes colliding an equivalence. *)
Theorem collation_is_lexicographic profile limits xs ys :
  complete_table (ru_table profile) -> code_units xs -> code_units ys ->
  check_profile_name xs limits = Ok tt -> check_profile_name ys limits = Ok tt ->
  let ux := upcased (ru_table profile) xs in
  let uy := upcased (ru_table profile) ys in
  collate profile xs ys limits = Ok (lex_compare ux uy) /\
  collate profile ys xs limits = Ok (CompOpp (lex_compare ux uy)) /\
  names_collide profile xs ys limits = Ok (bool_decide (ux = uy)) /\
  (lex_compare ux uy = Eq <-> ux = uy) /\
  forall uz, lex_compare ux uy <> Gt -> lex_compare uy uz <> Gt -> lex_compare ux uz <> Gt.
Proof.
  intros Ht Hx Hy Nx Ny ux uy.
  assert (Hc : forall a b, code_units a -> code_units b -> check_profile_name a limits = Ok tt ->
    check_profile_name b limits = Ok tt ->
    collate profile a b limits = Ok (lex_compare (upcased (ru_table profile) a) (upcased (ru_table profile) b))).
  { intros a b Ha Hb Na Nb. destruct (first_difference_in (ru_table profile) Ht a b Ha Hb) as (d & Hd & He).
    unfold collate. rewrite Na, Nb. cbn [mbind outcome_bind]. rewrite Hd. cbn [mbind outcome_bind].
    by rewrite He. }
  pose proof (lex_compare_eq ux uy) as Heq. split_and!.
  - by apply Hc.
  - rewrite Hc by done. by rewrite lex_compare_opp.
  - unfold names_collide. rewrite Hc by done. cbn [mbind outcome_bind]. f_equal. fold ux uy.
    destruct (lex_compare ux uy) eqn:Hl; symmetry; [apply bool_decide_eq_true | apply bool_decide_eq_false..];
      rewrite <- Heq; done.
  - exact Heq.
  - intros uz. apply lex_compare_trans.
Qed.

Lemma collation_is_lexicographic_witness :
  let profile := mkRecommendedExfatUpcase [] (mkUpcaseTable ascii_mappings) in
  let ux := upcased (ru_table profile) [65; 98] in
  let uy := upcased (ru_table profile) [97; 66; 67] in
  collate profile [65; 98] [97; 66; 67] RecommendedExfatUpcaseLimits_default = Ok (lex_compare ux uy) /\
  collate profile [97; 66; 67] [65; 98] RecommendedExfatUpcaseLimits_default
    = Ok (CompOpp (lex_compare ux uy)) /\
  names_collide profile [65; 98] [97; 66; 67] RecommendedExfatUpcaseLimits_default
    = Ok (bool_decide (ux = uy)) /\
  (lex_compare ux uy = Eq <-> ux = uy) /\
  forall uz, lex_compare ux uy <> Gt -> lex_compare uy uz <> Gt -> lex_compare ux uz <> Gt.
Proof.
  apply (collation_is_lexicographic (mkRecommendedExfatUpcase [] (mkUpcaseTable ascii_mappings))
    RecommendedExfatUpcaseLimits_default [65; 98] [97; 66; 67]).
  - unfold complete_table, ascii_mappings, indices, len. cbn [ut_mappings ru_table].
    rewrite !length_fmap, length_seq. apply N2Nat.id.
  - repeat constructor; unfold u16_max; lia.
  - repeat constructor; unfold u16_max; lia.
  - vm_compute. reflexivity.
  - vm_compute. reflexivity.
Defined.
