(* ===== verification/ExfatDirectory.v ===== *)
(** * exFAT directories

    The allocation-free parser of [fs/exfat_directory.rs]: the validation of the
    entries of one directory, with the entry sets of files, the system entries of
    the root, benign entries that are kept as bytes, and the summary.  The visitor
    of the source is the list of the records that it is called with.

    The theorems: what the records that are delivered satisfy; when the parser
    aborts, which it does for a file entry that declares no secondary entries;
    [ExfatEntries.v] proves that the directories of the serializer are read back. *)

From S2P Require Export Prelude Bytes ExfatUpcase.
From stdpp Require Import options.

#[local] Open Scope N_scope.

Definition ENTRY_BYTES : N := 32.
Definition ENTRY_IN_USE : N := 128.
Definition ENTRY_SECONDARY : N := 64.
Definition ENTRY_BENIGN : N := 32.
Definition TYPE_ALLOCATION_BITMAP : N := 129.
Definition TYPE_UPCASE_TABLE : N := 130.
Definition TYPE_VOLUME_LABEL : N := 131.
Definition TYPE_FILE : N := 133.
Definition TYPE_STREAM_EXTENSION : N := 192.
Definition TYPE_FILE_NAME : N := 193.
Definition MAX_FILE_NAME_UNITS : N := 255.
Definition MAX_DIRECTORY_BYTES : N := 256 * 1024 * 1024.
Definition VALID_FILE_ATTRIBUTES : N := 55.
Definition DIRECTORY_ATTRIBUTE : N := 16.

(** ** Data *)
Record DirectoryContext : Type := mkDirectoryContext {
  dc_cluster_count : N;
  dc_bytes_per_cluster : N;
  dc_number_of_fats : N;
  dc_is_root : bool;
  dc_max_entries : N;
  dc_max_secondary_entries : N
}.

Record DirectorySummary : Type := mkDirectorySummary {
  ds_entries_examined : N;
  ds_records : N;
  ds_unused_entries : N;
  ds_reached_end_marker : bool;
  ds_allocation_bitmaps : N;
  ds_upcase_tables : N;
  ds_volume_labels : N;
  ds_files : N;
  ds_benign_primary_sets : N
}.

Record AllocationBitmapEntry : Type := mkAllocationBitmapEntry {
  ab_bitmap_identifier : N;
  ab_first_cluster : N;
  ab_data_length : N
}.
Record UpcaseTableEntry : Type := mkUpcaseTableEntry {
  ue_table_checksum : N;
  ue_first_cluster : N;
  ue_data_length : N
}.
(** The label's 11 units, of which the first are in use. *)
Record VolumeLabelEntry : Type := mkVolumeLabelEntry {
  vl_units : list N;
  vl_len : N;
  vl_padding_zeroed : bool
}.
(** The name's 255 units, of which the first are in use. *)
Record FileName : Type := mkFileName {
  fn_units : list N;
  fn_len : N
}.

Record FileEntry : Type := mkFileEntry {
  fe_file_attributes : N;
  fe_create_timestamp : N;
  fe_modified_timestamp : N;
  fe_accessed_timestamp : N;
  fe_create_centiseconds : N;
  fe_modified_centiseconds : N;
  fe_create_utc_offset : N;
  fe_modified_utc_offset : N;
  fe_accessed_utc_offset : N;
  fe_is_directory : bool;
  fe_no_fat_chain : bool;
  fe_name_hash : N;
  fe_valid_data_length : N;
  fe_first_cluster : N;
  fe_data_length : N;
  fe_name : FileName;
  fe_name_padding_zeroed : bool;
  fe_benign_secondary_entries : N;
  fe_raw_set : list byte
}.

Inductive DirectoryRecord : Type :=
| RecordUnused (entry_type : N) (raw : list byte)
| RecordAllocationBitmap (entry : AllocationBitmapEntry)
| RecordUpcaseTable (entry : UpcaseTableEntry)
| RecordVolumeLabel (entry : VolumeLabelEntry)
| RecordFile (entry : FileEntry)
| RecordBenignPrimary (entry_type secondary_count : N) (raw_set : list byte).

Inductive DirectoryError : Type :=
| InvalidContext (reason : string)
| LengthNotEntryAligned (actual : N)
| EntryLimitExceeded (entries limit : N)
| InvalidEntryType (index entry_type : N)
| UnexpectedSecondary (index entry_type : N)
| UnknownCriticalEntry (index entry_type : N)
| CriticalSystemEntryOutsideRoot (index entry_type : N)
| EntrySetTruncated (index secondary_count : N)
| SecondaryLimitExceeded (index count limit : N)
| InvalidSetMember (index entry_type : N)
| SetChecksumMismatch (index stored computed : N)
| DirectoryReservedNotZero (index offset value : N)
| InvalidEntryFlags (index value : N)
| InvalidEntryTimestamp (index offset value : N)
| InvalidEntryCluster (index cluster : N)
| InvalidDataLength (index length : N)
| InvalidBitmapIdentifier (index identifier : N)
| BitmapTooShort (index length required : N)
| BitmapTooLong (index length required : N)
| InvalidVolumeLabelLength (index length : N)
| InvalidNameLength (index length : N)
| InvalidNameEntryCount (index expected found : N)
| InvalidNameCharacter (index code_unit : N)
| InvalidUtf16Name (index : N)
| ReservedFileName (index : N)
| InvalidValidDataLength (index valid data : N)
| DirectoryDataLengthMismatch (index valid data : N)
| DirectoryTooLarge (index length : N)
| ContiguousAllocationOutsideHeap (index : N)
| DuplicateAllocationBitmap (identifier : N)
| InvalidRootEntryCount (entry_type found expected : N)
| DirectoryOverflow (operation : string).

(** [VolumeLabelEntry::as_units] and [FileName::as_units]. *)
Definition label_units (label : VolumeLabelEntry) : outcome DirectoryError (list N) :=
  index_range 0 (vl_len label) (vl_units label).
Definition name_units (name : FileName) : outcome DirectoryError (list N) :=
  index_range 0 (fn_len name) (fn_units name).

(** ** Fields *)
Definition entry_at {E : Type} (bytes : list byte) (index : N) : outcome E (list byte) :=
  index_range (index * ENTRY_BYTES) ((index + 1) * ENTRY_BYTES) bytes.

(** Set in the bits of [mask]. *)
Definition has_bits (value mask : N) : bool := negb (N.land value mask =? 0).

Definition require_zero (entry : list byte) (start end_ index : N) : outcome DirectoryError unit :=
  range ← index_range start end_ entry;
  match find_nonzero 0 range with
  | Some (relative, value) =>
      Err (DirectoryReservedNotZero index (start + relative) (Byte.to_N value))
  | None => Ok tt
  end.

Definition require_root (context : DirectoryContext) (index entry_type : N)
    : outcome DirectoryError unit :=
  refuse_if (negb (dc_is_root context)) (CriticalSystemEntryOutsideRoot index entry_type).
Definition require_count (entry_type found expected : N) : outcome DirectoryError unit :=
  refuse_if (negb (found =? expected)) (InvalidRootEntryCount entry_type found expected).

(** The parts of a timestamp and the days of its month. *)
Definition timestamp_day (timestamp : N) : N := N.land (N.shiftr timestamp 16) 31.
Definition timestamp_month (timestamp : N) : N := N.land (N.shiftr timestamp 21) 15.
Definition timestamp_year (timestamp : N) : N := 1980 + N.land (N.shiftr timestamp 25) 127.
Definition maximum_day (year month : N) : N :=
  let leap := (N.land year 3 =? 0) && negb (year =? 2100) in
  if existsb (N.eqb month) [1; 3; 5; 7; 8; 10; 12] then 31
  else if existsb (N.eqb month) [4; 6; 9; 11] then 30
  else if (month =? 2) && leap then 29
  else if month =? 2 then 28
  else 0.
(** [year.trailing_zeros() >= 2] is written as a test of the low bits. *)
Definition timestamp_valid (timestamp : N) : bool :=
  let double_seconds := N.land timestamp 31 in
  let minute := N.land (N.shiftr timestamp 5) 63 in
  let hour := N.land (N.shiftr timestamp 11) 31 in
  let day := timestamp_day timestamp in
  negb ((29 <? double_seconds) || (59 <? minute) || (23 <? hour) || (day =? 0)
        || (maximum_day (timestamp_year timestamp) (timestamp_month timestamp) <? day)).
Definition validate_timestamp (entry : list byte) (index offset : N)
    : outcome DirectoryError unit :=
  timestamp ← read_le 4 entry offset;
  refuse_if (negb (timestamp_valid timestamp)) (InvalidEntryTimestamp index offset timestamp).

(** ** Names *)

Definition forbidden_unit (unit : N) : bool :=
  (unit <=? 31) || existsb (N.eqb unit) [34; 42; 47; 58; 60; 62; 63; 92; 124].
Definition dot_name (units : list N) : bool :=
  bool_decide (units = [46]) || bool_decide (units = [46; 46]).

Definition validate_name_units (units : list N) (index : N) (reject_dot_names : bool)
    : outcome DirectoryError unit :=
  for_each (fun unit => refuse_if (forbidden_unit unit) (InvalidNameCharacter index unit)) units ;;
  refuse_if (negb (utf16_valid units)) (InvalidUtf16Name index) ;;
  refuse_if (reject_dot_names && dot_name units) (ReservedFileName index).

(** ** Allocations *)
Definition validate_allocation (index cluster length : N) (no_fat_chain : bool)
    (context : DirectoryContext) : outcome DirectoryError unit :=
  maximum_cluster ← ok_or (DirectoryOverflow "maximum cluster")
    (checked_add_u32 (dc_cluster_count context) 1);
  if cluster =? 0 then
    refuse_if (negb (length =? 0) || no_fat_chain) (InvalidDataLength index length)
  else
    refuse_if (negb ((2 <=? cluster) && (cluster <=? maximum_cluster)))
      (InvalidEntryCluster index cluster) ;;
    heap_bytes ← ok_or (DirectoryOverflow "cluster heap byte length")
      (checked_mul (dc_cluster_count context) (dc_bytes_per_cluster context));
    refuse_if ((heap_bytes <? length) || (no_fat_chain && (length =? 0)))
      (InvalidDataLength index length) ;;
    if no_fat_chain then
      whole ← div_u64 length (dc_bytes_per_cluster context);
      rest ← rem_u64 length (dc_bytes_per_cluster context);
      let clusters := if 0 <? rest then whole + 1 else whole in
      last ← ok_or (DirectoryOverflow "contiguous allocation end")
        (checked_add cluster (saturating_sub clusters 1));
      refuse_if (maximum_cluster <? last) (ContiguousAllocationOutsideHeap index)
    else Ok tt.

(** ** Entry sets *)
Definition checked_set (directory : list byte) (index count : N) (context : DirectoryContext)
    : outcome DirectoryError (list byte) :=
  refuse_if (dc_max_secondary_entries context <? count)
    (SecondaryLimitExceeded index count (dc_max_secondary_entries context)) ;;
  end_entry ← ok_or (DirectoryOverflow "entry set end") (checked_add index (count + 1));
  refuse_if (len directory / ENTRY_BYTES <? end_entry) (EntrySetTruncated index count) ;;
  index_range (index * ENTRY_BYTES) (end_entry * ENTRY_BYTES) directory.

(** The checksum of a set skips its own field. *)
Definition set_checksum_of (raw : list byte) : N :=
  fold_left (fun sum entry => hash_step sum (snd entry))
    (List.filter (fun entry => negb ((fst entry =? 2) || (fst entry =? 3))) (enumerate raw)) 0.

Definition verify_set_checksum (raw : list byte) (index : N) : outcome DirectoryError unit :=
  stored ← read_le 2 raw 2;
  let computed := set_checksum_of raw in
  refuse_if (negb (stored =? computed)) (SetChecksumMismatch index stored computed).

Definition generic_benign_set (directory : list byte) (index count : N)
    (context : DirectoryContext) : outcome DirectoryError (list byte) :=
  raw ← checked_set directory index count context;
  verify_set_checksum raw index ;;
  for_each (fun member_index =>
    member ← entry_at raw member_index;
    member_type ← read_le 1 member 0;
    refuse_if (negb (N.land member_type (ENTRY_IN_USE + ENTRY_SECONDARY)
                     =? ENTRY_IN_USE + ENTRY_SECONDARY))
      (InvalidSetMember (index + member_index) member_type))
    ((fun i => i + 1) <$> indices count) ;;
  Ok raw.

(** ** System entries *)
Definition parse_bitmap (entry : list byte) (index : N) (context : DirectoryContext)
    : outcome DirectoryError AllocationBitmapEntry :=
  flags ← read_le 1 entry 1;
  refuse_if (has_bits flags 254) (InvalidEntryFlags index flags) ;;
  require_zero entry 2 20 index ;;
  let identifier := N.land flags 1 in
  refuse_if (dc_number_of_fats context <=? identifier)
    (InvalidBitmapIdentifier index identifier) ;;
  first_cluster ← read_le 4 entry 20;
  data_length ← read_le 8 entry 24;
  validate_allocation index first_cluster data_length false context ;;
  let required := (dc_cluster_count context + 7) / 8 in
  refuse_if (data_length <? required) (BitmapTooShort index data_length required) ;;
  refuse_if (required <? data_length) (BitmapTooLong index data_length required) ;;
  Ok (mkAllocationBitmapEntry identifier first_cluster data_length).

Definition parse_upcase (entry : list byte) (index : N) (context : DirectoryContext)
    : outcome DirectoryError UpcaseTableEntry :=
  require_zero entry 1 4 index ;;
  require_zero entry 8 20 index ;;
  first_cluster ← read_le 4 entry 20;
  data_length ← read_le 8 entry 24;
  validate_allocation index first_cluster data_length false context ;;
  refuse_if ((data_length =? 0) || has_bits data_length 1)
    (InvalidDataLength index data_length) ;;
  table_checksum ← read_le 4 entry 4;
  Ok (mkUpcaseTableEntry table_checksum first_cluster data_length).

Definition parse_volume_label (entry : list byte) (index : N)
    : outcome DirectoryError VolumeLabelEntry :=
  label_len ← read_le 1 entry 1;
  refuse_if (11 <? label_len) (InvalidVolumeLabelLength index label_len) ;;
  require_zero entry 24 32 index ;;
  units ← try_fold (fun units slot =>
    unit ← read_le 2 entry (2 + slot * 2); Ok (units ++ [unit])) [] (indices 11);
  used ← index_range 0 label_len units;
  validate_name_units used index false ;;
  unused ← index_range label_len 11 units;
  Ok (mkVolumeLabelEntry units label_len (forallb (N.eqb 0) unused)).

(** ** File entry sets

    The checks of the primary entry, of the stream extension, of the name
    entries and of the entries after them are definitions of their own. *)
Definition check_file_primary (primary : list byte) (index : N) : outcome DirectoryError unit :=
  attributes ← read_le 2 primary 4;
  refuse_if (has_bits attributes (N.lxor VALID_FILE_ATTRIBUTES u16_max))
    (InvalidEntryFlags index attributes) ;;
  require_zero primary 6 8 index ;;
  require_zero primary 25 32 index ;;
  for_each (validate_timestamp primary index) [8; 12; 16] ;;
  for_each (fun offset =>
    value ← read_le 1 primary offset;
    refuse_if (199 <? value) (InvalidEntryFlags index value)) [20; 21] ;;
  for_each (fun offset =>
    value ← read_le 1 primary offset;
    refuse_if ((N.land value 128 =? 0) && negb (value =? 0)) (InvalidEntryFlags index value))
    [22; 23; 24].

(** The flags and the length of the name. *)
Definition check_stream (stream : list byte) (index : N) : outcome DirectoryError (N * N) :=
  stream_type ← read_le 1 stream 0;
  refuse_if (negb (stream_type =? TYPE_STREAM_EXTENSION))
    (InvalidSetMember (index + 1) stream_type) ;;
  flags ← read_le 1 stream 1;
  refuse_if (has_bits flags 252 || (N.land flags 1 =? 0)) (InvalidEntryFlags (index + 1) flags) ;;
  require_zero stream 2 3 (index + 1) ;;
  require_zero stream 6 8 (index + 1) ;;
  require_zero stream 16 20 (index + 1) ;;
  name_length ← read_le 1 stream 3;
  refuse_if (name_length =? 0) (InvalidNameLength (index + 1) name_length) ;;
  Ok (flags, name_length).

(** The units filled so far, the cursor, and whether the padding is zero. *)
Definition NameScan : Type := list N * N * bool.
Definition take_unit (name_length : N) (state : NameScan) (unit : N)
    : outcome DirectoryError NameScan :=
  let '(units, cursor, padding_zeroed) := state in
  if cursor <? name_length then
    units ← copy_from_slice cursor (cursor + 1) [unit] units;
    Ok (units, cursor + 1, padding_zeroed)
  else Ok (units, cursor + 1, if unit =? 0 then padding_zeroed else false).
Definition scan_name_entry (raw_set : list byte) (index name_length : N) (state : NameScan)
    (sequence : N) : outcome DirectoryError NameScan :=
  let member_index := 2 + sequence in
  member ← entry_at raw_set member_index;
  member_type ← read_le 1 member 0;
  refuse_if (negb (member_type =? TYPE_FILE_NAME))
    (InvalidSetMember (index + member_index) member_type) ;;
  flags ← read_le 1 member 1;
  refuse_if (negb (flags =? 0)) (InvalidEntryFlags (index + member_index) flags) ;;
  try_fold (fun state slot =>
    unit ← read_le 2 member (2 + slot * 2); take_unit name_length state unit)
    state (indices 15).
Definition scan_name (raw_set : list byte) (index name_length name_entries : N)
    : outcome DirectoryError (FileName * bool) :=
  '(units, _, padding_zeroed) ←
    try_fold (scan_name_entry raw_set index name_length)
      (replicate (N.to_nat MAX_FILE_NAME_UNITS) 0, 0, true) (indices name_entries);
  Ok (mkFileName units name_length, padding_zeroed).

(** The members from [first] up to the last secondary. *)
Definition check_benign_secondaries (raw_set : list byte) (index first secondary_count : N)
    : outcome DirectoryError unit :=
  for_each (fun member_index =>
    member ← entry_at raw_set member_index;
    member_type ← read_le 1 member 0;
    refuse_if (negb (N.land member_type (ENTRY_IN_USE + ENTRY_SECONDARY + ENTRY_BENIGN)
                     =? ENTRY_IN_USE + ENTRY_SECONDARY + ENTRY_BENIGN))
      (if N.land member_type ENTRY_BENIGN =? 0
       then UnknownCriticalEntry (index + member_index) member_type
       else InvalidSetMember (index + member_index) member_type))
    ((fun i => first + i) <$> indices (secondary_count + 1 - first)).

Definition check_lengths (index valid data : N) (is_directory : bool)
    : outcome DirectoryError unit :=
  refuse_if (data <? valid) (InvalidValidDataLength index valid data) ;;
  refuse_if (is_directory && negb (valid =? data)) (DirectoryDataLengthMismatch index valid data) ;;
  refuse_if (is_directory && (MAX_DIRECTORY_BYTES <? data)) (DirectoryTooLarge index data).

(** The number of name entries and of the entries of the whole set. *)
Definition name_entry_count (name_length : N) : N := (name_length + 14) / 15.

Definition parse_file_set (directory : list byte) (index : N) (context : DirectoryContext)
    : outcome DirectoryError (FileEntry * N) :=
  primary ← entry_at directory index;
  secondary_count ← read_le 1 primary 1;
  raw_set ← checked_set directory index secondary_count context;
  verify_set_checksum raw_set index ;;
  check_file_primary primary index ;;
  stream ← entry_at raw_set 1;
  '(flags, name_length) ← check_stream stream index;
  let name_entries := name_entry_count name_length in
  refuse_if (secondary_count <? name_entries + 1)
    (InvalidNameEntryCount index name_entries (saturating_sub secondary_count 1)) ;;
  '(name, padding_zeroed) ← scan_name raw_set index name_length name_entries;
  units ← name_units name;
  validate_name_units units index true ;;
  required_secondaries ← ok_or (DirectoryOverflow "required file secondaries")
    (u8_try_from (1 + name_entries));
  benign_count ← sub_u64 secondary_count required_secondaries;
  check_benign_secondaries raw_set index (required_secondaries + 1) secondary_count ;;
  valid_data_length ← read_le 8 stream 8;
  first_cluster ← read_le 4 stream 20;
  data_length ← read_le 8 stream 24;
  let no_fat_chain := has_bits flags 2 in
  validate_allocation (index + 1) first_cluster data_length no_fat_chain context ;;
  file_attributes ← read_le 2 primary 4;
  let is_directory := has_bits file_attributes DIRECTORY_ATTRIBUTE in
  check_lengths index valid_data_length data_length is_directory ;;
  create_timestamp ← read_le 4 primary 8;
  modified_timestamp ← read_le 4 primary 12;
  accessed_timestamp ← read_le 4 primary 16;
  create_centiseconds ← read_le 1 primary 20;
  modified_centiseconds ← read_le 1 primary 21;
  create_utc_offset ← read_le 1 primary 22;
  modified_utc_offset ← read_le 1 primary 23;
  accessed_utc_offset ← read_le 1 primary 24;
  name_hash ← read_le 2 stream 4;
  Ok (mkFileEntry file_attributes create_timestamp modified_timestamp accessed_timestamp
        create_centiseconds modified_centiseconds create_utc_offset modified_utc_offset
        accessed_utc_offset is_directory no_fat_chain name_hash valid_data_length
        first_cluster data_length name padding_zeroed benign_count raw_set,
      secondary_count + 1).

(** ** The scan *)

(** The summary, the identifiers of the bitmaps seen, and the records passed to
    the visitor, in order. *)
Record Scan : Type := mkScan {
  sc_summary : DirectorySummary;
  sc_bitmap_mask : N;
  sc_records : list DirectoryRecord
}.
Definition empty_scan : Scan := mkScan (mkDirectorySummary 0 0 0 false 0 0 0 0 0) 0 [].

(** The assignments to the summary. *)
Definition examine (n : N) (s : DirectorySummary) : DirectorySummary :=
  mkDirectorySummary n (ds_records s) (ds_unused_entries s) (ds_reached_end_marker s)
    (ds_allocation_bitmaps s) (ds_upcase_tables s) (ds_volume_labels s) (ds_files s)
    (ds_benign_primary_sets s).
Definition mark_end (s : DirectorySummary) : DirectorySummary :=
  mkDirectorySummary (ds_entries_examined s) (ds_records s) (ds_unused_entries s) true
    (ds_allocation_bitmaps s) (ds_upcase_tables s) (ds_volume_labels s) (ds_files s)
    (ds_benign_primary_sets s).
(** Of the five kinds of records only the unused entries are not counted as
    records; the counts of tables and labels saturate. *)
Definition u8_saturating_add (a b : N) : N := N.min (a + b) u8_max.
Definition count_record (record : DirectoryRecord) (s : DirectorySummary)
    : outcome DirectoryError DirectorySummary :=
  let '(mkDirectorySummary examined records unused end_ bitmaps tables labels files benign) := s in
  match record with
  | RecordUnused _ _ =>
      Ok (mkDirectorySummary examined records (unused + 1) end_ bitmaps tables labels files benign)
  | RecordAllocationBitmap _ =>
      bitmaps ← expect (u8_try_from (bitmaps + 1));
      Ok (mkDirectorySummary examined (records + 1) unused end_ bitmaps tables labels files benign)
  | RecordUpcaseTable _ =>
      Ok (mkDirectorySummary examined (records + 1) unused end_ bitmaps
            (u8_saturating_add tables 1) labels files benign)
  | RecordVolumeLabel _ =>
      Ok (mkDirectorySummary examined (records + 1) unused end_ bitmaps tables
            (u8_saturating_add labels 1) files benign)
  | RecordFile _ =>
      Ok (mkDirectorySummary examined (records + 1) unused end_ bitmaps tables labels
            (files + 1) benign)
  | RecordBenignPrimary _ _ _ =>
      Ok (mkDirectorySummary examined (records + 1) unused end_ bitmaps tables labels files
            (benign + 1))
  end.
Definition deliver (record : DirectoryRecord) (scan : Scan) : outcome DirectoryError Scan :=
  summary ← count_record record (sc_summary scan);
  Ok (mkScan summary (sc_bitmap_mask scan) (sc_records scan ++ [record])).
Definition with_mask (mask : N) (scan : Scan) : Scan :=
  mkScan (sc_summary scan) mask (sc_records scan).

(** An entry in use: what it adds to the scan and how many entries it takes. *)
Definition scan_entry (directory : list byte) (context : DirectoryContext) (index : N)
    (entry : list byte) (entry_type : N) (scan : Scan) : outcome DirectoryError (Scan * N) :=
  if entry_type =? TYPE_ALLOCATION_BITMAP then
    require_root context index entry_type ;;
    parsed ← parse_bitmap entry index context;
    let bit := N.shiftl 1 (ab_bitmap_identifier parsed) in
    refuse_if (has_bits (sc_bitmap_mask scan) bit)
      (DuplicateAllocationBitmap (ab_bitmap_identifier parsed)) ;;
    scan ← deliver (RecordAllocationBitmap parsed)
             (with_mask (N.lor (sc_bitmap_mask scan) bit) scan);
    Ok (scan, 1)
  else if entry_type =? TYPE_UPCASE_TABLE then
    require_root context index entry_type ;;
    parsed ← parse_upcase entry index context;
    scan ← deliver (RecordUpcaseTable parsed) scan;
    Ok (scan, 1)
  else if entry_type =? TYPE_VOLUME_LABEL then
    require_root context index entry_type ;;
    parsed ← parse_volume_label entry index;
    scan ← deliver (RecordVolumeLabel parsed) scan;
    Ok (scan, 1)
  else if entry_type =? TYPE_FILE then
    '(parsed, count) ← parse_file_set directory index context;
    scan ← deliver (RecordFile parsed) scan;
    Ok (scan, count)
  else if has_bits entry_type ENTRY_BENIGN then
    secondary_count ← read_le 1 entry 1;
    raw_set ← generic_benign_set directory index secondary_count context;
    scan ← deliver (RecordBenignPrimary entry_type secondary_count raw_set) scan;
    Ok (scan, secondary_count + 1)
  else Err (UnknownCriticalEntry index entry_type).

(** What follows the end marker. *)
Definition require_end (directory : list byte) (index entry_count : N)
    : outcome DirectoryError unit :=
  for_each (fun later =>
    entry ← entry_at directory later;
    later_type ← read_le 1 entry 0;
    refuse_if (negb (later_type =? 0)) (InvalidEntryType later later_type))
    ((fun i => index + 1 + i) <$> indices (entry_count - (index + 1))).

(** The loop.  Every round passes at least one entry, so that one more than the
    number of entries is fuel enough. *)
Fixpoint scan_loop (fuel : nat) (directory : list byte) (context : DirectoryContext)
    (index : N) (scan : Scan) : outcome DirectoryError Scan :=
  match fuel with
  | O => Panic
  | S fuel =>
      let entry_count := len directory / ENTRY_BYTES in
      if index <? entry_count then
        entry ← entry_at directory index;
        entry_type ← read_le 1 entry 0;
        let scan := mkScan (examine (index + 1) (sc_summary scan))
                      (sc_bitmap_mask scan) (sc_records scan) in
        if entry_type =? 0 then
          require_end directory index entry_count ;;
          Ok (mkScan (examine entry_count (mark_end (sc_summary scan)))
                (sc_bitmap_mask scan) (sc_records scan))
        else if entry_type =? ENTRY_IN_USE then Err (InvalidEntryType index entry_type)
        else if N.land entry_type ENTRY_IN_USE =? 0 then
          scan ← deliver (RecordUnused entry_type entry) scan;
          scan_loop fuel directory context (index + 1) scan
        else if has_bits entry_type ENTRY_SECONDARY then
          Err (UnexpectedSecondary index entry_type)
        else
          '(scan, consumed) ← scan_entry directory context index entry entry_type scan;
          index ← ok_or (DirectoryOverflow "directory entry index") (checked_add index consumed);
          scan_loop fuel directory context index scan
      else Ok scan
  end.

(** The counts that a root directory must have. *)
Definition check_root_counts (context : DirectoryContext) (summary : DirectorySummary)
    : outcome DirectoryError unit :=
  if dc_is_root context then
    require_count TYPE_ALLOCATION_BITMAP (ds_allocation_bitmaps summary)
      (dc_number_of_fats context) ;;
    require_count TYPE_UPCASE_TABLE (ds_upcase_tables summary) 1 ;;
    refuse_if (1 <? ds_volume_labels summary)
      (InvalidRootEntryCount TYPE_VOLUME_LABEL (ds_volume_labels summary) 1)
  else Ok tt.

Definition scan_directory (directory : list byte) (context : DirectoryContext)
    : outcome DirectoryError (DirectorySummary * list DirectoryRecord) :=
  scan ← scan_loop (S (N.to_nat (len directory / ENTRY_BYTES))) directory context 0 empty_scan;
  check_root_counts context (sc_summary scan) ;;
  Ok (sc_summary scan, sc_records scan).

Definition validate_context (directory : list byte) (context : DirectoryContext)
    : outcome DirectoryError unit :=
  refuse_if (dc_cluster_count context =? 0) (InvalidContext "cluster_count is zero") ;;
  refuse_if ((dc_bytes_per_cluster context =? 0)
             || negb (is_power_of_two (dc_bytes_per_cluster context)))
    (InvalidContext "bytes_per_cluster is not a non-zero power of two") ;;
  refuse_if (negb ((dc_number_of_fats context =? 1) || (dc_number_of_fats context =? 2)))
    (InvalidContext "number_of_fats is not one or two") ;;
  refuse_if (dc_max_entries context =? 0) (InvalidContext "max_entries is zero") ;;
  let entries := len directory / ENTRY_BYTES in
  refuse_if (negb (entries * ENTRY_BYTES =? len directory))
    (LengthNotEntryAligned (len directory)) ;;
  refuse_if (dc_max_entries context <? entries)
    (EntryLimitExceeded entries (dc_max_entries context)).

(** The first pass delivers nothing, so that the records are those of the
    second one. *)
Definition parse_directory (directory : list byte) (context : DirectoryContext)
    : outcome DirectoryError (DirectorySummary * list DirectoryRecord) :=
  validate_context directory context ;;
  _ ← scan_directory directory context;
  scan_directory directory context.

(** * Lemmas *)

(** ** Safe steps *)
Lemma entry_at_in {E} b index :
  (index + 1) * ENTRY_BYTES <= len b ->
  @entry_at E b index = Ok (subslice (index * ENTRY_BYTES) ((index + 1) * ENTRY_BYTES) b).
Proof. intros. apply index_range_in; unfold ENTRY_BYTES in *; lia. Qed.
Lemma entry_at_Ok {E} b index e :
  @entry_at E b index = Ok e ->
  (index + 1) * ENTRY_BYTES <= len b /\ len e = ENTRY_BYTES /\
  e = subslice (index * ENTRY_BYTES) ((index + 1) * ENTRY_BYTES) b.
Proof. intros (?&?&->)%index_range_Ok. split_and!; [done | by apply len_entry_slice | done]. Qed.

Lemma require_zero_safe e lo hi index : lo <= hi -> hi <= len e -> require_zero e lo hi index <> Panic.
Proof.
  intros. unfold require_zero. rewrite index_range_in by done. simpl. by destruct (find_nonzero _ _) as [[]|].
Qed.
Lemma require_zero_Ok e lo hi index u :
  require_zero e lo hi index = Ok u -> Forall (fun b => b = x00) (subslice lo hi e).
Proof.
  unfold require_zero. intros H. inv_ok. inv_reads.
  destruct (find_nonzero _ _) as [[]|] eqn:He; [done |]. by apply find_nonzero_None in He.
Qed.
Lemma validate_timestamp_safe e index o : o + 4 <= len e -> validate_timestamp e index o <> Panic.
Proof. intros. unfold validate_timestamp. rewrite read_le_in by lia. simpl. apply refuse_if_safe. Qed.
Lemma validate_timestamp_Ok e index o u :
  validate_timestamp e index o = Ok u -> timestamp_valid (field 4 e o) = true.
Proof. unfold validate_timestamp. intros H. inv_ok. inv_reads. by bool_props. Qed.

(** ** Names and allocations *)
Definition valid_name_units (reject_dot_names : bool) (units : list N) : Prop :=
  Forall (fun unit => forbidden_unit unit = false) units /\ utf16_valid units = true /\
  (reject_dot_names = true -> dot_name units = false).
Lemma validate_name_units_Ok units index d u :
  validate_name_units units index d = Ok u <-> valid_name_units d units.
Proof.
  unfold validate_name_units, valid_name_units. rewrite bind_Ok. split.
  - intros (? & Hf & H). inv_ok. apply for_each_Ok in Hf. bool_props. split_and!; [|done|].
    + eapply Forall_impl; [exact Hf |]. intros unit Hx. by apply refuse_if_Ok in Hx.
    + intros ->. done.
  - intros (Hf & Hv & Hd). exists tt. split.
    + apply for_each_Ok. eapply Forall_impl; [exact Hf |]. intros x Hx. by apply refuse_if_Ok.
    + rewrite Hv. simpl. destruct u. apply refuse_if_Ok. destruct d; [by apply Hd | done].
Qed.
Lemma validate_name_units_safe units index d : validate_name_units units index d <> Panic.
Proof. unfold validate_name_units. safe. Qed.

(** No storage, or clusters of the heap that hold the data; those of an
    allocation without a FAT chain follow one another. *)
Definition allocation_ok (context : DirectoryContext) (cluster length : N) (contiguous : bool)
    : Prop :=
  (cluster = 0 /\ length = 0 /\ contiguous = false) \/
  (2 <= cluster <= dc_cluster_count context + 1 /\
   length <= dc_cluster_count context * dc_bytes_per_cluster context /\
   (contiguous = true ->
    0 < length /\
    cluster + (length + (dc_bytes_per_cluster context - 1)) / dc_bytes_per_cluster context
      <= dc_cluster_count context + 2)).

Lemma validate_allocation_yields index cluster length contiguous context :
  dc_bytes_per_cluster context <> 0 ->
  yields (fun _ => allocation_ok context cluster length contiguous)
    (validate_allocation index cluster length contiguous context).
Proof.
  intros Hb. apply yields_intro; [unfold validate_allocation; safe; auto with star |].
  { by apply div_u64_safe. } { by apply rem_u64_safe. }
  intros [] H. unfold validate_allocation in H. apply bind_Ok in H as (m & Hm & H).
  apply ok_or_Ok, checked_add_u32_Some in Hm as [-> _].
  destruct (N.eqb_spec cluster 0) as [->|Hc].
  - inv_ok. bool_props. by left.
  - right. apply bind_Ok in H as ([] & Hr%refuse_if_Ok & H). bool_props.
    apply bind_Ok in H as (heap & Hh%ok_or_Ok%checked_mul_Some & H). destruct Hh as [-> _].
    apply bind_Ok in H as ([] & Hl%refuse_if_Ok & H). bool_props.
    split_and!; [done | done | done |]. intros ->. simpl in *.
    apply bind_Ok in H as (whole & [-> _]%div_u64_Ok & H).
    apply bind_Ok in H as (rest & [-> _]%rem_u64_Ok & H).
    rewrite div_ceil_split in H by done. inv_ok. bool_props. unfold saturating_sub in *.
    split; lia.
Qed.
Lemma allocation_accepted index cluster length contiguous context :
  dc_cluster_count context < u32_max -> dc_bytes_per_cluster context <> 0 ->
  dc_bytes_per_cluster context <= u32_max ->
  allocation_ok context cluster length contiguous ->
  validate_allocation index cluster length contiguous context = Ok tt.
Proof.
  intros Hn Hb Hw Ha. unfold validate_allocation. widths.
  rewrite (proj2 (checked_add_u32_Some _ _ (dc_cluster_count context + 1))) by (split; [done | lia]).
  cbn [ok_or mbind outcome_bind].
  destruct Ha as [(-> & -> & ->)|(Hc & Hl & Ht)]; [done |].
  rewrite (proj2 (N.eqb_neq cluster 0)) by lia.
  rewrite (proj2 (N.leb_le 2 cluster)), (proj2 (N.leb_le cluster _)) by lia. simpl.
  assert (dc_cluster_count context * dc_bytes_per_cluster context <= u32_max * u32_max)
    by (apply N.mul_le_mono; lia).
  assert (u32_max * u32_max <= u64_max) by (by vm_compute).
  rewrite checked_mul_in by lia. cbn [ok_or mbind outcome_bind].
  rewrite (proj2 (N.ltb_ge _ length)) by lia. destruct contiguous; [|done].
  destruct (Ht eq_refl) as [Hpos He]. rewrite (proj2 (N.eqb_neq length 0)) by lia. simpl.
  rewrite div_u64_in, rem_u64_in by done. cbn [mbind outcome_bind].
  rewrite div_ceil_split by done. unfold saturating_sub. rewrite checked_add_in by lia. simpl.
  by rewrite (proj2 (N.ltb_ge _ _)) by lia.
Qed.

(** ** Entry sets *)

(** [count + 1] whole entries of the directory from [index] on. *)
Definition is_set (directory : list byte) (index count : N) (raw : list byte) : Prop :=
  raw = subslice (index * ENTRY_BYTES) ((index + (count + 1)) * ENTRY_BYTES) directory /\
  (index + (count + 1)) * ENTRY_BYTES <= len directory.
Lemma is_set_len directory index count raw :
  is_set directory index count raw -> len raw = (count + 1) * ENTRY_BYTES.
Proof. intros [-> ?]. unfold ENTRY_BYTES in *. rewrite len_subslice by lia. lia. Qed.

Lemma checked_set_Ok directory index count context raw :
  checked_set directory index count context = Ok raw <->
  count <= dc_max_secondary_entries context /\ index + (count + 1) <= u64_max /\
  is_set directory index count raw.
Proof.
  unfold checked_set, is_set. pose proof (N.Div0.div_mod (len directory) ENTRY_BYTES) as Hd.
  pose proof (N.mod_lt (len directory) ENTRY_BYTES ltac:(done)) as Hm.
  split.
  - intros H. inv_ok. bool_props. inv_reads. unfold ENTRY_BYTES in *. split_and!; [lia | lia | done | lia].
  - intros (Hc & Hi & -> & Hl). rewrite (proj2 (N.ltb_ge _ count)) by lia.
    rewrite checked_add_in by lia. cbn [refuse_if ok_or mbind outcome_bind].
    rewrite (proj2 (N.ltb_ge _ _)) by (unfold ENTRY_BYTES in *; lia). simpl.
    apply index_range_in; unfold ENTRY_BYTES in *; lia.
Qed.
Lemma checked_set_safe directory index count context :
  checked_set directory index count context <> Panic.
Proof.
  unfold checked_set. pose proof (N.Div0.div_mod (len directory) ENTRY_BYTES) as Hd.
  pose proof (N.mod_lt (len directory) ENTRY_BYTES ltac:(done)) as Hm.
  revert Hd Hm. generalize (len directory / ENTRY_BYTES), (len directory mod ENTRY_BYTES).
  intros q r Hd Hm. apply bind_safe; [apply refuse_if_safe | intros _ _].
  apply bind_safe; [apply ok_or_safe |]. intros e [-> _]%ok_or_Ok%checked_add_Some.
  apply bind_safe; [apply refuse_if_safe |]. intros _ Hr%refuse_if_Ok. bool_props.
  apply index_range_safe; unfold ENTRY_BYTES in *; lia.
Qed.

Lemma verify_set_checksum_Ok raw index u :
  verify_set_checksum raw index = Ok u <-> 4 <= len raw /\ field 2 raw 2 = set_checksum_of raw.
Proof.
  unfold verify_set_checksum. rewrite bind_Ok. split.
  - intros (s & [Hl ->]%read_le_Ok & H). inv_ok. bool_props. split; [lia | done].
  - intros [Hl He]. exists (field 2 raw 2). split; [by apply read_le_in |].
    destruct u. apply refuse_if_Ok. by rewrite He, N.eqb_refl.
Qed.
Lemma verify_set_checksum_safe raw index : 4 <= len raw -> verify_set_checksum raw index <> Panic.
Proof. intros. unfold verify_set_checksum. rewrite read_le_in by lia. apply refuse_if_safe. Qed.

(** [entry_safe] closes [m <> Panic] for a check that reads inside an entry. *)
Ltac entry_safe :=
  repeat first
    [ safe_step
    | match goal with
      | H : read_le _ _ _ = Ok _ |- _ => clear H
      | H : index_range _ _ _ = Ok _ |- _ => apply index_range_Ok in H as (_ & _ & ->)
      | H : _ ∈ [] |- _ => by apply not_elem_of_nil in H
      | H : _ ∈ _ :: _ |- _ => apply elem_of_cons in H as [->|H]
      | |- read_le _ _ _ <> Panic => apply read_le_safe; lia
      | |- require_zero _ _ _ _ <> Panic => apply require_zero_safe; lia
      | |- validate_timestamp _ _ _ <> Panic => apply validate_timestamp_safe; lia
      | |- validate_name_units _ _ _ <> Panic => apply validate_name_units_safe
      | |- checked_set _ _ _ _ <> Panic => apply checked_set_safe
      end ].

(** The members of a benign set are secondary entries in use. *)
Definition benign_members (raw : list byte) (count : N) : Prop :=
  forall i, 1 <= i <= count -> N.land (field 1 raw (i * 32)) 192 = 192.
Definition benign_set_ok (directory : list byte) (index count : N) (context : DirectoryContext)
    (raw : list byte) : Prop :=
  is_set directory index count raw /\ count <= dc_max_secondary_entries context /\
  field 2 raw 2 = set_checksum_of raw /\ benign_members raw count.
Lemma entry_field n b index o :
  (index + 1) * 32 <= len b -> o + N.of_nat n <= 32 ->
  field n (subslice (index * 32) ((index + 1) * 32) b) o = field n b (index * 32 + o).
Proof. intros. apply field_of_slice. lia. Qed.
Lemma check_members_iff raw index count :
  (count + 1) * 32 <= len raw ->
  let check := for_each (fun member_index =>
    member ← entry_at raw member_index;
    member_type ← read_le 1 member 0;
    refuse_if (negb (N.land member_type (ENTRY_IN_USE + ENTRY_SECONDARY)
                     =? ENTRY_IN_USE + ENTRY_SECONDARY))
      (InvalidSetMember (index + member_index) member_type))
    ((fun i => i + 1) <$> indices count) in
  check <> Panic /\ (check = Ok tt <-> benign_members raw count).
Proof.
  intros Hl check. unfold check.
  assert (Hm : forall i, i <= count ->
    (member ← entry_at raw i; member_type ← read_le 1 member 0;
     refuse_if (negb (N.land member_type (ENTRY_IN_USE + ENTRY_SECONDARY)
                      =? ENTRY_IN_USE + ENTRY_SECONDARY)) (InvalidSetMember (index + i) member_type))
    = refuse_if (negb (N.land (field 1 raw (i * 32)) 192 =? 192))
        (InvalidSetMember (index + i) (field 1 raw (i * 32)))).
  { intros i Hi. rewrite entry_at_in by (unfold ENTRY_BYTES; lia). cbn [mbind outcome_bind].
    rewrite read_le_in by (rewrite len_entry_slice; unfold ENTRY_BYTES; lia). cbn [mbind outcome_bind].
    unfold ENTRY_BYTES. rewrite entry_field by lia. by rewrite N.add_0_r. }
  split.
  - apply for_each_safe. intros i (k & -> & Hk%elem_of_indices)%list_elem_of_fmap.
    rewrite Hm by lia. apply refuse_if_safe.
  - rewrite for_each_Ok, Forall_forall. split.
    + intros Hf i Hi. specialize (Hf i). rewrite Hm in Hf by lia.
      assert (Hin : i ∈ ((fun i => i + 1) <$> indices count)).
      { apply list_elem_of_fmap. exists (i - 1). rewrite elem_of_indices. lia. }
      apply Hf, refuse_if_Ok in Hin. by bool_props.
    + intros Hb i (k & -> & Hk%elem_of_indices)%list_elem_of_fmap. rewrite Hm by lia.
      apply refuse_if_Ok. by rewrite Hb by lia.
Qed.
Lemma generic_benign_set_yields directory index count context :
  yields (benign_set_ok directory index count context)
    (generic_benign_set directory index count context).
Proof.
  unfold generic_benign_set. apply yields_then; [apply checked_set_safe |].
  intros raw (Hmax & _ & Hs)%checked_set_Ok. pose proof (is_set_len _ _ _ _ Hs) as Hl.
  unfold ENTRY_BYTES in Hl. destruct (check_members_iff raw index count ltac:(lia)) as [Hp Hi].
  apply yields_then; [apply verify_set_checksum_safe; lia |]. intros [] [_ Hc]%verify_set_checksum_Ok.
  apply yields_then; [exact Hp |]. intros [] Hm%Hi. exact (conj Hs (conj Hmax (conj Hc Hm))).
Qed.
Lemma generic_benign_set_total directory index count context raw :
  index + (count + 1) <= u64_max -> benign_set_ok directory index count context raw ->
  generic_benign_set directory index count context = Ok raw.
Proof.
  intros Hi (Hs & Hm & Hc & Hb). pose proof (is_set_len _ _ _ _ Hs) as Hl. unfold ENTRY_BYTES in Hl.
  unfold generic_benign_set. rewrite (proj2 (checked_set_Ok _ _ _ context raw)) by done.
  cbn [mbind outcome_bind]. rewrite (proj2 (verify_set_checksum_Ok raw index tt)) by (split; [lia | done]).
  cbn [mbind outcome_bind]. by rewrite (proj2 (proj2 (check_members_iff raw index count ltac:(lia)))).
Qed.

(** ** System entries *)
Definition bitmap_ok (context : DirectoryContext) (entry : AllocationBitmapEntry) : Prop :=
  ab_bitmap_identifier entry < dc_number_of_fats context /\ ab_bitmap_identifier entry <= 1 /\
  allocation_ok context (ab_first_cluster entry) (ab_data_length entry) false /\
  ab_data_length entry = (dc_cluster_count context + 7) / 8.
Definition upcase_ok (context : DirectoryContext) (entry : UpcaseTableEntry) : Prop :=
  allocation_ok context (ue_first_cluster entry) (ue_data_length entry) false /\
  0 < ue_data_length entry /\ N.Even (ue_data_length entry).
Definition label_ok (label : VolumeLabelEntry) : Prop :=
  length (vl_units label) = 11%nat /\ vl_len label <= 11 /\
  valid_name_units false (take (N.to_nat (vl_len label)) (vl_units label)).

Lemma land_one n : N.land n 1 = n mod 2.
Proof. exact (N.land_ones n 1). Qed.
Lemma land_one_bound n : N.land n 1 <= 1.
Proof. rewrite land_one. pose proof (N.mod_lt n 2 ltac:(done)). lia. Qed.
Lemma parse_bitmap_yields entry index context :
  len entry = 32 -> dc_bytes_per_cluster context <> 0 ->
  yields (bitmap_ok context) (parse_bitmap entry index context).
Proof.
  intros Hl Hb. unfold parse_bitmap. rewrite (read_le_in 1) by lia. cbn [mbind outcome_bind].
  apply yields_then; [apply refuse_if_safe | intros _ _].
  apply yields_then; [apply require_zero_safe; lia | intros _ _].
  apply yields_then; [apply refuse_if_safe | intros _ Hi%refuse_if_Ok]. bool_props.
  rewrite !read_le_in by lia. cbn [mbind outcome_bind].
  eapply yields_bind; [by apply validate_allocation_yields | intros [] Ha].
  apply yields_then; [apply refuse_if_safe | intros _ H1%refuse_if_Ok]. bool_props.
  apply yields_then; [apply refuse_if_safe | intros _ H2%refuse_if_Ok]. bool_props.
  unfold bitmap_ok. simpl. split_and!; [done | apply land_one_bound | done | by apply N.le_antisymm].
Qed.

Lemma has_bits_one n : has_bits n 1 = N.odd n.
Proof.
  unfold has_bits. rewrite land_one, <- N.bit0_mod, N.bit0_odd. by destruct (N.odd n).
Qed.
Lemma parse_upcase_yields entry index context :
  len entry = 32 -> dc_bytes_per_cluster context <> 0 ->
  yields (upcase_ok context) (parse_upcase entry index context).
Proof.
  intros Hl Hb. unfold parse_upcase.
  apply yields_then; [apply require_zero_safe; lia | intros _ _].
  apply yields_then; [apply require_zero_safe; lia | intros _ _].
  rewrite !read_le_in by lia. cbn [mbind outcome_bind].
  eapply yields_bind; [by apply validate_allocation_yields | intros [] Ha].
  apply yields_then; [apply refuse_if_safe | intros _ H1%refuse_if_Ok]. bool_props.
  unfold upcase_ok. simpl. split_and!; [done | lia |]. rewrite has_bits_one in *.
  apply N.even_spec. rewrite <- N.negb_odd. by apply negb_true_iff.
Qed.

Lemma parse_volume_label_yields entry index :
  len entry = 32 -> yields label_ok (parse_volume_label entry index).
Proof.
  intros Hl. unfold parse_volume_label. rewrite (read_le_in 1) by lia. cbn [mbind outcome_bind].
  generalize (field 1 entry 1). intros n.
  apply yields_then; [apply refuse_if_safe | intros _ Hn%refuse_if_Ok]. bool_props.
  apply yields_then; [apply require_zero_safe; lia | intros _ _].
  eapply yields_bind.
  { apply (yields_fold_indices (fun k units => len units = k)); [done |].
    intros k units Hk <-. rewrite read_le_in by lia. simpl. rewrite len_app. done. }
  intros units Hu. cbv beta in Hu. rewrite !index_range_in by lia. cbn [mbind outcome_bind].
  apply yields_then; [apply validate_name_units_safe | intros _ Hv%validate_name_units_Ok].
  unfold label_ok. simpl. split_and!; [unfold len in Hu; lia | done |].
  unfold subslice in Hv. rewrite N.sub_0_r in Hv. done.
Qed.

(** ** Names of file sets *)

(** The code unit in slot [k] of the name entries of a set, and the state of the
    scan before that slot. *)
Definition name_slot (raw_set : list byte) (k : N) : N :=
  field 2 raw_set (64 + k / 15 * 32 + 2 + k mod 15 * 2).
Definition filled (raw_set : list byte) (n : N) : list N :=
  (name_slot raw_set <$> indices n) ++ replicate (N.to_nat (MAX_FILE_NAME_UNITS - n)) 0.
Definition name_state (raw_set : list byte) (name_length c : N) : NameScan :=
  (filled raw_set (N.min c name_length), c,
   forallb (fun k => (k <? name_length) || (name_slot raw_set k =? 0)) (indices c)).

Lemma length_filled raw_set n : n <= 255 -> len (filled raw_set n) = 255.
Proof.
  intros. unfold filled. rewrite len_app. unfold len, indices, MAX_FILE_NAME_UNITS.
  rewrite !length_fmap, length_seq, length_replicate. lia.
Qed.
Lemma filled_extend raw_set n :
  n < 255 ->
  @copy_from_slice DirectoryError _ n (n + 1) [name_slot raw_set n] (filled raw_set n)
  = Ok (filled raw_set (n + 1)).
Proof.
  intros Hn. pose proof (length_filled raw_set n ltac:(lia)) as Hl.
  apply copy_from_slice_Ok. split_and!; [lia | lia | rewrite len_cons, len_nil; lia |].
  unfold filled, splice. rewrite indices_succ, fmap_app.
  assert (Hi : length (name_slot raw_set <$> indices n) = N.to_nat n).
  { unfold indices. by rewrite !length_fmap, length_seq. }
  rewrite take_app_length' by done. rewrite <- app_assoc. f_equal. simpl. f_equal.
  unfold len. simpl. rewrite drop_app_ge by lia. rewrite Hi, drop_replicate.
  f_equal. unfold MAX_FILE_NAME_UNITS in *. lia.
Qed.
Lemma take_unit_state raw_set name_length c :
  name_length <= 255 ->
  take_unit name_length (name_state raw_set name_length c) (name_slot raw_set c)
  = Ok (name_state raw_set name_length (c + 1)).
Proof.
  intros Hl. unfold take_unit, name_state. rewrite indices_succ, forallb_app. simpl.
  destruct (N.ltb_spec c name_length) as [Hc|Hc]; simpl.
  - rewrite !N.min_l by lia. rewrite filled_extend by lia. simpl. by rewrite andb_true_r.
  - rewrite !N.min_r by lia. destruct (name_slot raw_set c =? 0); simpl; by rewrite ?andb_true_r, ?andb_false_r.
Qed.

(** The checks on one name entry, and its units. *)
Definition name_member (raw_set : list byte) (sequence : N) : Prop :=
  field 1 raw_set ((2 + sequence) * 32) = TYPE_FILE_NAME /\ field 1 raw_set ((2 + sequence) * 32 + 1) = 0.
Lemma scan_name_entry_spec raw_set index name_length sequence :
  name_length <= 255 -> (3 + sequence) * 32 <= len raw_set ->
  let result := scan_name_entry raw_set index name_length
                  (name_state raw_set name_length (15 * sequence)) sequence in
  (name_member raw_set sequence -> result = Ok (name_state raw_set name_length (15 * (sequence + 1))))
  /\ (name_member raw_set sequence \/ exists e, result = Err e).
Proof.
  intros Hn Hl. unfold scan_name_entry. cbv zeta.
  rewrite entry_at_in by (unfold ENTRY_BYTES; lia). cbn [mbind outcome_bind]. unfold ENTRY_BYTES.
  set (member := subslice _ _ raw_set).
  assert (Hm : len member = 32) by (apply len_entry_slice; lia).
  assert (Hf : forall n o, o + N.of_nat n <= 32 -> field n member o = field n raw_set ((2 + sequence) * 32 + o)).
  { intros. apply entry_field; lia. }
  rewrite !read_le_in by lia. cbn [mbind outcome_bind]. rewrite !Hf by lia.
  rewrite N.add_0_r. unfold name_member.
  destruct (N.eqb_spec (field 1 raw_set ((2 + sequence) * 32)) TYPE_FILE_NAME) as [->|]; simpl;
    [|split; [by intros [] | eauto]].
  destruct (N.eqb_spec (field 1 raw_set ((2 + sequence) * 32 + 1)) 0) as [->|]; simpl;
    [|split; [by intros [] | eauto]].
  split; [intros _ | by left].
  pose proof (try_fold_indices (fun k => name_state raw_set name_length (15 * sequence + k))
    (fun state slot => unit ← read_le 2 member (2 + slot * 2); take_unit name_length state unit) 15) as Ht.
  cbv beta in Ht. rewrite N.add_0_r in Ht. refine (eq_trans (Ht _) _); [| by replace (15 * sequence + 15) with (15 * (sequence + 1)) by lia].
  intros k Hk. rewrite read_le_in by lia. cbn [mbind outcome_bind]. rewrite Hf by lia.
  rewrite (N.add_assoc (15 * sequence)), <- take_unit_state by done. f_equal. unfold name_slot. f_equal.
  rewrite <- (N.div_unique (15 * sequence + k) 15 sequence k) by lia.
  rewrite <- (N.mod_unique (15 * sequence + k) 15 sequence k) by lia. lia.
Qed.

(** The name that a set holds. *)
Definition set_name (raw_set : list byte) (name_length : N) : FileName :=
  mkFileName (filled raw_set name_length) name_length.
Definition padding_zero (raw_set : list byte) (name_length : N) : bool :=
  forallb (fun k => (k <? name_length) || (name_slot raw_set k =? 0))
    (indices (15 * name_entry_count name_length)).
Lemma name_entries_cover name_length : name_length <= 15 * name_entry_count name_length.
Proof.
  unfold name_entry_count. pose proof (N.Div0.div_mod (name_length + 14) 15).
  pose proof (N.mod_lt (name_length + 14) 15 ltac:(done)). lia.
Qed.
Lemma scan_name_yields raw_set index name_length :
  name_length <= 255 -> (2 + name_entry_count name_length) * 32 <= len raw_set ->
  yields (fun r => r = (set_name raw_set name_length, padding_zero raw_set name_length) /\
                   forall k, k < name_entry_count name_length -> name_member raw_set k)
    (scan_name raw_set index name_length (name_entry_count name_length)).
Proof.
  intros Hn Hl. unfold scan_name. eapply yields_bind.
  { apply (yields_fold_indices (fun k state => state = name_state raw_set name_length (15 * k) /\
                                             forall i, i < k -> name_member raw_set i)).
    - unfold name_state. simpl. rewrite N.min_0_l. split; [done | lia].
    - intros k s Hk [-> Hi].
      pose proof (scan_name_entry_spec raw_set index name_length k Hn ltac:(lia)) as [H1 H2].
      destruct H2 as [H2|(e & He)]; [| cbv zeta in He; by rewrite He].
      rewrite H1 by done. simpl. split; [done |]. intros i Hik.
      destruct (decide (i = k)) as [->|]; [done |]. apply Hi. lia. }
  intros [[units c] p] [[= -> -> ->] Hm]. simpl. unfold set_name, padding_zero.
  rewrite N.min_r by apply name_entries_cover. done.
Qed.
Lemma scan_name_total raw_set index name_length :
  name_length <= 255 -> (2 + name_entry_count name_length) * 32 <= len raw_set ->
  (forall k, k < name_entry_count name_length -> name_member raw_set k) ->
  scan_name raw_set index name_length (name_entry_count name_length)
  = Ok (set_name raw_set name_length, padding_zero raw_set name_length).
Proof.
  intros Hn Hl Hm. unfold scan_name.
  pose proof (try_fold_indices (fun k => name_state raw_set name_length (15 * k))
    (scan_name_entry raw_set index name_length) (name_entry_count name_length)) as Ht.
  cbv beta in Ht. rewrite N.mul_0_r in Ht.
  replace (name_state raw_set name_length 0) with
    (replicate (N.to_nat MAX_FILE_NAME_UNITS) 0, 0, true) in Ht
    by (unfold name_state; simpl; by rewrite N.min_0_l).
  rewrite Ht.
  - simpl. unfold set_name, padding_zero. by rewrite N.min_r by apply name_entries_cover.
  - intros k Hk. apply (scan_name_entry_spec raw_set index name_length k Hn ltac:(lia)). by apply Hm.
Qed.

(** ** File sets, read from the bytes of the whole set *)
Definition zeros (lo hi : N) (b : list byte) : Prop := Forall (fun b => b = x00) (subslice lo hi b).
Lemma require_zero_iff e lo hi index u :
  lo <= hi -> hi <= len e -> require_zero e lo hi index = Ok u <-> zeros lo hi e.
Proof.
  intros H1 H2. split; [apply require_zero_Ok |]. intros Hz%(find_nonzero_None 0).
  unfold require_zero. rewrite index_range_in by done. simpl. rewrite Hz. by destruct u.
Qed.
Lemma validate_timestamp_iff e index o u :
  o + 4 <= len e -> validate_timestamp e index o = Ok u <-> timestamp_valid (field 4 e o) = true.
Proof.
  intros H. split; [apply validate_timestamp_Ok |]. intros Ht. unfold validate_timestamp.
  rewrite read_le_in by lia. simpl. rewrite Ht. by destruct u.
Qed.

Definition primary_ok (primary : list byte) : Prop :=
  has_bits (field 2 primary 4) (N.lxor VALID_FILE_ATTRIBUTES u16_max) = false /\
  zeros 6 8 primary /\ zeros 25 32 primary /\
  Forall (fun o => timestamp_valid (field 4 primary o) = true) [8; 12; 16] /\
  Forall (fun o => field 1 primary o <= 199) [20; 21] /\
  Forall (fun o => field 1 primary o = 0 \/ N.land (field 1 primary o) 128 <> 0) [22; 23; 24].
Lemma check_file_primary_iff primary index u :
  len primary = 32 -> check_file_primary primary index = Ok u <-> primary_ok primary.
Proof.
  intros Hl. unfold check_file_primary, primary_ok. rewrite (read_le_in 2) by lia.
  cbn [mbind outcome_bind]. rewrite !then_Ok, refuse_if_Ok, !require_zero_iff by lia.
  rewrite !for_each_Ok, !Forall_cons, !Forall_nil.
  rewrite !validate_timestamp_iff by lia. rewrite !(read_le_in 1) by lia.
  cbn [mbind outcome_bind]. rewrite !refuse_if_Ok, !andb_false_iff, !N.ltb_ge, !N.eqb_neq, !negb_false_iff, !N.eqb_eq.
  tauto.
Qed.
Lemma check_file_primary_safe primary index :
  len primary = 32 -> check_file_primary primary index <> Panic.
Proof. intros Hl. unfold check_file_primary. entry_safe. Qed.

Definition stream_ok (stream : list byte) : Prop :=
  field 1 stream 0 = TYPE_STREAM_EXTENSION /\
  has_bits (field 1 stream 1) 252 = false /\ N.land (field 1 stream 1) 1 <> 0 /\
  zeros 2 3 stream /\ zeros 6 8 stream /\ zeros 16 20 stream /\ field 1 stream 3 <> 0.
Lemma check_stream_iff stream index r :
  len stream = 32 ->
  check_stream stream index = Ok r <-> stream_ok stream /\ r = (field 1 stream 1, field 1 stream 3).
Proof.
  intros Hl. unfold check_stream, stream_ok. rewrite !(read_le_in 1) by lia.
  cbn [mbind outcome_bind]. rewrite !then_Ok, !refuse_if_Ok, !require_zero_iff by lia.
  rewrite !orb_false_iff, !N.eqb_neq, !negb_false_iff, !N.eqb_eq.
  intuition congruence.
Qed.
Lemma check_stream_safe stream index : len stream = 32 -> check_stream stream index <> Panic.
Proof. intros Hl. unfold check_stream. entry_safe. Qed.

Definition benign_secondary (raw_set : list byte) (i : N) : Prop :=
  N.land (field 1 raw_set (i * 32)) 224 = 224.
Lemma check_benign_secondaries_iff raw_set index first count u :
  (count + 1) * 32 <= len raw_set ->
  check_benign_secondaries raw_set index first count = Ok u <->
  forall i, first <= i <= count -> benign_secondary raw_set i.
Proof.
  intros Hl. unfold check_benign_secondaries. rewrite for_each_Ok, Forall_forall.
  assert (Hm : forall i, i <= count ->
    (member ← entry_at raw_set i; member_type ← read_le 1 member 0;
     refuse_if (negb (N.land member_type (ENTRY_IN_USE + ENTRY_SECONDARY + ENTRY_BENIGN)
                      =? ENTRY_IN_USE + ENTRY_SECONDARY + ENTRY_BENIGN))
       (if N.land member_type ENTRY_BENIGN =? 0
        then UnknownCriticalEntry (index + i) member_type
        else InvalidSetMember (index + i) member_type)) = Ok tt <-> benign_secondary raw_set i).
  { intros i Hi. rewrite entry_at_in by (unfold ENTRY_BYTES; lia). cbn [mbind outcome_bind].
    rewrite read_le_in by (rewrite len_entry_slice; unfold ENTRY_BYTES; lia). cbn [mbind outcome_bind].
    rewrite refuse_if_Ok, negb_false_iff, N.eqb_eq. unfold ENTRY_BYTES, benign_secondary.
    rewrite entry_field by lia. by rewrite N.add_0_r. }
  split.
  - intros Hf i Hi. apply Hm; [lia |]. apply Hf. apply list_elem_of_fmap. exists (i - first).
    split; [lia |]. apply elem_of_indices. lia.
  - intros Hf i (k & -> & Hk%elem_of_indices)%list_elem_of_fmap. apply Hm; [lia |]. apply Hf. lia.
Qed.
Lemma check_benign_secondaries_safe raw_set index first count :
  (count + 1) * 32 <= len raw_set -> check_benign_secondaries raw_set index first count <> Panic.
Proof.
  intros Hl. unfold check_benign_secondaries. apply for_each_safe.
  intros i (k & -> & Hk%elem_of_indices)%list_elem_of_fmap.
  rewrite entry_at_in by (unfold ENTRY_BYTES; lia). cbn [mbind outcome_bind].
  rewrite read_le_in by (rewrite len_entry_slice; unfold ENTRY_BYTES; lia). safe.
Qed.

Definition lengths_ok (valid data : N) (is_directory : bool) : Prop :=
  valid <= data /\ (is_directory = true -> valid = data /\ data <= MAX_DIRECTORY_BYTES).
Lemma check_lengths_iff index valid data d u :
  check_lengths index valid data d = Ok u <-> lengths_ok valid data d.
Proof.
  unfold check_lengths, lengths_ok. rewrite !then_Ok, !refuse_if_Ok, !andb_false_iff, !N.ltb_ge.
  rewrite negb_false_iff, N.eqb_eq. destruct d; naive_solver.
Qed.
Lemma check_lengths_safe index valid data d : check_lengths index valid data d <> Panic.
Proof. unfold check_lengths. safe. Qed.

(** What a set of a file holds, and when it is accepted. *)
Definition set_file (raw : list byte) : FileEntry :=
  let name_length := field 1 raw 35 in
  mkFileEntry (field 2 raw 4) (field 4 raw 8) (field 4 raw 12) (field 4 raw 16)
    (field 1 raw 20) (field 1 raw 21) (field 1 raw 22) (field 1 raw 23) (field 1 raw 24)
    (has_bits (field 2 raw 4) DIRECTORY_ATTRIBUTE) (has_bits (field 1 raw 33) 2)
    (field 2 raw 36) (field 8 raw 40) (field 4 raw 52) (field 8 raw 56)
    (set_name raw name_length) (padding_zero raw name_length)
    (field 1 raw 1 - (1 + name_entry_count name_length)) raw.
Definition file_set_ok (context : DirectoryContext) (raw : list byte) : Prop :=
  let f := set_file raw in
  let name_length := fn_len (fe_name f) in
  let name_entries := name_entry_count name_length in
  field 2 raw 2 = set_checksum_of raw /\
  primary_ok (subslice 0 32 raw) /\ stream_ok (subslice 32 64 raw) /\
  name_entries + 1 <= field 1 raw 1 /\
  (forall k, k < name_entries -> name_member raw k) /\
  valid_name_units true (take (N.to_nat name_length) (fn_units (fe_name f))) /\
  (forall i, name_entries + 2 <= i <= field 1 raw 1 -> benign_secondary raw i) /\
  allocation_ok context (fe_first_cluster f) (fe_data_length f) (fe_no_fat_chain f) /\
  lengths_ok (fe_valid_data_length f) (fe_data_length f) (fe_is_directory f).

Lemma set_primary directory index count raw :
  is_set directory index count raw ->
  subslice (index * 32) ((index + 1) * 32) directory = subslice 0 32 raw.
Proof.
  intros [-> Hl]. unfold ENTRY_BYTES in *. rewrite subslice_subslice by lia. f_equal; lia.
Qed.
Lemma set_count directory index count raw :
  is_set directory index count raw -> field 1 directory (index * 32 + 1) = field 1 raw 1.
Proof.
  intros [-> Hl]. unfold ENTRY_BYTES in *. by rewrite field_of_slice by lia.
Qed.
Lemma set_fields raw :
  64 <= len raw ->
  (forall n o, o + N.of_nat n <= 32 -> field n (subslice 0 32 raw) o = field n raw o) /\
  (forall n o, o + N.of_nat n <= 32 -> field n (subslice 32 64 raw) o = field n raw (32 + o)) /\
  len (subslice 0 32 raw) = 32 /\ len (subslice 32 64 raw) = 32.
Proof.
  intros Hl. split_and!; [| | by rewrite len_subslice by lia | by rewrite len_subslice by lia];
    intros; apply field_of_slice; lia.
Qed.
Lemma name_entry_bound n : n <= 255 -> name_entry_count n <= 17.
Proof.
  intros. unfold name_entry_count. change 17 with (269 / 15). apply N.Div0.div_le_mono. lia.
Qed.
Lemma field_byte_bound b o : o + 1 <= len b -> field 1 b o <= 255.
Proof. intros. pose proof (field_bound 1 b o ltac:(lia)) as Hb. change (256 ^ N.of_nat 1) with 256 in Hb. lia. Qed.

(** The part of [parse_file_set] after the checksum, on a set of at least two
    entries. *)
Lemma name_units_filled raw n :
  n <= 255 -> @name_units (set_name raw n) = Ok (take (N.to_nat n) (filled raw n)).
Proof.
  intros Hn. unfold name_units, set_name. simpl.
  rewrite index_range_in by (rewrite ?length_filled by done; lia).
  unfold subslice. by rewrite N.sub_0_r.
Qed.

Lemma parse_file_set_yields directory index context :
  (index + 1) * 32 <= len directory -> dc_bytes_per_cluster context <> 0 ->
  let count := field 1 directory (index * 32 + 1) in
  1 <= count ->
  yields (fun r => exists raw, is_set directory index count raw /\ r = (set_file raw, count + 1) /\
                               file_set_ok context raw /\ count <= dc_max_secondary_entries context)
    (parse_file_set directory index context).
Proof.
  intros Hl Hb count Hc. unfold parse_file_set.
  rewrite entry_at_in by (unfold ENTRY_BYTES; lia). cbn [mbind outcome_bind]. unfold ENTRY_BYTES.
  set (primary := subslice _ _ directory).
  assert (Hp : len primary = 32) by (apply len_entry_slice; lia).
  rewrite (read_le_in 1 primary 1) by lia. cbn [mbind outcome_bind].
  replace (field 1 primary 1) with count by (symmetry; apply entry_field; lia).
  apply yields_then; [apply checked_set_safe |]. intros raw (Hmax & _ & Hs)%checked_set_Ok.
  pose proof (is_set_len _ _ _ _ Hs) as Hr. unfold ENTRY_BYTES in Hr.
  pose proof (set_primary _ _ _ _ Hs) as Hpr. fold primary in Hpr. rewrite Hpr in *. clear primary Hpr.
  assert (Hcr : count = field 1 raw 1) by exact (set_count _ _ _ _ Hs).
  destruct (set_fields raw ltac:(lia)) as (H0 & H1 & Hl0 & Hl1).
  apply yields_then; [apply verify_set_checksum_safe; lia |]. intros [] [_ Hck]%verify_set_checksum_Ok.
  apply yields_then; [by apply check_file_primary_safe |].
  intros [] Hprim%check_file_primary_iff; [|done].
  rewrite entry_at_in by (unfold ENTRY_BYTES; lia). cbn [mbind outcome_bind]. unfold ENTRY_BYTES.
  change (1 * 32) with 32. change ((1 + 1) * 32) with 64.
  apply yields_then; [by apply check_stream_safe |].
  intros [flags nl] [Hst [= -> ->]]%check_stream_iff; [|done].
  assert (Hnl : field 1 (subslice 32 64 raw) 3 = field 1 raw 35) by (apply H1; lia).
  assert (Hfl : field 1 (subslice 32 64 raw) 1 = field 1 raw 33) by (apply H1; lia).
  rewrite Hnl, Hfl. clear Hnl Hfl.
  pose proof (field_byte_bound raw 35 ltac:(lia)) as Hn.
  pose proof (name_entry_bound _ Hn) as He.
  apply yields_then; [apply refuse_if_safe | intros _ Hne%refuse_if_Ok]. bool_props.
  eapply yields_bind; [apply scan_name_yields; [done | lia] |].
  intros [name padding] [[= -> ->] Hm].
  rewrite name_units_filled by done. cbn [mbind outcome_bind].
  apply yields_then; [apply validate_name_units_safe | intros [] Hv%validate_name_units_Ok].
  widths. rewrite u8_try_from_in by lia. cbn [ok_or mbind outcome_bind].
  rewrite sub_u64_in by lia. cbn [mbind outcome_bind].
  apply yields_then; [apply check_benign_secondaries_safe; lia |].
  intros [] Hben. rewrite check_benign_secondaries_iff in Hben by lia.
  rewrite !read_le_in by lia. cbn [mbind outcome_bind]. rewrite !H0, !H1 by lia. simpl N.add.
  eapply yields_bind; [by apply validate_allocation_yields |]. intros [] Ha.
  apply yields_then; [apply check_lengths_safe |]. intros [] Hlen%check_lengths_iff.
  simpl. exists raw. split; [done |]. split; [unfold set_file; by rewrite <- Hcr |].
  split; [|done]. unfold file_set_ok. simpl. rewrite <- Hcr. split_and!; try done.
  intros i Hi. apply Hben. lia.
Qed.

Lemma parse_file_set_total directory index context raw count :
  is_set directory index count raw -> 1 <= count ->
  count = field 1 directory (index * 32 + 1) ->
  count <= dc_max_secondary_entries context -> index + (count + 1) <= u64_max ->
  dc_cluster_count context < u32_max -> dc_bytes_per_cluster context <> 0 ->
  dc_bytes_per_cluster context <= u32_max ->
  file_set_ok context raw ->
  parse_file_set directory index context = Ok (set_file raw, count + 1).
Proof.
  intros Hs Hc Hcount Hmax Hi Hcc Hb Hbw (Hck & Hprim & Hst & Hne & Hm & Hv & Hben & Ha & Hlen).
  assert (Hl : (index + 1) * 32 <= len directory) by (destruct Hs as [_ Hs]; unfold ENTRY_BYTES in Hs; lia).
  pose proof (is_set_len _ _ _ _ Hs) as Hr. unfold ENTRY_BYTES in Hr.
  pose proof (set_count _ _ _ _ Hs) as Hcr. rewrite <- Hcount in Hcr. simpl in Hne, Hm, Hv, Hben, Ha, Hlen.
  destruct (set_fields raw ltac:(lia)) as (H0 & H1 & Hl0 & Hl1).
  pose proof (field_byte_bound raw 35 ltac:(lia)) as Hn.
  pose proof (name_entry_bound _ Hn) as He.
  unfold parse_file_set.
  rewrite entry_at_in by (unfold ENTRY_BYTES; lia). cbn [mbind outcome_bind]. unfold ENTRY_BYTES.
  rewrite (read_le_in 1 _ 1) by (rewrite len_entry_slice; lia). cbn [mbind outcome_bind].
  rewrite entry_field, <- Hcount by lia.
  rewrite (set_primary _ _ _ _ Hs), (proj2 (checked_set_Ok _ _ _ _ raw)) by done. cbn [mbind outcome_bind].
  rewrite (proj2 (verify_set_checksum_Ok raw index tt)) by (split; [lia | done]). cbn [mbind outcome_bind].
  rewrite (proj2 (check_file_primary_iff _ index tt Hl0)) by done. cbn [mbind outcome_bind].
  rewrite entry_at_in by (unfold ENTRY_BYTES; lia). cbn [mbind outcome_bind]. unfold ENTRY_BYTES.
  change (1 * 32) with 32. change ((1 + 1) * 32) with 64.
  rewrite (proj2 (check_stream_iff _ index _ Hl1)) by done. cbn [mbind outcome_bind].
  assert (Hnl : field 1 (subslice 32 64 raw) 3 = field 1 raw 35) by (apply H1; lia).
  assert (Hfl : field 1 (subslice 32 64 raw) 1 = field 1 raw 33) by (apply H1; lia).
  rewrite Hnl, Hfl. clear Hnl Hfl.
  rewrite (proj2 (N.ltb_ge count _)) by lia. cbn [refuse_if mbind outcome_bind].
  rewrite scan_name_total by (done || lia). cbn [mbind outcome_bind].
  rewrite name_units_filled by done. cbn [mbind outcome_bind].
  rewrite (proj2 (validate_name_units_Ok _ index true tt)) by done. cbn [mbind outcome_bind].
  widths. rewrite u8_try_from_in by lia. cbn [ok_or mbind outcome_bind].
  rewrite sub_u64_in by lia. cbn [mbind outcome_bind].
  rewrite (proj2 (check_benign_secondaries_iff raw index _ count tt ltac:(lia)))
    by (intros; apply Hben; lia).
  cbn [mbind outcome_bind].
  rewrite !read_le_in by lia. cbn [mbind outcome_bind]. rewrite !H0, !H1 by lia. simpl N.add.
  rewrite allocation_accepted by done. cbn [mbind outcome_bind].
  rewrite (proj2 (check_lengths_iff index _ _ _ tt)) by done. cbn [mbind outcome_bind].
  unfold set_file. by rewrite <- Hcr.
Qed.

(** A file entry without secondary entries: the read of its stream entry is
    outside the set. *)
Definition empty_file_set (directory : list byte) (index : N) : Prop :=
  let entry := subslice (index * 32) ((index + 1) * 32) directory in
  field 1 entry 1 = 0 /\ field 2 entry 2 = set_checksum_of entry /\ primary_ok entry.
Lemma empty_set_is_set directory index :
  (index + 1) * 32 <= len directory ->
  is_set directory index 0 (subslice (index * 32) ((index + 1) * 32) directory).
Proof. split; unfold ENTRY_BYTES; [f_equal; lia | lia]. Qed.
Lemma parse_file_set_empty directory index context :
  (index + 1) * 32 <= len directory -> field 1 directory (index * 32 + 1) = 0 ->
  (exists e, parse_file_set directory index context = Err e) \/
  (parse_file_set directory index context = Panic /\ empty_file_set directory index).
Proof.
  intros Hl H0. unfold parse_file_set, empty_file_set.
  rewrite entry_at_in by (unfold ENTRY_BYTES; lia). cbn [mbind outcome_bind]. unfold ENTRY_BYTES.
  rewrite (read_le_in 1 _ 1) by (rewrite len_entry_slice; lia). cbn [mbind outcome_bind].
  rewrite entry_field, H0 by lia. cbv zeta.
  destruct (checked_set directory index 0 context) as [raw|e|] eqn:Hcs; cbn [mbind outcome_bind];
    [| by eauto | by apply checked_set_safe in Hcs].
  apply checked_set_Ok in Hcs as (_ & _ & Hs). pose proof (is_set_len _ _ _ _ Hs) as Hle.
  unfold ENTRY_BYTES in Hle. simpl in Hle. rewrite (set_primary _ _ _ _ Hs), subslice_whole by done.
  destruct (verify_set_checksum raw index) as [[]|e|] eqn:Hck; cbn [mbind outcome_bind];
    [| by eauto | by apply verify_set_checksum_safe in Hck; [|lia]].
  apply verify_set_checksum_Ok in Hck as [_ Hck].
  destruct (check_file_primary raw index) as [[]|e|] eqn:Hpr; cbn [mbind outcome_bind];
    [| by eauto | by apply check_file_primary_safe in Hpr].
  apply check_file_primary_iff in Hpr; [|done]. right.
  unfold entry_at, index_range, get_range, ENTRY_BYTES. rewrite Hle. simpl. by split.
Qed.
Lemma parse_file_set_aborts directory index context :
  (index + 1) * 32 <= len directory -> index + 1 <= u64_max ->
  empty_file_set directory index -> parse_file_set directory index context = Panic.
Proof.
  intros Hl Hi (H0 & Hck & Hp). pose proof (empty_set_is_set directory index Hl) as Hs.
  pose proof (is_set_len _ _ _ _ Hs) as Hle. unfold ENTRY_BYTES in Hle. simpl in Hle.
  unfold parse_file_set. rewrite entry_at_in by (unfold ENTRY_BYTES; lia).
  cbn [mbind outcome_bind]. unfold ENTRY_BYTES.
  set (entry := subslice _ _ directory) in *.
  rewrite (read_le_in 1 _ 1), H0 by lia. cbn [mbind outcome_bind].
  rewrite (proj2 (checked_set_Ok _ _ _ context entry)) by (split_and!; [lia | lia | exact Hs]).
  cbn [mbind outcome_bind].
  rewrite (proj2 (verify_set_checksum_Ok entry index tt)) by (split; [lia | done]). cbn [mbind outcome_bind].
  rewrite (proj2 (check_file_primary_iff entry index tt Hle)) by done. cbn [mbind outcome_bind].
  unfold entry_at, index_range, get_range, ENTRY_BYTES. by rewrite Hle.
Qed.
#[export] Instance empty_file_set_dec directory index : Decision (empty_file_set directory index).
Proof. unfold empty_file_set, primary_ok, zeros. apply _. Defined.

(** ** What a directory holds *)
Definition entry_type_at (directory : list byte) (index : N) : N := field 1 directory (index * 32).
Definition record_at (context : DirectoryContext) (directory : list byte) (index : N)
    (record : DirectoryRecord) (consumed : N) : Prop :=
  let entry := subslice (index * 32) ((index + 1) * 32) directory in
  let entry_type := entry_type_at directory index in
  match record with
  | RecordUnused ty raw =>
      ty = entry_type /\ raw = entry /\ 0 < entry_type < 128 /\ consumed = 1
  | RecordAllocationBitmap e =>
      entry_type = TYPE_ALLOCATION_BITMAP /\ dc_is_root context = true /\
      parse_bitmap entry index context = Ok e /\ bitmap_ok context e /\ consumed = 1
  | RecordUpcaseTable e =>
      entry_type = TYPE_UPCASE_TABLE /\ dc_is_root context = true /\
      parse_upcase entry index context = Ok e /\ upcase_ok context e /\ consumed = 1
  | RecordVolumeLabel e =>
      entry_type = TYPE_VOLUME_LABEL /\ dc_is_root context = true /\
      parse_volume_label entry index = Ok e /\ label_ok e /\ consumed = 1
  | RecordFile f =>
      entry_type = TYPE_FILE /\ exists raw count,
        is_set directory index count raw /\ count = field 1 raw 1 /\
        1 <= count <= dc_max_secondary_entries context /\
        f = set_file raw /\ file_set_ok context raw /\ consumed = count + 1
  | RecordBenignPrimary ty count raw =>
      ty = entry_type /\ 128 < entry_type < 192 /\ has_bits entry_type ENTRY_BENIGN = true /\
      count = field 1 raw 1 /\ benign_set_ok directory index count context raw /\
      consumed = count + 1
  end.
(** From entry [index] on the directory holds [records], one after the other,
    up to the end marker or the end of the bytes. *)
Inductive laid_out (context : DirectoryContext) (directory : list byte)
    : N -> list DirectoryRecord -> Prop :=
| LaidOutEnd index : index = len directory / ENTRY_BYTES -> laid_out context directory index []
| LaidOutMarker index :
    index < len directory / ENTRY_BYTES ->
    (forall i, index <= i < len directory / ENTRY_BYTES -> entry_type_at directory i = 0) ->
    laid_out context directory index []
| LaidOutRecord index record consumed records :
    record_at context directory index record consumed ->
    laid_out context directory (index + consumed) records ->
    laid_out context directory index (record :: records).

Definition is_unused (r : DirectoryRecord) : bool :=
  match r with RecordUnused _ _ => true | _ => false end.
Definition is_bitmap (r : DirectoryRecord) : bool :=
  match r with RecordAllocationBitmap _ => true | _ => false end.
Definition is_upcase (r : DirectoryRecord) : bool :=
  match r with RecordUpcaseTable _ => true | _ => false end.
Definition is_label (r : DirectoryRecord) : bool :=
  match r with RecordVolumeLabel _ => true | _ => false end.
Definition is_file (r : DirectoryRecord) : bool :=
  match r with RecordFile _ => true | _ => false end.
Definition is_benign (r : DirectoryRecord) : bool :=
  match r with RecordBenignPrimary _ _ _ => true | _ => false end.
Definition count_by (p : DirectoryRecord -> bool) (records : list DirectoryRecord) : N :=
  len (List.filter p records).
Definition bitmap_ids (records : list DirectoryRecord) : list N :=
  omap (fun r => match r with RecordAllocationBitmap e => Some (ab_bitmap_identifier e) | _ => None end)
    records.
(** The summary counts the records. *)
Definition summary_counts (records : list DirectoryRecord) (s : DirectorySummary) : Prop :=
  ds_unused_entries s = count_by is_unused records /\
  ds_records s = count_by (fun r => negb (is_unused r)) records /\
  ds_allocation_bitmaps s = count_by is_bitmap records /\
  ds_upcase_tables s = N.min (count_by is_upcase records) u8_max /\
  ds_volume_labels s = N.min (count_by is_label records) u8_max /\
  ds_files s = count_by is_file records /\
  ds_benign_primary_sets s = count_by is_benign records.

Record scan_ok (scan : Scan) : Prop := mkScanOk {
  so_counts : summary_counts (sc_records scan) (sc_summary scan);
  so_unique : NoDup (bitmap_ids (sc_records scan));
  so_ids : Forall (fun i => i <= 1) (bitmap_ids (sc_records scan));
  so_mask : forall i, N.testbit (sc_bitmap_mask scan) i = true <-> i ∈ bitmap_ids (sc_records scan)
}.

Lemma count_by_app p l1 l2 : count_by p (l1 ++ l2) = count_by p l1 + count_by p l2.
Proof. unfold count_by. by rewrite List.filter_app, len_app. Qed.
Lemma count_by_one p r : count_by p [r] = if p r then 1 else 0.
Proof. unfold count_by. simpl. by destruct (p r). Qed.
Lemma bitmap_count records : count_by is_bitmap records = len (bitmap_ids records).
Proof.
  induction records as [|r records IH]; [done |]. rewrite (count_by_app _ [r] records), count_by_one.
  rewrite IH. destruct r; simpl; rewrite ?len_cons; lia.
Qed.
Lemma few_ids (l : list N) : NoDup l -> Forall (fun i => i <= 1) l -> len l <= 2.
Proof.
  intros Hn Hf. assert (Hs : l ⊆+ [0; 1]).
  { apply NoDup_submseteq; [done |]. intros i Hi. rewrite Forall_forall in Hf.
    specialize (Hf i Hi). rewrite !elem_of_cons. lia. }
  apply submseteq_length in Hs. unfold len. simpl in Hs. lia.
Qed.
Lemma summary_counts_snoc records s r s' :
  summary_counts records s -> count_record r s = Ok s' -> summary_counts (records ++ [r]) s'.
Proof.
  unfold summary_counts. intros (H1 & H2 & H3 & H4 & H5 & H6 & H7).
  destruct s. simpl in *. rewrite !count_by_app, !count_by_one. unfold u8_saturating_add.
  destruct r; simpl; intros H; inv_ok; simpl.
  all: repeat match goal with H : u8_try_from _ = Some _ |- _ => apply u8_try_from_Some in H as [-> _] end.
  all: split_and!; lia.
Qed.
Lemma count_record_yields records s r :
  summary_counts records s -> len (bitmap_ids records) <= 2 ->
  yields (summary_counts (records ++ [r])) (count_record r s).
Proof.
  intros Hs Hb. apply yields_intro; [|intros ? H; by eapply summary_counts_snoc].
  destruct Hs as (_ & _ & H3 & _). rewrite bitmap_count in H3. destruct s. simpl in *.
  destruct r; try done. widths. by rewrite u8_try_from_in by lia.
Qed.
Lemma testbit_bit i j : N.testbit (N.shiftl 1 i) j = (i =? j).
Proof. rewrite N.shiftl_1_l. apply N.pow2_bits_eqb. Qed.
Lemma has_bits_bit mask i : has_bits mask (N.shiftl 1 i) = N.testbit mask i.
Proof.
  unfold has_bits. destruct (N.testbit mask i) eqn:Hm.
  - apply negb_true_iff, N.eqb_neq. intros H. apply (f_equal (fun x => N.testbit x i)) in H.
    rewrite N.land_spec, Hm, testbit_bit, N.eqb_refl, N.bits_0 in H. done.
  - apply negb_false_iff, N.eqb_eq, N.bits_inj. intros j.
    rewrite N.land_spec, testbit_bit, N.bits_0. destruct (N.eqb_spec i j) as [->|]; [by rewrite Hm | apply andb_false_r].
Qed.

(** Delivering a record; one that is not a bitmap leaves the mask. *)
Lemma deliver_yields scan r :
  scan_ok scan -> is_bitmap r = false ->
  yields (fun scan' => sc_records scan' = sc_records scan ++ [r] /\ scan_ok scan') (deliver r scan).
Proof.
  intros [Hc Hn Hi Hm] Hr. unfold deliver.
  eapply yields_bind; [by apply count_record_yields, few_ids |]. intros s Hs. simpl. split; [done |].
  assert (He : bitmap_ids (sc_records scan ++ [r]) = bitmap_ids (sc_records scan)).
  { unfold bitmap_ids. rewrite omap_app. destruct r; try done; simpl; by rewrite app_nil_r. }
  split; simpl; rewrite ?He; done.
Qed.
Lemma deliver_bitmap_yields scan e :
  scan_ok scan -> ab_bitmap_identifier e <= 1 ->
  has_bits (sc_bitmap_mask scan) (N.shiftl 1 (ab_bitmap_identifier e)) = false ->
  yields (fun scan' => sc_records scan' = sc_records scan ++ [RecordAllocationBitmap e] /\ scan_ok scan')
    (deliver (RecordAllocationBitmap e)
       (with_mask (N.lor (sc_bitmap_mask scan) (N.shiftl 1 (ab_bitmap_identifier e))) scan)).
Proof.
  intros [Hc Hn Hi Hm] He Hb. rewrite has_bits_bit in Hb. unfold deliver. simpl.
  eapply yields_bind; [by apply count_record_yields, few_ids |]. intros s Hs. simpl. split; [done |].
  assert (Ha : bitmap_ids (sc_records scan ++ [RecordAllocationBitmap e])
               = bitmap_ids (sc_records scan) ++ [ab_bitmap_identifier e]).
  { unfold bitmap_ids. by rewrite omap_app. }
  split; simpl; rewrite ?Ha; [done | | |].
  - apply NoDup_app. split_and!; [done | | apply NoDup_singleton].
    intros i Hin ->%list_elem_of_singleton. apply Hm in Hin. congruence.
  - apply Forall_app. split; [done |]. by apply Forall_singleton.
  - intros i. rewrite N.lor_spec, orb_true_iff, Hm, testbit_bit, N.eqb_eq, elem_of_app, list_elem_of_singleton.
    naive_solver.
Qed.

(** The types of primary entries in use. *)
Lemma primary_types ty :
  ty < 256 -> N.land ty ENTRY_IN_USE <> 0 -> has_bits ty ENTRY_SECONDARY = false -> ty <> 128 ->
  128 < ty < 192.
Proof.
  assert (H : forallb (fun ty => (N.land ty ENTRY_IN_USE =? 0) || has_bits ty ENTRY_SECONDARY
    || (ty =? 128) || ((128 <? ty) && (ty <? 192))) (indices 256) = true) by (by vm_compute).
  intros Hty H1 H2 H3. rewrite forallb_forall in H.
  specialize (H ty ltac:(by apply list_elem_of_In, elem_of_indices)).
  rewrite H2, (proj2 (N.eqb_neq _ _) H1), (proj2 (N.eqb_neq _ _) H3) in H. simpl in H.
  apply andb_true_iff in H as [?%N.ltb_lt ?%N.ltb_lt]. done.
Qed.
Lemma unused_types_in_use ty : ty < 128 -> N.land ty ENTRY_IN_USE = 0.
Proof.
  assert (H : forallb (fun ty => N.land ty ENTRY_IN_USE =? 0) (indices 128) = true) by (by vm_compute).
  intros Hty. rewrite forallb_forall in H. apply N.eqb_eq, H. by apply list_elem_of_In, elem_of_indices.
Qed.
Lemma unused_types ty : ty < 256 -> ty <> 0 -> N.land ty ENTRY_IN_USE = 0 -> 0 < ty < 128.
Proof.
  assert (H : forallb (fun ty => (ty =? 0) || negb (N.land ty ENTRY_IN_USE =? 0)
    || (ty <? 128)) (indices 256) = true) by (by vm_compute).
  intros Hty H1 H2. rewrite forallb_forall in H.
  specialize (H ty ltac:(by apply list_elem_of_In, elem_of_indices)).
  rewrite H2, (proj2 (N.eqb_neq _ _) H1) in H. simpl in H. apply N.ltb_lt in H. lia.
Qed.

(** ** The scan *)

(** [yields] for a computation that aborts only when [bad] holds. *)
Definition yields_unless {E A : Type} (bad : Prop) (P : A -> Prop) (m : outcome E A) : Prop :=
  match m with
  | Ok a => P a
  | Err _ => True
  | Panic => bad
  end.
Lemma unless_bind {E A B} bad (P : B -> Prop) Q (m : outcome E A) (f : A -> outcome E B) :
  yields Q m -> (forall a, Q a -> yields_unless bad P (f a)) -> yields_unless bad P (m ≫= f).
Proof. destruct m; simpl; naive_solver. Qed.
Lemma unless_bind_unless {E A B} bad (P : B -> Prop) Q (m : outcome E A) (f : A -> outcome E B) :
  yields_unless bad Q m -> (forall a, Q a -> yields_unless bad P (f a)) ->
  yields_unless bad P (m ≫= f).
Proof. destruct m; simpl; naive_solver. Qed.
Lemma unless_weaken {E A} bad (P Q : A -> Prop) (m : outcome E A) :
  yields_unless bad P m -> (forall a, P a -> Q a) -> yields_unless bad Q m.
Proof. destruct m; simpl; auto. Qed.
Lemma yields_yields_unless {E A} bad (P : A -> Prop) (m : outcome E A) :
  yields P m -> yields_unless bad P m.
Proof. by destruct m. Qed.

(** A directory of whole entries. *)
Section Scan.
Context (directory : list byte) (context : DirectoryContext).
Context (Hwhole : len directory / ENTRY_BYTES * ENTRY_BYTES = len directory).
Context (Hbpc : dc_bytes_per_cluster context <> 0).
#[local] Set Default Proof Using "All".

Lemma entry_inside index :
  index < len directory / ENTRY_BYTES <-> (index + 1) * 32 <= len directory.
Proof using Hwhole.
  clear Hbpc.
  rewrite <- Hwhole at 2. unfold ENTRY_BYTES. generalize (len directory / 32). intros q. lia.
Qed.
Lemma set_inside index count raw :
  is_set directory index count raw -> index + (count + 1) <= len directory / ENTRY_BYTES.
Proof using Hwhole.
  clear Hbpc.
  intros [_ H]. revert H. rewrite <- Hwhole at 1. generalize (len directory / ENTRY_BYTES).
  unfold ENTRY_BYTES. intros q. lia.
Qed.

(** Some file entry has no secondary entries. *)
Definition has_empty_file_set : Prop :=
  exists i, i < len directory / ENTRY_BYTES /\ entry_type_at directory i = TYPE_FILE /\
            empty_file_set directory i.

(** What a step adds to the scan. *)
Definition scanned (index : N) (scan : Scan) (r : Scan * N) : Prop :=
  exists record, sc_records (fst r) = sc_records scan ++ [record] /\
    record_at context directory index record (snd r) /\ scan_ok (fst r) /\
    1 <= snd r /\ index + snd r <= len directory / ENTRY_BYTES.
Lemma deliver_scanned index scan record consumed :
  scan_ok scan -> is_bitmap record = false ->
  record_at context directory index record consumed -> 1 <= consumed ->
  index + consumed <= len directory / ENTRY_BYTES ->
  yields (scanned index scan) (scan' ← deliver record scan; Ok (scan', consumed)).
Proof.
  intros Hs Hr Ha H1 Hc. eapply yields_bind; [by apply deliver_yields |].
  intros s [He Hok]. simpl. by exists record.
Qed.

Lemma parse_file_set_safe index :
  index < len directory / ENTRY_BYTES -> entry_type_at directory index = TYPE_FILE ->
  yields_unless has_empty_file_set
    (fun r => exists raw count, is_set directory index count raw /\ count = field 1 raw 1 /\
                1 <= count <= dc_max_secondary_entries context /\ r = (set_file raw, count + 1) /\ file_set_ok context raw)
    (parse_file_set directory index context).
Proof.
  intros Hi Hty. pose proof (proj1 (entry_inside index) Hi) as Hl.
  destruct (N.eq_0_gt_0_cases (field 1 directory (index * 32 + 1))) as [H0|H0].
  - destruct (parse_file_set_empty directory index context Hl H0) as [[e ->]|[-> ?]]; [done |].
    by exists index.
  - eapply yields_yields_unless, yields_weaken;
      [apply (parse_file_set_yields directory index context Hl Hbpc); lia |].
    intros r (raw & Hs & -> & Hok & Hm). exists raw, (field 1 directory (index * 32 + 1)).
    split_and!; [done | by eapply set_count | lia | done | done | done].
Qed.

Lemma scan_entry_yields index scan :
  let entry := subslice (index * 32) ((index + 1) * 32) directory in
  let entry_type := entry_type_at directory index in
  index < len directory / ENTRY_BYTES -> scan_ok scan ->
  128 < entry_type < 192 ->
  yields_unless has_empty_file_set (scanned index scan) (scan_entry directory context index entry entry_type scan).
Proof.
  intros entry ty Hi Hs Hty. pose proof (proj1 (entry_inside index) Hi) as Hl.
  assert (He : len entry = 32) by (by apply len_entry_slice). unfold scan_entry.
  destruct (N.eqb_spec ty TYPE_ALLOCATION_BITMAP) as [Ht|_].
  { apply yields_yields_unless, yields_then; [apply refuse_if_safe | intros _ Hroot%refuse_if_Ok%negb_false_iff].
    destruct (parse_bitmap entry index context) as [e| |] eqn:Hp; simpl;
      pose proof (parse_bitmap_yields entry index context He Hbpc) as Hy; rewrite Hp in Hy; [|done|done].
    simpl in Hy. apply yields_then; [apply refuse_if_safe | intros _ Hb%refuse_if_Ok].
    eapply yields_bind; [apply deliver_bitmap_yields; [done | by apply Hy | done] |].
    intros s [Her Hok]. simpl. exists (RecordAllocationBitmap e). simpl. split_and!; try done. lia. }
  destruct (N.eqb_spec ty TYPE_UPCASE_TABLE) as [Ht|_].
  { apply yields_yields_unless, yields_then; [apply refuse_if_safe | intros _ Hroot%refuse_if_Ok%negb_false_iff].
    destruct (parse_upcase entry index context) as [e| |] eqn:Hp; simpl;
      pose proof (parse_upcase_yields entry index context He Hbpc) as Hy; rewrite Hp in Hy; [|done|done].
    apply deliver_scanned; [done | done | done | done | lia]. }
  destruct (N.eqb_spec ty TYPE_VOLUME_LABEL) as [Ht|_].
  { apply yields_yields_unless, yields_then; [apply refuse_if_safe | intros _ Hroot%refuse_if_Ok%negb_false_iff].
    destruct (parse_volume_label entry index) as [e| |] eqn:Hp; simpl;
      pose proof (parse_volume_label_yields entry index He) as Hy; rewrite Hp in Hy; [|done|done].
    apply deliver_scanned; [done | done | done | done | lia]. }
  destruct (N.eqb_spec ty TYPE_FILE) as [Ht|_].
  { eapply unless_bind_unless; [by apply parse_file_set_safe |].
    intros r (raw & count & Hset & Hc & [Hc1 Hc2] & -> & Hok).
    apply yields_yields_unless, deliver_scanned; [done | done | | lia | by eapply set_inside].
    simpl. split; [done |]. by exists raw, count. }
  apply yields_yields_unless. destruct (has_bits ty ENTRY_BENIGN) eqn:Hb; [|done].
  rewrite read_le_in by lia. cbn [mbind outcome_bind].
  eapply yields_bind; [apply generic_benign_set_yields |]. intros raw Hok.
  assert (Hset : is_set directory index (field 1 entry 1) raw) by apply Hok.
  assert (Hfc : field 1 entry 1 = field 1 raw 1).
  { rewrite <- (set_count _ _ _ _ Hset). apply entry_field; lia. }
  apply deliver_scanned; [done | done | | lia | by eapply set_inside].
  simpl. split_and!; done || lia.
Qed.


Lemma require_end_step i :
  i < len directory / ENTRY_BYTES ->
  (entry ← entry_at directory i; later_type ← read_le 1 entry 0;
   refuse_if (negb (later_type =? 0)) (InvalidEntryType i later_type))
  = refuse_if (negb (entry_type_at directory i =? 0)) (InvalidEntryType i (entry_type_at directory i)).
Proof using Hwhole.
  clear Hbpc. intros Hi%entry_inside. rewrite entry_at_in by (unfold ENTRY_BYTES; lia).
  cbn [mbind outcome_bind]. unfold ENTRY_BYTES.
  rewrite read_le_in by (rewrite len_entry_slice; lia). cbn [mbind outcome_bind].
  rewrite entry_field by lia. by rewrite N.add_0_r.
Qed.
Lemma require_end_spec index :
  require_end directory index (len directory / ENTRY_BYTES) <> Panic /\
  (require_end directory index (len directory / ENTRY_BYTES) = Ok tt <->
   forall i, index < i < len directory / ENTRY_BYTES -> entry_type_at directory i = 0).
Proof using Hwhole.
  clear Hbpc. unfold require_end. split.
  - apply for_each_safe. intros i (k & -> & Hk%elem_of_indices)%list_elem_of_fmap.
    rewrite require_end_step by lia. apply refuse_if_safe.
  - rewrite for_each_Ok, Forall_forall. split.
    + intros Hf i Hi. specialize (Hf i). rewrite require_end_step in Hf by lia.
      assert (Hin : i ∈ ((fun i => index + 1 + i) <$> indices (len directory / ENTRY_BYTES - (index + 1)))).
      { apply list_elem_of_fmap. exists (i - (index + 1)). rewrite elem_of_indices. lia. }
      apply Hf, refuse_if_Ok in Hin. by bool_props.
    + intros Hf i (k & -> & Hk%elem_of_indices)%list_elem_of_fmap.
      rewrite require_end_step by lia. apply refuse_if_Ok. by rewrite Hf by lia.
Qed.
Lemma require_end_yields index :
  yields (fun _ => forall i, index < i < len directory / ENTRY_BYTES -> entry_type_at directory i = 0)
    (require_end directory index (len directory / ENTRY_BYTES)).
Proof.
  destruct (require_end_spec index) as [Hp Hi]. apply yields_intro; [done |]. intros [] H. exact (proj1 Hi H).
Qed.

Lemma scan_ok_summary scan s :
  scan_ok scan -> summary_counts (sc_records scan) s ->
  scan_ok (mkScan s (sc_bitmap_mask scan) (sc_records scan)).
Proof using Type. intros [Hc Hn Hi Hm] Hs. by split. Qed.
Lemma examine_counts records n s : summary_counts records s -> summary_counts records (examine n s).
Proof using Type. by destruct s. Qed.
Lemma mark_end_counts records s : summary_counts records s -> summary_counts records (mark_end s).
Proof using Type. by destruct s. Qed.

(** What the loop returns when started at an entry. *)
Definition finished (index : N) (scan result : Scan) : Prop :=
  exists records, sc_records result = sc_records scan ++ records /\
    laid_out context directory index records /\ scan_ok result.
Lemma finished_step index record consumed scan scan' result :
  sc_records scan' = sc_records scan ++ [record] ->
  record_at context directory index record consumed ->
  finished (index + consumed) scan' result -> finished index scan result.
Proof.
  intros He Hr (records & Hs & Hl & Hok). exists (record :: records).
  split_and!; [by rewrite Hs, He, <- app_assoc | by eapply LaidOutRecord | done].
Qed.

Lemma scan_loop_yields fuel index scan :
  (N.to_nat (len directory / ENTRY_BYTES - index) < fuel)%nat ->
  index <= len directory / ENTRY_BYTES -> scan_ok scan ->
  yields_unless has_empty_file_set (finished index scan) (scan_loop fuel directory context index scan).
Proof.
  revert index scan. induction fuel as [|fuel IH]; intros index scan Hfuel Hi Hs; [lia |].
  cbn [scan_loop]. destruct (N.ltb_spec index (len directory / ENTRY_BYTES)) as [Hlt|Hge].
  2: { simpl. exists []. rewrite app_nil_r. split_and!; [done | | done]. apply LaidOutEnd. lia. }
  pose proof (proj1 (entry_inside index) Hlt) as Hl.
  rewrite entry_at_in by (unfold ENTRY_BYTES; lia). cbn [mbind outcome_bind].
  change (subslice (index * ENTRY_BYTES) ((index + 1) * ENTRY_BYTES) directory)
    with (subslice (index * 32) ((index + 1) * 32) directory).
  set (entry := subslice (index * 32) ((index + 1) * 32) directory).
  assert (He : len entry = 32) by (by apply len_entry_slice).
  rewrite (read_le_in 1 entry 0) by lia. cbn [mbind outcome_bind].
  replace (field 1 entry 0) with (entry_type_at directory index)
    by (unfold entry, entry_type_at; rewrite entry_field by lia; by rewrite N.add_0_r).
  set (ty := entry_type_at directory index).
  set (scan1 := mkScan (examine (index + 1) (sc_summary scan)) (sc_bitmap_mask scan) (sc_records scan)).
  assert (Hs1 : scan_ok scan1) by (apply scan_ok_summary, examine_counts, Hs; done).
  assert (Hty : ty < 256) by (apply (field_bound 1); lia).
  destruct (N.eqb_spec ty 0) as [Hz|Hz].
  { eapply unless_bind; [apply require_end_yields |]. intros [] Hend. simpl. exists [].
    rewrite app_nil_r. split_and!; [done | |].
    - apply LaidOutMarker; [done |]. intros i Hii. destruct (decide (i = index)) as [->|]; [done |].
      apply Hend. lia.
    - apply (scan_ok_summary scan1), examine_counts, mark_end_counts, Hs1. done. }
  destruct (N.eqb_spec ty ENTRY_IN_USE) as [|Hin]; [done |].
  destruct (N.eqb_spec (N.land ty ENTRY_IN_USE) 0) as [Hu|Hu].
  { eapply unless_bind; [by apply (deliver_yields scan1 (RecordUnused ty entry)) |].
    intros s' [He' Hok']. eapply unless_weaken; [apply IH; [lia | lia | done] |].
    intros r Hr. eapply (finished_step index (RecordUnused ty entry) 1); [exact He' | | exact Hr].
    simpl. split_and!; try done; by apply unused_types. }
  destruct (has_bits ty ENTRY_SECONDARY) eqn:Hsec; [done |].
  eapply unless_bind_unless.
  { apply scan_entry_yields; [done | exact Hs1 | by apply primary_types]. }
  intros [scan' n] (record & He' & Hr & Hok & Hn1 & Hn2). simpl in *.
  eapply unless_bind; [apply (yields_intro (fun next => next = index + n)); [apply ok_or_safe |] |].
  { by intros next [-> _]%ok_or_Ok%checked_add_Some. }
  intros next ->.
  eapply unless_weaken; [apply IH; [lia | lia | done] |].
  intros r Hres. by eapply finished_step.
Qed.

(** The whole directory. *)
Definition directory_ok (r : DirectorySummary * list DirectoryRecord) : Prop :=
  laid_out context directory 0 (snd r) /\ summary_counts (snd r) (fst r) /\
  NoDup (bitmap_ids (snd r)) /\
  (dc_is_root context = true ->
   count_by is_bitmap (snd r) = dc_number_of_fats context /\
   count_by is_upcase (snd r) = 1 /\ count_by is_label (snd r) <= 1).
Lemma scan_directory_yields :
  yields_unless has_empty_file_set directory_ok (scan_directory directory context).
Proof.
  unfold scan_directory.
  eapply unless_bind_unless;
    [apply scan_loop_yields; [rewrite N.sub_0_r; lia | apply N.le_0_l |] |].
  { split; simpl; [done | constructor | constructor |]. intros i.
    split; [by destruct i | by intros ?%elem_of_nil]. }
  intros scan (records & Hr & Hl & Hok). simpl in Hr. rewrite <- Hr in Hl. destruct Hok as [Hc Hn _ _].
  apply yields_yields_unless, yields_then; [unfold check_root_counts, require_count; safe |].
  intros [] Hroot. simpl. unfold directory_ok. simpl. split_and!; [done | done | done |].
  intros Hir. unfold check_root_counts, require_count in Hroot. rewrite Hir in Hroot.
  rewrite !then_Ok, !refuse_if_Ok, !negb_false_iff, !N.eqb_eq, N.ltb_ge in Hroot.
  destruct Hc as (_ & _ & H3 & H4 & H5 & _). widths. lia.
Qed.
End Scan.

(** Tests between constants. *)
Ltac closed_tests :=
  repeat match goal with
  | |- context [N.eqb ?a ?b] =>
      let v := eval vm_compute in (N.eqb a b) in
      lazymatch v with true => idtac | false => idtac end; change (N.eqb a b) with v
  | |- context [has_bits ?a ?b] =>
      let v := eval vm_compute in (has_bits a b) in
      lazymatch v with true => idtac | false => idtac end; change (has_bits a b) with v
  end.
Lemma benign_types ty :
  128 < ty < 192 -> has_bits ty ENTRY_BENIGN = true ->
  N.land ty ENTRY_IN_USE <> 0 /\ has_bits ty ENTRY_SECONDARY = false /\
  ty <> TYPE_ALLOCATION_BITMAP /\ ty <> TYPE_UPCASE_TABLE /\ ty <> TYPE_VOLUME_LABEL /\
  ty <> TYPE_FILE.
Proof.
  assert (H : forallb (fun ty => negb ((128 <? ty) && (ty <? 192) && has_bits ty ENTRY_BENIGN)
    || (negb (N.land ty ENTRY_IN_USE =? 0) && negb (has_bits ty ENTRY_SECONDARY)
        && negb (existsb (N.eqb ty) [TYPE_ALLOCATION_BITMAP; TYPE_UPCASE_TABLE; TYPE_VOLUME_LABEL; TYPE_FILE])))
    (indices 256) = true) by (by vm_compute).
  intros Hty Hb. rewrite forallb_forall in H.
  specialize (H ty ltac:(apply list_elem_of_In, elem_of_indices; lia)).
  rewrite (proj2 (N.ltb_lt 128 ty)), (proj2 (N.ltb_lt ty 192)), Hb in H by lia. simpl in H.
  rewrite !andb_true_iff, !negb_true_iff, !orb_false_iff, !N.eqb_neq in H. tauto.
Qed.

(** ** Every directory that is laid out is accepted *)
Section Complete.
Context (directory : list byte) (context : DirectoryContext).
Context (Hwhole : len directory / ENTRY_BYTES * ENTRY_BYTES = len directory).
Context (Hsize : len directory <= isize_max).
Context (Hbpc : dc_bytes_per_cluster context <> 0 /\ dc_bytes_per_cluster context <= u32_max).
Context (Hcount : dc_cluster_count context < u32_max).
#[local] Set Default Proof Using "All".

Lemma entries_small : len directory / ENTRY_BYTES <= isize_max.
Proof.
  transitivity (len directory); [|exact Hsize]. rewrite <- Hwhole at 2. unfold ENTRY_BYTES.
  generalize (len directory / 32). intros q. lia.
Qed.

Lemma bitmap_is_new scan e :
  scan_ok scan -> NoDup (bitmap_ids (sc_records scan ++ [RecordAllocationBitmap e])) ->
  N.testbit (sc_bitmap_mask scan) (ab_bitmap_identifier e) = false.
Proof using Type.
  intros Hs Hn. apply not_true_iff_false. intros Hm%(so_mask _ Hs).
  unfold bitmap_ids in Hn. rewrite omap_app in Hn. apply NoDup_app in Hn as (_ & Hd & _).
  apply (Hd _ Hm). simpl. by left.
Qed.
Lemma deliver_total scan r :
  scan_ok scan -> NoDup (bitmap_ids (sc_records scan ++ [r])) ->
  (forall e, r = RecordAllocationBitmap e -> ab_bitmap_identifier e <= 1) ->
  let scan1 := match r with
               | RecordAllocationBitmap e =>
                   with_mask (N.lor (sc_bitmap_mask scan) (N.shiftl 1 (ab_bitmap_identifier e))) scan
               | _ => scan
               end in
  exists scan', deliver r scan1 = Ok scan' /\
    sc_records scan' = sc_records scan ++ [r] /\ scan_ok scan'.
Proof.
  intros Hs Hn Hid scan1.
  assert (Hy : yields (fun scan' => sc_records scan' = sc_records scan ++ [r] /\ scan_ok scan')
                 (deliver r scan1)).
  { destruct r as [| e | | | |]; try by apply deliver_yields.
    apply deliver_bitmap_yields; [done | by apply Hid |]. rewrite has_bits_bit.
    by apply bitmap_is_new. }
  destruct (deliver r scan1) as [scan'|e|] eqn:He; [by exists scan' | | done].
  exfalso. unfold deliver in He. destruct (count_record r (sc_summary scan1)) eqn:Hc; try done.
  unfold count_record in Hc. destruct (sc_summary scan1), r; try done.
  by destruct (u8_try_from (ds_allocation_bitmaps0 + 1)).
Qed.

(** One round of the loop at a record. *)
Lemma scan_loop_record fuel index scan record consumed :
  record_at context directory index record consumed -> scan_ok scan ->
  NoDup (bitmap_ids (sc_records scan ++ [record])) ->
  exists scan', scan_loop (S fuel) directory context index scan
                = scan_loop fuel directory context (index + consumed) scan' /\
    sc_records scan' = sc_records scan ++ [record] /\ scan_ok scan' /\
    1 <= consumed /\ index + consumed <= len directory / ENTRY_BYTES.
Proof.
  intros Hr Hs Hn. pose proof entries_small as Hsmall. widths.
  assert (Hty : entry_type_at directory index <> 0).
  { destruct record; simpl in Hr; unfold TYPE_ALLOCATION_BITMAP, TYPE_UPCASE_TABLE,
      TYPE_VOLUME_LABEL, TYPE_FILE in *; lia. }
  assert (Hlt : index < len directory / ENTRY_BYTES).
  { apply (entry_inside directory Hwhole).
    destruct (N.le_gt_cases ((index + 1) * 32) (len directory)) as [|Hgt]; [done |]. exfalso.
    destruct (N.le_gt_cases (len directory) (index * 32)) as [Hge|Hlt].
    - apply Hty. unfold entry_type_at, field, subslice. rewrite drop_ge by (unfold len in *; lia). by rewrite take_nil.
    - rewrite <- Hwhole in Hgt, Hlt. revert Hgt Hlt. generalize (len directory / ENTRY_BYTES).
      unfold ENTRY_BYTES. intros q. lia. }
  pose proof (proj1 (entry_inside directory Hwhole index) Hlt) as Hl.
  cbn [scan_loop]. rewrite (proj2 (N.ltb_lt _ _)) by done.
  rewrite entry_at_in by (unfold ENTRY_BYTES; lia). cbn [mbind outcome_bind].
  change (subslice (index * ENTRY_BYTES) ((index + 1) * ENTRY_BYTES) directory)
    with (subslice (index * 32) ((index + 1) * 32) directory).
  set (entry := subslice (index * 32) ((index + 1) * 32) directory).
  assert (He : len entry = 32) by (by apply len_entry_slice).
  rewrite (read_le_in 1 entry 0) by lia. cbn [mbind outcome_bind].
  replace (field 1 entry 0) with (entry_type_at directory index)
    by (unfold entry, entry_type_at; rewrite entry_field by lia; by rewrite N.add_0_r).
  set (scan1 := mkScan (examine (index + 1) (sc_summary scan)) (sc_bitmap_mask scan) (sc_records scan)).
  assert (Hs1 : scan_ok scan1) by (by apply scan_ok_summary, examine_counts, Hs).
  assert (Hids : forall e, record = RecordAllocationBitmap e -> ab_bitmap_identifier e <= 1).
  { intros e ->. simpl in Hr. apply Hr. }
  destruct (deliver_total scan1 record Hs1 Hn Hids) as (scan' & Hd & Hrec & Hok).
  rewrite (proj2 (N.eqb_neq _ _) Hty). exists scan'.
  assert (Hadd : forall n, index + n <= len directory / ENTRY_BYTES ->
    @ok_or DirectoryError N (DirectoryOverflow "directory entry index") (checked_add index n) = Ok (index + n)).
  { intros n Hn'. rewrite checked_add_in by lia. done. }
  destruct record as [ty raw | e | e | e | f | ty count raw]; simpl in Hr.
  - destruct Hr as (-> & -> & Hr & ->). rewrite (proj2 (N.eqb_neq _ ENTRY_IN_USE)) by (unfold ENTRY_IN_USE; lia).
    rewrite (unused_types_in_use (entry_type_at directory index)) by lia. fold entry; fold entry in Hd.
    closed_tests. cbn iota. rewrite Hd. cbn [mbind outcome_bind]. split_and!; [done | done | done | lia | lia].
  - destruct Hr as (Ht & Hroot & Hp & Hb & ->). fold entry in Hp. rewrite Ht. unfold scan_entry.
    closed_tests. cbn iota. unfold require_root. rewrite Hroot, Hp.
    cbn [negb refuse_if mbind outcome_bind]. rewrite has_bits_bit.
    rewrite (bitmap_is_new scan1 e Hs1 Hn). cbn [refuse_if mbind outcome_bind].
    rewrite Hd. cbn [mbind outcome_bind]. rewrite Hadd by lia. cbn [mbind outcome_bind].
    split_and!; [done | done | done | lia | lia].
  - destruct Hr as (Ht & Hroot & Hp & Hb & ->). fold entry in Hp. rewrite Ht. unfold scan_entry.
    closed_tests. cbn iota. unfold require_root. rewrite Hroot, Hp.
    cbn [negb refuse_if mbind outcome_bind].
    rewrite Hd. cbn [mbind outcome_bind]. rewrite Hadd by lia. cbn [mbind outcome_bind].
    split_and!; [done | done | done | lia | lia].
  - destruct Hr as (Ht & Hroot & Hp & Hb & ->). fold entry in Hp. rewrite Ht. unfold scan_entry.
    closed_tests. cbn iota. unfold require_root. rewrite Hroot, Hp.
    cbn [negb refuse_if mbind outcome_bind].
    rewrite Hd. cbn [mbind outcome_bind]. rewrite Hadd by lia. cbn [mbind outcome_bind].
    split_and!; [done | done | done | lia | lia].
  - destruct Hr as (Ht & raw & count & Hset & Hc & [Hc1 Hc2] & -> & Hok' & ->).
    pose proof (set_inside directory Hwhole _ _ _ Hset) as Hin. rewrite Ht. unfold scan_entry.
    closed_tests. cbn iota.
    rewrite (parse_file_set_total directory index context raw count) by
      (first [done | lia | apply Hbpc | by rewrite (set_count _ _ _ _ Hset)]).
    cbn [mbind outcome_bind]. rewrite Hd. cbn [mbind outcome_bind].
    rewrite Hadd by lia. cbn [mbind outcome_bind]. split_and!; [done | done | done | lia | lia].
  - destruct Hr as (-> & Hr & Hbit & Hc & Hok' & ->). assert (Hset := proj1 Hok').
    pose proof (set_inside directory Hwhole _ _ _ Hset) as Hin.
    rewrite (proj2 (N.eqb_neq _ ENTRY_IN_USE)) by (unfold ENTRY_IN_USE; lia).
    destruct (benign_types _ Hr Hbit) as (H1 & H2 & H3 & H4 & H5 & H6).
    rewrite (proj2 (N.eqb_neq _ _) H1), H2. unfold scan_entry.
    rewrite (proj2 (N.eqb_neq _ _) H3), (proj2 (N.eqb_neq _ _) H4), (proj2 (N.eqb_neq _ _) H5),
      (proj2 (N.eqb_neq _ _) H6), Hbit. fold entry.
    rewrite (read_le_in 1 entry 1) by lia. cbn [mbind outcome_bind].
    replace (field 1 entry 1) with count
      by (rewrite Hc, <- (set_count _ _ _ _ Hset); symmetry; apply entry_field; lia).
    rewrite (generic_benign_set_total directory index count context raw) by (done || lia).
    cbn [mbind outcome_bind]. rewrite Hd. cbn [mbind outcome_bind].
    rewrite Hadd by lia. cbn [mbind outcome_bind]. split_and!; [done | done | done | lia | lia].
Qed.

Lemma scan_loop_complete index records :
  laid_out context directory index records ->
  forall fuel scan, scan_ok scan -> NoDup (bitmap_ids (sc_records scan ++ records)) ->
  (N.to_nat (len directory / ENTRY_BYTES - index) < fuel)%nat ->
  exists scan', scan_loop fuel directory context index scan = Ok scan' /\
    sc_records scan' = sc_records scan ++ records /\ scan_ok scan'.
Proof.
  induction 1 as [index Hi | index Hlt Hz | index record consumed records Hr _ IH];
    intros [|fuel] scan Hs Hn Hfuel; try lia.
  - exists scan. rewrite app_nil_r. cbn [scan_loop]. by rewrite (proj2 (N.ltb_ge _ _)) by lia.
  - cbn [scan_loop]. rewrite (proj2 (N.ltb_lt _ _)) by done.
    pose proof (proj1 (entry_inside directory Hwhole index) Hlt) as Hl.
    rewrite entry_at_in by (unfold ENTRY_BYTES; lia). cbn [mbind outcome_bind].
    rewrite (read_le_in 1 _ 0) by (rewrite len_entry_slice; unfold ENTRY_BYTES; lia). cbn [mbind outcome_bind].
    assert (Ht : field 1 (subslice (index * ENTRY_BYTES) ((index + 1) * ENTRY_BYTES) directory) 0 = 0).
    { unfold ENTRY_BYTES. rewrite entry_field, N.add_0_r by lia. by apply Hz. }
    rewrite Ht. closed_tests. cbn iota.
    rewrite (proj2 (proj2 (require_end_spec directory Hwhole index))) by (intros; apply Hz; lia).
    cbn [mbind outcome_bind]. eexists. rewrite app_nil_r. split_and!; [done | done |].
    apply (scan_ok_summary scan); [done |]. by apply examine_counts, mark_end_counts, examine_counts, Hs.
  - destruct (scan_loop_record fuel index scan record consumed Hr Hs) as (scan1 & He & Hrec & Hok & H1 & H2).
    { revert Hn. unfold bitmap_ids. rewrite !omap_app. intros Hn.
      replace (record :: records) with ([record] ++ records) in Hn by done.
      rewrite omap_app, app_assoc in Hn. by apply NoDup_app in Hn as (? & _ & _). }
    destruct (IH fuel scan1 Hok) as (scan' & He' & Hrec' & Hok').
    { by rewrite Hrec, <- app_assoc. } { lia. }
    exists scan'. rewrite He, He', Hrec', Hrec, <- app_assoc. done.
Qed.

Lemma scan_directory_complete records :
  laid_out context directory 0 records -> NoDup (bitmap_ids records) ->
  (dc_is_root context = true ->
   count_by is_bitmap records = dc_number_of_fats context /\
   count_by is_upcase records = 1 /\ count_by is_label records <= 1) ->
  exists summary, scan_directory directory context = Ok (summary, records).
Proof.
  intros Hl Hn Hroot.
  destruct (scan_loop_complete 0 records Hl (S (N.to_nat (len directory / ENTRY_BYTES))) empty_scan)
    as (scan & He & Hrec & Hok).
  { split; simpl; [done | constructor | constructor |]. intros i.
    split; [by destruct i | by intros ?%elem_of_nil]. }
  { done. } { rewrite N.sub_0_r. lia. }
  exists (sc_summary scan). unfold scan_directory. rewrite He. cbn [mbind outcome_bind].
  simpl in Hrec. rewrite Hrec. destruct Hok as [Hc _ _ _]. rewrite Hrec in Hc.
  destruct Hc as (_ & _ & H3 & H4 & H5 & _).
  assert (check_root_counts context (sc_summary scan) = Ok tt) as ->; [|done].
  unfold check_root_counts, require_count. destruct (dc_is_root context); [|done].
  destruct (Hroot eq_refl) as (Hb & Hu & Hla). rewrite !then_Ok, !refuse_if_Ok, !negb_false_iff, !N.eqb_eq, N.ltb_ge.
  widths. lia.
Qed.
End Complete.

(** * Theorems *)

Lemma validate_context_Ok directory context u :
  validate_context directory context = Ok u ->
  dc_bytes_per_cluster context <> 0 /\
  len directory / ENTRY_BYTES * ENTRY_BYTES = len directory /\
  len directory / ENTRY_BYTES <= dc_max_entries context.
Proof. unfold validate_context. intros H. rewrite !then_Ok, !refuse_if_Ok in H. destruct H as (_ & H1 & _ & _ & H2 & H3). bool_props. done. Qed.
Lemma validate_context_safe directory context : validate_context directory context <> Panic.
Proof. unfold validate_context. safe. Qed.

Lemma parse_directory_yields directory context :
  yields_unless (has_empty_file_set directory) (directory_ok directory context)
    (parse_directory directory context).
Proof.
  unfold parse_directory. destruct (validate_context directory context) as [[]| |] eqn:Hv; simpl; [| done |].
  - apply validate_context_Ok in Hv as (Hb & Hw & _).
    pose proof (scan_directory_yields directory context Hw Hb) as Hy.
    eapply unless_bind_unless; [exact Hy |]. by intros.
  - by apply validate_context_safe in Hv.
Qed.

(** C31: A directory that is accepted holds the records that are delivered: from
    its first entry on they follow one another up to the end marker or the end
    of the bytes, each one read from its own entries: the set of a file has the
    stored checksum, a valid name in as many name entries as it needs, and an
    allocation of the heap that holds its data; the summary counts them, and a
    root directory has one up-case table, one bitmap for each FAT and at most
    one label. *)
Theorem accepted_directory_holds_its_records directory context summary records :
  parse_directory directory context = Ok (summary, records) ->
  laid_out context directory 0 records /\ summary_counts records summary /\
  NoDup (bitmap_ids records) /\
  (dc_is_root context = true ->
   count_by is_bitmap records = dc_number_of_fats context /\
   count_by is_upcase records = 1 /\ count_by is_label records <= 1).
Proof.
  intros H. pose proof (parse_directory_yields directory context) as Hy. rewrite H in Hy. exact Hy.
Qed.

Lemma parse_directory_complete directory context records :
  len directory <= isize_max -> dc_cluster_count context < u32_max ->
  dc_bytes_per_cluster context <= u32_max ->
  validate_context directory context = Ok tt -> laid_out context directory 0 records ->
  NoDup (bitmap_ids records) ->
  (dc_is_root context = true ->
   count_by is_bitmap records = dc_number_of_fats context /\
   count_by is_upcase records = 1 /\ count_by is_label records <= 1) ->
  exists summary, parse_directory directory context = Ok (summary, records).
Proof.
  intros Hl Hc Hb Hv Hlaid Hn Hroot. pose proof (validate_context_Ok _ _ _ Hv) as (Hb0 & Hw & _).
  destruct (scan_directory_complete directory context Hw Hl (conj Hb0 Hb) Hc records Hlaid Hn Hroot)
    as (summary & Hs).
  exists summary. unfold parse_directory. rewrite Hv, Hs. done.
Qed.

(** A directory is accepted, and a list of records delivered, exactly when
    its context is valid and its entries are laid out as those records, with
    different bitmap identifiers and, in a root, the system entries that it must
    have: the scan is a decision procedure for the layout. *)
Theorem directory_grammar directory context records :
  len directory <= isize_max -> dc_cluster_count context < u32_max ->
  dc_bytes_per_cluster context <= u32_max ->
  (exists summary, parse_directory directory context = Ok (summary, records)) <->
  validate_context directory context = Ok tt /\ laid_out context directory 0 records /\
  NoDup (bitmap_ids records) /\
  (dc_is_root context = true ->
   count_by is_bitmap records = dc_number_of_fats context /\
   count_by is_upcase records = 1 /\ count_by is_label records <= 1).
Proof.
  intros Hl Hc Hb. split.
  - intros (summary & H). pose proof (parse_directory_yields directory context) as Hy.
    rewrite H in Hy. destruct Hy as (H1 & _ & H2 & H3). split_and!; [|done..].
    unfold parse_directory in H. apply bind_Ok in H as ([] & H & _). exact H.
  - intros (Hv & Hlaid & Hn & Hroot). by apply parse_directory_complete.
Qed.

(** A file entry that declares no secondary entries aborts the parser when
    its checksum and its own fields are right, and nothing else does: the
    stream entry is read before the number of secondary entries is compared
    with what the name needs. *)
Theorem empty_file_set_aborts directory context :
  (parse_directory directory context = Panic ->
   exists i, i < len directory / ENTRY_BYTES /\ entry_type_at directory i = TYPE_FILE /\
             empty_file_set directory i) /\
  (validate_context directory context = Ok tt -> 0 < len directory ->
   entry_type_at directory 0 = TYPE_FILE -> empty_file_set directory 0 ->
   parse_directory directory context = Panic).
Proof.
  split.
  - intros H. pose proof (parse_directory_yields directory context) as Hy. by rewrite H in Hy.
  - intros Hv Hl Hty He. unfold parse_directory. rewrite Hv. cbn [mbind outcome_bind].
    apply validate_context_Ok in Hv as (_ & Hw & _).
    assert (Hlt : 0 < len directory / ENTRY_BYTES).
    { destruct (N.eq_0_gt_0_cases (len directory / ENTRY_BYTES)) as [H0|]; [|done].
      rewrite H0 in Hw. lia. }
    assert (H32 : (0 + 1) * 32 <= len directory).
    { rewrite <- Hw. revert Hlt. generalize (len directory / ENTRY_BYTES). unfold ENTRY_BYTES. lia. }
    assert (Hs : scan_directory directory context = Panic); [|by rewrite Hs].
    unfold scan_directory. cbn [scan_loop]. rewrite (proj2 (N.ltb_lt _ _)) by done.
    rewrite entry_at_in by (unfold ENTRY_BYTES; lia). cbn [mbind outcome_bind].
    rewrite (read_le_in 1 _ 0) by (rewrite len_entry_slice; unfold ENTRY_BYTES; lia). cbn [mbind outcome_bind].
    replace (field 1 (subslice (0 * ENTRY_BYTES) ((0 + 1) * ENTRY_BYTES) directory) 0) with TYPE_FILE
      by (rewrite <- Hty; symmetry; apply (entry_field 1 directory 0 0); lia).
    simpl. unfold scan_entry. simpl. by rewrite parse_file_set_aborts by (done || widths; lia).
Qed.

(** The set of a file is accepted exactly when it lies in the directory, its
    number of secondary entries is permitted, and its checksum, the fields of
    its entries, its name and its allocation are valid; what is delivered is what
    its bytes say. *)
Theorem file_sets_accepted directory index context r :
  (index + 1) * 32 <= len directory -> len directory <= isize_max ->
  dc_cluster_count context < u32_max -> dc_bytes_per_cluster context <> 0 ->
  dc_bytes_per_cluster context <= u32_max ->
  parse_file_set directory index context = Ok r <->
  exists raw count, is_set directory index count raw /\
    count = field 1 directory (index * 32 + 1) /\ 1 <= count <= dc_max_secondary_entries context /\
    file_set_ok context raw /\ r = (set_file raw, count + 1).
Proof.
  intros Hl Hd Hcc Hb Hbw. split.
  - intros H. destruct (N.eq_0_gt_0_cases (field 1 directory (index * 32 + 1))) as [H0|H0].
    + destruct (parse_file_set_empty directory index context Hl H0) as [[e He]|[He _]]; congruence.
    + pose proof (parse_file_set_yields directory index context Hl Hb ltac:(lia)) as Hy.
      rewrite H in Hy. destruct Hy as (raw & Hs & Hr & Hok & Hm). exists raw.
      eexists. split_and!; [exact Hs | done | lia | done | done | done].
  - intros (raw & count & Hs & Hc & [Hc1 Hc2] & Hok & ->).
    apply parse_file_set_total; try done. destruct Hs as [_ Hs]. unfold ENTRY_BYTES in Hs. widths. lia.
Qed.

(** ** A file named [A] of five bytes *)
Definition sample_context : DirectoryContext := mkDirectoryContext 1000 4096 1 false 128 32.
Definition with_checksum (raw : list byte) : list byte := splice 2 (u16_le (set_checksum_of raw)) raw.
Definition sample_primary (count : N) : list byte :=
  byte_of_N <$> [133; count; 0; 0; 32; 0; 0; 0; 0; 0; 33; 0; 0; 0; 33; 0;
                 0; 0; 33; 0; 0; 0; 128; 128; 128; 0; 0; 0; 0; 0; 0; 0].
Definition sample_set : list byte :=
  with_checksum (sample_primary 2
    ++ (byte_of_N <$> [192; 1; 0; 1; 0; 0; 0; 0; 5; 0; 0; 0; 0; 0; 0; 0;
                       0; 0; 0; 0; 7; 0; 0; 0; 5; 0; 0; 0; 0; 0; 0; 0])
    ++ (byte_of_N <$> [193; 0; 65; 0]) ++ replicate 28 x00).

Lemma empty_file_set_aborts_witness :
  parse_directory (with_checksum (sample_primary 0)) sample_context = Panic.
Proof.
  apply (proj2 (empty_file_set_aborts (with_checksum (sample_primary 0)) sample_context));
    [by vm_compute | by vm_compute | by vm_compute | apply (bool_decide_eq_true_1 _); by vm_compute].
Defined.
Lemma accepted_directory_holds_its_records_witness :
  laid_out sample_context (sample_set ++ replicate 32 x00) 0 [RecordFile (set_file sample_set)].
Proof.
  eapply (accepted_directory_holds_its_records (sample_set ++ replicate 32 x00) sample_context
            (mkDirectorySummary 4 1 0 true 0 0 0 1 0)).
  by vm_compute.
Defined.
Lemma file_sets_accepted_witness : file_set_ok sample_context sample_set.
Proof.
  destruct (proj1 (file_sets_accepted sample_set 0 sample_context (set_file sample_set, 3)
    ltac:(by vm_compute) ltac:(by vm_compute) ltac:(by vm_compute) ltac:(by vm_compute)
    ltac:(by vm_compute)) ltac:(by vm_compute)) as (raw & count & _ & _ & _ & Hok & Hr).
  apply (f_equal (fun r => fe_raw_set (fst r))) in Hr. change (sample_set = raw) in Hr. by rewrite Hr.
Defined.
Lemma directory_grammar_witness :
  exists summary, parse_directory sample_set sample_context = Ok (summary, [RecordFile (set_file sample_set)]).
Proof.
  apply (proj2 (directory_grammar sample_set sample_context [RecordFile (set_file sample_set)]
    ltac:(by vm_compute) ltac:(by vm_compute) ltac:(by vm_compute))).
  apply (proj1 (directory_grammar sample_set sample_context [RecordFile (set_file sample_set)]
    ltac:(by vm_compute) ltac:(by vm_compute) ltac:(by vm_compute))).
  exists (mkDirectorySummary 1 1 0 false 0 0 0 1 0). by vm_compute.
Defined.
