(* ===== verification/ExfatLayout.v ===== *)
(** * exFAT object layouts

    The part of [fs/exfat_serialize.rs] that reads the object graph: the limits
    and the volume profile are checked, every object gets a layout with its exact
    metadata, its name and its sorted children, and the payload of every file is
    mapped to the clusters of the destination heap that it occupies.

    A [BTreeMap] of layouts is a [gmap]; where the source iterates over it, the
    keys are taken in increasing order ([layout_keys]).

    The lemmas below are used by [ExfatSerialize.v]: every object of the graph
    gets a layout with its kind and stream; the payload mapping assigns to every
    file exactly the clusters under its extents, in order, and takes only
    clusters that were free ([takes]). *)

From S2P Require Import Extent Geometry Object Overlay.
From S2P Require Export ExfatFat ExfatDirectory.
From stdpp Require Import gmap options.

#[local] Open Scope N_scope.

(** ** Data *)
Record ExfatTimestamps : Type := mkExfatTimestamps {
  ts_create : N;
  ts_modified : N;
  ts_accessed : N;
  ts_create_centiseconds : N;
  ts_modified_centiseconds : N;
  ts_create_utc_offset : N;
  ts_modified_utc_offset : N;
  ts_accessed_utc_offset : N
}.

Record ExfatObjectMetadata : Type := mkExfatObjectMetadata {
  om_object : ObjectId;
  om_file_attributes : N;
  om_timestamps : ExfatTimestamps
}.

Record ExfatPreservationEvidence : Type := mkExfatPreservationEvidence {
  pe_unused_directory_entries : N;
  pe_benign_primary_sets : N;
  pe_benign_secondary_entries : N;
  pe_nonzero_name_padding_sets : N;
  pe_nonzero_volume_label_padding : bool
}.

Record ExfatVolumeProfile : Type := mkExfatVolumeProfile {
  vp_volume_label : option (list N);
  vp_encoded_upcase_table : list byte;
  vp_upcase_checksum : N;
  vp_source_preservation : ExfatPreservationEvidence;
  vp_allocated_bad_clusters : N;
  vp_bad_cluster_ranges : list ByteRange;
  vp_stale_boot_sectors : list ByteRange
}.

Record ExfatSerializeLimits : Type := mkExfatSerializeLimits {
  sl_max_objects : N;
  sl_max_entries : N;
  sl_max_extents : N;
  sl_max_clusters : N;
  sl_max_directory_bytes : N;
  sl_max_metadata_bytes : N;
  sl_overlay : OverlayLimits
}.

Record StreamLayout : Type := mkStreamLayout {
  yl_stream : StreamId;
  yl_logical_bytes : N;
  yl_initialized_bytes : N;
  yl_mapped_bytes : N;
  yl_clusters : list N;
  yl_no_fat_chain : bool
}.

Record ObjectLayout : Type := mkObjectLayout {
  lo_kind : ObjectKind;
  lo_metadata : option ExfatObjectMetadata;
  lo_name : option (list N);
  lo_children : list ObjectId;
  lo_stream : option StreamLayout;
  lo_directory_clusters : list N;
  lo_directory_bytes : N
}.

Record ReusedPayload : Type := mkReusedPayload {
  rp_stream : StreamId;
  rp_clusters : list N;
  rp_no_fat_chain : bool
}.

Inductive PayloadPlacementMode : Type := Final | RelocationDraft.
#[export] Instance PayloadPlacementMode_eq_dec : EqDecision PayloadPlacementMode.
Proof. solve_decision. Defined.

Abbreviation Layouts := (gmap N ObjectLayout).
(** The keys of the map in the order of the source's iteration. *)
Definition layout_keys (layouts : Layouts) : list ObjectId :=
  sort_by_key id (map_to_list layouts).*1.

(** ** Limits and profile *)
Definition validate_serialize_limits (limits : ExfatSerializeLimits) : result unit :=
  for_each (fun fv : string * N => refuse_if (fv.2 =? 0) (InvalidLimit fv.1))
    [("max_objects"%string, sl_max_objects limits);
     ("max_entries"%string, sl_max_entries limits);
     ("max_extents"%string, sl_max_extents limits);
     ("max_clusters"%string, sl_max_clusters limits);
     ("max_directory_bytes"%string, sl_max_directory_bytes limits);
     ("max_metadata_bytes"%string, sl_max_metadata_bytes limits)].

Definition validate_volume_profile (profile : ExfatVolumeProfile) : result unit :=
  let evidence := vp_source_preservation profile in
  refuse_if (negb (pe_unused_directory_entries evidence =? 0))
    (UnsupportedPreservationEvidence "inactive nonzero directory entries are present") ;;
  refuse_if (negb (pe_benign_primary_sets evidence =? 0)
             || negb (pe_benign_secondary_entries evidence =? 0))
    (UnsupportedPreservationEvidence "benign/vendor directory entries are present") ;;
  refuse_if (negb (pe_nonzero_name_padding_sets evidence =? 0)
             || pe_nonzero_volume_label_padding evidence)
    (UnsupportedPreservationEvidence
       "nonzero recommended filename or volume-label padding is present") ;;
  let reported := default usize_max (usize_try_from (vp_allocated_bad_clusters profile)) in
  refuse_if (negb (reported =? len (vp_bad_cluster_ranges profile)))
    (UnsupportedPreservationEvidence "allocated bad-cluster markings are present") ;;
  match vp_volume_label profile with
  | Some label =>
      refuse_if (11 <? len label) (InvalidVolumeLabel "more than 11 UTF-16 code units") ;;
      refuse_if (existsb forbidden_unit label)
        (InvalidVolumeLabel "contains an exFAT-forbidden character") ;;
      refuse_if (negb (utf16_valid label))
        (InvalidVolumeLabel "contains unpaired UTF-16 surrogate code units")
  | None => Ok tt
  end.

(** ** Objects *)
Definition valid_utc (value : N) : bool := (value =? 0) || negb (N.land value 128 =? 0).

Definition valid_timestamp (value : N) : bool :=
  let seconds := N.land value 31 in
  let minute := N.land (N.shiftr value 5) 63 in
  let hour := N.land (N.shiftr value 11) 31 in
  let day := N.land (N.shiftr value 16) 31 in
  let month := N.land (N.shiftr value 21) 15 in
  let year := 1980 + N.land (N.shiftr value 25) 127 in
  (seconds <=? 29) && (minute <=? 59) && (hour <=? 23) && negb (day =? 0)
  && (day <=? maximum_day year month).

Definition validate_metadata (object : ObjectId) (kind : ObjectKind) (item : ExfatObjectMetadata)
    : result unit :=
  refuse_if (has_bits (om_file_attributes item) (N.lxor VALID_FILE_ATTRIBUTES u16_max)
             || negb (Bool.eqb (has_bits (om_file_attributes item) DIRECTORY_ATTRIBUTE)
                        (bool_decide (kind = Directory))))
    (InvalidAttributes object) ;;
  let timestamps := om_timestamps item in
  refuse_if (negb (valid_timestamp (ts_create timestamps))
             || negb (valid_timestamp (ts_modified timestamps))
             || negb (valid_timestamp (ts_accessed timestamps))
             || (199 <? ts_create_centiseconds timestamps)
             || (199 <? ts_modified_centiseconds timestamps)
             || negb (valid_utc (ts_create_utc_offset timestamps))
             || negb (valid_utc (ts_modified_utc_offset timestamps))
             || negb (valid_utc (ts_accessed_utc_offset timestamps)))
    (InvalidTimestamp object).

Definition validate_name (name : list N) (object : ObjectId) : result unit :=
  refuse_if (is_empty name || (MAX_FILE_NAME_CODE_UNITS <? len name))
    (InvalidName object "length is outside 1..=255 UTF-16 code units") ;;
  refuse_if (dot_name name) (InvalidName object "dot names are reserved") ;;
  refuse_if (existsb forbidden_unit name)
    (InvalidName object "contains a forbidden code unit") ;;
  refuse_if (negb (utf16_valid name))
    (InvalidName object "contains unpaired UTF-16 surrogates").

Definition validate_file_stream (object : ObjectId) (streams : list ObjectStream)
    (geometry : ExfatDestinationGeometry) (payload_mode : PayloadPlacementMode)
    : result StreamLayout :=
  match streams with
  | [] => Ok (mkStreamLayout object 0 0 0 [] false)
  | stream :: others =>
      refuse_if (negb (is_empty others) || negb (bool_decide (st_name stream = None)))
        (UnsupportedObject object "named or multiple data streams are unsupported") ;;
      refuse_if (sf_sparse (st_flags stream) || sf_compressed (st_flags stream)
                 || sf_encrypted (st_flags stream))
        (UnsupportedObject object
           "sparse, compressed, or encrypted data cannot be represented") ;;
      let cluster_bytes := dg_bytes_per_cluster geometry in
      (if st_logical_bytes stream =? 0 then
         refuse_if (negb (bool_decide (st_storage stream = Resident [])))
           (UnsupportedObject object "empty files must use empty resident storage")
       else
         match payload_mode with
         | RelocationDraft =>
             match st_storage stream with
             | Resident bytes =>
                 refuse_if (negb (bool_decide (u64_try_from (len bytes) = Some (st_logical_bytes stream))
                                  && (st_allocated_bytes stream =? 0)
                                  && (st_mapped_bytes stream =? st_logical_bytes stream)))
                   (UnsupportedObject object
                      "resident payload length does not match stream sizes")
             | Extents => Ok tt
             end
         | Final =>
             bad ← (if negb (is_extents (st_storage stream)) then Ok true
                    else
                      remainder ← rem_u64 (st_mapped_bytes stream) cluster_bytes;
                      Ok (negb (remainder =? 0)
                          || negb (st_allocated_bytes stream =? st_mapped_bytes stream)));
             refuse_if bad
               (UnsupportedObject object
                  "non-empty files require fully physical, whole-cluster extent storage")
         end) ;;
      Ok (mkStreamLayout (st_id stream) (st_logical_bytes stream) (st_initialized_bytes stream)
            (st_mapped_bytes stream) [] false)
  end.

Definition validate_directory_streams (object : ObjectId) (streams : list ObjectStream)
    (graph : ObjectGraph) : result unit :=
  match streams with
  | [] => Ok tt
  | stream :: others =>
      refuse_if (negb (is_empty others) || negb (bool_decide (st_name stream = None))
                 || negb (bool_decide (st_flags stream = mkStreamFlags false false false 0))
                 || negb (is_extents (st_storage stream))
                 || existsb (fun extent => (ex_stream extent =? st_id stream)
                                           && negb (bool_decide (ex_kind extent = DirectoryData)))
                      (eg_extents (og_extents graph)))
        (UnsupportedObject object
           "directory storage is not a single ordinary metadata stream")
  end.

(** ** The layouts *)
Definition check_graph_limits (graph : ObjectGraph) (limits : ExfatSerializeLimits) : result unit :=
  refuse_if (sl_max_objects limits <? len (og_objects graph))
    (LimitExceeded "objects" (len (og_objects graph)) (sl_max_objects limits)) ;;
  refuse_if (sl_max_entries limits <? len (og_entries graph))
    (LimitExceeded "entries" (len (og_entries graph)) (sl_max_entries limits)) ;;
  refuse_if (sl_max_extents limits <? len (eg_extents (og_extents graph)))
    (LimitExceeded "extents" (len (eg_extents (og_extents graph))) (sl_max_extents limits)).

(** One round of the loop that indexes the exact metadata. *)
Definition index_metadata (graph : ObjectGraph) (exact : gmap N ExfatObjectMetadata)
    (item : ExfatObjectMetadata) : result (gmap N ExfatObjectMetadata) :=
  refuse_if (om_object item =? og_root graph) (RootMetadata (om_object item)) ;;
  refuse_if (negb (existsb (fun object => ob_id object =? om_object item) (og_objects graph)))
    (UnknownMetadata (om_object item)) ;;
  refuse_if (bool_decide (is_Some (exact !! om_object item)))
    (DuplicateMetadata (om_object item)) ;;
  Ok (<[om_object item := item]> exact).

(** One round of the loop over the objects. *)
Definition layout_object (graph : ObjectGraph) (geometry : ExfatDestinationGeometry)
    (payload_mode : PayloadPlacementMode) (exact : gmap N ExfatObjectMetadata)
    (layouts : Layouts) (object : ObjectRecord) : result Layouts :=
  refuse_if (os_has_security_descriptor (ob_semantics object)
             || os_is_reparse_point (ob_semantics object)
             || (negb (ob_id object =? og_root graph) && negb (ob_link_count object =? 1)))
    (UnsupportedObject (ob_id object)
       "security descriptors, reparse points, or hard links are not in the supported subset") ;;
  item ← (if ob_id object =? og_root graph then Ok None
          else
            item ← ok_or (MissingMetadata (ob_id object)) (exact !! ob_id object);
            Ok (Some item));
  (match item with
   | Some item => validate_metadata (ob_id object) (ob_kind object) item
   | None => Ok tt
   end) ;;
  stream ← (match ob_kind object with
            | Directory =>
                validate_directory_streams (ob_id object) (ob_streams object) graph ;; Ok None
            | File =>
                stream ← validate_file_stream (ob_id object) (ob_streams object) geometry payload_mode;
                Ok (Some stream)
            end);
  Ok (<[ob_id object := mkObjectLayout (ob_kind object) item None [] stream [] 0]> layouts).

Definition with_name (name : list N) (l : ObjectLayout) : ObjectLayout :=
  mkObjectLayout (lo_kind l) (lo_metadata l) (Some name) (lo_children l) (lo_stream l)
    (lo_directory_clusters l) (lo_directory_bytes l).
Definition with_children (children : list ObjectId) (l : ObjectLayout) : ObjectLayout :=
  mkObjectLayout (lo_kind l) (lo_metadata l) (lo_name l) children (lo_stream l)
    (lo_directory_clusters l) (lo_directory_bytes l).
Definition with_stream (stream : option StreamLayout) (l : ObjectLayout) : ObjectLayout :=
  mkObjectLayout (lo_kind l) (lo_metadata l) (lo_name l) (lo_children l) stream
    (lo_directory_clusters l) (lo_directory_bytes l).
Definition with_directory (clusters : list N) (bytes : N) (l : ObjectLayout) : ObjectLayout :=
  mkObjectLayout (lo_kind l) (lo_metadata l) (lo_name l) (lo_children l) (lo_stream l)
    clusters bytes.

(** One round of the loop over the namespace. *)
Definition layout_entry (layouts : Layouts) (entry : NamespaceEntry) : result Layouts :=
  validate_name (ne_name entry) (ne_target entry) ;;
  target ← ok_or (UnsupportedObject (ne_target entry) "namespace target is absent")
    (layouts !! ne_target entry);
  let layouts := <[ne_target entry := with_name (ne_name entry) target]> layouts in
  parent ← ok_or (UnsupportedObject (ne_parent entry) "namespace parent is absent")
    (layouts !! ne_parent entry);
  Ok (<[ne_parent entry := with_children (lo_children parent ++ [ne_target entry]) parent]> layouts).

(** [layouts_name_order(left, right, graph).is_le()]. *)
Definition entry_name_of (graph : ObjectGraph) (object : ObjectId) : list N :=
  match List.find (fun entry => ne_target entry =? object) (og_entries graph) with
  | Some entry => ne_name entry
  | None => []
  end.
Definition layouts_name_order (graph : ObjectGraph) (left right : ObjectId) : Prop :=
  (if bool_decide (entry_name_of graph left = entry_name_of graph right) then left <=? right
   else lex_leb (entry_name_of graph left) (entry_name_of graph right)) = true.
#[export] Instance layouts_name_order_dec graph : RelDecision (layouts_name_order graph) :=
  fun l r => decide (_ = true).

(** One round of the search for names that collide when case is ignored. *)
Definition fold_child (layouts : Layouts) (upcase : UpcaseTable) (parent : ObjectId)
    (folded : list (list N)) (child : ObjectId) : result (list (list N)) :=
  name ← ok_or (InvalidName child "missing namespace name")
    (layout ← layouts !! child; lo_name layout);
  key ← map_name upcase name;
  refuse_if (bool_decide (key ∈ folded)) (CaseInsensitiveCollision parent) ;;
  Ok (folded ++ [key]).
Definition sort_children (graph : ObjectGraph) (upcase : UpcaseTable) (layouts : Layouts)
    (parent : ObjectId) : result Layouts :=
  layout ← expect (layouts !! parent);
  let children := merge_sort (layouts_name_order graph) (lo_children layout) in
  _ ← try_fold (fold_child layouts upcase parent) [] children;
  Ok (<[parent := with_children children layout]> layouts).

Definition build_object_layouts (graph : ObjectGraph) (metadata : list ExfatObjectMetadata)
    (geometry : ExfatDestinationGeometry) (upcase : UpcaseTable) (limits : ExfatSerializeLimits)
    (payload_mode : PayloadPlacementMode) : result Layouts :=
  check_graph_limits graph limits ;;
  exact ← try_fold (index_metadata graph) ∅ metadata;
  layouts ← try_fold (layout_object graph geometry payload_mode exact) ∅ (og_objects graph);
  refuse_if (negb (N.of_nat (size exact) =? saturating_sub (len (og_objects graph)) 1))
    (UnsupportedObject (og_root graph) "metadata cardinality does not match non-root objects") ;;
  layouts ← try_fold layout_entry layouts (og_entries graph);
  try_fold (sort_children graph upcase) layouts (layout_keys layouts).

(** ** Payloads *)

(** What the mapping knows of the destination heap. *)
Record HeapView : Type := mkHeapView {
  hv_heap : N;
  hv_cluster_bytes : N;
  hv_cluster_count : N
}.
Definition heap_view (geometry : ExfatDestinationGeometry) : result HeapView :=
  heap ← expect (checked_mul (dg_cluster_heap_offset_sectors geometry) (dg_bytes_per_sector geometry));
  Ok (mkHeapView heap (dg_bytes_per_cluster geometry) (dg_cluster_count geometry)).

Definition heap_remainder_nonzero (heap : HeapView) (physical : N) : result bool :=
  if physical <? hv_heap heap then Ok true
  else
    above ← sub_u64 physical (hv_heap heap);
    remainder ← rem_u64 above (hv_cluster_bytes heap);
    Ok (negb (remainder =? 0)).

(** The clusters under an extent: the first one and their number. *)
Definition extent_clusters (heap : HeapView) (stream : StreamId) (physical length : N)
    : result (N * N) :=
  unaligned ← heap_remainder_nonzero heap physical;
  refuse_if unaligned (PayloadNotClusterAligned stream) ;;
  above ← sub_u64 physical (hv_heap heap);
  first ← div_u64 above (hv_cluster_bytes heap);
  count ← div_u64 length (hv_cluster_bytes heap);
  refuse_if (match checked_add first count with
             | Some end_ => hv_cluster_count heap <? end_
             | None => true
             end) (PayloadOutsideHeap stream) ;;
  Ok (first, count).

Definition length_unaligned (heap : HeapView) (length : N) : result bool :=
  remainder ← rem_u64 length (hv_cluster_bytes heap); Ok (negb (remainder =? 0)).

(** [for index in first..first + count]: a cluster that is not free is refused. *)
Definition take_cluster (operation : string) (stream : StreamId) (mark : bool)
    (occupied : list bool) (index : N) : result (list bool) :=
  slot ← ok_or (SerializeOverflow operation) (usize_try_from index);
  used ← at_index occupied slot;
  refuse_if used (PayloadOutsideHeap stream) ;;
  if mark then fill_range slot (slot + 1) true occupied else Ok occupied.

(** An extent that is not file data keeps its clusters while the conversion is
    staged. *)
Definition map_metadata_extent (heap : HeapView) (state : list bool * list SourceAllocation)
    (extent : Extent) : result (list bool * list SourceAllocation) :=
  let '(occupied, source) := state in
  bad ← (if negb (bool_decide (ex_kind extent = DirectoryData)) then Ok true
         else length_unaligned heap (ex_length extent));
  refuse_if bad (PayloadNotClusterAligned (ex_stream extent)) ;;
  physical ← (match ex_placement extent with
              | Physical byte_offset => Ok byte_offset
              | Sparse => Err (PayloadNotClusterAligned (ex_stream extent))
              end);
  '(first, count) ← extent_clusters heap (ex_stream extent) physical (ex_length extent);
  occupied ← try_fold (take_cluster "source cluster index" (ex_stream extent) true) occupied
    ((fun i => first + i) <$> indices count);
  Ok (occupied, source ++ [mkSourceAllocation (ex_stream extent) (ex_logical_offset extent)
                             (mkByteRange physical (ex_length extent)) false]).

(** The state of the loop over the extents of one stream. *)
Record StreamScan : Type := mkStreamScan {
  ys_expected_logical : N;
  ys_occupied : list bool;
  ys_source : list SourceAllocation;
  ys_clusters : list N
}.

Definition map_stream_extent (heap : HeapView) (payload_mode : PayloadPlacementMode)
    (stream : StreamId) (state : StreamScan) (extent : Extent) : result StreamScan :=
  refuse_if (negb (bool_decide (ex_kind extent = FileData))
             || negb (ex_logical_offset extent =? ys_expected_logical state))
    (PayloadNotClusterAligned stream) ;;
  physical ← (match ex_placement extent with
              | Physical byte_offset => Ok byte_offset
              | Sparse => Err (UnsupportedObject stream "sparse payload extent")
              end);
  let draft := bool_decide (payload_mode = RelocationDraft) in
  unaligned ← (if draft then Ok false else length_unaligned heap (ex_length extent));
  refuse_if unaligned (PayloadNotClusterAligned stream) ;;
  let source := ys_source state ++
    [mkSourceAllocation stream (ex_logical_offset extent)
       (mkByteRange physical (ex_length extent)) draft] in
  expected ← ok_or (SerializeOverflow "payload logical length")
    (checked_add (ys_expected_logical state) (ex_length extent));
  if draft then Ok (mkStreamScan expected (ys_occupied state) source (ys_clusters state))
  else
    '(first, count) ← extent_clusters heap stream physical (ex_length extent);
    '(occupied, clusters) ← try_fold (fun '(occupied, clusters) index =>
      occupied ← take_cluster "payload cluster index" stream
        (bool_decide (payload_mode = Final)) occupied index;
      number ← add_u64 index 2;
      cluster ← ok_or (SerializeOverflow "payload cluster number") (u32_try_from number);
      Ok (occupied, clusters ++ [cluster]))
      (ys_occupied state, ys_clusters state) ((fun i => first + i) <$> indices count);
    Ok (mkStreamScan expected occupied source clusters).

(** [clusters.windows(2).all(|pair| pair[1] == pair[0] + 1)]. *)
Fixpoint consecutive (clusters : list N) : result bool :=
  match clusters with
  | a :: ((b :: _) as rest) =>
      next ← expect (checked_add_u32 a 1);
      if b =? next then consecutive rest else Ok false
  | _ => Ok true
  end.

(** A draft may leave a stream for later: resident data and holes have no
    clusters yet. *)
Definition deferred (graph : ObjectGraph) (stream : StreamId) : bool :=
  existsb (fun object => existsb (fun candidate =>
      (st_id candidate =? stream) && negb (is_extents (st_storage candidate))) (ob_streams object))
    (og_objects graph)
  || existsb (fun extent => (ex_stream extent =? stream)
                && bool_decide (ex_kind extent = FileData)
                && bool_decide (ex_placement extent = Sparse)) (eg_extents (og_extents graph)).

Record PayloadScan : Type := mkPayloadScan {
  ps_layouts : Layouts;
  ps_occupied : list bool;
  ps_source : list SourceAllocation;
  ps_reused : list ReusedPayload
}.

(** One round of the loop over the layouts of files. *)
Definition map_file (graph : ObjectGraph) (heap : HeapView) (payload_mode : PayloadPlacementMode)
    (state : PayloadScan) (object : ObjectId) : result PayloadScan :=
  layout ← expect (ps_layouts state !! object);
  if negb (bool_decide (lo_kind layout = File)) then Ok state
  else
    stream ← expect (lo_stream layout);
    if yl_mapped_bytes stream =? 0 then Ok state
    else if bool_decide (payload_mode = RelocationDraft) && deferred graph (yl_stream stream)
    then Ok state
    else
      scan ← try_fold (map_stream_extent heap payload_mode (yl_stream stream))
        (mkStreamScan 0 (ps_occupied state) (ps_source state) (yl_clusters stream))
        (List.filter (fun extent => ex_stream extent =? yl_stream stream)
           (eg_extents (og_extents graph)));
      refuse_if (negb (ys_expected_logical scan =? yl_mapped_bytes stream))
        (PayloadNotClusterAligned (yl_stream stream)) ;;
      no_fat_chain ← consecutive (ys_clusters scan);
      let stream := mkStreamLayout (yl_stream stream) (yl_logical_bytes stream)
        (yl_initialized_bytes stream) (yl_mapped_bytes stream) (ys_clusters scan) no_fat_chain in
      Ok (mkPayloadScan (<[object := with_stream (Some stream) layout]> (ps_layouts state))
            (ys_occupied scan) (ys_source scan)
            (ps_reused state ++
               [mkReusedPayload (yl_stream stream) (ys_clusters scan) no_fat_chain])).

Definition map_payloads (graph : ObjectGraph) (geometry : ExfatDestinationGeometry)
    (layouts : Layouts) (occupied : list bool) (limits : ExfatSerializeLimits)
    (payload_mode : PayloadPlacementMode) : result PayloadScan :=
  heap ← heap_view geometry;
  '(occupied, source) ← try_fold (map_metadata_extent heap) (occupied, [])
    (List.filter (fun extent => negb (bool_decide (ex_kind extent = FileData)))
       (eg_extents (og_extents graph)));
  state ← try_fold (map_file graph heap payload_mode) (mkPayloadScan layouts occupied source [])
    (layout_keys layouts);
  refuse_if (sl_max_extents limits <? len (ps_source state))
    (LimitExceeded "payload extents" (len (ps_source state)) (sl_max_extents limits)) ;;
  Ok (mkPayloadScan (ps_layouts state) (ps_occupied state)
        (sort_by_key (fun item => br_offset (sa_range item)) (ps_source state))
        (sort_by_key rp_stream (ps_reused state))).

(** ** Directories *)

(** The queue of directories is a list and a cursor, and the list grows; every
    object of a graph is queued at most once. *)
Fixpoint directory_queue (fuel : nat) (layouts : Layouts) (order : list ObjectId) (cursor : N)
    : result (list ObjectId) :=
  match fuel with
  | O => Panic
  | S fuel =>
      match order !! N.to_nat cursor with
      | Some current =>
          layout ← expect (layouts !! current);
          order ← try_fold (fun order child =>
            child_layout ← expect (layouts !! child);
            Ok (if bool_decide (lo_kind child_layout = Directory) then order ++ [child] else order))
            order (lo_children layout);
          directory_queue fuel layouts order (cursor + 1)
      | None => Ok order
      end
  end.
Definition directory_order (graph : ObjectGraph) (layouts : Layouts) : result (list ObjectId) :=
  directory_queue (S (length (og_objects graph))) layouts [og_root graph] 0.

Definition directory_length (object root : ObjectId) (layouts : Layouts) (has_volume_label : bool)
    : result N :=
  let system := if object =? root then 2 + (if has_volume_label then 1 else 0) else 0 in
  layout ← expect (layouts !! object);
  entries ← try_fold (fun sum child =>
    child_layout ← expect (layouts !! child);
    name ← ok_or (SerializeOverflow "directory entry count") (lo_name child_layout);
    ok_or (SerializeOverflow "directory entry count")
      (checked_add sum (2 + (len name + 14) / 15)))
    (system + 1) (lo_children layout);
  ok_or (SerializeOverflow "directory bytes") (checked_mul entries ENTRY_BYTES).

(** * Lemmas *)

(** ** Taking free slots of the heap *)

(** [slots] are different, were free before and are the only ones taken. *)
Definition takes (before after : list bool) (slots : list N) : Prop :=
  len after = len before /\ NoDup slots /\
  (forall s, s ∈ slots -> before !! N.to_nat s = Some false) /\
  (forall i, after !! N.to_nat i =
             if decide (i ∈ slots) then Some true else before !! N.to_nat i).

Definition run_slots (first count : N) : list N := (fun i => first + i) <$> indices count.

Lemma elem_of_run_slots first count s : s ∈ run_slots first count <-> first <= s < first + count.
Proof.
  unfold run_slots. rewrite list_elem_of_fmap. split.
  - intros (i & -> & Hi%elem_of_indices). lia.
  - intros Hs. exists (s - first). rewrite elem_of_indices. lia.
Qed.
Lemma NoDup_indices n : NoDup (indices n).
Proof. unfold indices. apply NoDup_fmap_2; [intros ???; lia | apply NoDup_seq]. Qed.
Lemma NoDup_run_slots first count : NoDup (run_slots first count).
Proof. apply NoDup_fmap_2; [intros ???; lia | apply NoDup_indices]. Qed.
Lemma run_slots_nil first : run_slots first 0 = [].
Proof. done. Qed.

Lemma takes_nil occ : takes occ occ [].
Proof. split_and!; [done | constructor | by intros ? ?%elem_of_nil | done]. Qed.

Lemma takes_app a b c s t : takes a b s -> takes b c t -> takes a c (s ++ t).
Proof.
  intros (L1 & D1 & F1 & A1) (L2 & D2 & F2 & A2). split_and!.
  - congruence.
  - apply NoDup_app. split_and!; [done | | done]. intros x Hs Ht. apply F2 in Ht.
    rewrite A1, decide_True in Ht by done. discriminate.
  - intros x [Hx|Hx]%elem_of_app; [by apply F1 |]. pose proof (F2 _ Hx) as Hf.
    rewrite A1 in Hf. by destruct (decide (x ∈ s)).
  - intros i. rewrite A2, A1. destruct (decide (i ∈ t)), (decide (i ∈ s)), (decide (i ∈ s ++ t));
      set_solver.
Qed.

Lemma takes_permutation a b s t : s ≡ₚ t -> takes a b s -> takes a b t.
Proof.
  intros Hp (L & D & F & A). split_and!.
  - done.
  - by rewrite <- Hp.
  - intros x. rewrite <- Hp. apply F.
  - intros i. rewrite A. assert (i ∈ s <-> i ∈ t) by (by rewrite Hp).
    destruct (decide (i ∈ s)), (decide (i ∈ t)); tauto.
Qed.

Lemma takes_in_heap a b s x : takes a b s -> x ∈ s -> x < len a.
Proof. intros (_ & _ & F & _) Hx. apply F, lookup_lt_Some in Hx. unfold len. lia. Qed.
Lemma takes_taken a b s x : takes a b s -> x ∈ s -> b !! N.to_nat x = Some true.
Proof. intros (_ & _ & _ & A) Hx. by rewrite A, decide_True. Qed.

(** A run of slots that is free and then taken. *)
Lemma takes_run a b s n : free_run a s n -> taken a s n b -> takes a b (run_slots s n).
Proof.
  intros Hf [Hl Ht]. split_and!; [done | apply NoDup_run_slots | |].
  - intros x Hx%elem_of_run_slots. by apply Hf.
  - intros i. rewrite Ht. pose proof (elem_of_run_slots s n i).
    destruct (decide (s <= i < s + n)), (decide (i ∈ run_slots s n)); tauto.
Qed.

Lemma take_one {E} (a b : list bool) s :
  a !! N.to_nat s = Some false -> @fill_range E bool s (s + 1) true a = Ok b -> takes a b [s].
Proof.
  intros Ha Hb. pose proof (lookup_lt_Some _ _ _ Ha) as Hl.
  assert (Hs : s + 1 <= len a) by (unfold len; lia).
  destruct (@fill_range_in E s (s + 1) a) as (b' & Hb' & Ht); [lia | exact Hs |].
  assert (b' = b) as -> by congruence. replace (s + 1 - s) with 1 in Ht by lia.
  replace [s] with (run_slots s 1) by (unfold run_slots, indices; simpl; by rewrite N.add_0_r).
  apply takes_run; [|done]. intros i Hi. by replace i with s by lia.
Qed.

Lemma take_cluster_Ok operation stream mark a b s :
  take_cluster operation stream mark a s = Ok b ->
  a !! N.to_nat s = Some false /\ if mark then takes a b [s] else b = a.
Proof.
  unfold take_cluster. intros H. inv_ok.
  match goal with H : at_index _ _ = Ok _ |- _ => apply at_index_Ok in H end. subst.
  split; [assumption |]. destruct mark; [by eapply take_one | by inv_ok].
Qed.

Lemma take_clusters_Ok operation stream a b l :
  try_fold (take_cluster operation stream true) a l = Ok b -> takes a b l.
Proof.
  revert a. induction l as [|s l IH]; intros a H; simpl in H.
  - inv_ok. apply takes_nil.
  - inv_ok. match goal with H : take_cluster _ _ _ _ _ = Ok _ |- _ => apply take_cluster_Ok in H as [_ Ht] end.
    eapply (takes_app _ _ _ [s] l Ht). by apply IH.
Qed.

(** ** Extents on the heap *)
Section Payloads.
Context (heap : HeapView) (graph : ObjectGraph).

(** The bytes of a slot, the slots under a range, and a range that is made of
    whole slots. *)
Definition in_slot (slot p : N) : Prop :=
  in_range (hv_heap heap + slot * hv_cluster_bytes heap) (hv_cluster_bytes heap) p.
Definition range_slots (physical length : N) : list N :=
  run_slots ((physical - hv_heap heap) / hv_cluster_bytes heap) (length / hv_cluster_bytes heap).
Definition whole_slots (physical length : N) : Prop :=
  exists first count, physical = hv_heap heap + first * hv_cluster_bytes heap /\
    length = count * hv_cluster_bytes heap /\ first + count <= hv_cluster_count heap.
Definition extent_start (extent : Extent) : N :=
  match ex_placement extent with Physical byte_offset => byte_offset | Sparse => 0 end.
Definition extent_slots (extent : Extent) : list N :=
  range_slots (extent_start extent) (ex_length extent).
(** An extent that lies on whole slots of the heap. *)
Definition on_heap (extent : Extent) : Prop :=
  ex_placement extent = Physical (extent_start extent) /\
    whole_slots (extent_start extent) (ex_length extent).

Lemma whole_range_slots first count :
  0 < hv_cluster_bytes heap ->
  range_slots (hv_heap heap + first * hv_cluster_bytes heap) (count * hv_cluster_bytes heap)
    = run_slots first count.
Proof.
  intros Hk. unfold range_slots. by rewrite N.add_sub_swap, N.sub_diag, N.add_0_l, !N.div_mul by lia.
Qed.

Lemma extent_clusters_Ok stream physical length first count :
  extent_clusters heap stream physical length = Ok (first, count) ->
  length mod hv_cluster_bytes heap = 0 ->
  0 < hv_cluster_bytes heap /\ whole_slots physical length /\
    range_slots physical length = run_slots first count.
Proof.
  unfold extent_clusters, heap_remainder_nonzero. intros H Hm. inv_ok.
  destruct (N.ltb_spec physical (hv_heap heap)) as [|Hge]; [inv_ok; discriminate |]. inv_ok. bool_props.
  match goal with H : match checked_add ?a ?b with _ => _ end = false |- _ =>
    destruct (checked_add a b) as [e|] eqn:He; [|done] end.
  inv_ok. bool_props. split; [lia |]. split; [|done].
  exists ((physical - hv_heap heap) / hv_cluster_bytes heap), (length / hv_cluster_bytes heap).
  pose proof (N.Div0.div_mod (physical - hv_heap heap) (hv_cluster_bytes heap)).
  pose proof (N.Div0.div_mod length (hv_cluster_bytes heap)).
  split_and!; lia.
Qed.

Lemma range_slots_bytes physical length p :
  0 < hv_cluster_bytes heap -> whole_slots physical length ->
  in_range physical length p <-> exists s, s ∈ range_slots physical length /\ in_slot s p.
Proof.
  intros Hk (first & count & -> & -> & _). rewrite whole_range_slots by done. unfold in_range, in_slot, in_range.
  set (K := hv_cluster_bytes heap) in *. split.
  - intros [H1 H2]. destruct (euclid (p - hv_heap heap) K ltac:(lia)) as (q & r & _ & _ & Hd & Hr).
    exists q. rewrite elem_of_run_slots. assert (first <= q) by nia. assert (q < first + count) by nia. nia.
  - intros (s & Hs%elem_of_run_slots & Hp). nia.
Qed.


(** ** The mapping of the source's metadata and of one stream *)
Context (Hk : 0 < hv_cluster_bytes heap).

Definition allocation_of (movable : bool) (extent : Extent) : SourceAllocation :=
  mkSourceAllocation (ex_stream extent) (ex_logical_offset extent)
    (mkByteRange (extent_start extent) (ex_length extent)) movable.
Definition slots_of (extents : list Extent) : list N := concat (extent_slots <$> extents).

(** The extents follow each other without a gap. *)
Fixpoint sequential (start : N) (extents : list Extent) : Prop :=
  match extents with
  | [] => True
  | extent :: rest =>
      ex_logical_offset extent = start /\ sequential (start + ex_length extent) rest
  end.

Lemma map_metadata_extent_Ok occ src e occ' src' :
  map_metadata_extent heap (occ, src) e = Ok (occ', src') ->
  on_heap e /\ takes occ occ' (extent_slots e) /\ src' = src ++ [allocation_of false e].
Proof using Hk.
  unfold map_metadata_extent. intros H. inv_ok.
  match goal with H : (if ?c then _ else _) = Ok _ |- _ => destruct c eqn:Hd; [inv_ok; discriminate |] end.
  unfold length_unaligned in *. inv_ok. bool_props.
  match goal with H : match ex_placement e with _ => _ end = Ok _ |- _ =>
    destruct (ex_placement e) as [off|] eqn:Hp; [|discriminate H] end.
  inv_ok. repeat match goal with x : N * N |- _ => destruct x end. inv_ok.
  match goal with H : extent_clusters _ _ _ _ = Ok _ |- _ => apply extent_clusters_Ok in H as (_ & Hw & Hr); [|assumption] end.
  match goal with H : try_fold _ _ _ = Ok _ |- _ => apply take_clusters_Ok in H end.
  unfold on_heap, extent_slots, allocation_of, extent_start. rewrite Hp, Hr. done.
Qed.

Lemma map_metadata_extents_Ok l occ src occ' src' :
  try_fold (map_metadata_extent heap) (occ, src) l = Ok (occ', src') ->
  Forall on_heap l /\ takes occ occ' (slots_of l) /\ src' = src ++ (allocation_of false <$> l).
Proof using Hk.
  revert occ src. induction l as [|e l IH]; intros occ src H; simpl in H.
  - inv_ok. split_and!; [constructor | apply takes_nil | by rewrite app_nil_r].
  - apply bind_Ok in H as ([o1 s1] & He & H).
    apply map_metadata_extent_Ok in He as (Hon & Ht & ->). apply IH in H as (Hl & Ht' & ->).
    split_and!; [by constructor | by eapply takes_app | by rewrite <- app_assoc].
Qed.

Lemma map_clusters_Ok operation stream l occ clusters occ' clusters' :
  try_fold (fun '(occupied, clusters) index =>
      occupied ← take_cluster operation stream (bool_decide (Final = Final)) occupied index;
      number ← add_u64 index 2;
      cluster ← ok_or (SerializeOverflow "payload cluster number") (u32_try_from number);
      Ok (occupied, clusters ++ [cluster])) (occ, clusters) l = Ok (occ', clusters') ->
  takes occ occ' l /\ clusters' = clusters ++ ((fun s => s + 2) <$> l) /\
  Forall (fun s => s + 2 <= u32_max) l.
Proof.
  revert occ clusters. induction l as [|x l IH]; intros occ clusters H; simpl in H.
  - inv_ok. split_and!; [apply takes_nil | by rewrite app_nil_r | constructor].
  - apply bind_Ok in H as ([o1 c1] & He & H). inv_ok.
    match goal with H : take_cluster _ _ _ _ _ = Ok _ |- _ => apply take_cluster_Ok in H as [_ Ht] end.
    match goal with H : try_fold _ _ _ = Ok _ |- _ => apply IH in H as (Ht' & -> & Hb) end.
    split_and!; [by apply (takes_app _ o1 _ [x]) | by rewrite <- app_assoc | by constructor].
Qed.

Lemma map_stream_extent_Ok stream st e st' :
  map_stream_extent heap Final stream st e = Ok st' ->
  ex_stream e = stream ->
  ex_logical_offset e = ys_expected_logical st /\ on_heap e /\
  takes (ys_occupied st) (ys_occupied st') (extent_slots e) /\
  Forall (fun s => s + 2 <= u32_max) (extent_slots e) /\
  ys_expected_logical st' = ys_expected_logical st + ex_length e /\
  ys_source st' = ys_source st ++ [allocation_of false e] /\
  ys_clusters st' = ys_clusters st ++ ((fun s => s + 2) <$> extent_slots e).
Proof using Hk.
  unfold map_stream_extent, length_unaligned. intros H Hs. rewrite bool_decide_false in H by done.
  inv_ok. bool_props.
  match goal with H : match ex_placement e with _ => _ end = Ok _ |- _ =>
    destruct (ex_placement e) as [off|] eqn:Hp; [|discriminate H] end.
  inv_ok. repeat match goal with x : N * N |- _ => destruct x end. inv_ok.
  repeat match goal with x : list bool * list N |- _ => destruct x end. inv_ok. bool_props.
  match goal with H : extent_clusters _ _ _ _ = Ok _ |- _ => apply extent_clusters_Ok in H as (_ & Hw & Hr); [|assumption] end.
  match goal with H : try_fold _ _ _ = Ok _ |- _ => apply map_clusters_Ok in H as (Ht & -> & Hb) end.
  cbn [ys_expected_logical ys_occupied ys_source ys_clusters].
  unfold on_heap, extent_slots, allocation_of, extent_start. rewrite Hp, Hr.
  split_and!; done.
Qed.

Lemma map_stream_Ok stream l st st' :
  try_fold (map_stream_extent heap Final stream) st l = Ok st' ->
  Forall (fun e => ex_stream e = stream) l ->
  sequential (ys_expected_logical st) l /\ Forall on_heap l /\
  takes (ys_occupied st) (ys_occupied st') (slots_of l) /\
  Forall (fun s => s + 2 <= u32_max) (slots_of l) /\
  ys_expected_logical st' = ys_expected_logical st + sum_by ex_length l /\
  ys_source st' = ys_source st ++ (allocation_of false <$> l) /\
  ys_clusters st' = ys_clusters st ++ ((fun s => s + 2) <$> slots_of l).
Proof using Hk.
  revert st. induction l as [|e l IH]; intros st H Hs; simpl in H.
  - inv_ok. unfold slots_of. simpl. rewrite !app_nil_r, N.add_0_r.
    split_and!; try done; try constructor; try apply takes_nil.
  - apply bind_Ok in H as (st1 & He & H). apply Forall_cons in Hs as [Hse Hs].
    apply map_stream_extent_Ok in He as (Hlog & Hon & Ht & Hb & Hexp & Hsrc & Hcl); [|done].
    apply IH in H as (Hseq & Hl & Ht' & Hb' & -> & -> & ->); [|done].
    rewrite Hexp in *. rewrite Hsrc, Hcl. unfold slots_of. cbn [fmap list_fmap concat sequential sum_by foldr].
    rewrite fmap_app, <- !app_assoc. split_and!; try done.
    + by constructor.
    + by eapply takes_app.
    + apply Forall_app. done.
    + unfold sum_by. lia.
Qed.


(** ** The mapping of all files *)
Definition contiguous : list N -> Prop := Sorted (fun a b => b = a + 1).

Lemma consecutive_Ok clusters b :
  consecutive clusters = Ok b -> if b then contiguous clusters else ~ contiguous clusters.
Proof.
  unfold contiguous. induction clusters as [|x [|y l] IH]; intros H.
  - cbn in H. inv_ok. constructor.
  - cbn in H. inv_ok. repeat constructor.
  - cbn [consecutive] in H. inv_ok. destruct (N.eqb_spec y (x + 1)) as [->|Hne].
    + apply IH in H. destruct b.
      * constructor; [done | by constructor].
      * intros Hs. apply H. by inversion Hs.
    + inv_ok. intros Hs. inversion Hs as [|?? _ Hh]. by inversion Hh.
Qed.

Definition file_extents (stream : StreamId) : list Extent :=
  List.filter (fun extent => ex_stream extent =? stream) (eg_extents (og_extents graph)).
Definition file_slots (stream : StreamId) : list N := slots_of (file_extents stream).

(** A reused payload names the clusters under the extents of its stream, in the
    order of the stream. *)
Record payload_placed (r : ReusedPayload) : Prop := {
  pp_heap : Forall on_heap (file_extents (rp_stream r));
  pp_sequential : sequential 0 (file_extents (rp_stream r));
  pp_clusters : rp_clusters r = (fun s => s + 2) <$> file_slots (rp_stream r);
  pp_width : Forall (fun c => c <= u32_max) (rp_clusters r);
  pp_chain : if rp_no_fat_chain r then contiguous (rp_clusters r) else ~ contiguous (rp_clusters r)
}.

(** What the mapping does to the layout of one object. *)
Definition file_mapped (reused : list ReusedPayload) (l l' : ObjectLayout) : Prop :=
  match lo_kind l with
  | Directory => l' = l
  | File => exists s, lo_stream l = Some s /\
      if yl_mapped_bytes s =? 0 then l' = l
      else exists r, r ∈ reused /\ rp_stream r = yl_stream s /\
        sum_by ex_length (file_extents (yl_stream s)) = yl_mapped_bytes s /\
        l' = with_stream (Some (mkStreamLayout (yl_stream s) (yl_logical_bytes s)
               (yl_initialized_bytes s) (yl_mapped_bytes s) (rp_clusters r) (rp_no_fat_chain r))) l
  end.

Lemma file_mapped_more l1 l2 a b : file_mapped l1 a b -> (forall r, r ∈ l1 -> r ∈ l2) -> file_mapped l2 a b.
Proof.
  unfold file_mapped. destruct (lo_kind a); [|done]. intros (s & Hs & H) Hsub. exists s. split; [done |].
  destruct (_ =? _); [done |]. destruct H as (r & Hr & H). exists r. split; [by apply Hsub | done].
Qed.

Definition fresh_streams (layouts : Layouts) (keys : list ObjectId) : Prop :=
  forall k l s, k ∈ keys -> layouts !! k = Some l -> lo_stream l = Some s -> yl_clusters s = [].

Lemma map_file_Ok st k st' :
  map_file graph heap Final st k = Ok st' -> fresh_streams (ps_layouts st) [k] ->
  exists rs l l', ps_reused st' = ps_reused st ++ rs /\ Forall payload_placed rs /\
    ps_source st' = ps_source st ++ concat ((fun r => allocation_of false <$> file_extents (rp_stream r)) <$> rs) /\
    takes (ps_occupied st) (ps_occupied st') (concat ((fun r => file_slots (rp_stream r)) <$> rs)) /\
    ps_layouts st !! k = Some l /\ file_mapped rs l l' /\ ps_layouts st' = <[k := l']> (ps_layouts st).
Proof using Hk.
  unfold map_file. intros H Hfresh. apply bind_Ok in H as (l & Hl & H). apply expect_Ok in Hl.
  destruct (lo_kind l) eqn:Hkind; cbn [negb] in H; rewrite ?bool_decide_true, ?bool_decide_false in H by done;
    cbn [negb] in H.
  2: { injection H as <-. exists [], l, l. unfold file_mapped. rewrite Hkind. cbn [fmap list_fmap concat].
       rewrite !app_nil_r, insert_id by done.
       split_and!; first [done | apply takes_nil | constructor]. }
  apply bind_Ok in H as (s & Hs & H). apply expect_Ok in Hs.
  destruct (yl_mapped_bytes s =? 0) eqn:Hz.
  { injection H as <-. exists [], l, l. unfold file_mapped. rewrite Hkind. cbn [fmap list_fmap concat].
    rewrite !app_nil_r, insert_id by done.
    split_and!; try first [done | apply takes_nil | by constructor]. exists s. by rewrite Hz. }
  cbn [andb] in H. apply bind_Ok in H as (scan & Hscan & H). fold (file_extents (yl_stream s)) in Hscan.
  apply map_stream_Ok in Hscan as (Hseq & Hon & Ht & Hb & Hexp & Hsrc & Hcl).
  2: { apply Forall_forall. intros e He. unfold file_extents in He. apply list_elem_of_In, filter_In in He.
       destruct He as [_ He]. by apply N.eqb_eq in He. }
  cbn [ys_expected_logical ys_occupied ys_source ys_clusters] in *.
  rewrite (Hfresh k l s (list_elem_of_here _ _) Hl Hs) in Hcl. cbn [app] in Hcl. inv_ok. bool_props.
  match goal with H : consecutive _ = Ok _ |- _ => apply consecutive_Ok in H end.
  eexists [_], l, _. cbn [ps_reused ps_source ps_occupied ps_layouts fmap list_fmap concat rp_stream].
  split; [reflexivity |]. rewrite !app_nil_r. split_and!; [| done | done | done | | reflexivity].
  - constructor; [|constructor]. split; cbn [rp_stream rp_clusters rp_no_fat_chain]; [done | done | done | | done].
    rewrite Hcl. by apply Forall_fmap.
  - unfold file_mapped. rewrite Hkind. exists s.
    rewrite (proj2 (N.eqb_neq _ _) Hz). split; [done |]. eexists. split; [by left |].
    cbn [rp_stream rp_clusters rp_no_fat_chain]. split_and!; [done | lia | done].
Qed.

Lemma map_files_Ok keys st st' :
  try_fold (map_file graph heap Final) st keys = Ok st' ->
  NoDup keys -> fresh_streams (ps_layouts st) keys ->
  exists rs, ps_reused st' = ps_reused st ++ rs /\ Forall payload_placed rs /\
    ps_source st' = ps_source st ++ concat ((fun r => allocation_of false <$> file_extents (rp_stream r)) <$> rs) /\
    takes (ps_occupied st) (ps_occupied st') (concat ((fun r => file_slots (rp_stream r)) <$> rs)) /\
    (forall k, k ∉ keys -> ps_layouts st' !! k = ps_layouts st !! k) /\
    (forall k, k ∈ keys -> exists l l', ps_layouts st !! k = Some l /\ ps_layouts st' !! k = Some l' /\
       file_mapped rs l l').
Proof using Hk.
  revert st. induction keys as [|k keys IH]; intros st H Hnd Hfresh; simpl in H.
  - injection H as <-. exists []. cbn [fmap list_fmap concat]. rewrite !app_nil_r.
    split_and!; try first [done | apply takes_nil | by constructor]. by intros k ?%elem_of_nil.
  - apply bind_Ok in H as (st1 & H1 & H). apply NoDup_cons in Hnd as [Hnk Hnd].
    apply map_file_Ok in H1 as (r1 & l & l' & Hr1 & Hp1 & Hs1 & Ht1 & Hl & Hm & Hlay).
    2: { intros k' l0 s0 ->%list_elem_of_singleton. apply Hfresh. by left. }
    apply IH in H as (rs & Hr & Hp & Hs & Ht & Hout & Hin); [|done |].
    2: { intros k' l0 s0 Hk'. rewrite Hlay, lookup_insert_ne by congruence. apply Hfresh. by right. }
    exists (r1 ++ rs). rewrite Hr, Hr1, Hs, Hs1, !fmap_app, !concat_app, <- !app_assoc.
    split_and!; [done | by apply Forall_app | done | by eapply takes_app | |].
    + intros k' Hk'. apply not_elem_of_cons in Hk' as [Hne Hk'].
      by rewrite Hout, Hlay, lookup_insert_ne by done.
    + intros k' [->|Hk']%elem_of_cons.
      * exists l, l'. rewrite Hout, Hlay, lookup_insert_eq by done. split_and!; [done | done |].
        eapply file_mapped_more; [done |]. set_solver.
      * assert (k' <> k) by congruence. destruct (Hin k' Hk') as (a & b & Ha & Hb & Hab).
        rewrite Hlay, lookup_insert_ne in Ha by congruence. exists a, b. split_and!; [done | done |].
        eapply file_mapped_more; [done |]. set_solver.
Qed.


(** The slots of the directories of the source, which stay while the conversion
    is staged. *)
Definition staged_extents : list Extent :=
  List.filter (fun extent => negb (bool_decide (ex_kind extent = FileData)))
    (eg_extents (og_extents graph)).

Lemma NoDup_layout_keys layouts : NoDup (layout_keys layouts).
Proof. unfold layout_keys. rewrite sort_by_key_perm. apply NoDup_fst_map_to_list. Qed.
Lemma elem_of_layout_keys (layouts : Layouts) k : k ∈ layout_keys layouts <-> is_Some (layouts !! k).
Proof.
  unfold layout_keys. rewrite sort_by_key_perm, list_elem_of_fmap. split.
  - intros ([k' l] & -> & Hl%elem_of_map_to_list). by exists l.
  - intros [l Hl]. exists (k, l). by rewrite elem_of_map_to_list.
Qed.

Lemma map_payloads_Ok geometry layouts occ limits st :
  heap_view geometry = Ok heap ->
  fresh_streams layouts (layout_keys layouts) ->
  map_payloads graph geometry layouts occ limits Final = Ok st ->
  Forall payload_placed (ps_reused st) /\ Forall on_heap staged_extents /\
  takes occ (ps_occupied st)
    (slots_of staged_extents ++ concat ((fun r => file_slots (rp_stream r)) <$> ps_reused st)) /\
  ps_source st ≡ₚ (allocation_of false <$> staged_extents)
    ++ concat ((fun r => allocation_of false <$> file_extents (rp_stream r)) <$> ps_reused st) /\
  (forall k, is_Some (layouts !! k) <-> is_Some (ps_layouts st !! k)) /\
  (forall k l, layouts !! k = Some l ->
     exists l', ps_layouts st !! k = Some l' /\ file_mapped (ps_reused st) l l').
Proof using Hk.
  intros Hview Hfresh H. unfold map_payloads in H. rewrite Hview in H. cbn [mbind outcome_bind] in H.
  apply bind_Ok in H as ([occ1 src1] & Hmeta & H). fold staged_extents in Hmeta.
  apply map_metadata_extents_Ok in Hmeta as (Hon & Ht1 & ->).
  apply bind_Ok in H as (st1 & Hfiles & H). inv_ok.
  apply map_files_Ok in Hfiles as (rs & Hr & Hp & Hs & Ht2 & Hout & Hin);
    [|apply NoDup_layout_keys | exact Hfresh].
  cbn [ps_reused ps_source ps_occupied ps_layouts app] in *. rewrite Hr.
  pose proof (sort_by_key_perm rp_stream rs) as Hperm.
  split_and!.
  - by rewrite Hperm.
  - done.
  - eapply takes_permutation; [|by eapply takes_app]. by rewrite Hperm.
  - by rewrite sort_by_key_perm, Hs, Hperm.
  - intros k. destruct (decide (k ∈ layout_keys layouts)) as [Hk'|Hk'].
    + destruct (Hin k Hk') as (l0 & l' & -> & -> & _). by split; intros _; eexists.
    + by rewrite (Hout k Hk').
  - intros k l Hl. destruct (Hin k) as (l0 & l' & Ha & Hb & Hab).
    { apply elem_of_layout_keys. by exists l. }
    exists l'. split; [done |]. assert (l0 = l) as -> by congruence.
    eapply file_mapped_more; [done |]. intros r. by rewrite Hperm.
Qed.

End Payloads.

(** ** Object layouts *)

(** The layouts are built without clusters. *)
Definition unplaced (layouts : Layouts) : Prop :=
  forall k l, layouts !! k = Some l ->
    lo_directory_clusters l = [] /\ forall s, lo_stream l = Some s -> yl_clusters s = [].

Lemma unplaced_fresh layouts keys : unplaced layouts -> fresh_streams layouts keys.
Proof. intros Hu k l s _ Hl Hs. by apply (Hu k l). Qed.
Lemma unplaced_insert layouts k l :
  unplaced layouts -> lo_directory_clusters l = [] ->
  (forall s, lo_stream l = Some s -> yl_clusters s = []) -> unplaced (<[k := l]> layouts).
Proof.
  intros Hu H1 H2 k' l' [[<- <-]|[_ Hl]]%lookup_insert_Some; [done |]. by apply (Hu k').
Qed.

Lemma validate_file_stream_fresh object streams geometry mode s :
  validate_file_stream object streams geometry mode = Ok s -> yl_clusters s = [].
Proof.
  destruct streams as [|stream others]; cbn [validate_file_stream]; intros H; [by inv_ok |].
  apply then_Ok in H as [_ H]. apply then_Ok in H as [_ H]. apply then_Ok in H as [_ H]. by inv_ok.
Qed.

Lemma layout_object_unplaced graph geometry mode exact layouts object layouts' :
  unplaced layouts -> layout_object graph geometry mode exact layouts object = Ok layouts' ->
  unplaced layouts'.
Proof.
  intros Hu H. unfold layout_object in H. inv_ok. apply unplaced_insert; [done | done |].
  cbn [lo_stream]. intros s ->. destruct (ob_kind object); inv_ok; simplify_eq;
    by eapply validate_file_stream_fresh.
Qed.
Lemma layout_entry_unplaced layouts entry layouts' :
  unplaced layouts -> layout_entry layouts entry = Ok layouts' -> unplaced layouts'.
Proof.
  intros Hu H. unfold layout_entry in H. apply then_Ok in H as [_ H].
  apply bind_Ok in H as (target & Ht & H). apply ok_or_Ok in Ht. destruct (Hu _ _ Ht) as [Ha Hb].
  apply (unplaced_insert _ (ne_target entry) (with_name (ne_name entry) target)) in Hu; [|done|done].
  apply bind_Ok in H as (parent & Hp & H). apply ok_or_Ok in Hp. destruct (Hu _ _ Hp) as [Hc Hd].
  inv_ok. by apply unplaced_insert.
Qed.
Lemma sort_children_unplaced graph upcase layouts parent layouts' :
  unplaced layouts -> sort_children graph upcase layouts parent = Ok layouts' -> unplaced layouts'.
Proof.
  intros Hu H. unfold sort_children in H. apply bind_Ok in H as (l & Hl & H). apply expect_Ok in Hl.
  destruct (Hu _ _ Hl) as [Ha Hb]. inv_ok. by apply unplaced_insert.
Qed.

Lemma build_object_layouts_unplaced graph metadata geometry upcase limits mode layouts :
  build_object_layouts graph metadata geometry upcase limits mode = Ok layouts -> unplaced layouts.
Proof.
  unfold build_object_layouts. intros H. apply then_Ok in H as [_ H].
  apply bind_Ok in H as (exact & _ & H). apply bind_Ok in H as (l1 & H1 & H).
  apply then_Ok in H as [_ H]. apply bind_Ok in H as (l2 & H2 & H3).
  apply (try_fold_invariant unplaced) in H1; [| | intros; by eapply layout_object_unplaced].
  2: { intros k l Hl. by rewrite lookup_empty in Hl. }
  apply (try_fold_invariant unplaced) in H2; [| done | intros; by eapply layout_entry_unplaced].
  apply (try_fold_invariant unplaced) in H3; [done | done | intros; by eapply sort_children_unplaced].
Qed.

(** The later passes change names and children only. *)
Definition same_bodies (layouts layouts' : Layouts) : Prop :=
  forall k l, layouts !! k = Some l -> exists l', layouts' !! k = Some l' /\
    lo_kind l' = lo_kind l /\ lo_stream l' = lo_stream l /\ lo_metadata l' = lo_metadata l.
#[export] Instance same_bodies_preorder : PreOrder same_bodies.
Proof.
  split.
  - intros layouts k l Hl. by exists l.
  - intros a b c Hab Hbc k l Hl. destruct (Hab k l Hl) as (l1 & H1 & E1 & E2 & E3).
    destruct (Hbc k l1 H1) as (l2 & H2 & F1 & F2 & F3). exists l2. split_and!; congruence.
Qed.
Lemma same_bodies_insert layouts k l l' :
  layouts !! k = Some l -> lo_kind l' = lo_kind l -> lo_stream l' = lo_stream l ->
  lo_metadata l' = lo_metadata l -> same_bodies layouts (<[k := l']> layouts).
Proof.
  intros Hl E1 E2 E3 k' l0 Hk. destruct (decide (k' = k)) as [->|Hne].
  - exists l'. rewrite lookup_insert_eq. by simplify_eq.
  - exists l0. by rewrite lookup_insert_ne.
Qed.
Lemma fold_same_bodies {A} (f : Layouts -> A -> result Layouts) l layouts layouts' :
  (forall a x b, f a x = Ok b -> same_bodies a b) -> try_fold f layouts l = Ok layouts' ->
  same_bodies layouts layouts'.
Proof.
  intros Hf H. refine (try_fold_invariant (same_bodies layouts) f layouts l layouts' _ _ H); [reflexivity |].
  intros a x b _ Ha Hab. transitivity a; [done |]. by eapply Hf.
Qed.

Lemma layout_entry_bodies a entry b : layout_entry a entry = Ok b -> same_bodies a b.
Proof.
  unfold layout_entry. intros H. apply then_Ok in H as [_ H].
  apply bind_Ok in H as (target & Ht & H). apply ok_or_Ok in Ht.
  apply bind_Ok in H as (parent & Hp & H). apply ok_or_Ok in Hp. injection H as <-.
  etransitivity; [by apply (same_bodies_insert _ (ne_target entry) target (with_name (ne_name entry) target)) |].
  by eapply same_bodies_insert.
Qed.
Lemma sort_children_bodies graph upcase a parent b :
  sort_children graph upcase a parent = Ok b -> same_bodies a b.
Proof.
  unfold sort_children. intros H. apply bind_Ok in H as (l & Hl & H). apply expect_Ok in Hl. inv_ok.
  by eapply same_bodies_insert.
Qed.

(** Every object has a layout with its kind and, for a file, its stream. *)
Definition laid_out_object (geometry : ExfatDestinationGeometry) (mode : PayloadPlacementMode)
    (object : ObjectRecord) (layouts : Layouts) : Prop :=
  exists l, layouts !! ob_id object = Some l /\ lo_kind l = ob_kind object /\
    match ob_kind object with
    | Directory => lo_stream l = None
    | File => exists s, lo_stream l = Some s /\
        validate_file_stream (ob_id object) (ob_streams object) geometry mode = Ok s
    end.

Lemma layout_object_Ok graph geometry mode exact layouts object layouts' :
  layout_object graph geometry mode exact layouts object = Ok layouts' ->
  laid_out_object geometry mode object layouts' /\
  forall k, k <> ob_id object -> layouts' !! k = layouts !! k.
Proof.
  unfold layout_object. intros H. inv_ok. split.
  - eexists. rewrite lookup_insert_eq. split; [reflexivity |]. cbn [lo_kind lo_stream]. split; [done |].
    destruct (ob_kind object); inv_ok; [eexists; by split | done].
  - intros k Hk. by rewrite lookup_insert_ne.
Qed.

Lemma layout_objects_Ok graph geometry mode exact objects layouts layouts' :
  NoDup (ob_id <$> objects) ->
  try_fold (layout_object graph geometry mode exact) layouts objects = Ok layouts' ->
  (forall object, object ∈ objects -> laid_out_object geometry mode object layouts') /\
  forall k, k ∉ ob_id <$> objects -> layouts' !! k = layouts !! k.
Proof.
  revert layouts. induction objects as [|o objects IH]; intros layouts Hnd H; simpl in H.
  - injection H as <-. split; [by intros ? ?%elem_of_nil | done].
  - apply bind_Ok in H as (l1 & H1 & H). apply layout_object_Ok in H1 as [Ho Hother].
    cbn [fmap list_fmap] in Hnd. apply NoDup_cons in Hnd as [Hno Hnd].
    destruct (IH l1 Hnd H) as [Hin Hout]. split.
    + intros x [->|Hx]%elem_of_cons; [|by apply Hin].
      unfold laid_out_object in *. by rewrite (Hout _ Hno).
    + intros k [Hne Hk]%not_elem_of_cons. rewrite (Hout k Hk). by apply Hother.
Qed.

Lemma build_object_layouts_Ok graph metadata geometry upcase limits mode layouts object :
  build_object_layouts graph metadata geometry upcase limits mode = Ok layouts ->
  NoDup (ob_id <$> og_objects graph) -> object ∈ og_objects graph ->
  laid_out_object geometry mode object layouts.
Proof.
  unfold build_object_layouts. intros H Hnd Hin. apply then_Ok in H as [_ H].
  apply bind_Ok in H as (exact & _ & H). apply bind_Ok in H as (l1 & H1 & H).
  apply then_Ok in H as [_ H]. apply bind_Ok in H as (l2 & H2 & H3).
  apply layout_objects_Ok in H1 as [H1 _]; [|done].
  apply fold_same_bodies in H2; [|intros ???; by apply layout_entry_bodies].
  apply fold_same_bodies in H3; [|intros ???; by apply sort_children_bodies].
  destruct (H1 object Hin) as (l & Hl & Hkind & Hs).
  destruct ((H2 : same_bodies l1 l2) _ _ Hl) as (l' & Hl' & E1 & E2 & _).
  destruct (H3 _ _ Hl') as (l'' & Hl'' & F1 & F2 & _).
  exists l''. split; [done |]. split; [congruence |]. by rewrite F2, E2.
Qed.

(** The stream of a file that has data. *)
Lemma validate_file_stream_Ok object streams geometry mode s stream :
  validate_file_stream object streams geometry mode = Ok s -> stream ∈ streams ->
  yl_stream s = st_id stream /\ yl_mapped_bytes s = st_mapped_bytes stream /\
  yl_logical_bytes s = st_logical_bytes stream /\ yl_initialized_bytes s = st_initialized_bytes stream.
Proof.
  destruct streams as [|first others]; [by intros _ ?%elem_of_nil |]. cbn [validate_file_stream].
  intros H Hin. apply then_Ok in H as [H1 H]. apply refuse_if_Ok, orb_false_iff in H1 as [H1 _].
  destruct others; [|done]. apply list_elem_of_singleton in Hin as ->.
  apply then_Ok in H as [_ H]. apply then_Ok in H as [_ H]. by inv_ok.
Qed.
