(* ===== verification/ExfatEntries.v ===== *)
(** * Writing exFAT directories

    The construction of directory bytes in [fs/exfat_serialize.rs]: the system
    entries of the root and one entry set for each child, with its name hash and
    its checksum.

    The theorems connect the writer with the parser of [ExfatDirectory.v]: the
    set that is written for a child is accepted and says what the child's layout
    says, and a whole directory is read back as the system entries and the sets
    of the children, in order. *)

From S2P Require Import Extent Geometry Object Overlay.
From S2P Require Export ExfatLayout.
From stdpp Require Import gmap options.

#[local] Open Scope N_scope.

(** ** Entry sets *)
Definition write_timestamps (set : list byte) (value : ExfatTimestamps) : result (list byte) :=
  set ← put_le 4 set 8 (ts_create value);
  set ← put_le 4 set 12 (ts_modified value);
  set ← put_le 4 set 16 (ts_accessed value);
  set ← put_le 1 set 20 (ts_create_centiseconds value);
  set ← put_le 1 set 21 (ts_modified_centiseconds value);
  set ← put_le 1 set 22 (ts_create_utc_offset value);
  set ← put_le 1 set 23 (ts_modified_utc_offset value);
  put_le 1 set 24 (ts_accessed_utc_offset value).

Definition set_checksum (set : list byte) : result (list byte) :=
  set ← put_le 2 set 2 0;
  put_le 2 set 2 (set_checksum_of set).

(** One round of the loop over the code units of a name. *)
Definition write_name_unit (set : list byte) (item : N * N) : result (list byte) :=
  let '(index, unit) := item in
  let offset := 2 * ENTRY_BYTES + index / 15 * ENTRY_BYTES + 2 + index mod 15 * 2 in
  set ← put_le 1 set (2 * ENTRY_BYTES + index / 15 * ENTRY_BYTES) TYPE_FILE_NAME;
  put_le 2 set offset unit.

(** First cluster, valid length, data length, and whether the clusters follow
    one another. *)
Definition child_storage (layout : ObjectLayout) (cluster_bytes : N) : result (N * N * N * bool) :=
  if bool_decide (lo_kind layout = Directory) then
    length ← ok_or (SerializeOverflow "directory data length")
      (checked_mul (len (lo_directory_clusters layout)) cluster_bytes);
    first ← at_index (lo_directory_clusters layout) 0;
    Ok (first, length, length, true)
  else
    stream ← expect (lo_stream layout);
    Ok (default 0 (head (yl_clusters stream)), yl_initialized_bytes stream,
        yl_logical_bytes stream,
        yl_no_fat_chain stream && negb (yl_mapped_bytes stream =? 0)).

(** The writes to the bytes of one set. *)
Definition write_file_set (set : list byte) (child : ObjectId) (layout : ObjectLayout)
    (name : list N) (storage : N * N * N * bool) (set_entries : N) (upcase : UpcaseTable)
    : result (list byte) :=
  let '(first_cluster, valid_length, data_length, no_fat_chain) := storage in
  set ← put_le 1 set 0 TYPE_FILE;
  secondary_count ← ok_or (SerializeOverflow "secondary count") (u8_try_from (set_entries - 1));
  set ← put_le 1 set 1 secondary_count;
  metadata ← expect (lo_metadata layout);
  set ← put_le 2 set 4 (om_file_attributes metadata);
  set ← write_timestamps set (om_timestamps metadata);
  set ← put_le 1 set ENTRY_BYTES TYPE_STREAM_EXTENSION;
  set ← put_le 1 set (ENTRY_BYTES + 1) (N.lor 1 (if no_fat_chain then 2 else 0));
  name_length ← ok_or (SerializeOverflow "name length") (u8_try_from (len name));
  set ← put_le 1 set (ENTRY_BYTES + 3) name_length;
  hash ← map_err (fun _ => InvalidName child "up-case hash refused the name")
    (name_hash upcase name MAX_FILE_NAME_CODE_UNITS);
  set ← put_le 2 set (ENTRY_BYTES + 4) hash;
  set ← put_le 8 set (ENTRY_BYTES + 8) valid_length;
  set ← put_le 4 set (ENTRY_BYTES + 20) first_cluster;
  set ← put_le 8 set (ENTRY_BYTES + 24) data_length;
  set ← try_fold write_name_unit set (enumerate name);
  set_checksum set.

(** One round of the loop over the children. *)
Definition write_child (layouts : Layouts) (upcase : UpcaseTable) (cluster_bytes : N)
    (state : list byte * N) (child : ObjectId) : result (list byte * N) :=
  let '(bytes, cursor) := state in
  layout ← expect (layouts !! child);
  name ← ok_or (InvalidName child "missing namespace name") (lo_name layout);
  storage ← child_storage layout cluster_bytes;
  let set_entries := 2 + (len name + 14) / 15 in
  end_ ← ok_or (SerializeOverflow "file entry set")
    (checked_add cursor (set_entries * ENTRY_BYTES));
  set ← ok_or (SerializeOverflow "directory buffer") (get_range cursor end_ bytes);
  set ← write_file_set set child layout name storage set_entries upcase;
  bytes ← copy_from_slice cursor end_ set bytes;
  Ok (bytes, end_).

(** ** System entries *)
Definition write_label (bytes : list byte) (cursor : N) (label : list N)
    : result (list byte * N) :=
  bytes ← put_le 1 bytes cursor TYPE_VOLUME_LABEL;
  label_length ← ok_or (SerializeOverflow "volume label length") (u8_try_from (len label));
  bytes ← put_le 1 bytes (cursor + 1) label_length;
  bytes ← try_fold (fun bytes '(index, unit) => put_le 2 bytes (cursor + 2 + index * 2) unit)
    bytes (enumerate label);
  Ok (bytes, cursor + ENTRY_BYTES).

(** The bitmap and the up-case table entries; [debug_assert_eq!] compares the
    checksum of the table. *)
Definition write_tables (bytes : list byte) (cursor : N) (bitmap upcase_allocation : ExfatAllocationRun)
    (bitmap_length : N) (upcase_bytes : list byte) (upcase_checksum : N) : result (list byte * N) :=
  bytes ← put_le 1 bytes cursor TYPE_ALLOCATION_BITMAP;
  bytes ← put_le 4 bytes (cursor + 20) (al_first_cluster bitmap);
  bytes ← put_le 8 bytes (cursor + 24) bitmap_length;
  let cursor := cursor + ENTRY_BYTES in
  bytes ← put_le 1 bytes cursor TYPE_UPCASE_TABLE;
  _ ← expect (if upcase_checksum =? table_checksum upcase_bytes then Some tt else None);
  bytes ← put_le 4 bytes (cursor + 4) upcase_checksum;
  bytes ← put_le 4 bytes (cursor + 20) (al_first_cluster upcase_allocation);
  upcase_length ← ok_or (SerializeOverflow "up-case data length") (u64_try_from (len upcase_bytes));
  bytes ← put_le 8 bytes (cursor + 24) upcase_length;
  Ok (bytes, cursor + ENTRY_BYTES).

Definition write_root_entries (bytes : list byte) (bitmap upcase_allocation : ExfatAllocationRun)
    (bitmap_length : N) (volume_label : option (list N)) (upcase_bytes : list byte)
    (upcase_checksum : N) : result (list byte * N) :=
  '(bytes, cursor) ← (match volume_label with
                      | Some label => write_label bytes 0 label
                      | None => Ok (bytes, 0)
                      end);
  write_tables bytes cursor bitmap upcase_allocation bitmap_length upcase_bytes upcase_checksum.

Definition build_directory (object root : ObjectId) (layouts : Layouts)
    (bitmap upcase_allocation : ExfatAllocationRun) (bitmap_length : N)
    (volume_label : option (list N)) (upcase_bytes : list byte) (upcase_checksum : N)
    (upcase : UpcaseTable) (cluster_bytes : N) : result (list byte) :=
  layout ← expect (layouts !! object);
  allocation ← allocation_from_clusters (lo_directory_clusters layout);
  size ← padded_allocation_bytes allocation cluster_bytes;
  let bytes := replicate (N.to_nat size) x00 in
  '(bytes, cursor) ← (if object =? root then
                        write_root_entries bytes bitmap upcase_allocation bitmap_length
                          volume_label upcase_bytes upcase_checksum
                      else Ok (bytes, 0));
  '(bytes, _) ← try_fold (write_child layouts upcase cluster_bytes) (bytes, cursor)
    (lo_children layout);
  Ok bytes.

(** * Lemmas *)

(** A fold over an enumerated list that always succeeds. *)
Lemma fold_enumerate_total {E A S} (I : N -> S -> Prop) (f : S -> N * A -> outcome E S) s l :
  I 0 s ->
  (forall k x s, l !! N.to_nat k = Some x -> I k s -> exists s', f s (k, x) = Ok s' /\ I (k + 1) s') ->
  exists s', try_fold f s (enumerate l) = Ok s' /\ I (len l) s'.
Proof.
  intros Hs. induction l as [|x l IH] using rev_ind; intros Hf; [by exists s |].
  destruct IH as (s' & He & Hi).
  { intros k y t Hk. apply Hf. by apply lookup_app_l_Some. }
  unfold enumerate in *. rewrite enumerate_from_app, try_fold_app, He. simpl.
  destruct (Hf (len l) x s') as (s'' & He' & Hi').
  { unfold len. rewrite Nat2N.id. by rewrite lookup_app_r, Nat.sub_diag by done. } { done. }
  exists s''. rewrite N.add_0_l, He'. simpl. split; [done |]. by rewrite len_app, len_cons, len_nil.
Qed.

(** ** The checksum of a set *)
Lemma hash_step_bound hash b : hash_step hash b < 2 ^ 16.
Proof. by apply N.mod_lt. Qed.
Lemma set_checksum_bound raw : set_checksum_of raw < 2 ^ 16.
Proof.
  unfold set_checksum_of. generalize (List.filter (fun entry : N * byte => negb ((fst entry =? 2) || (fst entry =? 3))) (enumerate raw)).
  intros l. assert (H : forall h, h < 2 ^ 16 -> fold_left (fun sum (entry : N * byte) => hash_step sum (snd entry)) l h < 2 ^ 16);
    [|by apply H].
  induction l as [|x l IH]; intros h Hh; simpl; [done |]. apply IH, hash_step_bound.
Qed.
Lemma set_checksum_of_put raw v :
  4 <= len raw -> set_checksum_of (splice 2 (le_bytes 2 v) raw) = set_checksum_of raw.
Proof.
  intros Hl. destruct raw as [|a [|b [|c [|d rest]]]]; try (unfold len in Hl; simpl in Hl; lia).
  reflexivity.
Qed.
Lemma set_checksum_total set :
  4 <= len set ->
  exists raw, set_checksum set = Ok raw /\ len raw = len set /\
    (forall lo hi, hi <= 2 \/ 4 <= lo -> subslice lo hi raw = subslice lo hi set) /\
    field 2 raw 2 = set_checksum_of raw.
Proof.
  intros Hl. unfold set_checksum. rewrite put_le_in by (simpl; lia). cbn [mbind outcome_bind].
  rewrite set_checksum_of_put by done. rewrite put_le_in by (rewrite len_put by (simpl; lia); simpl; lia).
  eexists. split; [done |]. split_and!.
  - rewrite !len_put by (rewrite ?len_put by (simpl; lia); simpl; lia). done.
  - intros lo hi Ho. rewrite !slice_splice_other by (rewrite ?len_splice, ?len_le_bytes by (rewrite len_le_bytes; simpl; lia); simpl; lia).
    done.
  - rewrite field_put_same by (rewrite len_put by (simpl; lia); simpl; lia).
    rewrite !set_checksum_of_put by (rewrite ?len_put by (simpl; lia); simpl; lia).
    apply N.mod_small. apply (set_checksum_bound set).
Qed.

(** ** The name entries *)
Definition slot_offset (k : N) : N := 64 + k / 15 * 32 + 2 + k mod 15 * 2.
Lemma name_slot_offset raw k : name_slot raw k = field 2 raw (slot_offset k).
Proof. done. Qed.
Lemma slot_split k : exists q r, k = 15 * q + r /\ r < 15 /\ slot_offset k = 66 + 32 * q + 2 * r.
Proof.
  destruct (euclid k 15 ltac:(done)) as (q & r & Hq & Hr & Hk & Hlt).
  exists q, r. unfold slot_offset. rewrite Hq, Hr. split_and!; [done | done | lia].
Qed.
Lemma slot_offset_low k : 66 <= slot_offset k.
Proof. destruct (slot_split k) as (q & r & _ & _ & ->). lia. Qed.
Lemma slots_apart j k : j <> k -> slot_offset j + 2 <= slot_offset k \/ slot_offset k + 2 <= slot_offset j.
Proof.
  intros Hn. destruct (slot_split j) as (q & r & Hj & Hr & ->), (slot_split k) as (q' & r' & Hk & Hr' & ->).
  destruct (N.lt_trichotomy q q') as [|[->|]]; lia.
Qed.

(** What the first [k] rounds of the loop have written over [start]. *)
Record named (start : list byte) (entries : N) (name : list N) (k : N) (set : list byte) : Prop :=
  mkNamed {
  nm_len : len set = len start;
  nm_below : forall lo hi, hi <= 64 -> subslice lo hi set = subslice lo hi start;
  nm_units : forall j x, j < k -> name !! N.to_nat j = Some x -> name_slot set j = x;
  nm_rest : forall j, k <= j < 15 * entries -> name_slot set j = name_slot start j;
  nm_types : forall e, 15 * e < k -> field 1 set ((2 + e) * 32) = TYPE_FILE_NAME;
  nm_flags : forall e, e < entries -> field 1 set ((2 + e) * 32 + 1) = field 1 start ((2 + e) * 32 + 1)
}.
Lemma write_name_unit_named start entries name k x set :
  len start = (2 + entries) * 32 -> Forall (fun u => u <= u16_max) name ->
  k < 15 * entries -> name !! N.to_nat k = Some x -> named start entries name k set ->
  exists set', write_name_unit set (k, x) = Ok set' /\ named start entries name (k + 1) set'.
Proof.
  intros Hl Hu Hk Hx [Hlen Hbelow Hunits Hrest Htypes Hflags].
  assert (Hx16 : x < 65536). { rewrite Forall_forall in Hu. apply list_elem_of_lookup_2, Hu in Hx. widths. lia. }
  destruct (slot_split k) as (q & r & Hq & Hr & Ho).
  assert (Hqe : k / 15 = q) by (symmetry; apply (N.div_unique k 15 q r); lia).
  unfold write_name_unit. fold (slot_offset k). unfold ENTRY_BYTES.
  change (2 * 32 + k / 15 * 32 + 2 + k mod 15 * 2) with (slot_offset k). rewrite Hqe, Ho.
  rewrite put_le_in by (simpl; lia). cbn [mbind outcome_bind].
  set (s1 := splice _ _ set). assert (Hl1 : len s1 = len set) by (apply len_put; simpl; lia).
  rewrite put_le_in by (simpl; lia). eexists. split; [done |].
  assert (Hslot : forall j, j <> k -> name_slot (splice (66 + 32 * q + 2 * r) (le_bytes 2 x) s1) j = name_slot set j).
  { intros j Hj. rewrite !name_slot_offset. pose proof (slots_apart j k Hj) as Ha. rewrite Ho in Ha.
    rewrite field_put_other by (simpl; lia). destruct (slot_split j) as (q' & r' & Hj' & Hr' & Ho').
    unfold s1. rewrite field_put_other; [done | simpl; lia |]. rewrite Ho'. simpl.
    destruct (N.lt_trichotomy q q') as [|[->|]]; lia. }
  split.
  - rewrite len_put by (simpl; lia). lia.
  - intros lo hi Hh. rewrite slice_splice_other by (rewrite ?len_le_bytes; simpl; lia).
    unfold s1. rewrite slice_splice_other by (rewrite ?len_le_bytes; simpl; lia). by apply Hbelow.
  - intros j y Hj Hy. destruct (decide (j = k)) as [->|Hn].
    + simplify_eq. rewrite name_slot_offset, Ho, field_put_same by (simpl; lia).
      apply N.mod_small. done.
    + rewrite Hslot by done. apply Hunits; [lia | done].
  - intros j Hj. rewrite Hslot by lia. apply Hrest. lia.
  - intros e He. rewrite field_put_other by (simpl; lia). unfold s1.
    destruct (decide (e = q)) as [->|Hn].
    + replace ((2 + q) * 32) with (2 * 32 + q * 32) by lia. by rewrite field_put_same by (simpl; lia).
    + rewrite field_put_other by (simpl; lia). apply Htypes. lia.
  - intros e He. rewrite field_put_other by (simpl; lia). unfold s1.
    rewrite field_put_other by (simpl; lia). by apply Hflags.
Qed.
Lemma write_name_total start name :
  let entries := (len name + 14) / 15 in
  len start = (2 + entries) * 32 -> Forall (fun u => u <= u16_max) name ->
  exists set, try_fold write_name_unit start (enumerate name) = Ok set /\
    named start entries name (len name) set.
Proof.
  intros entries Hl Hu. apply fold_enumerate_total.
  - split; try done; lia.
  - intros k x s Hk Hs. apply write_name_unit_named; try done.
    pose proof (name_entries_cover (len name)) as Hc. unfold name_entry_count in Hc. fold entries in Hc.
    apply lookup_lt_Some in Hk. unfold len in *. lia.
Qed.

(** ** One set *)
Definition metadata_typed (m : ExfatObjectMetadata) : Prop :=
  let t := om_timestamps m in
  om_file_attributes m <= u16_max /\ ts_create t <= u32_max /\ ts_modified t <= u32_max /\
  ts_accessed t <= u32_max /\ ts_create_centiseconds t <= u8_max /\
  ts_modified_centiseconds t <= u8_max /\ ts_create_utc_offset t <= u8_max /\
  ts_modified_utc_offset t <= u8_max /\ ts_accessed_utc_offset t <= u8_max.
Definition storage_typed (storage : N * N * N * bool) : Prop :=
  let '(first, valid, data, _) := storage in
  first <= u32_max /\ valid <= u64_max /\ data <= u64_max.

(** The fields of the two fixed entries of a set. *)
Record head_written (m : ExfatObjectMetadata) (storage : N * N * N * bool) (name_length hash : N)
    (entries : N) (set : list byte) : Prop := mkHeadWritten {
  hw_type : field 1 set 0 = TYPE_FILE;
  hw_count : field 1 set 1 = entries + 1;
  hw_attributes : field 2 set 4 = om_file_attributes m;
  hw_reserved1 : zeros 6 8 set;
  hw_create : field 4 set 8 = ts_create (om_timestamps m);
  hw_modified : field 4 set 12 = ts_modified (om_timestamps m);
  hw_accessed : field 4 set 16 = ts_accessed (om_timestamps m);
  hw_create_cs : field 1 set 20 = ts_create_centiseconds (om_timestamps m);
  hw_modified_cs : field 1 set 21 = ts_modified_centiseconds (om_timestamps m);
  hw_create_utc : field 1 set 22 = ts_create_utc_offset (om_timestamps m);
  hw_modified_utc : field 1 set 23 = ts_modified_utc_offset (om_timestamps m);
  hw_accessed_utc : field 1 set 24 = ts_accessed_utc_offset (om_timestamps m);
  hw_reserved2 : zeros 25 32 set;
  hw_stream : field 1 set 32 = TYPE_STREAM_EXTENSION;
  hw_flags : field 1 set 33 = if snd storage then 3 else 1;
  hw_reserved3 : zeros 34 35 set;
  hw_name_length : field 1 set 35 = name_length;
  hw_hash : field 2 set 36 = hash;
  hw_reserved4 : zeros 38 40 set;
  hw_valid : field 8 set 40 = snd (fst (fst storage));
  hw_reserved5 : zeros 48 52 set;
  hw_first : field 4 set 52 = fst (fst (fst storage));
  hw_data : field 8 set 56 = snd (fst storage)
}.
(** It depends on the first 64 bytes but for the checksum. *)
Lemma head_written_ext m storage n h e set set' :
  (forall lo hi, hi <= 64 -> hi <= 2 \/ 4 <= lo -> subslice lo hi set' = subslice lo hi set) ->
  head_written m storage n h e set -> head_written m storage n h e set'.
Proof.
  intros Hs [].
  assert (Hf : forall n o, o + N.of_nat n <= 64 -> o + N.of_nat n <= 2 \/ 4 <= o -> field n set' o = field n set o).
  { intros. unfold field. by rewrite Hs by lia. }
  assert (Hz : forall lo hi, hi <= 64 -> hi <= 2 \/ 4 <= lo -> zeros lo hi set -> zeros lo hi set').
  { intros lo hi ? ?. unfold zeros. by rewrite Hs by lia. }
  split; first [apply Hz; [lia | lia | assumption] | rewrite Hf by lia; assumption].
Qed.

Lemma write_file_set_total child layout name m storage upcase hash :
  let entries := (len name + 14) / 15 in
  lo_metadata layout = Some m -> metadata_typed m -> storage_typed storage ->
  1 <= len name <= 255 -> Forall (fun u => u <= u16_max) name ->
  name_hash upcase name MAX_FILE_NAME_CODE_UNITS = Ok hash -> hash <= u16_max ->
  let start := replicate (N.to_nat ((2 + entries) * 32)) x00 in
  exists raw, write_file_set start child layout name storage (2 + entries) upcase = Ok raw /\
    len raw = (2 + entries) * 32 /\ head_written m storage (len name) hash entries raw /\
    field 2 raw 2 = set_checksum_of raw /\
    (forall j x, name !! N.to_nat j = Some x -> name_slot raw j = x) /\
    (forall j, len name <= j < 15 * entries -> name_slot raw j = 0) /\
    (forall e, e < entries -> name_member raw e).
Proof.
  intros entries Hm Htm Hts Hn Hu Hh Hh16 start. destruct storage as [[[first valid] data] nfc].
  destruct Htm as (Ht1 & Ht2 & Ht3 & Ht4 & Ht5 & Ht6 & Ht7 & Ht8 & Ht9). destruct Hts as (Hs1 & Hs2 & Hs3).
  pose proof (name_entry_bound (len name) ltac:(lia)) as He. unfold name_entry_count in He. fold entries in He.
  assert (Hstart : len start = (2 + entries) * 32). { unfold start. rewrite len_replicate. lia. }
  assert (Hz : forall lo hi, hi <= 64 -> zeros lo hi start).
  { intros lo hi Hhi. unfold zeros, start. rewrite subslice_replicate by lia. by apply Forall_replicate. }
  unfold write_file_set, write_timestamps, ENTRY_BYTES. widths.
  rewrite (u8_try_from_in (len name)) by lia. rewrite (u8_try_from_in (2 + entries - 1)) by lia.
  rewrite Hm, Hh. cbn [map_err ok_or expect mbind outcome_bind].
  assert (Hlor : N.lor 1 (if nfc then 2 else 0) = if nfc then 3 else 1) by (by destruct nfc).
  rewrite Hlor. remember (if nfc then 3 else 1) as flags eqn:Eflags.
  assert (Hfl : flags < 256) by (subst; by destruct nfc).
  remember TYPE_FILE as file_type eqn:Efile. remember TYPE_STREAM_EXTENSION as stream_type eqn:Estream.
  assert (HT1 : file_type < 256) by (by subst). assert (HT2 : stream_type < 256) by (by subst).
  do 18 put_next.
  change (32 + 1) with 33 in *. change (32 + 3) with 35 in *. change (32 + 4) with 36 in *.
  change (32 + 8) with 40 in *. change (32 + 20) with 52 in *. change (32 + 24) with 56 in *.
  assert (Hhead : head_written m (first, valid, data, nfc) (len name) hash entries b16).
  { subst file_type stream_type flags.
    split; unfold zeros; peel; first [assumption | apply Hz; lia | lia]. }
  assert (Hrest : forall lo hi, 64 <= lo -> subslice lo hi b16 = subslice lo hi start).
  { intros lo hi Hlo. peel. done. }
  assert (Hl16 : len b16 = len start) by congruence.
  clear - Hhead Hrest Hl16 Hstart Hu Hn He.
  destruct (write_name_total b16 name) as (set & Hset & [Hlen Hbelow Hunits Hslots Htypes Hflags]);
    [fold entries; lia | done |]. fold entries in Hslots, Hflags.
  rewrite Hset. cbn [mbind outcome_bind].
  destruct (set_checksum_total set ltac:(lia)) as (raw & Hraw & Hlr & Hsame & Hck).
  exists raw. rewrite Hraw. split; [done |]. split; [lia |].
  assert (Hfield : forall n o, 4 <= o -> field n raw o = field n set o).
  { intros. unfold field. by rewrite Hsame by lia. }
  assert (Hzero : forall n o, 64 <= o -> o + N.of_nat n <= len start -> field n b16 o = 0).
  { intros n o H1 H2. unfold field. rewrite Hrest by lia. apply field_zeros.
    rewrite Hstart in H2. lia. }
  split_and!.
  - eapply head_written_ext; [|exact Hhead]. intros lo hi H1 H2. rewrite Hsame by lia. apply Hbelow. lia.
  - done.
  - intros j x Hx. rewrite name_slot_offset, Hfield by (pose proof (slot_offset_low j); lia).
    apply Hunits; [|done]. apply lookup_lt_Some in Hx. unfold len. lia.
  - intros j Hj. rewrite name_slot_offset, Hfield by (pose proof (slot_offset_low j); lia).
    rewrite <- name_slot_offset, Hslots, name_slot_offset by lia.
    destruct (slot_split j) as (q & r & Hq & Hr & ->). apply Hzero; [lia |]. simpl. lia.
  - intros e Hee. unfold name_member. rewrite !Hfield by lia. split.
    + apply Htypes. destruct (euclid (len name + 14) 15 ltac:(done)) as (q & r & Hq & _ & Hd & Hr).
      change (entries = q) in Hq. rewrite Hq in Hee. lia.
    + rewrite Hflags by done. apply Hzero; [lia |]. simpl. lia.
Qed.

(** What the parser reports of a set that is written for a child. *)
Definition described_file (m : ExfatObjectMetadata) (name : list N) (storage : N * N * N * bool)
    (hash : N) (raw : list byte) : FileEntry :=
  let '(first, valid, data, no_fat_chain) := storage in
  let t := om_timestamps m in
  mkFileEntry (om_file_attributes m) (ts_create t) (ts_modified t) (ts_accessed t)
    (ts_create_centiseconds t) (ts_modified_centiseconds t) (ts_create_utc_offset t)
    (ts_modified_utc_offset t) (ts_accessed_utc_offset t)
    (has_bits (om_file_attributes m) DIRECTORY_ATTRIBUTE) no_fat_chain hash valid first data
    (mkFileName (name ++ replicate (N.to_nat (MAX_FILE_NAME_UNITS - len name)) 0) (len name))
    true 0 raw.

Lemma valid_timestamp_iff v : valid_timestamp v = timestamp_valid v.
Proof.
  unfold valid_timestamp, timestamp_valid, timestamp_day, timestamp_month, timestamp_year.
  rewrite !negb_orb, <- !N.leb_antisym. done.
Qed.
Lemma valid_utc_field v : valid_utc v = true -> v = 0 \/ N.land v 128 <> 0.
Proof.
  unfold valid_utc. intros [H%N.eqb_eq|H%negb_true_iff%N.eqb_neq]%orb_true_iff; [by left | by right].
Qed.
Lemma validate_name_valid name object u :
  validate_name name object = Ok u -> 1 <= len name <= 255 /\ valid_name_units true name.
Proof.
  unfold validate_name. intros H. rewrite !then_Ok, !refuse_if_Ok in H.
  destruct H as (H1 & H2 & H3 & H4). apply orb_false_iff in H1 as [H1 H1']. apply N.ltb_ge in H1'.
  unfold MAX_FILE_NAME_CODE_UNITS in H1'. split; [destruct name; [done | rewrite len_cons in *; lia] |].
  split_and!; [| by apply negb_false_iff | by intros].
  apply Forall_forall. intros x Hx. apply not_true_iff_false. intros Hf.
  apply not_true_iff_false in H3. apply H3, existsb_exists. exists x. by rewrite <- list_elem_of_In.
Qed.

Lemma filled_name raw name :
  (forall j x, name !! N.to_nat j = Some x -> name_slot raw j = x) ->
  filled raw (len name) = name ++ replicate (N.to_nat (MAX_FILE_NAME_UNITS - len name)) 0.
Proof.
  intros Hn. unfold filled. f_equal. apply list_eq. intros i. unfold indices.
  rewrite !list_lookup_fmap. destruct (name !! i) as [x|] eqn:Hx.
  - pose proof (lookup_lt_Some _ _ _ Hx). rewrite lookup_seq_lt by (unfold len; lia). simpl. f_equal.
    apply Hn. by rewrite Nat2N.id.
  - apply lookup_ge_None in Hx. rewrite lookup_seq_ge by (unfold len; lia). done.
Qed.
Lemma zeros_subslice lo hi a b raw :
  a + hi <= b -> zeros lo hi (subslice a b raw) <-> zeros (a + lo) (a + hi) raw.
Proof. intros. unfold zeros. by rewrite subslice_subslice by lia. Qed.

(** What makes a child writable in a directory of the volume. *)
Definition child_valid (context : DirectoryContext) (child : ObjectId) (kind : ObjectKind)
    (m : ExfatObjectMetadata) (name : list N) (storage : N * N * N * bool) : Prop :=
  let '(first, valid, data, no_fat_chain) := storage in
  validate_metadata child kind m = Ok tt /\ metadata_typed m /\
  validate_name name child = Ok tt /\ Forall (fun u => u <= u16_max) name /\
  storage_typed storage /\ allocation_ok context first data no_fat_chain /\
  lengths_ok valid data (bool_decide (kind = Directory)).

Lemma written_set_accepted context child kind m name storage hash raw :
  let entries := (len name + 14) / 15 in
  child_valid context child kind m name storage ->
  len raw = (2 + entries) * 32 -> head_written m storage (len name) hash entries raw ->
  field 2 raw 2 = set_checksum_of raw ->
  (forall j x, name !! N.to_nat j = Some x -> name_slot raw j = x) ->
  (forall j, len name <= j < 15 * entries -> name_slot raw j = 0) ->
  (forall e, e < entries -> name_member raw e) ->
  file_set_ok context raw /\ set_file raw = described_file m name storage hash raw.
Proof.
  intros entries Hc Hl Hw Hck Hn Hp Hm. destruct storage as [[[first valid] data] nfc].
  destruct Hc as (Hmeta & _ & [Hnl Hname]%validate_name_valid & _ & _ & Ha & Hlen).
  destruct Hw. simpl in *.
  pose proof (filled_name raw name Hn) as Hfill.
  destruct (set_fields raw ltac:(lia)) as (H0 & H1 & Hl0 & Hl1).
  unfold validate_metadata in Hmeta. rewrite then_Ok, !refuse_if_Ok in Hmeta.
  rewrite !orb_false_iff, !negb_false_iff, !valid_timestamp_iff, !N.ltb_ge in Hmeta.
  destruct Hmeta as ([Hattr Hkind] & (((((((Ht1 & Ht2) & Ht3) & Ht4) & Ht5) & Ht6) & Ht7) & Ht8)).
  apply eqb_prop in Hkind.
  assert (Hfile : set_file raw = described_file m name (first, valid, data, nfc) hash raw).
  { unfold set_file, described_file. rewrite hw_name_length0. unfold set_name. rewrite Hfill.
    f_equal; try assumption.
    - congruence.
    - rewrite hw_flags0. by destruct nfc.
    - unfold padding_zero. apply forallb_forall. intros k Hk%list_elem_of_In%elem_of_indices.
      destruct (N.ltb_spec k (len name)); [done |]. simpl. apply N.eqb_eq, Hp. done.
    - rewrite hw_count0. unfold name_entry_count. fold entries. lia. }
  split; [|done]. unfold file_set_ok. rewrite Hfile. unfold described_file. simpl.
  rewrite hw_count0. unfold name_entry_count. fold entries.
  split_and!; try done.
  - split_and!.
    + by rewrite H0, hw_attributes0 by (simpl; lia).
    + by apply zeros_subslice.
    + by apply zeros_subslice.
    + repeat constructor; rewrite H0 by (simpl; lia); congruence.
    + repeat constructor; rewrite H0 by (simpl; lia); lia.
    + rewrite !Forall_cons, Forall_nil, !H0 by (simpl; lia).
      rewrite hw_create_utc0, hw_modified_utc0, hw_accessed_utc0. auto using valid_utc_field.
  - split_and!.
    + by rewrite H1 by (simpl; lia).
    + rewrite H1 by (simpl; lia). change (32 + 1) with 33. rewrite hw_flags0. by destruct nfc.
    + rewrite H1 by (simpl; lia). change (32 + 1) with 33. rewrite hw_flags0. by destruct nfc.
    + by apply zeros_subslice.
    + by apply zeros_subslice.
    + by apply zeros_subslice.
    + rewrite H1 by (simpl; lia). change (32 + 3) with 35. lia.
  - unfold len at 1. rewrite Nat2N.id. by rewrite take_app_length.
  - intros i Hi. lia.
  - by rewrite Hkind.
Qed.

(** ** One directory *)

(** A child as the writer needs it. *)
Record written_child : Type := mkWrittenChild {
  wc_id : ObjectId;
  wc_layout : ObjectLayout;
  wc_metadata : ExfatObjectMetadata;
  wc_name : list N;
  wc_storage : N * N * N * bool;
  wc_hash : N
}.
Definition child_entries (c : written_child) : N := (len (wc_name c) + 14) / 15.
Definition child_bytes (c : written_child) : N := (2 + child_entries c) * 32.
Record child_ready (context : DirectoryContext) (layouts : Layouts) (upcase : UpcaseTable)
    (cluster_bytes : N) (c : written_child) : Prop := mkChildReady {
  cr_layout : layouts !! wc_id c = Some (wc_layout c);
  cr_name : lo_name (wc_layout c) = Some (wc_name c);
  cr_metadata : lo_metadata (wc_layout c) = Some (wc_metadata c);
  cr_storage : child_storage (wc_layout c) cluster_bytes = Ok (wc_storage c);
  cr_hash : name_hash upcase (wc_name c) MAX_FILE_NAME_CODE_UNITS = Ok (wc_hash c);
  cr_hash16 : wc_hash c <= u16_max;
  cr_valid : child_valid context (wc_id c) (lo_kind (wc_layout c)) (wc_metadata c) (wc_name c)
               (wc_storage c)
}.
Definition child_record (c : written_child) (raw : list byte) : DirectoryRecord :=
  RecordFile (described_file (wc_metadata c) (wc_name c) (wc_storage c) (wc_hash c) raw).
(** The set that is written for a child. *)
Definition set_of (context : DirectoryContext) (c : written_child) (raw : list byte) : Prop :=
  len raw = child_bytes c /\ field 1 raw 0 = TYPE_FILE /\ field 1 raw 1 = child_entries c + 1 /\
  file_set_ok context raw /\ RecordFile (set_file raw) = child_record c raw.

Lemma child_entries_bound context layouts upcase cb c :
  child_ready context layouts upcase cb c -> 1 <= child_entries c <= 17.
Proof.
  intros [_ _ _ _ _ _ Hv]. unfold child_valid in Hv. destruct (wc_storage c) as [[[? ?] ?] ?].
  destruct Hv as (_ & _ & [Hl _]%validate_name_valid & _). unfold child_entries.
  pose proof (name_entry_bound (len (wc_name c)) ltac:(lia)) as He. unfold name_entry_count in He.
  split; [|done]. change 1 with (15 / 15). apply N.Div0.div_le_mono. lia.
Qed.

Lemma write_child_total context layouts upcase cb c pre n :
  child_ready context layouts upcase cb c ->
  child_bytes c <= N.of_nat n -> len pre + N.of_nat n <= u64_max ->
  exists raw, set_of context c raw /\
    write_child layouts upcase cb (pre ++ replicate n x00, len pre) (wc_id c)
    = Ok (pre ++ raw ++ replicate (n - N.to_nat (child_bytes c)) x00, len pre + child_bytes c).
Proof.
  intros Hr Hn Hu. pose proof (child_entries_bound _ _ _ _ _ Hr) as He.
  destruct Hr as [Hlay Hname Hmeta Hsto Hhash H16 Hv].
  assert (Hv' := Hv). unfold child_valid in Hv'.
  destruct (wc_storage c) as [[[first valid] data] nfc] eqn:Es.
  destruct Hv' as (Hm1 & Hm2 & Hn1 & Hn2 & Hs1 & _).
  pose proof (validate_name_valid _ _ _ Hn1) as [Hlen _].
  destruct (write_file_set_total (wc_id c) (wc_layout c) (wc_name c) (wc_metadata c)
    (first, valid, data, nfc) upcase (wc_hash c) Hmeta Hm2 Hs1 Hlen Hn2 Hhash H16)
    as (raw & Hw & Hl & Hhead & Hck & Hu1 & Hu2 & Hu3).
  fold (child_entries c) in Hw, Hl, Hhead, Hu2, Hu3. fold (child_bytes c) in Hw, Hl.
  destruct (written_set_accepted context (wc_id c) _ _ _ _ _ raw Hv Hl Hhead Hck Hu1 Hu2 Hu3) as [Hok Hset].
  exists raw. split.
  { unfold set_of, child_record. rewrite Hset, Es. split_and!; try done; apply Hhead. }
  unfold write_child. rewrite Hlay. cbn [expect mbind outcome_bind].
  rewrite Hname. cbn [ok_or mbind outcome_bind]. rewrite Hsto. cbn [mbind outcome_bind].
  fold (child_entries c). unfold ENTRY_BYTES. fold (child_bytes c).
  rewrite checked_add_in by lia. cbn [ok_or mbind outcome_bind].
  assert (Hrange : get_range (len pre) (len pre + child_bytes c) (pre ++ replicate n x00)
                   = Some (replicate (N.to_nat (child_bytes c)) x00)).
  { apply get_range_Some. rewrite len_app, len_replicate. split_and!; [lia | lia |].
    rewrite (subslice_after pre _ _ _ (len pre)) by (done || lia).
    rewrite N.sub_diag, N.add_comm, N.add_sub, subslice_replicate by lia. f_equal. lia. }
  rewrite Hrange. cbn [ok_or mbind outcome_bind]. rewrite Hw. cbn [mbind outcome_bind].
  assert (Hcopy : copy_from_slice (len pre) (len pre + child_bytes c) raw (pre ++ replicate n x00)
                  = @Ok ExfatSerializeError _ (pre ++ raw ++ replicate (n - N.to_nat (child_bytes c)) x00)).
  { apply copy_from_slice_Ok. rewrite len_app, len_replicate. split_and!; [lia | lia | lia |].
    unfold splice. rewrite take_app_length' by (unfold len; lia). f_equal. f_equal.
    rewrite drop_app_ge by (unfold len in *; lia). rewrite drop_replicate. f_equal. unfold len in *. lia. }
  by rewrite Hcopy.
Qed.

Lemma write_children_total context layouts upcase cb cs :
  Forall (child_ready context layouts upcase cb) cs ->
  forall pre n, sum_by child_bytes cs <= N.of_nat n -> len pre + N.of_nat n <= u64_max ->
  exists raws, Forall2 (set_of context) cs raws /\
    try_fold (write_child layouts upcase cb) (pre ++ replicate n x00, len pre) (wc_id <$> cs)
    = Ok (pre ++ concat raws ++ replicate (n - N.to_nat (sum_by child_bytes cs)) x00,
          len pre + sum_by child_bytes cs).
Proof.
  induction 1 as [|c cs Hc _ IH]; intros pre n Hn Hu.
  - exists []. split; [constructor |]. simpl. by rewrite N.add_0_r, Nat.sub_0_r.
  - rewrite sum_by_cons in Hn.
    destruct (write_child_total context layouts upcase cb c pre n Hc ltac:(lia) Hu) as (raw & Hraw & Hw).
    assert (Hl : len raw = child_bytes c) by apply Hraw.
    destruct (IH (pre ++ raw) (n - N.to_nat (child_bytes c))%nat) as (raws & Hraws & Hf);
      [lia | rewrite len_app; lia |].
    exists (raw :: raws). split; [by constructor |]. rewrite fmap_cons. cbn [try_fold].
    rewrite Hw. cbn [mbind outcome_bind].
    replace (pre ++ raw ++ replicate (n - N.to_nat (child_bytes c)) x00)
      with ((pre ++ raw) ++ replicate (n - N.to_nat (child_bytes c)) x00) by (by rewrite <- app_assoc).
    replace (len pre + child_bytes c) with (len (pre ++ raw)) by (rewrite len_app; lia).
    rewrite Hf, sum_by_cons, len_app, Hl, <- !app_assoc. simpl concat. rewrite <- app_assoc.
    f_equal. apply (f_equal2 pair); [do 4 f_equal; lia | apply eq_sym, N.add_assoc].
Qed.

(** Sets that stand in a directory one after the other are laid out as files. *)
Lemma entry_type_of_middle (l1 l2 l3 : list byte) index :
  index * 32 = len l1 -> 1 <= len l2 -> entry_type_at (l1 ++ l2 ++ l3) index = field 1 l2 0.
Proof.
  intros Hi Hl. unfold entry_type_at, field. rewrite Hi. simpl N.of_nat.
  destruct l2 as [|b l2]; [unfold len in Hl; simpl in Hl; lia |].
  rewrite (subslice_middle l1 [b] (l2 ++ l3)) by (rewrite ?len_cons, ?len_nil; lia). done.
Qed.
Lemma zero_tail_laid_out context pre n index :
  index * 32 = len pre -> (exists m, n = 32 * m)%nat -> laid_out context (pre ++ replicate n x00) index [].
Proof.
  intros Hi [m ->]. assert (Hl : len (pre ++ replicate (32 * m) x00) / ENTRY_BYTES = index + N.of_nat m).
  { rewrite len_app, len_replicate, <- Hi. unfold ENTRY_BYTES. symmetry.
    apply (N.div_unique _ 32 _ 0); lia. }
  destruct m as [|m]; [apply LaidOutEnd; rewrite Hl; lia |].
  apply LaidOutMarker; [rewrite Hl; lia |]. rewrite Hl. intros i Hin. unfold entry_type_at, field.
  rewrite (subslice_after pre _ _ _ (len pre)) by (done || lia).
  rewrite subslice_replicate by lia. apply le_num_replicate.
Qed.
Lemma sets_laid_out context cs raws :
  Forall2 (set_of context) cs raws ->
  (forall c, c ∈ cs -> 1 <= child_entries c /\ child_entries c + 1 <= dc_max_secondary_entries context) ->
  forall pre index n, index * 32 = len pre -> (exists m, n = 32 * m)%nat ->
  laid_out context (pre ++ concat raws ++ replicate n x00) index (zip_with child_record cs raws).
Proof.
  induction 1 as [|c raw cs raws Hc _ IH]; intros Hmax pre index n Hi Hn; simpl.
  - by apply zero_tail_laid_out.
  - destruct Hc as (Hl & Ht & Hcount & Hok & Hrec).
    destruct (Hmax c ltac:(by left)) as [H1 H2].
    rewrite <- app_assoc. apply (LaidOutRecord _ _ _ _ (2 + child_entries c)).
    + rewrite <- Hrec. simpl. split.
      * rewrite (entry_type_of_middle pre raw) by (done || unfold child_bytes in Hl; lia). done.
      * exists raw, (child_entries c + 1). split_and!; [|done|lia|lia|done|done|lia].
        unfold child_bytes in Hl. split; unfold ENTRY_BYTES.
        -- rewrite subslice_middle by lia. done.
        -- rewrite !len_app. lia.
    + replace (pre ++ raw ++ concat raws ++ replicate n x00)
        with ((pre ++ raw) ++ concat raws ++ replicate n x00) by (by rewrite <- app_assoc).
      apply IH; [|unfold child_bytes in Hl; rewrite len_app; lia|done].
      intros c' Hc'. apply Hmax. by right.
Qed.

(** ** System entries *)
Lemma parse_volume_label_total entry index label :
  len entry = 32 -> field 1 entry 1 = len label -> len label <= 11 -> zeros 24 32 entry ->
  (forall k x, label !! N.to_nat k = Some x -> field 2 entry (2 + k * 2) = x) ->
  (forall k, len label <= k < 11 -> field 2 entry (2 + k * 2) = 0) ->
  valid_name_units false label ->
  parse_volume_label entry index
  = Ok (mkVolumeLabelEntry (label ++ replicate (11 - length label) 0) (len label) true).
Proof.
  intros Hl Hc Hn Hz Hu Hp Hv. unfold parse_volume_label.
  rewrite (read_le_in 1) by lia. cbn [mbind outcome_bind]. rewrite Hc.
  rewrite (proj2 (N.ltb_ge 11 _)) by done. cbn [refuse_if mbind outcome_bind].
  rewrite (proj2 (require_zero_iff entry 24 32 index tt ltac:(lia) ltac:(lia))) by done.
  cbn [mbind outcome_bind].
  pose proof (try_fold_indices (E := DirectoryError) (fun k => (fun j => field 2 entry (2 + j * 2)) <$> indices k)
    (fun units slot => unit ← read_le 2 entry (2 + slot * 2); Ok (units ++ [unit])) 11) as Ht.
  cbv beta in Ht. change ((fun j => field 2 entry (2 + j * 2)) <$> indices 0) with (@nil N) in Ht.
  rewrite Ht.
  2: { intros k Hk. rewrite read_le_in by lia. cbn [mbind outcome_bind]. by rewrite indices_succ, fmap_app. }
  clear Ht. cbn [mbind outcome_bind].
  assert (Hunits : (fun j => field 2 entry (2 + j * 2)) <$> indices 11 = label ++ replicate (11 - length label) 0).
  { apply list_eq. intros i. unfold indices. rewrite !list_lookup_fmap.
    destruct (decide (i < 11)%nat) as [Hi|Hi].
    - rewrite lookup_seq_lt by lia. simpl. destruct (label !! i) as [x|] eqn:Hx.
      + rewrite lookup_app_l by (by eapply lookup_lt_Some). rewrite Hx. f_equal. apply Hu. by rewrite Nat2N.id.
      + apply lookup_ge_None in Hx. rewrite lookup_app_r by done.
        rewrite lookup_replicate_2 by lia. f_equal. apply Hp. unfold len. lia.
    - rewrite lookup_seq_ge by lia. simpl. symmetry. apply lookup_ge_None.
      rewrite length_app, length_replicate. unfold len in Hn. lia. }
  rewrite Hunits. rewrite !index_range_in by (rewrite ?len_app, ?len_replicate; unfold len in *; lia).
  cbn [mbind outcome_bind]. rewrite subslice_prefix by done.
  rewrite (proj2 (validate_name_units_Ok label index false tt)) by done. cbn [mbind outcome_bind].
  f_equal. f_equal. apply forallb_forall. intros x Hx%list_elem_of_In.
  rewrite (subslice_after label _ _ _ (len label)) in Hx by (done || lia).
  rewrite subslice_replicate in Hx by (unfold len in *; lia).
  apply elem_of_replicate in Hx as [-> _]. done.
Qed.
Lemma parse_bitmap_total entry index context :
  dc_cluster_count context < u32_max -> dc_bytes_per_cluster context <> 0 ->
  dc_bytes_per_cluster context <= u32_max -> 1 <= dc_number_of_fats context ->
  len entry = 32 -> field 1 entry 1 = 0 -> zeros 2 20 entry ->
  field 8 entry 24 = (dc_cluster_count context + 7) / 8 ->
  allocation_ok context (field 4 entry 20) (field 8 entry 24) false ->
  parse_bitmap entry index context = Ok (mkAllocationBitmapEntry 0 (field 4 entry 20) (field 8 entry 24)).
Proof.
  intros H1 H2 H3 H4 Hl Hf Hz Hlen Ha. unfold parse_bitmap.
  rewrite (read_le_in 1) by lia. cbn [mbind outcome_bind]. rewrite Hf.
  change (has_bits 0 254) with false. change (N.land 0 1) with 0. cbn [refuse_if mbind outcome_bind].
  rewrite (proj2 (require_zero_iff entry 2 20 index tt ltac:(lia) ltac:(lia))) by done.
  cbn [mbind outcome_bind]. rewrite (proj2 (N.leb_gt _ 0)) by lia. cbn [refuse_if mbind outcome_bind].
  rewrite !read_le_in by lia. cbn [mbind outcome_bind]. rewrite allocation_accepted by done.
  cbn [mbind outcome_bind]. rewrite Hlen, N.ltb_irrefl. done.
Qed.
Lemma parse_upcase_total entry index context :
  dc_cluster_count context < u32_max -> dc_bytes_per_cluster context <> 0 ->
  dc_bytes_per_cluster context <= u32_max ->
  len entry = 32 -> zeros 1 4 entry -> zeros 8 20 entry ->
  0 < field 8 entry 24 -> N.Even (field 8 entry 24) ->
  allocation_ok context (field 4 entry 20) (field 8 entry 24) false ->
  parse_upcase entry index context
  = Ok (mkUpcaseTableEntry (field 4 entry 4) (field 4 entry 20) (field 8 entry 24)).
Proof.
  intros H1 H2 H3 Hl Hz1 Hz2 Hlen He Ha. unfold parse_upcase.
  rewrite (proj2 (require_zero_iff entry 1 4 index tt ltac:(lia) ltac:(lia))) by done.
  rewrite (proj2 (require_zero_iff entry 8 20 index tt ltac:(lia) ltac:(lia))) by done.
  cbn [mbind outcome_bind]. rewrite !read_le_in by lia. cbn [mbind outcome_bind].
  rewrite allocation_accepted by done. cbn [mbind outcome_bind].
  rewrite (proj2 (N.eqb_neq _ 0)) by lia. rewrite has_bits_one.
  apply N.even_spec in He. rewrite <- N.negb_even, He. done.
Qed.

(** The label entry at the start of the directory. *)
Lemma write_label_total bytes label :
  32 <= len bytes -> len label <= 11 -> Forall (fun u => u <= u16_max) label ->
  exists bytes', write_label bytes 0 label = Ok (bytes', 32) /\ len bytes' = len bytes /\
    (forall lo hi, 24 <= lo -> subslice lo hi bytes' = subslice lo hi bytes) /\
    field 1 bytes' 0 = TYPE_VOLUME_LABEL /\ field 1 bytes' 1 = len label /\
    (forall k x, label !! N.to_nat k = Some x -> field 2 bytes' (2 + k * 2) = x) /\
    (forall k, len label <= k < 11 -> field 2 bytes' (2 + k * 2) = field 2 bytes (2 + k * 2)).
Proof.
  intros Hl Hn Hu. unfold write_label. widths.
  rewrite (u8_try_from_in (len label)) by lia. cbn [ok_or mbind outcome_bind].
  assert (HT : TYPE_VOLUME_LABEL < 256) by done. revert HT. generalize TYPE_VOLUME_LABEL. intros ty HT.
  do 2 put_next. change (0 + 1) with 1 in *.
  destruct (fold_enumerate_total (E := ExfatSerializeError) (fun k bytes' => len bytes' = len bytes /\
      (forall lo hi, 24 <= lo \/ hi <= 2 -> subslice lo hi bytes' = subslice lo hi b0) /\
      (forall j x, j < k -> label !! N.to_nat j = Some x -> field 2 bytes' (2 + j * 2) = x) /\
      (forall j, k <= j < 11 -> field 2 bytes' (2 + j * 2) = field 2 b0 (2 + j * 2)))
    (fun bytes '(index, unit) => put_le 2 bytes (0 + 2 + index * 2) unit) b0 label)
    as (bytes' & Hf & Hlen' & Hsame & Hwritten & Hrest).
  { split_and!; [lia | done | lia | done]. }
  { intros k x s Hx (Hls & Hs & Hw & Hr). assert (Hk : k < 11) by (apply lookup_lt_Some in Hx; unfold len in *; lia).
    assert (Hx16 : x < 65536). { rewrite Forall_forall in Hu. apply list_elem_of_lookup_2, Hu in Hx. lia. }
    rewrite N.add_0_l, put_le_in by (simpl; lia). eexists. split; [done |]. split_and!.
    - rewrite len_put by (simpl; lia). done.
    - intros lo hi Ho. rewrite slice_splice_other by (rewrite ?len_le_bytes; simpl; lia). by apply Hs.
    - intros j y Hj Hy. destruct (decide (j = k)) as [->|Hjk].
      + simplify_eq. rewrite field_put_same by (simpl; lia). apply N.mod_small. done.
      + rewrite field_put_other by (simpl; lia). apply Hw; [lia | done].
    - intros j Hj. rewrite field_put_other by (simpl; lia). apply Hr. lia. }
  rewrite Hf. cbn [mbind outcome_bind]. exists bytes'. change (0 + ENTRY_BYTES) with 32.
  split; [done |]. split; [done |].
  assert (Hb : forall lo hi, 2 <= lo -> subslice lo hi b0 = subslice lo hi bytes) by (intros; by peel).
  split_and!.
  - intros lo hi Hlo. rewrite Hsame, Hb by lia. done.
  - unfold field. rewrite Hsame by (simpl; lia). change (field 1 b0 0 = ty). by peel.
  - unfold field. rewrite Hsame by (simpl; lia). exact Hval0.
  - intros k x Hx. apply Hwritten; [|done]. apply lookup_lt_Some in Hx. unfold len. lia.
  - intros k Hk. rewrite Hrest by done. unfold field. by rewrite Hb by lia.
Qed.

(** What [write_tables] leaves. *)
Record tables_written (bitmap upcase_allocation : ExfatAllocationRun) (bitmap_length : N)
    (upcase_bytes : list byte) (upcase_checksum cursor : N) (b : list byte) : Prop := mkTablesWritten {
  tw_bitmap : field 1 b cursor = TYPE_ALLOCATION_BITMAP;
  tw_bitmap_flags : field 1 b (cursor + 1) = 0;
  tw_bitmap_zeros : zeros (cursor + 2) (cursor + 20) b;
  tw_bitmap_first : field 4 b (cursor + 20) = al_first_cluster bitmap;
  tw_bitmap_length : field 8 b (cursor + 24) = bitmap_length;
  tw_upcase : field 1 b (cursor + 32) = TYPE_UPCASE_TABLE;
  tw_upcase_zeros1 : zeros (cursor + 33) (cursor + 36) b;
  tw_upcase_checksum : field 4 b (cursor + 36) = upcase_checksum;
  tw_upcase_zeros2 : zeros (cursor + 40) (cursor + 52) b;
  tw_upcase_first : field 4 b (cursor + 52) = al_first_cluster upcase_allocation;
  tw_upcase_length : field 8 b (cursor + 56) = len upcase_bytes
}.
(** What the volume must provide. *)
Definition tables_typed (bitmap upcase_allocation : ExfatAllocationRun) (bitmap_length : N)
    (upcase_bytes : list byte) (upcase_checksum : N) : Prop :=
  al_first_cluster bitmap <= u32_max /\ al_first_cluster upcase_allocation <= u32_max /\
  bitmap_length <= u64_max /\ len upcase_bytes <= u64_max /\ upcase_checksum <= u32_max /\
  upcase_checksum = table_checksum upcase_bytes.

Lemma write_tables_total bytes cursor bitmap ua bl ub uc :
  tables_typed bitmap ua bl ub uc -> cursor + 64 <= len bytes -> zeros cursor (cursor + 64) bytes ->
  exists b, write_tables bytes cursor bitmap ua bl ub uc = Ok (b, cursor + 64) /\
    len b = len bytes /\
    (forall lo hi, hi <= cursor \/ cursor + 64 <= lo -> subslice lo hi b = subslice lo hi bytes) /\
    tables_written bitmap ua bl ub uc cursor b.
Proof.
  intros (H1 & H2 & H3 & H4 & H5 & H6) Hl Hz. unfold write_tables, ENTRY_BYTES. widths.
  assert (HT1 : TYPE_ALLOCATION_BITMAP < 256) by done. assert (HT2 : TYPE_UPCASE_TABLE < 256) by done.
  remember TYPE_ALLOCATION_BITMAP as tb eqn:Etb. remember TYPE_UPCASE_TABLE as tu eqn:Etu.
  rewrite (u64_try_from_in (len ub)) by lia. rewrite (proj2 (N.eqb_eq uc _)) by done.
  cbn [ok_or expect mbind outcome_bind]. rewrite <- !N.add_assoc.
  do 7 put_next.
  change (32 + 4) with 36 in *. change (32 + 20) with 52 in *. change (32 + 24) with 56 in *. change (32 + 32) with 64.
  eexists. split; [done |]. split; [congruence |]. split; [intros; by peel |].
  assert (Hz' : forall lo hi, cursor <= lo -> hi <= cursor + 64 -> zeros lo hi bytes).
  { intros lo hi Ha Hb. unfold zeros in *. destruct (N.le_gt_cases lo hi).
    - replace (subslice lo hi bytes) with (subslice (lo - cursor) (hi - cursor) (subslice cursor (cursor + 64) bytes))
        by (rewrite subslice_subslice by lia; f_equal; lia).
      unfold subslice at 1. by apply Forall_take, Forall_drop.
    - unfold subslice. replace (N.to_nat (hi - lo)) with 0%nat by lia. constructor. }
  subst tb tu.
  split; unfold zeros; peel; first [assumption | apply Hz'; lia | idtac].
  apply le_num_zeros. unfold zeros in Hz'. peel. apply Hz'; simpl; lia.
Qed.

(** The records of the system entries of a root. *)
Definition label_record (label : list N) : DirectoryRecord :=
  RecordVolumeLabel (mkVolumeLabelEntry (label ++ replicate (11 - length label) 0) (len label) true).
Definition system_records (volume_label : option (list N)) (bitmap ua : ExfatAllocationRun)
    (bitmap_length : N) (upcase_bytes : list byte) (upcase_checksum : N) : list DirectoryRecord :=
  (match volume_label with Some label => [label_record label] | None => [] end) ++
  [RecordAllocationBitmap (mkAllocationBitmapEntry 0 (al_first_cluster bitmap) bitmap_length);
   RecordUpcaseTable (mkUpcaseTableEntry upcase_checksum (al_first_cluster ua) (len upcase_bytes))].
Definition label_typed (volume_label : option (list N)) : Prop :=
  match volume_label with
  | Some label => len label <= 11 /\ Forall (fun u => u <= u16_max) label /\ valid_name_units false label
  | None => True
  end.
Record root_context (context : DirectoryContext) (bitmap ua : ExfatAllocationRun)
    (bitmap_length : N) (upcase_bytes : list byte) : Prop := mkRootContext {
  rc_root : dc_is_root context = true;
  rc_fats : 1 <= dc_number_of_fats context;
  rc_clusters : dc_cluster_count context < u32_max;
  rc_bytes : dc_bytes_per_cluster context <> 0;
  rc_bytes_max : dc_bytes_per_cluster context <= u32_max;
  rc_bitmap_length : bitmap_length = (dc_cluster_count context + 7) / 8;
  rc_bitmap : allocation_ok context (al_first_cluster bitmap) bitmap_length false;
  rc_upcase_length : 0 < len upcase_bytes /\ N.Even (len upcase_bytes);
  rc_upcase : allocation_ok context (al_first_cluster ua) (len upcase_bytes) false
}.

(** An entry that stands in the directory. *)
Lemma entry_of_prefix sys tail index :
  (index + 1) * 32 <= len sys ->
  subslice (index * 32) ((index + 1) * 32) (sys ++ tail) = subslice (index * 32) ((index + 1) * 32) sys /\
  entry_type_at (sys ++ tail) index = field 1 sys (index * 32).
Proof.
  intros Hl. split; [by rewrite subslice_app_low by lia |].
  unfold entry_type_at, field. simpl N.of_nat. by rewrite subslice_app_low by lia.
Qed.
Lemma zeros_entry lo hi index b :
  (index + 1) * 32 <= len b -> hi <= 32 ->
  zeros lo hi (subslice (index * 32) ((index + 1) * 32) b) <-> zeros (index * 32 + lo) (index * 32 + hi) b.
Proof. intros. unfold zeros. by rewrite subslice_subslice by lia. Qed.

Lemma tables_laid_out context bitmap ua bl ub uc index sys tail records :
  root_context context bitmap ua bl ub -> tables_written bitmap ua bl ub uc (index * 32) sys ->
  (index + 2) * 32 <= len sys ->
  laid_out context (sys ++ tail) (index + 2) records ->
  laid_out context (sys ++ tail) index
    (RecordAllocationBitmap (mkAllocationBitmapEntry 0 (al_first_cluster bitmap) bl)
     :: RecordUpcaseTable (mkUpcaseTableEntry uc (al_first_cluster ua) (len ub)) :: records).
Proof.
  intros [] [] Hl Hrec.
  destruct (entry_of_prefix sys tail index ltac:(lia)) as [He1 Ht1].
  destruct (entry_of_prefix sys tail (index + 1) ltac:(lia)) as [He2 Ht2].
  replace ((index + 1) * 32) with (index * 32 + 32) in Ht2 by lia.
  set (e1 := subslice (index * 32) ((index + 1) * 32) sys) in *.
  assert (Hl1 : len e1 = 32) by (apply len_entry_slice; lia).
  assert (Hf1 : forall n o, o + N.of_nat n <= 32 -> field n e1 o = field n sys (index * 32 + o))
    by (intros; apply entry_field; lia).
  set (e2 := subslice ((index + 1) * 32) ((index + 1 + 1) * 32) sys) in *.
  assert (Hl2 : len e2 = 32) by (apply len_entry_slice; lia).
  assert (Hf2 : forall n o, o + N.of_nat n <= 32 -> field n e2 o = field n sys (index * 32 + (32 + o))).
  { intros. unfold e2. rewrite entry_field by lia. f_equal. lia. }
  apply (LaidOutRecord _ _ _ _ 1); [|apply (LaidOutRecord _ _ _ _ 1)].
  - simpl. rewrite He1, Ht1. split_and!; [done | done | | | done].
    + rewrite <- tw_bitmap_first0, <- tw_bitmap_length0, <- !Hf1 by (simpl; lia).
      apply parse_bitmap_total; try done.
      * by rewrite Hf1 by (simpl; lia).
      * apply zeros_entry; [lia | lia | done].
      * by rewrite Hf1, tw_bitmap_length0 by (simpl; lia).
      * by rewrite !Hf1, tw_bitmap_length0, tw_bitmap_first0 by (simpl; lia).
    + split_and!; simpl; try done; lia.
  - simpl. rewrite He2, Ht2. split_and!; [done | done | | | done].
    + rewrite <- tw_upcase_first0, <- tw_upcase_length0, <- tw_upcase_checksum0.
      change 52 with (32 + 20). change 56 with (32 + 24). change 36 with (32 + 4).
      rewrite <- !Hf2 by (simpl; lia).
      assert (Hlen : field 8 e2 24 = len ub) by (by rewrite Hf2 by (simpl; lia)).
      apply parse_upcase_total; try done.
      * apply zeros_entry; [lia | lia |]. by replace ((index + 1) * 32) with (index * 32 + 32) by lia; rewrite <- !N.add_assoc.
      * apply zeros_entry; [lia | lia |]. by replace ((index + 1) * 32) with (index * 32 + 32) by lia; rewrite <- !N.add_assoc.
      * rewrite Hlen. apply rc_upcase_length0.
      * rewrite Hlen. apply rc_upcase_length0.
      * rewrite Hlen, Hf2 by (simpl; lia). change (32 + 20) with 52. by rewrite tw_upcase_first0.
    + split_and!; simpl; try apply rc_upcase_length0. done.
  - by replace (index + 1 + 1) with (index + 2) by lia.
Qed.

Lemma prefix_of_zeros (b : list byte) n c :
  len b = N.of_nat n -> c <= len b -> subslice c (len b) b = subslice c (len b) (replicate n x00) ->
  b = subslice 0 c b ++ replicate (n - N.to_nat c) x00.
Proof.
  intros Hl Hc Hs. rewrite subslice_replicate in Hs by lia.
  rewrite <- (subslice_all b) at 1. rewrite <- (subslice_split 0 c) by lia. rewrite Hs. do 2 f_equal. lia.
Qed.

Lemma write_root_total n bitmap ua bl vl ub uc :
  96 <= N.of_nat n -> tables_typed bitmap ua bl ub uc -> label_typed vl ->
  let count := len (system_records vl bitmap ua bl ub uc) in
  exists sys, write_root_entries (replicate n x00) bitmap ua bl vl ub uc
              = Ok (sys ++ replicate (n - N.to_nat (count * 32)) x00, count * 32) /\
    len sys = count * 32 /\
    forall context tail records, root_context context bitmap ua bl ub ->
      laid_out context (sys ++ tail) count records ->
      laid_out context (sys ++ tail) 0 (system_records vl bitmap ua bl ub uc ++ records).
Proof.
  intros Hn Ht Hlab count. set (start := replicate n x00).
  assert (Hls : len start = N.of_nat n) by apply len_replicate.
  assert (Hz : forall lo hi, hi <= N.of_nat n -> zeros lo hi start).
  { intros lo hi Hhi. unfold zeros, start. rewrite subslice_replicate by lia. by apply Forall_replicate. }
  destruct vl as [label|]; unfold write_root_entries.
  - destruct Hlab as (Hl1 & Hl2 & Hl3). unfold label_typed in *.
    destruct (write_label_total start label ltac:(lia) Hl1 Hl2) as (b1 & Hw1 & Hlen1 & Hsame1 & Hf0 & Hf1 & Hun & Hpad).
    rewrite Hw1. cbn [mbind outcome_bind].
    destruct (write_tables_total b1 32 bitmap ua bl ub uc Ht ltac:(lia)) as (b & Hw & Hlen & Hsame & Htab).
    { unfold zeros. rewrite Hsame1 by lia. apply Hz. lia. }
    rewrite Hw. change count with 3. change (32 + 64) with 96 in *. change (3 * 32) with 96.
    exists (subslice 0 96 b).
    assert (Hsl : len (subslice 0 96 b) = 96) by (rewrite len_subslice; lia).
    split; [|split; [done |]].
    { do 2 f_equal. apply prefix_of_zeros; [lia | lia |]. rewrite Hsame, Hsame1 by lia. done. }
    intros context tail records Hrc Hrec. simpl.
    assert (Hfb : forall n o, o + N.of_nat n <= 96 -> field n (subslice 0 96 b) o = field n b o)
      by (intros; by rewrite field_of_slice by lia).
    assert (Hzb : forall lo hi, hi <= 96 -> zeros lo hi (subslice 0 96 b) <-> zeros lo hi b)
      by (intros; by rewrite zeros_subslice by lia).
    destruct (entry_of_prefix (subslice 0 96 b) tail 0 ltac:(lia)) as [He0 Ht0].
    apply (LaidOutRecord _ _ _ _ 1).
    + simpl. rewrite He0, Ht0. change (0 * 32) with 0. change ((0 + 1) * 32) with 32.
      rewrite subslice_subslice by lia. change (0 + 0) with 0. change (0 + 32) with 32.
      assert (Hf : forall n o, o + N.of_nat n <= 32 -> field n (subslice 0 32 b) o = field n b1 o).
      { intros m o Ho. rewrite field_of_slice by lia. unfold field. by rewrite Hsame by lia. }
      split_and!; [| apply Hrc | | | done].
      * rewrite Hfb by (simpl; lia). unfold field in *. by rewrite Hsame by (simpl; lia).
      * apply parse_volume_label_total; try done.
        -- rewrite len_subslice by lia. done.
        -- by rewrite Hf by (simpl; lia).
        -- apply zeros_subslice; [lia |]. unfold zeros. rewrite Hsame, Hsame1 by lia. apply Hz. lia.
        -- intros k x Hk. assert (k < 11) by (apply lookup_lt_Some in Hk; unfold len in *; lia).
           rewrite Hf by (simpl; lia). by apply Hun.
        -- intros k Hk. rewrite Hf by (simpl; lia). rewrite Hpad by done. apply field_zeros. simpl. lia.
      * split_and!; simpl; [rewrite length_app, length_replicate; unfold len in Hl1; lia | done |].
        unfold len. by rewrite Nat2N.id, take_app_length.
    + apply (tables_laid_out _ _ _ _ _ _ 1); [done | | lia | exact Hrec].
      destruct Htab. split; rewrite ?Hfb by (simpl; lia); rewrite ?Hzb by lia; done.
  - cbn [mbind outcome_bind].
    destruct (write_tables_total start 0 bitmap ua bl ub uc Ht ltac:(lia)) as (b & Hw & Hlen & Hsame & Htab).
    { apply Hz. lia. }
    rewrite Hw. change count with 2. change (0 + 64) with 64 in *. change (2 * 32) with 64.
    exists (subslice 0 64 b).
    assert (Hsl : len (subslice 0 64 b) = 64) by (rewrite len_subslice; lia).
    split; [|split; [done |]].
    { do 2 f_equal. apply prefix_of_zeros; [lia | lia |]. rewrite Hsame by lia. done. }
    intros context tail records Hrc Hrec. simpl.
    assert (Hfb : forall n o, o + N.of_nat n <= 64 -> field n (subslice 0 64 b) o = field n b o)
      by (intros; by rewrite field_of_slice by lia).
    assert (Hzb : forall lo hi, hi <= 64 -> zeros lo hi (subslice 0 64 b) <-> zeros lo hi b)
      by (intros; by rewrite zeros_subslice by lia).
    apply (tables_laid_out _ _ _ _ _ _ 0); [done | | lia | exact Hrec].
    destruct Htab. split; rewrite ?Hfb by (simpl; lia); rewrite ?Hzb by lia; done.
Qed.

(** ** A directory and what it needs *)
Record directory_ready (context : DirectoryContext) (object root : ObjectId) (layouts : Layouts)
    (bitmap ua : ExfatAllocationRun) (bitmap_length : N) (volume_label : option (list N))
    (upcase_bytes : list byte) (upcase_checksum : N) (upcase : UpcaseTable) (cluster_bytes : N)
    (cs : list written_child) (size : N) : Prop := mkDirectoryReady {
  dy_layout : exists layout allocation,
    layouts !! object = Some layout /\ lo_children layout = wc_id <$> cs /\
    allocation_from_clusters (lo_directory_clusters layout) = Ok allocation /\
    padded_allocation_bytes allocation cluster_bytes = Ok size;
  dy_children : Forall (child_ready context layouts upcase cluster_bytes) cs;
  dy_length : exists bytes,
    directory_length object root layouts (bool_decide (is_Some volume_label)) = Ok bytes /\ bytes <= size;
  dy_entries : exists m, size = 32 * m /\ m <= dc_max_entries context;
  dy_size : 0 < size <= isize_max;
  dy_fats : dc_number_of_fats context = 1;
  dy_clusters : 0 < dc_cluster_count context < u32_max;
  dy_cluster_bytes : is_power_of_two (dc_bytes_per_cluster context) = true /\
                     dc_bytes_per_cluster context <= u32_max;
  dy_secondaries : 18 <= dc_max_secondary_entries context;
  dy_is_root : dc_is_root context = (object =? root);
  dy_root : object = root ->
    tables_typed bitmap ua bitmap_length upcase_bytes upcase_checksum /\ label_typed volume_label /\
    root_context context bitmap ua bitmap_length upcase_bytes
}.

Lemma directory_length_children context layouts upcase cb cs start :
  Forall (child_ready context layouts upcase cb) cs ->
  forall r, try_fold (fun sum child =>
    child_layout ← expect (layouts !! child);
    name ← ok_or (SerializeOverflow "directory entry count") (lo_name child_layout);
    ok_or (SerializeOverflow "directory entry count") (checked_add sum (2 + (len name + 14) / 15)))
    start (wc_id <$> cs) = Ok r ->
  r * 32 = start * 32 + sum_by child_bytes cs.
Proof.
  intros Hc. revert start. induction Hc as [|c cs Hc _ IH]; intros start r; rewrite ?fmap_nil, ?fmap_cons; cbn [try_fold].
  - intros [= <-]. simpl. lia.
  - rewrite (cr_layout _ _ _ _ _ Hc). cbn [expect mbind outcome_bind].
    rewrite (cr_name _ _ _ _ _ Hc). cbn [ok_or mbind outcome_bind]. intros H.
    apply bind_Ok in H as (s & Hs & H). apply ok_or_Ok, checked_add_Some in Hs as [-> _].
    apply IH in H. rewrite sum_by_cons. unfold child_bytes at 1, child_entries. lia.
Qed.
Lemma record_files context cs raws :
  Forall2 (set_of context) cs raws ->
  bitmap_ids (zip_with child_record cs raws) = [] /\
  count_by is_bitmap (zip_with child_record cs raws) = 0 /\
  count_by is_upcase (zip_with child_record cs raws) = 0 /\
  count_by is_label (zip_with child_record cs raws) = 0.
Proof. induction 1 as [|c raw cs raws _ _ IH]; simpl; [done |]. exact IH. Qed.

(** The records in front of the children. *)
Definition head_records (object root : ObjectId) (vl : option (list N)) (bitmap ua : ExfatAllocationRun)
    (bl : N) (ub : list byte) (uc : N) : list DirectoryRecord :=
  if object =? root then system_records vl bitmap ua bl ub uc else [].
Lemma system_count vl bitmap ua bl ub uc :
  len (system_records vl bitmap ua bl ub uc) = 2 + (if bool_decide (is_Some vl) then 1 else 0).
Proof.
  destruct vl; [by rewrite bool_decide_true by eauto | by rewrite bool_decide_false by (by intros [])].
Qed.
Lemma directory_bytes_cover context object root layouts layout bitmap ua bl vl ub uc upcase cb cs bytes :
  layouts !! object = Some layout -> lo_children layout = wc_id <$> cs ->
  Forall (child_ready context layouts upcase cb) cs ->
  directory_length object root layouts (bool_decide (is_Some vl)) = Ok bytes ->
  bytes = (len (head_records object root vl bitmap ua bl ub uc) + 1) * 32 + sum_by child_bytes cs.
Proof.
  intros Hlay Hch Hcs. unfold directory_length. rewrite Hlay. cbn [expect mbind outcome_bind].
  intros Hlen. apply bind_Ok in Hlen as (entries & He & Hb). rewrite Hch in He.
  apply (directory_length_children context layouts upcase cb cs _ Hcs) in He.
  apply ok_or_Ok, checked_mul_Some in Hb as [-> _]. unfold ENTRY_BYTES. rewrite He. unfold head_records.
  destruct (object =? root); rewrite ?system_count, ?len_nil; done.
Qed.
Lemma write_head_total object root bitmap ua bl vl ub uc size :
  let count := len (head_records object root vl bitmap ua bl ub uc) in
  (count + 1) * 32 <= size ->
  (object = root -> tables_typed bitmap ua bl ub uc /\ label_typed vl) ->
  exists sys, (if object =? root then
      write_root_entries (replicate (N.to_nat size) x00) bitmap ua bl vl ub uc
      else Ok (replicate (N.to_nat size) x00, 0))
      = Ok (sys ++ replicate (N.to_nat size - N.to_nat (len sys)) x00, len sys) /\
    len sys = count * 32 /\
    forall context tail records, (object = root -> root_context context bitmap ua bl ub) ->
      laid_out context (sys ++ tail) count records ->
      laid_out context (sys ++ tail) 0 (head_records object root vl bitmap ua bl ub uc ++ records).
Proof.
  intros count. unfold count, head_records. destruct (N.eqb_spec object root) as [Heq|]; intros Hfit Hroot.
  - destruct (Hroot Heq) as (Ht & Hl).
    assert (Hge : 2 <= len (system_records vl bitmap ua bl ub uc)) by (rewrite system_count; lia).
    destruct (write_root_total (N.to_nat size) bitmap ua bl vl ub uc ltac:(lia) Ht Hl) as (sys & H1 & H2 & H3).
    exists sys. rewrite H2. split_and!; [exact H1 | done |]. intros. apply H3; auto.
  - exists []. simpl. rewrite Nat.sub_0_r. done.
Qed.
Lemma child_bytes_whole cs : exists k, sum_by child_bytes cs = 32 * k.
Proof.
  induction cs as [|c cs [k IH]]; [by exists 0 |]. rewrite sum_by_cons, IH.
  exists (2 + child_entries c + k). unfold child_bytes. lia.
Qed.
Lemma written_sets_length context cs raws :
  Forall2 (set_of context) cs raws -> len (concat raws) = sum_by child_bytes cs.
Proof.
  induction 1 as [|c raw cs raws Hc _ IH]; [done |].
  rewrite sum_by_cons. cbn [concat]. rewrite len_app, IH. f_equal. apply Hc.
Qed.

(** The writer of a directory and the parser agree.  For an input that is
    [directory_ready] -- the object of the directory has a layout, every child
    has a layout whose name, metadata and allocation the parser admits in
    [context], the records fit the length of the directory, and the context has
    room for the entries, the directory bytes and the clusters -- the writer
    succeeds, and the parser accepts the bytes and reads back what was written:
    in a root the label, the bitmap and the up-case table, then the set of every
    child in order, each with the metadata, the name, the hash, the lengths and
    the first cluster of its layout. *)
Theorem written_directory_parsed context object root layouts bitmap ua bl vl ub uc upcase cb cs size :
  directory_ready context object root layouts bitmap ua bl vl ub uc upcase cb cs size ->
  exists directory summary raws,
    build_directory object root layouts bitmap ua bl vl ub uc upcase cb = Ok directory /\
    len directory = size /\ Forall2 (set_of context) cs raws /\
    parse_directory directory context
    = Ok (summary, head_records object root vl bitmap ua bl ub uc ++ zip_with child_record cs raws).
Proof.
  intros [(layout & allocation & Hlay & Hch & Hall & Hpad) Hcs (bytes & Hlen & Hfit) (m & Hm & Hmax)
    [Hs0 Hs] Hfats [Hcc0 Hcc] [Hpow Hbpc] Hsec Hisr Hroot].
  unfold build_directory. rewrite Hlay. cbn [expect mbind outcome_bind]. rewrite Hall.
  cbn [mbind outcome_bind]. rewrite Hpad. cbn [mbind outcome_bind].
  pose proof (directory_bytes_cover context object root layouts layout bitmap ua bl vl ub uc upcase cb cs
    bytes Hlay Hch Hcs Hlen) as Hbytes. set (count := len (head_records object root vl bitmap ua bl ub uc)) in *.
  destruct (write_head_total object root bitmap ua bl vl ub uc size) as (sys & Hw & Hsl & Hlaid).
  { fold count. lia. } { intros Heq. split; apply (Hroot Heq). }
  fold count in Hsl, Hlaid. rewrite Hw. cbn [mbind outcome_bind]. rewrite Hch. widths.
  destruct (write_children_total context layouts upcase cb cs Hcs sys
    (N.to_nat size - N.to_nat (len sys))) as (raws & Hraws & Hf); [lia | lia |].
  rewrite Hf. cbn [mbind outcome_bind]. set (directory := sys ++ concat raws ++ _).
  assert (Hlen' : len directory = size).
  { unfold directory. rewrite !len_app, len_replicate, (written_sets_length context cs raws Hraws). lia. }
  destruct (child_bytes_whole cs) as [k Hk].
  assert (Hd : laid_out context directory 0 (head_records object root vl bitmap ua bl ub uc
                   ++ zip_with child_record cs raws)).
  { apply Hlaid; [intros Heq; apply (Hroot Heq) |]. apply sets_laid_out; [done | | lia |].
    - intros c Hc. rewrite Forall_forall in Hcs. pose proof (child_entries_bound _ _ _ _ _ (Hcs c Hc)). lia.
    - exists (N.to_nat (m - count - k)). lia. }
  destruct (record_files context cs raws Hraws) as (Hids & Hb1 & Hb2 & Hb3).
  exists directory. edestruct (parse_directory_complete directory context) as (summary & Hp).
  - by rewrite Hlen'.
  - done.
  - done.
  - unfold validate_context. rewrite Hlen', Hm.
    replace (32 * m / ENTRY_BYTES) with m by (unfold ENTRY_BYTES; rewrite N.mul_comm; symmetry; by apply N.div_mul).
    rewrite !then_Ok, !refuse_if_Ok, Hpow, Hfats, !orb_false_iff, !negb_false_iff, !N.eqb_neq, N.eqb_eq, N.ltb_ge.
    unfold ENTRY_BYTES. split_and!; [lia | | done | done | lia | lia | done].
    intros Hz. by rewrite Hz in Hpow.
  - exact Hd.
  - unfold bitmap_ids, head_records in *. rewrite omap_app, Hids. destruct (object =? root); [|constructor].
    destruct vl; simpl; apply NoDup_singleton.
  - unfold head_records. rewrite Hisr. intros ->. rewrite !count_by_app, Hb1, Hb2, Hb3, Hfats.
    destruct vl; vm_compute; done.
  - exists summary, raws. done.
Qed.

(** ** A root that holds the file [A] and the directory [b] *)
Definition sample_times : ExfatTimestamps := mkExfatTimestamps 2162688 2162688 2162688 0 0 128 128 128.
Definition sample_small_upcase : UpcaseTable := mkUpcaseTable (ascii_upper <$> indices 128).
Definition sample_file_layout : ObjectLayout :=
  mkObjectLayout File (Some (mkExfatObjectMetadata 7 32 sample_times)) (Some [65]) []
    (Some (mkStreamLayout 7 600 600 1024 [9; 11] false)) [] 0.
Definition sample_directory_layout : ObjectLayout :=
  mkObjectLayout Directory (Some (mkExfatObjectMetadata 8 16 sample_times)) (Some [98]) [] None [6] 32.
Definition sample_root_layout : ObjectLayout :=
  mkObjectLayout Directory None None [7; 8] None [5] 288.
Definition sample_layouts : Layouts :=
  <[5 := sample_root_layout]> (<[7 := sample_file_layout]> (<[8 := sample_directory_layout]> ∅)).
Definition sample_children : list written_child :=
  [mkWrittenChild 7 sample_file_layout (mkExfatObjectMetadata 7 32 sample_times) [65] (9, 600, 600, false) 32800;
   mkWrittenChild 8 sample_directory_layout (mkExfatObjectMetadata 8 16 sample_times) [98] (6, 512, 512, true) 33].
Definition sample_root_context : DirectoryContext := mkDirectoryContext 252 512 1 true 128 32.
Definition sample_upcase_bytes : list byte := [x00; x00].

Lemma sample_child_ready c : c ∈ sample_children ->
  child_ready sample_root_context sample_layouts sample_small_upcase 512 c.
Proof.
  intros Hc. unfold sample_children in Hc.
  rewrite !elem_of_cons, elem_of_nil in Hc.
  destruct Hc as [->|[->|[]]]; (split; try by vm_compute); unfold child_valid; simpl;
    (split_and!; try by vm_compute).
  all: try (repeat constructor; by vm_compute).
  all: try (right; split_and!; by vm_compute).
Qed.
Lemma written_directory_parsed_witness :
  exists directory summary raws,
    build_directory 5 5 sample_layouts (mkAllocation 2 1) (mkAllocation 3 1) 32 None sample_upcase_bytes 0
      sample_small_upcase 512 = Ok directory /\
    len directory = 512 /\ Forall2 (set_of sample_root_context) sample_children raws /\
    parse_directory directory sample_root_context
    = Ok (summary, head_records 5 5 None (mkAllocation 2 1) (mkAllocation 3 1) 32 sample_upcase_bytes 0
                   ++ zip_with child_record sample_children raws).
Proof.
  apply (written_directory_parsed sample_root_context 5 5 sample_layouts (mkAllocation 2 1) (mkAllocation 3 1)
    32 None sample_upcase_bytes 0 sample_small_upcase 512 sample_children 512). split.
  - exists sample_root_layout, (mkAllocation 5 1). split_and!; by vm_compute.
  - apply Forall_forall. exact sample_child_ready.
  - exists 288. split; by vm_compute.
  - exists 16. split; by vm_compute.
  - split; by vm_compute.
  - by vm_compute.
  - split; by vm_compute.
  - split; by vm_compute.
  - by vm_compute.
  - by vm_compute.
  - intros _. split_and!; try by vm_compute. split; try (by vm_compute).
    + right. split_and!; by vm_compute.
    + split; [by vm_compute | by exists 1].
    + right. split_and!; by vm_compute.
Defined.
