(* ===== verification/ExfatSerialize.v ===== *)
(** * The exFAT destination

    The assembly of [fs/exfat_serialize.rs]: the complete set of metadata writes
    for an object graph, the draft that pins the metadata clusters before the
    payload is moved, and the finalizer that serializes again over the pinned
    layout.

    Whatever a serialization places -- bad clusters, scrubbed clusters, the
    directories of the source, payload, and the metadata -- it places on different
    clusters of the heap ([placed_ok]).  The main theorem: no metadata write
    touches payload, so that in the resulting image the clusters of every file
    hold the bytes of its stream. *)

From S2P Require Import Planner Extent Geometry Object Overlay Relocate.
From S2P Require Export ExfatEntries.
From stdpp Require Import gmap options.

#[local] Open Scope N_scope.

#[export] Instance ExtentGraph_eq_dec : EqDecision ExtentGraph.
Proof. solve_decision. Defined.
#[export] Instance ObjectGraph_eq_dec : EqDecision ObjectGraph.
Proof. solve_decision. Defined.
#[export] Instance DestinationReservation_eq_dec : EqDecision DestinationReservation.
Proof. solve_decision. Defined.
#[export] Instance ExfatDestinationGeometry_eq_dec : EqDecision ExfatDestinationGeometry.
Proof. solve_decision. Defined.
#[export] Instance ExfatAllocationRun_eq_dec : EqDecision ExfatAllocationRun.
Proof. solve_decision. Defined.

(** ** Data *)
Record ExfatSerializationPlan : Type := mkExfatSerializationPlan {
  sp_geometry : ExfatDestinationGeometry;
  sp_overlay : OverlayPlan;
  sp_reservations : list DestinationReservation;
  sp_source_allocations : list SourceAllocation;
  sp_reused_payloads : list ReusedPayload
}.

Inductive ExfatPinnedMetadataKind : Type :=
| PinnedAllocationBitmap
| PinnedUpcaseTable
| PinnedDirectory (object : ObjectId).
Record ExfatPinnedMetadataAllocation : Type := mkExfatPinnedMetadataAllocation {
  pm_kind : ExfatPinnedMetadataKind;
  pm_first_cluster : N;
  pm_cluster_count : N
}.

Record PinnedExfatLayout : Type := mkPinnedExfatLayout {
  pl_geometry : ExfatDestinationGeometry;
  pl_bitmap : ExfatAllocationRun;
  pl_upcase : ExfatAllocationRun;
  pl_directories : list (ObjectId * ExfatAllocationRun)
}.
#[export] Instance PinnedExfatLayout_eq_dec : EqDecision PinnedExfatLayout.
Proof. solve_decision. Defined.

(** The profile of the draft is an owned copy of the caller's. *)
Record ExfatDestinationDraft : Type := mkExfatDestinationDraft {
  dd_geometry : ExfatDestinationGeometry;
  dd_reservations : list DestinationReservation;
  dd_source_allocations : list SourceAllocation;
  dd_metadata_allocations : list ExfatPinnedMetadataAllocation;
  dd_source_graph : ObjectGraph;
  dd_object_metadata : list ExfatObjectMetadata;
  dd_profile : ExfatVolumeProfile;
  dd_options : ExfatSerializeOptions;
  dd_limits : ExfatSerializeLimits;
  dd_root : ObjectId;
  dd_objects : list ObjectRecord;
  dd_entries : list NamespaceEntry
}.
Definition cluster_heap_range (draft : ExfatDestinationDraft) : result ByteRange :=
  let geometry := dd_geometry draft in
  offset ← expect (checked_mul (dg_cluster_heap_offset_sectors geometry) (dg_bytes_per_sector geometry));
  length ← expect (checked_mul (dg_cluster_count geometry) (dg_bytes_per_cluster geometry));
  Ok (mkByteRange offset length).

(** ** Clusters *)

(** A bad cluster is taken before anything else. *)
Definition occupy_bad (geometry : ExfatDestinationGeometry) (occupied : list bool) (cluster : N)
    : result (list bool) :=
  slot ← ok_or (SerializeOverflow "bad cluster index") (usize_try_from (saturating_sub cluster 2));
  taken ← (if len occupied <=? slot then Ok true else at_index occupied slot);
  if taken : bool then
    offset ← cluster_offset geometry cluster;
    Err (BadClusterOverlapsDestinationMetadata offset)
  else fill_range slot (slot + 1) true occupied.
Definition occupy_scrub (occupied : list bool) (scrub : StaleBootSectorScrub) : result (list bool) :=
  match sb_heap_cluster scrub with
  | Some cluster =>
      slot ← ok_or (SerializeOverflow "scrub cluster index") (usize_try_from (saturating_sub cluster 2));
      fill_range slot (slot + 1) true occupied
  | None => Ok occupied
  end.

(** A metadata allocation: the pinned one, or the first free run. *)
Definition place (occupied : list bool) (pinned : option ExfatAllocationRun) (clusters : N)
    : result (ExfatAllocationRun * list bool) :=
  match pinned with
  | Some allocation =>
      refuse_if (negb (al_cluster_count allocation =? clusters)) DestinationLayoutChanged ;;
      occupied ← reserve_pinned occupied allocation;
      Ok (allocation, occupied)
  | None => allocate_contiguous occupied clusters
  end.

(** One round of the loop that places the directories. *)
Definition place_directory (graph : ObjectGraph) (geometry : ExfatDestinationGeometry)
    (profile : ExfatVolumeProfile) (limits : ExfatSerializeLimits) (pinned : option PinnedExfatLayout)
    (state : Layouts * list bool) (item : N * ObjectId) : result (Layouts * list bool) :=
  let '(layouts, occupied) := state in
  let '(directory_index, object) := item in
  bytes ← directory_length object (og_root graph) layouts
    (bool_decide (is_Some (vp_volume_label profile)));
  refuse_if (sl_max_directory_bytes limits <? bytes)
    (LimitExceeded "directory bytes" bytes (sl_max_directory_bytes limits)) ;;
  clusters ← clusters_for bytes (dg_bytes_per_cluster geometry);
  pinned_run ← (match pinned with
                | Some layout =>
                    item ← at_index (pl_directories layout) directory_index; Ok (Some (snd item))
                | None => Ok None
                end);
  '(allocation, occupied) ← place occupied pinned_run clusters;
  layout ← ok_or (UnsupportedObject object "missing internal layout") (layouts !! object);
  directory_clusters ← expand_allocation allocation;
  Ok (<[object := with_directory directory_clusters bytes layout]> layouts, occupied).

(** ** The file allocation table and the bitmap *)
Definition build_fat (geometry : ExfatDestinationGeometry) (root : ObjectId) (layouts : Layouts)
    (bitmap upcase_allocation : ExfatAllocationRun) (bad_clusters : list N)
    (directory_order : list ObjectId) (reused : list ReusedPayload) : result (list byte) :=
  size ← fat_byte_length geometry;
  fat ← put_le 4 (replicate (N.to_nat size) x00) 0 FAT_MEDIA_ENTRY;
  fat ← put_le 4 fat 4 END_OF_CHAIN;
  bitmap_clusters ← expand_allocation bitmap;
  fat ← write_chain fat bitmap_clusters;
  upcase_clusters ← expand_allocation upcase_allocation;
  fat ← write_chain fat upcase_clusters;
  fat ← try_fold (fun fat cluster => write_fat_entry fat cluster FAT_BAD_CLUSTER) fat bad_clusters;
  fat ← try_fold (fun fat object =>
    if object =? root then
      layout ← expect (layouts !! object); write_chain fat (lo_directory_clusters layout)
    else Ok fat) fat directory_order;
  try_fold (fun fat item =>
    if rp_no_fat_chain item then Ok fat else write_chain fat (rp_clusters item)) fat reused.

(** The clusters that the destination uses; those that only stage the source's
    directories stay free. *)
Definition destination_bits (cluster_count : N) (layouts : Layouts)
    (bitmap upcase_allocation : ExfatAllocationRun) (bad_clusters : list N)
    (directory_order : list ObjectId) (reused : list ReusedPayload) : result (list bool) :=
  bits ← try_fold (fun bits item => mark_clusters "payload bitmap index" bits (rp_clusters item))
    (replicate (N.to_nat cluster_count) false) reused;
  bits ← mark_allocation bits bitmap;
  bits ← mark_allocation bits upcase_allocation;
  bits ← mark_clusters "bad bitmap index" bits bad_clusters;
  try_fold (fun bits object =>
    layout ← expect (layouts !! object);
    mark_clusters "directory bitmap index" bits (lo_directory_clusters layout)) bits directory_order.

(** ** The writes *)
Definition directory_write (graph : ObjectGraph) (geometry : ExfatDestinationGeometry)
    (profile : ExfatVolumeProfile) (upcase : UpcaseTable) (layouts : Layouts)
    (bitmap upcase_allocation : ExfatAllocationRun) (bitmap_length : N) (object : ObjectId)
    : result OverlayWrite :=
  bytes ← build_directory object (og_root graph) layouts bitmap upcase_allocation bitmap_length
    (vp_volume_label profile) (vp_encoded_upcase_table profile) (vp_upcase_checksum profile) upcase
    (dg_bytes_per_cluster geometry);
  layout ← expect (layouts !! object);
  allocation ← allocation_from_clusters (lo_directory_clusters layout);
  allocation_write geometry allocation bytes.
Definition scrub_write (scrub : StaleBootSectorScrub) : result OverlayWrite :=
  length ← ok_or (SerializeOverflow "scrub length") (usize_try_from (br_length (sb_range scrub)));
  Ok (mkOverlayWrite (br_offset (sb_range scrub)) (replicate (N.to_nat length) x00)).

(** [for item in l { writes.push(f(item)?) }]. *)
Definition push_all {A B : Type} (f : A -> result B) (acc : list B) (l : list A) : result (list B) :=
  try_fold (fun acc item => value ← f item; Ok (acc ++ [value])) acc l.

Definition boot_writes (geometry : ExfatDestinationGeometry) (boot : list byte)
    : result (list OverlayWrite) :=
  one_boot_region ← ok_or (SerializeOverflow "single boot-region bytes")
    (usize_try_from (12 * dg_bytes_per_sector geometry));
  primary ← index_range 0 one_boot_region boot;
  backup ← index_range one_boot_region (len boot) boot;
  offset ← ok_or (SerializeOverflow "backup boot offset") (u64_try_from one_boot_region);
  Ok [mkOverlayWrite 0 primary; mkOverlayWrite offset backup].

Definition metadata_size (writes : list OverlayWrite) : result N :=
  try_fold (fun sum write =>
    length ← ok_or (SerializeOverflow "metadata write bytes") (u64_try_from (len (ow_bytes write)));
    ok_or (SerializeOverflow "metadata write bytes") (checked_add sum length)) 0 writes.

(** ** Reservations *)
Definition reservations_for (geometry : ExfatDestinationGeometry)
    (bitmap upcase : ExfatAllocationRun) (directories : list ObjectId) (layouts : Layouts)
    (bad_clusters : list N) (scrubs : list StaleBootSectorScrub) : result (list DestinationReservation) :=
  let sector := dg_bytes_per_sector geometry in
  boot ← expect (checked_mul 12 sector);
  fat ← expect (checked_mul (dg_fat_offset_sectors geometry) sector);
  fat_length ← expect (checked_mul (dg_fat_length_sectors geometry) sector);
  bitmap ← allocation_reservation geometry bitmap AllocationMetadata;
  upcase ← allocation_reservation geometry upcase AllocationMetadata;
  output ← push_all (fun object =>
      layout ← expect (layouts !! object);
      allocation ← allocation_from_clusters (lo_directory_clusters layout);
      allocation_reservation geometry allocation NamespaceMetadata)
    [mkDestinationReservation (mkByteRange 0 boot) BootRegion;
     mkDestinationReservation (mkByteRange boot boot) BootRegion;
     mkDestinationReservation (mkByteRange fat fat_length) AllocationMetadata; bitmap; upcase]
    directories;
  output ← push_all (fun cluster =>
      offset ← cluster_offset geometry cluster;
      Ok (mkDestinationReservation (mkByteRange offset (dg_bytes_per_cluster geometry)) OtherReservation))
    output bad_clusters;
  output ← push_all (fun scrub =>
      range ← (match sb_heap_cluster scrub with
               | Some cluster =>
                   offset ← cluster_offset geometry cluster;
                   Ok (mkByteRange offset (dg_bytes_per_cluster geometry))
               | None => Ok (sb_range scrub)
               end);
      Ok (mkDestinationReservation range OtherReservation)) output scrubs;
  Ok (sort_by_key (fun item => br_offset (dr_range item)) output).

(** ** The serialization

    The first half decides where everything goes, the second half writes it. *)
Record Placed : Type := mkPlaced {
  pd_geometry : ExfatDestinationGeometry;
  pd_upcase_table : UpcaseTable;
  pd_layouts : Layouts;
  pd_occupied : list bool;
  pd_bad_clusters : list N;
  pd_scrubs : list StaleBootSectorScrub;
  pd_source : list SourceAllocation;
  pd_reused : list ReusedPayload;
  pd_bitmap : ExfatAllocationRun;
  pd_upcase : ExfatAllocationRun;
  pd_order : list ObjectId
}.

Definition same_directories (layout : PinnedExfatLayout) (order : list ObjectId) : bool :=
  bool_decide (length (pl_directories layout) = length order)
  && bool_decide ((pl_directories layout).*1 = order).

Definition place_all (graph : ObjectGraph) (metadata : list ExfatObjectMetadata)
    (profile : ExfatVolumeProfile) (options : ExfatSerializeOptions) (limits : ExfatSerializeLimits)
    (payload_mode : PayloadPlacementMode) (pinned : option PinnedExfatLayout) : result Placed :=
  validate_serialize_limits limits ;;
  validate_volume_profile profile ;;
  geometry ← choose_geometry (eg_volume_bytes (og_extents graph)) options (sl_max_clusters limits);
  upcase ← map_err (fun _ => InvalidUpcaseTable)
    (UpcaseTable_parse (vp_encoded_upcase_table profile) (vp_upcase_checksum profile) COMPLETE_TABLE);
  layouts ← build_object_layouts graph metadata geometry upcase limits payload_mode;
  cluster_count ← ok_or (SerializeOverflow "cluster bitmap size")
    (usize_try_from (dg_cluster_count geometry));
  let occupied := replicate (N.to_nat cluster_count) false in
  bad_clusters ← dest_exfat_bad_clusters geometry (vp_bad_cluster_ranges profile);
  occupied ← try_fold (occupy_bad geometry) occupied bad_clusters;
  scrubs ← plan_stale_boot_sector_scrubs geometry (vp_stale_boot_sectors profile) occupied;
  occupied ← try_fold occupy_scrub occupied scrubs;
  state ← map_payloads graph geometry layouts occupied limits payload_mode;
  let bitmap_length := (dg_cluster_count geometry + 7) / 8 in
  bitmap_clusters ← clusters_for bitmap_length (dg_bytes_per_cluster geometry);
  upcase_length ← ok_or (SerializeOverflow "up-case length")
    (u64_try_from (len (vp_encoded_upcase_table profile)));
  upcase_clusters ← clusters_for upcase_length (dg_bytes_per_cluster geometry);
  '(bitmap, occupied) ← place (ps_occupied state) (pl_bitmap <$> pinned) bitmap_clusters;
  '(upcase_allocation, occupied) ← place occupied (pl_upcase <$> pinned) upcase_clusters;
  order ← directory_order graph (ps_layouts state);
  refuse_if (match pinned with
             | Some layout => negb (same_directories layout order)
             | None => false
             end) DestinationLayoutChanged ;;
  '(layouts, occupied) ← try_fold (place_directory graph geometry profile limits pinned)
    (ps_layouts state, occupied) (enumerate order);
  root_cluster ← ok_or (UnsupportedObject (og_root graph) "root directory allocation is empty")
    (layout ← layouts !! og_root graph; head (lo_directory_clusters layout));
  let geometry := with_root geometry root_cluster in
  refuse_if (match pinned with
             | Some layout => negb (bool_decide (pl_geometry layout = geometry))
             | None => false
             end) DestinationLayoutChanged ;;
  Ok (mkPlaced geometry upcase layouts occupied bad_clusters scrubs (ps_source state)
        (ps_reused state) bitmap upcase_allocation order).

(** The bytes of everything that is written, in the order of the source. *)
Definition all_writes (graph : ObjectGraph) (profile : ExfatVolumeProfile)
    (options : ExfatSerializeOptions) (placed : Placed) : result (list OverlayWrite) :=
  let geometry := pd_geometry placed in
  let layouts := pd_layouts placed in
  let bitmap := pd_bitmap placed in
  let upcase_allocation := pd_upcase placed in
  fat ← build_fat geometry (og_root graph) layouts bitmap upcase_allocation
    (pd_bad_clusters placed) (pd_order placed) (pd_reused placed);
  allocated ← destination_bits (dg_cluster_count geometry) layouts bitmap upcase_allocation
    (pd_bad_clusters placed) (pd_order placed) (pd_reused placed);
  bitmap_size ← padded_allocation_bytes bitmap (dg_bytes_per_cluster geometry);
  bitmap_bytes ← write_bitmap (replicate (N.to_nat bitmap_size) x00) allocated;
  percent_in_use ← percent_of allocated (len (pd_occupied placed));
  boot ← build_boot_regions geometry options percent_in_use;
  writes ← boot_writes geometry boot;
  fat_offset ← expect (checked_mul (dg_fat_offset_sectors geometry) (dg_bytes_per_sector geometry));
  bitmap_write ← allocation_write geometry bitmap bitmap_bytes;
  upcase_size ← padded_allocation_bytes upcase_allocation (dg_bytes_per_cluster geometry);
  upcase_padded ← copy_from_slice 0 (len (vp_encoded_upcase_table profile))
    (vp_encoded_upcase_table profile) (replicate (N.to_nat upcase_size) x00);
  upcase_write ← allocation_write geometry upcase_allocation upcase_padded;
  writes ← push_all (directory_write graph geometry profile (pd_upcase_table placed) layouts bitmap
      upcase_allocation ((dg_cluster_count geometry + 7) / 8))
    (writes ++ [mkOverlayWrite fat_offset fat; bitmap_write; upcase_write]) (pd_order placed);
  push_all scrub_write writes (pd_scrubs placed).

Definition serialize_exfat_destination_impl (graph : ObjectGraph)
    (metadata : list ExfatObjectMetadata) (profile : ExfatVolumeProfile)
    (options : ExfatSerializeOptions) (limits : ExfatSerializeLimits)
    (payload_mode : PayloadPlacementMode) (pinned : option PinnedExfatLayout)
    : result (ExfatSerializationPlan * PinnedExfatLayout) :=
  placed ← place_all graph metadata profile options limits payload_mode pinned;
  writes ← all_writes graph profile options placed;
  let geometry := pd_geometry placed in
  metadata_bytes ← metadata_size writes;
  refuse_if (default u64_max (u64_try_from (sl_max_metadata_bytes limits)) <? metadata_bytes)
    (LimitExceeded "metadata bytes" metadata_bytes (sl_max_metadata_bytes limits)) ;;
  reservations ← reservations_for geometry (pd_bitmap placed) (pd_upcase placed) (pd_order placed)
    (pd_layouts placed) (pd_bad_clusters placed) (pd_scrubs placed);
  overlay ← map_err SerializeOverlay
    (OverlayPlan_build (dg_volume_bytes geometry) (dg_bytes_per_sector geometry) writes (sl_overlay limits));
  directories ← push_all (fun object =>
    layout ← expect (pd_layouts placed !! object);
    allocation ← allocation_from_clusters (lo_directory_clusters layout);
    Ok (object, allocation)) [] (pd_order placed);
  Ok (mkExfatSerializationPlan geometry overlay reservations (pd_source placed) (pd_reused placed),
      mkPinnedExfatLayout geometry (pd_bitmap placed) (pd_upcase placed) directories).

Definition serialize_exfat_destination (graph : ObjectGraph) (metadata : list ExfatObjectMetadata)
    (profile : ExfatVolumeProfile) (options : ExfatSerializeOptions) (limits : ExfatSerializeLimits)
    : result ExfatSerializationPlan :=
  '(plan, _) ← serialize_exfat_destination_impl graph metadata profile options limits Final None;
  Ok plan.

(** ** Drafts *)
Definition draft_exfat_destination (graph : ObjectGraph) (metadata : list ExfatObjectMetadata)
    (profile : ExfatVolumeProfile) (options : ExfatSerializeOptions) (limits : ExfatSerializeLimits)
    : result ExfatDestinationDraft :=
  '(plan, pinned) ← serialize_exfat_destination_impl graph metadata profile options limits
    RelocationDraft None;
  let metadata_allocations :=
    [mkExfatPinnedMetadataAllocation PinnedAllocationBitmap (al_first_cluster (pl_bitmap pinned))
       (al_cluster_count (pl_bitmap pinned));
     mkExfatPinnedMetadataAllocation PinnedUpcaseTable (al_first_cluster (pl_upcase pinned))
       (al_cluster_count (pl_upcase pinned))] ++
    ((fun item : ObjectId * ExfatAllocationRun =>
        mkExfatPinnedMetadataAllocation (PinnedDirectory (fst item))
          (al_first_cluster (snd item)) (al_cluster_count (snd item))) <$> pl_directories pinned) in
  Ok (mkExfatDestinationDraft (sp_geometry plan) (sp_reservations plan) (sp_source_allocations plan)
        metadata_allocations graph metadata profile options limits (og_root graph) (og_objects graph)
        (og_entries graph)).

(** The streams of an object and of its relocated counterpart. *)
Definition stream_identity_holds (materialized : list StreamId) (source target : ObjectStream) : bool :=
  bool_decide (st_id source = st_id target) && bool_decide (st_name source = st_name target)
  && bool_decide (st_logical_bytes source = st_logical_bytes target)
  && bool_decide (st_initialized_bytes source = st_initialized_bytes target)
  && (if bool_decide (st_id source ∈ materialized) then
        Bool.eqb (sf_sparse (st_flags source)) (sf_sparse (st_flags target))
        && Bool.eqb (sf_encrypted (st_flags source)) (sf_encrypted (st_flags target))
        && negb (sf_compressed (st_flags target))
        && (sf_compression_block_bytes (st_flags target) =? 0)
        && is_extents (st_storage target)
        && (st_mapped_bytes target =? st_allocated_bytes target)
      else bool_decide (source = target)).
Definition object_identity_holds (materialized : list StreamId) (source target : ObjectRecord) : bool :=
  bool_decide (ob_id source = ob_id target) && bool_decide (ob_kind source = ob_kind target)
  && bool_decide (ob_link_count source = ob_link_count target)
  && bool_decide (ob_semantics source = ob_semantics target)
  && bool_decide (length (ob_streams source) = length (ob_streams target))
  && forallb (fun pair => stream_identity_holds materialized (fst pair) (snd pair))
       (zip (ob_streams source) (ob_streams target)).
Definition draft_graph_identity_holds (draft : ExfatDestinationDraft) (relocated : ObjectGraph)
    (layout : LayoutPlan) : bool :=
  bool_decide (og_root relocated = dd_root draft)
  && bool_decide (og_entries relocated = dd_entries draft)
  && bool_decide (eg_volume_bytes (og_extents relocated) = dg_volume_bytes (dd_geometry draft))
  && bool_decide (length (og_objects relocated) = length (dd_objects draft))
  && forallb (fun pair =>
       object_identity_holds (mz_stream <$> lp_materializations layout) (fst pair) (snd pair))
       (zip (dd_objects draft) (og_objects relocated)).

(** One item: the bitmap and the up-case table may occur once. *)
Definition pin_item
    (state : option ExfatAllocationRun * option ExfatAllocationRun * list (ObjectId * ExfatAllocationRun))
    (item : ExfatPinnedMetadataAllocation)
    : result (option ExfatAllocationRun * option ExfatAllocationRun * list (ObjectId * ExfatAllocationRun)) :=
  let '(bitmap, upcase, directories) := state in
  let allocation := mkAllocation (pm_first_cluster item) (pm_cluster_count item) in
  match pm_kind item with
  | PinnedAllocationBitmap =>
      refuse_if (bool_decide (is_Some bitmap)) DestinationLayoutChanged ;;
      Ok (Some allocation, upcase, directories)
  | PinnedUpcaseTable =>
      refuse_if (bool_decide (is_Some upcase)) DestinationLayoutChanged ;;
      Ok (bitmap, Some allocation, directories)
  | PinnedDirectory object => Ok (bitmap, upcase, directories ++ [(object, allocation)])
  end.
Definition pinned_from_draft (draft : ExfatDestinationDraft) : result PinnedExfatLayout :=
  '(bitmap, upcase, directories) ← try_fold pin_item (None, None, []) (dd_metadata_allocations draft);
  bitmap ← ok_or DestinationLayoutChanged bitmap;
  upcase ← ok_or DestinationLayoutChanged upcase;
  Ok (mkPinnedExfatLayout (dd_geometry draft) bitmap upcase directories).

Definition finalize_exfat_destination (draft : ExfatDestinationDraft)
    (relocation : SealedRelocationPlan) : result ExfatSerializationPlan :=
  refuse_if (negb (bool_decide (srp_source_graph relocation = dd_source_graph draft))) GraphSubstitution ;;
  let relocated_graph := srp_target_graph relocation in
  refuse_if (negb (draft_graph_identity_holds draft relocated_graph (srp_layout relocation)))
    GraphSubstitution ;;
  pinned ← pinned_from_draft draft;
  '(plan, found) ← serialize_exfat_destination_impl relocated_graph (dd_object_metadata draft)
    (dd_profile draft) (dd_options draft) (dd_limits draft) Final (Some pinned);
  refuse_if (negb (bool_decide (found = pinned))
             || negb (bool_decide (sp_geometry plan = dd_geometry draft))
             || negb (bool_decide (sp_reservations plan = dd_reservations draft)))
    DestinationLayoutChanged ;;
  Ok (mkExfatSerializationPlan (sp_geometry plan) (sp_overlay plan) (sp_reservations plan)
        (dd_source_allocations draft) (sp_reused_payloads plan)).

(** * Lemmas *)

(** ** Allocations *)

(** The slots of an allocation: its clusters are numbered from 2. *)
Definition allocation_slots (allocation : ExfatAllocationRun) : list N :=
  run_slots (al_first_cluster allocation - 2) (al_cluster_count allocation).

Lemma clusters_for_Ok bytes cluster_bytes n :
  clusters_for bytes cluster_bytes = Ok n ->
  1 <= n <= u32_max /\ bytes <= n * cluster_bytes.
Proof.
  unfold clusters_for. intros H. inv_ok.
  pose proof (N.Div0.div_mod bytes cluster_bytes).
  pose proof (N.mod_lt bytes cluster_bytes ltac:(done)).
  split; [lia |]. destruct (N.ltb_spec 0 (bytes mod cluster_bytes)); nia.
Qed.

Lemma reserve_pinned_Ok occ allocation occ' :
  reserve_pinned occ allocation = Ok occ' -> takes occ occ' (allocation_slots allocation).
Proof.
  unfold reserve_pinned, saturating_sub, allocation_slots. intros H. inv_ok.
  match goal with H : get_range _ _ _ = Some _ |- _ => rename H into Hget end.
  unfold get_range in Hget. destruct (_ && _) eqn:Hr in Hget; [|done]. injection Hget as <-. bool_props.
  set (first := al_first_cluster allocation - 2) in *. set (count := al_cluster_count allocation) in *.
  destruct (@fill_range_in ExfatSerializeError first (first + count) occ) as (after & Ha & Ht); [lia | lia |].
  assert (after = occ') as -> by congruence. replace (first + count - first) with count in Ht by lia.
  apply takes_run; [|done]. intros i Hi.
  destruct (lookup_lt_is_Some_2 occ (N.to_nat i)) as [used Hu]; [unfold len in *; lia |].
  destruct used; [|done]. exfalso.
  match goal with H : existsb id _ = false |- _ => rename H into Hex end.
  assert (existsb id (subslice first (first + count) occ) = true); [|congruence].
  apply existsb_exists. exists true. split; [|done]. apply list_elem_of_In, list_elem_of_lookup.
  exists (N.to_nat (i - first)). rewrite subslice_lookup by lia. rewrite <- Hu. f_equal. lia.
Qed.

Lemma place_Ok occ pinned n allocation occ' :
  0 < n <= u32_max -> len occ + 2 <= u32_max -> place occ pinned n = Ok (allocation, occ') ->
  al_cluster_count allocation = n /\ takes occ occ' (allocation_slots allocation).
Proof.
  intros Hn Ho. unfold place. destruct pinned as [run|].
  - intros H. inv_ok. bool_props. split; [done |]. by apply reserve_pinned_Ok.
  - intros H. pose proof (allocate_contiguous_spec occ n Hn Ho) as Hs. rewrite H in Hs.
    destruct Hs as (Hc & _ & _ & Hf & _ & Ht). split; [done |]. unfold allocation_slots. rewrite Hc.
    by apply takes_run.
Qed.

Lemma expand_allocation_Ok allocation clusters :
  expand_allocation allocation = Ok clusters ->
  clusters = run_slots (al_first_cluster allocation) (al_cluster_count allocation).
Proof.
  unfold expand_allocation, run_slots. generalize (indices (al_cluster_count allocation)) as l.
  intros l. assert (Hgen : forall acc, try_fold (fun clusters index =>
    cluster ← ok_or (SerializeOverflow "cluster chain") (checked_add_u32 (al_first_cluster allocation) index);
    Ok (clusters ++ [cluster])) acc l = Ok clusters ->
    clusters = acc ++ ((fun i => al_first_cluster allocation + i) <$> l)).
  { induction l as [|x l IH]; intros acc H; simpl in H.
    - inv_ok. by rewrite app_nil_r.
    - inv_ok. rewrite (IH _ H). by rewrite <- app_assoc. }
  intros H. by apply Hgen in H.
Qed.

Lemma run_slots_head first count : 0 < count -> head (run_slots first count) = Some first.
Proof.
  intros Hc. replace count with (1 + (count - 1)) by lia. unfold run_slots, indices.
  rewrite N2Nat.inj_add. simpl. by rewrite N.add_0_r.
Qed.
Lemma len_run_slots first count : len (run_slots first count) = count.
Proof. unfold len, run_slots, indices. rewrite !length_fmap, length_seq. lia. Qed.

Lemma allocation_from_run first count allocation :
  0 < count -> allocation_from_clusters (run_slots first count) = Ok allocation ->
  allocation = mkAllocation first count.
Proof.
  intros Hc. unfold allocation_from_clusters. rewrite run_slots_head, len_run_slots by done.
  intros H. inv_ok. by simplify_eq.
Qed.

(** ** Directories *)
Lemma place_directory_Ok graph geometry profile limits pinned layouts occ index object layouts' occ' :
  len occ + 2 <= u32_max ->
  place_directory graph geometry profile limits pinned (layouts, occ) (index, object) = Ok (layouts', occ') ->
  exists allocation bytes l, takes occ occ' (allocation_slots allocation) /\
    0 < al_cluster_count allocation /\ layouts !! object = Some l /\
    directory_length object (og_root graph) layouts (bool_decide (is_Some (vp_volume_label profile))) = Ok bytes /\
    bytes <= al_cluster_count allocation * dg_bytes_per_cluster geometry /\
    layouts' = <[object := with_directory
      (run_slots (al_first_cluster allocation) (al_cluster_count allocation)) bytes l]> layouts.
Proof.
  intros Ho H. unfold place_directory in H.
  apply bind_Ok in H as (bytes & Hb & H). apply then_Ok in H as [_ H].
  apply bind_Ok in H as (n & Hn & H). apply clusters_for_Ok in Hn as [Hn Hle].
  apply bind_Ok in H as (run & _ & H). apply bind_Ok in H as ([allocation o] & Hp & H).
  apply place_Ok in Hp as [Hc Ht]; [|lia | done].
  apply bind_Ok in H as (l & Hl & H). apply ok_or_Ok in Hl.
  apply bind_Ok in H as (clusters & He & H). apply expand_allocation_Ok in He as ->.
  injection H as <- <-. exists allocation, bytes, l. split_and!; try done; by rewrite Hc; try lia.
Qed.

(** The layout of a directory after it was placed. *)
Definition directory_placed (allocations : list ExfatAllocationRun) (l l' : ObjectLayout) : Prop :=
  exists allocation bytes, allocation ∈ allocations /\ 0 < al_cluster_count allocation /\
    l' = with_directory (run_slots (al_first_cluster allocation) (al_cluster_count allocation)) bytes l.

Lemma directory_placed_more l1 l2 a b :
  directory_placed l1 a b -> (forall x, x ∈ l1 -> x ∈ l2) -> directory_placed l2 a b.
Proof. intros (al & n & Hin & H) Hsub. exists al, n. split; [by apply Hsub | done]. Qed.
Lemma directory_placed_again l1 a b c :
  directory_placed l1 b c -> lo_kind b = lo_kind a -> lo_metadata b = lo_metadata a -> lo_name b = lo_name a ->
  lo_children b = lo_children a -> lo_stream b = lo_stream a -> directory_placed l1 a c.
Proof.
  intros (al & n & Hin & Hc & ->) E1 E2 E3 E4 E5. exists al, n. split_and!; [done | done |].
  unfold with_directory. by rewrite E1, E2, E3, E4, E5.
Qed.

Lemma place_directories_Ok graph geometry profile limits pinned order i layouts occ layouts' occ' :
  len occ + 2 <= u32_max ->
  try_fold (place_directory graph geometry profile limits pinned) (layouts, occ) (enumerate_from i order)
    = Ok (layouts', occ') ->
  exists allocations, takes occ occ' (concat (allocation_slots <$> allocations)) /\
    (forall o, o ∉ order -> layouts' !! o = layouts !! o) /\
    (forall o, o ∈ order -> exists l l', layouts !! o = Some l /\ layouts' !! o = Some l' /\
       directory_placed allocations l l').
Proof.
  revert i layouts occ. induction order as [|object order IH]; intros i layouts occ Ho H; simpl in H.
  - injection H as <- <-. exists []. split_and!; [apply takes_nil | done | by intros o ?%elem_of_nil].
  - apply bind_Ok in H as ([lay1 occ1] & H1 & H).
    apply place_directory_Ok in H1 as (al & bytes & l & Ht & Hc & Hl & _ & _ & ->); [|done].
    apply IH in H as (als & Ht' & Hout & Hin).
    2: { destruct Ht as [-> _]. done. }
    exists (al :: als). split_and!.
    + cbn [fmap list_fmap concat]. by eapply takes_app.
    + intros o [Hne Hno]%not_elem_of_cons. rewrite Hout, lookup_insert_ne by done. done.
    + intros o Hmem. destruct (decide (o ∈ order)) as [Hord|Hord].
      * destruct (Hin o Hord) as (l0 & l' & Ha & Hb & Hp).
        apply lookup_insert_Some in Ha as [[<- <-]|[Hne Ha]].
        -- exists l, l'. split_and!; [done | done |]. eapply directory_placed_more with (l1 := als).
           ++ by eapply directory_placed_again.
           ++ intros. by right.
        -- exists l0, l'. split_and!; [done | done |]. eapply directory_placed_more; [done |].
           intros. by right.
      * apply elem_of_cons in Hmem as [->|?]; [|done]. exists l. eexists.
        rewrite Hout, lookup_insert_eq by done. split_and!; [done | done |].
        exists al, bytes. split_and!; [by left | done | done].
Qed.

(** ** Clusters that are set aside *)
Definition cluster_slots (clusters : list N) : list N := (fun c => c - 2) <$> clusters.

Lemma occupy_bad_Ok geometry occ cluster occ' :
  occupy_bad geometry occ cluster = Ok occ' -> takes occ occ' [cluster - 2].
Proof.
  unfold occupy_bad, saturating_sub. intros H. inv_ok.
  match goal with H : (if ?c then _ else _) = Ok ?t |- _ => rename H into Ht; destruct c eqn:Hc; [inv_ok; by inv_ok |] end.
  apply at_index_Ok in Ht. destruct a0; [by inv_ok |]. by eapply take_one.
Qed.

Lemma occupy_bads_Ok geometry clusters occ occ' :
  try_fold (occupy_bad geometry) occ clusters = Ok occ' -> takes occ occ' (cluster_slots clusters).
Proof.
  revert occ. induction clusters as [|c clusters IH]; intros occ H; simpl in H.
  - injection H as <-. apply takes_nil.
  - apply bind_Ok in H as (o & H1 & H). apply occupy_bad_Ok in H1.
    apply (takes_app _ o _ [c - 2] _ H1). by apply IH.
Qed.

Definition scrub_clusters (scrubs : list StaleBootSectorScrub) : list N := omap sb_heap_cluster scrubs.

Lemma occupy_scrubs_Ok scrubs occ occ' :
  StronglySorted scrubs_apart scrubs ->
  Forall (fun s => forall c, sb_heap_cluster s = Some c -> 2 <= c /\ occ !! N.to_nat (c - 2) = Some false) scrubs ->
  try_fold occupy_scrub occ scrubs = Ok occ' -> takes occ occ' (cluster_slots (scrub_clusters scrubs)).
Proof.
  revert occ. induction scrubs as [|s scrubs IH]; intros occ Hs Hf H; simpl in H.
  - injection H as <-. apply takes_nil.
  - apply bind_Ok in H as (o & H1 & H). apply StronglySorted_inv in Hs as [Hs Hh].
    apply Forall_cons in Hf as [Hfs Hf]. unfold occupy_scrub in H1. unfold scrub_clusters. cbn [omap list_omap].
    destruct (sb_heap_cluster s) as [c|] eqn:Hc.
    + destruct (Hfs c eq_refl) as [Hc2 Hfree]. unfold saturating_sub in H1. inv_ok.
      pose proof (take_one _ _ _ Hfree H1) as Ht. cbn [cluster_slots fmap list_fmap].
      apply (takes_app _ o _ [c - 2] _ Ht). apply IH; [done | | done].
      apply Forall_forall. intros s' Hin c' Hc'. rewrite Forall_forall in Hf, Hh.
      destruct (Hf s' Hin c' Hc') as [Hc2' Hfree']. split; [done |].
      destruct Ht as (_ & _ & _ & ->). rewrite decide_False; [done |].
      intros He%list_elem_of_singleton. destruct (Hh s' Hin) as [_ Hne]. apply (Hne c Hc).
      rewrite Hc'. f_equal. lia.
    + injection H1 as <-. by apply IH.
Qed.

(** ** What the first half of a final serialization decides *)
Definition heap_of (geometry : ExfatDestinationGeometry) : HeapView :=
  mkHeapView (heap_offset geometry) (dg_bytes_per_cluster geometry) (dg_cluster_count geometry).

Lemma heap_view_fits geometry : geometry_fits geometry -> heap_view geometry = Ok (heap_of geometry).
Proof. intros Hg. unfold heap_view. by rewrite (proj1 (heap_products _ Hg)). Qed.
Lemma fits_root geometry root : geometry_fits (with_root geometry root) -> geometry_fits geometry.
Proof. intros []. by split. Qed.
Lemma in_slot_cluster geometry s p : in_slot (heap_of geometry) s p <-> in_cluster geometry (s + 2) p.
Proof. unfold in_slot, in_cluster. cbn [heap_of hv_heap hv_cluster_bytes]. by rewrite N.add_sub. Qed.

(** The slots that the payload and the directories of the source occupy. *)
Definition source_slots (graph : ObjectGraph) (heap : HeapView) (reused : list ReusedPayload) : list N :=
  slots_of heap (staged_extents graph)
    ++ concat ((fun r => file_slots heap graph (rp_stream r)) <$> reused).

Record placed_ok (graph : ObjectGraph) (layouts : Layouts) (allocations : list ExfatAllocationRun)
    (placed : Placed) : Prop := {
  po_fits : geometry_fits (pd_geometry placed);
  po_reused : Forall (payload_placed (heap_of (pd_geometry placed)) graph) (pd_reused placed);
  po_staged : Forall (on_heap (heap_of (pd_geometry placed))) (staged_extents graph);
  po_source : pd_source placed ≡ₚ (allocation_of false <$> staged_extents graph)
    ++ concat ((fun r => allocation_of false <$> file_extents graph (rp_stream r)) <$> pd_reused placed);
  po_bad : Forall (heap_cluster (pd_geometry placed)) (pd_bad_clusters placed);
  po_scrubs : exists occ, Forall (scrub_ok (pd_geometry placed) occ) (pd_scrubs placed);
  po_slots : takes (replicate (N.to_nat (dg_cluster_count (pd_geometry placed))) false) (pd_occupied placed)
    (cluster_slots (pd_bad_clusters placed) ++ cluster_slots (scrub_clusters (pd_scrubs placed))
     ++ source_slots graph (heap_of (pd_geometry placed)) (pd_reused placed)
     ++ allocation_slots (pd_bitmap placed) ++ allocation_slots (pd_upcase placed)
     ++ concat (allocation_slots <$> allocations));
  po_metadata : 0 < al_cluster_count (pd_bitmap placed) /\ 0 < al_cluster_count (pd_upcase placed);
  po_files : forall k l, layouts !! k = Some l -> exists l1 l2,
    file_mapped graph (pd_reused placed) l l1 /\ pd_layouts placed !! k = Some l2 /\
    if decide (k ∈ pd_order placed) then directory_placed allocations l1 l2 else l2 = l1;
  po_directories : forall o, o ∈ pd_order placed -> exists l l', pd_layouts placed !! o = Some l' /\
    directory_placed allocations l l';
  po_root : exists l, pd_layouts placed !! og_root graph = Some l /\
    head (lo_directory_clusters l) = Some (dg_root_directory_cluster (pd_geometry placed))
}.

Lemma with_root_fits geometry root : geometry_fits geometry -> geometry_fits (with_root geometry root).
Proof. intros []. by split. Qed.

(** The round of the directories: it starts from layouts with the payload mapped,
    whose keys are those of [layouts]. *)
Definition directory_phase (graph : ObjectGraph) (geometry : ExfatDestinationGeometry)
    (profile : ExfatVolumeProfile) (limits : ExfatSerializeLimits) (pinned : option PinnedExfatLayout)
    (layouts : Layouts) (placed : Placed) : Prop :=
  exists mapped occ, len occ + 2 <= u32_max /\
    (forall k, is_Some (layouts !! k) <-> is_Some (mapped !! k)) /\
    (forall k l, layouts !! k = Some l ->
       exists l', mapped !! k = Some l' /\ file_mapped graph (pd_reused placed) l l') /\
    directory_order graph mapped = Ok (pd_order placed) /\
    try_fold (place_directory graph geometry profile limits pinned) (mapped, occ)
      (enumerate (pd_order placed)) = Ok (pd_layouts placed, pd_occupied placed).

Lemma place_all_Ok graph metadata profile options limits pinned placed :
  eg_volume_bytes (og_extents graph) <= u64_max ->
  place_all graph metadata profile options limits Final pinned = Ok placed ->
  exists geometry layouts allocations,
    choose_geometry (eg_volume_bytes (og_extents graph)) options (sl_max_clusters limits) = Ok geometry /\
    UpcaseTable_parse (vp_encoded_upcase_table profile) (vp_upcase_checksum profile) COMPLETE_TABLE
      = Ok (pd_upcase_table placed) /\
    pd_geometry placed = with_root geometry (dg_root_directory_cluster (pd_geometry placed)) /\
    build_object_layouts graph metadata geometry (pd_upcase_table placed) limits Final = Ok layouts /\
    placed_ok graph layouts allocations placed /\
    validate_volume_profile profile = Ok tt /\
    directory_phase graph geometry profile limits pinned layouts placed.
Proof.
  intros Hvol H. unfold place_all in H.
  apply then_Ok in H as [_ H]. apply then_Ok in H as [Hprofile H].
  apply bind_Ok in H as (geometry & Hgeo & H).
  assert (Hfit : geometry_fits geometry)
    by (eapply fits_root, (chosen_geometry_fits _ _ _ _ 0 Hvol Hgeo)).
  apply bind_Ok in H as (upcase & Hup & H). apply map_err_Ok in Hup.
  apply bind_Ok in H as (layouts & Hlay & H).
  apply bind_Ok in H as (n & Hn & H). apply ok_or_Ok, usize_try_from_Some in Hn as [-> _].
  apply bind_Ok in H as (bad & Hbad & H). apply bind_Ok in H as (o1 & Ho1 & H).
  apply bind_Ok in H as (scrubs & Hscrubs & H). apply bind_Ok in H as (o2 & Ho2 & H).
  apply bind_Ok in H as (st & Hmap & H). apply bind_Ok in H as (nb & Hnb & H).
  apply bind_Ok in H as (ul & Hul & H). apply bind_Ok in H as (nu & Hnu & H).
  apply bind_Ok in H as ([bitmap o3] & Hbm & H). apply bind_Ok in H as ([ua o4] & Hua & H).
  apply bind_Ok in H as (order & Horder & H). apply then_Ok in H as [_ H].
  apply bind_Ok in H as ([lay o5] & Hdirs & H). apply bind_Ok in H as (root & Hroot & H).
  apply then_Ok in H as [_ H]. injection H as <-.
  pose proof Hfit as [_ HK _ _ _ _ Hcount _].
  set (o0 := replicate (N.to_nat (dg_cluster_count geometry)) false) in *.
  assert (L0 : len o0 = dg_cluster_count geometry) by (unfold o0; rewrite len_replicate; lia).
  apply (dest_bad_clusters_Ok geometry Hfit) in Hbad as (Hbads & _).
  apply occupy_bads_Ok in Ho1 as T1. pose proof (proj1 T1) as L1.
  pose proof (plan_scrubs_yields geometry Hfit o1 ltac:(congruence) (vp_stale_boot_sectors profile)) as Hy.
  rewrite Hscrubs in Hy. destruct Hy as [Hsok Hsap _].
  apply occupy_scrubs_Ok in Ho2 as T2; [|done |].
  2: { eapply Forall_impl; [exact Hsok |]. intros s [_ _ _ _ _ _ Hs] c Hc. rewrite Hc in Hs.
       destruct Hs as ([? _] & ? & _). done. }
  pose proof (proj1 T2) as L2.
  apply (map_payloads_Ok (heap_of geometry)) in Hmap
    as (Hreused & Hstaged & T3 & Hsrc & Hkeys & Hfiles); [|done | by apply heap_view_fits |].
  2: { eapply unplaced_fresh, build_object_layouts_unplaced, Hlay. }
  pose proof (proj1 T3) as L3.
  apply clusters_for_Ok in Hnb as [Hnb _], Hnu as [Hnu _].
  apply place_Ok in Hbm as [Cb T4]; [|lia | congruence || (rewrite L3, L2, L1, L0; lia)].
  pose proof (proj1 T4) as L4.
  apply place_Ok in Hua as [Cu T5]; [|lia | rewrite L4, L3, L2, L1, L0; lia].
  pose proof (proj1 T5) as L5.
  assert (L : len o4 + 2 <= u32_max) by (rewrite L5, L4, L3, L2, L1, L0; lia).
  pose proof Hdirs as Hphase. apply place_directories_Ok in Hdirs as (als & T6 & Hout & Hin); [|done].
  exists geometry, layouts, als. split_and!; try done.
  2: { exists (ps_layouts st), o4. done. }
  split; cbn [pd_geometry pd_upcase_table pd_layouts pd_occupied pd_bad_clusters pd_scrubs pd_source
    pd_reused pd_bitmap pd_upcase pd_order].
  - by apply with_root_fits.
  - exact Hreused.
  - exact Hstaged.
  - exact Hsrc.
  - exact Hbads.
  - exists o1. eapply Forall_impl; [exact Hsok |]. intros s []. by split.
  - eapply takes_app; [exact T1 |]. eapply takes_app; [exact T2 |]. eapply takes_app; [exact T3 |].
    eapply takes_app; [exact T4 |]. eapply takes_app; [exact T5 | exact T6].
  - lia.
  - intros k l Hl. destruct (Hfiles k l Hl) as (l1 & Hl1 & Hm).
    destruct (decide (k ∈ order)) as [Hk|Hk].
    + destruct (Hin k Hk) as (a & l2 & Ha & Hl2 & Hp). assert (a = l1) as -> by congruence.
      exists l1, l2. done.
    + exists l1, l1. rewrite Hout by done. done.
  - intros o Hok. destruct (Hin o Hok) as (a & b & _ & Hb & Hp). by exists a, b.
  - apply ok_or_Ok in Hroot. destruct (lay !! og_root graph) as [l|] eqn:Hl; [|done]. by exists l.
Qed.

(** ** Sizes of what is written *)
Lemma put_le_len {E} n b offset v b' : @put_le E n b offset v = Ok b' -> len b' = len b.
Proof. intros H. apply put_updated in H as ([Hl _] & _). done. Qed.
Lemma copy_len {E} lo hi src dst b' : @copy_from_slice E byte lo hi src dst = Ok b' -> len b' = len dst.
Proof. intros H. apply copy_updated in H as (_ & _ & _ & [Hl _] & _). done. Qed.
Lemma fold_len {E A} (f : list byte -> A -> outcome E (list byte)) l b b' :
  (forall b x b', f b x = Ok b' -> len b' = len b) -> try_fold f b l = Ok b' -> len b' = len b.
Proof.
  intros Hf H. refine (try_fold_invariant (fun s => len s = len b) f b l b' eq_refl _ H).
  intros s x s' _ Hs Hx. rewrite <- Hs. by eapply Hf.
Qed.

(** Follows a chain of writes that all succeeded. *)
Ltac sizes :=
  repeat match goal with
  | H : put_le _ _ _ _ = Ok _ |- _ => apply put_le_len in H
  | H : copy_from_slice _ _ _ _ = Ok _ |- _ => apply copy_len in H
  end; try congruence.

Lemma boot_regions_size geometry options percent boot :
  build_boot_regions geometry options percent = Ok boot ->
  len boot = 2 * (12 * dg_bytes_per_sector geometry).
Proof.
  unfold build_boot_regions, boot_fields, extended_signatures, checksum_sector. intros H. inv_ok.
  rewrite len_app.
  repeat match goal with
  | H : try_fold _ _ _ = Ok _ |- _ =>
      apply fold_len in H; [|intros ??? Hx; inv_ok; by apply put_le_len in Hx]
  end.
  sizes. assert (Hz : forall n, len (replicate (N.to_nat n) x00) = n) by (intros; rewrite len_replicate; lia).
  rewrite Hz in *. lia.
Qed.

Lemma write_chain_size fat clusters fat' : write_chain fat clusters = Ok fat' -> len fat' = len fat.
Proof.
  unfold write_chain. intros H. apply fold_len in H; [done |]. intros b [i c] b' Hx.
  unfold write_link in Hx. inv_ok. sizes.
Qed.
Lemma build_fat_size geometry root layouts bitmap upcase bad order reused fat :
  build_fat geometry root layouts bitmap upcase bad order reused = Ok fat ->
  len fat = dg_fat_length_sectors geometry * dg_bytes_per_sector geometry.
Proof.
  unfold build_fat, fat_byte_length. intros H. inv_ok.
  apply fold_len in H.
  2: { intros b x b' Hx. destruct (rp_no_fat_chain x); [by inv_ok | by eapply write_chain_size]. }
  match goal with H : try_fold _ _ order = Ok _ |- _ => apply fold_len in H end.
  2: { intros b x b' Hx. destruct (x =? root); [|by inv_ok]. inv_ok. by eapply write_chain_size. }
  match goal with H : try_fold _ _ bad = Ok _ |- _ => apply fold_len in H end.
  2: { intros b x b' Hx. unfold write_fat_entry in Hx. inv_ok. sizes. }
  repeat match goal with H : write_chain _ _ = Ok _ |- _ => apply write_chain_size in H end.
  sizes. assert (Hz : forall n, len (replicate (N.to_nat n) x00) = n) by (intros; rewrite len_replicate; lia).
  rewrite Hz in *. lia.
Qed.
Lemma write_bitmap_size bytes allocated bytes' :
  write_bitmap bytes allocated = Ok bytes' -> len bytes' = len bytes.
Proof.
  unfold write_bitmap. intros H. apply fold_len in H; [done |]. intros b [i c] b' Hx.
  destruct c; inv_ok; [sizes | done].
Qed.

Lemma write_child_size layouts upcase cluster_bytes bytes cursor child bytes' cursor' :
  write_child layouts upcase cluster_bytes (bytes, cursor) child = Ok (bytes', cursor') ->
  len bytes' = len bytes.
Proof. unfold write_child. intros H. inv_ok. sizes. Qed.
Lemma write_tables_size bytes cursor bitmap upcase n table sum bytes' cursor' :
  write_tables bytes cursor bitmap upcase n table sum = Ok (bytes', cursor') -> len bytes' = len bytes.
Proof. unfold write_tables. intros H. inv_ok. sizes. Qed.
Lemma write_label_size bytes cursor label bytes' cursor' :
  write_label bytes cursor label = Ok (bytes', cursor') -> len bytes' = len bytes.
Proof.
  unfold write_label. intros H. inv_ok.
  match goal with H : try_fold _ _ _ = Ok _ |- _ => apply fold_len in H end; [sizes |].
  intros b [i c] b' Hx. sizes.
Qed.
Lemma build_directory_size object root layouts bitmap upcase n label table sum up cluster_bytes bytes l :
  layouts !! object = Some l ->
  build_directory object root layouts bitmap upcase n label table sum up cluster_bytes = Ok bytes ->
  exists allocation, allocation_from_clusters (lo_directory_clusters l) = Ok allocation /\
    len bytes = al_cluster_count allocation * cluster_bytes.
Proof.
  intros Hl. unfold build_directory. rewrite Hl. cbn [expect mbind outcome_bind]. intros H.
  apply bind_Ok in H as (al & Hal & H). apply bind_Ok in H as (size & Hsize & H).
  apply bind_Ok in H as ([b0 c0] & Hok & H). apply bind_Ok in H as ([b1 c1] & Hok0 & H).
  injection H as <-. unfold padded_allocation_bytes in Hsize. inv_ok. exists al. split; [done |].
  set (zeros := replicate _ x00) in *.
  assert (Hz : len zeros = al_cluster_count al * cluster_bytes)
    by (unfold zeros; rewrite len_replicate; lia).
  rewrite <- Hz. transitivity (len b0).
  - apply (try_fold_invariant (fun s : list byte * N => len (fst s) = len b0)) in Hok0; [done | done |].
    intros [b c] x [b' c'] _ Hs Hx. cbn [fst] in *. rewrite <- Hs. by eapply write_child_size.
  - destruct (object =? root); [|by inv_ok]. unfold write_root_entries in Hok. destruct label as [lab|].
    + apply bind_Ok in Hok as ([b2 c2] & H1 & H2). apply write_label_size in H1.
      apply write_tables_size in H2. congruence.
    + by apply write_tables_size in Hok.
Qed.

(** ** Where the writes go *)
Lemma push_all_Ok {A B} (f : A -> result B) l acc out :
  push_all f acc l = Ok out -> exists ys, out = acc ++ ys /\ Forall2 (fun x y => f x = Ok y) l ys.
Proof.
  unfold push_all. revert acc. induction l as [|x l IH]; intros acc H; simpl in H.
  - injection H as <-. exists []. by rewrite app_nil_r.
  - inv_ok. apply IH in H as (ys & -> & Hys). eexists (_ :: ys). rewrite <- app_assoc. split; [done |].
    by constructor.
Qed.

Lemma Forall2_from_right {A B} (R : A -> B -> Prop) l k y :
  Forall2 R l k -> y ∈ k -> exists x, R x y /\ x ∈ l.
Proof.
  intros HR (i & Hi)%list_elem_of_lookup. destruct (Forall2_lookup_r _ _ _ _ _ HR Hi) as (x & Hx & Hxy).
  exists x. split; [done |]. by apply list_elem_of_lookup_2 in Hx.
Qed.

(** The byte ranges of the regions in front of the heap, of allocations and of
    scrubs. *)
Inductive located (geometry : ExfatDestinationGeometry) (allocations : list ExfatAllocationRun)
    (scrubs : list StaleBootSectorScrub) (w : OverlayWrite) : Prop :=
| LocatedInFront (H : ow_offset w + ow_length w <= heap_offset geometry)
| LocatedAllocation (allocation : ExfatAllocationRun) (Hin : allocation ∈ allocations)
    (Hfirst : 2 <= al_first_cluster allocation)
    (Hoff : ow_offset w
            = heap_offset geometry + (al_first_cluster allocation - 2) * dg_bytes_per_cluster geometry)
    (Hlen : ow_length w = al_cluster_count allocation * dg_bytes_per_cluster geometry)
| LocatedScrub (scrub : StaleBootSectorScrub) (Hin : scrub ∈ scrubs)
    (Hoff : ow_offset w = br_offset (sb_range scrub)) (Hlen : ow_length w = br_length (sb_range scrub)).

Lemma cluster_offset_Ok geometry cluster offset :
  cluster_offset geometry cluster = Ok offset ->
  2 <= cluster /\ offset = heap_offset geometry + (cluster - 2) * dg_bytes_per_cluster geometry.
Proof.
  unfold cluster_offset, heap_offset. intros H. apply ok_or_Ok in H.
  destruct (checked_mul (dg_cluster_heap_offset_sectors geometry) _) as [h|] eqn:E1; [|done].
  destruct (checked_sub cluster 2) as [i|] eqn:E2; [|done]. cbn [mbind option_bind] in H.
  destruct (checked_mul i _) as [r|] eqn:E3; [|done]. cbn [mbind option_bind] in H.
  apply checked_mul_Some in E1 as [-> _], E3 as [-> _]. apply checked_sub_Some in E2 as [-> ?].
  by apply checked_add_Some in H as [-> _].
Qed.

Lemma allocation_write_located geometry allocations scrubs allocation bytes w :
  allocation ∈ allocations -> allocation_write geometry allocation bytes = Ok w ->
  len bytes = al_cluster_count allocation * dg_bytes_per_cluster geometry ->
  located geometry allocations scrubs w.
Proof.
  unfold allocation_write. intros Hin H Hl. apply bind_Ok in H as (offset & Ho & H). injection H as <-.
  apply cluster_offset_Ok in Ho as [H2 ->]. by eapply LocatedAllocation.
Qed.

Lemma padded_bytes_Ok allocation cluster_bytes size :
  padded_allocation_bytes allocation cluster_bytes = Ok size ->
  size = al_cluster_count allocation * cluster_bytes.
Proof. unfold padded_allocation_bytes. intros H. by inv_ok. Qed.
Lemma boot_writes_Ok geometry boot writes :
  boot_writes geometry boot = Ok writes -> len boot = 2 * (12 * dg_bytes_per_sector geometry) ->
  exists primary backup, writes =
    [mkOverlayWrite 0 primary; mkOverlayWrite (12 * dg_bytes_per_sector geometry) backup] /\
    len primary = 12 * dg_bytes_per_sector geometry /\ len backup = 12 * dg_bytes_per_sector geometry.
Proof.
  unfold boot_writes. intros H Hl. inv_ok. inv_reads. eexists _, _. split; [reflexivity |].
  rewrite !len_subslice by lia. lia.
Qed.

Lemma all_writes_located graph profile options layouts allocations placed writes :
  placed_ok graph layouts allocations placed ->
  all_writes graph profile options placed = Ok writes ->
  Forall (located (pd_geometry placed) (pd_bitmap placed :: pd_upcase placed :: allocations)
            (pd_scrubs placed)) writes.
Proof.
  intros Hok H. destruct Hok as [Hfit _ _ _ _ _ _ _ _ Hdirs _].
  pose proof Hfit as [Hs HK Hboot Hfat _ _ _ _]. unfold all_writes in H.
  set (g := pd_geometry placed) in *. assert (Hz : forall n, len (replicate (N.to_nat n) x00) = n)
    by (intros; rewrite len_replicate; lia).
  apply bind_Ok in H as (fat & Hf & H). apply build_fat_size in Hf.
  apply bind_Ok in H as (bits & _ & H). apply bind_Ok in H as (bsize & Hbs & H).
  apply bind_Ok in H as (bbytes & Hbb & H). apply write_bitmap_size in Hbb. rewrite Hz in Hbb.
  apply padded_bytes_Ok in Hbs as ->. apply bind_Ok in H as (percent & _ & H).
  apply bind_Ok in H as (boot & Hbo & H). apply boot_regions_size in Hbo.
  apply bind_Ok in H as (bw & Hbw & H). apply bind_Ok in H as (fo & Hfo & H).
  apply expect_Ok, checked_mul_Some in Hfo as [-> _].
  apply bind_Ok in H as (wb & Hwb & H). apply bind_Ok in H as (us & Hus & H).
  apply padded_bytes_Ok in Hus as ->. apply bind_Ok in H as (ub & Hub & H).
  apply copy_len in Hub. rewrite Hz in Hub.
  apply bind_Ok in H as (wu & Hwu & H). apply bind_Ok in H as (w1 & Hdw & H).
  apply push_all_Ok in Hdw as (dws & -> & Hdw), H as (sws & -> & Hsw).
  eapply allocation_write_located in Hwb; [|by left | congruence].
  eapply allocation_write_located in Hwu; [|by right; left | congruence].
  rewrite !Forall_app, !Forall_cons. split_and!; try done; try apply Forall_nil; try done.
  - apply boot_writes_Ok in Hbw as (primary & backup & -> & Hp & Hb); [|exact Hbo]. fold g in Hp, Hb.
    repeat apply Forall_cons_2; [| |constructor]; apply LocatedInFront; unfold ow_length;
      cbn [ow_offset ow_bytes]; fold g; rewrite ?Hp, ?Hb; lia.
  - apply LocatedInFront. unfold ow_length. cbn [ow_offset ow_bytes]. fold g. rewrite Hf. fold g. lia.
  - apply Forall_forall. intros w Hw. apply (Forall2_from_right _ _ _ _ Hdw) in Hw as (o & Hw & Ho).
    destruct (Hdirs o Ho) as (l & l' & Hl' & al & bytes & Hin & Hc & ->).
    unfold directory_write in Hw. apply bind_Ok in Hw as (db & Hdb & Hw).
    eapply build_directory_size in Hdb as (al' & Hal & Hlen); [|exact Hl'].
    rewrite Hl' in Hw. cbn [expect mbind outcome_bind] in Hw. rewrite Hal in Hw. cbn [mbind outcome_bind] in Hw.
    cbn [lo_directory_clusters with_directory] in Hal. apply allocation_from_run in Hal; [|done].
    assert (al' = al) as -> by (by rewrite Hal; destruct al).
    eapply allocation_write_located; [|exact Hw | exact Hlen]. by right; right.
  - apply Forall_forall. intros w Hw. apply (Forall2_from_right _ _ _ _ Hsw) in Hw as (s & Hw & Hin).
    unfold scrub_write in Hw. inv_ok. eapply LocatedScrub; [exact Hin | done |].
    unfold ow_length. cbn [ow_bytes]. by rewrite Hz.
Qed.

(** ** Nothing touches the payload *)
Lemma slot_unique heap a b p :
  0 < hv_cluster_bytes heap -> in_slot heap a p -> in_slot heap b p -> a = b.
Proof. unfold in_slot, in_range. intros. nia. Qed.

Lemma allocation_bytes geometry allocation p :
  0 < dg_bytes_per_cluster geometry -> 
  in_range (heap_offset geometry + (al_first_cluster allocation - 2) * dg_bytes_per_cluster geometry)
    (al_cluster_count allocation * dg_bytes_per_cluster geometry) p ->
  exists s, s ∈ allocation_slots allocation /\ in_slot (heap_of geometry) s p.
Proof.
  intros HK [H1 H2]. unfold allocation_slots. set (f := al_first_cluster allocation - 2) in *.
  set (K := dg_bytes_per_cluster geometry) in *.
  destruct (euclid (p - heap_offset geometry) K ltac:(lia)) as (q & r & _ & _ & Hd & Hr).
  exists q. rewrite elem_of_run_slots. unfold in_slot, in_range. cbn [heap_of hv_heap hv_cluster_bytes]. fold K.
  assert (f <= q) by nia. assert (q < f + al_cluster_count allocation) by nia. nia.
Qed.

Lemma source_untouched graph layouts allocations placed w s p :
  placed_ok graph layouts allocations placed ->
  located (pd_geometry placed) (pd_bitmap placed :: pd_upcase placed :: allocations) (pd_scrubs placed) w ->
  s ∈ source_slots graph (heap_of (pd_geometry placed)) (pd_reused placed) ->
  in_slot (heap_of (pd_geometry placed)) s p -> ~ in_range (ow_offset w) (ow_length w) p.
Proof.
  intros Hok Hw Hs Hp Hwp. destruct Hok as [Hfit _ _ _ _ [occ Hscrubs] Ht _ _ _ _].
  pose proof Hfit as [_ HK _ _ _ _ _ _]. set (g := pd_geometry placed) in *.
  assert (Hcount : s < dg_cluster_count g).
  { eapply takes_in_heap in Ht; [|apply elem_of_app; right; apply elem_of_app; right; apply elem_of_app; left; exact Hs].
    rewrite len_replicate in Ht. lia. }
  destruct Ht as (_ & Hnd & _). apply NoDup_app in Hnd as (_ & _ & Hnd).
  apply NoDup_app in Hnd as (_ & Hsc & Hnd). apply NoDup_app in Hnd as (_ & Hal & _).
  destruct Hw as [Hf | al Hin Hfirst Hoff Hlen | sc Hin Hoff Hlen].
  - unfold in_slot, in_range in *. cbn [heap_of hv_heap hv_cluster_bytes] in Hp. fold g in Hf. lia.
  - rewrite Hoff, Hlen in Hwp. apply allocation_bytes in Hwp as (x & Hx & Hxp); [|exact HK].
    assert (x = s) as -> by exact (slot_unique (heap_of g) _ _ _ HK Hxp Hp).
    apply (Hal s Hs). rewrite !elem_of_cons in Hin. rewrite !elem_of_app.
    destruct Hin as [->|[->|Hin]]; [by left | by right; left | right; right].
    apply list_elem_of_In, in_concat. exists (allocation_slots al). rewrite <- !list_elem_of_In.
    split; [|done]. by apply list_elem_of_fmap_2.
  - rewrite Hoff, Hlen in Hwp. rewrite Forall_forall in Hscrubs.
    destruct (Hscrubs sc Hin) as [_ _ _ _ _ _ Hh]. destruct (sb_heap_cluster sc) as [c|] eqn:Hc.
    + destruct Hh as ([Hc2 _] & _ & Hcl). specialize (Hcl p Hwp).
      replace c with (c - 2 + 2) in Hcl by lia. apply in_slot_cluster in Hcl.
      assert (c - 2 = s) as <- by exact (slot_unique (heap_of g) _ _ _ HK Hcl Hp).
      apply (Hsc (c - 2)); [|set_solver]. unfold cluster_slots. apply list_elem_of_fmap. exists c. split; [done |].
      apply list_elem_of_omap. by exists sc.
    + unfold range_end, in_slot, in_range, regions_of in *. cbn [sr_heap_start sr_heap_end] in Hh.
      cbn [heap_of hv_heap hv_cluster_bytes] in Hp. fold g in Hh. nia.
Qed.

Lemma slots_of_elem heap extents e s :
  e ∈ extents -> s ∈ extent_slots heap e -> s ∈ slots_of heap extents.
Proof.
  intros He Hs. unfold slots_of. apply list_elem_of_In, in_concat. exists (extent_slots heap e).
  rewrite <- !list_elem_of_In. split; [by apply list_elem_of_fmap_2 | done].
Qed.

(** ** The bytes of clusters and of extents *)
Definition cluster_content (geometry : ExfatDestinationGeometry) (image : list byte) (cluster : N) : list byte :=
  let start := heap_offset geometry + (cluster - 2) * dg_bytes_per_cluster geometry in
  subslice start (start + dg_bytes_per_cluster geometry) image.
Definition extent_content (image : list byte) (extent : Extent) : list byte :=
  subslice (extent_start extent) (extent_start extent + ex_length extent) image.

Lemma run_content geometry image first count :
  concat ((fun s => cluster_content geometry image (s + 2)) <$> run_slots first count) =
  subslice (heap_offset geometry + first * dg_bytes_per_cluster geometry)
    (heap_offset geometry + (first + count) * dg_bytes_per_cluster geometry) image.
Proof.
  unfold run_slots. induction count as [|count IH] using N.peano_ind.
  - rewrite N.add_0_r. unfold subslice. by rewrite N.sub_diag.
  - rewrite <- N.add_1_r, indices_succ, !fmap_app, concat_app, IH. cbn [fmap list_fmap concat].
    rewrite app_nil_r. unfold cluster_content. rewrite N.add_sub.
    set (K := dg_bytes_per_cluster geometry). set (h := heap_offset geometry).
    replace (h + (first + count) * K + K) with (h + (first + (count + 1)) * K) by lia.
    apply subslice_split; nia.
Qed.

Lemma extents_content geometry image extents :
  0 < dg_bytes_per_cluster geometry -> Forall (on_heap (heap_of geometry)) extents ->
  concat ((fun s => cluster_content geometry image (s + 2)) <$> slots_of (heap_of geometry) extents) =
  concat (extent_content image <$> extents).
Proof.
  intros HK. unfold slots_of. induction 1 as [|e l [_ (first & count & He & Hl & _)] _ IH]; [done |].
  cbn [fmap list_fmap concat]. rewrite fmap_app, concat_app, IH. f_equal.
  unfold extent_slots, extent_content. rewrite He, Hl, whole_range_slots by done.
  cbn [heap_of hv_heap hv_cluster_bytes]. rewrite run_content. f_equal. lia.
Qed.

Lemma subslice_patch image writes lo hi :
  Forall (write_fits (len image)) writes ->
  (forall w p, w ∈ writes -> lo <= p < hi -> ~ in_range (ow_offset w) (ow_length w) p) ->
  subslice lo hi (patch image writes) = subslice lo hi image.
Proof.
  intros Hf Hout. apply list_eq. intros i. destruct (N.lt_ge_cases (N.of_nat i) (hi - lo)) as [Hi|Hi].
  - rewrite !subslice_lookup by done. apply patch_outside; [done |]. intros w Hw. apply Hout; [done | lia].
  - by rewrite !subslice_lookup_ge.
Qed.

(** A final serialization that succeeds. *)
Record serialized (graph : ObjectGraph) (metadata : list ExfatObjectMetadata)
    (profile : ExfatVolumeProfile) (options : ExfatSerializeOptions) (limits : ExfatSerializeLimits)
    (pinned : option PinnedExfatLayout) (plan : ExfatSerializationPlan) (layout : PinnedExfatLayout)
    (layouts : Layouts) (allocations : list ExfatAllocationRun)
    (placed : Placed) (writes : list OverlayWrite) : Prop := {
  se_placed : placed_ok graph layouts allocations placed;
  se_layouts : exists geometry,
    choose_geometry (eg_volume_bytes (og_extents graph)) options (sl_max_clusters limits) = Ok geometry /\
    pd_geometry placed = with_root geometry (dg_root_directory_cluster (pd_geometry placed)) /\
    build_object_layouts graph metadata geometry (pd_upcase_table placed) limits Final = Ok layouts /\
    directory_phase graph geometry profile limits pinned layouts placed;
  se_writes : all_writes graph profile options placed = Ok writes;
  se_fits : Forall (write_fits (eg_volume_bytes (og_extents graph))) writes;
  se_volume : dg_volume_bytes (pd_geometry placed) = eg_volume_bytes (og_extents graph);
  se_disjoint : writes_disjoint writes;
  se_geometry : sp_geometry plan = pd_geometry placed;
  se_source : sp_source_allocations plan = pd_source placed;
  se_reused : sp_reused_payloads plan = pd_reused placed;
  se_overlay : op_writes (sp_overlay plan) = sort_by_key ow_offset writes;
  se_profile : validate_volume_profile profile = Ok tt;
  se_upcase : UpcaseTable_parse (vp_encoded_upcase_table profile) (vp_upcase_checksum profile) COMPLETE_TABLE
    = Ok (pd_upcase_table placed);
  se_tables : pl_bitmap layout = pd_bitmap placed /\ pl_upcase layout = pd_upcase placed;
  se_directories : Forall2 (fun o item => exists l, pd_layouts placed !! o = Some l /\ fst item = o /\
      allocation_from_clusters (lo_directory_clusters l) = Ok (snd item))
    (pd_order placed) (pl_directories layout)
}.

Lemma serialize_impl_Ok graph metadata profile options limits pinned plan layout :
  eg_volume_bytes (og_extents graph) <= u64_max ->
  serialize_exfat_destination_impl graph metadata profile options limits Final pinned = Ok (plan, layout) ->
  exists layouts allocations placed writes,
    serialized graph metadata profile options limits pinned plan layout layouts allocations placed writes.
Proof.
  intros Hvol H. unfold serialize_exfat_destination_impl in H.
  apply bind_Ok in H as (placed & Hp & H). apply bind_Ok in H as (writes & Hw & H).
  apply place_all_Ok in Hp as (geometry & layouts & als & Hgeo & Hup & Hroot & Hlay & Hok & Hprofile & Hphase); [|done].
  apply bind_Ok in H as (mb & _ & H). apply then_Ok in H as [_ H].
  apply bind_Ok in H as (reservations & _ & H). apply bind_Ok in H as (overlay & Hov & H).
  apply map_err_Ok in Hov. apply bind_Ok in H as (dirs & Hdirs & H). injection H as <- <-.
  apply push_all_Ok in Hdirs as (items & -> & Hdirs).
  assert (Hv : dg_volume_bytes (pd_geometry placed) = eg_volume_bytes (og_extents graph)).
  { rewrite Hroot. apply choose_geometry_Ok in Hgeo as (_ & _ & h & c & f & _ & _ & _ & _ & ->). done. }
  apply overlay_build_iff in Hov as [(_ & _ & _ & _ & Hwr & _ & Hdis) ->]; [|by rewrite Hv].
  exists layouts, als, placed, writes. split; try done.
  - by exists geometry.
  - rewrite <- Hv. eapply Forall_impl; [exact Hwr |]. intros w. apply write_ok_fits.
  - cbn [pl_directories app]. eapply Forall2_impl; [exact Hdirs |]. intros o item Hitem.
    apply bind_Ok in Hitem as (l & Hl & Hitem). apply expect_Ok in Hl.
    apply bind_Ok in Hitem as (a & Ha & Hitem). injection Hitem as <-. by exists l.
Qed.

Section Serialized.
#[local] Set Default Proof Using "All".
Context (graph : ObjectGraph) (metadata : list ExfatObjectMetadata) (profile : ExfatVolumeProfile)
  (options : ExfatSerializeOptions) (limits : ExfatSerializeLimits) (pinned : option PinnedExfatLayout)
  (plan : ExfatSerializationPlan) (layout : PinnedExfatLayout)
  (layouts : Layouts) (allocations : list ExfatAllocationRun) (placed : Placed) (writes : list OverlayWrite)
  (Hs : serialized graph metadata profile options limits pinned plan layout layouts allocations placed writes)
  (image : list byte) (Himage : len image = eg_volume_bytes (og_extents graph)).

Let geometry := pd_geometry placed.
Let candidate := patch image (op_writes (sp_overlay plan)).

Lemma candidate_slot s lo hi :
  s ∈ source_slots graph (heap_of geometry) (pd_reused placed) ->
  (forall p, lo <= p < hi -> in_slot (heap_of geometry) s p) ->
  subslice lo hi candidate = subslice lo hi image.
Proof.
  intros Hsl Hin. destruct Hs as [Hok _ Hw Hf _ _ _ _ _ Ho _ _ _ _]. unfold candidate.
  pose proof (all_writes_located _ _ _ _ _ _ _ Hok Hw) as Hloc. rewrite Forall_forall in Hloc.
  apply subslice_patch.
  - rewrite Himage, Ho. by rewrite sort_by_key_perm.
  - intros w p Hwin Hp. rewrite Ho, sort_by_key_perm in Hwin.
    eapply source_untouched; [exact Hok | by apply Hloc | exact Hsl | by apply Hin].
Qed.

Lemma candidate_cluster s :
  s ∈ source_slots graph (heap_of geometry) (pd_reused placed) ->
  cluster_content geometry candidate (s + 2) = cluster_content geometry image (s + 2).
Proof.
  intros Hsl. unfold cluster_content. cbv zeta. rewrite N.add_sub.
  apply (candidate_slot s); [done |]. intros p Hp. exact Hp.
Qed.

Lemma candidate_extents extents :
  Forall (on_heap (heap_of geometry)) extents ->
  (forall s, s ∈ slots_of (heap_of geometry) extents -> s ∈ source_slots graph (heap_of geometry) (pd_reused placed)) ->
  concat ((fun s => cluster_content geometry candidate (s + 2)) <$> slots_of (heap_of geometry) extents) =
  concat (extent_content image <$> extents).
Proof.
  intros Hon Hsub. rewrite <- (extents_content geometry image extents); [| |done].
  2: { exact (gf_cluster _ (po_fits _ _ _ _ (se_placed _ _ _ _ _ _ _ _ _ _ _ _ Hs))). }
  f_equal. apply list_fmap_ext. intros i s Hi%list_elem_of_lookup_2.
  apply candidate_cluster. by apply Hsub.
Qed.
Lemma candidate_payload r :
  r ∈ pd_reused placed ->
  concat (cluster_content geometry candidate <$> rp_clusters r) =
  concat (extent_content image <$> file_extents graph (rp_stream r)).
Proof.
  intros Hr. pose proof (po_reused _ _ _ _ (se_placed _ _ _ _ _ _ _ _ _ _ _ _ Hs)) as Hall.
  rewrite Forall_forall in Hall. destruct (Hall r Hr) as [Hon _ Hcl _ _].
  rewrite Hcl. unfold file_slots. rewrite <- list_fmap_compose. apply candidate_extents; [exact Hon |].
  intros s Hsl. unfold source_slots. apply elem_of_app. right. apply list_elem_of_In, in_concat.
  exists (file_slots (heap_of geometry) graph (rp_stream r)). rewrite <- !list_elem_of_In. split; [|done].
  by apply (list_elem_of_fmap_2 (fun r => file_slots (heap_of geometry) graph (rp_stream r))).
Qed.
Lemma candidate_extent e :
  on_heap (heap_of geometry) e ->
  (forall s, s ∈ extent_slots (heap_of geometry) e -> s ∈ source_slots graph (heap_of geometry) (pd_reused placed)) ->
  extent_content candidate e = extent_content image e.
Proof.
  intros Hon Hsub. pose proof (candidate_extents [e]) as Hc. unfold slots_of in Hc. cbn [fmap list_fmap concat] in Hc.
  rewrite !app_nil_r in Hc. rewrite <- Hc; [| by apply Forall_singleton | done].
  pose proof (extents_content geometry candidate [e]) as Hx. unfold slots_of in Hx.
  cbn [fmap list_fmap concat] in Hx. rewrite !app_nil_r in Hx. symmetry. apply Hx; [|by apply Forall_singleton].
  exact (gf_cluster _ (po_fits _ _ _ _ (se_placed _ _ _ _ _ _ _ _ _ _ _ _ Hs))).
Qed.
End Serialized.

(** * Properties *)

(** C11: the destination holds the payload.  When a final serialization succeeds
    -- from scratch, or over pinned metadata as the finalizer runs it -- then on
    every image of the volume, after all its writes (boot regions, allocation
    table, bitmap, up-case table, directories, scrubbed boot sectors):
    - the clusters of every payload, read in order through the destination's
      geometry, hold the bytes that the extents of its stream hold on the image;
    - payloads share no cluster, and all their clusters are in the heap;
    - every range of the source, its directories included, is unchanged;
    - every stream of a file that has data belongs to a payload, whose extents
      cover its mapped size. *)
Theorem destination_holds_payload graph metadata profile options limits pinned plan layout image :
  eg_volume_bytes (og_extents graph) <= u64_max ->
  serialize_exfat_destination_impl graph metadata profile options limits Final pinned = Ok (plan, layout) ->
  len image = eg_volume_bytes (og_extents graph) ->
  let candidate := patch image (op_writes (sp_overlay plan)) in
  (forall r, r ∈ sp_reused_payloads plan ->
     concat (cluster_content (sp_geometry plan) candidate <$> rp_clusters r)
     = concat (extent_content image <$> file_extents graph (rp_stream r)) /\
     Forall (heap_cluster (sp_geometry plan)) (rp_clusters r)) /\
  NoDup (concat (rp_clusters <$> sp_reused_payloads plan)) /\
  (forall a, a ∈ sp_source_allocations plan ->
     subslice (br_offset (sa_range a)) (range_end (sa_range a)) candidate
     = subslice (br_offset (sa_range a)) (range_end (sa_range a)) image) /\
  (NoDup (ob_id <$> og_objects graph) ->
   forall object stream, object ∈ og_objects graph -> ob_kind object = File ->
     stream ∈ ob_streams object -> st_mapped_bytes stream <> 0 ->
     exists r, r ∈ sp_reused_payloads plan /\ rp_stream r = st_id stream /\
       sum_by ex_length (file_extents graph (st_id stream)) = st_mapped_bytes stream).
Proof.
  intros Hvol H Hi candidate.
  apply serialize_impl_Ok in H as (layouts & als & placed & writes & Hs); [|done].
  pose proof Hs as [Hok (g0 & _ & Hg0 & Hlay & _) _ _ _ _ Hg Hsrc Hre _ _ _ _ _].
  pose proof Hok as [Hfit Hpay Hstaged Hperm _ _ Ht _ Hfiles _ _].
  rewrite Hg, Hre, Hsrc. split_and!.
  - intros r Hr. split; [by eapply candidate_payload |].
    rewrite Forall_forall in Hpay. destruct (Hpay r Hr) as [_ _ -> _ _].
    apply Forall_forall. intros c (s & -> & Hsl)%list_elem_of_fmap.
    apply (takes_in_heap _ _ _ s) in Ht; [rewrite len_replicate in Ht; unfold heap_cluster; lia |].
    rewrite !elem_of_app. right. right. left. apply elem_of_app. right.
    apply list_elem_of_In, in_concat. eexists. rewrite <- !list_elem_of_In. split; [|exact Hsl].
    by apply (list_elem_of_fmap_2 (fun r => file_slots _ graph (rp_stream r))).
  - assert (Hc : concat (rp_clusters <$> pd_reused placed) = (fun s => s + 2) <$>
      concat ((fun r => file_slots (heap_of (pd_geometry placed)) graph (rp_stream r)) <$> pd_reused placed)).
    { clear -Hpay. induction Hpay as [|r l [_ _ Hc _ _] _ IH]; [done |].
      cbn [fmap list_fmap concat]. by rewrite fmap_app, IH, Hc. }
    rewrite Hc. apply NoDup_fmap_2; [intros ???; lia |]. destruct Ht as (_ & Hnd & _).
    apply NoDup_app in Hnd as (_ & _ & Hnd). apply NoDup_app in Hnd as (_ & _ & Hnd).
    apply NoDup_app in Hnd as (Hnd & _). by apply NoDup_app in Hnd as (_ & _ & Hnd).
  - intros a Ha. rewrite Hperm in Ha.
    assert (exists e, a = allocation_of false e /\ on_heap (heap_of (pd_geometry placed)) e /\
      forall s, s ∈ extent_slots (heap_of (pd_geometry placed)) e ->
        s ∈ source_slots graph (heap_of (pd_geometry placed)) (pd_reused placed)) as (e & -> & Hon & Hsub).
    { apply elem_of_app in Ha as [(e & -> & He)%list_elem_of_fmap|Ha].
      - exists e. split; [done |]. rewrite Forall_forall in Hstaged. split; [by apply Hstaged |].
        intros s Hsl. apply elem_of_app. left. by eapply slots_of_elem.
      - apply list_elem_of_In, in_concat in Ha as (l & Hl & Ha). apply list_elem_of_In in Hl, Ha.
        apply list_elem_of_fmap in Hl as (r & -> & Hr). apply list_elem_of_fmap in Ha as (e & -> & He).
        exists e. split; [done |]. rewrite Forall_forall in Hpay. destruct (Hpay r Hr) as [Hon _ _ _ _].
        rewrite Forall_forall in Hon. split; [by apply Hon |]. intros s Hsl. apply elem_of_app. right.
        apply list_elem_of_In, in_concat. exists (file_slots (heap_of (pd_geometry placed)) graph (rp_stream r)).
        rewrite <- !list_elem_of_In. split; [|by eapply slots_of_elem].
        by apply (list_elem_of_fmap_2 (fun r => file_slots _ graph (rp_stream r))). }
    unfold allocation_of, range_end. cbn [sa_range br_offset br_length]. by eapply candidate_extent.
  - intros Hnd object stream Hin Hkind Hst Hm.
    pose proof (build_object_layouts_Ok _ _ _ _ _ _ _ object Hlay Hnd Hin) as (l & Hl & Hk & Hstr).
    rewrite Hkind in Hk, Hstr. destruct Hstr as (s & Hls & Hv).
    apply (validate_file_stream_Ok _ _ _ _ _ stream) in Hv as (Hid & Hmap & _); [|done].
    destruct (Hfiles _ l Hl) as (l1 & l2 & Hfm & _). unfold file_mapped in Hfm. rewrite Hk in Hfm.
    destruct Hfm as (s' & Hs' & Hfm). assert (s' = s) as -> by congruence.
    rewrite Hmap, (proj2 (N.eqb_neq _ _) Hm) in Hfm. destruct Hfm as (r & Hr & Hrs & Hsum & _).
    exists r. rewrite <- Hid. by split_and!.
Qed.

(** ** A small volume

    The file 9 of two separate clusters lies in the directory 6 below the root 5;
    there are a label, an unusable range and a stale boot sector. *)
Definition sample_encoded : list byte :=
  concat ((fun k => u16_le (ascii_upper k)) <$> indices 128) ++ [xff; xff; x80; x00]
    ++ concat (replicate 255 [xff; xff; x00; x01]).
Definition sample_profile : ExfatVolumeProfile :=
  mkExfatVolumeProfile (Some [86; 79; 76]) sample_encoded (table_checksum sample_encoded)
    (mkExfatPreservationEvidence 0 0 0 0 false) 1 [mkByteRange 409600 512] [mkByteRange 512000 512].
Definition sample_stream_at (offset1 offset2 : N) : ObjectGraph :=
  mkObjectGraph 5
    [mkObjectRecord 5 Directory 0 plain []; mkObjectRecord 6 Directory 1 plain [];
     mkObjectRecord 9 File 1 plain
       [mkObjectStream 7 None 5000 5000 8192 8192 (mkStreamFlags false false false 0) Extents]]
    [mkNamespaceEntry 5 6 [100]; mkNamespaceEntry 6 9 [97]]
    (mkExtentGraph 1048576
       [mkExtent 7 0 4096 (Physical offset1) FileData; mkExtent 7 4096 4096 (Physical offset2) FileData]
       8192 0) [].
Definition sample_metadata : list ExfatObjectMetadata :=
  [mkExfatObjectMetadata 6 16 sample_times; mkExfatObjectMetadata 9 32 sample_times].
Definition sample_serialize_limits : ExfatSerializeLimits :=
  mkExfatSerializeLimits 100 100 100 1000 65536 1048576 OverlayLimits_default.
Lemma accepted_somewhere {A B} (m : result (A * B)) :
  (match m with Ok _ => true | _ => false end) = true -> exists a b, m = Ok (a, b).
Proof. destruct m as [[a b]|e|]; intros H; [by exists a, b | discriminate H | discriminate H]. Qed.
Lemma sample_serializes : exists plan layout,
  serialize_exfat_destination_impl (sample_stream_at 40960 24576) sample_metadata sample_profile
    sample_options sample_serialize_limits Final None = Ok (plan, layout).
Proof. apply accepted_somewhere. vm_compute. reflexivity. Qed.

Definition sample_image : list byte := replicate (N.to_nat 1048576) xaa.
Lemma len_sample_image : len sample_image = 1048576.
Proof. unfold sample_image. rewrite len_replicate. apply N2Nat.id. Qed.

Lemma destination_holds_payload_witness : exists plan layout,
  serialize_exfat_destination_impl (sample_stream_at 40960 24576) sample_metadata sample_profile
    sample_options sample_serialize_limits Final None = Ok (plan, layout) /\
  let candidate := patch sample_image (op_writes (sp_overlay plan)) in
  forall r, r ∈ sp_reused_payloads plan ->
    concat (cluster_content (sp_geometry plan) candidate <$> rp_clusters r)
    = concat (extent_content sample_image
                <$> file_extents (sample_stream_at 40960 24576) (rp_stream r)) /\
    Forall (heap_cluster (sp_geometry plan)) (rp_clusters r).
Proof.
  destruct sample_serializes as (plan & layout & H). exists plan, layout. split; [exact H |].
  exact (proj1 (destination_holds_payload (sample_stream_at 40960 24576) sample_metadata sample_profile
    sample_options sample_serialize_limits None plan layout sample_image ltac:(cbv; discriminate) H
    len_sample_image)).
Defined.
