(* ===== verification/ExfatReadback.v ===== *)
(** * Reading back the exFAT destination

    What [ExfatDirectory.v], the parser of [fs/exfat_directory.rs], finds on a
    volume that [ExfatSerialize.v], the model of [fs/exfat_serialize.rs], has
    written.  The file holds no further code; it derives what
    [written_directory_parsed] of [ExfatEntries.v] asks of a directory from the
    checks that the serializer itself makes:
    - the layouts carry the validated metadata and names of the graph, and the
      children of a directory are the targets of its entries ([layouts_named]);
    - the directories that are placed are the root and what it leads to, each with
      the clusters for its entries and not above the limit ([directories_placed]);
    - every placed allocation and every payload lies in the heap, so that the
      parser admits the storage of each child ([child_directory_storage],
      [file_storage]);
    - the writes are disjoint, so that the bytes of a directory are on the image
      ([directory_content]). *)

From S2P Require Import Planner Extent Geometry Object Overlay Relocate.
From S2P Require Export ExfatSerialize.
From stdpp Require Import gmap options.

#[local] Open Scope N_scope.

(** ** What the layouts say of names *)

(** The part of a layout that the placement does not change. *)
Definition layout_body (l : ObjectLayout)
    : ObjectKind * option ExfatObjectMetadata * option (list N) * list ObjectId :=
  (lo_kind l, lo_metadata l, lo_name l, lo_children l).
Definition same_layout_bodies (a b : Layouts) : Prop :=
  forall k, layout_body <$> a !! k = layout_body <$> b !! k.
#[export] Instance same_layout_bodies_equivalence : Equivalence same_layout_bodies.
Proof.
  split; [done | by intros a b H k | intros a b c H1 H2 k; by rewrite H1].
Qed.
Lemma same_layout_bodies_lookup a b k l :
  same_layout_bodies a b -> a !! k = Some l -> exists l', b !! k = Some l' /\ layout_body l' = layout_body l.
Proof.
  intros H Hl. specialize (H k). rewrite Hl in H. destruct (b !! k) as [l'|]; [|done].
  exists l'. split; [done |]. symmetry. exact (inj Some _ _ H).
Qed.
Lemma same_layout_bodies_insert (a : Layouts) k l l' :
  a !! k = Some l -> layout_body l' = layout_body l -> same_layout_bodies a (<[k := l']> a).
Proof.
  intros Hl Hb j. destruct (decide (j = k)) as [->|]; [|by rewrite lookup_insert_ne].
  by rewrite lookup_insert_eq, Hl; cbn [fmap option_fmap option_map]; rewrite Hb.
Qed.

(** What an object is laid out with: metadata of its own, the name of an entry
    that leads to it, and the targets of its entries. *)
Record layout_named (graph : ObjectGraph) (metadata : list ExfatObjectMetadata)
    (entries : list NamespaceEntry) (k : ObjectId) (l : ObjectLayout) : Prop := mkLayoutNamed {
  ln_metadata : match lo_metadata l with
    | Some m => m ∈ metadata /\ om_object m = k /\ validate_metadata k (lo_kind l) m = Ok tt
    | None => k = og_root graph
    end;
  ln_links : exists object, object ∈ og_objects graph /\ ob_id object = k /\
    (k <> og_root graph -> ob_link_count object = 1);
  ln_name : match lo_name l with
    | Some name => validate_name name k = Ok tt /\
        exists entry, entry ∈ entries /\ ne_target entry = k /\ ne_name entry = name
    | None => k ∉ ne_target <$> entries
    end;
  ln_children : lo_children l ≡ₚ ne_target <$> filter (fun e => ne_parent e = k) entries
}.
Definition layouts_named (graph : ObjectGraph) (metadata : list ExfatObjectMetadata)
    (entries : list NamespaceEntry) (layouts : Layouts) : Prop :=
  map_Forall (layout_named graph metadata entries) layouts.

Lemma index_metadata_Ok graph metadata exact :
  try_fold (index_metadata graph) ∅ metadata = Ok exact ->
  map_Forall (fun k m => m ∈ metadata /\ om_object m = k) exact.
Proof.
  intros H. refine (try_fold_invariant (map_Forall (fun k m => m ∈ metadata /\ om_object m = k))
    (index_metadata graph) ∅ metadata exact _ _ H); [apply map_Forall_empty |].
  intros s x s' Hx Hs Hf. unfold index_metadata in Hf. inv_ok. by apply map_Forall_insert_2.
Qed.
Lemma layout_object_named graph metadata geometry mode exact layouts object layouts' :
  map_Forall (fun k m => m ∈ metadata /\ om_object m = k) exact -> object ∈ og_objects graph ->
  layouts_named graph metadata [] layouts ->
  layout_object graph geometry mode exact layouts object = Ok layouts' ->
  layouts_named graph metadata [] layouts'.
Proof.
  intros Hex Hin Hn H. unfold layout_object in H. apply then_Ok in H as [Hlink H].
  apply refuse_if_Ok in Hlink. rewrite !orb_false_iff, andb_false_iff, !negb_false_iff in Hlink.
  destruct Hlink as [_ Hlink].
  apply bind_Ok in H as (item & Hitem & H). apply then_Ok in H as [Hvalid H].
  apply bind_Ok in H as (stream & _ & H). injection H as <-.
  apply map_Forall_insert_2; [|exact Hn].
  split; cbn [lo_metadata lo_name lo_children lo_kind].
  - destruct (N.eqb_spec (ob_id object) (og_root graph)) as [He|Hne].
    + by injection Hitem as <-.
    + apply bind_Ok in Hitem as (m & Hm & Hitem). injection Hitem as <-. apply ok_or_Ok in Hm.
      destruct (Hex _ _ Hm) as [Hmem Hid]. by rewrite Hid in *.
  - exists object. split_and!; [done | done |]. intros Hr. bool_props.
    destruct Hlink as [He%N.eqb_eq|He%N.eqb_eq]; done.
  - intros ?%elem_of_nil. done.
  - done.
Qed.

Lemma name_more (entries : list NamespaceEntry) entry k name :
  k <> ne_target entry ->
  match name with
  | Some name => validate_name name k = Ok tt /\
      exists e, e ∈ entries /\ ne_target e = k /\ ne_name e = name
  | None => k ∉ ne_target <$> entries
  end ->
  match name with
  | Some name => validate_name name k = Ok tt /\
      exists e, e ∈ entries ++ [entry] /\ ne_target e = k /\ ne_name e = name
  | None => k ∉ ne_target <$> (entries ++ [entry])
  end.
Proof.
  intros Hk. destruct name as [name|].
  - intros [Hv (e & He & H)]. split; [done |]. exists e. rewrite elem_of_app. auto.
  - intros Hn. rewrite fmap_app, not_elem_of_app. split; [done |].
    by intros ->%list_elem_of_singleton.
Qed.
Lemma layout_entry_named graph metadata entries entry layouts layouts' :
  layouts_named graph metadata entries layouts -> layout_entry layouts entry = Ok layouts' ->
  layouts_named graph metadata (entries ++ [entry]) layouts'.
Proof.
  intros Hn H. unfold layout_entry in H. apply then_Ok in H as [Hname H].
  apply bind_Ok in H as (target & Ht & H). apply ok_or_Ok in Ht.
  apply bind_Ok in H as (parent & Hp & H). apply ok_or_Ok in Hp. injection H as <-.
  assert (Hone : forall k l, layout_named graph metadata entries k l ->
    k <> ne_target entry -> k <> ne_parent entry -> layout_named graph metadata (entries ++ [entry]) k l).
  { intros k l [Hm Hl Hnm Hc] Hkt Hkp. split; [done | done | |].
    - by apply name_more.
    - rewrite filter_app, filter_cons_False, filter_nil, app_nil_r by congruence. done. }
  assert (Htarget : layout_named graph metadata entries (ne_target entry) target) by by apply Hn.
  assert (Hparent : exists old, layout_named graph metadata entries (ne_parent entry) old /\
    lo_kind parent = lo_kind old /\ lo_metadata parent = lo_metadata old /\ lo_children parent = lo_children old /\
    lo_name parent = if decide (ne_parent entry = ne_target entry) then Some (ne_name entry) else lo_name old).
  { apply lookup_insert_Some in Hp as [[Heq <-]|[Hne Hp]].
    - exists target. rewrite <- Heq, decide_True by done. done.
    - exists parent. rewrite decide_False by done. split; [by apply Hn | done]. }
  destruct Hparent as (old & [Hm Hl Hnm Hc] & E1 & E2 & E3 & E4).
  intros k l [[<- <-]|[Hne Hk]]%lookup_insert_Some.
  - split; cbn [with_children lo_metadata lo_name lo_children lo_kind].
    + by rewrite E1, E2.
    + done.
    + rewrite E4. destruct (decide _) as [Heq|Hne].
      * rewrite Heq. split; [done |]. exists entry. split_and!; [by apply elem_of_app; right; left | done | done].
      * by apply name_more.
    + rewrite E3, filter_app, filter_cons_True, filter_nil, fmap_app by done. by rewrite Hc.
  - apply lookup_insert_Some in Hk as [[<- <-]|[Hne' Hk]]; [|by apply Hone; [apply Hn | |]].
    destruct Htarget as [Hm' Hl' Hnm' Hc']. split; cbn [with_name lo_metadata lo_name lo_children lo_kind]; try done.
    + split; [done |]. exists entry. split_and!; [by apply elem_of_app; right; left | done | done].
    + by rewrite filter_app, filter_cons_False, filter_nil, app_nil_r by congruence.
Qed.

Lemma layout_entries_named graph metadata entries done layouts layouts' :
  layouts_named graph metadata done layouts -> try_fold layout_entry layouts entries = Ok layouts' ->
  layouts_named graph metadata (done ++ entries) layouts'.
Proof.
  revert done layouts. induction entries as [|e entries IH]; intros done layouts Hn H; simpl in H.
  - injection H as <-. by rewrite app_nil_r.
  - apply bind_Ok in H as (l1 & H1 & H). replace (done ++ e :: entries) with ((done ++ [e]) ++ entries)
      by by rewrite <- app_assoc. eapply IH; [|exact H]. by eapply layout_entry_named.
Qed.
Lemma sort_children_named graph metadata entries upcase layouts parent layouts' :
  layouts_named graph metadata entries layouts -> sort_children graph upcase layouts parent = Ok layouts' ->
  layouts_named graph metadata entries layouts'.
Proof.
  intros Hn H. unfold sort_children in H. apply bind_Ok in H as (l & Hl & H). apply expect_Ok in Hl.
  apply bind_Ok in H as (folded & _ & H). injection H as <-. apply map_Forall_insert_2; [|done].
  destruct (Hn _ _ Hl) as [Hm Hk Hnm Hc]. split; cbn [with_children lo_metadata lo_name lo_children lo_kind]; try done.
  by rewrite merge_sort_Permutation.
Qed.
Lemma build_object_layouts_named graph metadata geometry upcase limits mode layouts :
  build_object_layouts graph metadata geometry upcase limits mode = Ok layouts ->
  layouts_named graph metadata (og_entries graph) layouts.
Proof.
  unfold build_object_layouts. intros H. apply then_Ok in H as [_ H].
  apply bind_Ok in H as (exact & Hex & H). apply index_metadata_Ok in Hex.
  apply bind_Ok in H as (l1 & H1 & H). apply then_Ok in H as [_ H]. apply bind_Ok in H as (l2 & H2 & H3).
  apply (try_fold_invariant (layouts_named graph metadata [])) in H1; [| apply map_Forall_empty |].
  2: { intros. by eapply layout_object_named. }
  apply (layout_entries_named graph metadata _ []) in H2; [|done].
  apply (try_fold_invariant (layouts_named graph metadata (og_entries graph))) in H3; [done | done |].
  intros. by eapply sort_children_named.
Qed.

(** ** The order of the directories *)
Lemma expect_layout {A} (layouts : Layouts) k (f : ObjectLayout -> result A) r :
  (layout ← expect (layouts !! k); f layout) = Ok r -> exists l, layouts !! k = Some l /\ f l = Ok r.
Proof. intros H. apply bind_Ok in H as (l & Hl & H). apply expect_Ok in Hl. by exists l. Qed.

(** The directories among the children of an object. *)
Definition directory_child (layouts : Layouts) (p c : ObjectId) : Prop :=
  exists l lc, layouts !! p = Some l /\ c ∈ lo_children l /\ layouts !! c = Some lc /\ lo_kind lc = Directory.
Lemma queue_children (layouts : Layouts) (children order order' : list ObjectId) :
  try_fold (fun order child =>
    child_layout ← expect (layouts !! child);
    Ok (if bool_decide (lo_kind child_layout = Directory) then order ++ [child] else order))
    order children = (Ok order' : result (list ObjectId)) ->
  exists found, order' = order ++ found /\
    forall c, c ∈ found <-> c ∈ children /\ exists lc, layouts !! c = Some lc /\ lo_kind lc = Directory.
Proof.
  revert order. induction children as [|c children IH]; intros order H; cbn [try_fold] in H.
  - injection H as <-. exists []. rewrite app_nil_r. split; [done |]. intros c. rewrite elem_of_nil. tauto.
  - apply bind_Ok in H as (o1 & H1 & H). apply expect_layout in H1 as (lc & Hlc & H1). injection H1 as <-.
    apply IH in H as (found & -> & Hf). destruct (decide (lo_kind lc = Directory)) as [Hk|Hk].
    + rewrite bool_decide_true by done. exists (c :: found). rewrite <- app_assoc. split; [done |].
      intros x. rewrite !elem_of_cons, Hf. naive_solver.
    + rewrite bool_decide_false by done. exists found. split; [done |].
      intros x. rewrite elem_of_cons, Hf. naive_solver.
Qed.
(** The queue is closed under the children that are directories, and holds
    nothing else. *)
Lemma directory_queue_Ok (P : ObjectId -> Prop) fuel layouts order cursor order' :
  directory_queue fuel layouts order cursor = Ok order' ->
  (forall o, o ∈ order -> P o) -> (forall p c, P p -> directory_child layouts p c -> P c) ->
  (forall i p c, (i < N.to_nat cursor)%nat -> order !! i = Some p -> directory_child layouts p c -> c ∈ order) ->
  (forall o, o ∈ order' -> P o) /\ (forall o, o ∈ order -> o ∈ order') /\
  (forall p c, p ∈ order' -> directory_child layouts p c -> c ∈ order').
Proof.
  revert order cursor. induction fuel as [|fuel IH]; intros order cursor H HP Hstep Hclosed; [done |].
  cbn [directory_queue] in H. destruct (order !! N.to_nat cursor) as [current|] eqn:Hc.
  - apply expect_layout in H as (l & Hl & H). apply bind_Ok in H as (o1 & H1 & H).
    apply queue_children in H1 as (found & -> & Hf).
    assert (Hchild : forall c, c ∈ found <-> directory_child layouts current c).
    { intros c. rewrite Hf. unfold directory_child. split.
      - intros (H1 & lc & H2 & H3). by exists l, lc.
      - intros (l' & lc & H1 & H2 & H3 & H4). simplify_eq. eauto. }
    apply IH in H as (Ha & Hb & Hd).
    + split_and!; [done | | done]. intros o Ho. apply Hb, elem_of_app. by left.
    + intros o [Ho|Ho%Hchild]%elem_of_app; [by apply HP |]. eapply Hstep; [|done].
      by eapply HP, list_elem_of_lookup_2.
    + done.
    + intros i p c Hi Hp Hpc. apply elem_of_app.
      destruct (decide (i = N.to_nat cursor)) as [->|Hne].
      * right. apply Hchild. rewrite lookup_app_l in Hp by (by eapply lookup_lt_Some). by simplify_eq.
      * left. apply lookup_lt_Some in Hc as Hlt. rewrite lookup_app_l in Hp by lia.
        apply (Hclosed i p c); [lia | done | done].
  - injection H as <-. split_and!; [done | done |]. intros p c (i & Hi)%list_elem_of_lookup Hpc.
    apply (Hclosed i p c); [|done|done]. apply lookup_lt_Some in Hi as H1. apply lookup_ge_None in Hc. lia.
Qed.
Lemma directory_child_bodies a b p c :
  same_layout_bodies a b -> directory_child a p c -> directory_child b p c.
Proof.
  intros H (l & lc & Hl & Hc & Hlc & Hk).
  destruct (same_layout_bodies_lookup _ _ _ _ H Hl) as (l' & Hl' & Hb).
  destruct (same_layout_bodies_lookup _ _ _ _ H Hlc) as (lc' & Hlc' & Hb').
  unfold layout_body in *. exists l', lc'. split_and!; congruence.
Qed.

(** ** The sizes of the directories *)
Lemma try_fold_ext {E A S} (f g : S -> A -> outcome E S) l s :
  (forall s x, f s x = g s x) -> try_fold f s l = try_fold g s l.
Proof.
  intros Hfg. revert s. induction l as [|x l IH]; intros s; [done |]. simpl. rewrite Hfg.
  destruct (g s x); [apply IH | done | done].
Qed.
Lemma directory_length_bodies object root a b label :
  same_layout_bodies a b -> directory_length object root a label = directory_length object root b label.
Proof.
  intros Hab. unfold directory_length. pose proof (Hab object) as Ho.
  destruct (a !! object) as [l|], (b !! object) as [l'|]; try done. cbn [expect mbind outcome_bind].
  apply (inj Some) in Ho. unfold layout_body in Ho. injection Ho as E1 E2 E3 E4. rewrite E4.
  f_equal. apply try_fold_ext. intros sum child. pose proof (Hab child) as Hc.
  destruct (a !! child) as [l1|], (b !! child) as [l2|]; try done. cbn [expect mbind outcome_bind].
  apply (inj Some) in Hc. unfold layout_body in Hc. by injection Hc as _ _ -> _.
Qed.

Section Sizes.
#[local] Set Default Proof Using "Type".
Context (graph : ObjectGraph) (geometry : ExfatDestinationGeometry) (profile : ExfatVolumeProfile)
  (limits : ExfatSerializeLimits) (pinned : option PinnedExfatLayout).

Definition has_label : bool := bool_decide (is_Some (vp_volume_label profile)).
(** A directory is as long as its entries need, within the limit, and has the
    clusters for it. *)
Record directory_sized (layouts : Layouts) (o : ObjectId) (l : ObjectLayout) : Prop := mkDirectorySized {
  dz_length : directory_length o (og_root graph) layouts has_label = Ok (lo_directory_bytes l);
  dz_limit : lo_directory_bytes l <= sl_max_directory_bytes limits;
  dz_clusters : clusters_for (lo_directory_bytes l) (dg_bytes_per_cluster geometry)
                = Ok (len (lo_directory_clusters l))
}.
Lemma directory_sized_bodies a b o l :
  same_layout_bodies a b -> directory_sized a o l -> directory_sized b o l.
Proof. intros Hab [H1 H2 H3]. split; [by rewrite <- (directory_length_bodies _ _ a b) | done | done]. Qed.

Lemma place_directory_sized layouts occ index object layouts' occ' :
  len occ + 2 <= u32_max ->
  place_directory graph geometry profile limits pinned (layouts, occ) (index, object) = Ok (layouts', occ') ->
  len occ' = len occ /\ same_layout_bodies layouts layouts' /\
  exists l, layouts' = <[object := l]> layouts /\ directory_sized layouts object l.
Proof.
  intros Ho H. unfold place_directory in H.
  apply bind_Ok in H as (bytes & Hb & H). apply then_Ok in H as [Hmax H].
  apply refuse_if_Ok, N.ltb_ge in Hmax.
  apply bind_Ok in H as (n & Hn & H). apply clusters_for_Ok in Hn as Hn'.
  apply bind_Ok in H as (run & _ & H). apply bind_Ok in H as ([allocation o] & Hp & H).
  apply place_Ok in Hp as [Hc Ht]; [|lia | done].
  apply bind_Ok in H as (l & Hl & H). apply ok_or_Ok in Hl.
  apply bind_Ok in H as (clusters & He & H). apply expand_allocation_Ok in He as ->.
  injection H as <- <-. split; [apply Ht |]. split; [by eapply same_layout_bodies_insert |].
  eexists. split; [done |]. split; cbn [with_directory lo_directory_bytes lo_directory_clusters]; [done | done |].
  by rewrite len_run_slots, Hc.
Qed.
Lemma place_directories_sized order i layouts occ layouts' occ' :
  len occ + 2 <= u32_max ->
  try_fold (place_directory graph geometry profile limits pinned) (layouts, occ) (enumerate_from i order)
    = Ok (layouts', occ') ->
  same_layout_bodies layouts layouts' /\
  forall o l, o ∈ order -> layouts' !! o = Some l -> directory_sized layouts' o l.
Proof.
  revert i layouts occ. induction order as [|object order IH]; intros i layouts occ Ho H; simpl in H.
  - injection H as <- <-. split; [done | by intros o l ?%elem_of_nil].
  - apply bind_Ok in H as ([lay1 occ1] & H1 & H).
    apply place_directory_sized in H1 as (Hlen & Hsame & l1 & -> & Hsized); [|done].
    pose proof H as H'. apply IH in H as [Hsame' Hin]; [|by rewrite Hlen]. split; [by etransitivity |].
    intros o l Hmem Hl. destruct (decide (o ∈ order)) as [|Hno]; [by apply Hin |].
    apply elem_of_cons in Hmem as [->|]; [|done].
    apply place_directories_Ok in H' as (als & _ & Hout & _); [|by rewrite Hlen].
    rewrite Hout, lookup_insert_eq in Hl by done. injection Hl as <-.
    eapply directory_sized_bodies; [|exact Hsized]. by etransitivity.
Qed.

(** What the first half decides of the directories. *)
Record directories_placed (layouts : Layouts) (placed : Placed) : Prop := mkDirectoriesPlaced {
  dp_bodies : same_layout_bodies layouts (pd_layouts placed);
  dp_root : og_root graph ∈ pd_order placed;
  dp_only : forall (P : ObjectId -> Prop), P (og_root graph) ->
    (forall p c, P p -> directory_child (pd_layouts placed) p c -> P c) ->
    forall o, o ∈ pd_order placed -> P o;
  dp_closed : forall p c, p ∈ pd_order placed -> directory_child (pd_layouts placed) p c -> c ∈ pd_order placed;
  dp_sized : forall o l, o ∈ pd_order placed -> pd_layouts placed !! o = Some l ->
    directory_sized (pd_layouts placed) o l
}.
Lemma directory_order_Ok layouts order :
  directory_order graph layouts = Ok order ->
  og_root graph ∈ order /\
  (forall (P : ObjectId -> Prop), P (og_root graph) ->
    (forall p c, P p -> directory_child layouts p c -> P c) -> forall o, o ∈ order -> P o) /\
  (forall p c, p ∈ order -> directory_child layouts p c -> c ∈ order).
Proof.
  intros H. unfold directory_order in H. split_and!.
  - eapply (directory_queue_Ok (fun _ => True)) in H as (_ & Hb & _); [| done | done | intros; lia].
    apply Hb. by left.
  - intros P Hr Hstep. eapply (directory_queue_Ok P) in H as (Ha & _); [done | | done | intros; lia].
    by intros o ->%list_elem_of_singleton.
  - by eapply (directory_queue_Ok (fun _ => True)) in H as (_ & _ & Hd); [| done | done | intros; lia].
Qed.
End Sizes.

Lemma file_mapped_body graph reused l l' : file_mapped graph reused l l' -> layout_body l' = layout_body l.
Proof.
  unfold file_mapped. destruct (lo_kind l) eqn:Hk; [|by intros ->]. intros (s & _ & H).
  destruct (_ =? _); [by subst |]. destruct H as (r & _ & _ & _ & ->). done.
Qed.

Lemma directory_phase_Ok graph geometry profile limits pinned layouts placed :
  directory_phase graph geometry profile limits pinned layouts placed ->
  directories_placed graph geometry profile limits layouts placed.
Proof.
  intros (mapped & occ & Hocc & Hkeys & Hfiles & Horder & Hdirs).
  apply directory_order_Ok in Horder as (Hroot & Honly & Hclosed).
  apply place_directories_sized in Hdirs as [Hsame Hsized]; [|done].
  split; [| done | | | done].
  - rewrite <- Hsame. intros k. destruct (layouts !! k) as [l|] eqn:Hl.
    + destruct (Hfiles k l Hl) as (l' & -> & Hm). apply file_mapped_body in Hm. simpl. by rewrite Hm.
    + destruct (mapped !! k) eqn:Hm; [|done]. assert (is_Some (layouts !! k)) as [? ?]; [|congruence].
      apply Hkeys. by rewrite Hm.
  - intros P HP Hstep. apply Honly; [done |]. intros p c Hp Hpc. apply (Hstep p); [done |].
    by eapply directory_child_bodies.
  - intros p c Hp Hpc. apply (Hclosed p); [done |]. eapply directory_child_bodies; [|done]. by symmetry.
Qed.

(** ** What was written *)

(** The bytes of an allocation on an image. *)
Definition allocation_content (geometry : ExfatDestinationGeometry) (image : list byte)
    (allocation : ExfatAllocationRun) : list byte :=
  concat (cluster_content geometry image
            <$> run_slots (al_first_cluster allocation) (al_cluster_count allocation)).
Lemma allocation_content_range geometry image allocation :
  2 <= al_first_cluster allocation ->
  let start := heap_offset geometry + (al_first_cluster allocation - 2) * dg_bytes_per_cluster geometry in
  allocation_content geometry image allocation
  = subslice start (start + al_cluster_count allocation * dg_bytes_per_cluster geometry) image.
Proof.
  intros H2 start. unfold allocation_content.
  replace (run_slots (al_first_cluster allocation) (al_cluster_count allocation)) with
    ((fun s => s + 2) <$> run_slots (al_first_cluster allocation - 2) (al_cluster_count allocation)).
  - rewrite <- list_fmap_compose. etransitivity; [apply run_content |]. unfold start. f_equal. lia.
  - unfold run_slots. rewrite <- list_fmap_compose. apply list_fmap_ext. intros ? x _. simpl. lia.
Qed.

Lemma subslice_written image writes w :
  Forall (write_fits (len image)) writes -> writes_disjoint writes -> w ∈ writes ->
  subslice (ow_offset w) (ow_offset w + ow_length w) (patch image writes) = ow_bytes w.
Proof.
  intros Hf Hd Hw. assert (He : ow_offset w + ow_length w - ow_offset w = ow_length w) by lia.
  apply list_eq. intros i. destruct (N.lt_ge_cases (N.of_nat i) (ow_length w)) as [Hi|Hi].
  - rewrite subslice_lookup by lia. rewrite (patch_inside _ _ w) by (done || unfold in_range; lia). f_equal. lia.
  - rewrite subslice_lookup_ge by lia. symmetry. apply lookup_ge_None. unfold ow_length, len in Hi. lia.
Qed.

Lemma try_fold_each {E A S} (f : S -> A -> outcome E S) s l s' x :
  try_fold f s l = Ok s' -> x ∈ l -> exists s1 s2, f s1 x = Ok s2.
Proof.
  revert s. induction l as [|y l IH]; intros s H Hx; [by apply elem_of_nil in Hx |].
  simpl in H. apply bind_Ok in H as (s1 & H1 & H).
  apply elem_of_cons in Hx as [->|Hx]; [by exists s, s1 | by eapply IH].
Qed.
Lemma Forall2_from_left {A B} (R : A -> B -> Prop) l k x :
  Forall2 R l k -> x ∈ l -> exists y, R x y /\ y ∈ k.
Proof.
  intros HR (i & Hi)%list_elem_of_lookup. destruct (Forall2_lookup_l _ _ _ _ _ HR Hi) as (y & Hy & Hxy).
  exists y. split; [done |]. by apply list_elem_of_lookup_2 in Hy.
Qed.

(** The directories and the tables among the writes. *)
Lemma all_writes_parts graph profile options placed writes :
  all_writes graph profile options placed = Ok writes ->
  (forall o, o ∈ pd_order placed -> exists w, w ∈ writes /\
     directory_write graph (pd_geometry placed) profile (pd_upcase_table placed) (pd_layouts placed)
       (pd_bitmap placed) (pd_upcase placed) ((dg_cluster_count (pd_geometry placed) + 7) / 8) o = Ok w) /\
  2 <= al_first_cluster (pd_bitmap placed) /\ 2 <= al_first_cluster (pd_upcase placed) /\
  len (vp_encoded_upcase_table profile)
    <= al_cluster_count (pd_upcase placed) * dg_bytes_per_cluster (pd_geometry placed).
Proof.
  intros H. unfold all_writes in H.
  apply bind_Ok in H as (fat & _ & H). apply bind_Ok in H as (bits & _ & H).
  apply bind_Ok in H as (bsize & _ & H). apply bind_Ok in H as (bbytes & _ & H).
  apply bind_Ok in H as (percent & _ & H). apply bind_Ok in H as (boot & _ & H).
  apply bind_Ok in H as (bw & _ & H). apply bind_Ok in H as (fo & _ & H).
  apply bind_Ok in H as (wb & Hwb & H). apply bind_Ok in H as (us & Hus & H).
  apply bind_Ok in H as (ub & Hub & H). apply bind_Ok in H as (wu & Hwu & H).
  apply bind_Ok in H as (w1 & Hdw & H).
  apply push_all_Ok in Hdw as (dws & -> & Hdw), H as (sws & -> & _).
  unfold allocation_write in Hwb, Hwu.
  apply bind_Ok in Hwb as (ob & Hob & _), Hwu as (ou & Hou & _).
  apply cluster_offset_Ok in Hob as [Hb _], Hou as [Hu _].
  apply padded_bytes_Ok in Hus as ->. apply copy_from_slice_Ok in Hub as (_ & Hle & _ & _).
  rewrite len_replicate in Hle. split_and!; [| done | done | lia].
  intros o Ho. destruct (Forall2_from_left _ _ _ _ Hdw Ho) as (w & Hw & Hin).
  exists w. split; [|exact Hw]. rewrite !elem_of_app. auto.
Qed.

(** A directory that was built says of its children what the writer needs. *)
Lemma write_child_Ok layouts upcase cluster_bytes state child state' :
  write_child layouts upcase cluster_bytes state child = Ok state' ->
  exists l name storage hash m, layouts !! child = Some l /\ lo_name l = Some name /\
    child_storage l cluster_bytes = Ok storage /\ lo_metadata l = Some m /\
    name_hash upcase name MAX_FILE_NAME_CODE_UNITS = Ok hash.
Proof.
  destruct state as [bytes cursor]. unfold write_child. intros H.
  apply expect_layout in H as (l & Hl & H). apply bind_Ok in H as (name & Hname & H).
  apply ok_or_Ok in Hname. apply bind_Ok in H as (storage & Hst & H).
  apply bind_Ok in H as (e & _ & H). apply bind_Ok in H as (set & _ & H).
  apply bind_Ok in H as (set' & Hset & _). exists l, name, storage.
  destruct storage as [[[first valid] data] nfc]. unfold write_file_set in Hset.
  apply bind_Ok in Hset as (s1 & _ & Hset). apply bind_Ok in Hset as (s2 & _ & Hset).
  apply bind_Ok in Hset as (s3 & _ & Hset). apply bind_Ok in Hset as (m & Hm & Hset). apply expect_Ok in Hm.
  do 4 apply bind_Ok in Hset as (? & _ & Hset).
  apply bind_Ok in Hset as (nl & _ & Hset). apply bind_Ok in Hset as (s4 & _ & Hset).
  apply bind_Ok in Hset as (hash & Hh & _). apply map_err_Ok in Hh. by exists hash, m.
Qed.
Lemma build_directory_children object root layouts bitmap ua bl vl ub uc upcase cb bytes l child :
  build_directory object root layouts bitmap ua bl vl ub uc upcase cb = Ok bytes ->
  layouts !! object = Some l -> child ∈ lo_children l ->
  exists lc name storage hash m, layouts !! child = Some lc /\ lo_name lc = Some name /\
    child_storage lc cb = Ok storage /\ lo_metadata lc = Some m /\
    name_hash upcase name MAX_FILE_NAME_CODE_UNITS = Ok hash.
Proof.
  intros H Hl Hc. unfold build_directory in H. rewrite Hl in H. cbn [expect mbind outcome_bind] in H.
  apply bind_Ok in H as (allocation & _ & H). apply bind_Ok in H as (size & _ & H).
  apply bind_Ok in H as ([b c] & _ & H). apply bind_Ok in H as ([b' c'] & Hf & _).
  destruct (try_fold_each _ _ _ _ _ Hf Hc) as (s1 & s2 & Hw). by apply write_child_Ok in Hw.
Qed.
Lemma name_hash_width table name max hash : name_hash table name max = Ok hash -> hash <= u16_max.
Proof.
  unfold name_hash. intros H. apply then_Ok in H as [_ H]. apply bind_Ok in H as (mapped & _ & H).
  injection H as <-. cut (fold_left (fun hash unit => fold_left hash_step (u16_le unit) hash) mapped 0 < 2 ^ 16).
  { intros H. apply N.lt_succ_r. exact H. }
  assert (Hgen : forall h, h < 2 ^ 16 ->
    fold_left (fun hash unit => fold_left hash_step (u16_le unit) hash) mapped h < 2 ^ 16); [|by apply Hgen].
  induction mapped as [|u mapped IH]; intros h Hh; [exact Hh |]. simpl. apply IH. apply hash_step_bound.
Qed.

(** ** The clusters of a payload *)
Lemma on_heap_slots heap extents :
  0 < hv_cluster_bytes heap -> Forall (on_heap heap) extents ->
  len (slots_of heap extents) * hv_cluster_bytes heap = sum_by ex_length extents.
Proof.
  intros HK. unfold slots_of. induction 1 as [|e l [_ (first & count & He & Hl & _)] _ IH]; [done |].
  cbn [fmap list_fmap concat]. rewrite len_app, sum_by_cons, <- IH. unfold extent_slots.
  rewrite He, Hl, whole_range_slots, len_run_slots by done. lia.
Qed.
Lemma run_slots_succ first n : run_slots first (N.succ n) = first :: run_slots (first + 1) n.
Proof.
  unfold run_slots, indices. rewrite N2Nat.inj_succ. cbn [seq fmap list_fmap]. f_equal; [lia |].
  rewrite <- fmap_S_seq, <- !list_fmap_compose. apply list_fmap_ext. intros i z _. simpl. lia.
Qed.
Lemma contiguous_run (l : list N) first :
  ExfatLayout.contiguous l -> head l = Some first -> l = run_slots first (len l).
Proof.
  unfold ExfatLayout.contiguous. revert first. induction l as [|x l IH]; intros first Hs Hh; [done |].
  injection Hh as ->. apply Sorted_inv in Hs as [Hs Hr]. rewrite len_cons.
  replace (1 + len l) with (N.succ (len l)) by lia. rewrite run_slots_succ. f_equal.
  destruct l as [|y l]; [done |]. apply HdRel_inv in Hr as ->. by apply IH.
Qed.

(** The inputs have the widths of their types. *)
Record inputs_typed (graph : ObjectGraph) (metadata : list ExfatObjectMetadata)
    (profile : ExfatVolumeProfile) : Prop := mkInputsTyped {
  it_volume : eg_volume_bytes (og_extents graph) <= u64_max;
  it_names : Forall (fun e => Forall (fun u => u <= u16_max) (ne_name e)) (og_entries graph);
  it_metadata : Forall metadata_typed metadata;
  it_streams : Forall (fun s => st_logical_bytes s <= u64_max) (all_streams (og_objects graph));
  it_label : forall label, vp_volume_label profile = Some label -> Forall (fun u => u <= u16_max) label;
  it_checksum : vp_upcase_checksum profile <= u32_max
}.

(** How the parser is told of the destination. *)
Definition destination_context (geometry : ExfatDestinationGeometry) (is_root : bool)
    (max_entries max_secondary_entries : N) : DirectoryContext :=
  mkDirectoryContext (dg_cluster_count geometry) (dg_bytes_per_cluster geometry) 1 is_root
    max_entries max_secondary_entries.

(** What a file set on the destination says, for the entry of the graph that it
    was written for. *)
Definition times_of (f : FileEntry) : ExfatTimestamps :=
  mkExfatTimestamps (fe_create_timestamp f) (fe_modified_timestamp f) (fe_accessed_timestamp f)
    (fe_create_centiseconds f) (fe_modified_centiseconds f) (fe_create_utc_offset f)
    (fe_modified_utc_offset f) (fe_accessed_utc_offset f).
Definition name_of (f : FileEntry) : list N := take (N.to_nat (fn_len (fe_name f))) (fn_units (fe_name f)).
Definition file_described (plan : ExfatSerializationPlan) (streams : list ObjectStream) (f : FileEntry) : Prop :=
  match streams with
  | [] => fe_data_length f = 0 /\ fe_valid_data_length f = 0 /\ fe_first_cluster f = 0 /\
      fe_no_fat_chain f = false
  | stream :: _ =>
      fe_data_length f = st_logical_bytes stream /\ fe_valid_data_length f = st_initialized_bytes stream /\
      if st_mapped_bytes stream =? 0 then fe_first_cluster f = 0 /\ fe_no_fat_chain f = false
      else exists r, r ∈ sp_reused_payloads plan /\ rp_stream r = st_id stream /\
        head (rp_clusters r) = Some (fe_first_cluster f) /\ fe_no_fat_chain f = rp_no_fat_chain r
  end.
Definition directory_described (plan : ExfatSerializationPlan) (layout : PinnedExfatLayout)
    (object : ObjectId) (f : FileEntry) : Prop :=
  exists a, (object, a) ∈ pl_directories layout /\ fe_first_cluster f = al_first_cluster a /\
    fe_data_length f = al_cluster_count a * dg_bytes_per_cluster (sp_geometry plan) /\
    fe_valid_data_length f = fe_data_length f /\ fe_no_fat_chain f = true.
Definition entry_described (graph : ObjectGraph) (metadata : list ExfatObjectMetadata)
    (plan : ExfatSerializationPlan) (layout : PinnedExfatLayout) (e : NamespaceEntry) (f : FileEntry) : Prop :=
  exists object item, object ∈ og_objects graph /\ ob_id object = ne_target e /\
    item ∈ metadata /\ om_object item = ne_target e /\
    name_of f = ne_name e /\ fe_file_attributes f = om_file_attributes item /\
    times_of f = om_timestamps item /\
    fe_is_directory f = bool_decide (ob_kind object = Directory) /\
    match ob_kind object with
    | Directory => directory_described plan layout (ne_target e) f
    | File => file_described plan (ob_streams object) f
    end.

Section Readback.
#[local] Set Default Proof Using "All".
Context (graph : ObjectGraph) (metadata : list ExfatObjectMetadata) (profile : ExfatVolumeProfile)
  (options : ExfatSerializeOptions) (limits : ExfatSerializeLimits) (pinned : option PinnedExfatLayout)
  (plan : ExfatSerializationPlan) (layout : PinnedExfatLayout)
  (layouts : Layouts) (allocations : list ExfatAllocationRun) (placed : Placed) (writes : list OverlayWrite)
  (graph_limits : ObjectGraphLimits)
  (Hs : serialized graph metadata profile options limits pinned plan layout layouts allocations placed writes)
  (Hgraph : graph_ok (og_root graph) (og_objects graph) (og_entries graph) (og_extents graph) graph_limits)
  (Htyped : inputs_typed graph metadata profile)
  (Hmax : sl_max_directory_bytes limits <= MAX_DIRECTORY_BYTES).

Let geometry := pd_geometry placed.
Let cluster_bytes := dg_bytes_per_cluster geometry.
Let cluster_count := dg_cluster_count geometry.

Lemma placed_facts :
  (exists j, cluster_bytes = 2 ^ j /\ 9 <= j <= 25) /\ 1 <= cluster_count /\ cluster_count + 2 <= u32_max /\
  directories_placed graph geometry profile limits layouts placed /\
  layouts_named graph metadata (og_entries graph) layouts /\
  exists geometry', dg_bytes_per_cluster geometry' = cluster_bytes /\
    forall o, o ∈ og_objects graph -> laid_out_object geometry' Final o layouts.
Proof.
  destruct Hs as [Hok (g0 & Hgeo & Hg & Hlay & Hphase) _ _ _ _ _ _ _ _ _ _ _ _].
  pose proof Hok as [Hfit _ _ _ _ _ _ _ _ _ _]. destruct Hfit as [_ _ _ _ _ _ Hcount _].
  fold geometry cluster_count in Hcount. fold geometry in Hg.
  assert (Hcb : dg_bytes_per_cluster g0 = cluster_bytes) by (unfold cluster_bytes; by rewrite Hg).
  assert (Hcc : dg_cluster_count g0 = cluster_count) by (unfold cluster_count; by rewrite Hg).
  apply choose_geometry_Ok in Hgeo as (Hin & _ & h & c & f & _ & Hc & _ & _ & Hg0).
  assert (E1 : so_bytes_per_cluster options = cluster_bytes) by (rewrite <- Hcb; by subst g0).
  assert (E2 : c = cluster_count) by (rewrite <- Hcc; by subst g0).
  destruct Hin as [Hsec (j & Hj & Hle & Hsc) _ _]. apply sector_size_shift in Hsec as (k & Hk & Esec).
  rewrite E1 in *. split_and!; try lia.
  - exists j. split; [done |]. split; [|done]. rewrite Esec, Hj in Hsc.
    apply N.pow_le_mono_r_iff in Hsc; lia.
  - apply directory_phase_Ok in Hphase. destruct Hphase as [H1 H2 H3 H4 H5]. split; try done.
    intros o l Ho Hl. destruct (H5 o l Ho Hl) as [Z1 Z2 Z3]. split; try done. fold cluster_bytes. by rewrite <- Hcb.
  - by eapply build_object_layouts_named.
  - exists g0. split; [done |]. intros o Ho. eapply build_object_layouts_Ok; [exact Hlay | | done]. apply Hgraph.
Qed.

Lemma slots_inside s :
  s ∈ source_slots graph (heap_of geometry) (pd_reused placed)
      ++ allocation_slots (pd_bitmap placed) ++ allocation_slots (pd_upcase placed)
      ++ concat (allocation_slots <$> allocations) -> s < cluster_count.
Proof.
  intros Hin. pose proof (po_slots _ _ _ _ (se_placed _ _ _ _ _ _ _ _ _ _ _ _ Hs)) as Ht.
  eapply (takes_in_heap _ _ _ s) in Ht; [rewrite len_replicate, N2Nat.id in Ht; exact Ht |].
  fold geometry. rewrite elem_of_app. right. rewrite elem_of_app. by right.
Qed.
Lemma allocation_inside a :
  a ∈ pd_bitmap placed :: pd_upcase placed :: allocations -> 0 < al_cluster_count a ->
  2 <= al_first_cluster a -> al_first_cluster a + al_cluster_count a <= cluster_count + 2.
Proof.
  intros Hin Hc H2. cut (al_first_cluster a - 2 + al_cluster_count a - 1 < cluster_count); [lia |].
  apply slots_inside. assert (Hmem : al_first_cluster a - 2 + al_cluster_count a - 1 ∈ allocation_slots a).
  { apply elem_of_run_slots. lia. }
  rewrite !elem_of_cons in Hin. rewrite !elem_of_app. right.
  destruct Hin as [->|[->|Hin]]; [by left | by right; left | right; right].
  apply list_elem_of_In, in_concat. exists (allocation_slots a). rewrite <- !list_elem_of_In.
  split; [by apply list_elem_of_fmap_2 | done].
Qed.
Lemma payload_inside r :
  r ∈ pd_reused placed -> Forall (fun c => 2 <= c < 2 + cluster_count) (rp_clusters r) /\
  NoDup (rp_clusters r) /\
  len (rp_clusters r) * cluster_bytes = sum_by ex_length (file_extents graph (rp_stream r)).
Proof.
  intros Hr. pose proof (se_placed _ _ _ _ _ _ _ _ _ _ _ _ Hs) as Hok.
  pose proof (po_reused _ _ _ _ Hok) as Hpay. rewrite Forall_forall in Hpay.
  destruct (Hpay r Hr) as [Hon _ Hcl _ _]. fold geometry in Hon, Hcl. rewrite Hcl.
  assert (Hsub : forall s, s ∈ file_slots (heap_of geometry) graph (rp_stream r) ->
    s ∈ source_slots graph (heap_of geometry) (pd_reused placed)).
  { intros s Hsl. apply elem_of_app. right. apply list_elem_of_In, in_concat. eexists.
    rewrite <- !list_elem_of_In. split; [|exact Hsl].
    by apply (list_elem_of_fmap_2 (fun r => file_slots _ graph (rp_stream r))). }
  split_and!.
  - apply Forall_fmap, Forall_forall. intros s Hsl. cbn [compose].
    pose proof (slots_inside s) as Hi. rewrite elem_of_app in Hi. specialize (Hi (or_introl (Hsub s Hsl))). lia.
  - apply NoDup_fmap_2; [intros ???; lia |].
    pose proof (po_slots _ _ _ _ Hok) as (_ & Hnd & _). apply NoDup_app in Hnd as (_ & _ & Hnd).
    apply NoDup_app in Hnd as (_ & _ & Hnd). apply NoDup_app in Hnd as (Hnd & _).
    apply NoDup_app in Hnd as (_ & _ & Hnd). fold geometry in Hnd. clear -Hnd Hr.
    apply list_elem_of_split in Hr as (l1 & l2 & E). rewrite E, fmap_app, concat_app in Hnd.
    apply NoDup_app in Hnd as (_ & _ & Hnd). by apply NoDup_app in Hnd as (Hnd & _).
  - unfold len. rewrite length_fmap. apply on_heap_slots; [|exact Hon].
    exact (gf_cluster _ (po_fits _ _ _ _ Hok)).
Qed.

(** ** Objects *)

(** The clusters of a file in its final layout. *)
Definition placed_stream (s s' : StreamLayout) : Prop :=
  if yl_mapped_bytes s =? 0 then s' = s
  else exists r, r ∈ pd_reused placed /\ rp_stream r = yl_stream s /\
    sum_by ex_length (file_extents graph (yl_stream s)) = yl_mapped_bytes s /\
    s' = mkStreamLayout (yl_stream s) (yl_logical_bytes s) (yl_initialized_bytes s) (yl_mapped_bytes s)
           (rp_clusters r) (rp_no_fat_chain r).

Lemma object_placed o :
  o ∈ og_objects graph -> exists l l', layouts !! ob_id o = Some l /\ pd_layouts placed !! ob_id o = Some l' /\
    layout_body l' = layout_body l /\ lo_kind l' = ob_kind o /\
    layout_named graph metadata (og_entries graph) (ob_id o) l /\
    (ob_kind o = File -> exists geometry' s s',
       validate_file_stream (ob_id o) (ob_streams o) geometry' Final = Ok s /\
       lo_stream l' = Some s' /\ placed_stream s s').
Proof.
  intros Ho. destruct placed_facts as (_ & _ & _ & Hd & Hn & g0 & _ & Hlaid).
  destruct (Hlaid o Ho) as (l & Hl & Hk & Hstream).
  destruct (same_layout_bodies_lookup _ _ _ _ (dp_bodies _ _ _ _ _ _ Hd) Hl) as (l' & Hl' & Hb).
  exists l, l'. assert (Hk' : lo_kind l' = ob_kind o) by (unfold layout_body in Hb; congruence).
  split_and!; [done | done | done | done | by apply Hn |].
  intros Hfile. rewrite Hfile in Hstream. destruct Hstream as (s & Hls & Hv).
  destruct (po_files _ _ _ _ (se_placed _ _ _ _ _ _ _ _ _ _ _ _ Hs) _ _ Hl) as (l1 & l2 & Hm & Hl2 & Hp).
  assert (l2 = l') as -> by congruence.
  assert (Hsame : lo_stream l' = lo_stream l1).
  { destruct (decide _); [|by subst]. destruct Hp as (a & n & _ & _ & ->). done. }
  unfold file_mapped in Hm. rewrite Hk, Hfile in Hm. destruct Hm as (s0 & Hs0 & Hm).
  assert (s0 = s) as -> by congruence. unfold placed_stream.
  destruct (yl_mapped_bytes s =? 0) eqn:Hz.
  - exists g0, s, s. rewrite Hz. subst l1. rewrite Hsame. done.
  - destruct Hm as (r & Hr & Hrs & Hsum & ->). exists g0, s. eexists. split; [done |].
    rewrite Hsame. split; [done |]. rewrite Hz. by exists r.
Qed.

(** ** Directories *)
Lemma whole_directory bytes count :
  bytes <= MAX_DIRECTORY_BYTES -> clusters_for bytes cluster_bytes = Ok count ->
  count * cluster_bytes <= MAX_DIRECTORY_BYTES.
Proof.
  intros Hb H. destruct placed_facts as ((j & Hj & _ & Hj25) & _).
  unfold clusters_for in H. inv_ok.
  assert (Hdiv : MAX_DIRECTORY_BYTES = 2 ^ (28 - j) * cluster_bytes).
  { rewrite Hj, <- N.pow_add_r. replace (28 - j + j) with 28 by lia. done. }
  assert (Hpos : 1 <= 2 ^ (28 - j)) by (pose proof (N.pow_nonzero 2 (28 - j) ltac:(lia)); lia).
  assert (Hcb : 0 < cluster_bytes) by (rewrite Hj; pose proof (N.pow_nonzero 2 j ltac:(lia)); lia).
  pose proof (N.Div0.div_mod bytes cluster_bytes). pose proof (N.mod_lt bytes cluster_bytes ltac:(lia)).
  rewrite Hdiv in *. clear Hj Hdiv. apply N.mul_le_mono_r.
  set (D := 2 ^ (28 - j)) in *. set (q := bytes / cluster_bytes) in *. set (r := bytes mod cluster_bytes) in *.
  destruct (N.ltb_spec 0 r) as [Hr|Hr].
  - assert (q < D); [|lia]. apply (N.mul_lt_mono_pos_r cluster_bytes); lia.
  - assert (q <= D); [|lia]. apply (N.mul_le_mono_pos_r q D cluster_bytes); lia.
Qed.

(** A directory in its clusters. *)
Record directory_at (o : ObjectId) (l : ObjectLayout) (a : ExfatAllocationRun) (w : OverlayWrite) : Prop :=
  mkDirectoryAt {
  da_layout : pd_layouts placed !! o = Some l;
  da_clusters : lo_directory_clusters l = run_slots (al_first_cluster a) (al_cluster_count a);
  da_count : 0 < al_cluster_count a;
  da_first : 2 <= al_first_cluster a;
  da_inside : al_first_cluster a + al_cluster_count a <= cluster_count + 2;
  da_size : al_cluster_count a * cluster_bytes <= MAX_DIRECTORY_BYTES;
  da_length : exists bytes,
    directory_length o (og_root graph) (pd_layouts placed) (has_label profile) = Ok bytes /\
    bytes <= al_cluster_count a * cluster_bytes;
  da_write : w ∈ writes /\ ow_offset w = heap_offset geometry + (al_first_cluster a - 2) * cluster_bytes /\
    build_directory o (og_root graph) (pd_layouts placed) (pd_bitmap placed) (pd_upcase placed)
      ((cluster_count + 7) / 8) (vp_volume_label profile) (vp_encoded_upcase_table profile)
      (vp_upcase_checksum profile) (pd_upcase_table placed) cluster_bytes = Ok (ow_bytes w)
}.
Lemma directory_placed_at o : o ∈ pd_order placed -> exists l a w, directory_at o l a w.
Proof.
  intros Ho. destruct placed_facts as (_ & _ & _ & Hd & _).
  pose proof (se_placed _ _ _ _ _ _ _ _ _ _ _ _ Hs) as Hok.
  destruct (po_directories _ _ _ _ Hok o Ho) as (l0 & l & Hl & a & bytes & Hin & Hc & Hw).
  destruct (all_writes_parts _ _ _ _ _ (se_writes _ _ _ _ _ _ _ _ _ _ _ _ Hs)) as (Hdirs & _).
  destruct (Hdirs o Ho) as (w & Hmem & Hdw). exists l, a, w.
  assert (Hrun : lo_directory_clusters l = run_slots (al_first_cluster a) (al_cluster_count a)) by by subst.
  unfold directory_write in Hdw. apply bind_Ok in Hdw as (built & Hbuilt & Hdw).
  apply expect_layout in Hdw as (l' & Hl' & Hdw). assert (l' = l) as -> by congruence.
  apply bind_Ok in Hdw as (a' & Ha' & Hdw). rewrite Hrun in Ha'.
  apply allocation_from_run in Ha'; [|done]. assert (a' = a) as -> by (by rewrite Ha'; destruct a).
  unfold allocation_write in Hdw. apply bind_Ok in Hdw as (offset & Hoff & Hdw). injection Hdw as <-.
  apply cluster_offset_Ok in Hoff as [H2 ->].
  destruct (dp_sized _ _ _ _ _ _ Hd o l Ho Hl) as [Z1 Z2 Z3]. fold cluster_bytes in Z3.
  rewrite Hrun, len_run_slots in Z3. apply clusters_for_Ok in Z3 as Z4.
  split; try done.
  - apply allocation_inside; [by right; right | done | done].
  - eapply whole_directory; [|exact Z3]. lia.
  - exists (lo_directory_bytes l). split; [done | apply Z4].
Qed.

(** ** The storage of a child *)
Lemma empty_stream_resident object stream others geometry' mode s :
  validate_file_stream object (stream :: others) geometry' mode = Ok s -> st_logical_bytes stream = 0 ->
  st_storage stream = Resident [].
Proof.
  cbn [validate_file_stream]. intros H Hz. apply then_Ok in H as [_ H]. apply then_Ok in H as [_ H].
  apply then_Ok in H as [H _]. rewrite Hz in H. apply refuse_if_Ok, negb_false_iff in H.
  by apply bool_decide_eq_true in H.
Qed.

(** What a file set says of a file. *)
Definition stream_storage (s : StreamLayout) : N * N * N * bool :=
  (default 0 (head (yl_clusters s)), yl_initialized_bytes s, yl_logical_bytes s,
   yl_no_fat_chain s && negb (yl_mapped_bytes s =? 0)).
Lemma payload_allocation is_root max_entries max_secondary r logical :
  r ∈ pd_reused placed -> 0 < sum_by ex_length (file_extents graph (rp_stream r)) ->
  logical <= sum_by ex_length (file_extents graph (rp_stream r)) ->
  (rp_no_fat_chain r = true -> 0 < logical) ->
  allocation_ok (destination_context geometry is_root max_entries max_secondary)
    (default 0 (head (rp_clusters r))) logical (rp_no_fat_chain r).
Proof.
  intros Hr Hpos Hle Hnfc. destruct (payload_inside r Hr) as (Hin & Hnd & Hlen).
  pose proof (bounded_NoDup_length _ _ _ Hnd Hin) as Hn.
  destruct placed_facts as ((j & Hj & _) & _).
  assert (Hcb : 0 < cluster_bytes) by (rewrite Hj; pose proof (N.pow_nonzero 2 j ltac:(lia)); lia).
  rewrite <- Hlen in Hpos, Hle. set (clusters := rp_clusters r) in *.
  destruct (head clusters) as [first|] eqn:Hh; [|destruct clusters; [unfold len in Hpos; simpl in Hpos; lia | done]].
  cbn [default from_option id]. right. unfold destination_context; cbn [dc_cluster_count dc_bytes_per_cluster].
  fold cluster_bytes cluster_count.
  assert (Hfirst : 2 <= first < 2 + cluster_count).
  { rewrite Forall_forall in Hin. apply Hin. destruct clusters as [|x l]; [done |]. injection Hh as ->. by left. }
  split_and!; [lia | lia | nia |]. intros Hc. split; [by apply Hnfc |].
  pose proof (po_reused _ _ _ _ (se_placed _ _ _ _ _ _ _ _ _ _ _ _ Hs)) as Hpay.
  rewrite Forall_forall in Hpay. destruct (Hpay r Hr) as [_ _ _ _ Hchain]. rewrite Hc in Hchain.
  pose proof (contiguous_run _ _ Hchain Hh) as Hrun. fold clusters in Hrun.
  assert (Hlast : first + len clusters - 1 < 2 + cluster_count).
  { rewrite Forall_forall in Hin. apply Hin. rewrite Hrun. apply elem_of_run_slots. rewrite len_run_slots.
    assert (0 < len clusters) by nia. lia. }
  cut ((logical + (cluster_bytes - 1)) / cluster_bytes <= len clusters); [lia |].
  apply N.lt_succ_r, N.Div0.div_lt_upper_bound. nia.
Qed.
Lemma file_storage is_root max_entries max_secondary o geometry' s s' :
  o ∈ og_objects graph -> validate_file_stream (ob_id o) (ob_streams o) geometry' Final = Ok s ->
  placed_stream s s' ->
  let '(first, valid, data, no_fat_chain) := stream_storage s' in
  storage_typed (first, valid, data, no_fat_chain) /\ lengths_ok valid data false /\
  allocation_ok (destination_context geometry is_root max_entries max_secondary) first data no_fat_chain.
Proof.
  intros Ho Hv Hp. unfold stream_storage. destruct (ob_streams o) as [|stream others] eqn:Est.
  { cbn in Hv. injection Hv as <-. unfold placed_stream in Hp. cbn in Hp. subst s'. cbn.
    split; [by vm_compute |]. split; [done | by left]. }
  assert (Hin : stream ∈ all_streams (og_objects graph)).
  { apply list_elem_of_In, in_concat. exists (ob_streams o). rewrite <- !list_elem_of_In.
    split; [by apply list_elem_of_fmap_2 |]. rewrite Est. by left. }
  destruct (validate_file_stream_Ok _ _ _ _ _ stream Hv ltac:(by left)) as (Hid & Hm & Hl & Hi).
  pose proof (go_stream _ _ _ _ _ Hgraph) as Hok. rewrite Forall_forall in Hok.
  destruct (Hok _ Hin) as [[Hil Hlm] Hst].
  pose proof (it_streams _ _ _ Htyped) as Hw. rewrite Forall_forall in Hw. specialize (Hw _ Hin).
  unfold placed_stream in Hp. destruct (N.eqb_spec (yl_mapped_bytes s) 0) as [Hz|Hz].
  - subst s'. rewrite (validate_file_stream_fresh _ _ _ _ _ Hv), (proj2 (N.eqb_eq _ _) Hz), andb_false_r.
    assert (st_logical_bytes stream = 0) as E by lia. rewrite Hl, Hi, E. cbn.
    split; [split_and!; [done | lia | done] |]. split; [by split; [lia|] | by left].
  - destruct Hp as (r & Hr & Hrs & Hsum & ->). cbn. rewrite (proj2 (N.eqb_neq _ _) Hz), andb_true_r.
    rewrite Hl, Hi. pose proof (payload_allocation is_root max_entries max_secondary r (st_logical_bytes stream) Hr) as Ha.
    rewrite Hrs, Hsum in Ha. specialize (Ha ltac:(lia) ltac:(lia)).
    assert (Hal : allocation_ok (destination_context geometry is_root max_entries max_secondary)
      (default 0 (head (rp_clusters r))) (st_logical_bytes stream) (rp_no_fat_chain r)).
    { apply Ha. intros _. destruct (N.eq_dec (st_logical_bytes stream) 0) as [E|]; [|lia].
      rewrite (empty_stream_resident _ _ _ _ _ _ Hv E) in Hst. lia. }
    split; [|by split; [split; [lia | done] | exact Hal]].
    destruct placed_facts as (_ & _ & Hcc & _).
    split_and!; [|lia | done]. destruct Hal as [(-> & _)|(Hf & _)]; [done |].
    cbn in Hf. fold cluster_count in Hf. lia.
Qed.

(** ** The children of a directory *)
Lemma directory_listed o l a w :
  o ∈ pd_order placed -> directory_at o l a w -> (o, a) ∈ pl_directories layout.
Proof.
  intros Ho Hat. destruct (Forall2_from_left _ _ _ _ (se_directories _ _ _ _ _ _ _ _ _ _ _ _ Hs) Ho)
    as ([o' a'] & (l' & Hl' & Heq & Ha') & Hmem).
  cbn in Heq, Ha'. subst o'. rewrite (da_layout _ _ _ _ Hat) in Hl'. injection Hl' as <-.
  rewrite (da_clusters _ _ _ _ Hat) in Ha'. apply allocation_from_run in Ha'; [|by eapply da_count].
  replace a with a'; [done |]. rewrite Ha'. by destruct a.
Qed.
Lemma entry_unique e e' :
  e ∈ og_entries graph -> e' ∈ og_entries graph -> ne_target e = ne_target e' ->
  (exists o, o ∈ og_objects graph /\ ob_id o = ne_target e /\ ne_target e <> og_root graph /\ ob_link_count o = 1) ->
  e = e'.
Proof.
  intros He He' Heq (o & Ho & Hid & Hr & Hone).
  pose proof (go_links _ _ _ _ _ Hgraph) as Hl. rewrite Forall_forall in Hl. specialize (Hl o Ho).
  rewrite (proj2 (N.eqb_neq _ _)), Hone in Hl by congruence. unfold links_to in Hl.
  set (found := filter (fun e => ne_target e = ob_id o) (og_entries graph)) in *.
  assert (e ∈ found) as H1 by (apply list_elem_of_filter; by split).
  assert (e' ∈ found) as H2 by (apply list_elem_of_filter; split; [congruence | done]).
  destruct found as [|x [|y rest]]; [by apply elem_of_nil in H1 | | unfold len in Hl; simpl in Hl; lia].
  apply list_elem_of_singleton in H1, H2. congruence.
Qed.
Lemma child_object o l e :
  o ∈ pd_order placed -> pd_layouts placed !! o = Some l -> e ∈ og_entries graph -> ne_parent e = o ->
  ne_target e ∈ lo_children l /\ exists object lc item, object ∈ og_objects graph /\ ob_id object = ne_target e /\
    pd_layouts placed !! ne_target e = Some lc /\ lo_kind lc = ob_kind object /\
    lo_metadata lc = Some item /\ item ∈ metadata /\ om_object item = ne_target e /\
    validate_metadata (ne_target e) (ob_kind object) item = Ok tt /\
    lo_name lc = Some (ne_name e) /\ validate_name (ne_name e) (ne_target e) = Ok tt /\
    (ob_kind object = File -> exists geometry' s s',
       validate_file_stream (ne_target e) (ob_streams object) geometry' Final = Ok s /\
       lo_stream lc = Some s' /\ placed_stream s s').
Proof.
  intros Ho Hl He Hp. destruct placed_facts as (_ & _ & _ & Hd & Hn & _).
  pose proof (go_entries _ _ _ _ _ Hgraph) as Hen. rewrite Forall_forall in Hen.
  destruct (Hen e He) as (_ & Hobj & Hroot & _). apply list_elem_of_fmap in Hobj as (object & Hid & Hobj).
  destruct (object_placed object Hobj) as (lc0 & lc & Hlc0 & Hlc & Hbody & Hkind & Hnamed & Hfile).
  rewrite <- Hid in *. split.
  - assert (Hsym : same_layout_bodies (pd_layouts placed) layouts) by (symmetry; apply Hd).
    destruct (same_layout_bodies_lookup _ _ _ _ Hsym Hl) as (l0 & Hl0 & Hb).
    unfold layout_body in Hb. injection Hb as _ _ _ Hch. rewrite <- Hch.
    rewrite (ln_children _ _ _ _ _ (Hn _ _ Hl0)). apply list_elem_of_fmap. exists e. split; [done |].
    by apply list_elem_of_filter.
  - unfold layout_body in Hbody. injection Hbody as E1 E2 E3 E4.
    destruct Hnamed as [Hm (object' & Hobj' & Hid' & Hone) Hnm _].
    destruct (lo_metadata lc0) as [item|] eqn:Em; [|congruence]. destruct Hm as (Hm1 & Hm2 & Hm3).
    destruct (lo_name lc0) as [name|] eqn:Enm.
    + destruct Hnm as [Hv (e' & He' & Ht' & Hn')].
      assert (e = e') as <-.
      { apply entry_unique; [done | done | congruence |]. exists object'. split_and!; [done | congruence | congruence |].
        apply Hone. congruence. }
      subst name. exists object, lc, item. rewrite <- E1, Hkind in Hm3. split_and!; try congruence; try done.
    + exfalso. apply Hnm, list_elem_of_fmap. by exists e.
Qed.

(** The storage of a child directory, and of a child file. *)
Lemma child_directory_storage c lc a w storage is_root max_entries max_secondary :
  directory_at c lc a w -> lo_kind lc = Directory -> child_storage lc cluster_bytes = Ok storage ->
  storage = (al_first_cluster a, al_cluster_count a * cluster_bytes, al_cluster_count a * cluster_bytes, true) /\
  storage_typed storage /\
  lengths_ok (al_cluster_count a * cluster_bytes) (al_cluster_count a * cluster_bytes) true /\
  allocation_ok (destination_context geometry is_root max_entries max_secondary) (al_first_cluster a)
    (al_cluster_count a * cluster_bytes) true.
Proof.
  intros [_ Hrun Hc Hf Hin Hsize _ _] Hk H. unfold child_storage in H. rewrite bool_decide_true in H by done.
  apply bind_Ok in H as (length & Hlen & H). apply ok_or_Ok, checked_mul_Some in Hlen as [-> _].
  apply bind_Ok in H as (first & Hfirst & H). apply at_index_Ok in Hfirst. injection H as <-.
  rewrite Hrun, len_run_slots in *.
  assert (first = al_first_cluster a) as ->.
  { pose proof (run_slots_head (al_first_cluster a) (al_cluster_count a) Hc) as Hh.
    destruct (run_slots _ _); [done |]. simpl in Hfirst, Hh. congruence. }
  destruct placed_facts as ((j & Hj & _) & _ & Hcc & _).
  assert (Hcb : 0 < cluster_bytes) by (rewrite Hj; pose proof (N.pow_nonzero 2 j ltac:(lia)); lia).
  assert (Hm : MAX_DIRECTORY_BYTES <= u64_max) by by vm_compute.
  split; [done |]. split; [split_and!; lia |]. split; [split; [lia | done] |]. right.
  unfold destination_context; cbn [dc_cluster_count dc_bytes_per_cluster]. fold cluster_bytes cluster_count.
  split_and!; [lia | lia | nia |]. intros _. split; [nia |].
  replace ((al_cluster_count a * cluster_bytes + (cluster_bytes - 1)) / cluster_bytes) with (al_cluster_count a);
    [done |].
  apply (N.div_unique _ _ _ (cluster_bytes - 1)); lia.
Qed.
Lemma child_file_described o s s' lc storage geometry' m name hash raw :
  validate_file_stream (ob_id o) (ob_streams o) geometry' Final = Ok s -> lo_kind lc = File ->
  lo_stream lc = Some s' -> placed_stream s s' -> child_storage lc cluster_bytes = Ok storage ->
  o ∈ og_objects graph ->
  storage = stream_storage s' /\
  file_described plan (ob_streams o) (described_file m name storage hash raw).
Proof.
  intros Hv Hk Hls Hp H Ho. unfold child_storage in H. rewrite bool_decide_false in H by congruence.
  rewrite Hls in H. injection H as <-. split; [done |].
  unfold file_described. rewrite (se_reused _ _ _ _ _ _ _ _ _ _ _ _ Hs).
  destruct (ob_streams o) as [|stream others] eqn:Est.
  { cbn in Hv. injection Hv as <-. unfold placed_stream in Hp. cbn in Hp. by subst s'. }
  destruct (validate_file_stream_Ok _ _ _ _ _ stream Hv ltac:(by left)) as (Hid & Hm & Hl & Hi).
  unfold placed_stream in Hp. rewrite Hm in Hp. destruct (N.eqb_spec (st_mapped_bytes stream) 0) as [Hz|Hz].
  - subst s'. unfold described_file, stream_storage.
    rewrite (validate_file_stream_fresh _ _ _ _ _ Hv). cbn. rewrite Hm, (proj2 (N.eqb_eq _ _) Hz), andb_false_r. done.
  - destruct Hp as (r & Hr & Hrs & Hsum & ->). cbn.
    split; [done |]. split; [done |]. exists r. rewrite (proj2 (N.eqb_neq _ _) Hz), andb_true_r.
    split; [done |]. split; [congruence |]. split; [|done].
    destruct (payload_inside r Hr) as (_ & _ & Hlen). rewrite Hrs, Hsum in Hlen.
    destruct (rp_clusters r); [unfold len in Hlen; simpl in Hlen; lia | done].
Qed.

Lemma described_basics m name storage hash raw :
  let f := described_file m name storage hash raw in
  1 <= len name -> name_of f = name /\ fe_file_attributes f = om_file_attributes m /\
  times_of f = om_timestamps m /\ fe_is_directory f = has_bits (om_file_attributes m) DIRECTORY_ATTRIBUTE.
Proof.
  destruct storage as [[[first valid] data] nfc]. cbn. intros _. split_and!; [|done| |done].
  - unfold name_of. cbn. unfold len. by rewrite Nat2N.id, take_app_length.
  - unfold times_of. cbn. by destruct (om_timestamps m).
Qed.

(** Either way the parser admits the storage, and the set describes the child. *)
Lemma child_storage_ready c object lc item name storage hash is_root max_entries max_secondary :
  object ∈ og_objects graph -> ob_id object = c -> pd_layouts placed !! c = Some lc ->
  lo_kind lc = ob_kind object -> child_storage lc cluster_bytes = Ok storage ->
  (ob_kind object = Directory -> c ∈ pd_order placed) ->
  (ob_kind object = File -> exists geometry' s s',
     validate_file_stream c (ob_streams object) geometry' Final = Ok s /\
     lo_stream lc = Some s' /\ placed_stream s s') ->
  (let '(first, valid, data, no_fat_chain) := storage in
    storage_typed (first, valid, data, no_fat_chain) /\
    lengths_ok valid data (bool_decide (lo_kind lc = Directory)) /\
    allocation_ok (destination_context geometry is_root max_entries max_secondary) first data no_fat_chain) /\
  forall raw, match ob_kind object with
  | Directory => directory_described plan layout c (described_file item name storage hash raw)
  | File => file_described plan (ob_streams object) (described_file item name storage hash raw)
  end.
Proof.
  intros Hobj Hid Hlc Hkind Hst Hdir Hfile. destruct (ob_kind object) eqn:Hk.
  - destruct (Hfile eq_refl) as (g' & s & s' & Hv & Hls & Hps). rewrite <- Hid in Hv.
    rewrite bool_decide_false by congruence. split.
    + pose proof (file_storage is_root max_entries max_secondary object g' s s' Hobj Hv Hps) as Hfs.
      unfold child_storage in Hst. rewrite bool_decide_false in Hst by congruence.
      rewrite Hls in Hst. injection Hst as <-. exact Hfs.
    + intros raw. by eapply (child_file_described object s s' lc).
  - destruct (directory_placed_at _ (Hdir eq_refl)) as (l' & a' & w' & Hat').
    assert (l' = lc) as -> by (pose proof (da_layout _ _ _ _ Hat'); congruence).
    destruct (child_directory_storage _ _ _ _ _ is_root max_entries max_secondary Hat' Hkind Hst)
      as (-> & H1 & H2 & H3).
    rewrite bool_decide_true by done. split; [done |]. intros raw. exists a'.
    split; [by apply (directory_listed c lc a' w'); [apply Hdir |] |].
    rewrite (se_geometry _ _ _ _ _ _ _ _ _ _ _ _ Hs). done.
Qed.

Lemma child_written o l a w e is_root max_entries max_secondary :
  o ∈ pd_order placed -> directory_at o l a w -> e ∈ og_entries graph -> ne_parent e = o ->
  exists c, wc_id c = ne_target e /\
    child_ready (destination_context geometry is_root max_entries max_secondary) (pd_layouts placed)
      (pd_upcase_table placed) cluster_bytes c /\
    forall raw, entry_described graph metadata plan layout e
      (described_file (wc_metadata c) (wc_name c) (wc_storage c) (wc_hash c) raw).
Proof.
  intros Ho Hat He Hp.
  destruct (child_object o l e Ho (da_layout _ _ _ _ Hat) He Hp)
    as (Hch & object & lc & item & Hobj & Hid & Hlc & Hkind & Hmeta & Hitem & Hown & Hvm & Hname & Hvn & Hfile).
  destruct (da_write _ _ _ _ Hat) as (_ & _ & Hbuild).
  destruct (build_directory_children _ _ _ _ _ _ _ _ _ _ _ _ _ _ Hbuild (da_layout _ _ _ _ Hat) Hch)
    as (lc' & name & storage & hash & m & Hlc' & Hname' & Hst & Hmeta' & Hhash).
  assert (lc' = lc) as -> by congruence. assert (name = ne_name e) as -> by congruence. clear m Hmeta' Hlc' Hname'.
  exists (mkWrittenChild (ne_target e) lc item (ne_name e) storage hash). split; [done |].
  pose proof (it_metadata _ _ _ Htyped) as Htm. rewrite Forall_forall in Htm.
  pose proof (it_names _ _ _ Htyped) as Htn. rewrite Forall_forall in Htn.
  assert (Hdir : ob_kind object = Directory -> ne_target e ∈ pd_order placed).
  { intros Hk. destruct placed_facts as (_ & _ & _ & Hd & _). apply (dp_closed _ _ _ _ _ _ Hd o); [done |].
    exists l, lc. split_and!; [apply Hat | done | done | congruence]. }
  destruct (child_storage_ready _ object lc item (ne_name e) storage hash is_root max_entries max_secondary
    Hobj Hid Hlc Hkind Hst Hdir Hfile) as [Hok Hdesc].
  split.
  - split; cbn [wc_id wc_layout wc_metadata wc_name wc_storage wc_hash]; try done.
    + by eapply name_hash_width.
    + unfold child_valid. destruct storage as [[[first valid] data] nfc]. destruct Hok as (H1 & H2 & H3).
      rewrite Hkind in *. split_and!; try done; [by apply Htm | by apply Htn].
  - intros raw. cbn [wc_id wc_layout wc_metadata wc_name wc_storage wc_hash].
    apply validate_name_valid in Hvn as [Hl _].
    destruct (described_basics item (ne_name e) storage hash raw ltac:(lia)) as (B1 & B2 & B3 & B4).
    exists object, item. split_and!; try done; [|exact (Hdesc raw)]. rewrite B4.
    unfold validate_metadata in Hvm. apply then_Ok in Hvm as [Hattr _].
    apply refuse_if_Ok, orb_false_iff in Hattr as [_ Hattr]. by apply negb_false_iff, eqb_prop in Hattr.
Qed.

(** ** The parsed directory *)
Lemma children_written o l a w es is_root max_entries max_secondary :
  o ∈ pd_order placed -> directory_at o l a w ->
  (forall e, e ∈ es -> e ∈ og_entries graph /\ ne_parent e = o) ->
  exists cs, wc_id <$> cs = ne_target <$> es /\
    Forall (child_ready (destination_context geometry is_root max_entries max_secondary) (pd_layouts placed)
      (pd_upcase_table placed) cluster_bytes) cs /\
    Forall2 (fun e c => forall raw, entry_described graph metadata plan layout e
      (described_file (wc_metadata c) (wc_name c) (wc_storage c) (wc_hash c) raw)) es cs.
Proof.
  intros Ho Hat. induction es as [|e es IH]; intros Hes.
  - exists []. split; [done |]. by split; constructor.
  - destruct (Hes e ltac:(by left)) as [He Hp].
    destruct (child_written o l a w e is_root max_entries max_secondary Ho Hat He Hp) as (c & Hid & Hready & Hd).
    destruct IH as (cs & Hids & Hall & Hdesc); [intros e' He'; apply Hes; by right |].
    exists (c :: cs). rewrite !fmap_cons, Hid, Hids. split; [done |]. by split; constructor.
Qed.
Lemma children_entries o l a w :
  o ∈ pd_order placed -> directory_at o l a w -> exists es,
    es ≡ₚ filter (fun e => ne_parent e = o) (og_entries graph) /\ lo_children l = ne_target <$> es.
Proof.
  intros Ho Hat. destruct placed_facts as (_ & _ & _ & Hd & Hn & _).
  assert (Hsym : same_layout_bodies (pd_layouts placed) layouts) by (symmetry; apply Hd).
  destruct (same_layout_bodies_lookup _ _ _ _ Hsym (da_layout _ _ _ _ Hat)) as (l0 & Hl0 & Hb).
  unfold layout_body in Hb. injection Hb as _ _ _ Hch.
  pose proof (ln_children _ _ _ _ _ (Hn _ _ Hl0)) as Hp. rewrite Hch in Hp.
  destruct (Permutation_map_inv _ _ Hp) as (es & Hes & Hperm). exists es. by split.
Qed.

(** The tables that the root names. *)
Lemma tables_ready max_entries max_secondary :
  let bitmap_length := (cluster_count + 7) / 8 in
  tables_typed (pd_bitmap placed) (pd_upcase placed) bitmap_length (vp_encoded_upcase_table profile)
    (vp_upcase_checksum profile) /\
  label_typed (vp_volume_label profile) /\
  root_context (destination_context geometry true max_entries max_secondary) (pd_bitmap placed)
    (pd_upcase placed) bitmap_length (vp_encoded_upcase_table profile).
Proof.
  intros bl. destruct placed_facts as ((j & Hj & Hj9 & Hj25) & Hc1 & Hcc & _).
  pose proof (se_placed _ _ _ _ _ _ _ _ _ _ _ _ Hs) as Hok.
  destruct (all_writes_parts _ _ _ _ _ (se_writes _ _ _ _ _ _ _ _ _ _ _ _ Hs)) as (_ & Hb2 & Hu2 & Hul).
  destruct (po_metadata _ _ _ _ Hok) as [Hbc Huc].
  pose proof (allocation_inside (pd_bitmap placed) ltac:(by left) Hbc Hb2) as Hbi.
  pose proof (allocation_inside (pd_upcase placed) ltac:(by right; left) Huc Hu2) as Hui.
  pose proof (proj1 (proj2 (parse_table_spec _ _ _) _) (se_upcase _ _ _ _ _ _ _ _ _ _ _ _ Hs)) as ([Hsize Heven _ Hsum] & _).
  assert (Hlen : len (vp_encoded_upcase_table profile) <= 131072) by apply Hsize.
  fold geometry cluster_bytes in Hul.
  assert (Hcb : 512 <= cluster_bytes <= 2 ^ 25).
  { rewrite Hj. change 512 with (2 ^ 9). split; (apply N.pow_le_mono_r; [done | lia]). }
  assert (Hbl : bl <= cluster_count + 1).
  { unfold bl. apply N.lt_succ_r, N.Div0.div_lt_upper_bound. lia. }
  split; [|split].
  - unfold tables_typed. widths. split_and!; try lia; try done. apply Htyped.
  - pose proof (se_profile _ _ _ _ _ _ _ _ _ _ _ _ Hs) as Hp. unfold validate_volume_profile in Hp.
    do 4 apply then_Ok in Hp as [_ Hp]. unfold label_typed.
    destruct (vp_volume_label profile) as [label|] eqn:El; [|done].
    apply then_Ok in Hp as [H1 Hp]. apply then_Ok in Hp as [H2 Hp].
    apply refuse_if_Ok in H1, H2, Hp. apply N.ltb_ge in H1. split; [done |].
    split; [by apply (it_label _ _ _ Htyped) |]. split_and!; [| by apply negb_false_iff | by intros].
    apply Forall_forall. intros x Hx. apply not_true_iff_false. intros Hf.
    apply not_true_iff_false in H2. apply H2, existsb_exists. exists x. by rewrite <- list_elem_of_In.
  - split; cbn; fold cluster_count cluster_bytes; try done; try lia.
    + widths. lia.
    + right. cbn. fold cluster_count cluster_bytes. split_and!; [lia | lia | nia | done].
    + split; [lia |]. exists (len (vp_encoded_upcase_table profile) / 2).
      pose proof (N.Div0.div_mod (len (vp_encoded_upcase_table profile)) 2). lia.
    + right. cbn. fold cluster_count cluster_bytes. split_and!; [lia | lia | nia | done].
Qed.

Lemma directory_is_ready o l a w es max_entries max_secondary :
  o ∈ pd_order placed -> directory_at o l a w -> lo_children l = ne_target <$> es ->
  (forall e, e ∈ es -> e ∈ og_entries graph /\ ne_parent e = o) ->
  al_cluster_count a * cluster_bytes <= 32 * max_entries -> 18 <= max_secondary ->
  exists cs, Forall2 (fun e c => forall raw, entry_described graph metadata plan layout e
      (described_file (wc_metadata c) (wc_name c) (wc_storage c) (wc_hash c) raw)) es cs /\
    directory_ready (destination_context geometry (o =? og_root graph) max_entries max_secondary) o
      (og_root graph) (pd_layouts placed) (pd_bitmap placed) (pd_upcase placed) ((cluster_count + 7) / 8)
      (vp_volume_label profile) (vp_encoded_upcase_table profile) (vp_upcase_checksum profile)
      (pd_upcase_table placed) cluster_bytes cs (al_cluster_count a * cluster_bytes).
Proof.
  intros Ho Hat Hch Hes Hme Hms.
  destruct (children_written o l a w es (o =? og_root graph) max_entries max_secondary Ho Hat Hes)
    as (cs & Hids & Hall & Hdesc).
  exists cs. split; [exact Hdesc |]. destruct placed_facts as ((j & Hj & Hj9 & Hj25) & Hc1 & Hcc & _).
  destruct Hat as [Hlay Hrun Hc Hf Hin Hsize Hlen (_ & _ & Hbuild)].
  unfold build_directory in Hbuild. rewrite Hlay in Hbuild. cbn [expect mbind outcome_bind] in Hbuild.
  apply bind_Ok in Hbuild as (a' & Ha' & Hbuild). apply bind_Ok in Hbuild as (size & Hpad & _).
  pose proof Ha' as Ha. rewrite Hrun in Ha. apply allocation_from_run in Ha; [|done].
  assert (a' = a) as -> by (by rewrite Ha; destruct a).
  pose proof (padded_bytes_Ok _ _ _ Hpad) as ->.
  assert (Hwhole : cluster_bytes = 32 * 2 ^ (j - 5)).
  { rewrite Hj. change 32 with (2 ^ 5). rewrite <- N.pow_add_r. f_equal. lia. }
  assert (Hcb : 512 <= cluster_bytes <= 2 ^ 25).
  { rewrite Hj. change 512 with (2 ^ 9). split; (apply N.pow_le_mono_r; [done | lia]). }
  assert (Hmd : MAX_DIRECTORY_BYTES <= isize_max) by by vm_compute.
  split; unfold destination_context; cbn [dc_cluster_count dc_bytes_per_cluster dc_number_of_fats dc_is_root
    dc_max_entries dc_max_secondary_entries]; fold cluster_bytes cluster_count; try done.
  - exists l, a. split_and!; [done | congruence | done | done].
  - exists (al_cluster_count a * 2 ^ (j - 5)). rewrite Hwhole in *. split; [lia |]. lia.
  - split; [nia | lia].
  - lia.
  - split; [|widths; lia]. apply is_power_of_two_spec. by exists j.
  - intros ->. rewrite N.eqb_refl. apply tables_ready.
Qed.

Lemma directories_listed object :
  object ∈ og_objects graph -> ob_kind object = Directory -> exists a, (ob_id object, a) ∈ pl_directories layout.
Proof.
  intros Hobj Hk. destruct placed_facts as (_ & _ & _ & Hd & _).
  assert (Hplaced : forall x, rtc (entry_link (og_entries graph)) (og_root graph) x ->
    is_directory (og_objects graph) x -> x ∈ pd_order placed).
  { intros x. refine (rtc_ind_r (fun x => is_directory (og_objects graph) x -> x ∈ pd_order placed) _ _ _ x).
    - intros _. apply Hd.
    - intros p c _ (e & He & Hp & Hc) IH Hdir. pose proof (go_entries _ _ _ _ _ Hgraph) as Hen. rewrite Forall_forall in Hen.
      destruct (Hen e He) as (Hpd & _). rewrite Hp in Hpd. specialize (IH Hpd).
      destruct (directory_placed_at _ IH) as (l & a & w & Hat). pose proof (da_layout _ _ _ _ Hat) as Hl.
      destruct Hdir as (o & Ho & Hid & Hkind). destruct (object_placed o Ho) as (_ & lc & _ & Hlc & _ & Hlk & _).
      apply (dp_closed _ _ _ _ _ _ Hd p); [done |]. exists l, lc. rewrite <- Hid.
      split_and!; [done | | done | congruence]. rewrite Hid, <- Hc. by eapply child_object. }
  assert (Ho : ob_id object ∈ pd_order placed).
  { apply Hplaced; [|by exists object]. pose proof (go_reachable _ _ _ _ _ Hgraph) as Hr.
    rewrite Forall_forall in Hr. by apply Hr. }
  destruct (directory_placed_at _ Ho) as (l & a & w & Hat). exists a. by eapply directory_listed.
Qed.

(** A listed directory on the image after the writes. *)
Lemma directory_content image o a :
  len image = eg_volume_bytes (og_extents graph) -> (o, a) ∈ pl_directories layout ->
  exists l w, o ∈ pd_order placed /\ directory_at o l a w /\
    allocation_content geometry (patch image (op_writes (sp_overlay plan))) a = ow_bytes w /\
    len (ow_bytes w) = al_cluster_count a * cluster_bytes.
Proof.
  intros Himage Hin.
  destruct (Forall2_from_right _ _ _ _ (se_directories _ _ _ _ _ _ _ _ _ _ _ _ Hs) Hin)
    as (o' & (l' & Hl' & Heq & Ha) & Ho). cbn in Heq, Ha. subst o'.
  destruct (directory_placed_at _ Ho) as (l & a' & w & Hat). exists l, w.
  rewrite (da_layout _ _ _ _ Hat) in Hl'. injection Hl' as <-.
  rewrite (da_clusters _ _ _ _ Hat) in Ha. apply allocation_from_run in Ha as Ha'; [|by eapply da_count].
  assert (a' = a) as -> by (by rewrite Ha'; destruct a').
  destruct (da_write _ _ _ _ Hat) as (Hw & Hoff & Hbuild).
  eapply build_directory_size in Hbuild as (a2 & Ha2 & Hsize); [|by eapply da_layout].
  rewrite (da_clusters _ _ _ _ Hat), Ha in Ha2. injection Ha2 as <-.
  split; [done |]. split; [done |]. split; [|exact Hsize].
  rewrite allocation_content_range by apply Hat. cbv zeta. fold cluster_bytes. rewrite <- Hoff, <- Hsize.
  rewrite (se_overlay _ _ _ _ _ _ _ _ _ _ _ _ Hs). apply subslice_written.
  - rewrite sort_by_key_perm, Himage. apply (se_fits _ _ _ _ _ _ _ _ _ _ _ _ Hs).
  - eapply disjoint_ranges_perm; [symmetry; apply sort_by_key_perm |]. apply (se_disjoint _ _ _ _ _ _ _ _ _ _ _ _ Hs).
  - by rewrite sort_by_key_perm.
Qed.
Lemma root_listed a :
  (og_root graph, a) ∈ pl_directories layout ->
  al_first_cluster a = dg_root_directory_cluster (pd_geometry placed).
Proof.
  intros Hin. destruct (directory_content (replicate (N.to_nat (eg_volume_bytes (og_extents graph))) x00) _ _
    ltac:(by rewrite len_replicate, N2Nat.id) Hin) as (l & w & _ & Hat & _).
  destruct (po_root _ _ _ _ (se_placed _ _ _ _ _ _ _ _ _ _ _ _ Hs)) as (l' & Hl' & Hh).
  rewrite (da_layout _ _ _ _ Hat) in Hl'. injection Hl' as <-.
  rewrite (da_clusters _ _ _ _ Hat), run_slots_head in Hh by (by eapply da_count). by injection Hh.
Qed.
Lemma children_described es cs raws context :
  Forall2 (fun e c => forall raw, entry_described graph metadata plan layout e
      (described_file (wc_metadata c) (wc_name c) (wc_storage c) (wc_hash c) raw)) es cs ->
  Forall2 (set_of context) cs raws ->
  exists files, zip_with child_record cs raws = RecordFile <$> files /\
    Forall2 (entry_described graph metadata plan layout) es files.
Proof using Type.
  intros H. revert raws. induction H as [|e c es cs Hd _ IH]; intros raws Hr.
  - exists []. split; [done | constructor].
  - apply Forall2_cons_inv_l in Hr as (raw & raws' & _ & Hr & ->).
    destruct (IH raws' Hr) as (files & Hz & Hf). eexists (_ :: files). simpl. rewrite Hz.
    split; [reflexivity |]. constructor; [apply Hd | exact Hf].
Qed.
End Readback.

(** * Property *)

(** C30: the directories of the destination can be read back.  When a final
    serialization of a well-formed graph succeeds, with inputs of their Rust
    widths and the directory limit at most 256 MiB (the default), then on every
    image of the volume, after all its writes:
    - the layout lists the root and every other directory of the graph, with the
      clusters of each, and the geometry names the first cluster of the root;
    - the bytes in these clusters are accepted by the directory parser, for every
      limit that admits their number of entries and 18 secondary entries;
    - it reads the system entries of the root and one file set for each entry of
      the graph in that directory, and no other record;
    - each set has the name of its entry and the attributes and times of its
      object; for a directory it names the listed clusters of that directory, for
      a file the sizes of its stream and the first cluster of its payload. *)
Theorem directories_read_back graph_limits graph metadata profile options limits pinned plan layout image :
  graph_ok (og_root graph) (og_objects graph) (og_entries graph) (og_extents graph) graph_limits ->
  inputs_typed graph metadata profile -> sl_max_directory_bytes limits <= MAX_DIRECTORY_BYTES ->
  serialize_exfat_destination_impl graph metadata profile options limits Final pinned = Ok (plan, layout) ->
  len image = eg_volume_bytes (og_extents graph) ->
  let candidate := patch image (op_writes (sp_overlay plan)) in
  let geometry := sp_geometry plan in
  (forall object, object ∈ og_objects graph -> ob_kind object = Directory ->
     exists a, (ob_id object, a) ∈ pl_directories layout) /\
  (forall a, (og_root graph, a) ∈ pl_directories layout ->
     al_first_cluster a = dg_root_directory_cluster geometry) /\
  forall o a, (o, a) ∈ pl_directories layout ->
  forall max_entries max_secondary,
    len (allocation_content geometry candidate a) <= 32 * max_entries -> 18 <= max_secondary ->
    exists summary entries files,
      parse_directory (allocation_content geometry candidate a)
        (destination_context geometry (o =? og_root graph) max_entries max_secondary)
      = Ok (summary, head_records o (og_root graph) (vp_volume_label profile) (pl_bitmap layout)
             (pl_upcase layout) ((dg_cluster_count geometry + 7) / 8) (vp_encoded_upcase_table profile)
             (vp_upcase_checksum profile) ++ (RecordFile <$> files)) /\
      entries ≡ₚ filter (fun e => ne_parent e = o) (og_entries graph) /\
      Forall2 (entry_described graph metadata plan layout) entries files.
Proof.
  intros Hgraph Htyped Hmax H Himage candidate geometry.
  apply serialize_impl_Ok in H as (layouts & als & placed & writes & Hs); [|apply Htyped].
  pose proof (se_geometry _ _ _ _ _ _ _ _ _ _ _ _ Hs) as Hg. unfold geometry. rewrite Hg.
  split; [by eapply directories_listed |]. split; [by eapply root_listed |].
  intros o a Hin max_entries max_secondary Hme Hms.
  destruct (se_tables _ _ _ _ _ _ _ _ _ _ _ _ Hs) as [Hb Hu].
  unfold geometry, candidate in *. rewrite Hb, Hu.
  edestruct directory_content as (l & w & Ho & Hat & Hcontent & Hlen); [done..|].
  rewrite Hcontent in *. rewrite Hlen in Hme.
  edestruct children_entries as (es & Hperm & Hch); [done..|].
  edestruct (directory_is_ready graph metadata profile options limits pinned plan layout) with (es := es)
    as (cs & Hdesc & Hready); [done.. | | exact Hme | exact Hms |].
  { intros e He. rewrite Hperm in He. by apply list_elem_of_filter in He as [-> ?]. }
  destruct (written_directory_parsed _ _ _ _ _ _ _ _ _ _ _ _ _ _ Hready)
    as (directory & summary & raws & Hbuild & _ & Hraws & Hparse).
  destruct (da_write _ _ _ _ _ _ _ _ Hat) as (_ & _ & Hbuild').
  assert (directory = ow_bytes w) as -> by congruence.
  edestruct children_described as (files & Hz & Hf); [exact Hdesc | exact Hraws |].
  exists summary, es, files. rewrite Hparse, Hz. done.
Qed.

(** ** The small volume of [ExfatSerialize.v] *)
Definition sample_source : ObjectGraph := sample_stream_at 40960 24576.
Lemma sample_source_ok :
  graph_ok (og_root sample_source) (og_objects sample_source) (og_entries sample_source)
    (og_extents sample_source) sample_graph_limits.
Proof.
  edestruct (build_graph_ok (og_root sample_source) (og_objects sample_source) (og_entries sample_source)
    (og_extents sample_source) sample_graph_limits) as [H _]; [vm_compute; reflexivity | exact H].
Qed.
Lemma sample_inputs_typed : inputs_typed sample_source sample_metadata sample_profile.
Proof.
  split.
  - by vm_compute.
  - repeat constructor; by vm_compute.
  - repeat constructor; by vm_compute.
  - repeat constructor; by vm_compute.
  - intros label [= <-]. repeat constructor; by vm_compute.
  - by vm_compute.
Qed.
Lemma directories_read_back_witness : exists plan layout a summary entries files,
  serialize_exfat_destination_impl sample_source sample_metadata sample_profile
    sample_options sample_serialize_limits Final None = Ok (plan, layout) /\
  (6, a) ∈ pl_directories layout /\
  let bytes := allocation_content (sp_geometry plan) (patch sample_image (op_writes (sp_overlay plan))) a in
  parse_directory bytes (destination_context (sp_geometry plan) false (len bytes) 18)
    = Ok (summary, RecordFile <$> files) /\
  entries ≡ₚ [mkNamespaceEntry 6 9 [97]] /\
  Forall2 (entry_described sample_source sample_metadata plan layout) entries files.
Proof.
  destruct sample_serializes as (plan & layout & H).
  destruct (directories_read_back sample_graph_limits sample_source sample_metadata sample_profile sample_options
    sample_serialize_limits None plan layout sample_image sample_source_ok sample_inputs_typed
    ltac:(by vm_compute) H len_sample_image) as (Hlisted & _ & Hread).
  destruct (Hlisted (mkObjectRecord 6 Directory 1 plain [])) as [a Ha]; [by right; left | done |].
  set (bytes := allocation_content (sp_geometry plan) (patch sample_image (op_writes (sp_overlay plan))) a).
  destruct (Hread 6 a Ha (len bytes) 18) as (summary & entries & files & Hp & He & Hf);
    [fold bytes; lia | lia |].
  exists plan, layout, a, summary, entries, files. split; [exact H |]. split; [exact Ha |]. split; [exact Hp |].
  split; [exact He | exact Hf].
Defined.
