(* ===== verification/NtfsAttribute.v ===== *)
(** * NTFS attributes

    The reader of the attributes of a repaired FILE record
    ([fs/ntfs_attribute.rs]).  [decides P m] states of a computation that it does
    not panic and succeeds exactly with the results in [P]; every step of the
    reader has such a lemma, against a declarative record of what the bytes must
    be ([name_of], [resident_of], [non_resident_of], [attribute_of],
    [attributes_of]).

    A reservation that fails is not modelled.  The theorem: the attribute list of
    a record is accepted exactly when well-formed attributes of ascending types
    and distinct identifiers tile the record up to the end marker; no input makes
    the reader panic or loop. *)

From S2P Require Export Prelude Bytes Runlist FileRecord.
From stdpp Require Import options.

#[local] Open Scope N_scope.

Definition COMMON_HEADER_LEN : N := 16.
Definition RESIDENT_HEADER_LEN : N := 24.
Definition NON_RESIDENT_HEADER_LEN : N := 64.
Definition EXTENDED_NON_RESIDENT_HEADER_LEN : N := 72.
Definition COMPRESSION_MASK : N := 255.
Definition COMPRESSED : N := 1.
Definition ENCRYPTED : N := 16384.
Definition SPARSE : N := 32768.
Definition KNOWN_FLAGS : N := N.lor (N.lor COMPRESSION_MASK ENCRYPTED) SPARSE.

(** ** Data *)
Record AttributeLimits : Type := mkAttributeLimits {
  lt_cluster_size_bytes : N;
  lt_max_attribute_bytes : N;
  lt_max_name_code_units : N;
  lt_max_attributes : N
}.

Record AttributeName : Type := mkAttributeName {
  an_code_units : list N;
  an_is_well_formed : bool
}.

Record AttributeFlags : Type := mkAttributeFlags {
  fl_raw : N;
  fl_compression_method : N;
  fl_encrypted : bool;
  fl_sparse : bool;
  fl_unknown_bits : N
}.
Definition is_compressed (flags : AttributeFlags) : bool := negb (fl_compression_method flags =? 0).

Record ResidentAttribute : Type := mkResidentAttribute {
  ra_indexed : bool;
  ra_value_offset : N;
  ra_value : list byte
}.

Record NonResidentSizes : Type := mkNonResidentSizes {
  ns_allocated : N;
  ns_data : N;
  ns_initialized : N;
  ns_compressed : option N
}.

Record NonResidentAttribute : Type := mkNonResidentAttribute {
  nr_lowest_vcn : N;
  nr_highest_vcn : option N;
  nr_expected_next_vcn : N;
  nr_mapping_pairs_offset : N;
  nr_mapping_pairs : list byte;
  nr_compression_unit : N;
  nr_compression_block_bytes : option N;
  nr_sizes : option NonResidentSizes
}.

Inductive AttributeBody : Type :=
| Resident (body : ResidentAttribute)
| NonResident (body : NonResidentAttribute).

Record NtfsAttribute : Type := mkNtfsAttribute {
  at_attribute_type : N;
  at_length : N;
  at_name : option AttributeName;
  at_name_offset : N;
  at_flags : AttributeFlags;
  at_id : N;
  at_raw : list byte;
  at_body : AttributeBody
}.

Record NtfsAttributeList : Type := mkNtfsAttributeList {
  li_attributes : list NtfsAttribute;
  li_end_marker_offset : N
}.

Inductive AttributeRange : Type := Name | ResidentValue | MappingPairs.

Inductive NtfsAttributeError : Type :=
| InvalidClusterSize (value : N)
| Truncated (actual required : N)
| EndMarker
| InvalidType (value : N)
| InvalidLength (value available : N)
| AttributeTooLarge (value maximum : N)
| InvalidStorageForm (value : N)
| NameLimitExceeded (value maximum : N)
| InvalidNameOffset (value minimum : N)
| RangeOutOfBounds (range : AttributeRange) (offset length attribute_length : N)
| OverlappingRanges (first second : AttributeRange)
| InvalidFlags (value : N)
| InvalidResidentFlags (value : N)
| ResidentReservedNotZero (value : N)
| InvalidValueOffset (value : N)
| NonResidentReservedNotZero
| InvalidVcnRange (lowest highest : Z)
| VcnOverflow (highest : N)
| InvalidMappingPairsOffset (value minimum : N)
| InvalidCompressionUnit (value flags : N)
| SizeFieldNegative (field : string) (value : Z)
| SizeNotClusterAligned (field : string) (value cluster_size : N)
| InitializedExceedsData (initialized data : N)
| DataExceedsAllocation (data allocated : N)
| CompressedExceedsAllocation (compressed allocated : N)
| CompressionBlockOverflow
| AllocationNotCompressionBlockAligned (allocated block_size : N)
| InvalidRecordBounds (attributes_offset bytes_in_use record_len : N)
| AttributeLimitExceeded (maximum : N)
| AttributeTypesOutOfOrder (previous current : N)
| DuplicateAttributeId (id : N)
| MissingEndMarker
| AllocationFailed.

#[local] Abbreviation result := (outcome NtfsAttributeError).

(** ** Fields *)
Definition le_u8 (bytes : list byte) (offset : N) : result N := read_le 1 bytes offset.
Definition le_u16 (bytes : list byte) (offset : N) : result N := read_le 2 bytes offset.
Definition le_u32 (bytes : list byte) (offset : N) : result N := read_le 4 bytes offset.
Definition le_i64 (bytes : list byte) (offset : N) : result Z :=
  u ← read_le 8 bytes offset; Ok (i64_of_u64 u).
(** [u64::try_from] of a signed integer. *)
Definition u64_of_i64 (z : Z) : option N := if (z <? 0)%Z then None else Some (Z.to_N z).

Definition validate_limits (limits : AttributeLimits) : result unit :=
  refuse_if ((lt_cluster_size_bytes limits <? 512)
             || negb (is_power_of_two (lt_cluster_size_bytes limits)))
    (InvalidClusterSize (lt_cluster_size_bytes limits)).

Definition validate_type (value : N) : result unit :=
  refuse_if (value =? ATTRIBUTE_END) EndMarker ;;
  refuse_if ((value <? 16) || negb (N.land value 15 =? 0)) (InvalidType value).

Definition parse_flags (raw : N) : result AttributeFlags :=
  let compression_method := N.land raw COMPRESSION_MASK in
  refuse_if ((1 <? compression_method)
             || negb (N.land raw (N.lxor KNOWN_FLAGS u16_max) =? 0)
             || (negb (N.land raw ENCRYPTED =? 0)
                 && negb (N.land raw (N.lor COMPRESSED SPARSE) =? 0)))
    (InvalidFlags raw) ;;
  Ok (mkAttributeFlags raw compression_method (negb (N.land raw ENCRYPTED =? 0))
        (negb (N.land raw SPARSE =? 0)) (N.land raw (N.lxor KNOWN_FLAGS u16_max))).

Definition checked_range (raw : list byte) (range : AttributeRange) (offset length : N)
    : result (list byte) :=
  end_ ← ok_or (RangeOutOfBounds range offset length (len raw)) (checked_add offset length);
  ok_or (RangeOutOfBounds range offset length (len raw)) (get_range offset end_ raw).

Definition validate_no_overlap (first : option (N * N)) (second : N * N)
    (first_kind second_kind : AttributeRange) : result unit :=
  match first with
  | Some (first_offset, first_length) =>
      let first_end := saturating_add first_offset first_length in
      let second_end := saturating_add second.1 second.2 in
      refuse_if ((first_offset <? second_end) && (second.1 <? first_end))
        (OverlappingRanges first_kind second_kind)
  | None => Ok tt
  end.

(** [chunks_exact(2)], each pair decoded. *)
Fixpoint u16_pairs (bytes : list byte) : list N :=
  match bytes with
  | a :: b :: rest => le_num [a; b] :: u16_pairs rest
  | _ => []
  end.

Definition parse_name (raw : list byte) (header_len maximum : N)
    : result (option AttributeName * option (N * N)) :=
  units ← le_u8 raw 9;
  if units =? 0 then Ok (None, None)
  else
    refuse_if (maximum <? units) (NameLimitExceeded units maximum) ;;
    offset ← le_u16 raw 10;
    refuse_if ((offset <? header_len) || negb (offset mod 2 =? 0))
      (InvalidNameOffset offset header_len) ;;
    length ← ok_or (RangeOutOfBounds Name offset usize_max (len raw)) (checked_mul units 2);
    name_bytes ← checked_range raw Name offset length;
    let code_units := u16_pairs name_bytes in
    Ok (Some (mkAttributeName code_units (utf16_valid code_units)), Some (offset, length)).

(** ** Resident attributes *)
Definition parse_resident (raw : list byte) (flags : AttributeFlags) (name : option (N * N))
    : result ResidentAttribute :=
  refuse_if (negb (fl_raw flags =? 0)) (InvalidFlags (fl_raw flags)) ;;
  resident_flags ← le_u8 raw 22;
  refuse_if (negb (N.land resident_flags (N.lxor 1 u8_max) =? 0)) (InvalidResidentFlags resident_flags) ;;
  reserved ← le_u8 raw 23;
  refuse_if (negb (reserved =? 0)) (ResidentReservedNotZero reserved) ;;
  value_offset ← le_u16 raw 20;
  refuse_if ((value_offset <? RESIDENT_HEADER_LEN)
             || (bool_decide (is_Some name) && negb (value_offset mod 8 =? 0)))
    (InvalidValueOffset value_offset) ;;
  raw_length ← le_u32 raw 16;
  let value_length := default usize_max (usize_try_from raw_length) in
  value ← checked_range raw ResidentValue value_offset value_length;
  validate_no_overlap name (value_offset, value_length) Name ResidentValue ;;
  Ok (mkResidentAttribute (negb (N.land resident_flags 1 =? 0)) value_offset value).

(** ** Non-resident attributes *)
Definition parse_vcns (lowest highest : Z) : result (N * option N * N) :=
  if (lowest =? 0)%Z && (highest =? -1)%Z then Ok (0, None, 0)
  else
    lowest_u64 ← ok_or (InvalidVcnRange lowest highest) (u64_of_i64 lowest);
    highest_u64 ← ok_or (InvalidVcnRange lowest highest) (u64_of_i64 highest);
    refuse_if (highest_u64 <? lowest_u64) (InvalidVcnRange lowest highest) ;;
    expected ← ok_or (VcnOverflow highest_u64) (checked_add highest_u64 1);
    Ok (lowest_u64, Some highest_u64, expected).

(** [1_u64.checked_shl]. *)
Definition checked_shl_one (shift : N) : option N := if shift <? 64 then Some (2 ^ shift) else None.

Definition validate_compression (flags : AttributeFlags) (unit_ cluster_size : N) : result (option N) :=
  if is_compressed flags then
    refuse_if ((unit_ =? 0) || (31 <? unit_)) (InvalidCompressionUnit unit_ (fl_raw flags)) ;;
    clusters ← ok_or CompressionBlockOverflow (checked_shl_one unit_);
    bytes ← ok_or CompressionBlockOverflow (checked_mul cluster_size clusters);
    Ok (Some bytes)
  else
    refuse_if (negb (unit_ =? 0)) (InvalidCompressionUnit unit_ (fl_raw flags)) ;;
    Ok None.

Definition nonnegative_size (raw : list byte) (offset : N) (field : string) : result N :=
  value ← le_i64 raw offset;
  ok_or (SizeFieldNegative field value) (u64_of_i64 value).

Definition validate_cluster_alignment (field : string) (value cluster_size : N) : result unit :=
  r ← rem_u64 value cluster_size;
  refuse_if (negb (r =? 0)) (SizeNotClusterAligned field value cluster_size).

Definition parse_sizes (raw : list byte) (flags : AttributeFlags) (cluster_size : N)
    (compression_block : option N) (mapped_bytes : N) : result NonResidentSizes :=
  allocated ← nonnegative_size raw 40 "allocated size";
  data ← nonnegative_size raw 48 "data size";
  initialized ← nonnegative_size raw 56 "initialized size";
  validate_cluster_alignment "allocated size" allocated cluster_size ;;
  refuse_if (data <? initialized) (InitializedExceedsData initialized data) ;;
  refuse_if (negb (fl_sparse flags) && negb (is_compressed flags) && (allocated <? data))
    (DataExceedsAllocation data allocated) ;;
  match compression_block with
  | Some block_size =>
      if 0 <? mapped_bytes
      then r ← rem_u64 mapped_bytes block_size;
           refuse_if (negb (r =? 0)) (AllocationNotCompressionBlockAligned mapped_bytes block_size)
      else Ok tt
  | None => Ok tt
  end ;;
  compressed ←
    (if fl_sparse flags || is_compressed flags then
       value ← nonnegative_size raw 64 "compressed size";
       validate_cluster_alignment "compressed size" value cluster_size ;;
       refuse_if (allocated <? value) (CompressedExceedsAllocation value allocated) ;;
       Ok (Some value)
     else Ok None);
  Ok (mkNonResidentSizes allocated data initialized compressed).

Definition parse_non_resident (raw : list byte) (flags : AttributeFlags) (name : option (N * N))
    (cluster_size : N) : result NonResidentAttribute :=
  reserved ← index_range 35 40 raw;
  refuse_if (existsb (fun b => negb (Byte.to_N b =? 0)) reserved) NonResidentReservedNotZero ;;
  lowest_signed ← le_i64 raw 16;
  highest_signed ← le_i64 raw 24;
  '(lowest_vcn, highest_vcn, expected_next_vcn) ← parse_vcns lowest_signed highest_signed;
  let header_len :=
    if is_compressed flags || fl_sparse flags
    then EXTENDED_NON_RESIDENT_HEADER_LEN else NON_RESIDENT_HEADER_LEN in
  mapping_offset ← le_u16 raw 32;
  refuse_if ((mapping_offset <? header_len) || negb (mapping_offset mod 8 =? 0)
             || (len raw <=? mapping_offset))
    (InvalidMappingPairsOffset mapping_offset header_len) ;;
  mapping_length ← sub_u64 (len raw) mapping_offset;
  validate_no_overlap name (mapping_offset, mapping_length) Name MappingPairs ;;
  compression_unit ← le_u8 raw 34;
  compression_block_bytes ← validate_compression flags compression_unit cluster_size;
  sizes ←
    (if lowest_vcn =? 0 then
       mapped_bytes ← ok_or CompressionBlockOverflow
         (checked_sub expected_next_vcn lowest_vcn ≫= fun clusters => checked_mul clusters cluster_size);
       sizes ← parse_sizes raw flags cluster_size compression_block_bytes mapped_bytes;
       Ok (Some sizes)
     else Ok None);
  mapping_pairs ← index_range mapping_offset (len raw) raw;
  Ok (mkNonResidentAttribute lowest_vcn highest_vcn expected_next_vcn mapping_offset mapping_pairs
        compression_unit compression_block_bytes sizes).

(** ** One attribute *)
Definition parse_attribute (bytes : list byte) (limits : AttributeLimits) : result NtfsAttribute :=
  validate_limits limits ;;
  refuse_if (len bytes <? COMMON_HEADER_LEN) (Truncated (len bytes) COMMON_HEADER_LEN) ;;
  attribute_type ← le_u32 bytes 0;
  validate_type attribute_type ;;
  length_u32 ← le_u32 bytes 4;
  let length := default usize_max (usize_try_from length_u32) in
  refuse_if ((length <? COMMON_HEADER_LEN) || negb (length mod 8 =? 0) || (len bytes <? length))
    (InvalidLength length_u32 (len bytes)) ;;
  refuse_if (lt_max_attribute_bytes limits <? length)
    (AttributeTooLarge length (lt_max_attribute_bytes limits)) ;;
  raw ← index_range 0 length bytes;
  form ← le_u8 raw 8;
  refuse_if (1 <? form) (InvalidStorageForm form) ;;
  raw_flags ← le_u16 raw 12;
  flags ← parse_flags raw_flags;
  let header_len :=
    if form =? 0 then RESIDENT_HEADER_LEN
    else if is_compressed flags || fl_sparse flags then EXTENDED_NON_RESIDENT_HEADER_LEN
    else NON_RESIDENT_HEADER_LEN in
  refuse_if (length <? header_len) (Truncated length header_len) ;;
  '(name, name_range) ← parse_name raw header_len (lt_max_name_code_units limits);
  body ←
    (if form =? 0
     then r ← parse_resident raw flags name_range; Ok (Resident r)
     else r ← parse_non_resident raw flags name_range (lt_cluster_size_bytes limits);
          Ok (NonResident r));
  name_offset ← le_u16 raw 10;
  id ← le_u16 raw 14;
  Ok (mkNtfsAttribute attribute_type length_u32 name name_offset flags id raw body).

(** ** The list of a record

    The loop; [offset] and [previous_type] are its variables. An attribute has at
    least sixteen bytes, so a record has at most one round per byte. *)
Fixpoint attribute_loop (fuel : nat) (repaired_record : list byte) (bytes_in_use : N)
    (limits : AttributeLimits) (attributes : list NtfsAttribute) (offset previous_type : N)
    : result NtfsAttributeList :=
  match fuel with
  | O => Panic
  | S fuel =>
      if match checked_add offset 4 with Some end_ => end_ <=? bytes_in_use | None => false end then
        attribute_type ← le_u32 repaired_record offset;
        if attribute_type =? ATTRIBUTE_END then Ok (mkNtfsAttributeList attributes offset)
        else
          refuse_if (lt_max_attributes limits <=? len attributes)
            (AttributeLimitExceeded (lt_max_attributes limits)) ;;
          rest ← index_range offset bytes_in_use repaired_record;
          parsed ← parse_attribute rest limits;
          refuse_if (at_attribute_type parsed <? previous_type)
            (AttributeTypesOutOfOrder previous_type (at_attribute_type parsed)) ;;
          refuse_if (existsb (fun existing => at_id existing =? at_id parsed) attributes)
            (DuplicateAttributeId (at_id parsed)) ;;
          offset ← ok_or MissingEndMarker (checked_add offset (len (at_raw parsed)));
          attribute_loop fuel repaired_record bytes_in_use limits (attributes ++ [parsed]) offset
            (at_attribute_type parsed)
      else Err MissingEndMarker
  end.

Definition parse_attribute_list (repaired_record : list byte) (attributes_offset bytes_in_use : N)
    (limits : AttributeLimits) : result NtfsAttributeList :=
  validate_limits limits ;;
  refuse_if ((bytes_in_use <? attributes_offset) || (len repaired_record <? bytes_in_use))
    (InvalidRecordBounds attributes_offset bytes_in_use (len repaired_record)) ;;
  attribute_loop (S (N.to_nat bytes_in_use)) repaired_record bytes_in_use limits [] attributes_offset 0.

(** ** Specification *)
Definition flags_ok (raw : N) : Prop :=
  N.land raw COMPRESSION_MASK <= 1 /\ N.land raw (N.lxor KNOWN_FLAGS u16_max) = 0 /\
  (N.land raw ENCRYPTED = 0 \/ N.land raw (N.lor COMPRESSED SPARSE) = 0).
Definition flags_of (raw : N) : AttributeFlags :=
  mkAttributeFlags raw (N.land raw COMPRESSION_MASK) (negb (N.land raw ENCRYPTED =? 0))
    (negb (N.land raw SPARSE =? 0)) (N.land raw (N.lxor KNOWN_FLAGS u16_max)).
(** The sizes of compressed and sparse attributes have a fourth field. *)
Definition extended (flags : AttributeFlags) : bool := is_compressed flags || fl_sparse flags.

Definition name_at (raw : list byte) (offset units : N) : AttributeName :=
  let code_units := u16_pairs (subslice offset (offset + units * 2) raw) in
  mkAttributeName code_units (utf16_valid code_units).
Definition name_of (raw : list byte) (header_len maximum : N)
    (r : option AttributeName * option (N * N)) : Prop :=
  let units := field 1 raw 9 in
  let offset := field 2 raw 10 in
  units = 0 /\ r = (None, None) \/
  0 < units /\ units <= maximum /\ header_len <= offset /\ offset mod 2 = 0 /\
  offset + units * 2 <= len raw /\ r = (Some (name_at raw offset units), Some (offset, units * 2)).

Record resident_of (raw : list byte) (flags : AttributeFlags) (name : option (N * N))
    (r : ResidentAttribute) : Prop := {
  re_flags : fl_raw flags = 0;
  re_indexed : N.land (field 1 raw 22) (N.lxor 1 u8_max) = 0;
  re_reserved : field 1 raw 23 = 0;
  re_offset : RESIDENT_HEADER_LEN <= field 2 raw 20;
  re_aligned : is_Some name -> field 2 raw 20 mod 8 = 0;
  re_inside : field 2 raw 20 + field 4 raw 16 <= len raw;
  re_clear : forall o n, name = Some (o, n) ->
    ~ (o < field 2 raw 20 + field 4 raw 16 /\ field 2 raw 20 < o + n);
  re_value : r = mkResidentAttribute (negb (N.land (field 1 raw 22) 1 =? 0)) (field 2 raw 20)
    (subslice (field 2 raw 20) (field 2 raw 20 + field 4 raw 16) raw)
}.

Definition vcns_of (lowest highest : Z) (r : N * option N * N) : Prop :=
  lowest = 0%Z /\ highest = (-1)%Z /\ r = (0, None, 0) \/
  (0 <= lowest <= highest)%Z /\
  r = (Z.to_N lowest, Some (Z.to_N highest), Z.to_N highest + 1).

Definition compression_of (flags : AttributeFlags) (unit_ cluster_size : N) (r : option N) : Prop :=
  is_compressed flags = true /\ 1 <= unit_ <= 31 /\ cluster_size * 2 ^ unit_ <= u64_max /\
    r = Some (cluster_size * 2 ^ unit_) \/
  is_compressed flags = false /\ unit_ = 0 /\ r = None.

Record sizes_of (raw : list byte) (flags : AttributeFlags) (cluster_size : N) (block : option N)
    (mapped : N) (s : NonResidentSizes) : Prop := {
  sz_signed : field 8 raw 40 < 2 ^ 63 /\ field 8 raw 48 < 2 ^ 63 /\ field 8 raw 56 < 2 ^ 63;
  sz_aligned : field 8 raw 40 mod cluster_size = 0;
  sz_initialized : field 8 raw 56 <= field 8 raw 48;
  sz_data : extended flags = false -> field 8 raw 48 <= field 8 raw 40;
  sz_blocks : forall b, block = Some b -> 0 < mapped -> mapped mod b = 0;
  sz_compressed : extended flags = true ->
    field 8 raw 64 < 2 ^ 63 /\ field 8 raw 64 mod cluster_size = 0 /\ field 8 raw 64 <= field 8 raw 40;
  sz_result : s = mkNonResidentSizes (field 8 raw 40) (field 8 raw 48) (field 8 raw 56)
    (if extended flags then Some (field 8 raw 64) else None)
}.

Record non_resident_of (raw : list byte) (flags : AttributeFlags) (name : option (N * N))
    (cluster_size : N) (r : NonResidentAttribute) : Prop := {
  no_reserved : Forall (fun b => b = x00) (subslice 35 40 raw);
  no_vcns : vcns_of (i64_of_u64 (field 8 raw 16)) (i64_of_u64 (field 8 raw 24))
    (nr_lowest_vcn r, nr_highest_vcn r, nr_expected_next_vcn r);
  no_offset : nr_mapping_pairs_offset r = field 2 raw 32;
  no_header : (if extended flags then EXTENDED_NON_RESIDENT_HEADER_LEN else NON_RESIDENT_HEADER_LEN)
    <= field 2 raw 32;
  no_aligned : field 2 raw 32 mod 8 = 0;
  no_inside : field 2 raw 32 < len raw;
  no_clear : forall o n, name = Some (o, n) -> ~ (o < len raw /\ field 2 raw 32 < o + n);
  no_pairs : nr_mapping_pairs r = subslice (field 2 raw 32) (len raw) raw;
  no_unit : nr_compression_unit r = field 1 raw 34;
  no_compression : compression_of flags (field 1 raw 34) cluster_size (nr_compression_block_bytes r);
  no_sizes : if nr_lowest_vcn r =? 0
    then nr_expected_next_vcn r * cluster_size <= u64_max /\
      exists s, nr_sizes r = Some s /\
        sizes_of raw flags cluster_size (nr_compression_block_bytes r)
          (nr_expected_next_vcn r * cluster_size) s
    else nr_sizes r = None
}.

Definition header_length (form : N) (flags : AttributeFlags) : N :=
  if form =? 0 then RESIDENT_HEADER_LEN
  else if extended flags then EXTENDED_NON_RESIDENT_HEADER_LEN else NON_RESIDENT_HEADER_LEN.

(** An attribute at the start of [bytes]. *)
Record attribute_of (bytes : list byte) (limits : AttributeLimits) (a : NtfsAttribute) : Prop := {
  ak_limits : 512 <= lt_cluster_size_bytes limits /\
    is_power_of_two (lt_cluster_size_bytes limits) = true;
  ak_kind : at_attribute_type a = field 4 bytes 0;
  ak_kind_ok : 16 <= at_attribute_type a /\ at_attribute_type a <> ATTRIBUTE_END /\
    N.land (at_attribute_type a) 15 = 0;
  ak_length : at_length a = field 4 bytes 4;
  ak_length_ok : 16 <= at_length a /\ at_length a mod 8 = 0 /\ at_length a <= len bytes /\
    at_length a <= lt_max_attribute_bytes limits;
  ak_raw : at_raw a = subslice 0 (at_length a) bytes;
  ak_form : field 1 (at_raw a) 8 <= 1;
  ak_flags : flags_ok (field 2 (at_raw a) 12) /\ at_flags a = flags_of (field 2 (at_raw a) 12);
  ak_header : header_length (field 1 (at_raw a) 8) (at_flags a) <= at_length a;
  ak_body : exists range,
    name_of (at_raw a) (header_length (field 1 (at_raw a) 8) (at_flags a))
      (lt_max_name_code_units limits) (at_name a, range) /\
    match at_body a with
    | Resident r => field 1 (at_raw a) 8 = 0 /\ resident_of (at_raw a) (at_flags a) range r
    | NonResident r => field 1 (at_raw a) 8 <> 0 /\
        non_resident_of (at_raw a) (at_flags a) range (lt_cluster_size_bytes limits) r
    end;
  ak_name_offset : at_name_offset a = field 2 (at_raw a) 10;
  ak_id : at_id a = field 2 (at_raw a) 14
}.

(** * Lemmas *)

(** [decides P m]: [m] does not panic and succeeds exactly with the results in
    [P]. *)
Definition decides {A : Type} (P : A -> Prop) (m : result A) : Prop :=
  m <> Panic /\ forall a, m = Ok a <-> P a.

Lemma decides_Ok {A} (P : A -> Prop) a : P a -> (forall b, P b -> b = a) -> decides P (Ok a).
Proof. intros Ha Hu. split; [done |]. intros b. split; [by intros [= <-] | intros Hb; by rewrite (Hu b Hb)]. Qed.
Lemma decides_Err {A} (P : A -> Prop) e : (forall a, ~ P a) -> decides P (Err e).
Proof. intros Hn. split; [done |]. intros a. split; [done | intros Ha; by apply Hn in Ha]. Qed.
Lemma decides_bind {A B} (P : A -> Prop) (Q : B -> Prop) (m : result A) (f : A -> result B) :
  decides P m -> (forall a, P a -> decides Q (f a)) -> (forall b, Q b -> exists a, P a) ->
  decides Q (m ≫= f).
Proof.
  intros [Hs Hm] Hf Hq. destruct m as [a|e|]; cbn [mbind outcome_bind]; [| |done].
  - apply Hf. by apply Hm.
  - apply decides_Err. intros b Hb. destruct (Hq b Hb) as [a Ha]. by apply Hm in Ha.
Qed.
Lemma decides_refuse {A} (P : A -> Prop) c e (k : result A) :
  (c = false -> decides P k) -> (c = true -> forall a, ~ P a) -> decides P (refuse_if c e ;; k).
Proof.
  intros Hk Hc. rewrite refuse_or. destruct c; [apply decides_Err; by apply Hc | by apply Hk].
Qed.
Lemma decides_ok_or {A B} (P : A -> Prop) e (o : option B) (k : B -> result A) :
  (forall x, o = Some x -> decides P (k x)) -> (o = None -> forall a, ~ P a) ->
  decides P (ok_or e o ≫= k).
Proof. intros Hk Hn. destruct o; [by apply Hk | apply decides_Err; by apply Hn]. Qed.

Lemma decides_unique {A} (P : A -> Prop) m a b : decides P m -> P a -> P b -> a = b.
Proof. intros [_ Hm] Ha%Hm Hb%Hm. congruence. Qed.

Lemma limits_spec limits :
  decides (fun _ : unit => 512 <= lt_cluster_size_bytes limits /\
    is_power_of_two (lt_cluster_size_bytes limits) = true) (validate_limits limits).
Proof.
  unfold validate_limits. destruct (lt_cluster_size_bytes limits <? 512) eqn:H1; cbn [orb refuse_if].
  { apply decides_Err. intros _ [H _]. apply N.ltb_lt in H1. lia. }
  apply N.ltb_ge in H1. destruct (is_power_of_two _) eqn:H2; cbn [negb refuse_if].
  - apply decides_Ok; [done | by intros []].
  - by apply decides_Err; intros _ [_ ?].
Qed.
Lemma type_spec value :
  decides (fun _ : unit => 16 <= value /\ value <> ATTRIBUTE_END /\ N.land value 15 = 0) (validate_type value).
Proof.
  unfold validate_type. apply decides_refuse; intros H1.
  2: { apply N.eqb_eq in H1. intros _ (_ & H & _). done. }
  apply N.eqb_neq in H1. destruct (N.ltb_spec value 16) as [H2|H2]; cbn [orb refuse_if].
  { apply decides_Err. intros _ [H _]. lia. }
  destruct (N.eqb_spec (N.land value 15) 0) as [H3|H3]; cbn [negb refuse_if].
  - apply decides_Ok; [done | by intros []].
  - apply decides_Err. by intros _ (_ & _ & ?).
Qed.
Lemma flags_spec raw : decides (fun f => flags_ok raw /\ f = flags_of raw) (parse_flags raw).
Proof.
  unfold parse_flags, flags_ok. apply decides_refuse; intros H.
  - apply decides_Ok; [|by intros ? [_ ->]]. split; [|done]. bool_props.
    split; [done |]. split; [done |].
    match goal with H : _ && _ = false |- _ => apply andb_false_iff in H as [H|H] end; bool_props; auto.
  - intros f [(H1 & H2 & H3) _]. apply orb_true_iff in H as [H|H].
    + apply orb_true_iff in H as [H|H]; [apply N.ltb_lt in H; lia |].
      by rewrite H2 in H.
    + apply andb_true_iff in H as [Ha Hb]. apply negb_true_iff, N.eqb_neq in Ha, Hb. tauto.
Qed.

Section Fields.
Variable raw : list byte.
Hypothesis Hraw : len raw <= u64_max.

Lemma get_range_in lo hi : lo <= hi -> hi <= len raw -> get_range lo hi raw = Some (subslice lo hi raw).
Proof using Hraw. intros. apply get_range_Some. done. Qed.
Lemma get_range_out lo hi : len raw < hi -> get_range lo hi raw = None.
Proof using Hraw.
  intros Hh. destruct (get_range lo hi raw) as [s|] eqn:Hg; [|done].
  apply get_range_Some in Hg as (_ & ? & _). lia.
Qed.
Lemma checked_range_spec kind offset length :
  decides (fun s => offset + length <= len raw /\ s = subslice offset (offset + length) raw)
    (checked_range raw kind offset length).
Proof using Hraw.
  unfold checked_range. apply decides_ok_or.
  - intros e He. apply checked_add_Some in He as [-> _].
    destruct (N.le_gt_cases (offset + length) (len raw)) as [Hl|Hl].
    + rewrite get_range_in by lia. apply decides_Ok; [done | by intros ? [_ ->]].
    + rewrite get_range_out by lia. apply decides_Err. intros ? [? _]. lia.
  - intros Hn%checked_add_None a [? _]. lia.
Qed.

Lemma no_overlap_spec name offset length k1 k2 :
  offset + length <= len raw -> (forall o n, name = Some (o, n) -> o + n <= len raw) ->
  decides (fun _ : unit => forall o n, name = Some (o, n) -> ~ (o < offset + length /\ offset < o + n))
    (validate_no_overlap name (offset, length) k1 k2).
Proof using Hraw.
  intros Ho Hn. unfold validate_no_overlap. destruct name as [[o n]|].
  - specialize (Hn o n eq_refl). cbn [fst snd]. rewrite !saturating_add_in by lia.
    destruct (N.ltb_spec o (offset + length)), (N.ltb_spec offset (o + n)); cbn [andb refuse_if];
      try (apply decides_Ok; [intros ? ? [= <- <-] [? ?]; lia | by intros []]).
    apply decides_Err. intros _ Hx. by apply (Hx o n).
  - apply decides_Ok; [done | by intros []].
Qed.

Lemma name_spec header_len maximum :
  12 <= len raw -> decides (name_of raw header_len maximum) (parse_name raw header_len maximum).
Proof using Hraw.
  intros Hl. unfold parse_name, name_of, le_u8, le_u16. rewrite !read_le_in by lia. cbn [mbind outcome_bind].
  pose proof (field_bound 1 raw 9) as Hb. change (256 ^ N.of_nat 1) with 256 in Hb. widths.
  set (units := field 1 raw 9) in *. set (offset := field 2 raw 10).
  destruct (N.eqb_spec units 0) as [H0|H0].
  { apply decides_Ok; [by left |]. intros r [[_ ->]|[? _]]; [done | lia]. }
  apply decides_refuse; intros H1.
  2: { apply N.ltb_lt in H1. intros r [[? _]|(_ & ? & _)]; [done | lia]. }
  apply decides_refuse; intros H2.
  2: { intros r [[? _]|(_ & _ & ? & H & _)]; [done |]. apply orb_true_iff in H2 as [H2|H2];
       [apply N.ltb_lt in H2; lia |]. by rewrite H in H2. }
  bool_props. rewrite checked_mul_in by lia. cbn [ok_or mbind outcome_bind].
  eapply decides_bind; [apply checked_range_spec | |].
  - intros s [Hin ->]. apply decides_Ok.
    + right. split_and!; try done; lia.
    + intros r [[? _]|(_ & _ & _ & _ & _ & ->)]; done.
  - intros r [[? _]|(_ & _ & _ & _ & ? & _)]; [done | eauto].
Qed.
Lemma name_of_inside header_len maximum name o n :
  name_of raw header_len maximum (name, Some (o, n)) -> o + n <= len raw /\ header_len <= o.
Proof using Hraw. intros [[_ [=]]|(_ & _ & ? & _ & ? & [= _ -> ->])]. done. Qed.

Lemma resident_spec flags name :
  24 <= len raw -> (forall o n, name = Some (o, n) -> o + n <= len raw) ->
  decides (resident_of raw flags name) (parse_resident raw flags name).
Proof using Hraw.
  intros Hl Hn. unfold parse_resident, le_u8, le_u16, le_u32. widths. apply decides_refuse; intros H1.
  2: { apply negb_true_iff, N.eqb_neq in H1. by intros r []. }
  apply negb_false_iff, N.eqb_eq in H1. rewrite !read_le_in by lia. cbn [mbind outcome_bind].
  apply decides_refuse; intros H2. 2: { apply negb_true_iff, N.eqb_neq in H2. by intros r []. }
  apply decides_refuse; intros H3. 2: { apply negb_true_iff, N.eqb_neq in H3. by intros r []. }
  cbn [mbind outcome_bind].
  apply decides_refuse; intros H4.
  2: { intros r [_ _ _ Ho Ha _ _ _]. apply orb_true_iff in H4 as [H4|H4]; [apply N.ltb_lt in H4; lia |].
    apply andb_true_iff in H4 as [H4 H5]. apply bool_decide_eq_true in H4. by rewrite (Ha H4) in H5. }
  pose proof (field_bound 4 raw 16) as Hb. change (256 ^ N.of_nat 4) with 4294967296 in Hb.
  rewrite usize_try_from_in by (unfold usize_max; lia). cbn [from_option id].
  apply negb_false_iff, N.eqb_eq in H2. apply negb_false_iff, N.eqb_eq in H3.
  pose proof H4 as [Ho _]%orb_false_iff. apply N.ltb_ge in Ho.
  eapply decides_bind; [apply checked_range_spec | |].
  - intros s [Hin ->]. eapply decides_bind; [by apply no_overlap_spec | |].
    + intros [] Hclear. apply decides_Ok.
      * split; try done. intros Hs. apply orb_false_iff in H4 as [_ H4].
        apply andb_false_iff in H4 as [H4|H4]; by bool_props.
      * by intros r [_ _ _ _ _ _ _ ->].
    + intros r [_ _ _ _ _ _ Hc _]. exists tt. exact Hc.
  - intros r [_ _ _ _ _ Hi _ _]. eauto.
Qed.

Lemma le_i64_in offset :
  offset + 8 <= len raw -> le_i64 raw offset = Ok (i64_of_u64 (field 8 raw offset)).
Proof using Hraw. intros H. unfold le_i64. by rewrite read_le_in by lia. Qed.
Lemma i64_nonnegative u :
  u < 2 ^ 64 -> u64_of_i64 (i64_of_u64 u) = if u <? 2 ^ 63 then Some u else None.
Proof using Hraw.
  intros Hu. unfold i64_of_u64, u64_of_i64. change (2 ^ 64) with 18446744073709551616 in Hu.
  change (2 ^ 63) with 9223372036854775808. change (2 ^ 64)%Z with 18446744073709551616%Z.
  destruct (N.ltb_spec u 9223372036854775808).
  - destruct (Z.ltb_spec (Z.of_N u) 0); [lia |]. by rewrite N2Z.id.
  - destruct (Z.ltb_spec (Z.of_N u - 18446744073709551616) 0); [done | lia].
Qed.
Lemma i64_of_u64_range u :
  u < 2 ^ 64 -> (- 9223372036854775808 <= i64_of_u64 u <= 9223372036854775807)%Z.
Proof using Hraw.
  intros Hu. unfold i64_of_u64. change (2 ^ 64) with 18446744073709551616 in Hu.
  change (2 ^ 63) with 9223372036854775808. change (2 ^ 64)%Z with 18446744073709551616%Z.
  destruct (N.ltb_spec u 9223372036854775808); lia.
Qed.
Lemma field8_bound offset : offset + 8 <= len raw -> field 8 raw offset < 2 ^ 64.
Proof using Hraw. exact (field_bound 8 raw offset). Qed.

Lemma vcns_spec lowest highest :
  (highest <= 9223372036854775807)%Z -> decides (vcns_of lowest highest) (parse_vcns lowest highest).
Proof using Hraw.
  intros Hh. unfold parse_vcns, vcns_of, u64_of_i64. widths.
  destruct ((lowest =? 0)%Z && (highest =? -1)%Z) eqn:H0.
  { apply andb_true_iff in H0 as [->%Z.eqb_eq ->%Z.eqb_eq]. apply decides_Ok; [by left |].
    intros r [(_ & _ & ->)|[H _]]; [done | lia]. }
  assert (~ (lowest = 0 /\ highest = -1)%Z) as Hn.
  { intros [-> ->]. done. }
  destruct (Z.ltb_spec lowest 0) as [H1|H1]; cbn [ok_or mbind outcome_bind].
  { apply decides_Err. intros r [(? & ? & _)|[H _]]; [tauto | lia]. }
  destruct (Z.ltb_spec highest 0) as [H2|H2]; cbn [ok_or mbind outcome_bind].
  { apply decides_Err. intros r [(? & ? & _)|[H _]]; [tauto | lia]. }
  apply decides_refuse; intros H3.
  2: { apply N.ltb_lt in H3. intros r [(? & ? & _)|[H _]]; [tauto | lia]. }
  apply N.ltb_ge in H3. rewrite checked_add_in by lia. cbn [ok_or mbind outcome_bind].
  apply decides_Ok; [right; split; [lia | done] |].
  intros r [(? & ? & _)|[H ->]]; [tauto | done].
Qed.

Lemma compression_spec flags unit_ cluster_size :
  decides (compression_of flags unit_ cluster_size) (validate_compression flags unit_ cluster_size).
Proof using Hraw.
  unfold validate_compression, compression_of, checked_shl_one. widths.
  destruct (is_compressed flags) eqn:Hc.
  - apply decides_refuse; intros H1.
    2: { intros r [(_ & H & _)|(? & _)]; [|done]. apply orb_true_iff in H1 as [H1|H1]; bool_props; lia. }
    bool_props. destruct (N.ltb_spec unit_ 64) as [_|?]; [|lia]. cbn [ok_or mbind outcome_bind].
    destruct (N.le_gt_cases (cluster_size * 2 ^ unit_) u64_max) as [Hm|Hm].
    + rewrite checked_mul_in by done. apply decides_Ok; [left; split_and!; try done; lia |].
      by intros r [(_ & _ & _ & ->)|(? & _)].
    + destruct (checked_mul _ _) eqn:He; [apply checked_mul_Some in He; lia |].
      apply decides_Err. intros r [(_ & _ & ? & _)|(? & _)]; [lia | done].
  - apply decides_refuse; intros H1.
    2: { intros r [(? & _)|(_ & -> & _)]; done. }
    bool_props. apply decides_Ok; [by right |]. by intros r [(? & _)|(_ & _ & ->)].
Qed.

Lemma size_spec offset name :
  offset + 8 <= len raw ->
  decides (fun v => field 8 raw offset < 2 ^ 63 /\ v = field 8 raw offset)
    (nonnegative_size raw offset name).
Proof using Hraw.
  intros Ho. unfold nonnegative_size. rewrite le_i64_in by done. cbn [mbind outcome_bind].
  rewrite (i64_nonnegative _ (field8_bound offset Ho)).
  destruct (N.ltb_spec (field 8 raw offset) (2 ^ 63)); cbn [ok_or].
  - apply decides_Ok; [done | by intros ? [_ ->]].
  - apply decides_Err. intros ? [? _]. lia.
Qed.
Lemma alignment_spec name value cluster_size :
  cluster_size <> 0 ->
  decides (fun _ : unit => value mod cluster_size = 0) (validate_cluster_alignment name value cluster_size).
Proof using Hraw.
  intros Hc. unfold validate_cluster_alignment. rewrite rem_u64_in by done. cbn [mbind outcome_bind].
  destruct (N.eqb_spec (value mod cluster_size) 0); cbn [negb refuse_if].
  - apply decides_Ok; [done | by intros []].
  - by apply decides_Err.
Qed.
Lemma blocks_spec block mapped :
  (forall b, block = Some b -> b <> 0) ->
  decides (fun _ : unit => forall b, block = Some b -> 0 < mapped -> mapped mod b = 0)
    match block with
    | Some block_size =>
        if 0 <? mapped
        then r ← rem_u64 mapped block_size;
             refuse_if (negb (r =? 0)) (AllocationNotCompressionBlockAligned mapped block_size)
        else Ok tt
    | None => Ok tt
    end.
Proof using Hraw.
  intros Hb. destruct block as [b|]; [|apply decides_Ok; [done | by intros []]].
  specialize (Hb b eq_refl). destruct (N.ltb_spec 0 mapped).
  - rewrite rem_u64_in by done. cbn [mbind outcome_bind].
    destruct (N.eqb_spec (mapped mod b) 0); cbn [negb refuse_if].
    + apply decides_Ok; [by intros ? [= <-] | by intros []].
    + apply decides_Err. intros _ Hx. by specialize (Hx b eq_refl ltac:(lia)).
  - apply decides_Ok; [lia | by intros []].
Qed.

Definition header_size (flags : AttributeFlags) : N :=
  if extended flags then EXTENDED_NON_RESIDENT_HEADER_LEN else NON_RESIDENT_HEADER_LEN.

Lemma fourth_size_spec flags cluster_size :
  cluster_size <> 0 -> header_size flags <= len raw ->
  decides (fun c => if extended flags
      then field 8 raw 64 < 2 ^ 63 /\ field 8 raw 64 mod cluster_size = 0 /\
        field 8 raw 64 <= field 8 raw 40 /\ c = Some (field 8 raw 64)
      else c = None)
    (if fl_sparse flags || is_compressed flags then
       value ← nonnegative_size raw 64 "compressed size";
       validate_cluster_alignment "compressed size" value cluster_size ;;
       refuse_if (field 8 raw 40 <? value) (CompressedExceedsAllocation value (field 8 raw 40)) ;;
       Ok (Some value)
     else Ok None).
Proof using Hraw.
  intros Hc Hl. unfold header_size, EXTENDED_NON_RESIDENT_HEADER_LEN in Hl.
  rewrite orb_comm. change (is_compressed flags || fl_sparse flags) with (extended flags).
  destruct (extended flags); [|apply decides_Ok; [done | by intros ? ->]].
  eapply decides_bind; [apply size_spec; lia | | intros s (? & _); eauto].
  intros ? [Hz ->]. eapply decides_bind; [by apply alignment_spec | | intros s (_ & ? & _); by exists tt].
  intros [] Hza. apply decides_refuse; intros H3.
  2: { apply N.ltb_lt in H3. intros s (_ & _ & ? & _). lia. }
  apply N.ltb_ge in H3. apply decides_Ok; [done | by intros s (_ & _ & _ & ->)].
Qed.

Lemma sizes_spec flags cluster_size block mapped :
  cluster_size <> 0 -> (forall b, block = Some b -> b <> 0) -> header_size flags <= len raw ->
  decides (sizes_of raw flags cluster_size block mapped)
    (parse_sizes raw flags cluster_size block mapped).
Proof using Hraw.
  intros Hc Hb Hl. unfold parse_sizes. assert (64 <= len raw) as H64.
  { unfold header_size, EXTENDED_NON_RESIDENT_HEADER_LEN, NON_RESIDENT_HEADER_LEN in Hl.
    destruct (extended flags); lia. }
  eapply decides_bind; [apply size_spec; lia | | intros s [(? & _) _ _ _ _ _ _]; eauto].
  intros ? [Ha ->]. eapply decides_bind; [apply size_spec; lia | | intros s [(_ & ? & _) _ _ _ _ _ _]; eauto].
  intros ? [Hd ->]. eapply decides_bind; [apply size_spec; lia | | intros s [(_ & _ & ?) _ _ _ _ _ _]; eauto].
  intros ? [Hi ->]. eapply decides_bind; [by apply alignment_spec | | intros s [_ ? _ _ _ _ _]; by exists tt].
  intros [] Hal. apply decides_refuse; intros H1.
  2: { apply N.ltb_lt in H1. intros s [_ _ ? _ _ _ _]. lia. }
  apply N.ltb_ge in H1. apply decides_refuse; intros H2.
  2: { intros s [_ _ _ Hs _ _ _]. unfold extended in Hs. bool_props.
    match goal with H : fl_sparse flags = false, H' : is_compressed flags = false |- _ =>
      rewrite H, H' in Hs end. specialize (Hs eq_refl). lia. }
  eapply decides_bind; [by apply blocks_spec | | intros s [_ _ _ _ ? _ _]; by exists tt].
  intros [] Hblock.
  assert (extended flags = false -> field 8 raw 48 <= field 8 raw 40) as Hdata.
  { unfold extended. intros [Hz Hs]%orb_false_iff. rewrite Hz, Hs in H2. cbn [negb andb] in H2.
    by apply N.ltb_ge in H2. }
  eapply decides_bind; [by apply fourth_size_spec | |].
  - intros c Hx. apply decides_Ok.
    + destruct (extended flags) eqn:He; [destruct Hx as (? & ? & ? & ->) | subst c];
        constructor; rewrite ?He; auto; done.
    + intros s [_ _ _ _ _ _ ->]. destruct (extended flags); [by destruct Hx as (_ & _ & _ & ->) | by subst c].
  - intros s [_ _ _ _ _ Hx _]. destruct (extended flags) eqn:He; [|eauto].
    destruct (Hx eq_refl) as (? & ? & ?). eauto.
Qed.

Lemma reserved_clear l :
  existsb (fun b => negb (Byte.to_N b =? 0)) l = false <-> Forall (fun b => b = x00) l.
Proof using Hraw.
  induction l as [|b l IH]; cbn [existsb]; [by split|].
  rewrite orb_false_iff, IH, Forall_cons, negb_false_iff, N.eqb_eq, to_N_zero. done.
Qed.
Lemma compression_block_pos flags unit_ cluster_size block :
  cluster_size <> 0 -> compression_of flags unit_ cluster_size block ->
  forall b, block = Some b -> b <> 0.
Proof using Hraw.
  intros Hc [(_ & _ & _ & ->)|(_ & _ & ->)] b; [|done]. intros [= <-].
  apply N.neq_mul_0. split; [done | by apply N.pow_nonzero].
Qed.

(** The sizes of the first extent. *)
Definition first_sizes (flags : AttributeFlags) (cluster_size lowest next : N) (block : option N)
    (sizes : option NonResidentSizes) : Prop :=
  if lowest =? 0
  then next * cluster_size <= u64_max /\
    exists s, sizes = Some s /\ sizes_of raw flags cluster_size block (next * cluster_size) s
  else sizes = None.
Lemma first_sizes_spec flags cluster_size lowest next block :
  cluster_size <> 0 -> (forall b, block = Some b -> b <> 0) -> header_size flags <= len raw ->
  decides (first_sizes flags cluster_size lowest next block)
    (if lowest =? 0 then
       mapped_bytes ← ok_or CompressionBlockOverflow
         (checked_sub next lowest ≫= fun clusters => checked_mul clusters cluster_size);
       sizes ← parse_sizes raw flags cluster_size block mapped_bytes;
       Ok (Some sizes)
     else Ok None).
Proof using Hraw.
  intros Hc Hb Hl. unfold first_sizes. destruct (N.eqb_spec lowest 0) as [->|H0].
  2: { apply decides_Ok; [done | by intros ? ->]. }
  rewrite checked_sub_in by lia. cbn [mbind option_bind]. rewrite N.sub_0_r.
  destruct (N.le_gt_cases (next * cluster_size) u64_max) as [Hm|Hm].
  - rewrite checked_mul_in by done. cbn [ok_or mbind outcome_bind].
    pose proof (sizes_spec flags cluster_size block (next * cluster_size) Hc Hb Hl) as Hs.
    eapply decides_bind; [exact Hs | |].
    + intros s Hz. apply decides_Ok; [split; [done | by exists s] |].
      intros ? (_ & z & -> & Hz'). by rewrite (decides_unique _ _ _ _ Hs Hz Hz').
    + intros ? (_ & z & _ & ?). eauto.
  - destruct (checked_mul _ _) eqn:He; [apply checked_mul_Some in He; lia |].
    apply decides_Err. intros ? [? _]. lia.
Qed.

Lemma non_resident_spec flags name cluster_size :
  cluster_size <> 0 -> header_size flags <= len raw ->
  (forall o n, name = Some (o, n) -> o + n <= len raw) ->
  decides (non_resident_of raw flags name cluster_size) (parse_non_resident raw flags name cluster_size).
Proof using Hraw.
  intros Hc Hl Hn. unfold parse_non_resident, le_u16, le_u8.
  assert (64 <= len raw) as H64.
  { unfold header_size, EXTENDED_NON_RESIDENT_HEADER_LEN, NON_RESIDENT_HEADER_LEN in Hl.
    destruct (extended flags); lia. }
  rewrite index_range_in by lia. rewrite !le_i64_in by lia. cbn [mbind outcome_bind].
  apply decides_refuse; intros H1.
  2: { intros r [Hz _ _ _ _ _ _ _ _ _ _]. apply reserved_clear in Hz. congruence. }
  apply reserved_clear in H1.
  assert (i64_of_u64 (field 8 raw 24) <= 9223372036854775807)%Z as Hmax.
  { apply i64_of_u64_range, field8_bound. lia. }
  pose proof (vcns_spec (i64_of_u64 (field 8 raw 16)) _ Hmax) as Hvs.
  eapply decides_bind; [exact Hvs | | intros r [_ ? _ _ _ _ _ _ _ _ _]; eauto].
  intros [[lowest highest] next] Hv. rewrite (read_le_in 2 raw 32) by lia. cbn [mbind outcome_bind].
  change (is_compressed flags || fl_sparse flags) with (extended flags).
  apply decides_refuse; intros H2.
  2: { intros r [_ _ _ Ho Ha Hi _ _ _ _ _]. apply orb_true_iff in H2 as [[H2|H2]%orb_true_iff|H2].
    - apply N.ltb_lt in H2. lia.
    - apply negb_true_iff, N.eqb_neq in H2. done.
    - apply N.leb_le in H2. lia. }
  apply orb_false_iff in H2 as [[H2 H3]%orb_false_iff H4].
  apply N.ltb_ge in H2. apply negb_false_iff, N.eqb_eq in H3. apply N.leb_gt in H4.
  rewrite sub_u64_in by lia. cbn [mbind outcome_bind].
  assert (field 2 raw 32 + (len raw - field 2 raw 32) = len raw) as Hend by lia.
  eapply decides_bind; [apply no_overlap_spec; [lia | done] | |].
  2: { intros r [_ _ _ _ _ _ Hx _ _ _ _]. exists tt. by rewrite Hend. }
  intros [] Hclear. rewrite Hend in Hclear. rewrite (read_le_in 1 raw 34) by lia. cbn [mbind outcome_bind].
  pose proof (compression_spec flags (field 1 raw 34) cluster_size) as Hcs.
  eapply decides_bind; [exact Hcs | | intros r [_ _ _ _ _ _ _ _ _ ? _]; eauto].
  intros block Hblock.
  assert (forall b, block = Some b -> b <> 0) as Hpos by by eapply compression_block_pos.
  pose proof (first_sizes_spec flags cluster_size lowest next block Hc Hpos Hl) as Hfs.
  assert (forall r, non_resident_of raw flags name cluster_size r ->
    nr_lowest_vcn r = lowest /\ nr_highest_vcn r = highest /\ nr_expected_next_vcn r = next /\
    nr_compression_block_bytes r = block /\
    first_sizes flags cluster_size lowest next block (nr_sizes r)) as Hr.
  { intros r [_ Hv' _ _ _ _ _ _ _ Hb' Hs'].
    pose proof (decides_unique _ _ _ _ Hvs Hv Hv') as [= -> -> ->].
    pose proof (decides_unique _ _ _ _ Hcs Hblock Hb') as ->. done. }
  eapply decides_bind; [exact Hfs | | intros r Hr'%Hr; destruct Hr' as (_ & _ & _ & _ & ?); eauto].
  intros sizes Hsz. rewrite index_range_in by lia. cbn [mbind outcome_bind].
  apply decides_Ok; [by constructor |].
  intros r Hnr. pose proof (Hr r Hnr) as (Hr1 & Hr2 & Hr3 & Hr4 & Hr5).
  destruct Hnr as [_ _ Hr6 _ _ _ _ Hr7 Hr8 _ _]. destruct r; cbn in *.
  rewrite (decides_unique _ _ _ _ Hfs Hsz Hr5). by subst.
Qed.
End Fields.

Lemma name_range_inside raw header_len maximum name range :
  name_of raw header_len maximum (name, range) -> forall o n, range = Some (o, n) -> o + n <= len raw.
Proof.
  intros [[_ [= _ ->]]|(_ & _ & _ & _ & ? & [= _ ->])] o n; [done |]. intros [= <- <-]. done.
Qed.
Lemma body_spec raw flags range form cluster_size :
  len raw <= u64_max -> cluster_size <> 0 -> header_length form flags <= len raw ->
  (forall o n, range = Some (o, n) -> o + n <= len raw) ->
  decides (fun body => match body with
      | Resident r => form = 0 /\ resident_of raw flags range r
      | NonResident r => form <> 0 /\ non_resident_of raw flags range cluster_size r
      end)
    (if form =? 0
     then r ← parse_resident raw flags range; Ok (Resident r)
     else r ← parse_non_resident raw flags range cluster_size; Ok (NonResident r)).
Proof.
  intros Hraw Hc Hl Hr. unfold header_length in Hl.
  destruct (N.eqb_spec form 0) as [->|Hf].
  - pose proof (resident_spec raw Hraw flags range Hl Hr) as Hs.
    eapply decides_bind; [exact Hs | |].
    + intros r Hp. apply decides_Ok; [done |]. intros [r'|r'] [? Hp']; [|done].
      by rewrite (decides_unique _ _ _ _ Hs Hp Hp').
    + intros [r|r] [? ?]; [eauto | done].
  - pose proof (non_resident_spec raw Hraw flags range cluster_size Hc Hl Hr) as Hs.
    eapply decides_bind; [exact Hs | |].
    + intros r Hp. apply decides_Ok; [done |]. intros [r'|r'] [? Hp']; [done |].
      by rewrite (decides_unique _ _ _ _ Hs Hp Hp').
    + intros [r|r] [? ?]; [done | eauto].
Qed.

Lemma attribute_spec bytes limits :
  len bytes <= u64_max -> decides (attribute_of bytes limits) (parse_attribute bytes limits).
Proof.
  intros Hb. unfold parse_attribute, le_u32, le_u16, le_u8. widths.
  eapply decides_bind; [apply limits_spec | | intros a Ha; exists tt; exact (ak_limits _ _ _ Ha)].
  intros [] Hlim. apply decides_refuse; intros H1.
  2: { apply N.ltb_lt in H1. intros a Ha. destruct (ak_length_ok _ _ _ Ha) as (? & _ & ? & _).
       unfold COMMON_HEADER_LEN in H1. lia. }
  apply N.ltb_ge in H1. unfold COMMON_HEADER_LEN in H1.
  rewrite (read_le_in 4 bytes 0) by lia. cbn [mbind outcome_bind].
  eapply decides_bind; [apply type_spec | |].
  2: { intros a Ha. exists tt. pose proof (ak_kind_ok _ _ _ Ha). by rewrite (ak_kind _ _ _ Ha) in *. }
  intros [] Hkind. rewrite (read_le_in 4 bytes 4) by lia. cbn [mbind outcome_bind].
  pose proof (field_u32 bytes 4 ltac:(lia)) as H32.
  rewrite usize_try_from_in by (unfold usize_max; lia). cbn [from_option id].
  set (length := field 4 bytes 4) in *.
  apply decides_refuse; intros H2.
  2: { intros a Ha. destruct (ak_length_ok _ _ _ Ha) as (Ha1 & Ha2 & Ha3 & _).
       rewrite (ak_length _ _ _ Ha) in Ha1, Ha2, Ha3. fold length in Ha1, Ha2, Ha3.
       unfold COMMON_HEADER_LEN in H2.
       apply orb_true_iff in H2 as [[H2|H2]%orb_true_iff|H2]; bool_props; [lia | done | lia]. }
  apply orb_false_iff in H2 as [[H2 H3]%orb_false_iff H4]. unfold COMMON_HEADER_LEN in H2. bool_props.
  apply decides_refuse; intros H5.
  2: { intros a Ha. destruct (ak_length_ok _ _ _ Ha) as (_ & _ & _ & Ha1).
       rewrite (ak_length _ _ _ Ha) in Ha1. fold length in Ha1. bool_props. lia. }
  bool_props. rewrite index_range_in by lia. cbn [mbind outcome_bind].
  set (raw := subslice 0 length bytes). assert (len raw = length) as Hraw.
  { unfold raw. rewrite len_subslice by lia. lia. }
  assert (forall a, attribute_of bytes limits a -> at_raw a = raw /\ at_length a = length) as Hsame.
  { intros a Ha. rewrite (ak_raw _ _ _ Ha), (ak_length _ _ _ Ha). done. }
  rewrite (read_le_in 1 raw 8) by lia. cbn [mbind outcome_bind].
  apply decides_refuse; intros H6.
  2: { intros a Ha. pose proof (ak_form _ _ _ Ha) as Hf. rewrite (proj1 (Hsame a Ha)) in Hf. bool_props. lia. }
  bool_props. rewrite (read_le_in 2 raw 12) by lia. cbn [mbind outcome_bind].
  eapply decides_bind; [apply flags_spec | |].
  2: { intros a Ha. pose proof (ak_flags _ _ _ Ha) as Hf. rewrite (proj1 (Hsame a Ha)) in Hf. eauto. }
  intros flags [Hfl ->]. set (flags := flags_of (field 2 raw 12)) in *.
  change (if field 1 raw 8 =? 0 then RESIDENT_HEADER_LEN
    else if is_compressed flags || fl_sparse flags then EXTENDED_NON_RESIDENT_HEADER_LEN
    else NON_RESIDENT_HEADER_LEN) with (header_length (field 1 raw 8) flags).
  assert (forall a, attribute_of bytes limits a -> at_flags a = flags) as Hflags.
  { intros a Ha. destruct (ak_flags _ _ _ Ha) as [_ Hf]. by rewrite (proj1 (Hsame a Ha)) in Hf. }
  apply decides_refuse; intros H7.
  2: { intros a Ha. pose proof (ak_header _ _ _ Ha) as Hf. rewrite (Hflags a Ha) in Hf.
       destruct (Hsame a Ha) as [Hr Hn]. rewrite Hr, Hn in Hf. bool_props. lia. }
  bool_props. set (form := field 1 raw 8) in *.
  pose proof (name_spec raw ltac:(lia) (header_length form flags) (lt_max_name_code_units limits)
    ltac:(lia)) as Hnames.
  eapply decides_bind; [exact Hnames | |].
  2: { intros a Ha. destruct (ak_body _ _ _ Ha) as (range & Hn & _). rewrite (Hflags a Ha) in Hn.
       rewrite (proj1 (Hsame a Ha)) in Hn. eauto. }
  intros [name range] Hname.
  pose proof (body_spec raw flags range form (lt_cluster_size_bytes limits) ltac:(lia) ltac:(lia)
    ltac:(lia) (name_range_inside _ _ _ _ _ Hname)) as Hbodies.
  assert (forall a, attribute_of bytes limits a -> at_name a = name /\
    match at_body a with
    | Resident r => form = 0 /\ resident_of raw flags range r
    | NonResident r => form <> 0 /\ non_resident_of raw flags range (lt_cluster_size_bytes limits) r
    end) as Hbody.
  { intros a Ha. destruct (ak_body _ _ _ Ha) as (range' & Hn & Hx).
    rewrite (Hflags a Ha), (proj1 (Hsame a Ha)) in *. fold form in Hn, Hx.
    pose proof (decides_unique _ _ _ _ Hnames Hname Hn) as [= <- <-]. done. }
  eapply decides_bind; [exact Hbodies | |].
  2: { intros a Ha. destruct (Hbody a Ha) as [_ Hx]. eauto. }
  intros body Hx. rewrite (read_le_in 2 raw 10), (read_le_in 2 raw 14) by lia. cbn [mbind outcome_bind].
  apply decides_Ok.
  - split; cbn; try done. eauto.
  - intros a Ha. destruct (Hbody a Ha) as [Hn Hz]. destruct (Hsame a Ha) as [Hr Hl].
    pose proof (Hflags a Ha) as Hfa. pose proof (decides_unique _ _ _ _ Hbodies Hx Hz) as Hba.
    pose proof (ak_kind _ _ _ Ha) as Hka. pose proof (ak_id _ _ _ Ha) as Hia.
    pose proof (ak_name_offset _ _ _ Ha) as Hoa. rewrite Hr in Hia, Hoa.
    destruct a; cbn in *. by subst.
Qed.

(** ** The list *)
Section Walk.
Variables (record : list byte) (used : N) (limits : AttributeLimits).

(** The attributes from an offset to the end marker, one after the other. *)
Inductive walk : N -> list NtfsAttribute -> N -> Prop :=
| walk_end offset :
    offset + 4 <= used -> field 4 record offset = ATTRIBUTE_END -> walk offset [] offset
| walk_step offset a rest end_ :
    offset + 4 <= used -> attribute_of (subslice offset used record) limits a ->
    walk (offset + at_length a) rest end_ -> walk offset (a :: rest) end_.

Definition continues (attributes : list NtfsAttribute) (offset previous : N) (r : NtfsAttributeList)
    : Prop :=
  exists rest, li_attributes r = attributes ++ rest /\ walk offset rest (li_end_marker_offset r) /\
    Sorted N.le (previous :: (at_attribute_type <$> rest)) /\
    NoDup (at_id <$> attributes ++ rest) /\ len (attributes ++ rest) <= lt_max_attributes limits.

Hypothesis Hused : used <= len record.
Hypothesis Hrecord : len record <= u64_max.

Lemma first_field offset n : offset + N.of_nat n <= used ->
  field n (subslice offset used record) 0 = field n record offset.
Proof using Hused Hrecord.
  intros H. unfold field. rewrite subslice_subslice by lia. f_equal. f_equal; lia.
Qed.

Lemma duplicate_id attributes (a : NtfsAttribute) :
  existsb (fun existing => at_id existing =? at_id a) attributes = true <->
  at_id a ∈ (at_id <$> attributes).
Proof using Type.
  rewrite existsb_exists, list_elem_of_fmap. split.
  - intros (x & Hx & He%N.eqb_eq). exists x. by rewrite list_elem_of_In.
  - intros (x & He & Hx). exists x. by rewrite He, N.eqb_refl, <- list_elem_of_In.
Qed.

Lemma loop_spec fuel attributes offset previous :
  (N.to_nat (used - offset) < fuel)%nat -> NoDup (at_id <$> attributes) ->
  len attributes <= lt_max_attributes limits ->
  decides (continues attributes offset previous)
    (attribute_loop fuel record used limits attributes offset previous).
Proof using Hused Hrecord.
  revert attributes offset previous. induction fuel as [|fuel IH]; intros attributes offset previous Hf Hid Hm; [lia|].
  cbn [attribute_loop]. widths.
  destruct (N.le_gt_cases (offset + 4) used) as [Hin|Hout].
  2: { assert (match checked_add offset 4 with Some e => e <=? used | None => false end = false) as ->.
    { destruct (checked_add offset 4) eqn:He; [|done]. apply checked_add_Some in He as [-> _]. apply N.leb_gt. lia. }
    apply decides_Err. intros r (rest & _ & Hw & _). inversion Hw; lia. }
  rewrite checked_add_in by lia. rewrite (proj2 (N.leb_le _ _) Hin).
  unfold le_u32. rewrite (read_le_in 4 record offset) by lia. cbn [mbind outcome_bind].
  destruct (N.eqb_spec (field 4 record offset) ATTRIBUTE_END) as [Hend|Hend].
  { apply decides_Ok.
    - exists []. rewrite app_nil_r. split_and!; try done; [by apply walk_end | repeat constructor].
    - intros r (rest & Hr & Hw & _). destruct r as [l e]. cbn in *. inversion Hw; subst.
      + by rewrite app_nil_r.
      + match goal with H : attribute_of _ _ _ |- _ => destruct (ak_kind_ok _ _ _ H) as (_ & Hk & _);
          rewrite (ak_kind _ _ _ H), first_field in Hk by lia end. done. }
  assert (forall r, continues attributes offset previous r -> exists a rest,
    attribute_of (subslice offset used record) limits a /\ previous <= at_attribute_type a /\
    (at_id a ∉ (at_id <$> attributes)) /\ len attributes < lt_max_attributes limits /\
    continues (attributes ++ [a]) (offset + at_length a) (at_attribute_type a) r /\
    li_attributes r = attributes ++ a :: rest) as Hsplit.
  { intros r (rest & Hr & Hw & Hs & Hn & Hl). inversion Hw as [|? a rest' ? _ Ha Hw']; subst; [done |].
    exists a, rest'. split; [done |]. cbn [fmap list_fmap] in Hs. inversion Hs as [|? ? Hs' Hh]; subst.
    inversion Hh; subst. split; [done |]. rewrite fmap_app in Hn. cbn [fmap list_fmap] in Hn.
    apply NoDup_app in Hn as (_ & Hn & Hn'). split; [intros Hx; eapply Hn; [exact Hx | left] |].
    rewrite len_app, len_cons in Hl. split; [lia |]. split; [|done].
    exists rest'. rewrite <- app_assoc. split_and!; try done.
    - rewrite fmap_app. apply NoDup_app. done.
    - rewrite len_app. cbn [app]. rewrite len_cons. lia. }
  apply decides_refuse; intros H1.
  2: { intros r Hr. destruct (Hsplit r Hr) as (_ & _ & _ & _ & _ & ? & _). apply N.leb_le in H1. lia. }
  apply N.leb_gt in H1. rewrite index_range_in by lia. cbn [mbind outcome_bind].
  assert (len (subslice offset used record) = used - offset) as Hlen by (rewrite len_subslice by lia; done).
  pose proof (attribute_spec (subslice offset used record) limits ltac:(lia)) as Hspec.
  eapply decides_bind; [exact Hspec | |].
  2: { intros r Hr. destruct (Hsplit r Hr) as (a & _ & ? & _). eauto. }
  intros a Ha. destruct (ak_length_ok _ _ _ Ha) as (Hl1 & _ & Hl2 & _).
  assert (len (at_raw a) = at_length a) as Hraw.
  { rewrite (ak_raw _ _ _ Ha), len_subslice by lia. lia. }
  assert (forall r, continues attributes offset previous r -> previous <= at_attribute_type a /\
    (at_id a ∉ (at_id <$> attributes)) /\
    continues (attributes ++ [a]) (offset + at_length a) (at_attribute_type a) r) as Hnext.
  { intros r Hr. destruct (Hsplit r Hr) as (a' & _ & Ha' & ? & ? & _ & ? & _).
    by rewrite (decides_unique _ _ _ _ Hspec Ha Ha'). }
  apply decides_refuse; intros H2.
  2: { intros r Hr. destruct (Hnext r Hr) as (? & _). apply N.ltb_lt in H2. lia. }
  apply N.ltb_ge in H2. apply decides_refuse; intros H3.
  2: { intros r Hr. destruct (Hnext r Hr) as (_ & Hx & _). by apply duplicate_id in H3. }
  assert (at_id a ∉ (at_id <$> attributes)) as Hfresh.
  { intros Hx%duplicate_id. congruence. }
  rewrite Hraw, checked_add_in by lia. cbn [ok_or mbind outcome_bind].
  destruct (IH (attributes ++ [a]) (offset + at_length a) (at_attribute_type a)) as [Hsafe Hiff].
  { lia. }
  { rewrite fmap_app. apply NoDup_app. split; [done |]. cbn. split; [|apply NoDup_singleton].
    intros x Hx Hx'%list_elem_of_singleton. congruence. }
  { rewrite len_app, len_cons, len_nil. lia. }
  split; [done |]. intros r. rewrite Hiff. split.
  - intros (rest & Hr & Hw & Hs & Hn & Hl). rewrite <- app_assoc in Hr, Hn, Hl. exists (a :: rest).
    split_and!; try done; [by apply walk_step | constructor; [done |]].
    by constructor.
  - intros Hr. by apply Hnext.
Qed.

Lemma walk_tiles offset attributes end_ :
  walk offset attributes end_ ->
  offset <= end_ /\ end_ + 4 <= used /\ concat (at_raw <$> attributes) = subslice offset end_ record.
Proof using Hused Hrecord.
  induction 1 as [offset Hin _|offset a rest end_ Hin Ha _ (H1 & H2 & IH)].
  - split_and!; [done | done |]. unfold subslice. by rewrite N.sub_diag.
  - destruct (ak_length_ok _ _ _ Ha) as (_ & _ & Hl & _). rewrite len_subslice in Hl by lia.
    split_and!; [lia | done |]. rewrite fmap_cons, concat_cons, IH, (ak_raw _ _ _ Ha).
    rewrite subslice_subslice by lia. rewrite N.add_0_r. apply subslice_split; lia.
Qed.
End Walk.

(** The attributes of a record. *)
Record attributes_of (record : list byte) (first used : N) (limits : AttributeLimits)
    (r : NtfsAttributeList) : Prop := {
  as_limits : 512 <= lt_cluster_size_bytes limits /\
    is_power_of_two (lt_cluster_size_bytes limits) = true;
  as_bounds : first <= used /\ used <= len record;
  as_walk : walk record used limits first (li_attributes r) (li_end_marker_offset r);
  as_sorted : Sorted N.le (at_attribute_type <$> li_attributes r);
  as_distinct : NoDup (at_id <$> li_attributes r);
  as_count : len (li_attributes r) <= lt_max_attributes limits
}.

Lemma attribute_list_spec record first used limits :
  len record <= u64_max ->
  decides (attributes_of record first used limits) (parse_attribute_list record first used limits).
Proof.
  intros Hb. unfold parse_attribute_list.
  eapply decides_bind; [apply limits_spec | | intros a Ha; exists tt; exact (as_limits _ _ _ _ _ Ha)].
  intros [] Hlim. apply decides_refuse; intros H1.
  2: { intros r Hr. destruct (as_bounds _ _ _ _ _ Hr). apply orb_true_iff in H1 as [H1|H1]; bool_props; lia. }
  bool_props.
  destruct (loop_spec record used limits ltac:(lia) Hb (S (N.to_nat used)) [] first 0) as [Hs Hiff].
  { lia. }
  { constructor. }
  { rewrite len_nil. lia. }
  split; [done |]. intros r. rewrite Hiff. split.
  - intros (rest & Hr & Hw & Hsort & Hn & Hl). cbn [app] in *. subst rest.
    inversion Hsort; subst. by split.
  - intros [_ _ Hw Hsort Hn Hl]. exists (li_attributes r). split_and!; try done. constructor; [done |].
    destruct (at_attribute_type <$> li_attributes r); constructor. lia.
Qed.

(** * Theorems *)

(** C34: the attribute list of a record is exactly what its bytes spell.  The
    reader never panics and never loops, whatever the bytes, offsets and limits.
    It answers a list if and only if, from the first attribute on, well-formed
    attributes (storage form, flags, name, value or mapping pairs in disjoint
    aligned ranges of the attribute's own bytes, a signed range of virtual
    clusters, consistent sizes and compression unit) follow each other up to the
    end marker, with types that never decrease, distinct identifiers and no more
    of them than the caller allows; the list holds the decoded fields, and the
    bytes of its attributes, one after the other, are the record's bytes up to the
    end marker. *)
Theorem attribute_list_contract record first used limits :
  len record <= u64_max ->
  parse_attribute_list record first used limits <> Panic /\
  forall r, parse_attribute_list record first used limits = Ok r <->
    attributes_of record first used limits r /\
    concat (at_raw <$> li_attributes r) = subslice first (li_end_marker_offset r) record.
Proof.
  intros Hb. destruct (attribute_list_spec record first used limits Hb) as [Hs Hiff].
  split; [done |]. intros r. rewrite Hiff. split; [|tauto]. intros Hr. split; [done |].
  destruct (as_bounds _ _ _ _ _ Hr). eapply (walk_tiles record used limits); [done | done |].
  apply (as_walk _ _ _ _ _ Hr).
Qed.

(** ** Witness: the attributes of the sample record of [FileRecord], with its
    trailers restored *)
Definition sample_limits : AttributeLimits := mkAttributeLimits 4096 1024 255 16.
Definition sample_repaired : list byte := Eval vm_compute in
  match parsed_record with Some r => fr_repaired r | None => [] end.
Definition sample_list : option NtfsAttributeList := Eval vm_compute in
  match parse_attribute_list sample_repaired 56 1024 sample_limits with Ok r => Some r | _ => None end.

Lemma attribute_list_contract_witness :
  match sample_list with
  | Some r => parse_attribute_list sample_repaired 56 1024 sample_limits = Ok r /\
      at_id <$> li_attributes r = [0; 1] /\
      concat (at_raw <$> li_attributes r) = subslice 56 (li_end_marker_offset r) sample_repaired
  | None => False
  end.
Proof.
  unfold sample_list.
  match goal with |- ?a = Ok ?r /\ _ =>
    assert (H : a = Ok r) by (vm_compute; reflexivity) end.
  split; [exact H |]. split; [vm_compute; reflexivity |].
  apply (attribute_list_contract sample_repaired 56 1024 sample_limits
    ltac:(vm_compute; discriminate)). exact H.
Defined.
