(* ===== verification/NtfsStream.v ===== *)
(** * The data streams of an NTFS destination

    The writers of non-resident attributes of the NTFS serializer and the
    construction of the [$DATA] attributes of a stream from the extents of the
    object graph ([nonresident_stream_attributes],
    [split_nonresident_data_attributes] and what they call, in
    [fs/ntfs_serialize.rs]).

    A stream is written as one attribute, or as several when its mapping pairs
    outgrow a FILE record; the fragments continue each other in virtual clusters.
    The theorems go through the program's own readers ([NtfsAttribute] and
    [Runlist]): a written attribute is accepted and has the fields it was given,
    and the runlists of the fragments of a stream, read one after the other, place
    every cluster of the stream where its extent is. *)

From S2P Require Export Prelude Bytes Extent Object Runlist FileRecord NtfsAttribute.
From stdpp Require Import options.

#[local] Open Scope N_scope.

Definition DATA : N := 128.
Definition ATTRIBUTE_FLAG_SPARSE : N := 32768.
Definition NONRESIDENT_HEADER_BYTES : N := 64.
Definition SPARSE_NONRESIDENT_HEADER_BYTES : N := 72.

#[local] Abbreviation result := (outcome NtfsSerializeError).

(** ** Attributes *)

(** [if lowest_vcn == 0 { .. }]: the sizes of the first extent. *)
Definition put_sizes (bytes : list byte) (lowest_vcn allocated logical initialized : N) (sparse : bool)
    : result (list byte) :=
  if lowest_vcn =? 0 then
    bytes ← put_le 8 bytes 40 allocated;
    bytes ← put_le 8 bytes 48 logical;
    bytes ← put_le 8 bytes 56 initialized;
    if sparse then put_le 8 bytes 64 allocated else Ok bytes
  else Ok bytes.

Definition nonresident_attribute_from_pairs (attribute_type : N) (pairs : list byte)
    (lowest_vcn fragment_clusters logical initialized allocated id : N) (sparse : bool)
    : result (list byte) :=
  if fragment_clusters =? 0 then resident_attribute attribute_type None id []
  else
    let header := if sparse then SPARSE_NONRESIDENT_HEADER_BYTES else NONRESIDENT_HEADER_BYTES in
    unaligned ← ok_or SerializeArithmeticOverflow (checked_add header (len pairs));
    let total := align_eight unaligned in
    highest_vcn ← ok_or SerializeArithmeticOverflow
      (checked_add lowest_vcn fragment_clusters ≫= fun value => checked_sub value 1);
    let bytes := replicate (N.to_nat total) x00 in
    bytes ← put_le 4 bytes 0 attribute_type;
    total32 ← ok_or SerializeArithmeticOverflow (u32_try_from total);
    bytes ← put_le 4 bytes 4 total32;
    bytes ← put_le 1 bytes 8 1;
    bytes ← (if sparse then put_le 2 bytes 12 ATTRIBUTE_FLAG_SPARSE else Ok bytes);
    bytes ← put_le 2 bytes 14 id;
    bytes ← put_le 8 bytes 16 lowest_vcn;
    bytes ← put_le 8 bytes 24 highest_vcn;
    header16 ← ok_or SerializeArithmeticOverflow (u16_try_from header);
    bytes ← put_le 2 bytes 32 header16;
    bytes ← put_sizes bytes lowest_vcn allocated logical initialized sparse;
    copy_from_slice header (header + len pairs) pairs bytes.

Definition nonresident_named_attribute_from_pairs (attribute_type : N) (name : list N)
    (pairs : list byte) (lowest_vcn fragment_clusters logical initialized allocated id : N)
    (sparse : bool) : result (list byte) :=
  refuse_if (is_empty name || (fragment_clusters =? 0)) SerializeArithmeticOverflow ;;
  let header := if sparse then SPARSE_NONRESIDENT_HEADER_BYTES else NONRESIDENT_HEADER_BYTES in
  name_bytes ← ok_or SerializeArithmeticOverflow (checked_mul (len name) 2);
  unaligned_offset ← ok_or SerializeArithmeticOverflow (checked_add header name_bytes);
  let mapping_offset := align_eight unaligned_offset in
  unaligned ← ok_or SerializeArithmeticOverflow (checked_add mapping_offset (len pairs));
  let total := align_eight unaligned in
  highest_vcn ← ok_or SerializeArithmeticOverflow
    (checked_add lowest_vcn fragment_clusters ≫= fun value => checked_sub value 1);
  let bytes := replicate (N.to_nat total) x00 in
  bytes ← put_le 4 bytes 0 attribute_type;
  total32 ← ok_or SerializeArithmeticOverflow (u32_try_from total);
  bytes ← put_le 4 bytes 4 total32;
  bytes ← put_le 1 bytes 8 1;
  name_units ← ok_or SerializeArithmeticOverflow (Bytes.u8_try_from (len name));
  bytes ← put_le 1 bytes 9 name_units;
  header16 ← ok_or SerializeArithmeticOverflow (u16_try_from header);
  bytes ← put_le 2 bytes 10 header16;
  bytes ← (if sparse then put_le 2 bytes 12 ATTRIBUTE_FLAG_SPARSE else Ok bytes);
  bytes ← put_le 2 bytes 14 id;
  bytes ← put_le 8 bytes 16 lowest_vcn;
  bytes ← put_le 8 bytes 24 highest_vcn;
  mapping_offset16 ← ok_or SerializeArithmeticOverflow (u16_try_from mapping_offset);
  bytes ← put_le 2 bytes 32 mapping_offset16;
  bytes ← put_sizes bytes lowest_vcn allocated logical initialized sparse;
  bytes ← write_utf16 bytes header name;
  copy_from_slice mapping_offset (mapping_offset + len pairs) pairs bytes.

(** An attribute with one run. *)
Definition nonresident_attribute (attribute_type : N) (run : N * N)
    (logical initialized allocated id : N) : result (list byte) :=
  pairs ← ok_or SerializeArithmeticOverflow (encode_runs [(Some run.1, run.2)]);
  nonresident_attribute_from_pairs attribute_type pairs 0 run.2 logical initialized allocated id false.
Definition nonresident_named_attribute (attribute_type : N) (name : list N) (run : N * N)
    (logical initialized allocated id : N) : result (list byte) :=
  refuse_if (is_empty name || (run.2 =? 0)) SerializeArithmeticOverflow ;;
  pairs ← ok_or SerializeArithmeticOverflow (encode_runs [(Some run.1, run.2)]);
  nonresident_named_attribute_from_pairs attribute_type name pairs 0 run.2 logical initialized
    allocated id false.

(** ** Streams *)
Inductive PayloadPlacementMode : Type := Final | RelocationDraft.
#[export] Instance PayloadPlacementMode_eq_dec : EqDecision PayloadPlacementMode.
Proof. solve_decision. Defined.

(** Whether attributes of these lengths fit a FILE record. *)
Fixpoint record_lengths_loop (cursor : N) (lengths : list N) : result bool :=
  match lengths with
  | [] => Ok true
  | length :: lengths =>
      end_ ← ok_or SerializeArithmeticOverflow (checked_add cursor length);
      if match checked_add end_ 8 with None => true | Some value => RECORD_BYTES - 2 <? value end
      then Ok false
      else record_lengths_loop end_ lengths
  end.
Definition record_lengths_fit (lengths : list N) : result bool :=
  record_lengths_loop ATTRIBUTES_OFFSET lengths.

Definition encode_data_fragment (stream : ObjectStream) (pairs : list byte)
    (lowest_vcn fragment_clusters id : N) : result (list byte) :=
  match st_name stream with
  | None =>
      nonresident_attribute_from_pairs DATA pairs lowest_vcn fragment_clusters
        (st_logical_bytes stream) (st_initialized_bytes stream) (st_allocated_bytes stream) id
        (sf_sparse (st_flags stream))
  | Some name =>
      nonresident_named_attribute_from_pairs DATA name pairs lowest_vcn fragment_clusters
        (st_logical_bytes stream) (st_initialized_bytes stream) (st_allocated_bytes stream) id
        (sf_sparse (st_flags stream))
  end.

Definition fragment_error (stream : ObjectStream) (error : NtfsSerializeError) : NtfsSerializeError :=
  match error with
  | RecordOverflow _ => MappingPairsTooLarge (st_id stream)
  | other => other
  end.

(** The inner loop over [ends]: the longest fragment from [start] that fits. *)
Fixpoint choose_fragment (stream : ObjectStream) (runs : list (option N * N)) (start lowest_vcn id : N)
    (ends : list N) (fragment_clusters : N) (chosen : option (N * list byte * N))
    : result (option (N * list byte * N)) :=
  match ends with
  | [] => Ok chosen
  | end_ :: ends =>
      last ← sub_u64 end_ 1;
      run ← at_index runs last;
      fragment_clusters ← ok_or SerializeArithmeticOverflow (checked_add fragment_clusters run.2);
      slice ← index_range start end_ runs;
      pairs ← ok_or (MappingPairsTooLarge (st_id stream)) (encode_runs slice);
      attribute ← map_err (fragment_error stream)
        (encode_data_fragment stream pairs lowest_vcn fragment_clusters id);
      fits ← record_lengths_fit [len attribute];
      if (fits : bool)
      then choose_fragment stream runs start lowest_vcn id ends fragment_clusters
             (Some (end_, attribute, fragment_clusters))
      else Ok chosen
  end.

(** [start + 1..=runs.len()]. *)
Definition fragment_ends (start count : N) : list N :=
  (fun i => start + 1 + i) <$> indices (count - start).

(** The outer loop; every round takes at least one run. *)
Fixpoint split_loop (fuel : nat) (stream : ObjectStream) (runs : list (option N * N))
    (start lowest_vcn id : N) (fragments : list (list byte)) : result (list (list byte)) :=
  match fuel with
  | O => Panic
  | S fuel =>
      if start <? len runs then
        chosen ← choose_fragment stream runs start lowest_vcn id (fragment_ends start (len runs)) 0 None;
        '(end_, attribute, clusters) ← ok_or (MappingPairsTooLarge (st_id stream)) chosen;
        lowest_vcn ← ok_or SerializeArithmeticOverflow (checked_add lowest_vcn clusters);
        id ← (if (end_ <? len runs)
              then ok_or SerializeArithmeticOverflow (u16_try_from (id + 1)) else Ok id);
        split_loop fuel stream runs end_ lowest_vcn id (fragments ++ [attribute])
      else Ok fragments
  end.
Definition split_nonresident_data_attributes (stream : ObjectStream) (runs : list (option N * N))
    (first_id : N) : result (list (list byte)) :=
  split_loop (S (length runs)) stream runs 0 0 first_id [].

Definition unaligned_or_draft_resident (stream : ObjectStream) (extent : Extent) (id : N)
    (payload_mode : PayloadPlacementMode) (sparse_stream : bool) : result (list byte) :=
  let offset := match ex_placement extent with Physical byte_offset => byte_offset | Sparse => 0 end in
  if bool_decide (payload_mode = RelocationDraft) && negb sparse_stream
  then resident_attribute DATA (st_name stream) id []
  else Err (UnalignedExtent (st_id stream) offset (ex_length extent)).

(** The loop over the extents of the stream; an early return of the function is a
    [inl]. *)
Record RunState : Type := mkRunState {
  rs_runs : list (option N * N);
  rs_mapped_clusters : N;
  rs_physical_bytes : N;
  rs_has_sparse_run : bool
}.
Fixpoint collect_runs (stream : ObjectStream) (cluster first_id : N)
    (payload_mode : PayloadPlacementMode) (sparse_stream : bool) (extents : list Extent) (s : RunState)
    : result (list (list byte) + RunState) :=
  match extents with
  | [] => Ok (inr s)
  | extent :: extents =>
      unaligned ← (if ex_length extent =? 0 then Ok true
                   else r ← rem_u64 (ex_length extent) cluster; Ok (negb (r =? 0)));
      if (unaligned : bool) then
        attribute ← unaligned_or_draft_resident stream extent first_id payload_mode sparse_stream;
        Ok (inl [attribute])
      else
        clusters ← div_u64 (ex_length extent) cluster;
        mapped_clusters ← ok_or SerializeArithmeticOverflow
          (checked_add (rs_mapped_clusters s) clusters);
        match ex_placement extent with
        | Sparse =>
            refuse_if (negb (sf_sparse (st_flags stream))) (SparseExtent (st_id stream)) ;;
            collect_runs stream cluster first_id payload_mode sparse_stream extents
              (mkRunState (rs_runs s ++ [(None, clusters)]) mapped_clusters (rs_physical_bytes s) true)
        | Physical byte_offset =>
            r ← rem_u64 byte_offset cluster;
            if negb (r =? 0) then
              attribute ← unaligned_or_draft_resident stream extent first_id payload_mode sparse_stream;
              Ok (inl [attribute])
            else
              physical_bytes ← ok_or SerializeArithmeticOverflow
                (checked_add (rs_physical_bytes s) (ex_length extent));
              lcn ← div_u64 byte_offset cluster;
              collect_runs stream cluster first_id payload_mode sparse_stream extents
                (mkRunState (rs_runs s ++ [(Some lcn, clusters)]) mapped_clusters physical_bytes
                   (rs_has_sparse_run s))
        end
  end.

(** The extents of the stream's data. *)
Definition data_extents (stream : ObjectStream) (graph : ObjectGraph) : list Extent :=
  List.filter (fun extent => (ex_stream extent =? st_id stream)
                && bool_decide (ex_kind extent = FileData)) (eg_extents (og_extents graph)).
Definition is_sparse_extent (extent : Extent) : bool :=
  match ex_placement extent with Sparse => true | Physical _ => false end.

(** [cluster] is [layout.cluster], the only field of the layout it reads. *)
Definition nonresident_stream_attributes (stream : ObjectStream) (graph : ObjectGraph) (cluster first_id : N)
    (payload_mode : PayloadPlacementMode) : result (list (list byte)) :=
  let extents := data_extents stream graph in
  let sparse_stream := sf_sparse (st_flags stream) || existsb is_sparse_extent extents in
  collected ← collect_runs stream cluster first_id payload_mode sparse_stream extents
    (mkRunState [] 0 0 false);
  match collected with
  | inl attributes => Ok attributes
  | inr s =>
      refuse_if (rs_has_sparse_run s && negb (rs_physical_bytes s =? st_allocated_bytes stream))
        (UnalignedExtent (st_id stream) 0 (st_allocated_bytes stream)) ;;
      if is_empty (rs_runs s) && bool_decide (payload_mode = RelocationDraft) then
        attribute ← resident_attribute DATA (st_name stream) first_id [];
        Ok [attribute]
      else
        clusters ← div_u64 (st_mapped_bytes stream) cluster;
        misaligned ← (if negb (clusters =? rs_mapped_clusters s) then Ok true
                      else r ← rem_u64 (st_mapped_bytes stream) cluster; Ok (negb (r =? 0)));
        refuse_if misaligned (UnalignedExtent (st_id stream) 0 (st_mapped_bytes stream)) ;;
        match st_name stream with
        | Some name =>
            refuse_if (is_empty name) SerializeArithmeticOverflow ;;
            if clusters =? 0 then
              attribute ← resident_attribute DATA (Some name) first_id []; Ok [attribute]
            else split_nonresident_data_attributes stream (rs_runs s) first_id
        | None =>
            if clusters =? 0 then
              attribute ← resident_attribute DATA None first_id []; Ok [attribute]
            else split_nonresident_data_attributes stream (rs_runs s) first_id
        end
  end.

(** ** Specification *)
Definition header_bytes (sparse : bool) : N :=
  if sparse then SPARSE_NONRESIDENT_HEADER_BYTES else NONRESIDENT_HEADER_BYTES.
(** Where the mapping pairs are, and the length of the attribute. *)
Definition pairs_offset (sparse : bool) (name : list N) : N :=
  align_eight (header_bytes sparse + len name * 2).
Definition attribute_bytes (sparse : bool) (name : list N) (pairs : list byte) : N :=
  align_eight (pairs_offset sparse name + len pairs).

Record written (b : list byte) (kind id : N) (name : list N) (pairs : list byte)
    (lowest count logical initialized allocated : N) (sparse : bool) : Prop := {
  wr_bytes : len b = attribute_bytes sparse name pairs;
  wr_kind : field 4 b 0 = kind;
  wr_length : field 4 b 4 = len b;
  wr_form : field 1 b 8 = 1;
  wr_units : field 1 b 9 = len name;
  wr_name_offset : field 2 b 10 = if is_empty name then 0 else header_bytes sparse;
  wr_flags : field 2 b 12 = if sparse then ATTRIBUTE_FLAG_SPARSE else 0;
  wr_id : field 2 b 14 = id;
  wr_lowest : field 8 b 16 = lowest;
  wr_highest : field 8 b 24 = lowest + count - 1;
  wr_offset : field 2 b 32 = pairs_offset sparse name;
  wr_unit : field 1 b 34 = 0;
  wr_reserved : subslice 35 40 b = replicate 5 x00;
  wr_sizes : lowest = 0 -> field 8 b 40 = allocated /\ field 8 b 48 = logical /\
    field 8 b 56 = initialized /\ (sparse = true -> field 8 b 64 = allocated);
  wr_name : subslice (header_bytes sparse) (header_bytes sparse + len name * 2) b
    = concat (u16_le <$> name);
  wr_pairs : subslice (pairs_offset sparse name) (pairs_offset sparse name + len pairs) b = pairs;
  wr_tail : subslice (pairs_offset sparse name + len pairs) (len b) b
    = replicate (N.to_nat (len b - (pairs_offset sparse name + len pairs))) x00
}.

(** * Lemmas *)
Lemma align_eight_bounds v : v + 7 <= u64_max ->
  v <= align_eight v /\ align_eight v <= v + 7 /\ align_eight v mod 8 = 0.
Proof.
  intros Hv. rewrite align_eight_spec by done.
  destruct (euclid (v + 7) 8 ltac:(done)) as (q & r & -> & _ & Hq & Hr).
  split; [lia |]. split; [lia |]. rewrite N.mul_comm. apply N.Div0.mod_mul.
Qed.

(** ** Writing code units *)
Lemma zip_snoc {A B} (l : list A) (k : list B) x y :
  length l = length k -> zip (l ++ [x]) (k ++ [y]) = zip l k ++ [(x, y)].
Proof. intros Hl. by rewrite zip_with_app. Qed.
Lemma length_indices n : length (indices n) = N.to_nat n.
Proof. unfold indices. by rewrite length_fmap, length_seq. Qed.
Lemma write_utf16_snoc b offset units u :
  write_utf16 b offset (units ++ [u]) =
  b ← write_utf16 b offset units; put_le 2 b (offset + len units * 2) u.
Proof.
  unfold write_utf16. rewrite len_app, len_cons, len_nil, N.add_0_r, indices_succ, zip_snoc.
  - rewrite try_fold_app. by destruct (try_fold _ b _) as [b'| |]; cbn; [destruct (put_le _ _ _ _)| |].
  - rewrite length_indices. unfold len. lia.
Qed.
Lemma write_utf16_total b offset units :
  offset + len units * 2 <= len b ->
  exists b', write_utf16 b offset units = Ok b' /\ updated b b' offset (len units * 2) /\
    subslice offset (offset + len units * 2) b' = concat (u16_le <$> units) /\ len b' = len b.
Proof.
  induction units as [|u units IH] using rev_ind; intros Hl.
  - exists b. change (len (@nil N)) with 0 in *. split_and!; [done | by split | | done].
    unfold subslice. rewrite N.mul_0_l, N.add_0_r, N.sub_diag. done.
  - rewrite len_app, len_cons in *. change (len (@nil N)) with 0 in *. destruct IH as (b1 & Hw & [_ Hu] & Hs & Hb); [lia |].
    rewrite write_utf16_snoc, Hw. cbn [mbind outcome_bind].
    destruct (put_le_total (E := NtfsSerializeError) 2 b1 (offset + len units * 2) u)
      as (b2 & Hp & [Hb2 Hu2] & _ & _); [change (N.of_nat 2) with 2; lia |].
    exists b2. change (N.of_nat 2) with 2 in *. split_and!; [done | | | lia].
    + split; [lia |]. intros lo hi Ho. rewrite Hu2, Hu by lia. done.
    + rewrite <- (subslice_split offset (offset + len units * 2)) by lia.
      rewrite Hu2, Hs by lia. rewrite fmap_app, concat_app. f_equal. cbn [fmap list_fmap concat]. rewrite app_nil_r.
      unfold put_le in Hp. apply copy_updated in Hp as (_ & _ & _ & _ & Hv).
      unfold u16_le. rewrite <- Hv. f_equal. lia.
Qed.

(** ** Writing attributes *)
Lemma put_flag_total b (sparse : bool) :
  14 <= len b ->
  exists b', (if sparse then put_le 2 b 12 ATTRIBUTE_FLAG_SPARSE else Ok b) = @Ok NtfsSerializeError _ b' /\
    updated b b' 12 2 /\ len b' = len b /\
    field 2 b' 12 = if sparse then ATTRIBUTE_FLAG_SPARSE else field 2 b 12.
Proof.
  intros Hb. destruct sparse; [|by exists b].
  destruct (put_le_total (E := NtfsSerializeError) 2 b 12 ATTRIBUTE_FLAG_SPARSE) as (b' & Hp & Hu & Hf & Hl).
  { change (N.of_nat 2) with 2. lia. }
  exists b'. by split_and!.
Qed.
Lemma put_sizes_total b lowest allocated logical initialized sparse :
  header_bytes sparse <= len b ->
  allocated <= u64_max -> logical <= u64_max -> initialized <= u64_max ->
  exists b', put_sizes b lowest allocated logical initialized sparse = Ok b' /\
    updated b b' 40 (header_bytes sparse - 40) /\ len b' = len b /\
    (lowest = 0 -> field 8 b' 40 = allocated /\ field 8 b' 48 = logical /\
      field 8 b' 56 = initialized /\ (sparse = true -> field 8 b' 64 = allocated)).
Proof.
  intros Hb Ha Hl Hi. unfold put_sizes. widths.
  unfold header_bytes, SPARSE_NONRESIDENT_HEADER_BYTES, NONRESIDENT_HEADER_BYTES in *.
  destruct (N.eqb_spec lowest 0) as [->|H0].
  2: { exists b. split_and!; [done | by split | done | done]. }
  assert (64 <= len b) by (destruct sparse; lia).
  put_next. put_next. put_next. destruct sparse.
  - put_next. eexists. split; [reflexivity |]. split.
    + split; [lia |]. intros lo hi Ho. peel. done.
    + split; [lia |]. intros _. split_and!; try (by peel); intros _; by peel.
  - eexists. split; [reflexivity |]. split.
    + split; [lia |]. intros lo hi Ho. peel. done.
    + split; [lia |]. intros _. split_and!; try (by peel).
Qed.

Lemma header_bytes_value sparse :
  header_bytes sparse = (if sparse then 72 else 64) /\ 64 <= header_bytes sparse <= 72 /\
  header_bytes sparse mod 8 = 0.
Proof. by destruct sparse. Qed.
(** The offsets of an attribute with a name of at most 255 units. *)
Lemma attribute_geometry sparse name pairs :
  len name <= 255 -> pairs_offset sparse name + len pairs + 7 <= u32_max ->
  header_bytes sparse + len name * 2 <= pairs_offset sparse name /\
  pairs_offset sparse name <= 600 /\ pairs_offset sparse name mod 8 = 0 /\
  pairs_offset sparse name + len pairs <= attribute_bytes sparse name pairs /\
  attribute_bytes sparse name pairs <= pairs_offset sparse name + len pairs + 7 /\
  attribute_bytes sparse name pairs mod 8 = 0.
Proof.
  intros Hn Hp. widths. destruct (header_bytes_value sparse) as (_ & Hh & _).
  unfold pairs_offset, attribute_bytes in *.
  destruct (align_eight_bounds (header_bytes sparse + len name * 2)) as (? & ? & ?); [lia |].
  destruct (align_eight_bounds (align_eight (header_bytes sparse + len name * 2) + len pairs))
    as (? & ? & ?); [lia |]. split_and!; try done; lia.
Qed.
Lemma pairs_offset_unnamed sparse : pairs_offset sparse [] = header_bytes sparse.
Proof. by destruct sparse. Qed.

Section Writers.
Variables (kind id : N) (pairs : list byte) (lowest count logical initialized allocated : N)
  (sparse : bool).
Hypothesis Hkind : kind <= u32_max.
Hypothesis Hid : id <= u16_max.
Hypothesis Hcount : 0 < count.
Hypothesis Hvcns : lowest + count <= u64_max.
Hypothesis Hlogical : logical <= u64_max.
Hypothesis Hinitialized : initialized <= u64_max.
Hypothesis Hallocated : allocated <= u64_max.

Lemma from_pairs_written :
  header_bytes sparse + len pairs + 7 <= u32_max ->
  exists b, nonresident_attribute_from_pairs kind pairs lowest count logical initialized allocated id sparse
      = Ok b /\ written b kind id [] pairs lowest count logical initialized allocated sparse.
Proof using Type*.
  intros Hp. rewrite <- (pairs_offset_unnamed sparse) in Hp.
  destruct (attribute_geometry sparse [] pairs ltac:(done) Hp) as (_ & Hm & _ & Ht1 & Ht2 & Ht3).
  rewrite pairs_offset_unnamed in *. widths.
  destruct (header_bytes_value sparse) as (_ & Hh & _).
  unfold nonresident_attribute_from_pairs.
  destruct (N.eqb_spec count 0) as [?|_]; [lia |].
  change (if sparse then SPARSE_NONRESIDENT_HEADER_BYTES else NONRESIDENT_HEADER_BYTES)
    with (header_bytes sparse).
  rewrite (checked_add_in (header_bytes sparse)) by lia. cbn [ok_or mbind outcome_bind].
  rewrite (checked_add_in lowest) by lia. cbn [mbind option_bind].
  rewrite checked_sub_in by lia. cbn [ok_or mbind outcome_bind].
  assert (align_eight (header_bytes sparse + len pairs) = attribute_bytes sparse [] pairs) as ->.
  { unfold attribute_bytes. by rewrite pairs_offset_unnamed. }
  set (t := attribute_bytes sparse [] pairs) in *.
  assert (len (replicate (N.to_nat t) x00) = t) as Hrep by (rewrite len_replicate; lia).
  put_next. rewrite u32_try_from_in by lia. cbn [ok_or mbind outcome_bind].
  put_next. put_next.
  destruct (put_flag_total b1 sparse) as (b2 & -> & Hupd2 & Hlen2 & Hval2); [lia |].
  cbn [mbind outcome_bind]. put_next. put_next. put_next.
  assert (u16_try_from (header_bytes sparse) = Some (header_bytes sparse)) as ->
    by (apply u16_try_from_Some; lia).
  cbn [ok_or mbind outcome_bind]. put_next.
  match goal with |- context [put_sizes ?m _ _ _ _ _] =>
    destruct (put_sizes_total m lowest allocated logical initialized sparse)
      as (b7 & -> & Hupd7 & Hlen7 & Hval7); [lia | done | done | done |] end.
  cbn [mbind outcome_bind].
  destruct (copy_total (E := NtfsSerializeError) (header_bytes sparse) (header_bytes sparse + len pairs) pairs b7)
    as (b8 & -> & Hupd8 & Hval8 & Hlen8); [lia | lia | lia |].
  exists b8. split; [done |].
  split; rewrite ?pairs_offset_unnamed; try (peel; done).
  - lia.
  - peel. lia.
  - change (len (@nil N)) with 0. peel. apply field_zeros. lia.
  - peel. apply field_zeros. lia.
  - peel. rewrite Hval2. destruct sparse; [done |]. peel. apply field_zeros. lia.
  - peel. apply field_zeros. lia.
  - peel. rewrite subslice_replicate by lia. done.
  - intros H0. destruct (Hval7 H0) as (? & ? & ? & Hs). split_and!; try (by peel).
    intros Hsp. rewrite <- (Hs Hsp). clear Hs Hval7. rewrite Hsp in *.
    change (header_bytes true) with 72 in *. by peel.
  - unfold subslice. change (len (@nil N)) with 0. rewrite N.mul_0_l, N.add_0_r, N.sub_diag. done.
  - peel. rewrite subslice_replicate by lia. do 2 f_equal; lia.
Qed.

Lemma named_from_pairs_written name :
  name <> [] -> len name <= 255 -> pairs_offset sparse name + len pairs + 7 <= u32_max ->
  exists b, nonresident_named_attribute_from_pairs kind name pairs lowest count logical initialized
      allocated id sparse = Ok b /\
    written b kind id name pairs lowest count logical initialized allocated sparse.
Proof using Type*.
  intros Hne Hn Hp. destruct (attribute_geometry sparse name pairs Hn Hp) as (Hmh & Hm & _ & Ht1 & Ht2 & Ht3).
  widths. destruct (header_bytes_value sparse) as (_ & Hh & _).
  assert (0 < len name) as Hpos by (destruct name; [done | rewrite len_cons; lia]).
  unfold nonresident_named_attribute_from_pairs.
  assert (is_empty name = false) as Hie by (by destruct name).
  rewrite Hie. destruct (N.eqb_spec count 0) as [?|_]; [lia |]. cbn [orb refuse_if mbind outcome_bind].
  change (if sparse then SPARSE_NONRESIDENT_HEADER_BYTES else NONRESIDENT_HEADER_BYTES)
    with (header_bytes sparse).
  rewrite checked_mul_in by lia. cbn [ok_or mbind outcome_bind].
  rewrite (checked_add_in (header_bytes sparse)) by lia. cbn [ok_or mbind outcome_bind].
  change (align_eight (header_bytes sparse + len name * 2)) with (pairs_offset sparse name).
  rewrite (checked_add_in (pairs_offset sparse name)) by lia. cbn [ok_or mbind outcome_bind].
  change (align_eight (pairs_offset sparse name + len pairs)) with (attribute_bytes sparse name pairs).
  rewrite (checked_add_in lowest) by lia. cbn [mbind option_bind].
  rewrite checked_sub_in by lia. cbn [ok_or mbind outcome_bind].
  set (m := pairs_offset sparse name) in *.
  set (t := attribute_bytes sparse name pairs) in *.
  assert (len (replicate (N.to_nat t) x00) = t) as Hrep by (rewrite len_replicate; lia).
  put_next. rewrite u32_try_from_in by lia. cbn [ok_or mbind outcome_bind].
  put_next. put_next. rewrite u8_try_from_in by lia. cbn [ok_or mbind outcome_bind]. put_next.
  assert (u16_try_from (header_bytes sparse) = Some (header_bytes sparse)) as ->
    by (apply u16_try_from_Some; lia).
  cbn [ok_or mbind outcome_bind]. put_next.
  match goal with |- context [if sparse then put_le _ ?m _ _ else _] =>
    destruct (put_flag_total m sparse) as (b4 & -> & Hupd4 & Hlen4 & Hval4); [lia |] end.
  cbn [mbind outcome_bind]. put_next. put_next. put_next.
  assert (u16_try_from m = Some m) as -> by (apply u16_try_from_Some; lia).
  cbn [ok_or mbind outcome_bind]. put_next.
  match goal with |- context [put_sizes ?m _ _ _ _ _] =>
    destruct (put_sizes_total m lowest allocated logical initialized sparse)
      as (b9 & -> & Hupd9 & Hlen9 & Hval9); [lia | done | done | done |] end.
  cbn [mbind outcome_bind].
  destruct (write_utf16_total b9 (header_bytes sparse) name) as (b10 & -> & Hupd10 & Hval10 & Hlen10); [lia |].
  cbn [mbind outcome_bind].
  destruct (copy_total (E := NtfsSerializeError) m (m + len pairs) pairs b10)
    as (b11 & -> & Hupd11 & Hval11 & Hlen11); [lia | lia | lia |].
  exists b11. split; [done |].
  split; rewrite ?Hie; fold m; try (peel; done).
  - lia.
  - peel. lia.
  - peel. rewrite Hval4. destruct sparse; [done |]. peel. apply field_zeros. lia.
  - peel. apply field_zeros. lia.
  - peel. rewrite subslice_replicate by lia. done.
  - intros H0. destruct (Hval9 H0) as (? & ? & ? & Hs). split_and!; try (by peel).
    intros Hsp. rewrite <- (Hs Hsp). clear Hs Hval9. clearbody m t. rewrite Hsp in *.
    change (header_bytes true) with 72 in *. by peel.
  - peel. rewrite subslice_replicate by lia. do 2 f_equal; lia.
Qed.
End Writers.

(** ** Reading written attributes *)
Lemma u16_pairs_written units :
  Forall (fun u => u <= u16_max) units -> u16_pairs (concat (u16_le <$> units)) = units.
Proof.
  induction 1 as [|u units Hu _ IH]; [done |].
  cbn [fmap list_fmap concat]. change (u16_le u ++ ?l) with (byte_of_N u :: byte_of_N (u / 256) :: l).
  cbn [u16_pairs]. change (concat (list_fmap N (list byte) u16_le units)) with (concat (u16_le <$> units)).
  rewrite IH. f_equal. change [byte_of_N u; byte_of_N (u / 256)] with (le_bytes 2 u).
  rewrite le_num_le_bytes. apply N.mod_small. unfold u16_max in Hu. change (256 ^ N.of_nat 2) with 65536. lia.
Qed.

Definition stream_flags (sparse : bool) : AttributeFlags :=
  flags_of (if sparse then ATTRIBUTE_FLAG_SPARSE else 0).
Lemma stream_flags_facts (sparse : bool) :
  flags_ok (if sparse then ATTRIBUTE_FLAG_SPARSE else 0) /\ is_compressed (stream_flags sparse) = false /\
  extended (stream_flags sparse) = sparse /\ header_length 1 (stream_flags sparse) = header_bytes sparse.
Proof.
  assert (flags_ok 0 /\ flags_ok ATTRIBUTE_FLAG_SPARSE) as [H0 H1].
  { unfold flags_ok. change (N.land 0 COMPRESSION_MASK) with 0.
    change (N.land ATTRIBUTE_FLAG_SPARSE COMPRESSION_MASK) with 0. split; (split; [lia |]; split; [done | by left]). }
  by destruct sparse.
Qed.

(** What the reader needs to accept the attribute. *)
Record readable (limits : AttributeLimits) (kind : N) (name : list N) (pairs : list byte)
    (lowest count logical initialized allocated : N) (sparse : bool) : Prop := {
  rd_limits : 512 <= lt_cluster_size_bytes limits /\
    is_power_of_two (lt_cluster_size_bytes limits) = true;
  rd_fits : attribute_bytes sparse name pairs <= lt_max_attribute_bytes limits;
  rd_kind : 16 <= kind < ATTRIBUTE_END /\ N.land kind 15 = 0;
  rd_name : len name <= 255 /\ len name <= lt_max_name_code_units limits /\
    Forall (fun u => u <= u16_max) name;
  rd_pairs : pairs <> [] /\ pairs_offset sparse name + len pairs + 7 <= u32_max;
  rd_vcns : 0 < count /\ lowest + count <= 2 ^ 63;
  rd_sizes : logical < 2 ^ 63 /\ initialized <= logical /\ allocated < 2 ^ 63;
  rd_first : lowest = 0 -> count * lt_cluster_size_bytes limits <= u64_max /\
    allocated mod lt_cluster_size_bytes limits = 0 /\ (sparse = false -> logical <= allocated)
}.

(** What the reader returns. *)
Definition padded_pairs (name : list N) (pairs : list byte) (sparse : bool) : list byte :=
  pairs ++ replicate (N.to_nat (attribute_bytes sparse name pairs - (pairs_offset sparse name + len pairs))) x00.
Definition read_body (name : list N) (pairs : list byte) (lowest count logical initialized allocated : N)
    (sparse : bool) : NonResidentAttribute :=
  mkNonResidentAttribute lowest (Some (lowest + count - 1)) (lowest + count) (pairs_offset sparse name)
    (padded_pairs name pairs sparse) 0 None
    (if lowest =? 0
     then Some (mkNonResidentSizes allocated logical initialized (if sparse then Some allocated else None))
     else None).
Definition read_attribute (b : list byte) (kind id : N) (name : list N) (pairs : list byte)
    (lowest count logical initialized allocated : N) (sparse : bool) : NtfsAttribute :=
  mkNtfsAttribute kind (len b)
    (if is_empty name then None else Some (mkAttributeName name (utf16_valid name)))
    (if is_empty name then 0 else header_bytes sparse) (stream_flags sparse) id b
    (NonResident (read_body name pairs lowest count logical initialized allocated sparse)).

Section Reading.
Variables (b : list byte) (kind id : N) (name : list N) (pairs : list byte)
  (lowest count logical initialized allocated : N) (sparse : bool) (limits : AttributeLimits).
Hypothesis Hw : written b kind id name pairs lowest count logical initialized allocated sparse.
Hypothesis Hr : readable limits kind name pairs lowest count logical initialized allocated sparse.

Lemma written_geometry :
  header_bytes sparse + len name * 2 <= pairs_offset sparse name /\
  pairs_offset sparse name mod 8 = 0 /\ pairs_offset sparse name + len pairs <= len b /\
  len b mod 8 = 0 /\ 64 <= header_bytes sparse <= 72 /\ 0 < len pairs /\ len b <= u32_max.
Proof using Hw Hr.
  destruct Hr as [_ _ _ (Hn & _ & _) (Hp & Ht) _ _ _]. rewrite (wr_bytes _ _ _ _ _ _ _ _ _ _ _ Hw).
  destruct (attribute_geometry sparse name pairs Hn Ht) as (? & ? & ? & ? & ? & ?).
  destruct (header_bytes_value sparse) as (_ & ? & _).
  assert (0 < len pairs) by (destruct pairs; [done | rewrite len_cons; lia]).
  split_and!; try done; lia.
Qed.

Lemma written_name :
  name_of b (header_bytes sparse) (lt_max_name_code_units limits)
    (if is_empty name then (None, None)
     else (Some (mkAttributeName name (utf16_valid name)), Some (header_bytes sparse, len name * 2))).
Proof using Hw Hr.
  destruct Hr as [_ _ _ (Hn & Hm & Hu) _ _ _ _]. destruct written_geometry as (? & _ & ? & _ & ? & _ & _).
  unfold name_of. rewrite (wr_units _ _ _ _ _ _ _ _ _ _ _ Hw), (wr_name_offset _ _ _ _ _ _ _ _ _ _ _ Hw).
  destruct (is_empty name) eqn:He.
  - left. by destruct name.
  - right. assert (0 < len name) by (destruct name; [done | rewrite len_cons; lia]).
    split_and!; try lia; [by destruct sparse |]. unfold name_at.
    by rewrite (wr_name _ _ _ _ _ _ _ _ _ _ _ Hw), u16_pairs_written.
Qed.

Lemma i64_small u : u < 2 ^ 63 -> i64_of_u64 u = Z.of_N u.
Proof using Type. intros Hu. unfold i64_of_u64. by rewrite (proj2 (N.ltb_lt _ _) Hu). Qed.

Lemma written_sizes :
  lowest = 0 ->
  sizes_of b (stream_flags sparse) (lt_cluster_size_bytes limits) None (count * lt_cluster_size_bytes limits)
    (mkNonResidentSizes allocated logical initialized (if sparse then Some allocated else None)).
Proof using Hw Hr.
  intros H0. destruct (wr_sizes _ _ _ _ _ _ _ _ _ _ _ Hw H0) as (Ha & Hl & Hi & Hs).
  destruct (rd_sizes _ _ _ _ _ _ _ _ _ _ Hr) as (? & ? & ?).
  destruct (rd_first _ _ _ _ _ _ _ _ _ _ Hr H0) as (_ & ? & Hd).
  destruct (stream_flags_facts sparse) as (_ & _ & Hx & _).
  split; rewrite ?Hx, ?Ha, ?Hl, ?Hi; try done.
  - split_and!; [done | done | lia].
  - intros ->. by rewrite (Hs eq_refl).
  - destruct sparse; [by rewrite (Hs eq_refl) | done].
Qed.

Lemma written_body range :
  (range = None \/ range = Some (header_bytes sparse, len name * 2)) ->
  non_resident_of b (stream_flags sparse) range (lt_cluster_size_bytes limits)
    (read_body name pairs lowest count logical initialized allocated sparse).
Proof using Hw Hr.
  intros Hrange. destruct written_geometry as (Hg1 & Hg2 & Hg3 & Hg4 & Hg5 & Hg6 & Hg7).
  destruct (rd_vcns _ _ _ _ _ _ _ _ _ _ Hr) as [Hc Hv]. change (2 ^ 63) with 9223372036854775808 in Hv.
  destruct (stream_flags_facts sparse) as (_ & Hcomp & Hx & _).
  split; cbn [read_body nr_lowest_vcn nr_highest_vcn nr_expected_next_vcn nr_mapping_pairs_offset
    nr_mapping_pairs nr_compression_unit nr_compression_block_bytes nr_sizes];
    rewrite ?Hx, ?(wr_offset _ _ _ _ _ _ _ _ _ _ _ Hw), ?(wr_unit _ _ _ _ _ _ _ _ _ _ _ Hw); try done; try lia.
  - rewrite (wr_reserved _ _ _ _ _ _ _ _ _ _ _ Hw). by apply Forall_replicate.
  - right. rewrite (wr_lowest _ _ _ _ _ _ _ _ _ _ _ Hw), (wr_highest _ _ _ _ _ _ _ _ _ _ _ Hw).
    rewrite !i64_small by (change (2 ^ 63) with 9223372036854775808; lia). split; [lia |].
    rewrite !N2Z.id. f_equal. lia.
  - change (if sparse then EXTENDED_NON_RESIDENT_HEADER_LEN else NON_RESIDENT_HEADER_LEN)
      with (header_bytes sparse). lia.
  - intros o n ->. destruct Hrange as [[=]|[= -> ->]]. lia.
  - rewrite <- (subslice_split _ (pairs_offset sparse name + len pairs)) by lia.
    rewrite (wr_pairs _ _ _ _ _ _ _ _ _ _ _ Hw), (wr_tail _ _ _ _ _ _ _ _ _ _ _ Hw).
    by rewrite (wr_bytes _ _ _ _ _ _ _ _ _ _ _ Hw).
  - by right.
  - destruct (N.eqb_spec lowest 0) as [H0|]; [|done]. rewrite H0, N.add_0_l.
    destruct (rd_first _ _ _ _ _ _ _ _ _ _ Hr H0) as (? & _ & _). split; [done |].
    eexists. split; [done |]. by apply written_sizes.
Qed.

Lemma written_attribute rest :
  attribute_of (b ++ rest) limits
    (read_attribute b kind id name pairs lowest count logical initialized allocated sparse).
Proof using Hw Hr.
  destruct written_geometry as (Hg1 & Hg2 & Hg3 & Hg4 & Hg5 & Hg6 & Hg7).
  destruct (stream_flags_facts sparse) as (Hok & Hcomp & Hx & Hh).
  destruct (rd_kind _ _ _ _ _ _ _ _ _ _ Hr) as [Hk1 Hk2].
  assert (forall n o, o + N.of_nat n <= len b -> field n (b ++ rest) o = field n b o) as Hfield.
  { intros n o Ho. unfold field. by rewrite subslice_app_low by lia. }
  split; cbn [read_attribute at_attribute_type at_length at_name at_name_offset at_flags at_id at_raw at_body];
    rewrite ?(wr_form _ _ _ _ _ _ _ _ _ _ _ Hw), ?Hh; try done.
  - apply (rd_limits _ _ _ _ _ _ _ _ _ _ Hr).
  - rewrite Hfield by lia. symmetry. apply (wr_kind _ _ _ _ _ _ _ _ _ _ _ Hw).
  - split_and!; [lia | lia | done].
  - rewrite Hfield by lia. symmetry. apply (wr_length _ _ _ _ _ _ _ _ _ _ _ Hw).
  - rewrite len_app. split_and!; [lia | done | lia |]. rewrite (wr_bytes _ _ _ _ _ _ _ _ _ _ _ Hw).
    apply (rd_fits _ _ _ _ _ _ _ _ _ _ Hr).
  - symmetry. apply subslice_app_l.
  - by rewrite (wr_flags _ _ _ _ _ _ _ _ _ _ _ Hw).
  - lia.
  - pose proof written_name as Hn. destruct (is_empty name); eexists;
      (split; [exact Hn |]; split; [done | apply written_body; auto]).
  - symmetry. apply (wr_name_offset _ _ _ _ _ _ _ _ _ _ _ Hw).
  - symmetry. apply (wr_id _ _ _ _ _ _ _ _ _ _ _ Hw).
Qed.

Lemma written_parsed rest :
  len (b ++ rest) <= u64_max ->
  parse_attribute (b ++ rest) limits =
    Ok (read_attribute b kind id name pairs lowest count logical initialized allocated sparse).
Proof using Hw Hr. intros Hl. apply attribute_spec; [done |]. apply written_attribute. Qed.
End Reading.

(** ** Fragments *)
Definition stream_name (stream : ObjectStream) : list N := default [] (st_name stream).
Definition stream_sparse (stream : ObjectStream) : bool := sf_sparse (st_flags stream).
Definition name_typed (stream : ObjectStream) : Prop :=
  st_name stream <> Some [] /\ len (stream_name stream) <= 255 /\
  Forall (fun u => u <= u16_max) (stream_name stream).
Definition sizes_typed (stream : ObjectStream) : Prop :=
  st_logical_bytes stream <= u64_max /\ st_initialized_bytes stream <= u64_max /\
  st_allocated_bytes stream <= u64_max.

(** A fragment of a stream: an attribute for some runs, short enough for a record. *)
Definition fits_record (b : list byte) : Prop := ATTRIBUTES_OFFSET + len b + 8 <= RECORD_BYTES - 2.
Definition fragment (stream : ObjectStream) (lowest id : N) (group : list (option N * N)) (b : list byte)
    : Prop :=
  exists pairs, encode_runs group = Some pairs /\
    encode_data_fragment stream pairs lowest (sum_by snd group) id = Ok b.
(** The runs in fragments, each as long as a record allows. *)
Inductive fragmented (stream : ObjectStream) : N -> N -> list (option N * N) -> list (list byte) -> Prop :=
| fragmented_end lowest id : fragmented stream lowest id [] []
| fragmented_step lowest id group rest b bs :
    group <> [] -> fragment stream lowest id group b -> fits_record b ->
    (forall r rest', rest = r :: rest' -> exists b', fragment stream lowest id (group ++ [r]) b' /\ ~ fits_record b') ->
    fragmented stream (lowest + sum_by snd group) (id + 1) rest bs ->
    fragmented stream lowest id (group ++ rest) (b :: bs).

Lemma record_lengths_fit_one b :
  len b <= u32_max -> record_lengths_fit [len b] = Ok (bool_decide (fits_record b)).
Proof.
  intros Hb. unfold record_lengths_fit, record_lengths_loop, fits_record, ATTRIBUTES_OFFSET, RECORD_BYTES. widths.
  rewrite checked_add_in by lia. cbn [ok_or mbind outcome_bind]. rewrite checked_add_in by lia.
  destruct (N.ltb_spec (1024 - 2) (56 + len b + 8)).
  - rewrite bool_decide_eq_false_2; [done | lia].
  - rewrite bool_decide_eq_true_2; [done | lia].
Qed.

Section Fragments.
Context (stream : ObjectStream).
Hypothesis Hname : name_typed stream.
Hypothesis Hsizes : sizes_typed stream.

Lemma fragment_total lowest id group :
  group <> [] -> Forall run_typed group -> 17 * len group + 700 <= u32_max ->
  lowest + sum_by snd group <= u64_max -> id <= u16_max ->
  exists pairs b, encode_runs group = Some pairs /\ encodes 0 pairs group [] /\ pairs <> [] /\
    pairs_offset (stream_sparse stream) (stream_name stream) + len pairs + 7 <= u32_max /\
    encode_data_fragment stream pairs lowest (sum_by snd group) id = Ok b /\
    written b DATA id (stream_name stream) pairs lowest (sum_by snd group) (st_logical_bytes stream)
      (st_initialized_bytes stream) (st_allocated_bytes stream) (stream_sparse stream) /\
    len b <= u32_max /\ (len group = 1 -> fits_record b).
Proof using Hname Hsizes.
  intros Hg Ht Hl Hv Hid. destruct Hname as (Hn1 & Hn2 & _), Hsizes as (? & ? & ?).
  destruct (encode_runs_from_spec [] 0 group ltac:(done) Ht) as (pairs & Henc & He & Hlen).
  exists pairs. widths.
  assert (0 < sum_by snd group) as Hpos.
  { destruct group as [|r group]; [done |]. rewrite sum_by_cons. inversion Ht as [|? ? [? _] _]. lia. }
  assert (pairs <> []) as Hne by (inversion He; done).
  assert (pairs_offset (stream_sparse stream) (stream_name stream) <= 600) as Hoff.
  { destruct (attribute_geometry (stream_sparse stream) (stream_name stream) [] Hn2) as (_ & ? & _); [|done].
    unfold pairs_offset. destruct (header_bytes_value (stream_sparse stream)) as (_ & ? & _).
    destruct (align_eight_bounds (header_bytes (stream_sparse stream) + len (stream_name stream) * 2))
      as (_ & ? & _); [lia |]. change (len (@nil byte)) with 0. lia. }
  assert (pairs_offset (stream_sparse stream) (stream_name stream) + len pairs + 7 <= u32_max) as Hp by lia.
  destruct (attribute_geometry (stream_sparse stream) (stream_name stream) pairs Hn2 Hp)
    as (_ & _ & _ & _ & Htot & _).
  assert (exists b, encode_data_fragment stream pairs lowest (sum_by snd group) id = Ok b /\
    written b DATA id (stream_name stream) pairs lowest (sum_by snd group) (st_logical_bytes stream)
      (st_initialized_bytes stream) (st_allocated_bytes stream) (stream_sparse stream)) as (b & Hb & Hw).
  { unfold encode_data_fragment, stream_name, stream_sparse in *. destruct (st_name stream) as [name|].
    - cbn [default from_option Datatypes.id] in *. apply named_from_pairs_written; try done. by intros ->.
    - cbn [default from_option Datatypes.id] in *. apply from_pairs_written; try done.
      by rewrite pairs_offset_unnamed in Hp. }
  exists b. pose proof (wr_bytes _ _ _ _ _ _ _ _ _ _ _ Hw) as Hlb.
  split_and!; try done; [lia |]. intros Hgl. unfold fits_record, ATTRIBUTES_OFFSET, RECORD_BYTES. lia.
Qed.

(** The inner loop, after the runs of [group] have been tried. *)
Lemma choose_fragment_spec before group rest lowest id chosen :
  Forall run_typed (before ++ group ++ rest) -> 17 * len (before ++ group ++ rest) + 700 <= u32_max ->
  lowest + sum_by snd (group ++ rest) <= u64_max -> id <= u16_max ->
  (group = [] /\ chosen = None /\ rest <> [] \/
   exists b, chosen = Some (len before + len group, b, sum_by snd group) /\ group <> [] /\
     fragment stream lowest id group b /\ fits_record b) ->
  exists taken left_ b, group ++ rest = taken ++ left_ /\ taken <> [] /\
    fragment stream lowest id taken b /\ fits_record b /\
    (forall r rest', left_ = r :: rest' -> exists b', fragment stream lowest id (taken ++ [r]) b' /\ ~ fits_record b') /\
    choose_fragment stream (before ++ group ++ rest) (len before) lowest id
      ((fun i => len before + 1 + i) <$> (N.of_nat <$> seq (length group) (length rest)))
      (sum_by snd group) chosen
    = Ok (Some (len before + len taken, b, sum_by snd taken)).
Proof using Hname Hsizes.
  revert group chosen. induction rest as [|r rest IH]; intros group chosen Ht Hl Hv Hid Hch.
  { destruct Hch as [(_ & _ & ?)|(b & -> & Hg & Hf & Hfit)]; [done |].
    exists group, [], b. by split_and!. }
  cbn [length seq fmap list_fmap choose_fragment]. widths.
  assert (group ++ r :: rest = (group ++ [r]) ++ rest) as Hsplit by by rewrite <- app_assoc.
  assert (len before + 1 + N.of_nat (length group) = len before + len group + 1) as ->
    by (unfold len; lia).
  rewrite sub_u64_in by lia. cbn [mbind outcome_bind].
  replace (len before + len group + 1 - 1) with (len before + len group) by lia.
  assert (@at_index NtfsSerializeError _ (before ++ group ++ r :: rest) (len before + len group) = Ok r) as ->.
  { apply at_index_Ok. rewrite app_assoc. apply list_lookup_middle. rewrite length_app. unfold len. lia. }
  cbn [mbind outcome_bind].
  rewrite Hsplit, !sum_by_app, sum_by_cons in Hv. change (sum_by snd []) with 0 in Hv.
  rewrite checked_add_in by lia. cbn [ok_or mbind outcome_bind].
  assert (@index_range NtfsSerializeError _ (len before) (len before + len group + 1)
    (before ++ group ++ r :: rest) = Ok (group ++ [r])) as ->.
  { apply index_range_Ok. rewrite Hsplit. rewrite !len_app, len_cons, len_nil. split_and!; [lia | lia |].
    symmetry. apply subslice_middle; [done |]. rewrite len_app, len_cons, len_nil. lia. }
  cbn [mbind outcome_bind].
  destruct (fragment_total lowest id (group ++ [r])) as (pairs & b & Henc & _ & _ & _ & Hb & _ & Hlb & Hone).
  { by destruct group. }
  { apply Forall_app in Ht as [_ Ht]. rewrite Hsplit in Ht. by apply Forall_app in Ht as [? _]. }
  { rewrite !len_app, !len_cons in *. rewrite len_nil. lia. }
  { rewrite sum_by_app, sum_by_cons. change (sum_by snd []) with 0. lia. }
  { done. }
  assert (sum_by snd (group ++ [r]) = sum_by snd group + r.2) as Hsum.
  { rewrite sum_by_app, sum_by_cons. change (sum_by snd []) with 0. lia. }
  rewrite Hsum in Hb. rewrite Henc. cbn [ok_or mbind outcome_bind]. rewrite Hb.
  cbn [map_err mbind outcome_bind]. rewrite record_lengths_fit_one by done. cbn [mbind outcome_bind].
  assert (fragment stream lowest id (group ++ [r]) b) as Hfrag by (exists pairs; by rewrite Hsum).
  destruct (bool_decide (fits_record b)) eqn:Hfit.
  - apply bool_decide_eq_true in Hfit.
    destruct (IH (group ++ [r]) (Some (len before + len group + 1, b, sum_by snd group + r.2)))
      as (taken & left_ & b' & H1 & H2 & H3 & H4 & H5 & H6).
    { by rewrite <- Hsplit. }
    { by rewrite <- Hsplit. }
    { rewrite !sum_by_app, sum_by_cons. change (sum_by snd []) with 0. lia. }
    { done. }
    { right. exists b. rewrite len_app, len_cons, len_nil, Hsum. split_and!; try done.
      - do 3 f_equal. lia.
      - by destruct group. }
    exists taken, left_, b'. rewrite Hsplit. split_and!; try done.
    rewrite <- H6. rewrite Hsum. f_equal. rewrite length_app. cbn [length].
    replace (length group + 1)%nat with (S (length group)) by lia. done.
  - apply bool_decide_eq_false in Hfit.
    destruct Hch as [(-> & _ & _)|(b0 & -> & Hg & Hf & Hf0)].
    + exfalso. apply Hfit, Hone. done.
    + exists group, (r :: rest), b0. split_and!; try done. intros ? ? [= <- <-]. by exists b.
Qed.

Lemma split_loop_spec fuel before rest lowest id fragments :
  Forall run_typed (before ++ rest) -> 17 * len (before ++ rest) + 700 <= u32_max ->
  lowest + sum_by snd rest <= u64_max -> id <= u16_max -> id + len rest <= 65536 ->
  (length rest < fuel)%nat ->
  exists bs, split_loop fuel stream (before ++ rest) (len before) lowest id fragments = Ok (fragments ++ bs) /\
    fragmented stream lowest id rest bs.
Proof using Hname Hsizes.
  revert before rest lowest id fragments.
  induction fuel as [|fuel IH]; intros before rest lowest id fragments Ht Hl Hv Hid Hids Hf; [lia |].
  cbn [split_loop]. widths. rewrite len_app. destruct (N.ltb_spec (len before) (len before + len rest)) as [Hr|Hr].
  2: { exists []. rewrite app_nil_r. split; [done |]. assert (rest = []) as ->; [|constructor].
    destruct rest; [done | rewrite len_cons in Hr; lia]. }
  destruct (choose_fragment_spec before [] rest lowest id None) as (taken & left_ & b & Hs & Hne & Hfrag & Hfit & Hmax & Hch);
    try done.
  { left. split_and!; try done. intros ->. rewrite len_nil in Hr. lia. }
  cbn [app] in Hs, Hch. change (sum_by snd []) with 0 in Hch.
  assert (fragment_ends (len before) (len before + len rest)
    = (fun i => len before + 1 + i) <$> (N.of_nat <$> seq (length (@nil (option N * N))) (length rest))) as ->.
  { unfold fragment_ends, indices. do 3 f_equal. unfold len. lia. }
  rewrite Hch. cbn [ok_or mbind outcome_bind]. rewrite Hs, sum_by_app in Hv.
  rewrite checked_add_in by lia. cbn [ok_or mbind outcome_bind].
  assert (0 < len taken) as Hpos by (destruct taken; [done | rewrite len_cons; lia]).
  assert (len rest = len taken + len left_) as Hlen by (by rewrite Hs, len_app).
  assert (length rest = (length taken + length left_)%nat) as Hlen' by (by rewrite Hs, length_app).
  assert (exists id', (if len before + len taken <? len before + len rest
      then ok_or SerializeArithmeticOverflow (u16_try_from (id + 1)) else Ok id) = Ok id' /\
    (left_ <> [] -> id' = id + 1) /\ id' <= u16_max /\ id' + len left_ <= 65536) as (id' & -> & Hid1 & Hid2 & Hid3).
  { destruct (N.ltb_spec (len before + len taken) (len before + len rest)).
    - rewrite (proj2 (u16_try_from_Some (id + 1) (id + 1))) by lia. exists (id + 1). split_and!; try done; lia.
    - exists id. split_and!; try done; [|lia]. intros Hl'. destruct left_; [done | rewrite len_cons in Hlen; lia]. }
  cbn [mbind outcome_bind]. rewrite Hs, app_assoc, <- len_app.
  destruct (IH (before ++ taken) left_ (lowest + sum_by snd taken) id' (fragments ++ [b])) as (bs & -> & Hbs).
  { by rewrite <- app_assoc, <- Hs. }
  { by rewrite <- app_assoc, <- Hs. }
  { lia. }
  { done. }
  { done. }
  { destruct taken; [done | cbn in *; lia]. }
  exists (b :: bs). split; [by rewrite <- app_assoc |].
  apply fragmented_step; try done. destruct left_ as [|r left_].
  - inversion Hbs; [constructor | by destruct group].
  - by rewrite <- Hid1.
Qed.
End Fragments.

(** ** Reading a stream back *)

(** One fragment: the attribute reader, then the reader of its mapping pairs. It
    must start where the previous one ended. *)
Definition read_fragment (limits : AttributeLimits) (volume_clusters vcn : N) (b : list byte)
    : option (N * list (option N)) :=
  match parse_attribute b limits with
  | Ok a =>
      match at_body a with
      | NonResident r =>
          if (at_attribute_type a =? DATA) && (nr_lowest_vcn r =? vcn) then
            match parse_attribute_mapping_pairs (nr_mapping_pairs r)
                    (mkMappingPairsLimits vcn (Some (nr_expected_next_vcn r)) volume_clusters u64_max u64_max) with
            | Ok runlist => Some (rl_next_vcn runlist, clusters_of (rl_extents runlist))
            | _ => None
            end
          else None
      | NtfsAttribute.Resident _ => None
      end
  | _ => None
  end.
(** The logical cluster of every virtual cluster of a stream, from a virtual
    cluster on. *)
Fixpoint read_stream (limits : AttributeLimits) (volume_clusters vcn : N) (fragments : list (list byte))
    : option (list (option N)) :=
  match fragments with
  | [] => Some []
  | b :: fragments =>
      '(next, clusters) ← read_fragment limits volume_clusters vcn b;
      rest ← read_stream limits volume_clusters next fragments;
      Some (clusters ++ rest)
  end.

Lemma encodes_padded previous bytes runs padding more :
  encodes previous bytes runs padding -> encodes previous (bytes ++ more) runs (padding ++ more).
Proof.
  induction 1; rewrite <- ?app_comm_cons, <- ?app_assoc; [constructor | by constructor |].
  by eapply encodes_extent.
Qed.
Lemma pairs_read bytes limits runs padding :
  limits_typed limits -> len bytes <= isize_max -> encodes 0 bytes runs padding -> within limits runs ->
  ml_expected_next_vcn limits = Some (ml_starting_vcn limits + sum_by snd runs) ->
  Forall (fun b => b = x00) padding ->
  parse_attribute_mapping_pairs bytes limits = Ok (runlist_of limits runs (len bytes - len padding)).
Proof.
  intros Hl Hb He Hw Hn Hp. unfold parse_attribute_mapping_pairs. rewrite parse_initial.
  apply parse_loop_Ok; [done | simpl; lia | lia | by apply within_nil |]. simpl.
  exists runs, padding. split; [done |]. split; [|done].
  constructor; [done | | by right]. intros expected He'. rewrite Hn in He'. by injection He'.
Qed.

Section ReadBack.
Context (stream : ObjectStream) (limits : AttributeLimits) (volume_clusters : N).
Hypothesis Hname : name_typed stream.
Hypothesis Hvolume : volume_clusters <= u64_max.
Hypothesis Hcluster : 512 <= lt_cluster_size_bytes limits /\
  is_power_of_two (lt_cluster_size_bytes limits) = true.
Hypothesis Hroom : 1024 <= lt_max_attribute_bytes limits /\ 255 <= lt_max_name_code_units limits.
Hypothesis Hstream : st_initialized_bytes stream <= st_logical_bytes stream /\
  st_logical_bytes stream < 2 ^ 63 /\ st_allocated_bytes stream < 2 ^ 63 /\
  st_allocated_bytes stream mod lt_cluster_size_bytes limits = 0 /\
  (stream_sparse stream = false -> st_logical_bytes stream <= st_allocated_bytes stream).

Lemma stream_sizes_typed : sizes_typed stream.
Proof using Hstream.
  clear Hvolume Hcluster Hroom Hname.
  destruct Hstream as (? & ? & ? & _). change (2 ^ 63) with 9223372036854775808 in *.
  unfold sizes_typed, u64_max. lia.
Qed.

Lemma fragment_read lowest id group b :
  fragment stream lowest id group b -> fits_record b -> group <> [] ->
  Forall run_typed group -> Forall (run_fits volume_clusters) group -> 17 * len group + 700 <= u32_max ->
  lowest + sum_by snd group <= 2 ^ 63 -> sum_by snd group * lt_cluster_size_bytes limits <= u64_max ->
  id <= u16_max ->
  read_fragment limits volume_clusters lowest b = Some (lowest + sum_by snd group, run_clusters group) /\
  exists a, parse_attribute b limits = Ok a /\ at_id a = id.
Proof using All.
  intros (pairs' & Henc' & Hb') Hfit Hg Ht Hr Hl Hv Hm Hid. widths. destruct Hroom, Hcluster, Hstream as (? & ? & ? & ? & ?).
  change (2 ^ 63) with 9223372036854775808 in Hv.
  destruct (fragment_total stream Hname stream_sizes_typed lowest id group)
    as (pairs & b0 & Henc & He & Hne & Hpl & Hb & Hw & _ & _); try done; [lia |].
  rewrite Henc' in Henc. injection Henc as ->. rewrite Hb' in Hb. injection Hb as <-.
  assert (0 < sum_by snd group) as Hpos.
  { destruct group as [|r group]; [done |]. rewrite sum_by_cons. inversion Ht as [|? ? [? _] _]. lia. }
  unfold fits_record, ATTRIBUTES_OFFSET, RECORD_BYTES in Hfit.
  pose proof (wr_bytes _ _ _ _ _ _ _ _ _ _ _ Hw) as Hlb. destruct Hname as (_ & Hn1 & Hn2).
  assert (readable limits DATA (stream_name stream) pairs lowest (sum_by snd group) (st_logical_bytes stream)
    (st_initialized_bytes stream) (st_allocated_bytes stream) (stream_sparse stream)) as Hread.
  { split; try done; [lia | split_and!; try done; lia]. }
  pose proof (written_parsed _ _ _ _ _ _ _ _ _ _ _ _ Hw Hread [] ) as Hparse. rewrite app_nil_r in Hparse.
  specialize (Hparse ltac:(lia)).
  split; [|by eexists]. unfold read_fragment. rewrite Hparse.
  cbn [read_attribute at_body at_attribute_type read_body nr_lowest_vcn nr_mapping_pairs nr_expected_next_vcn].
  rewrite !N.eqb_refl. cbn [andb].
  set (ml := mkMappingPairsLimits _ _ _ _ _).
  assert (within ml group) as Hwithin.
  { split; [done |]. cbn [ml ml_max_runs ml_max_decoded_clusters ml_starting_vcn]. split; [lia |].
    split; [left |]; lia. }
  unfold padded_pairs. rewrite <- Hlb.
  set (padding := replicate _ x00).
  rewrite (pairs_read _ ml group padding).
  - destruct (runlist_of_good ml group (len (pairs ++ padding) - len padding) Hwithin) as (_ & _ & _ & ->).
    cbn [runlist_of rl_next_vcn]. by rewrite layout_next.
  - unfold limits_typed. cbn. split_and!; try done; lia.
  - unfold padding. rewrite len_app, len_replicate. destruct (header_bytes_value (stream_sparse stream)) as (_ & ? & _). lia.
  - apply (encodes_padded _ _ _ []). done.
  - done.
  - done.
  - by apply Forall_replicate.
Qed.

Lemma fragmented_read lowest id runs bs :
  fragmented stream lowest id runs bs ->
  Forall run_typed runs -> Forall (run_fits volume_clusters) runs -> 17 * len runs + 700 <= u32_max ->
  lowest + sum_by snd runs <= 2 ^ 63 -> sum_by snd runs * lt_cluster_size_bytes limits <= u64_max ->
  id + len runs <= 65536 ->
  read_stream limits volume_clusters lowest bs = Some (run_clusters runs) /\
  Forall2 (fun b i => exists a, parse_attribute b limits = Ok a /\ at_id a = id + i) bs (indices (len bs)) /\
  Forall fits_record bs.
Proof using All.
  intros Hf. induction Hf as [lowest id|lowest id group rest b bs Hg Hfrag Hfit _ _ IH];
    intros Ht Hr Hl Hv Hm Hid; [done |].
  apply Forall_app in Ht as [Ht1 Ht2]. apply Forall_app in Hr as [Hr1 Hr2].
  rewrite len_app, sum_by_app in *. widths.
  assert (0 < len group) as Hpos by (destruct group; [done | rewrite len_cons; lia]).
  destruct (fragment_read lowest id group b) as [Hread Hparse]; try done; try lia.
  destruct IH as (Hrest & Hids & Hfits); try done; try lia.
  split; [|split; [|by constructor]].
  - cbn [read_stream]. rewrite Hread. cbn [mbind option_bind]. rewrite Hrest. cbn [mbind option_bind].
    unfold run_clusters. by rewrite bind_app.
  - rewrite len_cons. unfold indices. rewrite N2Nat.inj_add. cbn [N.to_nat Pos.to_nat Pos.iter_op Nat.add seq fmap list_fmap].
    constructor; [by rewrite N.add_0_r |].
    rewrite <- fmap_S_seq. unfold indices in Hids.
    apply Forall2_fmap_r in Hids. apply Forall2_fmap_r, Forall2_fmap_r. eapply Forall2_impl; [exact Hids |].
    intros b' i (a & ? & ?). exists a. split; [done |]. cbn. lia.
Qed.
End ReadBack.

(** ** The extents of a stream as runs *)
Definition aligned_extent (cluster : N) (sparse : bool) (e : Extent) : bool :=
  (ex_length e mod cluster =? 0) &&
  match ex_placement e with
  | Physical byte_offset => byte_offset mod cluster =? 0
  | Sparse => sparse
  end.
(** The logical cluster of the [k]-th cluster of an extent. *)
Definition placed_at (cluster : N) (e : Extent) (k : N) : option N :=
  match ex_placement e with
  | Physical byte_offset => Some (byte_offset / cluster + k)
  | Sparse => None
  end.
Definition run_of (cluster : N) (e : Extent) : option N * N :=
  (match ex_placement e with
   | Physical byte_offset => Some (byte_offset / cluster)
   | Sparse => None
   end, ex_length e / cluster).

Section Runs.
Context (stream : ObjectStream) (cluster id : N).
Hypothesis Hcluster : 512 <= cluster.

Lemma whole_clusters e :
  aligned_extent cluster (stream_sparse stream) e = true -> ex_length e = cluster * (ex_length e / cluster).
Proof using Hcluster.
  intros [H%N.eqb_eq _]%andb_true_iff. pose proof (N.div_mod' (ex_length e) cluster) as Hd. lia.
Qed.
Lemma runs_length extents :
  forallb (aligned_extent cluster (stream_sparse stream)) extents = true ->
  sum_by ex_length extents = cluster * sum_by snd (run_of cluster <$> extents).
Proof using Hcluster.
  induction extents as [|e extents IH]; intros Ha; [cbn; lia |].
  cbn [forallb] in Ha. apply andb_true_iff in Ha as [He Ha].
  rewrite fmap_cons, !sum_by_cons, (IH Ha). cbn [run_of snd]. rewrite (whole_clusters e He) at 1. lia.
Qed.

Lemma collect_runs_aligned sparse_stream extents s :
  forallb (aligned_extent cluster (stream_sparse stream)) extents = true ->
  Forall (fun e => 0 < ex_length e) extents ->
  rs_mapped_clusters s + sum_by snd (run_of cluster <$> extents) <= u64_max ->
  rs_physical_bytes s + sum_by Object.physical_length extents <= u64_max ->
  collect_runs stream cluster id Final sparse_stream extents s =
    Ok (inr (mkRunState (rs_runs s ++ (run_of cluster <$> extents))
      (rs_mapped_clusters s + sum_by snd (run_of cluster <$> extents))
      (rs_physical_bytes s + sum_by Object.physical_length extents)
      (rs_has_sparse_run s || existsb is_sparse_extent extents))).
Proof using Hcluster.
  revert s. induction extents as [|e extents IH]; intros s Ha Hl Hm Hp; cbn [collect_runs].
  { destruct s. cbn. by rewrite app_nil_r, !N.add_0_r, orb_false_r. }
  cbn [forallb] in Ha. apply andb_true_iff in Ha as [He Ha]. inversion Hl as [|? ? Hpos Hl']; subst.
  rewrite fmap_cons, !sum_by_cons. rewrite fmap_cons, sum_by_cons in Hm. rewrite sum_by_cons in Hp.
  cbn [run_of snd] in Hm. widths.
  pose proof He as [Hr%N.eqb_eq Hplace]%andb_true_iff.
  destruct (N.eqb_spec (ex_length e) 0) as [?|_]; [lia |].
  rewrite rem_u64_in by lia. cbn [mbind outcome_bind]. rewrite Hr. cbn [N.eqb negb].
  rewrite (div_u64_in (ex_length e)) by lia. cbn [mbind outcome_bind].
  rewrite (checked_add_in (rs_mapped_clusters s)) by lia. cbn [ok_or mbind outcome_bind].
  destruct (ex_placement e) as [o|] eqn:Hpl.
  - apply N.eqb_eq in Hplace.
    assert (Object.physical_length e = ex_length e) as Hphys by (unfold Object.physical_length, is_physical; by rewrite Hpl).
    assert (run_of cluster e = (Some (o / cluster), ex_length e / cluster)) as Hrun by (unfold run_of; by rewrite Hpl).
    rewrite rem_u64_in by lia. cbn [mbind outcome_bind]. rewrite Hplace. cbn [N.eqb negb].
    rewrite (checked_add_in (rs_physical_bytes s)) by lia. cbn [ok_or mbind outcome_bind].
    rewrite div_u64_in by lia. cbn [mbind outcome_bind]. rewrite IH; cbn; try done; try lia.
    assert (is_sparse_extent e = false) as -> by (unfold is_sparse_extent; by rewrite Hpl).
    rewrite <- app_assoc, Hrun, Hphys. cbn [app orb snd]. do 3 f_equal; lia.
  - assert (Object.physical_length e = 0) as Hphys by (unfold Object.physical_length, is_physical; by rewrite Hpl).
    assert (run_of cluster e = (None, ex_length e / cluster)) as Hrun by (unfold run_of; by rewrite Hpl).
    unfold stream_sparse in Hplace. rewrite Hplace. cbn [negb refuse_if mbind outcome_bind].
    rewrite IH; cbn; try done; try lia.
    assert (is_sparse_extent e = true) as -> by (unfold is_sparse_extent; by rewrite Hpl).
    rewrite <- app_assoc, Hrun, Hphys, orb_true_r. cbn [app orb snd]. do 3 f_equal; lia.
Qed.

Lemma collect_runs_unaligned sparse_stream extents s :
  forallb (aligned_extent cluster (stream_sparse stream)) extents = false ->
  Forall (fun e => 0 < ex_length e) extents ->
  rs_mapped_clusters s + sum_by ex_length extents <= u64_max ->
  rs_physical_bytes s + sum_by ex_length extents <= u64_max ->
  exists e, collect_runs stream cluster id Final sparse_stream extents s = Err e.
Proof using Hcluster.
  revert s. induction extents as [|e extents IH]; intros s Ha Hl Hm Hp; [done |]. cbn [collect_runs].
  inversion Hl as [|? ? Hpos Hl']; subst. rewrite sum_by_cons in Hm, Hp. widths.
  destruct (N.eqb_spec (ex_length e) 0) as [?|_]; [lia |].
  rewrite rem_u64_in by lia. cbn [mbind outcome_bind].
  cbn [forallb] in Ha. unfold aligned_extent at 1 in Ha. unfold stream_sparse in *.
  destruct (ex_length e mod cluster =? 0); cbn [negb]; [|by eexists]. cbn [andb] in Ha.
  assert (ex_length e / cluster <= ex_length e) by (apply N.Div0.div_le_upper_bound; nia).
  rewrite (div_u64_in (ex_length e)) by lia. cbn [mbind outcome_bind].
  rewrite (checked_add_in (rs_mapped_clusters s)) by lia. cbn [ok_or mbind outcome_bind].
  destruct (ex_placement e) as [o|] eqn:Hpl.
  - rewrite rem_u64_in by lia. cbn [mbind outcome_bind].
    destruct (o mod cluster =? 0); cbn [negb]; [|by eexists]. cbn [andb] in Ha.
    rewrite (checked_add_in (rs_physical_bytes s)) by lia. cbn [ok_or mbind outcome_bind].
    rewrite div_u64_in by lia. cbn [mbind outcome_bind]. apply IH; cbn; try done; lia.
  - destruct (sf_sparse (st_flags stream)); cbn [negb refuse_if mbind outcome_bind]; [|by eexists].
    cbn [andb] in Ha. apply IH; cbn; try done; lia.
Qed.
End Runs.

Lemma run_clusters_cons r runs :
  run_clusters (r :: runs) = location_clusters (run_location r.1) (N.to_nat r.2) ++ run_clusters runs.
Proof. done. Qed.
Lemma length_location_clusters location n : length (location_clusters location n) = n.
Proof. destruct location; cbn; [by rewrite length_replicate | by rewrite length_fmap, length_seq]. Qed.
Lemma len_run_clusters runs : len (run_clusters runs) = sum_by snd runs.
Proof.
  induction runs as [|r runs IH]; [done |]. rewrite run_clusters_cons, len_app, sum_by_cons, IH.
  unfold len at 1. rewrite length_location_clusters. lia.
Qed.
Lemma run_lookup cluster e (k : N) :
  k < ex_length e / cluster ->
  location_clusters (run_location (run_of cluster e).1) (N.to_nat (run_of cluster e).2) !! N.to_nat k
    = Some (placed_at cluster e k).
Proof.
  intros Hk. unfold run_of, placed_at. destruct (ex_placement e) as [o|]; cbn [fst snd run_location location_clusters].
  - rewrite list_lookup_fmap, lookup_seq_lt by lia. cbn. by rewrite N2Nat.id.
  - apply lookup_replicate_2. lia.
Qed.

Lemma clusters_lookup stream cluster extents from to e k :
  512 <= cluster -> contiguous from extents to -> from mod cluster = 0 ->
  forallb (aligned_extent cluster (stream_sparse stream)) extents = true ->
  e ∈ extents -> k < ex_length e / cluster ->
  from / cluster <= ex_logical_offset e / cluster /\
  run_clusters (run_of cluster <$> extents) !!
    N.to_nat (ex_logical_offset e / cluster - from / cluster + k) = Some (placed_at cluster e k).
Proof.
  intros Hc. revert from. induction extents as [|x extents IH]; intros from Hcont Hfrom Ha He Hk;
    [by apply elem_of_nil in He |].
  destruct Hcont as [Hx Hcont]. cbn [forallb] in Ha. apply andb_true_iff in Ha as [Hax Ha].
  pose proof (whole_clusters stream cluster Hc x Hax) as Hlen.
  rewrite fmap_cons, run_clusters_cons. apply elem_of_cons in He as [->|He].
  - rewrite Hx, N.sub_diag, N.add_0_l. split; [done |].
    rewrite lookup_app_l; [by apply run_lookup |].
    rewrite length_location_clusters. cbn [run_of snd]. lia.
  - assert ((from + ex_length x) / cluster = from / cluster + ex_length x / cluster) as Hdiv.
    { rewrite Hlen at 1. rewrite N.mul_comm, N.div_add by lia. done. }
    assert ((from + ex_length x) mod cluster = 0) as Hmod.
    { rewrite Hlen, N.mul_comm, N.Div0.mod_add. done. }
    destruct (IH (from + ex_length x) Hcont Hmod Ha He Hk) as [Hle Hlook]. rewrite Hdiv in Hle, Hlook.
    clear IH Hlen Hdiv Hmod Hcont. split; [by etrans; [|exact Hle]; apply N.le_add_r |].
    rewrite lookup_app_r; rewrite length_location_clusters; cbn [run_of snd];
      revert Hle Hlook Hk;
      generalize (ex_logical_offset e / cluster), (from / cluster), (ex_length x / cluster),
        (ex_length e / cluster); intros p q r t Hle Hlook Hk; [|lia].
    rewrite <- Hlook. f_equal. lia.
Qed.

(** ** Whole streams *)

(** A stream of file data of a valid graph, with field widths of the source, and a
    reader whose limits admit the attributes of a record. *)
Record stream_writable (graph : ObjectGraph) (stream : ObjectStream) (limits : AttributeLimits) (id : N)
    : Prop := {
  sw_valid : stream_ok (og_extents graph) stream /\ st_storage stream = Extents;
  sw_extents : Forall (extent_ok (eg_volume_bytes (og_extents graph))) (eg_extents (og_extents graph));
  sw_volume : eg_volume_bytes (og_extents graph) <= u64_max;
  sw_kind : Forall (fun e => ex_kind e = FileData) (Object.stream_extents stream (og_extents graph));
  sw_mapped : 0 < st_mapped_bytes stream < 2 ^ 63;
  sw_name : name_typed stream;
  sw_cluster : 512 <= lt_cluster_size_bytes limits /\
    is_power_of_two (lt_cluster_size_bytes limits) = true;
  sw_room : 1024 <= lt_max_attribute_bytes limits /\ 255 <= lt_max_name_code_units limits;
  sw_ids : id + len (data_extents stream graph) <= 65536;
  sw_count : 17 * len (data_extents stream graph) + 700 <= u32_max
}.

Lemma data_extents_all stream graph :
  Forall (fun e => ex_kind e = FileData) (Object.stream_extents stream (og_extents graph)) ->
  data_extents stream graph = Object.stream_extents stream (og_extents graph).
Proof.
  unfold data_extents, Object.stream_extents. induction (eg_extents (og_extents graph)) as [|e l IH]; [done |].
  cbn [List.filter]. rewrite filter_cons. destruct (decide (ex_stream e = st_id stream)) as [He|He].
  - intros [Hk Hl]%Forall_cons. rewrite (proj2 (N.eqb_eq _ _) He), bool_decide_eq_true_2 by done. cbn [andb].
    by rewrite IH.
  - intros Hl. rewrite (proj2 (N.eqb_neq _ _) He). cbn [andb]. by apply IH.
Qed.
Lemma contiguous_sum from extents to : contiguous from extents to -> to = from + sum_by ex_length extents.
Proof.
  revert from. induction extents as [|e extents IH]; intros from.
  - cbn. lia.
  - intros [_ ->%IH]. rewrite sum_by_cons. lia.
Qed.
Lemma physical_sum_le extents : sum_by Object.physical_length extents <= sum_by ex_length extents.
Proof.
  induction extents as [|e extents IH]; [done |]. rewrite !sum_by_cons.
  unfold Object.physical_length at 1. destruct (is_physical e); lia.
Qed.
Lemma physical_sum_all stream cluster extents :
  forallb (aligned_extent cluster (stream_sparse stream)) extents = true ->
  (stream_sparse stream = false -> sum_by Object.physical_length extents = sum_by ex_length extents) /\
  (512 <= cluster -> sum_by Object.physical_length extents mod cluster = 0).
Proof.
  induction extents as [|e extents IH]; intros Ha; [split; [done | intros; apply N.Div0.mod_0_l] |].
  cbn [forallb] in Ha. apply andb_true_iff in Ha as [He Ha]. destruct (IH Ha) as [IH1 IH2].
  rewrite !sum_by_cons. split.
  - intros Hs. rewrite (IH1 Hs). unfold aligned_extent in He. rewrite Hs in He.
    unfold Object.physical_length, is_physical. destruct (ex_placement e); [done |].
    by rewrite andb_false_r in He.
  - intros Hc. pose proof (whole_clusters stream cluster Hc e He) as Hl.
    unfold Object.physical_length at 1. destruct (is_physical e); [|by apply IH2].
    rewrite Hl, N.add_comm, N.mul_comm, N.Div0.mod_add. by apply IH2.
Qed.

Section Stream.
Context (graph : ObjectGraph) (stream : ObjectStream) (limits : AttributeLimits) (id : N).
Hypothesis Hok : stream_writable graph stream limits id.
#[local] Abbreviation cluster := (lt_cluster_size_bytes limits).
#[local] Abbreviation extents := (data_extents stream graph).
#[local] Abbreviation volume_clusters := (eg_volume_bytes (og_extents graph) / cluster).

Lemma writable_extents :
  Forall (extent_ok (eg_volume_bytes (og_extents graph))) extents /\ contiguous 0 extents (st_mapped_bytes stream) /\
  sum_by ex_length extents = st_mapped_bytes stream /\
  sum_by Object.physical_length extents = st_allocated_bytes stream.
Proof using Hok.
  destruct Hok as [[[_ Hs] Hst] He _ Hk _ _ _ _ _ _]. rewrite Hst in Hs. destruct Hs as [Hc Hp].
  rewrite data_extents_all by done. split_and!; try done.
  - apply Forall_forall. intros e [_ Hin]%list_elem_of_filter. rewrite Forall_forall in He. by apply He.
  - apply contiguous_sum in Hc. lia.
Qed.

Lemma writable_runs :
  forallb (aligned_extent cluster (stream_sparse stream)) extents = true ->
  Forall run_typed (run_of cluster <$> extents) /\ Forall (run_fits volume_clusters) (run_of cluster <$> extents).
Proof using Hok.
  intros Ha. destruct writable_extents as (He & _). destruct (sw_cluster _ _ _ _ Hok) as [Hc _].
  pose proof (sw_volume _ _ _ _ Hok) as Hvol. widths.
  rewrite !Forall_fmap, <- Forall_and. rewrite forallb_forall in Ha. apply Forall_forall. intros e Hin.
  rewrite Forall_forall in He. destruct (He e Hin) as (Hpos & Hlog & Hpl).
  apply list_elem_of_In in Hin. pose proof (whole_clusters stream cluster Hc e (Ha e Hin)) as Hl.
  assert (0 < ex_length e / cluster) as Hq.
  { destruct (N.eq_0_gt_0_cases (ex_length e / cluster)) as [Hz|]; [|done]. rewrite Hz in Hl. lia. }
  assert (forall x, x / cluster <= x) as Hle.
  { intros x. apply N.Div0.div_le_upper_bound. nia. }
  change (run_typed (run_of cluster e) /\ run_fits volume_clusters (run_of cluster e)).
  unfold run_typed, run_fits, run_of. cbn [fst snd].
  pose proof (Hle (ex_length e)) as Hlen. set (q := ex_length e / cluster) in *. clearbody q.
  destruct (ex_placement e) as [o|] eqn:Hpe; [|split; [split; [lia | done] | done]].
  assert (o / cluster < 2 ^ 63) as Ho.
  { apply N.Div0.div_lt_upper_bound. change (2 ^ 63) with 9223372036854775808. nia. }
  change (2 ^ 63) with 9223372036854775808 in Ho. unfold i64_max.
  split; [split; [lia | intros lcn [= <-]; lia] |]. split; [done |]. split; [lia |].
  apply N.div_le_lower_bound; [lia |]. rewrite N.mul_add_distr_l, <- Hl.
  pose proof (N.Div0.mul_div_le o cluster). lia.
Qed.

Lemma writable_stream_sizes :
  forallb (aligned_extent cluster (stream_sparse stream)) extents = true ->
  st_initialized_bytes stream <= st_logical_bytes stream /\ st_logical_bytes stream < 2 ^ 63 /\
  st_allocated_bytes stream < 2 ^ 63 /\ st_allocated_bytes stream mod cluster = 0 /\
  (stream_sparse stream = false -> st_logical_bytes stream <= st_allocated_bytes stream).
Proof using Hok.
  intros Ha. destruct writable_extents as (_ & _ & Hsum & Hphys).
  destruct (sw_valid _ _ _ _ Hok) as [[[? ?] _] _]. destruct (sw_mapped _ _ _ _ Hok) as [_ Hm].
  destruct (sw_cluster _ _ _ _ Hok) as [Hc _].
  destruct (physical_sum_all stream cluster extents Ha) as [Hall Hmod].
  pose proof (physical_sum_le extents). rewrite Hphys, Hsum in *.
  split; [done |]. split; [lia |]. split; [lia |]. split; [by apply Hmod |]. intros Hs. rewrite (Hall Hs). lia.
Qed.

(** Everything but the alignment check. *)
Lemma aligned_written :
  forallb (aligned_extent cluster (stream_sparse stream)) extents = true ->
  exists attributes, nonresident_stream_attributes stream graph cluster id Final = Ok attributes /\
    fragmented stream 0 id (run_of cluster <$> extents) attributes.
Proof using Hok.
  intros Ha. destruct writable_extents as (He & Hcont & Hsum & Hphys). widths.
  destruct (sw_cluster _ _ _ _ Hok) as [Hc _]. destruct (sw_mapped _ _ _ _ Hok) as [Hm0 Hm].
  change (2 ^ 63) with 9223372036854775808 in Hm.
  destruct (writable_stream_sizes Ha) as (Hs1 & Hs2 & Hs3 & _).
  change (2 ^ 63) with 9223372036854775808 in Hs2, Hs3.
  pose proof (runs_length stream cluster Hc extents Ha) as Hlen. rewrite Hsum in Hlen.
  set (total := sum_by snd (run_of cluster <$> extents)) in *.
  assert (total <= st_mapped_bytes stream) as Htot by nia.
  unfold nonresident_stream_attributes.
  rewrite (collect_runs_aligned stream cluster id Hc); cbn [rs_runs rs_mapped_clusters rs_physical_bytes]; try done.
  2: { eapply Forall_impl; [exact He |]. by intros e (? & _). }
  2: { fold total. lia. }
  2: { rewrite Hphys. lia. }
  cbn [mbind outcome_bind rs_runs rs_mapped_clusters rs_physical_bytes rs_has_sparse_run orb].
  rewrite Hphys, N.add_0_l, N.eqb_refl. cbn [negb]. rewrite !andb_false_r. cbn [refuse_if mbind outcome_bind app].
  fold total. rewrite div_u64_in by lia. cbn [mbind outcome_bind].
  assert (st_mapped_bytes stream / cluster = total) as Hdiv by (rewrite Hlen, N.mul_comm; apply N.div_mul; lia).
  rewrite Hdiv, N.eqb_refl. cbn [negb]. rewrite rem_u64_in by lia. cbn [mbind outcome_bind].
  assert (st_mapped_bytes stream mod cluster = 0) as -> by (rewrite Hlen, N.mul_comm; apply N.Div0.mod_mul).
  cbn [N.eqb negb refuse_if mbind outcome_bind].
  assert (0 < total) as Hpos by nia. rewrite (proj2 (N.eqb_neq total 0)) by lia.
  assert (exists attributes, split_nonresident_data_attributes stream (run_of cluster <$> extents) id = Ok attributes /\
    fragmented stream 0 id (run_of cluster <$> extents) attributes) as (attributes & Hsplit & Hfrag).
  { unfold split_nonresident_data_attributes.
    destruct (writable_runs Ha) as [Ht _].
    assert (0 < len extents) as Hne.
    { destruct extents; [unfold total in Hpos; cbn in Hpos; lia | rewrite len_cons; lia]. }
    pose proof (sw_ids _ _ _ _ Hok). pose proof (sw_count _ _ _ _ Hok).
    assert (len (run_of cluster <$> extents) = len extents) as Hle by (unfold len; by rewrite length_fmap).
    destruct (split_loop_spec stream (sw_name _ _ _ _ Hok) ltac:(unfold sizes_typed; lia)
      (S (length (run_of cluster <$> extents))) [] (run_of cluster <$> extents) 0 id [])
      as (bs & Hbs & Hfbs); cbn [app]; rewrite ?Hle; try done; try lia.
    exists bs. split; [exact Hbs | exact Hfbs]. }
  exists attributes. split; [|done].
  destruct (sw_name _ _ _ _ Hok) as [Hname _]. destruct (st_name stream) as [[|u name]|]; [done | |]; exact Hsplit.
Qed.
End Stream.

(** * Theorems *)

(** C15: the NTFS mapping of a stream is the source's.  Let a stream of file data
    of a valid object graph be written in the final placement mode, with a cluster
    size of at least 512 bytes.
    If every extent is cluster-aligned, and the stream is flagged sparse when it has
    holes, the serializer produces [$DATA] attributes, each short enough for a FILE
    record and as long as a record allows, with consecutive identifiers; and when
    the program's own readers read the attributes and their mapping pairs, one
    after the other, every cluster of every extent is found at its logical offset
    exactly where the extent stores it, or in a hole if the extent is one.
    Otherwise the serializer refuses the stream.  In no case does it panic. *)
Theorem stream_written_and_read graph stream limits id :
  stream_writable graph stream limits id ->
  let cluster := lt_cluster_size_bytes limits in
  let extents := data_extents stream graph in
  if forallb (aligned_extent cluster (stream_sparse stream)) extents
  then exists attributes clusters,
    nonresident_stream_attributes stream graph cluster id Final = Ok attributes /\
    fragmented stream 0 id (run_of cluster <$> extents) attributes /\
    Forall2 (fun b i => exists a, parse_attribute b limits = Ok a /\ at_id a = id + i)
      attributes (indices (len attributes)) /\
    read_stream limits (eg_volume_bytes (og_extents graph) / cluster) 0 attributes = Some clusters /\
    len clusters = st_mapped_bytes stream / cluster /\
    forall e k, e ∈ extents -> k < ex_length e / cluster ->
      clusters !! N.to_nat (ex_logical_offset e / cluster + k) = Some (placed_at cluster e k)
  else exists error, nonresident_stream_attributes stream graph cluster id Final = Err error.
Proof.
  intros Hok. cbv zeta. destruct (sw_cluster _ _ _ _ Hok) as [Hc Hp]. widths.
  destruct (writable_extents _ _ _ _ Hok) as (He & Hcont & Hsum & _).
  destruct (sw_mapped _ _ _ _ Hok) as [Hm0 Hm]. change (2 ^ 63) with 9223372036854775808 in Hm.
  assert (Forall (fun e => 0 < ex_length e) (data_extents stream graph)) as Hpos.
  { eapply Forall_impl; [exact He |]. by intros e (? & _). }
  destruct (forallb _ _) eqn:Ha.
  - destruct (aligned_written _ _ _ _ Hok Ha) as (attributes & Hw & Hf).
    destruct (writable_runs _ _ _ _ Hok Ha) as [Ht Hr].
    pose proof (runs_length stream _ Hc _ Ha) as Hlen. rewrite Hsum in Hlen.
    assert (len (run_of (lt_cluster_size_bytes limits) <$> data_extents stream graph) = len (data_extents stream graph))
      as Hle by (unfold len; by rewrite length_fmap).
    pose proof (sw_ids _ _ _ _ Hok). pose proof (sw_count _ _ _ _ Hok). pose proof (sw_volume _ _ _ _ Hok).
    assert (eg_volume_bytes (og_extents graph) / lt_cluster_size_bytes limits <= u64_max) as Hvol.
    { etrans; [|by apply (sw_volume _ _ _ _ Hok)]. apply N.Div0.div_le_upper_bound. nia. }
    destruct (fragmented_read stream limits (eg_volume_bytes (og_extents graph) / lt_cluster_size_bytes limits)
      (sw_name _ _ _ _ Hok) Hvol
      (conj Hc Hp) (sw_room _ _ _ _ Hok) (writable_stream_sizes _ _ _ _ Hok Ha) 0 id _ attributes Hf)
      as (Hread & Hids & _); try done; rewrite ?Hle; try lia.
    exists attributes, (run_clusters (run_of (lt_cluster_size_bytes limits) <$> data_extents stream graph)).
    split_and!; try done.
    + rewrite len_run_clusters, Hlen, N.mul_comm. symmetry. apply N.div_mul. lia.
    + intros e k Hin Hk.
      destruct (clusters_lookup stream _ _ 0 _ e k Hc Hcont (N.Div0.mod_0_l _) Ha Hin Hk) as [_ Hl].
      by rewrite N.Div0.div_0_l, N.sub_0_r in Hl.
  - destruct (collect_runs_unaligned stream _ id Hc
      (sf_sparse (st_flags stream) || existsb is_sparse_extent (data_extents stream graph))
      (data_extents stream graph) (mkRunState [] 0 0 false) Ha Hpos) as [error Herr];
      cbn [rs_mapped_clusters rs_physical_bytes]; try lia.
    exists error. unfold nonresident_stream_attributes. by rewrite Herr.
Qed.

(** ** Witness: the sparse stream of the sample graph of [Object] *)
Definition sample_stream_limits : AttributeLimits := mkAttributeLimits 512 1024 255 16.

Lemma sample_writable : stream_writable sample_graph sample_stream sample_stream_limits 3.
Proof.
  split; try done; cbn; repeat constructor; by vm_compute.
Qed.

Lemma stream_written_and_read_witness :
  stream_writable sample_graph sample_stream sample_stream_limits 3 /\
  exists attributes clusters,
    nonresident_stream_attributes sample_stream sample_graph 512 3 Final = Ok attributes /\
    read_stream sample_stream_limits 8 0 attributes = Some clusters /\
    len clusters = 2 /\ clusters !! 0%nat = Some (Some 2) /\ clusters !! 1%nat = Some None.
Proof.
  split; [exact sample_writable |].
  pose proof (stream_written_and_read sample_graph sample_stream sample_stream_limits 3 sample_writable) as H.
  cbv zeta in H.
  destruct H as (attributes & clusters & Hw & _ & _ & Hr & Hn & Hl).
  exists attributes, clusters. split; [exact Hw |]. split; [exact Hr |]. split; [exact Hn |]. split.
  - apply (Hl (mkExtent 7 0 512 (Physical 1024) FileData) 0); [left | by vm_compute].
  - apply (Hl (mkExtent 7 512 512 Sparse FileData) 0); [right; left | by vm_compute].
Defined.
