(* ===== verification/NtfsBitmap.v ===== *)
(** * NTFS allocation bitmap

    The parser of the [$Bitmap] stream and its reconciliation with the cluster
    ranges that the attributes of the volume claim ([fs/ntfs_bitmap.rs]).

    A memory reservation that fails is not modelled. The theorems: a bitmap is
    accepted exactly when it has the canonical length and, under the strict
    policy, no free bit behind the last cluster, and its counts are those of its
    bits; the reconciliation succeeds exactly when the claims are disjoint ranges
    of allocated clusters that, for a complete inventory, cover every allocated
    cluster, and it reports the first cluster that no claim explains. *)

From S2P Require Export Prelude Bytes Bits.
From stdpp Require Import options.

#[local] Open Scope N_scope.

Definition BITMAP_ALIGNMENT_BYTES : N := 8.
Definition MAX_SUPPORTED_CLUSTER_COUNT : N := 4294967295.
Definition MAX_SUPPORTED_BITMAP_BYTES : N := 512 * 1024 * 1024.

(** ** Data *)
Inductive TailBitPolicy : Type := RequireAllocated | ReportOnly.

Inductive ClusterAllocation : Type := Free | Allocated.
#[export] Instance ClusterAllocation_eq_dec : EqDecision ClusterAllocation.
Proof. solve_decision. Defined.

Record TailEvidence : Type := mkTailEvidence {
  te_reserved_bits : N;
  te_allocated_bits : N;
  te_first_unallocated_bit : option N
}.
Definition all_allocated (tail : TailEvidence) : bool :=
  te_reserved_bits tail =? te_allocated_bits tail.

Record NtfsBitmap : Type := mkNtfsBitmap {
  bm_bytes : list byte;
  bm_cluster_count : N;
  bm_allocated_clusters : N;
  bm_tail : TailEvidence
}.

Record NtfsAllocationClaim : Type := mkNtfsAllocationClaim {
  ac_start_lcn : N;
  ac_cluster_count : N
}.

Record NtfsAllocationReconciliation : Type := mkNtfsAllocationReconciliation {
  ar_claim_count : N;
  ar_claimed_clusters : N;
  ar_unexplained_allocated_clusters : N;
  ar_first_unexplained_lcn : option N
}.

Inductive NtfsAllocationReconciliationEvidence : Type :=
| Complete (report : NtfsAllocationReconciliation)
| IncompleteInventory (report : NtfsAllocationReconciliation).

Inductive NtfsBitmapError : Type :=
| ZeroClusterCount
| ClusterCountTooLarge (cluster_count maximum : N)
| LengthCalculationOverflow (cluster_count : N)
| BitmapTooLarge (actual maximum : N)
| LengthMismatch (actual minimum canonical : N)
| UnallocatedTailBit (bit_index : N)
| ClusterOutOfRange (lcn cluster_count : N)
| ZeroReconciliationClaimLimit
| ReconciliationClaimLimitExceeded (actual maximum : N)
| ReconciliationAllocationFailed
| EmptyAllocationClaim (claim_index : N)
| AllocationClaimOverflow (claim_index : N)
| AllocationClaimOutOfRange (claim_index start_lcn cluster_count volume_cluster_count : N)
| OverlappingAllocationClaims (first_claim_index second_claim_index lcn : N)
| ClaimedClusterMarkedFree (claim_index lcn : N)
| UnexplainedAllocatedCluster (lcn unexplained_clusters : N).

Record BitmapLengths : Type := mkBitmapLengths {
  bl_minimum : N;
  bl_canonical : N
}.

Record OrderedClaim : Type := mkOrderedClaim {
  oc_claim_index : N;
  oc_start_lcn : N;
  oc_end_lcn : N
}.

(** [u8] shift to the left: the bits that leave the byte are lost, a shift by
    eight or more panics. *)
Definition shl_u8 {E : Type} (value shift : N) : outcome E N :=
  if shift <? 8 then Ok (N.land (N.shiftl value shift) u8_max) else Panic.

(** ** Parsing *)
Definition bitmap_lengths (cluster_count : N) : outcome NtfsBitmapError BitmapLengths :=
  refuse_if (cluster_count =? 0) ZeroClusterCount ;;
  refuse_if (MAX_SUPPORTED_CLUSTER_COUNT <? cluster_count)
    (ClusterCountTooLarge cluster_count MAX_SUPPORTED_CLUSTER_COUNT) ;;
  rounded ← ok_or (LengthCalculationOverflow cluster_count) (checked_add cluster_count 7);
  minimum ← ok_or (LengthCalculationOverflow cluster_count) (usize_try_from (rounded / 8));
  padded ← ok_or (LengthCalculationOverflow cluster_count)
    (checked_add minimum (BITMAP_ALIGNMENT_BYTES - 1));
  let canonical := N.land padded (not_u64 (BITMAP_ALIGNMENT_BYTES - 1)) in
  refuse_if (MAX_SUPPORTED_BITMAP_BYTES <? canonical) (LengthCalculationOverflow cluster_count) ;;
  Ok (mkBitmapLengths minimum canonical).

Definition count_allocated_clusters (cluster_count : N) (bytes : list byte)
    : outcome NtfsBitmapError N :=
  complete_bytes ← expect (usize_try_from (cluster_count / 8));
  complete ← index_range 0 complete_bytes bytes;
  allocated ← try_fold (fun sum byte => add_u64 sum (count_ones (Byte.to_N byte))) 0 complete;
  remainder ← expect (u32_try_from (N.land cluster_count 7));
  if remainder =? 0 then Ok allocated
  else
    one ← shl_u8 1 remainder;
    addressable_mask ← sub_u64 one 1;
    byte ← at_index bytes complete_bytes;
    add_u64 allocated (count_ones (N.land (Byte.to_N byte) addressable_mask)).

(** [lo..hi] and [lo..=hi]. *)
Definition span (lo hi : N) : list N := (fun i => lo + i) <$> indices (hi - lo).
Definition span_inclusive (lo hi : N) : list N := span lo (hi + 1).

Definition inspect_tail_bit (bytes : list byte) (state : N * option N) (bit_index : N)
    : outcome NtfsBitmapError (N * option N) :=
  byte_index ← expect (usize_try_from (N.shiftr bit_index 3));
  shift ← expect (u32_try_from (N.land bit_index 7));
  byte ← at_index bytes byte_index;
  mask ← shl_u8 1 shift;
  if N.land (Byte.to_N byte) mask =? 0
  then Ok (state.1, match state.2 with Some first => Some first | None => Some bit_index end)
  else
    allocated_bits ← expect (u8_try_from (state.1 + 1));
    Ok (allocated_bits, state.2).

Definition inspect_tail (cluster_count : N) (bytes : list byte) : outcome NtfsBitmapError TailEvidence :=
  byte_count ← expect (u64_try_from (len bytes));
  total_bits ← expect (checked_mul byte_count 8);
  difference ← sub_u64 total_bits cluster_count;
  reserved_bits ← expect (u8_try_from difference);
  state ← try_fold (inspect_tail_bit bytes) (0, None) (span cluster_count total_bits);
  Ok (mkTailEvidence reserved_bits state.1 state.2).

Definition parse_bitmap_with_tail_policy (cluster_count : N) (bytes : list byte)
    (tail_policy : TailBitPolicy) : outcome NtfsBitmapError NtfsBitmap :=
  lengths ← bitmap_lengths cluster_count;
  refuse_if (MAX_SUPPORTED_BITMAP_BYTES <? len bytes)
    (BitmapTooLarge (len bytes) MAX_SUPPORTED_BITMAP_BYTES) ;;
  refuse_if (negb (len bytes =? bl_canonical lengths))
    (LengthMismatch (len bytes) (bl_minimum lengths) (bl_canonical lengths)) ;;
  allocated_clusters ← count_allocated_clusters cluster_count bytes;
  tail ← inspect_tail cluster_count bytes;
  match tail_policy, te_first_unallocated_bit tail with
  | RequireAllocated, Some bit_index => Err (UnallocatedTailBit bit_index)
  | _, _ => Ok (mkNtfsBitmap bytes cluster_count allocated_clusters tail)
  end.

Definition parse_bitmap (cluster_count : N) (bytes : list byte) : outcome NtfsBitmapError NtfsBitmap :=
  parse_bitmap_with_tail_policy cluster_count bytes RequireAllocated.

(** ** Queries *)
Definition free_clusters (bitmap : NtfsBitmap) : outcome NtfsBitmapError N :=
  sub_u64 (bm_cluster_count bitmap) (bm_allocated_clusters bitmap).

Definition allocation (bitmap : NtfsBitmap) (lcn : N) : outcome NtfsBitmapError ClusterAllocation :=
  refuse_if (bm_cluster_count bitmap <=? lcn) (ClusterOutOfRange lcn (bm_cluster_count bitmap)) ;;
  byte_index ← ok_or (LengthCalculationOverflow (bm_cluster_count bitmap))
    (usize_try_from (N.shiftr lcn 3));
  bit_index ← ok_or (LengthCalculationOverflow (bm_cluster_count bitmap))
    (u32_try_from (N.land lcn 7));
  byte ← at_index (bm_bytes bitmap) byte_index;
  mask ← shl_u8 1 bit_index;
  Ok (if N.land (Byte.to_N byte) mask =? 0 then Free else Allocated).

Definition is_allocated (bitmap : NtfsBitmap) (lcn : N) : outcome NtfsBitmapError bool :=
  (fun state => bool_decide (state = Allocated)) <$> allocation bitmap lcn.

(** ** Searching

    The body of the loop over the bytes: [Some r] leaves the function with [r],
    [None] goes on with the next byte. *)
Definition search_byte (bytes : list byte) (start_lcn end_lcn : N) (state : ClusterAllocation)
    (byte_index : N) : outcome NtfsBitmapError (option (option N)) :=
  match u64_try_from byte_index ≫= (fun b => checked_mul b 8) with
  | None => Ok (Some None)
  | Some byte_start =>
      let lower := N.min (saturating_sub start_lcn byte_start) 8 in
      let upper := N.min (saturating_sub end_lcn byte_start) 8 in
      match u32_try_from lower with
      | None => Ok (Some None)
      | Some lower_shift =>
          difference ← sub_u64 upper lower;
          match u32_try_from difference with
          | None => Ok (Some None)
          | Some width =>
              match (if width =? 8 then Some u8_max else u8_try_from (N.shiftl 1 width - 1)) with
              | None => Ok (Some None)
              | Some ones =>
                  range_mask ← shl_u8 ones lower_shift;
                  byte ← at_index bytes byte_index;
                  let matching :=
                    match state with
                    | Allocated => N.land (Byte.to_N byte) range_mask
                    | Free => N.land (N.lxor (Byte.to_N byte) u8_max) range_mask
                    end in
                  if negb (matching =? 0)
                  then Ok (Some (checked_add byte_start (trailing_zeros 8 matching)))
                  else Ok None
              end
          end
      end
  end.

Fixpoint search_bytes (bytes : list byte) (start_lcn end_lcn : N) (state : ClusterAllocation)
    (byte_indexes : list N) : outcome NtfsBitmapError (option N) :=
  match byte_indexes with
  | [] => Ok None
  | byte_index :: rest =>
      found ← search_byte bytes start_lcn end_lcn state byte_index;
      match found with
      | Some r => Ok r
      | None => search_bytes bytes start_lcn end_lcn state rest
      end
  end.

Definition first_cluster_with_state (bitmap : NtfsBitmap) (start_lcn end_lcn : N)
    (state : ClusterAllocation) : outcome NtfsBitmapError (option N) :=
  if end_lcn <=? start_lcn then Ok None
  else
    match usize_try_from (N.shiftr start_lcn 3) with
    | None => Ok None
    | Some first_byte =>
        last ← sub_u64 end_lcn 1;
        match usize_try_from (N.shiftr last 3) with
        | None => Ok None
        | Some last_byte =>
            search_bytes (bm_bytes bitmap) start_lcn end_lcn state (span_inclusive first_byte last_byte)
        end
    end.

Fixpoint search_gaps (bitmap : NtfsBitmap) (cursor : N) (claims : list OrderedClaim)
    : outcome NtfsBitmapError (option N) :=
  match claims with
  | [] => first_cluster_with_state bitmap cursor (bm_cluster_count bitmap) Allocated
  | claim :: rest =>
      found ← first_cluster_with_state bitmap cursor (oc_start_lcn claim) Allocated;
      match found with
      | Some lcn => Ok (Some lcn)
      | None => search_gaps bitmap (oc_end_lcn claim) rest
      end
  end.
Definition first_unclaimed_allocated_cluster (bitmap : NtfsBitmap) (claims : list OrderedClaim)
    : outcome NtfsBitmapError (option N) := search_gaps bitmap 0 claims.

(** ** Reconciliation *)
Definition order_claim (bitmap : NtfsBitmap) (ordered : list OrderedClaim)
    (claim : N * NtfsAllocationClaim) : outcome NtfsBitmapError (list OrderedClaim) :=
  let '(claim_index, claim) := claim in
  refuse_if (ac_cluster_count claim =? 0) (EmptyAllocationClaim claim_index) ;;
  end_lcn ← ok_or (AllocationClaimOverflow claim_index)
    (checked_add (ac_start_lcn claim) (ac_cluster_count claim));
  refuse_if (bm_cluster_count bitmap <? end_lcn)
    (AllocationClaimOutOfRange claim_index (ac_start_lcn claim) (ac_cluster_count claim)
       (bm_cluster_count bitmap)) ;;
  Ok (ordered ++ [mkOrderedClaim claim_index (ac_start_lcn claim) end_lcn]).

Definition claim_key (claim : OrderedClaim) : list N :=
  [oc_start_lcn claim; oc_end_lcn claim; oc_claim_index claim].

Definition check_claim (bitmap : NtfsBitmap) (state : N * option OrderedClaim) (claim : OrderedClaim)
    : outcome NtfsBitmapError (N * option OrderedClaim) :=
  let '(claimed_clusters, previous) := state in
  match previous with
  | Some prior =>
      refuse_if (oc_start_lcn claim <? oc_end_lcn prior)
        (OverlappingAllocationClaims (oc_claim_index prior) (oc_claim_index claim) (oc_start_lcn claim))
  | None => Ok tt
  end ;;
  free ← first_cluster_with_state bitmap (oc_start_lcn claim) (oc_end_lcn claim) Free;
  match free with
  | Some lcn => Err (ClaimedClusterMarkedFree (oc_claim_index claim) lcn)
  | None => Ok tt
  end ;;
  length ← sub_u64 (oc_end_lcn claim) (oc_start_lcn claim);
  claimed_clusters ← ok_or (LengthCalculationOverflow (bm_cluster_count bitmap))
    (checked_add claimed_clusters length);
  Ok (claimed_clusters, Some claim).

Definition reconcile_allocation_claims (bitmap : NtfsBitmap) (claims : list NtfsAllocationClaim)
    (ownership_complete : bool) (max_claims : N)
    : outcome NtfsBitmapError NtfsAllocationReconciliationEvidence :=
  refuse_if (max_claims =? 0) ZeroReconciliationClaimLimit ;;
  refuse_if (max_claims <? len claims) (ReconciliationClaimLimitExceeded (len claims) max_claims) ;;
  unordered ← try_fold (order_claim bitmap) [] (enumerate claims);
  let ordered := sort_by_lex_key claim_key unordered in
  checked ← try_fold (check_claim bitmap) (0, None) ordered;
  let claimed_clusters := checked.1 in
  unexplained_allocated_clusters ← sub_u64 (bm_allocated_clusters bitmap) claimed_clusters;
  first_unexplained_lcn ←
    (if unexplained_allocated_clusters =? 0 then Ok None
     else first_unclaimed_allocated_cluster bitmap ordered);
  let report := mkNtfsAllocationReconciliation (len claims) claimed_clusters
    unexplained_allocated_clusters first_unexplained_lcn in
  if ownership_complete
  then match first_unexplained_lcn with
       | Some lcn => Err (UnexplainedAllocatedCluster lcn unexplained_allocated_clusters)
       | None => Ok (Complete report)
       end
  else Ok (IncompleteInventory report).

(** ** Specification *)

(** The bytes of the 64-bit words that hold one bit per cluster. *)
Definition canonical_length (cluster_count : N) : N := 8 * ((cluster_count + 63) / 64).

(** What the parser reports of a bitmap. *)
Record bitmap_of (cluster_count : N) (bytes : list byte) (bitmap : NtfsBitmap) : Prop := {
  bo_count : 0 < cluster_count <= MAX_SUPPORTED_CLUSTER_COUNT;
  bo_length : len bytes = canonical_length cluster_count;
  bo_bytes : bm_bytes bitmap = bytes;
  bo_clusters : bm_cluster_count bitmap = cluster_count;
  bo_allocated : bm_allocated_clusters bitmap = bits_set (bitmap_bit bytes) cluster_count;
  bo_reserved : te_reserved_bits (bm_tail bitmap) = 8 * len bytes - cluster_count;
  bo_tail_allocated : te_allocated_bits (bm_tail bitmap) =
    bits_set (fun i => bitmap_bit bytes (cluster_count + i)) (8 * len bytes - cluster_count);
  bo_tail_free : first_bit (fun i => negb (bitmap_bit bytes i)) cluster_count (8 * len bytes)
    (te_first_unallocated_bit (bm_tail bitmap))
}.

(** A claim holds a cluster; some claim of the inventory does. *)
Definition claim_covers (i : N) (claim : NtfsAllocationClaim) : bool :=
  (ac_start_lcn claim <=? i) && (i <? ac_start_lcn claim + ac_cluster_count claim).
Definition unexplained (bytes : list byte) (claims : list NtfsAllocationClaim) (i : N) : bool :=
  bitmap_bit bytes i && negb (existsb (claim_covers i) claims).

(** The claims are disjoint ranges of allocated clusters of the volume. *)
Record claims_sound (cluster_count : N) (bytes : list byte) (claims : list NtfsAllocationClaim)
    (max_claims : N) : Prop := {
  cs_limit : 0 < max_claims;
  cs_within : len claims <= max_claims;
  cs_ranges : Forall (fun c => 0 < ac_cluster_count c /\
    ac_start_lcn c + ac_cluster_count c <= cluster_count) claims;
  cs_disjoint : disjoint_ranges ac_start_lcn ac_cluster_count claims;
  cs_allocated : forall c i, c ∈ claims -> in_range (ac_start_lcn c) (ac_cluster_count c) i ->
    bitmap_bit bytes i = true
}.
Record report_of (cluster_count : N) (bytes : list byte) (claims : list NtfsAllocationClaim)
    (report : NtfsAllocationReconciliation) : Prop := {
  ro_count : ar_claim_count report = len claims;
  ro_claimed : ar_claimed_clusters report = sum_by ac_cluster_count claims;
  ro_unexplained : ar_unexplained_allocated_clusters report =
    bits_set (unexplained bytes claims) cluster_count;
  ro_first : first_bit (unexplained bytes claims) 0 cluster_count (ar_first_unexplained_lcn report)
}.

(** A cluster is in the state. *)
Definition in_state (bytes : list byte) (state : ClusterAllocation) (i : N) : bool :=
  match state with
  | Allocated => bitmap_bit bytes i
  | Free => negb (bitmap_bit bytes i)
  end.

(** * Lemmas *)

Lemma canonical_length_bounds n :
  0 < n -> n <= MAX_SUPPORTED_CLUSTER_COUNT ->
  n <= 8 * canonical_length n /\ 8 * canonical_length n < n + 64 /\
  canonical_length n <= MAX_SUPPORTED_BITMAP_BYTES.
Proof.
  unfold canonical_length, MAX_SUPPORTED_CLUSTER_COUNT, MAX_SUPPORTED_BITMAP_BYTES. intros H0 Hn.
  destruct (euclid (n + 63) 64) as (q & r & -> & _ & He & Hr); [done |]. lia.
Qed.
Lemma bitmap_lengths_safe n : bitmap_lengths n <> Panic.
Proof. unfold bitmap_lengths. safe. Qed.
Lemma bitmap_lengths_Ok n l :
  bitmap_lengths n = Ok l ->
  0 < n <= MAX_SUPPORTED_CLUSTER_COUNT /\ bl_canonical l = canonical_length n.
Proof.
  unfold bitmap_lengths. intros H. inv_ok. bool_props. simpl. split; [lia |].
  unfold BITMAP_ALIGNMENT_BYTES, MAX_SUPPORTED_CLUSTER_COUNT in *. widths.
  change (8 - 1) with (2 ^ 3 - 1). rewrite land_not_mask by (change (2 ^ 3) with 8 in *; lia).
  unfold canonical_length. change (2 ^ 3 - 1) with 7. change (2 ^ 3) with 8. f_equal.
  destruct (euclid (n + 7) 8) as (q & r & -> & _ & He & Hr); [done |].
  destruct (euclid (q + 7) 8) as (q2 & r2 & -> & _ & He2 & Hr2); [done |].
  destruct (euclid (n + 63) 64) as (q3 & r3 & -> & _ & He3 & Hr3); [done |]. lia.
Qed.
Lemma bitmap_lengths_total n :
  0 < n -> n <= MAX_SUPPORTED_CLUSTER_COUNT ->
  exists l, bitmap_lengths n = Ok l /\ bl_canonical l = canonical_length n.
Proof.
  intros H0 Hn. pose proof (canonical_length_bounds n H0 Hn) as (_ & _ & Hm).
  assert (Hs : exists l, bitmap_lengths n = Ok l).
  { unfold bitmap_lengths, BITMAP_ALIGNMENT_BYTES. rewrite (proj2 (N.eqb_neq n 0)) by lia.
    rewrite (proj2 (N.ltb_ge _ _)) by done. cbn [refuse_if mbind outcome_bind].
    unfold MAX_SUPPORTED_CLUSTER_COUNT in Hn. widths. step.
    assert (Hd : (n + 7) / 8 <= n) by (destruct (euclid (n + 7) 8) as (q & r & -> & ?); lia).
    step. step. eexists. eapply bind_step; [apply refuse_step, N.ltb_ge | reflexivity].
    change (8 - 1) with (2 ^ 3 - 1).
    rewrite land_not_mask by (change (2 ^ 3) with 8; lia).
    change (2 ^ 3 - 1) with 7. change (2 ^ 3) with 8. unfold MAX_SUPPORTED_BITMAP_BYTES.
    destruct (euclid (n + 7) 8) as (q & r & -> & _ & He & Hr); [done |].
    destruct (euclid (q + 7) 8) as (q2 & r2 & -> & _ & He2 & Hr2); [done |]. lia. }
  destruct Hs as [l Hl]. exists l. split; [done |]. by apply bitmap_lengths_Ok in Hl as [_ ?].
Qed.

(** ** Bits of bytes *)
Lemma shl_one_u8 {E} r : r < 8 -> @shl_u8 E 1 r = Ok (N.shiftl 1 r).
Proof.
  intros Hr. assert (r = 0 \/ r = 1 \/ r = 2 \/ r = 3 \/ r = 4 \/ r = 5 \/ r = 6 \/ r = 7) as Hc by lia.
  by destruct Hc as [->|[->|[->|[->|[->|[->|[->| ->]]]]]]].
Qed.
Lemma land_7 n : N.land n 7 = n mod 8.
Proof. apply (N.land_ones n 3). Qed.
Lemma shiftr_3 n : N.shiftr n 3 = n / 8.
Proof. apply (N.shiftr_div_pow2 n 3). Qed.

Lemma bit_probe {E} bytes i :
  i < 8 * len bytes ->
  exists byte mask, @at_index E _ bytes (N.shiftr i 3) = Ok byte /\
    @shl_u8 E 1 (N.land i 7) = Ok mask /\
    (N.land (Byte.to_N byte) mask =? 0) = negb (bitmap_bit bytes i).
Proof.
  intros Hi. rewrite land_7, shiftr_3. unfold bitmap_bit, at_index.
  destruct (euclid i 8) as (k & j & -> & -> & He & Hj); [done |].
  destruct (lookup_lt_is_Some_2 bytes (N.to_nat k)) as [b Hb]; [unfold len in Hi; lia |].
  rewrite Hb. exists b, (N.shiftl 1 j). split; [done |]. split; [by apply shl_one_u8 |].
  rewrite <- test_bit. by rewrite negb_involutive.
Qed.

Lemma sum_fold {E A} (f : A -> N) l s :
  s + sum_by f l <= u64_max ->
  try_fold (fun sum x => @add_u64 E sum (f x)) s l = Ok (s + sum_by f l).
Proof.
  revert s. induction l as [|x l IH]; intros s Hs; simpl; [by rewrite N.add_0_r |].
  rewrite sum_by_cons in *. rewrite add_u64_in by lia. cbn [mbind outcome_bind].
  rewrite IH by lia. f_equal. lia.
Qed.

Lemma count_allocated_Ok n bytes :
  n <= MAX_SUPPORTED_CLUSTER_COUNT -> n <= 8 * len bytes ->
  count_allocated_clusters n bytes = Ok (bits_set (bitmap_bit bytes) n).
Proof.
  unfold count_allocated_clusters, MAX_SUPPORTED_CLUSTER_COUNT. intros Hn Hl. widths.
  rewrite land_7. destruct (euclid n 8) as (k & r & -> & -> & -> & Hr); [done |].
  pose proof (bits_set_le (bitmap_bit bytes) (8 * k)) as Hle.
  rewrite usize_try_from_in by (unfold usize_max; lia). cbn [expect mbind outcome_bind].
  rewrite index_range_in by lia. cbn [mbind outcome_bind].
  rewrite sum_fold by (rewrite full_bytes_bits; lia). cbn [mbind outcome_bind].
  rewrite u32_try_from_in, full_bytes_bits by lia. cbn [expect mbind outcome_bind].
  rewrite bits_set_add. destruct (N.eqb_spec r 0) as [->|H0].
  { f_equal. rewrite N.add_0_l. symmetry. apply N.add_0_r. }
  rewrite shl_one_u8 by done. cbn [mbind outcome_bind].
  assert (N.shiftl 1 r <> 0) by (rewrite N.shiftl_1_l; apply N.pow_nonzero; lia).
  rewrite sub_u64_in by lia. cbn [mbind outcome_bind]. unfold at_index.
  destruct (lookup_lt_is_Some_2 bytes (N.to_nat k)) as [b Hb]; [unfold len in Hl; lia |].
  rewrite Hb. cbn [expect mbind outcome_bind]. rewrite count_ones_masked by done.
  rewrite (bits_set_ext (fun i => bitmap_bit bytes (8 * k + i)) (N.testbit (Byte.to_N b)) r)
    by (intros; apply bitmap_bit_at; [done | lia]).
  pose proof (bits_set_le (N.testbit (Byte.to_N b)) r). rewrite add_u64_in by lia. f_equal.
Qed.

Lemma span_succ lo k : span lo (lo + (k + 1)) = span lo (lo + k) ++ [lo + k].
Proof.
  unfold span. replace (lo + (k + 1) - lo) with (k + 1) by lia. replace (lo + k - lo) with k by lia.
  by rewrite indices_succ, fmap_app.
Qed.
Lemma inspect_bits bytes n k :
  n + k <= 8 * len bytes -> 8 * len bytes <= u64_max -> k <= u8_max ->
  exists first,
    try_fold (inspect_tail_bit bytes) (0, None) (span n (n + k)) =
      Ok (bits_set (fun i => bitmap_bit bytes (n + i)) k, first) /\
    first_bit (fun i => negb (bitmap_bit bytes i)) n (n + k) first.
Proof.
  induction k as [|k IH] using N.peano_ind; intros Hk Hm H8.
  { exists None. unfold span. rewrite N.add_0_r, N.sub_diag. split; [done | simpl; lia]. }
  rewrite <- N.add_1_r in *. destruct IH as (first & Hf & Hfirst); [lia | done | lia |].
  rewrite span_succ, try_fold_app, Hf. cbn [mbind outcome_bind try_fold].
  unfold inspect_tail_bit at 1. widths.
  destruct (bit_probe (E := NtfsBitmapError) bytes (n + k)) as (b & mask & Hb & Hs & Ht); [lia |].
  rewrite usize_try_from_in
    by (rewrite shiftr_3; destruct (euclid (n + k) 8) as (q & ? & -> & ?); unfold usize_max; lia).
  cbn [expect mbind outcome_bind].
  rewrite u32_try_from_in by (rewrite land_7; destruct (euclid (n + k) 8) as (? & ? & _ & -> & ?); lia).
  cbn [expect mbind outcome_bind]. rewrite Hb. cbn [mbind outcome_bind]. rewrite Hs.
  cbn [mbind outcome_bind fst snd]. rewrite Ht, bits_set_succ.
  pose proof (bits_set_le (fun i => bitmap_bit bytes (n + i)) k).
  destruct (bitmap_bit bytes (n + k)) eqn:Hbit; cbn [negb N.b2n].
  - rewrite u8_try_from_in by lia. cbn [expect mbind outcome_bind]. exists first. split; [done |].
    destruct first as [i|]; [eapply first_bit_extend; [|exact Hfirst]; lia |].
    apply first_bit_app with (n + k); [lia | lia | done |]. simpl. intros j Hj.
    replace j with (n + k) by lia. by rewrite Hbit.
  - rewrite N.add_0_r. eexists. split; [reflexivity |].
    destruct first as [i|]; [eapply first_bit_extend; [|exact Hfirst]; lia |].
    apply first_bit_app with (n + k); [lia | lia | done |]. simpl. rewrite Hbit. split_and!; try lia; done.
Qed.
Lemma inspect_tail_Ok bytes n :
  n <= 8 * len bytes -> 8 * len bytes < n + 64 -> 8 * len bytes <= u64_max ->
  exists first,
    inspect_tail n bytes = Ok (mkTailEvidence (8 * len bytes - n)
      (bits_set (fun i => bitmap_bit bytes (n + i)) (8 * len bytes - n)) first) /\
    first_bit (fun i => negb (bitmap_bit bytes i)) n (8 * len bytes) first.
Proof.
  intros Hn Hl Hm. widths. unfold inspect_tail.
  rewrite u64_try_from_in by lia. cbn [expect mbind outcome_bind].
  rewrite checked_mul_in by lia. cbn [expect mbind outcome_bind].
  rewrite sub_u64_in by lia. cbn [expect mbind outcome_bind].
  rewrite u8_try_from_in by lia. cbn [expect mbind outcome_bind].
  destruct (inspect_bits bytes n (8 * len bytes - n)) as (first & Hf & Hb); [lia | done | lia |].
  replace (n + (8 * len bytes - n)) with (len bytes * 8) in Hf by lia.
  replace (n + (8 * len bytes - n)) with (8 * len bytes) in Hb by lia.
  replace (len bytes * 8 - n) with (8 * len bytes - n) by lia.
  exists first. rewrite Hf. done.
Qed.

Lemma parse_bitmap_safe n bytes policy : parse_bitmap_with_tail_policy n bytes policy <> Panic.
Proof.
  unfold parse_bitmap_with_tail_policy. apply bind_safe; [apply bitmap_lengths_safe |].
  intros l ([H0 Hn] & Hl)%bitmap_lengths_Ok. apply bind_safe; [apply refuse_if_safe | intros _ _].
  apply bind_safe; [apply refuse_if_safe | intros u Hlen]. apply refuse_if_Ok in Hlen. bool_props.
  rewrite Hl in Hlen. pose proof (canonical_length_bounds n H0 Hn) as (H1 & H2 & H3).
  rewrite <- Hlen in H1, H2, H3.
  assert (8 * len bytes <= u64_max) by (unfold MAX_SUPPORTED_BITMAP_BYTES in H3; widths; lia).
  apply bind_safe; [by rewrite count_allocated_Ok | intros allocated _].
  apply bind_safe; [by destruct (inspect_tail_Ok bytes n) as (? & -> & _) | intros tail _].
  destruct policy; [|done]. by destruct (te_first_unallocated_bit _).
Qed.
Lemma parse_bitmap_iff n bytes policy bitmap :
  parse_bitmap_with_tail_policy n bytes policy = Ok bitmap <->
  bitmap_of n bytes bitmap /\
  (policy = RequireAllocated -> forall i, n <= i < 8 * len bytes -> bitmap_bit bytes i = true).
Proof.
  unfold parse_bitmap_with_tail_policy. split.
  - intros (l & ([H0 Hn] & Hl)%bitmap_lengths_Ok & H)%bind_Ok.
    apply then_Ok in H as [_ H]. apply then_Ok in H as [H2 H]. apply refuse_if_Ok in H2. bool_props.
    rename H2 into Hlen. rewrite Hl in Hlen.
    pose proof (canonical_length_bounds n H0 Hn) as (Ha & Hb & Hc). rewrite <- Hlen in Ha, Hb, Hc.
    assert (8 * len bytes <= u64_max) by (unfold MAX_SUPPORTED_BITMAP_BYTES in Hc; widths; lia).
    rewrite count_allocated_Ok in H by done. cbn [mbind outcome_bind] in H.
    destruct (inspect_tail_Ok bytes n) as (first & Hf & Hfirst); try done.
    rewrite Hf in H. cbn [mbind outcome_bind te_first_unallocated_bit] in H.
    assert (Hres : bitmap = mkNtfsBitmap bytes n (bits_set (bitmap_bit bytes) n)
      (mkTailEvidence (8 * len bytes - n)
         (bits_set (fun i => bitmap_bit bytes (n + i)) (8 * len bytes - n)) first) /\
      (policy = RequireAllocated -> first = None)) by (destruct policy, first; simplify_eq; done).
    destruct Hres as [-> Hp]. split; [by split |].
    intros Hpol i Hi. rewrite (Hp Hpol) in Hfirst. specialize (Hfirst i Hi).
    by apply negb_false_iff in Hfirst.
  - intros [[[H0 Hn] Hlen Eb Ec Ea Er Et Ef] Hp].
    destruct (bitmap_lengths_total n H0 Hn) as (l & Hl & Hcan).
    pose proof (canonical_length_bounds n H0 Hn) as (Ha & Hb & Hc). rewrite <- Hlen in Ha, Hb, Hc.
    rewrite Hl. cbn [mbind outcome_bind]. rewrite (proj2 (N.ltb_ge _ _)) by done.
    rewrite Hcan, <- Hlen, N.eqb_refl. cbn [negb refuse_if mbind outcome_bind].
    assert (8 * len bytes <= u64_max) by (unfold MAX_SUPPORTED_BITMAP_BYTES in Hc; widths; lia).
    rewrite count_allocated_Ok by done. cbn [mbind outcome_bind].
    destruct (inspect_tail_Ok bytes n) as (first & -> & Hfirst); try done. cbn [mbind outcome_bind].
    simpl te_first_unallocated_bit.
    assert (Hsame : first = te_first_unallocated_bit (bm_tail bitmap)) by (eapply first_bit_unique; done).
    destruct bitmap as [? ? ? [? ? ?]]. simpl in *. subst.
    destruct policy; [|done]. destruct te_first_unallocated_bit0 as [i|]; [|done].
    destruct Hfirst as (Hi & Ti & _). rewrite (Hp eq_refl i Hi) in Ti. done.
Qed.

(** ** Searching *)
(** The mask of a range of bits of a byte. *)
Lemma range_mask_Ok {E} lower width :
  lower + width <= 8 -> lower < 8 -> 0 < width ->
  exists ones mask,
    (if width =? 8 then Some u8_max else u8_try_from (N.shiftl 1 width - 1)) = Some ones /\
    @shl_u8 E ones lower = Ok mask /\
    forall j, N.testbit mask j = (lower <=? j) && (j <? lower + width).
Proof.
  intros Hw Hl H0. exists (N.ones width), (N.shiftl (N.ones width) lower).
  assert (Hmask : forall j, N.testbit (N.shiftl (N.ones width) lower) j
    = (lower <=? j) && (j <? lower + width)).
  { intros j. destruct (N.leb_spec lower j) as [Hj|Hj]; simpl; [|by apply N.shiftl_spec_low].
    rewrite N.shiftl_spec_high by lia. destruct (N.ltb_spec j (lower + width)).
    - apply N.ones_spec_low. lia.
    - apply N.ones_spec_high. lia. }
  split_and!; [| |exact Hmask].
  - destruct (N.eqb_spec width 8) as [->|Hne]; [done |].
    change (N.shiftl 1 width - 1) with (N.pred (N.shiftl 1 width)) || idtac.
    replace (N.shiftl 1 width - 1) with (N.ones width) by (unfold N.ones; lia).
    apply u8_try_from_in. rewrite N.ones_equiv.
    assert (2 ^ width <= 2 ^ 7) by (apply N.pow_le_mono_r; lia). change (2 ^ 7) with 128 in *.
    unfold u8_max. lia.
  - unfold shl_u8. rewrite (proj2 (N.ltb_lt _ _)) by done. f_equal. apply N.bits_inj. intros j.
    rewrite N.land_spec, Hmask. change u8_max with (N.ones 8).
    destruct (N.lt_ge_cases j 8).
    + by rewrite N.ones_spec_low, andb_true_r by done.
    + rewrite N.ones_spec_high, andb_false_r by done. symmetry. apply andb_false_iff. right.
      apply N.ltb_ge. lia.
Qed.

Section Search.
Variable bytes : list byte.
Hypothesis Hbytes : 8 * len bytes <= u64_max.

Lemma search_byte_Ok lo hi state k :
  lo < 8 * k + 8 -> 8 * k < hi -> lo < hi -> hi <= 8 * len bytes ->
  exists r, first_bit (in_state bytes state) (N.max lo (8 * k)) (N.min hi (8 * k + 8)) r /\
    search_byte bytes lo hi state k = Ok (match r with Some i => Some (Some i) | None => None end).
Proof using Hbytes.
  intros Hlo Hhi Hne Hl. widths. unfold search_byte, saturating_sub.
  rewrite u64_try_from_in by lia. cbn [mbind option_bind]. rewrite checked_mul_in by lia.
  rewrite (N.mul_comm k 8), u32_try_from_in by lia.
  rewrite sub_u64_in by lia. cbn [mbind outcome_bind]. rewrite u32_try_from_in by lia.
  set (lower := N.min (lo - 8 * k) 8). set (upper := N.min (hi - 8 * k) 8).
  destruct (range_mask_Ok (E := NtfsBitmapError) lower (upper - lower))
    as (ones & mask & -> & -> & Hmask); [lia | lia | lia |]. cbn [mbind outcome_bind].
  destruct (lookup_lt_is_Some_2 bytes (N.to_nat k)) as [b Hb]; [unfold len in Hl; lia |].
  unfold at_index. rewrite Hb. cbn [expect mbind outcome_bind].
  match goal with |- context [negb (?m =? 0)] => set (matching := m) end.
  assert (Hbits : forall j, N.testbit matching j =
    in_state bytes state (8 * k + j) && ((lower <=? j) && (j <? upper))).
  { intros j. unfold matching. replace upper with (lower + (upper - lower)) by lia. rewrite <- Hmask.
    destruct (N.lt_ge_cases j 8) as [Hj|Hj].
    - destruct state; rewrite N.land_spec; simpl; rewrite (bitmap_bit_at bytes k b) by done; [|done].
      rewrite N.lxor_spec. change u8_max with (N.ones 8). by rewrite N.ones_spec_low, xorb_true_r by done.
    - assert (N.testbit mask j = false) as Hz.
      { rewrite Hmask. apply andb_false_iff. right. apply N.ltb_ge. lia. }
      destruct state; rewrite N.land_spec, Hz, !andb_false_r; done. }
  assert (Hsmall : matching < 2 ^ 8).
  { destruct (decide (matching = 0)) as [->|]; [done |]. apply N.log2_lt_pow2; [lia |].
    destruct (N.lt_ge_cases (N.log2 matching) 8) as [|Hge]; [done |].
    assert (Ht : N.testbit matching (N.log2 matching) = true) by (by apply N.bit_log2).
    rewrite Hbits in Ht. apply andb_true_iff in Ht as [_ Ht]. apply andb_true_iff in Ht as [_ Ht].
    apply N.ltb_lt in Ht. lia. }
  destruct (N.eqb_spec matching 0) as [H0|H0]; cbn [negb].
  - exists None. split; [|done]. intros j Hj. specialize (Hbits (j - 8 * k)).
    rewrite H0, N.bits_0 in Hbits. replace (8 * k + (j - 8 * k)) with j in Hbits by lia.
    rewrite (proj2 (N.leb_le lower _)), (proj2 (N.ltb_lt _ upper)), andb_true_r in Hbits by lia. done.
  - destruct (trailing_zeros_first 8 matching 8 ltac:(lia) Hsmall) as (Hr & Ht & Hbefore).
    set (z := trailing_zeros 8 matching) in *. rewrite Hbits in Ht. bool_props.
    rewrite checked_add_in by lia. exists (Some (8 * k + z)). split; [|done].
    split; [lia |]. split; [done |]. intros j Hj. specialize (Hbefore (j - 8 * k) ltac:(lia)).
    rewrite Hbits in Hbefore. replace (8 * k + (j - 8 * k)) with j in Hbefore by lia.
    rewrite (proj2 (N.leb_le lower _)), (proj2 (N.ltb_lt _ upper)), andb_true_r in Hbefore by lia. done.
Qed.

Lemma search_bytes_Ok lo hi state first count :
  lo < hi -> hi <= 8 * len bytes -> lo < 8 * first + 8 -> 8 * (first + count) < hi + 8 ->
  exists r, first_bit (in_state bytes state) (N.max lo (8 * first))
      (N.min hi (8 * (first + count))) r /\
    search_bytes bytes lo hi state (span first (first + count)) = Ok r.
Proof using Hbytes.
  intros Hne Hl. revert first. induction count as [|count IH] using N.peano_ind; intros first Hlo Hhi.
  { exists None. unfold span. rewrite N.add_0_r, N.sub_diag. split; [simpl; intros; lia | done]. }
  rewrite <- N.add_1_r in *.
  assert (span first (first + (count + 1)) = first :: span (first + 1) (first + 1 + count)) as ->.
  { unfold span. replace (first + (count + 1) - first) with (count + 1) by lia.
    replace (first + 1 + count - (first + 1)) with count by lia. unfold indices.
    replace (N.to_nat (count + 1)) with (S (N.to_nat count)) by lia.
    cbn [seq fmap list_fmap]. f_equal; [lia |]. rewrite <- fmap_S_seq, <- !list_fmap_compose.
    apply list_fmap_ext. intros _ x _. simpl. lia. }
  cbn [search_bytes]. destruct (search_byte_Ok lo hi state first) as (r & Hr & ->); [lia | lia | done | done |].
  cbn [mbind outcome_bind]. destruct r as [i|].
  - exists (Some i). split; [|done]. eapply first_bit_extend; [|exact Hr]. lia.
  - destruct (IH (first + 1)) as (r & Hr' & Hs); [lia | lia |]. exists r. split; [|exact Hs].
    destruct r as [i|]; simpl in *.
    + destruct Hr' as (Hi & Ti & Bi). split; [lia |]. split; [done |]. intros j Hj.
      destruct (N.lt_ge_cases j (8 * first + 8)); [apply Hr | apply Bi]; lia.
    + intros j Hj. destruct (N.lt_ge_cases j (8 * first + 8)); [apply Hr | apply Hr']; lia.
Qed.

Lemma first_cluster_Ok count allocated tail lo hi state :
  hi <= 8 * len bytes ->
  exists r, first_bit (in_state bytes state) lo hi r /\
    first_cluster_with_state (mkNtfsBitmap bytes count allocated tail) lo hi state = Ok r.
Proof using Hbytes.
  intros Hl. unfold first_cluster_with_state. destruct (N.leb_spec hi lo) as [Hle|Hlt].
  { exists None. split; [simpl; intros; lia | done]. }
  rewrite !shiftr_3. widths. destruct (euclid lo 8) as (f & rf & Ef & _ & Hf & Hrf); [done |].
  destruct (euclid (hi - 1) 8) as (t & rt & Et & _ & Ht & Hrt); [done |].
  rewrite Ef, sub_u64_in by lia. rewrite usize_try_from_in by (unfold usize_max; lia). cbn [mbind outcome_bind].
  rewrite shiftr_3, Et. rewrite usize_try_from_in by (unfold usize_max; lia). simpl bm_bytes.
  destruct (search_bytes_Ok lo hi state f (t + 1 - f)) as (r & Hr & Hs); [lia | done | lia | lia |].
  unfold span_inclusive. replace (f + (t + 1 - f)) with (t + 1) in * by lia. exists r. split; [|exact Hs].
  replace (N.max lo (8 * f)) with lo in Hr by lia.
  replace (N.min hi (8 * (t + 1))) with hi in Hr by lia. done.
Qed.
End Search.

(** ** Claims *)
Definition oc_length (claim : OrderedClaim) : N := oc_end_lcn claim - oc_start_lcn claim.
Definition oc_covers (i : N) (claim : OrderedClaim) : bool :=
  (oc_start_lcn claim <=? i) && (i <? oc_end_lcn claim).
Definition to_ordered (claim : N * NtfsAllocationClaim) : OrderedClaim :=
  mkOrderedClaim claim.1 (ac_start_lcn claim.2) (ac_start_lcn claim.2 + ac_cluster_count claim.2).
Definition claim_fits (cluster_count : N) (claim : OrderedClaim) : Prop :=
  oc_start_lcn claim < oc_end_lcn claim /\ oc_end_lcn claim <= cluster_count.
(** Every cluster of the claim is allocated. *)
Definition claim_allocated (bytes : list byte) (claim : OrderedClaim) : Prop :=
  forall i, oc_start_lcn claim <= i < oc_end_lcn claim -> bitmap_bit bytes i = true.
Definition after (previous : option OrderedClaim) (claims : list OrderedClaim) : Prop :=
  match previous with
  | Some prior => HdRel (before oc_start_lcn oc_length) prior claims
  | None => True
  end.

Lemma disjoint_ranges_fmap {A B} (f : A -> B) off ln l :
  disjoint_ranges off ln (f <$> l) <-> disjoint_ranges (fun x => off (f x)) (fun x => ln (f x)) l.
Proof.
  unfold disjoint_ranges. rewrite !StronglySorted_lookup. setoid_rewrite list_lookup_fmap.
  split.
  - intros H i j x y Hij Hx Hy. apply (H i j); [done | by rewrite Hx | by rewrite Hy].
  - intros H i j x y Hij Hx Hy. apply fmap_Some in Hx as (x' & Hx & ->).
    apply fmap_Some in Hy as (y' & Hy & ->). apply (H i j); done.
Qed.
Lemma snd_enumerate_from {A} i (l : list A) : snd <$> enumerate_from i l = l.
Proof. revert i. induction l as [|x l IH]; intros i; [done |]. cbn. f_equal. apply IH. Qed.
Lemma existsb_perm {A} (f : A -> bool) l l' : l ≡ₚ l' -> existsb f l = existsb f l'.
Proof.
  induction 1 as [|x l l' _ IH|x y l|l1 l2 l3 _ IH1 _ IH2]; simpl; [done | by rewrite IH | |congruence].
  by destruct (f x), (f y).
Qed.

Lemma ordered_disjoint i claims :
  disjoint_ranges oc_start_lcn oc_length (to_ordered <$> enumerate_from i claims) <->
  disjoint_ranges ac_start_lcn ac_cluster_count claims.
Proof.
  rewrite disjoint_ranges_fmap. rewrite <- (snd_enumerate_from i claims) at 2.
  rewrite disjoint_ranges_fmap. unfold disjoint_ranges, apart, before, oc_length, to_ordered. simpl.
  split; apply StronglySorted_impl; intros x y; lia.
Qed.
Lemma ordered_covers i j claims :
  existsb (oc_covers j) (to_ordered <$> enumerate_from i claims) = existsb (claim_covers j) claims.
Proof. revert i. induction claims as [|c claims IH]; intros i; [done |]. cbn. by rewrite <- (IH (i + 1)). Qed.
Lemma ordered_sum i claims :
  sum_by oc_length (to_ordered <$> enumerate_from i claims) = sum_by ac_cluster_count claims.
Proof.
  revert i. induction claims as [|c claims IH]; intros i; [done |]. cbn [enumerate_from].
  rewrite fmap_cons, !sum_by_cons, IH. unfold oc_length, to_ordered. simpl. f_equal. lia.
Qed.
Lemma ordered_forall i claims (P : N -> N -> Prop) :
  Forall (fun c => P (oc_start_lcn c) (oc_end_lcn c)) (to_ordered <$> enumerate_from i claims) <->
  Forall (fun c => P (ac_start_lcn c) (ac_start_lcn c + ac_cluster_count c)) claims.
Proof.
  revert i. induction claims as [|c claims IH]; intros i; [by split; constructor |]. cbn.
  rewrite !Forall_cons. by rewrite <- (IH (i + 1)).
Qed.

Lemma claimed_bits n l :
  disjoint_ranges oc_start_lcn oc_length l -> Forall (claim_fits n) l ->
  bits_set (fun i => existsb (oc_covers i) l) n = sum_by oc_length l.
Proof.
  intros Hd Hf. induction l as [|c l IH]; [by apply bits_set_zero |].
  apply StronglySorted_inv in Hd as [Hd Ha]. apply Forall_cons in Hf as [[Hc Hn] Hf].
  rewrite sum_by_cons, <- (IH Hd Hf). rewrite (bits_set_partition _ (fun i => oc_covers i c)).
  f_equal.
  - rewrite (bits_set_ext _ (fun i => oc_covers i c)).
    + apply bits_set_range; [lia | done].
    + intros i _. cbn [existsb]. destruct (oc_covers i c); [done | apply andb_false_r].
  - apply bits_set_ext. intros i _. cbn [existsb]. destruct (oc_covers i c) eqn:Hi; [|by rewrite andb_true_r].
    symmetry. apply not_true_iff_false. intros (d & Hd1 & Hd2)%existsb_exists.
    rewrite Forall_forall in Ha. apply list_elem_of_In in Hd1. specialize (Ha d Hd1).
    unfold oc_covers in *. bool_props. unfold apart, before, oc_length in Ha. lia.
Qed.

Lemma order_claims_Ok bitmap i claims acc ordered :
  bm_cluster_count bitmap <= u64_max ->
  try_fold (order_claim bitmap) acc (enumerate_from i claims) = Ok ordered <->
  Forall (fun c => 0 < ac_cluster_count c /\
    ac_start_lcn c + ac_cluster_count c <= bm_cluster_count bitmap) claims /\
  ordered = acc ++ (to_ordered <$> enumerate_from i claims).
Proof.
  intros Hm. revert i acc. induction claims as [|c claims IH]; intros i acc.
  { cbn. rewrite app_nil_r. split; [intros [= <-]; by split; [constructor |] | by intros [_ ->]]. }
  cbn [enumerate_from try_fold]. rewrite Forall_cons. split.
  - intros (acc' & Hc & H)%bind_Ok. unfold order_claim in Hc.
    apply then_Ok in Hc as [H0 Hc]. apply bind_Ok in Hc as (e & He & Hc). apply then_Ok in Hc as [Hb Hc].
    apply refuse_if_Ok in H0, Hb. bool_props. apply ok_or_Ok, checked_add_Some in He as [-> _].
    injection Hc as <-. apply IH in H as [Hf ->]. split; [split; [lia | done] |].
    rewrite <- app_assoc. done.
  - intros [[[H0 Hb] Hf] ->]. eapply bind_step.
    + unfold order_claim. ok_step. rewrite checked_add_in by lia.
      cbn [ok_or mbind outcome_bind]. ok_step. done.
    + cbv beta. apply IH. split; [done |]. rewrite <- app_assoc. done.
Qed.
Lemma order_claims_safe bitmap acc l : try_fold (order_claim bitmap) acc l <> Panic.
Proof. apply try_fold_safe. intros a [i c] _. unfold order_claim. safe. Qed.

Section Reconcile.
Variables (n : N) (bytes : list byte) (bitmap : NtfsBitmap).
Hypothesis Hbitmap : bitmap_of n bytes bitmap.

Lemma bitmap_bounds : n <= 8 * len bytes /\ 8 * len bytes <= u64_max /\ n <= u64_max.
Proof using Hbitmap.
  destruct Hbitmap as [[H0 Hn] Hl _ _ _ _ _ _].
  pose proof (canonical_length_bounds n H0 Hn) as (Ha & Hb & Hc). rewrite <- Hl in *.
  unfold MAX_SUPPORTED_BITMAP_BYTES, MAX_SUPPORTED_CLUSTER_COUNT in *. widths. lia.
Qed.
Lemma first_cluster_of lo hi state :
  hi <= n ->
  exists r, first_bit (in_state bytes state) lo hi r /\
    first_cluster_with_state bitmap lo hi state = Ok r.
Proof using Hbitmap.
  intros Hh. destruct bitmap_bounds as (Hn & Hm & _). pose proof (bo_bytes _ _ _ Hbitmap) as Hb.
  destruct bitmap as [b c a t]. simpl in Hb. subst b. apply first_cluster_Ok; [done | lia].
Qed.

Lemma check_claim_Ok s previous c r :
  claim_fits n c ->
  check_claim bitmap (s, previous) c = Ok r <->
  (match previous with Some p => oc_end_lcn p <= oc_start_lcn c | None => True end) /\
  claim_allocated bytes c /\ s + oc_length c <= u64_max /\ r = (s + oc_length c, Some c).
Proof using Hbitmap.
  intros [Hc Hn]. unfold check_claim, oc_length.
  destruct (first_cluster_of (oc_start_lcn c) (oc_end_lcn c) Free Hn) as (f & Hf & ->).
  assert (Hall : f = None <-> claim_allocated bytes c).
  { unfold claim_allocated. destruct f as [i|]; simpl in Hf.
    - split; [done |]. intros Ha. destruct Hf as (Hi & Ti & _). rewrite Ha in Ti by done. done.
    - split; [|done]. intros _ i Hi. apply negb_false_iff. by apply Hf. }
  assert (Hp : (match previous with
      | Some prior => refuse_if (oc_start_lcn c <? oc_end_lcn prior)
          (OverlappingAllocationClaims (oc_claim_index prior) (oc_claim_index c) (oc_start_lcn c))
      | None => Ok tt end = Ok tt) <->
      match previous with Some p => oc_end_lcn p <= oc_start_lcn c | None => True end).
  { destruct previous; [|done]. by rewrite refuse_if_Ok, N.ltb_ge. }
  rewrite then_Ok, Hp. apply and_iff_compat_l. cbn [mbind outcome_bind]. rewrite then_Ok, <- Hall.
  destruct f; [split; [by intros [? _] | by intros [? _]] |].
  rewrite sub_u64_in by lia. cbn [mbind outcome_bind].
  split.
  - intros [_ H]. apply bind_Ok in H as (t & Ht & [= <-]). apply ok_or_Ok, checked_add_Some in Ht as [-> ?].
    done.
  - intros (_ & Hs & ->). split; [done |]. rewrite checked_add_in by lia. done.
Qed.
Lemma check_claim_safe s c : claim_fits n c -> check_claim bitmap s c <> Panic.
Proof using Hbitmap.
  intros [Hc Hn]. destruct s as [s previous]. unfold check_claim.
  destruct (first_cluster_of (oc_start_lcn c) (oc_end_lcn c) Free Hn) as (f & _ & ->).
  apply bind_safe; [destruct previous; [apply refuse_if_safe | done] | intros _ _].
  apply bind_safe; [done | intros o _]. apply bind_safe; [by destruct o | intros _ _].
  apply bind_safe; [apply sub_u64_safe; lia | intros l _]. safe.
Qed.

Lemma check_claims_Ok l s previous :
  Forall (claim_fits n) l ->
  (match previous with Some p => oc_start_lcn p < oc_end_lcn p | None => True end) ->
  (forall r, try_fold (check_claim bitmap) (s, previous) l = Ok r ->
     after previous l /\ Sorted (before oc_start_lcn oc_length) l /\
     Forall (claim_allocated bytes) l /\ r.1 = s + sum_by oc_length l) /\
  (after previous l -> Sorted (before oc_start_lcn oc_length) l -> Forall (claim_allocated bytes) l ->
   s + sum_by oc_length l <= u64_max ->
   exists r, try_fold (check_claim bitmap) (s, previous) l = Ok r).
Proof using Hbitmap.
  revert s previous. induction l as [|c l IH]; intros s previous Hf Hp.
  { split; [|intros; cbn; eauto]. intros r [= <-]. split_and!; [by destruct previous; [constructor |] |
      constructor | constructor | simpl; lia]. }
  apply Forall_cons in Hf as [Hc Hf]. destruct (IH (s + oc_length c) (Some c) Hf (proj1 Hc)) as [IH1 IH2].
  assert (Hb : forall p, oc_start_lcn p < oc_end_lcn p ->
    oc_end_lcn p <= oc_start_lcn c <-> before oc_start_lcn oc_length p c)
    by (intros q Hq; unfold before, oc_length; lia).
  cbn [try_fold]. rewrite sum_by_cons. split.
  - intros r (st & Hst & H)%bind_Ok. apply check_claim_Ok in Hst as (Hpc & Ha & _ & ->); [|done].
    apply IH1 in H as (H1 & H2 & H3 & ->). split_and!; [|by constructor | by constructor | lia].
    destruct previous; [|done]. simpl. constructor. unfold before, oc_length. lia.
  - intros Haf [Hs Hh]%Sorted_inv [Ha Hall]%Forall_cons Hsum.
    destruct IH2 as [r Hr]; [done | done | done | lia |].
    exists r. eapply bind_step; [|exact Hr]. apply check_claim_Ok; [done |]. split_and!; [| done | lia | done].
    destruct previous as [p|]; [|done]. apply Hb; [done |]. by apply HdRel_inv in Haf.
Qed.
Lemma check_claims_safe l s : Forall (claim_fits n) l -> try_fold (check_claim bitmap) s l <> Panic.
Proof using Hbitmap.
  intros Hf. apply try_fold_safe. intros s' c Hc. apply check_claim_safe.
  rewrite Forall_forall in Hf. by apply Hf.
Qed.

(** The search of the gaps finds the first allocated cluster without a claim. *)
Lemma search_gaps_Ok l cursor :
  Forall (claim_fits n) l -> StronglySorted (before oc_start_lcn oc_length) l ->
  Forall (fun c => cursor <= oc_start_lcn c) l -> cursor <= n ->
  exists r, search_gaps bitmap cursor l = Ok r /\
    first_bit (fun i => bitmap_bit bytes i && negb (existsb (oc_covers i) l)) cursor n r.
Proof using Hbitmap.
  revert cursor. induction l as [|c l IH]; intros cursor Hf Hs Hcur Hn; cbn [search_gaps].
  { rewrite (bo_clusters _ _ _ Hbitmap). destruct (first_cluster_of cursor n Allocated) as (r & Hr & ->); [done |].
    exists r. split; [done |]. eapply first_bit_ext; [|exact Hr]. intros i _. simpl. by rewrite andb_true_r. }
  apply Forall_cons in Hf as [[Hc Hcn] Hf]. apply StronglySorted_inv in Hs as [Hs Hb].
  apply Forall_cons in Hcur as [Hcur Hcurs].
  assert (Hafter : Forall (fun d => oc_end_lcn c <= oc_start_lcn d) l).
  { eapply Forall_impl; [exact Hb |]. intros d. unfold before, oc_length. lia. }
  assert (Hlate : forall i, i < oc_end_lcn c -> existsb (oc_covers i) l = false).
  { intros i Hi. apply not_true_iff_false. intros (d & Hd & Hi')%existsb_exists.
    apply list_elem_of_In in Hd. rewrite Forall_forall in Hafter. specialize (Hafter d Hd).
    unfold oc_covers in Hi'. bool_props. lia. }
  destruct (first_cluster_of cursor (oc_start_lcn c) Allocated) as (r1 & Hr1 & ->); [lia |].
  cbn [mbind outcome_bind].
  assert (Hgap : first_bit (fun i => bitmap_bit bytes i && negb (existsb (oc_covers i) (c :: l)))
    cursor (oc_start_lcn c) r1).
  { eapply first_bit_ext; [|exact Hr1]. intros i Hi. cbn [existsb in_state].
    rewrite Hlate by lia. unfold oc_covers. rewrite (proj2 (N.leb_gt _ _)) by lia.
    cbn [andb orb negb]. by rewrite andb_true_r. }
  destruct r1 as [i|].
  { exists (Some i). split; [done |]. eapply first_bit_extend; [|exact Hgap]. lia. }
  destruct (IH (oc_end_lcn c) Hf Hs Hafter Hcn) as (r & Hr & Hfirst). exists r. split; [done |].
  apply first_bit_app with (oc_start_lcn c); [lia | lia | done |].
  apply first_bit_app with (oc_end_lcn c); [lia | lia | |].
  - intros i Hi. cbn [existsb]. unfold oc_covers at 1. rewrite (proj2 (N.leb_le _ _)), (proj2 (N.ltb_lt _ _)) by lia.
    cbn [andb orb negb]. apply andb_false_r.
  - eapply first_bit_ext; [|exact Hfirst]. intros i Hi. cbn [existsb]. unfold oc_covers at 2.
    rewrite (proj2 (N.ltb_ge i (oc_end_lcn c))) by lia. by rewrite andb_false_r.
Qed.

(** The claims in order, as the reconciliation checks them. *)
Lemma ordered_claims claims :
  let l := sort_by_lex_key claim_key (to_ordered <$> enumerate claims) in
  Forall (fun c => 0 < ac_cluster_count c /\ ac_start_lcn c + ac_cluster_count c <= n) claims ->
  Forall (claim_fits n) l /\
  (Sorted (before oc_start_lcn oc_length) l <-> disjoint_ranges ac_start_lcn ac_cluster_count claims) /\
  sum_by oc_length l = sum_by ac_cluster_count claims /\
  (forall i, existsb (oc_covers i) l = existsb (claim_covers i) claims) /\
  (Forall (claim_allocated bytes) l <->
   forall c i, c ∈ claims -> in_range (ac_start_lcn c) (ac_cluster_count c) i -> bitmap_bit bytes i = true).
Proof using Type.
  intros l Hf. pose proof (sort_by_lex_key_perm claim_key (to_ordered <$> enumerate claims)) as Hp.
  fold l in Hp. assert (Hfit : Forall (claim_fits n) l).
  { rewrite Hp. apply (ordered_forall 0 claims (fun s e => s < e /\ e <= n)).
    eapply Forall_impl; [exact Hf |]. simpl. intros c ?. lia. }
  split_and!; [done | | | |].
  - rewrite <- (ordered_disjoint 0). split.
    + intros Hs%adjacent_disjoint. by apply (disjoint_ranges_perm _ _ l).
    + intros Hd. apply disjoint_adjacent.
      * eapply StronglySorted_impl; [|apply sort_by_lex_key_sorted]. intros x y Hxy.
        unfold le_lex_key, claim_key in Hxy. unfold le_key. simpl in Hxy.
        destruct (N.ltb_spec (oc_start_lcn x) (oc_start_lcn y)); [lia |].
        destruct (N.eqb_spec (oc_start_lcn x) (oc_start_lcn y)); [lia | done].
      * eapply Forall_impl; [exact Hfit |]. intros c [? ?]. unfold oc_length. lia.
      * by apply (disjoint_ranges_perm _ _ (to_ordered <$> enumerate claims)).
  - rewrite (sum_by_perm _ _ _ Hp). apply ordered_sum.
  - intros i. rewrite (existsb_perm _ _ _ Hp). apply ordered_covers.
  - rewrite Hp. unfold claim_allocated, in_range.
    rewrite (ordered_forall 0 claims (fun s e => forall i, s <= i < e -> bitmap_bit bytes i = true)).
    rewrite Forall_forall. naive_solver.
Qed.

Lemma unexplained_count claims :
  Forall (fun c => 0 < ac_cluster_count c /\ ac_start_lcn c + ac_cluster_count c <= n) claims ->
  disjoint_ranges ac_start_lcn ac_cluster_count claims ->
  (forall c i, c ∈ claims -> in_range (ac_start_lcn c) (ac_cluster_count c) i -> bitmap_bit bytes i = true) ->
  bits_set (bitmap_bit bytes) n = sum_by ac_cluster_count claims + bits_set (unexplained bytes claims) n.
Proof using Type.
  intros Hf Hd Ha. rewrite (bits_set_partition _ (fun i => existsb (claim_covers i) claims)). f_equal.
  rewrite <- (ordered_sum 0). rewrite <- (claimed_bits n).
  - apply bits_set_ext. intros i _. rewrite ordered_covers.
    destruct (existsb (claim_covers i) claims) eqn:He; [|apply andb_false_r].
    rewrite andb_true_r. apply existsb_exists in He as (c & Hc%list_elem_of_In & Hi).
    apply (Ha c); [done |]. unfold claim_covers in Hi. bool_props. done.
  - by apply ordered_disjoint.
  - apply (ordered_forall 0 claims (fun s e => s < e /\ e <= n)).
    eapply Forall_impl; [exact Hf |]. simpl. intros c ?. lia.
Qed.

Lemma first_unexplained claims count :
  Forall (fun c => 0 < ac_cluster_count c /\ ac_start_lcn c + ac_cluster_count c <= n) claims ->
  disjoint_ranges ac_start_lcn ac_cluster_count claims ->
  count = bits_set (unexplained bytes claims) n ->
  exists r, (if count =? 0 then Ok None
     else first_unclaimed_allocated_cluster bitmap
       (sort_by_lex_key claim_key (to_ordered <$> enumerate claims))) = Ok r /\
    first_bit (unexplained bytes claims) 0 n r.
Proof using Hbitmap.
  intros Hf Hd ->. destruct (N.eqb_spec (bits_set (unexplained bytes claims) n) 0) as [H0|H0].
  { exists None. split; [done |]. simpl. intros i Hi. rewrite bits_set_zero in H0. apply H0. lia. }
  destruct (ordered_claims claims Hf) as (Hfit & Hs & _ & He & _).
  apply Hs, Sorted_StronglySorted in Hd; [|apply before_trans].
  destruct (search_gaps_Ok _ 0 Hfit Hd) as (r & Hr & Hb); [apply Forall_forall; lia | lia |].
  exists r. split; [exact Hr |]. eapply first_bit_ext; [|exact Hb]. intros i _. unfold unexplained.
  simpl. by rewrite He.
Qed.

Lemma reconcile_iff claims complete max_claims :
  reconcile_allocation_claims bitmap claims complete max_claims <> Panic /\
  forall e, reconcile_allocation_claims bitmap claims complete max_claims = Ok e <->
    claims_sound n bytes claims max_claims /\
    exists r, report_of n bytes claims r /\
      (complete = true -> ar_first_unexplained_lcn r = None) /\
      e = (if complete then Complete r else IncompleteInventory r).
Proof using Hbitmap.
  destruct bitmap_bounds as (_ & _ & Hmax). pose proof (bo_clusters _ _ _ Hbitmap) as Hc.
  pose proof (bo_allocated _ _ _ Hbitmap) as Hal. unfold reconcile_allocation_claims.
  destruct (N.eqb_spec max_claims 0) as [->|Hm0]; cbn [refuse_if mbind outcome_bind].
  { split; [done |]. intros e. split; [done |]. intros [[H _ _ _ _] _]. lia. }
  destruct (N.ltb_spec max_claims (len claims)) as [Hlim|Hlim]; cbn [refuse_if mbind outcome_bind].
  { split; [done |]. intros e. split; [done |]. intros [[_ H _ _ _] _]. lia. }
  destruct (try_fold (order_claim bitmap) [] (enumerate claims)) as [u|err|] eqn:Ho;
    [|split; [done |]; intros e; split; [done |] | by apply order_claims_safe in Ho].
  2: { intros [[_ _ Hr _ _] _]. rewrite <- Hc in Hr.
    assert (Hx : try_fold (order_claim bitmap) [] (enumerate claims) = Ok ([] ++ (to_ordered <$> enumerate claims)))
      by (apply order_claims_Ok; [lia | done]). congruence. }
  apply order_claims_Ok in Ho as [Hr ->]; [|lia]. rewrite Hc in Hr. cbn [app mbind outcome_bind].
  destruct (ordered_claims claims Hr) as (Hfit & Hsort & Hsum & _ & Hall).
  fold (enumerate claims).
  set (l := sort_by_lex_key claim_key (to_ordered <$> enumerate claims)) in *.
  destruct (check_claims_Ok l 0 None Hfit I) as [Hok Htotal].
  destruct (try_fold (check_claim bitmap) (0, None) l) as [st|err|] eqn:Hst;
    [|split; [done |]; intros e; split; [done |] | by apply check_claims_safe in Hst].
  2: { intros [[_ _ _ Hd Ha] _]. apply Hsort in Hd as Hs.
    pose proof (unexplained_count claims Hr Hd Ha) as Hcount.
    pose proof (bits_set_le (bitmap_bit bytes) n). apply Hall in Ha.
    destruct Htotal as [? ?]; [done | done | done | lia | done]. }
  destruct (Hok st eq_refl) as (_ & Hs & Ha & Hclaimed). cbn [mbind outcome_bind].
  apply Hsort in Hs as Hd. pose proof (proj1 Hall Ha) as Ha'.
  pose proof (unexplained_count claims Hr Hd Ha') as Hcount.
  rewrite Hclaimed, N.add_0_l, Hal, Hsum, sub_u64_in by lia. cbn [mbind outcome_bind].
  destruct (first_unexplained claims
    (bits_set (bitmap_bit bytes) n - sum_by ac_cluster_count claims) Hr Hd) as (r & Hgap & Hfirst); [lia |].
  fold l in Hgap. rewrite Hgap. cbn [mbind outcome_bind].
  assert (Hsound : claims_sound n bytes claims max_claims) by (split; [lia | done..]).
  assert (Hrep : report_of n bytes claims (mkNtfsAllocationReconciliation (len claims)
    (sum_by ac_cluster_count claims) (bits_set (bitmap_bit bytes) n - sum_by ac_cluster_count claims) r))
    by (split; simpl; [done | done | lia | done]).
  assert (Huniq : forall r', report_of n bytes claims r' -> r' = mkNtfsAllocationReconciliation (len claims)
    (sum_by ac_cluster_count claims) (bits_set (bitmap_bit bytes) n - sum_by ac_cluster_count claims) r).
  { intros [c1 c2 c3 c4] [E1 E2 E3 E4]. simpl in *. subst.
    rewrite (first_bit_unique _ _ _ _ _ E4 Hfirst). f_equal. lia. }
  split; [destruct complete, r; done |]. intros e. split.
  - intros He. split; [done |]. eexists. split; [exact Hrep |]. destruct complete, r; by simplify_eq.
  - intros [_ (r' & Hr'%Huniq & Hn & ->)]. subst r'. simpl in Hn.
    destruct complete; [by rewrite Hn | done].
Qed.
End Reconcile.

(** * Properties *)

(** the parser of [$Bitmap] never panics, and accepts a stream exactly when
    it has the length of the 64-bit words that cover the clusters and, under the
    strict policy, every bit behind the last cluster is set. Its counts are the
    numbers of set bits before and behind the last cluster, and the query of a
    cluster returns its bit and refuses every number behind the volume. *)
Theorem ntfs_bitmap_contract n bytes policy :
  parse_bitmap_with_tail_policy n bytes policy <> Panic /\
  forall bitmap,
    (parse_bitmap_with_tail_policy n bytes policy = Ok bitmap <->
     bitmap_of n bytes bitmap /\
     (policy = RequireAllocated -> forall i, n <= i < 8 * len bytes -> bitmap_bit bytes i = true)) /\
    (bitmap_of n bytes bitmap ->
     free_clusters bitmap = Ok (n - bits_set (bitmap_bit bytes) n) /\
     forall lcn, is_allocated bitmap lcn =
       if lcn <? n then Ok (bitmap_bit bytes lcn) else Err (ClusterOutOfRange lcn n)).
Proof.
  split; [apply parse_bitmap_safe |]. intros bitmap. split; [apply parse_bitmap_iff |].
  intros Hb. destruct (bitmap_bounds n bytes bitmap Hb) as (Hn & Hm & _).
  destruct Hb as [_ _ Eb Ec Ea _ _ _]. unfold free_clusters, is_allocated, allocation. rewrite Eb, Ec, Ea.
  pose proof (bits_set_le (bitmap_bit bytes) n). split; [apply sub_u64_in; lia |]. intros lcn.
  destruct (N.ltb_spec lcn n) as [Hlt|Hge].
  - rewrite (proj2 (N.leb_gt _ _)) by done. cbn [refuse_if mbind outcome_bind].
    destruct (bit_probe (E := NtfsBitmapError) bytes lcn) as (b & mask & Hbyte & Hs & Ht); [lia |].
    rewrite usize_try_from_in
      by (rewrite shiftr_3; destruct (euclid lcn 8) as (q & ? & -> & ?); widths; unfold usize_max; lia).
    rewrite u32_try_from_in by (rewrite land_7; destruct (euclid lcn 8) as (? & ? & _ & -> & ?); widths; lia).
    cbn [ok_or mbind outcome_bind]. rewrite Hbyte. cbn [mbind outcome_bind]. rewrite Hs.
    cbn [mbind outcome_bind fmap outcome_fmap]. rewrite Ht. by destruct (bitmap_bit bytes lcn).
  - by rewrite (proj2 (N.leb_le _ _)).
Qed.

(** C35: the reconciliation of a parsed bitmap never panics, and succeeds exactly
    when the claims are within the limit, non-empty, inside the volume, pairwise
    disjoint and on allocated clusters only, and, for a complete inventory, no
    allocated cluster is left without a claim. Its report counts the allocated
    clusters that no claim explains and names the first of them. *)
Theorem ntfs_reconciliation_contract n bytes policy bitmap claims complete max_claims :
  parse_bitmap_with_tail_policy n bytes policy = Ok bitmap ->
  reconcile_allocation_claims bitmap claims complete max_claims <> Panic /\
  forall e, reconcile_allocation_claims bitmap claims complete max_claims = Ok e <->
    claims_sound n bytes claims max_claims /\
    exists r, report_of n bytes claims r /\
      (complete = true -> ar_first_unexplained_lcn r = None) /\
      e = (if complete then Complete r else IncompleteInventory r).
Proof. intros [Hb _]%parse_bitmap_iff. by apply reconcile_iff. Qed.

(** Ten clusters, of which 0, 2, 7 and 9 are allocated. *)
Definition sample_bitmap_bytes : list byte := [x85; xfe] ++ replicate 6 xff.
Example sample_bitmap_parses :
  parse_bitmap 10 sample_bitmap_bytes
  = Ok (mkNtfsBitmap sample_bitmap_bytes 10 4 (mkTailEvidence 54 54 None)).
Proof. vm_compute. reflexivity. Qed.
Example sample_reconciles :
  reconcile_allocation_claims (mkNtfsBitmap sample_bitmap_bytes 10 4 (mkTailEvidence 54 54 None))
    [mkNtfsAllocationClaim 9 1; mkNtfsAllocationClaim 0 1] false 8
  = Ok (IncompleteInventory (mkNtfsAllocationReconciliation 2 2 2 (Some 2))).
Proof. vm_compute. reflexivity. Qed.

Lemma ntfs_reconciliation_contract_witness :
  parse_bitmap_with_tail_policy 10 sample_bitmap_bytes RequireAllocated
    = Ok (mkNtfsBitmap sample_bitmap_bytes 10 4 (mkTailEvidence 54 54 None)) /\
  reconcile_allocation_claims (mkNtfsBitmap sample_bitmap_bytes 10 4 (mkTailEvidence 54 54 None))
    [mkNtfsAllocationClaim 9 1; mkNtfsAllocationClaim 0 1] false 8 <> Panic.
Proof.
  split; [vm_compute; reflexivity |].
  apply (ntfs_reconciliation_contract 10 sample_bitmap_bytes RequireAllocated).
  vm_compute. reflexivity.
Defined.
