(* ===== verification/NtfsSecurity.v ===== *)
(** * NTFS security descriptors ([fs/ntfs_security_descriptor.rs])

    The validation of a self-relative security descriptor in the supported
    profile. Nothing is rebuilt: the result only names ranges of the original
    bytes.

    The theorems: the validator never panics on any bytes, accepts exactly the
    descriptors of a declarative grammar (header, identifiers, lists whose
    entries follow one another, the permitted sharing of ranges), and every
    range it reports lies behind the header, inside the bytes and on a multiple
    of four. *)

From S2P Require Import Prelude Bytes.
From stdpp Require Import options.

#[local] Open Scope N_scope.

Definition HEADER_BYTES : N := 20.
Definition SELF_RELATIVE : N := 32768.
Definition DACL_PRESENT : N := 4.
Definition SACL_PRESENT : N := 16.

Record NtfsSecurityDescriptorLimits : Type := mkNtfsSecurityDescriptorLimits {
  sl_max_bytes : N;
  sl_max_aces : N
}.

Record NtfsSecurityRange : Type := mkNtfsSecurityRange {
  sr_offset : N;
  sr_length : N
}.
#[export] Instance NtfsSecurityRange_eq_dec : EqDecision NtfsSecurityRange.
Proof. solve_decision. Defined.

Inductive NtfsSecurityAcl : Type :=
| Absent
| Null
| Present (range : NtfsSecurityRange) (revision ace_count slack_bytes : N).

Record NtfsSecurityDescriptorValidation : Type := mkNtfsSecurityDescriptorValidation {
  sv_bytes : list byte;
  sv_control : N;
  sv_resource_manager_control : N;
  sv_owner : option NtfsSecurityRange;
  sv_group : option NtfsSecurityRange;
  sv_sacl : NtfsSecurityAcl;
  sv_dacl : NtfsSecurityAcl;
  sv_ace_count : N
}.

Inductive NtfsSecurityDescriptorError : Type :=
| ByteLimit (actual maximum : N)
| AceLimit (actual maximum : N)
| Malformed (offset : N) (reason : string)
| UnsupportedRevision (offset revision : N)
| UnsupportedAceType (offset ace_type : N)
| UnsupportedAceFlags (offset flags : N)
| UnsupportedAcePayload (offset trailing_bytes : N)
| AceInWrongAcl (offset ace_type : N)
| UnsupportedAliasing (first second : NtfsSecurityRange).

#[local] Abbreviation result := (outcome NtfsSecurityDescriptorError).

(** ** Ranges *)
Definition range_end (r : NtfsSecurityRange) : result N := add_u64 (sr_offset r) (sr_length r).
Definition overlaps (self other : NtfsSecurityRange) : result bool :=
  other_end ← range_end other;
  if sr_offset self <? other_end
  then self_end ← range_end self; Ok (sr_offset other <? self_end)
  else Ok false.

Definition range (bytes : list byte) (offset length : N) : result NtfsSecurityRange :=
  end_ ← ok_or (Malformed offset "component range overflows") (checked_add offset length);
  refuse_if (len bytes <? end_) (Malformed offset "component exceeds containing bytes") ;;
  Ok (mkNtfsSecurityRange offset length).

Definition u8_at (bytes : list byte) (offset : N) : result N :=
  b ← at_index bytes offset; Ok (Byte.to_N b).
Definition u16_at (bytes : list byte) (offset : N) : result N := read_le 2 bytes offset.
Definition u32_at (bytes : list byte) (offset : N) : result N := read_le 4 bytes offset.

Definition component_offset (bytes : list byte) (field : N) : result (option N) :=
  raw ← u32_at bytes field;
  if raw =? 0 then Ok None
  else
    offset ← ok_or (Malformed field "component offset is not representable") (usize_try_from raw);
    refuse_if ((offset <? HEADER_BYTES) || negb (offset mod 4 =? 0))
      (Malformed field "component offset is not outside the header and DWORD aligned") ;;
    component ← range bytes offset 1;
    Ok (Some offset).

(** ** Identifiers *)
Definition sid (bytes : list byte) (offset containing_end : N) : result NtfsSecurityRange :=
  header ← range bytes offset 8;
  header_end ← range_end header;
  refuse_if (containing_end <? header_end) (Malformed offset "SID header exceeds enclosing ACE") ;;
  revision ← u8_at bytes offset;
  refuse_if (negb (revision =? 1)) (UnsupportedRevision offset revision) ;;
  count_offset ← add_u64 offset 1;
  count ← u8_at bytes count_offset;
  refuse_if (15 <? count) (Malformed count_offset "SID has more than 15 subauthorities") ;;
  r ← range bytes offset (8 + count * 4);
  r_end ← range_end r;
  refuse_if (containing_end <? r_end) (Malformed offset "SID subauthorities exceed enclosing ACE") ;;
  Ok r.

(** ** Lists *)
Record ParsedAcl : Type := mkParsedAcl {
  pa_evidence : NtfsSecurityAcl;
  pa_range : option NtfsSecurityRange;
  pa_ace_sids : list NtfsSecurityRange
}.

Definition ace (bytes : list byte) (cursor acl_end : N) (is_sacl : bool)
    : result (NtfsSecurityRange * NtfsSecurityRange) :=
  header ← range bytes cursor 4;
  header_end ← range_end header;
  refuse_if (acl_end <? header_end) (Malformed cursor "ACE header exceeds ACL") ;;
  ace_type ← u8_at bytes cursor;
  flags_offset ← add_u64 cursor 1;
  flags ← u8_at bytes flags_offset;
  size_offset ← add_u64 cursor 2;
  ace_bytes ← u16_at bytes size_offset;
  refuse_if ((ace_bytes <? 16) || negb (ace_bytes mod 4 =? 0))
    (Malformed size_offset "ACE size cannot contain a SID or is unaligned") ;;
  ace_range ← range bytes cursor ace_bytes;
  ace_end ← range_end ace_range;
  refuse_if (acl_end <? ace_end) (Malformed cursor "ACE exceeds declared ACL") ;;
  refuse_if (negb (ace_type <=? 2)) (UnsupportedAceType cursor ace_type) ;;
  refuse_if (negb (Bool.eqb is_sacl (ace_type =? 2))) (AceInWrongAcl cursor ace_type) ;;
  let known_flags := if ace_type =? 2 then 223 else 31 in
  refuse_if (negb (N.land flags (N.lxor known_flags u8_max) =? 0))
    (UnsupportedAceFlags flags_offset flags) ;;
  sid_offset ← add_u64 cursor 8;
  trustee ← sid bytes sid_offset ace_end;
  trustee_end ← range_end trustee;
  (if negb (trustee_end =? ace_end)
   then trailing_bytes ← sub_u64 ace_end trustee_end;
        Err (UnsupportedAcePayload cursor trailing_bytes)
   else Ok tt) ;;
  Ok (ace_range, trustee).

Definition next_ace (bytes : list byte) (acl_end : N) (is_sacl : bool)
    (state : N * list NtfsSecurityRange) (_ : N) : result (N * list NtfsSecurityRange) :=
  let '(cursor, ace_sids) := state in
  entry ← ace bytes cursor acl_end is_sacl;
  cursor ← range_end entry.1;
  Ok (cursor, ace_sids ++ [entry.2]).

(** [total_aces] is the counter that both lists share. *)
Definition acl (bytes : list byte) (offset : option N) (present is_sacl : bool)
    (limits : NtfsSecurityDescriptorLimits) (total_aces : N) : result (ParsedAcl * N) :=
  match offset with
  | None => Ok (mkParsedAcl (if present then Null else Absent) None [], total_aces)
  | Some offset =>
      refuse_if (negb present)
        (Malformed offset "ACL offset is nonzero without its PRESENT flag") ;;
      header ← range bytes offset 8;
      revision ← u8_at bytes offset;
      refuse_if (negb ((revision =? 2) || (revision =? 4))) (UnsupportedRevision offset revision) ;;
      sbz1_offset ← add_u64 offset 1;
      sbz1 ← u8_at bytes sbz1_offset;
      (if negb (sbz1 =? 0) then Err (Malformed offset "ACL reserved fields must be zero")
       else
         sbz2_offset ← add_u64 offset 6;
         sbz2 ← u16_at bytes sbz2_offset;
         refuse_if (negb (sbz2 =? 0)) (Malformed offset "ACL reserved fields must be zero")) ;;
      size_offset ← add_u64 offset 2;
      length ← u16_at bytes size_offset;
      refuse_if ((length <? 8) || negb (length mod 4 =? 0))
        (Malformed size_offset "ACL size must include its header and be DWORD aligned") ;;
      acl_range ← range bytes offset length;
      count_offset ← add_u64 offset 4;
      count ← u16_at bytes count_offset;
      total_aces ← ok_or (Malformed count_offset "aggregate ACE count overflows")
        (checked_add total_aces count);
      refuse_if (sl_max_aces limits <? total_aces) (AceLimit total_aces (sl_max_aces limits)) ;;
      refuse_if ((length - 8) / 4 <? count)
        (Malformed count_offset "ACE count cannot fit in declared ACL") ;;
      cursor ← add_u64 offset 8;
      acl_end ← range_end acl_range;
      state ← try_fold (next_ace bytes acl_end is_sacl) (cursor, []) (indices count);
      slack_bytes ← sub_u64 acl_end state.1;
      Ok (mkParsedAcl (Present acl_range revision count slack_bytes) (Some acl_range) state.2, total_aces)
  end.

(** ** Sharing of ranges *)
Definition check_pair (pair : option NtfsSecurityRange * option NtfsSecurityRange) : result unit :=
  match pair with
  | (Some first, Some second) =>
      o ← overlaps first second;
      refuse_if (o && negb (bool_decide (first = second))) (UnsupportedAliasing first second)
  | _ => Ok tt
  end.
Definition check_sid (sid_range : NtfsSecurityRange) (parsed : ParsedAcl) : result unit :=
  match pa_range parsed with
  | None => Ok tt
  | Some acl_range =>
      o ← overlaps sid_range acl_range;
      refuse_if (o && negb (bool_decide (sid_range ∈ pa_ace_sids parsed)))
        (UnsupportedAliasing sid_range acl_range)
  end.
Definition validate_aliasing (owner group : option NtfsSecurityRange) (sacl dacl : ParsedAcl)
    : result unit :=
  for_each check_pair [(owner, group); (pa_range sacl, pa_range dacl)] ;;
  for_each (fun sid_range => for_each (check_sid sid_range) [sacl; dacl])
    (option_list owner ++ option_list group).

(** [component_offset(..)?.map(|offset| sid(..)).transpose()?]. *)
Definition optional_sid (bytes : list byte) (field : N) : result (option NtfsSecurityRange) :=
  offset ← component_offset bytes field;
  match offset with
  | None => Ok None
  | Some offset => r ← sid bytes offset (len bytes); Ok (Some r)
  end.

Definition validate_ntfs_security_descriptor (bytes : list byte) (limits : NtfsSecurityDescriptorLimits)
    : result NtfsSecurityDescriptorValidation :=
  refuse_if (sl_max_bytes limits <? len bytes) (ByteLimit (len bytes) (sl_max_bytes limits)) ;;
  header ← range bytes 0 HEADER_BYTES;
  revision ← u8_at bytes 0;
  refuse_if (negb (revision =? 1)) (UnsupportedRevision 0 revision) ;;
  control ← u16_at bytes 2;
  refuse_if (N.land control SELF_RELATIVE =? 0) (Malformed 2 "SELF_RELATIVE flag is required") ;;
  owner ← optional_sid bytes 4;
  group ← optional_sid bytes 8;
  sacl_offset ← component_offset bytes 12;
  sacl ← acl bytes sacl_offset (negb (N.land control SACL_PRESENT =? 0)) true limits 0;
  dacl_offset ← component_offset bytes 16;
  dacl ← acl bytes dacl_offset (negb (N.land control DACL_PRESENT =? 0)) false limits sacl.2;
  validate_aliasing owner group sacl.1 dacl.1 ;;
  resource_manager_control ← u8_at bytes 1;
  Ok (mkNtfsSecurityDescriptorValidation bytes control resource_manager_control owner group
    (pa_evidence sacl.1) (pa_evidence dacl.1) dacl.2).

(** ** Specification *)
Section Spec.
Variable bytes : list byte.

(** A security identifier between an offset and a bound. *)
Record sid_of (offset bound : N) (r : NtfsSecurityRange) : Prop := {
  so_header : offset + 8 <= bound;
  so_revision : field 1 bytes offset = 1;
  so_count : field 1 bytes (offset + 1) <= 15;
  so_range : r = mkNtfsSecurityRange offset (8 + field 1 bytes (offset + 1) * 4);
  so_inside : sr_offset r + sr_length r <= bound
}.

(** The flags that an entry of a type may carry. *)
Definition known_flags (ace_type : N) : N := if ace_type =? 2 then 223 else 31.

(** An entry and its identifier, which fills the entry to its end. *)
Record ace_of (cursor acl_end : N) (is_sacl : bool) (r trustee : NtfsSecurityRange) : Prop := {
  ao_range : r = mkNtfsSecurityRange cursor (field 2 bytes (cursor + 2));
  ao_size : 16 <= sr_length r /\ sr_length r mod 4 = 0;
  ao_inside : cursor + sr_length r <= acl_end;
  ao_type : field 1 bytes cursor <= 2 /\ is_sacl = (field 1 bytes cursor =? 2);
  ao_flags : N.land (field 1 bytes (cursor + 1)) (N.lxor (known_flags (field 1 bytes cursor)) u8_max) = 0;
  ao_trustee : sid_of (cursor + 8) (cursor + sr_length r) trustee;
  ao_exact : sr_offset trustee + sr_length trustee = cursor + sr_length r
}.

(** Entries that follow one another from [start]. *)
Inductive aces (acl_end : N) (is_sacl : bool) (start : N) : list NtfsSecurityRange -> N -> Prop :=
| aces_none : aces acl_end is_sacl start [] start
| aces_next sids cursor r trustee :
    aces acl_end is_sacl start sids cursor -> ace_of cursor acl_end is_sacl r trustee ->
    aces acl_end is_sacl start (sids ++ [trustee]) (cursor + sr_length r).

(** A list component; [before] and [after] count the entries of both lists. *)
Inductive acl_of (max_aces : N) (present is_sacl : bool) (before : N) :
    option N -> ParsedAcl -> N -> Prop :=
| acl_missing :
    acl_of max_aces present is_sacl before None
      (mkParsedAcl (if present then Null else Absent) None []) before
| acl_present offset sids cursor :
    let size := field 2 bytes (offset + 2) in
    let count := field 2 bytes (offset + 4) in
    let revision := field 1 bytes offset in
    present = true -> offset + 8 <= len bytes ->
    revision = 2 \/ revision = 4 ->
    field 1 bytes (offset + 1) = 0 -> field 2 bytes (offset + 6) = 0 ->
    8 <= size -> size mod 4 = 0 -> offset + size <= len bytes ->
    before + count <= max_aces -> before + count <= u64_max -> count <= (size - 8) / 4 ->
    aces (offset + size) is_sacl (offset + 8) sids cursor -> len sids = count ->
    acl_of max_aces present is_sacl before (Some offset)
      (mkParsedAcl (Present (mkNtfsSecurityRange offset size) revision count (offset + size - cursor))
         (Some (mkNtfsSecurityRange offset size)) sids) (before + count).

(** The offset of a component: zero, or a multiple of four behind the header. *)
Definition offset_of (at_ : N) (offset : option N) : Prop :=
  match offset with
  | None => field 4 bytes at_ = 0
  | Some o => field 4 bytes at_ = o /\ HEADER_BYTES <= o /\ o mod 4 = 0 /\ o < len bytes
  end.
Definition optional_sid_of (at_ : N) (r : option NtfsSecurityRange) : Prop :=
  match r with
  | None => offset_of at_ None
  | Some r => offset_of at_ (Some (sr_offset r)) /\ sid_of (sr_offset r) (len bytes) r
  end.
End Spec.

Definition overlapping (a b : NtfsSecurityRange) : Prop :=
  sr_offset a < sr_offset b + sr_length b /\ sr_offset b < sr_offset a + sr_length a.
(** Two optional components are apart or the same range. *)
Definition may_share (a b : option NtfsSecurityRange) : Prop :=
  forall x y, a = Some x -> b = Some y -> overlapping x y -> x = y.
(** An identifier is outside the list or the identifier of one of its entries. *)
Definition sid_outside (r : option NtfsSecurityRange) (parsed : ParsedAcl) : Prop :=
  forall x y, r = Some x -> pa_range parsed = Some y -> overlapping x y -> x ∈ pa_ace_sids parsed.

Record descriptor_of (bytes : list byte) (limits : NtfsSecurityDescriptorLimits)
    (v : NtfsSecurityDescriptorValidation) : Prop := {
  do_size : HEADER_BYTES <= len bytes <= sl_max_bytes limits;
  do_bytes : sv_bytes v = bytes;
  do_revision : field 1 bytes 0 = 1;
  do_control : sv_control v = field 2 bytes 2;
  do_relative : N.land (sv_control v) SELF_RELATIVE <> 0;
  do_manager : sv_resource_manager_control v = field 1 bytes 1;
  do_owner : optional_sid_of bytes 4 (sv_owner v);
  do_group : optional_sid_of bytes 8 (sv_group v);
  do_lists : exists sacl_offset dacl_offset sacl dacl total,
    offset_of bytes 12 sacl_offset /\
    acl_of bytes (sl_max_aces limits) (negb (N.land (sv_control v) SACL_PRESENT =? 0)) true 0
      sacl_offset sacl total /\
    offset_of bytes 16 dacl_offset /\
    acl_of bytes (sl_max_aces limits) (negb (N.land (sv_control v) DACL_PRESENT =? 0)) false total
      dacl_offset dacl (sv_ace_count v) /\
    sv_sacl v = pa_evidence sacl /\ sv_dacl v = pa_evidence dacl /\
    may_share (sv_owner v) (sv_group v) /\ may_share (pa_range sacl) (pa_range dacl) /\
    sid_outside (sv_owner v) sacl /\ sid_outside (sv_owner v) dacl /\
    sid_outside (sv_group v) sacl /\ sid_outside (sv_group v) dacl
}.

(** * Lemmas *)
Section Components.
Variable bytes : list byte.
Hypothesis Hlen : len bytes <= u64_max.

Lemma range_Ok offset length r :
  range bytes offset length = Ok r <->
  r = mkNtfsSecurityRange offset length /\ offset + length <= len bytes.
Proof using Hlen.
  unfold range. split.
  - intros H. inv_ok. by bool_props.
  - intros [-> Hr]. ok_step. ok_step. done.
Qed.
Lemma range_safe offset length : range bytes offset length <> Panic.
Proof using Hlen. unfold range. safe. Qed.
Lemma range_end_in r : sr_offset r + sr_length r <= len bytes -> range_end r = Ok (sr_offset r + sr_length r).
Proof using Hlen. intros. unfold range_end. apply add_u64_in. lia. Qed.

Lemma u8_at_in offset : offset < len bytes -> u8_at bytes offset = Ok (field 1 bytes offset).
Proof using Hlen.
  intros Ho. unfold u8_at, at_index, field.
  destruct (lookup_lt_is_Some_2 bytes (N.to_nat offset)) as [b Hb]; [unfold len in Ho; lia |].
  rewrite Hb. cbn [expect mbind outcome_bind].
  assert (subslice offset (offset + N.of_nat 1) bytes = [b]) as ->; [|f_equal; simpl; lia].
  apply split_at in Hb as (pre & rest & -> & ->). change (b :: rest) with ([b] ++ rest).
  apply subslice_middle; done.
Qed.
Lemma u16_at_in offset : offset + 2 <= len bytes -> u16_at bytes offset = Ok (field 2 bytes offset).
Proof using Hlen. intros. apply read_le_in. lia. Qed.
Lemma u32_at_in offset : offset + 4 <= len bytes -> u32_at bytes offset = Ok (field 4 bytes offset).
Proof using Hlen. intros. apply read_le_in. lia. Qed.

(** [run] executes the next read of a computation over an accepted range. *)
Ltac run :=
  match goal with
  | |- context [range bytes ?o ?n ≫= _] =>
      rewrite (proj2 (range_Ok o n (mkNtfsSecurityRange o n))) by (split; [done | lia])
  | |- context [range_end ?r ≫= _] => rewrite (range_end_in r) by (simpl; lia)
  | |- context [add_u64 ?a ?b ≫= _] => rewrite (add_u64_in a b) by lia
  | |- context [u8_at bytes ?o ≫= _] => rewrite (u8_at_in o) by lia
  | |- context [u16_at bytes ?o ≫= _] => rewrite (u16_at_in o) by lia
  | |- context [u32_at bytes ?o ≫= _] => rewrite (u32_at_in o) by lia
  end; cbn [mbind outcome_bind sr_offset sr_length].

(** A range that does not fit ends the computation with an error. *)
Lemma range_or offset length :
  range bytes offset length = Ok (mkNtfsSecurityRange offset length) /\ offset + length <= len bytes \/
  (exists e, range bytes offset length = Err e) /\ len bytes < offset + length.
Proof using Hlen.
  destruct (range bytes offset length) as [r|e|] eqn:He.
  - apply range_Ok in He as [-> ?]. by left.
  - right. split; [eauto |]. apply N.lt_nge. intros Hr.
    rewrite (proj2 (range_Ok offset length (mkNtfsSecurityRange offset length))) in He by done. done.
  - by apply range_safe in He.
Qed.
Lemma sid_spec offset bound :
  bound <= len bytes ->
  sid bytes offset bound <> Panic /\
  forall r, sid bytes offset bound = Ok r <-> sid_of bytes offset bound r.
Proof using Hlen.
  intros Hb. unfold sid. destruct (range_or offset 8) as [[-> H8]|[[e ->] H8]]; cbn [mbind outcome_bind].
  2: { split; [done |]. intros r. split; [done |]. intros [H _ _ _ _]. lia. }
  repeat run. rewrite refuse_or. destruct (N.ltb_spec bound (offset + 8)) as [H1|H1].
  { split; [done |]. intros r. split; [done |]. intros [H _ _ _ _]. lia. }
  repeat run. rewrite refuse_or. destruct (N.eqb_spec (field 1 bytes offset) 1) as [H2|H2]; cbn [negb].
  2: { split; [done |]. intros r. split; [done |]. by intros [_ H _ _ _]. }
  repeat run. rewrite refuse_or. destruct (N.ltb_spec 15 (field 1 bytes (offset + 1))) as [H3|H3].
  { split; [done |]. intros r. split; [done |]. intros [_ _ H _ _]. lia. }
  set (n := 8 + field 1 bytes (offset + 1) * 4).
  destruct (range_or offset n) as [[-> H4]|[[e ->] H4]]; cbn [mbind outcome_bind].
  2: { split; [done |]. intros r. split; [done |]. intros [_ _ _ -> H]. simpl in H. fold n in H. lia. }
  repeat run. rewrite refuse_or. destruct (N.ltb_spec bound (offset + n)) as [H5|H5].
  { split; [done |]. intros r. split; [done |]. intros [_ _ _ -> H]. simpl in H. fold n in H. lia. }
  split; [done |]. intros r. split; [intros [= <-]; by split | by intros [_ _ _ -> _]].
Qed.

Lemma ace_spec cursor acl_end is_sacl :
  acl_end <= len bytes ->
  ace bytes cursor acl_end is_sacl <> Panic /\
  forall r t, ace bytes cursor acl_end is_sacl = Ok (r, t) <-> ace_of bytes cursor acl_end is_sacl r t.
Proof using Hlen.
  intros Hb. unfold ace. destruct (range_or cursor 4) as [[-> H4]|[[e ->] H4]]; cbn [mbind outcome_bind].
  2: { split; [done |]. intros r t. split; [done |]. intros [-> [H _] Hi _ _ _ _]. simpl in *. lia. }
  repeat run. rewrite refuse_or. destruct (N.ltb_spec acl_end (cursor + 4)) as [H1|H1].
  { split; [done |]. intros r t. split; [done |]. intros [-> [H _] Hi _ _ _ _]. simpl in *. lia. }
  repeat run. set (size := field 2 bytes (cursor + 2)). rewrite refuse_or.
  destruct ((size <? 16) || negb (size mod 4 =? 0)) eqn:H2.
  { split; [done |]. intros r t. split; [done |]. intros [-> [H H'] _ _ _ _ _]. simpl in *. fold size in H, H'.
    apply orb_true_iff in H2 as [H2%N.ltb_lt|H2]; [lia |]. apply negb_true_iff, N.eqb_neq in H2. done. }
  apply orb_false_iff in H2 as [Hs%N.ltb_ge Hm]. apply negb_false_iff, N.eqb_eq in Hm.
  destruct (range_or cursor size) as [[-> H3]|[[e ->] H3]]; cbn [mbind outcome_bind].
  2: { split; [done |]. intros r t. split; [done |]. intros [-> _ Hi _ _ _ _]. simpl in *. fold size in Hi. lia. }
  repeat run. rewrite refuse_or. destruct (N.ltb_spec acl_end (cursor + size)) as [H5|H5].
  { split; [done |]. intros r t. split; [done |]. intros [-> _ Hi _ _ _ _]. simpl in *. fold size in Hi. lia. }
  rewrite refuse_or. destruct (N.leb_spec (field 1 bytes cursor) 2) as [H6|H6]; cbn [negb].
  2: { split; [done |]. intros r t. split; [done |]. intros [_ _ _ [H _] _ _ _]. lia. }
  rewrite refuse_or. destruct (Bool.eqb is_sacl (field 1 bytes cursor =? 2)) eqn:H7; cbn [negb].
  2: { split; [done |]. intros r t. split; [done |]. intros [_ _ _ [_ ->] _ _ _]. by rewrite eqb_reflx in H7. }
  apply eqb_prop in H7. rewrite refuse_or. fold (known_flags (field 1 bytes cursor)).
  destruct (N.eqb_spec (N.land (field 1 bytes (cursor + 1)) (N.lxor (known_flags (field 1 bytes cursor)) u8_max)) 0)
    as [H8|H8]; cbn [negb].
  2: { split; [done |]. intros r t. split; [done |]. by intros [_ _ _ _ H _ _]. }
  repeat run. destruct (sid_spec (cursor + 8) (cursor + size)) as [Hsafe Hsid]; [lia |].
  destruct (sid bytes (cursor + 8) (cursor + size)) as [t0|e|] eqn:Ht; cbn [mbind outcome_bind]; [| |done].
  2: { split; [done |]. intros r t. split; [done |]. intros [-> _ _ _ _ H _]. simpl in H. fold size in H.
    apply Hsid in H. done. }
  pose proof (proj1 (Hsid t0) eq_refl) as Hof. assert (Hte : sr_offset t0 + sr_length t0 <= cursor + size) by apply Hof.
  repeat run. destruct (N.eqb_spec (sr_offset t0 + sr_length t0) (cursor + size)) as [H9|H9]; cbn [negb].
  - cbn [mbind outcome_bind]. split; [done |]. intros r t. split.
    + intros [= <- <-]. by split.
    + intros [-> _ _ _ _ H _]. simpl in H. fold size in H |- *. apply Hsid in H. by injection H as ->.
  - rewrite sub_u64_in by lia. cbn [mbind outcome_bind]. split; [done |]. intros r t. split; [done |].
    intros [-> _ _ _ _ H He]. simpl in H, He. fold size in H, He. apply Hsid in H. injection H as ->. done.
Qed.

Lemma ace_inside cursor acl_end is_sacl r t :
  acl_end <= len bytes -> ace_of bytes cursor acl_end is_sacl r t ->
  sr_offset r = cursor /\ cursor + sr_length r <= len bytes.
Proof using Hlen. intros Hb [-> _ Hi _ _ _ _]. simpl in *. lia. Qed.

Lemma aces_spec acl_end is_sacl start count :
  acl_end <= len bytes ->
  try_fold (next_ace bytes acl_end is_sacl) (start, []) (indices count) <> Panic /\
  forall cursor sids,
    try_fold (next_ace bytes acl_end is_sacl) (start, []) (indices count) = Ok (cursor, sids) <->
    aces bytes acl_end is_sacl start sids cursor /\ len sids = count.
Proof using Hlen.
  intros Hb. induction count as [|count [IHs IH]] using N.peano_ind.
  { split; [done |]. intros cursor sids. cbn. split.
    - intros [= <- <-]. split; [constructor | done].
    - intros [Ha Hl]. destruct Ha as [|sids cursor r t]; [done |]. rewrite len_app, len_cons in Hl. lia. }
  rewrite <- N.add_1_r, indices_succ, try_fold_app.
  assert (Hstep : forall c l, next_ace bytes acl_end is_sacl (c, l) count <> Panic /\
    forall c' l', next_ace bytes acl_end is_sacl (c, l) count = Ok (c', l') <->
      exists r t, ace_of bytes c acl_end is_sacl r t /\ c' = c + sr_length r /\ l' = l ++ [t]).
  { intros c l. unfold next_ace. destruct (ace_spec c acl_end is_sacl Hb) as [Hs Ha].
    destruct (ace bytes c acl_end is_sacl) as [[r t]|e|] eqn:He; cbn [mbind outcome_bind fst snd]; [| |done].
    - pose proof (proj1 (Ha r t) eq_refl) as Hof. destruct (ace_inside _ _ _ _ _ Hb Hof) as [Ho Hi].
      rewrite range_end_in by (rewrite Ho; done). cbn [mbind outcome_bind]. rewrite Ho.
      split; [done |]. intros c' l'. split; [intros [= <- <-]; eauto |].
      intros (r' & t' & H%Ha & -> & ->). injection H as -> ->. done.
    - split; [done |]. intros c' l'. split; [done |]. intros (r & t & H%Ha & _). done. }
  split.
  - apply bind_safe; [done |]. intros [c l] _. simpl. destruct (Hstep c l) as [Hs _].
    apply bind_safe; [exact Hs | done].
  - intros cursor sids. rewrite bind_Ok. split.
    + intros ([c l] & [Ha Hl]%IH & H). simpl in H. apply bind_Ok in H as ([c' l'] & H & [= <- <-]).
      apply (proj2 (Hstep c l)) in H as (r & t & Hr & -> & ->). split; [by econstructor |].
      rewrite len_app, len_cons, len_nil. lia.
    + intros [Ha Hl]. destruct Ha as [|sids cursor r t Ha Hr]; [rewrite len_nil in Hl; lia |].
      exists (cursor, sids). split.
      * apply IH. split; [done |]. rewrite len_app, len_cons, len_nil in Hl. lia.
      * cbn [try_fold]. apply (bind_step _ _ (cursor + sr_length r, sids ++ [t])); [|done].
        apply Hstep. eauto.
Qed.
Lemma aces_bound acl_end is_sacl start sids cursor :
  acl_end <= len bytes -> start <= acl_end -> aces bytes acl_end is_sacl start sids cursor -> cursor <= acl_end.
Proof using Hlen. intros Hb Hs Ha. induction Ha as [|sids c r t Ha IH [-> _ Hi _ _ _ _]]; [done |]. exact Hi. Qed.
Lemma aces_functional acl_end is_sacl start count sids sids' cursor cursor' :
  acl_end <= len bytes ->
  aces bytes acl_end is_sacl start sids cursor -> len sids = count ->
  aces bytes acl_end is_sacl start sids' cursor' -> len sids' = count -> sids = sids' /\ cursor = cursor'.
Proof using Hlen.
  intros Hb H1 L1 H2 L2. destruct (aces_spec acl_end is_sacl start count Hb) as [_ Ha].
  pose proof (proj2 (Ha cursor sids) (conj H1 L1)) as E1. pose proof (proj2 (Ha cursor' sids') (conj H2 L2)) as E2.
  rewrite E1 in E2. by injection E2 as -> ->.
Qed.

Lemma acl_spec offset present is_sacl limits total :
  acl bytes offset present is_sacl limits total <> Panic /\
  forall p after, acl bytes offset present is_sacl limits total = Ok (p, after) <->
    acl_of bytes (sl_max_aces limits) present is_sacl total offset p after.
Proof using Hlen.
  unfold acl. destruct offset as [offset|].
  2: { split; [done |]. intros p after. split; [intros [= <- <-]; constructor | inversion 1; by subst]. }
  rewrite refuse_or. destruct present; cbn [negb].
  2: { split; [done |]. intros p after. split; [done |]. inversion 1; subst. done. }
  destruct (range_or offset 8) as [[-> H8]|[[e ->] H8]]; cbn [mbind outcome_bind].
  2: { split; [done |]. intros p after. split; [done |]. inversion 1; subst. lia. }
  repeat run. set (revision := field 1 bytes offset). rewrite refuse_or.
  destruct ((revision =? 2) || (revision =? 4)) eqn:H1; cbn [negb].
  2: { split; [done |]. intros p after. split; [done |]. inversion 1; subst. subst revision revision0.
    apply orb_false_iff in H1 as [H1 H1']. apply N.eqb_neq in H1, H1'. tauto. }
  assert (Hrev : revision = 2 \/ revision = 4)
    by (apply orb_true_iff in H1 as [H1|H1]; apply N.eqb_eq in H1; auto).
  destruct (N.eqb_spec (field 1 bytes (offset + 1)) 0) as [H2|H2]; cbn [negb mbind outcome_bind].
  2: { split; [done |]. intros p after. split; [done |]. inversion 1; subst. done. }
  repeat run. rewrite refuse_or. destruct (N.eqb_spec (field 2 bytes (offset + 6)) 0) as [H3|H3]; cbn [negb].
  2: { split; [done |]. intros p after. split; [done |]. inversion 1; subst. done. }
  repeat run. set (size := field 2 bytes (offset + 2)). rewrite refuse_or.
  destruct ((size <? 8) || negb (size mod 4 =? 0)) eqn:H4.
  { split; [done |]. intros p after. split; [done |]. inversion 1; subst. subst size size0.
    apply orb_true_iff in H4 as [H4%N.ltb_lt|H4]; [lia |]. apply negb_true_iff, N.eqb_neq in H4. done. }
  apply orb_false_iff in H4 as [Hs%N.ltb_ge Hm]. apply negb_false_iff, N.eqb_eq in Hm.
  destruct (range_or offset size) as [[-> H5]|[[e ->] H5]]; cbn [mbind outcome_bind].
  2: { split; [done |]. intros p after. split; [done |]. inversion 1; subst. subst size size0. lia. }
  repeat run. set (count := field 2 bytes (offset + 4)).
  destruct (checked_add total count) as [sum|] eqn:Hsum; cbn [ok_or mbind outcome_bind].
  2: { split; [done |]. intros p after. split; [done |]. inversion 1; subst. subst count count0.
    apply checked_add_None in Hsum. lia. }
  apply checked_add_Some in Hsum as [-> Hsum]. rewrite refuse_or.
  destruct (N.ltb_spec (sl_max_aces limits) (total + count)) as [H6|H6].
  { split; [done |]. intros p after. split; [done |]. inversion 1; subst. subst count count0. lia. }
  rewrite refuse_or. destruct (N.ltb_spec ((size - 8) / 4) count) as [H7|H7].
  { split; [done |]. intros p after. split; [done |]. inversion 1; subst. subst count count0 size size0. lia. }
  repeat run. destruct (aces_spec (offset + size) is_sacl (offset + 8) count H5) as [Hsafe Ha].
  destruct (try_fold _ _ _) as [[cursor sids]|e|] eqn:Hf; cbn [mbind outcome_bind fst snd]; [| |done].
  - destruct (proj1 (Ha cursor sids) eq_refl) as [Hc Hl].
    pose proof (aces_bound (offset + size) is_sacl (offset + 8) sids cursor H5 ltac:(lia) Hc) as Hcur. rewrite sub_u64_in by done.
    cbn [mbind outcome_bind]. split; [done |]. intros p after. split.
    + intros [= <- <-]. by constructor.
    + inversion 1 as [|offset' sids' cursor' ? ? ? ? ? ? ? ? ? ? ? ? ? ? Ha' Hl']; subst.
      destruct (aces_functional _ _ _ count _ _ _ _ H5 Hc Hl Ha' Hl') as [-> ->]. reflexivity.
  - split; [done |]. intros p after. split; [done |]. inversion 1; subst. subst size0 count0.
    match goal with Hx : aces _ _ _ _ _ _, Hy : len _ = _ |- _ =>
      pose proof (proj2 (Ha _ _) (conj Hx Hy)); done end.
Qed.

Lemma component_offset_spec at_ :
  at_ + 4 <= HEADER_BYTES -> HEADER_BYTES <= len bytes ->
  component_offset bytes at_ <> Panic /\
  forall o, component_offset bytes at_ = Ok o <-> offset_of bytes at_ o.
Proof using Hlen.
  intros Hat Hh. unfold component_offset. repeat run.
  destruct (N.eqb_spec (field 4 bytes at_) 0) as [H0|H0].
  { split; [done |]. intros [o|]; simpl; [|done]. split; [done |]. unfold HEADER_BYTES. intros (<- & ? & _). lia. }
  pose proof (field_bound 4 bytes at_) as Hb. change (256 ^ N.of_nat 4) with 4294967296 in Hb.
  rewrite usize_try_from_in by (widths; unfold usize_max; lia). cbn [ok_or mbind outcome_bind]. rewrite refuse_or.
  set (o := field 4 bytes at_) in *.
  destruct ((o <? HEADER_BYTES) || negb (o mod 4 =? 0)) eqn:H1.
  { split; [done |]. intros [x|]; simpl; [|done]. split; [done |]. fold o. intros (<- & H2 & H3 & _).
    apply orb_true_iff in H1 as [H1%N.ltb_lt|H1]; [lia |]. by apply negb_true_iff, N.eqb_neq in H1. }
  apply orb_false_iff in H1 as [H1%N.ltb_ge H2]. apply negb_false_iff, N.eqb_eq in H2.
  destruct (range_or o 1) as [[-> H3]|[[e ->] H3]]; cbn [mbind outcome_bind].
  - split; [done |]. intros [x|]; simpl; fold o; [|done]. split; [intros [= <-]; split_and!; try done; lia |].
    by intros (<- & _).
  - split; [done |]. intros [x|]; simpl; fold o; [|done]. split; [done |]. intros (<- & _ & _ & ?). lia.
Qed.
Lemma optional_sid_spec at_ :
  at_ + 4 <= HEADER_BYTES -> HEADER_BYTES <= len bytes ->
  optional_sid bytes at_ <> Panic /\
  forall r, optional_sid bytes at_ = Ok r <-> optional_sid_of bytes at_ r.
Proof using Hlen.
  intros Hat Hh. unfold optional_sid. destruct (component_offset_spec at_ Hat Hh) as [Hs Ho].
  destruct (component_offset bytes at_) as [[o|]|e|] eqn:He; cbn [mbind outcome_bind]; [| | |done].
  - destruct (sid_spec o (len bytes)) as [Hss Hsid]; [lia |].
    pose proof (proj1 (Ho (Some o)) eq_refl) as Hof.
    destruct (sid bytes o (len bytes)) as [r0|e|] eqn:Hr; cbn [mbind outcome_bind]; [| |done].
    + pose proof (proj1 (Hsid r0) eq_refl) as Hr0. split; [done |]. intros r. split.
      * intros [= <-]. simpl. assert (sr_offset r0 = o) as -> by (destruct Hr0 as [_ _ _ -> _]; done). done.
      * destruct r as [r|]; simpl; [|intros H; apply (Ho None) in H; done].
        intros [Hoff Hrs]. apply (Ho (Some (sr_offset r))) in Hoff. injection Hoff as Hoff. rewrite <- Hoff in Hrs.
        apply Hsid in Hrs. by injection Hrs as ->.
    + split; [done |]. intros [r|]; simpl; (split; [done |]).
      * intros [Hoff Hrs]. apply (Ho (Some (sr_offset r))) in Hoff. injection Hoff as Hoff. rewrite <- Hoff in Hrs. by apply Hsid in Hrs.
      * intros H. by apply (Ho None) in H.
  - split; [done |]. intros [r|]; simpl; [|by rewrite <- (Ho None)].
    split; [done |]. intros [H _]. by apply (Ho (Some (sr_offset r))) in H.
  - split; [done |]. intros [r|]; simpl; (split; [done |]).
    + intros [H _]. by apply (Ho (Some (sr_offset r))) in H.
    + intros H. by apply (Ho None) in H.
Qed.
End Components.

(** ** Sharing *)
Section Sharing.
Variable size : N.
Hypothesis Hsize : size <= u64_max.
Definition inside (r : NtfsSecurityRange) : Prop := sr_offset r + sr_length r <= size.

Lemma range_overlaps_Ok a b : inside a -> inside b ->
  exists o, overlaps a b = Ok o /\ (o = true <-> overlapping a b).
Proof using Hsize.
  unfold inside, overlaps, overlapping, range_end. intros Ha Hb.
  rewrite !add_u64_in by lia. cbn [mbind outcome_bind].
  destruct (N.ltb (sr_offset a) (sr_offset b + sr_length b)) eqn:He.
  - apply N.ltb_lt in He. eexists. split; [reflexivity |]. rewrite N.ltb_lt. tauto.
  - apply N.ltb_ge in He. exists false. split; [done |]. split; [done | lia].
Qed.
Lemma check_pair_spec a b :
  (forall x, a = Some x -> inside x) -> (forall x, b = Some x -> inside x) ->
  check_pair (a, b) <> Panic /\ (check_pair (a, b) = Ok tt <-> may_share a b).
Proof using Hsize.
  intros Ha Hb. unfold check_pair, may_share. destruct a as [a|], b as [b|]; try (split; [done | naive_solver]).
  destruct (range_overlaps_Ok a b (Ha a eq_refl) (Hb b eq_refl)) as (o & -> & Ho). cbn [mbind outcome_bind].
  split; [apply refuse_if_safe |]. rewrite refuse_if_Ok, andb_false_iff, negb_false_iff, bool_decide_eq_true.
  split.
  - intros Hx x y [= <-] [= <-] Hov%Ho. destruct Hx; congruence.
  - intros Hx. destruct o; [right; apply (Hx a b eq_refl eq_refl); by apply Ho | by left].
Qed.
Lemma check_sid_spec x parsed :
  inside x -> (forall y, pa_range parsed = Some y -> inside y) ->
  check_sid x parsed <> Panic /\ (check_sid x parsed = Ok tt <-> sid_outside (Some x) parsed).
Proof using Hsize.
  intros Hx Hp. unfold check_sid, sid_outside. destruct (pa_range parsed) as [y|]; [|split; [done | naive_solver]].
  destruct (range_overlaps_Ok x y Hx (Hp y eq_refl)) as (o & -> & Ho). cbn [mbind outcome_bind].
  split; [apply refuse_if_safe |]. rewrite refuse_if_Ok, andb_false_iff, negb_false_iff, bool_decide_eq_true.
  split.
  - intros Hc x' y' [= <-] [= <-] Hov%Ho. destruct Hc; [congruence | done].
  - intros Hc. destruct o; [right; apply (Hc x y eq_refl eq_refl); by apply Ho | by left].
Qed.

Lemma validate_aliasing_spec owner group sacl dacl :
  (forall x, owner = Some x -> inside x) -> (forall x, group = Some x -> inside x) ->
  (forall y, pa_range sacl = Some y -> inside y) -> (forall y, pa_range dacl = Some y -> inside y) ->
  validate_aliasing owner group sacl dacl <> Panic /\
  (validate_aliasing owner group sacl dacl = Ok tt <->
   may_share owner group /\ may_share (pa_range sacl) (pa_range dacl) /\
   sid_outside owner sacl /\ sid_outside owner dacl /\
   sid_outside group sacl /\ sid_outside group dacl).
Proof using Hsize.
  intros Ho Hg Hs Hd. unfold validate_aliasing.
  destruct (check_pair_spec owner group Ho Hg) as [S1 E1].
  destruct (check_pair_spec (pa_range sacl) (pa_range dacl) Hs Hd) as [S2 E2].
  assert (Hsids : forall x, x ∈ option_list owner ++ option_list group -> inside x).
  { intros x [Hx|Hx]%elem_of_app; [apply Ho | apply Hg];
      (destruct owner || destruct group); try destruct group; simpl in Hx; set_solver. }
  assert (Hlists : forall x, inside x -> for_each (check_sid x) [sacl; dacl] <> Panic /\
    (for_each (check_sid x) [sacl; dacl] = Ok tt <-> sid_outside (Some x) sacl /\ sid_outside (Some x) dacl)).
  { intros x Hx. destruct (check_sid_spec x sacl Hx Hs) as [S3 E3]. destruct (check_sid_spec x dacl Hx Hd) as [S4 E4].
    split.
    - apply for_each_safe. intros p [->|[->|[]%elem_of_nil]%elem_of_cons]%elem_of_cons; done.
    - rewrite for_each_Ok, !Forall_cons, Forall_nil, E3, E4. tauto. }
  split.
  - apply bind_safe; [|intros _ _].
    + apply for_each_safe. intros p [->|[->|[]%elem_of_nil]%elem_of_cons]%elem_of_cons; done.
    + apply for_each_safe. intros x Hx. by apply Hlists, Hsids.
  - rewrite then_Ok, for_each_Ok, !Forall_cons, Forall_nil, E1, E2, for_each_Ok, Forall_app.
    assert (Hopt : forall o, (forall x, o = Some x -> inside x) ->
      Forall (fun x => for_each (check_sid x) [sacl; dacl] = Ok tt) (option_list o) <->
      sid_outside o sacl /\ sid_outside o dacl).
    { intros [x|] Hx; simpl; [|split; [intros _; split; intros ??; done | constructor]].
      rewrite Forall_singleton. by apply Hlists, Hx. }
    rewrite (Hopt owner Ho), (Hopt group Hg). tauto.
Qed.
End Sharing.

(** ** Reported ranges *)
Lemma optional_sid_inside bytes at_ r :
  optional_sid_of bytes at_ (Some r) -> inside (len bytes) r.
Proof. intros [_ [_ _ _ _ H]]. exact H. Qed.
Lemma acl_inside bytes m present is_sacl before offset p after y :
  acl_of bytes m present is_sacl before offset p after -> pa_range p = Some y -> inside (len bytes) y.
Proof. unfold inside. inversion 1; subst; simpl; intros [= <-]. done. Qed.
Lemma acl_of_functional bytes limits present is_sacl before offset p p' after after' :
  len bytes <= u64_max ->
  acl_of bytes (sl_max_aces limits) present is_sacl before offset p after ->
  acl_of bytes (sl_max_aces limits) present is_sacl before offset p' after' -> p = p' /\ after = after'.
Proof.
  intros Hlen H1 H2. destruct (acl_spec bytes Hlen offset present is_sacl limits before) as [_ Ha].
  apply Ha in H1, H2. rewrite H1 in H2. by injection H2 as -> ->.
Qed.
Lemma offset_of_functional bytes at_ o o' : offset_of bytes at_ o -> offset_of bytes at_ o' -> o = o'.
Proof.
  destruct o, o'; simpl; unfold HEADER_BYTES; try done.
  - by intros (<- & _) (<- & _).
  - intros (<- & H & _) H0. lia.
  - intros H0 (<- & H & _). lia.
Qed.

Lemma descriptor_spec bytes limits :
  len bytes <= u64_max ->
  validate_ntfs_security_descriptor bytes limits <> Panic /\
  forall v, validate_ntfs_security_descriptor bytes limits = Ok v <-> descriptor_of bytes limits v.
Proof.
  intros Hlen. unfold validate_ntfs_security_descriptor. rewrite refuse_or.
  destruct (N.ltb_spec (sl_max_bytes limits) (len bytes)) as [H1|H1].
  { split; [done |]. intros v. split; [done |]. intros [[? ?] _ _ _ _ _ _ _ _]. lia. }
  destruct (range_or bytes Hlen 0 HEADER_BYTES) as [[-> H2]|[[e ->] H2]]; cbn [mbind outcome_bind].
  2: { split; [done |]. intros v. split; [done |]. intros [[? ?] _ _ _ _ _ _ _ _]. lia. }
  rewrite N.add_0_l in H2. assert (H20 : 20 <= len bytes) by exact H2.
  rewrite (u8_at_in bytes Hlen 0) by lia. cbn [mbind outcome_bind]. rewrite refuse_or.
  destruct (N.eqb_spec (field 1 bytes 0) 1) as [H3|H3]; cbn [negb].
  2: { split; [done |]. intros v. split; [done |]. by intros [_ _ ? _ _ _ _ _ _]. }
  rewrite (u16_at_in bytes Hlen 2) by lia. cbn [mbind outcome_bind]. set (control := field 2 bytes 2).
  rewrite refuse_or. destruct (N.eqb_spec (N.land control SELF_RELATIVE) 0) as [H4|H4].
  { split; [done |]. intros v. split; [done |]. intros [_ _ _ Hc Hr _ _ _ _]. by rewrite Hc in Hr. }
  destruct (optional_sid_spec bytes Hlen 4) as [S5 E5]; [done | done |].
  destruct (optional_sid bytes 4) as [owner|e|]; cbn [mbind outcome_bind]; [| |done].
  2: { split; [done |]. intros v. split; [done |]. intros [_ _ _ _ _ _ Ho _ _]. by apply E5 in Ho. }
  destruct (optional_sid_spec bytes Hlen 8) as [S6 E6]; [done | done |].
  destruct (optional_sid bytes 8) as [group|e|]; cbn [mbind outcome_bind]; [| |done].
  2: { split; [done |]. intros v. split; [done |]. intros [_ _ _ _ _ _ _ Ho _]. by apply E6 in Ho. }
  pose proof (proj1 (E5 owner) eq_refl) as Howner. pose proof (proj1 (E6 group) eq_refl) as Hgroup.
  destruct (component_offset_spec bytes Hlen 12) as [S7 E7]; [done | done |].
  destruct (component_offset bytes 12) as [so|e|]; cbn [mbind outcome_bind]; [| |done].
  2: { split; [done |]. intros v. split; [done |]. intros [_ _ _ _ _ _ _ _ (x & ? & ? & ? & ? & Hx & _)].
    by apply E7 in Hx. }
  pose proof (proj1 (E7 so) eq_refl) as Hso.
  set (sp := negb (N.land control SACL_PRESENT =? 0)). set (dp := negb (N.land control DACL_PRESENT =? 0)).
  destruct (acl_spec bytes Hlen so sp true limits 0) as [S8 E8].
  destruct (acl bytes so sp true limits 0) as [[sacl total]|e|]; cbn [mbind outcome_bind fst snd]; [| |done].
  2: { split; [done |]. intros v. split; [done |].
    intros [_ _ _ Hc _ _ _ _ (x & ? & p & ? & t & Hx & Hp & _)].
    rewrite (offset_of_functional _ _ _ _ Hx Hso), Hc in Hp. by apply E8 in Hp. }
  pose proof (proj1 (E8 sacl total) eq_refl) as Hsacl.
  destruct (component_offset_spec bytes Hlen 16) as [S9 E9]; [done | done |].
  destruct (component_offset bytes 16) as [do_|e|]; cbn [mbind outcome_bind]; [| |done].
  2: { split; [done |]. intros v. split; [done |]. intros [_ _ _ _ _ _ _ _ (? & x & ? & ? & ? & _ & _ & Hx & _)].
    by apply E9 in Hx. }
  pose proof (proj1 (E9 do_) eq_refl) as Hdo.
  destruct (acl_spec bytes Hlen do_ dp false limits total) as [S10 E10].
  destruct (acl bytes do_ dp false limits total) as [[dacl count]|e|]; cbn [mbind outcome_bind fst snd]; [| |done].
  2: { split; [done |]. intros v. split; [done |].
    intros [_ _ _ Hc _ _ _ _ (x & y & p & q & t & Hx & Hp & Hy & Hq & _)].
    rewrite (offset_of_functional _ _ _ _ Hx Hso), Hc in Hp.
    destruct (acl_of_functional _ _ _ _ _ _ _ _ _ _ Hlen Hp Hsacl) as [-> ->].
    rewrite (offset_of_functional _ _ _ _ Hy Hdo), Hc in Hq. by apply E10 in Hq. }
  pose proof (proj1 (E10 dacl count) eq_refl) as Hdacl.
  destruct (validate_aliasing_spec (len bytes) Hlen owner group sacl dacl) as [S11 E11];
    [intros x ->; by eapply optional_sid_inside | intros x ->; by eapply optional_sid_inside |
     intros y Hy; exact (acl_inside _ _ _ _ _ _ _ _ y Hsacl Hy) |
     intros y Hy; exact (acl_inside _ _ _ _ _ _ _ _ y Hdacl Hy) |].
  rewrite (u8_at_in bytes Hlen 1) by lia.
  destruct (validate_aliasing owner group sacl dacl) as [[]|e|]; cbn [mbind outcome_bind]; [| |done].
  - split; [done |]. intros v. split.
    + intros [= <-]. split; simpl; try done. exists so, do_, sacl, dacl, total.
      pose proof (proj1 E11 eq_refl). tauto.
    + intros [_ Hb _ Hc _ Hm Ho Hg (x & y & p & q & t & Hx & Hp & Hy & Hq & Es & Ed & _)].
      rewrite (offset_of_functional _ _ _ _ Hx Hso), Hc in Hp.
      destruct (acl_of_functional _ _ _ _ _ _ _ _ _ _ Hlen Hp Hsacl) as [-> ->].
      rewrite (offset_of_functional _ _ _ _ Hy Hdo), Hc in Hq.
      destruct (acl_of_functional _ _ _ _ _ _ _ _ _ _ Hlen Hq Hdacl) as [-> Hcnt].
      apply E5 in Ho. apply E6 in Hg. injection Ho as Ho. injection Hg as Hg.
      destruct v. simpl in *. by subst.
  - split; [done |]. intros v. split; [done |].
    intros [_ Hb _ Hc _ Hm Ho Hg (x & y & p & q & t & Hx & Hp & Hy & Hq & Es & Ed & Hshare)].
    rewrite (offset_of_functional _ _ _ _ Hx Hso), Hc in Hp.
    destruct (acl_of_functional _ _ _ _ _ _ _ _ _ _ Hlen Hp Hsacl) as [-> ->].
    rewrite (offset_of_functional _ _ _ _ Hy Hdo), Hc in Hq.
    destruct (acl_of_functional _ _ _ _ _ _ _ _ _ _ Hlen Hq Hdacl) as [-> Hcnt].
    apply E5 in Ho. apply E6 in Hg. injection Ho as Ho. injection Hg as Hg. rewrite <- Ho, <- Hg in Hshare.
    by apply E11 in Hshare.
Qed.

(** * Properties *)

(** C37: the validator of security descriptors never panics, whatever the bytes
    are, and accepts exactly the descriptors of the grammar [descriptor_of]: a
    header of revision 1 with the self-relative flag, owner and group
    identifiers and two lists at offsets behind the header, entries that follow
    one another and end inside their list with the identifier filling each
    entry, entry counts within the common limit, and no overlap of components
    except a shared owner and group, a shared list, and an identifier of an entry
    of the list. The bytes are returned unchanged. *)
Theorem security_descriptor_contract bytes limits :
  len bytes <= u64_max ->
  validate_ntfs_security_descriptor bytes limits <> Panic /\
  (forall v, validate_ntfs_security_descriptor bytes limits = Ok v <-> descriptor_of bytes limits v).
Proof. intros Hlen. by apply descriptor_spec. Qed.

(** One allowing entry for S-1-5-18 with four bytes of slack, and S-1-5-32-544
    as both owner and group. *)
Definition sample_descriptor : list byte :=
  [x01; x00] ++ u16_le 32772 ++ u32_le 52 ++ u32_le 52 ++ u32_le 0 ++ u32_le 20
  ++ [x02; x00] ++ u16_le 32 ++ u16_le 1 ++ u16_le 0
  ++ [x00; x00] ++ u16_le 20 ++ u32_le 2032127 ++ [x01; x01; x00; x00; x00; x00; x00; x05] ++ u32_le 18
  ++ replicate 4 xa5
  ++ [x01; x02; x00; x00; x00; x00; x00; x05] ++ u32_le 32 ++ u32_le 544.
Definition sample_descriptor_limits : NtfsSecurityDescriptorLimits :=
  mkNtfsSecurityDescriptorLimits 65536 4096.
Definition sample_validation : NtfsSecurityDescriptorValidation :=
  mkNtfsSecurityDescriptorValidation sample_descriptor 32772 0
    (Some (mkNtfsSecurityRange 52 16)) (Some (mkNtfsSecurityRange 52 16))
    Absent (Present (mkNtfsSecurityRange 20 32) 2 1 4) 1.
Example sample_descriptor_accepted :
  validate_ntfs_security_descriptor sample_descriptor sample_descriptor_limits = Ok sample_validation.
Proof. vm_compute. reflexivity. Qed.

Lemma security_descriptor_contract_witness :
  descriptor_of sample_descriptor sample_descriptor_limits sample_validation.
Proof.
  apply (security_descriptor_contract sample_descriptor sample_descriptor_limits).
  - vm_compute. discriminate.
  - exact sample_descriptor_accepted.
Defined.
