(* ===== verification/NtfsBoot.v ===== *)
(** * NTFS boot sectors

    The parser of the NTFS boot sector ([parse_boot_sector] of [fs/ntfs.rs]) and
    the validator of the primary and backup copies ([validate_boot_region] of
    [fs/ntfs_region.rs]).

    The theorems: the parser accepts exactly the sectors that satisfy a
    declarative contract of the on-disk structure, and reports their fields and
    the geometry they encode; the first records of the two metadata files lie
    inside the volume and apart; a boot region is accepted exactly when both
    copies are the same valid sector and the backup lies in the sector behind
    the volume. *)

From S2P Require Export Prelude Bytes.
From S2P Require Import Runlist.
From stdpp Require Import options.

#[local] Open Scope N_scope.

Definition NTFS_BOOT_SECTOR_PREFIX_LEN : N := 512.
Definition MAX_NTFS_CLUSTER_SIZE_BYTES : N := 2 * 1024 * 1024.
Definition NTFS_OEM_ID : list byte := ascii_bytes "NTFS    ".
Definition BOOT_SIGNATURE : N := 43605.

(** ** Data *)
Inductive MetadataFile : Type := Mft | MftMirror.
Inductive RecordSizeKind : Type := MftRecord | IndexBuffer.

Record RecordSize : Type := mkRecordSize {
  rz_encoded : Z;
  rz_bytes : N
}.

Record NtfsBootSector : Type := mkNtfsBootSector {
  nb_bytes_per_sector : N;
  nb_sectors_per_cluster : N;
  nb_cluster_size_bytes : N;
  nb_declared_sectors : N;
  nb_cluster_count : N;
  nb_filesystem_bytes : N;
  nb_minimum_image_bytes : N;
  nb_mft_lcn : N;
  nb_mft_mirror_lcn : N;
  nb_mft_record_size : RecordSize;
  nb_index_buffer_size : RecordSize;
  nb_volume_serial_number : N;
  nb_boot_checksum : N;
  nb_media_descriptor : N;
  nb_sectors_per_track : N;
  nb_head_count : N;
  nb_hidden_sectors : N
}.

Inductive NtfsBootSectorError : Type :=
| Truncated (actual required : N)
| InvalidOemId (found : list byte)
| InvalidBootSignature (found : N)
| UnsupportedBytesPerSector (value : N)
| InvalidSectorsPerCluster (encoded : N)
| ClusterSizeTooLarge (bytes maximum : N)
| ReservedFieldNotZero (field : string) (value : N)
| InvalidTotalSectors (value : Z)
| NoAddressableClusters (sectors sectors_per_cluster : N)
| GeometryOverflow (calculation : string)
| InvalidMetadataLcn (file : MetadataFile) (value : Z) (cluster_count : N)
| MetadataLocationsOverlap (lcn : N)
| MetadataRecordsOverlap (mft_offset mirror_offset record_bytes : N)
| InvalidRecordSizeEncoding (kind : RecordSizeKind) (encoded : Z)
| RecordSizeTooSmall (kind : RecordSizeKind) (bytes bytes_per_sector : N)
| MetadataRecordOutOfBounds (file : MetadataFile) (offset record_bytes filesystem_bytes : N)
| ImageTooSmall (actual required : N).

Definition validate_image_size (b : NtfsBootSector) (image_len : N)
    : outcome NtfsBootSectorError unit :=
  refuse_if (image_len <? nb_minimum_image_bytes b)
    (ImageTooSmall image_len (nb_minimum_image_bytes b)).

Record Geometry : Type := mkGeometry {
  ge_bytes_per_sector : N;
  ge_sectors_per_cluster : N;
  ge_cluster_size_bytes : N;
  ge_declared_sectors : N;
  ge_cluster_count : N;
  ge_filesystem_bytes : N;
  ge_minimum_image_bytes : N
}.

(** ** Parsing *)

(** [i8::from_ne_bytes] of one byte. *)
Definition i8_of_u8 (value : N) : Z :=
  if value <? 128 then Z.of_N value else (Z.of_N value - 256)%Z.

Definition decode_sectors_per_cluster (encoded : N) : outcome NtfsBootSectorError N :=
  if (encoded <=? 128) && is_power_of_two encoded then Ok encoded
  else if (240 <=? encoded) && (encoded <=? 253) then Ok (N.shiftl 1 (256 - encoded))
  else Err (InvalidSectorsPerCluster encoded).

Definition parse_geometry (bytes : list byte) : outcome NtfsBootSectorError Geometry :=
  bytes_per_sector ← read_le 2 bytes 11;
  refuse_if (negb ((bytes_per_sector =? 512) || (bytes_per_sector =? 1024)
                   || (bytes_per_sector =? 2048) || (bytes_per_sector =? 4096)))
    (UnsupportedBytesPerSector bytes_per_sector) ;;
  encoded ← read_le 1 bytes 13;
  sectors_per_cluster ← decode_sectors_per_cluster encoded;
  cluster_size_bytes ← ok_or (GeometryOverflow "cluster byte size")
    (checked_mul bytes_per_sector sectors_per_cluster);
  refuse_if (MAX_NTFS_CLUSTER_SIZE_BYTES <? cluster_size_bytes)
    (ClusterSizeTooLarge cluster_size_bytes MAX_NTFS_CLUSTER_SIZE_BYTES) ;;
  raw_sectors ← read_le 8 bytes 40;
  let signed_sectors := i64_of_u64 raw_sectors in
  refuse_if (signed_sectors <? 0)%Z (InvalidTotalSectors signed_sectors) ;;
  let declared_sectors := Z.to_N signed_sectors in
  refuse_if (declared_sectors =? 0) (InvalidTotalSectors 0) ;;
  cluster_count ← div_u64 declared_sectors sectors_per_cluster;
  refuse_if (cluster_count =? 0) (NoAddressableClusters declared_sectors sectors_per_cluster) ;;
  filesystem_bytes ← ok_or (GeometryOverflow "filesystem byte length")
    (checked_mul declared_sectors bytes_per_sector);
  partition_sectors ← ok_or (GeometryOverflow "partition sector count")
    (checked_add declared_sectors 1);
  minimum_image_bytes ← ok_or (GeometryOverflow "minimum partition-image byte length")
    (checked_mul partition_sectors bytes_per_sector);
  Ok (mkGeometry bytes_per_sector sectors_per_cluster cluster_size_bytes declared_sectors
        cluster_count filesystem_bytes minimum_image_bytes).

(** A reserved field of one to four bytes. *)
Definition validate_zero (bytes : list byte) (offset : N) (width : nat) (name : string)
    : outcome NtfsBootSectorError unit :=
  value ← read_le width bytes offset;
  refuse_if (negb (value =? 0)) (ReservedFieldNotZero name value).
Definition RESERVED_FIELDS : list (N * nat * string) :=
  [(14, 2%nat, "reserved sectors"%string); (16, 1%nat, "FAT count"%string);
   (17, 2%nat, "root-directory entries"%string); (19, 2%nat, "legacy 16-bit sector count"%string);
   (22, 2%nat, "legacy sectors per FAT"%string); (32, 4%nat, "legacy 32-bit sector count"%string);
   (39, 1%nat, "extended BPB reserved byte"%string);
   (65, 3%nat, "MFT record-size reserved bytes"%string);
   (69, 3%nat, "index buffer-size reserved bytes"%string)].
Definition validate_reserved_fields (bytes : list byte) : outcome NtfsBootSectorError unit :=
  for_each (fun '(offset, width, name) => validate_zero bytes offset width name) RESERVED_FIELDS.

Definition validate_lcn (file : MetadataFile) (value : Z) (cluster_count : N)
    : outcome NtfsBootSectorError N :=
  refuse_if (value <? 0)%Z (InvalidMetadataLcn file value cluster_count) ;;
  let lcn := Z.to_N value in
  refuse_if ((lcn =? 0) || (cluster_count <=? lcn)) (InvalidMetadataLcn file value cluster_count) ;;
  Ok lcn.

Definition decode_record_size (kind : RecordSizeKind) (encoded : Z)
    (cluster_size_bytes bytes_per_sector : N) : outcome NtfsBootSectorError RecordSize :=
  bytes ← (if (0 <? encoded)%Z && is_power_of_two (Z.abs_N encoded) && (encoded <=? 64)%Z then
             ok_or (GeometryOverflow "record byte size")
               (checked_mul cluster_size_bytes (Z.abs_N encoded))
           else if (-31 <=? encoded)%Z && (encoded <=? -9)%Z then
             Ok (N.shiftl 1 (Z.abs_N encoded))
           else Err (InvalidRecordSizeEncoding kind encoded));
  refuse_if (bytes <? bytes_per_sector) (RecordSizeTooSmall kind bytes bytes_per_sector) ;;
  Ok (mkRecordSize encoded bytes).

Definition validate_first_record_bounds (file : MetadataFile)
    (lcn cluster_size_bytes record_bytes filesystem_bytes : N) : outcome NtfsBootSectorError unit :=
  offset ← ok_or (GeometryOverflow "metadata byte offset") (checked_mul lcn cluster_size_bytes);
  end_ ← ok_or (GeometryOverflow "metadata record end") (checked_add offset record_bytes);
  refuse_if (filesystem_bytes <? end_)
    (MetadataRecordOutOfBounds file offset record_bytes filesystem_bytes).

Definition validate_metadata_records_do_not_overlap
    (mft_lcn mirror_lcn cluster_size_bytes record_bytes : N) : outcome NtfsBootSectorError unit :=
  mft_offset ← ok_or (GeometryOverflow "$MFT byte offset") (checked_mul mft_lcn cluster_size_bytes);
  mirror_offset ← ok_or (GeometryOverflow "$MFTMirr byte offset")
    (checked_mul mirror_lcn cluster_size_bytes);
  mft_end ← ok_or (GeometryOverflow "$MFT first record end") (checked_add mft_offset record_bytes);
  mirror_end ← ok_or (GeometryOverflow "$MFTMirr first record end")
    (checked_add mirror_offset record_bytes);
  refuse_if ((mft_offset <? mirror_end) && (mirror_offset <? mft_end))
    (MetadataRecordsOverlap mft_offset mirror_offset record_bytes).

Definition parse_boot_sector (bytes : list byte) : outcome NtfsBootSectorError NtfsBootSector :=
  refuse_if (len bytes <? NTFS_BOOT_SECTOR_PREFIX_LEN)
    (Truncated (len bytes) NTFS_BOOT_SECTOR_PREFIX_LEN) ;;
  oem_id ← index_range 3 11 bytes;
  refuse_if (negb (bool_decide (oem_id = NTFS_OEM_ID))) (InvalidOemId oem_id) ;;
  signature ← read_le 2 bytes 510;
  refuse_if (negb (signature =? BOOT_SIGNATURE)) (InvalidBootSignature signature) ;;
  geometry ← parse_geometry bytes;
  validate_reserved_fields bytes ;;
  raw_mft ← read_le 8 bytes 48;
  mft_lcn ← validate_lcn Mft (i64_of_u64 raw_mft) (ge_cluster_count geometry);
  raw_mirror ← read_le 8 bytes 56;
  mft_mirror_lcn ← validate_lcn MftMirror (i64_of_u64 raw_mirror) (ge_cluster_count geometry);
  refuse_if (mft_lcn =? mft_mirror_lcn) (MetadataLocationsOverlap mft_lcn) ;;
  raw_record ← read_le 1 bytes 64;
  mft_record_size ← decode_record_size MftRecord (i8_of_u8 raw_record)
    (ge_cluster_size_bytes geometry) (ge_bytes_per_sector geometry);
  raw_index ← read_le 1 bytes 68;
  index_buffer_size ← decode_record_size IndexBuffer (i8_of_u8 raw_index)
    (ge_cluster_size_bytes geometry) (ge_bytes_per_sector geometry);
  validate_first_record_bounds Mft mft_lcn (ge_cluster_size_bytes geometry)
    (rz_bytes mft_record_size) (ge_filesystem_bytes geometry) ;;
  validate_first_record_bounds MftMirror mft_mirror_lcn (ge_cluster_size_bytes geometry)
    (rz_bytes mft_record_size) (ge_filesystem_bytes geometry) ;;
  validate_metadata_records_do_not_overlap mft_lcn mft_mirror_lcn
    (ge_cluster_size_bytes geometry) (rz_bytes mft_record_size) ;;
  volume_serial_number ← read_le 8 bytes 72;
  boot_checksum ← read_le 4 bytes 80;
  media_descriptor ← read_le 1 bytes 21;
  sectors_per_track ← read_le 2 bytes 24;
  head_count ← read_le 2 bytes 26;
  hidden_sectors ← read_le 4 bytes 28;
  Ok (mkNtfsBootSector (ge_bytes_per_sector geometry) (ge_sectors_per_cluster geometry)
        (ge_cluster_size_bytes geometry) (ge_declared_sectors geometry) (ge_cluster_count geometry)
        (ge_filesystem_bytes geometry) (ge_minimum_image_bytes geometry) mft_lcn mft_mirror_lcn
        mft_record_size index_buffer_size volume_serial_number boot_checksum media_descriptor
        sectors_per_track head_count hidden_sectors).

(** ** The boot region *)
Inductive BootSectorCopy : Type := Primary | Backup.

Record NtfsBootRegion : Type := mkNtfsBootRegion {
  nr_primary : NtfsBootSector;
  nr_backup : NtfsBootSector;
  nr_partition_bytes : N;
  nr_partition_sectors : N;
  nr_backup_offset : N;
  nr_unaddressed_trailing_sectors : N
}.

Inductive NtfsBootRegionError : Type :=
| InvalidPrimary (source : NtfsBootSectorError)
| WrongSectorSliceLength (copy : BootSectorCopy) (actual required : N)
| PartitionLengthNotSectorAligned (partition_bytes bytes_per_sector : N)
| NoDedicatedBackupSector (partition_sectors declared_sectors : N)
| BackupOffsetNotDeclaredEnd (actual expected : N)
| InvalidBackup (source : NtfsBootSectorError)
| BootSectorsDiffer (offset primary backup : N).

Definition validate_slice_len (copy : BootSectorCopy) (bytes : list byte) (required : N)
    : outcome NtfsBootRegionError unit :=
  refuse_if (negb (len bytes =? required)) (WrongSectorSliceLength copy (len bytes) required).

(** The first position at which two sectors differ, with both bytes. *)
Definition first_difference (primary backup : list byte) : option (N * (byte * byte)) :=
  List.find (fun item : N * (byte * byte) => negb (bool_decide ((snd item).1 = (snd item).2)))
    (enumerate (zip primary backup)).

Definition validate_boot_region (primary_sector backup_sector : list byte)
    (partition_bytes backup_offset : N) : outcome NtfsBootRegionError NtfsBootRegion :=
  primary ← map_err InvalidPrimary (parse_boot_sector primary_sector);
  let sector_bytes := nb_bytes_per_sector primary in
  validate_slice_len Primary primary_sector sector_bytes ;;
  validate_slice_len Backup backup_sector sector_bytes ;;
  remainder ← rem_u64 partition_bytes sector_bytes;
  refuse_if (negb (remainder =? 0)) (PartitionLengthNotSectorAligned partition_bytes sector_bytes) ;;
  partition_sectors ← div_u64 partition_bytes sector_bytes;
  refuse_if (partition_sectors <=? nb_declared_sectors primary)
    (NoDedicatedBackupSector partition_sectors (nb_declared_sectors primary)) ;;
  expected_backup_offset ← expect (checked_mul (nb_declared_sectors primary) sector_bytes);
  refuse_if (negb (backup_offset =? expected_backup_offset))
    (BackupOffsetNotDeclaredEnd backup_offset expected_backup_offset) ;;
  backup ← map_err InvalidBackup (parse_boot_sector backup_sector);
  (match first_difference primary_sector backup_sector with
   | Some (offset, (primary_byte, backup_byte)) =>
       Err (BootSectorsDiffer offset (Byte.to_N primary_byte) (Byte.to_N backup_byte))
   | None => Ok tt
   end) ;;
  behind ← sub_u64 partition_sectors (nb_declared_sectors primary);
  trailing ← sub_u64 behind 1;
  Ok (mkNtfsBootRegion primary backup partition_bytes partition_sectors backup_offset trailing).

(** ** Specification *)

(** The two encodings of the sectors of a cluster. *)
Definition cluster_code (encoded sectors : N) : Prop :=
  (exists k, k <= 7 /\ encoded = 2 ^ k /\ sectors = 2 ^ k) \/
  (exists k, 3 <= k <= 16 /\ encoded = 256 - k /\ sectors = 2 ^ k).
(** The two encodings of a record size: in clusters, or a negative power of two. *)
Definition record_code (encoded : Z) (cluster_bytes bytes : N) : Prop :=
  (exists k, k <= 6 /\ encoded = Z.of_N (2 ^ k) /\ bytes = cluster_bytes * 2 ^ k) \/
  (exists k, 9 <= k <= 31 /\ encoded = (- Z.of_N k)%Z /\ bytes = 2 ^ k).

(** The bytes of the sector that NTFS leaves at zero: the fields of the FAT boot
    sector that it does not use, and the upper bytes of the two record sizes. *)
Definition reserved_bytes : list N :=
  [14; 15; 16; 17; 18; 19; 20; 22; 23; 32; 33; 34; 35; 39; 65; 66; 67; 69; 70; 71].

(** What the sector says. *)
Record ntfs_fields (bytes : list byte) (b : NtfsBootSector) : Prop := {
  nf_oem : subslice 3 11 bytes = NTFS_OEM_ID;
  nf_signature : field 2 bytes 510 = BOOT_SIGNATURE;
  nf_reserved : Forall (fun i => bytes !! N.to_nat i = Some x00) reserved_bytes;
  nf_sector : nb_bytes_per_sector b = field 2 bytes 11;
  nf_cluster : cluster_code (field 1 bytes 13) (nb_sectors_per_cluster b);
  nf_declared : nb_declared_sectors b = field 8 bytes 40;
  nf_mft : nb_mft_lcn b = field 8 bytes 48;
  nf_mirror : nb_mft_mirror_lcn b = field 8 bytes 56;
  nf_record : rz_encoded (nb_mft_record_size b) = i8_of_u8 (field 1 bytes 64);
  nf_index : rz_encoded (nb_index_buffer_size b) = i8_of_u8 (field 1 bytes 68);
  nf_serial : nb_volume_serial_number b = field 8 bytes 72;
  nf_checksum : nb_boot_checksum b = field 4 bytes 80;
  nf_media : nb_media_descriptor b = field 1 bytes 21;
  nf_track : nb_sectors_per_track b = field 2 bytes 24;
  nf_heads : nb_head_count b = field 2 bytes 26;
  nf_hidden : nb_hidden_sectors b = field 4 bytes 28
}.

(** What NTFS asks of the values. *)
Record ntfs_volume (b : NtfsBootSector) : Prop := {
  nv_sector : nb_bytes_per_sector b = 512 \/ nb_bytes_per_sector b = 1024 \/
              nb_bytes_per_sector b = 2048 \/ nb_bytes_per_sector b = 4096;
  nv_cluster : nb_cluster_size_bytes b = nb_bytes_per_sector b * nb_sectors_per_cluster b;
  nv_cluster_max : nb_cluster_size_bytes b <= MAX_NTFS_CLUSTER_SIZE_BYTES;
  nv_declared : 1 <= nb_declared_sectors b < 2 ^ 63;
  nv_count : nb_cluster_count b = nb_declared_sectors b / nb_sectors_per_cluster b;
  nv_count_pos : 1 <= nb_cluster_count b;
  nv_filesystem : nb_filesystem_bytes b = nb_declared_sectors b * nb_bytes_per_sector b;
  nv_minimum : nb_minimum_image_bytes b = (nb_declared_sectors b + 1) * nb_bytes_per_sector b;
  nv_minimum_fits : nb_minimum_image_bytes b <= u64_max;
  nv_mft : 1 <= nb_mft_lcn b < nb_cluster_count b;
  nv_mirror : 1 <= nb_mft_mirror_lcn b < nb_cluster_count b;
  nv_record : record_code (rz_encoded (nb_mft_record_size b)) (nb_cluster_size_bytes b)
                (rz_bytes (nb_mft_record_size b));
  nv_record_sector : nb_bytes_per_sector b <= rz_bytes (nb_mft_record_size b);
  nv_index : record_code (rz_encoded (nb_index_buffer_size b)) (nb_cluster_size_bytes b)
               (rz_bytes (nb_index_buffer_size b));
  nv_index_sector : nb_bytes_per_sector b <= rz_bytes (nb_index_buffer_size b);
  nv_mft_end : nb_mft_lcn b * nb_cluster_size_bytes b + rz_bytes (nb_mft_record_size b)
                 <= nb_filesystem_bytes b;
  nv_mirror_end : nb_mft_mirror_lcn b * nb_cluster_size_bytes b + rz_bytes (nb_mft_record_size b)
                    <= nb_filesystem_bytes b;
  nv_apart : nb_mft_lcn b * nb_cluster_size_bytes b + rz_bytes (nb_mft_record_size b)
               <= nb_mft_mirror_lcn b * nb_cluster_size_bytes b \/
             nb_mft_mirror_lcn b * nb_cluster_size_bytes b + rz_bytes (nb_mft_record_size b)
               <= nb_mft_lcn b * nb_cluster_size_bytes b
}.
Definition ntfs_boot_sector_of (bytes : list byte) (b : NtfsBootSector) : Prop :=
  512 <= len bytes /\ ntfs_fields bytes b /\ ntfs_volume b.

(** * Lemmas *)
Lemma power_of_two_below n k : n <= 2 ^ k -> is_power_of_two n = true <-> exists j, j <= k /\ n = 2 ^ j.
Proof.
  intros Hn. rewrite is_power_of_two_spec. split.
  - intros [j ->]. exists j. split; [|done]. by apply (N.pow_le_mono_r_iff 2) in Hn.
  - intros (j & _ & ->). by exists j.
Qed.

Lemma decode_sectors_Ok encoded sectors :
  decode_sectors_per_cluster encoded = Ok sectors <-> cluster_code encoded sectors.
Proof.
  unfold decode_sectors_per_cluster, cluster_code. split.
  - intros H. destruct ((encoded <=? 128) && is_power_of_two encoded) eqn:H1.
    + apply andb_true_iff in H1 as [H1 H2]. apply N.leb_le in H1.
      apply (power_of_two_below _ 7) in H2 as (k & Hk & ->); [|done]. inv_ok. left. by exists k.
    + destruct ((240 <=? encoded) && (encoded <=? 253)) eqn:H2; [|done]. bool_props. inv_ok.
      right. exists (256 - encoded). rewrite N.shiftl_1_l. split_and!; [lia | lia | lia | done].
  - intros [(k & Hk & -> & ->)|(k & Hk & -> & ->)].
    + assert (2 ^ k <= 2 ^ 7) by (apply N.pow_le_mono_r; lia). change (2 ^ 7) with 128 in *.
      rewrite (proj2 (N.leb_le _ _)) by done. rewrite (proj2 (is_power_of_two_spec _)) by (by exists k).
      done.
    + rewrite (proj2 (N.leb_gt (256 - k) 128)) by lia. cbn [andb].
      rewrite (proj2 (N.leb_le 240 _)), (proj2 (N.leb_le (256 - k) 253)) by lia. cbn [andb].
      rewrite N.shiftl_1_l. by replace (256 - (256 - k)) with k by lia.
Qed.
Lemma cluster_code_bound encoded sectors : cluster_code encoded sectors -> 1 <= sectors <= 65536.
Proof.
  intros [(k & Hk & _ & ->)|(k & Hk & _ & ->)]; pose proof (N.pow_nonzero 2 k ltac:(done));
    assert (2 ^ k <= 2 ^ 16) by (apply N.pow_le_mono_r; lia); change (2 ^ 16) with 65536 in *; lia.
Qed.

Lemma decode_record_Ok kind encoded cluster sector r :
  cluster <= MAX_NTFS_CLUSTER_SIZE_BYTES ->
  decode_record_size kind encoded cluster sector = Ok r <->
  rz_encoded r = encoded /\ record_code encoded cluster (rz_bytes r) /\ sector <= rz_bytes r.
Proof.
  unfold MAX_NTFS_CLUSTER_SIZE_BYTES. intros Hc. unfold decode_record_size, record_code. widths. split.
  - intros H. apply bind_Ok in H as (bytes & Hb & H). inv_ok. bool_props. cbn [rz_encoded rz_bytes].
    split; [done |]. split; [|done].
    destruct ((0 <? encoded)%Z && is_power_of_two (Z.abs_N encoded) && (encoded <=? 64)%Z) eqn:H1.
    + apply andb_true_iff in H1 as [H1 H2]. apply andb_true_iff in H1 as [H0 H1].
      apply Z.ltb_lt in H0. apply Z.leb_le in H2.
      apply (power_of_two_below _ 6) in H1 as (k & Hk & He); [|change (2 ^ 6) with 64; lia].
      inv_ok. left. exists k. split_and!; [done | lia | by rewrite He].
    + destruct ((-31 <=? encoded)%Z && (encoded <=? -9)%Z) eqn:H2; [|done].
      apply andb_true_iff in H2 as [H2 H3]. apply Z.leb_le in H2, H3. inv_ok.
      right. exists (Z.abs_N encoded). rewrite N.shiftl_1_l. split_and!; [lia | lia | lia | done].
  - destruct r as [e bytes]. cbn [rz_encoded rz_bytes]. intros (-> & [(k & Hk & -> & ->)|(k & Hk & -> & ->)] & Hs).
    + assert (2 ^ k <= 2 ^ 6) by (apply N.pow_le_mono_r; lia). change (2 ^ 6) with 64 in *.
      pose proof (N.pow_nonzero 2 k ltac:(done)).
      rewrite (proj2 (Z.ltb_lt _ _)), (proj2 (Z.leb_le _ _)) by lia.
      replace (Z.abs_N (Z.of_N (2 ^ k))) with (2 ^ k) by lia.
      rewrite (proj2 (is_power_of_two_spec _)) by (by exists k). cbn [andb].
      rewrite checked_mul_in by nia. cbn [ok_or mbind outcome_bind].
      by rewrite (proj2 (N.ltb_ge _ _)) by done.
    + rewrite (proj2 (Z.ltb_ge _ _)) by lia. cbn [andb].
      rewrite (proj2 (Z.leb_le _ _)), (proj2 (Z.leb_le _ _)) by lia. cbn [andb mbind outcome_bind].
      replace (Z.abs_N (- Z.of_N k)) with k by lia. rewrite N.shiftl_1_l.
      by rewrite (proj2 (N.ltb_ge _ _)) by done.
Qed.
Lemma record_code_bound encoded cluster bytes :
  cluster <= MAX_NTFS_CLUSTER_SIZE_BYTES -> record_code encoded cluster bytes -> bytes <= 2 ^ 31.
Proof.
  unfold MAX_NTFS_CLUSTER_SIZE_BYTES. change (2 ^ 31) with 2147483648.
  intros Hc [(k & Hk & _ & ->)|(k & Hk & _ & ->)].
  - assert (2 ^ k <= 2 ^ 6) by (apply N.pow_le_mono_r; lia). change (2 ^ 6) with 64 in *. nia.
  - assert (2 ^ k <= 2 ^ 31) by (apply N.pow_le_mono_r; lia). change (2 ^ 31) with 2147483648 in *. lia.
Qed.

Lemma i64_of_small v : v < 2 ^ 63 -> i64_of_u64 v = Z.of_N v.
Proof. intros Hv. unfold i64_of_u64. by rewrite (proj2 (N.ltb_lt _ _)). Qed.
Lemma i64_negative v : v <= u64_max -> (i64_of_u64 v <? 0)%Z = negb (v <? 2 ^ 63).
Proof.
  intros Hv. unfold i64_of_u64. widths. change (2 ^ 63) with 9223372036854775808.
  change (2 ^ 64)%Z with 18446744073709551616%Z.
  destruct (N.ltb_spec v 9223372036854775808); cbn [negb]; [apply Z.ltb_ge | apply Z.ltb_lt]; lia.
Qed.

Lemma validate_lcn_Ok file raw count lcn :
  raw <= u64_max ->
  validate_lcn file (i64_of_u64 raw) count = Ok lcn <-> lcn = raw /\ raw < 2 ^ 63 /\ 1 <= raw < count.
Proof.
  intros Hr. unfold validate_lcn. rewrite i64_negative by done. split.
  - intros H. apply then_Ok in H as [H1 H]. apply refuse_if_Ok, negb_false_iff, N.ltb_lt in H1.
    rewrite (i64_of_small _ H1), N2Z.id in H. inv_ok. bool_props. split_and!; [done | done | lia | lia].
  - intros (-> & H1 & H2). rewrite (proj2 (N.ltb_lt _ _) H1). cbn [negb refuse_if mbind outcome_bind].
    rewrite i64_of_small, N2Z.id by done.
    rewrite (proj2 (N.eqb_neq _ _)), (proj2 (N.leb_gt _ _)) by lia. done.
Qed.

(** The sizes and counts that are derived from the fields. *)
Definition geometry_of (bytes : list byte) (g : Geometry) : Prop :=
  (ge_bytes_per_sector g = 512 \/ ge_bytes_per_sector g = 1024 \/ ge_bytes_per_sector g = 2048 \/
   ge_bytes_per_sector g = 4096) /\
  ge_bytes_per_sector g = field 2 bytes 11 /\
  cluster_code (field 1 bytes 13) (ge_sectors_per_cluster g) /\
  ge_cluster_size_bytes g = ge_bytes_per_sector g * ge_sectors_per_cluster g /\
  ge_cluster_size_bytes g <= MAX_NTFS_CLUSTER_SIZE_BYTES /\
  ge_declared_sectors g = field 8 bytes 40 /\ 1 <= ge_declared_sectors g < 2 ^ 63 /\
  ge_cluster_count g = ge_declared_sectors g / ge_sectors_per_cluster g /\ 1 <= ge_cluster_count g /\
  ge_filesystem_bytes g = ge_declared_sectors g * ge_bytes_per_sector g /\
  ge_minimum_image_bytes g = (ge_declared_sectors g + 1) * ge_bytes_per_sector g /\
  ge_minimum_image_bytes g <= u64_max.

Lemma sector_test s :
  ((s =? 512) || (s =? 1024) || (s =? 2048) || (s =? 4096)) = true <->
  (s = 512 \/ s = 1024 \/ s = 2048 \/ s = 4096).
Proof. rewrite !orb_true_iff, !N.eqb_eq. tauto. Qed.

Lemma parse_geometry_Ok bytes g :
  512 <= len bytes -> parse_geometry bytes = Ok g <-> geometry_of bytes g.
Proof.
  intros Hl. assert (H8 : field 8 bytes 40 <= u64_max).
  { apply N.lt_succ_r. apply (field_bound 8). simpl. lia. }
  unfold parse_geometry, geometry_of. widths. split.
  - intros H. inv_ok. inv_reads.
    repeat match goal with H : negb (_ || _) = false |- _ => apply negb_false_iff, sector_test in H end.
    match goal with H : (i64_of_u64 _ <? 0)%Z = false |- _ =>
      rewrite i64_negative in H by done; apply negb_false_iff, N.ltb_lt in H; rename H into Hd end.
    rewrite (i64_of_small _ Hd), N2Z.id in *. inv_ok. bool_props.
    match goal with H : decode_sectors_per_cluster _ = Ok _ |- _ => apply decode_sectors_Ok in H end.
    cbn [ge_bytes_per_sector ge_sectors_per_cluster ge_cluster_size_bytes ge_declared_sectors
      ge_cluster_count ge_filesystem_bytes ge_minimum_image_bytes].
    split_and!; try done; try lia.
    match goal with H : ?x <> 0 |- 1 <= ?x => revert H; generalize x; intros; lia end.
  - destruct g as [sector spc cluster declared count fs minimum].
    cbn [ge_bytes_per_sector ge_sectors_per_cluster ge_cluster_size_bytes ge_declared_sectors
      ge_cluster_count ge_filesystem_bytes ge_minimum_image_bytes].
    intros (Hs & Hs' & Hc & -> & Hcm & Hd & Hdr & -> & Hcp & -> & -> & Hm).
    pose proof (cluster_code_bound _ _ Hc) as Hcb.
    read_step. rewrite <- Hs'. ok_step. { by apply sector_test. }
    read_step. eapply bind_step; [by apply decode_sectors_Ok | cbv beta].
    unfold MAX_NTFS_CLUSTER_SIZE_BYTES in *. ok_step.
    ok_step. read_step. rewrite <- Hd in *. rewrite i64_of_small, N2Z.id by lia. cbv zeta.
    ok_step.
    ok_step. rewrite div_u64_in by lia. cbn [mbind outcome_bind].
    ok_step. ok_step. ok_step. ok_step. done.
Qed.

(** A little-endian field is zero when each of its bytes is. *)
Lemma field_zero n bytes offset :
  offset + N.of_nat n <= len bytes ->
  field n bytes offset = 0 <->
  Forall (fun i => bytes !! i = Some x00) (seq (N.to_nat offset) n).
Proof.
  revert offset. induction n as [|n IH]; intros offset Hl.
  { cbn [seq]. unfold field, subslice. replace (offset + N.of_nat 0 - offset) with 0 by lia.
    split; [constructor | done]. }
  destruct (lookup_lt_is_Some_2 bytes (N.to_nat offset)) as [b Hb]; [unfold len in Hl; lia |].
  assert (Hf : field (S n) bytes offset = Byte.to_N b + 256 * field n bytes (offset + 1)).
  { unfold field, subslice.
    replace (N.to_nat (offset + N.of_nat (S n) - offset)) with (S n) by lia.
    replace (N.to_nat (offset + 1 + N.of_nat n - (offset + 1))) with n by lia.
    replace (N.to_nat (offset + 1)) with (S (N.to_nat offset)) by lia.
    rewrite (drop_S _ _ _ Hb). done. }
  specialize (IH (offset + 1) ltac:(lia)).
  replace (N.to_nat (offset + 1)) with (S (N.to_nat offset)) in IH by lia.
  cbn [seq]. rewrite Forall_cons, <- IH, Hf, Hb. split.
  - intros Hz. split; [|lia]. f_equal. assert (H0 : Byte.to_N b = 0) by lia. by destruct b.
  - intros [[= ->] ->]. done.
Qed.
Lemma reserved_fields_Ok bytes u :
  512 <= len bytes ->
  validate_reserved_fields bytes = Ok u <->
  Forall (fun i => bytes !! N.to_nat i = Some x00) reserved_bytes.
Proof.
  intros Hl. unfold validate_reserved_fields. rewrite for_each_Ok. unfold RESERVED_FIELDS, reserved_bytes.
  rewrite !Forall_cons, !Forall_nil. cbv beta iota. unfold validate_zero. cbn [fst snd].
  rewrite !(read_le_in (E := NtfsBootSectorError)) by (cbn [N.of_nat Pos.of_succ_nat Pos.succ]; lia).
  cbn [mbind outcome_bind].
  rewrite !refuse_if_Ok, !negb_false_iff, !N.eqb_eq.
  rewrite !field_zero by (cbn [N.of_nat Pos.of_succ_nat Pos.succ]; lia).
  cbv [N.to_nat Pos.to_nat Pos.iter_op seq Nat.add]. rewrite !Forall_cons, !Forall_nil. tauto.
Qed.

Lemma first_record_bounds_Ok file lcn cluster bytes filesystem u :
  filesystem <= u64_max ->
  validate_first_record_bounds file lcn cluster bytes filesystem = Ok u <->
  lcn * cluster + bytes <= filesystem.
Proof.
  intros Hf. destruct u. unfold validate_first_record_bounds. split.
  - intros H. inv_ok. bool_props. lia.
  - intros H. ok_step. ok_step. by apply refuse_step, N.ltb_ge.
Qed.
Lemma records_apart_Ok mft mirror cluster bytes u :
  mft * cluster + bytes <= u64_max -> mirror * cluster + bytes <= u64_max ->
  validate_metadata_records_do_not_overlap mft mirror cluster bytes = Ok u <->
  mft * cluster + bytes <= mirror * cluster \/ mirror * cluster + bytes <= mft * cluster.
Proof.
  intros H1 H2. destruct u. unfold validate_metadata_records_do_not_overlap.
  rewrite !checked_mul_in by lia. cbn [ok_or mbind outcome_bind].
  rewrite !checked_add_in by lia. cbn [ok_or mbind outcome_bind].
  rewrite refuse_if_Ok, andb_false_iff, !N.ltb_ge. lia.
Qed.

Ltac ntfs_records :=
  cbn [nb_bytes_per_sector nb_sectors_per_cluster nb_cluster_size_bytes nb_declared_sectors
    nb_cluster_count nb_filesystem_bytes nb_minimum_image_bytes nb_mft_lcn nb_mft_mirror_lcn
    nb_mft_record_size nb_index_buffer_size nb_volume_serial_number nb_boot_checksum
    nb_media_descriptor nb_sectors_per_track nb_head_count nb_hidden_sectors
    ge_bytes_per_sector ge_sectors_per_cluster ge_cluster_size_bytes ge_declared_sectors
    ge_cluster_count ge_filesystem_bytes ge_minimum_image_bytes] in *.

Lemma field_8_width bytes o : o + 8 <= len bytes -> field 8 bytes o <= u64_max.
Proof. intros H. apply N.lt_succ_r. by apply (field_bound 8). Qed.

Lemma ntfs_parse_boot_sector_sound bytes b : parse_boot_sector bytes = Ok b -> ntfs_boot_sector_of bytes b.
Proof.
  unfold parse_boot_sector, NTFS_BOOT_SECTOR_PREFIX_LEN. intros H.
  apply then_Ok in H as [Hl H]. apply refuse_if_Ok, N.ltb_ge in Hl.
  inv_ok. inv_reads. bool_props.
  match goal with H : parse_geometry _ = Ok ?g |- _ => apply parse_geometry_Ok in H; [rename H into Hg; destruct g | done] end.
  match goal with H : validate_reserved_fields _ = Ok _ |- _ => apply reserved_fields_Ok in H; [rename H into Hres | done] end.
  unfold geometry_of in Hg. ntfs_records.
  destruct Hg as (Hs & Hs' & Hc & -> & Hcm & Hd & Hdr & -> & Hcp & -> & -> & Hm).
  assert (Hfs : ge_declared_sectors0 * ge_bytes_per_sector0 <= u64_max) by lia.
  repeat match goal with H : validate_lcn _ _ _ = Ok _ |- _ =>
    apply validate_lcn_Ok in H as (-> & ? & ?); [|apply field_8_width; lia] end.
  repeat match goal with H : decode_record_size _ _ _ _ = Ok _ |- _ =>
    apply decode_record_Ok in H as (? & ? & ?); [|done] end.
  repeat match goal with H : validate_first_record_bounds _ _ _ _ _ = Ok _ |- _ =>
    apply first_record_bounds_Ok in H; [|done] end.
  match goal with H : validate_metadata_records_do_not_overlap _ _ _ _ = Ok _ |- _ =>
    apply records_apart_Ok in H; [|lia|lia] end.
  split; [done |]. split; split; ntfs_records; try assumption; try done; try congruence.
Qed.

Lemma ntfs_parse_boot_sector_complete bytes b : ntfs_boot_sector_of bytes b -> parse_boot_sector bytes = Ok b.
Proof.
  intros (Hl & [] & []). destruct b as [sector spc cluster declared count fs minimum mft mirror rec idx
    serial sum media track heads hidden]. ntfs_records. subst serial sum media track heads hidden.
  unfold parse_boot_sector, NTFS_BOOT_SECTOR_PREFIX_LEN.
  ok_step. read_step. ok_step. read_step. ok_step.
  eapply bind_step.
  { apply (parse_geometry_Ok bytes (mkGeometry sector spc cluster declared count fs minimum)); [done |].
    unfold geometry_of. ntfs_records. split_and!; try done; lia. }
  ntfs_records. eapply bind_step; [by apply (reserved_fields_Ok bytes tt) | cbv beta].
  assert (Hfs : fs <= u64_max) by lia.
  read_step. eapply bind_step.
  { apply validate_lcn_Ok; [apply field_8_width; lia |]. rewrite <- nf_mft0.
    split; [reflexivity |]. split; [|done]. assert (declared / spc <= declared); [|lia].
    apply N.Div0.div_le_upper_bound. pose proof (cluster_code_bound _ _ nf_cluster0). nia. }
  read_step. eapply bind_step.
  { apply validate_lcn_Ok; [apply field_8_width; lia |]. rewrite <- nf_mirror0.
    split; [reflexivity |]. split; [|done]. assert (declared / spc <= declared); [|lia].
    apply N.Div0.div_le_upper_bound. pose proof (cluster_code_bound _ _ nf_cluster0). nia. }
  assert (Hrb : 0 < rz_bytes rec) by lia.
  ok_step.
  read_step. eapply bind_step.
  { apply (decode_record_Ok _ _ _ _ rec); [done |]. rewrite <- nf_record0. done. }
  read_step. eapply bind_step.
  { apply (decode_record_Ok _ _ _ _ idx); [done |]. rewrite <- nf_index0. done. }
  eapply bind_step; [by apply (first_record_bounds_Ok _ _ _ _ _ tt) | cbv beta].
  eapply bind_step; [by apply (first_record_bounds_Ok _ _ _ _ _ tt) | cbv beta].
  eapply bind_step; [apply (records_apart_Ok _ _ _ _ tt); [lia | lia | done] | cbv beta].
  do 6 read_step. done.
Qed.

Lemma parse_geometry_safe bytes : 512 <= len bytes -> parse_geometry bytes <> Panic.
Proof.
  intros Hl. unfold parse_geometry, decode_sectors_per_cluster.
  apply bind_safe; [apply read_le_safe; simpl; lia | intros s _].
  apply bind_safe; [apply refuse_if_safe | intros _ _].
  apply bind_safe; [apply read_le_safe; simpl; lia | intros e _].
  apply bind_safe; [by destruct (_ && _); [|destruct (_ && _)] | intros k Hk].
  apply decode_sectors_Ok, cluster_code_bound in Hk.
  apply bind_safe; [apply ok_or_safe | intros c _].
  apply bind_safe; [apply refuse_if_safe | intros _ _].
  apply bind_safe; [apply read_le_safe; simpl; lia | intros r _].
  safe. apply div_u64_safe. lia.
Qed.
Lemma ntfs_parse_boot_sector_safe bytes : parse_boot_sector bytes <> Panic.
Proof.
  unfold parse_boot_sector, NTFS_BOOT_SECTOR_PREFIX_LEN.
  apply bind_safe; [apply refuse_if_safe |]. intros u Hl. apply refuse_if_Ok, N.ltb_ge in Hl.
  assert (Hr : forall n o, o + N.of_nat n <= 512 -> @read_le NtfsBootSectorError n bytes o <> Panic)
    by (intros; apply read_le_safe; lia).
  unfold validate_reserved_fields, validate_zero, validate_lcn, decode_record_size,
    validate_first_record_bounds, validate_metadata_records_do_not_overlap.
  safe; try (apply Hr; simpl; lia); try by apply parse_geometry_safe.
  - rewrite index_range_in by lia. done.
  - match goal with H : _ ∈ RESERVED_FIELDS |- _ => rename H into Hin end.
    unfold RESERVED_FIELDS in Hin. rewrite !elem_of_cons, elem_of_nil in Hin.
    destruct_or?; simplify_eq; safe; apply Hr; simpl; lia.
Qed.

(** ** The two copies *)
Lemma first_difference_None (l k : list byte) :
  len l = len k -> first_difference l k = None <-> l = k.
Proof.
  unfold first_difference, enumerate. generalize 0 as i. revert k.
  induction l as [|x l IH]; intros [|y k] i Hl; try (by rewrite ?len_cons, ?len_nil in Hl; lia); [done |].
  rewrite !len_cons in Hl. cbn [zip zip_with enumerate_from List.find snd fst].
  case_bool_decide as Hxy; cbn [negb].
  - subst y. rewrite IH by lia. split; [by intros -> | by intros [= ->]].
  - split; [done |]. by intros [= -> _].
Qed.

(** What an accepted region guarantees, and what is enough to be accepted. *)
Definition ntfs_region_of (primary backup : list byte) (partition_bytes backup_offset : N)
    (r : NtfsBootRegion) : Prop :=
  exists b sectors, backup = primary /\ ntfs_boot_sector_of primary b /\
    len primary = nb_bytes_per_sector b /\ partition_bytes = sectors * nb_bytes_per_sector b /\
    nb_declared_sectors b < sectors /\ backup_offset = nb_filesystem_bytes b /\
    r = mkNtfsBootRegion b b partition_bytes sectors backup_offset
          (sectors - nb_declared_sectors b - 1).

Lemma ntfs_sector_bounds b : ntfs_volume b -> 512 <= nb_bytes_per_sector b <= 4096.
Proof. intros Hv. destruct (nv_sector b Hv) as [->|[->|[->| ->]]]; lia. Qed.

Lemma validate_boot_region_iff primary backup partition_bytes backup_offset r :
  validate_boot_region primary backup partition_bytes backup_offset = Ok r <->
  ntfs_region_of primary backup partition_bytes backup_offset r.
Proof.
  unfold validate_boot_region, validate_slice_len, ntfs_region_of. split.
  - intros H. apply bind_Ok in H as (b & Hb & H). apply map_err_Ok, ntfs_parse_boot_sector_sound in Hb.
    pose proof (ntfs_sector_bounds b (proj2 (proj2 Hb))) as Hs. inv_ok. bool_props.
    match goal with H : match first_difference _ _ with _ => _ end = Ok _ |- _ => rename H into Hd end.
    destruct (first_difference _ _) as [[? [? ?]]|] eqn:Hf; [done |].
    apply first_difference_None in Hf as ->; [|congruence].
    match goal with H : parse_boot_sector _ = Ok _ |- _ => rename H into Hb2 end.
    rewrite (ntfs_parse_boot_sector_complete _ _ Hb) in Hb2. injection Hb2 as <-.
    pose proof (N.Div0.div_mod partition_bytes (nb_bytes_per_sector b)) as Hdm.
    exists b, (partition_bytes / nb_bytes_per_sector b).
    split_and!; [done | done | done | lia | done | | done].
    rewrite (nv_filesystem b) by apply Hb. done.
  - intros (b & sectors & -> & Hb & Hl & -> & Hd & -> & ->).
    pose proof (ntfs_sector_bounds b (proj2 (proj2 Hb))) as Hs.
    rewrite (ntfs_parse_boot_sector_complete _ _ Hb). cbn [map_err mbind outcome_bind].
    ok_step. ok_step. rewrite rem_u64_in by lia. cbn [mbind outcome_bind].
    rewrite N.Div0.mod_mul. ok_step. rewrite div_u64_in by lia. cbn [mbind outcome_bind].
    rewrite N.div_mul by lia. ok_step.
    destruct Hb as (_ & _ & Hv). pose proof (nv_filesystem b Hv) as Hf.
    pose proof (nv_minimum b Hv). pose proof (nv_minimum_fits b Hv).
    ok_step. rewrite <- Hf. ok_step.
    rewrite (proj2 (first_difference_None primary primary eq_refl)) by done. cbn [mbind outcome_bind].
    ok_step. ok_step. done.
Qed.
Lemma ntfs_validate_boot_region_safe primary backup partition_bytes backup_offset :
  validate_boot_region primary backup partition_bytes backup_offset <> Panic.
Proof.
  unfold validate_boot_region, validate_slice_len.
  apply bind_safe; [apply map_err_safe, ntfs_parse_boot_sector_safe |]. intros b Hb.
  apply map_err_Ok, ntfs_parse_boot_sector_sound in Hb as (_ & _ & Hv).
  pose proof (ntfs_sector_bounds b Hv). pose proof (nv_filesystem b Hv). pose proof (nv_minimum b Hv).
  pose proof (nv_minimum_fits b Hv).
  apply bind_safe; [apply refuse_if_safe | intros _ _]. apply bind_safe; [apply refuse_if_safe | intros _ _].
  apply bind_safe; [apply rem_u64_safe; lia | intros m _]. apply bind_safe; [apply refuse_if_safe | intros _ _].
  apply bind_safe; [apply div_u64_safe; lia | intros s _]. apply bind_safe; [apply refuse_if_safe |].
  intros u Hs. apply refuse_if_Ok, N.leb_gt in Hs.
  apply bind_safe; [rewrite checked_mul_in by lia; done | intros e _].
  apply bind_safe; [apply refuse_if_safe | intros _ _].
  apply bind_safe; [apply map_err_safe, ntfs_parse_boot_sector_safe | intros b2 _].
  apply bind_safe; [by destruct (first_difference _ _) as [[? [? ?]]|] | intros _ _].
  apply bind_safe; [apply sub_u64_safe; lia |]. intros d Hd. apply sub_u64_Ok in Hd as [-> _].
  apply bind_safe; [apply sub_u64_safe; lia | done].
Qed.

(** * Properties *)

(** C36: [parse_boot_sector] of NTFS never panics, and accepts a sector exactly
    when it carries the fixed bytes, its codes decode to supported sizes, its
    counts fit, and the first records of [$MFT] and [$MFTMirr] lie inside the
    volume and share no byte; the result reports the fields of the sector. *)
Theorem ntfs_boot_sector_contract bytes :
  parse_boot_sector bytes <> Panic /\
  (forall b, parse_boot_sector bytes = Ok b <-> ntfs_boot_sector_of bytes b).
Proof.
  split; [apply ntfs_parse_boot_sector_safe |]. intros b. split.
  - apply ntfs_parse_boot_sector_sound.
  - apply ntfs_parse_boot_sector_complete.
Qed.

(** [validate_boot_region] never panics, and accepts a boot region exactly
    when the two copies are the same valid sector of the declared size, the
    partition is a whole number of sectors with at least one behind the volume,
    and the backup was read from the sector directly behind it; the sectors
    behind the backup are counted and not rejected. *)
Theorem ntfs_boot_region_contract primary backup partition_bytes backup_offset :
  validate_boot_region primary backup partition_bytes backup_offset <> Panic /\
  (forall r, validate_boot_region primary backup partition_bytes backup_offset = Ok r <->
             ntfs_region_of primary backup partition_bytes backup_offset r).
Proof. split; [apply ntfs_validate_boot_region_safe | intros r; apply validate_boot_region_iff]. Qed.

(** A volume of 2,047 sectors of 512 bytes in clusters of 8 sectors. *)
Definition sample_ntfs_sector : list byte :=
  [xeb; x52; x90] ++ NTFS_OEM_ID ++ u16_le 512 ++ [x08] ++ replicate 7 x00 ++ [xf8] ++ replicate 2 x00
  ++ u16_le 63 ++ u16_le 255 ++ u32_le 2048 ++ replicate 4 x00 ++ [x80; x00; x80; x00]
  ++ u64_le 2047 ++ u64_le 4 ++ u64_le 100 ++ [xf6; x00; x00; x00; x01; x00; x00; x00]
  ++ u64_le 81985529216486895 ++ u32_le 0 ++ replicate 426 x00 ++ u16_le 43605.
Definition sample_ntfs_boot : NtfsBootSector :=
  mkNtfsBootSector 512 8 4096 2047 255 1048064 1048576 4 100 (mkRecordSize (-10) 1024)
    (mkRecordSize 1 4096) 81985529216486895 0 248 63 255 2048.
Example sample_ntfs_parses : parse_boot_sector sample_ntfs_sector = Ok sample_ntfs_boot.
Proof. vm_compute. reflexivity. Qed.
Example sample_ntfs_region :
  validate_boot_region sample_ntfs_sector sample_ntfs_sector 1049600 1048064
  = Ok (mkNtfsBootRegion sample_ntfs_boot sample_ntfs_boot 1049600 2050 1048064 2).
Proof. vm_compute. reflexivity. Qed.
